(* ===== verification/_CoqProject ===== *)
-Q . S2P
Prelude.v
Frame.v
Reassembly.v
Sequencing.v
SessionProtocol.v
Primitives.v
SessionState.v
SessionEndpoint.v
SessionOps.v
SessionWorld.v
Crypto.v
Channels.v
Float64.v
Graph.v
ChannelGraph.v
ChannelGraphSpec.v
Paths.v
PathsSpec.v
Tickets.v
WinProb.v
SharedKeys.v
Por.v
Sphinx.v
SphinxSpec.v
MetaPacket.v
MetaPacketSpec.v
Packet.v
PacketSpec.v
TicketStore.v
TicketStoreSpec.v
TicketIndexSpec.v
TicketTable.v
TicketStoreRuns.v
NodeDb.v
NodeDbSpec.v
Protocol.v
ProtocolSpec.v
NodeProtocol.v
NodeProtocolSpec.v
NodeRuns.v
Indexer.v
IndexerSpec.v
IndexerFacts.v
IndexerRuns.v
Logs.v
LogsSpec.v
Blocks.v
BlocksSpec.v
BlockRuns.v
Aggregation.v
AggregationSpec.v
PrepareSpec.v
AggregationRuns.v
Actions.v
ActionsSpec.v
RedeemSpec.v
RedeemSteps.v
RedeemWorld.v
ActionRuns.v
Peers.v
PeersSpec.v
PeerRuns.v
Mixer.v
MixerSpec.v
Strategies.v
StrategiesSpec.v
StrategyWorld.v
StrategyRuns.v
StartProtocol.v
SurbBalancer.v
SessionManager.v
SessionManagerSpec.v
SessionTable.v
SessionHandshake.v
SessionStream.v
SessionStreamSpec.v
SessionRuns.v
