(* ===== verification/Prelude.v ===== *)
(** * Verification of the HOPR node core

    HOPR is a mix network.  A node cuts application data into frames and
    segments (sessions), chooses relayers along funded payment channels (path
    selection), wraps each packet for them (Sphinx), and pays each relayer with
    a probabilistic ticket that can be redeemed only by who really forwarded
    the packet (proof of relay).  Tickets, channels and accounts live in a
    database that follows the contracts on chain (the indexer).  This library
    models this part of the Rust implementation and proves what makes it
    correct.

    ** The parts, bottom up

    - [Prelude] (this file): the outcome of a call, machine integers, byte
      codecs, the state monad of the stateful components with its equations
      [run] and its invariant rule [keeps], and the lemmas on lists and maps
      they share.
    - [Primitives]: [common/primitive-types/src]: 256-bit integers, balances,
      addresses, bounded values and vectors, log order, moving averages.
    - [Float64]: exact arithmetic on the doubles of the unit interval, on which
      both amounts and winning probabilities rest.
    - [Crypto]: [crypto/types/src]: half-keys, challenges, responses, ECDSA
      signatures with an embedded recovery bit, the verifiable random function
      of redeemed tickets.
    - [Channels]: [internal-types/src/channels.rs]: channel entries, their
      status and closure clock, the difference of two entries.
    - [Tickets], [WinProb]: [internal-types/src/tickets.rs]: the ticket, its
      builder, its wire format and hash, and the chain of types a ticket
      passes from built to redeemable; the winning probability.
    - [SharedKeys], [Sphinx], [SphinxSpec], [MetaPacket], [MetaPacketSpec]:
      [crypto/sphinx/src]: key derivation, the onion header, forward packets
      and single-use reply blocks.
    - [Por]: [crypto/packet/src/por.rs] and [validation.rs]: the challenges
      and key shares of a path, and what a relayer checks on a ticket.
    - [Packet], [PacketSpec]: [crypto/packet/src/packet.rs] and [types.rs]:
      messages with reply blocks, outgoing, forwarded and final packets.
    - [Graph], [ChannelGraph], [ChannelGraphSpec]: [logic/path/src/
      channel_graph.rs] over an interface to the graph library, and its
      refinement of a finite map of channels.
    - [Paths], [PathsSpec]: [logic/path/src/lib.rs] and [selectors/dfs.rs]: the
      types of paths, their validation and the randomized best-first search.
    - [Frame], [Reassembly], [Sequencing]: [common/network-types/src/session/
      frame.rs]: segmentation and the frame reassembler; what it does for an
      honest sender, then for an arbitrary one.
    - [SessionProtocol]: [session/protocol.rs]: the messages of a session and
      their stream encoding.
    - [SessionState], [SessionEndpoint], [SessionOps], [SessionWorld]:
      [session/state.rs]: one end of a session as a state machine, its
      invariant, what each operation does, and two ends over a bad network.
    - [TicketStore], [TicketStoreSpec], [TicketIndexSpec], [TicketTable],
      [TicketStoreRuns]: [db/sql/src/tickets.rs] and [ticket_manager.rs]: the
      ticket table with statistics, outgoing indices, caches and the queue of
      insertions; the selectors as SQL conditions; the table as a plain list.
    - [NodeDb], [NodeDbSpec]: [db/sql/src/channels.rs], [accounts.rs],
      [resolver.rs], [registry.rs], [info.rs]: the index database and the
      caches in front of it.
    - [Protocol], [ProtocolSpec]: [internal-types/src/protocol.rs]:
      acknowledgements, the tag filter, application data.
    - [NodeProtocol], [NodeProtocolSpec], [NodeRuns]: [db/sql/src/protocol.rs]:
      the packet pipeline of a node over its database, with the buffers of
      reply blocks.
    - [Indexer], [IndexerSpec], [IndexerFacts], [IndexerRuns]:
      [chain/indexer/src/handlers.rs]: the contract events as operations on
      the database.
    - [Logs], [LogsSpec]: [db/sql/src/logs.rs]: the raw logs and the chain of
      checksums over them.
    - [Blocks], [BlocksSpec], [BlockRuns]: [chain/indexer/src/block.rs]: the
      start of the indexer and its loop over blocks.
    - [Aggregation], [AggregationSpec], [PrepareSpec], [AggregationRuns]:
      the other part of [db/sql/src/tickets.rs]: the aggregation of tickets,
      on the side of their holder and of their issuer.
    - [Actions], [ActionsSpec], [RedeemSpec], [RedeemSteps], [RedeemWorld],
      [ActionRuns]: [chain/actions/src]: what the node asks of the chain, the
      queue of its actions and the table of the events that confirm them; the
      requests that redeem tickets also step by step, and many of them at once.
    - [Peers], [PeersSpec], [PeerRuns]: [db/sql/src/peers.rs],
      [transport/network/src/network.rs]: the peer table and the network in
      front of it, with qualities, back-off and health.
    - [Mixer], [MixerSpec]: [transport/mixer/src]: the channel that delays and
      mixes packets.
    - [Strategies], [StrategiesSpec], [StrategyWorld], [StrategyRuns]:
      [logic/strategy/src]: what a node does by itself with its channels and
      tickets, over its actions, its peers and its databases.
    - [StartProtocol], [SurbBalancer], [SessionManager], [SessionManagerSpec],
      [SessionTable], [SessionHandshake], [SessionStream],
      [SessionStreamSpec], [SessionRuns]: [transport/session/src]: how sessions
      are opened, fed, kept and closed, the bytes in and out of one, and the
      rate of its keep-alive messages.  A session that uses the Session
      protocol runs [SessionState] over the stream of [SessionStream].

    The dependencies follow the code: a ticket uses balances, signatures and
    the VRF; a relayer's check uses tickets and channels; path selection uses
    the channel graph, which uses channel entries; the pipeline uses packets,
    tickets and the two databases; the indexer writes what the pipeline reads.
    One record stands for each shared object: [TicketManager] for the ticket
    database with its caches, [HoprDb] for the index with it and the caches,
    [LogsDb] for the logs, [Store] for [HoprDb] and [LogsDb] together.

    ** How the code is read

    A function that can fail or panic returns an [outcome]; a method that
    mutates its receiver passes the state (one record per shared object, since
    the clones of the source share it through [Arc]).  A transaction is a
    computation whose state is put back on an error; caches that are written
    inside one are not ([NodeDb.index_rollback]).  An [async] method that
    takes one short lock is one step, and an interleaving of tasks is a
    sequence of steps ([SessionState.step], [SessionState.reachable],
    [SessionWorld.linked], the histories of [TicketStoreSpec]).  A method that
    lets a lock go, or holds none, in the middle of what should be atomic is cut
    there, and theorems about interleavings speak of its steps: redemption
    requests ([RedeemSteps.call_step]) and the start of an aggregation
    ([Strategies.agg_call_step]); each with a lemma that its steps without
    interruption are the method.  Integers are
    [Z] with wrap-around, saturation or failure written out where the source
    has it; a [f64] is a [spec_float] at 53 bits.  A query without [ORDER BY]
    returns its rows in an order left open ([TicketStore.ScanOrder]).  Clocks,
    random draws and the iteration order of concurrent maps are arguments of
    the step, so a theorem holds for every choice of them.

    ** Code that is not in the repository

    The elliptic curve, hashes, raw ECDSA ([Crypto.Secp256k1]), KDF, PRG and
    PRP and Curve25519 ([SharedKeys], [Sphinx]), the polynomial hash, Ed25519
    and the Bloom filter ([Protocol]), hexadecimal ([TicketStore.HexCodec]),
    multiaddresses ([NodeDb.Multiaddrs],
    [Actions.MultiaddrProtocols]), petgraph ([Graph.StableDiGraph]), the
    binary heap ([Paths.Heap], [Mixer.MinHeap]), powers of doubles
    ([SessionState.FloatPow], [Peers.FloatPowf]), peer ids ([Peers.PeerIds]),
    the encoding of moving averages ([Peers.SmaCodec]), versions
    ([Strategies.SemVer]), the serializer of the Start protocol
    ([StartProtocol.Bincode]), the PID controller
    ([SurbBalancer.PidController]),
    the decoding of logs and the topics of events ([Indexer.LogDecoder],
    [Blocks.EventSignatures]) are classes of operations; what the code relies
    on is a class of laws beside each, and each class of laws has an instance
    ([Crypto.Z3_curve], [Graph.map_graph_laws], [PathsSpec.list_heap_laws],
    [TicketStoreRuns.plain_hex_laws], [NodeRuns.toy_ed25519_laws] and the like),
    so that the theorems that use it speak of something.

    ** What is shown

    - Sessions.  Whatever the order and repetition in which segments arrive,
      the reassembler emits the longest complete prefix of the frames, with
      their bytes ([Reassembly]).  With arbitrary segments the invariant of
      the reassembler holds and nothing panics except on inconsistent lengths,
      which is stated too ([Sequencing]).  Every state that an endpoint
      reaches keeps its buffers bounded and its messages within the MTU
      ([SessionEndpoint]); each operation sends exactly the messages it should
      ([SessionOps]); over a network that loses, duplicates and reorders, two
      endpoints never deliver a changed frame, and deliver all of them in
      order once their segments arrive ([SessionWorld]).  All messages
      round-trip through bytes ([Frame], [SessionProtocol]).
    - Packets.  A packet arrives with its message along any path, also over a
      reply block; relayers see nothing but what is theirs to forward
      ([SphinxSpec], [MetaPacketSpec], [PacketSpec]).
    - Payments.  Signatures recover their signer, VRF outputs verify, tickets
      round-trip, a ticket signed by its issuer verifies and no other type in
      the chain can be reached without the checks the chain stands for
      ([Crypto], [Tickets]); winning probabilities compare as a total preorder
      and convert without loss ([WinProb]); the half-keys a relayer collects
      always open the challenge of its ticket, and a ticket is accepted
      exactly when the listed conditions hold ([Por]).
    - Routing.  The channel graph is at every moment the map of the channels
      it was told of ([ChannelGraphSpec]); a path the search returns is a
      route of usable open channels, the search terminates, and when it fails
      below its iteration limit there is no such route; a path validates
      exactly when its channels are open ([PathsSpec]).
    - The database.  The books of every channel balance over any history;
      selectors select what they describe; outgoing indices never repeat
      ([TicketStoreSpec], [TicketIndexSpec]); the channel table with its cache
      is a list of channels ([NodeDbSpec]).
    - The pipeline.  A forwarded packet is paid for, a relayed packet earns its
      ticket; reply blocks are used at most once, oldest first, and are kept
      while their pseudonym stays in the cache, whose idle time and capacity
      are modelled ([NodeProtocolSpec]).
    - The indexer.  Channels and tickets follow the chain ([IndexerSpec]);
      balances, key bindings and the minimum winning probability do
      ([IndexerFacts]).  The log database is a list of logs with a running
      hash ([LogsSpec]); streaming handles each block once, and replaying the
      stored logs rebuilds the same index ([BlocksSpec]).
    - Aggregation.  The issuer pays for disjoint winning tickets of its own and
      for each once; the holder gives what it marks and replaces exactly that;
      a round between the two keeps the value of the channel
      ([AggregationSpec], [PrepareSpec]).
    - Actions.  An action is confirmed only by an event of its own transaction
      ([ActionsSpec]); redeeming submits and marks exactly the selected
      tickets ([RedeemSpec]), and in any interleaving of the steps of
      requests and of the queue no ticket has two redemptions under way, as
      long as no two streams that mark tickets share an unmarked row
      ([RedeemWorld]).
    - Peers.  The network over its table is a finite map of peers; a heartbeat
      pings exactly those that are due ([PeersSpec]).
    - The mixer.  Nothing is repeated or released before the clock reaches its
      release time or out of order, what has not left stays in the buffer, and
      a receiver that keeps polling gets everything ([MixerSpec]).
    - Strategies.  The decisions of the promiscuous strategy are the ones it
      implements and stay within its budget ([StrategiesSpec]); aggregations
      in a channel do not overlap as long as no two calls are between the check
      and the insertion at once ([StrategyWorld]).
    - The session manager.  In any history it is a table of streams, where a
      payload reaches the session of its tag and pseudonym or none
      ([SessionTable]); an exit finds a free tag or says that there is none,
      and a handshake leaves both sides with one session
      ([SessionHandshake]); what is written is read, and the balancer's
      estimate is exact up to its lowest point ([SessionStreamSpec]).

    Theorems about errors state what goes wrong: a block that is stored twice
    is skipped, an emptied index is not rebuilt without fast synchronisation, a
    malformed acknowledgement panics, a refused account resolves, inconsistent
    segment lengths abort, a redemption confirmed too early times out
    ([RedeemSpec.early_redemption_lost]), two requests at once submit a ticket
    twice ([ActionRuns.overlapping_streams_redeem_twice]) and two handlers at
    once start two aggregations ([StrategyWorld.two_calls_start_twice]).

    ** Fuel and bounds

    Loops of the source that are not structural take fuel.  For each a theorem
    gives enough: [evict] needs the number of ids it can skip
    ([Sequencing]), the acknowledgement loop the length of its queue
    ([SessionOps]), the search the explicit bound of
    [PathsSpec.select_path_complete], the search for a slot one more than the
    entries of its cache ([SessionManagerSpec.insert_into_next_slot_exact]).  No theorem holds because fuel ran out.

    ** Not modelled

    The RPC client, the generated bindings, the swarm and its protocols, the
    REST API and the binaries are input and output around this core: their
    behaviour is that of sockets, HTTP and processes, which a model would have
    to make up.  The pinger and the heartbeat, the streams of the ticket
    aggregation protocol and the pipelines of the transport only schedule
    operations that are modelled; the payload generators build calls of the
    bindings.  Randomness, executors and thread pools are arguments and steps.
    Metrics, logging, serde and formatting are left out everywhere, as are
    failures of the database connection and the copying between a session and
    a socket. *)
From stdpp Require Export base numbers list list_numbers gmap sets strings.
From Stdlib Require Export Lia.
From Stdlib Require Import Sorting.Sorted.

#[export] Set Default Proof Using "Type".

Open Scope Z_scope.

(** ** Fallible computations

    [outcome E A] is what a call of a Rust function can do: return a value,
    return an error, or panic (index out of bounds, [unwrap] of an error, a
    failed assertion).  The release profile aborts the process on a panic. *)
Inductive outcome (E A : Type) : Type :=
| Ok (a : A)
| Err (e : E)
| Panic.
Arguments Ok {E A} a.
Arguments Err {E A} e.
Arguments Panic {E A}.

#[export] Instance outcome_ret {E} : MRet (outcome E) := λ A a, Ok a.
#[export] Instance outcome_bind {E} : MBind (outcome E) := λ A B k m,
  match m with Ok a => k a | Err e => Err e | Panic => Panic end.
#[export] Instance outcome_fmap {E} : FMap (outcome E) := λ A B f m,
  match m with Ok a => Ok (f a) | Err e => Err e | Panic => Panic end.

#[export] Instance outcome_eq_dec {E A} `{EqDecision E, EqDecision A} :
  EqDecision (outcome E A).
Proof. solve_decision. Defined.

Definition is_Ok {E A} (m : outcome E A) : Prop := ∃ a, m = Ok a.

(** [Option::ok_or]. *)
Definition ok_or {E A} (o : option A) (e : E) : outcome E A :=
  match o with Some a => Ok a | None => Err e end.

(** [Result::map_err]; a panic is not caught. *)
Definition map_err {E F A} (f : E → F) (m : outcome E A) : outcome F A :=
  match m with Ok a => Ok a | Err e => Err (f e) | Panic => Panic end.

(** [Result::unwrap] and [Option::unwrap]: the failure becomes a panic. *)
Definition unwrap {E F A} (m : outcome E A) : outcome F A :=
  match m with Ok a => Ok a | Err _ => Panic | Panic => Panic end.
Definition unwrap_option {E A} (o : option A) : outcome E A :=
  match o with Some a => Ok a | None => Panic end.

(** *** Inverting a successful call *)
Lemma bind_Ok {E A B} (m : outcome E A) (k : A → outcome E B) b :
  m ≫= k = Ok b ↔ ∃ a, m = Ok a ∧ k a = Ok b.
Proof.
  destruct m as [a|e|]; cbn; [|split; [done|by intros (? & ? & _)]..].
  split; [by exists a|]. by intros (? & [= ->] & ?).
Qed.

Lemma map_err_Ok {E F A} (f : E → F) (m : outcome E A) a : map_err f m = Ok a ↔ m = Ok a.
Proof. destruct m; cbn; [|done..]. split; by intros [= ->]. Qed.

Lemma ok_or_Ok {E A} (o : option A) (e : E) a : ok_or o e = Ok a ↔ o = Some a.
Proof. destruct o; cbn; [|done]. split; by intros [= ->]. Qed.

Lemma unwrap_option_Ok {E A} (o : option A) a : unwrap_option (E:=E) o = Ok a ↔ o = Some a.
Proof. destruct o; cbn; [|done]. split; by intros [= ->]. Qed.

Create Rewrite HintDb oks.
#[export] Hint Rewrite @bind_Ok @map_err_Ok @ok_or_Ok @unwrap_option_Ok : oks.

Lemma mapM_Ok {E A B} (f : A → outcome E B) l k :
  mapM f l = Ok k → Forall2 (λ x y, f x = Ok y) l k.
Proof.
  revert k. induction l as [|x l IH]; intros k Hk; cbn [mapM] in Hk; [by injection Hk as <-|].
  apply bind_Ok in Hk as (y & Hy & (k' & Hk' & [= <-])%bind_Ok). constructor; [done|by apply IH].
Qed.

(** ** Stateful fallible computations: the methods that mutate [self]

    The state survives an error: an early return keeps the writes done so
    far. *)
Definition SM (S E A : Type) : Type := S → S * outcome E A.

#[export] Instance SM_ret {S E} : MRet (SM S E) := λ A a s, (s, Ok a).
#[export] Instance SM_bind {S E} : MBind (SM S E) := λ A B k m s,
  match m s with
  | (s', Ok a) => k a s'
  | (s', Err e) => (s', Err e)
  | (s', Panic) => (s', Panic)
  end.

Section StateMonad.
Context {S E : Type}.
Definition throw {A} (e : E) : SM S E A := λ s, (s, Err e).
Definition get : SM S E S := λ s, (s, Ok s).
Definition modify (f : S → S) : SM S E unit := λ s, (f s, Ok tt).
Definition lift {A} (m : outcome E A) : SM S E A := λ s, (s, m).
End StateMonad.

(** The equations by which a computation runs from a known state. *)
Section Run.
Context {S E : Type}.

Lemma run_get {A} (k : S → SM S E A) s : (get ≫= k) s = k s s.
Proof. done. Qed.

Lemma run_modify {A} f (k : unit → SM S E A) s : (modify f ≫= k) s = k tt (f s).
Proof. done. Qed.

Lemma run_lift {A B} (a : A) (k : A → SM S E B) s : (lift (Ok a) ≫= k) s = k a s.
Proof. done. Qed.

Lemma run_ret {A B} (a : A) (k : A → SM S E B) s : (mret a ≫= k) s = k a s.
Proof. done. Qed.

Lemma run_bind {A B C} (m : SM S E A) (f : A → SM S E B) (k : B → SM S E C) s :
  ((m ≫= f) ≫= k) s = (m ≫= λ a, f a ≫= k) s.
Proof. unfold mbind, SM_bind. by destruct (m s) as [s' [| |]]. Qed.

Lemma run_Ok {A B} (m : SM S E A) (k : A → SM S E B) s s' a :
  m s = (s', Ok a) → (m ≫= k) s = k a s'.
Proof. unfold mbind, SM_bind. by intros ->. Qed.

Lemma run_Ok_inv {A B} (m : SM S E A) (k : A → SM S E B) s s' b :
  (m ≫= k) s = (s', Ok b) → ∃ s1 a, m s = (s1, Ok a) ∧ k a s1 = (s', Ok b).
Proof. unfold mbind, SM_bind. destruct (m s) as [s1 [a| |]]; [by eauto|done..]. Qed.
End Run.

Create Rewrite HintDb run.
#[export] Hint Rewrite @run_get @run_modify @run_lift @run_ret @run_bind : run.

(** Runs a stateful function over a list, ignoring the errors of the single
    calls (the caller logs and drops them) but keeping their effects. *)
Definition run_all {S E A B} (f : A → SM S E B) (l : list A) (s : S) : S :=
  foldl (λ s x, fst (f x s)) s l.

Lemma run_all_app {S E A B} (f : A → SM S E B) l1 l2 s :
  run_all f (l1 ++ l2) s = run_all f l2 (run_all f l1 s).
Proof. apply foldl_app. Qed.

(** The generic invariant rule for [run_all]. *)
Lemma run_all_invariant {S E A B} (f : A → SM S E B) (I : S → Prop) l s :
  (∀ x s, x ∈ l → I s → I (fst (f x s))) → I s → I (run_all f l s).
Proof.
  revert s. induction l as [|x l IH]; intros s Hf HI; [done|].
  apply IH; [intros; apply Hf; [by right|done]|]. apply Hf; [by left|done].
Qed.

(** ** Invariants of stateful computations

    [keeps np I m]: [m] preserves the state invariant [I] on every exit, and
    with [np] it does not panic either. *)
Section Keeps.
Context {S E : Type} (np : bool) (I : S → Prop).

Definition keeps {A} (m : SM S E A) : Prop :=
  ∀ s, I s → I (fst (m s)) ∧ (np = true → snd (m s) ≠ Panic).

Lemma keeps_ret {A} (a : A) : keeps (mret a).
Proof. by intros s Hs. Qed.

Lemma keeps_throw {A} e : keeps (throw (A:=A) e).
Proof. by intros s Hs. Qed.

Lemma keeps_modify f : (∀ s, I s → I (f s)) → keeps (modify f).
Proof. intros Hf s Hs. by split; [apply Hf|]. Qed.

Lemma keeps_lift {A} (m : outcome E A) : (np = true → m ≠ Panic) → keeps (lift m).
Proof. intros Hm s Hs. by split. Qed.

Lemma keeps_bind {A B} (m : SM S E A) (k : A → SM S E B) :
  keeps m → (∀ a, keeps (k a)) → keeps (m ≫= k).
Proof.
  intros Hm Hk s Hs. unfold mbind, SM_bind. specialize (Hm s Hs).
  destruct (m s) as [s' [a|e|]]; simpl in *; destruct Hm as [Hs' Hp];
    [by apply Hk|done|]. split; [done|]. intros Hnp. by destruct (Hp Hnp).
Qed.

Lemma keeps_ret_bind {A B} (a : A) (k : A → SM S E B) : keeps (k a) → keeps (mret a ≫= k).
Proof. intros Hk s Hs. by apply (Hk s). Qed.

(** A read: the continuation may use that the state it reads is good. *)
Lemma keeps_get {B} (k : S → SM S E B) : (∀ s, I s → keeps (k s)) → keeps (get ≫= k).
Proof. intros Hk s Hs. by apply (Hk s). Qed.

Lemma keeps_lift_bind {A B} (m : outcome E A) (k : A → SM S E B) :
  (np = true → m ≠ Panic) → (∀ a, m = Ok a → keeps (k a)) → keeps (lift m ≫= k).
Proof.
  intros Hm Hk s Hs. unfold mbind, SM_bind, lift. destruct m as [a|e|]; [by apply Hk|done|].
  split; [done|]. intros Hnp. by destruct (Hm Hnp).
Qed.

Lemma keeps_apply {A} (m : SM S E A) s : keeps m → I s → I (fst (m s)).
Proof. intros Hm Hs. by apply Hm. Qed.
End Keeps.

(** ** Machine integers

    A [u{w}] is a [Z] in [0, 2^w); [wrap w] is the value an [as u{w}] cast or
    a wrapping (release profile, atomic) operation leaves. *)
Definition wrap (w z : Z) : Z := z `mod` 2 ^ w.
Definition in_u (w z : Z) : Prop := 0 ≤ z < 2 ^ w.
Definition u_max (w : Z) : Z := 2 ^ w - 1.

#[export] Instance in_u_dec w z : Decision (in_u w z).
Proof. unfold in_u. apply _. Defined.

#[global] Arguments wrap : simpl never.

Lemma wrap_in_u w z : 0 ≤ w → in_u w (wrap w z).
Proof. intros. apply Z.mod_pos_bound. lia. Qed.

Lemma wrap_small w z : in_u w z → wrap w z = z.
Proof. apply Z.mod_small. Qed.

Lemma in_u_0 w : 0 ≤ w → in_u w 0.
Proof. unfold in_u. lia. Qed.

Create HintDb ints.
#[export] Hint Resolve wrap_in_u wrap_small in_u_0 : ints.

(** [u64::saturating_sub] and friends. *)
Definition saturating_sub (a b : Z) : Z := Z.max 0 (a - b).

(** [a.div_ceil(b)] on [usize]. *)
Definition div_ceil (a b : Z) : Z := (a + b - 1) `div` b.

(** ** Bytes and big-endian encodings *)
Abbreviation bytes := (list Z).
Definition bytes_wf (bs : bytes) : Prop := Forall (in_u 8) bs.

#[export] Instance bytes_wf_dec bs : Decision (bytes_wf bs).
Proof. unfold bytes_wf. apply _. Defined.

(** [to_be_bytes] on an [n]-byte integer and [from_be_bytes]. *)
Definition to_be (n : nat) (z : Z) : bytes := reverse (Z_to_little_endian (Z.of_nat n) 8 z).
Definition from_be (bs : bytes) : Z := little_endian_to_Z 8 (reverse bs).

#[global] Arguments to_be : simpl never.
#[global] Arguments from_be : simpl never.

Lemma length_to_be n z : length (to_be n z) = n.
Proof.
  unfold to_be. rewrite length_reverse.
  apply Nat2Z.inj, length_Z_to_little_endian. lia.
Qed.

Lemma to_be_wf n z : bytes_wf (to_be n z).
Proof.
  unfold bytes_wf, to_be. apply Forall_reverse, Z_to_little_endian_bound; lia.
Qed.

Lemma from_be_to_be n z : from_be (to_be n z) = wrap (8 * Z.of_nat n) z.
Proof.
  unfold from_be, to_be, wrap. rewrite reverse_involutive.
  rewrite little_endian_to_Z_to_little_endian by lia. f_equal. f_equal. lia.
Qed.

Lemma from_be_to_be_small n z : in_u (8 * Z.of_nat n) z → from_be (to_be n z) = z.
Proof. intros. rewrite from_be_to_be. by apply wrap_small. Qed.

Lemma to_be_from_be n bs : bytes_wf bs → length bs = n → to_be n (from_be bs) = bs.
Proof.
  intros Hwf <-. unfold to_be, from_be.
  rewrite Z_to_little_endian_to_Z; [apply reverse_involutive| | |].
  - by rewrite length_reverse.
  - lia.
  - by apply Forall_reverse.
Qed.

Lemma from_be_bound bs : bytes_wf bs → in_u (8 * Z.of_nat (length bs)) (from_be bs).
Proof.
  intros Hwf. unfold in_u, from_be. rewrite <-(length_reverse bs), Z.mul_comm.
  apply little_endian_to_Z_bound; [lia|]. by apply Forall_reverse.
Qed.

(** The low-order bytes of an encoding are the shorter encoding. *)
Lemma take_Z_to_little_endian m n z : (m ≤ n)%nat →
  take m (Z_to_little_endian (Z.of_nat n) 8 z) = Z_to_little_endian (Z.of_nat m) 8 z.
Proof.
  revert n z. induction m as [|m IH]; intros n z Hmn; [done|]. destruct n as [|n]; [lia|].
  rewrite !Nat2Z.inj_succ, !Z_to_little_endian_succ by lia. simpl. f_equal. apply IH. lia.
Qed.

Lemma drop_to_be k n z : (k ≤ n)%nat → drop k (to_be n z) = to_be (n - k) z.
Proof.
  intros Hk. unfold to_be. rewrite <-(take_Z_to_little_endian (n - k) n) by lia.
  set (l := Z_to_little_endian (Z.of_nat n) 8 z).
  assert (length l = n) as Hl by (apply Nat2Z.inj, length_Z_to_little_endian; lia).
  rewrite <-(take_drop (n - k) l) at 1. rewrite reverse_app.
  apply drop_app_length'. rewrite length_reverse, length_drop. lia.
Qed.

Lemma from_be_zeros k bs : from_be (replicate k 0 ++ bs) = from_be bs.
Proof.
  unfold from_be. rewrite reverse_app, reverse_replicate.
  generalize (reverse bs) as l. intros l. induction l as [|b l IH]; simpl.
  - induction k as [|k IHk]; simpl; [done|]. rewrite IHk. done.
  - by rewrite IH.
Qed.

Lemma little_endian_snoc l x :
  bytes_wf l → in_u 8 x →
  little_endian_to_Z 8 (l ++ [x]) = little_endian_to_Z 8 l + x * 2 ^ (8 * Z.of_nat (length l)).
Proof.
  induction 1 as [|b l Hb Hl IH]; intros Hx; cbn [app little_endian_to_Z length].
  - rewrite Z.lor_0_r, Z.mul_1_r. cbn. lia.
  - rewrite (IH Hx). 
    assert (∀ y, Z.lor b (y ≪ 8) = b + y * 2 ^ 8) as Hlor.
    { intros y. rewrite Z.shiftl_mul_pow2 by lia. unfold in_u in Hb.
      rewrite <-Z.lxor_lor, <-Z.add_nocarry_lxor; [done|..];
        apply Z.bits_inj'; intros i Hi; rewrite Z.land_spec, Z.mul_pow2_bits, Z.bits_0 by lia;
        (destruct (Z.ltb_spec i 8); [by rewrite (Z.testbit_neg_r y), andb_false_r by lia|]);
        rewrite <-(Z.mod_small b (2^8)) by lia; by rewrite Z.mod_pow2_bits_high by lia. }
    rewrite !Hlor, Nat2Z.inj_succ.
    replace (8 * Z.succ (Z.of_nat (length l))) with (8 * Z.of_nat (length l) + 8) by lia.
    rewrite Z.pow_add_r by lia. ring.
Qed.

Lemma from_be_cons x l :
  in_u 8 x → bytes_wf l → from_be (x :: l) = x * 2 ^ (8 * Z.of_nat (length l)) + from_be l.
Proof.
  intros Hx Hl. unfold from_be. rewrite reverse_cons, little_endian_snoc, length_reverse; [lia| |done].
  by apply Forall_reverse.
Qed.

Lemma to_be_wrap n z : to_be n (wrap (8 * Z.of_nat n) z) = to_be n z.
Proof.
  rewrite <-from_be_to_be. apply to_be_from_be; [apply to_be_wf|apply length_to_be].
Qed.

#[export] Hint Resolve to_be_wf : ints.
#[global] Opaque to_be from_be.
Create Rewrite HintDb lens.
#[export] Hint Rewrite length_to_be : lens.
#[export] Hint Rewrite @length_app @length_replicate @length_take @length_drop
  @length_fmap @length_reverse @length_cons @length_nil : lens.

(** ** Slices *)

(** [&l[i..j]]: panics when the range is not within the slice. *)
Definition slice {E A} (i j : Z) (l : list A) : outcome E (list A) :=
  if bool_decide (0 ≤ i ≤ j ∧ j ≤ Z.of_nat (length l))
  then Ok (take (Z.to_nat (j - i)) (drop (Z.to_nat i) l)) else Panic.

(** [l[i]]: panics when out of range. *)
Definition index {E A} (i : Z) (l : list A) : outcome E A :=
  if bool_decide (0 ≤ i) then unwrap_option (l !! Z.to_nat i) else Panic.

Lemma slice_app_middle {E A} (l1 l2 l3 : list A) i j :
  i = Z.of_nat (length l1) → j = i + Z.of_nat (length l2) →
  slice (E:=E) i j (l1 ++ l2 ++ l3) = Ok l2.
Proof.
  intros -> ->. unfold slice. rewrite bool_decide_eq_true_2.
  - rewrite Nat2Z.id, drop_app_length.
    by replace (Z.to_nat _) with (length l2) by lia; rewrite take_app_length.
  - autorewrite with lens. lia.
Qed.

(** The [i]-th of the pieces that make up a buffer. *)
Lemma slice_concat {A} (ps : list (list A)) i p k n :
  ps !! i = Some p → sum_list (length <$> take i ps) = k → length p = n →
  take n (drop k (concat ps)) = p.
Proof.
  intros Hp <- <-. revert i Hp. induction ps as [|q ps IH]; intros [|i] Hp; try done.
  - injection Hp as ->. apply take_app_length.
  - cbn [take fmap list_fmap sum_list concat].
    unfold id at 1. rewrite drop_app_ge by lia. rewrite Nat.add_comm, Nat.add_sub. by apply IH.
Qed.

(** The same with natural numbers; writing into a buffer; moving a part of it
    ([copy_within], which handles overlaps).  Each panics out of range, or when
    source and target differ in length. *)
Definition range {E A} (i j : nat) (l : list A) : outcome E (list A) :=
  if bool_decide (i ≤ j ∧ j ≤ length l)%nat then Ok (take (j - i) (drop i l)) else Panic.

Definition copy_from_slice {E A} (i j : nat) (src l : list A) : outcome E (list A) :=
  if bool_decide (i ≤ j ∧ j ≤ length l ∧ length src = j - i)%nat
  then Ok (take i l ++ src ++ drop j l) else Panic.

Definition copy_within {E A} (i j dest : nat) (l : list A) : outcome E (list A) :=
  if bool_decide (i ≤ j ∧ j ≤ length l ∧ dest + (j - i) ≤ length l)%nat
  then Ok (take dest l ++ take (j - i) (drop i l) ++ drop (dest + (j - i)) l) else Panic.

Lemma range_ok {E A} i j (l1 l2 l3 : list A) :
  i = length l1 → j = (i + length l2)%nat → range (E:=E) i j (l1 ++ l2 ++ l3) = Ok l2.
Proof.
  intros -> ->. unfold range. rewrite bool_decide_eq_true_2 by (autorewrite with lens; lia).
  rewrite drop_app_length. by rewrite take_app_length' by lia.
Qed.

Lemma copy_from_slice_ok {E A} i j (src l1 l2 l3 : list A) :
  i = length l1 → j = (i + length l2)%nat → length src = length l2 →
  copy_from_slice (E:=E) i j src (l1 ++ l2 ++ l3) = Ok (l1 ++ src ++ l3).
Proof.
  intros -> -> Hs. unfold copy_from_slice.
  rewrite bool_decide_eq_true_2 by (autorewrite with lens; lia).
  rewrite take_app_length, <-drop_drop, drop_app_length, drop_app_length. done.
Qed.

(** Within range these always succeed and keep the length. *)
Lemma range_total {E A} i j (l : list A) :
  (i ≤ j ≤ length l)%nat → ∃ x, range (E:=E) i j l = Ok x ∧ length x = (j - i)%nat.
Proof.
  intros Hi. unfold range. rewrite bool_decide_eq_true_2 by lia. eexists. split; [done|].
  autorewrite with lens. lia.
Qed.

Lemma copy_from_slice_total {E A} i j (src l : list A) :
  (i ≤ j ≤ length l)%nat → length src = (j - i)%nat →
  ∃ x, copy_from_slice (E:=E) i j src l = Ok x ∧ length x = length l.
Proof.
  intros Hi Hs. unfold copy_from_slice. rewrite bool_decide_eq_true_2 by lia. eexists. split; [done|].
  autorewrite with lens. lia.
Qed.

Lemma copy_within_total {E A} i j dest (l : list A) :
  (i ≤ j ≤ length l)%nat → (dest + (j - i) ≤ length l)%nat →
  ∃ x, copy_within (E:=E) i j dest l = Ok x ∧ length x = length l.
Proof.
  intros Hi Hd. unfold copy_within. rewrite bool_decide_eq_true_2 by lia. eexists. split; [done|].
  autorewrite with lens. lia.
Qed.

(** [slice.chunks(n)]: consecutive pieces of [n] elements, the last one
    possibly shorter.  [length l] is enough fuel since [0 < n] in every use. *)
Fixpoint chunks_fuel {A} (fuel : nat) (n : nat) (l : list A) : list (list A) :=
  match fuel, l with
  | O, _ | _, [] => []
  | S fuel, _ => take n l :: chunks_fuel fuel n (drop n l)
  end.
Definition chunks {A} (n : nat) (l : list A) : list (list A) := chunks_fuel (length l) n l.

(** [slice.chunks_exact(n)]: the same without an incomplete last piece. *)
Definition chunks_exact {A} (n : nat) (l : list A) : list (list A) :=
  filter (λ c, length c = n) (chunks n l).

Lemma concat_chunks_fuel {A} fuel n (l : list A) :
  (0 < n)%nat → (length l ≤ fuel)%nat → concat (chunks_fuel fuel n l) = l.
Proof.
  intros Hn. revert l. induction fuel as [|fuel IH]; intros [|x l] Hl; simpl in *; try done; [lia|].
  destruct n as [|n]; [lia|]. simpl. rewrite IH.
  - by rewrite take_drop.
  - rewrite length_drop. lia.
Qed.

Lemma concat_chunks {A} n (l : list A) : (0 < n)%nat → concat (chunks n l) = l.
Proof. intros. by apply concat_chunks_fuel. Qed.

Lemma length_chunks_fuel {A} fuel n (l : list A) :
  (0 < n)%nat → (length l ≤ fuel)%nat →
  Z.of_nat (length (chunks_fuel fuel n l)) = div_ceil (Z.of_nat (length l)) (Z.of_nat n).
Proof.
  intros Hn. unfold div_ceil. revert l. induction fuel as [|fuel IH]; intros [|x l] Hl;
    try (simpl in *; lia); try (simpl; rewrite Z.div_small; lia).
  cbn [chunks_fuel length]. rewrite Nat2Z.inj_succ, IH by (rewrite length_drop; simpl in *; lia).
  rewrite length_drop. cbn [length].
  destruct (decide (n ≤ S (length l))%nat).
  - rewrite Nat2Z.inj_sub by lia.
    replace (Z.of_nat (S (length l)) + Z.of_nat n - 1)
      with ((Z.of_nat (S (length l)) - Z.of_nat n + Z.of_nat n - 1) + 1 * Z.of_nat n) by lia.
    rewrite Z.div_add by lia. lia.
  - replace (S (length l) - n)%nat with 0%nat by lia.
    rewrite Z.div_small by lia.
    replace (Z.of_nat (S (length l)) + Z.of_nat n - 1)
      with (Z.of_nat (length l) + 1 * Z.of_nat n) by lia.
    rewrite Z.div_add, Z.div_small by lia. lia.
Qed.

Lemma length_chunks {A} n (l : list A) :
  (0 < n)%nat →
  Z.of_nat (length (chunks n l)) = div_ceil (Z.of_nat (length l)) (Z.of_nat n).
Proof. intros. by apply length_chunks_fuel. Qed.

Lemma chunks_fuel_bound {A} fuel n (l : list A) c :
  (0 < n)%nat → c ∈ chunks_fuel fuel n l → (0 < length c ≤ n)%nat.
Proof.
  intros Hn. revert l. induction fuel as [|fuel IH]; intros [|x l]; simpl;
    [by intros ?%elem_of_nil..|].
  intros [->|Hc]%elem_of_cons; [|by eapply IH].
  rewrite length_take. simpl. lia.
Qed.

Lemma chunks_bound {A} n (l : list A) c :
  (0 < n)%nat → c ∈ chunks n l → (0 < length c ≤ n)%nat.
Proof. apply chunks_fuel_bound. Qed.

(** Cutting a list that starts with a full piece. *)
Lemma chunks_fuel_ge {A} fuel1 fuel2 n (l : list A) :
  (0 < n)%nat → (length l ≤ fuel1)%nat → (length l ≤ fuel2)%nat →
  chunks_fuel fuel1 n l = chunks_fuel fuel2 n l.
Proof.
  intros Hn. revert fuel2 l. induction fuel1 as [|f1 IH]; intros [|f2] [|x l] H1 H2;
    simpl in *; try done; try lia.
  destruct n as [|n]; [lia|]. f_equal. apply IH; rewrite length_drop; simpl; lia.
Qed.

Lemma chunks_app {A} n (l1 l2 : list A) :
  (0 < n)%nat → length l1 = n → chunks n (l1 ++ l2) = l1 :: chunks n l2.
Proof.
  intros Hn Hl. unfold chunks. destruct l1 as [|x l1]; [simpl in *; lia|].
  rewrite length_app. cbn [length Nat.add app chunks_fuel].
  change (x :: l1 ++ l2) with ((x :: l1) ++ l2).
  rewrite <-Hl, take_app_length, drop_app_length. f_equal.
  apply chunks_fuel_ge; simpl in *; lia.
Qed.

Lemma elem_of_chunks {A} n (l c : list A) x : (0 < n)%nat → c ∈ chunks n l → x ∈ c → x ∈ l.
Proof.
  intros Hn Hc Hx. rewrite <-(concat_chunks n l Hn). apply list_elem_of_In, in_concat.
  exists c. by rewrite <-!list_elem_of_In.
Qed.

Lemma chunks_exact_app {A} n (l1 l2 : list A) :
  (0 < n)%nat → length l1 = n → chunks_exact n (l1 ++ l2) = l1 :: chunks_exact n l2.
Proof. intros Hn Hl. unfold chunks_exact. by rewrite chunks_app, filter_cons_True by done. Qed.

Lemma chunks_exact_concat {A} n (ls : list (list A)) l2 :
  (0 < n)%nat → Forall (λ c, length c = n) ls →
  chunks_exact n (concat ls ++ l2) = ls ++ chunks_exact n l2.
Proof.
  intros Hn. induction 1 as [|c ls Hc Hls IH]; simpl; [done|].
  rewrite <-(assoc_L (++)), chunks_exact_app by done. by rewrite IH.
Qed.

Lemma chunks_exact_elem {A} n (l c : list A) :
  (0 < n)%nat → c ∈ chunks_exact n l → length c = n ∧ ∀ x, x ∈ c → x ∈ l.
Proof.
  intros Hn [Hl Hc]%list_elem_of_filter. split; [done|]. intros x. by apply (elem_of_chunks n).
Qed.

(** A piece of a constant list is constant. *)
Lemma chunks_exact_replicate {A} n m (x : A) c :
  (0 < n)%nat → c ∈ chunks_exact n (replicate m x) → c = replicate n x.
Proof.
  intros Hn [Hl Hx]%chunks_exact_elem; [|done]. rewrite <-Hl. symmetry. apply replicate_as_elem_of.
  split; [done|]. intros y Hy. by apply Hx, elem_of_replicate in Hy as [-> _].
Qed.

(** ** Ordered maps and sets

    [BTreeMap] and [BTreeSet] with integer keys, as lists in key order. *)
Fixpoint bt_insert {A} (k : Z) (v : A) (l : list (Z * A)) : list (Z * A) :=
  match l with
  | [] => [(k, v)]
  | (k', v') :: l' =>
      if k <? k' then (k, v) :: l
      else if k =? k' then (k, v) :: l'
      else (k', v') :: bt_insert k v l'
  end.

Fixpoint bts_insert (k : Z) (l : list Z) : list Z :=
  match l with
  | [] => [k]
  | k' :: l' => if k <? k' then k :: l else if k =? k' then l else k' :: bts_insert k l'
  end.

Definition bts_of_list (l : list Z) : list Z := foldl (λ acc k, bts_insert k acc) [] l.

Definition ascending (l : list Z) : Prop := Sorted.StronglySorted Z.lt l.

Lemma bt_insert_last {A} k (v : A) l :
  Forall (λ p, fst p < k) l → bt_insert k v l = l ++ [(k, v)].
Proof.
  induction 1 as [|[k' v'] l Hk Hl IH]; simpl in *; [done|].
  rewrite (proj2 (Z.ltb_ge _ _)), (proj2 (Z.eqb_neq _ _)) by lia. by rewrite IH.
Qed.

Lemma bts_insert_last k l : Forall (λ i, i < k) l → bts_insert k l = l ++ [k].
Proof.
  induction 1 as [|k' l Hk Hl IH]; simpl in *; [done|].
  rewrite (proj2 (Z.ltb_ge _ _)), (proj2 (Z.eqb_neq _ _)) by lia. by rewrite IH.
Qed.

Lemma elem_of_bts_insert k l x : x ∈ bts_insert k l ↔ x = k ∨ x ∈ l.
Proof.
  induction l as [|k' l IH]; simpl; [rewrite list_elem_of_singleton, elem_of_nil; tauto|].
  destruct (Z.ltb_spec k k'); [rewrite !elem_of_cons; tauto|].
  destruct (Z.eqb_spec k k') as [->|]; rewrite !elem_of_cons, ?IH; tauto.
Qed.

Lemma bts_insert_ascending k l : ascending l → ascending (bts_insert k l).
Proof.
  induction 1 as [|k' l Hs IH Hl]; simpl; [by repeat constructor|].
  destruct (Z.ltb_spec k k').
  - constructor; [by constructor|]. constructor; [done|].
    eapply Forall_impl; [exact Hl|]. simpl. lia.
  - destruct (Z.eqb_spec k k'); [by constructor|]. constructor; [done|].
    apply Forall_forall. intros x [->|Hx]%elem_of_bts_insert; [lia|].
    by apply (proj1 (Forall_forall _ _) Hl).
Qed.

Lemma length_bts_insert k l : (length (bts_insert k l) ≤ S (length l))%nat.
Proof.
  induction l as [|k' l IH]; simpl; [done|].
  destruct (k <? k'); simpl; [lia|]. destruct (k =? k'); simpl; lia.
Qed.

Lemma length_bt_insert {A} k (v : A) l : (length (bt_insert k v l) ≤ S (length l))%nat.
Proof.
  induction l as [|[k' v'] l IH]; simpl; [done|].
  destruct (k <? k'); simpl; [lia|]. destruct (k =? k'); simpl; lia.
Qed.

(** Inserting in ascending order appends. *)
Lemma foldl_bt_insert {A} (acc l : list (Z * A)) :
  ascending (map fst (acc ++ l)) →
  foldl (λ acc p, bt_insert (fst p) (snd p) acc) acc l = acc ++ l.
Proof.
  revert acc. induction l as [|[k v] l IH]; intros acc Hs; simpl; [by rewrite app_nil_r|].
  rewrite bt_insert_last.
  - rewrite IH; by rewrite <-(assoc_L (++)).
  - apply Forall_forall. intros p Hp. rewrite map_app in Hs. simpl in Hs.
    induction acc as [|q acc IHa]; [by apply elem_of_nil in Hp|].
    simpl in Hs. inversion Hs as [|? ? Hs' Hf]; subst.
    apply elem_of_cons in Hp as [->|Hp]; [|by apply IHa].
    apply Forall_app in Hf as [_ Hf]. by inversion Hf.
Qed.

Lemma foldl_bts_insert acc l :
  ascending (acc ++ l) → foldl (λ acc k, bts_insert k acc) acc l = acc ++ l.
Proof.
  revert acc. induction l as [|k l IH]; intros acc Hs; simpl; [by rewrite app_nil_r|].
  rewrite bts_insert_last.
  - rewrite IH; by rewrite <-(assoc_L (++)).
  - apply Forall_forall. intros p Hp.
    induction acc as [|q acc IHa]; [by apply elem_of_nil in Hp|].
    simpl in Hs. inversion Hs as [|? ? Hs' Hf]; subst.
    apply elem_of_cons in Hp as [->|Hp]; [|by apply IHa].
    apply Forall_app in Hf as [_ Hf]. by inversion Hf.
Qed.
