(* ===== verification/Frame.v ===== *)
(** * Session frames: segmentation and reassembly

    Models [common/network-types/src/session/frame.rs]: cutting a frame into
    segments, the segment wire format, the [FrameBuilder] of one frame and the
    [FrameReassembler] that sequences completed frames.

    The atomics and the concurrent map of the reassembler are one explicit
    state; each call is one atomic step, so an interleaving of concurrent
    calls is a sequence of steps.  The unbounded channel to the consumer is
    the list of the items sent so far.  Time is in milliseconds since the
    epoch and a call reads one clock value [now]. *)
From S2P Require Import Prelude.

Inductive SessionError :=
| ProcessingError
| ParseError
| WrongVersion
| IncorrectMessageLength
| UnknownMessageTag
| SessionClosed
| InvalidFrameId
| DataTooLong
| IncompleteFrame (id : Z)
| InvalidSegment
| OldSegment (id : Z)
| FrameDiscarded (id : Z)
| ReassemblerClosed
| InvalidSegmentSize.

#[export] Instance SessionError_eq_dec : EqDecision SessionError.
Proof. solve_decision. Defined.

(** ** Segments *)

(** [FrameId] is a [u32] and [SeqNum] a [u8]. *)
Definition seqnum_max : Z := u_max 8.

(** [SegmentId]; the derived [Ord] is lexicographic. *)
Record SegmentId := mkSegmentId { sid_frame : Z; sid_seq : Z }.

#[export] Instance SegmentId_eq_dec : EqDecision SegmentId.
Proof. solve_decision. Defined.

Record Segment := mkSegment {
  frame_id : Z;
  seq_idx : Z;
  seq_len : Z;
  seg_data : bytes
}.

#[export] Instance Segment_eq_dec : EqDecision Segment.
Proof. solve_decision. Defined.

Record Frame := mkFrame { fr_frame_id : Z; fr_data : bytes }.

#[export] Instance Frame_eq_dec : EqDecision Frame.
Proof. solve_decision. Defined.

Definition Segment_HEADER_SIZE : Z := 6.
Definition Segment_MINIMUM_SIZE : Z := Segment_HEADER_SIZE + 1.

Definition Segment_id (s : Segment) : SegmentId := mkSegmentId (frame_id s) (seq_idx s).

(** [Ord for Segment]. *)
Definition Segment_cmp (a b : Segment) : comparison :=
  match frame_id a ?= frame_id b with
  | Eq => seq_idx a ?= seq_idx b
  | c => c
  end.

(** The segments of [data], numbered in order: the [map] over the enumerated
    chunks in [segment]. *)
Definition enumerate_segments (chunks : list bytes) (frame_id : Z) : list Segment :=
  let seq_len := wrap 8 (Z.of_nat (length chunks)) in
  imap (λ idx c, mkSegment frame_id (wrap 8 (Z.of_nat idx)) seq_len c) chunks.

Definition segment (data : bytes) (max_segment_size : Z) (frame_id : Z) :
    outcome SessionError (list Segment) :=
  if frame_id =? 0 then Err InvalidFrameId
  else if max_segment_size =? 0 then Err InvalidSegmentSize
  else
    let num_chunks := div_ceil (Z.of_nat (length data)) max_segment_size in
    if seqnum_max <? num_chunks then Err DataTooLong
    else Ok (enumerate_segments (chunks (Z.to_nat max_segment_size) data) frame_id).

Definition Frame_segment (f : Frame) (max_segment_size : Z) :
    outcome SessionError (list Segment) :=
  segment (fr_data f) max_segment_size (fr_frame_id f).

(** [From<Segment> for Vec<u8>]. *)
Definition Segment_to_bytes (s : Segment) : bytes :=
  to_be 4 (frame_id s) ++ to_be 1 (seq_idx s) ++ to_be 1 (seq_len s) ++ seg_data s.

(** [TryFrom<&[u8]> for Segment]; [split_at] panics on fewer than six bytes. *)
Definition Segment_of_bytes (value : bytes) : outcome SessionError Segment :=
  if Z.of_nat (length value) <? Segment_HEADER_SIZE then Panic
  else
    let header := take 6 value in
    let data := drop 6 value in
    let segment := {|
      frame_id := from_be (take 4 header);
      seq_idx := from_be (take 1 (drop 4 header));
      seq_len := from_be (take 1 (drop 5 header));
      seg_data := data |} in
    if (0 <? frame_id segment) && (seq_idx segment <? seq_len segment)
    then Ok segment else Err InvalidSegment.

(** ** FrameBuilder *)

Record FrameBuilder := mkBuilder {
  fb_frame_id : Z;
  fb_segments : list (option bytes);
  fb_remaining : Z;
  fb_last_ts : Z
}.

Definition fb_empty (frame_id seq_len : Z) : FrameBuilder :=
  mkBuilder frame_id (replicate (Z.to_nat seq_len) None) seq_len 0.

Definition fb_is_complete (b : FrameBuilder) : bool := fb_remaining b =? 0.

Definition fb_is_expired (b : FrameBuilder) (cutoff : Z) : bool := fb_last_ts b <? cutoff.

(** [FrameBuilder::put]: the slot is a [OnceLock], so a second write of the
    same index is ignored; an index beyond the slots panics. *)
Definition fb_put (b : FrameBuilder) (s : Segment) (ts : Z) :
    outcome SessionError (FrameBuilder * Z) :=
  if fb_frame_id b =? frame_id s then
    if negb (fb_is_complete b) then
      match fb_segments b !! Z.to_nat (seq_idx s) with
      | None => Panic
      | Some None =>
          let b' := {|
            fb_frame_id := fb_frame_id b;
            fb_segments := <[Z.to_nat (seq_idx s) := Some (seg_data s)]> (fb_segments b);
            fb_remaining := wrap 8 (fb_remaining b - 1);
            fb_last_ts := Z.max (fb_last_ts b) (wrap 64 ts) |} in
          Ok (b', fb_remaining b')
      | Some (Some _) => Ok (b, fb_remaining b)
      end
    else Ok (b, 0)
  else Err InvalidFrameId.

Definition fb_new (initial : Segment) (ts : Z) : outcome SessionError FrameBuilder :=
  '(b, _) ← unwrap (fb_put (fb_empty (frame_id initial) (seq_len initial)) initial ts);
  Ok b.

(** [FrameInfo]; [missing_segments] is the 256-bit array. *)
Record FrameInfo := mkFrameInfo {
  fi_frame_id : Z;
  missing_segments : list bool;
  total_segments : Z;
  last_update : Z
}.

Definition fb_info (b : FrameBuilder) : FrameInfo := {|
  fi_frame_id := fb_frame_id b;
  missing_segments :=
    map (λ i, match fb_segments b !! i with Some None => true | _ => false end) (seq 0 256);
  total_segments := wrap 8 (Z.of_nat (length (fb_segments b)));
  last_update := fb_last_ts b |}.

Definition iter_missing_sequence_indices (fi : FrameInfo) : list Z :=
  omap (λ p, if (snd p : bool) && (fst p <=? seqnum_max) then Some (wrap 8 (fst p)) else None)
    (imap (λ i v, (Z.of_nat i, v)) (missing_segments fi)).

Definition into_missing_segments (fi : FrameInfo) : list SegmentId :=
  map (mkSegmentId (fi_frame_id fi)) (iter_missing_sequence_indices fi).

(** [Ord for FrameInfo], as written: on equal update times the frame id is
    compared with itself. *)
Definition FrameInfo_cmp (a b : FrameInfo) : comparison :=
  CompOpp (match last_update a ?= last_update b with
           | Eq => fi_frame_id a ?= fi_frame_id a
           | c => c
           end).

(** [FrameBuilder::reassemble]: a complete builder with an empty slot panics. *)
Definition fb_reassemble (b : FrameBuilder) : outcome SessionError Frame :=
  if fb_is_complete b then
    parts ← unwrap_option (mapM id (fb_segments b));
    Ok (mkFrame (fb_frame_id b) (concat parts))
  else Err (IncompleteFrame (fb_frame_id b)).

(** ** FrameReassembler *)

Record FrameReassembler := mkReassembler {
  sequences : gmap Z FrameBuilder;
  highest_buffered_frame : Z;
  next_emitted_frame : Z;
  last_emission : Z;
  reassembled : list (outcome SessionError Frame);
  closed : bool;
  max_age : Z
}.

Definition set_sequences m (r : FrameReassembler) := {|
  sequences := m; highest_buffered_frame := highest_buffered_frame r;
  next_emitted_frame := next_emitted_frame r; last_emission := last_emission r;
  reassembled := reassembled r; closed := closed r; max_age := max_age r |}.
Definition set_highest z (r : FrameReassembler) := {|
  sequences := sequences r; highest_buffered_frame := z;
  next_emitted_frame := next_emitted_frame r; last_emission := last_emission r;
  reassembled := reassembled r; closed := closed r; max_age := max_age r |}.
Definition set_next z (r : FrameReassembler) := {|
  sequences := sequences r; highest_buffered_frame := highest_buffered_frame r;
  next_emitted_frame := z; last_emission := last_emission r;
  reassembled := reassembled r; closed := closed r; max_age := max_age r |}.
Definition set_last_emission z (r : FrameReassembler) := {|
  sequences := sequences r; highest_buffered_frame := highest_buffered_frame r;
  next_emitted_frame := next_emitted_frame r; last_emission := z;
  reassembled := reassembled r; closed := closed r; max_age := max_age r |}.
Definition set_reassembled l (r : FrameReassembler) := {|
  sequences := sequences r; highest_buffered_frame := highest_buffered_frame r;
  next_emitted_frame := next_emitted_frame r; last_emission := last_emission r;
  reassembled := l; closed := closed r; max_age := max_age r |}.
Definition set_closed c (r : FrameReassembler) := {|
  sequences := sequences r; highest_buffered_frame := highest_buffered_frame r;
  next_emitted_frame := next_emitted_frame r; last_emission := last_emission r;
  reassembled := reassembled r; closed := c; max_age := max_age r |}.

Definition fr_new (max_age : Z) : FrameReassembler := {|
  sequences := ∅;
  highest_buffered_frame := 0;
  next_emitted_frame := 1;
  last_emission := u_max 64;
  reassembled := [];
  closed := false;
  max_age := max_age |}.

Abbreviation RM := (SM FrameReassembler SessionError).

(** [reassembled.unbounded_send(item)], its error mapped. *)
Definition unbounded_send (item : outcome SessionError Frame) : RM unit := λ r,
  if closed r then (r, Err ReassemblerClosed)
  else match item with
       | Panic => (r, Panic)
       | _ => (set_reassembled (reassembled r ++ [item]) r, Ok tt)
       end.

(** [next_emitted_frame.compare_exchange(current, new).is_ok()]. *)
Definition compare_exchange_next (current new : Z) : RM bool := λ r,
  if next_emitted_frame r =? current then (set_next new r, Ok true) else (r, Ok false).

(** [next_emitted_frame.fetch_add(1)]: returns the previous value. *)
Definition fetch_add_next : RM Z := λ r,
  (set_next (wrap 32 (next_emitted_frame r + 1)) r, Ok (next_emitted_frame r)).

Definition store_last_emission (now : Z) : RM unit := modify (set_last_emission (wrap 64 now)).

Definition emit_if_complete_discard_otherwise (now : Z) (b : FrameBuilder) : RM unit :=
  next ← fetch_add_next;
  (if (next =? fb_frame_id b) && fb_is_complete b
   then unbounded_send (fb_reassemble b)
   else unbounded_send (Err (FrameDiscarded (fb_frame_id b))));;
  store_last_emission now.

(** The [while let] loop at the end of [push_segment]: emits the completed
    frames that follow in sequence.  Every round removes an entry, so one more
    than the number of entries is enough fuel. *)
Fixpoint cascade (fuel : nat) (now : Z) : RM unit :=
  match fuel with
  | O => mret tt
  | S fuel =>
      r ← get;
      match sequences r !! next_emitted_frame r with
      | Some b =>
          if fb_is_complete b then
            modify (set_sequences (delete (next_emitted_frame r) (sequences r)));;
            emit_if_complete_discard_otherwise now b;;
            cascade fuel now
          else mret tt
      | None => mret tt
      end
  end.

(** The two copies of the block that emits a just completed frame. *)
Definition emit_completed (now : Z) (b : FrameBuilder) : RM bool :=
  unbounded_send (fb_reassemble b);;
  store_last_emission now;;
  mret true.

Definition push_segment (now : Z) (s : Segment) : RM unit :=
  r ← get;
  if closed r then throw ReassemblerClosed
  else if frame_id s <? next_emitted_frame r then throw (OldSegment (frame_id s))
  else
    do_cascade ←
      match sequences r !! frame_id s with
      | Some b =>
          '(b', remaining) ← lift (fb_put b s now);
          modify (λ r, set_sequences (<[frame_id s := b']> (sequences r)) r);;
          if remaining =? 0 then
            won ← compare_exchange_next (frame_id s) (wrap 32 (frame_id s + 1));
            if won : bool then
              modify (λ r, set_sequences (delete (frame_id s) (sequences r)) r);;
              emit_completed now b'
            else mret false
          else mret false
      | None =>
          b ← lift (fb_new s now);
          won ← (if fb_is_complete b
                 then compare_exchange_next (frame_id s) (wrap 32 (frame_id s + 1))
                 else mret false);
          if won : bool then emit_completed now b
          else
            modify (λ r, set_highest (Z.max (highest_buffered_frame r) (frame_id s))
                           (set_sequences (<[frame_id s := b]> (sequences r)) r));;
            mret false
      end;
    if do_cascade : bool then
      r ← get;
      cascade (S (size (sequences r))) now
    else mret tt.

(** [incomplete_frames]: the elements of the returned heap, by frame id. *)
Definition incomplete_frames (r : FrameReassembler) : list FrameInfo :=
  omap (λ id,
      match sequences r !! id with
      | Some e => if negb (fb_is_complete e) then Some (fb_info e) else None
      | None => Some {|
          fi_frame_id := id;
          missing_segments := true :: replicate 255 false;
          total_segments := 1;
          last_update := 0 |}
      end)
    (seqZ (next_emitted_frame r) (highest_buffered_frame r - next_emitted_frame r + 1)).

(** The [loop] of [evict], with the running count. *)
Fixpoint evict_loop (fuel : nat) (now cutoff count : Z) : RM Z :=
  match fuel with
  | O => mret count
  | S fuel =>
      r ← get;
      let next := next_emitted_frame r in
      match sequences r !! next with
      | Some b =>
          if fb_is_complete b || fb_is_expired b cutoff then
            modify (set_sequences (delete next (sequences r)));;
            emit_if_complete_discard_otherwise now b;;
            evict_loop fuel now cutoff (count + 1)
          else mret count
      | None =>
          if last_emission r <? cutoff then
            fetch_add_next;;
            store_last_emission now;;
            evict_loop fuel now cutoff (count + 1)
          else mret count
      end
  end.

Definition evict (now : Z) : RM Z :=
  r ← get;
  if closed r then throw ReassemblerClosed
  else if decide (sequences r = ∅) then mret 0
  else
    let cutoff := wrap 64 (saturating_sub now (max_age r)) in
    evict_loop (size (sequences r) + 2) now cutoff 0.

Definition close : RM unit := modify (set_closed true).

(** [Drop]: a last eviction, its result ignored, then the channel closes. *)
Definition fr_drop (now : Z) (r : FrameReassembler) : FrameReassembler :=
  set_closed true (fst (evict now r)).

(** [Extend]: pushes until the first failure, which panics. *)
Fixpoint extend (now : Z) (l : list Segment) : RM unit :=
  match l with
  | [] => mret tt
  | s :: l => λ r,
      match push_segment now s r with
      | (r', Ok _) => extend now l r'
      | (r', _) => (r', Panic)
      end
  end.

(** ** Segmentation *)

Lemma length_enumerate_segments cs fid :
  length (enumerate_segments cs fid) = length cs.
Proof. apply length_imap. Qed.

Lemma lookup_enumerate_segments cs fid i :
  enumerate_segments cs fid !! i =
    (λ c, mkSegment fid (wrap 8 (Z.of_nat i)) (wrap 8 (Z.of_nat (length cs))) c) <$> cs !! i.
Proof. unfold enumerate_segments. by rewrite list_lookup_imap. Qed.

Lemma seg_data_enumerate cs fid : map seg_data (enumerate_segments cs fid) = cs.
Proof.
  apply list_eq. intros i. rewrite list_lookup_fmap, lookup_enumerate_segments.
  by destruct (cs !! i).
Qed.

Lemma segment_chunks_count (data : bytes) mss :
  0 < mss → Z.of_nat (length (chunks (Z.to_nat mss) data)) = div_ceil (Z.of_nat (length data)) mss.
Proof. intros. rewrite length_chunks by lia. by rewrite Z2Nat.id by lia. Qed.

Lemma segment_Ok_inv (data : bytes) mss fid segs :
  0 ≤ mss → segment data mss fid = Ok segs →
  fid ≠ 0 ∧ 0 < mss ∧ div_ceil (Z.of_nat (length data)) mss ≤ 255 ∧
  segs = enumerate_segments (chunks (Z.to_nat mss) data) fid.
Proof.
  unfold segment. intros Hmss H.
  destruct (Z.eqb_spec fid 0); [done|]. destruct (Z.eqb_spec mss 0); [done|].
  change seqnum_max with 255 in H.
  destruct (Z.ltb_spec 255 (div_ceil (Z.of_nat (length data)) mss)); [done|].
  simplify_eq. repeat split; lia.
Qed.

(** The segments of a frame partition its data in order. *)
Lemma segment_spec (data : bytes) mss fid segs :
  0 ≤ mss → segment data mss fid = Ok segs →
  concat (map seg_data segs) = data ∧
  Z.of_nat (length segs) = div_ceil (Z.of_nat (length data)) mss ∧
  (∀ i s, segs !! i = Some s →
     frame_id s = fid ∧ seq_idx s = Z.of_nat i ∧ seq_len s = Z.of_nat (length segs) ∧
     seq_idx s < seq_len s ∧ 0 < Z.of_nat (length (seg_data s)) ≤ mss).
Proof.
  intros Hm (Hf & Hmss & Hc & ->)%segment_Ok_inv; [|done].
  rewrite seg_data_enumerate, length_enumerate_segments, segment_chunks_count by done.
  split; [apply concat_chunks; lia|]. split; [done|].
  intros i s Hs. rewrite lookup_enumerate_segments in Hs.
  destruct (chunks (Z.to_nat mss) data !! i) as [c|] eqn:Hi; simplify_eq/=.
  pose proof (lookup_lt_Some _ _ _ Hi) as Hlt.
  pose proof (segment_chunks_count data mss Hmss) as Hlen.
  assert (0 < length c ≤ Z.to_nat mss)%nat.
  { apply (chunks_bound _ data); [lia|]. by eapply list_elem_of_lookup_2. }
  rewrite !wrap_small by (unfold in_u; lia). lia.
Qed.

(** Which error [segment] reports, and when. *)
Lemma segment_error (data : bytes) mss fid :
  0 ≤ mss →
  (segment data mss fid = Err InvalidFrameId ↔ fid = 0) ∧
  (segment data mss fid = Err InvalidSegmentSize ↔ fid ≠ 0 ∧ mss = 0) ∧
  (segment data mss fid = Err DataTooLong ↔
     fid ≠ 0 ∧ mss ≠ 0 ∧ 255 * mss < Z.of_nat (length data)).
Proof.
  intros Hm. unfold segment. change seqnum_max with 255.
  destruct (Z.eqb_spec fid 0); [repeat split; done || lia|].
  destruct (Z.eqb_spec mss 0); [repeat split; done || lia|].
  assert (255 < div_ceil (Z.of_nat (length data)) mss ↔ 255 * mss < Z.of_nat (length data)) as Hd.
  { unfold div_ceil. split; intros H.
    - assert (256 * mss ≤ mss * ((Z.of_nat (length data) + mss - 1) `div` mss)) by nia.
      pose proof (Z.mul_div_le (Z.of_nat (length data) + mss - 1) mss). lia.
    - apply Z.lt_le_trans with 256; [lia|]. apply Z.div_le_lower_bound; lia. }
  destruct (Z.ltb_spec 255 (div_ceil (Z.of_nat (length data)) mss));
    repeat split; intros; done || lia.
Qed.

(** ** Segment wire format *)

Definition Segment_wf (s : Segment) : Prop :=
  in_u 32 (frame_id s) ∧ in_u 8 (seq_idx s) ∧ in_u 8 (seq_len s).

Lemma Segment_of_bytes_header fid idx len data :
  length fid = 4%nat → length idx = 1%nat → length len = 1%nat →
  Segment_of_bytes (fid ++ idx ++ len ++ data) =
    let s := mkSegment (from_be fid) (from_be idx) (from_be len) data in
    if (0 <? frame_id s) && (seq_idx s <? seq_len s) then Ok s else Err InvalidSegment.
Proof.
  intros H1 H2 H3.
  destruct fid as [|a [|b [|c [|d [|]]]]]; try discriminate.
  destruct idx as [|e [|]]; try discriminate.
  destruct len as [|f [|]]; try discriminate.
  unfold Segment_of_bytes. cbn [app length]. unfold Segment_HEADER_SIZE.
  rewrite (proj2 (Z.ltb_ge _ _)) by lia. reflexivity.
Qed.

Lemma Segment_roundtrip s :
  Segment_wf s → 0 < frame_id s → seq_idx s < seq_len s →
  Segment_of_bytes (Segment_to_bytes s) = Ok s.
Proof.
  intros (H1 & H2 & H3) Hf Hi. destruct s as [fid idx len data]; simpl in *.
  unfold Segment_to_bytes. cbn [frame_id seq_idx seq_len seg_data].
  rewrite Segment_of_bytes_header by apply length_to_be.
  rewrite !from_be_to_be_small by done. simpl.
  by rewrite (proj2 (Z.ltb_lt _ _)), (proj2 (Z.ltb_lt _ _)).
Qed.

(** A parsed segment is well formed and re-encodes to the same bytes. *)
Lemma Segment_of_bytes_canonical bs s :
  bytes_wf bs → Segment_of_bytes bs = Ok s →
  Segment_wf s ∧ 0 < frame_id s ∧ seq_idx s < seq_len s ∧ Segment_to_bytes s = bs.
Proof.
  intros Hwf H.
  destruct bs as [|a [|b [|c [|d [|e [|f bs]]]]]]; try discriminate.
  assert (a :: b :: c :: d :: e :: f :: bs = [a;b;c;d] ++ [e] ++ [f] ++ bs) as E by done.
  rewrite E in Hwf, H |- *. clear E.
  unfold bytes_wf in Hwf. rewrite !Forall_app in Hwf. destruct Hwf as (W1 & W2 & W3 & W4).
  rewrite Segment_of_bytes_header in H by done. simpl in H.
  destruct (Z.ltb_spec 0 (from_be [a;b;c;d])); [|done].
  destruct (Z.ltb_spec (from_be [e]) (from_be [f])); [|done].
  simplify_eq/=. split; [|split; [done|split; [done|]]].
  - by repeat split; apply (from_be_bound [_;_;_;_]) || apply (from_be_bound [_]).
  - unfold Segment_to_bytes; simpl. by rewrite !to_be_from_be.
Qed.

(** The segment parser accepts exactly the encodings of well-formed
    segments with a positive frame id and an index below the segment count,
    and returns the segment that was encoded: parsing and encoding are inverse
    to each other. *)
Theorem Segment_codec bs s :
  bytes_wf bs →
  Segment_of_bytes bs = Ok s ↔
    Segment_wf s ∧ 0 < frame_id s ∧ seq_idx s < seq_len s ∧ bs = Segment_to_bytes s.
Proof.
  intros Hwf. split.
  - intros (H1 & H2 & H3 & H4)%Segment_of_bytes_canonical; done.
  - intros (H1 & H2 & H3 & ->). by apply Segment_roundtrip.
Qed.

Lemma Segment_codec_witness :
  let s := mkSegment 258 1 3 [7; 8] in
  bytes_wf [0; 0; 1; 2; 1; 3; 7; 8] ∧ Segment_of_bytes [0; 0; 1; 2; 1; 3; 7; 8] = Ok s.
Proof.
  assert (bytes_wf [0; 0; 1; 2; 1; 3; 7; 8]) as Hwf
    by (repeat constructor; vm_compute; congruence).
  split; [exact Hwf|].
  apply (Segment_codec _ _ Hwf). repeat split; vm_compute; congruence.
Defined.
