(* ===== verification/Reassembly.v ===== *)
(** * Correctness of frame reassembly

    The specification of [Frame]'s reassembler as a whole: whatever the order
    and the repetitions in which the segments of a sequence of frames arrive,
    the reassembler emits exactly the longest prefix of the frames all of whose
    segments arrived, in order and with the original bytes. *)
From S2P Require Import Prelude Frame.

(** ** The sender's side *)

(** The segments a sender makes of its [k]-th frame, whose id is [k + 1]. *)
Definition frame_segments (mss : Z) (k : nat) (data : bytes) : list Segment :=
  match segment data mss (Z.of_nat k + 1) with Ok l => l | _ => [] end.

(** What the sender cuts: non-empty frames of at most 255 segments, with ids
    that fit a [u32]. *)
Definition sendable (mss : Z) (datas : list bytes) : Prop :=
  0 < mss ∧ Z.of_nat (length datas) < u_max 32 ∧
  ∀ d, d ∈ datas → d ≠ [] ∧ Z.of_nat (length d) ≤ 255 * mss.

Definition sent_frames (datas : list bytes) : list Frame :=
  imap (λ k d, mkFrame (Z.of_nat k + 1) d) datas.

(** The reassembler after a sequence of timed pushes; a caller logs and drops
    the error of a rejected segment. *)
Definition push_all (pushes : list (Z * Segment)) (r : FrameReassembler) : FrameReassembler :=
  run_all (λ p, push_segment (fst p) (snd p)) pushes r.

(** Two frames, the second one first, out of order and twice. *)
Definition push_example : list (Z * Segment) :=
  (λ s, (7, s)) <$>
    (reverse (frame_segments 2 1 [4; 5; 6; 7; 8]) ++ frame_segments 2 1 [4; 5; 6; 7; 8] ++
     reverse (frame_segments 2 0 [1; 2; 3])).

(** ** One builder *)

Definition nth_segment (k : nat) (cs : list bytes) (i : nat) (c : bytes) : Segment :=
  mkSegment (Z.of_nat k + 1) (Z.of_nat i) (Z.of_nat (length cs)) c.

(** The slots of the builder of frame [k] once the segments [P] arrived. *)
Definition slots (P : list Segment) (k : nat) (cs : list bytes) : list (option bytes) :=
  imap (λ i c, if decide (nth_segment k cs i c ∈ P) then Some c else None) cs.

Fixpoint missing (l : list (option bytes)) : nat :=
  match l with
  | [] => 0
  | None :: l => S (missing l)
  | Some _ :: l => missing l
  end.

Definition builder_inv (P : list Segment) (k : nat) (cs : list bytes) (b : FrameBuilder) : Prop :=
  fb_frame_id b = Z.of_nat k + 1 ∧
  fb_segments b = slots P k cs ∧
  fb_remaining b = Z.of_nat (missing (slots P k cs)).

Lemma missing_replicate n : missing (replicate n None) = n.
Proof. induction n; simpl; auto. Qed.

Lemma missing_insert l i c :
  l !! i = Some None → missing l = S (missing (<[i := Some c]> l)).
Proof.
  revert i. induction l as [|[o|] l IH]; intros [|i] H; simplify_eq/=; auto.
Qed.

Lemma missing_0 l : missing l = 0%nat ↔ ∀ i o, l !! i = Some o → o ≠ None.
Proof.
  induction l as [|[c|] l IH]; simpl; [done| |].
  - rewrite IH. split; [|intros H i o Hi; by apply (H (S i))].
    intros H [|i] o Hi; simplify_eq/=; [done|by eauto].
  - split; [done|]. intros H. by destruct (H 0%nat None).
Qed.

Lemma missing_le l : (missing l ≤ length l)%nat.
Proof. induction l as [|[c|] l IH]; simpl; lia. Qed.

Lemma length_slots P k cs : length (slots P k cs) = length cs.
Proof. apply length_imap. Qed.

Lemma lookup_slots P k cs i :
  slots P k cs !! i =
    (λ c, if decide (nth_segment k cs i c ∈ P) then Some c else None) <$> cs !! i.
Proof. unfold slots. by rewrite list_lookup_imap. Qed.

Lemma slots_fresh P k cs :
  (∀ i c, cs !! i = Some c → nth_segment k cs i c ∉ P) →
  slots P k cs = replicate (length cs) None.
Proof.
  intros H. apply list_eq. intros i. rewrite lookup_slots.
  destruct (cs !! i) as [c|] eqn:Hi; simpl.
  - rewrite decide_False by (by apply H). symmetry. apply lookup_replicate_2. by eapply lookup_lt_Some.
  - symmetry. apply lookup_ge_None. rewrite length_replicate. by apply lookup_ge_None.
Qed.

Lemma slots_seen P k cs s : s ∈ P → slots (s :: P) k cs = slots P k cs.
Proof.
  intros Hs. apply list_eq. intros i. rewrite !lookup_slots.
  destruct (cs !! i) as [c|]; [simpl|done]. f_equal.
  apply decide_ext. rewrite elem_of_cons. split; [by intros [->|]|by right].
Qed.

Lemma slots_other P k k' cs cs' i c :
  k ≠ k' → slots (nth_segment k' cs' i c :: P) k cs = slots P k cs.
Proof.
  intros Hk. apply list_eq. intros j. rewrite !lookup_slots.
  destruct (cs !! j) as [c'|]; [simpl|done]. f_equal.
  apply decide_ext. rewrite elem_of_cons. split; [|by right].
  intros [Heq|?]; [|done]. unfold nth_segment in Heq. injection Heq. lia.
Qed.

Lemma slots_insert P k cs i c :
  cs !! i = Some c →
  slots (nth_segment k cs i c :: P) k cs = <[i := Some c]> (slots P k cs).
Proof.
  intros Hi. apply list_eq. intros j. destruct (decide (i = j)) as [<-|Hij].
  - rewrite list_lookup_insert_eq
      by (rewrite length_slots; by eapply lookup_lt_Some).
    rewrite lookup_slots, Hi. simpl. by rewrite decide_True by (by left).
  - rewrite list_lookup_insert_ne by done. rewrite !lookup_slots.
    destruct (cs !! j) as [c'|]; [simpl|done]. f_equal.
    apply decide_ext. rewrite elem_of_cons. split; [|by right].
    intros [Heq|?]; [|done]. unfold nth_segment in Heq. injection Heq. lia.
Qed.

Lemma builder_complete P k cs b :
  builder_inv P k cs b →
  fb_is_complete b = true ↔ ∀ i c, cs !! i = Some c → nth_segment k cs i c ∈ P.
Proof.
  intros (_ & _ & Hr). unfold fb_is_complete. rewrite Z.eqb_eq, Hr.
  change 0 with (Z.of_nat 0). rewrite Nat2Z.inj_iff, missing_0.
  split; intros H.
  - intros i c Hi. specialize (H i). rewrite lookup_slots, Hi in H. simpl in H.
    case_decide; [done|]. by edestruct H.
  - intros i o. rewrite lookup_slots. destruct (cs !! i) as [c|] eqn:Hi; simpl; [|done].
    rewrite decide_True by auto. by intros [= <-].
Qed.

Lemma mapM_slots P k cs :
  (∀ i c, cs !! i = Some c → nth_segment k cs i c ∈ P) → mapM id (slots P k cs) = Some cs.
Proof.
  intros H. assert (slots P k cs = Some <$> cs) as ->.
  { apply list_eq. intros i. rewrite lookup_slots, list_lookup_fmap.
    destruct (cs !! i) as [c|] eqn:Hi; [simpl|done]. by rewrite decide_True by auto. }
  by apply mapM_Some_2, Forall2_fmap_l, Forall_Forall2_diag, Forall_true.
Qed.

Lemma builder_reassemble P k cs b :
  builder_inv P k cs b → fb_is_complete b = true →
  fb_reassemble b = Ok (mkFrame (Z.of_nat k + 1) (concat cs)).
Proof.
  intros Hb Hc. pose proof (proj1 (builder_complete _ _ _ _ Hb) Hc) as H.
  destruct Hb as (Hid & Hs & _). unfold fb_reassemble.
  by rewrite Hc, Hs, mapM_slots, Hid by done.
Qed.

(** Adding a segment of the frame: the builder keeps describing what arrived,
    and the returned count is what is still missing. *)
Lemma builder_put P k cs b i c now :
  builder_inv P k cs b → Z.of_nat (length cs) ≤ 255 → cs !! i = Some c →
  ∃ b', fb_put b (nth_segment k cs i c) now = Ok (b', fb_remaining b') ∧
        builder_inv (nth_segment k cs i c :: P) k cs b'.
Proof.
  intros Hb Hlen Hi. pose proof (builder_complete _ _ _ _ Hb) as Hcomp.
  destruct Hb as (Hid & Hs & Hr). unfold fb_put. rewrite Hid.
  change (frame_id (nth_segment k cs i c)) with (Z.of_nat k + 1).
  rewrite Z.eqb_refl. destruct (fb_is_complete b) eqn:Hc; cbn [negb].
  { exists b. unfold fb_is_complete in Hc. apply Z.eqb_eq in Hc as H0. rewrite H0.
    split; [done|]. unfold builder_inv.
    rewrite slots_seen; [done|]. by apply Hcomp. }
  change (seq_idx (nth_segment k cs i c)) with (Z.of_nat i).
  rewrite Nat2Z.id, Hs, lookup_slots, Hi. cbn [fmap option_fmap option_map].
  destruct (decide (nth_segment k cs i c ∈ P)) as [Hin|Hnin].
  { exists b. split; [done|]. unfold builder_inv. by rewrite slots_seen. }
  eexists. split; [reflexivity|]. unfold builder_inv. simpl. rewrite slots_insert by done.
  split; [done|]. split; [done|].
  assert (slots P k cs !! i = Some None) as HN
    by (rewrite lookup_slots, Hi; simpl; by rewrite decide_False).
  pose proof (missing_insert _ _ c HN) as Hm.
  pose proof (missing_le (slots P k cs)) as Hle. rewrite length_slots in Hle.
  rewrite Hr, wrap_small by (unfold in_u; lia). lia.
Qed.

Lemma builder_empty P k cs :
  (∀ i c, cs !! i = Some c → nth_segment k cs i c ∉ P) →
  builder_inv P k cs (fb_empty (Z.of_nat k + 1) (Z.of_nat (length cs))).
Proof.
  intros H. unfold builder_inv, fb_empty. simpl.
  rewrite slots_fresh, missing_replicate, Nat2Z.id by done. done.
Qed.

(** ** The reassembler *)
Section Reassembler.
Context (mss : Z) (datas : list bytes) (Hsend : sendable mss datas).

Local Abbreviation cut d := (chunks (A:=Z) (Z.to_nat mss) d).

(** [m] frames have been emitted; every later frame has a builder that
    describes the arrived segments [P], or none of its segments arrived. *)
Record pre_inv (P : list Segment) (r : FrameReassembler) (m : nat) : Prop := {
  pi_open : closed r = false;
  pi_m : (m ≤ length datas)%nat;
  pi_next : next_emitted_frame r = Z.of_nat m + 1;
  pi_out : reassembled r = Ok <$> take m (sent_frames datas);
  pi_done k d i c : (k < m)%nat → datas !! k = Some d → cut d !! i = Some c →
    nth_segment k (cut d) i c ∈ P;
  pi_live k d : datas !! k = Some d → (m ≤ k)%nat →
    match sequences r !! (Z.of_nat k + 1) with
    | Some b => builder_inv P k (cut d) b
    | None => ∀ i c, cut d !! i = Some c → nth_segment k (cut d) i c ∉ P
    end;
  pi_dom fid b : sequences r !! fid = Some b →
    ∃ k d, fid = Z.of_nat k + 1 ∧ (m ≤ k)%nat ∧ datas !! k = Some d
}.

(** The next frame to emit is not complete. *)
Definition stuck (r : FrameReassembler) : Prop :=
  ∀ b, sequences r !! next_emitted_frame r = Some b → fb_is_complete b = false.

Definition inv (P : list Segment) (r : FrameReassembler) : Prop :=
  ∃ m, pre_inv P r m ∧ stuck r.

Lemma cut_pos d i c : cut d !! i = Some c → 0 < mss.
Proof using Hsend. by destruct Hsend. Qed.

Lemma cut_length k d : datas !! k = Some d → 0 < Z.of_nat (length (cut d)) ≤ 255.
Proof using Hsend.
  intros Hd. destruct Hsend as (Hm & _ & H). apply list_elem_of_lookup_2 in Hd.
  destruct (H _ Hd) as [Hne Hl]. rewrite segment_chunks_count by done. unfold div_ceil.
  assert (0 < Z.of_nat (length d)) by (destruct d; simpl; [done|lia]).
  split; [apply Z.div_str_pos; lia|].
  apply Z.lt_succ_r, Z.div_lt_upper_bound; lia.
Qed.

Lemma frame_segments_cut k d :
  datas !! k = Some d → frame_segments mss k d = imap (nth_segment k (cut d)) (cut d).
Proof using Hsend.
  intros Hd. destruct (cut_length _ _ Hd) as [_ Hlen]. destruct Hsend as (Hm & _ & _).
  pose proof (segment_chunks_count d mss Hm) as Hc.
  unfold frame_segments, segment. change seqnum_max with 255.
  rewrite (proj2 (Z.eqb_neq _ _)), (proj2 (Z.eqb_neq _ _)), (proj2 (Z.ltb_ge _ _)) by lia.
  apply list_eq. intros i. rewrite lookup_enumerate_segments, list_lookup_imap.
  destruct (cut d !! i) as [c|] eqn:Hi; [simpl|done]. unfold nth_segment.
  apply lookup_lt_Some in Hi. by rewrite !wrap_small by (unfold in_u; lia).
Qed.

Lemma pre_inv_fresh age : pre_inv [] (fr_new age) 0.
Proof.
  split; try done; simpl; try lia.
  intros k d Hd _. rewrite lookup_empty. intros i c _. apply not_elem_of_nil.
Qed.

Lemma pre_inv_seen P r m s : s ∈ P → pre_inv P r m → pre_inv (s :: P) r m.
Proof.
  intros Hs [H1 H2 H3 H4 H5 H6 H7]. split; try done.
  - intros. right. by eapply H5.
  - intros k d Hd Hk. specialize (H6 k d Hd Hk).
    destruct (sequences r !! _) as [b|].
    + unfold builder_inv. by rewrite slots_seen.
    + intros i c Hi [<-|]%elem_of_cons; by eapply H6.
Qed.

(** A segment of frame [k] was put into its builder. *)
Lemma pre_inv_insert P r r' m k d i c b :
  pre_inv P r m → (m ≤ k)%nat → datas !! k = Some d → cut d !! i = Some c →
  builder_inv (nth_segment k (cut d) i c :: P) k (cut d) b →
  sequences r' = <[Z.of_nat k + 1 := b]> (sequences r) →
  next_emitted_frame r' = next_emitted_frame r → reassembled r' = reassembled r →
  closed r' = closed r → pre_inv (nth_segment k (cut d) i c :: P) r' m.
Proof.
  intros [H1 H2 H3 H4 H5 H6 H7] Hmk Hd Hi Hb Hs Hn Ho Hc.
  split; try congruence.
  - intros. right. by eapply H5.
  - intros k' d' Hd' Hk'. rewrite Hs. destruct (decide (k' = k)) as [->|Hne].
    + rewrite lookup_insert_eq. by simplify_eq.
    + rewrite lookup_insert_ne by lia. specialize (H6 k' d' Hd' Hk').
      destruct (sequences r !! _) as [b'|].
      * unfold builder_inv. by rewrite slots_other.
      * intros j c' Hj [Heq|]%elem_of_cons; [|by eapply H6].
        unfold nth_segment in Heq. injection Heq. lia.
  - intros fid b'. rewrite Hs. intros [[<- <-]|[_ Hl]]%lookup_insert_Some; [|by eapply H7].
    by exists k, d.
Qed.

(** The next frame was complete and got emitted. *)
Lemma pre_inv_emit P r r' m d now :
  pre_inv P r m → datas !! m = Some d →
  (∀ i c, cut d !! i = Some c → nth_segment m (cut d) i c ∈ P) →
  closed r' = false → next_emitted_frame r' = wrap 32 (Z.of_nat m + 1 + 1) →
  sequences r' = delete (Z.of_nat m + 1) (sequences r) →
  last_emission r' = now →
  reassembled r' = reassembled r ++ [Ok (mkFrame (Z.of_nat m + 1) d)] →
  pre_inv P r' (S m).
Proof using Hsend.
  intros [H1 H2 H3 H4 H5 H6 H7] Hd Hall Hc Hn Hs _ Ho.
  pose proof (lookup_lt_Some _ _ _ Hd) as Hlt. destruct Hsend as (_ & Hmax & _).
  unfold u_max in Hmax.
  split; try done.
  - rewrite Hn, wrap_small by (unfold in_u; lia). lia.
  - rewrite Ho, H4. erewrite take_S_r; [by rewrite fmap_app|].
    unfold sent_frames. by rewrite list_lookup_imap, Hd.
  - intros k d' i c Hk Hd' Hi. destruct (decide (k = m)) as [->|]; [|apply (H5 k); auto; lia].
    simplify_eq. by apply Hall.
  - intros k d' Hd' Hk. rewrite Hs, lookup_delete_ne by lia. apply H6; [done|lia].
  - intros fid b. rewrite Hs. intros [Hne Hl]%lookup_delete_Some.
    destruct (H7 _ _ Hl) as (k & d' & -> & Hk & Hd'). exists k, d'. repeat split; [|done].
    destruct (decide (k = m)) as [->|]; [done|lia].
Qed.

Lemma concat_cut d : 0 < mss → concat (cut d) = d.
Proof. intros. apply concat_chunks. lia. Qed.

(** What the builder of the next frame reassembles to once complete. *)
Lemma next_frame P r m b :
  pre_inv P r m → sequences r !! next_emitted_frame r = Some b → fb_is_complete b = true →
  ∃ d, datas !! m = Some d ∧ fb_frame_id b = next_emitted_frame r ∧
    fb_reassemble b = Ok (mkFrame (Z.of_nat m + 1) d) ∧
    ∀ i c, cut d !! i = Some c → nth_segment m (cut d) i c ∈ P.
Proof using Hsend.
  intros Hpre Hb Hc. destruct (pi_dom _ _ _ Hpre _ _ Hb) as (k & d & Hk & _ & Hd).
  rewrite (pi_next _ _ _ Hpre) in Hb, Hk |- *. assert (k = m) as -> by lia.
  pose proof (pi_live _ _ _ Hpre m d Hd (le_n _)) as Hlive. rewrite Hb in Hlive.
  exists d. split; [done|]. split; [by destruct Hlive|].
  split; [|by apply (builder_complete _ _ _ _ Hlive)].
  rewrite (builder_reassemble _ _ _ _ Hlive Hc), concat_cut; [done|by destruct Hsend].
Qed.

Lemma cascade_inv P now fuel r m :
  pre_inv P r m → (size (sequences r) < fuel)%nat →
  ∃ r' m', cascade fuel now r = (r', Ok tt) ∧ pre_inv P r' m' ∧ stuck r'.
Proof using Hsend.
  revert r m. induction fuel as [|fuel IH]; intros r m Hpre Hf; [lia|].
  simpl. unfold mbind, SM_bind. simpl.
  destruct (sequences r !! next_emitted_frame r) as [b|] eqn:Hb; cycle 1.
  { exists r, m. split; [done|]. split; [done|]. intros b Hb'. congruence. }
  destruct (fb_is_complete b) eqn:Hc; cycle 1.
  { exists r, m. split; [done|]. split; [done|]. intros b' Hb'. by simplify_eq. }
  destruct (next_frame _ _ _ _ Hpre Hb Hc) as (d & Hd & Hid & Hre & Hall).
  unfold emit_if_complete_discard_otherwise, mbind, SM_bind. simpl.
  rewrite Hid, Z.eqb_refl, Hc. simpl. unfold unbounded_send. simpl.
  rewrite (pi_open _ _ _ Hpre), Hre. simpl.
  eapply IH.
  - eapply pre_inv_emit; [exact Hpre|exact Hd|exact Hall|..]; simpl; try done.
    + apply (pi_open _ _ _ Hpre).
    + by rewrite (pi_next _ _ _ Hpre).
    + by rewrite (pi_next _ _ _ Hpre).
  - simpl. rewrite map_size_delete, Hb.
    assert (size (sequences r) ≠ 0%nat); [|lia].
    apply map_size_ne_0_lookup. by eexists _, _.
Qed.

#[local] Arguments cascade : simpl never.

(** A builder that is emitted right after the put: the state before the
    cascade. *)
Lemma finish_push P now r fuel r1 m d :
  pre_inv P r m → datas !! m = Some d →
  (∀ i c, cut d !! i = Some c → nth_segment m (cut d) i c ∈ P) →
  closed r1 = false → next_emitted_frame r1 = wrap 32 (Z.of_nat m + 1 + 1) →
  sequences r1 = delete (Z.of_nat m + 1) (sequences r) →
  last_emission r1 = wrap 64 now →
  reassembled r1 = reassembled r ++ [Ok (mkFrame (Z.of_nat m + 1) d)] →
  (size (sequences r1) < fuel)%nat →
  inv P (fst (cascade fuel now r1)).
Proof using Hsend.
  intros Hpre Hd Hall Hc Hn Hs Hl Ho Hf.
  destruct (cascade_inv P now fuel r1 (S m)) as (r' & m' & -> & H1 & H2);
    [by eapply pre_inv_emit|done|]. by exists m'.
Qed.

(** The builder after a put holds all segments of its frame when complete. *)
Lemma put_complete P k d i c b :
  datas !! k = Some d →
  builder_inv (nth_segment k (cut d) i c :: P) k (cut d) b → fb_is_complete b = true →
  fb_reassemble b = Ok (mkFrame (Z.of_nat k + 1) d) ∧
  ∀ j c', cut d !! j = Some c' → nth_segment k (cut d) j c' ∈ nth_segment k (cut d) i c :: P.
Proof using Hsend.
  intros Hd Hb Hc. split; [|by apply (builder_complete _ _ _ _ Hb)].
  rewrite (builder_reassemble _ _ _ _ Hb Hc), concat_cut; [done|by destruct Hsend].
Qed.

Lemma stuck_insert P r r' m k b :
  pre_inv P r m → stuck r →
  sequences r' = <[Z.of_nat k + 1 := b]> (sequences r) →
  next_emitted_frame r' = next_emitted_frame r →
  (k ≠ m ∨ fb_is_complete b = false) → stuck r'.
Proof.
  intros Hpre Hst Hs Hn Hor b'. rewrite Hs, Hn, (pi_next _ _ _ Hpre).
  intros [[? <-]|[_ Hl]]%lookup_insert_Some.
  - destruct Hor; [lia|done].
  - apply Hst. by rewrite (pi_next _ _ _ Hpre).
Qed.

Lemma push_inv P now r k d i c :
  inv P r → datas !! k = Some d → cut d !! i = Some c →
  inv (nth_segment k (cut d) i c :: P)
      (fst (push_segment now (nth_segment k (cut d) i c) r)).
Proof using Hsend.
  intros (m & Hpre & Hst) Hd Hi. set (s := nth_segment k (cut d) i c).
  assert (frame_id s = Z.of_nat k + 1) as Hfid by done.
  destruct (cut_length _ _ Hd) as [_ Hlen].
  pose proof (pi_next _ _ _ Hpre) as Hnext.
  unfold push_segment, mbind, SM_bind. simpl. rewrite (pi_open _ _ _ Hpre), ?Hfid, Hnext.
  destruct (Z.ltb_spec (Z.of_nat k + 1) (Z.of_nat m + 1)) as [Hlt|Hge]; simpl.
  { exists m. split; [|done]. apply pre_inv_seen; [|done].
    apply (pi_done _ _ _ Hpre); [lia|done..]. }
  assert (m ≤ k)%nat as Hmk by lia.
  pose proof (pi_live _ _ _ Hpre k d Hd Hmk) as Hlive.
  destruct (sequences r !! (Z.of_nat k + 1)) as [b|] eqn:Hlook.
  - destruct (builder_put P k (cut d) b i c now) as (b' & Hput & Hb'); [done..|].
    fold s in Hput, Hb'. rewrite Hput. simpl.
    set (r1 := set_sequences _ r).
    assert (pre_inv (s :: P) r1 m) as Hpre1 by (by eapply pre_inv_insert).
    destruct (fb_remaining b' =? 0) eqn:Hc; simpl; cycle 1.
    { exists m. split; [done|]. eapply (stuck_insert P r); eauto. }
    unfold compare_exchange_next. simpl. rewrite Hnext, ?Hfid.
    destruct (Z.eqb_spec (Z.of_nat m + 1) (Z.of_nat k + 1)) as [Hkm|Hkm]; simpl; cycle 1.
    { exists m. split; [done|]. eapply (stuck_insert P r); eauto. left. lia. }
    assert (k = m) as -> by lia.
    destruct (put_complete _ _ _ _ _ _ Hd Hb' Hc) as [Hre Hall].
    unfold emit_completed, mbind, SM_bind, unbounded_send. simpl.
    rewrite (pi_open _ _ _ Hpre), Hre. simpl. rewrite ?Hfid.
    eapply (finish_push _ now r1); simpl; eauto; try by apply (pi_open _ _ _ Hpre).
  - destruct (builder_put P k (cut d) _ i c now (builder_empty _ _ _ Hlive) Hlen Hi)
      as (b' & Hput & Hb').
    fold s in Hput, Hb'. unfold fb_new. rewrite ?Hfid.
    change (seq_len s) with (Z.of_nat (length (cut d))). rewrite Hput. simpl.
    set (r1 := set_sequences (<[Z.of_nat k + 1 := b']> (sequences r)) r).
    assert (pre_inv (s :: P) r1 m) as Hpre1 by (by eapply pre_inv_insert).
    destruct (fb_is_complete b') eqn:Hc; simpl; cycle 1.
    { exists m. split; [by eapply (pre_inv_insert P r)|].
      eapply (stuck_insert P r); simpl; eauto. }
    unfold compare_exchange_next. rewrite Hnext, ?Hfid.
    destruct (Z.eqb_spec (Z.of_nat m + 1) (Z.of_nat k + 1)) as [Hkm|Hkm]; simpl; cycle 1.
    { exists m. split; [by eapply (pre_inv_insert P r)|].
      eapply (stuck_insert P r); simpl; eauto. left. lia. }
    assert (k = m) as -> by lia.
    destruct (put_complete _ _ _ _ _ _ Hd Hb' Hc) as [Hre Hall].
    unfold emit_completed, mbind, SM_bind, unbounded_send. simpl.
    rewrite (pi_open _ _ _ Hpre), Hre. simpl. rewrite ?Hfid.
    eapply (finish_push _ now r1); simpl; eauto; try by apply (pi_open _ _ _ Hpre).
    rewrite delete_insert_id; [done|]. by apply Hlook.
Qed.
End Reassembler.

Lemma push_all_inv mss datas pushes P r :
  sendable mss datas →
  (∀ p, p ∈ pushes → ∃ k d, datas !! k = Some d ∧ snd p ∈ frame_segments mss k d) →
  inv mss datas P r →
  inv mss datas (reverse (map snd pushes) ++ P) (push_all pushes r).
Proof.
  intros Hsend. revert P r. induction pushes as [|[now s] pushes IH]; intros P r Hall Hinv;
    [done|].
  cbn [map snd]. rewrite reverse_cons, <-(assoc_L (++)).
  unfold push_all, run_all. cbn [foldl fst snd]. apply IH; [intros p Hp; apply Hall; by right|].
  destruct (Hall (now, s)) as (k & d & Hd & Hs); [by left|]. simpl in Hs.
  rewrite (frame_segments_cut mss datas) in Hs by done.
  apply elem_of_lookup_imap in Hs as (i & c & -> & Hi). by apply push_inv.
Qed.

(** Some segment of the first frame that was not emitted did not arrive. *)
Lemma stuck_missing mss datas P r m d :
  sendable mss datas → pre_inv mss datas P r m → stuck r → datas !! m = Some d →
  ∃ s, s ∈ frame_segments mss m d ∧ s ∉ P.
Proof.
  intros Hsend Hpre Hst Hd.
  rewrite (frame_segments_cut mss datas) by done.
  set (l := imap _ _). destruct (Forall_Exists_dec (λ s, s ∈ P) (λ s, s ∉ P) (λ s, decide (s ∈ P)) l) as [Hall|Hne];
    [|by apply Exists_exists in Hne].
  exfalso. assert (∀ i c, chunks (Z.to_nat mss) d !! i = Some c →
    nth_segment m (chunks (Z.to_nat mss) d) i c ∈ P) as HP.
  { intros i c Hi. apply (proj1 (Forall_forall _ _) Hall).
    apply elem_of_lookup_imap. by exists i, c. }
  pose proof (pi_live _ _ _ _ _ Hpre m d Hd (le_n _)) as Hlive.
  destruct (sequences r !! (Z.of_nat m + 1)) as [b|] eqn:Hb.
  - rewrite <-(pi_next _ _ _ _ _ Hpre) in Hb. apply Hst in Hb.
    by rewrite (proj2 (builder_complete _ _ _ _ Hlive) HP) in Hb.
  - destruct (cut_length mss datas Hsend _ _ Hd) as [Hpos _].
    destruct (lookup_lt_is_Some_2 (chunks (Z.to_nat mss) d) 0%nat) as [c Hc]; [lia|].
    by eapply Hlive, HP.
Qed.

(** C31. Frame reassembly is correct for every arrival order: when segments of
    the frames [datas] arrive in any order, any number of times, interleaved
    between frames and possibly incompletely, the reassembler has emitted
    exactly the first [m] frames, in order and with their original bytes,
    where the first [m] frames are completely received and frame [m + 1] (if
    any) still misses a segment. *)
Theorem reassembly_any_order mss datas age pushes :
  sendable mss datas →
  (∀ p, p ∈ pushes → ∃ k d, datas !! k = Some d ∧ snd p ∈ frame_segments mss k d) →
  ∃ m, (m ≤ length datas)%nat ∧
    reassembled (push_all pushes (fr_new age)) = Ok <$> take m (sent_frames datas) ∧
    (∀ k d s, (k < m)%nat → datas !! k = Some d → s ∈ frame_segments mss k d →
       s ∈ map snd pushes) ∧
    (∀ d, datas !! m = Some d → ∃ s, s ∈ frame_segments mss m d ∧ s ∉ map snd pushes).
Proof.
  intros Hsend Hall.
  destruct (push_all_inv mss datas pushes [] (fr_new age) Hsend Hall) as (m & Hpre & Hst).
  { exists 0%nat. split; [apply pre_inv_fresh|by intros b]. }
  rewrite app_nil_r in Hpre. exists m.
  split; [apply (pi_m _ _ _ _ _ Hpre)|]. split; [apply (pi_out _ _ _ _ _ Hpre)|].
  split.
  - intros k d s Hk Hd Hs. rewrite (frame_segments_cut mss datas) in Hs by done.
    apply elem_of_lookup_imap in Hs as (i & c & -> & Hi).
    apply elem_of_reverse. eapply (pi_done _ _ _ _ _ Hpre); eauto.
  - intros d Hd. destruct (stuck_missing _ _ _ _ _ _ Hsend Hpre Hst Hd) as (s & Hs & Hn).
    exists s. split; [done|]. intros Hin. by apply Hn, elem_of_reverse.
Qed.

Lemma reassembly_any_order_witness :
  reassembled (push_all push_example (fr_new 10)) =
    [Ok (mkFrame 1 [1; 2; 3]); Ok (mkFrame 2 [4; 5; 6; 7; 8])] ∧
  ∃ m, (m ≤ 2)%nat ∧
    reassembled (push_all push_example (fr_new 10)) =
      Ok <$> take m (sent_frames [[1; 2; 3]; [4; 5; 6; 7; 8]]).
Proof.
  split; [vm_compute; reflexivity|].
  destruct (reassembly_any_order 2 [[1; 2; 3]; [4; 5; 6; 7; 8]] 10 push_example)
    as (m & Hm & Hr & _).
  - split; [lia|]. split; [vm_compute; reflexivity|].
    intros d Hd. repeat (apply elem_of_cons in Hd as [->|Hd]; [by split; [|simpl; lia]|]).
    by apply elem_of_nil in Hd.
  - intros p Hp. unfold push_example in Hp.
    apply list_elem_of_fmap in Hp as (s & -> & Hs). simpl.
    rewrite !elem_of_app, !elem_of_reverse in Hs.
    destruct Hs as [Hs|[Hs|Hs]]; [exists 1%nat|exists 1%nat|exists 0%nat]; eauto.
  - exact (ex_intro _ m (conj Hm Hr)).
Defined.
