(* ===== verification/Sequencing.v ===== *)
(** * Sequencing and eviction of the frame reassembler

    The well-formedness invariant of the reassembler, its preservation by
    [push_segment] and [evict] on arbitrary segments (also of a misbehaving
    sender), termination of the eviction loop, and what the code does outside
    of the invariant's reach: the abort on inconsistent segment counts and the
    sequencer that waits for a first frame it has never seen. *)
From S2P Require Import Prelude Frame Reassembly.
From Stdlib Require Import Sorting.Sorted.

(** The frame id an item of the output stream accounts for. *)
Definition item_id (item : outcome SessionError Frame) : option Z :=
  match item with
  | Ok f => Some (fr_frame_id f)
  | Err (FrameDiscarded id) | Err (IncompleteFrame id) => Some id
  | _ => None
  end.

Definition emitted_ids (r : FrameReassembler) : list Z := omap item_id (reassembled r).

Definition fb_wf (b : FrameBuilder) : Prop :=
  fb_remaining b = Z.of_nat (missing (fb_segments b)) ∧
  Z.of_nat (length (fb_segments b)) ≤ 255.

(** A segment as [Segment_of_bytes] lets it through. *)
Definition segment_valid (s : Segment) : Prop :=
  0 < frame_id s < 2 ^ 32 ∧ 0 ≤ seq_idx s < seq_len s ∧ seq_len s ≤ 255.

Record fr_wf (r : FrameReassembler) : Prop := {
  wf_key id b : sequences r !! id = Some b → fb_frame_id b = id ∧ fb_wf b;
  wf_sorted : StronglySorted Z.lt (emitted_ids r);
  wf_lt : Forall (λ i, i < next_emitted_frame r) (emitted_ids r);
  wf_next : 0 ≤ next_emitted_frame r
}.

(** The condition under which the eviction loop goes on. *)
Definition evictable (cutoff : Z) (r : FrameReassembler) : bool :=
  match sequences r !! next_emitted_frame r with
  | Some b => fb_is_complete b || fb_is_expired b cutoff
  | None => last_emission r <? cutoff
  end.

(** Frame ids the counter can still take without wrapping. *)
Definition ids_left (r : FrameReassembler) (extra : Z) : Prop :=
  next_emitted_frame r + Z.of_nat (size (sequences r)) + extra < u_max 32.

Lemma StronglySorted_snoc l x :
  StronglySorted Z.lt l → Forall (λ i, i < x) l → StronglySorted Z.lt (l ++ [x]).
Proof.
  induction 1 as [|y l Hs IH Hy]; intros Hf; simpl; [by repeat constructor|].
  inversion Hf as [|? ? Hyx Hf']; subst. constructor; [by apply IH|].
  apply Forall_app. by split; [|repeat constructor].
Qed.

Lemma fb_empty_wf id len : 0 ≤ len ≤ 255 → fb_wf (fb_empty id len).
Proof.
  intros. unfold fb_wf, fb_empty. simpl.
  rewrite missing_replicate, length_replicate, Z2Nat.id by lia. lia.
Qed.

Lemma fb_put_wf b s now b' n :
  fb_wf b → fb_put b s now = Ok (b', n) →
  fb_wf b' ∧ fb_frame_id b' = fb_frame_id b ∧ frame_id s = fb_frame_id b ∧
  n = fb_remaining b'.
Proof.
  intros [Hr Hl]. unfold fb_put.
  destruct (Z.eqb_spec (fb_frame_id b) (frame_id s)) as [Hid|]; [|done].
  destruct (fb_is_complete b) eqn:Hc; simpl.
  { intros [= <- <-]. unfold fb_is_complete in Hc. apply Z.eqb_eq in Hc. by rewrite Hc. }
  destruct (fb_segments b !! _) as [[o|]|] eqn:Hi; [by intros [= <- <-]| |done].
  intros [= <- <-]. unfold fb_wf. simpl. rewrite length_insert.
  pose proof (missing_insert _ _ (seg_data s) Hi). pose proof (missing_le (fb_segments b)).
  rewrite Hr, wrap_small by (unfold in_u; lia). repeat split; [lia..|done].
Qed.

Lemma fb_put_no_panic b s now :
  fb_put b s now = Panic →
  fb_frame_id b = frame_id s ∧ Z.of_nat (length (fb_segments b)) ≤ Z.of_nat (Z.to_nat (seq_idx s)).
Proof.
  unfold fb_put. destruct (Z.eqb_spec (fb_frame_id b) (frame_id s)); [|done].
  destruct (fb_is_complete b); simpl; [done|].
  destruct (fb_segments b !! _) as [[o|]|] eqn:Hi; [done..|].
  apply lookup_ge_None in Hi. split; [done|lia].
Qed.

Lemma fb_new_valid s now :
  segment_valid s → ∃ b, fb_new s now = Ok b ∧ fb_wf b ∧ fb_frame_id b = frame_id s.
Proof.
  intros (_ & Hi & Hl). unfold fb_new.
  destruct (fb_put (fb_empty (frame_id s) (seq_len s)) s now) as [[b n]|e|] eqn:Hp; simpl.
  - exists b. split; [done|]. apply fb_put_wf in Hp as (H1 & H2 & _); [done|].
    apply fb_empty_wf. lia.
  - unfold fb_put in Hp. simpl in Hp. rewrite Z.eqb_refl in Hp.
    destruct (fb_is_complete _); [done|]. simpl in Hp. by destruct (_ !! _) as [[|]|].
  - apply fb_put_no_panic in Hp as [_ Hp]. simpl in Hp. rewrite length_replicate in Hp. lia.
Qed.

Lemma fb_reassemble_complete b :
  fb_wf b → fb_is_complete b = true →
  ∃ d, fb_reassemble b = Ok (mkFrame (fb_frame_id b) d).
Proof.
  intros [Hr _] Hc. unfold fb_reassemble. rewrite Hc.
  unfold fb_is_complete in Hc. apply Z.eqb_eq in Hc.
  assert (missing (fb_segments b) = 0%nat) as Hm by lia. rewrite missing_0 in Hm.
  destruct (mapM id (fb_segments b)) as [l|] eqn:E; simpl; [by eexists|].
  apply mapM_None in E. apply Exists_exists in E as (o & Ho & Hno).
  apply list_elem_of_lookup in Ho as [i Hi]. by edestruct Hm.
Qed.

(** Emitting or discarding the builder [b] of the next frame. *)
Lemma emit_wf now r b :
  fr_wf r → closed r = false → sequences r !! next_emitted_frame r = Some b →
  ids_left r 0 →
  ∃ r', emit_if_complete_discard_otherwise now b
          (set_sequences (delete (next_emitted_frame r) (sequences r)) r) = (r', Ok tt) ∧
    fr_wf r' ∧ closed r' = false ∧ next_emitted_frame r' = next_emitted_frame r + 1 ∧
    sequences r' = delete (next_emitted_frame r) (sequences r) ∧
    S (size (sequences r')) = size (sequences r) ∧ last_emission r' = wrap 64 now.
Proof.
  intros [Hk Hs Hlt Hn] Hc Hb Hleft. destruct (Hk _ _ Hb) as [Hid Hw].
  unfold ids_left, u_max in Hleft.
  assert (size (delete (next_emitted_frame r) (sequences r)) = pred (size (sequences r))) as Hsz
    by (by rewrite map_size_delete, Hb).
  assert (size (sequences r) ≠ 0%nat) as Hnz
    by (apply map_size_ne_0_lookup; by eexists _, _).
  assert (wrap 32 (next_emitted_frame r + 1) = next_emitted_frame r + 1) as Hw32
    by (apply wrap_small; unfold in_u; lia).
  assert (∀ item, item_id item = Some (next_emitted_frame r) →
    ∀ r', reassembled r' = reassembled r ++ [item] →
      next_emitted_frame r' = next_emitted_frame r + 1 →
      sequences r' = delete (next_emitted_frame r) (sequences r) → fr_wf r') as Hfin.
  { intros item Hit r' Hr' Hn' Hs'.
    assert (emitted_ids r' = emitted_ids r ++ [next_emitted_frame r]) as He
      by (unfold emitted_ids; rewrite Hr', omap_app; simpl; by rewrite Hit).
    split.
    - intros id b'. rewrite Hs'. intros [_ Hl]%lookup_delete_Some. by apply Hk.
    - rewrite He. by apply StronglySorted_snoc.
    - rewrite He, Hn'. apply Forall_app. split; [|repeat constructor; lia].
      eapply Forall_impl; [exact Hlt|]. simpl. lia.
    - lia. }
  unfold emit_if_complete_discard_otherwise, unbounded_send, mbind, SM_bind. simpl.
  rewrite Hid, Z.eqb_refl, Hw32. simpl.
  destruct (fb_is_complete b) eqn:Hcomp; simpl; rewrite Hc.
  - destruct (fb_reassemble_complete b Hw Hcomp) as [d ->]. simpl. eexists. split; [done|].
    simpl. split; [|repeat split; done || lia].
    eapply (Hfin (Ok (mkFrame (fb_frame_id b) d))); simpl; by rewrite ?Hid.
  - eexists. split; [done|]. simpl. split; [|repeat split; done || lia].
    eapply (Hfin (Err (FrameDiscarded (next_emitted_frame r)))); done.
Qed.

Lemma cascade_wf now fuel r :
  fr_wf r → closed r = false → ids_left r 0 → (size (sequences r) < fuel)%nat →
  ∃ r', cascade fuel now r = (r', Ok tt) ∧ fr_wf r'.
Proof.
  revert r. induction fuel as [|fuel IH]; intros r Hwf Hc Hl Hf; [lia|].
  cbn [cascade]. unfold mbind, SM_bind, get. cbn [fst snd].
  destruct (sequences r !! next_emitted_frame r) as [b|] eqn:Hb; [|by exists r].
  destruct (fb_is_complete b) eqn:Hcomp; [|by exists r].
  destruct (emit_wf now r b) as (r' & Hr' & Hwf' & Hc' & Hn & _ & Hs & _); [done..|].
  unfold modify. cbn [fst snd]. rewrite Hr'. apply IH; [done..| |lia].
  unfold ids_left in *. lia.
Qed.

Lemma evict_loop_wf now cutoff fuel r count :
  fr_wf r → closed r = false → cutoff ≤ wrap 64 now →
  ids_left r (if last_emission r <? cutoff then 1 else 0) →
  Z.of_nat (size (sequences r)) + (if last_emission r <? cutoff then 1 else 0) < Z.of_nat fuel →
  ∃ r' n, evict_loop fuel now cutoff count r = (r', Ok n) ∧ fr_wf r' ∧
    closed r' = false ∧ evictable cutoff r' = false ∧ count ≤ n.
Proof.
  revert r count. induction fuel as [|fuel IH]; intros r count Hwf Hc Hcut Hl Hf;
    [destruct (_ <? _); lia|].
  cbn [evict_loop]. unfold mbind, SM_bind, get. cbn [fst snd].
  destruct (sequences r !! next_emitted_frame r) as [b|] eqn:Hb.
  - destruct (fb_is_complete b || fb_is_expired b cutoff) eqn:Hcond; cycle 1.
    { exists r, count. split_and!; try done.
      unfold evictable. by rewrite Hb. }
    destruct (emit_wf now r b) as (r' & Hr' & Hwf' & Hc' & Hn & _ & Hs & Hle); [done..| |].
    { unfold ids_left in *. destruct (_ <? _); lia. }
    unfold modify. cbn [fst snd]. rewrite Hr'.
    destruct (IH r' (count + 1)) as (r'' & n & H1 & H2 & H3 & H4 & H5); [done..| | |].
    + unfold ids_left in *. rewrite Hle, (proj2 (Z.ltb_ge _ _)) by done.
      destruct (_ <? _); lia.
    + rewrite Hle, (proj2 (Z.ltb_ge _ _)) by done. destruct (_ <? _); lia.
    + exists r'', n. split_and!; done || lia.
  - destruct (last_emission r <? cutoff) eqn:Hcond; cycle 1.
    { exists r, count. split_and!; try done.
      unfold evictable. by rewrite Hb. }
    unfold fetch_add_next, store_last_emission, modify. cbn [fst snd].
    set (r1 := set_last_emission _ _).
    assert (wrap 32 (next_emitted_frame r + 1) = next_emitted_frame r + 1) as Hw.
    { pose proof (wf_next _ Hwf). unfold ids_left, u_max in Hl.
      apply wrap_small. unfold in_u. lia. }
    destruct (IH r1 (count + 1)) as (r'' & n & H1 & H2 & H3 & H4 & H5); [|done|done| | |].
    + destruct Hwf as [Hk Hs Hlt Hn]. split; [done|done| |]; cbn; rewrite Hw; [|lia].
      eapply Forall_impl; [exact Hlt|]. simpl. lia.
    + subst r1. cbn. rewrite (proj2 (Z.ltb_ge _ _)) by done.
      unfold ids_left in *. cbn. rewrite Hw. lia.
    + subst r1. cbn. rewrite (proj2 (Z.ltb_ge _ _)) by done. lia.
    + exists r'', n. split_and!; done || lia.
Qed.

(** ** Pushing an arbitrary valid segment *)

(** Inserting a well-formed builder under its own id. *)
Lemma fr_wf_insert r r' b :
  fr_wf r → fb_wf b →
  sequences r' = <[fb_frame_id b := b]> (sequences r) →
  next_emitted_frame r' = next_emitted_frame r → reassembled r' = reassembled r → fr_wf r'.
Proof.
  intros [Hk Hs Hlt Hn] Hb Hseq Hnext Hre.
  assert (emitted_ids r' = emitted_ids r) as He by (unfold emitted_ids; by rewrite Hre).
  split; rewrite ?He, ?Hnext; try done.
  intros id b'. rewrite Hseq. intros [[<- <-]|[_ Hl]]%lookup_insert_Some; [done|by apply Hk].
Qed.

#[local] Arguments cascade : simpl never.

(** Emitting the just completed builder of the next frame, then the frames
    that follow it. *)
Lemma finish_wf now r r1 b :
  fr_wf r → fb_wf b → fb_is_complete b = true → fb_frame_id b = next_emitted_frame r →
  ids_left r 1 → closed r1 = false →
  reassembled r1 = reassembled r → next_emitted_frame r1 = wrap 32 (next_emitted_frame r + 1) →
  sequences r1 = delete (next_emitted_frame r) (sequences r) →
  ∃ r2 r', emit_completed now b r1 = (r2, Ok true) ∧
    cascade (S (size (sequences r2))) now r2 = (r', Ok tt) ∧ fr_wf r'.
Proof.
  intros [Hk Hs Hlt Hn] Hb Hcomp Hid Hleft Hc1 Hr1 Hn1 Hs1.
  rewrite wrap_small in Hn1 by (unfold ids_left, u_max in Hleft; unfold in_u; lia).
  unfold emit_completed, unbounded_send, mbind, SM_bind. simpl. rewrite Hc1.
  destruct (fb_reassemble_complete b Hb Hcomp) as [d ->]. cbn [fst snd].
  eexists _. set (r2 := set_last_emission _ _).
  assert (emitted_ids r2 = emitted_ids r ++ [next_emitted_frame r]) as He.
  { unfold emitted_ids. subst r2. cbn. rewrite Hr1, omap_app. simpl. by rewrite Hid. }
  assert (size (sequences r1) ≤ size (sequences r))%nat as Hsz.
  { rewrite Hs1, map_size_delete. destruct (sequences r !! _); simpl; lia. }
  destruct (cascade_wf now (S (size (sequences r2))) r2) as (r' & Hr' & Hwf'); [|done|..|lia|].
  - split.
    + intros id b'. subst r2. cbn. rewrite Hs1. intros [_ Hl]%lookup_delete_Some. by apply Hk.
    + rewrite He. by apply StronglySorted_snoc.
    + rewrite He. subst r2. cbn. rewrite Hn1. apply Forall_app. split; [|repeat constructor; lia].
      eapply Forall_impl; [exact Hlt|]. simpl. lia.
    + subst r2. cbn. lia.
  - unfold ids_left in *. subst r2. cbn. rewrite Hn1. lia.
  - by exists r'.
Qed.

(** [push_segment] on a valid segment: what each result means. *)
Lemma push_segment_step now s r :
  fr_wf r → closed r = false → segment_valid s → ids_left r 1 →
  match push_segment now s r with
  | (r', Ok _) => fr_wf r' ∧ next_emitted_frame r ≤ frame_id s
  | (r', Err e) => r' = r ∧ e = OldSegment (frame_id s) ∧ frame_id s < next_emitted_frame r
  | (_, Panic) =>
      ∃ b, sequences r !! frame_id s = Some b ∧ Z.of_nat (length (fb_segments b)) ≤ seq_idx s
  end.
Proof.
  intros Hwf Hc Hval Hl. unfold push_segment, mbind, SM_bind. simpl. rewrite Hc.
  destruct (Z.ltb_spec (frame_id s) (next_emitted_frame r)) as [|Hge]; [done|].
  destruct (sequences r !! frame_id s) as [b|] eqn:Hb.
  - destruct (wf_key _ Hwf _ _ Hb) as [Hid Hbw].
    destruct (fb_put b s now) as [[b' n]|e|] eqn:Hput; simpl; cycle 1.
    { unfold fb_put in Hput. rewrite Hid, Z.eqb_refl in Hput.
      destruct (negb _); [|done]. by destruct (fb_segments b !! _) as [[|]|]. }
    { apply fb_put_no_panic in Hput as [_ Hp]. exists b. split; [done|].
      destruct Hval as (_ & ? & _). lia. }
    destruct (fb_put_wf _ _ _ _ _ Hbw Hput) as (Hbw' & Hid' & _ & Hrem); subst n.
    assert (fb_frame_id b' = frame_id s) as Hids by congruence.
    destruct (fb_remaining b' =? 0) eqn:Hcomp; simpl; cycle 1.
    { split; [|done]. eapply (fr_wf_insert r _ b'); simpl; congruence. }
    unfold compare_exchange_next. simpl.
    destruct (Z.eqb_spec (next_emitted_frame r) (frame_id s)) as [Hn|Hn]; simpl; cycle 1.
    { split; [|done]. eapply (fr_wf_insert r _ b'); simpl; congruence. }
    rewrite delete_insert_eq.
    match goal with |- context [emit_completed now b' ?r1] =>
      destruct (finish_wf now r r1 b') as (r2 & r' & -> & Hcas & Hwf'); simpl; try done; try congruence end.
    by rewrite Hcas.
  - destruct (fb_new_valid s now Hval) as (b' & -> & Hbw' & Hids). simpl.
    destruct (fb_is_complete b') eqn:Hcomp; simpl; cycle 1.
    { split; [|done]. eapply (fr_wf_insert r _ b'); simpl; congruence. }
    unfold compare_exchange_next. simpl.
    destruct (Z.eqb_spec (next_emitted_frame r) (frame_id s)) as [Hn|Hn]; simpl; cycle 1.
    { split; [|done]. eapply (fr_wf_insert r _ b'); simpl; congruence. }
    match goal with |- context [emit_completed now b' ?r1] =>
      destruct (finish_wf now r r1 b') as (r2 & r' & -> & Hcas & Hwf'); simpl; try done; try congruence end.
    { rewrite delete_id; [done|congruence]. }
    by rewrite Hcas.
Qed.

(** Sequencing safety: on any valid segment, also one of a misbehaving
    sender, a push that does not abort keeps the reassembler well formed, so
    that the frame ids handed to the consumer (completed or discarded) stay
    strictly increasing, and a segment is rejected exactly when its frame was
    already emitted or skipped. *)
Theorem push_segment_safe now s r r' o :
  fr_wf r → closed r = false → segment_valid s → ids_left r 1 →
  push_segment now s r = (r', o) → o ≠ Panic →
  fr_wf r' ∧ StronglySorted Z.lt (emitted_ids r') ∧
  (o = Err (OldSegment (frame_id s)) ↔ frame_id s < next_emitted_frame r).
Proof.
  intros Hwf Hc Hv Hl Hp Ho. pose proof (push_segment_step now s r Hwf Hc Hv Hl) as H.
  rewrite Hp in H. destruct o as [[]|e|]; [|destruct H as (-> & -> & ?)|done].
  - destruct H as [Hwf' Hge]. split; [done|]. split; [apply Hwf'|]. split; [done|lia].
  - split; [done|]. split; [apply Hwf|]. done.
Qed.

Lemma push_segment_safe_witness :
  let r := fr_new 10 in
  let s := mkSegment 1 0 1 [42] in
  fr_wf r ∧ fr_wf (fst (push_segment 5 s r)).
Proof.
  assert (fr_wf (fr_new 10)) as Hwf by (split; simpl; [done|constructor|constructor|lia]).
  split; [exact Hwf|].
  destruct (push_segment_safe 5 (mkSegment 1 0 1 [42]) (fr_new 10)
    (fst (push_segment 5 (mkSegment 1 0 1 [42]) (fr_new 10))) (Ok tt)) as [H _];
    [exact Hwf|reflexivity|repeat split; simpl; lia|vm_compute; reflexivity
    |vm_compute; reflexivity|discriminate|exact H].
Defined.

(** Eviction terminates and settles: [evict] on an open, well-formed
    reassembler returns a count within its fuel, never aborts, preserves the
    strictly increasing order of emitted ids, and leaves the reassembler in a
    state where the next frame is neither complete nor expired and, if it was
    never seen, the last emission is recent enough. *)
Theorem evict_settles now r :
  fr_wf r → closed r = false → 0 ≤ now < 2 ^ 64 → 0 ≤ max_age r → ids_left r 1 →
  sequences r ≠ ∅ →
  ∃ r' n, evict now r = (r', Ok n) ∧ 0 ≤ n ∧ fr_wf r' ∧ StronglySorted Z.lt (emitted_ids r') ∧
    evictable (saturating_sub now (max_age r)) r' = false.
Proof.
  intros Hwf Hc Hnow Hage Hl Hne. unfold evict, mbind, SM_bind. simpl. rewrite Hc.
  rewrite decide_False by done.
  assert (wrap 64 (saturating_sub now (max_age r)) = saturating_sub now (max_age r)) as Hw
    by (apply wrap_small; unfold in_u, saturating_sub; lia).
  destruct (evict_loop_wf now (wrap 64 (saturating_sub now (max_age r)))
    (size (sequences r) + 2) r 0) as (r' & n & -> & H1 & H2 & H3 & H4); [done|done|..].
  - rewrite Hw, (wrap_small 64 now) by (unfold in_u; lia). unfold saturating_sub. lia.
  - unfold ids_left in *. destruct (_ <? _); lia.
  - destruct (_ <? _); lia.
  - rewrite Hw in H3. exists r', n. split_and!; try done. apply H1.
Qed.

Lemma evict_settles_witness :
  let r := fst (push_segment 100 (mkSegment 1 0 2 [7]) (fr_new 10)) in
  fr_wf r ∧ ∃ r' n, evict 500 r = (r', Ok n) ∧ 0 ≤ n ∧ fr_wf r' ∧
    StronglySorted Z.lt (emitted_ids r') ∧ evictable 490 r' = false.
Proof.
  set (r := fst _).
  assert (fr_wf r) as Hwf.
  { split; [|constructor|constructor|vm_compute; discriminate].
    intros id b. change (sequences r) with
      ({[1 := mkBuilder 1 [Some [7]; None] 1 100]} : gmap Z FrameBuilder).
    intros [<- <-]%lookup_singleton_Some.
    split; [reflexivity|split; [reflexivity|vm_compute; discriminate]]. }
  split; [exact Hwf|].
  apply (evict_settles 500 r); [exact Hwf|reflexivity|split; lia|vm_compute; discriminate
    |vm_compute; reflexivity|vm_compute; discriminate].
Defined.

(** A peer can abort the process: two segments that each pass the parser
    but disagree on the number of segments of their frame make the second push
    index beyond the builder's slots. *)
Theorem push_mismatched_length_aborts now1 now2 s1 s2 age :
  segment_valid s1 → segment_valid s2 → frame_id s1 = frame_id s2 →
  2 ≤ seq_len s1 → seq_len s1 ≤ seq_idx s2 →
  snd (push_segment now2 s2 (fst (push_segment now1 s1 (fr_new age)))) = Panic.
Proof.
  intros (Hf1 & Hi1 & Hl1) (Hf2 & Hi2 & Hl2) Hf H2 Hlt.
  assert (∃ b, fb_new s1 now1 = Ok b ∧ fb_frame_id b = frame_id s1 ∧
    fb_remaining b = seq_len s1 - 1 ∧ Z.of_nat (length (fb_segments b)) = seq_len s1)
    as (b & Hb & Hid & Hrem & Hlen).
  { unfold fb_new, fb_put. simpl. rewrite Z.eqb_refl. unfold fb_is_complete. simpl.
    rewrite (proj2 (Z.eqb_neq _ _)) by lia. simpl.
    rewrite lookup_replicate_2 by lia. simpl. eexists. split; [done|]. simpl.
    split; [done|]. rewrite wrap_small by (unfold in_u; lia).
    rewrite length_insert, length_replicate. lia. }
  assert (fb_is_complete b = false) as Hnc by (apply Z.eqb_neq; lia).
  assert (fst (push_segment now1 s1 (fr_new age)) =
    set_highest (Z.max 0 (frame_id s1)) (set_sequences {[frame_id s1 := b]} (fr_new age))) as ->.
  { unfold push_segment, mbind, SM_bind. simpl.
    rewrite (proj2 (Z.ltb_ge _ _)) by lia. rewrite lookup_empty, Hb. simpl. by rewrite Hnc. }
  unfold push_segment, mbind, SM_bind. simpl.
  rewrite (proj2 (Z.ltb_ge _ _)) by lia. rewrite Hf, lookup_singleton_eq. simpl.
  unfold fb_put. rewrite Hid, Hf, Z.eqb_refl, Hnc. simpl.
  by rewrite lookup_ge_None_2 by lia.
Qed.

Lemma push_mismatched_length_aborts_witness :
  let s1 := mkSegment 1 0 2 [1] in
  let s2 := mkSegment 1 5 9 [2] in
  Segment_of_bytes (Segment_to_bytes s1) = Ok s1 ∧
  Segment_of_bytes (Segment_to_bytes s2) = Ok s2 ∧
  snd (push_segment 0 s2 (fst (push_segment 0 s1 (fr_new 10)))) = Panic.
Proof.
  split; [vm_compute; reflexivity|]. split; [vm_compute; reflexivity|].
  apply (push_mismatched_length_aborts 0 0 (mkSegment 1 0 2 [1]) (mkSegment 1 5 9 [2]) 10);
    repeat split; simpl; lia.
Defined.

(** Until a first frame has been emitted, the sequencer waits for frame 1
    for ever: no eviction at any time skips a first frame of which no segment
    arrived, although later frames are complete and older than [max_age]. *)
Theorem evict_waits_for_first_frame now r :
  closed r = false → next_emitted_frame r = 1 → last_emission r = u_max 64 →
  sequences r !! 1 = None →
  evict now r = (r, Ok 0).
Proof.
  intros Hc Hn Hle H1. unfold evict, mbind, SM_bind. simpl. rewrite Hc.
  case_decide; [done|]. rewrite Nat.add_comm. cbn [Nat.add evict_loop].
  unfold mbind, SM_bind. simpl. rewrite Hn, H1, Hle.
  pose proof (wrap_in_u 64 (saturating_sub now (max_age r)) ltac:(lia)) as Hw.
  unfold in_u, u_max in *. by rewrite (proj2 (Z.ltb_ge _ _)) by lia.
Qed.

Lemma evict_waits_for_first_frame_witness :
  let r := fst (push_segment 0 (mkSegment 2 0 1 [1]) (fr_new 10)) in
  fb_is_complete <$> sequences r !! 2 = Some true ∧ evict 1000000 r = (r, Ok 0).
Proof.
  split; [vm_compute; reflexivity|].
  apply evict_waits_for_first_frame; vm_compute; reflexivity.
Defined.

(** The order used for the reassembler's heap of incomplete frames does
    not distinguish frames updated in the same millisecond: the comparison
    answers [Equal] for two different frame ids. *)
Lemma FrameInfo_cmp_ignores_frame_id a b :
  FrameInfo_cmp a b = Eq ↔ last_update a = last_update b.
Proof.
  unfold FrameInfo_cmp. rewrite Z.compare_refl. split.
  - destruct (last_update a ?= last_update b) eqn:E; simpl; try done. intros _. by apply Z.compare_eq.
  - intros ->. by rewrite Z.compare_refl.
Qed.
