(* ===== verification/SessionProtocol.v ===== *)
(** * Session protocol messages

    Models [common/network-types/src/session/protocol.rs]: the retransmission
    request, the frame acknowledgement and the envelope of the three session
    messages, with their byte encodings and the iterator that parses a stream
    of messages.  [C] is the const generic MTU of the source; the constants
    need [4 <= C] to compile. *)
From S2P Require Import Prelude Frame.
From Stdlib Require Import Sorting.Sorted.

Section Protocol.
Context (C : Z).

(** ** Sizes *)

(** Version byte, discriminant byte and a [u16] length. *)
Definition HEADER_SIZE : Z := 4.
Definition SEGMENT_OVERHEAD : Z := HEADER_SIZE + Segment_HEADER_SIZE.
Definition MAX_MESSAGE_SIZE : Z := 1492 - SEGMENT_OVERHEAD.
Definition VERSION : Z := 1.
Definition ENTRY_SIZE : Z := 5.
Definition MAX_MISSING_SEGMENTS_PER_FRAME : Z := 8.
Definition MAX_SEGMENTS_PER_FRAME : Z := MAX_MISSING_SEGMENTS_PER_FRAME.

(** [SegmentRequest::SIZE] and [FrameAcknowledgements::SIZE]. *)
Definition SIZE : Z := C - HEADER_SIZE.
Definition MAX_ENTRIES : Z := SIZE `div` ENTRY_SIZE.
Definition MAX_ACK_FRAMES : Z := SIZE `div` 4.

Definition minimum_message_size : Z :=
  HEADER_SIZE + Z.min (Z.min Segment_MINIMUM_SIZE SIZE) SIZE.

(** ** SegmentRequest: frame id to bitmap of missing segments, by frame id *)
Definition SegmentRequest : Type := list (Z * Z).

(** [u8::count_ones]. *)
Definition count_ones (b : Z) : Z :=
  Z.of_nat (length (filter (λ i, Z.testbit b i = true) (seqZ 0 8))).

Definition sr_len (r : SegmentRequest) : Z :=
  foldr Z.add 0 (map (λ p, count_ones (snd p)) (take (Z.to_nat MAX_ENTRIES) r)).

Definition sr_is_empty (r : SegmentRequest) : bool := bool_decide (r = []).

(** The order in which [into_iter] yields: the entries are pushed by ascending
    frame and descending segment, and the iterator pops from the end. *)
Definition sr_into_iter (r : SegmentRequest) : list SegmentId :=
  reverse (concat (map (λ p,
    omap (λ i, if negb (Z.land (wrap 8 (Z.shiftl 1 i)) (snd p) =? 0)
               then Some (mkSegmentId (fst p) (wrap 8 i)) else None)
      (reverse (seqZ 0 8))) r)).

(** The bitmap of one frame in [FromIterator<FrameInfo>]. *)
Definition missing_bitmap (fi : FrameInfo) : Z :=
  foldl Z.lor 0
    (map (λ idx, wrap 8 (Z.shiftl 1 idx))
      (filter (λ s, s < MAX_MISSING_SEGMENTS_PER_FRAME) (iter_missing_sequence_indices fi))).

Definition sr_from_iter (frames : list FrameInfo) : SegmentRequest :=
  foldl (λ ret fi, bt_insert (fi_frame_id fi) (missing_bitmap fi) ret) []
    (take (Z.to_nat MAX_ENTRIES) frames).

Definition sr_of_bytes (value : bytes) : outcome SessionError SegmentRequest :=
  if Z.of_nat (length value) =? SIZE then
    Ok (foldl (λ ret c,
          let frame_id := from_be (take 4 c) in
          if 0 <? frame_id then bt_insert frame_id (from_be (drop 4 c)) ret else ret)
        [] (chunks_exact (Z.to_nat ENTRY_SIZE) value))
  else Err ParseError.

(** [ret\[off..off + len\].copy_from_slice(src)]: panics out of range. *)
Definition copy_at (off : Z) (src ret : bytes) : outcome SessionError bytes :=
  if off + Z.of_nat (length src) <=? Z.of_nat (length ret)
  then Ok (take (Z.to_nat off) ret ++ src ++ drop (Z.to_nat off + length src) ret)
  else Panic.

Fixpoint sr_encode_loop (entries : SegmentRequest) (offset : Z) (ret : bytes) :
    outcome SessionError bytes :=
  match entries with
  | [] => Ok ret
  | (frame_id, seq_num) :: entries =>
      if offset + 4 + 1 <? C then
        ret ← copy_at offset (to_be 4 frame_id) ret;
        ret ← copy_at (offset + 4) (to_be 1 seq_num) ret;
        sr_encode_loop entries (offset + 4 + 1) ret
      else Ok ret
  end.

Definition sr_to_bytes (r : SegmentRequest) : outcome SessionError bytes :=
  sr_encode_loop r 0 (replicate (Z.to_nat SIZE) 0).

(** ** FrameAcknowledgements: a set of frame ids, ascending *)
Definition FrameAcknowledgements : Type := list Z.

Definition fa_is_full (a : FrameAcknowledgements) : bool :=
  Z.of_nat (length a) =? MAX_ACK_FRAMES.

(** [push]: the new set and whether the id was added. *)
Definition fa_push (frame_id : Z) (a : FrameAcknowledgements) : FrameAcknowledgements * bool :=
  if fa_is_full a then (a, false)
  else (bts_insert frame_id a, bool_decide (frame_id ∉ a)).

Definition fa_len (a : FrameAcknowledgements) : Z := Z.of_nat (length a).
Definition fa_is_empty (a : FrameAcknowledgements) : bool := bool_decide (a = []).

Definition fa_from_vec (value : list Z) : FrameAcknowledgements :=
  bts_of_list (filter (λ v, 0 < v) (take (Z.to_nat MAX_ACK_FRAMES) value)).

Definition fa_into_iter (a : FrameAcknowledgements) : list Z := a.

Definition fa_of_bytes (value : bytes) : outcome SessionError FrameAcknowledgements :=
  if Z.of_nat (length value) =? SIZE then
    Ok (bts_of_list (filter (λ v, 0 < v) (map from_be (chunks_exact 4 value))))
  else Err ParseError.

(** The encoding, padded with zeros and cut to the message size. *)
Definition fa_to_bytes (a : FrameAcknowledgements) : bytes :=
  take (Z.to_nat SIZE) (concat (map (to_be 4) a) ++ replicate (Z.to_nat SIZE) 0).

(** ** SessionMessage *)
Inductive SessionMessage :=
| MSegment (s : Segment)
| MRequest (r : SegmentRequest)
| MAcknowledge (a : FrameAcknowledgements).

Inductive SessionMessageDiscriminants := DSegment | DRequest | DAcknowledge.

(** The [strum] discriminants: [repr(u8)] in declaration order. *)
Definition disc_repr (d : SessionMessageDiscriminants) : Z :=
  match d with DSegment => 0 | DRequest => 1 | DAcknowledge => 2 end.
Definition disc_from_repr (z : Z) : option SessionMessageDiscriminants :=
  if z =? 0 then Some DSegment else if z =? 1 then Some DRequest
  else if z =? 2 then Some DAcknowledge else None.
Definition disc_of (m : SessionMessage) : SessionMessageDiscriminants :=
  match m with MSegment _ => DSegment | MRequest _ => DRequest | MAcknowledge _ => DAcknowledge end.

Definition sm_to_bytes (m : SessionMessage) : outcome SessionError bytes :=
  msg ← match m with
        | MSegment s => Ok (Segment_to_bytes s)
        | MRequest r => sr_to_bytes r
        | MAcknowledge a => Ok (fa_to_bytes a)
        end;
  let msg_len := wrap 16 (Z.of_nat (length msg)) in
  Ok ([VERSION; disc_repr (disc_of m)] ++ to_be 2 msg_len ++ msg).

(** ** SessionMessageIter *)
Record SessionMessageIter := mkIter {
  it_data : bytes;
  it_offset : Z;
  it_last_err : option SessionError
}.

Definition iter_new (data : bytes) : SessionMessageIter := mkIter data 0 None.

Definition is_done (it : SessionMessageIter) : bool :=
  bool_decide (is_Some (it_last_err it)) ||
  (wrap 64 (Z.of_nat (length (it_data it)) - it_offset it) <? minimum_message_size).

Abbreviation IM := (SM SessionMessageIter SessionError).

(** [try_next]: every index or slice of the data can panic. *)
Definition try_next : IM SessionMessage :=
  it ← get;
  let data := it_data it in
  let offset := it_offset it in
  version ← lift (index offset data);
  if negb (version =? VERSION) then throw WrongVersion else
  disc ← lift (index (offset + 1) data);
  len_bytes ← lift (slice (offset + 2) (offset + 4) data);
  let len := from_be len_bytes in
  let offset := offset + 4 in
  if MAX_MESSAGE_SIZE <? len then throw IncorrectMessageLength else
  if negb (Z.land len 0xFC00 =? 0) then throw ParseError else
  d ← lift (ok_or (disc_from_repr disc) UnknownMessageTag);
  body ← lift (slice offset (offset + len) data);
  res ← lift match d with
             | DSegment => MSegment <$> Segment_of_bytes body
             | DRequest => MRequest <$> sr_of_bytes body
             | DAcknowledge => MAcknowledge <$> fa_of_bytes body
             end;
  modify (λ it, mkIter (it_data it) (offset + len) (it_last_err it));;
  mret res.

(** [TryFrom<&\[u8\]> for SessionMessage]: the first message, read without the
    [is_done] guard. *)
Definition sm_of_bytes (value : bytes) : outcome SessionError SessionMessage :=
  snd (try_next (iter_new value)).

(** [Iterator::next]: the new state and the item. *)
Definition iter_next (it : SessionMessageIter) :
    SessionMessageIter * outcome SessionError (option (outcome SessionError SessionMessage)) :=
  if negb (is_done it) then
    match try_next it with
    | (it, Ok m) => (it, Ok (Some (Ok m)))
    | (it, Err e) => (mkIter (it_data it) (it_offset it) (Some e), Ok (Some (Err e)))
    | (it, Panic) => (it, Panic)
    end
  else (it, Ok None).

(** All items of the iterator, as a consumer that runs it to its end sees
    them.  Every parsed message advances the offset, so one more than the
    number of bytes is enough fuel. *)
Fixpoint iter_collect (fuel : nat) (it : SessionMessageIter) :
    outcome SessionError (list (outcome SessionError SessionMessage)) :=
  match fuel with
  | O => Ok []
  | S fuel =>
      match iter_next it with
      | (_, Ok None) => Ok []
      | (it, Ok (Some item)) => rest ← iter_collect fuel it; Ok (item :: rest)
      | (_, Err e) => Err e
      | (_, Panic) => Panic
      end
  end.

Definition parse_stream (data : bytes) :
    outcome SessionError (list (outcome SessionError SessionMessage)) :=
  iter_collect (S (length data)) (iter_new data).

End Protocol.

(** ** Requests and acknowledgements: encodings *)

(** What [FromIterator] and the parser build: ascending positive ids, byte
    bitmaps, no more entries than fit. *)
Definition sr_ok (C : Z) (r : SegmentRequest) : Prop :=
  ascending (map fst r) ∧
  (∀ p, p ∈ r → 0 < fst p < 2 ^ 32 ∧ in_u 8 (snd p)) ∧
  Z.of_nat (length r) ≤ MAX_ENTRIES C.

Definition fa_ok (C : Z) (a : FrameAcknowledgements) : Prop :=
  ascending a ∧ (∀ f, f ∈ a → 0 < f < 2 ^ 32) ∧ Z.of_nat (length a) ≤ MAX_ACK_FRAMES C.

Definition enc_entry (p : Z * Z) : bytes := to_be 4 (fst p) ++ to_be 1 (snd p).

Lemma copy_at_end a src n :
  (length src ≤ n)%nat →
  copy_at (Z.of_nat (length a)) src (a ++ replicate n 0) =
    Ok (a ++ src ++ replicate (n - length src) 0).
Proof.
  intros Hn. unfold copy_at. rewrite (proj2 (Z.leb_le _ _)) by (autorewrite with lens; lia).
  rewrite Nat2Z.id, take_app_length. do 3 f_equal.
  rewrite drop_app_ge by lia. rewrite drop_replicate. f_equal. lia.
Qed.

Lemma length_enc_entry p : length (enc_entry p) = 5%nat.
Proof. unfold enc_entry. by autorewrite with lens. Qed.

Lemma take_enc_entry p : take 4 (enc_entry p) = to_be 4 (fst p).
Proof. apply take_app_length'. by rewrite length_to_be. Qed.

Lemma drop_enc_entry p : drop 4 (enc_entry p) = to_be 1 (snd p).
Proof. apply drop_app_length'. by rewrite length_to_be. Qed.

Lemma sr_encode_loop_ok C r pre n :
  SIZE C = Z.of_nat (length pre) + Z.of_nat n → (5 * length r ≤ n)%nat →
  sr_encode_loop C r (Z.of_nat (length pre)) (pre ++ replicate n 0) =
    Ok (pre ++ concat (map enc_entry r) ++ replicate (n - 5 * length r) 0).
Proof.
  revert pre n. induction r as [|[f m] r IH]; intros pre n Hs Hn; cbn [sr_encode_loop].
  { simpl. by rewrite Nat.sub_0_r. }
  cbn [length] in Hn. unfold SIZE, HEADER_SIZE in Hs.
  rewrite (proj2 (Z.ltb_lt _ _)) by lia.
  rewrite copy_at_end by (rewrite length_to_be; lia). cbn [mbind outcome_bind].
  rewrite length_to_be, (assoc_L (++)).
  replace (Z.of_nat (length pre) + 4) with (Z.of_nat (length (pre ++ to_be 4 f)))
    by (autorewrite with lens; lia).
  rewrite copy_at_end by (rewrite length_to_be; lia). cbn [mbind outcome_bind].
  rewrite length_to_be, (assoc_L (++)).
  replace (Z.of_nat (length (pre ++ to_be 4 f)) + 1)
    with (Z.of_nat (length ((pre ++ to_be 4 f) ++ to_be 1 m))) by (autorewrite with lens; lia).
  rewrite IH; [|unfold SIZE, HEADER_SIZE; autorewrite with lens; lia|lia].
  f_equal. cbn [map concat length]. unfold enc_entry at 2. cbn [fst snd].
  rewrite <-!(assoc_L (++)). do 5 f_equal. lia.
Qed.

Lemma sr_to_bytes_ok C r :
  4 ≤ C → Z.of_nat (length r) ≤ MAX_ENTRIES C →
  sr_to_bytes C r = Ok (concat (map enc_entry r) ++
    replicate (Z.to_nat (SIZE C) - 5 * length r) 0).
Proof.
  intros HC Hr. unfold sr_to_bytes. unfold MAX_ENTRIES, ENTRY_SIZE in Hr.
  pose proof (Z.mul_div_le (SIZE C) 5). unfold SIZE, HEADER_SIZE in *.
  apply (sr_encode_loop_ok C r []); simpl; [|lia].
  unfold SIZE, HEADER_SIZE. rewrite Z2Nat.id; lia.
Qed.

Lemma length_concat_const {A} (l : list (list A)) n :
  Forall (λ c, length c = n) l → length (concat l) = (length l * n)%nat.
Proof. induction 1; simpl; [done|]. rewrite length_app. lia. Qed.

Lemma Forall_enc_entry r : Forall (λ c, length c = 5%nat) (map enc_entry r).
Proof. apply Forall_fmap, Forall_true. intros. apply length_enc_entry. Qed.

Lemma sr_encoded_length C r :
  4 ≤ C → Z.of_nat (length r) ≤ MAX_ENTRIES C →
  Z.of_nat (length (concat (map enc_entry r) ++
    replicate (Z.to_nat (SIZE C) - 5 * length r) 0)) = SIZE C.
Proof.
  intros HC Hr. unfold MAX_ENTRIES, ENTRY_SIZE in Hr. pose proof (Z.mul_div_le (SIZE C) 5).
  rewrite length_app, length_replicate, (length_concat_const _ 5) by apply Forall_enc_entry.
  rewrite length_map. unfold SIZE, HEADER_SIZE in *. lia.
Qed.

Lemma foldl_zero_chunks l acc :
  (∀ c, c ∈ l → c = replicate 5 0) →
  foldl (λ ret c, if 0 <? from_be (take 4 c)
    then bt_insert (from_be (take 4 c)) (from_be (drop 4 c)) ret else ret) acc l = acc.
Proof.
  revert acc. induction l as [|c l IH]; intros acc H; [done|].
  cbn [foldl]. rewrite (H c) by (by left). change (take 4 (replicate 5 0)) with [0; 0; 0; 0].
  change (from_be [0; 0; 0; 0]) with 0. simpl. apply IH. intros. apply H. by right.
Qed.

Lemma foldl_entries r acc :
  (∀ p, p ∈ r → 0 < fst p < 2 ^ 32 ∧ in_u 8 (snd p)) →
  foldl (λ ret c, if 0 <? from_be (take 4 c)
    then bt_insert (from_be (take 4 c)) (from_be (drop 4 c)) ret else ret) acc (map enc_entry r)
  = foldl (λ acc p, bt_insert (fst p) (snd p) acc) acc r.
Proof.
  revert acc. induction r as [|[f m] r IH]; intros acc H; [done|].
  cbn [map foldl]. destruct (H (f, m)) as [Hf Hm]; [by left|]. cbn [fst snd] in *.
  rewrite take_enc_entry, drop_enc_entry. cbn [fst snd].
  rewrite !from_be_to_be_small by (unfold in_u in *; simpl; lia).
  rewrite (proj2 (Z.ltb_lt _ _)) by lia. apply IH. intros. apply H. by right.
Qed.

Lemma sr_roundtrip C r :
  4 ≤ C → sr_ok C r →
  ∃ bs, sr_to_bytes C r = Ok bs ∧ Z.of_nat (length bs) = SIZE C ∧ sr_of_bytes C bs = Ok r.
Proof.
  intros HC (Ha & Hp & Hl). eexists. split; [by apply sr_to_bytes_ok|].
  pose proof (sr_encoded_length C r HC Hl) as Hlen. split; [done|].
  unfold sr_of_bytes. rewrite Hlen, Z.eqb_refl.
  change (Z.to_nat ENTRY_SIZE) with 5%nat.
  rewrite chunks_exact_concat by (lia || apply Forall_enc_entry).
  rewrite foldl_app, foldl_entries, (foldl_bt_insert [] r), foldl_zero_chunks; try done.
  intros c Hc. by apply chunks_exact_replicate in Hc; [|lia].
Qed.

Lemma Forall_to_be_4 a : Forall (λ c, length c = 4%nat) (map (to_be 4) a).
Proof. apply Forall_fmap, Forall_true. intros. apply length_to_be. Qed.

Lemma fa_to_bytes_ok C a :
  4 ≤ C → Z.of_nat (length a) ≤ MAX_ACK_FRAMES C →
  fa_to_bytes C a = concat (map (to_be 4) a) ++ replicate (Z.to_nat (SIZE C) - 4 * length a) 0.
Proof.
  intros HC Hl. unfold fa_to_bytes. unfold MAX_ACK_FRAMES in Hl.
  pose proof (Z.mul_div_le (SIZE C) 4). unfold SIZE, HEADER_SIZE in *.
  assert (length (concat (map (to_be 4) a)) = 4 * length a)%nat as Hc.
  { rewrite (length_concat_const _ 4) by apply Forall_to_be_4. rewrite length_map. lia. }
  rewrite take_app_ge by lia. rewrite Hc, take_replicate. do 2 f_equal. lia.
Qed.

Lemma filter_pos_id (a : list Z) : (∀ f, f ∈ a → 0 < f) → filter (λ v, 0 < v) a = a.
Proof.
  induction a as [|f a IH]; intros H; [done|].
  rewrite filter_cons_True by (apply H; by left). rewrite IH; [done|]. intros. apply H. by right.
Qed.

Lemma filter_zero_chunks l :
  (∀ c, c ∈ l → c = replicate 4 0) → filter (λ v, 0 < v) (map from_be l) = [].
Proof.
  induction l as [|c l IH]; intros H; [done|]. cbn [map]. rewrite (H c) by (by left).
  change (from_be (replicate 4 0)) with 0. rewrite filter_cons_False by lia.
  apply IH. intros. apply H. by right.
Qed.

Lemma fa_roundtrip C a :
  4 ≤ C → fa_ok C a →
  Z.of_nat (length (fa_to_bytes C a)) = SIZE C ∧ fa_of_bytes C (fa_to_bytes C a) = Ok a.
Proof.
  intros HC (Ha & Hp & Hl). rewrite fa_to_bytes_ok by done.
  assert (Z.of_nat (length (concat (map (to_be 4) a) ++
    replicate (Z.to_nat (SIZE C) - 4 * length a) 0)) = SIZE C) as Hlen.
  { unfold MAX_ACK_FRAMES in Hl. pose proof (Z.mul_div_le (SIZE C) 4).
    rewrite length_app, length_replicate, (length_concat_const _ 4) by apply Forall_to_be_4.
    rewrite length_map. unfold SIZE, HEADER_SIZE in *. lia. }
  split; [done|]. unfold fa_of_bytes. rewrite Hlen, Z.eqb_refl.
  rewrite chunks_exact_concat by (lia || apply Forall_to_be_4).
  rewrite map_app, filter_app, map_map.
  rewrite (map_ext_in _ id); cycle 1.
  { intros f Hf. apply list_elem_of_In, Hp in Hf.
    apply from_be_to_be_small. unfold in_u. simpl. lia. }
  rewrite map_id, filter_pos_id by (intros f Hf; apply Hp in Hf; lia).
  rewrite filter_zero_chunks, app_nil_r.
  - unfold bts_of_list. by rewrite foldl_bts_insert.
  - intros c Hc. by apply chunks_exact_replicate in Hc; [|lia].
Qed.

(** ** Message streams *)

(** A message as the session state machine builds it: its body fits the ten
    bits of the length field that version 1 accepts. *)
Definition msg_ok (C : Z) (m : SessionMessage) : Prop :=
  match m with
  | MSegment s => Segment_wf s ∧ 0 < frame_id s ∧ seq_idx s < seq_len s ∧
      seg_data s ≠ [] ∧ Segment_HEADER_SIZE + Z.of_nat (length (seg_data s)) < 1024
  | MRequest r => sr_ok C r ∧ SIZE C < 1024
  | MAcknowledge a => fa_ok C a ∧ SIZE C < 1024
  end.

Lemma reserved_bits_small len : 0 ≤ len < 65536 → Z.land len 0xFC00 = 0 ↔ len < 1024.
Proof.
  intros Hl.
  assert (Z.land len (Z.ones 10) = len mod 1024) as H10 by (by rewrite Z.land_ones by lia).
  split; intros H.
  - assert (Z.land len (Z.lor (Z.ones 10) 0xFC00) = len) as E.
    { change (Z.lor (Z.ones 10) 0xFC00) with (Z.ones 16).
      rewrite Z.land_ones by lia. by apply Z.mod_small. }
    rewrite Z.land_lor_distr_r, H, Z.lor_0_r, H10 in E.
    pose proof (Z.mod_pos_bound len 1024). lia.
  - rewrite Z.mod_small in H10 by lia. rewrite <-H10, <-Z.land_assoc.
    change (Z.land (Z.ones 10) 0xFC00) with 0. apply Z.land_0_r.
Qed.

(** The body of a message and what the encoder makes of it. *)
Lemma sm_to_bytes_body C m :
  4 ≤ C → msg_ok C m →
  ∃ body, sm_to_bytes C m =
      Ok ([VERSION; disc_repr (disc_of m)] ++ to_be 2 (Z.of_nat (length body)) ++ body) ∧
    Z.of_nat (length body) < 1024 ∧
    minimum_message_size C ≤ HEADER_SIZE + Z.of_nat (length body) ∧
    match disc_of m with
    | DSegment => MSegment <$> Segment_of_bytes body
    | DRequest => MRequest <$> sr_of_bytes C body
    | DAcknowledge => MAcknowledge <$> fa_of_bytes C body
    end = Ok m.
Proof.
  intros HC Hm. unfold sm_to_bytes, minimum_message_size, Segment_MINIMUM_SIZE, Segment_HEADER_SIZE.
  destruct m as [s|r|a]; simpl in Hm.
  - destruct Hm as (Hw & Hf & Hi & Hd & Hl). exists (Segment_to_bytes s).
    assert (Z.of_nat (length (Segment_to_bytes s)) = 6 + Z.of_nat (length (seg_data s))) as Hlen
      by (unfold Segment_to_bytes; autorewrite with lens; lia).
    assert (0 < Z.of_nat (length (seg_data s))) by (destruct (seg_data s); simpl; [done|lia]).
    unfold Segment_HEADER_SIZE in Hl.
    split; [cbn; rewrite wrap_small by (unfold in_u; lia); done|].
    split; [lia|]. split; [lia|]. simpl. by rewrite Segment_roundtrip.
  - destruct Hm as [Hr Hs]. destruct (sr_roundtrip C r HC Hr) as (bs & Hbs & Hlen & Hback).
    exists bs. rewrite Hbs. cbn.
    rewrite wrap_small by (unfold in_u, SIZE, HEADER_SIZE in *; lia).
    split; [done|]. split; [lia|]. split; [lia|]. by rewrite Hback.
  - destruct Hm as [Ha Hs]. destruct (fa_roundtrip C a HC Ha) as (Hlen & Hback).
    exists (fa_to_bytes C a). cbn.
    rewrite wrap_small by (unfold in_u, SIZE, HEADER_SIZE in *; lia).
    split; [done|]. split; [lia|]. split; [lia|]. by rewrite Hback.
Qed.

Lemma index_app_middle {E} (l1 l2 : bytes) x i :
  i = Z.of_nat (length l1) → index (E:=E) i (l1 ++ x :: l2) = Ok x.
Proof.
  intros ->. unfold index. rewrite bool_decide_eq_true_2 by lia. rewrite Nat2Z.id.
  by rewrite list_lookup_middle.
Qed.

(** What [try_next] does once the four header bytes are there. *)
Lemma try_next_header C pre v d lenb rest err :
  length lenb = 2%nat →
  let len := from_be lenb in
  let data := pre ++ v :: d :: lenb ++ rest in
  let off := Z.of_nat (length pre) in
  let it := mkIter data off err in
  try_next C it =
    if negb (v =? VERSION) then (it, Err WrongVersion)
    else if MAX_MESSAGE_SIZE <? len then (it, Err IncorrectMessageLength)
    else if negb (Z.land len 0xFC00 =? 0) then (it, Err ParseError)
    else match disc_from_repr d with
         | None => (it, Err UnknownMessageTag)
         | Some dd =>
             match slice (off + 4) (off + 4 + len) data with
             | Ok body =>
                 match match dd with
                       | DSegment => MSegment <$> Segment_of_bytes body
                       | DRequest => MRequest <$> sr_of_bytes C body
                       | DAcknowledge => MAcknowledge <$> fa_of_bytes C body
                       end with
                 | Ok m => (mkIter data (off + 4 + len) err, Ok m)
                 | Err e => (it, Err e)
                 | Panic => (it, Panic)
                 end
             | Err e => (it, Err e)
             | Panic => (it, Panic)
             end
         end.
Proof.
  intros Hl len data off it.
  assert (∀ E, index (E:=E) off data = Ok v) as Hv by (intros; by apply index_app_middle).
  assert (∀ E, index (E:=E) (off + 1) data = Ok d) as Hd.
  { intros. unfold data. change (v :: d :: lenb ++ rest) with ([v] ++ d :: lenb ++ rest).
    rewrite (assoc_L (++)). apply index_app_middle. unfold off. rewrite length_app. simpl. lia. }
  assert (∀ E, slice (E:=E) (off + 2) (off + 4) data = Ok lenb) as Hlb.
  { intros. unfold data. change (v :: d :: lenb ++ rest) with ([v; d] ++ lenb ++ rest).
    rewrite (assoc_L (++)). apply slice_app_middle; unfold off; rewrite ?length_app; simpl; lia. }
  unfold try_next, mbind, SM_bind, lift, get, throw, modify, mret, SM_ret. cbn [it_data it_offset it].
  rewrite Hv. destruct (v =? VERSION); cbn [negb]; [|done]. rewrite Hd, Hlb.
  fold len. destruct (MAX_MESSAGE_SIZE <? len); [done|].
  destruct (Z.land len 64512 =? 0); simpl; [|done].
  destruct (disc_from_repr d) as [dd|]; simpl; [|done].
  destruct (slice _ _ data) as [body|e|]; simpl; [|done..].
  by destruct dd; simpl; match goal with |- context [fmap _ ?x] => destruct x end.
Qed.

Lemma disc_from_repr_of m : disc_from_repr (disc_repr (disc_of m)) = Some (disc_of m).
Proof. by destruct m. Qed.

Lemma try_next_encoded C m e pre post err :
  4 ≤ C → msg_ok C m → sm_to_bytes C m = Ok e →
  try_next C (mkIter (pre ++ e ++ post) (Z.of_nat (length pre)) err) =
    (mkIter (pre ++ e ++ post) (Z.of_nat (length pre) + Z.of_nat (length e)) err, Ok m).
Proof.
  intros HC Hm He. destruct (sm_to_bytes_body C m HC Hm) as (body & He' & Hl & _ & Hp).
  set (lenb := to_be 2 (Z.of_nat (length body))) in *.
  assert (e = VERSION :: disc_repr (disc_of m) :: lenb ++ body) as ->
    by (rewrite He in He'; by injection He'). clear He He'.
  assert (from_be lenb = Z.of_nat (length body)) as Hfb
    by (apply from_be_to_be_small; unfold in_u; simpl; lia).
  cbn [app]. rewrite <-(assoc_L (++)).
  rewrite (try_next_header C pre VERSION _ lenb) by (by apply length_to_be).
  rewrite Z.eqb_refl, Hfb. cbn [negb].
  rewrite (proj2 (Z.ltb_ge _ _)) by (unfold MAX_MESSAGE_SIZE, SEGMENT_OVERHEAD, HEADER_SIZE,
    Segment_HEADER_SIZE; lia).
  rewrite (proj2 (reserved_bits_small (Z.of_nat (length body)) ltac:(lia))) by lia. cbn [Z.eqb negb].
  rewrite disc_from_repr_of.
  replace (pre ++ VERSION :: disc_repr (disc_of m) :: lenb ++ body ++ post)
    with ((pre ++ VERSION :: disc_repr (disc_of m) :: lenb) ++ body ++ post)
    by (by rewrite <-(assoc_L (++))).
  assert (length lenb = 2%nat) as Hlb by apply length_to_be. clearbody lenb.
  rewrite slice_app_middle by (rewrite ?length_app; cbn [length]; rewrite ?length_app; lia).
  rewrite Hp. do 2 f_equal. cbn [app length]. rewrite length_app. lia.
Qed.

Lemma iter_collect_encoded C ms es pre fuel :
  4 ≤ C → Forall (msg_ok C) ms → Forall2 (λ m e, sm_to_bytes C m = Ok e) ms es →
  Z.of_nat (length (pre ++ concat es)) < 2 ^ 64 → (length ms < fuel)%nat →
  iter_collect C fuel (mkIter (pre ++ concat es) (Z.of_nat (length pre)) None) =
    Ok (map Ok ms).
Proof.
  intros HC Hok H2. revert pre fuel Hok.
  induction H2 as [|m e ms es He H2 IH]; intros pre fuel Hok Hlen Hf;
    (destruct fuel as [|fuel]; [simpl in Hf; lia|]); cbn [iter_collect concat map]; unfold iter_next.
  - assert (is_done C (mkIter (pre ++ []) (Z.of_nat (length pre)) None) = true) as ->; [|done].
    unfold is_done. cbn. rewrite app_nil_r, Z.sub_diag. apply Z.ltb_lt.
    change (wrap 64 0) with 0. unfold minimum_message_size, Segment_MINIMUM_SIZE,
      Segment_HEADER_SIZE, SIZE, HEADER_SIZE. lia.
  - inversion Hok as [|? ? Hm Hok']; subst.
    destruct (sm_to_bytes_body C m HC Hm) as (body & He' & Hl & Hmin & _).
    assert (Z.of_nat (length e) = 4 + Z.of_nat (length body)) as Hel.
    { rewrite He in He'. injection He' as ->. cbn [app length].
      rewrite length_app, length_to_be. lia. }
    assert (is_done C (mkIter (pre ++ e ++ concat es) (Z.of_nat (length pre)) None) = false) as ->.
    { unfold is_done. cbn. apply Z.ltb_ge. cbn [concat] in Hlen. autorewrite with lens in *.
      rewrite wrap_small by (unfold in_u; lia). unfold HEADER_SIZE in Hmin. lia. }
    cbn [negb]. rewrite (try_next_encoded C m) by done.
    rewrite (assoc_L (++)). replace (Z.of_nat (length pre) + Z.of_nat (length e))
      with (Z.of_nat (length (pre ++ e))) by (rewrite length_app; lia).
    rewrite IH; [done|done| |simpl in Hf; lia].
    cbn [concat] in Hlen. by rewrite <-(assoc_L (++)).
Qed.

(** Session message streams round trip: every list of messages the state
    machine can build encodes without a panic, and the iterator over the
    concatenated encodings yields exactly these messages and then ends. *)
Theorem stream_roundtrip C ms :
  4 ≤ C → Forall (msg_ok C) ms →
  ∃ es, Forall2 (λ m e, sm_to_bytes C m = Ok e) ms es ∧
    (Z.of_nat (length (concat es)) < 2 ^ 64 → parse_stream C (concat es) = Ok (map Ok ms)).
Proof.
  intros HC Hok.
  assert (∃ es, Forall2 (λ m e, sm_to_bytes C m = Ok e) ms es) as [es Hes].
  { induction Hok as [|m ms Hm Hok [es IH]]; [by exists []|].
    destruct (sm_to_bytes_body C m HC Hm) as (body & He & _). eexists. by constructor. }
  exists es. split; [done|]. intros Hlen. unfold parse_stream.
  apply (iter_collect_encoded C ms es []); try done. clear Hlen.
  apply Nat.lt_succ_r. induction Hes as [|m e ms es He Hes IH]; [done|].
  inversion Hok as [|? ? Hm Hok']; subst. cbn [concat length]. rewrite length_app.
  destruct (sm_to_bytes_body C m HC Hm) as (body & He' & _).
  rewrite He in He'. injection He' as ->. specialize (IH Hok'). cbn [app length]. lia.
Qed.

Lemma stream_roundtrip_witness :
  let ms := [MSegment (mkSegment 1 0 1 [9]); MRequest [(1, 6); (3, 128)]; MAcknowledge [2; 5]] in
  Forall (msg_ok 466) ms ∧
  ∃ es, Forall2 (λ m e, sm_to_bytes 466 m = Ok e) ms es ∧
    (Z.of_nat (length (concat es)) < 2 ^ 64 → parse_stream 466 (concat es) = Ok (map Ok ms)).
Proof.
  assert (Forall (msg_ok 466) [MSegment (mkSegment 1 0 1 [9]); MRequest [(1, 6); (3, 128)];
    MAcknowledge [2; 5]]) as Hok.
  { constructor; [|constructor; [|constructor; [|constructor]]].
    - split; [split_and!; vm_compute; split; congruence|].
      split; [reflexivity|]. split; [reflexivity|]. split; [discriminate|reflexivity].
    - split; [|reflexivity]. split; [repeat constructor; lia|]. split; [|vm_compute; congruence].
      intros p. rewrite !elem_of_cons, elem_of_nil.
      intros [->|[->|[]]]; (split; [split; reflexivity|split; [discriminate|reflexivity]]).
    - split; [|reflexivity]. split; [repeat constructor; lia|]. split; [|vm_compute; congruence].
      intros p. rewrite !elem_of_cons, elem_of_nil. intros [->|[->|[]]]; split; reflexivity. }
  split; [exact Hok|]. apply (stream_roundtrip 466); [lia|exact Hok].
Defined.

(** ** What a request asks for *)

Lemma bit_testbit i v : 0 ≤ i < 8 → (Z.land (wrap 8 (Z.shiftl 1 i)) v =? 0) = negb (Z.testbit v i).
Proof.
  intros Hi. rewrite wrap_small; cycle 1.
  { rewrite Z.shiftl_1_l. split; [lia|]. apply Z.pow_lt_mono_r; lia. }
  assert (Z.testbit (Z.land (Z.shiftl 1 i) v) i = Z.testbit v i) as Hb.
  { rewrite Z.land_spec, Z.shiftl_1_l, Z.pow2_bits_true by lia. done. }
  destruct (Z.eqb_spec (Z.land (Z.shiftl 1 i) v) 0) as [H0|Hne].
  - rewrite H0, Z.bits_0 in Hb. by rewrite <-Hb.
  - destruct (Z.testbit v i) eqn:E; [done|]. destruct Hne. apply Z.bits_inj'. intros j Hj.
    rewrite Z.land_spec, Z.bits_0, Z.shiftl_1_l, Z.pow2_bits_eqb by lia.
    destruct (Z.eqb_spec i j) as [<-|]; [by rewrite E|done].
Qed.

Lemma foldl_lor_testbit l acc i :
  0 ≤ i → (∀ s, s ∈ l → 0 ≤ s < 8) →
  Z.testbit (foldl Z.lor acc (map (λ idx, wrap 8 (Z.shiftl 1 idx)) l)) i = true ↔
    Z.testbit acc i = true ∨ i ∈ l.
Proof.
  intros Hi. revert acc. induction l as [|s l IH]; intros acc Hl; cbn [map foldl].
  { rewrite elem_of_nil. tauto. }
  rewrite IH by (intros; apply Hl; by right). rewrite Z.lor_spec, elem_of_cons.
  destruct (Hl s) as [Hs0 Hs8]; [by left|].
  rewrite wrap_small by (rewrite Z.shiftl_1_l; split; [lia|apply Z.pow_lt_mono_r; lia]).
  rewrite Z.shiftl_1_l, Z.pow2_bits_eqb, orb_true_iff, Z.eqb_eq by lia.
  intuition (subst; auto).
Qed.

Lemma elem_of_iter_missing fi s :
  (length (missing_segments fi) ≤ 256)%nat →
  s ∈ iter_missing_sequence_indices fi ↔ 0 ≤ s ∧ missing_segments fi !! Z.to_nat s = Some true.
Proof.
  intros Hlen. unfold iter_missing_sequence_indices. rewrite list_elem_of_omap.
  change seqnum_max with 255. split.
  - intros ([i v] & Hiv & Hs). apply elem_of_lookup_imap in Hiv as (j & w & [= -> ->] & Hj).
    simpl in Hs. destruct w; [|done]. apply lookup_lt_Some in Hj as Hlt.
    rewrite (proj2 (Z.leb_le _ _)) in Hs by lia. injection Hs as <-.
    rewrite wrap_small by (unfold in_u; lia). rewrite Nat2Z.id. split; [lia|done].
  - intros [Hs Hm]. apply lookup_lt_Some in Hm as Hlt. exists (s, true). split.
    + apply elem_of_lookup_imap. exists (Z.to_nat s), true. rewrite Z2Nat.id by lia. done.
    + simpl. rewrite (proj2 (Z.leb_le _ _)) by lia. rewrite wrap_small by (unfold in_u; lia). done.
Qed.

Lemma missing_bitmap_testbit fi i :
  (length (missing_segments fi) ≤ 256)%nat → 0 ≤ i →
  Z.testbit (missing_bitmap fi) i = true ↔
    i < 8 ∧ missing_segments fi !! Z.to_nat i = Some true.
Proof.
  intros Hlen Hi. unfold missing_bitmap, MAX_MISSING_SEGMENTS_PER_FRAME.
  rewrite foldl_lor_testbit; [|done|].
  - rewrite Z.bits_0, list_elem_of_filter, elem_of_iter_missing by done.
    split; [intros [|(? & _ & ?)]; [done|by split]|intros [? ?]; by right].
  - intros s [Hs Hm]%list_elem_of_filter. apply elem_of_iter_missing in Hm; [|done]. lia.
Qed.

Lemma elem_of_bt_insert {A} k (v : A) l x :
  k ∉ map fst l → x ∈ bt_insert k v l ↔ x = (k, v) ∨ x ∈ l.
Proof.
  induction l as [|[k' v'] l IH]; intros Hk; cbn [bt_insert].
  { rewrite list_elem_of_singleton, elem_of_nil. tauto. }
  cbn [map] in Hk. rewrite elem_of_cons in Hk.
  destruct (Z.ltb_spec k k'); [rewrite !elem_of_cons; tauto|].
  destruct (Z.eqb_spec k k') as [->|]; [by destruct Hk; left|].
  rewrite !elem_of_cons, IH by tauto. tauto.
Qed.

Lemma keys_bt_insert {A} k (v : A) l : ∀ x, x ∈ map fst (bt_insert k v l) ↔ x = k ∨ x ∈ map fst l.
Proof.
  intros x. induction l as [|[k' v'] l IH]; cbn [bt_insert map fst].
  { rewrite list_elem_of_singleton, elem_of_nil. tauto. }
  destruct (Z.ltb_spec k k'); [cbn [map fst]; rewrite !elem_of_cons; tauto|].
  destruct (Z.eqb_spec k k') as [->|]; cbn [map fst]; rewrite !elem_of_cons, ?IH; tauto.
Qed.

Lemma elem_of_sr_fold frames acc p :
  NoDup (map fi_frame_id frames) →
  (∀ fi, fi ∈ frames → fi_frame_id fi ∉ map fst acc) →
  p ∈ foldl (λ ret fi, bt_insert (fi_frame_id fi) (missing_bitmap fi) ret) acc frames ↔
    p ∈ acc ∨ ∃ fi, fi ∈ frames ∧ p = (fi_frame_id fi, missing_bitmap fi).
Proof.
  revert acc. induction frames as [|fi frames IH]; intros acc Hnd Hacc; cbn [foldl].
  { split; [by left|]. intros [|(? & []%elem_of_nil & _)]; done. }
  cbn [map] in Hnd. apply NoDup_cons in Hnd as [Hni Hnd]. rewrite IH; [|done|].
  - rewrite elem_of_bt_insert by (apply Hacc; by left). split.
    + intros [[->|]|(f & Hf & ->)]; [right; exists fi; split; [by left|done]|by left|].
      right. exists f. split; [by right|done].
    + intros [|(f & [->|Hf]%elem_of_cons & ->)]; [by left; right|by left; left|].
      right. by exists f.
  - intros f Hf. rewrite keys_bt_insert. intros [Heq|Hin].
    + apply Hni. rewrite <-Heq. by apply list_elem_of_fmap_2.
    + eapply Hacc; [by right|exact Hin].
Qed.

(** A retransmission request asks for exactly what is missing: iterating
    the request built from frame infos yields segment [i] of frame [f] if and
    only if [f] is one of the first [MAX_ENTRIES] infos and its bit [i] of
    missing segments is set, for the eight segments a request can name. *)
Theorem request_asks_missing C frames f i :
  NoDup (map fi_frame_id frames) →
  (∀ fi, fi ∈ frames → (length (missing_segments fi) ≤ 256)%nat) →
  mkSegmentId f i ∈ sr_into_iter (sr_from_iter C frames) ↔
    0 ≤ i < MAX_MISSING_SEGMENTS_PER_FRAME ∧
    ∃ fi, fi ∈ take (Z.to_nat (MAX_ENTRIES C)) frames ∧ fi_frame_id fi = f ∧
          missing_segments fi !! Z.to_nat i = Some true.
Proof.
  intros Hnd Hlen. unfold MAX_MISSING_SEGMENTS_PER_FRAME. unfold sr_into_iter.
  rewrite elem_of_reverse, list_elem_of_In, in_concat.
  assert (∀ p, p ∈ sr_from_iter C frames ↔ ∃ fi, fi ∈ take (Z.to_nat (MAX_ENTRIES C)) frames ∧
    p = (fi_frame_id fi, missing_bitmap fi)) as Hel.
  { intros p. unfold sr_from_iter. rewrite elem_of_sr_fold, elem_of_nil.
    - split; [by intros [[]|]|by right].
    - rewrite <-(take_drop (Z.to_nat (MAX_ENTRIES C)) frames), map_app in Hnd.
      by apply NoDup_app in Hnd as [Hnd _].
    - intros ? _. apply not_elem_of_nil. }
  assert (∀ fi, fi ∈ take (Z.to_nat (MAX_ENTRIES C)) frames → (length (missing_segments fi) ≤ 256)%nat)
    as Hlen' by (intros fi Hfi; apply Hlen; by eapply subseteq_take).
  split.
  - intros (l & Hl & Hin). rewrite <-list_elem_of_In in Hin. apply in_map_iff in Hl as (p & <- & Hp).
    rewrite <-list_elem_of_In in Hp. apply Hel in Hp as (fi & Hfi & ->).
    apply list_elem_of_omap in Hin as (j & Hj & Heq). rewrite elem_of_reverse in Hj.
    apply elem_of_seqZ in Hj. cbn [fst snd] in Heq. rewrite bit_testbit in Heq by lia.
    rewrite negb_involutive in Heq.
    destruct (Z.testbit (missing_bitmap fi) j) eqn:Ht; [|done]. injection Heq as <- <-.
    rewrite wrap_small by (unfold in_u; lia).
    apply missing_bitmap_testbit in Ht as [_ Hm]; [|by apply Hlen'|lia].
    split; [lia|]. by exists fi.
  - intros (Hi & fi & Hfi & <- & Hm).
    eexists. split; [apply in_map, list_elem_of_In, Hel; by exists fi|].
    apply list_elem_of_In, list_elem_of_omap. exists i.
    split; [apply elem_of_reverse, elem_of_seqZ; lia|]. cbn [fst snd].
    rewrite bit_testbit, negb_involutive by lia.
    rewrite (proj2 (missing_bitmap_testbit fi i (Hlen' _ Hfi) (proj1 Hi))) by (split; [lia|done]).
    by rewrite wrap_small by (unfold in_u; lia).
Qed.

Lemma request_asks_missing_witness :
  let b := mkBuilder 5 [Some [1]; None; Some [2]; None] 2 77 in
  sr_into_iter (sr_from_iter 466 [fb_info b]) = [mkSegmentId 5 1; mkSegmentId 5 3] ∧
  mkSegmentId 5 3 ∈ sr_into_iter (sr_from_iter 466 [fb_info b]).
Proof.
  split; [vm_compute; reflexivity|].
  apply request_asks_missing.
  - apply NoDup_singleton.
  - intros fi Hfi. apply list_elem_of_singleton in Hfi as ->. vm_compute. lia.
  - split; [unfold MAX_MISSING_SEGMENTS_PER_FRAME; lia|].
    exists (fb_info (mkBuilder 5 [Some [1]; None; Some [2]; None] 2 77)).
    split; [left|]. split; reflexivity.
Defined.

(** ** Input that aborts the receiver *)

Lemma length_2_inv {A} (l : list A) : length l = 2%nat → ∃ a b, l = [a; b].
Proof. destruct l as [|a [|b [|]]]; try done. intros _. by exists a, b. Qed.

Lemma slice_Panic {E A} i j (l : list A) :
  0 ≤ i ≤ j → slice (E:=E) i j l = Panic ↔ Z.of_nat (length l) < j.
Proof. intros Hij. unfold slice. case_bool_decide; split; intros; try done; lia. Qed.

Lemma Segment_of_bytes_Panic body :
  Segment_of_bytes body = Panic ↔ Z.of_nat (length body) < 6.
Proof.
  unfold Segment_of_bytes, Segment_HEADER_SIZE.
  destruct (Z.ltb_spec (Z.of_nat (length body)) 6); [done|].
  split; [|lia]. by destruct (_ && _).
Qed.

(** Exactly which first messages make the parser panic, although the
    parser is meant to report an error: a version-1 message with a known tag
    whose declared length (below 1024) exceeds the bytes that follow, or a
    segment message shorter than a segment header. *)
Theorem parse_panics_iff C v d hi lo body :
  in_u 8 hi → in_u 8 lo →
  sm_of_bytes C (v :: d :: hi :: lo :: body) = Panic ↔
    v = VERSION ∧ from_be [hi; lo] < 1024 ∧ is_Some (disc_from_repr d) ∧
    (Z.of_nat (length body) < from_be [hi; lo] ∨
     disc_from_repr d = Some DSegment ∧ from_be [hi; lo] < Segment_HEADER_SIZE).
Proof.
  intros Hhi Hlo. unfold sm_of_bytes, iter_new, Segment_HEADER_SIZE.
  pose proof (from_be_bound [hi; lo] (Forall_cons_2 _ _ _ Hhi (Forall_cons_2 _ _ _ Hlo (Forall_nil_2 _)))) as Hb.
  unfold in_u in Hb. simpl in Hb.
  change (mkIter (v :: d :: hi :: lo :: body) 0 None)
    with (mkIter ([] ++ v :: d :: [hi; lo] ++ body) (Z.of_nat (length (@nil Z))) None).
  rewrite try_next_header by done. cbn [app].
  change (v :: d :: hi :: lo :: body) with ([v; d; hi; lo] ++ body).
  set (len := from_be [hi; lo]) in *. change (Z.of_nat (length (@nil Z)) + 4) with 4.
  destruct (Z.eqb_spec v VERSION) as [->|]; cbn [negb]; [|by split; [|intros [? _]]].
  destruct (Z.ltb_spec MAX_MESSAGE_SIZE len) as [Hm|Hm].
  { unfold MAX_MESSAGE_SIZE, SEGMENT_OVERHEAD, HEADER_SIZE, Segment_HEADER_SIZE in Hm.
    split; [done|lia]. }
  pose proof (reserved_bits_small len ltac:(lia)) as Hres.
  destruct (Z.eqb_spec (Z.land len 0xFC00) 0) as [H0|H0]; cbn [negb]; [|split; [done|tauto]].
  destruct (disc_from_repr d) as [dd|]; [|split; [done|by intros (_ & _ & [? [=]] & _)]].
  destruct (decide (Z.of_nat (length body) < len)) as [Hlt|Hge].
  { assert (slice (E:=SessionError) 4 (4 + len) ([VERSION; d; hi; lo] ++ body) = Panic) as ->
      by (apply slice_Panic; [lia|rewrite length_app; simpl; lia]).
    cbn [snd]. split; [|done]. intros _. split_and!; [done|tauto|by eexists|by left]. }
  assert (slice (E:=SessionError) 4 (4 + len) ([VERSION; d; hi; lo] ++ body) =
    Ok (take (Z.to_nat len) body)) as ->.
  { unfold slice. rewrite bool_decide_eq_true_2 by (rewrite length_app; simpl; lia).
    cbn. by replace (4 + len - 4) with len by lia. }
  assert (length (take (Z.to_nat len) body) = Z.to_nat len) as Htake
    by (rewrite length_take; lia).
  destruct dd; cbn [snd].
  - pose proof (Segment_of_bytes_Panic (take (Z.to_nat len) body)) as HP.
    rewrite Htake, Z2Nat.id in HP by lia.
    destruct (Segment_of_bytes _); simpl; (split; [try done|]).
    + intros (_ & _ & _ & [|[_ ?]]); [lia|]. by apply HP in H.
    + intros (_ & _ & _ & [|[_ ?]]); [lia|]. by apply HP in H.
    + intros _. split_and!; [done|tauto|by eexists|]. right. split; [done|by apply HP].
    + done.
  - unfold sr_of_bytes. destruct (_ =? _); simpl; (split; [done|]);
      intros (_ & _ & _ & [|[? _]]); [lia|done..].
  - unfold fa_of_bytes. destruct (_ =? _); simpl; (split; [done|]);
      intros (_ & _ & _ & [|[? _]]); [lia|done..].
Qed.

Lemma parse_panics_iff_witness :
  sm_of_bytes 466 [1; 0; 1; 0; 42; 42; 42; 42; 42; 42; 42] = Panic ∧
  parse_stream 466 [1; 0; 1; 0; 42; 42; 42; 42; 42; 42; 42] = Panic.
Proof.
  split; [|vm_compute; reflexivity].
  apply (parse_panics_iff 466 1 0 1 0 [42; 42; 42; 42; 42; 42; 42]);
    [vm_compute; split; congruence..|].
  split; [reflexivity|]. split; [reflexivity|]. split; [eexists; reflexivity|].
  left. reflexivity.
Defined.
