(* ===== verification/Primitives.v ===== *)
(** * Primitive types

    Models [common/primitive-types/src]: addresses and challenges
    ([primitives.rs]), 256-bit integers with the unitary float operations,
    balances ([balance.rs]), bounded sizes and vectors ([bounded.rs]), the
    order of event logs, and the two simple moving averages ([sma.rs]).
    Doubles are the [spec_float]s of the Standard Library's IEEE 754
    specification at 53 bits of precision. *)
From S2P Require Import Prelude.
From Stdlib Require Import Floats.SpecFloat.

(** [GeneralError] of [errors.rs]. *)
Inductive GeneralError :=
| ParseError (what : string)
| InvalidInput
| NonSpecificError (what : string).

#[export] Instance GeneralError_eq_dec : EqDecision GeneralError.
Proof. solve_decision. Defined.

(** ** Fixed-size byte arrays

    A [BytesRepresentable] type of [SIZE] bytes is its array; parsing checks
    the length only. *)
Definition array_try_from (size : nat) (name : string) (value : bytes) : outcome GeneralError bytes :=
  if bool_decide (length value = size) then Ok value else Err (ParseError name).

Definition array_wf (size : nat) (value : bytes) : Prop := length value = size ∧ bytes_wf value.

#[export] Instance array_wf_dec size value : Decision (array_wf size value).
Proof. unfold array_wf. apply _. Defined.

(** [ret.copy_from_slice(src)] on an array of [size] bytes: panics when the
    lengths differ. *)
Definition copy_exact {E} (size : nat) (src : bytes) : outcome E bytes :=
  if bool_decide (length src = size) then Ok src else Panic.

Definition Address : Type := bytes.
Definition Address_SIZE : nat := 20.
Definition Address_new {E} (value : bytes) : outcome E Address := copy_exact Address_SIZE value.
Definition Address_to_bytes32 (a : Address) : bytes := replicate 12 0 ++ a.
Definition Address_is_zero (a : Address) : bool := forallb (λ e, 0 =? e) a.
Definition Address_try_from : bytes → outcome GeneralError Address :=
  array_try_from Address_SIZE "Address".

Definition EthereumChallenge : Type := bytes.
Definition EthereumChallenge_SIZE : nat := 20.
Definition EthereumChallenge_new {E} (data : bytes) : outcome E EthereumChallenge :=
  copy_exact EthereumChallenge_SIZE data.
Definition EthereumChallenge_try_from : bytes → outcome GeneralError EthereumChallenge :=
  array_try_from EthereumChallenge_SIZE "EthereumChallenge".

(** [KeyIdent<N>] and its conversions for 4 and 8 bytes. *)
Definition KeyIdent : Type := bytes.
Definition KeyIdent_from_int (n : nat) (value : Z) : KeyIdent := to_be n value.
Definition KeyIdent_to_int (k : KeyIdent) : Z := from_be k.
Definition KeyIdent_try_from (n : nat) : bytes → outcome GeneralError KeyIdent :=
  array_try_from n "KeyIdent".

(** ** 256-bit integers *)
Definition U256_max : Z := u_max 256.
Definition U256_saturating_add (a b : Z) : Z := Z.min (a + b) U256_max.
Definition U256_saturating_sub (a b : Z) : Z := Z.max (a - b) 0.
Definition U256_saturating_mul (a b : Z) : Z := Z.min (a * b) U256_max.

(** The operators [*] and [/] of [U256]: overflow and division by zero panic. *)
Definition U256_mul {E} (a b : Z) : outcome E Z :=
  if a * b <=? U256_max then Ok (a * b) else Panic.
Definition U256_div {E} (a b : Z) : outcome E Z :=
  if b =? 0 then Panic else Ok (a `div` b).

(** [IntoEndian<32> for U256]; [from_big_endian] panics on more than 32 bytes. *)
Definition U256_to_be_bytes (a : Z) : bytes := to_be 32 a.
Definition U256_to_le_bytes (a : Z) : bytes := reverse (to_be 32 a).
Definition U256_from_be_bytes {E} (b : bytes) : outcome E Z :=
  if bool_decide (length b ≤ 32)%nat then Ok (from_be b) else Panic.
Definition U256_from_le_bytes {E} (b : bytes) : outcome E Z :=
  if bool_decide (length b ≤ 32)%nat then Ok (from_be (reverse b)) else Panic.

(** ** Double-precision floats *)
Definition f64 : Type := spec_float.
Definition f64_add : f64 → f64 → f64 := SFadd 53 1024.
Definition f64_sub : f64 → f64 → f64 := SFsub 53 1024.

Definition f64_to_bits (x : f64) : Z :=
  match x with
  | S754_zero s => Z.shiftl (Z.b2z s) 63
  | S754_infinity s => Z.lor (Z.shiftl (Z.b2z s) 63) (Z.shiftl 2047 52)
  | S754_nan => Z.lor (Z.shiftl 2047 52) (Z.shiftl 1 51)
  | S754_finite s m e =>
      if Z.pos m <? 2 ^ 52 then Z.lor (Z.shiftl (Z.b2z s) 63) (Z.pos m)
      else Z.lor (Z.shiftl (Z.b2z s) 63) (Z.lor (Z.shiftl (e + 1075) 52) (Z.pos m - 2 ^ 52))
  end.

Definition f64_from_bits (b : Z) : f64 :=
  let s := Z.testbit b 63 in
  let ex := Z.land (Z.shiftr b 52) 2047 in
  let m := Z.land b 0xFFFFFFFFFFFFF in
  if ex =? 2047 then (if m =? 0 then S754_infinity s else S754_nan)
  else if ex =? 0 then
    match m with Z.pos p => S754_finite s p (-1074) | _ => S754_zero s end
  else
    match m + 2 ^ 52 with Z.pos p => S754_finite s p (ex - 1075) | _ => S754_zero s end.

Definition f64_zero : f64 := S754_zero false.
Definition f64_one : f64 := f64_from_bits 0x3FF0000000000000.
(** [f64::EPSILON]: 2^-52. *)
Definition f64_EPSILON : f64 := f64_from_bits 0x3CB0000000000000.

(** [(0.0..=1.0).contains(&x)]: false for a NaN. *)
Definition f64_unit_contains (x : f64) : bool := SFleb f64_zero x && SFleb x f64_one.

(** [UnitaryFloatOps for U256]. *)
Definition U256_mul_f64 (self : Z) (rhs : f64) : outcome GeneralError Z :=
  if negb (f64_unit_contains rhs) then Err InvalidInput
  else if SFeqb rhs f64_one then Ok self
  else if SFeqb rhs f64_zero then Ok 0
  else
    p ← U256_mul self
          (Z.land (f64_to_bits (f64_add (f64_add rhs f64_one) f64_EPSILON)) 0xFFFFFFFFFFFFF);
    Ok (Z.shiftr p 52).

Definition U256_div_f64 (self : Z) (rhs : f64) : outcome GeneralError Z :=
  if SFleb rhs f64_zero || SFltb f64_one rhs then Err InvalidInput
  else if SFeqb rhs f64_one then Ok self
  else
    let nom := wrap 256 (Z.shiftl self 52) in
    let denom := Z.land (f64_to_bits (f64_add rhs f64_one)) 0xFFFFFFFFFFFFF in
    U256_div nom denom.

(** ** Balances

    The currency is a phantom argument; [amount] is in wei. *)
Record Currency := mkCurrency { NAME : string; SCALE : Z }.
Definition WxHOPR : Currency := mkCurrency "wxHOPR" 18.
Definition XDai : Currency := mkCurrency "xDai" 18.

Record Balance (C : Currency) := mkBalance { amount : Z }.
Arguments mkBalance {C} _.
Arguments amount {C} _.

#[export] Instance Balance_eq_dec C : EqDecision (Balance C).
Proof. solve_decision. Defined.

Definition Balance_new_base {E} (C : Currency) (value : Z) : outcome E (Balance C) :=
  mkBalance <$> U256_mul value (10 ^ SCALE C).
Definition Balance_zero {C} : Balance C := mkBalance 0.
Definition Balance_is_zero {C} (b : Balance C) : bool := amount b =? 0.
Definition Balance_to_be_bytes {C} (b : Balance C) : bytes := U256_to_be_bytes (amount b).
Definition Balance_from_be_bytes {E C} (b : bytes) : outcome E (Balance C) :=
  mkBalance <$> U256_from_be_bytes b.

Definition Balance_add {C} (a b : Balance C) : Balance C :=
  mkBalance (U256_saturating_add (amount a) (amount b)).
Definition Balance_sub {C} (a b : Balance C) : Balance C :=
  mkBalance (U256_saturating_sub (amount a) (amount b)).
Definition Balance_mul {C} (a b : Balance C) : Balance C :=
  mkBalance (U256_saturating_mul (amount a) (amount b)).
Definition Balance_sum {C} (l : list (Balance C)) : Balance C := foldl Balance_add Balance_zero l.
Definition Balance_leb {C} (a b : Balance C) : bool := amount a <=? amount b.
Definition Balance_ltb {C} (a b : Balance C) : bool := amount a <? amount b.
Definition Balance_mul_f64 {C} (b : Balance C) (rhs : f64) : outcome GeneralError (Balance C) :=
  mkBalance <$> U256_mul_f64 (amount b) rhs.
Definition Balance_div_f64 {C} (b : Balance C) (rhs : f64) : outcome GeneralError (Balance C) :=
  mkBalance <$> U256_div_f64 (amount b) rhs.

Definition HoprBalance : Type := Balance WxHOPR.
Definition XDaiBalance : Type := Balance XDai.

Definition Balance_wf {C} (b : Balance C) : Prop := in_u 256 (amount b).

(** ** Bounded sizes and vectors *)
Definition BoundedSize_try_from (B value : Z) : outcome GeneralError Z :=
  if value <=? B then Ok value else Err InvalidInput.
(** From a signed integer. *)
Definition BoundedSize_try_from_signed (B value : Z) : outcome GeneralError Z :=
  if 0 <=? value then BoundedSize_try_from B value else Err InvalidInput.
(** [as u{w}]. *)
Definition BoundedSize_into (w b : Z) : Z := wrap w b.

Definition BoundedVec_try_from {T} (N : nat) (value : list T) : outcome GeneralError (list T) :=
  if bool_decide (length value ≤ N)%nat then Ok value else Err InvalidInput.
Definition BoundedVec_from_iter {T} (N : nat) (l : list T) : list T := take N l.
(** [From<BoundedVec<T, N>> for \[T; N\]]: element-wise writes into an array
    of default values; an index out of range panics. *)
Definition BoundedVec_into_array {E T} (N : nat) (dflt : T) (l : list T) : outcome E (list T) :=
  if bool_decide (length l ≤ N)%nat then Ok (l ++ replicate (N - length l) dflt) else Panic.

(** ** Event logs *)
Record SerializableLog := mkLog {
  log_address : Address;
  log_topics : list bytes;
  log_data : bytes;
  tx_index : Z;
  block_number : Z;
  block_hash : bytes;
  tx_hash : bytes;
  log_index : Z;
  removed : bool;
  processed : option bool;
  processed_at : option Z;
  checksum : option string
}.

Definition SerializableLog_cmp (a b : SerializableLog) : comparison :=
  match block_number a ?= block_number b with
  | Eq => match tx_index a ?= tx_index b with
          | Eq => log_index a ?= log_index b
          | c => c
          end
  | c => c
  end.

(** ** Simple moving averages *)

(** What the sample type offers: [Default], [AddAssign], [SubAssign] and
    [Div<D>] with the window length. *)
Class Sample (T : Type) := {
  s_zero : T;
  s_add : T → T → T;
  s_sub : T → T → T;
  s_div : T → Z → T
}.

(** Integers of [w] bits, with the wrap-around of the release profile. *)
Definition uint_sample (w : Z) : Sample Z := {|
  s_zero := 0;
  s_add a b := wrap w (a + b);
  s_sub a b := wrap w (a - b);
  s_div a n := a `div` n
|}.

(** The trait: its operations and the provided method [is_window_full]. *)
Class SMA (S T : Type) := {
  sma_push : T → S → S;
  sma_average : S → option T;
  sma_window_size : S → Z;
  sma_len : S → Z;
  sma_is_empty : S → bool;
  sma_clear : S → S
}.

Record NoSumSMA (T : Type) := mkNoSum { ns_window : list T; ns_window_size : Z }.
Arguments mkNoSum {T} _ _.
Arguments ns_window {T} _.
Arguments ns_window_size {T} _.

Record SingleSumSMA (T : Type) := mkSingleSum {
  ss_window : list T; ss_window_size : Z; ss_sum : T
}.
Arguments mkSingleSum {T} _ _ _.
Arguments ss_window {T} _.
Arguments ss_window_size {T} _.
Arguments ss_sum {T} _.

Section Sma.
Context {T : Type} `{!Sample T}.

(** [iter().sum()]. *)
Definition sample_sum (l : list T) : T := foldl s_add s_zero l.

Definition ns_push (sample : T) (s : NoSumSMA T) : NoSumSMA T :=
  let window := if Z.of_nat (length (ns_window s)) =? ns_window_size s
                then tail (ns_window s) else ns_window s in
  mkNoSum (window ++ [sample]) (ns_window_size s).

Definition ns_average (s : NoSumSMA T) : option T :=
  if bool_decide (ns_window s = []) then None
  else Some (s_div (sample_sum (ns_window s)) (wrap 32 (Z.of_nat (length (ns_window s))))).

Definition ss_push (sample : T) (s : SingleSumSMA T) : SingleSumSMA T :=
  let sum := s_add (ss_sum s) sample in
  let '(window, sum) :=
    if Z.of_nat (length (ss_window s)) =? ss_window_size s then
      match ss_window s with
      | shifted :: window => (window, s_sub sum shifted)
      | [] => ([], sum)
      end
    else (ss_window s, sum) in
  mkSingleSum (window ++ [sample]) (ss_window_size s) sum.

Definition ss_average (s : SingleSumSMA T) : option T :=
  if bool_decide (ss_window s = []) then None
  else Some (s_div (ss_sum s) (wrap 32 (Z.of_nat (length (ss_window s))))).

Definition ss_clear (s : SingleSumSMA T) : SingleSumSMA T :=
  mkSingleSum [] (ss_window_size s) (s_sub (ss_sum s) (ss_sum s)).

#[export] Instance NoSum_SMA : SMA (NoSumSMA T) T := {|
  sma_push := ns_push;
  sma_average := ns_average;
  sma_window_size := ns_window_size;
  sma_len s := Z.of_nat (length (ns_window s));
  sma_is_empty s := bool_decide (ns_window s = []);
  sma_clear s := mkNoSum [] (ns_window_size s)
|}.

#[export] Instance SingleSum_SMA : SMA (SingleSumSMA T) T := {|
  sma_push := ss_push;
  sma_average := ss_average;
  sma_window_size := ss_window_size;
  sma_len s := Z.of_nat (length (ss_window s));
  sma_is_empty s := bool_decide (ss_window s = []);
  sma_clear := ss_clear
|}.

(** The constructors assert that the window holds more than one sample. *)
Definition ns_new {E} (window_size : Z) : outcome E (NoSumSMA T) :=
  if 1 <? window_size then Ok (mkNoSum [] window_size) else Panic.
Definition ss_new {E} (window_size : Z) : outcome E (SingleSumSMA T) :=
  if 1 <? window_size then Ok (mkSingleSum [] window_size s_zero) else Panic.

Definition ns_new_with_samples {E} (window_size : Z) (l : list T) : outcome E (NoSumSMA T) :=
  s ← ns_new window_size; Ok (foldl (λ s x, sma_push x s) s l).
Definition ss_new_with_samples {E} (window_size : Z) (l : list T) : outcome E (SingleSumSMA T) :=
  s ← ss_new window_size; Ok (foldl (λ s x, sma_push x s) s l).

End Sma.

Definition sma_is_window_full {S T} `{!SMA S T} (s : S) : bool := sma_len s =? sma_window_size s.

(** The calls a client makes after construction. *)
Inductive sma_op (T : Type) := OpPush (x : T) | OpClear.
Arguments OpPush {T} x.
Arguments OpClear {T}.

Definition sma_step {S T} `{!SMA S T} (s : S) (op : sma_op T) : S :=
  match op with OpPush x => sma_push x s | OpClear => sma_clear s end.
Definition sma_run {S T} `{!SMA S T} (s : S) (ops : list (sma_op T)) : S := foldl sma_step s ops.

(** ** Integers and byte arrays *)

Lemma array_try_from_ok size name value :
  array_try_from size name value = Ok value ↔ length value = size.
Proof. unfold array_try_from. case_bool_decide; by split. Qed.

Lemma U256_be_roundtrip {E} a : in_u 256 a → U256_from_be_bytes (E:=E) (U256_to_be_bytes a) = Ok a.
Proof.
  intros Ha. unfold U256_from_be_bytes, U256_to_be_bytes. rewrite length_to_be.
  rewrite bool_decide_eq_true_2 by lia. f_equal. by apply from_be_to_be_small.
Qed.

Lemma U256_le_roundtrip {E} a : in_u 256 a → U256_from_le_bytes (E:=E) (U256_to_le_bytes a) = Ok a.
Proof.
  intros Ha. unfold U256_from_le_bytes, U256_to_le_bytes.
  rewrite length_reverse, reverse_involutive, length_to_be.
  rewrite bool_decide_eq_true_2 by lia. f_equal. by apply from_be_to_be_small.
Qed.

Lemma KeyIdent_roundtrip n v :
  in_u (8 * Z.of_nat n) v → KeyIdent_to_int (KeyIdent_from_int n v) = v.
Proof. apply from_be_to_be_small. Qed.

(** ** Balances *)

Lemma U256_saturating_add_wf a b : in_u 256 a → in_u 256 b → in_u 256 (U256_saturating_add a b).
Proof. unfold in_u, U256_saturating_add, U256_max, u_max. lia. Qed.
Lemma U256_saturating_sub_wf a b : in_u 256 a → in_u 256 b → in_u 256 (U256_saturating_sub a b).
Proof. unfold in_u, U256_saturating_sub. lia. Qed.
Lemma U256_saturating_mul_wf a b : in_u 256 a → in_u 256 b → in_u 256 (U256_saturating_mul a b).
Proof. unfold in_u, U256_saturating_mul, U256_max, u_max. nia. Qed.
#[export] Hint Resolve U256_saturating_add_wf U256_saturating_sub_wf U256_saturating_mul_wf : ints.

Lemma Balance_add_comm {C} (a b : Balance C) : Balance_add a b = Balance_add b a.
Proof. unfold Balance_add, U256_saturating_add. by rewrite Z.add_comm. Qed.

Lemma Balance_add_assoc {C} (a b c : Balance C) :
  Balance_wf a → Balance_wf c →
  Balance_add a (Balance_add b c) = Balance_add (Balance_add a b) c.
Proof.
  unfold Balance_wf, in_u, Balance_add, U256_saturating_add, U256_max, u_max. intros. simpl.
  f_equal. lia.
Qed.

(** Balance arithmetic is saturating and a sum of balances does not depend
    on intermediate saturation: it is the true total, capped at [2^256 - 1]. *)
Theorem Balance_sum_saturates {C} (l : list (Balance C)) :
  Forall Balance_wf l →
  amount (Balance_sum l) = Z.min (foldr Z.add 0 (map amount l)) U256_max ∧
  Balance_wf (Balance_sum l).
Proof.
  unfold Balance_sum. intros Hl.
  assert (∀ acc : Balance C, Balance_wf acc →
    amount (foldl Balance_add acc l) =
      Z.min (amount acc + foldr Z.add 0 (map amount l)) U256_max ∧
    Balance_wf (foldl Balance_add acc l)) as H.
  { induction Hl as [|b l Hb Hl IH]; intros acc Hacc; simpl.
    - split; [|done]. unfold Balance_wf, in_u, U256_max, u_max in *. lia.
    - assert (Balance_wf (Balance_add acc b)) as Hab by (apply U256_saturating_add_wf; done).
      destruct (IH _ Hab) as [-> ?]. split; [|done].
      assert (0 ≤ foldr Z.add 0 (map amount l)).
      { clear -Hl. induction Hl as [|? ? [? _]]; simpl; lia. }
      unfold Balance_add, U256_saturating_add, Balance_wf, in_u, U256_max, u_max in *. simpl. lia. }
  apply (H Balance_zero). unfold Balance_wf, in_u. simpl. lia.
Qed.

Lemma Balance_sum_saturates_witness :
  amount (Balance_sum [mkBalance (C:=WxHOPR) (2 ^ 256 - 2); mkBalance 5; mkBalance 0]) = 2 ^ 256 - 1.
Proof.
  refine (eq_trans (proj1 (Balance_sum_saturates _ _)) _).
  - repeat constructor; vm_compute; congruence.
  - reflexivity.
Defined.

(** ** Unitary float operations *)

(** Where the float operations on amounts break, for every amount:
    multiplying by either of the two largest factors below 1 gives 0, since
    [rhs + 1 + EPSILON] reaches the next binade and its mantissa bits are zero;
    dividing by a positive factor below half an ulp of 1, or by the largest
    factor below 1, divides by zero and panics. *)
Theorem unitary_float_edges (self : Z) :
  U256_mul_f64 self (f64_from_bits 0x3FEFFFFFFFFFFFFF) = Ok 0 ∧
  U256_mul_f64 self (f64_from_bits 0x3FEFFFFFFFFFFFFE) = Ok 0 ∧
  U256_div_f64 self (f64_from_bits 0x3C90000000000000) = Panic ∧
  U256_div_f64 self (f64_from_bits 0x3FEFFFFFFFFFFFFF) = Panic.
Proof.
  unfold U256_mul_f64, U256_div_f64.
  assert (∀ E, U256_mul (E:=E) self 0 = Ok 0) as H0 by (intros; unfold U256_mul; by rewrite Z.mul_0_r).
  split_and!; try reflexivity.
  - change (f64_unit_contains _) with true. change (SFeqb _ f64_one) with false.
    change (SFeqb _ f64_zero) with false. cbn [negb]. change (Z.land _ _) with 0. by rewrite H0.
  - change (f64_unit_contains _) with true. change (SFeqb _ f64_one) with false.
    change (SFeqb _ f64_zero) with false. cbn [negb]. change (Z.land _ _) with 0. by rewrite H0.
Qed.

(** ** Simple moving averages *)

(** What the averages need of the sample type, on the values that occur as
    sums: accumulation commutes, and a subtraction undoes an addition. *)
Class SampleLaws (T : Type) `{!Sample T} := {
  s_add_swap (a b c : T) : s_add (s_add a b) c = s_add (s_add a c) b;
  s_sub_add (a b c : T) : s_sub (s_add (s_add a c) b) b = s_add a c;
  s_sub_diag (a : T) : s_sub a a = s_zero
}.

Lemma uint_sample_laws w : 0 ≤ w → @SampleLaws Z (uint_sample w).
Proof.
  intros Hw. assert (2 ^ w ≠ 0) by lia.
  constructor; intros; cbn [s_add s_sub s_zero uint_sample]; unfold wrap.
  - rewrite !Zplus_mod_idemp_l. f_equal. lia.
  - rewrite Zminus_mod_idemp_l. replace ((a + c) mod 2 ^ w + b - b) with ((a + c) mod 2 ^ w) by lia.
    by apply Z.mod_mod.
  - by rewrite Z.sub_diag.
Qed.

(** The samples pushed since the last [clear], oldest first. *)
Definition live_samples {T} (l : list T) (ops : list (sma_op T)) : list T :=
  foldl (λ l op, match op with OpPush x => l ++ [x] | OpClear => [] end) l ops.

(** The last [n] elements. *)
Definition last_n {A} (n : nat) (l : list A) : list A := drop (length l - n) l.

Lemma length_last_n {A} n (l : list A) : length (last_n n l) = (n `min` length l)%nat.
Proof. unfold last_n. rewrite length_drop. lia. Qed.

Lemma last_n_push {A} n (l : list A) x :
  (1 < n)%nat →
  (if (length (last_n n l) =? n)%nat then tail (last_n n l) else last_n n l) ++ [x] =
    last_n n (l ++ [x]).
Proof.
  intros Hn. rewrite length_last_n. unfold last_n. rewrite length_app. cbn [length].
  destruct (Nat.eqb_spec (n `min` length l) n) as [E|E].
  - rewrite drop_app_le by lia.
    replace (length l + 1 - n)%nat with (S (length l - n)) by lia.
    f_equal.
    generalize (length l - n)%nat as k. intros k. clear. revert l.
    induction k as [|k IH]; intros [|y l]; simpl; done || apply IH.
  - replace (length l - n)%nat with 0%nat by lia.
    by replace (length l + 1 - n)%nat with 0%nat by lia.
Qed.

Section SmaProofs.
Context {T : Type} `{!Sample T, !SampleLaws T}.
#[local] Set Default Proof Using "All".

Lemma sample_sum_snoc (l : list T) x : sample_sum (l ++ [x]) = s_add (sample_sum l) x.
Proof. unfold sample_sum. by rewrite foldl_app. Qed.

Lemma foldl_s_add (l : list T) a x : foldl s_add (s_add a x) l = s_add (foldl s_add a l) x.
Proof. revert a. induction l as [|y l IH]; intros a; simpl; [done|]. by rewrite s_add_swap, IH. Qed.

(** Dropping the oldest sample from the running sum. *)
Lemma sample_sum_shift (l : list T) x y :
  s_sub (s_add (sample_sum (x :: l)) y) x = sample_sum (l ++ [y]).
Proof.
  rewrite sample_sum_snoc. unfold sample_sum. simpl.
  by rewrite foldl_s_add, s_add_swap, s_sub_add.
Qed.

(** The invariant that ties both implementations to the live samples. *)
Definition sma_rel (n : nat) (l : list T) (s1 : NoSumSMA T) (s2 : SingleSumSMA T) : Prop :=
  s1 = mkNoSum (last_n n l) (Z.of_nat n) ∧
  s2 = mkSingleSum (last_n n l) (Z.of_nat n) (sample_sum (last_n n l)).

Lemma sma_rel_push n l s1 s2 x :
  (1 < n)%nat → sma_rel n l s1 s2 → sma_rel n (l ++ [x]) (sma_push x s1) (sma_push x s2).
Proof.
  intros Hn [-> ->]. pose proof (last_n_push n l x Hn) as Hl.
  pose proof (length_last_n n l) as Hlen.
  split; cbn [sma_push NoSum_SMA SingleSum_SMA]; unfold ns_push, ss_push;
    cbn [ns_window ns_window_size ss_window ss_window_size ss_sum].
  - f_equal. rewrite <-Hl.
    destruct (Z.eqb_spec (Z.of_nat (length (last_n n l))) (Z.of_nat n)),
      (Nat.eqb_spec (length (last_n n l)) n); done || lia.
  - rewrite <-Hl.
    destruct (Z.eqb_spec (Z.of_nat (length (last_n n l))) (Z.of_nat n)),
      (Nat.eqb_spec (length (last_n n l)) n); try lia.
    + destruct (last_n n l) as [|y w]; [simpl in *; lia|]. by rewrite sample_sum_shift.
    + by rewrite sample_sum_snoc.
Qed.

Lemma sma_rel_step n l s1 s2 op :
  (1 < n)%nat → sma_rel n l s1 s2 →
  sma_rel n (live_samples l [op]) (sma_step s1 op) (sma_step s2 op).
Proof.
  intros Hn Hr. destruct op as [x|]; [by apply sma_rel_push|].
  destruct Hr as [-> ->]. split; simpl; unfold ss_clear; simpl; [done|].
  by rewrite s_sub_diag.
Qed.

Lemma sma_rel_run n ops l s1 s2 :
  (1 < n)%nat → sma_rel n l s1 s2 →
  sma_rel n (live_samples l ops) (sma_run s1 ops) (sma_run s2 ops).
Proof.
  intros Hn. revert l s1 s2. induction ops as [|op ops IH]; intros l s1 s2 Hr; [done|].
  by apply (IH (live_samples l [op])), sma_rel_step.
Qed.

Lemma sma_rel_averages n l s1 s2 :
  sma_rel n l s1 s2 → sma_average s1 = sma_average s2 ∧ sma_len s1 = sma_len s2.
Proof. by intros [-> ->]. Qed.

Lemma sma_rel_new n l :
  (1 < n)%nat →
  ∃ s1 s2, ns_new_with_samples (E:=GeneralError) (Z.of_nat n) l = Ok s1 ∧
    ss_new_with_samples (E:=GeneralError) (Z.of_nat n) l = Ok s2 ∧ sma_rel n l s1 s2.
Proof.
  intros Hn. unfold ns_new_with_samples, ss_new_with_samples, ns_new, ss_new.
  rewrite (proj2 (Z.ltb_lt _ _)) by lia. eexists _, _. split_and!; [done..|].
  assert (∀ l0 s1 s2, sma_rel n l0 s1 s2 →
    sma_rel n (l0 ++ l) (foldl (λ s x, sma_push x s) s1 l) (foldl (λ s x, sma_push x s) s2 l)) as H.
  { induction l as [|x l IH]; intros l0 s1 s2 Hr; simpl; [by rewrite app_nil_r|].
    replace (l0 ++ x :: l) with ((l0 ++ [x]) ++ l) by (by rewrite <-(assoc_L (++))).
    by apply IH, sma_rel_push. }
  apply (H []). done.
Qed.

(** The moving average with a running sum is equivalent to the one that
    sums its window: started from the same samples and given the same pushes
    and clears, both report the same average and length, and both hold exactly
    the last [n] samples since the last clear. *)
Theorem sma_equivalence (n : nat) (l : list T) (ops : list (sma_op T)) :
  (1 < n)%nat →
  ∃ s1 s2,
    ns_new_with_samples (E:=GeneralError) (Z.of_nat n) l = Ok s1 ∧
    ss_new_with_samples (E:=GeneralError) (Z.of_nat n) l = Ok s2 ∧
    sma_average (sma_run s1 ops) = sma_average (sma_run s2 ops) ∧
    sma_len (sma_run s1 ops) = sma_len (sma_run s2 ops) ∧
    ns_window (sma_run s1 ops) = last_n n (live_samples l ops) ∧
    ss_window (sma_run s2 ops) = last_n n (live_samples l ops).
Proof.
  intros Hn. destruct (sma_rel_new n l Hn) as (s1 & s2 & H1 & H2 & Hr).
  exists s1, s2. apply (sma_rel_run n ops) in Hr; [|done].
  pose proof (sma_rel_averages _ _ _ _ Hr) as [? ?]. destruct Hr as [-> ->]. done.
Qed.

End SmaProofs.

#[local] Instance u32_sample : Sample Z := uint_sample 32.

Lemma sma_equivalence_witness :
  ∃ s1 s2,
    ns_new_with_samples (T:=Z) (E:=GeneralError) 3 [7] = Ok s1 ∧
    ss_new_with_samples (T:=Z) (E:=GeneralError) 3 [7] = Ok s2 ∧
    sma_average (sma_run s1 [OpClear; OpPush 0; OpPush 1; OpPush 2; OpPush 3]) =
    sma_average (sma_run s2 [OpClear; OpPush 0; OpPush 1; OpPush 2; OpPush 3]).
Proof.
  pose proof (@sma_equivalence Z u32_sample (uint_sample_laws 32 ltac:(lia)) 3 [7]
    [OpClear; OpPush 0; OpPush 1; OpPush 2; OpPush 3] ltac:(lia)) as H.
  destruct H as (s1 & s2 & H1 & H2 & H3 & _). exists s1, s2. exact (conj H1 (conj H2 H3)).
Defined.

(** ** Event logs *)

(** The order on logs is the lexicographic one on block, transaction and log
    index, hence a total preorder. *)
Lemma SerializableLog_cmp_lt a b :
  SerializableLog_cmp a b = Lt ↔
    block_number a < block_number b ∨
    (block_number a = block_number b ∧
      (tx_index a < tx_index b ∨ (tx_index a = tx_index b ∧ log_index a < log_index b))).
Proof.
  unfold SerializableLog_cmp.
  destruct (Z.compare_spec (block_number a) (block_number b)); [|split; [by left|done]|split; [done|lia]].
  destruct (Z.compare_spec (tx_index a) (tx_index b)); [|split; [|done]; lia|split; [done|lia]].
  destruct (Z.compare_spec (log_index a) (log_index b)); (split; [|lia || done]); lia || done.
Qed.

Lemma SerializableLog_cmp_antisym a b :
  SerializableLog_cmp b a = CompOpp (SerializableLog_cmp a b).
Proof.
  unfold SerializableLog_cmp.
  rewrite (Z.compare_antisym (block_number a)), (Z.compare_antisym (tx_index a)),
    (Z.compare_antisym (log_index a)).
  by destruct (block_number a ?= block_number b), (tx_index a ?= tx_index b).
Qed.

Lemma SerializableLog_cmp_trans a b c :
  SerializableLog_cmp a b = Lt → SerializableLog_cmp b c = Lt → SerializableLog_cmp a c = Lt.
Proof. rewrite !SerializableLog_cmp_lt. lia. Qed.
