(* ===== verification/SessionState.v ===== *)
(** * The session state machine

    Models [common/network-types/src/session/state.rs] and the [RetryToken] of
    [session/utils.rs]: what one end of a session does with the messages of
    the other end, with the writes of the application and with the ticks of
    its state loop.

    The clones of a [SessionState] share everything but the configuration
    through [Arc]s, so one record is the state of all the tasks of a socket
    and a call is one atomic step on it.  The unbounded segment channel is the
    list of the messages sent so far.  An [Instant] is a number of
    nanoseconds [now], a duration too; the reassembler reads the system clock
    [wall], in milliseconds.  The session id is only logged. *)
From S2P Require Import Prelude Primitives Frame SessionProtocol.
From Stdlib Require Import Floats.SpecFloat.

Inductive NetworkTypeError :=
| SessionProtocolError (e : SessionError)
| NetworkOther.

(** ** Durations and floats (standard library) *)

Definition NANOS_PER_SEC : Z := 1000000000.

(** [z as f64]. *)
Definition f64_of_u64 (z : Z) : f64 := binary_normalize 53 1024 z 0 false.

(** [Duration::as_secs_f64]. *)
Definition as_secs_f64 (d : Z) : f64 :=
  f64_add (f64_of_u64 (d `div` NANOS_PER_SEC))
    (SFdiv 53 1024 (f64_of_u64 (d `mod` NANOS_PER_SEC)) (f64_of_u64 NANOS_PER_SEC)).

(** [n * 2^e], rounded to the nearest integer, ties to even. *)
Definition round_half_even (n e : Z) : Z :=
  if 0 <=? e then n * 2 ^ e
  else
    let d := 2 ^ (- e) in
    let q := n `div` d in
    match 2 * (n `mod` d) ?= d with
    | Lt => q
    | Gt => q + 1
    | Eq => if Z.even q then q else q + 1
    end.

(** [Duration::from_secs_f64]: panics on a negative, too large or non-finite
    number of seconds. *)
Definition from_secs_f64 {E} (x : f64) : outcome E Z :=
  match x with
  | S754_zero _ => Ok 0
  | S754_finite false m e =>
      if (if 0 <=? e then 2 ^ 64 <=? Zpos m * 2 ^ e else 2 ^ 64 * 2 ^ (- e) <=? Zpos m)
      then Panic else Ok (round_half_even (Zpos m * NANOS_PER_SEC) e)
  | _ => Panic
  end.

Definition duration_mul_f64 {E} (d : Z) (rhs : f64) : outcome E Z :=
  from_secs_f64 (SFmul 53 1024 rhs (as_secs_f64 d)).

(** [z as i32] of an unsigned integer. *)
Definition as_i32 (z : Z) : Z := wrap 32 (z + 2 ^ 31) - 2 ^ 31.

(** ** RetryToken *)
Record RetryToken := mkToken {
  num_retry : Z;
  started_at : Z;
  backoff_base : f64;
  created_at : Z
}.

Inductive RetryResult := Wait (d : Z) | RetryNow (t : RetryToken) | Expired.

Definition rt_new (now created : Z) (base : f64) : RetryToken := mkToken 0 now base created.

Definition rt_replenish (self : RetryToken) (now : Z) (base : f64) : RetryToken :=
  mkToken 0 now base (created_at self).

(** What the standard library leaves open: [f64::powi] has an unspecified
    precision. *)
Class FloatPow := powi : f64 → Z → f64.

Section Token.
Context `{FloatPow}.

(** [sample] is the value drawn from the normal distribution around one. *)
Definition retry_in {E} (self : RetryToken) (base max_duration : Z) (jitter_dev sample : f64) :
    outcome E (option Z) :=
  let jitter_coeff := if SFltb f64_zero jitter_dev then SFabs sample else f64_one in
  duration ← duration_mul_f64 base
    (SFmul 53 1024 jitter_coeff (powi (backoff_base self) (as_i32 (num_retry self))));
  Ok (if duration <? max_duration then Some duration else None).

Definition rt_check {E} (self : RetryToken) (now base max : Z) (jitter_dev sample : f64) :
    outcome E RetryResult :=
  d ← retry_in self base max jitter_dev sample;
  Ok match d with
     | None => Expired
     | Some retry_in =>
         if now <=? started_at self + retry_in then Wait (started_at self + retry_in - now)
         else RetryNow (mkToken (wrap 64 (num_retry self + 1)) (started_at self)
                          (backoff_base self) (created_at self))
     end.
End Token.

(** ** Configuration *)
Inductive SessionFeature := RequestIncompleteFrames | RetransmitFrames | AcknowledgeFrames | NoDelay.

#[export] Instance SessionFeature_eq_dec : EqDecision SessionFeature.
Proof. solve_decision. Defined.

Definition default_features : list SessionFeature :=
  [AcknowledgeFrames; RequestIncompleteFrames; RetransmitFrames].

Record SessionConfig := mkConfig {
  max_buffered_segments : Z;
  acknowledged_frames_buffer : Z;
  frame_expiration_age : Z;
  rto_base_receiver : Z;
  rto_base_sender : Z;
  cfg_backoff_base : f64;
  rto_jitter : f64;
  enabled_features : list SessionFeature
}.

Definition SessionConfig_default : SessionConfig := {|
  max_buffered_segments := 50000;
  acknowledged_frames_buffer := 1024;
  frame_expiration_age := 30 * NANOS_PER_SEC;
  rto_base_receiver := 1000 * 1000000;
  rto_base_sender := 1500 * 1000000;
  cfg_backoff_base := f64_from_bits 0x4000000000000000;
  rto_jitter := f64_from_bits 0x3FA999999999999A;
  enabled_features := default_features |}.

Definition enabled (cfg : SessionConfig) (f : SessionFeature) : bool :=
  bool_decide (f ∈ enabled_features cfg).

(** ** The lookbehind buffer: a [SkipMap], by ascending segment id *)
Abbreviation Lookbehind := (list (SegmentId * Segment)).

Definition sid_ltb (a b : SegmentId) : bool :=
  (sid_frame a <? sid_frame b) || ((sid_frame a =? sid_frame b) && (sid_seq a <? sid_seq b)).

Fixpoint lb_insert (k : SegmentId) (v : Segment) (l : Lookbehind) : Lookbehind :=
  match l with
  | [] => [(k, v)]
  | (k', v') :: l' =>
      if sid_ltb k k' then (k, v) :: l
      else if decide (k = k') then (k, v) :: l'
      else (k', v') :: lb_insert k v l'
  end.

Fixpoint lb_get (k : SegmentId) (l : Lookbehind) : option Segment :=
  match l with
  | [] => None
  | (k', v) :: l => if decide (k = k') then Some v else lb_get k l
  end.

(** [while lookbehind.len() > max { lookbehind.pop_front() }]. *)
Fixpoint lb_trim (max : Z) (l : Lookbehind) : Lookbehind :=
  match l with
  | [] => []
  | _ :: l' => if max <? Z.of_nat (length l) then lb_trim max l' else l
  end.

Definition lb_of_frame (f : Z) (l : Lookbehind) : Lookbehind := filter (λ p, sid_frame (fst p) = f) l.

(** ** The state *)
Record SessionState := mkSession {
  lookbehind : Lookbehind;
  to_acknowledge : list Z;
  incoming_frame_retries : gmap Z RetryToken;
  outgoing_frame_resends : gmap Z RetryToken;
  outgoing_frame_id : Z;
  frame_reassembler : FrameReassembler;
  cfg : SessionConfig;
  (* the segment channel *)
  egress : list SessionMessage;
  egress_open : bool;
  (* items of the reassembler that the reading side has consumed *)
  frames_read : nat
}.

Definition set_lookbehind l (s : SessionState) := mkSession l (to_acknowledge s)
  (incoming_frame_retries s) (outgoing_frame_resends s) (outgoing_frame_id s)
  (frame_reassembler s) (cfg s) (egress s) (egress_open s) (frames_read s).
Definition set_to_acknowledge q (s : SessionState) := mkSession (lookbehind s) q
  (incoming_frame_retries s) (outgoing_frame_resends s) (outgoing_frame_id s)
  (frame_reassembler s) (cfg s) (egress s) (egress_open s) (frames_read s).
Definition set_incoming m (s : SessionState) := mkSession (lookbehind s) (to_acknowledge s)
  m (outgoing_frame_resends s) (outgoing_frame_id s)
  (frame_reassembler s) (cfg s) (egress s) (egress_open s) (frames_read s).
Definition set_outgoing m (s : SessionState) := mkSession (lookbehind s) (to_acknowledge s)
  (incoming_frame_retries s) m (outgoing_frame_id s)
  (frame_reassembler s) (cfg s) (egress s) (egress_open s) (frames_read s).
Definition set_frame_id z (s : SessionState) := mkSession (lookbehind s) (to_acknowledge s)
  (incoming_frame_retries s) (outgoing_frame_resends s) z
  (frame_reassembler s) (cfg s) (egress s) (egress_open s) (frames_read s).
Definition set_reassembler r (s : SessionState) := mkSession (lookbehind s) (to_acknowledge s)
  (incoming_frame_retries s) (outgoing_frame_resends s) (outgoing_frame_id s)
  r (cfg s) (egress s) (egress_open s) (frames_read s).
Definition set_egress l (s : SessionState) := mkSession (lookbehind s) (to_acknowledge s)
  (incoming_frame_retries s) (outgoing_frame_resends s) (outgoing_frame_id s)
  (frame_reassembler s) (cfg s) l (egress_open s) (frames_read s).
Definition set_egress_open b (s : SessionState) := mkSession (lookbehind s) (to_acknowledge s)
  (incoming_frame_retries s) (outgoing_frame_resends s) (outgoing_frame_id s)
  (frame_reassembler s) (cfg s) (egress s) b (frames_read s).
Definition set_frames_read n (s : SessionState) := mkSession (lookbehind s) (to_acknowledge s)
  (incoming_frame_retries s) (outgoing_frame_resends s) (outgoing_frame_id s)
  (frame_reassembler s) (cfg s) (egress s) (egress_open s) n.

Abbreviation M := (SM SessionState NetworkTypeError).

(** [segment_egress_send.unbounded_send(m)], [feed(m)]: fails once the channel
    is closed. *)
Definition send_msg (m : SessionMessage) : M unit := λ s,
  if egress_open s then (set_egress (egress s ++ [m]) s, Ok tt)
  else (s, Err (SessionProtocolError ProcessingError)).

(** [try_for_each(unbounded_send)], [send_all]. *)
Fixpoint send_msgs (ms : list SessionMessage) : M unit :=
  match ms with
  | [] => mret tt
  | m :: ms => send_msg m;; send_msgs ms
  end.

(** [ArrayQueue::force_push] on a queue of capacity [cap]. *)
Definition force_push (cap : Z) (x : Z) (q : list Z) : list Z :=
  if Z.of_nat (length q) <? cap then q ++ [x] else drop 1 q ++ [x].

(** [segment(data, capacity, frame_id)?]. *)
Definition lift_session {A} (m : outcome SessionError A) : M A :=
  lift (map_err SessionProtocolError m).

Section Session.
Context (C : Z) `{FloatPow}.
(** The order in which iterating the heap of [incomplete_frames] yields. *)
Context (heap_order : list FrameInfo → list FrameInfo).

Definition PAYLOAD_CAPACITY : Z := C - SEGMENT_OVERHEAD.
Definition MAX_WRITE_SIZE : Z := MAX_SEGMENTS_PER_FRAME * PAYLOAD_CAPACITY.

(** [SessionSocket::new]: the state it builds; an MTU below the minimum
    panics.  The reassembler counts its age in milliseconds. *)
Definition session_new (c : SessionConfig) : outcome NetworkTypeError SessionState :=
  if C <? minimum_message_size C then Panic
  else Ok {|
    lookbehind := [];
    to_acknowledge := [];
    incoming_frame_retries := ∅;
    outgoing_frame_resends := ∅;
    outgoing_frame_id := 1;
    frame_reassembler := fr_new (frame_expiration_age c `div` 1000000);
    cfg := c;
    egress := [];
    egress_open := true;
    frames_read := 0 |}.

(** ** Messages from the other end *)

Definition consume_segment (now wall : Z) (segment : Segment) : M unit := λ s,
  match push_segment wall segment (frame_reassembler s) with
  | (r, Ok _) =>
      let s := set_reassembler r s in
      let rt := match incoming_frame_retries s !! frame_id segment with
                | Some rt => rt_replenish rt now (cfg_backoff_base (cfg s))
                | None => rt_new now now (cfg_backoff_base (cfg s))
                end in
      (set_incoming (<[frame_id segment := rt]> (incoming_frame_retries s)) s, Ok tt)
  | (r, Err _) => (set_reassembler r s, Ok tt)
  | (r, Panic) => (set_reassembler r s, Panic)
  end.

(** The lazy iterator chain: each id cancels the own resend of its frame, and
    is sent if the lookbehind buffer still has it, until a send fails. *)
Fixpoint retransmit_loop (ids : list SegmentId) : M unit :=
  match ids with
  | [] => mret tt
  | id :: ids =>
      modify (λ s, set_outgoing (delete (sid_frame id) (outgoing_frame_resends s)) s);;
      s ← get;
      match lb_get id (lookbehind s) with
      | Some seg => send_msg (MSegment seg)
      | None => mret tt
      end;;
      retransmit_loop ids
  end.
Definition retransmit_segments (request : SegmentRequest) : M unit :=
  retransmit_loop (sr_into_iter request).

Fixpoint acknowledged_loop (acked : list Z) : M unit :=
  match acked with
  | [] => mret tt
  | f :: acked =>
      modify (λ s, set_outgoing (delete f (outgoing_frame_resends s)) s);;
      modify (λ s, set_lookbehind
        (filter (λ p, sid_frame (fst p) ≠ f) (lookbehind s)) s);;
      acknowledged_loop acked
  end.
Definition acknowledged_frames (acked : FrameAcknowledgements) : M unit :=
  acknowledged_loop (fa_into_iter acked).

Definition start_send (now wall : Z) (item : SessionMessage) : M unit :=
  match item with
  | MSegment s => consume_segment now wall s
  | MRequest r => retransmit_segments r
  | MAcknowledge f => acknowledged_frames f
  end.

Definition poll_close_sink : M unit :=
  modify (λ s, set_reassembler (fst (close (frame_reassembler s))) s).

(** ** The three activities of the state loop *)


(** The loop over the tracked frames: collects those to ask for now.
    [sample f] is the jitter drawn when the token of frame [f] is checked. *)
Fixpoint collect_retries (now : Z) (sample : Z → f64) (infos : list FrameInfo)
    (to_retry : list FrameInfo) : M (list FrameInfo) :=
  match infos with
  | [] => mret to_retry
  | info :: infos =>
      s ← get;
      let f := fi_frame_id info in
      let c := cfg s in
      to_retry ←
        match incoming_frame_retries s !! f with
        | Some e =>
            rto_check ← lift (rt_check e now (rto_base_receiver c) (frame_expiration_age c)
                                (rto_jitter c) (sample f));
            match rto_check with
            | RetryNow next_rto =>
                modify (set_incoming (<[f := next_rto]> (incoming_frame_retries s)));;
                mret (to_retry ++ [info])
            | Expired =>
                modify (set_incoming (delete f (incoming_frame_retries s)));;
                mret to_retry
            | Wait _ => mret to_retry
            end
        | None =>
            modify (set_incoming
              (<[f := rt_new now now (cfg_backoff_base c)]> (incoming_frame_retries s)));;
            mret (to_retry ++ [info])
        end;
      collect_retries now sample infos to_retry
  end.

(** [to_retry.chunks(0)] panics. *)
Definition request_missing_segments (now : Z) (sample : Z → f64) : M Z :=
  s ← get;
  to_retry ← collect_retries now sample (heap_order (incomplete_frames (frame_reassembler s))) [];
  if MAX_ENTRIES C =? 0 then lift Panic
  else
    let msgs := map (λ chunk, MRequest (sr_from_iter C chunk))
                  (chunks (Z.to_nat (MAX_ENTRIES C)) to_retry) in
    send_msgs msgs;;
    mret (Z.of_nat (length msgs)).

(** The inner loop of [acknowledge_segments]: fills one message. *)
Fixpoint fill_ack (q : list Z) (ack_frames : FrameAcknowledgements) (len : Z) :
    list Z * FrameAcknowledgements * Z :=
  match q with
  | [] => ([], ack_frames, len)
  | ack_id :: q' =>
      if fa_is_full C ack_frames then (q, ack_frames, len)
      else fill_ack q' (fst (fa_push C ack_id ack_frames)) (len + 1)
  end.

(** The outer loop.  A round takes at least one id from the queue when a
    message can hold one, so the length of the queue is enough fuel. *)
Fixpoint acknowledge_loop (fuel : nat) (len : Z) : M Z :=
  s ← get;
  if decide (to_acknowledge s = []) then mret len
  else match fuel with
  | O => mret len
  | S fuel =>
      let '(q, ack_frames, len) := fill_ack (to_acknowledge s) [] len in
      modify (set_to_acknowledge q);;
      send_msg (MAcknowledge ack_frames);;
      acknowledge_loop fuel len
  end.

(** The final [flush] fails on a closed channel only through the sends before
    it: [poll_flush] of an unbounded sender always succeeds. *)
Definition acknowledge_segments : M Z :=
  s ← get;
  acknowledge_loop (length (to_acknowledge s)) 0.

(** The [retain] over the resend tokens: the tokens kept, and the set of
    frames to resend. *)
Fixpoint retain_resends (now : Z) (sample : Z → f64) (c : SessionConfig)
    (l : list (Z * RetryToken)) (kept : gmap Z RetryToken) (frames : list Z) :
    outcome NetworkTypeError (gmap Z RetryToken * list Z) :=
  match l with
  | [] => Ok (kept, frames)
  | (f, retry_log) :: l =>
      check_res ← rt_check retry_log now (rto_base_sender c) (frame_expiration_age c)
                    (rto_jitter c) (sample f);
      match check_res with
      | Wait _ => retain_resends now sample c l (<[f := retry_log]> kept) frames
      | RetryNow next_retry =>
          retain_resends now sample c l (<[f := next_retry]> kept) (bts_insert f frames)
      | Expired => retain_resends now sample c l kept frames
      end
  end.

Definition retransmit_unacknowledged_frames (now : Z) (sample : Z → f64) : M Z :=
  s ← get;
  if acknowledged_frames_buffer (cfg s) =? 0 then mret 0
  else
    '(kept, frames) ← lift (retain_resends now sample (cfg s)
                              (map_to_list (outgoing_frame_resends s)) ∅ []);
    modify (set_outgoing kept);;
    let msgs := map (λ e, MSegment (snd e)) (concat (map (λ f, lb_of_frame f (lookbehind s)) frames)) in
    send_msgs msgs;;
    mret (Z.of_nat (length msgs)).

(** ** Writing *)

Fixpoint send_segments (segments : list Segment) : M unit :=
  match segments with
  | [] => mret tt
  | seg :: segments =>
      send_msg (MSegment seg);;
      modify (λ s, set_lookbehind
        (lb_trim (max_buffered_segments (cfg s)) (lb_insert (Segment_id seg) seg (lookbehind s))) s);;
      send_segments segments
  end.

Definition send_frame_data (now : Z) (data : bytes) : M unit :=
  if negb ((1 <=? Z.of_nat (length data)) && (Z.of_nat (length data) <=? MAX_WRITE_SIZE))
  then throw (SessionProtocolError IncorrectMessageLength)
  else
    s ← get;
    let frame_id := outgoing_frame_id s in
    modify (set_frame_id (wrap 32 (frame_id + 1)));;
    segments ← lift_session (segment data PAYLOAD_CAPACITY frame_id);
    send_segments segments;;
    modify (λ s, set_outgoing
      (<[frame_id := rt_new now now (cfg_backoff_base (cfg s))]> (outgoing_frame_resends s)) s).

(** [AsyncWrite::poll_write] of the socket: the number of bytes taken. *)
Definition poll_write (now : Z) (buf : bytes) : M Z :=
  let len_to_write := Z.min MAX_WRITE_SIZE (Z.of_nat (length buf)) in
  if len_to_write =? 0 then mret 0
  else
    send_frame_data now (take (Z.to_nat len_to_write) buf);;
    mret len_to_write.

(** [AsyncWrite::poll_close] of the socket: [close_channel]. *)
Definition poll_close : M unit := modify (set_egress_open false).

(** ** Reading: the filter between the reassembler and the application *)

Definition frame_egress_item (item : outcome SessionError Frame) :
    M (option (outcome SessionError Frame)) :=
  match item with
  | Ok frame =>
      modify (λ s, set_incoming (delete (fr_frame_id frame) (incoming_frame_retries s)) s);;
      s ← get;
      (if enabled (cfg s) AcknowledgeFrames
       then modify (set_to_acknowledge
              (force_push (Z.max 1 (acknowledged_frames_buffer (cfg s)))
                 (fr_frame_id frame) (to_acknowledge s)))
       else mret tt);;
      mret (Some (Ok frame))
  | Err (FrameDiscarded fid) | Err (IncompleteFrame fid) =>
      modify (λ s, set_incoming (delete fid (incoming_frame_retries s)) s);;
      mret None
  | Err e => mret (Some (Err e))
  | Panic => lift Panic
  end.

(** Takes the next item of the reassembler through the filter; the application
    sees the item, if the filter passes one. *)
Definition frame_egress_next : M (option (outcome SessionError Frame)) :=
  s ← get;
  match reassembled (frame_reassembler s) !! frames_read s with
  | None => mret None
  | Some item =>
      modify (set_frames_read (S (frames_read s)));;
      frame_egress_item item
  end.

(** ** The state loop *)

(** The rate limiters need non-zero periods; durations divide by truncation. *)
Definition state_loop_quotas (c : SessionConfig) : outcome NetworkTypeError unit :=
  if (frame_expiration_age c `div` 10 =? 0) ||
     (Z.min (rto_base_sender c) (rto_base_receiver c) `div` 4 =? 0) ||
     (rto_base_sender c =? 0) || (rto_base_receiver c =? 0)
  then Err NetworkOther else Ok tt.

(** Which of the four rate limiters let the next call pass. *)
Record Ready := mkReady {
  ready_receiver : bool; ready_sender : bool; ready_ack : bool; ready_evict : bool
}.

(** One turn of the loop: [select_biased!] takes the first ready branch; an
    error ends the loop, no ready branch waits. *)
Definition state_loop_turn (now wall : Z) (sample : Z → f64) (rdy : Ready) : M unit := λ s,
  if negb (egress_open s) then (s, Err NetworkOther)
  else if enabled (cfg s) RequestIncompleteFrames && ready_receiver rdy then
    (request_missing_segments now sample;; mret tt) s
  else if enabled (cfg s) RetransmitFrames && ready_sender rdy then
    (retransmit_unacknowledged_frames now sample;; mret tt) s
  else if enabled (cfg s) AcknowledgeFrames && ready_ack rdy then
    (acknowledge_segments;; mret tt) s
  else if ready_evict rdy then
    match evict wall (frame_reassembler s) with
    | (r, o) => (set_reassembler r s, map_err SessionProtocolError (_ ← o; Ok tt))
    end
  else (s, Ok tt).

(** ** Events of one endpoint *)
Inductive event :=
| EvReceive (now wall : Z) (m : SessionMessage)
| EvWrite (now : Z) (data : bytes)
| EvRead
| EvTurn (now wall : Z) (sample : Z → f64) (rdy : Ready)
| EvSinkClose
| EvClose.

Definition step (e : event) : M unit :=
  match e with
  | EvReceive now wall m => start_send now wall m
  | EvWrite now data => send_frame_data now data
  | EvRead => frame_egress_next;; mret tt
  | EvTurn now wall sample rdy => state_loop_turn now wall sample rdy
  | EvSinkClose => poll_close_sink
  | EvClose => poll_close
  end.

(** A state after a sequence of events none of which aborted the process. *)
Inductive reachable (c : SessionConfig) : SessionState → Prop :=
| reach_new s : session_new c = Ok s → reachable c s
| reach_step s e s' o : reachable c s → step e s = (s', o) → o ≠ Panic → reachable c s'.

End Session.
