(* ===== verification/SessionEndpoint.v ===== *)
(** * One end of a session

    What the operations of [SessionState] do, each on all its branches, and
    the invariant of every state an endpoint can reach: bounded buffers and
    nothing on the wire that exceeds the MTU. *)
From S2P Require Import Prelude Primitives Frame SessionProtocol SessionState.

(** ** The lookbehind buffer *)

Lemma elem_of_lb_insert k v l p : p ∈ lb_insert k v l → p = (k, v) ∨ p ∈ l.
Proof.
  induction l as [|[k' v'] l IH]; simpl; [rewrite list_elem_of_singleton; tauto|].
  destruct (sid_ltb k k'); [rewrite !elem_of_cons; tauto|].
  destruct (decide (k = k')); rewrite !elem_of_cons; tauto.
Qed.

Lemma lb_trim_drop max l :
  0 ≤ max → lb_trim max l = drop (length l - Z.to_nat max) l.
Proof.
  intros Hm. induction l as [|p l IH]; simpl; [done|].
  destruct (Z.ltb_spec max (Z.of_nat (S (length l)))).
  - rewrite IH. replace (S (length l) - Z.to_nat max)%nat with (S (length l - Z.to_nat max)) by lia.
    done.
  - by replace (S (length l) - Z.to_nat max)%nat with 0%nat by lia.
Qed.

Lemma lb_trim_length max l : 0 ≤ max → Z.of_nat (length (lb_trim max l)) ≤ max.
Proof. intros. rewrite lb_trim_drop, length_drop by done. lia. Qed.

Lemma elem_of_lb_trim max l p : p ∈ lb_trim max l → p ∈ l.
Proof.
  induction l as [|q l IH]; simpl; [done|]. destruct (max <? _); [|done].
  rewrite elem_of_cons. tauto.
Qed.

Lemma lb_get_elem k l v : lb_get k l = Some v → (k, v) ∈ l.
Proof.
  induction l as [|[k' v'] l IH]; simpl; [done|].
  destruct (decide (k = k')) as [->|]; [intros [= ->]; by left|]. intros. right. by apply IH.
Qed.

(** ** The channel *)

Lemma send_msgs_open ms s :
  egress_open s = true → send_msgs ms s = (set_egress (egress s ++ ms) s, Ok tt).
Proof.
  revert s. induction ms as [|m ms IH]; intros s Ho; simpl.
  - rewrite app_nil_r. by destruct s.
  - unfold mbind, SM_bind, send_msg. rewrite Ho. rewrite IH by done. simpl.
    by rewrite <-(assoc_L (++)).
Qed.

Lemma force_push_length cap x q :
  1 ≤ cap → Z.of_nat (length q) ≤ cap → Z.of_nat (length (force_push cap x q)) ≤ cap.
Proof.
  intros Hc Hq. unfold force_push. destruct (Z.ltb_spec (Z.of_nat (length q)) cap);
    autorewrite with lens; simpl; lia.
Qed.

(** Peels binds and reads off a computation. *)
Ltac keep :=
  repeat match goal with
  | |- keeps _ _ (get ≫= _) => apply keeps_get; intros ? ?
  | |- keeps _ _ (lift_session _ ≫= _) => unfold lift_session
  | |- keeps _ _ (lift _ ≫= _) => apply keeps_lift_bind; [done|intros ? ?]
  | |- keeps _ _ (_ ≫= _) => apply keeps_bind; [|intros ?]
  | |- keeps _ _ (modify _) => apply keeps_modify; intros ? ?
  | |- keeps _ _ (lift _) => by apply keeps_lift
  | |- keeps _ _ (if ?b then _ else _) => destruct b eqn:?
  | |- keeps _ _ (match ?x with _ => _ end) => destruct x eqn:?
  end; auto.

Section Endpoint.
Context (C : Z) `{FloatPow} (heap_order : list FrameInfo → list FrameInfo).

(** ** Messages that fit *)

(** The message encodes, into at most one MTU. *)
Definition msg_fits (m : SessionMessage) : Prop :=
  ∃ bs, sm_to_bytes C m = Ok bs ∧ Z.of_nat (length bs) ≤ C.

Definition seg_fits (seg : Segment) : Prop :=
  Z.of_nat (length (seg_data seg)) ≤ PAYLOAD_CAPACITY C.

Lemma segment_fits seg : 4 ≤ C → seg_fits seg → msg_fits (MSegment seg).
Proof.
  unfold seg_fits, PAYLOAD_CAPACITY, SEGMENT_OVERHEAD, HEADER_SIZE, Segment_HEADER_SIZE.
  intros HC Hs. unfold msg_fits. cbn. eexists. split; [reflexivity|].
  unfold Segment_to_bytes. autorewrite with lens. simpl length. autorewrite with lens. lia.
Qed.

Lemma request_fits infos :
  4 ≤ C → Z.of_nat (length infos) ≤ MAX_ENTRIES C → msg_fits (MRequest (sr_from_iter C infos)).
Proof.
  intros HC Hl. assert (∀ l acc, (length (foldl (λ ret fi, bt_insert (fi_frame_id fi)
    (missing_bitmap fi) ret) acc l) ≤ length acc + length l)%nat) as Hfold.
  { induction l as [|fi l IH]; intros acc; simpl; [lia|]. etrans; [apply IH|].
    pose proof (length_bt_insert (fi_frame_id fi) (missing_bitmap fi) acc). lia. }
  assert (Z.of_nat (length (sr_from_iter C infos)) ≤ MAX_ENTRIES C) as Hr.
  { unfold sr_from_iter. specialize (Hfold (take (Z.to_nat (MAX_ENTRIES C)) infos) []).
    rewrite length_take in Hfold. simpl in Hfold. lia. }
  pose proof (sr_encoded_length C _ HC Hr) as Hlen.
  unfold msg_fits, sm_to_bytes. rewrite sr_to_bytes_ok by done. cbn [mbind outcome_bind].
  eexists. split; [reflexivity|]. rewrite !length_app, length_to_be. cbn [length].
  rewrite length_app in Hlen. unfold SIZE, HEADER_SIZE in *. lia.
Qed.

Lemma ack_fits a : 4 ≤ C → msg_fits (MAcknowledge a).
Proof.
  intros HC. unfold msg_fits, sm_to_bytes. cbn [mbind outcome_bind].
  eexists. split; [reflexivity|]. unfold fa_to_bytes.
  rewrite !length_app, length_to_be, length_take. cbn [length]. unfold SIZE, HEADER_SIZE. lia.
Qed.

(** ** The invariant

    [P] is what is known of every segment the endpoint has cut, and [fid] the
    id of its next frame. *)
Definition msg_good (P : Segment → Prop) (m : SessionMessage) : Prop :=
  msg_fits m ∧ match m with MSegment seg => P seg | _ => True end.

Record endpoint_inv (c : SessionConfig) (P : Segment → Prop) (fid : Z) (s : SessionState) : Prop := {
  ei_cfg : cfg s = c;
  ei_lookbehind : Z.of_nat (length (lookbehind s)) ≤ max_buffered_segments c;
  ei_segments k seg : (k, seg) ∈ lookbehind s → P seg;
  ei_acks : Z.of_nat (length (to_acknowledge s)) ≤ Z.max 1 (acknowledged_frames_buffer c);
  ei_egress : Forall (msg_good P) (egress s);
  ei_frame_id : outgoing_frame_id s = fid
}.

Lemma endpoint_inv_mono c (P Q : Segment → Prop) fid s :
  (∀ seg, P seg → Q seg) → endpoint_inv c P fid s → endpoint_inv c Q fid s.
Proof.
  intros HPQ [? ? Hs ? He ?]. split; try done.
  - intros k seg Hk. by apply HPQ, (Hs k).
  - eapply Forall_impl; [exact He|]. intros [seg|r|a] [Hf HP]; split; auto.
Qed.

Section Invariant.
#[local] Set Default Proof Using "Type*".
Context (c : SessionConfig) (P : Segment → Prop) (fid : Z).
Context (HC : 4 ≤ C) (Hmax : 0 ≤ max_buffered_segments c) (HP : ∀ seg, P seg → seg_fits seg).

Local Abbreviation inv := (endpoint_inv c P fid).
Local Abbreviation K := (keeps false inv).

(** Updates of fields the invariant does not mention. *)
Lemma inv_same s s' :
  inv s → cfg s' = cfg s → lookbehind s' = lookbehind s →
  to_acknowledge s' = to_acknowledge s → egress s' = egress s →
  outgoing_frame_id s' = outgoing_frame_id s → inv s'.
Proof. intros [? ? ? ? ? ?] E1 E2 E3 E4 E5. split; rewrite ?E1, ?E2, ?E3, ?E4, ?E5; done. Qed.

Lemma inv_set_incoming m s : inv s → inv (set_incoming m s).
Proof. intros; by eapply inv_same. Qed.
Lemma inv_set_outgoing m s : inv s → inv (set_outgoing m s).
Proof. intros; by eapply inv_same. Qed.
Lemma inv_set_reassembler r s : inv s → inv (set_reassembler r s).
Proof. intros; by eapply inv_same. Qed.
Lemma inv_set_egress_open b s : inv s → inv (set_egress_open b s).
Proof. intros; by eapply inv_same. Qed.
Lemma inv_set_frames_read n s : inv s → inv (set_frames_read n s).
Proof. intros; by eapply inv_same. Qed.

Hint Resolve inv_set_incoming inv_set_outgoing inv_set_reassembler
  inv_set_egress_open inv_set_frames_read : core.
Hint Resolve keeps_ret keeps_throw : core.

Lemma keeps_send_msg m : msg_good P m → K (send_msg m).
Proof.
  intros Hm s [? ? ? ? He ?]. unfold send_msg. destruct (egress_open s); [|done].
  split; [|done]. split; try done. simpl. apply Forall_app. auto.
Qed.

Lemma segment_good seg : P seg → msg_good P (MSegment seg).
Proof. intros Hs. split; [by apply segment_fits, HP|done]. Qed.

Lemma keeps_send_msgs ms : Forall (msg_good P) ms → K (send_msgs ms).
Proof. induction 1; simpl; keep. by apply keeps_send_msg. Qed.

Lemma keeps_consume now wall seg : K (consume_segment now wall seg).
Proof.
  intros s Hs. unfold consume_segment. destruct (push_segment _ _ _) as [r [| |]]; simpl; auto.
Qed.

Lemma keeps_retransmit_loop ids : K (retransmit_loop ids).
Proof.
  induction ids as [|id ids IH]; cbn [retransmit_loop]; keep.
  apply keeps_send_msg, segment_good.
  by eapply ei_segments, lb_get_elem.
Qed.

Lemma inv_filter_lookbehind Q `{∀ x, Decision (Q x)} s :
  inv s → inv (set_lookbehind (filter Q (lookbehind s)) s).
Proof.
  intros [? Hl Hs ? ? ?]. split; simpl; try done.
  - etrans; [apply inj_le, length_filter|done].
  - intros k seg [_ Hk]%list_elem_of_filter. by eapply Hs.
Qed.

Lemma keeps_acknowledged_loop acked : K (acknowledged_loop acked).
Proof. induction acked; cbn [acknowledged_loop]; keep. by apply inv_filter_lookbehind. Qed.

Lemma keeps_collect_retries now sample infos acc : K (collect_retries now sample infos acc).
Proof. revert acc. induction infos; intros acc; cbn [collect_retries]; keep. Qed.

Lemma keeps_request_missing now sample : K (request_missing_segments C heap_order now sample).
Proof.
  unfold request_missing_segments. keep; [by apply keeps_collect_retries|].
  apply keeps_send_msgs, Forall_fmap, Forall_forall. intros chunk Hc. simpl.
  split; [|done]. apply request_fits; [done|].
  assert (0 ≤ MAX_ENTRIES C) by (unfold MAX_ENTRIES, SIZE, HEADER_SIZE, ENTRY_SIZE; apply Z.div_pos; lia).
  match goal with E : (_ =? _) = false |- _ => apply Z.eqb_neq in E end.
  apply chunks_bound in Hc; lia.
Qed.

Lemma fill_ack_suffix q ack len : (length (fst (fst (fill_ack C q ack len))) ≤ length q)%nat.
Proof.
  revert ack len. induction q as [|x q IH]; intros ack len; simpl; [lia|].
  destruct (fa_is_full C ack); simpl; [lia|]. etrans; [apply IH|lia].
Qed.

Lemma inv_set_to_acknowledge q s :
  Z.of_nat (length q) ≤ Z.max 1 (acknowledged_frames_buffer c) →
  inv s → inv (set_to_acknowledge q s).
Proof. intros Hq [? ? ? ? ? ?]. by split. Qed.

Lemma keeps_acknowledge_loop fuel len : K (acknowledge_loop C fuel len).
Proof.
  revert len. induction fuel as [|fuel IH]; intros len; cbn [acknowledge_loop]; keep.
  - apply inv_set_to_acknowledge; [|done].
    match goal with Hs : inv ?s, E : fill_ack _ (to_acknowledge ?s) ?a ?n = _ |- _ =>
      pose proof (ei_acks _ _ _ _ Hs); pose proof (fill_ack_suffix (to_acknowledge s) a n) as Hq;
      rewrite E in Hq; simpl in Hq; lia end.
  - apply keeps_send_msg. split; [apply ack_fits, HC|done].
Qed.

Lemma keeps_acknowledge_segments : K (acknowledge_segments C).
Proof. unfold acknowledge_segments. keep. apply keeps_acknowledge_loop. Qed.

Lemma keeps_retransmit_unacknowledged now sample : K (retransmit_unacknowledged_frames now sample).
Proof.
  unfold retransmit_unacknowledged_frames. keep.
  apply keeps_send_msgs, Forall_fmap, Forall_forall. intros [k seg] Hin. simpl.
  apply list_elem_of_In, in_concat in Hin as (l' & Hl & Hin).
  apply in_map_iff in Hl as (f & <- & _). apply list_elem_of_In, list_elem_of_filter in Hin as [_ Hin].
  apply segment_good. by eapply ei_segments.
Qed.

Lemma keeps_send_segments segs : Forall P segs → K (send_segments segs).
Proof.
  induction 1 as [|seg segs Hseg _ IH]; cbn [send_segments]; keep.
  - by apply keeps_send_msg, segment_good.
  - match goal with Hs : inv ?s |- _ => destruct Hs as [Hc Hl Hf Ha He Hi] end.
    split; simpl; try done; rewrite Hc.
    + by apply lb_trim_length.
    + intros k v Hin%elem_of_lb_trim%elem_of_lb_insert.
      destruct Hin as [[= -> ->]|Hin]; [done|by eapply Hf].
Qed.

Lemma keeps_frame_egress_next : K frame_egress_next.
Proof.
  unfold frame_egress_next, frame_egress_item. keep.
  apply inv_set_to_acknowledge; [|done].
  match goal with Hs : inv ?s |- context [cfg ?s] =>
    pose proof (ei_acks _ _ _ _ Hs); rewrite (ei_cfg _ _ _ _ Hs) end.
  apply force_push_length; lia.
Qed.

Lemma keeps_turn now wall sample rdy : K (state_loop_turn C heap_order now wall sample rdy).
Proof.
  intros s Hs. unfold state_loop_turn.
  repeat match goal with |- context [if ?b then _ else _] => destruct b end; try done.
  - apply keeps_bind; auto using keeps_request_missing.
  - apply keeps_bind; auto using keeps_retransmit_unacknowledged.
  - apply keeps_bind; auto using keeps_acknowledge_segments.
  - destruct (evict _ _) as [r o]. simpl. auto.
Qed.

Lemma keeps_step e :
  match e with EvWrite _ _ => False | _ => True end → K (step C heap_order e).
Proof.
  destruct e as [now wall [seg|r|f]|now data| |now wall sample rdy| |]; cbn [step start_send];
    intros He; try done.
  - apply keeps_consume.
  - apply keeps_retransmit_loop.
  - apply keeps_acknowledged_loop.
  - keep. apply keeps_frame_egress_next.
  - apply keeps_turn.
  - unfold poll_close_sink. keep.
  - unfold poll_close. keep.
Qed.

Lemma inv_new s : fid = 1 → session_new C c = Ok s → inv s.
Proof.
  intros Hfid. unfold session_new. destruct (C <? _); [done|]. intros [= <-].
  split; simpl; try done; try lia. intros k seg Hin. by apply elem_of_nil in Hin.
Qed.
End Invariant.

Definition writable (data : bytes) : Prop :=
  1 ≤ Z.of_nat (length data) ≤ MAX_WRITE_SIZE C.

#[export] Instance writable_dec data : Decision (writable data).
Proof. unfold writable. apply _. Defined.

Lemma send_frame_data_unwritable now data s :
  ¬ writable data → send_frame_data C now data s = (s, Err (SessionProtocolError IncorrectMessageLength)).
Proof.
  intros Hw. unfold send_frame_data.
  by assert ((1 <=? Z.of_nat (length data)) && (Z.of_nat (length data) <=? MAX_WRITE_SIZE C) = false)
    as -> by (by apply not_true_iff_false; rewrite andb_true_iff, !Z.leb_le).
Qed.

(** The body of a write of legal length. *)
Lemma send_frame_data_writable now data s :
  writable data →
  send_frame_data C now data s =
    (segments ← lift_session (segment data (PAYLOAD_CAPACITY C) (outgoing_frame_id s));
     send_segments segments;;
     modify (λ s', set_outgoing (<[outgoing_frame_id s := rt_new now now (cfg_backoff_base (cfg s'))]>
       (outgoing_frame_resends s')) s'))
    (set_frame_id (wrap 32 (outgoing_frame_id s + 1)) s).
Proof.
  intros Hw. unfold send_frame_data.
  by assert ((1 <=? Z.of_nat (length data)) && (Z.of_nat (length data) <=? MAX_WRITE_SIZE C) = true)
    as -> by (by rewrite andb_true_iff, !Z.leb_le).
Qed.

(** A write keeps the invariant, for what is known of the new segments. *)
Lemma write_inv c (P : Segment → Prop) fid now data s :
  4 ≤ C → 0 ≤ max_buffered_segments c → (∀ seg, P seg → seg_fits seg) → writable data →
  (∀ segs, segment data (PAYLOAD_CAPACITY C) fid = Ok segs → Forall P segs) →
  endpoint_inv c P fid s →
  endpoint_inv c P (wrap 32 (fid + 1)) (fst (send_frame_data C now data s)).
Proof.
  intros HC Hmax HP Hw Hsegs Hinv. rewrite send_frame_data_writable by done.
  apply (keeps_apply false (endpoint_inv c P (wrap 32 (fid + 1)))).
  - keep.
    + apply keeps_send_segments; try done. rewrite (ei_frame_id _ _ _ _ Hinv) in *.
      destruct (segment _ _ _) as [segs'|e|]; simplify_eq/=. by apply Hsegs.
    + by apply inv_set_outgoing.
  - destruct Hinv as [? ? ? ? ? <-]. by split.
Qed.

Lemma segment_seg_fits data fid segs :
  0 ≤ PAYLOAD_CAPACITY C → segment data (PAYLOAD_CAPACITY C) fid = Ok segs → Forall seg_fits segs.
Proof.
  intros Hm Hs. destruct (segment_spec _ _ _ _ Hm Hs) as (_ & _ & Hall).
  apply Forall_forall. intros seg [i Hi]%list_elem_of_lookup. by apply Hall in Hi as (_ & _ & _ & _ & _ & ?).
Qed.

Lemma inv_reachable c s :
  4 ≤ C → 0 ≤ max_buffered_segments c → reachable C heap_order c s →
  ∃ fid, endpoint_inv c seg_fits fid s.
Proof.
  intros HC Hmax. induction 1 as [s Hs|s e s' o _ [fid IH] Hstep _].
  { exists 1. by apply inv_new. }
  assert (s' = fst (step C heap_order e s)) as -> by (by rewrite Hstep). clear Hstep o.
  assert (match e with EvWrite _ _ => False | _ => True end ∨ ∃ now data, e = EvWrite now data)
    as [He|(now & data & ->)] by (destruct e; eauto).
  { exists fid. eapply keeps_apply; [by apply (keeps_step c seg_fits fid)|done]. }
  cbn [step]. destruct (decide (writable data)) as [Hw|Hw].
  - exists (wrap 32 (fid + 1)). apply write_inv; try done. intros segs. apply segment_seg_fits.
    unfold writable, MAX_WRITE_SIZE, MAX_SEGMENTS_PER_FRAME, MAX_MISSING_SEGMENTS_PER_FRAME in Hw. lia.
  - exists fid. by rewrite send_frame_data_unwritable.
Qed.

(** Bounded buffers and MTU: in every state an endpoint can reach, by any
    sequence of received messages, writes, reads, turns of the state loop and
    closes, the lookbehind buffer and the acknowledgement queue are within
    their configured capacities, and every message ever put on the wire
    encodes without a panic into at most one MTU. *)
Theorem endpoint_bounded c s :
  4 ≤ C → 0 ≤ max_buffered_segments c → reachable C heap_order c s →
  Z.of_nat (length (lookbehind s)) ≤ max_buffered_segments c ∧
  Z.of_nat (length (to_acknowledge s)) ≤ Z.max 1 (acknowledged_frames_buffer c) ∧
  Forall msg_fits (egress s).
Proof.
  intros HC Hmax Hs. destruct (inv_reachable c s HC Hmax Hs) as [fid [_ ? _ ? He _]].
  split_and!; try done. eapply Forall_impl; [exact He|]. by intros m [? _].
Qed.

End Endpoint.

(** A concrete instance: repeated doubling stands for [powi] with base two. *)
Definition pow_two : FloatPow := λ _ n, f64_of_u64 (2 ^ n).

Definition small_config : SessionConfig := {|
  max_buffered_segments := 2;
  acknowledged_frames_buffer := 2;
  frame_expiration_age := 30 * NANOS_PER_SEC;
  rto_base_receiver := NANOS_PER_SEC;
  rto_base_sender := NANOS_PER_SEC;
  cfg_backoff_base := f64_from_bits 0x4000000000000000;
  rto_jitter := f64_zero;
  enabled_features := default_features |}.

(** An endpoint that wrote a frame of three segments (MTU 12). *)
Definition small_state : SessionState :=
  match session_new 12 small_config with
  | Ok s => fst (send_frame_data 12 5 [1; 2; 3; 4; 5] s)
  | _ => mkSession [] [] ∅ ∅ 0 (fr_new 0) small_config [] false 0
  end.

Lemma small_state_reachable : @reachable 12 pow_two (λ l, l) small_config small_state.
Proof.
  destruct (session_new 12 small_config) as [s| |] eqn:E; try discriminate.
  eapply (reach_step _ _ _ s (EvWrite 5 [1; 2; 3; 4; 5])); [by apply reach_new| |].
  - cbn [step]. unfold small_state. rewrite E. apply surjective_pairing.
  - injection E as <-. vm_compute. discriminate.
Qed.

Lemma endpoint_bounded_witness :
  length (egress small_state) = 3%nat ∧ length (lookbehind small_state) = 2%nat ∧
  Forall (msg_fits 12) (egress small_state).
Proof.
  split; [vm_compute; reflexivity|]. split; [vm_compute; reflexivity|].
  destruct (@endpoint_bounded 12 pow_two (λ l, l) small_config small_state) as (_ & _ & H);
    [lia|vm_compute; discriminate|exact small_state_reachable|exact H].
Defined.
