(* ===== verification/SessionOps.v ===== *)
(** * What each session operation does

    The functional behaviour of the operations of [SessionState]: writing a
    frame, answering a retransmission request, taking an acknowledgement,
    sending acknowledgements and retransmitting by oneself. *)
From S2P Require Import Prelude Primitives Frame SessionProtocol SessionState SessionEndpoint.

(** ** Writing *)

(** All buffered segments belong to frames before the next one: what writing
    maintains until the frame counter wraps. *)
Definition lb_below (s : SessionState) : Prop :=
  Forall (λ p, sid_frame (fst p) < outgoing_frame_id s) (lookbehind s).

#[export] Instance lb_below_dec s : Decision (lb_below s).
Proof. unfold lb_below. apply _. Defined.

Definition keyed (segs : list Segment) : Lookbehind := (λ seg, (Segment_id seg, seg)) <$> segs.

Lemma lb_insert_last k v l :
  Forall (λ p, sid_ltb (fst p) k = true) l → lb_insert k v l = l ++ [(k, v)].
Proof.
  induction 1 as [|[k' v'] l Hk Hl IH]; simpl in *; [done|].
  assert (sid_ltb k k' = false ∧ k ≠ k') as [-> Hne].
  { unfold sid_ltb in *. destruct k, k'; simpl in *. split; [|intros [= -> ->]].
    - destruct (Z.ltb_spec sid_frame0 sid_frame), (Z.ltb_spec sid_frame sid_frame0),
        (Z.eqb_spec sid_frame0 sid_frame), (Z.eqb_spec sid_frame sid_frame0),
        (Z.ltb_spec sid_seq0 sid_seq), (Z.ltb_spec sid_seq sid_seq0); simpl in *; congruence || lia.
    - by rewrite Z.ltb_irrefl, Z.eqb_refl, Z.ltb_irrefl in Hk. }
  rewrite decide_False by done. by rewrite IH.
Qed.

Lemma lb_trim_app max l l' :
  0 ≤ max → lb_trim max (lb_trim max l ++ l') = lb_trim max (l ++ l').
Proof.
  intros Hm. rewrite !lb_trim_drop by done.
  rewrite !drop_app, !length_app, !length_drop, drop_drop. f_equal; f_equal; lia.
Qed.

(** The keys of the segments of one frame ascend. *)
Lemma enumerate_keys_ascend cs fid i j a b :
  (length cs ≤ 255)%nat → (i < j)%nat →
  enumerate_segments cs fid !! i = Some a → enumerate_segments cs fid !! j = Some b →
  sid_ltb (Segment_id a) (Segment_id b) = true.
Proof.
  rewrite !lookup_enumerate_segments. intros Hl Hij Ha Hb.
  destruct (cs !! i) eqn:Hi, (cs !! j) eqn:Hj; simplify_eq/=.
  apply lookup_lt_Some in Hi, Hj. unfold sid_ltb, Segment_id; simpl.
  rewrite !wrap_small by (unfold in_u; lia). rewrite Z.eqb_refl, (proj2 (Z.ltb_lt (Z.of_nat i) _)) by lia.
  apply orb_true_r.
Qed.

(** The write loop on an open channel, for segments whose keys ascend beyond
    the buffer. *)
Lemma send_segments_open segs s :
  egress_open s = true → 0 ≤ max_buffered_segments (cfg s) →
  (∀ i j a b, (i < j)%nat → segs !! i = Some a → segs !! j = Some b →
     sid_ltb (Segment_id a) (Segment_id b) = true) →
  (∀ p a, p ∈ lookbehind s → a ∈ segs → sid_ltb (fst p) (Segment_id a) = true) →
  segs ≠ [] →
  send_segments segs s =
    (set_lookbehind (lb_trim (max_buffered_segments (cfg s)) (lookbehind s ++ keyed segs))
       (set_egress (egress s ++ (MSegment <$> segs)) s), Ok tt).
Proof.
  revert s. induction segs as [|a segs IH]; intros s Ho Hm Hasc Hlb Hne; [done|]. clear Hne.
  cbn [send_segments]. unfold mbind, SM_bind, send_msg. rewrite Ho. unfold modify. cbn.
  rewrite lb_insert_last by (apply Forall_forall; intros p Hp; apply Hlb; [done|by left]).
  destruct segs as [|b segs].
  { by cbn. }
  rewrite IH; cbn [lookbehind set_lookbehind set_egress egress cfg egress_open]; try done.
  - rewrite lb_trim_app, <-!(assoc_L (++)) by done. done.
  - intros i j x y Hij Hx Hy. apply (Hasc (S i) (S j)); [lia|done..].
  - intros p x Hp Hx. apply elem_of_lb_trim, elem_of_app in Hp as [Hp|Hp].
    + apply Hlb; [done|by right].
    + apply list_elem_of_singleton in Hp as ->. apply list_elem_of_lookup in Hx as [j Hj].
      apply (Hasc 0%nat (S j)); [lia|done..].
Qed.

(** The state after a successful write of the frame [segs]. *)
Definition after_write (now : Z) (segs : list Segment) (s : SessionState) : SessionState :=
  let fid := outgoing_frame_id s in
  set_outgoing (<[fid := rt_new now now (cfg_backoff_base (cfg s))]> (outgoing_frame_resends s))
    (set_lookbehind (lb_trim (max_buffered_segments (cfg s)) (lookbehind s ++ keyed segs))
      (set_egress (egress s ++ (MSegment <$> segs))
        (set_frame_id (wrap 32 (fid + 1)) s))).

Lemma writable_segment C data fid :
  10 < C → writable C data → fid ≠ 0 →
  let segs := enumerate_segments (chunks (Z.to_nat (PAYLOAD_CAPACITY C)) data) fid in
  segment data (PAYLOAD_CAPACITY C) fid = Ok segs ∧ segs ≠ [] ∧ (length segs ≤ 8)%nat.
Proof.
  unfold writable, MAX_WRITE_SIZE, MAX_SEGMENTS_PER_FRAME, MAX_MISSING_SEGMENTS_PER_FRAME.
  intros HC [H1 H2] Hf. assert (0 < PAYLOAD_CAPACITY C) as Hp
    by (unfold PAYLOAD_CAPACITY, SEGMENT_OVERHEAD, HEADER_SIZE, Segment_HEADER_SIZE; lia).
  pose proof (segment_chunks_count data _ Hp) as Hn.
  assert (0 < div_ceil (Z.of_nat (length data)) (PAYLOAD_CAPACITY C) ≤ 8) as Hd.
  { unfold div_ceil. split; [apply Z.div_str_pos; lia|].
    apply Z.lt_succ_r, Z.div_lt_upper_bound; lia. }
  split.
  - unfold segment. rewrite (proj2 (Z.eqb_neq _ _)), (proj2 (Z.eqb_neq _ _)) by lia.
    rewrite (proj2 (Z.ltb_ge _ _)); [done|]. unfold seqnum_max, u_max. lia.
  - rewrite <-(length_enumerate_segments _ fid) in Hn. split; [|lia].
    intros E. rewrite E in Hn. simpl in Hn. lia.
Qed.

(** Writing a frame, on every branch of an open session: data of a legal
    length is cut into at most eight segments that carry the data in order
    under the next frame id; all of them are sent, the lookbehind buffer then
    holds the most recent segments up to its capacity, and the frame gets a
    resend token.  Data of another length changes nothing, and the wrapped
    frame id zero is refused and skipped. *)
Theorem send_frame_data_spec C now data s :
  10 < C → 0 ≤ max_buffered_segments (cfg s) → lb_below s → egress_open s = true →
  match send_frame_data C now data s with
  | (s', Ok _) => writable C data ∧
      ∃ segs, segment data (PAYLOAD_CAPACITY C) (outgoing_frame_id s) = Ok segs ∧
        (length segs ≤ 8)%nat ∧ concat (map seg_data segs) = data ∧
        s' = after_write now segs s ∧ (outgoing_frame_id s < u_max 32 → 0 ≤ outgoing_frame_id s → lb_below s')
  | (s', Err e) =>
      (¬ writable C data ∧ e = SessionProtocolError IncorrectMessageLength ∧ s' = s) ∨
      (writable C data ∧ outgoing_frame_id s = 0 ∧ e = SessionProtocolError InvalidFrameId ∧
       s' = set_frame_id 1 s)
  | (_, Panic) => False
  end.
Proof.
  intros HC Hmax Hlb Hopen.
  destruct (decide (writable C data)) as [Hw|Hw]; cycle 1.
  { rewrite send_frame_data_unwritable by done. by left. }
  rewrite send_frame_data_writable by done. unfold mbind, SM_bind, modify, lift_session, lift.
  destruct (decide (outgoing_frame_id s = 0)) as [E0|E0].
  { unfold segment. rewrite E0. cbn. right. done. }
  destruct (writable_segment C data _ HC Hw E0) as (Hseg & Hne & Hlen).
  rewrite Hseg. cbn [map_err]. set (segs := enumerate_segments _ _) in *.
  assert (0 ≤ PAYLOAD_CAPACITY C) as Hp
    by (unfold PAYLOAD_CAPACITY, SEGMENT_OVERHEAD, HEADER_SIZE, Segment_HEADER_SIZE; lia).
  destruct (segment_spec _ _ _ _ Hp Hseg) as (Hcat & _ & Hall).
  rewrite send_segments_open; try done; cycle 1.
  { intros i j a b Hij. apply enumerate_keys_ascend; [|done].
    subst segs. rewrite length_enumerate_segments in Hlen. lia. }
  { intros p a Hin [i Hi]%list_elem_of_lookup. destruct (Hall _ _ Hi) as [Hf _].
    cbn in Hin. apply (proj1 (Forall_forall _ _) Hlb) in Hin. unfold sid_ltb, Segment_id. cbn.
    rewrite Hf. by rewrite (proj2 (Z.ltb_lt _ _)). }
  split; [done|]. exists segs. split_and!; try done.
  intros Hnw Hpos. clear Hp. unfold lb_below. cbn. rewrite wrap_small by (unfold in_u, u_max in *; lia).
  apply Forall_forall. intros p [Hp|Hp]%elem_of_lb_trim%elem_of_app.
  - apply (proj1 (Forall_forall _ _) Hlb) in Hp. simpl in Hp. lia.
  - unfold keyed in Hp. apply list_elem_of_fmap in Hp as (a & -> & [i Hi]%list_elem_of_lookup).
    destruct (Hall _ _ Hi) as [Hf _]. simpl. lia.
Qed.

Lemma send_frame_data_spec_witness :
  match send_frame_data 12 7 [6; 7; 8] small_state with
  | (s', Ok _) => egress s' = egress small_state ++
      [MSegment (mkSegment 2 0 2 [6; 7]); MSegment (mkSegment 2 1 2 [8])] ∧
      lb_below s'
  | _ => False
  end.
Proof.
  pose proof (send_frame_data_spec 12 7 [6; 7; 8] small_state) as Hs.
  destruct (send_frame_data 12 7 [6; 7; 8] small_state) as [s' o] eqn:E.
  assert (s' = fst (send_frame_data 12 7 [6; 7; 8] small_state)) as E1 by (by rewrite E).
  assert (o = Ok tt) as -> by (change o with (snd (s', o)); rewrite <-E; vm_compute; reflexivity).
  split; [rewrite E1; vm_compute; reflexivity|].
  destruct Hs as (_ & segs & _ & _ & _ & _ & Hb);
    [lia|vm_compute; discriminate|apply (bool_decide_unpack _); vm_compute; exact I
    |vm_compute; reflexivity|].
  apply Hb; vm_compute; [reflexivity|discriminate].
Defined.

(** ** Acknowledging *)

(** What one message takes from the queue. *)
Lemma fill_ack_spec C q ack len q' ack' len' :
  fill_ack C q ack len = (q', ack', len') → ascending ack →
  Z.of_nat (length ack) ≤ MAX_ACK_FRAMES C →
  ∃ taken, q = taken ++ q' ∧ len' = len + Z.of_nat (length taken) ∧ ascending ack' ∧
    (∀ x, x ∈ ack' ↔ x ∈ ack ∨ x ∈ taken) ∧ Z.of_nat (length ack') ≤ MAX_ACK_FRAMES C ∧
    (q' = [] ∨ fa_is_full C ack' = true).
Proof.
  revert ack len. induction q as [|y q IH]; intros ack len Hf Ha Hl; cbn [fill_ack] in Hf.
  { simplify_eq. exists []. split_and!; try done; [simpl; lia| |by left].
    intros x. rewrite elem_of_nil. tauto. }
  destruct (fa_is_full C ack) eqn:Hfull.
  { simplify_eq. exists []. split_and!; try done; [simpl; lia| |by right].
    intros x. rewrite elem_of_nil. tauto. }
  unfold fa_push in Hf. rewrite Hfull in Hf. cbn [fst] in Hf.
  apply IH in Hf as (taken & -> & -> & H1 & H2 & H3 & H4).
  - exists (y :: taken). split_and!; try done; [simpl; lia|].
    intros x. rewrite H2, elem_of_bts_insert, elem_of_cons. tauto.
  - by apply bts_insert_ascending.
  - unfold fa_is_full in Hfull. apply Z.eqb_neq in Hfull.
    pose proof (length_bts_insert y ack). lia.
Qed.

Definition ack_batches (C : Z) (q : list Z) (acks : list FrameAcknowledgements) : Prop :=
  Forall (λ a, ascending a ∧ 0 < Z.of_nat (length a) ≤ MAX_ACK_FRAMES C) acks ∧
  (∀ x, x ∈ concat acks ↔ x ∈ q) ∧
  (∀ i a, acks !! i = Some a → (S i < length acks)%nat → fa_is_full C a = true).

Lemma acknowledge_loop_spec C fuel len s :
  0 < MAX_ACK_FRAMES C → egress_open s = true → (length (to_acknowledge s) ≤ fuel)%nat →
  ∃ acks, ack_batches C (to_acknowledge s) acks ∧
    acknowledge_loop C fuel len s =
      (set_to_acknowledge [] (set_egress (egress s ++ (MAcknowledge <$> acks)) s),
       Ok (len + Z.of_nat (length (to_acknowledge s)))).
Proof.
  intros HM. revert len s. induction fuel as [|fuel IH]; intros len s Ho Hf;
    cbn [acknowledge_loop]; unfold mbind, SM_bind, get;
    destruct (decide (to_acknowledge s = [])) as [E|E].
  1,3: exists []; rewrite E; split; [by split_and!|];
    cbn; rewrite app_nil_r, Z.add_0_r; destruct s; simpl in E; by subst.
  { destruct (to_acknowledge s); simpl in Hf; [done|lia]. }
  destruct (fill_ack C (to_acknowledge s) [] len) as [[q ack] len'] eqn:Hfill.
  pose proof Hfill as Hfirst.
  apply fill_ack_spec in Hfill as (taken & Hq & -> & Ha & Hin & Hlen & Hfull);
    [|constructor|simpl; lia].
  assert (ack ≠ []) as Hne.
  { destruct (to_acknowledge s) as [|y q0] eqn:Hq0; [done|].
    destruct taken as [|z taken]; simpl in Hq.
    - intros ->. destruct Hfull as [->|Hfull]; [done|]. unfold fa_is_full in Hfull.
      apply Z.eqb_eq in Hfull. simpl in Hfull. lia.
    - intros ->. assert (z ∈ []) as Hz by (apply Hin; right; by left). by apply elem_of_nil in Hz. }
  assert (taken ≠ []) as Ht.
  { intros ->. destruct ack as [|z ack]; [done|]. assert (z ∈ z :: ack) as Hz by by left.
    apply Hin in Hz. rewrite !elem_of_nil in Hz. tauto. }
  unfold modify, send_msg. cbn [fst snd egress_open set_to_acknowledge]. rewrite Ho.
  destruct (IH (len + Z.of_nat (length taken)) (set_egress (egress s ++ [MAcknowledge ack])
    (set_to_acknowledge q s))) as (acks & (Hb1 & Hb2 & Hb3) & Hrun); [done| |].
  { cbn. rewrite Hq, length_app in Hf. destruct taken; simpl in *; [done|lia]. }
  exists (ack :: acks). split.
  - split_and!.
    + constructor; [|done]. split; [done|]. destruct ack; simpl in *; [done|lia].
    + intros x. cbn [concat]. rewrite elem_of_app, Hb2, Hin, elem_of_nil, Hq, elem_of_app. cbn. tauto.
    + intros [|i] a Hi Hl; simpl in *; [|by apply (Hb3 i); [|lia]]. simplify_eq.
      destruct Hfull as [->|]; [|done]. destruct acks as [|a' acks]; [simpl in Hl; lia|].
      inversion Hb1 as [|? ? [_ Hpos] _]; subst. destruct a' as [|z a']; [simpl in Hpos; lia|].
      assert (z ∈ []) as Hz by (apply Hb2; cbn; by left). by apply elem_of_nil in Hz.
  - cbn [egress to_acknowledge set_egress set_to_acknowledge] in Hrun. cbn [egress set_to_acknowledge].
    rewrite Hrun. cbn. rewrite <-(assoc_L (++)). f_equal. f_equal.
    rewrite Hq, length_app. lia.
Qed.

(** Sending acknowledgements: on an open session the loop terminates with
    an empty queue and reports the number of queued ids; the messages it sends
    are sets that together hold exactly the queued ids, none of them empty or
    over the limit of one message, and all but the last one full. *)
Theorem acknowledge_segments_drains C s :
  8 ≤ C → egress_open s = true →
  ∃ acks, ack_batches C (to_acknowledge s) acks ∧
    acknowledge_segments C s =
      (set_to_acknowledge [] (set_egress (egress s ++ (MAcknowledge <$> acks)) s),
       Ok (Z.of_nat (length (to_acknowledge s)))).
Proof.
  intros HC Ho. unfold acknowledge_segments, mbind, SM_bind, get.
  apply (acknowledge_loop_spec C _ 0); [|done|done].
  unfold MAX_ACK_FRAMES, SIZE, HEADER_SIZE. apply Z.div_str_pos. lia.
Qed.

Definition acking_state : SessionState := set_to_acknowledge [3; 1; 2] small_state.

Lemma acknowledge_segments_drains_witness :
  snd (acknowledge_segments 12 acking_state) = Ok 3 ∧
  ∃ acks, ack_batches 12 [3; 1; 2] acks ∧
    egress (fst (acknowledge_segments 12 acking_state)) =
      egress small_state ++ (MAcknowledge <$> acks).
Proof.
  split; [vm_compute; reflexivity|].
  destruct (acknowledge_segments_drains 12 acking_state) as (acks & Hb & Hr);
    [lia|vm_compute; reflexivity|].
  exists acks. rewrite Hr. exact (conj Hb eq_refl).
Defined.

(** ** Answering requests *)

(** Removing the resend tokens of some frames. *)
Definition cancel_resends (frames : list Z) (m : gmap Z RetryToken) : gmap Z RetryToken :=
  foldl (λ m f, delete f m) m frames.

Lemma lookup_cancel_resends frames m f :
  cancel_resends frames m !! f = if decide (f ∈ frames) then None else m !! f.
Proof.
  revert m. unfold cancel_resends. induction frames as [|g frames IH]; intros m; cbn [foldl].
  { by rewrite decide_False by apply not_elem_of_nil. }
  rewrite IH. destruct (decide (f ∈ frames)) as [Hf|Hf].
  - by rewrite decide_True by (by right).
  - destruct (decide (f = g)) as [->|Hne].
    + rewrite decide_True by (by left). apply lookup_delete_eq.
    + rewrite decide_False by (by intros [|]%elem_of_cons). by apply lookup_delete_ne.
Qed.

Lemma retransmit_loop_open ids s :
  egress_open s = true →
  retransmit_loop ids s =
    (set_outgoing (cancel_resends (sid_frame <$> ids) (outgoing_frame_resends s))
      (set_egress (egress s ++ (MSegment <$> omap (λ id, lb_get id (lookbehind s)) ids)) s), Ok tt).
Proof.
  revert s. induction ids as [|id ids IH]; intros s Ho; cbn [retransmit_loop].
  { cbn. rewrite app_nil_r. by destruct s. }
  unfold mbind, SM_bind, modify, get. cbn [fst snd lookbehind set_outgoing].
  cbn [omap list_omap]. destruct (lb_get id (lookbehind s)) as [seg|].
  - unfold send_msg. cbn [egress_open set_outgoing]. rewrite Ho. rewrite IH by done. cbn.
    by rewrite <-(assoc_L (++)).
  - unfold mret, SM_ret. rewrite IH by done. done.
Qed.

(** Answering a retransmission request: the endpoint sends exactly the
    requested segments that its lookbehind buffer still holds, in the order of
    the request, and stops resending each of the requested frames by itself,
    whether or not a segment of it was left; nothing else changes. *)
Theorem retransmit_segments_exact request s :
  egress_open s = true →
  ∃ resends,
    retransmit_segments request s =
      (set_outgoing resends (set_egress (egress s ++
        (MSegment <$> omap (λ id, lb_get id (lookbehind s)) (sr_into_iter request))) s), Ok tt) ∧
    ∀ f, resends !! f =
      if decide (f ∈ sid_frame <$> sr_into_iter request) then None
      else outgoing_frame_resends s !! f.
Proof.
  intros Ho. unfold retransmit_segments. rewrite retransmit_loop_open by done.
  eexists. split; [done|]. intros f. apply lookup_cancel_resends.
Qed.

Lemma retransmit_segments_exact_witness :
  let r : SegmentRequest := [(1, 5)] in
  sr_into_iter r = [mkSegmentId 1 0; mkSegmentId 1 2] ∧
  ∃ resends, egress (fst (retransmit_segments r small_state)) =
      egress small_state ++ [MSegment (mkSegment 1 2 3 [5])] ∧
    resends = outgoing_frame_resends (fst (retransmit_segments r small_state)) ∧
    resends !! 1 = None.
Proof.
  split; [vm_compute; reflexivity|].
  destruct (retransmit_segments_exact [(1, 5)] small_state) as (resends & Hr & Hl);
    [vm_compute; reflexivity|].
  exists resends. rewrite Hr. split; [vm_compute; reflexivity|]. split; [reflexivity|].
  rewrite (Hl 1). vm_compute. reflexivity.
Defined.

(** ** Retransmitting by oneself *)
Section Resend.
Context `{FloatPow}.

Definition check_resend (now : Z) (sample : Z → f64) (c : SessionConfig) (f : Z) (t : RetryToken) :
    outcome NetworkTypeError RetryResult :=
  rt_check t now (rto_base_sender c) (frame_expiration_age c) (rto_jitter c) (sample f).

(** The token a frame keeps, if any. *)
Definition kept_token (t : RetryToken) (res : outcome NetworkTypeError RetryResult) :
    option RetryToken :=
  match res with
  | Ok (Wait _) => Some t
  | Ok (RetryNow t') => Some t'
  | _ => None
  end.

Lemma retain_resends_spec now sample c l kept frames kept' frames' :
  retain_resends now sample c l kept frames = Ok (kept', frames') →
  NoDup (map fst l) → (∀ f, f ∈ map fst l → kept !! f = None) →
  (∀ f t, (f, t) ∈ l → kept' !! f = kept_token t (check_resend now sample c f t)) ∧
  (∀ f, f ∉ map fst l → kept' !! f = kept !! f) ∧
  (∀ f, f ∈ frames' ↔ f ∈ frames ∨
     ∃ t t', (f, t) ∈ l ∧ check_resend now sample c f t = Ok (RetryNow t')).
Proof.
  revert kept frames. induction l as [|[g t] l IH]; intros kept frames Hr Hnd Hk.
  { injection Hr as -> ->. split_and!; [by intros f t ?%elem_of_nil|done|].
    intros f. split; [by left|]. intros [|(? & ? & ?%elem_of_nil & _)]; done. }
  cbn [retain_resends] in Hr. change (rt_check t now _ _ _ _) with (check_resend now sample c g t) in Hr.
  cbn [map fst] in Hnd, Hk. apply NoDup_cons in Hnd as [Hg Hnd].
  destruct (check_resend now sample c g t) as [res|e|] eqn:Hc; try discriminate.
  cbn [mbind outcome_bind] in Hr.
  assert (∃ kept1 frames1, retain_resends now sample c l kept1 frames1 = Ok (kept', frames') ∧
    kept1 !! g = kept_token t (Ok res) ∧ (∀ f, f ≠ g → kept1 !! f = kept !! f) ∧
    (∀ f, f ∈ frames1 ↔ f ∈ frames ∨ (f = g ∧ ∃ t', res = RetryNow t')))
    as (kept1 & frames1 & Hr1 & Hg1 & Ho1 & Hf1).
  { destruct res as [d|t'|].
    - exists (<[g:=t]> kept), frames. split; [done|]. split; [apply lookup_insert_eq|].
      split; [intros; by apply lookup_insert_ne|]. intros f. split; [by left|by intros [|(_ & ? & ?)]].
    - exists (<[g:=t']> kept), (bts_insert g frames). split; [done|]. split; [apply lookup_insert_eq|].
      split; [intros; by apply lookup_insert_ne|]. intros f. rewrite elem_of_bts_insert.
      split; [intros [->|]; [right; eauto|by left]|intros [|[-> _]]; tauto].
    - exists kept, frames. split; [done|]. split; [apply Hk; by left|]. split; [done|].
      intros f. split; [by left|by intros [|(_ & ? & ?)]]. }
  apply IH in Hr1 as (K1 & K2 & K3); [|done|].
  2:{ intros f Hf. rewrite Ho1; [apply Hk; by right|]. intros ->. done. }
  split_and!.
  - intros f t0 [[= -> ->]|Hin]%elem_of_cons; [|by apply K1].
    rewrite K2, Hg1 by done. by rewrite Hc.
  - intros f Hf. cbn [map fst] in Hf. apply not_elem_of_cons in Hf as [Hfg Hf].
    rewrite K2, Ho1; done.
  - intros f. rewrite K3, Hf1. split.
    + intros [[Hf|[-> [t' ->]]]|(t0 & t' & Hin & Hc')]; [by left| |].
      * right. exists t, t'. split; [by left|done].
      * right. exists t0, t'. split; [by right|done].
    + intros [Hf|(t0 & t' & [[= -> ->]|Hin]%elem_of_cons & Hc')]; [by left; left| |].
      * left. right. rewrite Hc in Hc'. injection Hc' as ->. eauto.
      * right. eauto.
Qed.

(** Retransmission by the sender: when it is on and no retry duration
    overflows, the endpoint sends the buffered segments of exactly the frames
    whose token is due, keeps the token of a waiting frame, counts a retry
    for a due frame and forgets an expired one, and changes nothing else. *)
Theorem retransmit_unacknowledged_exact now sample s s' n :
  egress_open s = true → acknowledged_frames_buffer (cfg s) ≠ 0 →
  retransmit_unacknowledged_frames now sample s = (s', Ok n) →
  ∃ resent,
    n = Z.of_nat (length resent) ∧
    s' = set_outgoing (outgoing_frame_resends s') (set_egress (egress s ++ (MSegment <$> resent)) s) ∧
    (∀ seg, seg ∈ resent ↔ ∃ k t t', (k, seg) ∈ lookbehind s ∧
       outgoing_frame_resends s !! sid_frame k = Some t ∧
       check_resend now sample (cfg s) (sid_frame k) t = Ok (RetryNow t')) ∧
    (∀ f, outgoing_frame_resends s' !! f =
       t ← outgoing_frame_resends s !! f; kept_token t (check_resend now sample (cfg s) f t)).
Proof.
  intros Ho Hb. unfold retransmit_unacknowledged_frames, mbind, SM_bind, get, lift.
  rewrite (proj2 (Z.eqb_neq _ _)) by done.
  destruct (retain_resends _ _ _ _ _ _) as [[kept frames]|e|] eqn:Hr; try done.
  unfold modify. rewrite send_msgs_open by done. intros [= <- <-].
  apply retain_resends_spec in Hr as (K1 & K2 & K3);
    [|apply NoDup_fst_map_to_list|intros; apply lookup_empty].
  set (resent := snd <$> concat (map (λ f, lb_of_frame f (lookbehind s)) frames)).
  exists resent. split_and!.
  - subst resent. by rewrite length_map, length_fmap.
  - cbn. subst resent. by rewrite <-list_fmap_compose.
  - intros seg. subst resent. rewrite list_elem_of_fmap. split.
    + intros ([k seg'] & -> & Hin). apply list_elem_of_In, in_concat in Hin as (l & Hl & Hin).
      apply in_map_iff in Hl as (f & <- & Hf). apply list_elem_of_In in Hf.
      apply list_elem_of_In, list_elem_of_filter in Hin as [<- Hin]. simpl in *.
      apply K3 in Hf as [?%elem_of_nil|(t & t' & Ht%elem_of_map_to_list & Hc)]; [done|].
      by exists k, t, t'.
    + intros (k & t & t' & Hk & Ht & Hc). exists (k, seg). split; [done|].
      apply list_elem_of_In, in_concat. eexists. split.
      * apply in_map, list_elem_of_In, K3. right. exists t, t'.
        split; [by apply elem_of_map_to_list|exact Hc].
      * by apply list_elem_of_In, list_elem_of_filter.
  - intros f. cbn. destruct (outgoing_frame_resends s !! f) as [t|] eqn:Hf; cbn.
    + apply K1. by apply elem_of_map_to_list.
    + rewrite K2; [apply lookup_empty|]. intros Hin.
      apply list_elem_of_fmap in Hin as ([g t] & -> & Hin). apply elem_of_map_to_list in Hin. simpl in *.
      congruence.
Qed.
End Resend.

(** A second and a half after the write of [small_state]. *)
Lemma retransmit_unacknowledged_exact_witness :
  let res := @retransmit_unacknowledged_frames pow_two 1500000005 (λ _, f64_one) small_state in
  snd res = Ok 2 ∧
  ∃ resent, egress (fst res) = egress small_state ++ (MSegment <$> resent) ∧
    mkSegment 1 2 3 [5] ∈ resent.
Proof.
  set (res := @retransmit_unacknowledged_frames pow_two 1500000005 (λ _, f64_one) small_state).
  assert (snd res = Ok 2) as E by (vm_compute; reflexivity).
  split; [exact E|].
  destruct (@retransmit_unacknowledged_exact pow_two 1500000005 (λ _, f64_one) small_state
    (fst res) 2) as (resent & _ & Hs & Hin & _);
    [vm_compute; reflexivity|vm_compute; discriminate| |].
  - fold res. destruct res as [s' o]. cbn [fst snd] in *. rewrite E. reflexivity.
  - exists resent. split; [rewrite Hs; reflexivity|].
    apply Hin. exists (mkSegmentId 1 2), (rt_new 5 5 (cfg_backoff_base small_config)).
    eexists. split; [|split; vm_compute; reflexivity]. vm_compute. right. left.
Defined.

(** ** Taking acknowledgements *)

Lemma filter_all {A} (P : A → Prop) `{∀ x, Decision (P x)} (l : list A) :
  (∀ x, P x) → filter P l = l.
Proof. intros Hp. induction l as [|x l IH]; [done|]. by rewrite filter_cons_True, IH. Qed.

(** An acknowledgement stops every kind of resending of its frames:
    afterwards no segment of an acknowledged frame is left to answer requests
    with, and no resend token; the segments and tokens of the other frames
    and everything else stay as they were. *)
Theorem acknowledged_frames_exact acked s :
  ∃ resends,
    acknowledged_frames acked s =
      (set_outgoing resends
        (set_lookbehind (filter (λ p, sid_frame (fst p) ∉ acked) (lookbehind s)) s), Ok tt) ∧
    ∀ f, resends !! f = if decide (f ∈ acked) then None else outgoing_frame_resends s !! f.
Proof.
  exists (cancel_resends acked (outgoing_frame_resends s)).
  split; [|intros; apply lookup_cancel_resends].
  unfold acknowledged_frames, fa_into_iter. revert s.
  induction acked as [|f acked IH]; intros s; cbn [acknowledged_loop].
  - rewrite filter_all by (intros; apply not_elem_of_nil). by destruct s.
  - unfold mbind, SM_bind, modify. rewrite IH. unfold set_outgoing, set_lookbehind. cbn. f_equal. f_equal.
    rewrite list_filter_filter. apply list_filter_iff. intros p.
    rewrite not_elem_of_cons. tauto.
Qed.
