(* ===== verification/SessionWorld.v ===== *)
(** * Two endpoints of a session

    The endpoints of [SessionState] joined by a network that may lose,
    duplicate and reorder messages.  Whatever the two endpoints do, frames
    arrive unchanged; without evictions they arrive completely and in order as
    soon as their segments do. *)
From S2P Require Import Prelude Primitives Frame Reassembly SessionProtocol SessionState SessionEndpoint.

(** ** Integrity of the reassembler

    The weaker invariant that evictions keep too. *)
Section Integrity.
Context (mss : Z) (datas : list bytes) (Hsend : sendable mss datas).
#[local] Set Default Proof Using "Type*".

Local Abbreviation cut d := (chunks (A:=Z) (Z.to_nat mss) d).

Definition builder_ok (b : FrameBuilder) : Prop :=
  ∃ P k d, datas !! k = Some d ∧ builder_inv P k (cut d) b.

Record intact (r : FrameReassembler) : Prop := {
  in_builders id b : sequences r !! id = Some b → fb_frame_id b = id ∧ builder_ok b;
  in_frames f : Ok f ∈ reassembled r → f ∈ sent_frames datas
}.

Local Abbreviation K := (keeps (E:=SessionError) true intact).

Lemma intact_delete r r0 id :
  intact r → intact r0 → intact (set_sequences (delete id (sequences r)) r0).
Proof.
  intros [Hb _] [_ Hf]. split; [|done]. intros id' b. simpl.
  intros [_ ?]%lookup_delete_Some. by apply Hb.
Qed.

Lemma intact_insert r b :
  builder_ok b → intact r → intact (set_sequences (<[fb_frame_id b := b]> (sequences r)) r).
Proof.
  intros Hok [Hb Hf]. split; [|done]. intros id' b'. simpl.
  intros [[<- <-]|[_ ?]]%lookup_insert_Some; [done|by apply Hb].
Qed.

Lemma intact_new age : intact (fr_new age).
Proof. split; simpl; [done|]. by intros f ?%elem_of_nil. Qed.

Lemma reassemble_ok b :
  builder_ok b → fb_is_complete b = true → ∃ f, fb_reassemble b = Ok f ∧ f ∈ sent_frames datas.
Proof.
  intros (P & k & d & Hd & Hb) Hc. eexists. split; [by eapply builder_reassemble|].
  rewrite concat_chunks by (destruct Hsend; lia).
  apply elem_of_lookup_imap. by exists k, d.
Qed.

Lemma keeps_unbounded_send item :
  item ≠ Panic → (∀ f, item = Ok f → f ∈ sent_frames datas) → K (unbounded_send item).
Proof.
  intros Hp Hi r [Hb Hf]. unfold unbounded_send. destruct (closed r); [done|].
  destruct item as [f|e|]; [| |done]; (split; [|done]); split; simpl; try done;
    intros f' [|Hin%list_elem_of_singleton]%elem_of_app; auto; by simplify_eq.
Qed.

Lemma keeps_send_reassembled b :
  builder_ok b → fb_is_complete b = true → K (unbounded_send (fb_reassemble b)).
Proof.
  intros Hb Hc. destruct (reassemble_ok b Hb Hc) as (f & -> & Hf).
  apply keeps_unbounded_send; [done|]. by intros ? [= <-].
Qed.

Lemma keeps_store_last_emission now : K (store_last_emission now).
Proof. apply keeps_modify. by intros r [Hb Hf]. Qed.

Lemma keeps_emit now b : builder_ok b → K (emit_if_complete_discard_otherwise now b).
Proof.
  intros Hb. unfold emit_if_complete_discard_otherwise. apply keeps_bind.
  { intros r [? ?]. by split. }
  intros next. apply keeps_bind; [|intros; apply keeps_store_last_emission].
  destruct ((next =? fb_frame_id b) && fb_is_complete b) eqn:E.
  - apply andb_true_iff in E as [_ E]. by apply keeps_send_reassembled.
  - by apply keeps_unbounded_send.
Qed.

(** Removing a builder and emitting it. *)
Lemma keeps_take_emit {A} now r id b (k : SM FrameReassembler SessionError A) :
  intact r → sequences r !! id = Some b → K k →
  K (modify (set_sequences (delete id (sequences r)));;
     emit_if_complete_discard_otherwise now b;; k).
Proof.
  intros Hr Hb Hk. repeat (apply keeps_bind; [|intros _]); [| |done].
  - apply keeps_modify. intros r0. by apply intact_delete.
  - apply keeps_emit. by apply (in_builders _ Hr id).
Qed.

Lemma keeps_cascade fuel now : K (cascade fuel now).
Proof.
  induction fuel as [|fuel IH]; cbn [cascade]; [apply keeps_ret|].
  apply keeps_get. intros r Hr.
  destruct (sequences r !! next_emitted_frame r) as [b|] eqn:Hb; [|apply keeps_ret].
  destruct (fb_is_complete b); [|apply keeps_ret]. by apply keeps_take_emit.
Qed.

Lemma keeps_evict_loop fuel now cutoff count : K (evict_loop fuel now cutoff count).
Proof.
  revert count. induction fuel as [|fuel IH]; intros count; cbn [evict_loop]; [apply keeps_ret|].
  apply keeps_get. intros r Hr.
  destruct (sequences r !! next_emitted_frame r) as [b|] eqn:Hb.
  - destruct (_ || _); [|apply keeps_ret]. by apply keeps_take_emit.
  - destruct (_ <? _); [|apply keeps_ret].
    apply keeps_bind; [|intros _; apply keeps_bind; [apply keeps_store_last_emission|auto]].
    intros r0 [? ?]. by split.
Qed.

Lemma keeps_evict now : K (evict now).
Proof.
  unfold evict. apply keeps_get. intros r Hr. destruct (closed r); [apply keeps_throw|].
  destruct (decide _); [apply keeps_ret|apply keeps_evict_loop].
Qed.

Lemma keeps_compare_exchange a b : K (compare_exchange_next a b).
Proof. intros r Hr. unfold compare_exchange_next. destruct (_ =? _); [|done]. split; [|done]. by destruct Hr. Qed.

Lemma keeps_emit_completed now b :
  builder_ok b → fb_is_complete b = true → K (emit_completed now b).
Proof.
  intros Hb Hc. unfold emit_completed. apply keeps_bind; [by apply keeps_send_reassembled|intros _].
  apply keeps_bind; [apply keeps_store_last_emission|intros; apply keeps_ret].
Qed.

(** A segment that the sender cut, on the builder of its frame or a fresh one. *)
Lemma put_ok b now s k d :
  datas !! k = Some d → s ∈ frame_segments mss k d → builder_ok b → fb_frame_id b = frame_id s →
  ∃ b', fb_put b s now = Ok (b', fb_remaining b') ∧ builder_ok b' ∧ fb_frame_id b' = frame_id s.
Proof.
  intros Hd Hs (P & k' & d' & Hd' & Hb) Hid.
  rewrite (frame_segments_cut mss datas) in Hs by done. apply elem_of_lookup_imap in Hs as (i & c & -> & Hi).
  assert (k' = k) as -> by (destruct Hb as (E & _ & _); rewrite E in Hid; simpl in Hid; lia).
  simplify_eq. destruct (builder_put P k (cut d) b i c now Hb) as (b' & Hp & Hb');
    [by eapply cut_length|done|].
  exists b'. split; [done|]. split; [by exists (nth_segment k (cut d) i c :: P), k, d|].
  by destruct Hb' as (-> & _ & _).
Qed.

Lemma fresh_ok s k d :
  datas !! k = Some d → s ∈ frame_segments mss k d →
  builder_ok (fb_empty (frame_id s) (seq_len s)).
Proof.
  intros Hd Hs. rewrite (frame_segments_cut mss datas) in Hs by done.
  apply elem_of_lookup_imap in Hs as (i & c & -> & Hi). exists [], k, d. split; [done|].
  apply builder_empty. intros. apply not_elem_of_nil.
Qed.

Lemma keeps_push now s k d :
  datas !! k = Some d → s ∈ frame_segments mss k d → K (push_segment now s).
Proof.
  intros Hd Hs. unfold push_segment. apply keeps_get. intros r Hr.
  destruct (closed r); [apply keeps_throw|]. destruct (_ <? _); [apply keeps_throw|].
  apply keeps_bind.
  2:{ intros [|]; [|apply keeps_ret]. apply keeps_get. intros. apply keeps_cascade. }
  destruct (sequences r !! frame_id s) as [b|] eqn:Hb.
  - destruct (in_builders _ Hr _ _ Hb) as [Hid Hok].
    destruct (put_ok b now s k d Hd Hs Hok Hid) as (b' & -> & Hok' & Hid').
    apply keeps_lift_bind; [done|]. intros [b0 n] [= <- <-].
    apply keeps_bind; [apply keeps_modify; intros r0; rewrite <-Hid'; by apply intact_insert|].
    intros _. destruct (fb_remaining b' =? 0) eqn:Hc; [|apply keeps_ret].
    apply keeps_bind; [apply keeps_compare_exchange|]. intros [|]; [|apply keeps_ret].
    apply keeps_bind; [apply keeps_modify; intros r0 ?; by apply intact_delete|].
    intros _. by apply keeps_emit_completed.
  - destruct (put_ok (fb_empty (frame_id s) (seq_len s)) now s k d Hd Hs) as (b' & Hp & Hok' & Hid');
      [by eapply fresh_ok|done|].
    unfold fb_new. rewrite Hp. apply keeps_lift_bind; [done|]. intros b0 [= <-].
    assert (K (modify (λ r, set_highest (Z.max (highest_buffered_frame r) (frame_id s))
      (set_sequences (<[frame_id s := b']> (sequences r)) r));; mret false)) as Hins.
    { apply keeps_bind; [|intros; apply keeps_ret]. apply keeps_modify. intros r0 Hr0.
      rewrite <-Hid'. destruct (intact_insert r0 b' Hok' Hr0) as [? ?]. by split. }
    destruct (fb_is_complete b') eqn:Hc; [|by apply keeps_ret_bind].
    apply keeps_bind; [apply keeps_compare_exchange|]. intros [|]; [|done].
    by apply keeps_emit_completed.
Qed.
End Integrity.

(** ** What a step does to the reassembler *)
Section Reassembler.
Context (C : Z) `{FloatPow} (heap_order : list FrameInfo → list FrameInfo).

Section Frozen.
Context (r : FrameReassembler).
Local Abbreviation K := (keeps false (λ s, frame_reassembler s = r)).

Hint Resolve keeps_ret keeps_throw : core.

Lemma frozen_send_msg m : K (send_msg m).
Proof. intros s <-. unfold send_msg. by destruct (egress_open s). Qed.
Hint Resolve frozen_send_msg : core.

Lemma frozen_send_msgs ms : K (send_msgs ms).
Proof. induction ms; cbn [send_msgs]; keep. Qed.
Hint Resolve frozen_send_msgs : core.

Lemma frozen_retransmit_loop ids : K (retransmit_loop ids).
Proof. induction ids; cbn [retransmit_loop]; keep. Qed.

Lemma frozen_acknowledged_loop acked : K (acknowledged_loop acked).
Proof. induction acked; cbn [acknowledged_loop]; keep. Qed.

Lemma frozen_collect now sample infos acc : K (collect_retries now sample infos acc).
Proof. revert acc. induction infos; intros acc; cbn [collect_retries]; keep. Qed.

Lemma frozen_request now sample : K (request_missing_segments C heap_order now sample).
Proof. unfold request_missing_segments. keep. apply frozen_collect. Qed.

Lemma frozen_acknowledge_loop fuel len : K (acknowledge_loop C fuel len).
Proof. revert len. induction fuel; intros len; cbn [acknowledge_loop]; keep. Qed.

Lemma frozen_unacknowledged now sample : K (retransmit_unacknowledged_frames now sample).
Proof. unfold retransmit_unacknowledged_frames. keep. Qed.

Lemma frozen_send_segments segs : K (send_segments segs).
Proof. induction segs; cbn [send_segments]; keep. Qed.

Lemma frozen_write now data : K (send_frame_data C now data).
Proof. unfold send_frame_data. keep. apply frozen_send_segments. Qed.

Lemma frozen_read : K frame_egress_next.
Proof. unfold frame_egress_next, frame_egress_item. keep. Qed.

End Frozen.

Lemma frozen {A} (m : SM SessionState NetworkTypeError A) s :
  (∀ r, keeps false (λ s, frame_reassembler s = r) m) →
  frame_reassembler (fst (m s)) = frame_reassembler s.
Proof. intros Hm. by apply (Hm (frame_reassembler s)). Qed.

(** The reassembler after a turn: untouched, or evicted. *)
Lemma turn_reassembler now wall sample rdy s :
  let s' := fst (state_loop_turn C heap_order now wall sample rdy s) in
  frame_reassembler s' = frame_reassembler s ∨
  ready_evict rdy = true ∧ frame_reassembler s' = fst (evict wall (frame_reassembler s)).
Proof.
  cbv zeta. unfold state_loop_turn. destruct (negb _); [by left|].
  repeat match goal with
  | |- context [if ?b then (?m;; mret tt) s else _] => destruct b
  end.
  - left. apply frozen. intros r. apply keeps_bind; [apply frozen_request|intros; apply keeps_ret].
  - left. apply frozen. intros r. apply keeps_bind; [apply frozen_unacknowledged|intros; apply keeps_ret].
  - left. apply frozen. intros r. apply keeps_bind; [|intros; apply keeps_ret].
    unfold acknowledge_segments. keep. apply frozen_acknowledge_loop.
  - destruct (ready_evict rdy); [right|by left]. split; [done|]. by destruct (evict _ _).
Qed.

Lemma step_reassembler e s :
  let r := frame_reassembler s in
  let r' := frame_reassembler (fst (step C heap_order e s)) in
  match e with
  | EvReceive _ wall (MSegment seg) => r' = fst (push_segment wall seg r)
  | EvTurn _ wall _ rdy => r' = r ∨ ready_evict rdy = true ∧ r' = fst (evict wall r)
  | EvSinkClose => r' = set_closed true r
  | _ => r' = r
  end.
Proof.
  destruct e as [now wall [seg|q|f]|now data| |now wall sample rdy| |]; cbn [step start_send]; cbv zeta.
  - unfold consume_segment. by destruct (push_segment _ _ _) as [r [| |]].
  - apply frozen. intros r. apply frozen_retransmit_loop.
  - apply frozen. intros r. apply frozen_acknowledged_loop.
  - apply frozen. intros r. apply frozen_write.
  - apply frozen. intros r. apply keeps_bind; [apply frozen_read|intros; apply keeps_ret].
  - apply turn_reassembler.
  - done.
  - done.
Qed.
End Reassembler.

(** ** Two endpoints

    [linked allowed ca cb a b w arr]: [a] and [b] are reached from two fresh
    endpoints by any interleaving of steps in which an endpoint receives only
    messages the other one has sent, each any number of times and in any
    order.  The steps of [b] are restricted by [allowed]; [w] lists what [a]'s
    application wrote, [arr] the segments that arrived at [b]. *)
Section World.
Context (C : Z) `{FloatPow} (heap_order : list FrameInfo → list FrameInfo).

Definition from_peer (peer : SessionState) (e : event) : Prop :=
  match e with EvReceive _ _ m => m ∈ egress peer | _ => True end.

Definition written (e : event) (w : list bytes) : list bytes :=
  match e with
  | EvWrite _ data => if decide (writable C data) then w ++ [data] else w
  | _ => w
  end.

Definition arrived (e : event) (arr : list Segment) : list Segment :=
  match e with EvReceive _ _ (MSegment seg) => seg :: arr | _ => arr end.

Inductive linked (allowed : event → Prop) (ca cb : SessionConfig) :
    SessionState → SessionState → list bytes → list Segment → Prop :=
| linked_new a b :
    session_new C ca = Ok a → session_new C cb = Ok b → linked allowed ca cb a b [] []
| linked_left a b w arr e a' o :
    linked allowed ca cb a b w arr → from_peer b e →
    step C heap_order e a = (a', o) → o ≠ Panic →
    linked allowed ca cb a' b (written e w) arr
| linked_right a b w arr e b' o :
    linked allowed ca cb a b w arr → from_peer a e → allowed e →
    step C heap_order e b = (b', o) → o ≠ Panic →
    linked allowed ca cb a b' w (arrived e arr).

(** No evictions, and the incoming half stays open. *)
Definition keeps_frames (e : event) : Prop :=
  match e with
  | EvTurn _ _ _ rdy => ready_evict rdy = false
  | EvSinkClose => False
  | _ => True
  end.

Definition sent_seg (w : list bytes) (seg : Segment) : Prop :=
  ∃ k d, w !! k = Some d ∧ seg ∈ frame_segments (PAYLOAD_CAPACITY C) k d.

Lemma sent_seg_mono w w' seg : w `prefix_of` w' → sent_seg w seg → sent_seg w' seg.
Proof. intros Hp (k & d & Hk & Hs). exists k, d. split; [by eapply prefix_lookup_Some|done]. Qed.

Lemma capacity_pos : 10 < C → 0 < PAYLOAD_CAPACITY C.
Proof. unfold PAYLOAD_CAPACITY, SEGMENT_OVERHEAD, HEADER_SIZE, Segment_HEADER_SIZE. lia. Qed.

Lemma sent_seg_fits w seg : 10 < C → sent_seg w seg → seg_fits C seg.
Proof.
  intros HC%capacity_pos (k & d & _ & Hs). unfold frame_segments in Hs.
  destruct (segment _ _ _) as [segs|e|] eqn:E; [|by apply elem_of_nil in Hs..].
  apply segment_seg_fits in E; [|lia]. by apply (proj1 (Forall_forall _ _) E).
Qed.

Lemma writable_sendable w :
  10 < C → Forall (writable C) w → Z.of_nat (length w) < u_max 32 →
  sendable (PAYLOAD_CAPACITY C) w.
Proof.
  intros HC%capacity_pos Hw Hl. split; [done|]. split; [done|]. intros d Hd.
  apply (proj1 (Forall_forall _ _) Hw) in Hd as [H1 H2].
  unfold MAX_WRITE_SIZE, MAX_SEGMENTS_PER_FRAME, MAX_MISSING_SEGMENTS_PER_FRAME in H2.
  split; [by intros ->|lia].
Qed.

(** What is known of the writing side. *)
Definition sender_inv (c : SessionConfig) (w : list bytes) (s : SessionState) : Prop :=
  Forall (writable C) w ∧
  (Z.of_nat (length w) < u_max 32 →
   endpoint_inv C c (sent_seg w) (Z.of_nat (length w) + 1) s).

Lemma written_inv c w s now data :
  10 < C → 0 ≤ max_buffered_segments c → writable C data → sender_inv c w s →
  sender_inv c (w ++ [data]) (fst (send_frame_data C now data s)).
Proof.
  intros HC Hmax Hd [Hw Hinv]. split; [apply Forall_app; auto|].
  rewrite length_app. simpl. intros Hl.
  replace (Z.of_nat (length w + 1) + 1) with (wrap 32 (Z.of_nat (length w) + 1 + 1))
    by (rewrite wrap_small; [lia|unfold in_u, u_max in *; lia]).
  apply write_inv; try done; [lia|intros; by eapply sent_seg_fits| |].
  - intros segs Hs. apply Forall_forall. intros seg Hin. exists (length w), data.
    split; [by rewrite list_lookup_middle|]. unfold frame_segments. by rewrite Hs.
  - eapply endpoint_inv_mono; [|apply Hinv; lia].
    intros seg. apply sent_seg_mono. by apply prefix_app_r.
Qed.

Lemma step_sender c w s e :
  10 < C → 0 ≤ max_buffered_segments c → sender_inv c w s →
  sender_inv c (written e w) (fst (step C heap_order e s)).
Proof.
  intros HC Hmax Hinv.
  assert (match e with EvWrite _ _ => False | _ => True end ∨ ∃ now data, e = EvWrite now data)
    as [He|(now & data & ->)] by (destruct e; eauto).
  { assert (written e w = w) as -> by (by destruct e). split; [apply Hinv|]. intros Hl.
    eapply (keeps_apply false); [|by apply Hinv].
    apply keeps_step; try done; [lia|intros; by eapply sent_seg_fits]. }
  cbn [step written]. destruct (decide (writable C data)) as [Hw|Hw]; [by apply written_inv|].
  by rewrite send_frame_data_unwritable.
Qed.

Lemma linked_sender allowed ca cb a b w arr :
  10 < C → 0 ≤ max_buffered_segments ca → linked allowed ca cb a b w arr → sender_inv ca w a.
Proof.
  intros HC Hmax. induction 1 as [a b Ha _|a b w arr e a' o _ IH _ Hs _|]; [| |done].
  - split; [done|]. intros _. apply inv_new; try done; [lia|intros; by eapply sent_seg_fits].
  - assert (a' = fst (step C heap_order e a)) as -> by (by rewrite Hs). by apply step_sender.
Qed.

Lemma sender_egress c w s seg :
  sender_inv c w s → Z.of_nat (length w) < u_max 32 → MSegment seg ∈ egress s → sent_seg w seg.
Proof.
  intros [_ Hinv] Hl Hin. destruct (Hinv Hl) as [_ _ _ _ He _].
  by apply (proj1 (Forall_forall _ _) He) in Hin as [_ ?].
Qed.

(** The receiving side, for every list of frames the sender may still reach. *)
Lemma linked_intact allowed ca cb a b w arr w' :
  10 < C → 0 ≤ max_buffered_segments ca → linked allowed ca cb a b w arr →
  w `prefix_of` w' → sendable (PAYLOAD_CAPACITY C) w' →
  intact (PAYLOAD_CAPACITY C) w' (frame_reassembler b).
Proof.
  intros HC Hmax Hl Hp Hsend. induction Hl as [a b _ Hb|a b w arr e a' o Hl IH _ _ _
    |a b w arr e b' o Hl IH Hpeer _ Hs _].
  - unfold session_new in Hb. destruct (C <? _); simplify_eq/=. by apply intact_new.
  - apply IH. etrans; [|exact Hp]. destruct e; try done. simpl. destruct (decide _); [|done].
    by apply prefix_app_r.
  - assert (b' = fst (step C heap_order e b)) as -> by (by rewrite Hs).
    specialize (IH Hp). pose proof (step_reassembler C heap_order e b) as Hr. cbv zeta in Hr.
    destruct e as [now wall [seg|q|f]|now data| |now wall sample rdy| |]; try by rewrite Hr.
    + rewrite Hr. simpl in Hpeer.
      apply (sender_egress ca w) in Hpeer as (k & d & Hk & Hseg); cycle 1.
      { by eapply linked_sender. }
      { destruct Hsend as (_ & ? & _). apply prefix_length in Hp. lia. }
      eapply keeps_apply; [|exact IH]. eapply keeps_push; [done|by eapply prefix_lookup_Some|done].
    + destruct Hr as [->|[_ ->]]; [done|]. eapply keeps_apply; [|exact IH]. by apply keeps_evict.
    + rewrite Hr. by destruct IH.
Qed.

Lemma linked_ordered ca cb a b w arr w' :
  10 < C → 0 ≤ max_buffered_segments ca → linked keeps_frames ca cb a b w arr →
  w `prefix_of` w' → sendable (PAYLOAD_CAPACITY C) w' →
  inv (PAYLOAD_CAPACITY C) w' arr (frame_reassembler b).
Proof.
  intros HC Hmax Hl Hp Hsend. induction Hl as [a b _ Hb|a b w arr e a' o Hl IH _ _ _
    |a b w arr e b' o Hl IH Hpeer Hok Hs _].
  - unfold session_new in Hb. destruct (C <? _); simplify_eq/=.
    exists 0%nat. split; [apply pre_inv_fresh|by intros b].
  - apply IH. etrans; [|exact Hp]. destruct e; try done. simpl. destruct (decide _); [|done].
    by apply prefix_app_r.
  - assert (b' = fst (step C heap_order e b)) as -> by (by rewrite Hs).
    specialize (IH Hp). pose proof (step_reassembler C heap_order e b) as Hr. cbv zeta in Hr.
    destruct e as [now wall [seg|q|f]|now data| |now wall sample rdy| |]; try by rewrite Hr.
    + rewrite Hr. simpl in Hpeer.
      apply (sender_egress ca w) in Hpeer as (k & d & Hk & Hseg); cycle 1.
      { by eapply linked_sender. }
      { destruct Hsend as (_ & ? & _). apply prefix_length in Hp. lia. }
      pose proof (prefix_lookup_Some _ _ _ _ Hk Hp) as Hk'.
      rewrite (frame_segments_cut _ w') in Hseg by done.
      apply elem_of_lookup_imap in Hseg as (i & c & -> & Hi). by apply push_inv.
    + simpl in Hok. destruct Hr as [->|[Hev _]]; [done|congruence].
Qed.

Lemma retransmit_no_panic ids : keeps true (λ _, True) (retransmit_loop ids).
Proof.
  induction ids as [|id ids IH]; cbn [retransmit_loop]; keep; try apply keeps_ret; try done.
  intros st _. unfold send_msg. by destruct (egress_open st).
Qed.

Lemma acknowledged_no_panic acked : keeps true (λ _, True) (acknowledged_loop acked).
Proof. induction acked; cbn [acknowledged_loop]; keep; try apply keeps_ret; done. Qed.

(** C33. End-to-end integrity: whatever two linked endpoints do, including
    losses, repetitions and reorderings in between, retransmissions on both
    sides, evictions and closes, every frame the receiving side hands to its
    application is a frame the sending application wrote, under its number and
    with its bytes; and no message the sender ever sent can abort the
    receiver. *)
Theorem session_integrity ca cb a b w arr :
  10 < C → 0 ≤ max_buffered_segments ca → Z.of_nat (length w) < u_max 32 →
  linked (λ _, True) ca cb a b w arr →
  (∀ f, Ok f ∈ reassembled (frame_reassembler b) → f ∈ sent_frames w) ∧
  (∀ now wall m, m ∈ egress a → snd (step C heap_order (EvReceive now wall m) b) ≠ Panic).
Proof.
  intros HC Hmax Hl Hlink. pose proof (linked_sender _ _ _ _ _ _ _ HC Hmax Hlink) as Hsnd.
  assert (sendable (PAYLOAD_CAPACITY C) w) as Hsend by (apply writable_sendable; [done|apply Hsnd|done]).
  pose proof (linked_intact _ _ _ _ _ _ _ w HC Hmax Hlink (reflexivity w) Hsend) as Hin.
  split; [apply Hin|]. intros now wall [seg|q|f] Hm; cbn [step start_send].
  - apply (sender_egress ca w) in Hm as (k & d & Hk & Hs); [|done..].
    destruct (keeps_push (PAYLOAD_CAPACITY C) w Hsend wall seg k d Hk Hs (frame_reassembler b) Hin)
      as [_ Hnp]. unfold consume_segment. specialize (Hnp eq_refl).
    by destruct (push_segment _ _ _) as [r [| |]].
  - by apply (retransmit_no_panic (sr_into_iter q) b).
  - by apply (acknowledged_no_panic f b).
Qed.

(** C32. End-to-end delivery: as long as the receiver does not evict or close,
    it has handed out exactly the first [m] frames the other side's
    application wrote, in order and unchanged, where all segments of the first
    [m] frames arrived and some segment of frame [m + 1], if it was written,
    did not: so once every segment arrived, every frame is delivered. *)
Theorem session_delivers ca cb a b w arr :
  10 < C → 0 ≤ max_buffered_segments ca → Z.of_nat (length w) < u_max 32 →
  linked keeps_frames ca cb a b w arr →
  ∃ m, (m ≤ length w)%nat ∧
    reassembled (frame_reassembler b) = Ok <$> take m (sent_frames w) ∧
    (∀ k d seg, (k < m)%nat → w !! k = Some d →
       seg ∈ frame_segments (PAYLOAD_CAPACITY C) k d → seg ∈ arr) ∧
    (∀ d, w !! m = Some d →
       ∃ seg, seg ∈ frame_segments (PAYLOAD_CAPACITY C) m d ∧ seg ∉ arr).
Proof.
  intros HC Hmax Hl Hlink. pose proof (linked_sender _ _ _ _ _ _ _ HC Hmax Hlink) as Hsnd.
  assert (sendable (PAYLOAD_CAPACITY C) w) as Hsend by (apply writable_sendable; [done|apply Hsnd|done]).
  destruct (linked_ordered _ _ _ _ _ _ w HC Hmax Hlink (reflexivity w) Hsend) as (m & Hpre & Hst).
  exists m. split; [apply (pi_m _ _ _ _ _ Hpre)|]. split; [apply (pi_out _ _ _ _ _ Hpre)|].
  split; [|by intros d Hd; eapply stuck_missing].
  intros k d seg Hk Hd Hs. rewrite (frame_segments_cut _ w) in Hs by done.
  apply elem_of_lookup_imap in Hs as (i & c & -> & Hi). eapply (pi_done _ _ _ _ _ Hpre); eauto.
Qed.
End World.

Lemma linked_left' C `{FloatPow} ho allowed ca cb a b w arr e :
  linked C ho allowed ca cb a b w arr → from_peer b e → snd (step C ho e a) ≠ Panic →
  linked C ho allowed ca cb (fst (step C ho e a)) b (written C e w) arr.
Proof. intros Hl Hp Hn. eapply linked_left; [done..|apply surjective_pairing|done]. Qed.

Lemma linked_right' C `{FloatPow} ho allowed ca cb a b w arr e :
  linked C ho allowed ca cb a b w arr → from_peer a e → allowed e → snd (step C ho e b) ≠ Panic →
  linked C ho allowed ca cb a (fst (step C ho e b)) w (arrived e arr).
Proof. intros Hl Hp Ha Hn. eapply linked_right; [done..|apply surjective_pairing|done]. Qed.

(** A frame of three segments whose last and first segments arrive, in this
    order, before the receiver asks for the missing one and gets it. *)
Definition demo_step : event → SessionState → SessionState :=
  λ e s, fst (@step 12 pow_two (λ l, l) e s).
Definition demo_new : SessionState :=
  match session_new 12 small_config with Ok s => s | _ => small_state end.
Definition demo_seg (i : Z) (d : bytes) : event :=
  EvReceive 9 9 (MSegment (mkSegment 1 i 3 d)).
Definition demo_request : event := EvReceive 12 12 (MRequest [(1, 2)]).
Definition demo_turn : event :=
  EvTurn 2000000000 11 (λ _, f64_one) (mkReady true false false false).

Definition demo_a1 : SessionState := demo_step (EvWrite 5 [1; 2; 3; 4; 5]) demo_new.
Definition demo_b1 : SessionState :=
  demo_step demo_turn (demo_step (demo_seg 0 [1; 2]) (demo_step (demo_seg 2 [5]) demo_new)).
Definition demo_a2 : SessionState := demo_step demo_request demo_a1.
Definition demo_b2 : SessionState := demo_step (demo_seg 1 [3; 4]) demo_b1.
Definition demo_arrived : list Segment :=
  [mkSegment 1 1 3 [3; 4]; mkSegment 1 0 3 [1; 2]; mkSegment 1 2 3 [5]].

Lemma demo_linked :
  @linked 12 pow_two (λ l, l) keeps_frames small_config small_config
    demo_a2 demo_b2 [[1; 2; 3; 4; 5]] demo_arrived.
Proof.
  assert (∀ (m : SessionMessage) l i, l !! i = Some m → m ∈ l) as Hin
    by (intros m l i Hi; by apply list_elem_of_lookup_2 in Hi).
  assert (session_new 12 small_config = Ok demo_new) as Hnew by (vm_compute; reflexivity).
  pose proof (@linked_new 12 pow_two (λ l, l) keeps_frames small_config small_config _ _ Hnew Hnew) as L.
  apply (linked_left' 12 _ _ _ _ _ _ _ _ (EvWrite 5 [1; 2; 3; 4; 5])) in L;
    [|exact I|vm_compute; discriminate].
  apply (linked_right' 12 _ _ _ _ _ _ _ _ (demo_seg 2 [5])) in L;
    [|apply (Hin _ _ 2%nat); vm_compute; reflexivity|exact I|vm_compute; discriminate].
  apply (linked_right' 12 _ _ _ _ _ _ _ _ (demo_seg 0 [1; 2])) in L;
    [|apply (Hin _ _ 0%nat); vm_compute; reflexivity|exact I|vm_compute; discriminate].
  apply (linked_right' 12 _ _ _ _ _ _ _ _ demo_turn) in L;
    [|exact I|reflexivity|vm_compute; discriminate].
  apply (linked_left' 12 _ _ _ _ _ _ _ _ demo_request) in L;
    [|apply (Hin _ _ 0%nat); vm_compute; reflexivity|vm_compute; discriminate].
  apply (linked_right' 12 _ _ _ _ _ _ _ _ (demo_seg 1 [3; 4])) in L;
    [|apply (Hin _ _ 1%nat); vm_compute; reflexivity|exact I|vm_compute; discriminate].
  exact L.
Qed.

Lemma session_delivers_witness :
  reassembled (frame_reassembler demo_b2) = [Ok (mkFrame 1 [1; 2; 3; 4; 5])] ∧
  ∃ m, (m ≤ 1)%nat ∧ reassembled (frame_reassembler demo_b2) =
    Ok <$> take m (sent_frames [[1; 2; 3; 4; 5]]).
Proof.
  split; [vm_compute; reflexivity|].
  destruct (@session_delivers 12 pow_two (λ l, l) small_config small_config demo_a2 demo_b2
    [[1; 2; 3; 4; 5]] demo_arrived) as (m & Hm & Hr & _);
    [reflexivity|vm_compute; discriminate|vm_compute; reflexivity|exact demo_linked|].
  exists m. exact (conj Hm Hr).
Defined.

Lemma linked_weaken C `{FloatPow} ho (p q : event → Prop) ca cb a b w arr :
  (∀ e, p e → q e) → linked C ho p ca cb a b w arr → linked C ho q ca cb a b w arr.
Proof. intros Hpq. induction 1; eauto using linked_new, linked_left, linked_right. Qed.

Lemma session_integrity_witness :
  Ok (mkFrame 1 [1; 2; 3; 4; 5]) ∈ reassembled (frame_reassembler demo_b2) ∧
  mkFrame 1 [1; 2; 3; 4; 5] ∈ sent_frames [[1; 2; 3; 4; 5]].
Proof.
  assert (reassembled (frame_reassembler demo_b2) = [Ok (mkFrame 1 [1; 2; 3; 4; 5])]) as E
    by (vm_compute; reflexivity).
  rewrite E. split; [left|].
  destruct (@session_integrity 12 pow_two (λ l, l) small_config small_config demo_a2 demo_b2
    [[1; 2; 3; 4; 5]] demo_arrived) as [H _];
    [reflexivity|vm_compute; discriminate|vm_compute; reflexivity| |].
  - eapply linked_weaken; [|exact demo_linked]. done.
  - apply H. rewrite E. left.
Defined.
