(* ===== verification/Crypto.v ===== *)
(** * Keys, signatures, challenges and the VRF

    Models [crypto/types/src]: [types.rs] (curve points, half-keys, challenges,
    responses, hashes, ECDSA signatures with an embedded recovery bit),
    [keypairs.rs] (the chain key pair), [utils.rs] and [vrf.rs].  The curve,
    the hash functions and the raw ECDSA of the [k256] and [sha3] crates are
    the operations of the class [Secp256k1]; what the code relies on is the
    class [Secp256k1Laws], and [Z3_curve] shows that the laws can hold. *)
From S2P Require Import Prelude Primitives.
From Stdlib Require Strings.String Strings.Ascii.

(** [CryptoError] of [errors.rs]. *)
Inductive CryptoError :=
| InvalidParameterSize (name : string) (expected : Z)
| InvalidInputValue (name : string)
| InvalidSecretScalar
| InvalidPublicKey
| TagMismatch
| EllipticCurveError
| CalculationError
| SignatureVerification
| SealingError
| InvalidChallenge
| InvalidVrfValues
| Other (e : GeneralError).

Abbreviation CR := (outcome CryptoError).

(** ** The third-party operations

    Scalars are integers in [\[0, group_order)]. *)
Class Secp256k1 := {
  point : Type;
  point_eq_dec :: EqDecision point;
  group_order : Z;
  p_identity : point;
  p_generator : point;
  p_add : point → point → point;
  p_sub : point → point → point;
  p_mul : point → Z → point;
  (** [Scalar::from_repr], [Scalar::to_bytes] *)
  scalar_from_repr : bytes → option Z;
  scalar_to_bytes : Z → bytes;
  (** [to_encoded_point(compress)]; parsing; the tag test and [compress] *)
  sec1_encode : bool → point → bytes;
  sec1_decode : bytes → option point;
  sec1_is_compressed : bytes → bool;
  sec1_compress : bytes → bytes;
  (** [elliptic_curve::PublicKey::from_sec1_bytes] *)
  pubkey_from_sec1 : bytes → option point;
  keccak256 : bytes → bytes;
  (** [hash_to_scalar] over SHA3-256 and Keccak, [hash_from_bytes]: messages
      and domain separation tags *)
  hash_to_scalar_sha3 : list bytes → list bytes → option Z;
  hash_to_scalar_keccak : list bytes → list bytes → option Z;
  hash_from_bytes : list bytes → list bytes → option point;
  (** ECDSA: [from_scalars] accepts (r, s); recovery, signing (64 bytes and
      the recovery id) and verification of a prehash *)
  ecdsa_from_scalars : bytes → bytes → bool;
  ecdsa_recover_prehash : bytes → bytes * bytes → Z → option point;
  ecdsa_sign_prehash : Z → bytes → option (bytes * Z);
  ecdsa_verify_prehash : point → bytes → bytes → bool
}.

Section Crypto.
Context `{!Secp256k1}.

(** ** Hashes *)
Definition Hash : Type := bytes.
Definition Hash_SIZE : nat := 32.
Definition Hash_create (inputs : list bytes) : Hash := keccak256 (concat inputs).
Definition Hash_hash (h : Hash) : Hash := Hash_create [h].
Definition Hash_try_from : bytes → outcome GeneralError Hash := array_try_from Hash_SIZE "Hash".

(** ** Curve points: the affine point, its compressed encoding and a lazily
    filled cache of the uncompressed one *)
Record CurvePoint := mkCurvePoint {
  affine : point;
  compressed : bytes;
  uncompressed : option bytes
}.

Definition SIZE_COMPRESSED : nat := 33.
Definition SIZE_UNCOMPRESSED : nat := 65.
Definition SIZE_UNCOMPRESSED_PLAIN : nat := 64.

Definition CurvePoint_from_affine (p : point) : CurvePoint :=
  mkCurvePoint p (sec1_encode true p) None.
Definition as_compressed (cp : CurvePoint) : bytes := compressed cp.
Definition as_uncompressed (cp : CurvePoint) : bytes :=
  match uncompressed cp with Some b => b | None => sec1_encode false (affine cp) end.

(** The hash has 32 bytes, so [Address::new] gets exactly 20. *)
Definition CurvePoint_to_address (cp : CurvePoint) : Address :=
  drop 12 (Hash_create [drop 1 (as_uncompressed cp)]).

Definition CurvePoint_eqb (a b : CurvePoint) : bool := bool_decide (affine a = affine b).

Definition CurvePoint_try_from (value : bytes) : outcome GeneralError CurvePoint :=
  p ← ok_or (sec1_decode value) (ParseError "invalid secp256k1 encoded point");
  Ok (mkCurvePoint p
       (if sec1_is_compressed value then value else sec1_compress value)
       (if negb (sec1_is_compressed value) then Some value else None)).

Definition CurvePoint_combine (summands : list CurvePoint) : CurvePoint :=
  CurvePoint_from_affine (foldl p_add p_identity (map affine summands)).

(** ** Scalars and keys *)

(** [NonZeroScalar::try_from]. *)
Definition nonzero_scalar (b : bytes) : option Z :=
  s ← scalar_from_repr b; if s =? 0 then None else Some s.

Definition k256_scalar_from_bytes (b : bytes) : CR Z :=
  if bool_decide (length b = 32%nat) then ok_or (scalar_from_repr b) (InvalidInputValue "bytes")
  else Err (InvalidInputValue "bytes").

Definition SecretKey_LENGTH : nat := 32.

Definition HalfKey : Type := bytes.
Definition HalfKey_try_from : bytes → outcome GeneralError HalfKey := array_try_from 32 "HalfKey".

Definition string_bytes (s : string) : bytes :=
  map (λ a, Z.of_nat (Strings.Ascii.nat_of_ascii a)) (Strings.String.list_ascii_of_string s).

Definition sample_secp256k1_field_element (secret : bytes) (tag : string) : CR HalfKey :=
  if bool_decide (SecretKey_LENGTH ≤ length secret)%nat then
    scalar ← ok_or (hash_to_scalar_sha3 [secret]
      [string_bytes "secp256k1_XMD:SHA3-256_SSWU_RO_"; string_bytes tag]) CalculationError;
    map_err Other (HalfKey_try_from (scalar_to_bytes scalar))
  else Err (InvalidParameterSize "secret" (Z.of_nat SecretKey_LENGTH)).

(** A public key is a curve point that is not the identity. *)
Definition PublicKey : Type := CurvePoint.

Definition PublicKey_try_from_affine (value : point) : CR PublicKey :=
  if bool_decide (value = p_identity) then Err InvalidPublicKey
  else Ok (CurvePoint_from_affine value).
Definition PublicKey_try_from_curve_point (value : CurvePoint) : CR PublicKey :=
  if bool_decide (affine value = p_identity) then Err InvalidPublicKey else Ok value.

Definition PublicKey_from_privkey (private_key : bytes) : CR PublicKey :=
  secret_scalar ← ok_or (nonzero_scalar private_key) (Other (ParseError "PublicKey"));
  Ok (CurvePoint_from_affine (p_mul p_generator secret_scalar)).

Definition CurvePoint_from_exponent (exponent : bytes) : CR CurvePoint :=
  PublicKey_from_privkey exponent.

Definition PublicKey_to_bytes (compr : bool) (pk : PublicKey) : bytes :=
  if compr then as_compressed pk else as_uncompressed pk.
Definition PublicKey_to_address (pk : PublicKey) : Address :=
  drop 12 (Hash_create [drop 1 (PublicKey_to_bytes false pk)]).

Definition PublicKey_try_from (value : bytes) : outcome GeneralError PublicKey :=
  let err := ParseError "invalid secp256k1 point" in
  if bool_decide (length value = SIZE_UNCOMPRESSED) then
    CurvePoint_from_affine <$> ok_or (pubkey_from_sec1 value) err
  else if bool_decide (length value = SIZE_UNCOMPRESSED_PLAIN) then
    CurvePoint_from_affine <$> ok_or (pubkey_from_sec1 (4 :: value)) err
  else if bool_decide (length value = SIZE_COMPRESSED) then
    CurvePoint_from_affine <$> ok_or (pubkey_from_sec1 value) err
  else Err err.

Definition PublicKey_combine (summands : list PublicKey) : CR PublicKey :=
  unwrap (PublicKey_try_from_curve_point (CurvePoint_combine summands)).

Definition PublicKey_tweak_add (key : PublicKey) (tweak : bytes) : CR PublicKey :=
  scalar ← unwrap_option (nonzero_scalar tweak);
  unwrap (PublicKey_try_from_affine (p_add (affine key) (p_mul p_generator scalar))).

(** The chain key pair: secret bytes and public key. *)
Record ChainKeypair := mkChainKeypair { ck_secret : bytes; ck_public : PublicKey }.

Definition ChainKeypair_from_secret (b : bytes) : CR ChainKeypair :=
  pk ← PublicKey_from_privkey b;
  secret ← (if bool_decide (length b = SecretKey_LENGTH) then Ok b
            else Err (InvalidInputValue "bytes"));
  Ok (mkChainKeypair secret pk).

(** [From<&ChainKeypair> for Scalar]: unwraps. *)
Definition ChainKeypair_scalar (kp : ChainKeypair) : CR Z :=
  unwrap (k256_scalar_from_bytes (ck_secret kp)).

(** ** Half-keys, challenges and responses *)
Definition HalfKeyChallenge : Type := bytes.
Definition HalfKeyChallenge_new {E} (b : bytes) : outcome E HalfKeyChallenge :=
  copy_exact SIZE_COMPRESSED b.
Definition HalfKeyChallenge_try_from : bytes → outcome GeneralError HalfKeyChallenge :=
  array_try_from SIZE_COMPRESSED "HalfKeyChallenge".
Definition HalfKeyChallenge_to_address (c : HalfKeyChallenge) : CR Address :=
  PublicKey_to_address <$> unwrap (PublicKey_try_from c).

Definition HalfKey_to_challenge (k : HalfKey) : CR HalfKeyChallenge :=
  cp ← unwrap (CurvePoint_from_exponent k);
  HalfKeyChallenge_new (as_compressed cp).

Definition Challenge : Type := CurvePoint.
Definition Challenge_to_ethereum_challenge (c : Challenge) : EthereumChallenge :=
  CurvePoint_to_address c.

Definition Challenge_from_hint_and_share (own_share hint : HalfKeyChallenge) : CR Challenge :=
  a ← map_err Other (PublicKey_try_from own_share);
  b ← map_err Other (PublicKey_try_from hint);
  PublicKey_combine [a; b].

Definition Challenge_from_own_share_and_half_key (own_share : HalfKeyChallenge) (half_key : HalfKey)
    : CR Challenge :=
  hint ← HalfKey_to_challenge half_key; Challenge_from_hint_and_share own_share hint.

Definition Response : Type := bytes.
Definition Response_try_from : bytes → outcome GeneralError Response := array_try_from 32 "Response".

Definition Response_to_challenge (r : Response) : CR Challenge :=
  unwrap (CurvePoint_from_exponent r).

Definition Response_from_half_keys (first second : HalfKey) : CR Response :=
  s1 ← ok_or (nonzero_scalar first) CalculationError;
  s2 ← ok_or (nonzero_scalar second) CalculationError;
  map_err Other (Response_try_from (scalar_to_bytes ((s1 + s2) `mod` group_order))).

(** ** Signatures: 64 bytes, the recovery bit in the top bit of the first byte
    of [s] *)
Definition Signature : Type := bytes.
Definition Signature_SIZE : nat := 64.
Definition Signature_try_from : bytes → outcome GeneralError Signature :=
  array_try_from Signature_SIZE "Signature".

Definition embed_recovery_bit (recovery : Z) (s : bytes) : Signature :=
  alter (λ b, Z.lor (Z.land b 0x7f) (wrap 8 (Z.shiftl recovery 7))) 32%nat s.

Definition raw_signature (s : bytes) : bytes * Z :=
  (alter (λ b, Z.land b 0x7f) 32%nat s,
   Z.b2z (negb (Z.land (nth 32 s 0) 0x80 =? 0))).

Definition Signature_new {E} (raw_bytes : bytes) (recovery : Z) : outcome E Signature :=
  if recovery <=? 1 then
    ret ← copy_exact Signature_SIZE raw_bytes; Ok (embed_recovery_bit recovery ret)
  else Panic.

(** [SigningKey::from_bytes] accepts the canonical nonzero scalars. *)
Definition Signature_sign {E} (data private_key : bytes)
    (signing_method : Z → bytes → option (bytes * Z)) : outcome E Signature :=
  key ← unwrap_option (nonzero_scalar private_key);
  '(sig, rec) ← unwrap_option (signing_method key data);
  Signature_new sig rec.

Definition sign_hash {E} (hash : bytes) (chain_keypair : ChainKeypair) : outcome E Signature :=
  Signature_sign hash (ck_secret chain_keypair) ecdsa_sign_prehash.

Definition from_raw_signature (msg r s : bytes) (v : Z)
    (recovery_method : bytes → bytes * bytes → Z → option point) : CR PublicKey :=
  if negb (v <? 4) then Err (Other (ParseError "Signature")) else
  if negb (ecdsa_from_scalars r s) then Err (Other (ParseError "Signature")) else
  recovered_key ← ok_or (recovery_method msg (r, s) v) CalculationError;
  PublicKey_try_from_affine recovered_key.

Definition from_signature_hash (hash : bytes) (signature : Signature) : CR PublicKey :=
  let '(raw, recovery) := raw_signature signature in
  from_raw_signature hash (take 32 raw) (drop 32 raw) recovery ecdsa_recover_prehash.

Definition Signature_verify_hash {E} (self : Signature) (hash : bytes) (public_key : PublicKey) : outcome E bool :=
  pub_key ← unwrap_option (pubkey_from_sec1 (PublicKey_to_bytes false public_key));
  let raw := fst (raw_signature self) in
  if ecdsa_from_scalars (take 32 raw) (drop 32 raw)
  then Ok (ecdsa_verify_prehash pub_key hash raw)
  else Ok false.

(** ** The verifiable random function *)
Record VrfParameters := mkVrf { V : CurvePoint; vrf_h : Z; vrf_s : Z }.

Definition VRF_PARAMETERS_SIZE : nat := SIZE_COMPRESSED + 32 + 32.

Definition VrfParameters_to_bytes (v : VrfParameters) : bytes :=
  as_compressed (V v) ++ scalar_to_bytes (vrf_h v) ++ scalar_to_bytes (vrf_s v).

Definition VrfParameters_try_from (value : bytes) : outcome GeneralError VrfParameters :=
  if bool_decide (length value = VRF_PARAMETERS_SIZE) then
    v ← CurvePoint_try_from (take 33 value);
    h ← map_err (λ _, ParseError "VrfParameters") (k256_scalar_from_bytes (take 32 (drop 33 value)));
    s ← map_err (λ _, ParseError "VrfParameters") (k256_scalar_from_bytes (take 32 (drop 65 value)));
    Ok (mkVrf v h s)
  else Err (ParseError "VrfParameters").

Definition get_encoded_payload (creator : Address) (msg dst : bytes) : CR point :=
  ok_or (hash_from_bytes [creator; msg] [dst]) CalculationError.

Definition VrfParameters_verify (v : VrfParameters) (creator : Address) (msg dst : bytes) : CR unit :=
  cap_B ← get_encoded_payload creator msg dst;
  let R_v := p_sub (p_mul cap_B (vrf_s v)) (p_mul (affine (V v)) (vrf_h v)) in
  h_check ← ok_or (hash_to_scalar_keccak
    [creator; drop 1 (as_uncompressed (V v)); drop 1 (sec1_encode false R_v); msg] [dst])
    CalculationError;
  if negb (h_check =? vrf_h v) then Err CalculationError else Ok tt.

Definition get_h_v_witness (v : VrfParameters) : bytes :=
  sec1_encode false (p_mul (affine (V v)) (vrf_h v)).
Definition get_s_b_witness (v : VrfParameters) (creator : Address) (msg dst : bytes) : CR bytes :=
  B ← get_encoded_payload creator msg dst; Ok (sec1_encode false (p_mul B (vrf_s v))).

(** [random] is the value of [random_bytes::<64>()]. *)
Definition derive_vrf_parameters (random msg : bytes) (chain_keypair : ChainKeypair) (dst : bytes)
    : CR VrfParameters :=
  let chain_addr := PublicKey_to_address (ck_public chain_keypair) in
  B ← ok_or (hash_from_bytes [chain_addr; msg] [dst]) EllipticCurveError;
  a ← ChainKeypair_scalar chain_keypair;
  if a =? 0 then Err InvalidSecretScalar else
  let cap_V := p_mul B a in
  r ← ok_or (hash_to_scalar_keccak
    [scalar_to_bytes a; drop 1 (sec1_encode false cap_V); random] [dst]) EllipticCurveError;
  let R_v := p_mul B r in
  h ← ok_or (hash_to_scalar_keccak
    [chain_addr; drop 1 (sec1_encode false cap_V); drop 1 (sec1_encode false R_v); msg] [dst])
    EllipticCurveError;
  let s := (r + h * a) `mod` group_order in
  Ok (mkVrf (CurvePoint_from_affine cap_V) h s).

End Crypto.

(** ** What the code relies on *)
Class Secp256k1Laws `{!Secp256k1} := {
  group_order_bound : 1 < group_order ≤ 2 ^ 256;
  p_add_0_l p : p_add p_identity p = p;
  p_add_comm p q : p_add p q = p_add q p;
  p_add_assoc p q r : p_add p (p_add q r) = p_add (p_add p q) r;
  p_sub_add p q : p_sub (p_add p q) q = p;
  p_mul_add p a b : p_mul p ((a + b) `mod` group_order) = p_add (p_mul p a) (p_mul p b);
  p_mul_mul p a b : p_mul p ((a * b) `mod` group_order) = p_mul (p_mul p a) b;
  p_mul_generator a : 0 < a < group_order → p_mul p_generator a ≠ p_identity;
  scalar_from_to a : 0 ≤ a < group_order → scalar_from_repr (scalar_to_bytes a) = Some a;
  scalar_from_repr_range b a : scalar_from_repr b = Some a → 0 ≤ a < group_order ∧ length b = 32%nat;
  scalar_to_bytes_wf a : array_wf 32 (scalar_to_bytes a);
  sec1_decode_encode c p : p ≠ p_identity → sec1_decode (sec1_encode c p) = Some p;
  sec1_is_compressed_encode c p : p ≠ p_identity → sec1_is_compressed (sec1_encode c p) = c;
  sec1_compress_encode p : p ≠ p_identity → sec1_compress (sec1_encode false p) = sec1_encode true p;
  sec1_encode_wf (c : bool) p : p ≠ p_identity →
    array_wf (if c then SIZE_COMPRESSED else SIZE_UNCOMPRESSED) (sec1_encode c p);
  pubkey_from_sec1_encode c p : p ≠ p_identity → pubkey_from_sec1 (sec1_encode c p) = Some p;
  keccak256_wf b : array_wf 32 (keccak256 b);
  hash_to_scalar_sha3_range m t s : hash_to_scalar_sha3 m t = Some s → 0 ≤ s < group_order;
  hash_to_scalar_keccak_range m t s : hash_to_scalar_keccak m t = Some s → 0 ≤ s < group_order;
  (** signing succeeds with a normalised [s], whose top bit is clear, and the
      signer can be recovered *)
  ecdsa_sign_recover sk h : 0 < sk < group_order → array_wf 32 h → ∃ r s v,
    ecdsa_sign_prehash sk h = Some (r ++ s, v) ∧ array_wf 32 r ∧ array_wf 32 s ∧
    nth 0 s 0 < 128 ∧ 0 ≤ v ≤ 1 ∧ ecdsa_from_scalars r s = true ∧
    ecdsa_recover_prehash h (r, s) v = Some (p_mul p_generator sk)
}.

(** ** A small instance: the group of three elements *)
Inductive Z3 := O0 | O1 | O2.
#[export] Instance Z3_eq_dec : EqDecision Z3.
Proof. solve_decision. Defined.

Definition Z3_to (p : Z3) : Z := match p with O0 => 0 | O1 => 1 | O2 => 2 end.
Definition Z3_of (a : Z) : Z3 :=
  if a `mod` 3 =? 0 then O0 else if a `mod` 3 =? 1 then O1 else O2.

Definition Z3_scalar_to_bytes (a : Z) : bytes := replicate 31 0 ++ [a `mod` 3].
Definition Z3_scalar_from_repr (b : bytes) : option Z :=
  let a := nth 31 b 0 in
  if bool_decide (0 ≤ a < 3 ∧ b = Z3_scalar_to_bytes a) then Some a else None.
Definition Z3_encode (c : bool) (p : Z3) : bytes :=
  if bool_decide (p = O0) then [0]
  else (if c then 2 else 4) :: replicate (if c then 31 else 63) 0 ++ [Z3_to p].
Definition Z3_decode (b : bytes) : option Z3 :=
  foldr (λ p acc, if bool_decide (b = Z3_encode true p ∨ b = Z3_encode false p) then Some p else acc)
    None [O0; O1; O2].

Definition Z3_curve : Secp256k1 := {|
  point := Z3;
  group_order := 3;
  p_identity := O0;
  p_generator := O1;
  p_add a b := Z3_of (Z3_to a + Z3_to b);
  p_sub a b := Z3_of (Z3_to a - Z3_to b);
  p_mul a n := Z3_of (Z3_to a * n);
  scalar_from_repr := Z3_scalar_from_repr;
  scalar_to_bytes := Z3_scalar_to_bytes;
  sec1_encode := Z3_encode;
  sec1_decode := Z3_decode;
  sec1_is_compressed b := nth 0 b 0 =? 2;
  sec1_compress b := match Z3_decode b with Some p => Z3_encode true p | None => b end;
  pubkey_from_sec1 b :=
    match Z3_decode b with Some O0 => None | Some p => Some p | None => None end;
  keccak256 b := to_be 32 (31 * from_be b + Z.of_nat (length b));
  hash_to_scalar_sha3 _ _ := Some 1;
  hash_to_scalar_keccak m _ := Some (Z.of_nat (length m) `mod` 3);
  hash_from_bytes _ _ := Some O1;
  ecdsa_from_scalars r s := bool_decide (length r = 32%nat ∧ length s = 32%nat);
  ecdsa_recover_prehash _ sig _ := Some (Z3_of (nth 31 (snd sig) 0));
  ecdsa_sign_prehash sk h := Some (take 32 (h ++ replicate 32 0) ++ Z3_scalar_to_bytes sk, 1);
  ecdsa_verify_prehash _ h sig := bool_decide (take 32 sig = h)
|}.

(** A key pair of the instance and its address. *)
Definition toy_key (a : Z) : @ChainKeypair Z3_curve :=
  @mkChainKeypair Z3_curve (Z3_scalar_to_bytes a) (@CurvePoint_from_affine Z3_curve (Z3_of a)).

Lemma Z3_curve_laws : @Secp256k1Laws Z3_curve.
Proof.
  assert (∀ a, Z3_to (Z3_of a) = a mod 3) as Hto.
  { intros a. unfold Z3_of. pose proof (Z.mod_pos_bound a 3).
    destruct (Z.eqb_spec (a mod 3) 0) as [->|]; [done|].
    destruct (Z.eqb_spec (a mod 3) 1) as [->|]; [done|]. simpl. lia. }
  assert (∀ p, Z3_of (Z3_to p) = p) as Hof by (by intros []).
  assert (∀ a b, a mod 3 = b mod 3 → Z3_of a = Z3_of b) as Hmod
    by (unfold Z3_of; by intros a b ->).
  assert (∀ a, 0 ≤ a < 3 → a = 0 ∨ a = 1 ∨ a = 2) as H3 by lia.
  constructor; cbn [group_order p_identity p_generator p_add p_sub p_mul scalar_from_repr
    scalar_to_bytes sec1_encode sec1_decode sec1_is_compressed sec1_compress pubkey_from_sec1
    keccak256 hash_to_scalar_sha3 hash_to_scalar_keccak ecdsa_sign_prehash ecdsa_from_scalars
    ecdsa_recover_prehash Z3_curve].
  - lia.
  - by intros [].
  - by intros [] [].
  - by intros [] [] [].
  - by intros [] [].
  - intros p a b. apply Hmod. rewrite !Hto, <-Zplus_mod. rewrite Zmult_mod_idemp_r. f_equal. lia.
  - intros p a b. apply Hmod. rewrite Hto, Zmult_mod_idemp_r, Zmult_mod_idemp_l. f_equal. lia.
  - intros a Ha. destruct (H3 a ltac:(lia)) as [->|[->| ->]]; [lia|done..].
  - intros a Ha. by destruct (H3 a Ha) as [->|[->| ->]].
  - unfold Z3_scalar_from_repr. intros b a. case_bool_decide as Hb; [|done]. intros [= <-].
    destruct Hb as [? Hb]. split; [done|]. by rewrite Hb.
  - intros a. pose proof (Z.mod_pos_bound a 3). split; [done|].
    apply Forall_app. split; [by apply Forall_replicate|].
    constructor; [|constructor]. unfold in_u. lia.
  - by intros [] [].
  - by intros [] [].
  - by intros [].
  - intros [] [] Hp; try (by destruct Hp); apply (bool_decide_unpack _); vm_compute; exact I.
  - by intros [] [].
  - intros b. split; [apply length_to_be|apply to_be_wf].
  - by intros m t s [= <-].
  - intros m t s [= <-]. by apply Z.mod_pos_bound.
  - intros sk h Hsk [Hl Hh]. exists h, (Z3_scalar_to_bytes sk), 1.
    rewrite take_app_length' by done. split; [done|]. split; [done|].
    destruct (H3 sk ltac:(lia)) as [->|[->| ->]]; [lia| |].
    + split; [apply (bool_decide_unpack _); vm_compute; exact I|].
      split_and!; [done..| |done]. by apply bool_decide_eq_true_2.
    + split; [apply (bool_decide_unpack _); vm_compute; exact I|].
      split_and!; [done..| |done]. by apply bool_decide_eq_true_2.
Qed.

(** ** Properties *)
Section CryptoProofs.
Context `{!Secp256k1, !Secp256k1Laws}.
#[local] Set Default Proof Using "All".

(** Key pairs as [from_secret] builds them. *)
Definition ChainKeypair_wf (kp : ChainKeypair) (a : Z) : Prop :=
  nonzero_scalar (ck_secret kp) = Some a ∧
  ck_public kp = CurvePoint_from_affine (p_mul p_generator a).

Lemma nonzero_scalar_Some b a :
  nonzero_scalar b = Some a ↔ scalar_from_repr b = Some a ∧ a ≠ 0.
Proof.
  unfold nonzero_scalar. destruct (scalar_from_repr b) as [s|]; simpl; [|by split; [|intros [? _]]].
  destruct (Z.eqb_spec s 0) as [->|]; split; try done.
  - by intros [[= ->] ?].
  - by intros [= ->].
  - by intros [? _].
Qed.

Lemma nonzero_scalar_range b a :
  nonzero_scalar b = Some a → 0 < a < group_order ∧ length b = 32%nat.
Proof. intros [Hs ?]%nonzero_scalar_Some. apply scalar_from_repr_range in Hs as [? ?]. lia. Qed.

Lemma nonzero_scalar_to_bytes a :
  0 < a < group_order → nonzero_scalar (scalar_to_bytes a) = Some a.
Proof. intros Ha. apply nonzero_scalar_Some. rewrite scalar_from_to by lia. split; [done|lia]. Qed.

Lemma ChainKeypair_from_secret_wf b kp :
  ChainKeypair_from_secret b = Ok kp → ∃ a, ChainKeypair_wf kp a.
Proof.
  unfold ChainKeypair_from_secret, PublicKey_from_privkey.
  destruct (nonzero_scalar b) as [a|] eqn:Ha; simpl; [|done].
  case_bool_decide; [|done]. intros [= <-]. by exists a.
Qed.

Lemma ChainKeypair_scalar_wf kp a :
  ChainKeypair_wf kp a → ChainKeypair_scalar kp = Ok a ∧ 0 < a < group_order.
Proof.
  intros [Ha _]. pose proof (nonzero_scalar_range _ _ Ha) as [? Hl].
  apply nonzero_scalar_Some in Ha as [Ha _].
  unfold ChainKeypair_scalar, k256_scalar_from_bytes.
  rewrite bool_decide_eq_true_2 by done. by rewrite Ha.
Qed.

Lemma Hash_create_wf l : array_wf Hash_SIZE (Hash_create l).
Proof. apply keccak256_wf. Qed.

Lemma PublicKey_to_address_wf pk : length (PublicKey_to_address pk) = Address_SIZE.
Proof.
  unfold PublicKey_to_address. rewrite length_drop.
  by rewrite (proj1 (Hash_create_wf _)).
Qed.

(** *** Half-keys *)

Lemma half_key_challenge k s :
  nonzero_scalar k = Some s →
  HalfKey_to_challenge k = Ok (sec1_encode true (p_mul p_generator s)).
Proof.
  intros Hs. pose proof (nonzero_scalar_range _ _ Hs) as [Hr _].
  unfold HalfKey_to_challenge, CurvePoint_from_exponent, PublicKey_from_privkey.
  rewrite Hs. simpl. unfold HalfKeyChallenge_new, copy_exact.
  by rewrite bool_decide_eq_true_2 by apply (sec1_encode_wf true), p_mul_generator, Hr.
Qed.

Lemma PublicKey_try_from_compressed p :
  p ≠ p_identity → PublicKey_try_from (sec1_encode true p) = Ok (CurvePoint_from_affine p).
Proof.
  intros Hp. pose proof (proj1 (sec1_encode_wf true p Hp)) as Hl. unfold PublicKey_try_from.
  rewrite Hl. simpl. by rewrite pubkey_from_sec1_encode.
Qed.

(** The sum of two half-keys is the response to the sum of their challenges. *)
Lemma half_keys_solve k1 k2 s1 s2 :
  nonzero_scalar k1 = Some s1 → nonzero_scalar k2 = Some s2 →
  (s1 + s2) `mod` group_order ≠ 0 →
  ∃ c1 c2 r,
    HalfKey_to_challenge k1 = Ok c1 ∧ HalfKey_to_challenge k2 = Ok c2 ∧
    Response_from_half_keys k1 k2 = Ok r ∧
    nonzero_scalar r = Some ((s1 + s2) `mod` group_order) ∧
    Response_to_challenge r = Challenge_from_hint_and_share c1 c2 ∧
    Response_to_challenge r =
      Ok (CurvePoint_from_affine (p_mul p_generator ((s1 + s2) `mod` group_order))).
Proof.
  intros H1 H2 Hs. pose proof group_order_bound as Hn.
  pose proof (nonzero_scalar_range _ _ H1) as [Hr1 _].
  pose proof (nonzero_scalar_range _ _ H2) as [Hr2 _].
  pose proof (Z.mod_pos_bound (s1 + s2) group_order) as Hb.
  assert (nonzero_scalar (scalar_to_bytes ((s1 + s2) `mod` group_order)) =
    Some ((s1 + s2) `mod` group_order)) as Hnz by (apply nonzero_scalar_to_bytes; lia).
  assert (p_mul p_generator ((s1 + s2) `mod` group_order) ≠ p_identity) as Hid
    by (apply p_mul_generator; lia).
  eexists _, _, _. split_and!; [by apply half_key_challenge..| | | |].
  - unfold Response_from_half_keys. rewrite H1, H2. simpl. unfold Response_try_from, array_try_from.
    by rewrite bool_decide_eq_true_2 by apply scalar_to_bytes_wf.
  - done.
  - unfold Response_to_challenge, CurvePoint_from_exponent, PublicKey_from_privkey.
    rewrite Hnz. cbn [ok_or mbind outcome_bind unwrap]. unfold Challenge_from_hint_and_share.
    rewrite !PublicKey_try_from_compressed by (apply p_mul_generator; lia).
    cbn [map_err mbind outcome_bind]. unfold PublicKey_combine, CurvePoint_combine.
    cbn [map foldl affine CurvePoint_from_affine]. rewrite p_add_0_l, <-p_mul_add.
    unfold PublicKey_try_from_curve_point. cbn [affine CurvePoint_from_affine].
    by rewrite bool_decide_eq_false_2.
  - unfold Response_to_challenge, CurvePoint_from_exponent, PublicKey_from_privkey. by rewrite Hnz.
Qed.

(** *** Signatures *)

Lemma bit7_split b : in_u 8 b → Z.land b 0x80 = 0 ↔ b < 128.
Proof.
  unfold in_u. intros Hb.
  assert (∀ k : nat, (k < 256)%nat → bool_decide (Z.land (Z.of_nat k) 0x80 = 0) = (Z.of_nat k <? 128)) as Hk256.
  { intros k Hk. do 256 (destruct k as [|k]; [reflexivity|]). lia. }
  specialize (Hk256 (Z.to_nat b) ltac:(lia)). rewrite Z2Nat.id in Hk256 by lia.
  destruct (Z.ltb_spec b 128); [apply bool_decide_eq_true in Hk256|apply bool_decide_eq_false in Hk256]; lia.
Qed.

Lemma land_7f b : 0 ≤ b < 128 → Z.land b 0x7f = b.
Proof. intros. change 0x7f with (Z.ones 7). rewrite Z.land_ones by lia. by apply Z.mod_small. Qed.

Lemma embedded_byte b v :
  0 ≤ b < 128 → 0 ≤ v ≤ 1 →
  Z.land (Z.lor (Z.land b 0x7f) (wrap 8 (Z.shiftl v 7))) 0x7f = b ∧
  Z.b2z (negb (Z.land (Z.lor (Z.land b 0x7f) (wrap 8 (Z.shiftl v 7))) 0x80 =? 0)) = v.
Proof.
  intros Hb Hv. rewrite (land_7f b), !Z.land_lor_distr_l, (land_7f b) by done.
  assert (Z.land b 0x80 = 0) as -> by (apply bit7_split; unfold in_u; lia).
  assert (v = 0 ∨ v = 1) as [-> | ->] by lia.
  - change (wrap 8 (Z.shiftl 0 7)) with 0. rewrite !Z.land_0_l, Z.lor_0_r. done.
  - change (wrap 8 (Z.shiftl 1 7)) with 128. change (Z.land 128 0x7f) with 0.
    rewrite Z.lor_0_r. done.
Qed.

Lemma raw_signature_new {E} raw v :
  length raw = 64%nat → 0 ≤ nth 32 raw 0 < 128 → 0 ≤ v ≤ 1 →
  ∃ sig, Signature_new (E:=E) raw v = Ok sig ∧ length sig = 64%nat ∧ raw_signature sig = (raw, v).
Proof.
  intros Hl Hb Hv. unfold Signature_new, copy_exact.
  rewrite (proj2 (Z.leb_le _ _)), bool_decide_eq_true_2 by (done || lia). simpl.
  eexists. split; [done|]. unfold embed_recovery_bit.
  split; [by rewrite length_alter|].
  assert (∃ l1 b l2, raw = l1 ++ b :: l2 ∧ length l1 = 32%nat) as (l1 & b & l2 & -> & Hl1).
  { destruct (nth_lookup_or_length raw 32 0) as [Hk|]; [|lia].
    exists (take 32 raw), (nth 32 raw 0), (drop 33 raw).
    rewrite take_drop_middle by done. split; [done|]. rewrite length_take. lia. }
  assert (∀ x, nth 32 (l1 ++ x :: l2) 0 = x) as Hnth
    by (intros; rewrite app_nth2, Hl1 by lia; done).
  assert (∀ f x, alter f 32%nat (l1 ++ x :: l2) = l1 ++ f x :: l2) as Halt
    by (intros f x; rewrite <-Hl1, <-(Nat.add_0_r (length l1)), alter_app_r; done).
  rewrite Hnth in Hb. unfold raw_signature. rewrite !Halt, Hnth.
  destruct (embedded_byte b v Hb Hv) as [-> ->]. done.
Qed.

Lemma sign_hash_recovers_E {E} (kp : ChainKeypair) (a : Z) (h : bytes) :
  ChainKeypair_wf kp a → array_wf 32 h →
  ∃ sig, sign_hash (E:=E) h kp = Ok sig ∧ length sig = Signature_SIZE ∧
    from_signature_hash h sig = Ok (ck_public kp).
Proof.
  intros [Ha Hpk] Hh. pose proof (nonzero_scalar_range _ _ Ha) as [Hr _].
  destruct (ecdsa_sign_recover a h Hr Hh) as (r & s & v & Hsign & [Hlr _] & [Hls Hws] & Hs & Hv & Hok & Hrec).
  assert (nth 32 (r ++ s) 0 = nth 0 s 0) as Hnth by (rewrite app_nth2, Hlr by lia; done).
  assert (0 ≤ nth 0 s 0) as Hs0.
  { destruct s as [|b s]; [done|]. apply Forall_cons in Hws as [[? _] _]. done. }
  destruct (raw_signature_new (E:=E) (r ++ s) v) as (sig & Hnew & Hl & Hraw);
    [rewrite length_app; lia|lia|done|].
  exists sig. split_and!; [|done|].
  - unfold sign_hash, Signature_sign. rewrite Ha. simpl. rewrite Hsign. exact Hnew.
  - unfold from_signature_hash. rewrite Hraw, <-Hlr, take_app_length, drop_app_length.
    unfold from_raw_signature. rewrite Hok, Hrec. rewrite (proj2 (Z.ltb_lt v 4)) by lia. simpl.
    unfold PublicKey_try_from_affine.
    rewrite bool_decide_eq_false_2 by (apply p_mul_generator; lia). by rewrite Hpk.
Qed.

(** A signature made with a chain key pair recovers the signer: signing a
    hash succeeds, keeps the 64 bytes [r || s] and the recovery bit intact in
    its encoding, and recovering from it gives exactly the key pair's public
    key. *)
Theorem sign_hash_recovers (kp : ChainKeypair) (a : Z) (h : bytes) :
  ChainKeypair_wf kp a → array_wf 32 h →
  ∃ sig, sign_hash (E:=CryptoError) h kp = Ok sig ∧ length sig = Signature_SIZE ∧
    from_signature_hash h sig = Ok (ck_public kp).
Proof.
  apply sign_hash_recovers_E.
Qed.

(** *** VRF *)

Lemma vrf_relation B a r h :
  p_sub (p_mul B ((r + h * a) `mod` group_order)) (p_mul (p_mul B a) h) = p_mul B r.
Proof.
  rewrite <-Zplus_mod_idemp_r, p_mul_add.
  replace (h * a) with (a * h) by lia. rewrite p_mul_mul. apply p_sub_add.
Qed.

(** VRF completeness: whatever random nonce is drawn, parameters derived
    with a key pair verify against the address of that key pair for the same
    message and domain separator. *)
Theorem derive_vrf_verifies (kp : ChainKeypair) (a : Z) (random msg dst : bytes) (v : VrfParameters) :
  ChainKeypair_wf kp a →
  derive_vrf_parameters random msg kp dst = Ok v →
  VrfParameters_verify v (PublicKey_to_address (ck_public kp)) msg dst = Ok tt.
Proof.
  intros Hkp. destruct (ChainKeypair_scalar_wf _ _ Hkp) as [Hsc Ha].
  unfold derive_vrf_parameters, VrfParameters_verify, get_encoded_payload.
  destruct (hash_from_bytes _ _) as [B|]; [|done]. cbn [ok_or mbind outcome_bind].
  rewrite Hsc. cbn [mbind outcome_bind]. rewrite (proj2 (Z.eqb_neq a 0)) by lia.
  destruct (hash_to_scalar_keccak _ _) as [r|]; [|done]. cbn [ok_or mbind outcome_bind].
  match goal with |- context [hash_to_scalar_keccak ?l ?d] =>
    destruct (hash_to_scalar_keccak l d) as [h|] eqn:Hh; [|done] end. cbn [ok_or mbind outcome_bind]. intros [= <-]. cbn [V vrf_h vrf_s].
  unfold as_uncompressed, CurvePoint_from_affine. cbn [affine uncompressed].
  rewrite vrf_relation, Hh. cbn [ok_or mbind outcome_bind]. by rewrite Z.eqb_refl.
Qed.

Lemma CurvePoint_try_from_compressed p :
  p ≠ p_identity → CurvePoint_try_from (sec1_encode true p) = Ok (CurvePoint_from_affine p).
Proof.
  intros Hp. unfold CurvePoint_try_from.
  by rewrite sec1_decode_encode, sec1_is_compressed_encode.
Qed.

(** A curve point parsed from either form of encoding carries consistent
    encodings. *)
Lemma CurvePoint_try_from_encode c p cp :
  p ≠ p_identity → CurvePoint_try_from (sec1_encode c p) = Ok cp →
  affine cp = p ∧ as_compressed cp = sec1_encode true p ∧ as_uncompressed cp = sec1_encode false p.
Proof.
  intros Hp. unfold CurvePoint_try_from. rewrite sec1_decode_encode, sec1_is_compressed_encode by done.
  cbn [ok_or mbind outcome_bind]. intros [= <-]. unfold as_compressed, as_uncompressed. simpl.
  destruct c; simpl; [done|]. by rewrite sec1_compress_encode.
Qed.

Lemma k256_scalar_roundtrip a :
  0 ≤ a < group_order → k256_scalar_from_bytes (scalar_to_bytes a) = Ok a.
Proof.
  intros Ha. unfold k256_scalar_from_bytes.
  rewrite bool_decide_eq_true_2 by apply scalar_to_bytes_wf. by rewrite scalar_from_to.
Qed.

Lemma VrfParameters_roundtrip p h s :
  p ≠ p_identity → 0 ≤ h < group_order → 0 ≤ s < group_order →
  let v := mkVrf (CurvePoint_from_affine p) h s in
  length (VrfParameters_to_bytes v) = VRF_PARAMETERS_SIZE ∧
  VrfParameters_try_from (VrfParameters_to_bytes v) = Ok v.
Proof.
  intros Hp Hh Hs v. assert (length (sec1_encode true p) = 33%nat) as Hl
    by exact (proj1 (sec1_encode_wf true p Hp)).
  pose proof (proj1 (scalar_to_bytes_wf h)) as Hlh. pose proof (proj1 (scalar_to_bytes_wf s)) as Hls.
  unfold v, VrfParameters_to_bytes, as_compressed. cbn [V vrf_h vrf_s compressed CurvePoint_from_affine].
  set (e := sec1_encode true p) in *.
  assert (length (e ++ scalar_to_bytes h ++ scalar_to_bytes s) = VRF_PARAMETERS_SIZE) as Hlen
    by (rewrite !length_app, Hl, Hlh, Hls; done).
  split; [done|]. unfold VrfParameters_try_from. rewrite bool_decide_eq_true_2 by done.
  rewrite (take_app_length' e _ 33), (drop_app_length' e _ 33) by done.
  rewrite (CurvePoint_try_from_compressed p Hp : CurvePoint_try_from e = _). cbn [mbind outcome_bind].
  rewrite take_app_length' by done. rewrite k256_scalar_roundtrip by done. cbn [map_err mbind outcome_bind].
  rewrite (assoc_L (++)), drop_app_length' by (rewrite length_app; lia).
  rewrite take_ge by lia. by rewrite k256_scalar_roundtrip.
Qed.

End CryptoProofs.

Lemma toy_key_wf a : 0 < a < 3 → @ChainKeypair_wf Z3_curve (toy_key a) a.
Proof. intros Ha. assert (a = 1 ∨ a = 2) as [-> | ->] by lia; done. Qed.

Lemma sign_hash_recovers_witness :
  ∃ sig, @sign_hash Z3_curve CryptoError (replicate 32 7) (toy_key 2) = Ok sig ∧
    length sig = Signature_SIZE ∧
    @from_signature_hash Z3_curve (replicate 32 7) sig = Ok (@ck_public Z3_curve (toy_key 2)).
Proof.
  apply (@sign_hash_recovers Z3_curve Z3_curve_laws (toy_key 2) 2 (replicate 32 7)).
  - apply toy_key_wf. lia.
  - split; [reflexivity|]. repeat constructor; vm_compute; congruence.
Defined.

Lemma derive_vrf_verifies_witness :
  ∃ v, @derive_vrf_parameters Z3_curve [9] [1; 2] (toy_key 2) [5] = Ok v ∧
    @VrfParameters_verify Z3_curve v
      (@PublicKey_to_address Z3_curve (@ck_public Z3_curve (toy_key 2))) [1; 2] [5] = Ok tt.
Proof.
  eexists. split; [vm_compute; reflexivity|].
  apply (@derive_vrf_verifies Z3_curve Z3_curve_laws (toy_key 2) 2 [9]).
  - apply toy_key_wf. lia.
  - vm_compute. reflexivity.
Defined.
