(* ===== verification/Channels.v ===== *)
(** * Payment channels

    Models [common/internal-types/src/channels.rs]: the channel status with its
    equality up to one second, the channel entry and its closure clock, and the
    comparison of two versions of an entry.  A [SystemTime] is a number of
    nanoseconds since the Unix epoch. *)
From S2P Require Import Prelude Primitives Crypto.

(** [internal-types/src/protocol.rs]. *)
Definition INTERMEDIATE_HOPS : Z := 3.

Definition SystemTime : Type := Z.
Definition Duration : Type := Z.

(** [SaturatingSub for SystemTime] ([primitive-types/src/traits.rs]): the
    error of [duration_since] becomes zero. *)
Definition time_saturating_sub (self earlier : SystemTime) : Duration :=
  if earlier <=? self then self - earlier else 0.

Definition as_unix_timestamp (t : SystemTime) : Duration := time_saturating_sub t 0.

(** [Duration::as_secs]. *)
Definition as_secs (d : Duration) : Z := d `div` 10 ^ 9.

Inductive ChannelStatus :=
| Closed
| Open
| PendingToClose (closure_time : SystemTime).

Definition ChannelStatus_to_i8 (s : ChannelStatus) : Z :=
  match s with Closed => 0 | Open => 1 | PendingToClose _ => 2 end.

(** [PartialEq for ChannelStatus]. *)
Definition ChannelStatus_eqb (a b : ChannelStatus) : bool :=
  match a, b with
  | Open, Open => true
  | Closed, Closed => true
  | PendingToClose ct_1, PendingToClose ct_2 =>
      as_secs (time_saturating_sub (Z.max ct_1 ct_2) (Z.min ct_1 ct_2)) =? 0
  | _, _ => false
  end.

Inductive ChannelDirection := Incoming | Outgoing.

Section Channels.
Context `{!Secp256k1}.

Definition ChannelId : Type := Hash.

Definition generate_channel_id (source destination : Address) : Hash :=
  Hash_create [source; destination].

Record ChannelEntry := mkChannel {
  source : Address;
  destination : Address;
  balance : HoprBalance;
  ticket_index : Z;
  status : ChannelStatus;
  channel_epoch : Z;
  id : ChannelId
}.

Definition MAX_CHANNEL_BALANCE : Z := 10 ^ 25.

Definition ChannelEntry_new (source destination : Address) (balance : HoprBalance)
    (ticket_index : Z) (status : ChannelStatus) (channel_epoch : Z) : ChannelEntry :=
  mkChannel source destination balance ticket_index status channel_epoch
    (generate_channel_id source destination).

Definition get_id (c : ChannelEntry) : ChannelId := id c.

Definition closure_time_passed (c : ChannelEntry) (current_time : SystemTime) : bool :=
  match status c with
  | Open => false
  | PendingToClose closure_time => closure_time <=? current_time
  | Closed => true
  end.

Definition remaining_closure_time (c : ChannelEntry) (current_time : SystemTime) : option Duration :=
  match status c with
  | Open => None
  | PendingToClose closure_time => Some (time_saturating_sub closure_time current_time)
  | Closed => Some 0
  end.

Definition closure_time_at (c : ChannelEntry) : option SystemTime :=
  match status c with PendingToClose ct => Some ct | _ => None end.

Definition direction (c : ChannelEntry) (me : Address) : option ChannelDirection :=
  if bool_decide (source c = me) then Some Outgoing
  else if bool_decide (destination c = me) then Some Incoming
  else None.

Definition orientation (c : ChannelEntry) (me : Address) : option (ChannelDirection * Address) :=
  if bool_decide (source c = me) then Some (Outgoing, destination c)
  else if bool_decide (destination c = me) then Some (Incoming, source c)
  else None.

Inductive ChannelChange :=
| ChangeStatus (left right : ChannelStatus)
| ChangeCurrentBalance (left right : HoprBalance)
| ChangeEpoch (left right : Z)
| ChangeTicketIndex (left right : Z).

(** [U256::as_u32] and [as_u64]: panic when the number does not fit. *)
Definition U256_as {E} (w a : Z) : outcome E Z := if a <? 2 ^ w then Ok a else Panic.

Definition diff_channels {E} (left right : ChannelEntry) : outcome E (list ChannelChange) :=
  if negb (bool_decide (id left = id right)) then Panic else
  let ret := if negb (ChannelStatus_eqb (status left) (status right))
             then [ChangeStatus (status left) (status right)] else [] in
  let ret := if negb (bool_decide (balance left = balance right))
             then ret ++ [ChangeCurrentBalance (balance left) (balance right)] else ret in
  ret ← (if negb (channel_epoch left =? channel_epoch right) then
           l ← U256_as 32 (channel_epoch left);
           r ← U256_as 32 (channel_epoch right);
           Ok (ret ++ [ChangeEpoch l r])
         else Ok ret);
  if negb (ticket_index left =? ticket_index right) then
    l ← U256_as 64 (ticket_index left);
    r ← U256_as 64 (ticket_index right);
    Ok (ret ++ [ChangeTicketIndex l r])
  else Ok ret.

End Channels.

(** ** Properties *)

Lemma time_saturating_sub_max a b : time_saturating_sub a b = Z.max 0 (a - b).
Proof. unfold time_saturating_sub. destruct (Z.leb_spec b a); lia. Qed.

Lemma ChannelStatus_eqb_refl s : ChannelStatus_eqb s s = true.
Proof.
  destruct s as [| |t]; [done..|]. simpl. rewrite time_saturating_sub_max.
  by replace (Z.max 0 (Z.max t t - Z.min t t)) with 0 by lia.
Qed.

Lemma ChannelStatus_eqb_sym a b : ChannelStatus_eqb a b = ChannelStatus_eqb b a.
Proof.
  destruct a, b; try done. simpl. do 3 f_equal; lia.
Qed.

Lemma ChannelStatus_eqb_pending a b :
  ChannelStatus_eqb (PendingToClose a) (PendingToClose b) = true ↔ Z.abs (a - b) < 10 ^ 9.
Proof.
  simpl. rewrite Z.eqb_eq, time_saturating_sub_max. unfold as_secs.
  replace (Z.max 0 (Z.max a b - Z.min a b)) with (Z.abs (a - b)) by lia. split.
  - intros H. apply Z.div_small_iff in H; lia.
  - intros. apply Z.div_small. lia.
Qed.

(** The equality of channel statuses is reflexive and symmetric and agrees
    with the status kind, but it is not transitive, although the type
    implements [Eq]: closure times 0.6 s apart are equal, times 1.2 s apart
    are not. *)
Theorem ChannelStatus_eq_not_transitive :
  (∀ s, ChannelStatus_eqb s s = true) ∧
  (∀ a b, ChannelStatus_eqb a b = ChannelStatus_eqb b a) ∧
  (∀ a b, ChannelStatus_eqb a b = true → ChannelStatus_to_i8 a = ChannelStatus_to_i8 b) ∧
  ∃ a b c, ChannelStatus_eqb a b = true ∧ ChannelStatus_eqb b c = true ∧
    ChannelStatus_eqb a c = false.
Proof.
  split_and!.
  - apply ChannelStatus_eqb_refl.
  - apply ChannelStatus_eqb_sym.
  - by intros [] [].
  - exists (PendingToClose 0), (PendingToClose 600000000), (PendingToClose 1200000000). done.
Qed.

Section ChannelProofs.
Context `{!Secp256k1}.

(** The closure clock: the time has passed exactly when nothing remains. *)
Lemma closure_time_passed_iff c now :
  closure_time_passed c now = true ↔ remaining_closure_time c now = Some 0.
Proof.
  unfold closure_time_passed, remaining_closure_time. destruct (status c); [done..|].
  rewrite time_saturating_sub_max. split.
  - intros ?%Z.leb_le. f_equal. lia.
  - intros [= ?]. apply Z.leb_le. lia.
Qed.

Lemma closure_time_passed_mono c t1 t2 :
  t1 ≤ t2 → closure_time_passed c t1 = true → closure_time_passed c t2 = true.
Proof. unfold closure_time_passed. destruct (status c); [done..|]. rewrite !Z.leb_le. lia. Qed.

Lemma direction_orientation c me :
  direction c me = fst <$> orientation c me.
Proof. unfold direction, orientation. by repeat case_bool_decide. Qed.

(** The comparison of two versions of a channel with machine-sized epochs
    and indices succeeds, and reports nothing exactly when status (up to the
    one-second tolerance), balance, epoch and ticket index agree. *)
Theorem diff_channels_complete (left right : ChannelEntry) :
  id left = id right →
  in_u 32 (channel_epoch left) → in_u 32 (channel_epoch right) →
  in_u 64 (ticket_index left) → in_u 64 (ticket_index right) →
  ∃ changes, diff_channels (E:=Empty_set) left right = Ok changes ∧
    (changes = [] ↔
      ChannelStatus_eqb (status left) (status right) = true ∧ balance left = balance right ∧
      channel_epoch left = channel_epoch right ∧ ticket_index left = ticket_index right) ∧
    (length changes ≤ 4)%nat.
Proof.
  intros Hid [_ He1] [_ He2] [_ Ht1] [_ Ht2]. unfold diff_channels, U256_as.
  rewrite bool_decide_eq_true_2 by done. cbn [negb].
  rewrite (proj2 (Z.ltb_lt (channel_epoch left) _) He1), (proj2 (Z.ltb_lt (channel_epoch right) _) He2),
    (proj2 (Z.ltb_lt (ticket_index left) _) Ht1), (proj2 (Z.ltb_lt (ticket_index right) _) Ht2).
  cbn [mbind outcome_bind].
  destruct (ChannelStatus_eqb _ _), (bool_decide_reflect (balance left = balance right)),
    (Z.eqb_spec (channel_epoch left) (channel_epoch right)),
    (Z.eqb_spec (ticket_index left) (ticket_index right)); cbn [negb mbind outcome_bind app];
    (eexists; split; [reflexivity|]; split; [|simpl; lia]); (split; [intros; simplify_eq|intros (? & ? & ? & ?)]);
    by try done.
Qed.

End ChannelProofs.

Lemma diff_channels_complete_witness :
  ∃ changes, diff_channels (E:=Empty_set)
    (@ChannelEntry_new Z3_curve [1] [2] (mkBalance 10) 5 Open 1)
    (@ChannelEntry_new Z3_curve [1] [2] (mkBalance 10) 6 (PendingToClose 9) 1) = Ok changes ∧
    length changes = 2%nat.
Proof.
  destruct (diff_channels_complete
    (@ChannelEntry_new Z3_curve [1] [2] (mkBalance 10) 5 Open 1)
    (@ChannelEntry_new Z3_curve [1] [2] (mkBalance 10) 6 (PendingToClose 9) 1)) as (l & Hl & _);
    [reflexivity|vm_compute; split; congruence..|].
  exists l. split; [exact Hl|]. revert Hl. vm_compute. intros [= <-]. reflexivity.
Defined.
