(* ===== verification/Float64.v ===== *)
(** * Doubles in the unit interval

    Exact arithmetic on the doubles [m / 2^52], [0 <= m <= 2^52], in the
    Standard Library's IEEE 754 specification: their normal form, their order,
    adding and subtracting one.  The unitary float operations of amounts are
    integer arithmetic on these factors. *)
From S2P Require Import Prelude Primitives.
From Stdlib Require Import Floats.SpecFloat.

(** The double [m / 2^52]. *)
Definition unit_float (m : Z) : f64 := binary_normalize 53 1024 m (-52) false.

(** ** The rounding machinery on exact values *)

Lemma digits2_log2 p : Z.pos (digits2_pos p) = Z.log2 (Z.pos p) + 1.
Proof.
  induction p as [p IH|p IH|]; cbn [digits2_pos]; [| |done]; rewrite Pos2Z.inj_succ, IH.
  - rewrite (Pos2Z.inj_xI p), Z.log2_succ_double by lia. lia.
  - rewrite (Pos2Z.inj_xO p), Z.log2_double by lia. lia.
Qed.

Lemma iter_xO m d : Z.pos (Pos.iter xO m d) = Z.pos m * 2 ^ Z.pos d.
Proof.
  induction d as [|d IH] using Pos.peano_ind; [simpl; lia|].
  rewrite Pos.iter_succ, Pos2Z.inj_xO, IH, Pos2Z.inj_succ, Z.pow_succ_r by lia. lia.
Qed.

Lemma shl_align_down m e e' :
  e' ≤ e → ∃ p, shl_align m e e' = (p, e') ∧ Z.pos p = Z.pos m * 2 ^ (e - e').
Proof.
  intros He. unfold shl_align. destruct (e' - e) as [|d|d] eqn:Hd; [|lia|].
  - assert (e' = e) as -> by lia. exists m. rewrite Z.sub_diag. split; [done|lia].
  - exists (Pos.iter xO m d). split; [done|]. rewrite iter_xO. do 2 f_equal. lia.
Qed.

Lemma shl_align_up m e e' : e ≤ e' → shl_align m e e' = (m, e).
Proof. intros He. unfold shl_align. destruct (e' - e) eqn:?; done || lia. Qed.

Lemma shr_1_even K : 0 < K → shr_1 (Build_shr_record (2 * K) false false) = Build_shr_record K false false.
Proof. intros. destruct K; done || lia. Qed.

Lemma iter_shr_exact n M :
  0 < M → iter_pos shr_1 n (Build_shr_record (M * 2 ^ Z.pos n) false false) =
    Build_shr_record M false false.
Proof.
  revert M. induction n as [n IH|n IH|]; intros M HM; cbn [iter_pos].
  - replace (M * 2 ^ Z.pos n~1) with (2 * ((M * 2 ^ Z.pos n) * 2 ^ Z.pos n)).
    + rewrite shr_1_even, !IH by nia. done.
    + assert (Z.pos n~1 = 1 + (Z.pos n + Z.pos n)) as -> by lia.
      rewrite !Z.pow_add_r by lia. ring.
  - replace (M * 2 ^ Z.pos n~0) with ((M * 2 ^ Z.pos n) * 2 ^ Z.pos n).
    + rewrite !IH by nia. done.
    + assert (Z.pos n~0 = Z.pos n + Z.pos n) as -> by lia.
      rewrite Z.pow_add_r by lia. ring.
  - replace (M * 2 ^ 1) with (2 * M) by lia. by apply shr_1_even.
Qed.

(** A 53-bit mantissa, given with [k] trailing zero bits, is kept. *)
Lemma binary_round_aux_exact M k e :
  2 ^ 52 ≤ M < 2 ^ 53 → 0 ≤ k → -1074 ≤ e ≤ 971 →
  binary_round_aux 53 1024 false (M * 2 ^ k) (e - k) loc_Exact = S754_finite false (Z.to_pos M) e.
Proof.
  intros HM Hk He.
  assert (∀ k e, 0 ≤ k → -1074 ≤ e ≤ 971 →
    shr_fexp 53 1024 (M * 2 ^ k) (e - k) loc_Exact = (Build_shr_record M false false, e)) as Hshr.
  { clear k e Hk He. intros k e Hk He. unfold shr_fexp.
    assert (Zdigits2 (M * 2 ^ k) = 53 + k) as ->.
    { assert (0 < M * 2 ^ k) by (pose proof (Z.pow_pos_nonneg 2 k); nia).
      destruct (M * 2 ^ k) as [|p|p] eqn:Hp; [lia| |lia]. unfold Zdigits2.
      rewrite digits2_log2, <-Hp, Z.log2_mul_pow2 by lia.
      replace (Z.log2 M) with 52; [lia|]. symmetry. apply Z.log2_unique; lia. }
    unfold fexp, emin. replace (Z.max _ _ - (e - k)) with k by lia.
    unfold shr. cbn [shr_record_of_loc]. destruct k as [|k|k]; [| |lia].
    - rewrite Z.mul_1_r, Z.sub_0_r. done.
    - rewrite iter_shr_exact by lia. f_equal. lia. }
  unfold binary_round_aux. rewrite Hshr by lia.
  cbn [shr_m loc_of_shr_record round_nearest_even].
  replace (shr_fexp 53 1024 M e loc_Exact) with (shr_fexp 53 1024 (M * 2 ^ 0) (e - 0) loc_Exact)
    by (f_equal; lia).
  rewrite Hshr by lia. cbn [shr_m]. destruct M as [|p|p]; [lia| |lia].
  by rewrite (proj2 (Z.leb_le e _)) by lia.
Qed.

Lemma binary_normalize_exact M k e :
  2 ^ 52 ≤ M < 2 ^ 53 → 0 ≤ k → -1074 ≤ e ≤ 971 →
  binary_normalize 53 1024 (M * 2 ^ k) (e - k) false = S754_finite false (Z.to_pos M) e.
Proof.
  intros HM Hk He. assert (0 < M * 2 ^ k) as Hpos by (pose proof (Z.pow_pos_nonneg 2 k); nia).
  rewrite <-(binary_round_aux_exact M k e) by done.
  destruct (M * 2 ^ k) as [|p|p] eqn:Hp; [lia| |lia]. cbn [binary_normalize]. unfold binary_round.
  rewrite digits2_log2, <-Hp, Z.log2_mul_pow2 by lia.
  assert (Z.log2 M = 52) as -> by (apply Z.log2_unique; lia).
  rewrite shl_align_up by (unfold fexp, emin; lia). by rewrite Hp.
Qed.

(** A shorter mantissa is scaled up to 53 bits. *)
Lemma binary_normalize_short m e :
  0 < m < 2 ^ 53 → -1000 ≤ e ≤ 900 →
  let j := 52 - Z.log2 m in
  binary_normalize 53 1024 m e false = S754_finite false (Z.to_pos (m * 2 ^ j)) (e - j) ∧
  0 ≤ j ≤ 52 ∧ 2 ^ 52 ≤ m * 2 ^ j < 2 ^ 53.
Proof.
  intros Hm He j. pose proof (Z.log2_spec m ltac:(lia)) as Hl. pose proof (Z.log2_nonneg m).
  assert (Z.log2 m ≤ 52) by (apply Z.lt_succ_r, Z.log2_lt_pow2; lia).
  assert (0 ≤ j ≤ 52) as Hj by lia.
  assert (2 ^ 52 = 2 ^ Z.log2 m * 2 ^ j) as H52 by (rewrite <-Z.pow_add_r by lia; f_equal; lia).
  assert (2 ^ 53 = 2 ^ Z.succ (Z.log2 m) * 2 ^ j) as H53 by (rewrite <-Z.pow_add_r by lia; f_equal; lia).
  assert (2 ^ 52 ≤ m * 2 ^ j < 2 ^ 53) as HM by (pose proof (Z.pow_pos_nonneg 2 j); nia).
  split; [|done]. destruct m as [|p|p]; [lia| |lia]. cbn [binary_normalize]. unfold binary_round.
  rewrite digits2_log2. unfold fexp at 1, emin.
  destruct (shl_align_down p e (Z.max (Z.log2 (Z.pos p) + 1 + e - 53) (3 - 1024 - 53)))
    as (q & Hq & Hqz); [lia|].
  rewrite Hq. replace (e - Z.max _ _) with j in Hqz by lia. rewrite Hqz.
  replace (Z.max _ _) with (e - j) by lia.
  pose proof (binary_round_aux_exact (Z.pos p * 2 ^ j) 0 (e - j)) as Haux.
  rewrite Z.pow_0_r, Z.mul_1_r, Z.sub_0_r in Haux. apply Haux; lia.
Qed.

(** ** The doubles [m / 2^52] *)

Lemma unit_float_0 : unit_float 0 = f64_zero.
Proof. reflexivity. Qed.

Lemma unit_float_1 : unit_float (2 ^ 52) = f64_one.
Proof. reflexivity. Qed.

Lemma unit_float_pos m :
  0 < m ≤ 2 ^ 52 →
  let j := 52 - Z.log2 m in
  unit_float m = S754_finite false (Z.to_pos (m * 2 ^ j)) (-52 - j) ∧ 0 ≤ j ≤ 52 ∧
  2 ^ 52 ≤ m * 2 ^ j < 2 ^ 53.
Proof. intros Hm. apply binary_normalize_short; lia. Qed.

(** The order of the doubles is the order of the numerators. *)
Lemma unit_float_compare m1 m2 :
  0 ≤ m1 ≤ 2 ^ 52 → 0 ≤ m2 ≤ 2 ^ 52 →
  SFcompare (unit_float m1) (unit_float m2) = Some (m1 ?= m2).
Proof.
  intros H1 H2.
  destruct (decide (m1 = 0)) as [->|], (decide (m2 = 0)) as [->|].
  - done.
  - destruct (unit_float_pos m2) as (-> & _ & _); [lia|]. rewrite unit_float_0.
    cbn [SFcompare f64_zero]. f_equal. symmetry. apply Z.compare_lt_iff. lia.
  - destruct (unit_float_pos m1) as (-> & _ & _); [lia|]. rewrite unit_float_0.
    cbn [SFcompare f64_zero]. f_equal. symmetry. apply Z.compare_gt_iff. lia.
  - destruct (unit_float_pos m1) as (-> & Hj1 & HM1); [lia|].
    destruct (unit_float_pos m2) as (-> & Hj2 & HM2); [lia|].
    cbn [SFcompare]. f_equal. change (Pos.compare_cont Eq) with Pos.compare.
    destruct (Z.compare_spec (-52 - (52 - Z.log2 m1)) (-52 - (52 - Z.log2 m2))) as [He|He|He].
    + assert (Z.log2 m1 = Z.log2 m2) as El by lia.
      rewrite Pos2Z.inj_compare, !Z2Pos.id by lia. rewrite El.
      pose proof (Z.pow_pos_nonneg 2 (52 - Z.log2 m2)).
      destruct (Z.compare_spec m1 m2); [apply Z.compare_eq_iff|apply Z.compare_lt_iff|
        apply Z.compare_gt_iff]; nia.
    + symmetry. apply Z.compare_lt_iff. apply Z.log2_lt_cancel. lia.
    + symmetry. apply Z.compare_gt_iff. apply Z.log2_lt_cancel. lia.
Qed.

Lemma f64_one_eq : f64_one = S754_finite false (Z.to_pos (2 ^ 52)) (-52).
Proof. reflexivity. Qed.

(** Adding one is exact below one. *)
Lemma unit_float_add_one m :
  0 < m < 2 ^ 52 →
  f64_add (unit_float m) f64_one = S754_finite false (Z.to_pos (m + 2 ^ 52)) (-52).
Proof.
  intros Hm. destruct (unit_float_pos m) as (-> & Hj & HM); [lia|].
  set (j := 52 - Z.log2 m) in *. rewrite f64_one_eq. unfold f64_add. cbn [SFadd].
  replace (Z.min (-52 - j) (-52)) with (-52 - j) by lia.
  rewrite shl_align_up by lia.
  destruct (shl_align_down (Z.to_pos (2 ^ 52)) (-52) (-52 - j)) as (q & -> & Hq); [lia|].
  cbn [fst cond_Zopp]. rewrite Hq. replace (-52 - (-52 - j)) with j by lia.
  rewrite !Z2Pos.id by lia. rewrite <-Z.mul_add_distr_r. apply binary_normalize_exact; lia.
Qed.

(** The mantissa bits of [1 + m / 2^52]. *)
Lemma one_plus_bits m :
  0 ≤ m < 2 ^ 52 →
  Z.land (f64_to_bits (S754_finite false (Z.to_pos (m + 2 ^ 52)) (-52))) 0xFFFFFFFFFFFFF = m.
Proof.
  intros Hm. unfold f64_to_bits. rewrite Z2Pos.id by lia.
  rewrite (proj2 (Z.ltb_ge _ _)) by lia. cbn [Z.b2z]. rewrite Z.shiftl_0_l, Z.lor_0_l.
  replace (m + 2 ^ 52 - 2 ^ 52) with m by lia. rewrite Z.land_lor_distr_l.
  change 0xFFFFFFFFFFFFF with (Z.ones 52). rewrite (Z.land_ones m), Z.mod_small by lia.
  change (Z.land (Z.shiftl (-52 + 1075) 52) (Z.ones 52)) with 0. apply Z.lor_0_l.
Qed.

(** Subtracting one from a double in [\[1, 2)]. *)
Lemma one_plus_sub_one m :
  0 ≤ m < 2 ^ 52 →
  f64_sub (S754_finite false (Z.to_pos (m + 2 ^ 52)) (-52)) f64_one = unit_float m.
Proof.
  intros Hm. rewrite f64_one_eq. unfold f64_sub. cbn [SFsub]. rewrite !Z.min_id.
  rewrite !shl_align_up by lia. cbn [fst cond_Zopp]. rewrite !Z2Pos.id by lia.
  unfold unit_float. f_equal. lia.
Qed.

Lemma one_plus_add_epsilon m :
  0 ≤ m < 2 ^ 52 - 1 →
  f64_add (S754_finite false (Z.to_pos (m + 2 ^ 52)) (-52)) f64_EPSILON =
    S754_finite false (Z.to_pos (m + 1 + 2 ^ 52)) (-52).
Proof.
  intros Hm. assert (f64_EPSILON = S754_finite false (Z.to_pos (2 ^ 52)) (-104)) as -> by reflexivity.
  unfold f64_add. cbn [SFadd]. change (Z.min (-52) (-104)) with (-52 - 52).
  destruct (shl_align_down (Z.to_pos (m + 2 ^ 52)) (-52) (-52 - 52)) as (q & -> & Hq); [lia|].
  rewrite shl_align_up by lia. cbn [fst cond_Zopp]. rewrite Hq, !Z2Pos.id by lia.
  replace (-52 - (-52 - 52)) with 52 by lia.
  replace ((m + 2 ^ 52) * 2 ^ 52 + 2 ^ 52) with ((m + 1 + 2 ^ 52) * 2 ^ 52) by lia.
  apply binary_normalize_exact; lia.
Qed.

(** Strictly inside the unit interval. *)
Lemma unit_float_inside m :
  0 < m < 2 ^ 52 →
  f64_unit_contains (unit_float m) = true ∧ SFeqb (unit_float m) f64_one = false ∧
  SFeqb (unit_float m) f64_zero = false ∧ SFleb (unit_float m) f64_zero = false ∧
  SFltb f64_one (unit_float m) = false.
Proof.
  intros Hm. rewrite <-unit_float_0, <-unit_float_1.
  unfold f64_unit_contains, SFleb, SFeqb, SFltb. rewrite <-unit_float_0, <-unit_float_1.
  rewrite !unit_float_compare by lia.
  rewrite (proj2 (Z.compare_lt_iff 0 m)), (proj2 (Z.compare_lt_iff m (2 ^ 52))),
    (proj2 (Z.compare_gt_iff m 0)), (proj2 (Z.compare_gt_iff (2 ^ 52) m)) by lia. done.
Qed.

(** What the unitary float operations compute: for a factor [m / 2^52]
    strictly between zero and one, other than the largest, multiplying an
    amount gives [amount * (m + 1) / 2^52] rounded down, one unit of the last
    place above the exact product, and dividing gives [amount * 2^52 / m]
    rounded down; both as long as the amount has at most 204 bits. *)
Theorem unitary_float_exact (self m : Z) :
  in_u 204 self → 0 < m < 2 ^ 52 - 1 →
  U256_mul_f64 self (unit_float m) = Ok ((self * (m + 1)) `div` 2 ^ 52) ∧
  U256_div_f64 self (unit_float m) = Ok ((self * 2 ^ 52) `div` m).
Proof.
  intros [Hs0 Hs1] Hm. destruct (unit_float_inside m) as (H1 & H2 & H3 & H4 & H5); [lia|].
  unfold U256_mul_f64, U256_div_f64. rewrite H1, H2, H3, H4, H5. cbn [negb orb].
  rewrite unit_float_add_one by lia. split.
  - rewrite one_plus_add_epsilon, one_plus_bits by lia. unfold U256_mul.
    rewrite (proj2 (Z.leb_le _ _)) by (unfold U256_max, u_max; nia). cbn [mbind outcome_bind].
    by rewrite Z.shiftr_div_pow2 by lia.
  - rewrite one_plus_bits by lia. rewrite Z.shiftl_mul_pow2, wrap_small by (unfold in_u; lia).
    unfold U256_div. by rewrite (proj2 (Z.eqb_neq m 0)) by lia.
Qed.

Lemma unitary_float_exact_witness :
  U256_mul_f64 10 (unit_float (2 ^ 51)) = Ok 5 ∧ U256_div_f64 10 (unit_float (2 ^ 51)) = Ok 20.
Proof. apply (unitary_float_exact 10 (2 ^ 51)); [vm_compute; split; congruence|lia]. Defined.
