(* ===== verification/Graph.v ===== *)
(** * The graph library

    The part of petgraph's [StableDiGraph] that [logic/path] uses: a class of
    its operations, a class of their documented laws over two views of the
    graph (its nodes and its edges by index), and an instance on finite maps.
    Indices of removed nodes and edges are not those of the remaining ones:
    removal does not shift indices, which is what "stable" means. *)
From S2P Require Import Prelude.

Class StableDiGraph (N E : Type) := {
  graph : Type;
  g_default : graph;
  add_node : N → graph → graph * Z;
  remove_node : Z → graph → graph;
  node_weight : graph → Z → option N;
  modify_node : Z → (N → N) → graph → graph;
  add_edge : Z → Z → E → graph → graph;
  remove_edge : Z → graph → graph * option E;
  modify_edge : Z → (E → E) → graph → graph;
  edges_connecting : graph → Z → Z → list (Z * E);
  edges_outgoing : graph → Z → list (Z * Z * E);
  neighbors_undirected : graph → Z → list Z;
  node_count : graph → Z;
  edge_count : graph → Z;
  has_path_connecting : (E → bool) → graph → Z → Z → bool
}.

Class StableDiGraphLaws (N E : Type) `{!StableDiGraph N E} := {
  nodes : graph → gmap Z N;
  edges : graph → gmap Z (Z * Z * E);
  default_nodes : nodes g_default = ∅;
  default_edges : edges g_default = ∅;
  add_node_spec n g g' i :
    add_node n g = (g', i) →
    nodes g !! i = None ∧ nodes g' = <[i := n]> (nodes g) ∧ edges g' = edges g;
  remove_node_nodes i g : nodes (remove_node i g) = delete i (nodes g);
  remove_node_edges i g : edges (remove_node i g) =
    filter (λ p : Z * (Z * Z * E), p.2.1.1 ≠ i ∧ p.2.1.2 ≠ i) (edges g);
  node_weight_spec g i : node_weight g i = nodes g !! i;
  modify_node_nodes i f g : nodes (modify_node i f g) = alter f i (nodes g);
  modify_node_edges i f g : edges (modify_node i f g) = edges g;
  add_edge_nodes a b w g : nodes (add_edge a b w g) = nodes g;
  add_edge_edges a b w g :
    is_Some (nodes g !! a) → is_Some (nodes g !! b) →
    ∃ e, edges g !! e = None ∧ edges (add_edge a b w g) = <[e := (a, b, w)]> (edges g);
  remove_edge_nodes e g : nodes (fst (remove_edge e g)) = nodes g;
  remove_edge_edges e g : edges (fst (remove_edge e g)) = delete e (edges g);
  remove_edge_weight e g : snd (remove_edge e g) = snd <$> (edges g !! e);
  modify_edge_nodes e f g : nodes (modify_edge e f g) = nodes g;
  modify_edge_edges e f g : edges (modify_edge e f g) = alter (λ p, (p.1, f p.2)) e (edges g);
  edges_connecting_spec g a b e w :
    (e, w) ∈ edges_connecting g a b ↔ edges g !! e = Some (a, b, w);
  edges_outgoing_spec g a e b w :
    (e, b, w) ∈ edges_outgoing g a ↔ edges g !! e = Some (a, b, w);
  edges_outgoing_nodup g a : NoDup (edges_outgoing g a);
  neighbors_undirected_nil g a :
    neighbors_undirected g a = [] ↔
    ∀ e s d w, edges g !! e = Some (s, d, w) → s ≠ a ∧ d ≠ a;
  node_count_spec g : node_count g = Z.of_nat (size (nodes g));
  edge_count_spec g : edge_count g = Z.of_nat (size (edges g))
}.

(** ** An instance on finite maps *)
Section MapGraph.
Context {N E : Type}.

Record map_graph := mkGraph { mg_nodes : gmap Z N; mg_edges : gmap Z (Z * Z * E) }.

Definition fresh_key {A} (m : gmap Z A) : Z :=
  foldr (λ p k, Z.max k (p.1 + 1)) 0 (map_to_list m).

Lemma fresh_key_none {A} (m : gmap Z A) : m !! fresh_key m = None.
Proof.
  destruct (m !! fresh_key m) as [x|] eqn:Hx; [|done]. exfalso.
  apply elem_of_map_to_list in Hx.
  assert (∀ l (p : Z * A), p ∈ l → p.1 < foldr (λ p k, Z.max k (p.1 + 1)) 0 l) as Hl.
  { induction l as [|q l IH]; intros p Hp; [by apply elem_of_nil in Hp|].
    apply elem_of_cons in Hp as [->|Hp]; simpl; [lia|]. apply IH in Hp. lia. }
  apply Hl in Hx. simpl in Hx. unfold fresh_key in Hx. lia.
Qed.

Definition edge_list (g : map_graph) : list (Z * (Z * Z * E)) := map_to_list (mg_edges g).

(** Nodes within [fuel] open steps. *)
Fixpoint reach_from (ok : E → bool) (g : map_graph) (fuel : nat) (seen : list Z) : list Z :=
  match fuel with
  | O => seen
  | S fuel => reach_from ok g fuel
      (seen ++ omap (λ p : Z * (Z * Z * E),
         if ok p.2.2 && bool_decide (p.2.1.1 ∈ seen) && bool_decide (p.2.1.2 ∉ seen)
         then Some p.2.1.2 else None) (edge_list g))
  end.

Definition map_graph_ops : StableDiGraph N E := {|
  graph := map_graph;
  g_default := mkGraph ∅ ∅;
  add_node n g := let i := fresh_key (mg_nodes g) in
    (mkGraph (<[i := n]> (mg_nodes g)) (mg_edges g), i);
  remove_node i g := mkGraph (delete i (mg_nodes g))
    (filter (λ p : Z * (Z * Z * E), p.2.1.1 ≠ i ∧ p.2.1.2 ≠ i) (mg_edges g));
  node_weight g i := mg_nodes g !! i;
  modify_node i f g := mkGraph (alter f i (mg_nodes g)) (mg_edges g);
  add_edge a b w g := mkGraph (mg_nodes g) (<[fresh_key (mg_edges g) := (a, b, w)]> (mg_edges g));
  remove_edge e g := (mkGraph (mg_nodes g) (delete e (mg_edges g)), snd <$> (mg_edges g !! e));
  modify_edge e f g := mkGraph (mg_nodes g) (alter (λ p, (p.1, f p.2)) e (mg_edges g));
  edges_connecting g a b :=
    (λ p, (p.1, p.2.2)) <$> filter (λ p, p.2.1 = (a, b)) (edge_list g);
  edges_outgoing g a :=
    (λ p, (p.1, p.2.1.2, p.2.2)) <$> filter (λ p, p.2.1.1 = a) (edge_list g);
  neighbors_undirected g a :=
    (λ p, if decide (p.2.1.1 = a) then p.2.1.2 else p.2.1.1) <$>
      filter (λ p, p.2.1.1 = a ∨ p.2.1.2 = a) (edge_list g);
  node_count g := Z.of_nat (size (mg_nodes g));
  edge_count g := Z.of_nat (size (mg_edges g));
  has_path_connecting ok g a b :=
    bool_decide (b ∈ reach_from ok g (size (mg_nodes g)) [a])
|}.

Lemma elem_of_edge_list g e s d w :
  (e, (s, d, w)) ∈ edge_list g ↔ mg_edges g !! e = Some (s, d, w).
Proof. apply elem_of_map_to_list. Qed.

Lemma map_graph_connecting (g : map_graph) a b e w :
  (e, w) ∈ (λ p, (p.1, p.2.2)) <$> filter (λ p, p.2.1 = (a, b)) (edge_list g) ↔
  mg_edges g !! e = Some (a, b, w).
Proof.
  rewrite <-elem_of_edge_list, list_elem_of_fmap. split.
  - intros ([e' [[s d] w']] & [= -> ->] & [Hp Hin]%list_elem_of_filter). simpl in Hp. by simplify_eq.
  - intros Hin. exists (e, (a, b, w)). split; [done|]. by apply list_elem_of_filter.
Qed.

Lemma map_graph_outgoing (g : map_graph) a e b w :
  (e, b, w) ∈ (λ p, (p.1, p.2.1.2, p.2.2)) <$> filter (λ p, p.2.1.1 = a) (edge_list g) ↔
  mg_edges g !! e = Some (a, b, w).
Proof.
  rewrite <-elem_of_edge_list, list_elem_of_fmap. split.
  - intros ([e' [[s d] w']] & [= -> -> ->] & [Hp Hin]%list_elem_of_filter). simpl in Hp. by subst.
  - intros Hin. exists (e, (a, b, w)). split; [done|]. by apply list_elem_of_filter.
Qed.

Lemma map_graph_outgoing_nodup (g : map_graph) a :
  NoDup ((λ p, (p.1, p.2.1.2, p.2.2)) <$> filter (λ p, p.2.1.1 = a) (edge_list g)).
Proof.
  apply NoDup_fmap_2_strong; [|apply NoDup_filter, NoDup_map_to_list].
  intros [e1 [[s1 d1] w1]] [e2 [[s2 d2] w2]] [H1 _]%list_elem_of_filter [H2 _]%list_elem_of_filter.
  simpl in *. intros [= -> -> ->]. by subst.
Qed.

Lemma map_graph_neighbors (g : map_graph) a :
  (λ p, if decide (p.2.1.1 = a) then p.2.1.2 else p.2.1.1) <$>
    filter (λ p, p.2.1.1 = a ∨ p.2.1.2 = a) (edge_list g) = [] ↔
  ∀ e s d w, mg_edges g !! e = Some (s, d, w) → s ≠ a ∧ d ≠ a.
Proof.
  split.
  - intros Hn%fmap_nil_inv e s d w He%elem_of_edge_list.
    assert ((e, (s, d, w)) ∉ filter (λ p, p.2.1.1 = a ∨ p.2.1.2 = a) (edge_list g)) as Hf
      by (rewrite Hn; apply not_elem_of_nil).
    rewrite list_elem_of_filter in Hf. simpl in Hf. tauto.
  - intros Hall. destruct (filter _ _) as [|p l] eqn:Hf; [done|]. exfalso.
    assert (p ∈ filter (λ p, p.2.1.1 = a ∨ p.2.1.2 = a) (edge_list g)) as Hp by (rewrite Hf; by left).
    destruct p as [e [[s d] w]]. apply list_elem_of_filter in Hp as [Hor Hin%elem_of_edge_list].
    apply Hall in Hin. simpl in Hor. tauto.
Qed.

Lemma map_graph_laws : @StableDiGraphLaws N E map_graph_ops.
Proof.
  refine {| nodes := mg_nodes : @graph N E map_graph_ops → _; edges := mg_edges : @graph N E map_graph_ops → _ |}.
  all: try done; simpl.
  - intros n g g' i [= <- <-]. split_and!; [apply fresh_key_none|done..].
  - intros a b w g _ _. eexists. split; [apply fresh_key_none|done].
  - apply map_graph_connecting.
  - intros g a e b w. apply map_graph_outgoing.
  - apply map_graph_outgoing_nodup.
  - apply map_graph_neighbors.
Defined.
End MapGraph.
