(* ===== verification/ChannelGraph.v ===== *)
(** * The channel graph

    Models [logic/path/src/channel_graph.rs]: the in-memory graph of payment
    channels with node and edge scores, its updates from the chain indexer and
    from network probes, and its queries.  The graph library is the class of
    [Graph]; node indices are [u32] there, so the casts to [u32] are the
    identity.  The metrics and the DOT export are left out. *)
From S2P Require Import Prelude Primitives Channels Graph.
From Stdlib Require Import Floats.SpecFloat.

#[export] Instance Address_eq_dec : EqDecision Address := list_eq_dec.
#[export] Instance Address_countable : Countable Address := list_countable.

(** ** Errors of the crate *)
Inductive PathError :=
| PathNotValid
| InvalidPeer
| UnknownPeer
| MissingChannel (source destination : Address)
| ChannelNotOpened (source destination : Address)
| LoopsNotAllowed (address : Address)
| PathNotFound (hops : Z) (source destination : Address)
| PathOtherError (e : GeneralError).

(** ** Floats and durations (standard library) *)
Definition f64_min (a b : f64) : f64 :=
  match a, b with
  | S754_nan, _ => b
  | _, S754_nan => a
  | _, _ => if SFltb b a then b else a
  end.

Definition f64_clamp (x lo hi : f64) : f64 :=
  if SFltb x lo then lo else if SFltb hi x then hi else x.

Definition f64_div : f64 → f64 → f64 := SFdiv 53 1024.

(** [Duration] as a sample of the moving average: nanoseconds. *)
Definition duration_sample : Sample Z := {|
  s_zero := 0; s_add := Z.add; s_sub := Z.sub; s_div := Z.div |}.

(** ** Edges, nodes and configuration *)
Record ChannelEdge := mkEdge { channel : ChannelEntry; edge_score : option f64 }.

Record Node := mkNode {
  n_address : Address;
  node_score : f64;
  latency : SingleSumSMA Z
}.

Record ChannelGraphConfig := mkGraphConfig {
  latency_sma_window_length : Z;
  node_score_step_up : f64;
  node_score_decay : f64;
  offline_node_score_threshold : f64
}.

Definition f64_tenth : f64 := f64_from_bits 0x3FB999999999999A.

Definition ChannelGraphConfig_default : ChannelGraphConfig := {|
  latency_sma_window_length := 20;
  node_score_step_up := f64_tenth;
  node_score_decay := f64_from_bits 0x4010000000000000;
  offline_node_score_threshold := f64_tenth |}.

Inductive NodeScoreUpdate := Reachable (l : Z) | Unreachable | Initialize (l : Z) (score : f64).

Definition NodeScoreUpdate_from {E} (result : outcome E Z) : NodeScoreUpdate :=
  match result with Ok duration => Reachable duration | _ => Unreachable end.

Definition is_unreachable (u : NodeScoreUpdate) : bool :=
  match u with Unreachable => true | _ => false end.

Definition Node_new (address : Address) (latency_window_length : Z) : Node :=
  mkNode address f64_zero (mkSingleSum [] latency_window_length 0).

Definition latency_push (l : Z) (s : SingleSumSMA Z) : SingleSumSMA Z := @ss_push Z duration_sample l s.
Definition latency_clear (s : SingleSumSMA Z) : SingleSumSMA Z := @ss_clear Z duration_sample s.
Definition latency_average (s : SingleSumSMA Z) : option Z := @ss_average Z duration_sample s.

Definition update_score (score_update : NodeScoreUpdate) (cfg : ChannelGraphConfig) (n : Node) : Node :=
  match score_update with
  | Reachable l =>
      mkNode (n_address n) (f64_min f64_one (f64_add (node_score n) (node_score_step_up cfg)))
        (latency_push l (latency n))
  | Unreachable =>
      let s := f64_div (node_score n) (node_score_decay cfg) in
      mkNode (n_address n) (if SFltb s (offline_node_score_threshold cfg) then f64_zero else s)
        (latency_clear (latency n))
  | Initialize l score =>
      mkNode (n_address n) (f64_clamp score f64_zero f64_one)
        (latency_push l (latency_clear (latency n)))
  end.

(** ** The graph *)
Section ChannelGraph.
Context `{!StableDiGraph Node ChannelEdge}.

Record ChannelGraph := mkChannelGraph {
  me : Address;
  indices : gmap Address Z;
  cg_graph : graph;
  cg_cfg : ChannelGraphConfig
}.

Definition set_indices m (cg : ChannelGraph) := mkChannelGraph (me cg) m (cg_graph cg) (cg_cfg cg).
Definition set_graph g (cg : ChannelGraph) := mkChannelGraph (me cg) (indices cg) g (cg_cfg cg).

Definition ChannelGraph_new (me : Address) (cfg : ChannelGraphConfig) : ChannelGraph :=
  let w := latency_sma_window_length cfg in
  let samples := replicate (Z.to_nat w) 0 in
  let '(g, i) := add_node (mkNode me f64_one (mkSingleSum samples w 0)) g_default in
  mkChannelGraph me {[me := i]} g cfg.

Definition count_channels (cg : ChannelGraph) : Z := edge_count (cg_graph cg).
Definition count_nodes (cg : ChannelGraph) : Z := node_count (cg_graph cg).

Definition is_own_channel (cg : ChannelGraph) (c : ChannelEntry) : bool :=
  bool_decide (destination c = me cg) || bool_decide (source c = me cg).

Definition get_edge (cg : ChannelGraph) (src dst : Address) : option (Z * ChannelEdge) :=
  src_idx ← indices cg !! src;
  dst_idx ← indices cg !! dst;
  head (edges_connecting (cg_graph cg) src_idx dst_idx).

Definition get_channel (cg : ChannelGraph) (source destination : Address) : option ChannelEntry :=
  (λ e, channel (snd e)) <$> get_edge cg source destination.

Definition get_node (cg : ChannelGraph) (a : Address) : option Node :=
  index ← indices cg !! a; node_weight (cg_graph cg) index.

(** [open_channels_from]: an unknown source selects the index [node_count()];
    indexing the graph by a missing target panics. *)
Definition open_channels_from {E} (cg : ChannelGraph) (source : Address) :
    outcome E (list (Node * ChannelEdge)) :=
  let idx := default (wrap 32 (node_count (cg_graph cg))) (indices cg !! source) in
  mapM (λ p, n ← unwrap_option (node_weight (cg_graph cg) p.1.2); Ok (n, p.2))
    (filter (λ p : Z * Z * ChannelEdge, ChannelStatus_eqb (status (channel p.2)) Open)
       (edges_outgoing (cg_graph cg) idx)).

Definition has_path (cg : ChannelGraph) (source destination : Address) : bool :=
  match indices cg !! source, indices cg !! destination with
  | Some src_idx, Some dst_idx =>
      has_path_connecting (λ e, ChannelStatus_eqb (status (channel e)) Open) (cg_graph cg) src_idx dst_idx
  | _, _ => false
  end.

(** ** Updates *)
Abbreviation GM := (SM ChannelGraph PathError).

(** [*self.indices.entry(address).or_insert_with(..)]. *)
Definition index_or_insert (address : Address) : GM Z := λ cg,
  match indices cg !! address with
  | Some i => (cg, Ok i)
  | None =>
      let '(g, i) := add_node (Node_new address (latency_sma_window_length (cg_cfg cg))) (cg_graph cg) in
      (set_indices (<[address := i]> (indices cg)) (set_graph g cg), Ok i)
  end.

Definition update_channel (c : ChannelEntry) : GM (option (list ChannelChange)) :=
  cg ← get;
  let maybe_edge := get_edge cg (source c) (destination c) in
  if ChannelStatus_eqb (status c) Closed then
    match maybe_edge with
    | Some (edge_id, _) =>
        let '(g, removed) := remove_edge edge_id (cg_graph cg) in
        modify (set_graph g);;
        match removed with
        | Some old_value => changes ← lift (diff_channels (channel old_value) c); mret (Some changes)
        | None => mret None
        end
    | None => mret None
    end
  else
    match maybe_edge with
    | Some (edge_id, old_value) =>
        modify (set_graph (modify_edge edge_id (λ e, mkEdge c (edge_score e)) (cg_graph cg)));;
        changes ← lift (diff_channels (channel old_value) c);
        mret (Some changes)
    | None =>
        src ← index_or_insert (source c);
        dst ← index_or_insert (destination c);
        modify (λ cg, set_graph (add_edge src dst (mkEdge c None) (cg_graph cg)) cg);;
        mret None
    end.

Definition update_node_score (address : Address) (score_update : NodeScoreUpdate)
    (cg : ChannelGraph) : ChannelGraph :=
  if bool_decide (me cg = address) then cg
  else match indices cg !! address with
  | Some idx =>
      if negb (is_unreachable score_update) ||
         (0 <? Z.of_nat (length (neighbors_undirected (cg_graph cg) idx))) then
        match node_weight (cg_graph cg) idx with
        | Some _ => set_graph (modify_node idx (update_score score_update (cg_cfg cg)) (cg_graph cg)) cg
        | None => set_indices (delete address (indices cg)) cg
        end
      else
        match node_weight (cg_graph cg) idx with
        | Some n =>
            let g := modify_node idx (update_score score_update (cg_cfg cg)) (cg_graph cg) in
            if SFltb (node_score (update_score score_update (cg_cfg cg) n))
                 (offline_node_score_threshold (cg_cfg cg))
            then set_indices (delete address (indices cg)) (set_graph (remove_node idx g) cg)
            else set_graph g cg
        | None => cg
        end
  | None =>
      if negb (is_unreachable score_update) then
        let n := update_score score_update (cg_cfg cg)
                   (Node_new address (latency_sma_window_length (cg_cfg cg))) in
        let '(g, i) := add_node n (cg_graph cg) in
        set_indices (<[address := i]> (indices cg)) (set_graph g cg)
      else cg
  end.

(** [update_channel_score]: asserts a non-negative score. *)
Definition update_channel_score (source destination : Address) (score : f64) : GM unit :=
  if negb (SFleb f64_zero score) then lift Panic
  else
    cg ← get;
    match get_edge cg source destination with
    | Some (edge_id, e) =>
        if negb (SFeqb score (default (f64_from_bits 0xBFF0000000000000) (edge_score e)))
        then modify (set_graph (modify_edge edge_id (λ e, mkEdge (channel e) (Some score)) (cg_graph cg)))
        else mret tt
    | None => mret tt
    end.

Definition get_channel_score (cg : ChannelGraph) (source destination : Address) : option f64 :=
  '(_, e) ← get_edge cg source destination; edge_score e.

Definition contains_channel (cg : ChannelGraph) (c : ChannelEntry) : bool :=
  match get_channel cg (source c) (destination c) with Some _ => true | None => false end.

Definition contains_node (cg : ChannelGraph) (a : Address) : bool :=
  match get_node cg a with Some _ => true | None => false end.

End ChannelGraph.
