(* ===== verification/ChannelGraphSpec.v ===== *)
(** * The channel graph implements a map of channels

    The well-formedness of [ChannelGraph], its preservation by every update,
    and the refinement of the abstract map from (source, destination) to the
    latest entry that is not closed. *)
From S2P Require Import Prelude Primitives Channels Graph ChannelGraph.
From Stdlib Require Import Floats.SpecFloat.

Lemma ChannelStatus_eqb_Closed s : ChannelStatus_eqb s Closed = true ↔ s = Closed.
Proof. by destruct s. Qed.

Lemma ChannelStatus_eqb_Open s : ChannelStatus_eqb s Open = true ↔ s = Open.
Proof. by destruct s. Qed.

Section Spec.
Context `{!StableDiGraph Node ChannelEdge, !StableDiGraphLaws Node ChannelEdge}.
#[local] Set Default Proof Using "Type*".

(** [indices] and the nodes of the graph are inverse to each other, every edge
    joins the nodes of its channel, is not closed and has no twin. *)
Record graph_wf (cg : ChannelGraph) : Prop := {
  gw_me : is_Some (indices cg !! me cg);
  gw_index a i : indices cg !! a = Some i →
    ∃ n, nodes (cg_graph cg) !! i = Some n ∧ n_address n = a;
  gw_node i n : nodes (cg_graph cg) !! i = Some n → indices cg !! n_address n = Some i;
  gw_edge e s d w : edges (cg_graph cg) !! e = Some (s, d, w) →
    indices cg !! source (channel w) = Some s ∧ indices cg !! destination (channel w) = Some d ∧
    status (channel w) ≠ Closed;
  gw_unique e1 e2 s d w1 w2 : edges (cg_graph cg) !! e1 = Some (s, d, w1) →
    edges (cg_graph cg) !! e2 = Some (s, d, w2) → e1 = e2
}.

Lemma gw_index_inj cg a b i :
  graph_wf cg → indices cg !! a = Some i → indices cg !! b = Some i → a = b.
Proof.
  intros Hwf Ha Hb. destruct (gw_index _ Hwf _ _ Ha) as (n & Hn & <-).
  destruct (gw_index _ Hwf _ _ Hb) as (n' & Hn' & <-). congruence.
Qed.

(** The edge from [src] to [dst]. *)
Lemma get_edge_Some cg src dst e w :
  graph_wf cg →
  get_edge cg src dst = Some (e, w) ↔
  ∃ i j, indices cg !! src = Some i ∧ indices cg !! dst = Some j ∧
    edges (cg_graph cg) !! e = Some (i, j, w).
Proof.
  intros Hwf. unfold get_edge. destruct (indices cg !! src) as [i|]; cbn;
    [|by split; [|intros (? & ? & ? & _)]].
  destruct (indices cg !! dst) as [j|]; cbn; [|by split; [|intros (? & ? & _ & ? & _)]].
  split.
  - intros Hh%head_Some_elem_of. apply edges_connecting_spec in Hh. eauto.
  - intros (i' & j' & [= <-] & [= <-] & He).
    assert ((e, w) ∈ edges_connecting (cg_graph cg) i j) as Hin by by apply edges_connecting_spec.
    destruct (edges_connecting (cg_graph cg) i j) as [|[e' w'] l] eqn:El; [by apply elem_of_nil in Hin|].
    assert ((e', w') ∈ edges_connecting (cg_graph cg) i j) as Hin' by (rewrite El; by left).
    apply edges_connecting_spec in Hin'. cbn.
    assert (e' = e) as -> by by eapply gw_unique. by simplify_eq.
Qed.

Lemma get_channel_Some cg src dst c :
  graph_wf cg →
  get_channel cg src dst = Some c ↔
  ∃ e w, edges (cg_graph cg) !! e = Some w ∧ channel (snd w) = c ∧ source c = src ∧ destination c = dst.
Proof.
  intros Hwf. unfold get_channel. rewrite fmap_Some. split.
  - intros ([e w] & He & ->). apply get_edge_Some in He as (i & j & Hi & Hj & He); [|done].
    exists e, (i, j, w). split; [done|]. cbn. split; [done|].
    destruct (gw_edge _ Hwf _ _ _ _ He) as (Hs & Hd & _).
    split; by eapply gw_index_inj.
  - intros (e & [[i j] w] & He & <- & <- & <-). exists (e, w). split; [|done].
    apply get_edge_Some; [done|]. destruct (gw_edge _ Hwf _ _ _ _ He) as (Hs & Hd & _). eauto.
Qed.

(** A graph with the same channels on its edges answers alike. *)
Lemma get_channel_ext cg cg' src dst :
  graph_wf cg → graph_wf cg' →
  (∀ c, (∃ e w, edges (cg_graph cg) !! e = Some w ∧ channel (snd w) = c ∧ source c = src ∧ destination c = dst) ↔
        (∃ e w, edges (cg_graph cg') !! e = Some w ∧ channel (snd w) = c ∧ source c = src ∧ destination c = dst)) →
  get_channel cg src dst = get_channel cg' src dst.
Proof.
  intros Hwf Hwf' Hex. apply option_eq. intros c. rewrite !get_channel_Some by done. apply Hex.
Qed.

Lemma ChannelGraph_new_wf addr cfg : graph_wf (ChannelGraph_new addr cfg).
Proof.
  unfold ChannelGraph_new. destruct (add_node _ g_default) as [g i] eqn:Ha.
  apply add_node_spec in Ha as (_ & Hn & He). rewrite default_nodes in Hn. rewrite default_edges in He.
  split; cbn.
  - rewrite lookup_singleton_eq. by eexists.
  - intros a j [<- <-]%lookup_singleton_Some. rewrite Hn, lookup_insert_eq. by eexists.
  - intros j n. rewrite Hn. intros [[<- <-]|[_ Hl]]%lookup_insert_Some; [|by rewrite lookup_empty in Hl].
    apply lookup_singleton_eq.
  - intros e s d w. by rewrite He, lookup_empty.
  - intros e1 e2 s d w1 w2. by rewrite He, lookup_empty.
Qed.

(** ** Inserting a node *)

Lemma insert_node_wf cg n g i :
  graph_wf cg → indices cg !! n_address n = None → add_node n (cg_graph cg) = (g, i) →
  graph_wf (set_indices (<[n_address n := i]> (indices cg)) (set_graph g cg)) ∧
  edges g = edges (cg_graph cg).
Proof.
  intros Hwf Hj (Hfresh & Hn & He)%add_node_spec. split; [|done].
  destruct Hwf as [[m Hm] Hi Hnd Hed Hu]. split; cbn; rewrite ?Hn, ?He; [..|done].
  - destruct (decide (n_address n = me cg)) as [E|]; [congruence|].
    rewrite lookup_insert_ne by done. by eexists.
  - intros a j. intros [[<- <-]|[Hne Hl]]%lookup_insert_Some; [rewrite lookup_insert_eq; by eexists|].
    destruct (Hi _ _ Hl) as (n' & Hn' & <-). exists n'. split; [|done].
    rewrite lookup_insert_ne; [done|]. intros ->. congruence.
  - intros j n'. intros [[<- <-]|[Hne Hl]]%lookup_insert_Some; [apply lookup_insert_eq|].
    rewrite lookup_insert_ne; [by apply Hnd|]. intros Heq. apply Hnd in Hl. by rewrite <-Heq, Hj in Hl.
  - intros e s d w Hew. destruct (Hed _ _ _ _ Hew) as (Hs & Hd & Hc).
    split_and!; [rewrite lookup_insert_ne; [done|]; intros Heq; by rewrite <-Heq, Hj in Hs
      |rewrite lookup_insert_ne; [done|]; intros Heq; by rewrite <-Heq, Hj in Hd|done].
Qed.

Lemma index_or_insert_spec cg addr cg' i :
  graph_wf cg → index_or_insert addr cg = (cg', Ok i) →
  graph_wf cg' ∧ indices cg' !! addr = Some i ∧
  edges (cg_graph cg') = edges (cg_graph cg) ∧
  (∀ a j, indices cg !! a = Some j → indices cg' !! a = Some j).
Proof.
  intros Hwf. unfold index_or_insert. destruct (indices cg !! addr) as [j|] eqn:Hj.
  { intros [= <- <-]. split_and!; done. }
  destruct (add_node _ _) as [g k] eqn:Ha. intros [= <- <-].
  destruct (insert_node_wf cg (Node_new addr _) g k Hwf Hj Ha) as [Hwf' He].
  split_and!; [done|apply lookup_insert_eq|done|].
  intros a j Ha'. cbn. rewrite lookup_insert_ne; [done|]. intros ->. congruence.
Qed.

(** ** Updates of one edge *)

(** A graph that differs in its edges only. *)
Lemma graph_wf_edges cg g :
  graph_wf cg → nodes g = nodes (cg_graph cg) →
  (∀ e s d w, edges g !! e = Some (s, d, w) →
     indices cg !! source (channel w) = Some s ∧ indices cg !! destination (channel w) = Some d ∧
     status (channel w) ≠ Closed) →
  (∀ e1 e2 s d w1 w2, edges g !! e1 = Some (s, d, w1) → edges g !! e2 = Some (s, d, w2) → e1 = e2) →
  graph_wf (set_graph g cg).
Proof. intros [Hm Hi Hn _ _] Hg He Hu. split; cbn; rewrite ?Hg; done. Qed.

Definition edge_channel (cg : ChannelGraph) (src dst : Address) (c : ChannelEntry) : Prop :=
  ∃ e w, edges (cg_graph cg) !! e = Some w ∧ channel (snd w) = c ∧ source c = src ∧ destination c = dst.

(** The effect of an update of the channel from [src] to [dst]. *)
Definition updated (cg cg' : ChannelGraph) (src dst : Address) (new : option ChannelEntry) : Prop :=
  graph_wf cg' ∧
  ∀ s d, get_channel cg' s d = if decide (s = src ∧ d = dst) then new else get_channel cg s d.

Lemma updated_intro cg cg' src dst new :
  graph_wf cg → graph_wf cg' → get_channel cg' src dst = new →
  (∀ s d c, ¬ (s = src ∧ d = dst) → edge_channel cg' s d c ↔ edge_channel cg s d c) →
  updated cg cg' src dst new.
Proof.
  intros Hwf Hwf' Hnew Hrest. split; [done|]. intros s d.
  destruct (decide (s = src ∧ d = dst)) as [[-> ->]|Hne]; [done|].
  by apply get_channel_ext; [..|intros c; apply Hrest].
Qed.

Lemma remove_channel_edge cg src dst e w :
  graph_wf cg → get_edge cg src dst = Some (e, w) →
  updated cg (set_graph (fst (remove_edge e (cg_graph cg))) cg) src dst None.
Proof.
  intros Hwf Hge. pose proof Hge as (i & j & Hi & Hj & He)%get_edge_Some; [|done].
  assert (graph_wf (set_graph (fst (remove_edge e (cg_graph cg))) cg)) as Hwf'.
  { apply graph_wf_edges; [done|apply remove_edge_nodes|..]; setoid_rewrite remove_edge_edges.
    - intros e' s d w' [_ Hl]%lookup_delete_Some. by apply (gw_edge _ Hwf e').
    - intros e1 e2 s d w1 w2 [_ H1]%lookup_delete_Some [_ H2]%lookup_delete_Some.
      by eapply gw_unique. }
  apply updated_intro; [done..| |].
  - unfold get_channel. destruct (get_edge (set_graph _ cg) src dst) as [[e' w']|] eqn:Hg; [|done].
    exfalso.
    apply get_edge_Some in Hg as (i' & j' & Hi' & Hj' & He'); [|done].
    cbn [indices set_graph] in Hi', Hj'. rewrite Hi in Hi'. rewrite Hj in Hj'.
    injection Hi' as <-. injection Hj' as <-.
    cbn [cg_graph set_graph] in He'. rewrite remove_edge_edges in He'. apply lookup_delete_Some in He' as [Hne He'].
    apply Hne. by eapply (gw_unique _ Hwf).
  - intros s d c Hne. unfold edge_channel. cbn. setoid_rewrite remove_edge_edges. split.
    + intros (e' & w' & [_ Hl]%lookup_delete_Some & Hc). eauto.
    + intros (e' & [[s' d'] w'] & Hl & Hc & Hs & Hd). exists e', (s', d', w').
      split; [|done]. apply lookup_delete_Some. split; [|done]. intros <-.
      assert ((i, j, w) = (s', d', w')) as [= <- <- <-] by congruence. cbn in Hc.
      destruct (gw_edge _ Hwf _ _ _ _ He) as (H1 & H2 & _). apply Hne. subst c s d.
      split; by eapply gw_index_inj.
Qed.

Lemma lookup_modify_edge e f (g : graph) e' s d w' :
  edges (modify_edge e f g) !! e' = Some (s, d, w') ↔
  ∃ w0, edges g !! e' = Some (s, d, w0) ∧ w' = if decide (e' = e) then f w0 else w0.
Proof.
  rewrite modify_edge_edges, lookup_alter_Some. split.
  - intros [(-> & [[s' d'] w0] & Hl & [= -> -> ->])|[Hne Hl]].
    + exists w0. by rewrite decide_True.
    + exists w'. by rewrite decide_False.
  - intros (w0 & Hl & ->). destruct (decide (e' = e)) as [->|Hne]; [left|by right].
    split; [done|]. by exists (s, d, w0).
Qed.

(** An edge update that keeps the endpoints. *)
Lemma modify_edge_wf cg e f :
  graph_wf cg →
  (∀ s d w, edges (cg_graph cg) !! e = Some (s, d, w) →
     source (channel (f w)) = source (channel w) ∧
     destination (channel (f w)) = destination (channel w) ∧ status (channel (f w)) ≠ Closed) →
  graph_wf (set_graph (modify_edge e f (cg_graph cg)) cg).
Proof.
  intros Hwf Hf. apply graph_wf_edges; [done|apply modify_edge_nodes|..].
  - intros e' s d w (w0 & Hl & ->)%lookup_modify_edge.
    destruct (gw_edge _ Hwf _ _ _ _ Hl) as (H1 & H2 & H3).
    destruct (decide (e' = e)) as [->|]; [|done].
    by destruct (Hf _ _ _ Hl) as (-> & -> & ?).
  - intros e1 e2 s d w1 w2 (? & H1 & _)%lookup_modify_edge (? & H2 & _)%lookup_modify_edge.
    by eapply (gw_unique _ Hwf).
Qed.

Lemma replace_channel_edge cg c e w :
  graph_wf cg → get_edge cg (source c) (destination c) = Some (e, w) → status c ≠ Closed →
  updated cg (set_graph (modify_edge e (λ w, mkEdge c (edge_score w)) (cg_graph cg)) cg)
    (source c) (destination c) (Some c).
Proof.
  intros Hwf Hge Hc. pose proof Hge as (i & j & Hi & Hj & He)%get_edge_Some; [|done].
  destruct (gw_edge _ Hwf _ _ _ _ He) as (Hs & Hd & _).
  assert (source (channel w) = source c) as Es by by eapply gw_index_inj.
  assert (destination (channel w) = destination c) as Ed by by eapply gw_index_inj.
  assert (graph_wf (set_graph (modify_edge e (λ w, mkEdge c (edge_score w)) (cg_graph cg)) cg)) as Hwf'.
  { apply modify_edge_wf; [done|]. intros s d w' Hl. rewrite He in Hl. by injection Hl as <- <- <-. }
  apply updated_intro; [done..| |].
  - apply get_channel_Some; [done|]. exists e, (i, j, mkEdge c (edge_score w)). split; [|done].
    apply lookup_modify_edge. exists w. by rewrite decide_True.
  - intros s d c' Hne. unfold edge_channel. cbn. split.
    + intros (e' & [[s' d'] w'] & (w0 & Hl & ->)%lookup_modify_edge & Hc' & <- & <-).
      cbn in Hc'. destruct (decide (e' = e)) as [->|]; [by subst c'; destruct Hne|].
      by exists e', (s', d', w0).
    + intros (e' & [[s' d'] w'] & Hl & Hc' & <- & <-). exists e', (s', d', w').
      split; [|done]. apply lookup_modify_edge. exists w'. split; [done|].
      rewrite decide_False; [done|]. intros ->. cbn in Hc'. rewrite He in Hl.
      injection Hl as <- <- <-. apply Hne. by subst c'.
Qed.

Lemma add_channel_edge cg c cg1 cg2 i j :
  graph_wf cg → status c ≠ Closed → get_edge cg (source c) (destination c) = None →
  index_or_insert (source c) cg = (cg1, Ok i) → index_or_insert (destination c) cg1 = (cg2, Ok j) →
  updated cg (set_graph (add_edge i j (mkEdge c None) (cg_graph cg2)) cg2)
    (source c) (destination c) (Some c).
Proof.
  intros Hwf Hc Hge H1 H2.
  apply index_or_insert_spec in H1 as (Hwf1 & Hi & E1 & _); [|done].
  apply index_or_insert_spec in H2 as (Hwf2 & Hj & E2 & K2); [|done].
  apply K2 in Hi as Hi2. rewrite E1 in E2.
  destruct (gw_index _ Hwf2 _ _ Hi2) as (ni & Hni & _), (gw_index _ Hwf2 _ _ Hj) as (nj & Hnj & _).
  destruct (add_edge_edges i j (mkEdge c None) (cg_graph cg2)) as (e & Hfresh & He); [by eexists..|].
  rewrite E2 in Hfresh, He.
  assert (∀ e' w', edges (cg_graph cg) !! e' ≠ Some (i, j, w')) as Hno.
  { intros e' w' Hl. rewrite <-E2 in Hl.
    destruct (gw_edge _ Hwf2 _ _ _ _ Hl) as (Hs & Hd & _).
    assert (source (channel w') = source c) as Es by by eapply (gw_index_inj cg2).
    assert (destination (channel w') = destination c) as Ed by by eapply (gw_index_inj cg2).
    rewrite E2 in Hl. destruct (gw_edge _ Hwf _ _ _ _ Hl) as (Hs0 & Hd0 & _).
    rewrite Es in Hs0. rewrite Ed in Hd0.
    assert (get_edge cg (source c) (destination c) = Some (e', w')) as Hg
      by (apply get_edge_Some; [done|]; eauto). congruence. }
  assert (graph_wf (set_graph (add_edge i j (mkEdge c None) (cg_graph cg2)) cg2)) as Hwf'.
  { apply graph_wf_edges; [done|apply add_edge_nodes|..]; setoid_rewrite He.
    - intros e' s d w [[<- [= <- <- <-]]|[_ Hl]]%lookup_insert_Some; [done|].
      rewrite <-E2 in Hl. by apply (gw_edge _ Hwf2 e').
    - intros e1 e2 s d w1 w2 [[<- [= <- <- <-]]|[Hn1 L1]]%lookup_insert_Some
        [[<- E]|[Hn2 L2]]%lookup_insert_Some; [done| | |].
      + by apply Hno in L2.
      + injection E as <- <- <-. by apply Hno in L1.
      + by eapply (gw_unique _ Hwf). }
  apply updated_intro; [done..| |].
  - apply get_channel_Some; [done|]. exists e, (i, j, mkEdge c None). split; [|done].
    cbn. rewrite He. apply lookup_insert_eq.
  - intros s d c' Hne. unfold edge_channel. cbn. setoid_rewrite He. split.
    + intros (e' & w' & [[<- <-]|[_ Hl]]%lookup_insert_Some & Hc' & <- & <-).
      * cbn in Hc'. subst c'. by destruct Hne.
      * by exists e', w'.
    + intros (e' & w' & Hl & Hrest). exists e', w'. split; [|done].
      rewrite lookup_insert_ne; [done|]. intros <-. congruence.
Qed.

Definition changes_reported (old : option ChannelEntry) (c : ChannelEntry)
    (ret : option (list ChannelChange)) : Prop :=
  match old with
  | None => ret = None
  | Some old => ∃ changes, ret = Some changes ∧ diff_channels (E:=PathError) old c = Ok changes
  end.

Definition latest (c : ChannelEntry) : option ChannelEntry :=
  if ChannelStatus_eqb (status c) Closed then None else Some c.

Lemma diff_channels_no_err {E} l r (e : E) : diff_channels l r ≠ Err e.
Proof.
  unfold diff_channels, U256_as. repeat (destruct (negb _)); try done;
    repeat (destruct (_ <? _)); done.
Qed.

Lemma update_channel_spec cg c cg' o :
  graph_wf cg → update_channel c cg = (cg', o) →
  updated cg cg' (source c) (destination c) (latest c) ∧ (∀ e, o ≠ Err e) ∧
  (∀ ret, o = Ok ret → changes_reported (get_channel cg (source c) (destination c)) c ret).
Proof.
  intros Hwf. unfold update_channel, latest, mbind, SM_bind, get, modify, lift. cbn [fst snd].
  unfold get_channel at 1.
  destruct (get_edge cg (source c) (destination c)) as [[e w]|] eqn:Hge;
    destruct (ChannelStatus_eqb (status c) Closed) eqn:Hc; cbn [fmap option_fmap option_map fst snd];
    pose proof (diff_channels_no_err (E:=PathError) (channel w) c) as Hne ||
    (assert (get_channel cg (source c) (destination c) = None) as Hnone
       by (unfold get_channel; by rewrite Hge)).
  - destruct (remove_edge e (cg_graph cg)) as [g removed] eqn:Hr.
    pose proof (remove_channel_edge _ _ _ _ _ Hwf Hge) as Hu. rewrite Hr in Hu.
    assert (removed = Some w) as ->.
    { pose proof (remove_edge_weight e (cg_graph cg)) as Hw. rewrite Hr in Hw. cbn in Hw. rewrite Hw.
      by apply get_edge_Some in Hge as (i & j & _ & _ & ->). }
    destruct (diff_channels (channel w) c) as [ch|err|] eqn:Hd; [|by edestruct Hne|];
      intros [= <- <-]; (split; [done|split; [done|]]); intros ret [= <-]. by exists ch.
  - pose proof (replace_channel_edge _ _ _ _ Hwf Hge) as Hu.
    assert (status c ≠ Closed) as Hc' by (intros E; rewrite E in Hc; done).
    destruct (diff_channels (channel w) c) as [ch|err|] eqn:Hd; [|by edestruct Hne|];
      intros [= <- <-]; (split; [by apply Hu|split; [done|]]); intros ret [= <-]. by exists ch.
  - intros [= <- <-]. split; [|split; [done|by intros ret [= <-]]].
    split; [done|]. intros s d. destruct (decide _) as [[-> ->]|]; done.
  - assert (status c ≠ Closed) as Hc' by (intros E; rewrite E in Hc; done).
    pose proof (add_channel_edge cg c) as Hadd.
    destruct (index_or_insert (source c) cg) as [cg1 [i| |]] eqn:H1;
      [|by unfold index_or_insert in H1; destruct (indices cg !! _); [|destruct (add_node _ _)]..].
    destruct (index_or_insert (destination c) cg1) as [cg2 [j| |]] eqn:H2;
      [|by unfold index_or_insert in H2; destruct (indices cg1 !! _); [|destruct (add_node _ _)]..].
    intros [= <- <-]. split; [by eapply Hadd|split; [done|by intros ret [= <-]]].
Qed.

(** ** Updates of node and edge scores *)

Lemma update_score_address u cfg n : n_address (update_score u cfg n) = n_address n.
Proof. by destruct u. Qed.

Lemma modify_node_wf cg i f :
  graph_wf cg → (∀ n, n_address (f n) = n_address n) →
  graph_wf (set_graph (modify_node i f (cg_graph cg)) cg) ∧
  edges (modify_node i f (cg_graph cg)) = edges (cg_graph cg).
Proof.
  intros [Hm Hi Hn He Hu] Hf. split; [|apply modify_node_edges].
  split; cbn; rewrite ?modify_node_nodes, ?modify_node_edges; try done.
  - intros a j Ha. destruct (Hi _ _ Ha) as (n & Hl & <-).
    destruct (decide (i = j)) as [->|Hne]; [|exists n; by rewrite lookup_alter_ne].
    exists (f n). split; [by rewrite lookup_alter_eq, Hl|apply Hf].
  - intros j n [(-> & n0 & Hl & ->)|[_ Hl]]%lookup_alter_Some; [rewrite Hf; by apply Hn|by apply Hn].
Qed.

Lemma remove_node_wf cg addr i :
  graph_wf cg → addr ≠ me cg → indices cg !! addr = Some i →
  neighbors_undirected (cg_graph cg) i = [] →
  graph_wf (set_indices (delete addr (indices cg)) (set_graph (remove_node i (cg_graph cg)) cg)) ∧
  edges (remove_node i (cg_graph cg)) = edges (cg_graph cg).
Proof.
  intros Hwf Hme Ha Hnb. pose proof (proj1 (neighbors_undirected_nil _ _) Hnb) as Hno.
  assert (edges (remove_node i (cg_graph cg)) = edges (cg_graph cg)) as He.
  { rewrite remove_node_edges. apply map_filter_id. intros e [[s d] w] Hl. cbn. by eapply Hno. }
  split; [|done]. destruct Hwf as [[m Hm] Hi Hn Hed Hu].
  assert (∀ a j, a ≠ addr → indices cg !! a = Some j → j ≠ i) as Hij.
  { intros a j Hne Hl ->. destruct (Hi _ _ Hl) as (n & Hn1 & <-), (Hi _ _ Ha) as (n' & Hn2 & <-). congruence. }
  split; cbn; rewrite ?He, ?remove_node_nodes; [..|done].
  - rewrite lookup_delete_ne by done. by eexists.
  - intros a j [Hne Hl]%lookup_delete_Some. destruct (Hi _ _ Hl) as (n & Hn' & <-).
    exists n. split; [|done]. rewrite lookup_delete_ne; [done|]. intros ->. by eapply Hij.
  - intros j n [Hne Hl]%lookup_delete_Some. apply Hn in Hl.
    rewrite lookup_delete_ne; [done|]. intros ->. congruence.
  - intros e s d w Hl. destruct (Hno _ _ _ _ Hl) as [Hs Hd]. destruct (Hed _ _ _ _ Hl) as (H1 & H2 & H3).
    split_and!; [rewrite lookup_delete_ne; [done|]; congruence..|done].
Qed.

Lemma update_node_score_spec addr u cg :
  graph_wf cg →
  graph_wf (update_node_score addr u cg) ∧
  ∀ s d, get_channel (update_node_score addr u cg) s d = get_channel cg s d.
Proof.
  intros Hwf.
  assert (graph_wf (update_node_score addr u cg) ∧
    edges (cg_graph (update_node_score addr u cg)) = edges (cg_graph cg)) as [Hwf' He]; cycle 1.
  { split; [done|]. intros s d. apply get_channel_ext; [done..|]. intros c. by rewrite He. }
  unfold update_node_score. case_bool_decide as Hme; [done|].
  destruct (indices cg !! addr) as [idx|] eqn:Hidx; cycle 1.
  { destruct (negb _); [|done]. destruct (add_node _ _) as [g i] eqn:Ha.
    match type of Ha with add_node ?n _ = _ => pose proof (insert_node_wf cg n g i Hwf) as Hins end.
    rewrite update_score_address in Hins. by apply Hins. }
  destruct (gw_index _ Hwf _ _ Hidx) as (n & Hn & Haddr).
  rewrite node_weight_spec, Hn.
  pose proof (modify_node_wf cg idx (update_score u (cg_cfg cg)) Hwf (update_score_address u _))
    as [Hmod Hmode].
  destruct (negb _ || _) eqn:Hor; [done|].
  destruct (SFltb _ _); [|done].
  assert (neighbors_undirected (cg_graph cg) idx = []) as Hnb.
  { apply orb_false_iff in Hor as [_ Hl]. destruct (neighbors_undirected _ _); [done|].
    apply Z.ltb_ge in Hl. cbn in Hl. lia. }
  destruct (remove_node_wf (set_graph (modify_node idx (update_score u (cg_cfg cg)) (cg_graph cg)) cg)
    addr idx) as [H1 H2]; [done|done|done| |].
  - apply neighbors_undirected_nil. cbn. rewrite Hmode. by apply neighbors_undirected_nil.
  - cbn in H2. split; [done|]. cbn. by rewrite H2, Hmode.
Qed.

Lemma update_channel_score_spec src dst score cg cg' o :
  graph_wf cg → update_channel_score src dst score cg = (cg', o) →
  graph_wf cg' ∧ ∀ s d, get_channel cg' s d = get_channel cg s d.
Proof.
  intros Hwf. unfold update_channel_score, mbind, SM_bind, get, modify, lift, mret, SM_ret.
  destruct (negb (SFleb _ _)); [by intros [= <- _]|].
  destruct (get_edge cg src dst) as [[e w]|]; [|by intros [= <- _]].
  destruct (negb _); [|by intros [= <- _]]. intros [= <- _].
  assert (graph_wf (set_graph (modify_edge e (λ e, mkEdge (channel e) (Some score)) (cg_graph cg)) cg)) as Hwf'.
  { apply modify_edge_wf; [done|]. intros s d w0 Hl. cbn. by destruct (gw_edge _ Hwf _ _ _ _ Hl) as (_ & _ & ?). }
  split; [done|]. intros s d. apply get_channel_ext; [done..|]. intros c. cbn. split.
  - intros (e' & [[s' d'] w'] & (w0 & Hl & ->)%lookup_modify_edge & Hc). exists e', (s', d', w0).
    split; [done|]. cbn in *. by destruct (decide _).
  - intros (e' & [[s' d'] w'] & Hl & Hc).
    exists e', (s', d', if decide (e' = e) then mkEdge (channel w') (Some score) else w').
    split; [apply lookup_modify_edge; eauto|]. cbn in *. by destruct (decide _).
Qed.

(** ** Refinement *)
Inductive graph_op :=
| OpChannel (c : ChannelEntry)
| OpNodeScore (a : Address) (u : NodeScoreUpdate)
| OpChannelScore (src dst : Address) (score : f64).

Definition graph_step (op : graph_op) : SM ChannelGraph PathError unit :=
  match op with
  | OpChannel c => update_channel c;; mret tt
  | OpNodeScore a u => modify (update_node_score a u)
  | OpChannelScore src dst score => update_channel_score src dst score
  end.

Fixpoint graph_run (ops : list graph_op) : SM ChannelGraph PathError unit :=
  match ops with
  | [] => mret tt
  | op :: ops => graph_step op;; graph_run ops
  end.

(** The abstract map: the latest entry of each pair, unless it is closed. *)
Abbreviation channel_map := (gmap (Address * Address) ChannelEntry).

Definition abstract_step (m : channel_map) (op : graph_op) : channel_map :=
  match op with
  | OpChannel c => partial_alter (λ _, latest c) (source c, destination c) m
  | _ => m
  end.

Lemma graph_step_refines op cg cg' o m :
  graph_wf cg → (∀ s d, get_channel cg s d = m !! (s, d)) → graph_step op cg = (cg', o) →
  graph_wf cg' ∧ ∀ s d, get_channel cg' s d = abstract_step m op !! (s, d).
Proof.
  intros Hwf Hm. destruct op as [c|a u|src dst score]; cbn [graph_step abstract_step].
  - unfold mbind, SM_bind. destruct (update_channel c cg) as [cg1 o1] eqn:Hu.
    apply update_channel_spec in Hu as ([Hwf' Hget] & _ & _); [|done].
    intros E. assert (cg' = cg1) as -> by (destruct o1; by injection E).
    split; [done|]. intros s d. rewrite Hget. case_decide as Hd.
    + destruct Hd as [-> ->]. by rewrite lookup_partial_alter_eq.
    + rewrite lookup_partial_alter_ne; [done|]. intros [= E1 E2]. by apply Hd.
  - intros [= <- _]. destruct (update_node_score_spec a u cg Hwf) as [? Hg]. split; [done|].
    intros s d. by rewrite Hg.
  - intros Hu. apply update_channel_score_spec in Hu as [? Hg]; [|done]. split; [done|].
    intros s d. by rewrite Hg.
Qed.

Lemma graph_run_refines ops cg0 cg m :
  graph_wf cg0 → (∀ s d, get_channel cg0 s d = m !! (s, d)) → graph_run ops cg0 = (cg, Ok tt) →
  graph_wf cg ∧ ∀ s d, get_channel cg s d = foldl abstract_step m ops !! (s, d).
Proof.
  revert cg0 m. induction ops as [|op ops IH]; intros cg0 m Hwf Hm; cbn [graph_run foldl].
  { by intros [= <-]. }
  unfold mbind, SM_bind. destruct (graph_step op cg0) as [cg1 [[]| |]] eqn:Hs; [|by intros [= _ ?]..].
  apply (graph_step_refines _ _ _ _ m) in Hs as [Hwf' Hm']; [|done..]. by apply IH.
Qed.

Lemma ChannelGraph_new_channels addr cfg s d : get_channel (ChannelGraph_new addr cfg) s d = None.
Proof.
  destruct (get_channel _ s d) as [c|] eqn:Hc; [|done]. exfalso.
  apply get_channel_Some in Hc as (e & w & He & _); [|apply ChannelGraph_new_wf].
  unfold ChannelGraph_new in He. destruct (add_node _ _) as [g i] eqn:Ha.
  apply add_node_spec in Ha as (_ & _ & E). cbn in He. by rewrite E, default_edges, lookup_empty in He.
Qed.

(** C36. The channel graph refines a map: after any sequence of channel
    updates, node score updates (which may add and remove nodes) and channel
    score updates, the graph is well formed and looking up a pair of addresses
    gives the entry of its latest channel update, or nothing when that entry
    was closed or there was none. *)
Theorem channel_graph_refines addr cfg ops cg o :
  graph_run ops (ChannelGraph_new addr cfg) = (cg, o) → o = Ok tt →
  graph_wf cg ∧ ∀ s d, get_channel cg s d = foldl abstract_step ∅ ops !! (s, d).
Proof.
  intros Hr ->. apply (graph_run_refines ops (ChannelGraph_new addr cfg)); [|..|done].
  - apply ChannelGraph_new_wf.
  - intros s d. by rewrite lookup_empty, ChannelGraph_new_channels.
Qed.

(** ** Queries *)

(** The open channels of a node: exactly the open edges from it, each with the
    node of its destination. *)
Lemma open_channels_from_spec {E} cg src :
  graph_wf cg → is_Some (indices cg !! src) →
  ∃ l, open_channels_from (E:=E) cg src = Ok l ∧
    ∀ n w, (n, w) ∈ l ↔ status (channel w) = Open ∧ source (channel w) = src ∧
      (∃ e, get_edge cg src (destination (channel w)) = Some (e, w)) ∧
      get_node cg (destination (channel w)) = Some n.
Proof.
  intros Hwf [i Hi]. unfold open_channels_from. rewrite Hi. cbn [default].
  set (out := filter _ _).
  assert (∀ e d w, (e, d, w) ∈ out ↔ status (channel w) = Open ∧
    edges (cg_graph cg) !! e = Some (i, d, w)) as Hout.
  { intros e d w. unfold out. rewrite list_elem_of_filter, edges_outgoing_spec. cbn.
    rewrite <-ChannelStatus_eqb_Open. split; intros [H1 H2]; (split; [|done]).
    - by apply Is_true_true.
    - by apply Is_true_true. }
  clearbody out.
  assert (∃ l, mapM (λ p : Z * Z * ChannelEdge,
      n ← unwrap_option (node_weight (cg_graph cg) p.1.2); Ok (n, p.2)) out = Ok (E:=E) l ∧
    ∀ n w, (n, w) ∈ l ↔ ∃ e d, (e, d, w) ∈ out ∧ nodes (cg_graph cg) !! d = Some n) as (l & Hl & Hmem).
  { assert (∀ e d w, (e, d, w) ∈ out → is_Some (nodes (cg_graph cg) !! d)) as Hsome.
    { intros e d w [_ He]%Hout. destruct (gw_edge _ Hwf _ _ _ _ He) as (_ & Hd & _).
      destruct (gw_index _ Hwf _ _ Hd) as (n & ? & _). by eexists. }
    clear Hout. induction out as [|[[e d] w] out IH].
    { exists []. split; [done|]. intros n w. split; [by intros ?%elem_of_nil|].
      by intros (? & ? & ?%elem_of_nil & _). }
    destruct IH as (l & Hl & Hmem). { intros e' d' w' ?. apply (Hsome e' d' w'). by right. }
    destruct (Hsome e d w) as [n Hn]; [by left|].
    exists ((n, w) :: l). cbn [mapM]. rewrite node_weight_spec. cbn [fst snd]. rewrite Hn. cbn.
    rewrite Hl. split; [done|]. intros n' w'. rewrite elem_of_cons, Hmem. split.
    - intros [[= -> ->]|(e' & d' & Hin & Hn')]; [exists e, d; split; [by left|done]|].
      exists e', d'. split; [by right|done].
    - intros (e' & d' & [[= -> -> ->]|Hin]%elem_of_cons & Hn'); [left; congruence|right; eauto]. }
  exists l. split; [done|]. intros n w. rewrite Hmem. unfold get_node. split.
  - intros (e & d & [Hs He]%Hout & Hn). destruct (gw_edge _ Hwf _ _ _ _ He) as (H1 & H2 & _).
    split_and!; [done|by eapply gw_index_inj| |].
    + exists e. apply get_edge_Some; [done|]. eauto.
    + rewrite H2. cbn. by rewrite node_weight_spec.
  - intros (Hs & Hsrc & (e & He) & Hn). apply get_edge_Some in He as (i' & d & Hi' & Hd & He); [|done].
    rewrite Hi in Hi'. injection Hi' as <-. rewrite Hd in Hn. cbn in Hn.
    rewrite node_weight_spec in Hn. exists e, d. split; [by apply Hout|done].
Qed.

(** Open channels of an unknown address: the index chosen for it is the
    number of nodes, which after a removal can be the index of another node;
    the query then lists the channels of that other node. *)
Theorem unknown_source_leaks {E} cg src other :
  indices cg !! src = None → indices cg !! other = Some (wrap 32 (node_count (cg_graph cg))) →
  open_channels_from (E:=E) cg src = open_channels_from cg other.
Proof using Type. intros Hs Ho. unfold open_channels_from. by rewrite Hs, Ho. Qed.
End Spec.

(** ** Concrete graphs *)
Definition demo_ops : StableDiGraph Node ChannelEdge := map_graph_ops.
Definition demo_laws : @StableDiGraphLaws Node ChannelEdge demo_ops := map_graph_laws.

Definition demo_channel (s d : Z) (amount : Z) (st : ChannelStatus) : ChannelEntry :=
  mkChannel [s] [d] (mkBalance amount) 0 st 1 [s; d].

Definition demo_graph (ops : list graph_op) : @ChannelGraph demo_ops :=
  fst (@graph_run demo_ops ops (@ChannelGraph_new demo_ops [0] ChannelGraphConfig_default)).

(** Node 1 joins and leaves; node 2 has an open channel to this node. *)
Definition leaving_ops : list graph_op :=
  [OpNodeScore [1] (Reachable 7); OpChannel (demo_channel 2 0 5 Open);
   OpChannel (demo_channel 0 2 6 Open); OpChannel (demo_channel 0 2 6 Closed);
   OpNodeScore [1] Unreachable].

Lemma channel_graph_refines_witness :
  @get_channel demo_ops (demo_graph leaving_ops) [2] [0] = Some (demo_channel 2 0 5 Open) ∧
  @get_channel demo_ops (demo_graph leaving_ops) [0] [2] = None.
Proof.
  destruct (@channel_graph_refines demo_ops demo_laws [0] ChannelGraphConfig_default leaving_ops
    (demo_graph leaving_ops) (Ok tt)) as [_ Hg];
    [vm_compute; reflexivity|reflexivity|].
  rewrite !Hg. split; vm_compute; reflexivity.
Defined.

(** Nobody knows the address 9, but it seems to have node 2's channel. *)
Lemma unknown_source_leaks_witness :
  @indices demo_ops (demo_graph leaving_ops) !! [9] = None ∧
  (λ l, map (λ p, channel p.2) l) <$> @open_channels_from demo_ops unit (demo_graph leaving_ops) [9] =
    Ok [demo_channel 2 0 5 Open].
Proof.
  split; [vm_compute; reflexivity|].
  rewrite (@unknown_source_leaks demo_ops unit (demo_graph leaving_ops) [9] [2]);
    vm_compute; reflexivity.
Defined.
