(* ===== verification/Paths.v ===== *)
(** * Paths and their selection

    Models [logic/path/src/lib.rs] and [selectors/dfs.rs]: the path types, the
    validation of a path against the channel graph, and the randomized
    best-first search for a path of relayers.

    The edge weighting is the trait [EdgeWeighting] as a class; a weight may be
    drawn at random, so a call gets the number of the draw.  [BinaryHeap] pops
    some greatest element: a class with that law, of which any implementation
    will do.  A search that runs out of fuel gives [None]. *)
From S2P Require Import Prelude Primitives Channels Graph ChannelGraph.
From Stdlib Require Import Floats.SpecFloat.

(** ** Weighted paths *)
Record WeightedChannelPath := mkWeighted {
  path : list Address;
  weight : Z;
  fully_explored : bool
}.

(** [None] when the weighting panics. *)
Class EdgeWeighting := calculate_weight : Z → ChannelEdge → option Z.

(** [RandomizedEdgeWeighting]; [random_float n] is the [n]-th drawn float. *)
Definition RandomizedEdgeWeighting (random_float : Z → f64) : EdgeWeighting := λ draw edge,
  match U256_mul_f64 (amount (balance (channel edge))) (random_float draw) with
  | Ok w => Some (Z.max w 1)
  | _ => None
  end.

(** [impl Default]. *)
Definition Weighted_default : WeightedChannelPath := mkWeighted [] 0 false.

(** [U256 + U256] panics on overflow. *)
Definition U256_add {E} (a b : Z) : outcome E Z := if a + b <=? U256_max then Ok (a + b) else Panic.

Definition wp_extend `{EdgeWeighting} (draw : Z) (edge : ChannelEdge) (self : WeightedChannelPath) :
    outcome PathError WeightedChannelPath :=
  if negb (fully_explored self) then
    w ← unwrap_option (calculate_weight draw edge);
    total ← U256_add (weight self) w;
    Ok (mkWeighted (path self ++ [destination (channel edge)]) total (fully_explored self))
  else Ok self.

(** [Ord for WeightedChannelPath]. *)
Definition wp_cmp (self other : WeightedChannelPath) : comparison :=
  if Bool.eqb (fully_explored other) (fully_explored self) then
    match Z.of_nat (length (path self)) ?= Z.of_nat (length (path other)) with
    | Eq => weight self ?= weight other
    | o => o
    end
  else if fully_explored other then Gt else Lt.

Class Heap := heap_pop :
  list WeightedChannelPath → option (WeightedChannelPath * list WeightedChannelPath).

Class HeapLaws `{Heap} := {
  heap_pop_nil q : heap_pop q = None → q = [];
  heap_pop_max q x q' : heap_pop q = Some (x, q') →
    q ≡ₚ x :: q' ∧ ∀ y, y ∈ q' → wp_cmp x y ≠ Lt
}.

(** ** The selector *)
Record DfsPathSelectorConfig := mkDfsConfig {
  max_iterations : Z;
  node_score_threshold : f64;
  edge_score_threshold : f64;
  max_first_hop_latency : option Z;
  allow_zero_edge_weight : bool
}.

Definition DfsPathSelectorConfig_default : DfsPathSelectorConfig := {|
  max_iterations := 100;
  node_score_threshold := f64_from_bits 0x3FE0000000000000;
  edge_score_threshold := f64_zero;
  max_first_hop_latency := Some 100000000;
  allow_zero_edge_weight := false |}.

Definition is_next_hop_usable (cfg : DfsPathSelectorConfig) (next_hop : Node) (edge : ChannelEdge)
    (initial_source final_destination : Address) (current_path : list Address) : bool :=
  if bool_decide (n_address next_hop = initial_source) then false
  else if bool_decide (n_address next_hop = final_destination) then false
  else if SFltb (node_score next_hop) (node_score_threshold cfg) then false
  else if match edge_score edge with Some s => SFltb s (edge_score_threshold cfg) | None => false end
  then false
  else if bool_decide (current_path = []) &&
    match max_first_hop_latency cfg with
    | Some limit => match latency_average (latency next_hop) with
                    | Some avg_latency => limit <? avg_latency
                    | None => true
                    end
    | None => false
    end then false
  else if bool_decide (n_address next_hop ∈ current_path) then false
  else if negb (allow_zero_edge_weight cfg) && (amount (balance (channel edge)) =? 0) then false
  else true.

Section Select.
Context `{!StableDiGraph Node ChannelEdge} `{EdgeWeighting} `{Heap}.

(** [current.clone().extend(edge)] for each edge, drawing in order. *)
Fixpoint extend_all (draw : Z) (current : WeightedChannelPath) (new : list (Node * ChannelEdge)) :
    outcome PathError (list WeightedChannelPath) :=
  match new with
  | [] => Ok []
  | (_, edge) :: new =>
      w ← wp_extend draw edge current;
      rest ← extend_all (draw + 1) current new;
      Ok (w :: rest)
  end.

(** The usable continuations of [prefix] from the node [from]. *)
Definition continuations (cg : ChannelGraph) (cfg : DfsPathSelectorConfig)
    (source destination from : Address) (prefix : list Address) :
    outcome PathError (list (Node * ChannelEdge)) :=
  channels ← open_channels_from cg from;
  Ok (filter (λ p, is_next_hop_usable cfg p.1 p.2 source destination prefix = true) channels).

(** What replaces a popped path in the queue, and the next draw. *)
Definition expand (cg : ChannelGraph) (cfg : DfsPathSelectorConfig) (source destination : Address)
    (draw : Z) (current : WeightedChannelPath) :
    outcome PathError (list WeightedChannelPath * Z) :=
  last_peer ← unwrap_option (last (path current));
  new ← continuations cg cfg source destination last_peer (path current);
  match new with
  | [] => Ok ([mkWeighted (path current) (weight current) true], draw)
  | _ => l ← extend_all draw current new; Ok (l, draw + Z.of_nat (length new))
  end.

(** The [while let] loop of [select_path]; also gives the iterations done. *)
Fixpoint search_loop (fuel : nat) (cg : ChannelGraph) (cfg : DfsPathSelectorConfig)
    (source destination : Address) (min_hops max_hops iters draw : Z)
    (queue : list WeightedChannelPath) : option (Z * outcome PathError (list Address)) :=
  match fuel with
  | O => None
  | S fuel =>
      match heap_pop queue with
      | None => Some (iters, Err (PathNotFound max_hops source destination))
      | Some (current, queue) =>
          let current_len := Z.of_nat (length (path current)) in
          if (current_len =? max_hops) || fully_explored current || (max_iterations cfg <? iters) then
            Some (iters, if (min_hops <=? current_len) && (current_len <=? max_hops)
                         then Ok (path current)
                         else Err (PathNotFound max_hops source destination))
          else
            match expand cg cfg source destination draw current with
            | Ok (pushed, draw) =>
                search_loop fuel cg cfg source destination min_hops max_hops (iters + 1) draw
                  (queue ++ pushed)
            | Err e => Some (iters, Err e)
            | Panic => Some (iters, Panic)
            end
      end
  end.

(** The search with its iteration count.  The loop stops at the latest when
    more than [max_iterations] iterations are done. *)
Definition search (cg : ChannelGraph) (cfg : DfsPathSelectorConfig) (source destination : Address)
    (min_hops max_hops : Z) : option (Z * outcome PathError (list Address)) :=
  match
    new ← continuations cg cfg source destination source [];
    l ← extend_all 0 Weighted_default new;
    Ok (l, Z.of_nat (length new))
  with
  | Ok (queue, draw) =>
      search_loop (Z.to_nat (max_iterations cfg) + 2) cg cfg source destination min_hops max_hops
        0 draw queue
  | Err e => Some (0, Err e)
  | Panic => Some (0, Panic)
  end.

Definition select_path (cg : ChannelGraph) (cfg : DfsPathSelectorConfig) (source destination : Address)
    (min_hops max_hops : Z) : option (outcome PathError (list Address)) :=
  if negb ((1 <=? max_hops) && (max_hops <=? INTERMEDIATE_HOPS)) ||
     negb ((1 <=? min_hops) && (min_hops <=? max_hops))
  then Some (Err (PathOtherError InvalidInput))
  else snd <$> search cg cfg source destination min_hops max_hops.

(** [PathSelector::select_auto_path]. *)
Definition select_auto_path (cg : ChannelGraph) (cfg : DfsPathSelectorConfig)
    (source destination : Address) : option (outcome PathError (list Address)) :=
  select_path cg cfg source destination 1 INTERMEDIATE_HOPS.
End Select.

(** ** Path types

    [Path] and [NonEmptyPath] are traits over lists of hops; [ChannelPath] is
    a list, [TransportPath] and [ChainPath] are non-empty lists. *)
Definition OffchainKey : Type := bytes.
#[export] Instance OffchainKey_eq_dec : EqDecision OffchainKey := list_eq_dec.

Inductive PathAddress := Chain (a : Address) | Transport (k : OffchainKey).

#[export] Instance PathAddress_eq_dec : EqDecision PathAddress.
Proof. solve_decision. Defined.

Definition contains_cycle (hops : list PathAddress) : bool :=
  negb (Nat.eqb (length (remove_dups hops)) (length hops)).

Definition non_empty_path {A} (hops : list A) : outcome PathError (list A) :=
  if bool_decide (length hops = 0%nat) then Err PathNotValid else Ok hops.
Definition TransportPath_new : list OffchainKey → outcome PathError (list OffchainKey) := non_empty_path.
Definition ChainPath_new : list Address → outcome PathError (list Address) := non_empty_path.
Definition direct {A} (dest : A) : list A := [dest].
Definition invert {A} (p : list A) : option (list A) := Some (reverse p).
Definition from_channel_path (p : list Address) (dest : Address) : list Address := p ++ [dest].
Definition into_channel_path (p : list Address) : list Address := take (pred (length p)) p.
Definition last_hop {E A} (p : list A) : outcome E A := unwrap_option (last p).

(** [PathAddressResolver]: both directions may fail or find nothing. *)
Class PathAddressResolver := {
  resolve_transport_address : Address → outcome PathError (option OffchainKey);
  resolve_chain_address : OffchainKey → outcome PathError (option Address)
}.

Record ValidatedPath := mkValidated { transport_path : list OffchainKey; chain_path : list Address }.

Definition ValidatedPath_direct (dst_key : OffchainKey) (dst_address : Address) : ValidatedPath :=
  mkValidated [dst_key] [dst_address].

Section Validate.
Context `{!StableDiGraph Node ChannelEdge} `{!PathAddressResolver}.

(** Both addresses of a hop. *)
Definition resolve_hop (hop : PathAddress) : outcome PathError (OffchainKey * Address) :=
  match hop with
  | Chain addr => r ← resolve_transport_address addr; key ← ok_or r InvalidPeer; Ok (key, addr)
  | Transport key => r ← resolve_chain_address key; addr ← ok_or r InvalidPeer; Ok (key, addr)
  end.

(** The loop over the hops; [hops = []] after the current one means that it is
    the last one. *)
Fixpoint validate_hops (cg : ChannelGraph) (ticket_issuer : Address) (hops : list PathAddress)
    (keys : list OffchainKey) (addrs : list Address) : outcome PathError ValidatedPath :=
  match hops with
  | [] => Ok (mkValidated keys addrs)
  | hop :: hops =>
      '(key, ticket_receiver) ← resolve_hop hop;
      if bool_decide (ticket_issuer = ticket_receiver) then Err (LoopsNotAllowed ticket_receiver)
      else
        (if bool_decide (hops ≠ []) then
           c ← ok_or (get_channel cg ticket_issuer ticket_receiver)
                 (MissingChannel ticket_issuer ticket_receiver);
           if negb (ChannelStatus_eqb (status c) Open)
           then Err (ChannelNotOpened ticket_issuer ticket_receiver) else Ok tt
         else Ok tt);;
        validate_hops cg ticket_receiver hops (keys ++ [key]) (addrs ++ [ticket_receiver])
  end.

Definition ValidatedPath_new (origin : PathAddress) (hops : list PathAddress) (cg : ChannelGraph) :
    outcome PathError ValidatedPath :=
  ticket_issuer ← match origin with
                  | Chain addr => Ok addr
                  | Transport key => r ← resolve_chain_address key; ok_or r InvalidPeer
                  end;
  validate_hops cg ticket_issuer hops [] [].
End Validate.
