(* ===== verification/PathsSpec.v ===== *)
(** * Correctness of path selection and validation

    A selected path is a route of usable open channels; the search terminates;
    and when it fails within its iteration limit there is no such route. *)
From S2P Require Import Prelude Primitives Channels Graph ChannelGraph ChannelGraphSpec Paths.
From Stdlib Require Import Floats.SpecFloat.

Section Search.
Context `{!StableDiGraph Node ChannelEdge, !StableDiGraphLaws Node ChannelEdge}.
Context `{EdgeWeighting} `{Heap} `{!HeapLaws}.
Context (cg : ChannelGraph) (cfg : DfsPathSelectorConfig) (source destination : Address).

(** The node a continuation of [prefix] starts from. *)
Definition route_end (prefix : list Address) : Address := default source (last prefix).

(** Appending [a] uses an open channel to a usable node. *)
Definition hop_ok (prefix : list Address) (a : Address) : Prop :=
  ∃ n w e, Channels.destination (channel w) = a ∧ status (channel w) = Open ∧
    Channels.source (channel w) = route_end prefix ∧
    get_edge cg (route_end prefix) a = Some (e, w) ∧ get_node cg a = Some n ∧
    is_next_hop_usable cfg n w source destination prefix = true.

Inductive route : list Address → Prop :=
| route_nil : route []
| route_snoc p a : route p → hop_ok p a → route (p ++ [a]).

Lemma route_prefix p q : route (p ++ q) → route p.
Proof.
  induction q as [|a q IH] using rev_ind; [by rewrite app_nil_r|].
  rewrite (assoc_L (++)). intros Hr. inversion Hr as [E|p' a' Hr' _ E].
  - by destruct p, q.
  - apply app_inj_tail in E as [-> _]. by apply IH.
Qed.

Lemma route_hop p a q : route (p ++ a :: q) → hop_ok p a.
Proof.
  intros Hr. assert (route (p ++ [a])) as Hr' by (apply (route_prefix _ q); by rewrite <-(assoc_L (++))).
  inversion Hr' as [E|p' a' _ Hh E]; [by destruct p|]. by apply app_inj_tail in E as [-> ->].
Qed.

Section Loop.
Context (Hwf : graph_wf cg) (Hsource : is_Some (indices cg !! source)).
#[local] Set Default Proof Using "Type*".

Lemma route_end_known p : route p → is_Some (indices cg !! route_end p).
Proof.
  intros [|p' a _ (n & w & e & _ & _ & _ & _ & Hn & _)]; [done|].
  unfold route_end. rewrite last_snoc. cbn. unfold get_node in Hn.
  destruct (indices cg !! a); [by eexists|done].
Qed.

Lemma continuations_spec p :
  route p →
  ∃ l, continuations cg cfg source destination (route_end p) p = Ok l ∧
    ∀ a, (∃ n w, (n, w) ∈ l ∧ Channels.destination (channel w) = a) ↔ hop_ok p a.
Proof.
  intros Hp. destruct (open_channels_from_spec (E:=PathError) cg (route_end p) Hwf (route_end_known p Hp))
    as (l & Hl & Hmem).
  unfold continuations. rewrite Hl. cbn. eexists. split; [done|]. intros a. split.
  - intros (n & w & [Hu Hin]%list_elem_of_filter & <-). apply Hmem in Hin as (Hs & Hsrc & [e He] & Hn).
    by exists n, w, e.
  - intros (n & w & e & <- & Hs & Hsrc & He & Hn & Hu). exists n, w. split; [|done].
    apply list_elem_of_filter. split; [done|]. apply Hmem. split_and!; eauto.
Qed.
End Loop.

Lemma extend_all_spec draw cur new l :
  extend_all draw cur new = Ok l → fully_explored cur = false →
  (∀ x, x ∈ l → fully_explored x = false ∧
     ∃ n w, (n, w) ∈ new ∧ path x = path cur ++ [Channels.destination (channel w)]) ∧
  (∀ n w, (n, w) ∈ new → ∃ x, x ∈ l ∧ fully_explored x = false ∧
     path x = path cur ++ [Channels.destination (channel w)]).
Proof.
  intros Hl Hf. revert draw l Hl. induction new as [|[n w] new IH]; intros draw l; cbn [extend_all].
  { intros [= <-]. by split; [intros x ?%elem_of_nil|intros n w ?%elem_of_nil]. }
  unfold wp_extend. rewrite Hf. cbn [negb].
  destruct (calculate_weight draw w) as [c|]; cbn; [|done].
  unfold U256_add. destruct (_ <=? _); cbn; [|done].
  destruct (extend_all (draw + 1) cur new) as [rest| |] eqn:Hrest; cbn; intros [= <-].
  destruct (IH _ _ Hrest) as [IH1 IH2]. split.
  - intros x [->|Hx]%elem_of_cons; [split; [done|]; exists n, w; split; [by left|done]|].
    destruct (IH1 x Hx) as (? & n' & w' & Hin & ?). split; [done|]. exists n', w'. split; [by right|done].
  - intros n' w' [[= -> ->]|Hin]%elem_of_cons; [eexists; split; [by left|done]|].
    destruct (IH2 _ _ Hin) as (x & Hx & ?). exists x. split; [by right|done].
Qed.

Lemma extend_all_no_err draw cur new e : extend_all draw cur new ≠ Err e.
Proof.
  revert draw e. induction new as [|[n w] new IH]; intros draw e; cbn [extend_all]; [done|].
  unfold wp_extend. destruct (negb _).
  - destruct (calculate_weight draw w); cbn; [|done]. unfold U256_add. destruct (_ <=? _); cbn; [|done].
    destruct (extend_all _ _ _) eqn:E; cbn; [done|by eapply IH in E|done].
  - cbn. destruct (extend_all _ _ _) eqn:E; cbn; [done|by eapply IH in E|done].
Qed.

(** ** The loop *)
Section Loop.
Context (Hwf : graph_wf cg) (Hsource : is_Some (indices cg !! source)).
Context (min_hops max_hops : Z) (Hmin : 1 ≤ min_hops ≤ max_hops).
#[local] Set Default Proof Using "Type*".

(** The queue holds routes, of which no other one is longer. *)
Definition queue_ok (q : list WeightedChannelPath) : Prop :=
  ∀ x, x ∈ q → path x ≠ [] ∧ route (path x) ∧ Z.of_nat (length (path x)) ≤ max_hops.

Definition covers (q : list WeightedChannelPath) : Prop :=
  ∀ p, route p → p ≠ [] → Z.of_nat (length p) ≤ max_hops →
    ∃ x, x ∈ q ∧
      ((fully_explored x = false ∧ path x `prefix_of` p) ∨ (length p ≤ length (path x))%nat).

Lemma covers_more q q' : covers q → (∀ x, x ∈ q → x ∈ q') → covers q'.
Proof.
  intros Hc Hq p Hp Hne Hl. destruct (Hc p Hp Hne Hl) as (x & Hx & ?). exists x. auto.
Qed.

(** The popped path is replaced by its continuations or by itself, explored. *)
Lemma covers_step q cur pushed :
  covers (cur :: q) → fully_explored cur = false →
  (∀ a, hop_ok (path cur) a →
     ∃ x, x ∈ pushed ∧ fully_explored x = false ∧ path x = path cur ++ [a]) →
  (∃ x, x ∈ pushed ∧ (length (path cur) ≤ length (path x))%nat) →
  covers (q ++ pushed).
Proof.
  intros Hc Hf Hnext (y & Hy & Hly) p Hp Hne Hl.
  destruct (Hc p Hp Hne Hl) as (x & [->|Hx]%elem_of_cons & Hor); cycle 1.
  { exists x. split; [apply elem_of_app; by left|done]. }
  destruct Hor as [[_ [q0 ->]]|Hle].
  - destruct q0 as [|a q0].
    + exists y. split; [apply elem_of_app; by right|]. right. rewrite app_nil_r. lia.
    + destruct (Hnext a) as (x & Hx & Hfx & Hpx); [by eapply route_hop|].
      exists x. split; [apply elem_of_app; by right|]. left. split; [done|].
      exists q0. by rewrite Hpx, <-(assoc_L (++)).
  - exists y. split; [apply elem_of_app; by right|]. right. lia.
Qed.

(** A popped explored path is a longest one. *)
Lemma popped_longest q cur q' :
  heap_pop q = Some (cur, q') → fully_explored cur = true →
  ∀ x, x ∈ q → fully_explored x = true ∧ (length (path x) ≤ length (path cur))%nat.
Proof.
  intros [Hperm Hmax]%heap_pop_max Hf x Hx. rewrite Hperm in Hx.
  apply elem_of_cons in Hx as [->|Hx]; [done|]. specialize (Hmax x Hx). unfold wp_cmp in Hmax.
  rewrite Hf in Hmax. destruct (fully_explored x); cbn in Hmax; [|done]. split; [done|].
  destruct (Z.compare_spec (Z.of_nat (length (path cur))) (Z.of_nat (length (path x)))); [lia|done|lia].
Qed.

(** What a finished search says. *)
Definition search_result (n : Z) (res : outcome PathError (list Address)) : Prop :=
  match res with
  | Ok p => route p ∧ min_hops ≤ Z.of_nat (length p) ≤ max_hops
  | Err e => e = PathNotFound max_hops source destination ∧
      (n ≤ max_iterations cfg →
       ∀ p, route p → min_hops ≤ Z.of_nat (length p) ≤ max_hops → False)
  | Panic => True
  end.

(** Expanding a route that is not explored yet. *)
Lemma expand_spec draw cur :
  path cur ≠ [] → route (path cur) → Z.of_nat (length (path cur)) < max_hops →
  fully_explored cur = false →
  match expand cg cfg source destination draw cur with
  | Ok (pushed, _) => queue_ok pushed ∧
      (∀ a, hop_ok (path cur) a →
         ∃ x, x ∈ pushed ∧ fully_explored x = false ∧ path x = path cur ++ [a]) ∧
      (∃ x, x ∈ pushed ∧ (length (path cur) ≤ length (path x))%nat)
  | Err _ => False
  | Panic => True
  end.
Proof.
  intros Hne Hroute Hlen Hf. unfold expand.
  destruct (last (path cur)) as [lastp|] eqn:Hlast; [|by apply last_None in Hlast].
  cbn [unwrap_option mbind outcome_bind].
  assert (lastp = route_end (path cur)) as -> by (unfold route_end; by rewrite Hlast).
  destruct (continuations_spec Hwf Hsource _ Hroute) as (new & -> & Hmem).
  cbn [mbind outcome_bind]. destruct new as [|p0 new0] eqn:Enew.
  - split_and!.
    + intros x ->%list_elem_of_singleton. cbn. split_and!; [done..|lia].
    + intros a Ha%Hmem. by destruct Ha as (? & ? & ?%elem_of_nil & _).
    + eexists. split; [by left|done].
  - rewrite <-Enew in *.
    destruct (extend_all draw cur new) as [l|e|] eqn:Hext; cbn [mbind outcome_bind];
      [|by apply extend_all_no_err in Hext|done].
    destruct (extend_all_spec _ _ _ _ Hext Hf) as [E1 E2]. split_and!.
    + intros x Hx. destruct (E1 x Hx) as (_ & n' & w & Hin & ->). split; [by destruct (path cur)|].
      split; [|rewrite length_app; simpl; lia]. apply route_snoc; [done|]. apply Hmem. eauto.
    + intros a (n' & w & Hin & <-)%Hmem. by eapply E2.
    + destruct p0 as [n0 w0]. destruct (E2 n0 w0) as (x & Hx & _ & Hpx); [subst; by left|].
      exists x. split; [done|]. rewrite Hpx, length_app. lia.
Qed.

Lemma search_loop_spec fuel iters draw q n res :
  queue_ok q → covers q →
  search_loop fuel cg cfg source destination min_hops max_hops iters draw q = Some (n, res) →
  search_result n res.
Proof.
  revert iters draw q. induction fuel as [|fuel IH]; intros iters draw q Hok Hcov; [done|].
  cbn [search_loop]. destruct (heap_pop q) as [[cur q']|] eqn:Hpop; cycle 1.
  { apply heap_pop_nil in Hpop as ->. intros [= <- <-]. split; [done|]. intros _ p Hp Hl.
    destruct (Hcov p) as (x & Hx & _); [done| |lia|by apply elem_of_nil in Hx].
    intros ->. simpl in Hl. lia. }
  pose proof (heap_pop_max _ _ _ Hpop) as [Hperm _].
  destruct (Hok cur) as (Hne & Hroute & Hlen); [rewrite Hperm; by left|].
  destruct (_ || _ || _) eqn:Hstop.
  - intros [= <- <-]. destruct (Z.leb_spec min_hops (Z.of_nat (length (path cur)))) as [Hge|Hlt];
      cbn [andb]; [by rewrite (proj2 (Z.leb_le _ _)) by done|].
    split; [done|]. intros Hn p Hp Hl.
    assert (fully_explored cur = true) as Hf.
    { rewrite (proj2 (Z.ltb_ge _ _)), orb_false_r in Hstop by done.
      rewrite (proj2 (Z.eqb_neq _ _)) in Hstop by lia. done. }
    destruct (Hcov p) as (x & Hx & Hor); [done| |lia|]. { intros ->. simpl in Hl. lia. }
    destruct (popped_longest _ _ _ Hpop Hf x Hx) as [Hfx Hle].
    destruct Hor as [[Hfx' _]|Hor]; [congruence|lia].
  - apply orb_false_iff in Hstop as [[Hmax Hf]%orb_false_iff _]. apply Z.eqb_neq in Hmax.
    assert (Z.of_nat (length (path cur)) < max_hops) as Hlt by lia.
    pose proof (expand_spec draw cur Hne Hroute Hlt Hf) as Hex.
    destruct (expand _ _ _ _ _ _) as [[pushed draw']|e|]; [|done|by intros [= _ <-]].
    destruct Hex as (Hpok & Hnext & Hlong). apply IH.
    + intros x [Hx|Hx]%elem_of_app; [apply Hok; rewrite Hperm; by right|by apply Hpok].
    + apply (covers_step q' cur); [|done..]. eapply covers_more; [exact Hcov|].
      intros x. by rewrite Hperm.
Qed.

Lemma search_loop_total fuel iters draw q :
  max_iterations cfg + 2 ≤ Z.of_nat fuel + iters → iters ≤ max_iterations cfg + 1 →
  is_Some (search_loop fuel cg cfg source destination min_hops max_hops iters draw q).
Proof using Type.
  revert iters draw q. induction fuel as [|fuel IH]; intros iters draw q Hf Hi; [lia|].
  cbn [search_loop]. destruct (heap_pop q) as [[cur q']|]; [|by eexists].
  destruct (_ || _ || _) eqn:Hstop; [by eexists|].
  apply orb_false_iff in Hstop as [_ Hit]. apply Z.ltb_ge in Hit.
  destruct (expand _ _ _ _ _ _) as [[pushed draw']|e|]; [|by eexists..].
  apply IH; lia.
Qed.

Lemma search_spec n res :
  search cg cfg source destination min_hops max_hops = Some (n, res) → search_result n res.
Proof.
  unfold search. destruct (continuations_spec Hwf Hsource [] route_nil) as (new & Hnew & Hmem).
  change (route_end []) with source in Hnew. rewrite Hnew. cbn [mbind outcome_bind].
  destruct (extend_all 0 Weighted_default new) as [l|e|] eqn:Hext; cbn [mbind outcome_bind];
    [|by apply extend_all_no_err in Hext|by intros [= _ <-]].
  destruct (extend_all_spec _ _ _ _ Hext eq_refl) as [E1 E2]. cbn [path Weighted_default app] in E1, E2.
  apply search_loop_spec.
  - intros x Hx. destruct (E1 x Hx) as (_ & n' & w & Hin & ->). split; [done|]. split; [|simpl; lia].
    apply (route_snoc []); [apply route_nil|]. apply Hmem. eauto.
  - intros p Hp Hne Hl. destruct p as [|a p]; [done|].
    assert (hop_ok [] a) as (n' & w & Hin & <-)%Hmem by (by apply (route_hop [] a p)).
    destruct (E2 _ _ Hin) as (x & Hx & Hfx & Hpx). exists x. split; [done|]. left. split; [done|].
    rewrite Hpx. by exists p.
Qed.
End Loop.
End Search.

(** ** What a route is *)

(** The [i]-th relayer of [p] is reached over an open channel and usable. *)
Definition relayer_ok `{!StableDiGraph Node ChannelEdge} (cg : ChannelGraph)
    (cfg : DfsPathSelectorConfig) (source : Address) (p : list Address) (i : nat) (a : Address) : Prop :=
  ∃ e w n, get_edge cg (default source (last (take i p))) a = Some (e, w) ∧ status (channel w) = Open ∧
    (allow_zero_edge_weight cfg = false → amount (balance (channel w)) ≠ 0) ∧
    (∀ score, edge_score w = Some score → SFltb score (edge_score_threshold cfg) = false) ∧
    get_node cg a = Some n ∧ SFltb (node_score n) (node_score_threshold cfg) = false ∧
    (i = 0%nat → ∀ limit, max_first_hop_latency cfg = Some limit →
       ∃ l, latency_average (latency n) = Some l ∧ l ≤ limit).

Section Select.
Context `{!StableDiGraph Node ChannelEdge, !StableDiGraphLaws Node ChannelEdge}.
Context `{EdgeWeighting} `{Heap} `{!HeapLaws}.
#[local] Set Default Proof Using "Type*".

Lemma usable_inv cfg n w source destination prefix :
  is_next_hop_usable cfg n w source destination prefix = true →
  n_address n ≠ source ∧ n_address n ≠ destination ∧ (n_address n ∉ prefix) ∧
  SFltb (node_score n) (node_score_threshold cfg) = false ∧
  (allow_zero_edge_weight cfg = false → amount (balance (channel w)) ≠ 0) ∧
  (∀ score, edge_score w = Some score → SFltb score (edge_score_threshold cfg) = false) ∧
  (prefix = [] → ∀ limit, max_first_hop_latency cfg = Some limit →
     ∃ l, latency_average (latency n) = Some l ∧ l ≤ limit).
Proof.
  unfold is_next_hop_usable. case_bool_decide as B1; [done|]. case_bool_decide as B2; [done|].
  destruct (SFltb (node_score n) (node_score_threshold cfg)) eqn:B3; [done|].
  destruct (match edge_score w with Some _ => _ | None => _ end) eqn:B7; [done|].
  destruct (bool_decide (prefix = []) && _) eqn:B4; [done|].
  destruct (bool_decide (n_address n ∈ prefix)) eqn:B5; [done|]. apply bool_decide_eq_false in B5.
  destruct (negb (allow_zero_edge_weight cfg) && _) eqn:B6; [done|]. intros _.
  split_and!; try done.
  - intros E. rewrite E in B6. by apply Z.eqb_neq in B6.
  - intros score E. by rewrite E in B7.
  - intros -> limit E. rewrite E in B4. cbn in B4.
    destruct (latency_average (latency n)) as [l|]; [|done]. exists l. split; [done|].
    by apply Z.ltb_ge in B4.
Qed.

Lemma get_node_address cg a n : graph_wf cg → get_node cg a = Some n → n_address n = a.
Proof.
  unfold get_node. intros Hwf. destruct (indices cg !! a) as [i|] eqn:Hi; cbn; [|done].
  rewrite node_weight_spec. intros Hn. destruct (gw_index _ Hwf _ _ Hi) as (n' & Hn' & <-). congruence.
Qed.

Lemma route_sound cg cfg source destination p :
  graph_wf cg → route cg cfg source destination p →
  NoDup p ∧ (source ∉ p) ∧ (destination ∉ p) ∧ ∀ i a, p !! i = Some a → relayer_ok cg cfg source p i a.
Proof.
  intros Hwf. induction 1 as [|p a Hp (IH1 & IH2 & IH3 & IH4) (n & w & e & Hd & Hs & Hsrc & He & Hn & Hu)].
  { split_and!; [constructor|apply not_elem_of_nil..|done]. }
  apply usable_inv in Hu as (U1 & U2 & U3 & U4 & U5 & U7 & U6).
  rewrite (get_node_address _ _ _ Hwf Hn) in U1, U2, U3. split_and!.
  - apply NoDup_app. split_and!; [done| |apply NoDup_singleton].
    by intros x Hx ->%list_elem_of_singleton.
  - rewrite elem_of_app, list_elem_of_singleton. by intros [?| ->].
  - rewrite elem_of_app, list_elem_of_singleton. by intros [?| ->].
  - intros i b Hi. destruct (decide (i < length p)%nat) as [Hlt|Hge].
    + rewrite lookup_app_l in Hi by done. unfold relayer_ok. rewrite take_app_le by lia. by apply IH4.
    + pose proof (lookup_lt_Some _ _ _ Hi) as Hlen. rewrite length_app in Hlen. simpl in Hlen.
      assert (i = length p) as -> by lia. rewrite list_lookup_middle in Hi by done. injection Hi as <-.
      exists e, w, n. rewrite take_app_length. fold (route_end source p). split_and!; try done.
      intros Hl. apply U6. by destruct p.
Qed.

(** C37. A selected path is usable: the search gives only lists of relayers, of
    the requested number of hops, without repetition and through neither end -
    the destination is not the last element, other than the comment of the
    trait says, but as the comment of the search and its tests do -, in which
    every relayer is reached over an open channel, which has funds unless the
    configuration admits edges without, and channel (where it is rated) and node
    have sufficient scores, and the first node a known low latency where a limit
    is configured. *)
Theorem select_path_sound cg cfg source destination min_hops max_hops p :
  graph_wf cg → is_Some (indices cg !! source) →
  select_path cg cfg source destination min_hops max_hops = Some (Ok p) →
  1 ≤ min_hops ≤ Z.of_nat (length p) ∧ Z.of_nat (length p) ≤ max_hops ≤ INTERMEDIATE_HOPS ∧
  NoDup p ∧ (source ∉ p) ∧ (destination ∉ p) ∧
  ∀ i a, p !! i = Some a → relayer_ok cg cfg source p i a.
Proof.
  intros Hwf Hs. unfold select_path. destruct (_ || _) eqn:Hr; [done|].
  apply orb_false_iff in Hr as [B1%negb_false_iff B2%negb_false_iff].
  apply andb_true_iff in B1 as [B1%Z.leb_le B1'%Z.leb_le].
  apply andb_true_iff in B2 as [B2%Z.leb_le B2'%Z.leb_le].
  destruct (search _ _ _ _ _ _) as [[n res]|] eqn:Hres; cbn; [|done]. intros [= ->].
  apply search_spec in Hres as [Hroute [Hl1 Hl2]]; [|done..|lia].
  destruct (route_sound _ _ _ _ _ Hwf Hroute) as (? & ? & ? & ?). split_and!; done || lia.
Qed.

(** C38. The search terminates within its iteration limit plus one, and is
    complete below the limit: if it gives up after at most [max_iterations]
    rounds, no route with the requested number of hops exists, whatever the
    weights drawn and the order of equally good paths in the heap. *)
Theorem select_path_complete cg cfg source destination min_hops max_hops :
  graph_wf cg → is_Some (indices cg !! source) → 0 ≤ max_iterations cfg →
  1 ≤ min_hops ≤ max_hops → max_hops ≤ INTERMEDIATE_HOPS →
  ∃ n res, search cg cfg source destination min_hops max_hops = Some (n, res) ∧
    select_path cg cfg source destination min_hops max_hops = Some res ∧
    (n ≤ max_iterations cfg → is_Ok res ∨ res = Panic ∨
     ¬ ∃ p, route cg cfg source destination p ∧ min_hops ≤ Z.of_nat (length p) ≤ max_hops).
Proof.
  intros Hwf Hs Hit Hmin Hmax.
  assert (is_Some (search cg cfg source destination min_hops max_hops)) as [[n res] Hres].
  { unfold search. destruct (_ ≫= _) as [[l draw]|e|]; [|by eexists..].
    apply search_loop_total; lia. }
  exists n, res. split; [done|]. split.
  - unfold select_path. rewrite Hres.
    by rewrite (proj2 (Z.leb_le 1 _)), !(proj2 (Z.leb_le _ _)) by lia.
  - intros Hn. pose proof (search_spec cg cfg source destination Hwf Hs _ _ Hmin _ _ Hres) as Hr.
    destruct res as [p|e|]; [left; by eexists| |by right; left].
    right; right. destruct Hr as [_ Hno]. intros (p & Hp & Hl). by eapply Hno.
Qed.
End Select.

(** ** Validation *)
Section Validation.
Context `{!StableDiGraph Node ChannelEdge} `{!PathAddressResolver}.

(** Distinct neighbours, and open channels up to the last but one. *)
Fixpoint hops_valid (cg : ChannelGraph) (issuer : Address) (addrs : list Address) : Prop :=
  match addrs with
  | [] => True
  | a :: rest => issuer ≠ a ∧
      (rest ≠ [] → ∃ c, get_channel cg issuer a = Some c ∧ status c = Open) ∧
      hops_valid cg a rest
  end.

Lemma validate_hops_Ok cg issuer hops keys addrs vp :
  validate_hops cg issuer hops keys addrs = Ok vp ↔
  ∃ l, Forall2 (λ hop ka, resolve_hop hop = Ok ka) hops l ∧ hops_valid cg issuer (snd <$> l) ∧
    vp = mkValidated (keys ++ (fst <$> l)) (addrs ++ (snd <$> l)).
Proof.
  revert issuer keys addrs. induction hops as [|hop hops IH]; intros issuer keys addrs; cbn [validate_hops].
  { split.
    - intros [= <-]. exists []. cbn. by rewrite !app_nil_r.
    - intros (l & Hl%Forall2_nil_inv_l & _ & ->). subst l. cbn. by rewrite !app_nil_r. }
  destruct (resolve_hop hop) as [[k a]|e|] eqn:Hr; cbn [mbind outcome_bind];
    [|by split; [|intros (l & (? & ? & ? & _)%Forall2_cons_inv_l & _); congruence]..].
  assert ((∃ l, Forall2 (λ hop ka, resolve_hop hop = Ok ka) (hop :: hops) l ∧
      hops_valid cg issuer (snd <$> l) ∧ vp = mkValidated (keys ++ (fst <$> l)) (addrs ++ (snd <$> l))) ↔
    ∃ l, Forall2 (λ hop ka, resolve_hop hop = Ok ka) hops l ∧
      (issuer ≠ a ∧ (hops ≠ [] → ∃ c, get_channel cg issuer a = Some c ∧ status c = Open) ∧
       hops_valid cg a (snd <$> l)) ∧
      vp = mkValidated ((keys ++ [k]) ++ (fst <$> l)) ((addrs ++ [a]) ++ (snd <$> l))) as Hcons.
  { split.
    - intros (l & (ka & l' & E & Hl & ->)%Forall2_cons_inv_l & Hv & ->). rewrite Hr in E.
      injection E as <-. exists l'. cbn in *. rewrite <-!(assoc_L (++)). split_and!; try apply Hv; try done.
      intros Hne. apply Hv. destruct Hl; [done|]. done.
    - intros (l & Hl & Hv & ->). exists ((k, a) :: l). cbn. rewrite <-!(assoc_L (++)).
      split_and!; try apply Hv; [by constructor| |done].
      intros Hne. apply Hv. by destruct Hl. }
  rewrite Hcons. clear Hcons. case_bool_decide as Hloop.
  { split; [done|]. intros (l & _ & [? _] & _). done. }
  case_bool_decide as Hlast; cycle 1.
  { cbn [mbind outcome_bind]. rewrite IH. split; intros (l & Hl & Hv & ->); exists l;
      (split; [done|split; [|done]]); [by split_and!|apply Hv]. }
  destruct (get_channel cg issuer a) as [c|] eqn:Hc; cbn [ok_or mbind outcome_bind]; cycle 1.
  { split; [done|]. intros (l & _ & (_ & Hex & _) & _). by destruct (Hex Hlast) as (c & ? & _). }
  destruct (ChannelStatus_eqb (status c) Open) eqn:Hs; cbn [negb mbind outcome_bind].
  - apply ChannelStatus_eqb_Open in Hs. rewrite IH.
    split; intros (l & Hl & Hv & ->); exists l; (split; [done|split; [|done]]); [|apply Hv].
    split_and!; [done| |done]. intros _. by exists c.
  - split; [done|]. intros (l & _ & (_ & Hex & _) & _). destruct (Hex Hlast) as (c' & [= <-] & E).
    rewrite E in Hs. done.
Qed.

(** Validation accepts exactly the valid paths: a path from [origin] is
    accepted iff the origin and every hop resolve, no hop repeats the one
    before it, and every hop but the last is reached over an open channel; the
    result lists the resolved keys and addresses of the hops in order. *)
Theorem validated_path_iff origin hops cg vp :
  ValidatedPath_new origin hops cg = Ok vp ↔
  ∃ issuer l,
    match origin with
    | Chain a => issuer = a
    | Transport k => resolve_chain_address k = Ok (Some issuer)
    end ∧
    Forall2 (λ hop ka, resolve_hop hop = Ok ka) hops l ∧ hops_valid cg issuer (snd <$> l) ∧
    vp = mkValidated (fst <$> l) (snd <$> l).
Proof.
  unfold ValidatedPath_new.
  assert (∀ issuer, validate_hops cg issuer hops [] [] = Ok vp ↔ ∃ l,
    Forall2 (λ hop ka, resolve_hop hop = Ok ka) hops l ∧ hops_valid cg issuer (snd <$> l) ∧
    vp = mkValidated (fst <$> l) (snd <$> l)) as Hv by (intros; apply validate_hops_Ok).
  destruct origin as [a|k]; cbn [mbind outcome_bind].
  - rewrite Hv. split; [intros (l & ?); by exists a, l|intros (? & l & -> & ?); by exists l].
  - destruct (resolve_chain_address k) as [[a|]|e|]; cbn.
    + rewrite Hv. split; [intros (l & ?); by exists a, l|intros (? & l & [= ->] & ?); by exists l].
    + split; [done|by intros (? & ? & ? & _)].
    + split; [done|by intros (? & ? & ? & _)].
    + split; [done|by intros (? & ? & ? & _)].
Qed.
End Validation.

(** ** A heap and a concrete search *)

(** The list whose first greatest element is popped. *)
Fixpoint pop_greatest (q : list WeightedChannelPath) :
    option (WeightedChannelPath * list WeightedChannelPath) :=
  match q with
  | [] => None
  | x :: q =>
      match pop_greatest q with
      | None => Some (x, [])
      | Some (y, r) => match wp_cmp x y with Lt => Some (y, x :: r) | _ => Some (x, y :: r) end
      end
  end.

Definition list_heap : Heap := pop_greatest.

Lemma wp_cmp_ge x y :
  wp_cmp x y ≠ Lt ↔
  (fully_explored x = false ∧ fully_explored y = true) ∨
  (fully_explored x = fully_explored y ∧
   ((length (path y) < length (path x))%nat ∨
    (length (path x) = length (path y) ∧ weight y ≤ weight x))).
Proof.
  unfold wp_cmp. destruct (fully_explored x), (fully_explored y); cbn;
    try destruct (Z.compare_spec (Z.of_nat (length (path x))) (Z.of_nat (length (path y))));
    try destruct (Z.compare_spec (weight x) (weight y)); intuition (congruence || lia).
Qed.

Lemma list_heap_laws : @HeapLaws list_heap.
Proof.
  assert (∀ q, pop_greatest q = None → q = []) as Hnil.
  { intros [|x q]; [done|]. cbn. destruct (pop_greatest q) as [[y r]|]; [by destruct (wp_cmp x y)|done]. }
  split; [exact Hnil|]. unfold heap_pop, list_heap.
  induction q as [|z q IH]; intros x q'; cbn [pop_greatest]; [done|].
  destruct (pop_greatest q) as [[y r]|] eqn:Hq; cycle 1.
  { intros [= <- <-]. apply Hnil in Hq as ->. split; [done|]. by intros y ?%elem_of_nil. }
  destruct (IH _ _ eq_refl) as [Hp Hm]. destruct (wp_cmp z y) eqn:Hc; intros [= <- <-].
  1,3: (split; [by rewrite Hp|]; intros u [->|Hu]%elem_of_cons; [congruence|];
    assert (wp_cmp z y ≠ Lt) as Hzy by congruence; pose proof (Hm u Hu) as Hyu;
    apply wp_cmp_ge in Hzy, Hyu; apply wp_cmp_ge; intuition (congruence || lia)).
  split; [rewrite Hp; by constructor|]. intros u [->|Hu]%elem_of_cons; [|by apply Hm].
  apply wp_cmp_ge. assert (¬ wp_cmp z y ≠ Lt) as Hzy by tauto. rewrite wp_cmp_ge in Hzy.
  destruct (fully_explored z), (fully_explored y); intuition (congruence || lia).
Qed.

(** Stakes as weights; a chain of channels from this node (0) to node 3 and a
    shortcut without funds. *)
Definition stake_weighting : EdgeWeighting := λ _ edge, Some (amount (balance (channel edge))).

Definition good_score : NodeScoreUpdate := Initialize 1000 f64_one.

Definition chain_ops : list graph_op :=
  [OpChannel (demo_channel 0 1 5 Open); OpChannel (demo_channel 1 2 6 Open);
   OpChannel (demo_channel 2 3 7 Open); OpChannel (demo_channel 0 3 0 Open);
   OpChannel (demo_channel 1 3 9 (PendingToClose 77));
   OpNodeScore [1] good_score; OpNodeScore [2] good_score; OpNodeScore [3] good_score].

Definition chain_graph : @ChannelGraph demo_ops := demo_graph chain_ops.

Definition demo_select (min_hops max_hops : Z) : option (outcome PathError (list Address)) :=
  @select_path demo_ops stake_weighting list_heap chain_graph DfsPathSelectorConfig_default
    [0] [4] min_hops max_hops.

Lemma chain_graph_wf : @graph_wf demo_ops demo_laws chain_graph.
Proof.
  apply (@graph_run_refines demo_ops demo_laws chain_ops
    (@ChannelGraph_new demo_ops [0] ChannelGraphConfig_default) chain_graph ∅).
  - apply ChannelGraph_new_wf.
  - intros s d. by rewrite (@ChannelGraph_new_channels demo_ops demo_laws), lookup_empty.
  - vm_compute. reflexivity.
Qed.

Lemma select_path_sound_witness :
  demo_select 1 3 = Some (Ok [[1]; [2]; [3]]) ∧ NoDup [[1]; [2]; [3]].
Proof.
  assert (demo_select 1 3 = Some (Ok [[1]; [2]; [3]])) as E by (vm_compute; reflexivity).
  split; [exact E|].
  destruct (@select_path_sound demo_ops demo_laws stake_weighting list_heap list_heap_laws
    chain_graph DfsPathSelectorConfig_default [0] [4] 1 3 [[1]; [2]; [3]])
    as (_ & _ & H & _); [exact chain_graph_wf|vm_compute; eexists; reflexivity|exact E|exact H].
Defined.

(** There is no route of two or more hops to avoid node 1. *)
Lemma select_path_complete_witness :
  demo_select 1 2 = Some (Ok [[1]; [2]]) ∧
  ∃ n res, @search demo_ops stake_weighting list_heap chain_graph DfsPathSelectorConfig_default
    [0] [1] 1 2 = Some (n, res) ∧ n ≤ 100.
Proof.
  split; [vm_compute; reflexivity|].
  destruct (@select_path_complete demo_ops demo_laws stake_weighting list_heap list_heap_laws
    chain_graph DfsPathSelectorConfig_default [0] [1] 1 2) as (n & res & Hs & _);
    [exact chain_graph_wf|vm_compute; eexists; reflexivity|vm_compute; discriminate|lia
    |vm_compute; discriminate|].
  exists n, res. split; [exact Hs|].
  assert (fst <$> @search demo_ops stake_weighting list_heap chain_graph
    DfsPathSelectorConfig_default [0] [1] 1 2 = Some 0) as E by (vm_compute; reflexivity).
  rewrite Hs in E. injection E as ->. lia.
Defined.
