(* ===== verification/Tickets.v ===== *)
(** * Tickets

    Models [common/internal-types/src/tickets.rs]: the winning probability
    encoding, the ticket builder with its input validation, the 148-byte
    encoding, the EIP-712-like hash, and the state machine of ticket types
    (unverified, verified, unacknowledged, acknowledged, redeemable,
    transferable).  Comparing floats approximately is done by the [float_cmp]
    crate, the class [FloatCmp]. *)
From S2P Require Import Prelude Primitives Crypto Channels.
From Stdlib Require Import Floats.SpecFloat.

(** [CoreTypesError] of [errors.rs]. *)
Inductive CoreTypesError :=
| InvalidInputData (what : string)
| CoreParseError (what : string)
| ArithmeticError (what : string)
| InvalidTicketRecipient
| InvalidAcknowledgement
| InvalidWinningProbability
| LoopbackTicket
| InvalidMultiaddr
| CoreCryptoError (e : CryptoError)
| CoreGeneralError (e : GeneralError).

Abbreviation TR := (outcome CoreTypesError).

(** [hopr_primitive_types::f64_approx_eq a b epsilon]. *)
Class FloatCmp := f64_approx_eq : f64 → f64 → f64 → bool.

(** ** Winning probabilities: 7 bytes *)
Definition EncodedWinProb : Type := bytes.
Definition ENCODED_WIN_PROB_LENGTH : nat := 7.
Definition ENCODED_TICKET_LENGTH : nat := 64.
Definition REDEEM_CALL_SELECTOR : bytes := [252; 183; 121; 111].

Definition WinningProbability : Type := EncodedWinProb.
Definition ALWAYS : WinningProbability := replicate 7 0xff.
Definition NEVER : WinningProbability := replicate 7 0.
(** The literal [0.00000001]. *)
Definition EPSILON : f64 := f64_from_bits 0x3E45798EE2308C3A.

Definition as_luck (p : WinningProbability) : Z := from_be (0 :: p).
Definition as_encoded (p : WinningProbability) : EncodedWinProb := p.

Definition as_f64 (p : WinningProbability) : f64 :=
  if bool_decide (p = NEVER) then f64_zero
  else if bool_decide (p = ALWAYS) then f64_one
  else
    let tmp := from_be (0 :: p) in
    let significand := wrap 64 (tmp + 1) in
    f64_sub (f64_from_bits (Z.lor (Z.shiftl 1023 52) (Z.shiftr significand 4))) f64_one.

Definition WinProb_from_u64 (value : Z) : WinningProbability := drop 1 (to_be 8 value).
Definition WinProb_try_from : bytes → outcome GeneralError WinningProbability :=
  array_try_from ENCODED_WIN_PROB_LENGTH "WinningProbability".

Section WinProb.
Context `{!FloatCmp}.

Definition try_from_f64 (win_prob : f64) : TR WinningProbability :=
  if negb (f64_unit_contains win_prob) then
    Err (InvalidInputData "winning probability must be in [0.0, 1.0]")
  else if f64_approx_eq f64_zero win_prob EPSILON then Ok NEVER
  else if f64_approx_eq f64_one win_prob EPSILON then Ok ALWAYS
  else
    let tmp := f64_to_bits (f64_add win_prob f64_one) in
    let significand := Z.land tmp 0x000fffffffffffff in
    let encoded := Z.lor (wrap 64 (Z.shiftl (wrap 64 (significand - 1)) 4)) 0xf in
    Ok (drop 1 (to_be 8 encoded)).

(** [a.partial_cmp(&b).expect(..)]: a comparison with a NaN panics. *)
Definition approx_cmp {E} (self other : WinningProbability) : outcome E comparison :=
  let a := as_f64 self in
  let b := as_f64 other in
  if negb (f64_approx_eq a b EPSILON) then unwrap_option (SFcompare a b) else Ok Eq.

Definition approx_eq {E} (self other : WinningProbability) : outcome E bool :=
  c ← approx_cmp self other; Ok (match c with Eq => true | _ => false end).
Definition WinProb_min {E} (self other : WinningProbability) : outcome E WinningProbability :=
  c ← approx_cmp self other; Ok (match c with Lt => self | _ => other end).
Definition WinProb_max {E} (self other : WinningProbability) : outcome E WinningProbability :=
  c ← approx_cmp self other; Ok (match c with Gt => self | _ => other end).
End WinProb.

Section Tickets.
Context `{!Secp256k1}.

(** The luck of a ticket: the first seven bytes of the hash of the ticket
    hash, the VRF output, the response and the signature. *)
Definition computed_ticket_luck (ticket_hash : Hash) (ticket_signature : Signature)
    (response : Response) (vrf_params : VrfParameters) : Z :=
  from_be (0 :: take 7 (Hash_create
    [ticket_hash; drop 1 (as_uncompressed (V vrf_params)); response; ticket_signature])).

Definition check_ticket_win (ticket_hash : Hash) (ticket_signature : Signature)
    (win_prob : WinningProbability) (response : Response) (vrf_params : VrfParameters) : bool :=
  computed_ticket_luck ticket_hash ticket_signature response vrf_params <=? as_luck win_prob.

(** ** Tickets and their builder *)
Record Ticket := mkTicket {
  t_channel_id : Hash;
  t_amount : HoprBalance;
  t_index : Z;
  t_index_offset : Z;
  t_encoded_win_prob : EncodedWinProb;
  t_channel_epoch : Z;
  t_challenge : EthereumChallenge;
  t_signature : option Signature
}.

Record TicketBuilder := mkTicketBuilder {
  b_channel_id : option Hash;
  b_amount : option Z;
  b_balance : option HoprBalance;
  b_index : Z;
  b_index_offset : Z;
  b_channel_epoch : Z;
  b_win_prob : WinningProbability;
  b_challenge : option EthereumChallenge;
  b_signature : option Signature
}.

Definition TicketBuilder_default : TicketBuilder :=
  mkTicketBuilder None None None 0 1 1 ALWAYS None None.
Definition zero_hop : TicketBuilder :=
  mkTicketBuilder None (Some 0) None 0 1 0 NEVER None None.

Definition set_channel_id (channel_id : Hash) (b : TicketBuilder) : TicketBuilder :=
  mkTicketBuilder (Some channel_id) (b_amount b) (b_balance b) (b_index b) (b_index_offset b)
    (b_channel_epoch b) (b_win_prob b) (b_challenge b) (b_signature b).
Definition set_direction (source destination : Address) (b : TicketBuilder) : TicketBuilder :=
  set_channel_id (generate_channel_id source destination) b.
(** Setting the amount clears the balance, and the other way round. *)
Definition set_amount (amount : Z) (b : TicketBuilder) : TicketBuilder :=
  mkTicketBuilder (b_channel_id b) (Some amount) None (b_index b) (b_index_offset b)
    (b_channel_epoch b) (b_win_prob b) (b_challenge b) (b_signature b).
Definition set_balance (balance : HoprBalance) (b : TicketBuilder) : TicketBuilder :=
  mkTicketBuilder (b_channel_id b) None (Some balance) (b_index b) (b_index_offset b)
    (b_channel_epoch b) (b_win_prob b) (b_challenge b) (b_signature b).
Definition set_index (index : Z) (b : TicketBuilder) : TicketBuilder :=
  mkTicketBuilder (b_channel_id b) (b_amount b) (b_balance b) index (b_index_offset b)
    (b_channel_epoch b) (b_win_prob b) (b_challenge b) (b_signature b).
Definition set_index_offset (index_offset : Z) (b : TicketBuilder) : TicketBuilder :=
  mkTicketBuilder (b_channel_id b) (b_amount b) (b_balance b) (b_index b) index_offset
    (b_channel_epoch b) (b_win_prob b) (b_challenge b) (b_signature b).
Definition set_channel_epoch (channel_epoch : Z) (b : TicketBuilder) : TicketBuilder :=
  mkTicketBuilder (b_channel_id b) (b_amount b) (b_balance b) (b_index b) (b_index_offset b)
    channel_epoch (b_win_prob b) (b_challenge b) (b_signature b).
Definition set_win_prob (win_prob : WinningProbability) (b : TicketBuilder) : TicketBuilder :=
  mkTicketBuilder (b_channel_id b) (b_amount b) (b_balance b) (b_index b) (b_index_offset b)
    (b_channel_epoch b) win_prob (b_challenge b) (b_signature b).
Definition set_challenge (challenge : EthereumChallenge) (b : TicketBuilder) : TicketBuilder :=
  mkTicketBuilder (b_channel_id b) (b_amount b) (b_balance b) (b_index b) (b_index_offset b)
    (b_channel_epoch b) (b_win_prob b) (Some challenge) (b_signature b).
Definition set_signature (signature : Signature) (b : TicketBuilder) : TicketBuilder :=
  mkTicketBuilder (b_channel_id b) (b_amount b) (b_balance b) (b_index b) (b_index_offset b)
    (b_channel_epoch b) (b_win_prob b) (b_challenge b) (Some signature).

(** The amount part of [TicketBuilder::build]; the arms in their order. *)
Definition build_amount (b : TicketBuilder) : TR HoprBalance :=
  let too_much := Err (InvalidInputData "tickets may not have more than 1% of total supply") in
  match b_amount b, b_balance b with
  | Some amt, None => if amt <? 10 ^ 25 then Ok (mkBalance amt) else too_much
  | None, Some bal => if amount bal <? 10 ^ 25 then Ok bal else too_much
  | None, None => Err (InvalidInputData "missing ticket amount")
  | Some _, Some _ => Err (InvalidInputData "either amount or balance must be set but not both")
  end.

Definition build (b : TicketBuilder) : TR Ticket :=
  amount ← build_amount b;
  if Z.shiftl 1 48 <? b_index b then
    Err (InvalidInputData "cannot hold ticket indices larger than 2^48")
  else if Z.shiftl 1 24 <? b_channel_epoch b then
    Err (InvalidInputData "cannot hold channel epoch larger than 2^24")
  else if b_index_offset b <? 1 then
    Err (InvalidInputData "ticket index offset must be greater or equal to 1")
  else
    channel_id ← ok_or (b_channel_id b) (InvalidInputData "missing channel id");
    challenge ← ok_or (b_challenge b) (InvalidInputData "missing ticket challenge");
    Ok (mkTicket channel_id amount (b_index b) (b_index_offset b) (b_win_prob b)
          (b_channel_epoch b) challenge (b_signature b)).

(** [From<&Ticket> for TicketBuilder]: the signature is not copied. *)
Definition TicketBuilder_from (t : Ticket) : TicketBuilder :=
  mkTicketBuilder (Some (t_channel_id t)) None (Some (t_amount t)) (t_index t) (t_index_offset t)
    (t_channel_epoch t) (t_encoded_win_prob t) (Some (t_challenge t)) None.

(** [Ord for Ticket]: channel id (bytes, lexicographically), epoch, index. *)
Fixpoint bytes_cmp (a b : bytes) : comparison :=
  match a, b with
  | [], [] => Eq
  | [], _ => Lt
  | _, [] => Gt
  | x :: a, y :: b => match x ?= y with Eq => bytes_cmp a b | c => c end
  end.

Definition Ticket_cmp (a b : Ticket) : comparison :=
  match bytes_cmp (t_channel_id a) (t_channel_id b) with
  | Eq => match t_channel_epoch a ?= t_channel_epoch b with
          | Eq => t_index a ?= t_index b
          | c => c
          end
  | c => c
  end.

(** ** Encoding: the fields one after the other *)
Definition TICKET_SIZE : nat := ENCODED_TICKET_LENGTH + EthereumChallenge_SIZE + Signature_SIZE.

Definition encode_without_signature (t : Ticket) : bytes :=
  t_channel_id t ++
  drop 20 (U256_to_be_bytes (amount (t_amount t))) ++
  drop 2 (to_be 8 (t_index t)) ++
  to_be 4 (t_index_offset t) ++
  drop 1 (to_be 4 (t_channel_epoch t)) ++
  t_encoded_win_prob t ++
  t_challenge t.

Definition get_hash (t : Ticket) (domain_separator : Hash) : Hash :=
  let ticket_hash := Hash_create [encode_without_signature t] in
  let hash_struct := Hash_create [REDEEM_CALL_SELECTOR; replicate 28 0; ticket_hash] in
  Hash_create [[0x19; 0x01]; domain_separator; hash_struct].

(** [From<Ticket> for \[u8; TICKET_SIZE\]]: panics without a signature. *)
Definition Ticket_to_bytes {E} (t : Ticket) : outcome E bytes :=
  signature ← unwrap_option (t_signature t); Ok (encode_without_signature t ++ signature).

Definition Ticket_try_from (value : bytes) : outcome GeneralError Ticket :=
  if bool_decide (length value = TICKET_SIZE) then
    channel_id ← Hash_try_from (take 32 value);
    let amount := replicate 20 0 ++ take 12 (drop 32 value) in
    let index := replicate 2 0 ++ take 6 (drop 44 value) in
    let index_offset := take 4 (drop 50 value) in
    let channel_epoch := replicate 1 0 ++ take 3 (drop 54 value) in
    win_prob ← WinProb_try_from (take 7 (drop 57 value));
    challenge ← EthereumChallenge_try_from (take 20 (drop 64 value));
    signature ← Signature_try_from (take 64 (drop 84 value));
    map_err (λ _, ParseError "ticket build failed") (build
      (set_signature signature (set_challenge challenge (set_win_prob win_prob
        (set_channel_epoch (from_be channel_epoch) (set_index_offset (from_be index_offset)
          (set_index (from_be index) (set_amount (from_be amount)
            (set_channel_id channel_id TicketBuilder_default)))))))))
  else Err (ParseError "Ticket").

(** ** The state machine of ticket types *)
Record VerifiedTicket := mkVerified {
  verified_ticket : Ticket;
  verified_hash : Hash;
  verified_issuer : Address
}.

Definition set_ticket_signature (s : Signature) (t : Ticket) : Ticket :=
  mkTicket (t_channel_id t) (t_amount t) (t_index t) (t_index_offset t) (t_encoded_win_prob t)
    (t_channel_epoch t) (t_challenge t) (Some s).

(** Signing panics only where [Signature::sign_hash] does. *)
Definition sign {E} (t : Ticket) (signing_key : ChainKeypair) (domain_separator : Hash) :
    outcome E VerifiedTicket :=
  let ticket_hash := get_hash t domain_separator in
  sig ← sign_hash ticket_hash signing_key;
  Ok (mkVerified (set_ticket_signature sig t) ticket_hash
        (PublicKey_to_address (ck_public signing_key))).

(** A failure returns the ticket. *)
Definition verify (t : Ticket) (issuer : Address) (domain_separator : Hash) :
    outcome Ticket VerifiedTicket :=
  let ticket_hash := get_hash t domain_separator in
  match t_signature t with
  | Some signature =>
      match from_signature_hash ticket_hash signature with
      | Ok pk => if bool_decide (PublicKey_to_address pk = issuer)
                 then Ok (mkVerified t ticket_hash issuer) else Err t
      | Err _ => Err t
      | Panic => Panic
      end
  | None => Err t
  end.

Definition is_aggregated (t : Ticket) : bool := 1 <? t_index_offset t.
Definition win_prob (t : Ticket) : WinningProbability := t_encoded_win_prob t.

Definition build_signed (b : TicketBuilder) (signer : ChainKeypair) (domain_separator : Hash) :
    TR VerifiedTicket :=
  match b_signature b with
  | None => t ← build b; sign t signer domain_separator
  | Some _ => Err (InvalidInputData "signature already set")
  end.

Definition build_verified (b : TicketBuilder) (hash : Hash) : TR VerifiedTicket :=
  match b_signature b with
  | Some signature =>
      pk ← map_err CoreCryptoError (from_signature_hash hash signature);
      let issuer := PublicKey_to_address pk in
      t ← build b; Ok (mkVerified t hash issuer)
  | None => Err (InvalidInputData "signature is missing")
  end.

Definition verified_signature {E} (vt : VerifiedTicket) : outcome E Signature :=
  unwrap_option (t_signature (verified_ticket vt)).

Definition leak (vt : VerifiedTicket) : Ticket := verified_ticket vt.

(** [random] is the nonce that the VRF derivation draws. *)
Definition VerifiedTicket_is_winning {E} (random : bytes) (vt : VerifiedTicket) (response : Response)
    (chain_keypair : ChainKeypair) (domain_separator : Hash) : outcome E bool :=
  match derive_vrf_parameters random (verified_hash vt) chain_keypair domain_separator with
  | Ok vrf_params =>
      signature ← verified_signature vt;
      Ok (check_ticket_win (verified_hash vt) signature (win_prob (verified_ticket vt)) response
            vrf_params)
  | Err _ => Ok false
  | Panic => Panic
  end.

Record UnacknowledgedTicket := mkUnacknowledged { ua_ticket : VerifiedTicket; ua_own_key : HalfKey }.

Inductive AcknowledgedTicketStatus := Untouched | BeingRedeemed | BeingAggregated.
Definition AcknowledgedTicketStatus_repr (s : AcknowledgedTicketStatus) : Z :=
  match s with Untouched => 0 | BeingRedeemed => 1 | BeingAggregated => 2 end.

Record AcknowledgedTicket := mkAcknowledged {
  ack_status : AcknowledgedTicketStatus;
  ack_ticket : VerifiedTicket;
  ack_response : Response
}.

Definition into_unacknowledged (vt : VerifiedTicket) (own_key : HalfKey) : UnacknowledgedTicket :=
  mkUnacknowledged vt own_key.
Definition into_acknowledged (vt : VerifiedTicket) (response : Response) : AcknowledgedTicket :=
  mkAcknowledged Untouched vt response.

Definition acknowledge (ut : UnacknowledgedTicket) (acknowledgement : HalfKey) : TR AcknowledgedTicket :=
  response ← map_err CoreCryptoError (Response_from_half_keys (ua_own_key ut) acknowledgement);
  challenge ← map_err CoreCryptoError (Response_to_challenge response);
  if bool_decide (t_challenge (verified_ticket (ua_ticket ut)) = Challenge_to_ethereum_challenge challenge)
  then Ok (into_acknowledged (ua_ticket ut) response)
  else Err (CoreCryptoError InvalidChallenge).

Definition AcknowledgedTicket_is_winning {E} (random : bytes) (a : AcknowledgedTicket)
    (chain_keypair : ChainKeypair) (domain_separator : Hash) : outcome E bool :=
  VerifiedTicket_is_winning random (ack_ticket a) (ack_response a) chain_keypair domain_separator.

Record RedeemableTicket := mkRedeemable {
  r_ticket : VerifiedTicket;
  r_response : Response;
  r_vrf_params : VrfParameters;
  r_channel_dst : Hash
}.

Record TransferableWinningTicket := mkTransferable {
  tw_ticket : Ticket;
  tw_response : Response;
  tw_vrf_params : VrfParameters;
  tw_signer : Address
}.

Definition into_redeemable (random : bytes) (a : AcknowledgedTicket) (chain_keypair : ChainKeypair)
    (domain_separator : Hash) : TR RedeemableTicket :=
  if bool_decide (PublicKey_to_address (ck_public chain_keypair) = verified_issuer (ack_ticket a))
  then Err LoopbackTicket
  else
    vrf_params ← map_err CoreCryptoError
      (derive_vrf_parameters random (verified_hash (ack_ticket a)) chain_keypair domain_separator);
    Ok (mkRedeemable (ack_ticket a) (ack_response a) vrf_params domain_separator).

Definition TransferableWinningTicket_from (r : RedeemableTicket) : TransferableWinningTicket :=
  mkTransferable (leak (r_ticket r)) (r_response r) (r_vrf_params r) (verified_issuer (r_ticket r)).

Definition into_transferable (random : bytes) (a : AcknowledgedTicket) (chain_keypair : ChainKeypair)
    (domain_separator : Hash) : TR TransferableWinningTicket :=
  r ← into_redeemable random a chain_keypair domain_separator;
  Ok (TransferableWinningTicket_from r).

Definition AcknowledgedTicket_from (r : RedeemableTicket) : AcknowledgedTicket :=
  mkAcknowledged Untouched (r_ticket r) (r_response r).

(** [TransferableWinningTicket::into_redeemable]. *)
Definition transferable_into_redeemable (t : TransferableWinningTicket) (expected_issuer : Address)
    (domain_separator : Hash) : TR RedeemableTicket :=
  if negb (bool_decide (tw_signer t = expected_issuer)) then
    Err (InvalidInputData "invalid ticket issuer")
  else
    vt ← map_err (λ _, CoreCryptoError SignatureVerification)
      (verify (tw_ticket t) (tw_signer t) domain_separator);
    signature ← verified_signature vt;
    if check_ticket_win (verified_hash vt) signature (win_prob (verified_ticket vt))
         (tw_response t) (tw_vrf_params t)
    then Ok (mkRedeemable vt (tw_response t) (tw_vrf_params t) domain_separator)
    else Err (InvalidInputData "ticket is not a win").

End Tickets.

(** ** Encoding *)

Section Encoding.
Context `{!Secp256k1}.

(** The ranges that the Rust types of the fields impose. *)
Definition Ticket_typed (t : Ticket) : Prop :=
  array_wf 32 (t_channel_id t) ∧ Balance_wf (t_amount t) ∧ in_u 64 (t_index t) ∧
  in_u 32 (t_index_offset t) ∧ array_wf 7 (t_encoded_win_prob t) ∧ in_u 32 (t_channel_epoch t) ∧
  array_wf 20 (t_challenge t) ∧ (∀ s, t_signature t = Some s → array_wf 64 s).

#[export] Instance Ticket_typed_dec t : Decision (Ticket_typed t).
Proof.
  unfold Ticket_typed, Balance_wf. repeat apply and_dec; try apply _.
  destruct (t_signature t) as [s|]; [|by left].
  destruct (decide (array_wf 64 s)); [left; by intros ? [= <-]|right; auto].
Defined.

(** What a successful [build] guarantees of the ticket. *)
Definition Ticket_built (t : Ticket) : Prop :=
  0 ≤ amount (t_amount t) < 10 ^ 25 ∧ 0 ≤ t_index t ≤ 2 ^ 48 ∧ 0 ≤ t_channel_epoch t ≤ 2 ^ 24 ∧
  1 ≤ t_index_offset t.

#[export] Instance Ticket_built_dec t : Decision (Ticket_built t).
Proof. unfold Ticket_built. apply _. Defined.

(** What the encoding keeps of a ticket. *)
Definition encoded_part (t : Ticket) : Ticket :=
  mkTicket (t_channel_id t) (t_amount t) (wrap 48 (t_index t)) (t_index_offset t)
    (t_encoded_win_prob t) (wrap 24 (t_channel_epoch t)) (t_challenge t) (t_signature t).

Lemma encode_fields t :
  encode_without_signature t =
    t_channel_id t ++ to_be 12 (amount (t_amount t)) ++ to_be 6 (t_index t) ++
    to_be 4 (t_index_offset t) ++ to_be 3 (t_channel_epoch t) ++ t_encoded_win_prob t ++ t_challenge t.
Proof. unfold encode_without_signature, U256_to_be_bytes. by rewrite !drop_to_be by lia. Qed.

Lemma length_encode t :
  Ticket_typed t → length (encode_without_signature t) = (ENCODED_TICKET_LENGTH + EthereumChallenge_SIZE)%nat.
Proof.
  intros ([Hc _] & _ & _ & _ & [Hw _] & _ & [Hch _] & _).
  rewrite encode_fields, !length_app, !length_to_be, Hc, Hw, Hch. done.
Qed.

Lemma encode_encoded_part t : encode_without_signature (encoded_part t) = encode_without_signature t.
Proof.
  rewrite !encode_fields. unfold encoded_part. simpl.
  by rewrite <-(to_be_wrap 6 (t_index t)), <-(to_be_wrap 3 (t_channel_epoch t)).
Qed.

Lemma build_Ok b t :
  build b = Ok t ↔
    (∃ c ch, b_channel_id b = Some c ∧ b_challenge b = Some ch ∧
      ∃ amt, build_amount b = Ok amt ∧
      b_index b ≤ 2 ^ 48 ∧ b_channel_epoch b ≤ 2 ^ 24 ∧ 1 ≤ b_index_offset b ∧
      t = mkTicket c amt (b_index b) (b_index_offset b) (b_win_prob b) (b_channel_epoch b) ch
            (b_signature b)).
Proof.
  unfold build. destruct (build_amount b) as [amt| |]; cbn [mbind outcome_bind];
    [|split; [done|intros (? & ? & ? & ? & ? & ? & ?); done]..].
  change (Z.shiftl 1 48) with (2 ^ 48). change (Z.shiftl 1 24) with (2 ^ 24).
  destruct (Z.ltb_spec (2 ^ 48) (b_index b)); [split; [done|intros (? & ? & ? & ? & ? & ? & ?); lia]|].
  destruct (Z.ltb_spec (2 ^ 24) (b_channel_epoch b)); [split; [done|intros (? & ? & ? & ? & ? & ? & ?); lia]|].
  destruct (Z.ltb_spec (b_index_offset b) 1); [split; [done|intros (? & ? & ? & ? & ? & ? & ?); lia]|].
  destruct (b_channel_id b) as [c|]; simpl; [|split; [done|intros (? & ? & ? & ?); done]].
  destruct (b_challenge b) as [ch|]; simpl; [|split; [done|intros (? & ? & ? & ? & ?); done]].
  split.
  - intros [= <-]. eexists _, _. split_and!; [done..|]. eexists. done.
  - intros (? & ? & [= <-] & [= <-] & ? & [= <-] & _ & _ & _ & ->). done.
Qed.

(** Every field but the signature passes through the wire format, and the
    parser's validation accepts it. *)
Lemma Ticket_try_from_encode t sig :
  Ticket_typed t → Ticket_built t → t_signature t = Some sig →
  Ticket_try_from (encode_without_signature t ++ sig) = Ok (encoded_part t).
Proof.
  intros Ht Hb Hsig. pose proof (length_encode t Ht) as Hlen.
  destruct Ht as ([Hc _] & Ha & Hi & Ho & [Hw _] & He & [Hch _] & Hs).
  specialize (Hs _ Hsig) as [Hsig64 _]. destruct Hb as (Hba & Hbi & Hbe & Hbo).
  set (ps := [t_channel_id t; to_be 12 (amount (t_amount t)); to_be 6 (t_index t);
    to_be 4 (t_index_offset t); to_be 3 (t_channel_epoch t); t_encoded_win_prob t;
    t_challenge t; sig]).
  assert (encode_without_signature t ++ sig = concat ps) as Hbs.
  { rewrite encode_fields. unfold ps. cbn [concat]. by rewrite app_nil_r, <-!(assoc_L (++)). }
  assert (∀ i p k n, ps !! i = Some p → sum_list (length <$> take i ps) = k → length p = n →
    take n (drop k (encode_without_signature t ++ sig)) = p) as Hsl
    by (rewrite Hbs; apply slice_concat).
  assert (length <$> ps = [32; 12; 6; 4; 3; 7; 20; 64]%nat) as Hls
    by (unfold ps; cbn; by rewrite !length_to_be, Hc, Hw, Hch, Hsig64).
  assert (∀ i p k n, ps !! i = Some p → sum_list (take i [32; 12; 6; 4; 3; 7; 20; 64]%nat) = k →
    length p = n → take n (drop k (encode_without_signature t ++ sig)) = p) as Hslice.
  { intros i p k n Hp Hk. apply (Hsl i); [done|]. by rewrite fmap_take, Hls. }
  unfold Ticket_try_from.
  rewrite bool_decide_eq_true_2 by (rewrite length_app, Hlen, Hsig64; done).
  rewrite <-(drop_0 (encode_without_signature t ++ sig)) at 1.
  rewrite (Hslice 0%nat (t_channel_id t) 0%nat 32%nat),
    (Hslice 1%nat (to_be 12 (amount (t_amount t))) 32%nat 12%nat),
    (Hslice 2%nat (to_be 6 (t_index t)) 44%nat 6%nat),
    (Hslice 3%nat (to_be 4 (t_index_offset t)) 50%nat 4%nat),
    (Hslice 4%nat (to_be 3 (t_channel_epoch t)) 54%nat 3%nat),
    (Hslice 5%nat (t_encoded_win_prob t) 57%nat 7%nat),
    (Hslice 6%nat (t_challenge t) 64%nat 20%nat), (Hslice 7%nat sig 84%nat 64%nat)
    by (reflexivity || rewrite ?length_to_be; done).
  unfold Hash_try_from, WinProb_try_from, EthereumChallenge_try_from, Signature_try_from.
  rewrite (proj2 (array_try_from_ok _ _ (t_channel_id t)) Hc),
    (proj2 (array_try_from_ok _ _ (t_encoded_win_prob t)) Hw),
    (proj2 (array_try_from_ok _ _ (t_challenge t)) Hch),
    (proj2 (array_try_from_ok _ _ sig) Hsig64).
  cbn [mbind outcome_bind]. rewrite !from_be_zeros, !from_be_to_be.
  rewrite (wrap_small _ (amount (t_amount t))), (wrap_small _ (t_index_offset t))
    by (unfold in_u in *; simpl; lia).
  erewrite (proj2 (build_Ok _ _)); [reflexivity|].
  eexists _, _. split_and!; [reflexivity..|]. exists (t_amount t).
  assert (∀ w z, 0 ≤ w → 0 ≤ z ≤ 2 ^ w → wrap w z ≤ 2 ^ w) as Hwrap
    by (intros w z Hw0 Hz; pose proof (wrap_in_u w z Hw0); unfold in_u in *; lia).
  split_and!; [|by apply (Hwrap 48)|by apply (Hwrap 24)|done|unfold encoded_part; by rewrite Hsig].
  unfold build_amount. cbn. rewrite (proj2 (Z.ltb_lt _ _)) by lia. by destruct (t_amount t).
Qed.

(** A parsed ticket satisfies the builder's checks and re-encodes to the bytes
    it was parsed from. *)
Lemma Ticket_to_bytes_try_from bs t :
  bytes_wf bs → Ticket_try_from bs = Ok t →
  Ticket_built t ∧ t_index t < 2 ^ 48 ∧ t_channel_epoch t < 2 ^ 24 ∧
  Ticket_to_bytes (E:=Empty_set) t = Ok bs.
Proof.
  intros Hwf. unfold Ticket_try_from. case_bool_decide as Hl; [|done].
  unfold Hash_try_from, WinProb_try_from, EthereumChallenge_try_from, Signature_try_from.
  unfold array_try_from.
  assert (length bs = 148%nat) as Hl' by exact Hl.
  rewrite !bool_decide_eq_true_2 by (rewrite length_take, ?length_drop, Hl'; done).
  cbn [mbind outcome_bind]. rewrite !from_be_zeros.
  assert (∀ n k, (n + k ≤ 148)%nat → length (take n (drop k bs)) = n) as Hlen
    by (intros; rewrite length_take, length_drop, Hl'; lia).
  assert (∀ n k, bytes_wf (take n (drop k bs))) as Hw by (intros; by apply Forall_take, Forall_drop).
  assert (∀ n k, (n + k ≤ 148)%nat → in_u (8 * Z.of_nat n) (from_be (take n (drop k bs)))) as Hb
    by (intros n k Hnk; rewrite <-(Hlen n k Hnk) at 1; apply from_be_bound, Hw).
  assert (∀ n k, (n + k ≤ 148)%nat → to_be n (from_be (take n (drop k bs))) = take n (drop k bs)) as Hr
    by (intros n k Hnk; apply to_be_from_be; [apply Hw|by apply Hlen]).
  destruct (build _) as [t'| |] eqn:Hbuild; [|done..]. intros [= ->].
  apply build_Ok in Hbuild as (c & ch & [= <-] & [= <-] & amt & Hamt & Hi & He & Ho & ->).
  unfold build_amount in Hamt. cbn in Hamt. cbn in Hi, He, Ho.
  destruct (Z.ltb_spec (from_be (take 12 (drop 32 bs))) (10 ^ 25)) as [Ha|]; [|done].
  injection Hamt as <-.
  pose proof (Hb 12%nat 32%nat ltac:(lia)) as Hb1. pose proof (Hb 6%nat 44%nat ltac:(lia)) as Hb2.
  pose proof (Hb 3%nat 54%nat ltac:(lia)) as Hb3. unfold in_u in Hb1, Hb2, Hb3.
  split_and!; [unfold Ticket_built; cbn; split_and!; lia|cbn; lia|cbn; lia|].
  unfold Ticket_to_bytes. cbn [t_signature unwrap_option mbind outcome_bind]. f_equal.
  rewrite encode_fields. cbn. rewrite !Hr by lia. rewrite <-!(assoc_L (++)).
  rewrite (take_ge (drop 84 bs)) by (rewrite length_drop; lia).
  assert (∀ k n m, (k + n)%nat = m → take n (drop k bs) ++ drop m bs = drop k bs) as Hcat
    by (intros ? ? ? <-; rewrite <-drop_drop; apply take_drop).
  rewrite (Hcat 64 20 84)%nat, (Hcat 57 7 64)%nat, (Hcat 54 3 57)%nat, (Hcat 50 4 54)%nat,
    (Hcat 44 6 50)%nat, (Hcat 32 12 44)%nat by done. f_equal. apply take_drop.
Qed.

(** C39. The 148-byte ticket encoding: parsing the encoding of any ticket that
    the builder accepts gives the ticket back with its index reduced to 48 and
    its epoch to 24 bits, and the parser accepts only canonical encodings:
    what it accepts re-encodes to the same bytes. *)
Theorem Ticket_codec :
  (∀ b t sig, build b = Ok t → t_signature t = Some sig → Ticket_typed t →
    ∃ bs, Ticket_to_bytes (E:=Empty_set) t = Ok bs ∧ length bs = TICKET_SIZE ∧
      Ticket_try_from bs = Ok (encoded_part t)) ∧
  (∀ bs t, bytes_wf bs → Ticket_try_from bs = Ok t →
    t = encoded_part t ∧ Ticket_to_bytes (E:=Empty_set) t = Ok bs).
Proof.
  split.
  - intros b t sig Hb Hsig Ht. assert (Ticket_built t) as Hbt.
    { pose proof Ht as (_ & [Ha0 _] & [Hi0 _] & _ & _ & [He0 _] & _).
      apply build_Ok in Hb as (c & ch & _ & _ & amt & Hamt & Hi & He & Ho & ->).
      unfold Ticket_built. cbn in *. split_and!; try lia. unfold build_amount in Hamt.
      destruct (b_amount b) as [a|], (b_balance b) as [bal|]; try done;
        [destruct (Z.ltb_spec a (10 ^ 25))|destruct (Z.ltb_spec (amount bal) (10 ^ 25))];
        try done; injection Hamt as <-; cbn in *; lia. }
    exists (encode_without_signature t ++ sig). split_and!.
    + unfold Ticket_to_bytes. by rewrite Hsig.
    + rewrite length_app, length_encode by done. destruct Ht as (_ & _ & _ & _ & _ & _ & _ & Hs).
      by rewrite (proj1 (Hs _ Hsig)).
    + by apply Ticket_try_from_encode.
  - intros bs t Hwf Ht. apply Ticket_to_bytes_try_from in Ht as (Hb & Hi & He & Hbs); [|done].
    split; [|done]. destruct Hb as (_ & [? _] & [? _] & _). unfold encoded_part.
    rewrite !wrap_small by (unfold in_u; lia). by destruct t.
Qed.

(** The boundary values that the builder admits break the encoding: tickets
    that differ only in index 0 versus [2^48] (or in epoch 0 versus [2^24])
    are both built, and have the same hash, hence the same valid signatures. *)
Theorem boundary_tickets_collide (b : TicketBuilder) (ti te : Ticket) (ds : Hash) :
  build (set_index 0 b) = Ok ti → build (set_channel_epoch 0 b) = Ok te →
  (∃ t', build (set_index (2 ^ 48) b) = Ok t' ∧ t_index t' = 2 ^ 48 ∧ t_index ti = 0 ∧
    get_hash t' ds = get_hash ti ds) ∧
  (∃ t', build (set_channel_epoch (2 ^ 24) b) = Ok t' ∧ t_channel_epoch t' = 2 ^ 24 ∧
    t_channel_epoch te = 0 ∧ get_hash t' ds = get_hash te ds).
Proof.
  intros (c & ch & Hc & Hch & amt & Hamt & Hi & He & Ho & ->)%build_Ok
    (c' & ch' & Hc' & Hch' & amt' & Hamt' & Hi' & He' & Ho' & ->)%build_Ok.
  split; eexists; (split; [apply build_Ok|]).
  - exists c, ch. split_and!; [done..|]. exists amt. split_and!; done.
  - split_and!; [done..|]. unfold get_hash. by rewrite !encode_fields.
  - exists c', ch'. split_and!; [done..|]. exists amt'. split_and!; done.
  - split_and!; [done..|]. unfold get_hash. by rewrite !encode_fields.
Qed.

End Encoding.

(** ** The ticket state machine *)
Section StateMachine.
Context `{!Secp256k1, !Secp256k1Laws}.
#[local] Set Default Proof Using "All".

(** The guarantees documented for [VerifiedTicket]: the hash is the ticket's,
    and the issuer is the signer recovered from the ticket's signature. *)
Definition VerifiedTicket_wf (ds : Hash) (vt : VerifiedTicket) : Prop :=
  verified_hash vt = get_hash (verified_ticket vt) ds ∧
  ∃ sig pk, t_signature (verified_ticket vt) = Some sig ∧
    from_signature_hash (verified_hash vt) sig = Ok pk ∧
    PublicKey_to_address pk = verified_issuer vt.

Lemma get_hash_set_signature t s ds : get_hash (set_ticket_signature s t) ds = get_hash t ds.
Proof. done. Qed.

Lemma get_hash_wf t ds : array_wf 32 (get_hash t ds).
Proof. apply Hash_create_wf. Qed.

Lemma sign_Ok {E} t kp a ds :
  ChainKeypair_wf kp a →
  ∃ vt, sign (E:=E) t kp ds = Ok vt ∧ VerifiedTicket_wf ds vt ∧
    verified_issuer vt = PublicKey_to_address (ck_public kp) ∧
    ∃ sig, verified_ticket vt = set_ticket_signature sig t.
Proof.
  intros Hkp. destruct (sign_hash_recovers_E (E:=E) kp a (get_hash t ds) Hkp (get_hash_wf t ds))
    as (sig & Hsig & _ & Hrec).
  eexists. unfold sign. rewrite Hsig. split; [done|]. split_and!; [|done|by exists sig].
  split; [done|]. exists sig, (ck_public kp). done.
Qed.

Lemma verify_Ok_iff t issuer ds vt :
  verify t issuer ds = Ok vt ↔
    vt = mkVerified t (get_hash t ds) issuer ∧ VerifiedTicket_wf ds vt.
Proof.
  unfold verify, VerifiedTicket_wf. split.
  - destruct (t_signature t) as [sig|] eqn:Hs; [|done].
    destruct (from_signature_hash _ sig) as [pk| |] eqn:Hf; [|done..].
    case_bool_decide as Hi; [|done]. intros [= <-]. split; [done|]. split; [done|].
    exists sig, pk. done.
  - intros [-> [_ (sig & pk & Hs & Hf & Hi)]]. simpl in *. rewrite Hs, Hf.
    by rewrite bool_decide_eq_true_2.
Qed.

Lemma verify_leak vt ds :
  VerifiedTicket_wf ds vt → verify (leak vt) (verified_issuer vt) ds = Ok vt.
Proof.
  intros Hwf. apply verify_Ok_iff. split; [|done]. destruct Hwf as [Hh _].
  unfold leak. rewrite <-Hh. by destruct vt.
Qed.

(** Signing and verification are inverse: a ticket signed with a chain key
    verifies against the signer's address, as the same verified ticket, and
    against no other address. *)
Theorem sign_then_verify (t : Ticket) (kp : ChainKeypair) (a : Z) (ds : Hash) (issuer : Address) :
  ChainKeypair_wf kp a →
  ∃ vt, sign (E:=Empty_set) t kp ds = Ok vt ∧ VerifiedTicket_wf ds vt ∧
    verify (leak vt) issuer ds =
      if bool_decide (issuer = PublicKey_to_address (ck_public kp)) then Ok vt else Err (leak vt).
Proof.
  intros Hkp. destruct (sign_Ok (E:=Empty_set) t kp a ds Hkp) as (vt & Hs & Hwf & Hi & _).
  exists vt. split_and!; [done..|]. case_bool_decide as Hd; [by rewrite Hd, <-Hi; apply verify_leak|].
  destruct Hwf as [Hh (sig & pk & Hsig & Hf & Hpk)]. unfold verify, leak. rewrite Hsig, <-Hh, Hf.
  rewrite bool_decide_eq_false_2; [done|]. congruence.
Qed.

(** C40. Every way of obtaining a verified ticket except the documented
    unchecked one keeps the promise of the type: the hash is the ticket's and
    the issuer is the recovered signer.  Signing any ticket, also one that
    already has a signature, always succeeds, replaces the signature and
    nothing else, and names the signer as the issuer; building and signing,
    verifying, and re-verifying a transferred winning ticket keep the promise
    where they succeed. *)
Theorem verified_ticket_invariant (ds : Hash) :
  (∀ t kp a, ChainKeypair_wf kp a →
    ∃ vt sig, sign (E:=Empty_set) t kp ds = Ok vt ∧ VerifiedTicket_wf ds vt ∧
      verified_issuer vt = PublicKey_to_address (ck_public kp) ∧
      verified_ticket vt = set_ticket_signature sig t) ∧
  (∀ t issuer vt, verify t issuer ds = Ok vt →
    VerifiedTicket_wf ds vt ∧ verified_ticket vt = t ∧ verified_issuer vt = issuer) ∧
  (∀ b kp a vt, ChainKeypair_wf kp a → build_signed b kp ds = Ok vt → VerifiedTicket_wf ds vt) ∧
  (∀ t issuer r, transferable_into_redeemable t issuer ds = Ok r →
    VerifiedTicket_wf ds (r_ticket r) ∧ verified_issuer (r_ticket r) = issuer ∧ r_channel_dst r = ds).
Proof.
  split_and!.
  - intros t kp a Hkp. destruct (sign_Ok (E:=Empty_set) t kp a ds Hkp) as (vt & Hs & Hwf & Hi & sig & Ht). by exists vt, sig.
  - intros t issuer vt. by intros [-> ?]%verify_Ok_iff.
  - intros b kp a vt Hkp. unfold build_signed. destruct (b_signature b); [done|].
    destruct (build b) as [t| |]; [|done..]. cbn [mbind outcome_bind].
    destruct (sign_Ok (E:=CoreTypesError) t kp a ds Hkp) as (vt' & -> & Hwf & _). by intros [= <-].
  - intros t issuer r. unfold transferable_into_redeemable.
    case_bool_decide as Hi; [|done]. cbn [negb].
    destruct (verify _ _ _) as [vt| |] eqn:Hv; [|done..]. cbn [map_err mbind outcome_bind].
    apply verify_Ok_iff in Hv as [Hvt Hwf].
    destruct (verified_signature vt) as [s| |]; [|done..]. cbn [mbind outcome_bind].
    destruct (check_ticket_win _ _ _ _ _); [|done]. intros [= <-]. simpl.
    split; [done|]. split; [|done]. by rewrite Hvt.
Qed.

(** The VRF output does not depend on the random nonce. *)
Lemma derive_vrf_V random msg kp dst v a :
  ChainKeypair_wf kp a → derive_vrf_parameters random msg kp dst = Ok v →
  ∃ B, hash_from_bytes [PublicKey_to_address (ck_public kp); msg] [dst] = Some B ∧
    V v = CurvePoint_from_affine (p_mul B a).
Proof.
  intros Hkp. destruct (ChainKeypair_scalar_wf _ _ Hkp) as [Hsc Ha]. unfold derive_vrf_parameters.
  destruct (hash_from_bytes _ _) as [B|]; [|done]. cbn [ok_or mbind outcome_bind]. rewrite Hsc.
  cbn [mbind outcome_bind]. rewrite (proj2 (Z.eqb_neq a 0)) by lia.
  destruct (hash_to_scalar_keccak _ _) as [r|]; [|done]. cbn [ok_or mbind outcome_bind].
  destruct (hash_to_scalar_keccak _ _) as [h|]; [|done]. cbn [ok_or mbind outcome_bind].
  intros [= <-]. by exists B.
Qed.

Lemma check_ticket_win_V h s p r v1 v2 :
  V v1 = V v2 → check_ticket_win h s p r v1 = check_ticket_win h s p r v2.
Proof. unfold check_ticket_win, computed_ticket_luck. by intros ->. Qed.

(** Winning tickets are transferable and only they: once the owner of an
    acknowledged ticket has made it redeemable, the transferable form of it is
    accepted by another party, as the same redeemable ticket, if and only if
    the ticket is a win for its owner, whatever random nonce the owner's own
    check draws. *)
Theorem transfer_iff_winning (a : AcknowledgedTicket) (kp : ChainKeypair) (k : Z) (ds : Hash)
    (random random' : bytes) (r : RedeemableTicket) :
  ChainKeypair_wf kp k → VerifiedTicket_wf ds (ack_ticket a) →
  into_redeemable random a kp ds = Ok r →
  is_Ok (derive_vrf_parameters random' (verified_hash (ack_ticket a)) kp ds) →
  ∃ win, AcknowledgedTicket_is_winning (E:=Empty_set) random' a kp ds = Ok win ∧
    transferable_into_redeemable (TransferableWinningTicket_from r) (verified_issuer (ack_ticket a)) ds =
      if win then Ok r else Err (InvalidInputData "ticket is not a win").
Proof.
  intros Hkp Hwf Hr [v' Hv']. unfold into_redeemable in Hr. case_bool_decide; [done|].
  destruct (derive_vrf_parameters random _ _ _) as [v| |] eqn:Hv; [|done..].
  injection Hr as <-. unfold AcknowledgedTicket_is_winning, VerifiedTicket_is_winning. rewrite Hv'.
  pose proof Hwf as [_ (sig & pk & Hsig & _)]. unfold verified_signature. rewrite Hsig.
  eexists. split; [reflexivity|]. unfold transferable_into_redeemable, TransferableWinningTicket_from.
  cbn [tw_signer tw_ticket tw_response tw_vrf_params r_ticket r_response r_vrf_params].
  rewrite bool_decide_eq_true_2 by done. cbn [negb]. rewrite verify_leak by done.
  cbn [map_err mbind outcome_bind]. unfold verified_signature. rewrite Hsig.
  cbn [unwrap_option mbind outcome_bind].
  destruct (derive_vrf_V _ _ _ _ _ _ Hkp Hv) as (B & HB & HV).
  destruct (derive_vrf_V _ _ _ _ _ _ Hkp Hv') as (B' & HB' & HV').
  rewrite HB in HB'. injection HB' as <-.
  rewrite (check_ticket_win_V _ _ _ _ v v') by congruence.
  by destruct (check_ticket_win _ _ _ _ v').
Qed.

(** The win check at its ends: probability one always wins, since no luck
    value exceeds seven bytes of ones; probability zero wins exactly when all
    seven luck bytes are zero, so it is not "never"; and a larger probability
    never turns a win into a loss. *)
Theorem win_check_bounds (h : Hash) (s : Signature) (r : Response) (v : VrfParameters) :
  check_ticket_win h s ALWAYS r v = true ∧
  (check_ticket_win h s NEVER r v = true ↔ computed_ticket_luck h s r v = 0) ∧
  (∀ p q, as_luck p ≤ as_luck q → check_ticket_win h s p r v = true → check_ticket_win h s q r v = true).
Proof.
  assert (in_u 56 (computed_ticket_luck h s r v)) as [Hl0 Hl1].
  { unfold computed_ticket_luck. set (hash := Hash_create _).
    pose proof (Hash_create_wf [h; drop 1 (as_uncompressed (V v)); r; s]) as [Hl Hw]. fold hash in Hl, Hw.
    change (0 :: take 7 hash) with (replicate 1 0 ++ take 7 hash). rewrite from_be_zeros.
    replace 56 with (8 * Z.of_nat (length (take 7 hash))) by (rewrite length_take, Hl; done).
    apply from_be_bound. by apply Forall_take. }
  unfold check_ticket_win. split_and!.
  - apply Z.leb_le. change (as_luck ALWAYS) with (2 ^ 56 - 1). lia.
  - rewrite Z.leb_le. change (as_luck NEVER) with 0. lia.
  - intros p q Hpq. rewrite !Z.leb_le. lia.
Qed.

End StateMachine.

(** ** Concrete runs on the small curve *)
Definition toy_builder : TicketBuilder :=
  set_challenge (replicate 20 1) (set_amount 100 (set_channel_id (replicate 32 2)
    (set_index 5 TicketBuilder_default))).
Definition toy_ds : bytes := replicate 32 9.

Definition toy_verified : VerifiedTicket :=
  match @build_signed Z3_curve toy_builder (toy_key 1) toy_ds with
  | Ok vt => vt
  | _ => mkVerified (mkTicket [] (mkBalance 0) 0 0 [] 0 [] None) [] []
  end.

Definition toy_acknowledged : AcknowledgedTicket :=
  into_acknowledged toy_verified (Z3_scalar_to_bytes 2).

Lemma Ticket_codec_witness :
  ∃ bs, Ticket_to_bytes (E:=Empty_set) (verified_ticket toy_verified) = Ok bs ∧
    Ticket_try_from bs = Ok (verified_ticket toy_verified).
Proof.
  destruct (proj1 Ticket_codec
    (set_signature (match t_signature (verified_ticket toy_verified) with Some s => s | None => [] end)
      toy_builder) (verified_ticket toy_verified)
    (match t_signature (verified_ticket toy_verified) with Some s => s | None => [] end))
    as (bs & H1 & _ & H2).
  - vm_compute. reflexivity.
  - vm_compute. reflexivity.
  - apply (bool_decide_unpack _). vm_compute. exact I.
  - exists bs. split; [exact H1|]. rewrite H2. vm_compute. reflexivity.
Defined.

Lemma boundary_tickets_collide_witness :
  ∃ t0 t1, build (set_index 0 toy_builder) = Ok t0 ∧ build (set_index (2 ^ 48) toy_builder) = Ok t1 ∧
    @get_hash Z3_curve t1 toy_ds = @get_hash Z3_curve t0 toy_ds.
Proof.
  edestruct (@boundary_tickets_collide Z3_curve toy_builder) as [(t1 & H1 & _ & _ & H2) _];
    [vm_compute; reflexivity|vm_compute; reflexivity|].
  eexists _, t1. split; [vm_compute; reflexivity|]. exact (conj H1 H2).
Defined.

Lemma sign_then_verify_witness :
  ∃ t vt, build toy_builder = Ok t ∧ @sign Z3_curve Empty_set t (toy_key 1) toy_ds = Ok vt ∧
    @verify Z3_curve (leak vt) (replicate 20 0) toy_ds = Err (leak vt).
Proof.
  edestruct (@sign_then_verify Z3_curve Z3_curve_laws) as (vt & H1 & _ & H2);
    [apply (toy_key_wf 1); lia|].
  eexists _, vt. split; [vm_compute; reflexivity|]. split; [exact H1|].
  rewrite H2. rewrite bool_decide_eq_false_2; [reflexivity|]. vm_compute. congruence.
Defined.

Lemma toy_verified_wf : @VerifiedTicket_wf Z3_curve toy_ds toy_verified.
Proof.
  split; [vm_compute; reflexivity|]. eexists _, _.
  split; [vm_compute; reflexivity|]. split; vm_compute; reflexivity.
Qed.

Definition toy_redeemable : @RedeemableTicket Z3_curve :=
  match @into_redeemable Z3_curve [1] toy_acknowledged (toy_key 2) toy_ds with
  | Ok r => r
  | _ => @mkRedeemable Z3_curve toy_verified [] (@mkVrf Z3_curve (@CurvePoint_from_affine Z3_curve O1) 0 0) []
  end.

Lemma transfer_iff_winning_witness :
  @into_redeemable Z3_curve [1] toy_acknowledged (toy_key 2) toy_ds = Ok toy_redeemable ∧
  @transferable_into_redeemable Z3_curve (@TransferableWinningTicket_from Z3_curve toy_redeemable)
    (verified_issuer (ack_ticket toy_acknowledged)) toy_ds = Ok toy_redeemable.
Proof.
  assert (@into_redeemable Z3_curve [1] toy_acknowledged (toy_key 2) toy_ds = Ok toy_redeemable) as Hr
    by (vm_compute; reflexivity).
  split; [exact Hr|].
  destruct (@transfer_iff_winning Z3_curve Z3_curve_laws toy_acknowledged (toy_key 2) 2 toy_ds [1] [3]
    toy_redeemable (toy_key_wf 2 ltac:(lia)) toy_verified_wf Hr) as (win & Hw & Ht).
  - eexists. vm_compute. reflexivity.
  - assert (win = true) as Hwin.
    { assert (@AcknowledgedTicket_is_winning Z3_curve Empty_set [3] toy_acknowledged (toy_key 2) toy_ds
        = Ok true) as Hc by (vm_compute; reflexivity).
      rewrite Hc in Hw. injection Hw as <-. reflexivity. }
    rewrite Hwin in Ht. exact Ht.
Defined.

(** A ticket of the first key, signed anew by the second. *)
Lemma verified_ticket_invariant_witness :
  @VerifiedTicket_wf Z3_curve toy_ds (r_ticket toy_redeemable) ∧
  ∃ vt, @sign Z3_curve Empty_set (leak toy_verified) (toy_key 2) toy_ds = Ok vt ∧
    @VerifiedTicket_wf Z3_curve toy_ds vt ∧ verified_issuer vt ≠ verified_issuer toy_verified.
Proof.
  destruct (@verified_ticket_invariant Z3_curve Z3_curve_laws toy_ds) as (Hsign & _ & _ & Hred). split.
  - apply (Hred (@TransferableWinningTicket_from Z3_curve toy_redeemable) (verified_issuer toy_verified)).
    vm_compute. reflexivity.
  - destruct (Hsign (leak toy_verified) (toy_key 2) 2 (toy_key_wf 2 ltac:(lia))) as (vt & sig & Hs & Hwf & Hi & _).
    exists vt. split; [exact Hs|]. split; [exact Hwf|]. rewrite Hi. vm_compute. congruence.
Defined.

Lemma win_check_bounds_witness :
  @check_ticket_win Z3_curve [] [] (WinProb_from_u64 255) [] (r_vrf_params toy_redeemable) = true.
Proof.
  apply (proj2 (proj2 (@win_check_bounds Z3_curve Z3_curve_laws [] [] [] (r_vrf_params toy_redeemable)))
    (WinProb_from_u64 254)).
  - vm_compute. congruence.
  - vm_compute. reflexivity.
Defined.
