(* ===== verification/WinProb.v ===== *)
(** * Winning probabilities as floats

    The double that a winning probability stands for
    ([WinningProbability::as_f64] and [try_from_f64] of
    [common/internal-types/src/tickets.rs]): its exact value, that it orders
    probabilities as their luck thresholds do, and what the way back keeps. *)
From S2P Require Import Prelude Primitives Crypto Channels Float64 Tickets.
From Stdlib Require Import Floats.SpecFloat.

(** The numerator over [2^52] of the double. *)
Definition prob_numerator (p : WinningProbability) : Z := (as_luck p + 1) `div` 16.

Lemma as_luck_from_be p : as_luck p = from_be p.
Proof. apply (from_be_zeros 1). Qed.

Lemma as_luck_bound p : array_wf 7 p → in_u 56 (as_luck p).
Proof.
  intros [Hl Hw]. rewrite as_luck_from_be. replace 56 with (8 * Z.of_nat (length p)) by lia.
  by apply from_be_bound.
Qed.

Lemma as_luck_inj p q : array_wf 7 p → array_wf 7 q → as_luck p = as_luck q → p = q.
Proof.
  intros [Hl Hw] [Hl' Hw'] Hpq. rewrite !as_luck_from_be in Hpq.
  rewrite <-(to_be_from_be 7 p), <-(to_be_from_be 7 q) by done. by rewrite Hpq.
Qed.

Lemma prob_numerator_bound p : array_wf 7 p → 0 ≤ prob_numerator p ≤ 2 ^ 52.
Proof.
  intros Hp. pose proof (as_luck_bound p Hp) as [? ?]. unfold prob_numerator. split.
  - apply Z.div_pos; lia.
  - apply Z.div_le_upper_bound; lia.
Qed.

Lemma f64_from_bits_one_plus m :
  0 ≤ m < 2 ^ 52 →
  f64_from_bits (Z.lor (Z.shiftl 1023 52) m) = S754_finite false (Z.to_pos (m + 2 ^ 52)) (-52).
Proof.
  intros Hm. set (b := Z.lor (Z.shiftl 1023 52) m).
  assert (Z.shiftr b 52 = 1023) as Hhi.
  { unfold b. rewrite Z.shiftr_lor, (Z.shiftr_div_pow2 m), Z.div_small by lia. done. }
  assert (Z.land b 0xFFFFFFFFFFFFF = m) as Hlo.
  { unfold b. rewrite Z.land_lor_distr_l. change 0xFFFFFFFFFFFFF with (Z.ones 52).
    rewrite (Z.land_ones m), Z.mod_small by lia.
    change (Z.land (Z.shiftl 1023 52) (Z.ones 52)) with 0. apply Z.lor_0_l. }
  assert (Z.testbit b 63 = false) as Hs.
  { replace 63 with (11 + 52) by lia. rewrite <-Z.shiftr_spec, Hhi by lia. done. }
  unfold f64_from_bits. rewrite Hhi, Hlo, Hs.
  change (Z.land 1023 2047 =? 2047) with false. change (Z.land 1023 2047 =? 0) with false. cbv iota.
  change (Z.land 1023 2047 - 1075) with (-52).
  destruct (m + 2 ^ 52) eqn:?; done || lia.
Qed.

(** The double of a probability is [(luck + 1) / 16] in units of [2^-52], for
    the two special values too. *)
Lemma as_f64_unit p : array_wf 7 p → as_f64 p = unit_float (prob_numerator p).
Proof.
  intros Hp. pose proof (as_luck_bound p Hp) as [Hb0 Hb1]. unfold as_f64.
  case_bool_decide as H0; [by rewrite H0|]. case_bool_decide as H1; [by rewrite H1|].
  assert (as_luck p ≠ 2 ^ 56 - 1) as Hne.
  { intros Hl. apply H1. apply as_luck_inj; [done|split; [done|]|exact Hl].
    repeat constructor; vm_compute; congruence. }
  change (from_be (0 :: p)) with (as_luck p).
  rewrite wrap_small by (unfold in_u; lia). rewrite Z.shiftr_div_pow2 by lia.
  change (2 ^ 4) with 16. fold (prob_numerator p).
  assert (0 ≤ prob_numerator p < 2 ^ 52) as Hm.
  { unfold prob_numerator. split; [apply Z.div_pos; lia|apply Z.div_lt_upper_bound; lia]. }
  by rewrite f64_from_bits_one_plus, one_plus_sub_one.
Qed.

Lemma prob_numerator_mono p q : as_luck p ≤ as_luck q → prob_numerator p ≤ prob_numerator q.
Proof. intros. apply Z.div_le_mono; lia. Qed.

(** Two probabilities compare as their numerators. *)
Lemma as_f64_compare p q :
  array_wf 7 p → array_wf 7 q →
  SFcompare (as_f64 p) (as_f64 q) = Some (prob_numerator p ?= prob_numerator q).
Proof.
  intros Hp Hq. rewrite !as_f64_unit by done.
  apply unit_float_compare; by apply prob_numerator_bound.
Qed.

(** Winning probabilities as floats are ordered as their luck thresholds,
    and the approximate comparison never panics: it is the exact comparison of
    the doubles, or equality where the float comparison says so. *)
Theorem approx_cmp_total `{!FloatCmp} (p q : WinningProbability) :
  array_wf 7 p → array_wf 7 q →
  approx_cmp (E:=Empty_set) p q =
    Ok (if f64_approx_eq (as_f64 p) (as_f64 q) EPSILON then Eq
        else prob_numerator p ?= prob_numerator q) ∧
  (as_luck p ≤ as_luck q → SFleb (as_f64 p) (as_f64 q) = true) ∧
  SFleb f64_zero (as_f64 p) = true ∧ SFleb (as_f64 p) f64_one = true.
Proof.
  intros Hp Hq. pose proof (prob_numerator_bound p Hp). split_and!.
  - unfold approx_cmp. rewrite as_f64_compare by done. by destruct (f64_approx_eq _ _ _).
  - intros Hl. unfold SFleb. rewrite as_f64_compare by done.
    pose proof (prob_numerator_mono p q Hl). by destruct (Z.compare_spec (prob_numerator p) (prob_numerator q)); lia || done.
  - unfold SFleb. rewrite <-unit_float_0, as_f64_unit, unit_float_compare by (done || lia).
    by destruct (Z.compare_spec 0 (prob_numerator p)); lia || done.
  - unfold SFleb. rewrite <-unit_float_1, as_f64_unit, unit_float_compare by (done || lia).
    by destruct (Z.compare_spec (prob_numerator p) (2 ^ 52)); lia || done.
Qed.

(** The encoding of [m / 2^52]: the threshold [16 m - 1]. *)
Lemma try_from_unit_float `{!FloatCmp} m :
  0 < m < 2 ^ 52 →
  f64_approx_eq f64_zero (unit_float m) EPSILON = false →
  f64_approx_eq f64_one (unit_float m) EPSILON = false →
  ∃ q, try_from_f64 (unit_float m) = Ok q ∧ array_wf 7 q ∧ as_luck q = 16 * m - 1.
Proof.
  intros Hm H0 H1. unfold try_from_f64. destruct (unit_float_inside m) as (-> & _); [lia|].
  rewrite H0, H1. cbn [negb]. rewrite unit_float_add_one, one_plus_bits by lia.
  eexists. split; [reflexivity|]. rewrite (wrap_small _ (m - 1)) by (unfold in_u; lia).
  assert (Z.lor (wrap 64 (Z.shiftl (m - 1) 4)) 0xf = 16 * m - 1) as ->.
  { rewrite Z.shiftl_mul_pow2, wrap_small by (unfold in_u; lia).
    apply Z.bits_inj'. intros n Hn. rewrite Z.lor_spec.
    change 0xf with (Z.ones 4). rewrite Z.testbit_ones_nonneg by lia.
    replace (16 * m - 1) with ((m - 1) * 2 ^ 4 + Z.ones 4) by (change (Z.ones 4) with 15; lia).
    destruct (Z.ltb_spec n 4) as [Hn4|Hn4].
    - rewrite orb_true_r. rewrite <-(Z.mod_pow2_bits_low _ 4) by done.
      rewrite Z.add_comm, Z_mod_plus_full by lia. change (Z.ones 4 mod 2 ^ 4) with (Z.ones 4).
      rewrite Z.testbit_ones_nonneg by lia. symmetry. by apply Z.ltb_lt.
    - rewrite orb_false_r. replace n with ((n - 4) + 4) by lia.
      rewrite <-!Z.div_pow2_bits by lia. rewrite Z.div_mul by lia.
      rewrite Z.div_add_l by lia. change (Z.ones 4 / 2 ^ 4) with 0. by rewrite Z.add_0_r. }
  rewrite drop_to_be by lia. split; [split; [apply length_to_be|apply to_be_wf]|].
  rewrite as_luck_from_be. apply from_be_to_be_small. unfold in_u. simpl. lia.
Qed.

(** Going through a float keeps the value of a probability: unless it is
    within the tolerance of zero or one, converting its double back succeeds,
    changes the luck threshold by less than sixteen, and gives a probability
    with the very same double. *)
Theorem win_prob_float_roundtrip `{!FloatCmp} (p : WinningProbability) :
  array_wf 7 p → 15 ≤ as_luck p < 2 ^ 56 - 1 →
  f64_approx_eq f64_zero (as_f64 p) EPSILON = false →
  f64_approx_eq f64_one (as_f64 p) EPSILON = false →
  ∃ q, try_from_f64 (as_f64 p) = Ok q ∧ array_wf 7 q ∧ as_f64 q = as_f64 p ∧
    as_luck p - 16 < as_luck q ≤ as_luck p.
Proof.
  intros Hp Hl. rewrite as_f64_unit by done.
  assert (0 < prob_numerator p < 2 ^ 52) as Hm.
  { unfold prob_numerator. split; [apply Z.div_str_pos; lia|apply Z.div_lt_upper_bound; lia]. }
  intros H0 H1. destruct (try_from_unit_float _ Hm H0 H1) as (q & Hq & Hwf & Hluck).
  exists q. split_and!; [done..| | |].
  - rewrite as_f64_unit by done. f_equal. unfold prob_numerator at 1. rewrite Hluck.
    replace (16 * prob_numerator p - 1 + 1) with (prob_numerator p * 16) by lia. by apply Z.div_mul.
  - rewrite Hluck. unfold prob_numerator. pose proof (Z.mod_pos_bound (as_luck p + 1) 16).
    pose proof (Z.div_mod (as_luck p + 1) 16). lia.
  - rewrite Hluck. unfold prob_numerator. pose proof (Z.mod_pos_bound (as_luck p + 1) 16).
    pose proof (Z.div_mod (as_luck p + 1) 16). lia.
Qed.

(** A comparison with the documented margin, exact on the doubles compared
    here: equal, or within [EPSILON] of each other. *)
#[local] Instance margin_cmp : FloatCmp :=
  λ a b eps, SFeqb a b || SFleb (SFabs (f64_sub a b)) eps.

Lemma approx_cmp_total_witness :
  approx_cmp (E:=Empty_set) (WinProb_from_u64 (2 ^ 55)) ALWAYS = Ok Lt.
Proof.
  rewrite (proj1 (approx_cmp_total (WinProb_from_u64 (2 ^ 55)) ALWAYS
    ltac:(apply (bool_decide_unpack _); vm_compute; exact I)
    ltac:(apply (bool_decide_unpack _); vm_compute; exact I))).
  vm_compute. reflexivity.
Defined.

Lemma win_prob_float_roundtrip_witness :
  ∃ q, try_from_f64 (as_f64 (WinProb_from_u64 (2 ^ 55))) = Ok q ∧
    as_f64 q = as_f64 (WinProb_from_u64 (2 ^ 55)).
Proof.
  destruct (win_prob_float_roundtrip (WinProb_from_u64 (2 ^ 55))) as (q & H1 & _ & H2 & _).
  - apply (bool_decide_unpack _). vm_compute. exact I.
  - vm_compute. split; congruence.
  - vm_compute. reflexivity.
  - vm_compute. reflexivity.
  - exists q. exact (conj H1 H2).
Defined.
