(* ===== verification/SharedKeys.v ===== *)
(** * Key derivation and Sphinx shared keys

    Models [crypto/sphinx/src/derivation.rs], [shared_keys.rs] and the X25519
    suite of [ec_groups.rs], with the containers they use of
    [crypto/types/src/primitives.rs], [keypairs.rs] and [utils.rs].

    Blake3, the stream cipher of a suite and the curve are classes of
    operations; the suite is the trait [SphinxSuite] as a class, and the X25519
    suite is an instance of it over the operations of curve25519-dalek. *)
From S2P Require Import Prelude Primitives Crypto.
From Stdlib Require Strings.String.

(** [SphinxError] of [errors.rs]. *)
Inductive SphinxError :=
| PacketDecodingError (what : string)
| PacketConstructionError (what : string)
| PaddingError
| SphinxCryptoError (e : CryptoError)
| SphinxGeneralError (e : GeneralError).

(** ** Key derivation *)

(** The first bytes that Blake3 in its key derivation mode outputs for a
    context and an input. *)
Class Kdf := blake3_derive : string → bytes → nat → bytes.
Class KdfLaws `{Kdf} := length_blake3 context input n :
  length (blake3_derive context input n) = n.

(** [KeyIvInit + StreamCipher + StreamCipherSeek]: the byte of the key stream
    at each position. *)
Class StreamCipher := {
  sc_key_size : nat;
  sc_iv_size : nat;
  key_stream : bytes → bytes → nat → Z
}.

Record cipher := mkCipher { c_key : bytes; c_iv : bytes; c_pos : nat }.

Definition seek (c : cipher) (pos : nat) : cipher := mkCipher (c_key c) (c_iv c) pos.

Definition xor_bytes : bytes → bytes → bytes := zip_with Z.lxor.

Abbreviation IvKey := bytes (only parsing).

Section Derivation.
Context `{Kdf}.

Definition create_kdf_instance (secret : bytes) (context : string) (salt : option bytes) :
    CR (nat → bytes) :=
  if bool_decide (length secret < 16)%nat then
    Err (InvalidInputValue "secret must have at least 128-bits")
  else Ok (blake3_derive context (match salt with Some s => s ++ secret | None => secret end)).

Definition PACKET_TAG_LENGTH : nat := 16.

Definition derive_packet_tag (secret : bytes) : CR bytes :=
  output ← create_kdf_instance secret "HASH_KEY_PACKET_TAG" None;
  Ok (output PACKET_TAG_LENGTH).

(** A key of [n] bytes. *)
Definition generate_key (n : nat) (secret : bytes) (context : string) (with_salt : option bytes) :
    CR bytes :=
  output ← create_kdf_instance secret context with_salt;
  Ok (output n).

Context `{!StreamCipher}.

(** [T::new(key, iv)] of a cipher starts at position 0. *)
Definition generate_key_iv {T} (new : bytes → bytes → T) (secret : bytes) (context : string)
    (with_salt : option bytes) : CR T :=
  output ← create_kdf_instance secret context with_salt;
  let out := output (sc_key_size + sc_iv_size)%nat in
  let '(v_iv, v_key) := (take sc_iv_size out, drop sc_iv_size out) in
  Ok (new v_key v_iv).

Definition cipher_new (key iv : bytes) : cipher := mkCipher key iv 0.

Definition stream (c : cipher) (n : nat) : bytes :=
  key_stream (c_key c) (c_iv c) <$> seq (c_pos c) n.

Definition apply_keystream (c : cipher) (data : bytes) : cipher * bytes :=
  (mkCipher (c_key c) (c_iv c) (c_pos c + length data), xor_bytes data (stream c (length data))).

(** [IvKey]: the IV followed by the key. *)
Definition IvKey_new (key iv : bytes) : IvKey := iv ++ key.
Definition into_init (k : IvKey) : cipher := cipher_new (drop sc_iv_size k) (take sc_iv_size k).

End Derivation.

(** ** The suite *)

(** [Keypair], [Scalar], [GroupElement] and the PRP of a [SphinxSuite]. *)
Class SphinxSuite := {
  keypair : Type;
  public : Type;
  scalar : Type;
  group_element : Type;
  kp_public : keypair → public;
  scalar_from_keypair : keypair → outcome CryptoError scalar;
  group_from_public : public → group_element;
  scalar_mul : scalar → scalar → scalar;
  scalar_from_bytes : bytes → CR scalar;
  AlphaLen : nat;
  ge_mul : group_element → scalar → group_element;
  to_alpha : group_element → bytes;
  from_alpha : bytes → CR group_element;
  ge_generate : scalar → group_element;
  is_valid : group_element → bool;
  suite_PRP : StreamCipher
}.
#[local] Existing Instance suite_PRP.

Section SharedKeys.
Context `{Kdf} `{!SphinxSuite}.

Definition SharedSecret_LENGTH : nat := 32.

(** [expect] on a key that is too short panics. *)
Definition extract_key (g : group_element) (context : string) (salt : bytes) : CR bytes :=
  output ← unwrap (create_kdf_instance (to_alpha g) context (Some salt));
  Ok (output SharedSecret_LENGTH).

Record SharedKeys := mkSharedKeys { sk_alpha : bytes; sk_secrets : list bytes }.

(** The loop of [generate]; it leaves after the last element before blinding. *)
Fixpoint generate_loop (alpha_prev : group_element) (coeff_prev : scalar)
    (peer_group_elements : list group_element) : CR (list bytes) :=
  match peer_group_elements with
  | [] => Ok []
  | group_element :: rest =>
      let salt := to_alpha group_element in
      let shared_secret := ge_mul group_element coeff_prev in
      key ← extract_key shared_secret "HASH_KEY_SPHINX_SECRET" salt;
      match rest with
      | [] => Ok [key]
      | _ =>
          b_k ← extract_key shared_secret "HASH_KEY_SPHINX_BLINDING" (to_alpha alpha_prev);
          b_k_checked ← scalar_from_bytes b_k;
          let alpha := ge_mul alpha_prev b_k_checked in
          let coeff := scalar_mul coeff_prev b_k_checked in
          if negb (is_valid alpha) then Err CalculationError
          else keys ← generate_loop alpha coeff rest; Ok (key :: keys)
      end
  end.

(** [random] is the scalar that [random_pair] draws. *)
Definition SharedKeys_generate (random : scalar) (peer_group_elements : list group_element) :
    CR SharedKeys :=
  let alpha := ge_generate random in
  secrets ← generate_loop alpha random peer_group_elements;
  Ok (mkSharedKeys (to_alpha alpha) secrets).

Definition forward_transform (alpha : bytes) (private_scalar : scalar)
    (public_group_element : group_element) : CR (bytes * bytes) :=
  alpha_point ← from_alpha alpha;
  let s_k := ge_mul alpha_point private_scalar in
  secret ← extract_key s_k "HASH_KEY_SPHINX_SECRET" (to_alpha public_group_element);
  b_k ← extract_key s_k "HASH_KEY_SPHINX_BLINDING" alpha;
  b_k_checked ← scalar_from_bytes b_k;
  let alpha_new := ge_mul alpha_point b_k_checked in
  Ok (to_alpha alpha_new, secret).

Definition new_shared_keys (random : scalar) (public_keys : list public) : CR SharedKeys :=
  SharedKeys_generate random (group_from_public <$> public_keys).

Definition new_prp_init (secret : bytes) : CR IvKey :=
  generate_key_iv IvKey_new secret "HASH_KEY_PRP" None.

Definition new_reply_prp_init (secret salt : bytes) : CR IvKey :=
  generate_key_iv IvKey_new secret "HASH_KEY_REPLY_PRP" (Some salt).

End SharedKeys.

(** ** The X25519 suite *)

(** curve25519-dalek (a Montgomery point is its 32 bytes), SHA-512, the
    Ed25519 public key of a secret, and ChaCha20. *)
Class Curve25519 := {
  dalek_scalar : Type;
  from_bytes_mod_order : bytes → dalek_scalar;
  dalek_mul : dalek_scalar → dalek_scalar → dalek_scalar;
  montgomery_mul : bytes → dalek_scalar → bytes;
  X25519_BASEPOINT : bytes;
  montgomery_is_identity : bytes → bool;
  edwards_point : Type;
  decompress : bytes → option edwards_point;
  to_montgomery : edwards_point → bytes;
  sha512 : bytes → bytes;
  ed25519_public : bytes → bytes;
  chacha20 : StreamCipher
}.

Section X25519.
Context `{!Curve25519}.

Definition x25519_scalar_from_bytes (b : bytes) : CR dalek_scalar :=
  if bool_decide (length b = 32%nat) then
    let clamped := <[0%nat := Z.land (nth 0 b 0) 248]> b in
    let clamped := <[31%nat := Z.land (nth 31 clamped 0) 127]> clamped in
    let clamped := <[31%nat := Z.lor (nth 31 clamped 0) 64]> clamped in
    Ok (from_bytes_mod_order clamped)
  else Err (InvalidInputValue "bytes").

Record OffchainPublicKey := mkOffchainPublicKey {
  opk_compressed : bytes;
  opk_edwards : edwards_point;
  opk_montgomery : bytes
}.

Definition OffchainPublicKey_try_from (value : bytes) : outcome GeneralError OffchainPublicKey :=
  compressed ← array_try_from 32 "OffchainPublicKey" value;
  edwards ← ok_or (decompress compressed) (ParseError "OffchainPublicKey.decompress");
  Ok (mkOffchainPublicKey compressed edwards (to_montgomery edwards)).

Definition OffchainPublicKey_from_privkey (private_key : bytes) : CR OffchainPublicKey :=
  if bool_decide (length private_key = 32%nat) then
    map_err Other (OffchainPublicKey_try_from (ed25519_public private_key))
  else Err (InvalidInputValue "private_key").

Record OffchainKeypair := mkOffchainKeypair { ok_secret : bytes; ok_public : OffchainPublicKey }.

Definition OffchainKeypair_from_secret (b : bytes) : CR OffchainKeypair :=
  if bool_decide (length b = 32%nat) then
    pk ← OffchainPublicKey_from_privkey b; Ok (mkOffchainKeypair b pk)
  else Err (InvalidInputValue "bytes").

(** [Scalar::from(&OffchainKeypair)]. *)
Definition OffchainKeypair_scalar (kp : OffchainKeypair) : CR dalek_scalar :=
  ret ← copy_exact 32 (take 32 (sha512 (ok_secret kp)));
  unwrap (x25519_scalar_from_bytes ret).

#[export] Instance X25519Suite : SphinxSuite := {|
  keypair := OffchainKeypair;
  public := OffchainPublicKey;
  scalar := dalek_scalar;
  group_element := bytes;
  kp_public := ok_public;
  scalar_from_keypair := OffchainKeypair_scalar;
  group_from_public := opk_montgomery;
  scalar_mul := dalek_mul;
  scalar_from_bytes := x25519_scalar_from_bytes;
  AlphaLen := 32;
  ge_mul := montgomery_mul;
  to_alpha := λ g, g;
  from_alpha := Ok;
  ge_generate := montgomery_mul X25519_BASEPOINT;
  is_valid := λ g, negb (montgomery_is_identity g);
  suite_PRP := chacha20
|}.
End X25519.

(** ** Laws *)

(** What the generation of shared keys relies on, for the multiples of the
    generator. *)
Class SphinxSuiteLaws `{!SphinxSuite} := {
  from_to_alpha a : from_alpha (to_alpha (ge_generate a)) = Ok (ge_generate a);
  ge_mul_generate a b : ge_mul (ge_generate a) b = ge_generate (scalar_mul a b);
  scalar_mul_comm a b : scalar_mul a b = scalar_mul b a;
  scalar_from_bytes_total b : length b = SharedSecret_LENGTH → ∃ a, scalar_from_bytes b = Ok a;
  length_to_alpha a : length (to_alpha (ge_generate a)) = AlphaLen;
  length_to_alpha_mul g a : length (to_alpha (ge_mul g a)) = AlphaLen;
  AlphaLen_ge : (16 ≤ AlphaLen)%nat
}.

Class Curve25519Laws `{!Curve25519} := {
  montgomery_mul_base a b :
    montgomery_mul (montgomery_mul X25519_BASEPOINT a) b = montgomery_mul X25519_BASEPOINT (dalek_mul a b);
  dalek_mul_comm a b : dalek_mul a b = dalek_mul b a;
  length_montgomery g a : length (montgomery_mul g a) = 32%nat;
  (** The birational map sends the Ed25519 public key of a secret to the
      multiple of the base point by the scalar that both derive from it. *)
  ed25519_montgomery secret : length secret = 32%nat →
    length (ed25519_public secret) = 32%nat ∧ length (sha512 secret) = 64%nat ∧
    ∃ e a, decompress (ed25519_public secret) = Some e ∧
      x25519_scalar_from_bytes (take 32 (sha512 secret)) = Ok a ∧
      to_montgomery e = montgomery_mul X25519_BASEPOINT a
}.

(** A key pair whose parts belong together. *)
Definition keypair_wf `{!SphinxSuite} (kp : keypair) : Prop :=
  ∃ a, scalar_from_keypair kp = Ok a ∧ group_from_public (kp_public kp) = ge_generate a.

#[export] Instance X25519_laws `{!Curve25519, !Curve25519Laws} : SphinxSuiteLaws.
Proof.
  split; cbn.
  - done.
  - apply montgomery_mul_base.
  - apply dalek_mul_comm.
  - intros b Hb. unfold x25519_scalar_from_bytes. rewrite bool_decide_eq_true_2 by done. by eexists.
  - intros a. apply length_montgomery.
  - apply length_montgomery.
  - lia.
Qed.

Lemma OffchainKeypair_from_secret_wf `{!Curve25519, !Curve25519Laws} b :
  length b = 32%nat → ∃ kp, OffchainKeypair_from_secret b = Ok kp ∧ keypair_wf kp.
Proof.
  intros Hb. destruct (ed25519_montgomery b Hb) as (Hp & Hs & e & a & He & Ha & Hm).
  unfold OffchainKeypair_from_secret, OffchainPublicKey_from_privkey, OffchainPublicKey_try_from,
    array_try_from. rewrite !bool_decide_eq_true_2 by done.
  cbn [mbind outcome_bind]. rewrite He. cbn. eexists. split; [done|].
  exists a. cbn. split; [|done]. unfold OffchainKeypair_scalar, copy_exact. cbn [ok_secret].
  rewrite bool_decide_eq_true_2 by (autorewrite with lens; lia). cbn [mbind outcome_bind].
  by rewrite Ha.
Qed.

(** ** Key derivation never fails on secrets *)
Section Lemmas.
Context `{KdfLaws}.
#[local] Set Default Proof Using "Type*".

Lemma create_kdf_instance_ok secret context salt :
  (16 ≤ length secret)%nat →
  ∃ out, create_kdf_instance secret context salt = Ok out ∧ ∀ n, length (out n) = n.
Proof.
  intros Hl. unfold create_kdf_instance. rewrite bool_decide_eq_false_2 by lia.
  eexists. split; [done|]. intros n. apply length_blake3.
Qed.

Lemma generate_key_ok n secret context salt :
  (16 ≤ length secret)%nat → ∃ k, generate_key n secret context salt = Ok k ∧ length k = n.
Proof.
  intros Hl. unfold generate_key.
  destruct (create_kdf_instance_ok secret context salt Hl) as (out & -> & Ho). by eexists.
Qed.

Lemma generate_key_iv_ok `{!StreamCipher} {T} (new : bytes → bytes → T) secret context salt :
  (16 ≤ length secret)%nat →
  ∃ key iv, generate_key_iv new secret context salt = Ok (new key iv) ∧
    length key = sc_key_size ∧ length iv = sc_iv_size.
Proof.
  intros Hl. unfold generate_key_iv.
  destruct (create_kdf_instance_ok secret context salt Hl) as (out & -> & Ho). cbn [mbind outcome_bind].
  do 2 eexists. split; [done|]. autorewrite with lens. rewrite Ho. lia.
Qed.

Lemma extract_key_mul_ok `{!SphinxSuite, !SphinxSuiteLaws} g a context salt :
  ∃ k, extract_key (ge_mul g a) context salt = Ok k ∧ length k = SharedSecret_LENGTH.
Proof.
  unfold extract_key.
  destruct (create_kdf_instance_ok (to_alpha (ge_mul g a)) context (Some salt)) as (out & -> & Ho).
  { rewrite length_to_alpha_mul. apply AlphaLen_ge. }
  by eexists.
Qed.

Lemma extract_key_ok `{!SphinxSuite, !SphinxSuiteLaws} a context salt :
  ∃ k, extract_key (ge_generate a) context salt = Ok k ∧ length k = SharedSecret_LENGTH.
Proof.
  unfold extract_key.
  destruct (create_kdf_instance_ok (to_alpha (ge_generate a)) context (Some salt)) as (out & -> & Ho).
  { rewrite length_to_alpha. apply AlphaLen_ge. }
  by eexists.
Qed.
End Lemmas.

(** ** Sender and relayers agree on the keys *)
Section Agreement.
Context `{KdfLaws} `{!SphinxSuite, !SphinxSuiteLaws}.
#[local] Set Default Proof Using "Type*".

(** Each node in turn derives its secret from the alpha it gets, and passes on
    the blinded alpha. *)
Fixpoint derives (alpha : bytes) (nodes : list keypair) (secrets : list bytes) : Prop :=
  match nodes, secrets with
  | [], [] => True
  | kp :: nodes, s :: secrets =>
      ∃ a alpha', scalar_from_keypair kp = Ok a ∧
        forward_transform alpha a (group_from_public (kp_public kp)) = Ok (alpha', s) ∧
        length alpha' = AlphaLen ∧ derives alpha' nodes secrets
  | _, _ => False
  end.

Lemma generate_loop_derives nodes coeff secrets :
  Forall keypair_wf nodes →
  generate_loop (ge_generate coeff) coeff (group_from_public <$> (kp_public <$> nodes)) = Ok secrets →
  derives (to_alpha (ge_generate coeff)) nodes secrets ∧
  Forall (λ s, length s = SharedSecret_LENGTH) secrets.
Proof.
  intros Hwf. revert coeff secrets.
  induction Hwf as [|kp nodes (a & Ha & Hg) Hwf IH]; intros coeff secrets Hgen; cbn in Hgen.
  { injection Hgen as <-. split; constructor. }
  rewrite Hg, ge_mul_generate in Hgen.
  destruct (extract_key_ok (scalar_mul a coeff) "HASH_KEY_SPHINX_SECRET" (to_alpha (ge_generate a)))
    as (key & Hkey & Hlk).
  destruct (extract_key_ok (scalar_mul a coeff) "HASH_KEY_SPHINX_BLINDING" (to_alpha (ge_generate coeff)))
    as (bk & Hbk & Hlb).
  destruct (scalar_from_bytes_total bk Hlb) as (b & Hb).
  assert (forward_transform (to_alpha (ge_generate coeff)) a (group_from_public (kp_public kp)) =
    Ok (to_alpha (ge_generate (scalar_mul coeff b)), key)) as Hfwd.
  { unfold forward_transform. rewrite from_to_alpha. cbn [mbind outcome_bind].
    rewrite !ge_mul_generate, (scalar_mul_comm coeff a), Hg, Hkey. cbn [mbind outcome_bind].
    rewrite Hbk. cbn [mbind outcome_bind]. rewrite Hb. cbn [mbind outcome_bind]. by rewrite ge_mul_generate. }
  rewrite Hkey in Hgen. cbn [mbind outcome_bind] in Hgen.
  destruct nodes as [|kp' nodes']; cbn [fmap list_fmap] in Hgen.
  - injection Hgen as <-. split; [|by constructor].
    exists a, (to_alpha (ge_generate (scalar_mul coeff b))).
    split_and!; [done|done|apply length_to_alpha|done].
  - rewrite Hbk in Hgen. cbn [mbind outcome_bind] in Hgen. rewrite Hb in Hgen.
    cbn [mbind outcome_bind] in Hgen. rewrite ge_mul_generate in Hgen.
    destruct (is_valid _); cbn [negb] in Hgen; [|done].
    destruct (generate_loop _ _ _) as [keys| |] eqn:Hrec; [|done|done].
    injection Hgen as <-. destruct (IH _ _ Hrec) as [Hd Hls].
    split; [|by constructor].
    exists a, (to_alpha (ge_generate (scalar_mul coeff b))).
    split_and!; [done|done|apply length_to_alpha|done].
Qed.

Lemma derives_length alpha nodes secrets :
  derives alpha nodes secrets → length secrets = length nodes.
Proof.
  revert alpha secrets. induction nodes as [|kp nodes IH]; intros alpha [|s secrets]; try done.
  intros (a & alpha' & _ & _ & _ & Hd). simpl. f_equal. by eapply IH.
Qed.

Lemma new_shared_keys_derives random nodes sk :
  Forall keypair_wf nodes → new_shared_keys random (kp_public <$> nodes) = Ok sk →
  derives (sk_alpha sk) nodes (sk_secrets sk) ∧ length (sk_alpha sk) = AlphaLen ∧
  Forall (λ s, length s = SharedSecret_LENGTH) (sk_secrets sk).
Proof.
  intros Hwf. unfold new_shared_keys, SharedKeys_generate.
  destruct (generate_loop _ _ _) as [secrets| |] eqn:Hgen; [|done|done].
  intros [= <-]. cbn. destruct (generate_loop_derives _ _ _ Hwf Hgen). split_and!; [done| |done].
  apply length_to_alpha.
Qed.

(** Whatever alpha arrives, the transformation does not panic, and its secret
    has the fixed length. *)
Lemma forward_transform_total alpha a g :
  (∃ e, from_alpha alpha = Err e ∧ forward_transform alpha a g = Err e) ∨
  (∃ alpha' secret, forward_transform alpha a g = Ok (alpha', secret) ∧
    length alpha' = AlphaLen ∧ length secret = SharedSecret_LENGTH) ∨ from_alpha alpha = Panic.
Proof.
  unfold forward_transform. destruct (from_alpha alpha) as [p|e|]; [|by left; exists e|by right; right].
  right; left. cbn [mbind outcome_bind].
  destruct (extract_key_mul_ok p a "HASH_KEY_SPHINX_SECRET" (to_alpha g)) as (k & -> & Hk).
  destruct (extract_key_mul_ok p a "HASH_KEY_SPHINX_BLINDING" alpha) as (b & -> & Hb).
  cbn [mbind outcome_bind]. destruct (scalar_from_bytes_total b Hb) as (s & ->).
  do 2 eexists. split; [done|]. split; [apply length_to_alpha_mul|done].
Qed.
End Agreement.

(** ** A small instance

    The laws hold together: scalars and points are integers modulo a power of
    two, derivation and key streams are sums. *)
Definition byte_sum (b : bytes) : Z := foldl Z.add 0 b.

Definition toy_kdf : Kdf := λ context input n,
  (λ i, (byte_sum input + 7 * Z.of_nat (String.length context) + 13 * Z.of_nat i) `mod` 256) <$> seq 0 n.

Lemma toy_kdf_laws : @KdfLaws toy_kdf.
Proof. intros context input n. unfold blake3_derive, toy_kdf. by rewrite length_fmap, length_seq. Qed.

Definition toy_cipher : StreamCipher := {|
  sc_key_size := 32;
  sc_iv_size := 12;
  key_stream := λ key iv pos, (byte_sum key + byte_sum iv + 5 * Z.of_nat pos) `mod` 256
|}.

Definition toy_clamp (b : bytes) : bytes :=
  let clamped := <[0%nat := Z.land (nth 0 b 0) 248]> b in
  let clamped := <[31%nat := Z.land (nth 31 clamped 0) 127]> clamped in
  <[31%nat := Z.lor (nth 31 clamped 0) 64]> clamped.

Definition toy_mul (g : bytes) (a : Z) : bytes := to_be 32 (from_be g * a).

Definition toy_curve : Curve25519 := {|
  dalek_scalar := Z;
  from_bytes_mod_order := from_be;
  dalek_mul := Z.mul;
  montgomery_mul := toy_mul;
  X25519_BASEPOINT := to_be 32 1;
  montgomery_is_identity := λ g, from_be g =? 0;
  edwards_point := bytes;
  decompress := Some;
  to_montgomery := λ e, e;
  sha512 := λ b, b ++ b;
  ed25519_public := λ b, toy_mul (to_be 32 1) (from_be (toy_clamp b));
  chacha20 := toy_cipher
|}.

Lemma toy_curve_laws : @Curve25519Laws toy_curve.
Proof.
  split; cbn.
  - intros a b. unfold toy_mul. rewrite (from_be_to_be_small 32 1) by (unfold in_u; lia).
    rewrite from_be_to_be, <-(to_be_wrap 32 (_ * b)), <-(to_be_wrap 32 (1 * _)). f_equal.
    unfold wrap. rewrite Z.mul_mod_idemp_l by lia. f_equal. lia.
  - apply Z.mul_comm.
  - intros g a. apply length_to_be.
  - intros secret Hs. split; [apply length_to_be|]. split; [autorewrite with lens; lia|].
    exists (toy_mul (to_be 32 1) (from_be (toy_clamp secret))), (from_be (toy_clamp secret)).
    split; [done|]. split; [|done].
    unfold x25519_scalar_from_bytes. rewrite take_app_length' by done.
    by rewrite bool_decide_eq_true_2.
Qed.
