(* ===== verification/Por.v ===== *)
(** * Proof of relay and ticket validation

    Models [crypto/packet/src/por.rs]: the key shares derived from the shared
    secrets of a path, the challenge chain made by the sender and its check by
    each relayer, with the byte layouts of its parts; and
    [crypto/packet/src/validation.rs]: the checks a relayer performs on the
    ticket of an incoming packet. *)
From S2P Require Import Prelude Primitives Crypto Channels Float64 Tickets WinProb SharedKeys.
From Stdlib Require Import Floats.SpecFloat.

(** ** Errors ([errors.rs]); the cases of the modelled functions *)
Inductive PacketError :=
| PacketDecodingError (what : string)
| PacketConstructionError (what : string)
| PoRVerificationError
| LogicError (what : string)
| CryptographicError (e : CryptoError)
| PacketCoreTypesError (e : CoreTypesError)
| PacketSphinxError (e : SphinxError)
| PacketOther (e : GeneralError).

(** The reasons of a [TicketValidationError], one per format string. *)
Inductive ValidationReason :=
| SignerMismatch | AmountTooLow | WinProbTooLow | ChannelClosed | EpochMismatch | NotEnoughFunds.

Record TicketValidationError := mkTicketValidationError { reason : ValidationReason; tve_ticket : Ticket }.

Section Por.
Context `{!Secp256k1}.



Definition derive_own_key_share (secret : bytes) : outcome PacketError HalfKey :=
  unwrap (sample_secp256k1_field_element secret "HASH_KEY_OWN_KEY").
Definition derive_ack_key_share (secret : bytes) : outcome PacketError HalfKey :=
  unwrap (sample_secp256k1_field_element secret "HASH_KEY_ACK_KEY").

(** ** Byte layouts *)
Definition ProofOfRelayValues : Type := bytes.
Definition ProofOfRelayValues_SIZE : nat := 1 + SIZE_COMPRESSED + EthereumChallenge_SIZE.
Definition ProofOfRelayValues_new (chain_len : Z) (ack_challenge : HalfKeyChallenge)
    (ticket_challenge : EthereumChallenge) : ProofOfRelayValues :=
  chain_len :: ack_challenge ++ ticket_challenge.
Definition chain_length (v : ProofOfRelayValues) : Z := nth 0 v 0.
Definition acknowledgement_challenge {E} (v : ProofOfRelayValues) : outcome E HalfKeyChallenge :=
  HalfKeyChallenge_new (take 33 (drop 1 v)).
Definition ticket_challenge {E} (v : ProofOfRelayValues) : outcome E EthereumChallenge :=
  EthereumChallenge_new (drop 34 v).
Definition ProofOfRelayValues_try_from : bytes → outcome GeneralError ProofOfRelayValues :=
  array_try_from ProofOfRelayValues_SIZE "ProofOfRelayValues".

Definition SurbReceiverInfo : Type := bytes.
Definition SurbReceiverInfo_SIZE : nat := ProofOfRelayValues_SIZE + 32.
Definition SurbReceiverInfo_new (pov : ProofOfRelayValues) (share : bytes) : SurbReceiverInfo :=
  pov ++ share.
Definition proof_of_relay_values {E} (s : SurbReceiverInfo) : outcome E ProofOfRelayValues :=
  unwrap (ProofOfRelayValues_try_from (take ProofOfRelayValues_SIZE s)).
Definition SurbReceiverInfo_try_from : bytes → outcome GeneralError SurbReceiverInfo :=
  array_try_from SurbReceiverInfo_SIZE "SurbReceiverInfo".

Definition ProofOfRelayString : Type := bytes.
Definition ProofOfRelayString_SIZE : nat := EthereumChallenge_SIZE + SIZE_COMPRESSED.
Definition ProofOfRelayString_new (next_ticket_challenge : EthereumChallenge) (hint : HalfKeyChallenge) :
    ProofOfRelayString := next_ticket_challenge ++ hint.
Definition next_ticket_challenge {E} (s : ProofOfRelayString) : outcome E EthereumChallenge :=
  EthereumChallenge_new (take 20 s).
Definition acknowledgement_challenge_or_hint {E} (s : ProofOfRelayString) : outcome E HalfKeyChallenge :=
  HalfKeyChallenge_new (drop 20 s).
Definition ProofOfRelayString_try_from : bytes → outcome GeneralError ProofOfRelayString :=
  array_try_from ProofOfRelayString_SIZE "ProofOfRelayString".

(** ** The relayer's check *)
Record ProofOfRelayOutput := mkPorOutput {
  po_own_key : HalfKey;
  po_next_ticket_challenge : EthereumChallenge;
  po_ack_challenge : HalfKeyChallenge
}.

Definition pre_verify (secret : bytes) (pors : ProofOfRelayString)
    (challenge : EthereumChallenge) : outcome PacketError ProofOfRelayOutput :=
  own_key ← derive_own_key_share secret;
  own_share ← map_err CryptographicError (HalfKey_to_challenge own_key);
  hint ← acknowledgement_challenge_or_hint pors;
  c ← map_err CryptographicError (Challenge_from_hint_and_share own_share hint);
  if bool_decide (Challenge_to_ethereum_challenge c = challenge) then
    next ← next_ticket_challenge pors;
    ack ← acknowledgement_challenge_or_hint pors;
    Ok (mkPorOutput own_key next ack)
  else Err PoRVerificationError.

(** ** The sender's chain

    The loop over the secrets; [random] is the value that
    [SharedSecret::random()] yields where the path ends, [i] the index. *)
Fixpoint por_loop (random : bytes) (total i : Z) (last_ack_key_share : option HalfKey)
    (por_strings : list ProofOfRelayString) (por_values : option ProofOfRelayValues)
    (secrets : list bytes) :
    outcome PacketError (list ProofOfRelayString * option ProofOfRelayValues) :=
  match secrets with
  | [] => Ok (por_strings, por_values)
  | secret :: rest =>
      hint_key ← match last_ack_key_share with
                 | Some k => Ok k
                 | None => derive_ack_key_share secret
                 end;
      hint ← map_err CryptographicError (HalfKey_to_challenge hint_key);
      s1 ← derive_own_key_share secret;
      s2 ← derive_ack_key_share (match rest with next :: _ => next | [] => random end);
      response ← map_err CryptographicError (Response_from_half_keys s1 s2);
      c ← map_err CryptographicError (Response_to_challenge response);
      let next_ticket_challenge := Challenge_to_ethereum_challenge c in
      let '(por_strings, por_values) :=
        if 0 <? i then
          (por_strings ++ [ProofOfRelayString_new next_ticket_challenge hint], por_values)
        else
          (por_strings, Some (ProofOfRelayValues_new (wrap 8 total) hint next_ticket_challenge)) in
      por_loop random total (i + 1) (Some s2) por_strings por_values rest
  end.

Definition generate_proof_of_relay (random : bytes) (secrets : list bytes) :
    outcome PacketError (list ProofOfRelayString * ProofOfRelayValues) :=
  '(por_strings, por_values) ← por_loop random (Z.of_nat (length secrets)) 0 None [] None secrets;
  por_values ← ok_or por_values (LogicError "no shared secrets");
  Ok (por_strings, por_values).

(** ** Ticket validation *)
Definition validate_unacknowledged_ticket `{!FloatCmp} (ticket : Ticket) (channel : ChannelEntry)
    (min_ticket_amount : HoprBalance) (required_win_prob : WinningProbability)
    (unrealized_balance : HoprBalance) (domain_separator : Hash) :
    outcome TicketValidationError VerifiedTicket :=
  verified ← map_err (mkTicketValidationError SignerMismatch)
    (verify ticket (source channel) domain_separator);
  let inner_ticket := verified_ticket verified in
  if negb (Balance_leb min_ticket_amount (t_amount inner_ticket)) then
    Err (mkTicketValidationError AmountTooLow inner_ticket)
  else
    c ← approx_cmp (win_prob inner_ticket) required_win_prob;
    if match c with Lt => true | _ => false end then
      Err (mkTicketValidationError WinProbTooLow inner_ticket)
    else if ChannelStatus_eqb (status channel) Closed then
      Err (mkTicketValidationError ChannelClosed inner_ticket)
    else if negb (channel_epoch channel =? t_channel_epoch inner_ticket) then
      Err (mkTicketValidationError EpochMismatch inner_ticket)
    else if Balance_ltb unrealized_balance (t_amount inner_ticket) then
      Err (mkTicketValidationError NotEnoughFunds inner_ticket)
    else Ok verified.

End Por.

(** ** The challenge chain closes *)
Section PorProofs.
Context `{!Secp256k1, !Secp256k1Laws}.
#[local] Set Default Proof Using "All".

(** The own and acknowledgement key shares of a secret are half-keys of
    nonzero scalars. *)
Definition shares (secret : bytes) (own ack : HalfKey) (so sa : Z) : Prop :=
  derive_own_key_share secret = Ok own ∧ nonzero_scalar own = Some so ∧
  derive_ack_key_share secret = Ok ack ∧ nonzero_scalar ack = Some sa.

(** The challenge of the ticket for a hop whose own share is [so] and whose
    next hop acknowledges with [sa]. *)
Definition hop_challenge (so sa : Z) : EthereumChallenge :=
  Challenge_to_ethereum_challenge
    (CurvePoint_from_affine (p_mul p_generator ((so + sa) `mod` group_order))).

Definition ack_point (sa : Z) : HalfKeyChallenge := sec1_encode true (p_mul p_generator sa).

Lemma length_ack_point k sa : nonzero_scalar k = Some sa → length (ack_point sa) = SIZE_COMPRESSED.
Proof. intros [Hs _]%nonzero_scalar_range. apply (sec1_encode_wf true), p_mul_generator, Hs. Qed.

Lemma length_hop_challenge so sa : length (hop_challenge so sa) = EthereumChallenge_SIZE.
Proof.
  unfold hop_challenge, Challenge_to_ethereum_challenge, CurvePoint_to_address.
  by rewrite length_drop, (proj1 (Hash_create_wf _)).
Qed.

(** *** The layouts give back what was put in *)

Lemma ProofOfRelayString_parts {E} n h :
  length n = EthereumChallenge_SIZE → length h = SIZE_COMPRESSED →
  next_ticket_challenge (E:=E) (ProofOfRelayString_new n h) = Ok n ∧
  acknowledgement_challenge_or_hint (E:=E) (ProofOfRelayString_new n h) = Ok h.
Proof.
  intros Hn Hh. unfold next_ticket_challenge, acknowledgement_challenge_or_hint, ProofOfRelayString_new.
  rewrite take_app_length', drop_app_length' by done.
  unfold EthereumChallenge_new, HalfKeyChallenge_new, copy_exact.
  by rewrite !bool_decide_eq_true_2.
Qed.

Lemma ProofOfRelayValues_parts {E} n a t :
  length a = SIZE_COMPRESSED → length t = EthereumChallenge_SIZE →
  chain_length (ProofOfRelayValues_new n a t) = n ∧
  acknowledgement_challenge (E:=E) (ProofOfRelayValues_new n a t) = Ok a ∧
  ticket_challenge (E:=E) (ProofOfRelayValues_new n a t) = Ok t.
Proof.
  intros Ha Ht. unfold acknowledgement_challenge, ticket_challenge, ProofOfRelayValues_new.
  split; [done|]. change (drop 1 (n :: a ++ t)) with (a ++ t).
  change (drop 34 (n :: a ++ t)) with (drop 33 (a ++ t)).
  rewrite take_app_length', drop_app_length' by done.
  unfold EthereumChallenge_new, HalfKeyChallenge_new, copy_exact.
  by rewrite !bool_decide_eq_true_2.
Qed.

Lemma SurbReceiverInfo_parts {E} pov share :
  length pov = ProofOfRelayValues_SIZE →
  proof_of_relay_values (E:=E) (SurbReceiverInfo_new pov share) = Ok pov.
Proof.
  intros Hp. unfold proof_of_relay_values, SurbReceiverInfo_new.
  unfold ProofOfRelayValues_try_from. rewrite take_app_length' by done.
  by rewrite (proj2 (array_try_from_ok _ _ pov)).
Qed.

(** *** One step of the chain *)

Lemma response_challenge s1 s2 k1 k2 :
  nonzero_scalar k1 = Some s1 → nonzero_scalar k2 = Some s2 → (s1 + s2) `mod` group_order ≠ 0 →
  ∃ r, Response_from_half_keys k1 k2 = Ok r ∧
    Response_to_challenge r =
      Ok (CurvePoint_from_affine (p_mul p_generator ((s1 + s2) `mod` group_order))).
Proof.
  intros H1 H2 Hs. destruct (half_keys_solve k1 k2 s1 s2 H1 H2 Hs) as (_ & _ & r & _ & _ & Hr & _ & _ & Hc).
  by exists r.
Qed.

(** The secrets of a path with their shares; consecutive hops never cancel. *)
Fixpoint path_ok (random : bytes) (path : list (bytes * (HalfKey * HalfKey * Z * Z)))
    (final : HalfKey * HalfKey * Z * Z) : Prop :=
  match path with
  | [] => let '(own, ack, so, sa) := final in shares random own ack so sa
  | (secret, (own, ack, so, sa)) :: rest =>
      shares secret own ack so sa ∧
      (so + snd (match rest with (_, sh) :: _ => sh | [] => final end)) `mod` group_order ≠ 0 ∧
      path_ok random rest final
  end.

(** The strings that the chain must consist of, from the second hop on. *)
Fixpoint expected_strings (path : list (bytes * (HalfKey * HalfKey * Z * Z)))
    (final : HalfKey * HalfKey * Z * Z) : list ProofOfRelayString :=
  match path with
  | [] => []
  | (_, (_, _, so, sa)) :: rest =>
      ProofOfRelayString_new
        (hop_challenge so (snd (match rest with (_, sh) :: _ => sh | [] => final end)))
        (ack_point sa) :: expected_strings rest final
  end.

Lemma path_ok_next_ack random path final :
  path_ok random path final →
  ∃ ack, derive_ack_key_share (match path with (s, _) :: _ => s | [] => random end) = Ok ack ∧
    ack = snd (fst (fst (match path with (_, sh) :: _ => sh | [] => final end))) ∧
    nonzero_scalar ack = Some (snd (match path with (_, sh) :: _ => sh | [] => final end)).
Proof.
  destruct path as [|[s [[[own ack] so] sa]] rest], final as [[[fo fa] fso] fsa]; simpl.
  - intros (_ & _ & Ha & Hs). by exists fa.
  - intros ((_ & _ & Ha & Hs) & _). by exists ack.
Qed.

Lemma por_loop_rest random total i k strings values path final :
  0 < i → path_ok random path final →
  (path ≠ [] → k = snd (fst (fst (match path with (_, sh) :: _ => sh | [] => final end)))) →
  por_loop random total i (Some k) strings values (map fst path) =
    Ok (strings ++ expected_strings path final, values).
Proof.
  revert i k strings. induction path as [|[s [[[own ack] so] sa]] rest IH];
    intros i k strings Hi Hok Hk; cbn [map por_loop expected_strings fst].
  { by rewrite app_nil_r. }
  destruct Hok as ((Hown & Hso & Hack & Hsa) & Hsum & Hrest). rewrite (Hk ltac:(done)). cbn [fst snd].
  cbn [mbind outcome_bind]. rewrite (half_key_challenge ack sa Hsa). cbn [map_err mbind outcome_bind].
  rewrite Hown. cbn [mbind outcome_bind].
  destruct (path_ok_next_ack random rest final Hrest) as (ack' & Hd & Hack' & Hnz).
  replace (match map fst rest with [] => random | next :: _ => next end)
    with (match rest with (s', _) :: _ => s' | [] => random end) by (by destruct rest as [|[]]).
  rewrite Hd. cbn [mbind outcome_bind].
  destruct (response_challenge so _ own ack' Hso Hnz Hsum) as (r & -> & Hr).
  cbn [map_err mbind outcome_bind]. rewrite Hr. cbn [map_err mbind outcome_bind].
  rewrite (proj2 (Z.ltb_lt 0 i)) by done. rewrite IH; [by rewrite <-(assoc_L (++))|lia|done|done].
Qed.

Lemma generate_chain random s own ack so sa rest final :
  path_ok random ((s, (own, ack, so, sa)) :: rest) final →
  generate_proof_of_relay random (s :: map fst rest) =
    Ok (expected_strings rest final,
        ProofOfRelayValues_new (wrap 8 (Z.of_nat (S (length rest)))) (ack_point sa)
          (hop_challenge so (snd (match rest with (_, sh) :: _ => sh | [] => final end)))).
Proof.
  intros ((Hown & Hso & Hack & Hsa) & Hsum & Hrest).
  unfold generate_proof_of_relay. cbn [por_loop]. rewrite Hack. cbn [mbind outcome_bind].
  rewrite (half_key_challenge ack sa Hsa). cbn [map_err mbind outcome_bind].
  rewrite Hown. cbn [mbind outcome_bind].
  destruct (path_ok_next_ack random rest final Hrest) as (ack' & Hd & Hack' & Hnz).
  replace (match map fst rest with [] => random | next :: _ => next end)
    with (match rest with (s', _) :: _ => s' | [] => random end) by (by destruct rest as [|[]]).
  rewrite Hd. cbn [mbind outcome_bind].
  destruct (response_challenge so _ own ack' Hso Hnz Hsum) as (r & -> & Hr).
  cbn [map_err mbind outcome_bind]. rewrite Hr. cbn [map_err mbind outcome_bind].
  change (0 <? 0) with false. cbv iota beta.
  rewrite (por_loop_rest random _ (0 + 1) ack' [] _ rest final) by (done || lia).
  cbn [mbind outcome_bind ok_or]. cbn [length]. by rewrite length_map.
Qed.

(** A relayer accepts the hop made for it, and the next hop's acknowledgement
    key then solves the ticket. *)
Lemma pre_verify_hop s own ack so sa n ack' sa' :
  shares s own ack so sa → nonzero_scalar ack' = Some sa' → (so + sa') `mod` group_order ≠ 0 →
  length n = EthereumChallenge_SIZE →
  pre_verify s (ProofOfRelayString_new n (ack_point sa')) (hop_challenge so sa') =
    Ok (mkPorOutput own n (ack_point sa')) ∧
  ∀ vt, t_challenge (verified_ticket vt) = hop_challenge so sa' →
    ∃ r, acknowledge (into_unacknowledged vt own) ack' = Ok (into_acknowledged vt r).
Proof.
  intros (Hown & Hso & _) Hsa' Hsum Hn.
  destruct (half_keys_solve own ack' so sa' Hso Hsa' Hsum)
    as (c1 & c2 & r & Hc1 & Hc2 & Hr & _ & Heq & Hch).
  rewrite (half_key_challenge ack' sa' Hsa') in Hc2. injection Hc2 as <-.
  destruct (ProofOfRelayString_parts (E:=PacketError) n (ack_point sa') Hn
    (length_ack_point ack' sa' Hsa')) as [Hp1 Hp2].
  split.
  - unfold pre_verify. rewrite Hown. cbn [mbind outcome_bind]. rewrite Hc1. cbn [map_err mbind outcome_bind].
    rewrite Hp2. cbn [mbind outcome_bind]. fold (ack_point sa') in Heq. rewrite <-Heq, Hch.
    cbn [map_err mbind outcome_bind]. rewrite bool_decide_eq_true_2 by done. by rewrite Hp1.
  - intros vt Hvt. exists r. unfold acknowledge, into_unacknowledged. cbn [ua_own_key ua_ticket].
    rewrite Hr. cbn [map_err mbind outcome_bind]. rewrite Hch. cbn [map_err mbind outcome_bind].
    by rewrite bool_decide_eq_true_2.
Qed.
(** What the relayers of a path see: the first one gets the ticket challenge
    [tc] with the first string.  Its check succeeds, the acknowledgement key of
    the next node opens the challenge that the check returns and turns the
    ticket with challenge [tc] into an acknowledged one, and the next relayer
    gets the next challenge with the next string. *)
Fixpoint relayers_paid (secrets : list bytes) (strings : list ProofOfRelayString)
    (tc : EthereumChallenge) : Prop :=
  match secrets, strings with
  | [_], [] => True
  | s :: (next :: _) as rest, str :: strings =>
      ∃ out ack,
        pre_verify s str tc = Ok out ∧
        derive_ack_key_share next = Ok ack ∧
        HalfKey_to_challenge ack = Ok (po_ack_challenge out) ∧
        (∀ vt, t_challenge (verified_ticket vt) = tc →
          ∃ r, acknowledge (into_unacknowledged vt (po_own_key out)) ack = Ok (into_acknowledged vt r)) ∧
        relayers_paid rest strings (po_next_ticket_challenge out)
  | _, _ => False
  end.

Lemma relayers_paid_expected random s own ack so sa rest final :
  path_ok random ((s, (own, ack, so, sa)) :: rest) final →
  relayers_paid (s :: map fst rest) (expected_strings rest final)
    (hop_challenge so (snd (match rest with (_, sh) :: _ => sh | [] => final end))).
Proof.
  revert s own ack so sa. induction rest as [|[s' [[[own' ack'] so'] sa']] rest IH];
    intros s own ack so sa Hok; [done|].
  destruct Hok as (Hsh & Hsum & Hrest). pose proof Hrest as ((Hown' & Hso' & Hack' & Hsa') & _).
  cbn [map fst snd expected_strings relayers_paid] in *.
  destruct (pre_verify_hop s own ack so sa
    (hop_challenge so' (snd (match rest with (_, sh) :: _ => sh | [] => final end)))
    ack' sa' Hsh Hsa' Hsum (length_hop_challenge _ _)) as [Hpre Hackn].
  eexists _, ack'. split; [exact Hpre|]. split; [done|].
  split; [exact (half_key_challenge ack' sa' Hsa')|]. split; [exact Hackn|].
  exact (IH s' own' ack' so' sa' Hrest).
Qed.

(** Proof of relay works along the whole path: for any path whose key
    shares are nonzero and never cancel, the sender produces one string per
    relayer and the values for the first one; every relayer's check of its
    string against the challenge on its incoming ticket succeeds, and the
    acknowledgement of the next node turns that ticket into an acknowledged
    one.  The sender's own acknowledgement challenge is opened by the first
    node's acknowledgement key. *)
Theorem proof_of_relay_pays (random : bytes) (path : list (bytes * (HalfKey * HalfKey * Z * Z)))
    (final : HalfKey * HalfKey * Z * Z) :
  path ≠ [] → path_ok random path final →
  ∃ strings values tc ack,
    generate_proof_of_relay random (map fst path) = Ok (strings, values) ∧
    S (length strings) = length path ∧
    chain_length values = wrap 8 (Z.of_nat (length path)) ∧
    ticket_challenge (E:=PacketError) values = Ok tc ∧
    (derive_ack_key_share (hd [] (map fst path)) ≫= λ k, map_err CryptographicError (HalfKey_to_challenge k)) = Ok ack ∧
    acknowledgement_challenge (E:=PacketError) values = Ok ack ∧
    relayers_paid (map fst path) strings tc.
Proof.
  destruct path as [|[s [[[own ack] so] sa]] rest]; [done|]. intros _ Hok.
  pose proof Hok as ((_ & _ & Hack & Hsa) & _).
  set (tc := hop_challenge so (snd (match rest with (_, sh) :: _ => sh | [] => final end))).
  destruct (ProofOfRelayValues_parts (E:=PacketError) (wrap 8 (Z.of_nat (S (length rest)))) (ack_point sa) tc
    (length_ack_point ack sa Hsa) (length_hop_challenge _ _)) as (Hn & Ha & Ht).
  eexists _, _, tc, (ack_point sa).
  split; [exact (generate_chain random s own ack so sa rest final Hok)|].
  split; [|split; [exact Hn|split; [exact Ht|split; [|split; [exact Ha|]]]]].
  - cbn [length]. f_equal. clear. induction rest as [|[? [[[? ?] ?] ?]] rest IH]; simpl; [done|].
    by rewrite IH.
  - cbn [map hd fst]. rewrite Hack. cbn [mbind outcome_bind]. by rewrite (half_key_challenge ack sa Hsa).
  - exact (relayers_paid_expected random s own ack so sa rest final Hok).
Qed.

(** *** Validation *)

Lemma validate_ticket_cases `{!FloatCmp} (ticket : Ticket) (channel : ChannelEntry)
    (min_amount : HoprBalance) (required : WinningProbability) (unrealized : HoprBalance) (ds : Hash)
    (vt : VerifiedTicket) :
  array_wf 7 (t_encoded_win_prob ticket) → array_wf 7 required →
  validate_unacknowledged_ticket ticket channel min_amount required unrealized ds = Ok vt ↔
    vt = mkVerified ticket (get_hash ticket ds) (source channel) ∧ VerifiedTicket_wf ds vt ∧
    amount min_amount ≤ amount (t_amount ticket) ≤ amount unrealized ∧
    (f64_approx_eq (as_f64 (t_encoded_win_prob ticket)) (as_f64 required) EPSILON = true ∨
      prob_numerator required ≤ prob_numerator (t_encoded_win_prob ticket)) ∧
    status channel ≠ Closed ∧ channel_epoch channel = t_channel_epoch ticket.
Proof.
  intros Hp Hq. unfold validate_unacknowledged_ticket.
  destruct (verify ticket (source channel) ds) as [v| |] eqn:Hv; cbn [map_err mbind outcome_bind].
  - pose proof Hv as [Heq Hwf]%verify_Ok_iff.
    assert (verified_ticket v = ticket) as -> by (by rewrite Heq).
    unfold win_prob, approx_cmp. rewrite as_f64_compare by done. unfold Balance_leb, Balance_ltb.
    destruct (Z.leb_spec (amount min_amount) (amount (t_amount ticket))); cbn [negb];
      [|split; [done|intros (_ & _ & ? & _); lia]].
    destruct (f64_approx_eq _ _ _); cbn [negb unwrap_option mbind outcome_bind].
    + destruct (status channel) eqn:Hs; cbn [ChannelStatus_eqb]; [split; [done|tauto]| |];
        (destruct (Z.eqb_spec (channel_epoch channel) (t_channel_epoch ticket)); cbn [negb];
          [|split; [done|intros (_ & _ & _ & _ & _ & ?); done]]);
        (destruct (Z.ltb_spec (amount unrealized) (amount (t_amount ticket)));
          [split; [done|intros (_ & _ & ? & _); lia]|]);
        (split; [intros [= <-]; split_and!; try done; by left|intros [-> _]; by rewrite <-Heq]).
    + destruct (Z.compare_spec (prob_numerator (t_encoded_win_prob ticket)) (prob_numerator required));
        [|split; [done|intros (_ & _ & _ & [?|?] & _); [done|lia]]|];
        (destruct (status channel) eqn:Hs; cbn [ChannelStatus_eqb]; [split; [done|tauto]| |];
        (destruct (Z.eqb_spec (channel_epoch channel) (t_channel_epoch ticket)); cbn [negb];
          [|split; [done|intros (_ & _ & _ & _ & _ & ?); done]]);
        (destruct (Z.ltb_spec (amount unrealized) (amount (t_amount ticket)));
          [split; [done|intros (_ & _ & ? & _); lia]|]);
        (split; [intros [= <-]; split_and!; try done; right; lia|intros [-> _]; by rewrite <-Heq])).
  - split; [done|]. intros (Hvt & Hwf & _). exfalso.
    assert (verify ticket (source channel) ds = Ok vt) by (apply verify_Ok_iff; by split). congruence.
  - split; [done|]. intros (Hvt & Hwf & _). exfalso.
    assert (verify ticket (source channel) ds = Ok vt) by (apply verify_Ok_iff; by split). congruence.
Qed.

(** A relayer accepts a ticket exactly when it verifies against the channel's
    source, is worth at least the minimum, does not have a lower winning
    probability than required, and the channel is not closed, in the same
    epoch, and still funded for it; the accepted ticket is the verified one. *)
Theorem validate_ticket_Ok_iff `{!FloatCmp} (ticket : Ticket) (channel : ChannelEntry)
    (min_amount : HoprBalance) (required : WinningProbability) (unrealized : HoprBalance) (ds : Hash)
    (vt : VerifiedTicket) :
  array_wf 7 (t_encoded_win_prob ticket) → array_wf 7 required →
  validate_unacknowledged_ticket ticket channel min_amount required unrealized ds = Ok vt ↔
    vt = mkVerified ticket (get_hash ticket ds) (source channel) ∧ VerifiedTicket_wf ds vt ∧
    amount min_amount ≤ amount (t_amount ticket) ≤ amount unrealized ∧
    (f64_approx_eq (as_f64 (t_encoded_win_prob ticket)) (as_f64 required) EPSILON = true ∨
      prob_numerator required ≤ prob_numerator (t_encoded_win_prob ticket)) ∧
    status channel ≠ Closed ∧ channel_epoch channel = t_channel_epoch ticket.
Proof. apply validate_ticket_cases. Qed.

End PorProofs.

(** On the small curve every key share is the scalar one. *)
Definition toy_share : bytes * bytes * Z * Z := (Z3_scalar_to_bytes 1, Z3_scalar_to_bytes 1, 1, 1).

Lemma proof_of_relay_pays_witness :
  ∃ strings values tc,
    @generate_proof_of_relay Z3_curve (replicate 32 9) [replicate 32 5; replicate 32 6; replicate 32 7]
      = Ok (strings, values) ∧ length strings = 2%nat ∧
    @relayers_paid Z3_curve [replicate 32 5; replicate 32 6; replicate 32 7] strings tc.
Proof.
  destruct (@proof_of_relay_pays Z3_curve Z3_curve_laws (replicate 32 9)
    [(replicate 32 5, toy_share); (replicate 32 6, toy_share); (replicate 32 7, toy_share)] toy_share)
    as (strings & values & tc & ack & H1 & H2 & _ & _ & _ & _ & H3).
  - congruence.
  - repeat split; vm_compute; congruence.
  - exists strings, values, tc. split; [exact H1|]. split; [|exact H3]. simpl in H2. lia.
Defined.

Lemma validate_ticket_Ok_iff_witness :
  @validate_unacknowledged_ticket Z3_curve (λ a b eps, SFeqb a b)
    (verified_ticket toy_verified)
    (@ChannelEntry_new Z3_curve (verified_issuer toy_verified) (replicate 20 3) (mkBalance 500) 0
      (PendingToClose 7) 1) (mkBalance 100) ALWAYS (mkBalance 100) toy_ds = Ok toy_verified.
Proof.
  apply (@validate_ticket_Ok_iff Z3_curve Z3_curve_laws (λ a b eps, SFeqb a b)).
  - apply (bool_decide_unpack _). vm_compute. exact I.
  - apply (bool_decide_unpack _). vm_compute. exact I.
  - split; [vm_compute; reflexivity|]. split; [exact toy_verified_wf|].
    split; [vm_compute; split; congruence|]. split; [left; vm_compute; reflexivity|].
    split; [vm_compute; congruence|]. vm_compute. reflexivity.
Defined.
