(* ===== verification/Sphinx.v ===== *)
(** * The Sphinx header

    Models [crypto/sphinx/src/routing.rs]: the sizes of the header, its prefix
    byte, the filler, the construction of the routing information for a path
    and its transformation by one node.  The key identifiers and the data
    types of the header specifications in the repository are byte arrays of a
    fixed size whose parsing checks the length, so a specification is its
    sizes with its two primitives.  Buffers are lists, a write to a buffer out
    of its range panics. *)
From S2P Require Import Prelude Primitives Crypto SharedKeys.

(** [crypto_traits::UniversalHash]: the tag of a key over zero-padded data. *)
Class UniversalHash := {
  uh_key_size : nat;
  TAG_SIZE : nat;
  uh_tag : bytes → bytes → bytes
}.
Class UniversalHashLaws `{!UniversalHash} := length_uh_tag key data :
  length (uh_tag key data) = TAG_SIZE.

Class SphinxHeaderSpec := {
  MAX_HOPS : nat;
  KEY_ID_SIZE : nat;
  Pseudonym_SIZE : nat;
  RELAYER_DATA_SIZE : nat;
  RECEIVER_DATA_SIZE : nat;
  SURB_RECEIVER_DATA_SIZE : nat;
  spec_PRG : StreamCipher;
  spec_UH : UniversalHash
}.
#[local] Existing Instance spec_PRG.
#[export] Existing Instance spec_UH.

Definition SPHINX_HEADER_VERSION : Z := 1.

(** ** The prefix byte *)
Abbreviation HeaderPrefix := Z (only parsing).
Definition HeaderPrefix_SIZE : nat := 1.

Definition HeaderPrefix_new (is_reply no_ack : bool) (path_pos : Z) : outcome GeneralError HeaderPrefix :=
  if 7 <? path_pos then Err (ParseError "HeaderPrefixByte")
  else
    let out := Z.lor 0 (Z.shiftl (Z.land SPHINX_HEADER_VERSION 7) 5) in
    let out := Z.lor out (Z.shiftl (Z.b2z no_ack) 4) in
    let out := Z.lor out (Z.shiftl (Z.b2z is_reply) 3) in
    Ok (Z.lor out (Z.land path_pos 7)).

Definition hp_is_reply (p : HeaderPrefix) : bool := negb (Z.land p 8 =? 0).
Definition hp_is_no_ack (p : HeaderPrefix) : bool := negb (Z.land p 16 =? 0).
Definition path_position (p : HeaderPrefix) : Z := Z.land p 7.
Definition is_final_hop (p : HeaderPrefix) : bool := path_position p =? 0.

Definition HeaderPrefix_try_from (value : Z) : outcome GeneralError HeaderPrefix :=
  if Z.shiftr (Z.land value 224) 5 =? SPHINX_HEADER_VERSION then Ok value
  else Err (ParseError "invalid header version").

(** [RoutingInfo] is its bytes, the header followed by the tag. *)
Abbreviation RoutingInfo := bytes (only parsing).

Section Routing.
Context `{Kdf} `{!SphinxHeaderSpec}.

Definition ROUTING_INFO_LEN : nat :=
  HeaderPrefix_SIZE + KEY_ID_SIZE + TAG_SIZE + RELAYER_DATA_SIZE.
Definition HEADER_LEN : nat :=
  HeaderPrefix_SIZE + RECEIVER_DATA_SIZE + (MAX_HOPS - 1) * ROUTING_INFO_LEN.
Definition EXT_HEADER_LEN : nat :=
  HeaderPrefix_SIZE + RECEIVER_DATA_SIZE + MAX_HOPS * ROUTING_INFO_LEN.
Definition RoutingInfo_SIZE : nat := HEADER_LEN + TAG_SIZE.

Definition new_prg (secret : bytes) : CR cipher :=
  generate_key_iv cipher_new secret "HASH_KEY_PRG" None.

(** [prg.apply_keystream(&mut buf[i..j])]. *)
Definition apply_range {E} (prg : cipher) (i j : nat) (buf : bytes) : outcome E (cipher * bytes) :=
  data ← range i j buf;
  let '(prg, data) := apply_keystream prg data in
  buf ← copy_from_slice i j data buf;
  Ok (prg, buf).

(** ** The filler *)

(** The loop over all secrets but the last. *)
Fixpoint filler_loop (length start : nat) (secrets : list bytes) (ret : bytes) : CR bytes :=
  match secrets with
  | [] => Ok ret
  | secret :: secrets =>
      prg ← new_prg secret;
      '(_, ret) ← apply_range (seek prg start) 0 length ret;
      filler_loop (length + ROUTING_INFO_LEN) (start - ROUTING_INFO_LEN) secrets ret
  end.

(** The subtraction of the sizes wraps around and the allocation then aborts
    when the receiver data is shorter than a pseudonym. *)
Definition generate_filler (secrets : list bytes) : CR bytes :=
  if bool_decide (length secrets < 2)%nat then Ok []
  else if bool_decide (MAX_HOPS < length secrets)%nat then Err (InvalidInputValue "secrets.len")
  else
    let padding_len := ((MAX_HOPS - length secrets) * ROUTING_INFO_LEN)%nat in
    if bool_decide (HEADER_LEN < padding_len + Pseudonym_SIZE + 1)%nat then Panic
    else
      let ret := replicate (HEADER_LEN - padding_len - Pseudonym_SIZE - 1) 0 in
      filler_loop ROUTING_INFO_LEN HEADER_LEN (take (length secrets - 1) secrets) ret.

(** ** Construction *)

Definition RoutingInfo_default : RoutingInfo := replicate RoutingInfo_SIZE 0.
Definition RoutingInfo_try_from : bytes → outcome GeneralError RoutingInfo :=
  array_try_from RoutingInfo_SIZE "RoutingInfo".
Definition mac {E} (r : RoutingInfo) : outcome E bytes := range HEADER_LEN (HEADER_LEN + TAG_SIZE) r.
Definition set_routing {E} (src : bytes) (r : RoutingInfo) : outcome E RoutingInfo :=
  copy_from_slice 0 HEADER_LEN src r.
Definition set_mac {E} (src : bytes) (r : RoutingInfo) : outcome E RoutingInfo :=
  copy_from_slice HEADER_LEN (HEADER_LEN + TAG_SIZE) src r.

Definition LAST_LEN : nat := HeaderPrefix_SIZE + RECEIVER_DATA_SIZE.

(** The branch of the last hop ([idx == 0]); [random] is what [random_fill]
    draws. *)
Definition last_hop (secrets : list bytes) (receiver_data random : bytes) (prefix : HeaderPrefix)
    (prg : cipher) (extended_header : bytes) : CR bytes :=
  extended_header ← copy_from_slice 0 1 [prefix] extended_header;
  extended_header ← copy_from_slice HeaderPrefix_SIZE LAST_LEN receiver_data extended_header;
  let padding_len := ((MAX_HOPS - length secrets) * ROUTING_INFO_LEN)%nat in
  extended_header ← (if bool_decide (0 < padding_len)%nat then
                       copy_from_slice LAST_LEN (LAST_LEN + padding_len) (take padding_len random)
                         extended_header
                     else Ok extended_header);
  '(_, extended_header) ← apply_range prg 0 (LAST_LEN + padding_len) extended_header;
  if bool_decide (1 < length secrets)%nat then
    filler ← generate_filler secrets;
    copy_from_slice (LAST_LEN + padding_len) (LAST_LEN + padding_len + length filler) filler
      extended_header
  else Ok extended_header.

Definition KEY_ID_END : nat := HeaderPrefix_SIZE + KEY_ID_SIZE.

(** The branch of a relayer. *)
Definition relayer_hop (key_ident : bytes) (relayer_data : option bytes) (ret : RoutingInfo)
    (prefix : HeaderPrefix) (prg : cipher) (extended_header : bytes) : CR bytes :=
  extended_header ← copy_within 0 HEADER_LEN ROUTING_INFO_LEN extended_header;
  extended_header ← copy_from_slice 0 1 [prefix] extended_header;
  if bool_decide (length key_ident ≠ KEY_ID_SIZE) then
    Err (InvalidParameterSize "path[..]" (Z.of_nat KEY_ID_SIZE))
  else
    extended_header ← copy_from_slice HeaderPrefix_SIZE KEY_ID_END key_ident extended_header;
    last_mac ← mac ret;
    extended_header ← copy_from_slice KEY_ID_END (KEY_ID_END + TAG_SIZE) last_mac extended_header;
    extended_header ←
      (if bool_decide (0 < RELAYER_DATA_SIZE)%nat then
         match relayer_data with
         | Some relayer_data =>
             if bool_decide (length relayer_data ≠ RELAYER_DATA_SIZE) then
               Err (InvalidParameterSize "additional_data_relayer[..]" (Z.of_nat RELAYER_DATA_SIZE))
             else copy_from_slice (KEY_ID_END + TAG_SIZE) (KEY_ID_END + TAG_SIZE + RELAYER_DATA_SIZE)
                    relayer_data extended_header
         | None => Ok extended_header
         end
       else Ok extended_header);
    '(_, extended_header) ← apply_range prg 0 HEADER_LEN extended_header;
    Ok extended_header.

Definition header_tag (secret header : bytes) : CR bytes :=
  key ← map_err (λ _, InvalidInputValue "mac_key") (generate_key uh_key_size secret "HASH_KEY_TAG" None);
  Ok (uh_tag key header).

Section New.
Context (path secrets additional_data_relayer : list bytes) (receiver_data random : bytes)
  (is_reply no_ack : bool).

(** One round of the loop. *)
Definition new_step (idx : nat) (extended_header : bytes) (ret : RoutingInfo) :
    CR (bytes * RoutingInfo) :=
  let inverted_idx := (length secrets - idx - 1)%nat in
  prefix ← map_err Other (HeaderPrefix_new is_reply no_ack (wrap 8 (Z.of_nat idx)));
  secret ← unwrap_option (secrets !! inverted_idx);
  prg ← new_prg secret;
  extended_header ←
    (if bool_decide (idx = 0%nat) then
       last_hop secrets receiver_data random prefix prg extended_header
     else
       key_ident ← unwrap_option (path !! S inverted_idx);
       relayer_hop key_ident (additional_data_relayer !! inverted_idx) ret prefix prg extended_header);
  header ← range 0 HEADER_LEN extended_header;
  tag ← header_tag secret header;
  ret ← set_mac tag ret;
  Ok (extended_header, ret).

Fixpoint new_loop (idxs : list nat) (extended_header : bytes) (ret : RoutingInfo) :
    CR (bytes * RoutingInfo) :=
  match idxs with
  | [] => Ok (extended_header, ret)
  | idx :: idxs =>
      '(extended_header, ret) ← new_step idx extended_header ret;
      new_loop idxs extended_header ret
  end.

Definition RoutingInfo_new : CR RoutingInfo :=
  if bool_decide (7 < MAX_HOPS)%nat then Panic
  else if bool_decide (length path ≠ length secrets) then
    Err (InvalidParameterSize "path" (Z.of_nat (length secrets)))
  else if bool_decide (MAX_HOPS < length secrets)%nat then Err (InvalidInputValue "secrets.len")
  else
    '(extended_header, ret) ← new_loop (seq 0 (length secrets)) (replicate EXT_HEADER_LEN 0)
                                RoutingInfo_default;
    header ← range 0 HEADER_LEN extended_header;
    set_routing header ret.
End New.

(** ** Forwarding *)
Inductive ForwardedHeader :=
| HeaderRelayed (next_header : RoutingInfo) (path_pos : Z) (next_node additional_info : bytes)
| HeaderFinal (receiver_data : bytes) (is_reply no_ack : bool).

Definition forward_header (secret : bytes) (header : bytes) : CR ForwardedHeader :=
  if bool_decide (length header ≠ RoutingInfo_SIZE) then
    Err (InvalidParameterSize "header" (Z.of_nat HEADER_LEN))
  else
    data ← range 0 HEADER_LEN header;
    tag ← header_tag secret data;
    expected ← range HEADER_LEN (HEADER_LEN + TAG_SIZE) header;
    if bool_decide (tag ≠ expected) then Err TagMismatch
    else
      prg ← new_prg secret;
      '(prg, header) ← apply_range prg 0 HEADER_LEN header;
      b ← unwrap_option (header !! 0%nat);
      prefix ← map_err Other (HeaderPrefix_try_from b);
      if negb (is_final_hop prefix) then
        next_node ← range HeaderPrefix_SIZE KEY_ID_END header;
        next_node ← map_err (λ _, InvalidInputValue "next_node") (array_try_from KEY_ID_SIZE "KeyId" next_node);
        next_mac ← range KEY_ID_END (KEY_ID_END + TAG_SIZE) header;
        next_header ← set_mac next_mac RoutingInfo_default;
        info ← range (KEY_ID_END + TAG_SIZE) (KEY_ID_END + TAG_SIZE + RELAYER_DATA_SIZE) header;
        additional_info ← map_err (λ _, InvalidInputValue "additional_relayer_data")
                            (array_try_from RELAYER_DATA_SIZE "RelayerData" info);
        header ← copy_within ROUTING_INFO_LEN HEADER_LEN 0 header;
        header ← copy_from_slice (HEADER_LEN - ROUTING_INFO_LEN) HEADER_LEN
                   (replicate ROUTING_INFO_LEN 0) header;
        '(_, header) ← apply_range (seek prg HEADER_LEN) (HEADER_LEN - ROUTING_INFO_LEN) HEADER_LEN header;
        routing ← range 0 HEADER_LEN header;
        next_header ← set_routing routing next_header;
        Ok (HeaderRelayed next_header (path_position prefix) next_node additional_info)
      else
        data ← range HeaderPrefix_SIZE LAST_LEN header;
        receiver_data ← map_err (λ _, InvalidInputValue "receiver_data")
                          (array_try_from RECEIVER_DATA_SIZE "ReceiverData" data);
        Ok (HeaderFinal receiver_data (hp_is_reply prefix) (hp_is_no_ack prefix)).

End Routing.

#[global] Arguments ROUTING_INFO_LEN : simpl never.
#[global] Arguments HEADER_LEN : simpl never.
#[global] Arguments EXT_HEADER_LEN : simpl never.
#[global] Arguments RoutingInfo_SIZE : simpl never.
