(* ===== verification/SphinxSpec.v ===== *)
(** * The Sphinx header is an onion

    Every node of a path can peel exactly its layer of the header that
    [RoutingInfo_new] makes: it learns its data and the next node and gets the
    header for it, whose tag verifies there; the last one gets the receiver
    data. *)
From S2P Require Import Prelude Primitives Crypto SharedKeys Sphinx.

#[local] Existing Instance spec_PRG.

(** ** Key streams *)

Lemma length_xor_bytes a b : length (xor_bytes a b) = Nat.min (length a) (length b).
Proof. apply length_zip_with. Qed.

Lemma xor_bytes_app a1 a2 b1 b2 :
  length a1 = length b1 → xor_bytes (a1 ++ a2) (b1 ++ b2) = xor_bytes a1 b1 ++ xor_bytes a2 b2.
Proof. apply zip_with_app. Qed.

Lemma xor_bytes_cancel a b : length a = length b → xor_bytes (xor_bytes a b) b = a.
Proof.
  revert b. induction a as [|x a IH]; intros [|y b] Hl; simpl in *; try done.
  rewrite Z.lxor_assoc, Z.lxor_nilpotent, Z.lxor_0_r. f_equal. apply IH. lia.
Qed.

Lemma xor_bytes_swap a b c : xor_bytes (xor_bytes a b) c = xor_bytes (xor_bytes a c) b.
Proof.
  revert b c. induction a as [|x a IH]; intros [|y b] [|z c]; simpl; try done.
  unfold xor_bytes in *. simpl. rewrite IH. f_equal.
  by rewrite !Z.lxor_assoc, (Z.lxor_comm y z).
Qed.

Lemma xor_bytes_zeros n b : length b = n → xor_bytes (replicate n 0) b = b.
Proof. intros <-. induction b as [|y b IH]; simpl; [done|]. f_equal. exact IH. Qed.

Lemma take_xor_bytes n a b : take n (xor_bytes a b) = xor_bytes (take n a) (take n b).
Proof. revert a b. induction n; intros [|? ?] [|? ?]; simpl; f_equal; auto. Qed.

Lemma drop_xor_bytes n a b :
  drop n (xor_bytes a b) = xor_bytes (drop n a) (drop n b).
Proof.
  revert a b. induction n as [|n IH]; intros [|x a] [|y b]; simpl; try done.
  unfold xor_bytes. by destruct (drop n a).
Qed.

Lemma length_stream `{!StreamCipher} c n : length (stream c n) = n.
Proof. unfold stream. by rewrite length_fmap, length_seq. Qed.

Lemma stream_app `{!StreamCipher} c m n :
  stream c (m + n) = stream c m ++ stream (seek c (c_pos c + m)) n.
Proof. unfold stream. by rewrite seq_app, fmap_app. Qed.

#[export] Hint Rewrite length_xor_bytes @length_stream : lens.

(** ** The prefix byte *)
Lemma HeaderPrefix_roundtrip is_reply no_ack pos :
  0 ≤ pos ≤ 7 →
  ∃ p, HeaderPrefix_new is_reply no_ack pos = Ok p ∧ HeaderPrefix_try_from p = Ok p ∧
    path_position p = pos ∧ hp_is_reply p = is_reply ∧ hp_is_no_ack p = no_ack.
Proof.
  intros Hp.
  assert (pos = 0 ∨ pos = 1 ∨ pos = 2 ∨ pos = 3 ∨ pos = 4 ∨ pos = 5 ∨ pos = 6 ∨ pos = 7) as Hin by lia.
  destruct_or! Hin; subst pos; destruct is_reply, no_ack; eexists; by split_and!.
Qed.

(** Goals on the lengths of the pieces of a buffer. *)
Ltac lens := autorewrite with lens; cbn [length]; unfold HeaderPrefix_SIZE in *; lia.

Lemma cut {A} (l : list A) n m :
  length l = (n + m)%nat → ∃ a b, l = a ++ b ∧ length a = n ∧ length b = m.
Proof.
  intros Hl. exists (take n l), (drop n l). rewrite take_drop. split; [done|lens].
Qed.

Section Onion.
Context `{KdfLaws} `{!SphinxHeaderSpec, !UniversalHashLaws}.
#[local] Set Default Proof Using "Type*".

(** ** The primitives under a secret *)
Definition ks (secret : bytes) (off n : nat) : bytes :=
  match new_prg secret with Ok c => stream (seek c off) n | _ => [] end.

Definition tg (secret data : bytes) : bytes :=
  match header_tag secret data with Ok t => t | _ => [] end.

Definition good_secret (secret : bytes) : Prop := (16 ≤ length secret)%nat.

Lemma new_prg_ok secret :
  good_secret secret → ∃ c, new_prg secret = Ok c ∧ c_pos c = 0%nat ∧
    ∀ off n, ks secret off n = stream (seek c off) n.
Proof.
  intros Hs. unfold ks, new_prg.
  destruct (generate_key_iv_ok cipher_new secret "HASH_KEY_PRG" None Hs) as (key & iv & -> & _).
  eexists. by split_and!.
Qed.

Lemma length_ks secret off n : good_secret secret → length (ks secret off n) = n.
Proof. intros (c & _ & _ & Hk)%new_prg_ok. by rewrite Hk, length_stream. Qed.

Lemma ks_app secret off m n : ks secret off (m + n) = ks secret off m ++ ks secret (off + m) n.
Proof. unfold ks. destruct (new_prg secret); [|done|done]. by rewrite stream_app. Qed.

Lemma header_tag_ok secret data :
  good_secret secret → header_tag secret data = Ok (tg secret data) ∧ length (tg secret data) = TAG_SIZE.
Proof.
  intros Hs. unfold tg, header_tag.
  destruct (generate_key_ok uh_key_size secret "HASH_KEY_TAG" None Hs) as (k & -> & _).
  cbn. split; [done|]. apply length_uh_tag.
Qed.

Lemma apply_range_ok {E} prg i j l1 l2 l3 :
  i = length l1 → j = (i + length l2)%nat →
  apply_range (E:=E) prg i j (l1 ++ l2 ++ l3) =
    Ok (seek prg (c_pos prg + length l2), l1 ++ xor_bytes l2 (stream prg (length l2)) ++ l3).
Proof.
  intros Hi Hj. unfold apply_range. rewrite range_ok by done. cbn [mbind outcome_bind].
  unfold apply_keystream. rewrite copy_from_slice_ok; [done|done|done|].
  autorewrite with lens. lia.
Qed.

(** ** The filler *)

(** The filler that nodes [0 .. j - 1] leave behind. *)
Definition phi_step (j : nat) (acc secret : bytes) : bytes :=
  xor_bytes (acc ++ replicate ROUTING_INFO_LEN 0)
    (ks secret (HEADER_LEN - j * ROUTING_INFO_LEN) (S j * ROUTING_INFO_LEN)).

Fixpoint phi (j : nat) (acc : bytes) (secrets : list bytes) : bytes :=
  match secrets with
  | [] => acc
  | s :: secrets => phi (S j) (phi_step j acc s) secrets
  end.

Lemma phi_snoc j acc l s :
  phi j acc (l ++ [s]) = phi_step (j + length l) (phi j acc l) s.
Proof.
  revert j acc. induction l as [|x l IH]; intros j acc; simpl; [by rewrite Nat.add_0_r|].
  rewrite IH. f_equal. lia.
Qed.

Lemma length_phi_step j acc s :
  good_secret s → length acc = (j * ROUTING_INFO_LEN)%nat →
  length (phi_step j acc s) = (S j * ROUTING_INFO_LEN)%nat.
Proof.
  intros Hs Ha. unfold phi_step. autorewrite with lens. rewrite length_ks, Ha by done. lia.
Qed.

Lemma length_phi j acc l :
  Forall good_secret l → length acc = (j * ROUTING_INFO_LEN)%nat →
  length (phi j acc l) = ((j + length l) * ROUTING_INFO_LEN)%nat.
Proof.
  intros Hl. revert j acc. induction Hl as [|s l Hs Hl IH]; intros j acc Ha; simpl;
    [by rewrite Nat.add_0_r|].
  rewrite IH by (by apply length_phi_step). f_equal. lia.
Qed.

Lemma phi_step_split j acc s :
  good_secret s → length acc = (j * ROUTING_INFO_LEN)%nat → (j * ROUTING_INFO_LEN ≤ HEADER_LEN)%nat →
  phi_step j acc s =
    xor_bytes acc (ks s (HEADER_LEN - j * ROUTING_INFO_LEN) (j * ROUTING_INFO_LEN)) ++
    ks s HEADER_LEN ROUTING_INFO_LEN.
Proof.
  intros Hs Ha Hj. unfold phi_step. rewrite Nat.mul_succ_l, ks_app, xor_bytes_app by (by rewrite length_ks).
  f_equal. rewrite xor_bytes_zeros by (by apply length_ks). f_equal. lia.
Qed.

Lemma filler_loop_ok l d j acc :
  Forall good_secret l → length acc = (j * ROUTING_INFO_LEN)%nat →
  ((j + length l) * ROUTING_INFO_LEN ≤ HEADER_LEN)%nat →
  filler_loop (S j * ROUTING_INFO_LEN) (HEADER_LEN - j * ROUTING_INFO_LEN) l
    (acc ++ replicate (length l * ROUTING_INFO_LEN + d) 0) =
  Ok (phi j acc l ++ replicate d 0).
Proof.
  intros Hl. revert j acc. induction Hl as [|s l Hs Hl IH]; intros j acc Ha Hb;
    cbn [filler_loop phi length] in *; [by rewrite Nat.mul_0_l|].
  destruct (new_prg_ok s Hs) as (c & -> & Hpos & Hks). cbn [mbind outcome_bind].
  replace (S (length l) * ROUTING_INFO_LEN + d)%nat
    with (ROUTING_INFO_LEN + (length l * ROUTING_INFO_LEN + d))%nat by lia.
  rewrite replicate_add, app_assoc.
  rewrite <-(app_nil_l ((acc ++ _) ++ _)).
  rewrite apply_range_ok by (autorewrite with lens; cbn [length]; lia).
  cbn [mbind outcome_bind app]. autorewrite with lens. rewrite Ha.
  replace (j * ROUTING_INFO_LEN + ROUTING_INFO_LEN)%nat with (S j * ROUTING_INFO_LEN)%nat by lia.
  rewrite <-Hks. fold (phi_step j acc s).
  replace (S j * ROUTING_INFO_LEN + ROUTING_INFO_LEN)%nat
    with (S (S j) * ROUTING_INFO_LEN)%nat by lia.
  replace (HEADER_LEN - j * ROUTING_INFO_LEN - ROUTING_INFO_LEN)%nat
    with (HEADER_LEN - S j * ROUTING_INFO_LEN)%nat by lia.
  apply IH; [by apply length_phi_step|lia].
Qed.

(** ** The last layer *)

(** The sizes fit: at most seven hops, and the receiver data holds a pseudonym
    and at most the size of one layer more. *)
Definition spec_wf : Prop :=
  (0 < MAX_HOPS ≤ 7)%nat ∧ (Pseudonym_SIZE ≤ RECEIVER_DATA_SIZE)%nat ∧
  (RECEIVER_DATA_SIZE ≤ Pseudonym_SIZE + ROUTING_INFO_LEN)%nat.

Lemma header_len_split n :
  (0 < n ≤ MAX_HOPS)%nat →
  (HEADER_LEN = LAST_LEN + (MAX_HOPS - n) * ROUTING_INFO_LEN + (n - 1) * ROUTING_INFO_LEN)%nat ∧
  (EXT_HEADER_LEN = HEADER_LEN + ROUTING_INFO_LEN)%nat.
Proof.
  intros Hn. unfold HEADER_LEN, EXT_HEADER_LEN, LAST_LEN.
  split.
  - replace (MAX_HOPS - 1)%nat with (MAX_HOPS - n + (n - 1))%nat by lia. lia.
  - destruct MAX_HOPS as [|m]; [lia|]. replace (S m - 1)%nat with m by lia. lia.
Qed.

Lemma generate_filler_ok secrets :
  spec_wf → Forall good_secret secrets → (2 ≤ length secrets ≤ MAX_HOPS)%nat →
  generate_filler secrets =
    Ok (phi 0 [] (take (length secrets - 1) secrets) ++ replicate (RECEIVER_DATA_SIZE - Pseudonym_SIZE) 0).
Proof.
  intros (HM & HP & HR) Hs Hn. unfold generate_filler.
  rewrite bool_decide_eq_false_2, bool_decide_eq_false_2 by lia.
  destruct (header_len_split (length secrets)) as [HH _]; [lia|]. cbn zeta.
  remember ((MAX_HOPS - length secrets) * ROUTING_INFO_LEN)%nat as pad eqn:Hpad.
  remember (take (length secrets - 1) secrets) as l eqn:Hl.
  assert (length l = length secrets - 1)%nat as Hll by (rewrite Hl, length_take; lia).
  assert (Forall good_secret l) as Hsl by (rewrite Hl; by apply Forall_take).
  pose proof (filler_loop_ok l (RECEIVER_DATA_SIZE - Pseudonym_SIZE) 0 [] Hsl eq_refl) as Hf.
  rewrite <-Hll in HH. cbn [Nat.add] in Hf. remember (length l * ROUTING_INFO_LEN)%nat as n1 eqn:Hn1.
  assert (LAST_LEN = 1 + RECEIVER_DATA_SIZE)%nat as HL by done.
  rewrite bool_decide_eq_false_2 by lia.
  rewrite Nat.mul_1_l, Nat.mul_0_l, Nat.sub_0_r in Hf. cbn [app] in Hf.
  replace (HEADER_LEN - pad - Pseudonym_SIZE - 1)%nat
    with (n1 + (RECEIVER_DATA_SIZE - Pseudonym_SIZE))%nat by lia.
  apply Hf. lia.
Qed.

Lemma last_hop_ok secrets receiver_data random prefix prg :
  spec_wf → Forall good_secret secrets → (0 < length secrets ≤ MAX_HOPS)%nat →
  length receiver_data = RECEIVER_DATA_SIZE →
  ((MAX_HOPS - length secrets) * ROUTING_INFO_LEN ≤ length random)%nat →
  c_pos prg = 0%nat →
  ∃ pad rest,
    length (prefix :: receiver_data ++ pad) = (HEADER_LEN - (length secrets - 1) * ROUTING_INFO_LEN)%nat ∧
    length rest = ROUTING_INFO_LEN ∧
    last_hop secrets receiver_data random prefix prg (replicate EXT_HEADER_LEN 0) =
      Ok (xor_bytes (prefix :: receiver_data ++ pad)
            (stream prg (HEADER_LEN - (length secrets - 1) * ROUTING_INFO_LEN)) ++
          phi 0 [] (take (length secrets - 1) secrets) ++ rest).
Proof.
  intros Hwf Hs Hn Hr Hrand Hpos. pose proof Hwf as (HM & HP & HR).
  destruct (header_len_split (length secrets)) as [HH HE]; [lia|].
  remember ((length secrets - 1) * ROUTING_INFO_LEN)%nat as n1 eqn:Hn1.
  remember ((MAX_HOPS - length secrets) * ROUTING_INFO_LEN)%nat as padn eqn:Hpadn.
  assert (LAST_LEN = 1 + RECEIVER_DATA_SIZE)%nat as HL by done.
  set (pad := take padn random).
  assert (length pad = padn) as Hpad by (unfold pad; rewrite length_take; lia).
  assert (EXT_HEADER_LEN = 1 + (RECEIVER_DATA_SIZE + (padn + (n1 + ROUTING_INFO_LEN))))%nat as HEXT by lia.
  unfold last_hop. rewrite <-Hpadn. fold pad.
  replace (replicate EXT_HEADER_LEN 0) with ([] ++ [0] ++ replicate RECEIVER_DATA_SIZE 0 ++
    replicate padn 0 ++ replicate (n1 + ROUTING_INFO_LEN) 0) by (rewrite HEXT, !replicate_add; done).
  rewrite copy_from_slice_ok by done. cbn [mbind outcome_bind]. rewrite app_nil_l.
  rewrite copy_from_slice_ok by lens. cbn [mbind outcome_bind].
  replace (if bool_decide (0 < padn)%nat then _ else _) with
    (Ok (E:=CryptoError) ([] ++ (prefix :: receiver_data ++ pad) ++ replicate (n1 + ROUTING_INFO_LEN) 0)).
  2: { case_bool_decide as Hc.
       - rewrite (app_assoc [prefix]), copy_from_slice_ok by lens.
         cbn. by rewrite <-!app_assoc.
       - assert (padn = 0%nat) as Hp0 by lia. rewrite Hp0 in *. apply nil_length_inv in Hpad as ->.
         cbn. by rewrite app_nil_r. }
  cbn [mbind outcome_bind].
  assert (length (prefix :: receiver_data ++ pad) = HEADER_LEN - n1)%nat as Hlen
    by lens.
  rewrite apply_range_ok by (rewrite ?Hlen; lens). cbn [mbind outcome_bind].
  rewrite app_nil_l, Hlen. set (enc := xor_bytes _ _).
  assert (length enc = HEADER_LEN - n1)%nat as Hlenc
    by (unfold enc; rewrite length_xor_bytes, length_stream, Hlen; lia).
  exists pad. case_bool_decide as Hc.
  - rewrite generate_filler_ok by (done || lia). cbn [mbind outcome_bind].
    set (l := take (length secrets - 1) secrets).
    assert (length (phi 0 [] l) = n1) as Hphi.
    { rewrite length_phi; [|by apply Forall_take|done]. rewrite Hn1. f_equal.
      unfold l. rewrite length_take. lia. }
    set (filler := phi 0 [] l ++ _).
    assert (length filler = n1 + (RECEIVER_DATA_SIZE - Pseudonym_SIZE))%nat as Hfl
      by (unfold filler; lens).
    exists (replicate (RECEIVER_DATA_SIZE - Pseudonym_SIZE) 0 ++
      replicate (ROUTING_INFO_LEN - (RECEIVER_DATA_SIZE - Pseudonym_SIZE)) 0).
    split_and!; [done|lens|].
    replace (n1 + ROUTING_INFO_LEN)%nat
      with (length filler + (ROUTING_INFO_LEN - (RECEIVER_DATA_SIZE - Pseudonym_SIZE)))%nat by lia.
    rewrite replicate_add, copy_from_slice_ok by (lens).
    unfold filler. by rewrite <-app_assoc.
  - assert (length secrets - 1 = 0)%nat as Hz by lia. rewrite Hz in *. cbn [take phi].
    exists (replicate (n1 + ROUTING_INFO_LEN) 0). rewrite length_replicate.
    split_and!; [done|lia|done].
Qed.

(** ** A relayer's layer *)
Lemma relayer_hop_ok key d ret m prefix prg ext :
  (ROUTING_INFO_LEN ≤ HEADER_LEN)%nat → length ext = (HEADER_LEN + ROUTING_INFO_LEN)%nat →
  length key = KEY_ID_SIZE → length d = RELAYER_DATA_SIZE → mac (E:=CryptoError) ret = Ok m →
  length m = TAG_SIZE →
  relayer_hop key (Some d) ret prefix prg ext =
    Ok (xor_bytes (prefix :: key ++ m ++ d ++ take (HEADER_LEN - ROUTING_INFO_LEN) ext)
          (stream prg HEADER_LEN) ++
        take ROUTING_INFO_LEN (drop (HEADER_LEN - ROUTING_INFO_LEN) ext)).
Proof.
  intros HLH Hext Hkey Hd Hmac Hm. unfold relayer_hop, copy_within.
  assert (ROUTING_INFO_LEN = 1 + (KEY_ID_SIZE + (TAG_SIZE + RELAYER_DATA_SIZE)))%nat as HRI
    by (unfold ROUTING_INFO_LEN; lens).
  rewrite (bool_decide_eq_true_2 (_ ∧ _)) by lia. cbn [mbind outcome_bind].
  rewrite (drop_ge ext (ROUTING_INFO_LEN + _)), app_nil_r, Nat.sub_0_r, drop_0 by lia.
  replace (take HEADER_LEN ext) with (take (HEADER_LEN - ROUTING_INFO_LEN) ext ++
    take ROUTING_INFO_LEN (drop (HEADER_LEN - ROUTING_INFO_LEN) ext)).
  2: { rewrite take_take_drop. f_equal. lia. }
  set (T1 := take (HEADER_LEN - ROUTING_INFO_LEN) ext). set (T2 := take ROUTING_INFO_LEN (drop _ ext)).
  assert (length T1 = HEADER_LEN - ROUTING_INFO_LEN)%nat as HT1 by (unfold T1; lens).
  assert (length (take ROUTING_INFO_LEN ext) = 1 + (KEY_ID_SIZE + (TAG_SIZE + RELAYER_DATA_SIZE)))%nat
    as (l1 & l2 & -> & Hl1 & (l3 & l4 & -> & Hl3 & (l5 & l6 & -> & Hl5 & Hl6)%cut)%cut)%cut by lens.
  rewrite <-!app_assoc, <-(app_nil_l (l1 ++ _)).
  rewrite copy_from_slice_ok by (cbn [length]; lia). cbn [mbind outcome_bind]. rewrite app_nil_l.
  rewrite (bool_decide_eq_false_2 (length key ≠ _)) by (intros Hn; by apply Hn).
  rewrite copy_from_slice_ok by (unfold KEY_ID_END; lens). cbn [mbind outcome_bind].
  rewrite Hmac. cbn [mbind outcome_bind].
  rewrite (app_assoc [prefix]), copy_from_slice_ok by (unfold KEY_ID_END; lens). cbn [mbind outcome_bind].
  rewrite (bool_decide_eq_false_2 (length d ≠ _)) by (intros Hn; by apply Hn).
  replace (if bool_decide (0 < RELAYER_DATA_SIZE)%nat then _ else _) with
    (Ok (E:=CryptoError) ([] ++ (prefix :: key ++ m ++ d ++ T1) ++ T2)).
  2: { case_bool_decide as Hc.
       - rewrite (app_assoc ([prefix] ++ key)), copy_from_slice_ok by (unfold KEY_ID_END; lens).
         cbn. by rewrite <-!app_assoc.
       - assert (RELAYER_DATA_SIZE = 0%nat) as Hz by lia. rewrite Hz in *.
         apply nil_length_inv in Hd as ->, Hl6 as ->. cbn. by rewrite <-!app_assoc. }
  cbn [mbind outcome_bind].
  assert (length (prefix :: key ++ m ++ d ++ T1) = HEADER_LEN) as Hlen by lens.
  rewrite apply_range_ok by (rewrite ?Hlen; lens). cbn [mbind outcome_bind].
  by rewrite app_nil_l, Hlen.
Qed.

(** ** Peeling *)

(** A layer: the plain content under the key stream, then the tag. *)
Definition sealed (secret plain : bytes) : bytes :=
  let header := xor_bytes plain (ks secret 0 HEADER_LEN) in header ++ tg secret header.

(** What is left of [forward_header] once the tag is checked and the layer
    decrypted. *)
Definition open_layer (secret : bytes) (prg : cipher) (plain tag : bytes) : CR ForwardedHeader :=
  match plain with
  | [] => Panic
  | b :: _ =>
      prefix ← map_err Other (HeaderPrefix_try_from b);
      if negb (is_final_hop prefix) then
        next_node ← range HeaderPrefix_SIZE KEY_ID_END (plain ++ tag);
        next_node ← map_err (λ _, InvalidInputValue "next_node") (array_try_from KEY_ID_SIZE "KeyId" next_node);
        next_mac ← range KEY_ID_END (KEY_ID_END + TAG_SIZE) (plain ++ tag);
        next_header ← set_mac next_mac RoutingInfo_default;
        info ← range (KEY_ID_END + TAG_SIZE) (KEY_ID_END + TAG_SIZE + RELAYER_DATA_SIZE) (plain ++ tag);
        additional_info ← map_err (λ _, InvalidInputValue "additional_relayer_data")
                            (array_try_from RELAYER_DATA_SIZE "RelayerData" info);
        header ← copy_within ROUTING_INFO_LEN HEADER_LEN 0 (plain ++ tag);
        header ← copy_from_slice (HEADER_LEN - ROUTING_INFO_LEN) HEADER_LEN
                   (replicate ROUTING_INFO_LEN 0) header;
        '(_, header) ← apply_range (seek prg HEADER_LEN) (HEADER_LEN - ROUTING_INFO_LEN) HEADER_LEN header;
        routing ← range 0 HEADER_LEN header;
        next_header ← set_routing routing next_header;
        Ok (HeaderRelayed next_header (path_position prefix) next_node additional_info)
      else
        data ← range HeaderPrefix_SIZE LAST_LEN (plain ++ tag);
        receiver_data ← map_err (λ _, InvalidInputValue "receiver_data")
                          (array_try_from RECEIVER_DATA_SIZE "ReceiverData" data);
        Ok (HeaderFinal receiver_data (hp_is_reply prefix) (hp_is_no_ack prefix))
  end.

Lemma forward_header_sealed secret plain :
  good_secret secret → length plain = HEADER_LEN →
  ∃ prg tag, length tag = TAG_SIZE ∧ (∀ off n, ks secret off n = stream (seek prg off) n) ∧
    forward_header secret (sealed secret plain) = open_layer secret prg plain tag.
Proof.
  intros Hs Hp. destruct (new_prg_ok secret Hs) as (prg & Hprg & Hpos & Hks).
  assert (length (ks secret 0 HEADER_LEN) = HEADER_LEN) as Hlk by (by apply length_ks).
  unfold sealed. set (header := xor_bytes plain _). cbn zeta.
  assert (length header = HEADER_LEN) as Hh by (unfold header; lens).
  destruct (header_tag_ok secret header Hs) as [Htag Hlt]. set (tag := tg secret header) in *.
  unfold forward_header.
  rewrite (bool_decide_eq_false_2 (length (header ++ tag) ≠ _)) by (unfold RoutingInfo_SIZE; lens).
  assert (∀ E, range (E:=E) 0 HEADER_LEN (header ++ tag) = Ok header) as Hr1
    by (intros E; apply (range_ok 0 HEADER_LEN [] header tag); lens).
  assert (∀ E, range (E:=E) HEADER_LEN (HEADER_LEN + TAG_SIZE) (header ++ tag) = Ok tag) as Hr2
    by (intros E; rewrite <-(app_nil_r tag) at 1; apply range_ok; lens).
  rewrite Hr1. cbn [mbind outcome_bind]. rewrite Htag. cbn [mbind outcome_bind].
  rewrite Hr2. cbn [mbind outcome_bind].
  rewrite (bool_decide_eq_false_2 (tag ≠ tag)) by (intros Hn; by apply Hn).
  rewrite Hprg. cbn [mbind outcome_bind].
  rewrite (apply_range_ok prg 0 HEADER_LEN [] header tag) by lens. cbn [mbind outcome_bind].
  assert (xor_bytes header (stream prg (length header)) = plain) as Hx.
  { rewrite Hh. replace (stream prg HEADER_LEN) with (ks secret 0 HEADER_LEN).
    - unfold header. apply xor_bytes_cancel. lia.
    - rewrite Hks. destruct prg; cbn in *. by rewrite Hpos. }
  rewrite Hx, app_nil_l. clear Hr1 Hr2.
  exists (seek prg (c_pos prg + length header)), tag. split; [done|]. split; [done|].
  destruct plain; [|done].
  exfalso. by unfold HEADER_LEN, HeaderPrefix_SIZE in Hp.
Qed.

Lemma forward_relayed secret prefix key m d rest :
  good_secret secret → (ROUTING_INFO_LEN ≤ HEADER_LEN)%nat →
  length key = KEY_ID_SIZE → length m = TAG_SIZE → length d = RELAYER_DATA_SIZE →
  length rest = (HEADER_LEN - ROUTING_INFO_LEN)%nat →
  HeaderPrefix_try_from prefix = Ok prefix → path_position prefix ≠ 0 →
  forward_header secret (sealed secret (prefix :: key ++ m ++ d ++ rest)) =
    Ok (HeaderRelayed ((rest ++ ks secret HEADER_LEN ROUTING_INFO_LEN) ++ m)
          (path_position prefix) key d).
Proof.
  intros Hs HLH Hkey Hm Hd Hrest Hpre Hpos.
  assert (ROUTING_INFO_LEN = 1 + (KEY_ID_SIZE + (TAG_SIZE + RELAYER_DATA_SIZE)))%nat as HRI
    by (unfold ROUTING_INFO_LEN; lens).
  set (plain := prefix :: _). assert (length plain = HEADER_LEN) as Hlen by (unfold plain; lens).
  destruct (forward_header_sealed secret plain Hs Hlen) as (prg & tag & Htag & Hks & ->).
  set (buf := plain ++ tag).
  assert (buf = [prefix] ++ key ++ m ++ d ++ rest ++ tag) as Hbuf
    by (unfold buf, plain; cbn; by rewrite <-!app_assoc).
  assert (range (E:=CryptoError) HeaderPrefix_SIZE KEY_ID_END buf = Ok key) as Hr1
    by (rewrite Hbuf; apply range_ok; unfold KEY_ID_END; lens).
  assert (range (E:=CryptoError) KEY_ID_END (KEY_ID_END + TAG_SIZE) buf = Ok m) as Hr2
    by (rewrite Hbuf, app_assoc; apply range_ok; unfold KEY_ID_END; lens).
  assert (range (E:=CryptoError) (KEY_ID_END + TAG_SIZE) (KEY_ID_END + TAG_SIZE + RELAYER_DATA_SIZE) buf = Ok d)
    as Hr3 by (rewrite Hbuf, !app_assoc, <-(app_assoc _ rest), <-(app_assoc _ d); apply range_ok; unfold KEY_ID_END; lens).
  assert (set_mac (E:=CryptoError) m RoutingInfo_default = Ok (replicate HEADER_LEN 0 ++ m)) as Hset.
  { unfold set_mac, RoutingInfo_default, RoutingInfo_SIZE.
    rewrite <-(app_nil_r (replicate _ 0)), replicate_add, <-app_assoc, copy_from_slice_ok by lens.
    by rewrite app_nil_r. }
  assert (∃ x y, length x = ROUTING_INFO_LEN ∧
    copy_within (E:=CryptoError) ROUTING_INFO_LEN HEADER_LEN 0 buf = Ok (rest ++ x ++ y)) as (x & y & Hx & Hcw).
  { assert (length (drop (HEADER_LEN - ROUTING_INFO_LEN) buf) = ROUTING_INFO_LEN + TAG_SIZE)%nat
      as (x & y & Hxy & Hlx & _)%cut by (unfold buf; lens).
    exists x, y. split; [done|]. rewrite <-Hxy. unfold copy_within.
    rewrite bool_decide_eq_true_2 by (unfold buf; lens).
    rewrite take_0, app_nil_l. cbn [Nat.add]. do 2 f_equal. rewrite Hbuf.
    rewrite (app_assoc [prefix]), (app_assoc (_ ++ _)), (app_assoc (_ ++ _)).
    rewrite drop_app_length' by lens. by rewrite take_app_length' by lens. }
  unfold plain at 1. cbn [open_layer]. fold plain. fold buf.
  rewrite Hpre. cbn [map_err mbind outcome_bind].
  unfold is_final_hop. rewrite (proj2 (Z.eqb_neq _ 0) Hpos). cbn [negb].
  rewrite Hr1. cbn [mbind outcome_bind].
  rewrite (proj2 (array_try_from_ok _ _ key)) by done. cbn [map_err mbind outcome_bind].
  rewrite Hr2. cbn [mbind outcome_bind]. rewrite Hset. cbn [mbind outcome_bind].
  rewrite Hr3. cbn [mbind outcome_bind].
  rewrite (proj2 (array_try_from_ok _ _ d)) by done. cbn [map_err mbind outcome_bind].
  rewrite Hcw. cbn [mbind outcome_bind].
  rewrite copy_from_slice_ok by lens. cbn [mbind outcome_bind].
  rewrite apply_range_ok by lens. cbn [mbind outcome_bind].
  rewrite length_replicate, <-Hks, xor_bytes_zeros by (by apply length_ks).
  set (out := rest ++ ks secret HEADER_LEN ROUTING_INFO_LEN).
  assert (length out = HEADER_LEN) as Hout by (unfold out; rewrite length_app, length_ks by done; lia).
  rewrite app_assoc. fold out.
  rewrite <-(app_nil_l (out ++ y)), range_ok by (cbn [length]; lia). cbn [mbind outcome_bind].
  unfold set_routing. rewrite <-(app_nil_l (replicate _ _ ++ m)), copy_from_slice_ok by lens. done.
Qed.

Lemma forward_final secret prefix receiver_data rest :
  good_secret secret → length receiver_data = RECEIVER_DATA_SIZE →
  length (prefix :: receiver_data ++ rest) = HEADER_LEN →
  HeaderPrefix_try_from prefix = Ok prefix → path_position prefix = 0 →
  forward_header secret (sealed secret (prefix :: receiver_data ++ rest)) =
    Ok (HeaderFinal receiver_data (hp_is_reply prefix) (hp_is_no_ack prefix)).
Proof.
  intros Hs Hr Hlen Hpre Hpos.
  destruct (forward_header_sealed secret _ Hs Hlen) as (prg & tag & Htag & Hks & ->).
  cbn [open_layer]. rewrite Hpre. cbn [map_err mbind outcome_bind].
  unfold is_final_hop. rewrite Hpos. cbn [Z.eqb negb].
  replace ((prefix :: receiver_data ++ rest) ++ tag) with ([prefix] ++ receiver_data ++ rest ++ tag)
    by (cbn; by rewrite <-!app_assoc).
  rewrite range_ok by (unfold LAST_LEN; lens). cbn [mbind outcome_bind].
  by rewrite (proj2 (array_try_from_ok _ _ receiver_data)).
Qed.

(** ** The whole onion *)

(** The nodes with these secrets, one after the other, peel the header: each
    relayer learns the next node and its data, the last node the receiver data. *)
Inductive onion (receiver_data : bytes) (is_reply no_ack : bool) :
    list bytes → list bytes → list bytes → bytes → Prop :=
| onion_last secret header :
    forward_header secret header = Ok (HeaderFinal receiver_data is_reply no_ack) →
    onion receiver_data is_reply no_ack [secret] [] [] header
| onion_relay secret secrets key keys d datas header next :
    forward_header secret header = Ok (HeaderRelayed next (Z.of_nat (length secrets)) key d) →
    length next = RoutingInfo_SIZE →
    onion receiver_data is_reply no_ack secrets keys datas next →
    onion receiver_data is_reply no_ack (secret :: secrets) (key :: keys) (d :: datas) header.

Section Build.
Context (path secrets datas : list bytes) (receiver_data random : bytes) (is_reply no_ack : bool).
Context (Hwf : spec_wf) (Hsec : Forall good_secret secrets)
  (Hn : (0 < length secrets ≤ MAX_HOPS)%nat) (Hpath : length path = length secrets)
  (Hids : Forall (λ k, length k = KEY_ID_SIZE) path)
  (Hdatas : length datas = (length secrets - 1)%nat)
  (Hdata : Forall (λ d, length d = RELAYER_DATA_SIZE) datas)
  (Hrecv : length receiver_data = RECEIVER_DATA_SIZE)
  (Hrand : ((MAX_HOPS - length secrets) * ROUTING_INFO_LEN ≤ length random)%nat).

(** The buffers after the round for node [j]: the header for it and the tag. *)
Record built (j : nat) (ext ret : bytes) : Prop := {
  bt_ext : length ext = EXT_HEADER_LEN;
  bt_filler : drop (HEADER_LEN - j * ROUTING_INFO_LEN) (take HEADER_LEN ext) = phi 0 [] (take j secrets);
  bt_onion : ∃ x m, ret = x ++ m ∧ length x = HEADER_LEN ∧ length m = TAG_SIZE ∧
    onion receiver_data is_reply no_ack (drop j secrets) (drop (S j) path) (drop j datas)
      (take HEADER_LEN ext ++ m)
}.

Lemma mac_app {E} x m :
  length x = HEADER_LEN → length m = TAG_SIZE → mac (E:=E) (x ++ m) = Ok m.
Proof. intros Hx Hm. unfold mac. rewrite <-(app_nil_r m) at 1. apply range_ok; lens. Qed.

Lemma set_mac_app {E} x m t :
  length x = HEADER_LEN → length m = TAG_SIZE → length t = TAG_SIZE →
  set_mac (E:=E) t (x ++ m) = Ok (x ++ t).
Proof.
  intros Hx Hm Ht. unfold set_mac. rewrite <-(app_nil_r m), copy_from_slice_ok by lens.
  by rewrite app_nil_r.
Qed.

(** The end of a round: the tag over the new header. *)
Lemma finish_step {A} secret ext x m (k : bytes * bytes → CR A) :
  good_secret secret → length ext = EXT_HEADER_LEN → length x = HEADER_LEN → length m = TAG_SIZE →
  (header ← range 0 HEADER_LEN ext; tag ← header_tag secret header; ret ← set_mac tag (x ++ m);
   k (ext, ret)) = k (ext, x ++ tg secret (take HEADER_LEN ext)).
Proof.
  intros Hs Hext Hx Hm. destruct (header_len_split 1) as [_ HE]; [lia|].
  unfold range. rewrite (bool_decide_eq_true_2 (_ ∧ _)) by lia. cbn [mbind outcome_bind].
  rewrite drop_0, Nat.sub_0_r. destruct (header_tag_ok secret (take HEADER_LEN ext) Hs) as [-> Ht].
  cbn [mbind outcome_bind]. by rewrite set_mac_app.
Qed.
Lemma round_prefix idx :
  (idx < length secrets)%nat →
  ∃ prefix secret, secrets !! (length secrets - idx - 1)%nat = Some secret ∧ good_secret secret ∧
    HeaderPrefix_new is_reply no_ack (wrap 8 (Z.of_nat idx)) = Ok prefix ∧
    HeaderPrefix_try_from prefix = Ok prefix ∧ path_position prefix = Z.of_nat idx ∧
    hp_is_reply prefix = is_reply ∧ hp_is_no_ack prefix = no_ack.
Proof.
  intros Hidx. destruct Hwf as [HM _].
  destruct (lookup_lt_is_Some_2 secrets (length secrets - idx - 1)) as [secret Hsecret]; [lia|].
  rewrite wrap_small by (unfold in_u; lia).
  destruct (HeaderPrefix_roundtrip is_reply no_ack (Z.of_nat idx)) as (p & ? & ? & ? & ? & ?); [lia|].
  exists p, secret. split_and!; try done. by eapply Forall_lookup_1.
Qed.

Lemma new_step_first :
  ∃ ext ret, new_step path secrets datas receiver_data random is_reply no_ack 0
      (replicate EXT_HEADER_LEN 0) RoutingInfo_default = Ok (ext, ret) ∧ built (length secrets - 1) ext ret.
Proof.
  destruct (round_prefix 0) as (prefix & secret & Hsecret & Hs & Hp & Htry & Hpos & Hrep & Hack); [lia|].
  rewrite Nat.sub_0_r in Hsecret.
  destruct (new_prg_ok secret Hs) as (prg & Hprg & Hprg0 & Hks).
  destruct (last_hop_ok secrets receiver_data random prefix prg) as (pad & rest & Hlp & Hrest & Hlast);
    try done; [lia..|].
  destruct (header_len_split (length secrets) Hn) as [HH HE].
  set (plain := prefix :: receiver_data ++ pad) in *.
  set (filler := phi 0 [] (take (length secrets - 1) secrets)) in *.
  assert (length filler = (length secrets - 1) * ROUTING_INFO_LEN)%nat as Hfl.
  { unfold filler. rewrite length_phi by (by apply Forall_take || done). f_equal.
    rewrite length_take. lia. }
  remember ((length secrets - 1) * ROUTING_INFO_LEN)%nat as n1 eqn:Hn1.
  remember ((MAX_HOPS - length secrets) * ROUTING_INFO_LEN)%nat as padn eqn:Hpadn.
  set (ext := xor_bytes plain (stream prg (HEADER_LEN - n1)) ++ filler ++ rest) in *.
  assert (length ext = EXT_HEADER_LEN) as Hext by (unfold ext; lens).
  assert (stream prg (HEADER_LEN - n1) = ks secret 0 (HEADER_LEN - n1)) as Hst.
  { rewrite Hks. destruct prg; cbn in *. by rewrite Hprg0. }
  assert (take HEADER_LEN ext = xor_bytes plain (ks secret 0 (HEADER_LEN - n1)) ++ filler) as Htake.
  { unfold ext. rewrite app_assoc, take_app_length' by lens. by rewrite Hst. }
  unfold new_step. rewrite Hp. cbn [map_err mbind outcome_bind].
  rewrite Nat.sub_0_r, Hsecret. cbn [unwrap_option mbind outcome_bind].
  rewrite Hprg. cbn [mbind outcome_bind]. rewrite bool_decide_eq_true_2, Hlast by done.
  cbn [mbind outcome_bind]. unfold RoutingInfo_default, RoutingInfo_SIZE. rewrite replicate_add.
  rewrite (finish_step secret ext) by (done || lens).
  do 2 eexists. split; [done|]. split; [done| |].
  - rewrite Htake, <-Hn1. apply drop_app_length'. rewrite length_xor_bytes, length_ks by done. lia.
  - do 2 eexists. split; [done|]. split; [lens|]. split; [by apply header_tag_ok|].
    rewrite (drop_S secrets secret) by done.
    rewrite (drop_ge secrets), (drop_ge path), (drop_ge datas) by lia.
    constructor.
    replace (take HEADER_LEN ext) with (xor_bytes (plain ++ xor_bytes filler (ks secret (HEADER_LEN - n1) n1))
      (ks secret 0 HEADER_LEN)).
    2: { rewrite Htake. replace HEADER_LEN with (HEADER_LEN - n1 + n1)%nat at 2 by lia.
         rewrite ks_app, xor_bytes_app by (rewrite length_ks by done; lia).
         f_equal. apply xor_bytes_cancel. rewrite length_ks by done. lia. }
    fold (sealed secret (plain ++ xor_bytes filler (ks secret (HEADER_LEN - n1) n1))).
    unfold plain. cbn [app]. rewrite <-app_assoc, forward_final; [by rewrite Hrep, Hack|done..| |done|].
    + rewrite app_assoc, app_comm_cons. fold plain. rewrite length_app, length_xor_bytes, length_ks by done.
      lia.
    + by rewrite Hpos.
Qed.
Lemma layers_fit j :
  (j < length secrets)%nat → (j * ROUTING_INFO_LEN + 1 ≤ HEADER_LEN)%nat.
Proof.
  intros Hj. assert (1 ≤ LAST_LEN)%nat by (unfold LAST_LEN, HeaderPrefix_SIZE; lia).
  assert (j * ROUTING_INFO_LEN ≤ (MAX_HOPS - 1) * ROUTING_INFO_LEN)%nat
    by (apply Nat.mul_le_mono_r; lia).
  unfold HEADER_LEN. fold LAST_LEN. lia.
Qed.

Lemma new_step_next idx ext ret :
  (0 < idx < length secrets)%nat → built (length secrets - idx) ext ret →
  ∃ ext' ret', new_step path secrets datas receiver_data random is_reply no_ack idx ext ret = Ok (ext', ret') ∧
    built (length secrets - idx - 1) ext' ret'.
Proof.
  intros Hidx [Hext Hfil (x & m & -> & Hx & Hm & Honion)].
  destruct (round_prefix idx) as (prefix & secret & Hsecret & Hs & Hp & Htry & Hpos & _ & _); [lia|].
  destruct (new_prg_ok secret Hs) as (prg & Hprg & Hprg0 & Hks).
  remember (length secrets - idx - 1)%nat as j eqn:Hj.
  assert (length secrets - idx = S j)%nat as Hsj by lia. rewrite Hsj in Hfil, Honion.
  destruct (lookup_lt_is_Some_2 path (S j)) as [key Hkey]; [lia|].
  destruct (lookup_lt_is_Some_2 datas j) as [d Hd]; [lia|].
  assert (length key = KEY_ID_SIZE) as Hlk by exact (Forall_lookup_1 _ _ _ _ Hids Hkey).
  assert (length d = RELAYER_DATA_SIZE) as Hld by exact (Forall_lookup_1 _ _ _ _ Hdata Hd).
  pose proof (layers_fit (S j) ltac:(lia)) as Hfit. rewrite Nat.mul_succ_l in Hfit.
  destruct (header_len_split 1) as [_ HE]; [lia|].
  set (phij := phi 0 [] (take j secrets)) in *.
  assert (length phij = (j * ROUTING_INFO_LEN)%nat) as Hphij.
  { unfold phij. rewrite length_phi by (by apply Forall_take || done). f_equal. rewrite length_take. lia. }
  rewrite (take_S_r _ _ secret), phi_snoc in Hfil by done. fold phij in Hfil.
  rewrite length_take, Nat.min_l, Nat.add_0_l, (phi_step_split j phij secret Hs Hphij), Nat.mul_succ_l
    in Hfil by lia.
  remember (j * ROUTING_INFO_LEN)%nat as jL eqn:HjL.
  set (T := take HEADER_LEN ext) in *.
  assert (length T = HEADER_LEN) as HT by (unfold T; lens).
  assert (take (HEADER_LEN - ROUTING_INFO_LEN) ext = take (HEADER_LEN - ROUTING_INFO_LEN) T) as HT1
    by (unfold T; by rewrite take_take, Nat.min_l by lia).
  assert (T = take (HEADER_LEN - ROUTING_INFO_LEN) T ++ ks secret HEADER_LEN ROUTING_INFO_LEN) as HTs.
  { rewrite <-(take_drop (HEADER_LEN - ROUTING_INFO_LEN) T) at 1. f_equal.
    replace (HEADER_LEN - ROUTING_INFO_LEN)%nat with (HEADER_LEN - (jL + ROUTING_INFO_LEN) + jL)%nat by lia.
    rewrite <-drop_drop, Hfil. apply drop_app_length'. rewrite length_xor_bytes, length_ks by done. lia. }
  set (layer := prefix :: key ++ m ++ d ++ take (HEADER_LEN - ROUTING_INFO_LEN) ext).
  assert (ROUTING_INFO_LEN = 1 + (KEY_ID_SIZE + (TAG_SIZE + RELAYER_DATA_SIZE)))%nat as HRI
    by (unfold ROUTING_INFO_LEN; lens).
  assert (length layer = HEADER_LEN) as Hlay by (unfold layer; lens).
  assert (stream prg HEADER_LEN = ks secret 0 HEADER_LEN) as Hst.
  { rewrite Hks. destruct prg; cbn in *. by rewrite Hprg0. }
  unfold new_step. rewrite Hp. cbn [map_err mbind outcome_bind].
  rewrite <-Hj, Hsecret. cbn [unwrap_option mbind outcome_bind].
  rewrite Hprg. cbn [mbind outcome_bind]. rewrite (bool_decide_eq_false_2 (idx = 0%nat)), Hkey by lia.
  cbn [unwrap_option mbind outcome_bind].
  rewrite Hd, (relayer_hop_ok key d (x ++ m) m prefix prg ext); try done; [|lia..|by apply mac_app].
  fold layer. cbn [mbind outcome_bind]. rewrite Hst.
  set (ext' := xor_bytes layer _ ++ _).
  assert (take HEADER_LEN ext' = xor_bytes layer (ks secret 0 HEADER_LEN)) as Htake.
  { unfold ext'. apply take_app_length'. rewrite length_xor_bytes, length_ks by done. lia. }
  assert (length ext' = EXT_HEADER_LEN) as Hext'.
  { unfold ext'. rewrite length_app, length_xor_bytes, length_ks by done. lens. }
  rewrite (finish_step secret ext') by done.
  do 2 eexists. split; [done|]. split; [done| |].
  - fold phij. rewrite <-HjL, Htake, drop_xor_bytes.
    replace (drop (HEADER_LEN - jL) (ks secret 0 HEADER_LEN)) with (ks secret (HEADER_LEN - jL) jL).
    2: { assert (ks secret 0 HEADER_LEN = ks secret 0 (HEADER_LEN - jL) ++ ks secret (HEADER_LEN - jL) jL)
           as -> by (rewrite <-(ks_app secret 0); f_equal; lia).
         by rewrite drop_app_length' by (by rewrite length_ks). }
    replace (drop (HEADER_LEN - jL) layer) with (xor_bytes phij (ks secret (HEADER_LEN - jL) jL)).
    { apply xor_bytes_cancel. by rewrite length_ks. }
    unfold layer. rewrite HT1.
    replace (prefix :: key ++ m ++ d ++ take (HEADER_LEN - ROUTING_INFO_LEN) T) with
      ((prefix :: key ++ m ++ d) ++ take (HEADER_LEN - ROUTING_INFO_LEN) T) by (cbn; by rewrite <-!app_assoc).
    rewrite drop_app_ge by lens.
    replace (HEADER_LEN - jL - length (prefix :: key ++ m ++ d))%nat
      with (HEADER_LEN - (jL + ROUTING_INFO_LEN))%nat by lens.
    replace (HEADER_LEN - ROUTING_INFO_LEN)%nat with (HEADER_LEN - (jL + ROUTING_INFO_LEN) + jL)%nat by lia.
    rewrite <-take_drop_commute, Hfil. symmetry. apply take_app_length'.
    rewrite length_xor_bytes, length_ks by done. lia.
  - do 2 eexists. split; [done|]. split; [done|]. split; [by apply header_tag_ok|].
    rewrite (drop_S secrets secret), (drop_S path key), (drop_S datas d) by done.
    rewrite Htake. fold (sealed secret layer). unfold layer.
    eapply (onion_relay _ _ _ _ _ _ _ _ _ _ (T ++ m)); [|unfold RoutingInfo_SIZE; lens|exact Honion].
    rewrite forward_relayed; try done; [|lia|lens|lia].
    rewrite HT1, <-HTs, Hpos. do 2 f_equal. rewrite length_drop. lia.
Qed.
Lemma new_loop_built k idx ext ret :
  (0 < idx)%nat → (idx + k = length secrets)%nat → built (length secrets - idx) ext ret →
  ∃ ext' ret', new_loop path secrets datas receiver_data random is_reply no_ack (seq idx k) ext ret =
    Ok (ext', ret') ∧ built 0 ext' ret'.
Proof.
  revert idx ext ret. induction k as [|k IH]; intros idx ext ret Hi Hk Hb; cbn [seq new_loop].
  - do 2 eexists. split; [done|]. by replace 0%nat with (length secrets - idx)%nat by lia.
  - destruct (new_step_next idx ext ret) as (ext1 & ret1 & -> & Hb1); [lia|done|].
    apply IH; [lia|lia|]. by replace (length secrets - S idx)%nat with (length secrets - idx - 1)%nat by lia.
Qed.

Lemma RoutingInfo_new_onion :
  ∃ header, RoutingInfo_new path secrets datas receiver_data random is_reply no_ack = Ok header ∧
    length header = RoutingInfo_SIZE ∧
    onion receiver_data is_reply no_ack secrets (tail path) datas header.
Proof.
  destruct Hwf as [HM _]. unfold RoutingInfo_new.
  rewrite !bool_decide_eq_false_2 by (lia || (intros Hne; by apply Hne)).
  destruct new_step_first as (ext & ret & Hstep & Hb).
  replace (seq 0 (length secrets)) with (0%nat :: seq 1 (length secrets - 1)).
  2: { destruct (length secrets) as [|k]; [lia|]. cbn. by rewrite Nat.sub_0_r. }
  cbn [new_loop]. rewrite Hstep. cbn [mbind outcome_bind].
  destruct (new_loop_built (length secrets - 1) 1 ext ret) as (ext' & ret' & -> & Hb'); [lia|lia|done|].
  cbn [mbind outcome_bind]. destruct Hb' as [Hext _ (x & m & -> & Hx & Hm & Honion)].
  destruct (header_len_split 1) as [_ HE]; [lia|].
  unfold range. rewrite (bool_decide_eq_true_2 (_ ∧ _)) by lia. cbn [mbind outcome_bind].
  rewrite drop_0, Nat.sub_0_r. unfold set_routing.
  rewrite <-(app_nil_l (x ++ m)), copy_from_slice_ok by lens. rewrite app_nil_l.
  eexists. split; [done|]. split; [unfold RoutingInfo_SIZE; lens|].
  rewrite !drop_0 in Honion. destruct path; [done|]. exact Honion.
Qed.
End Build.

(** ** Arbitrary headers *)

Lemma apply_range_total {E} prg i j buf :
  (i ≤ j ≤ length buf)%nat →
  ∃ prg' x, apply_range (E:=E) prg i j buf = Ok (prg', x) ∧ length x = length buf.
Proof.
  intros Hi. unfold apply_range. destruct (range_total (E:=E) i j buf Hi) as (x & -> & Hx).
  cbn [mbind outcome_bind]. unfold apply_keystream.
  destruct (copy_from_slice_total (E:=E) i j (xor_bytes x (stream prg (length x))) buf Hi) as (y & -> & Hy);
    [lens|]. cbn. by do 2 eexists.
Qed.

(** Bytes of any kind do not make a node panic; what is relayed has the size of
    a header. *)
Lemma forward_header_total secret header :
  (ROUTING_INFO_LEN ≤ HEADER_LEN)%nat → good_secret secret →
  match forward_header secret header with
  | Ok (HeaderRelayed next _ _ _) => length next = RoutingInfo_SIZE
  | Ok (HeaderFinal receiver_data _ _) => length receiver_data = RECEIVER_DATA_SIZE
  | Err _ => True
  | Panic => False
  end.
Proof.
  intros HLH Hs. unfold forward_header. case_bool_decide as Hlen; [done|].
  assert (length header = HEADER_LEN + TAG_SIZE)%nat as Hl
    by (destruct (decide (length header = RoutingInfo_SIZE)); [done|contradiction]).
  clear Hlen. assert (ROUTING_INFO_LEN = 1 + KEY_ID_SIZE + TAG_SIZE + RELAYER_DATA_SIZE)%nat as HRI by done.
  assert (LAST_LEN ≤ HEADER_LEN ∧ LAST_LEN = 1 + RECEIVER_DATA_SIZE ∧ KEY_ID_END = 1 + KEY_ID_SIZE)%nat as (HLL & HLA & HKE)
    by (unfold HEADER_LEN, LAST_LEN, KEY_ID_END, HeaderPrefix_SIZE; split_and!; [apply Nat.le_add_r|done|done]).
  destruct (range_total (E:=CryptoError) 0 HEADER_LEN header) as (data & -> & Hd); [lia|]. cbn [mbind outcome_bind].
  destruct (header_tag_ok secret data Hs) as [-> Ht]. cbn [mbind outcome_bind].
  destruct (range_total (E:=CryptoError) HEADER_LEN (HEADER_LEN + TAG_SIZE) header) as (exp & -> & He); [lia|].
  cbn [mbind outcome_bind]. case_bool_decide; [done|].
  destruct (new_prg_ok secret Hs) as (prg & -> & _). cbn [mbind outcome_bind].
  destruct (apply_range_total (E:=CryptoError) prg 0 HEADER_LEN header) as (prg' & buf & -> & Hb); [lia|].
  cbn [mbind outcome_bind]. destruct (lookup_lt_is_Some_2 buf 0) as [b ->]; [lia|].
  cbn [unwrap_option mbind outcome_bind]. unfold HeaderPrefix_try_from.
  destruct (_ =? SPHINX_HEADER_VERSION); [|done]. cbn [map_err mbind outcome_bind].
  destruct (is_final_hop b); cbn [negb].
  - destruct (range_total (E:=CryptoError) HeaderPrefix_SIZE LAST_LEN buf) as (r & -> & Hr);
      [unfold HeaderPrefix_SIZE; lia|].
    unfold HeaderPrefix_SIZE in Hr.
    cbn [mbind outcome_bind]. rewrite (proj2 (array_try_from_ok _ _ r)) by lia. cbn. lia.
  - destruct (range_total (E:=CryptoError) HeaderPrefix_SIZE KEY_ID_END buf) as (r & -> & Hr);
      [unfold HeaderPrefix_SIZE; lia|].
    unfold HeaderPrefix_SIZE in Hr. cbn [mbind outcome_bind].
    rewrite (proj2 (array_try_from_ok _ _ r)) by lia. cbn [map_err mbind outcome_bind].
    destruct (range_total (E:=CryptoError) KEY_ID_END (KEY_ID_END + TAG_SIZE) buf) as (m & -> & Hm); [lia|].
    cbn [mbind outcome_bind]. unfold set_mac, RoutingInfo_default.
    destruct (copy_from_slice_total (E:=CryptoError) HEADER_LEN (HEADER_LEN + TAG_SIZE) m (replicate RoutingInfo_SIZE 0))
      as (nh & -> & Hnh); [unfold RoutingInfo_SIZE; lens|lia|]. cbn [mbind outcome_bind].
    destruct (range_total (E:=CryptoError) (KEY_ID_END + TAG_SIZE) (KEY_ID_END + TAG_SIZE + RELAYER_DATA_SIZE) buf)
      as (d & -> & Hdd); [lia|]. cbn [mbind outcome_bind].
    rewrite (proj2 (array_try_from_ok _ _ d)) by lia. cbn [map_err mbind outcome_bind].
    destruct (copy_within_total (E:=CryptoError) ROUTING_INFO_LEN HEADER_LEN 0 buf) as (buf1 & -> & Hb1); [lia..|].
    cbn [mbind outcome_bind].
    destruct (copy_from_slice_total (E:=CryptoError) (HEADER_LEN - ROUTING_INFO_LEN) HEADER_LEN
      (replicate ROUTING_INFO_LEN 0) buf1) as (buf2 & -> & Hb2); [lia|lens|]. cbn [mbind outcome_bind].
    destruct (apply_range_total (E:=CryptoError) (seek prg' HEADER_LEN) (HEADER_LEN - ROUTING_INFO_LEN) HEADER_LEN buf2)
      as (prg2 & buf3 & -> & Hb3); [lia|]. cbn [mbind outcome_bind].
    destruct (range_total (E:=CryptoError) 0 HEADER_LEN buf3) as (rt & -> & Hrt); [lia|]. cbn [mbind outcome_bind].
    unfold set_routing.
    destruct (copy_from_slice_total (E:=CryptoError) 0 HEADER_LEN rt nh) as (out & -> & Hout);
      [rewrite Hnh, length_replicate; unfold RoutingInfo_SIZE; lia|lia|].
    cbn. rewrite Hout, Hnh. by rewrite length_replicate.
Qed.
End Onion.
