(* ===== verification/MetaPacket.v ===== *)
(** * Sphinx packets and single-use reply blocks

    Models [crypto/sphinx/src/packet.rs] and [surb.rs]: payload padding, the
    construction of a packet for a path or for a reply block, its
    transformation by one node, and the reply blocks with their encoding.
    [P] is the payload size, a const generic of the source.  A packet is its
    bytes; the mapping between public keys and their short identifiers is the
    trait [KeyIdMapper] as a class. *)
From S2P Require Import Prelude Primitives Crypto SharedKeys Sphinx.

#[local] Existing Instance suite_PRP.

Class KeyIdMapper `{!SphinxSuite} := {
  map_key_to_id : public → option bytes;
  map_id_to_public : bytes → option public
}.

(** ** Padding *)
Section Padding.
Context (P : nat).

Definition PADDING : Z := 0.
Definition PADDING_TAG : Z := 170.
Definition PaddedPayload_SIZE : nat := P + 1.

Definition PaddedPayload_new (msg : bytes) : outcome SphinxError bytes :=
  if bool_decide (length msg < PaddedPayload_SIZE)%nat then
    let ret := replicate PaddedPayload_SIZE PADDING in
    ret ← copy_from_slice (PaddedPayload_SIZE - length msg - 1)
            (S (PaddedPayload_SIZE - length msg - 1)) [PADDING_TAG] ret;
    copy_from_slice (PaddedPayload_SIZE - length msg) PaddedPayload_SIZE msg ret
  else Err PaddingError.

Definition PaddedPayload_new_from_vec (msg : bytes) : outcome SphinxError bytes :=
  let len := length msg in
  if bool_decide (PaddedPayload_SIZE ≤ len)%nat then Err PaddingError
  else
    let msg := msg ++ replicate (PaddedPayload_SIZE - len) PADDING in
    msg ← copy_within 0 len (PaddedPayload_SIZE - len) msg;
    msg ← copy_from_slice 0 (PaddedPayload_SIZE - len) (replicate (PaddedPayload_SIZE - len) PADDING) msg;
    copy_from_slice (PaddedPayload_SIZE - len - 1) (S (PaddedPayload_SIZE - len - 1)) [PADDING_TAG] msg.

Definition PaddedPayload_from_padded (msg : bytes) : outcome SphinxError bytes :=
  if bool_decide (length msg = PaddedPayload_SIZE) then Ok msg else Err PaddingError.

Definition into_unpadded (payload : bytes) : outcome SphinxError bytes :=
  match list_find (λ x, x = PADDING_TAG) payload with
  | Some (tag_pos, _) => Ok (drop (S tag_pos) payload)
  | None => Err PaddingError
  end.
End Padding.

Section Packet.
Context `{Kdf} `{!SphinxSuite} `{!SphinxHeaderSpec} (P : nat).

(** ** Reply blocks *)
Record SURB := mkSURB {
  first_relayer : bytes;
  surb_alpha : bytes;
  surb_header : bytes;
  surb_sender_key : bytes;
  additional_data_receiver : bytes
}.

Record ReplyOpener := mkReplyOpener { ro_sender_key : bytes; ro_shared_secrets : list bytes }.

Definition SecretKey16_LENGTH : nat := 16.

Definition SURB_SIZE : nat :=
  KEY_ID_SIZE + AlphaLen + RoutingInfo_SIZE + SecretKey16_LENGTH + SURB_RECEIVER_DATA_SIZE.

Definition SURB_into_boxed (s : SURB) : outcome SphinxError bytes :=
  let e1 := KEY_ID_SIZE in
  let e2 := (KEY_ID_SIZE + AlphaLen)%nat in
  let e3 := (KEY_ID_SIZE + AlphaLen + RoutingInfo_SIZE)%nat in
  let e4 := (KEY_ID_SIZE + AlphaLen + RoutingInfo_SIZE + SecretKey16_LENGTH)%nat in
  let ret := replicate SURB_SIZE 0 in
  ret ← copy_from_slice 0 e1 (first_relayer s) ret;
  ret ← copy_from_slice e1 e2 (surb_alpha s) ret;
  ret ← copy_from_slice e2 e3 (surb_header s) ret;
  ret ← copy_from_slice e3 e4 (surb_sender_key s) ret;
  copy_from_slice e4 SURB_SIZE (additional_data_receiver s) ret.

Definition SURB_try_from (value : bytes) : outcome GeneralError SURB :=
  let e1 := KEY_ID_SIZE in
  let e2 := (KEY_ID_SIZE + AlphaLen)%nat in
  let e3 := (KEY_ID_SIZE + AlphaLen + RoutingInfo_SIZE)%nat in
  let e4 := (KEY_ID_SIZE + AlphaLen + RoutingInfo_SIZE + SecretKey16_LENGTH)%nat in
  if bool_decide (length value = SURB_SIZE) then
    v ← range 0 e1 value;
    first_relayer ← map_err (λ _, ParseError "SURB.first_relayer") (array_try_from KEY_ID_SIZE "KeyId" v);
    v ← range e1 e2 value;
    alpha ← copy_exact AlphaLen v;
    v ← range e2 e3 value;
    header ← map_err (λ _, ParseError "SURB.header") (RoutingInfo_try_from v);
    v ← range e3 e4 value;
    sender_key ← map_err (λ _, ParseError "SURB.sender_key") (array_try_from SecretKey16_LENGTH "SecretKey16" v);
    v ← range e4 (length value) value;
    data ← map_err (λ _, ParseError "SURB.additional_data_receiver")
             (array_try_from SURB_RECEIVER_DATA_SIZE "SurbReceiverData" v);
    Ok (mkSURB first_relayer alpha header sender_key data)
  else Err (ParseError "SURB::SIZE").

(** [random_key] is the sender key drawn, [random] the padding of the header. *)
Definition create_surb (random_key random : bytes) (shared_keys : SharedKeys) (path : list bytes)
    (additional_data_relayer : list bytes) (receiver_data additional_data_receiver : bytes) :
    CR (SURB * ReplyOpener) :=
  header ← RoutingInfo_new path (sk_secrets shared_keys) additional_data_relayer receiver_data random true false;
  first ← ok_or (hd_error path) (InvalidInputValue "path is empty");
  Ok (mkSURB first (sk_alpha shared_keys) header random_key additional_data_receiver,
      mkReplyOpener random_key (sk_secrets shared_keys)).

(** ** Building a packet *)
Inductive MetaPacketRouting :=
| ForwardPath (shared_keys : SharedKeys) (forward_path : list public)
    (additional_data_relayer : list bytes) (receiver_data : bytes) (no_ack : bool)
| ViaSurb (surb : SURB) (receiver_data : bytes).

Record PartialPacket := mkPartialPacket {
  pp_alpha : bytes;
  pp_routing_info : bytes;
  pp_prp_inits : list IvKey
}.

Context `{!KeyIdMapper}.

Definition path_ids (forward_path : list public) : outcome SphinxError (list bytes) :=
  mapM (λ key, ok_or (map_key_to_id key) (PacketConstructionError "key id not found")) forward_path.

Definition PartialPacket_new (random : bytes) (routing : MetaPacketRouting) :
    outcome SphinxError PartialPacket :=
  match routing with
  | ForwardPath shared_keys forward_path additional_data_relayer receiver_data no_ack =>
      ids ← path_ids forward_path;
      routing_info ← map_err SphinxCryptoError
        (RoutingInfo_new ids (sk_secrets shared_keys) additional_data_relayer receiver_data random false no_ack);
      prp_inits ← map_err SphinxCryptoError (mapM new_prp_init (reverse (sk_secrets shared_keys)));
      Ok (mkPartialPacket (sk_alpha shared_keys) routing_info prp_inits)
  | ViaSurb surb receiver_data =>
      init ← map_err SphinxCryptoError (new_reply_prp_init (surb_sender_key surb) receiver_data);
      Ok (mkPartialPacket (surb_alpha surb) (surb_header surb) [init])
  end.

Definition prp_apply (payload : bytes) (iv_key : IvKey) : bytes :=
  snd (apply_keystream (into_init iv_key) payload).

Definition MetaPacket_SIZE : nat := AlphaLen + RoutingInfo_SIZE + PaddedPayload_SIZE P.

Definition new_from_parts (alpha routing_info payload : bytes) : outcome SphinxError bytes :=
  payload ← range 0 (PaddedPayload_SIZE P) payload;
  Ok (alpha ++ routing_info ++ payload).

Definition into_meta_packet (p : PartialPacket) (payload : bytes) : outcome SphinxError bytes :=
  let payload := foldl prp_apply payload (pp_prp_inits p) in
  new_from_parts (pp_alpha p) (pp_routing_info p) payload.

Definition MetaPacket_new (random payload : bytes) (routing : MetaPacketRouting) :
    outcome SphinxError bytes :=
  p ← PartialPacket_new random routing;
  into_meta_packet p payload.

Definition MetaPacket_try_from (value : bytes) : outcome GeneralError bytes :=
  array_try_from MetaPacket_SIZE "MetaPacket" value.

(** ** One node *)
Inductive ForwardedMetaPacket :=
| Relayed (packet : bytes) (next_node : public) (path_pos : Z) (additional_info derived_secret packet_tag : bytes)
| Final (plain_text receiver_data derived_secret packet_tag : bytes) (no_ack : bool).

(** Undoes the layers of a reply: those of the hops, then that of its sender. *)
Definition open_reply (opener : ReplyOpener) (receiver_data decrypted : bytes) : outcome SphinxError bytes :=
  inits ← map_err SphinxCryptoError (mapM new_prp_init (reverse (ro_shared_secrets opener)));
  init ← map_err SphinxCryptoError (new_reply_prp_init (ro_sender_key opener) receiver_data);
  Ok (prp_apply (foldl prp_apply decrypted inits) init).

Definition into_forwarded (node_keypair : keypair) (reply_openers : bytes → option ReplyOpener)
    (packet : bytes) : outcome SphinxError ForwardedMetaPacket :=
  let base := (AlphaLen + RoutingInfo_SIZE)%nat in
  alpha ← range 0 AlphaLen packet;
  private_scalar ← map_err SphinxCryptoError (scalar_from_keypair node_keypair);
  '(alpha, secret) ← map_err SphinxCryptoError
    (forward_transform alpha private_scalar (group_from_public (kp_public node_keypair)));
  header ← range AlphaLen base packet;
  fwd_header ← map_err SphinxCryptoError (forward_header secret header);
  payload ← range base (base + PaddedPayload_SIZE P) packet;
  init ← map_err SphinxCryptoError (new_prp_init secret);
  let decrypted := prp_apply payload init in
  match fwd_header with
  | HeaderRelayed next_header path_pos next_node additional_info =>
      packet ← new_from_parts alpha next_header decrypted;
      packet_tag ← map_err SphinxCryptoError (derive_packet_tag secret);
      next_node ← ok_or (map_id_to_public next_node) (PacketDecodingError "couldn't map id to public key");
      Ok (Relayed packet next_node path_pos additional_info secret packet_tag)
  | HeaderFinal receiver_data is_reply no_ack =>
      decrypted ←
        (if (is_reply : bool) then
           local_surb ← ok_or (reply_openers receiver_data)
             (PacketDecodingError "couldn't find reply opener for pseudonym");
           open_reply local_surb receiver_data decrypted
         else Ok decrypted);
      packet_tag ← map_err SphinxCryptoError (derive_packet_tag secret);
      plain_text ← PaddedPayload_from_padded P decrypted;
      Ok (Final plain_text receiver_data secret packet_tag no_ack)
  end.

End Packet.
