(* ===== verification/MetaPacketSpec.v ===== *)
(** * Sphinx packets arrive

    Padding and reply blocks round-trip; a packet for a path of nodes travels
    along it and gives its payload to the last one, and so does a reply sent
    with a reply block to the node that made it; no received bytes make a node
    panic in the Sphinx layer. *)
From S2P Require Import Prelude Primitives Crypto SharedKeys Sphinx SphinxSpec MetaPacket.

#[local] Existing Instance suite_PRP.

(** ** Padding *)
Section Padding.
Context (P : nat).

Definition padded (msg : bytes) : bytes := replicate (P - length msg) PADDING ++ PADDING_TAG :: msg.

Lemma PaddedPayload_new_ok msg :
  (length msg ≤ P)%nat → PaddedPayload_new P msg = Ok (padded msg).
Proof.
  intros Hl. unfold PaddedPayload_new, PaddedPayload_SIZE.
  rewrite bool_decide_eq_true_2 by lia.
  replace (replicate (P + 1) PADDING) with
    (replicate (P - length msg) PADDING ++ [PADDING] ++ replicate (length msg) PADDING).
  2: { change [PADDING] with (replicate 1 PADDING). rewrite <-!replicate_add. f_equal. lia. }
  rewrite copy_from_slice_ok by lens. cbn [mbind outcome_bind].
  rewrite app_assoc, <-(app_nil_r (replicate (length msg) _)), copy_from_slice_ok by lens.
  rewrite app_nil_r, <-app_assoc. done.
Qed.

Lemma PaddedPayload_new_from_vec_ok msg :
  (length msg ≤ P)%nat → PaddedPayload_new_from_vec P msg = Ok (padded msg).
Proof.
  intros Hl. unfold PaddedPayload_new_from_vec, PaddedPayload_SIZE.
  rewrite bool_decide_eq_false_2 by lia.
  set (n := (P + 1 - length msg)%nat). set (buf := msg ++ replicate n PADDING).
  assert (length buf = P + 1)%nat as Hb by (unfold buf, n; lens).
  unfold copy_within. rewrite bool_decide_eq_true_2 by lia. cbn [mbind outcome_bind].
  rewrite drop_0, Nat.sub_0_r. rewrite (drop_ge buf) by lia. rewrite app_nil_r.
  replace (take (length msg) buf) with msg by (unfold buf; by rewrite take_app_length).
  rewrite <-(app_nil_l (take n buf ++ msg)), copy_from_slice_ok by lens.
  cbn [mbind outcome_bind]. rewrite app_nil_l.
  replace n with (P - length msg + 1)%nat by lia.
  rewrite replicate_add, <-app_assoc, copy_from_slice_ok by lens. done.
Qed.

Lemma into_unpadded_padded msg : into_unpadded (padded msg) = Ok msg.
Proof.
  unfold into_unpadded, padded. generalize (P - length msg)%nat as n. intros n.
  rewrite (proj2 (list_find_Some (λ x, x = PADDING_TAG) _ n PADDING_TAG)).
  - f_equal. rewrite (drop_app_ge _ _ (S n)) by lens.
    rewrite length_replicate. by replace (S n - n)%nat with 1%nat by lia.
  - split_and!; [by rewrite list_lookup_middle by lens|done|].
    intros j y Hj Hlt. rewrite lookup_app_l in Hj by lens.
    apply lookup_replicate in Hj as [-> _]. done.
Qed.

Lemma length_padded msg : (length msg ≤ P)%nat → length (padded msg) = PaddedPayload_SIZE P.
Proof. intros. unfold padded, PaddedPayload_SIZE. lens. Qed.

(** Padding is lossless: a message of at most [P] bytes pads to exactly
    [P + 1] bytes, from which unpadding recovers it, whatever bytes it holds; a
    longer message is refused; and the variant that reuses the buffer of its
    argument agrees with the plain one on every input. *)
Theorem padding_roundtrip (msg : bytes) :
  PaddedPayload_new_from_vec P msg = PaddedPayload_new P msg ∧
  ((length msg ≤ P)%nat ∧
    (∃ p, PaddedPayload_new P msg = Ok p ∧ length p = PaddedPayload_SIZE P ∧
       PaddedPayload_from_padded P p = Ok p ∧ into_unpadded p = Ok msg) ∨
   (P < length msg)%nat ∧ PaddedPayload_new P msg = Err PaddingError).
Proof.
  destruct (decide (length msg ≤ P)%nat) as [Hl|Hl].
  - rewrite PaddedPayload_new_from_vec_ok, PaddedPayload_new_ok by done. split; [done|]. left.
    split; [done|]. exists (padded msg). pose proof (length_padded msg Hl) as Hlp.
    unfold PaddedPayload_from_padded. rewrite bool_decide_eq_true_2 by done.
    split_and!; try done. apply into_unpadded_padded.
  - unfold PaddedPayload_new_from_vec, PaddedPayload_new, PaddedPayload_SIZE.
    rewrite bool_decide_eq_true_2, bool_decide_eq_false_2 by lia. split; [done|right].
    split; [lia|done].
Qed.
End Padding.

(** ** Reply blocks *)
Section Surb.
Context `{!SphinxSuite} `{!SphinxHeaderSpec}.

Definition surb_wf (s : SURB) : Prop :=
  length (first_relayer s) = KEY_ID_SIZE ∧ length (surb_alpha s) = AlphaLen ∧
  length (surb_header s) = RoutingInfo_SIZE ∧ length (surb_sender_key s) = SecretKey16_LENGTH ∧
  length (additional_data_receiver s) = SURB_RECEIVER_DATA_SIZE.

Definition surb_bytes (s : SURB) : bytes :=
  first_relayer s ++ surb_alpha s ++ surb_header s ++ surb_sender_key s ++ additional_data_receiver s.

Lemma length_surb_bytes s : surb_wf s → length (surb_bytes s) = SURB_SIZE.
Proof. intros (? & ? & ? & ? & ?). unfold surb_bytes, SURB_SIZE. lens. Qed.

Lemma SURB_into_boxed_ok s : surb_wf s → SURB_into_boxed s = Ok (surb_bytes s).
Proof.
  intros (H1 & H2 & H3 & H4 & H5). unfold SURB_into_boxed, SURB_SIZE. cbv zeta.
  rewrite !replicate_add, <-!app_assoc.
  rewrite <-(app_nil_l (replicate KEY_ID_SIZE 0 ++ _)), copy_from_slice_ok by lens.
  cbn [mbind outcome_bind]. rewrite app_nil_l, copy_from_slice_ok by lens.
  cbn [mbind outcome_bind]. rewrite (app_assoc (first_relayer s)), copy_from_slice_ok by lens.
  cbn [mbind outcome_bind]. rewrite (app_assoc (_ ++ _)), copy_from_slice_ok by lens.
  cbn [mbind outcome_bind]. rewrite (app_assoc (_ ++ _)).
  rewrite <-(app_nil_r (replicate SURB_RECEIVER_DATA_SIZE 0)), copy_from_slice_ok by lens.
  rewrite app_nil_r. unfold surb_bytes. by rewrite <-!app_assoc.
Qed.

Lemma SURB_try_from_bytes s : surb_wf s → SURB_try_from (surb_bytes s) = Ok s.
Proof.
  intros Hwf. pose proof (length_surb_bytes s Hwf) as Hlen. destruct Hwf as (Hf & Ha & Hh & Hk & Hd).
  assert (∀ i p k n, [first_relayer s; surb_alpha s; surb_header s; surb_sender_key s;
      additional_data_receiver s] !! i = Some p →
    sum_list (length <$> take i [first_relayer s; surb_alpha s; surb_header s; surb_sender_key s;
      additional_data_receiver s]) = k → n = (k + length p)%nat →
    (n ≤ SURB_SIZE)%nat → range (E:=GeneralError) k n (surb_bytes s) = Ok p) as Hr.
  { intros i p k n Hp Hsum -> Hle. unfold range. rewrite bool_decide_eq_true_2 by lia. f_equal.
    unfold surb_bytes. rewrite <-(app_nil_r (additional_data_receiver s)).
    eapply (slice_concat [_; _; _; _; _]); [exact Hp|exact Hsum|lia]. }
  unfold SURB_try_from. cbv zeta. rewrite bool_decide_eq_true_2 by done. rewrite Hlen.
  rewrite (Hr 0%nat _ 0%nat KEY_ID_SIZE eq_refl) by (lia || (cbn; lia) || (unfold SURB_SIZE; lia)). cbn [mbind outcome_bind].
  rewrite (proj2 (array_try_from_ok _ _ _)) by done. cbn [map_err mbind outcome_bind].
  rewrite (Hr 1%nat _ KEY_ID_SIZE (KEY_ID_SIZE + AlphaLen)%nat eq_refl) by (lia || (cbn; lia) || (unfold SURB_SIZE; lia)). cbn [mbind outcome_bind].
  unfold copy_exact at 1. rewrite bool_decide_eq_true_2 by done. cbn [mbind outcome_bind].
  rewrite (Hr 2%nat _ (KEY_ID_SIZE + AlphaLen)%nat (KEY_ID_SIZE + AlphaLen + RoutingInfo_SIZE)%nat eq_refl) by (lia || (cbn; lia) || (unfold SURB_SIZE; lia)). cbn [mbind outcome_bind].
  unfold RoutingInfo_try_from. rewrite (proj2 (array_try_from_ok _ _ _)) by done.
  cbn [map_err mbind outcome_bind].
  rewrite (Hr 3%nat _ (KEY_ID_SIZE + AlphaLen + RoutingInfo_SIZE)%nat (KEY_ID_SIZE + AlphaLen + RoutingInfo_SIZE + SecretKey16_LENGTH)%nat eq_refl) by (lia || (cbn; lia) || (unfold SURB_SIZE; lia)). cbn [mbind outcome_bind].
  rewrite (proj2 (array_try_from_ok _ _ _)) by done. cbn [map_err mbind outcome_bind].
  rewrite (Hr 4%nat _ (KEY_ID_SIZE + AlphaLen + RoutingInfo_SIZE + SecretKey16_LENGTH)%nat SURB_SIZE eq_refl) by (lia || (cbn; lia) || (unfold SURB_SIZE; lia)). cbn [mbind outcome_bind].
  rewrite (proj2 (array_try_from_ok _ _ _)) by done. by destruct s.
Qed.

(** Every byte string of the right size is the encoding of a reply block. *)
Lemma SURB_try_from_total b :
  length b = SURB_SIZE → ∃ s, surb_wf s ∧ b = surb_bytes s.
Proof.
  intros Hb. unfold SURB_SIZE in Hb. rewrite <-!Nat.add_assoc in Hb.
  apply cut in Hb as (b1 & r1 & -> & Hb1 & (b2 & r2 & -> & Hb2 & (b3 & r3 & -> & Hb3 & (b4 & b5 & -> & Hb4 & Hb5)%cut)%cut)%cut).
  by exists (mkSURB b1 b2 b3 b4 b5).
Qed.

End Surb.

(** ** The payload *)
Section Payload.
Context `{KdfLaws} `{!SphinxSuite}.
#[local] Set Default Proof Using "Type*".

Lemma length_prp_apply payload init : length (prp_apply payload init) = length payload.
Proof. unfold prp_apply, apply_keystream. cbn. lens. Qed.

Lemma prp_apply_involutive payload init : prp_apply (prp_apply payload init) init = payload.
Proof.
  unfold prp_apply, apply_keystream. cbn [snd].
  rewrite length_xor_bytes, length_stream, Nat.min_id. apply xor_bytes_cancel. by rewrite length_stream.
Qed.

Lemma length_foldl_prp payload inits : length (foldl prp_apply payload inits) = length payload.
Proof.
  revert payload. induction inits as [|i inits IH]; intros payload; [done|].
  cbn [foldl]. by rewrite IH, length_prp_apply.
Qed.

(** Layers are removed in the order opposite to the one they were added in. *)
Lemma foldl_prp_cancel payload inits :
  foldl prp_apply (foldl prp_apply payload inits) (reverse inits) = payload.
Proof.
  revert payload. induction inits as [|i inits IH]; intros payload; [done|].
  cbn [foldl]. rewrite reverse_cons, foldl_app, IH. apply prp_apply_involutive.
Qed.

Lemma new_prp_init_ok secret : good_secret secret → ∃ init, new_prp_init secret = Ok init.
Proof.
  intros Hs. destruct (generate_key_iv_ok IvKey_new secret "HASH_KEY_PRP" None Hs) as (key & iv & Hk & _).
  by eexists.
Qed.

(** The inits of a list of secrets. *)
Lemma mapM_new_prp_init secrets :
  Forall good_secret secrets → ∃ inits, mapM new_prp_init secrets = Ok inits ∧
    Forall2 (λ s i, new_prp_init s = Ok i) secrets inits.
Proof.
  induction 1 as [|s secrets Hs _ (inits & Hi & Hf)]; [by exists []|].
  destruct (new_prp_init_ok s Hs) as (init & Hk). cbn [mapM]. rewrite Hk. cbn [mbind outcome_bind].
  rewrite Hi.
  eexists. split; [done|]. by constructor.
Qed.

Lemma mapM_new_prp_init_reverse secrets inits :
  Forall2 (λ s i, new_prp_init s = Ok i) secrets inits →
  mapM new_prp_init (reverse secrets) = Ok (reverse inits).
Proof.
  intros Hf%Forall2_reverse. revert Hf. generalize (reverse secrets), (reverse inits).
  induction 1 as [|s i ss ii Hs _ IH]; [done|]. cbn [mapM]. rewrite Hs. cbn [mbind outcome_bind].
  by rewrite IH.
Qed.

Lemma new_reply_prp_init_ok secret salt :
  (16 ≤ length secret)%nat → ∃ init, new_reply_prp_init secret salt = Ok init.
Proof.
  intros Hs. destruct (generate_key_iv_ok IvKey_new secret "HASH_KEY_REPLY_PRP" (Some salt) Hs)
    as (key & iv & Hk & _). by eexists.
Qed.
End Payload.

(** ** Travelling *)
Section Travel.
Context `{KdfLaws} `{!SphinxSuite, !SphinxSuiteLaws} `{!SphinxHeaderSpec, !UniversalHashLaws}.
Context `{!KeyIdMapper} (P : nat).
#[local] Set Default Proof Using "Type*".

Lemma derive_packet_tag_ok secret :
  good_secret secret → ∃ tag, derive_packet_tag secret = Ok tag.
Proof.
  intros Hs. unfold derive_packet_tag.
  destruct (create_kdf_instance_ok secret "HASH_KEY_PACKET_TAG" None Hs) as (out & -> & _). by eexists.
Qed.

(** What every node does before it looks at the decrypted header. *)
Lemma into_forwarded_open kp ops alpha header body a alpha' secret init fwd :
  length alpha = AlphaLen → length header = RoutingInfo_SIZE → length body = PaddedPayload_SIZE P →
  scalar_from_keypair kp = Ok a →
  forward_transform alpha a (group_from_public (kp_public kp)) = Ok (alpha', secret) →
  forward_header secret header = Ok fwd → new_prp_init secret = Ok init →
  into_forwarded P kp ops (alpha ++ header ++ body) =
    match fwd with
    | HeaderRelayed next_header path_pos next_node additional_info =>
        packet ← new_from_parts P alpha' next_header (prp_apply body init);
        packet_tag ← map_err SphinxCryptoError (derive_packet_tag secret);
        next_node ← ok_or (map_id_to_public next_node) (PacketDecodingError "couldn't map id to public key");
        Ok (Relayed packet next_node path_pos additional_info secret packet_tag)
    | HeaderFinal receiver_data is_reply no_ack =>
        decrypted ←
          (if (is_reply : bool) then
             local_surb ← ok_or (ops receiver_data)
               (PacketDecodingError "couldn't find reply opener for pseudonym");
             open_reply local_surb receiver_data (prp_apply body init)
           else Ok (prp_apply body init));
        packet_tag ← map_err SphinxCryptoError (derive_packet_tag secret);
        plain_text ← PaddedPayload_from_padded P decrypted;
        Ok (Final plain_text receiver_data secret packet_tag no_ack)
    end.
Proof.
  intros Ha Hh Hb Hs Hfwd Hhd Hinit. unfold into_forwarded. cbv zeta.
  assert (range (E:=SphinxError) 0 AlphaLen (alpha ++ header ++ body) = Ok alpha) as ->
    by (apply (range_ok 0 AlphaLen [] alpha); lens).
  cbn [mbind outcome_bind]. rewrite Hs. cbn [map_err mbind outcome_bind].
  rewrite Hfwd. cbn [map_err mbind outcome_bind].
  assert (range (E:=SphinxError) AlphaLen (AlphaLen + RoutingInfo_SIZE) (alpha ++ header ++ body) = Ok header)
    as -> by (apply range_ok; lens).
  cbn [mbind outcome_bind]. rewrite Hhd. cbn [map_err mbind outcome_bind].
  assert (range (E:=SphinxError) (AlphaLen + RoutingInfo_SIZE) (AlphaLen + RoutingInfo_SIZE + PaddedPayload_SIZE P)
    (alpha ++ header ++ body) = Ok body) as ->
    by (rewrite app_assoc, <-(app_nil_r body) at 1; apply range_ok; lens).
  cbn [mbind outcome_bind]. by rewrite Hinit.
Qed.

Lemma new_from_parts_ok alpha header body :
  length body = PaddedPayload_SIZE P → new_from_parts P alpha header body = Ok (alpha ++ header ++ body).
Proof.
  intros Hb. unfold new_from_parts, range. rewrite bool_decide_eq_true_2 by lia. cbn [mbind outcome_bind].
  by rewrite drop_0, Nat.sub_0_r, take_ge by lia.
Qed.

(** The reply openers that each node holds. *)
Context (openers : keypair → bytes → option ReplyOpener).

(** A packet goes from node to node, each with its secret: a relayer finds its
    data, the public key of the next node and how many nodes are left; the
    last node gets the payload and the receiver data. *)
Inductive travels (plain receiver_data : bytes) (no_ack : bool) :
    list keypair → list bytes → list bytes → bytes → Prop :=
| travels_last kp secret tag packet :
    into_forwarded P kp (openers kp) packet = Ok (Final plain receiver_data secret tag no_ack) →
    derive_packet_tag secret = Ok tag →
    travels plain receiver_data no_ack [kp] [secret] [] packet
| travels_relay kp next nodes secret secrets d datas packet packet' tag :
    into_forwarded P kp (openers kp) packet =
      Ok (Relayed packet' (kp_public next) (Z.of_nat (S (length nodes))) d secret tag) →
    derive_packet_tag secret = Ok tag →
    length packet' = MetaPacket_SIZE P →
    travels plain receiver_data no_ack (next :: nodes) secrets datas packet' →
    travels plain receiver_data no_ack (kp :: next :: nodes) (secret :: secrets) (d :: datas) packet.

Lemma packet_travels plain receiver_data is_reply no_ack nodes secrets inits ids datas alpha header body :
  derives alpha nodes secrets → Forall good_secret secrets →
  onion receiver_data is_reply no_ack secrets ids datas header →
  Forall2 (λ s i, new_prp_init s = Ok i) secrets inits →
  Forall2 (λ kp id, map_id_to_public id = Some (kp_public kp)) (tail nodes) ids →
  length alpha = AlphaLen → length header = RoutingInfo_SIZE → length body = PaddedPayload_SIZE P →
  length plain = PaddedPayload_SIZE P →
  (if is_reply then
     ∀ kp, last nodes = Some kp → ∃ opener, openers kp receiver_data = Some opener ∧
       open_reply opener receiver_data (foldl prp_apply body inits) = Ok plain
   else foldl prp_apply body inits = plain) →
  travels plain receiver_data no_ack nodes secrets datas (alpha ++ header ++ body).
Proof.
  intros Hd Hgood Honion Hinits Hids Ha Hh Hb Hplain Hfin.
  revert nodes inits alpha body Hd Hgood Hinits Hids Ha Hh Hb Hfin.
  induction Honion as [secret header Hfwd|secret secrets id ids d datas header next Hfwd Hnext Honion IH];
    intros [|kp nodes] inits alpha body Hd Hgood Hinits Hids Ha Hh Hb Hfin; try done.
  - apply Forall2_cons_inv_l in Hinits as (init & inits' & Hinit & ->%Forall2_nil_inv_l & ->).
    destruct Hd as (a & alpha' & Hs & Htr & _ & Hrest). destruct nodes; [|done].
    apply Forall_cons in Hgood as [Hg _]. destruct (derive_packet_tag_ok secret Hg) as (tag & Htag).
    apply (travels_last _ _ _ _ _ tag); [|done].
    rewrite (into_forwarded_open kp (openers kp) alpha header body a alpha' secret init _ Ha Hh Hb Hs Htr Hfwd Hinit).
    cbn [foldl] in Hfin. destruct is_reply.
    + destruct (Hfin kp eq_refl) as (opener & -> & Hopen). cbn [ok_or mbind outcome_bind].
      rewrite Hopen. cbn [mbind outcome_bind]. rewrite Htag. cbn [map_err mbind outcome_bind].
      unfold PaddedPayload_from_padded. by rewrite bool_decide_eq_true_2.
    + rewrite Hfin. cbn [mbind outcome_bind]. rewrite Htag. cbn [map_err mbind outcome_bind].
      unfold PaddedPayload_from_padded. by rewrite bool_decide_eq_true_2.
  - apply Forall2_cons_inv_l in Hinits as (init & inits' & Hinit & Hinits & ->).
    destruct Hd as (a & alpha' & Hs & Htr & Ha' & Hd).
    cbn [tail] in Hids. apply Forall2_cons_inv_r in Hids as (kp' & nodes' & Hid & Hids & ->).
    apply Forall_cons in Hgood as [Hg Hgood]. destruct (derive_packet_tag_ok secret Hg) as (tag & Htag).
    assert (length secrets = S (length nodes')) as Hlen by (by eapply derives_length in Hd).
    apply (travels_relay _ _ _ _ _ _ _ _ _ _ _ (alpha' ++ next ++ prp_apply body init) tag); [|done| |].
    + rewrite (into_forwarded_open kp (openers kp) alpha header body a alpha' secret init _ Ha Hh Hb Hs Htr Hfwd Hinit).
      rewrite new_from_parts_ok by (by rewrite length_prp_apply). cbn [mbind outcome_bind].
      rewrite Htag. cbn [map_err mbind outcome_bind]. rewrite Hid. cbn [ok_or mbind outcome_bind].
      by rewrite Hlen.
    + rewrite !length_app, length_prp_apply. unfold MetaPacket_SIZE. lia.
    + apply (IH (kp' :: nodes') inits' alpha' (prp_apply body init)); try done.
      by rewrite length_prp_apply.
Qed.

(** A path that a packet can be made for: nodes known to the mapper under
    identifiers of the right size, data for all relayers, and enough random
    bytes for the padding of the header. *)
Record packet_path (nodes : list keypair) (datas : list bytes) (receiver_data random : bytes) : Prop := {
  ph_keys : Forall keypair_wf nodes;
  ph_hops : (0 < length nodes ≤ MAX_HOPS)%nat;
  ph_ids : Forall (λ kp, ∃ id, map_key_to_id (kp_public kp) = Some id ∧ length id = KEY_ID_SIZE ∧
    map_id_to_public id = Some (kp_public kp)) nodes;
  ph_datas : length datas = (length nodes - 1)%nat;
  ph_data : Forall (λ d, length d = RELAYER_DATA_SIZE) datas;
  ph_receiver : length receiver_data = RECEIVER_DATA_SIZE;
  ph_random : ((MAX_HOPS - length nodes) * ROUTING_INFO_LEN ≤ length random)%nat
}.

Lemma path_ids_ok nodes :
  Forall (λ kp, ∃ id, map_key_to_id (kp_public kp) = Some id ∧ length id = KEY_ID_SIZE ∧
    map_id_to_public id = Some (kp_public kp)) nodes →
  ∃ ids, path_ids (kp_public <$> nodes) = Ok ids ∧ Forall (λ k, length k = KEY_ID_SIZE) ids ∧
    Forall2 (λ kp id, map_id_to_public id = Some (kp_public kp)) nodes ids.
Proof.
  unfold path_ids. induction 1 as [|kp nodes (id & Hid & Hl & Hpub) _ (ids & Hids & Hf & Hf2)].
  { exists []. split_and!; [done|constructor|constructor]. }
  exists (id :: ids). cbn [fmap list_fmap mapM]. rewrite Hid. cbn [ok_or mbind outcome_bind].
  rewrite Hids. split_and!; [done|by constructor|by constructor].
Qed.

(** The header for a path and the journey of whatever body follows it. *)
Lemma path_header nodes datas receiver_data random x sk ids is_reply no_ack :
  spec_wf → packet_path nodes datas receiver_data random →
  new_shared_keys x (kp_public <$> nodes) = Ok sk →
  Forall (λ k, length k = KEY_ID_SIZE) ids →
  Forall2 (λ kp id, map_id_to_public id = Some (kp_public kp)) nodes ids →
  length (sk_alpha sk) = AlphaLen ∧ Forall good_secret (sk_secrets sk) ∧
  ∃ header inits,
    RoutingInfo_new ids (sk_secrets sk) datas receiver_data random is_reply no_ack = Ok header ∧
    length header = RoutingInfo_SIZE ∧
    Forall2 (λ s i, new_prp_init s = Ok i) (sk_secrets sk) inits ∧
    ∀ plain body, length body = PaddedPayload_SIZE P → length plain = PaddedPayload_SIZE P →
      (if is_reply then
         ∀ kp, last nodes = Some kp → ∃ opener, openers kp receiver_data = Some opener ∧
           open_reply opener receiver_data (foldl prp_apply body inits) = Ok plain
       else foldl prp_apply body inits = plain) →
      travels plain receiver_data no_ack nodes (sk_secrets sk) datas (sk_alpha sk ++ header ++ body).
Proof.
  intros Hwf [Hkeys Hhops Hids Hdatas Hdata Hrecv Hrand] Hsk Hlids Hf2.
  destruct (new_shared_keys_derives x nodes sk Hkeys Hsk) as (Hd & Hla & Hls).
  pose proof (derives_length _ _ _ Hd) as Hlen.
  pose proof (Forall2_length _ _ _ Hf2) as Hlen2.
  assert (Forall good_secret (sk_secrets sk)) as Hgood.
  { eapply Forall_impl; [exact Hls|]. intros s Hs. unfold good_secret. rewrite Hs. unfold SharedSecret_LENGTH. lia. }
  split; [done|]. split; [done|].
  destruct (RoutingInfo_new_onion ids (sk_secrets sk) datas receiver_data random is_reply no_ack)
    as (header & Hnew & Hlh & Honion); try done; try (rewrite ?Hlen; done).
  destruct (mapM_new_prp_init _ Hgood) as (inits & _ & Hinits).
  exists header, inits. split_and!; try done.
  intros plain body Hb Hp Hfin.
  eapply packet_travels; try done. destruct Hf2; [done|]. done.
Qed.

(** A packet reaches its destination: for any path of at most [MAX_HOPS]
    known nodes, the sender's packet has the fixed size; each relayer in turn
    finds its own data, the public key of the next node and its position,
    derives the same secret and packet tag as the sender, and passes on a
    packet of the same size; the last node gets the payload, the receiver data
    and the flag unchanged. *)
Lemma forward_packet_travels (nodes : list keypair) (datas : list bytes) (receiver_data random payload : bytes)
    (x : scalar) (sk : SharedKeys) (no_ack : bool) :
  spec_wf → packet_path nodes datas receiver_data random → length payload = PaddedPayload_SIZE P →
  new_shared_keys x (kp_public <$> nodes) = Ok sk →
  ∃ packet,
    MetaPacket_new P random payload (ForwardPath sk (kp_public <$> nodes) datas receiver_data no_ack)
      = Ok packet ∧
    length packet = MetaPacket_SIZE P ∧
    travels payload receiver_data no_ack nodes (sk_secrets sk) datas packet.
Proof.
  intros Hwf Hph Hpay Hsk.
  destruct (path_ids_ok nodes (ph_ids _ _ _ _ Hph)) as (ids & Hids & Hlids & Hf2).
  destruct (path_header nodes datas receiver_data random x sk ids false no_ack Hwf Hph Hsk Hlids Hf2)
    as (Hla & Hgood & header & inits & Hnew & Hlh & Hinits & Htrav).
  set (body := foldl prp_apply payload (reverse inits)).
  assert (length body = PaddedPayload_SIZE P) as Hlb by (unfold body; by rewrite length_foldl_prp).
  exists (sk_alpha sk ++ header ++ body). split_and!.
  - unfold MetaPacket_new, PartialPacket_new. rewrite Hids. cbn [mbind outcome_bind].
    rewrite Hnew. cbn [map_err mbind outcome_bind].
    rewrite (mapM_new_prp_init_reverse _ inits Hinits). cbn [map_err mbind outcome_bind].
    unfold into_meta_packet. cbn [pp_prp_inits pp_alpha pp_routing_info]. by apply new_from_parts_ok.
  - rewrite !length_app. unfold MetaPacket_SIZE. lia.
  - apply Htrav; [done|done|]. unfold body. rewrite <-(reverse_involutive inits) at 2. apply foldl_prp_cancel.
Qed.

(** A reply block works: it has the fixed layout, and a reply of any payload
    sent with it and its receiver data travels along the path it was made for,
    although its sender does not know that path; the node that made it, which
    is the last one and holds the opener, recovers the payload. *)
Lemma reply_packet_travels (nodes : list keypair) (datas : list bytes) (receiver_data random key additional : bytes)
    (x : scalar) (sk : SharedKeys) (ids : list bytes) :
  spec_wf → packet_path nodes datas receiver_data random →
  new_shared_keys x (kp_public <$> nodes) = Ok sk → path_ids (kp_public <$> nodes) = Ok ids →
  length key = SecretKey16_LENGTH → length additional = SURB_RECEIVER_DATA_SIZE →
  ∃ surb opener, create_surb key random sk ids datas receiver_data additional = Ok (surb, opener) ∧
    surb_wf surb ∧
    ∀ payload random', length payload = PaddedPayload_SIZE P →
      (∀ kp, last nodes = Some kp → openers kp receiver_data = Some opener) →
      ∃ packet, MetaPacket_new P random' payload (ViaSurb surb receiver_data) = Ok packet ∧
        length packet = MetaPacket_SIZE P ∧
        travels payload receiver_data false nodes (sk_secrets sk) datas packet.
Proof.
  intros Hwf Hph Hsk Hids Hkey Hadd.
  destruct (path_ids_ok nodes (ph_ids _ _ _ _ Hph)) as (ids' & Hids' & Hlids & Hf2).
  rewrite Hids in Hids'. injection Hids' as <-.
  destruct (path_header nodes datas receiver_data random x sk ids true false Hwf Hph Hsk Hlids Hf2)
    as (Hla & Hgood & header & inits & Hnew & Hlh & Hinits & Htrav).
  unfold create_surb. rewrite Hnew. cbn [mbind outcome_bind].
  destruct ids as [|id ids].
  { pose proof (Forall2_length _ _ _ Hf2). pose proof (ph_hops _ _ _ _ Hph). cbn in *. lia. }
  cbn [hd_error ok_or mbind outcome_bind]. do 2 eexists. split; [done|].
  split. { apply Forall_cons in Hlids as [Hid _]. by split_and!. }
  intros payload random' Hpay Hop.
  destruct (new_reply_prp_init_ok key receiver_data) as (init & Hinit).
  { rewrite Hkey. unfold SecretKey16_LENGTH. lia. }
  set (body := prp_apply payload init).
  assert (length body = PaddedPayload_SIZE P) as Hlb by (unfold body; by rewrite length_prp_apply).
  exists (sk_alpha sk ++ header ++ body). split_and!.
  - unfold MetaPacket_new, PartialPacket_new. cbn [surb_sender_key surb_alpha surb_header].
    rewrite Hinit. cbn [map_err mbind outcome_bind].
    unfold into_meta_packet. cbn [pp_prp_inits pp_alpha pp_routing_info foldl]. by apply new_from_parts_ok.
  - rewrite !length_app. unfold MetaPacket_SIZE. lia.
  - apply Htrav; [done|done|]. intros kp Hlast. eexists. split; [by apply Hop|].
    unfold open_reply. cbn [ro_shared_secrets ro_sender_key].
    rewrite (mapM_new_prp_init_reverse _ inits Hinits). cbn [map_err mbind outcome_bind].
    rewrite Hinit. cbn [map_err mbind outcome_bind]. rewrite foldl_prp_cancel.
    unfold body. by rewrite prp_apply_involutive.
Qed.

End Travel.

(** ** Any packet at all *)
Section Arrival.
Context `{KdfLaws} `{!SphinxSuite, !SphinxSuiteLaws} `{!SphinxHeaderSpec, !UniversalHashLaws}.
Context `{!KeyIdMapper} (P : nat).
#[local] Set Default Proof Using "Type*".

Lemma mapM_new_prp_init_total secrets : mapM new_prp_init secrets ≠ Panic.
Proof.
  induction secrets as [|s secrets IH]; [done|]. cbn [mapM]. unfold new_prp_init, generate_key_iv,
    create_kdf_instance. case_bool_decide; [done|]. cbn [mbind outcome_bind].
  destruct (mapM _ secrets); done.
Qed.

Lemma open_reply_total opener receiver_data body :
  match open_reply opener receiver_data body with
  | Ok x => length x = length body
  | Err _ => True
  | Panic => False
  end.
Proof.
  unfold open_reply. pose proof (mapM_new_prp_init_total (reverse (ro_shared_secrets opener))) as Hm.
  destruct (mapM _ _) as [inits|e|]; cbn [map_err mbind outcome_bind]; [|done|done].
  unfold new_reply_prp_init, generate_key_iv, create_kdf_instance. case_bool_decide; [done|].
  cbn [map_err mbind outcome_bind]. by rewrite length_prp_apply, length_foldl_prp.
Qed.

(** No packet makes a node panic in the Sphinx layer: whatever bytes arrive,
    a node either drops the packet with an error, or relays a packet of the
    fixed size, or delivers a payload of the fixed size. *)
Theorem into_forwarded_total (kp : keypair) (ops : bytes → option ReplyOpener) (packet : bytes) :
  (ROUTING_INFO_LEN ≤ HEADER_LEN)%nat → keypair_wf kp → (∀ alpha, from_alpha alpha ≠ Panic) →
  length packet = MetaPacket_SIZE P →
  match into_forwarded P kp ops packet with
  | Ok (Relayed packet' _ _ _ _ _) => length packet' = MetaPacket_SIZE P
  | Ok (Final plain receiver_data _ _ _) =>
      length plain = PaddedPayload_SIZE P ∧ length receiver_data = RECEIVER_DATA_SIZE
  | Err _ => True
  | Panic => False
  end.
Proof.
  intros HLH (a & Ha & _) Hfa Hlen. unfold MetaPacket_SIZE in Hlen. rewrite <-Nat.add_assoc in Hlen.
  apply cut in Hlen as (alpha & r1 & -> & Hal & (header & body & -> & Hhl & Hbl)%cut).
  destruct (forward_transform_total alpha a (group_from_public (kp_public kp)))
    as [(e & _ & Hf)|[(alpha' & secret & Hf & Hal' & Hsec)|Hp]]; [..|by destruct (Hfa _ Hp)].
  { unfold into_forwarded. cbv zeta.
    assert (range (E:=SphinxError) 0 AlphaLen (alpha ++ header ++ body) = Ok alpha) as ->
      by (apply (range_ok 0 AlphaLen [] alpha); lens).
    cbn [mbind outcome_bind]. rewrite Ha. cbn [map_err mbind outcome_bind]. by rewrite Hf. }
  assert (good_secret secret) as Hg by (unfold good_secret; rewrite Hsec; unfold SharedSecret_LENGTH; lia).
  destruct (new_prp_init_ok secret Hg) as (init & Hinit).
  destruct (derive_packet_tag_ok secret Hg) as (tag & Htag).
  pose proof (forward_header_total secret header HLH Hg) as Hft.
  destruct (forward_header secret header) as [fwd|e|] eqn:Hfh; [|clear Hft|done].
  2: { unfold into_forwarded. cbv zeta.
    assert (range (E:=SphinxError) 0 AlphaLen (alpha ++ header ++ body) = Ok alpha) as ->
      by (apply (range_ok 0 AlphaLen [] alpha); lens).
    cbn [mbind outcome_bind]. rewrite Ha. cbn [map_err mbind outcome_bind]. rewrite Hf.
    cbn [map_err mbind outcome_bind].
    assert (range (E:=SphinxError) AlphaLen (AlphaLen + RoutingInfo_SIZE) (alpha ++ header ++ body) = Ok header)
      as -> by (apply range_ok; lens).
    cbn [mbind outcome_bind]. by rewrite Hfh. }
  rewrite (into_forwarded_open _ kp ops alpha header body a alpha' secret init fwd Hal Hhl Hbl Ha Hf Hfh Hinit).
  destruct fwd as [next pos id d|receiver_data is_reply no_ack].
  - rewrite new_from_parts_ok by (by rewrite length_prp_apply). cbn [mbind outcome_bind].
    rewrite Htag. cbn [map_err mbind outcome_bind]. destruct (map_id_to_public id); cbn [ok_or mbind outcome_bind]; [|done].
    rewrite !length_app, length_prp_apply. unfold MetaPacket_SIZE. lia.
  - destruct is_reply; cbn [mbind outcome_bind].
    + destruct (ops receiver_data) as [opener|]; cbn [ok_or mbind outcome_bind]; [|done].
      pose proof (open_reply_total opener receiver_data (prp_apply body init)) as Hor.
      destruct (open_reply _ _ _) as [x|e|]; cbn [mbind outcome_bind]; [|done|done].
      rewrite Htag. cbn [map_err mbind outcome_bind]. unfold PaddedPayload_from_padded.
      by case_bool_decide.
    + rewrite Htag. cbn [map_err mbind outcome_bind]. unfold PaddedPayload_from_padded.
      by case_bool_decide.
Qed.
End Arrival.
