(* ===== verification/Packet.v ===== *)
(** * HOPR packets

    Models [crypto/packet/src/types.rs], [packet.rs] and the header
    specification of [lib.rs]: sender identifiers, the packet message with its
    reply blocks, the construction of outgoing packets for a path, a reply
    block or a probe, and the processing of an incoming packet up to the
    checks of its ticket.  The suite is X25519, the header specification is
    HOPR's own; random values are arguments. *)
From S2P Require Import Prelude Primitives Crypto Channels Tickets SharedKeys Sphinx MetaPacket Por.

(** ** Messages with reply blocks *)
Section Message.
Context `{!SphinxSuite} `{!SphinxHeaderSpec} (P : nat).

Definition MESSAGE_HEADER_LEN : nat := 1.

Definition try_into_parts (message : bytes) : outcome SphinxError (list SURB * bytes) :=
  data ← into_unpadded message;
  num_surbs ← unwrap_option (data !! 0%nat);
  let num_surbs := Z.to_nat num_surbs in
  if bool_decide (0 < num_surbs)%nat then
    let surb_end := (num_surbs * SURB_SIZE)%nat in
    if bool_decide (length data ≤ surb_end)%nat then
      Err (SphinxGeneralError (ParseError "HoprPacketMessage.num_surbs not valid"))
    else
      let surb_data := drop 1 (take (S surb_end) data) in
      surbs ← map_err SphinxGeneralError (mapM SURB_try_from (chunks_exact SURB_SIZE surb_data));
      Ok (surbs, drop (S surb_end) data)
  else Ok ([], drop 1 data).

Definition from_parts (surbs : list SURB) (payload : bytes) : outcome SphinxError bytes :=
  if bool_decide (255 < length surbs)%nat then
    Err (SphinxGeneralError (ParseError "HoprPacketMessage.num_surbs not valid"))
  else if bool_decide (P < MESSAGE_HEADER_LEN + length surbs * SURB_SIZE + length payload)%nat then
    Err (SphinxGeneralError (ParseError "HoprPacketMessage.size not valid"))
  else
    boxed ← mapM SURB_into_boxed surbs;
    PaddedPayload_new_from_vec P (wrap 8 (Z.of_nat (length surbs)) :: concat boxed ++ payload).
End Message.

(** ** Sender identifiers *)
Definition HoprPseudonym : Type := bytes.
Definition HoprPseudonym_SIZE : nat := 10.
Definition SURB_ID_SIZE : nat := 8.
Definition HoprSenderId_SIZE : nat := HoprPseudonym_SIZE + SURB_ID_SIZE.

(** [random] is the value of [random_bytes]. *)
Definition HoprSenderId_new {E} (random : bytes) (pseudonym : HoprPseudonym) : outcome E bytes :=
  copy_from_slice 0 HoprPseudonym_SIZE pseudonym random.

Definition from_pseudonym_and_id {E} (pseudonym : HoprPseudonym) (id : bytes) : outcome E bytes :=
  ret ← copy_from_slice 0 HoprPseudonym_SIZE pseudonym (replicate HoprSenderId_SIZE 0);
  copy_from_slice HoprPseudonym_SIZE (HoprPseudonym_SIZE + SURB_ID_SIZE) id ret.

Definition HoprSenderId_pseudonym (s : bytes) : bytes := take HoprPseudonym_SIZE s.
Definition HoprSenderId_surb_id (s : bytes) : bytes := take SURB_ID_SIZE (drop HoprPseudonym_SIZE s).

Section Sequence.
Context `{!Secp256k1}.

(** The first [n] elements of the infinite sequence. *)
Fixpoint sequence_from {E} (n : nat) (i : Z) (prev : bytes) : outcome E (list bytes) :=
  match n with
  | O => Ok []
  | S n =>
      next ← from_pseudonym_and_id (HoprSenderId_pseudonym prev)
               (take SURB_ID_SIZE (Hash_create [to_be 4 i; prev]));
      rest ← sequence_from n (i + 1) next;
      Ok (prev :: rest)
  end.

Definition into_sequence {E} (n : nat) (s : bytes) : outcome E (list bytes) := sequence_from n 1 s.
End Sequence.

(** ** The HOPR header specification ([lib.rs]) *)
Definition PAYLOAD_SIZE_INT : nat := 1000.

Section Hopr.
Context `{!Secp256k1} `{Kdf} `{!Curve25519} (poly1305 : UniversalHash).

#[export] Instance HoprSphinxHeaderSpec : SphinxHeaderSpec := {|
  MAX_HOPS := Z.to_nat (INTERMEDIATE_HOPS + 1);
  KEY_ID_SIZE := 4;
  Pseudonym_SIZE := HoprPseudonym_SIZE;
  RELAYER_DATA_SIZE := ProofOfRelayString_SIZE;
  RECEIVER_DATA_SIZE := HoprSenderId_SIZE;
  SURB_RECEIVER_DATA_SIZE := SurbReceiverInfo_SIZE;
  spec_PRG := chacha20;
  spec_UH := poly1305
|}.

Definition HoprSurb_SIZE : nat := SURB_SIZE.
Definition HOPR_PAYLOAD_SIZE : nat := PAYLOAD_SIZE_INT - MESSAGE_HEADER_LEN.
Definition MAX_SURBS_IN_PACKET : nat := HOPR_PAYLOAD_SIZE `div` HoprSurb_SIZE.
Definition PACKET_LEN : nat := 32 + RoutingInfo_SIZE + PaddedPayload_SIZE PAYLOAD_SIZE_INT.
Definition HoprPacket_SIZE : nat := PACKET_LEN + TICKET_SIZE.

Definition max_surbs_with_message (msg_len : nat) : nat := (HOPR_PAYLOAD_SIZE - msg_len) `div` HoprSurb_SIZE.
Definition max_message_with_surbs (num_surbs : nat) : nat := HOPR_PAYLOAD_SIZE - num_surbs * HoprSurb_SIZE.

Context `{!KeyIdMapper}.

(** ** Outgoing packets *)
Inductive PacketRouting :=
| RouteForward (forward_path : list OffchainPublicKey) (return_paths : list (list OffchainPublicKey))
| RouteSurb (id : bytes) (surb : SURB)
| RouteNoAck (destination : OffchainPublicKey).

Record PartialHoprPacket := mkPartialHopr {
  ph_partial_packet : PartialPacket;
  ph_surbs : list SURB;
  ph_openers : list (bytes * ReplyOpener);
  ph_ticket : Ticket;
  ph_next_hop : OffchainPublicKey;
  ph_ack_challenge : HalfKeyChallenge
}.

(** What is drawn at random for a path: the scalar of the shared keys, the
    secret that ends the proof-of-relay chain, the key of a reply block and
    the padding of the header. *)
Record draws := mkDraws { dr_scalar : dalek_scalar; dr_por : bytes; dr_key : bytes; dr_padding : bytes }.

Definition create_surb_for_path (dr : draws) (return_path : list OffchainPublicKey) (recv_data : bytes) :
    outcome PacketError (SURB * (bytes * ReplyOpener)) :=
  shared_keys ← map_err CryptographicError (new_shared_keys (dr_scalar dr) return_path);
  '(por_strings, por_values) ← generate_proof_of_relay (dr_por dr) (sk_secrets shared_keys);
  ids ← mapM (λ k, ok_or (map_key_to_id k) (PacketConstructionError "failed to map key to id")) return_path;
  '(s, r) ← map_err CryptographicError
    (create_surb (dr_key dr) (dr_padding dr) shared_keys ids por_strings recv_data
       (SurbReceiverInfo_new por_values (replicate 32 0)));
  Ok (s, (HoprSenderId_surb_id recv_data, r)).

Definition issue_ticket (ticket : TicketBuilder) (challenge : EthereumChallenge) (chain_keypair : ChainKeypair)
    (domain_separator : Hash) : outcome PacketError Ticket :=
  vt ← map_err PacketCoreTypesError (build_signed (set_challenge challenge ticket) chain_keypair domain_separator);
  Ok (leak vt).

(** [dr] and [sender_random] are drawn for the forward path, [dr_return i] for
    the [i]-th return path. *)
Definition PartialHoprPacket_new (dr : draws) (sender_random : bytes) (dr_return : nat → draws)
    (pseudonym : HoprPseudonym) (routing : PacketRouting) (chain_keypair : ChainKeypair)
    (ticket : TicketBuilder) (domain_separator : Hash) : outcome PacketError PartialHoprPacket :=
  match routing with
  | RouteForward forward_path return_paths =>
      shared_keys ← map_err CryptographicError (new_shared_keys (dr_scalar dr) forward_path);
      '(por_strings, por_values) ← generate_proof_of_relay (dr_por dr) (sk_secrets shared_keys);
      receiver_data ← HoprSenderId_new sender_random pseudonym;
      ids ← into_sequence (length return_paths) receiver_data;
      pairs ← mapM (λ '(i, (rp, data)), create_surb_for_path (dr_return i) rp data)
                (imap pair (zip return_paths ids));
      challenge ← ticket_challenge por_values;
      ticket ← issue_ticket ticket challenge chain_keypair domain_separator;
      partial_packet ← map_err PacketSphinxError (PartialPacket_new (dr_padding dr)
        (ForwardPath shared_keys forward_path por_strings receiver_data false));
      next_hop ← unwrap_option (hd_error forward_path);
      ack_challenge ← acknowledgement_challenge por_values;
      Ok (mkPartialHopr partial_packet (map fst pairs) (map snd pairs) ticket next_hop ack_challenge)
  | RouteSurb id surb =>
      por_values ← proof_of_relay_values (additional_data_receiver surb);
      challenge ← ticket_challenge por_values;
      ticket ← issue_ticket ticket challenge chain_keypair domain_separator;
      next_hop ← ok_or (map_id_to_public (first_relayer surb))
        (PacketConstructionError "failed to map key id to public key");
      ack_challenge ← acknowledgement_challenge por_values;
      receiver_data ← from_pseudonym_and_id pseudonym id;
      partial_packet ← map_err PacketSphinxError (PartialPacket_new (dr_padding dr) (ViaSurb surb receiver_data));
      Ok (mkPartialHopr partial_packet [] [] ticket next_hop ack_challenge)
  | RouteNoAck destination =>
      shared_keys ← map_err CryptographicError (new_shared_keys (dr_scalar dr) [destination]);
      '(por_strings, por_values) ← generate_proof_of_relay (dr_por dr) (sk_secrets shared_keys);
      challenge ← ticket_challenge por_values;
      ticket ← issue_ticket ticket challenge chain_keypair domain_separator;
      receiver_data ← HoprSenderId_new sender_random pseudonym;
      partial_packet ← map_err PacketSphinxError (PartialPacket_new (dr_padding dr)
        (ForwardPath shared_keys [destination] por_strings receiver_data true));
      ack_challenge ← acknowledgement_challenge por_values;
      Ok (mkPartialHopr partial_packet [] [] ticket destination ack_challenge)
  end.

Record HoprOutgoingPacket := mkOutgoing {
  out_packet : bytes;
  out_ticket : Ticket;
  out_next_hop : OffchainPublicKey;
  out_ack_challenge : HalfKeyChallenge
}.

Record HoprIncomingPacket := mkIncoming {
  in_packet_tag : bytes;
  in_ack_key : option HalfKey;
  in_previous_hop : OffchainPublicKey;
  in_plain_text : bytes;
  in_sender : HoprPseudonym;
  in_surbs : list (bytes * SURB)
}.

Record HoprForwardedPacket := mkForwarded {
  fwd_outgoing : HoprOutgoingPacket;
  fwd_packet_tag : bytes;
  fwd_ack_key : HalfKey;
  fwd_previous_hop : OffchainPublicKey;
  fwd_own_key : HalfKey;
  fwd_next_challenge : EthereumChallenge;
  fwd_path_pos : Z
}.

Inductive HoprPacket :=
| HoprFinal (p : HoprIncomingPacket)
| HoprForwarded (p : HoprForwardedPacket)
| HoprOutgoing (p : HoprOutgoingPacket).

Definition into_hopr_packet (p : PartialHoprPacket) (msg : bytes) :
    outcome PacketError (HoprPacket * list (bytes * ReplyOpener)) :=
  msg ← map_err PacketSphinxError (from_parts PAYLOAD_SIZE_INT (ph_surbs p) msg);
  packet ← map_err PacketSphinxError (into_meta_packet PAYLOAD_SIZE_INT (ph_partial_packet p) msg);
  Ok (HoprOutgoing (mkOutgoing packet (ph_ticket p) (ph_next_hop p) (ph_ack_challenge p)), ph_openers p).

Definition into_outgoing (dr : draws) (sender_random : bytes) (dr_return : nat → draws) (msg : bytes)
    (pseudonym : HoprPseudonym) (routing : PacketRouting) (chain_keypair : ChainKeypair)
    (ticket : TicketBuilder) (domain_separator : Hash) :
    outcome PacketError (HoprPacket * list (bytes * ReplyOpener)) :=
  p ← PartialHoprPacket_new dr sender_random dr_return pseudonym routing chain_keypair ticket domain_separator;
  into_hopr_packet p msg.

(** ** Incoming packets *)
Definition from_incoming (data : bytes) (node_keypair : OffchainKeypair) (previous_hop : OffchainPublicKey)
    (reply_openers : bytes → option ReplyOpener) : outcome PacketError HoprPacket :=
  if bool_decide (length data = HoprPacket_SIZE) then
    let '(pre_packet, pre_ticket) := (take PACKET_LEN data, drop PACKET_LEN data) in
    mp ← map_err PacketOther (MetaPacket_try_from PAYLOAD_SIZE_INT pre_packet);
    fwd ← map_err PacketSphinxError (into_forwarded PAYLOAD_SIZE_INT (node_keypair : keypair) reply_openers mp);
    match fwd with
    | Relayed packet next_node path_pos additional_info derived_secret packet_tag =>
        ack_key ← derive_ack_key_share derived_secret;
        ticket ← map_err PacketOther (Ticket_try_from pre_ticket);
        verification_output ← pre_verify derived_secret additional_info (t_challenge ticket);
        Ok (HoprForwarded (mkForwarded
          (mkOutgoing packet ticket next_node (po_ack_challenge verification_output))
          packet_tag ack_key previous_hop (po_own_key verification_output)
          (po_next_ticket_challenge verification_output) path_pos))
    | Final plain_text receiver_data derived_secret packet_tag no_ack =>
        '(surbs, plain_text) ← map_err PacketSphinxError (try_into_parts plain_text);
        ack_key ← derive_ack_key_share derived_secret;
        ids ← into_sequence (length surbs) receiver_data;
        Ok (HoprFinal (mkIncoming packet_tag (if (no_ack : bool) then None else Some ack_key) previous_hop
          plain_text (HoprSenderId_pseudonym receiver_data)
          (zip (map HoprSenderId_surb_id ids) surbs)))
    end
  else Err (PacketDecodingError "packet has invalid size").

End Hopr.
