(* ===== verification/PacketSpec.v ===== *)
(** * HOPR packets: messages, capacity and the way through the network

    The packet message round-trips and its capacity is what the size functions
    say; a packet for a path passes every relayer with a checked proof of relay
    and arrives with its message and usable reply blocks. *)
From S2P Require Import Prelude Primitives Crypto Channels Tickets SharedKeys Sphinx SphinxSpec.
From S2P Require Import MetaPacket MetaPacketSpec Por Packet.

(** ** Messages *)
Section Message.
Context `{!SphinxSuite} `{!SphinxHeaderSpec} (P : nat).

Lemma mapM_into_boxed surbs :
  Forall surb_wf surbs → mapM SURB_into_boxed surbs = Ok (surb_bytes <$> surbs).
Proof.
  induction 1 as [|s surbs Hs _ IH]; [done|].
  cbn [mapM]. rewrite (SURB_into_boxed_ok s Hs). cbn [mbind outcome_bind]. by rewrite IH.
Qed.

Lemma mapM_SURB_try_from surbs :
  Forall surb_wf surbs → mapM SURB_try_from (surb_bytes <$> surbs) = Ok surbs.
Proof.
  induction 1 as [|s surbs Hs _ IH]; [done|].
  cbn [mapM fmap list_fmap]. rewrite (SURB_try_from_bytes s Hs). cbn [mbind outcome_bind]. by rewrite IH.
Qed.

Lemma length_concat_surbs surbs :
  Forall surb_wf surbs → length (concat (surb_bytes <$> surbs)) = (length surbs * SURB_SIZE)%nat.
Proof.
  induction 1 as [|s surbs Hs _ IH]; [done|].
  cbn [concat fmap list_fmap]. rewrite length_app, IH, (length_surb_bytes s Hs). done.
Qed.

Lemma chunks_exact_surbs surbs :
  (0 < SURB_SIZE)%nat → Forall surb_wf surbs →
  chunks_exact SURB_SIZE (concat (surb_bytes <$> surbs)) = surb_bytes <$> surbs.
Proof.
  intros Hpos Hwf. rewrite <-(app_nil_r (concat _)), chunks_exact_concat.
  - by rewrite app_nil_r.
  - done.
  - apply Forall_fmap. eapply Forall_impl; [exact Hwf|]. apply length_surb_bytes.
Qed.

Lemma try_into_parts_message surbs payload :
  (0 < SURB_SIZE)%nat → Forall surb_wf surbs → (length surbs ≤ 255)%nat →
  try_into_parts (padded P (wrap 8 (Z.of_nat (length surbs)) :: concat (surb_bytes <$> surbs) ++ payload)) =
    Ok (surbs, payload).
Proof.
  intros Hpos Hwf Hn. unfold try_into_parts. rewrite into_unpadded_padded. cbn [mbind outcome_bind].
  rewrite wrap_small by (unfold in_u; lia).
  change ((?x :: ?l) !! 0%nat) with (Some x). cbn [unwrap_option mbind outcome_bind].
  rewrite Nat2Z.id. pose proof (length_concat_surbs surbs Hwf) as Hlc. case_bool_decide as Hz.
  - rewrite bool_decide_eq_false_2 by lens. cbn [take drop]. rewrite ?drop_0.
    rewrite take_app_length', drop_app_length' by done. rewrite chunks_exact_surbs by done.
    by rewrite mapM_SURB_try_from.
  - destruct surbs; [done|cbn in Hz; lia].
Qed.

Definition fits (n len : nat) : Prop :=
  (n ≤ 255 ∧ MESSAGE_HEADER_LEN + n * SURB_SIZE + len ≤ P)%nat.

Lemma from_parts_cases surbs payload :
  Forall surb_wf surbs →
  (fits (length surbs) (length payload) ∧ from_parts P surbs payload =
     Ok (padded P (wrap 8 (Z.of_nat (length surbs)) :: concat (surb_bytes <$> surbs) ++ payload))) ∨
  (¬ fits (length surbs) (length payload) ∧ ∃ e, from_parts P surbs payload = Err e).
Proof.
  intros Hwf. unfold from_parts, fits.
  case_bool_decide as Hn; [right; split; [lia|by eexists]|].
  case_bool_decide as Hl; [right; split; [lia|by eexists]|]. left. split; [lia|].
  rewrite mapM_into_boxed by done. cbn [mbind outcome_bind].
  pose proof (length_concat_surbs surbs Hwf) as Hlc.
  unfold MESSAGE_HEADER_LEN in Hl. by rewrite PaddedPayload_new_from_vec_ok by lens.
Qed.

(** The message of a packet round-trips: any reply blocks (at most 255) and
    payload that fit make a padded payload of the fixed size, from which the
    receiver gets back the same blocks in the same order and the same payload;
    what does not fit is refused with an error. *)
Theorem message_roundtrip (surbs : list SURB) (payload : bytes) :
  (0 < SURB_SIZE)%nat → Forall surb_wf surbs →
  (fits (length surbs) (length payload) ∧
    ∃ m, from_parts P surbs payload = Ok m ∧ length m = PaddedPayload_SIZE P ∧
      try_into_parts m = Ok (surbs, payload)) ∨
  (¬ fits (length surbs) (length payload) ∧ ∃ e, from_parts P surbs payload = Err e).
Proof.
  intros Hpos Hwf. destruct (from_parts_cases surbs payload Hwf) as [[Hf ->]|Herr]; [left|by right].
  split; [done|]. destruct Hf as [Hn Hl]. pose proof (length_concat_surbs surbs Hwf) as Hlc.
  unfold MESSAGE_HEADER_LEN in Hl.
  eexists. split; [done|]. split; [apply length_padded; lens|]. by apply try_into_parts_message.
Qed.

(** The receiver's parser aborts on exactly one kind of message: one that is
    empty after unpadding, whose first byte it reads without a check.  Every
    other payload, whatever its bytes, gives parts or an error. *)
Theorem try_into_parts_panics_iff (m : bytes) :
  (0 < SURB_SIZE)%nat → try_into_parts m = Panic ↔ into_unpadded m = Ok [].
Proof.
  intros Hpos. unfold try_into_parts.
  destruct (into_unpadded m) as [data|e|] eqn:Hu; cbn [mbind outcome_bind];
    [|done|unfold into_unpadded in Hu; by repeat case_match].
  destruct data as [|b data]; [done|]. change ((b :: data) !! 0%nat) with (Some b).
  cbn [unwrap_option mbind outcome_bind].
  split; [|done]. intros Hp. exfalso. revert Hp.
  case_bool_decide; [|done]. case_bool_decide; [done|].
  enough (∀ l, Forall (λ c, length c = SURB_SIZE) l → ∃ surbs, mapM SURB_try_from l = Ok surbs) as Hm.
  { destruct (Hm (chunks_exact SURB_SIZE (drop 1 (take (S (Z.to_nat b * SURB_SIZE)) (b :: data))))) as (surbs & ->);
      [|done]. apply Forall_forall. intros c Hc. by apply chunks_exact_elem in Hc as [? _]. }
  induction 1 as [|c l Hc _ (surbs & IH)]; [by eexists|].
  apply SURB_try_from_total in Hc as (s & Hs & ->).
  cbn [mapM]. rewrite (SURB_try_from_bytes s Hs). cbn [mbind outcome_bind]. rewrite IH. by eexists.
Qed.
End Message.

(** ** The network *)
Section Hopr.
Context `{!Secp256k1, !Secp256k1Laws} `{KdfLaws} `{!Curve25519, !Curve25519Laws}.
Context (poly1305 : UniversalHash) `{!@UniversalHashLaws poly1305}.
#[local] Set Default Proof Using "Type*".

Lemma hopr_spec_wf : @spec_wf (HoprSphinxHeaderSpec poly1305).
Proof.
  unfold spec_wf, ROUTING_INFO_LEN. cbn [MAX_HOPS Pseudonym_SIZE RECEIVER_DATA_SIZE KEY_ID_SIZE HoprSphinxHeaderSpec].
  unfold HoprSenderId_SIZE, HoprPseudonym_SIZE, SURB_ID_SIZE, HeaderPrefix_SIZE, INTERMEDIATE_HOPS.
  cbn. unfold ProofOfRelayString_SIZE, EthereumChallenge_SIZE, SIZE_COMPRESSED. lia.
Qed.

Lemma surb_size_ge : (138 ≤ @SURB_SIZE _ (HoprSphinxHeaderSpec poly1305))%nat.
Proof.
  unfold SURB_SIZE. cbn [KEY_ID_SIZE HoprSphinxHeaderSpec AlphaLen X25519Suite SURB_RECEIVER_DATA_SIZE].
  unfold SecretKey16_LENGTH, SurbReceiverInfo_SIZE, ProofOfRelayValues_SIZE, SIZE_COMPRESSED, EthereumChallenge_SIZE.
  lia.
Qed.

(** The capacity functions are exact: a packet with [n] reply blocks and a
    message is accepted exactly when [n] is at most [max_surbs_with_message] of
    the message, which is at most the payload size; and exactly when the
    message is at most [max_message_with_surbs n] bytes and [n] at most
    [MAX_SURBS_IN_PACKET]. *)
Theorem capacity_exact (surbs : list SURB) (msg : bytes) :
  Forall surb_wf surbs →
  ((∃ m, from_parts PAYLOAD_SIZE_INT surbs msg = Ok m) ↔
    (length surbs ≤ max_surbs_with_message poly1305 (length msg))%nat ∧ (length msg ≤ HOPR_PAYLOAD_SIZE)%nat) ∧
  ((∃ m, from_parts PAYLOAD_SIZE_INT surbs msg = Ok m) ↔
    (length msg ≤ max_message_with_surbs poly1305 (length surbs))%nat ∧
    (length surbs ≤ MAX_SURBS_IN_PACKET poly1305)%nat).
Proof.
  intros Hwf. pose proof surb_size_ge as Hs.
  assert ((∃ m, from_parts PAYLOAD_SIZE_INT surbs msg = Ok m) ↔
    (length surbs * SURB_SIZE + length msg ≤ HOPR_PAYLOAD_SIZE)%nat) as ->.
  { destruct (from_parts_cases PAYLOAD_SIZE_INT surbs msg Hwf) as [[[Hn Hl] ->]|[Hnf [e ->]]];
      unfold fits, MESSAGE_HEADER_LEN, HOPR_PAYLOAD_SIZE, PAYLOAD_SIZE_INT, MESSAGE_HEADER_LEN in *.
    - split; [intros _; lia|intros _; by eexists].
    - split; [by intros [? ?]|]. intros Hle. exfalso. apply Hnf. split; [nia|lia]. }
  unfold max_surbs_with_message, max_message_with_surbs, MAX_SURBS_IN_PACKET, HoprSurb_SIZE.
  set (S0 := SURB_SIZE) in *. split; split.
  - intros Hle. split; [|lia]. apply Nat.div_le_lower_bound; lia.
  - intros [Hle Hm]. pose proof (Nat.div_mod (HOPR_PAYLOAD_SIZE - length msg) S0 ltac:(lia)). nia.
  - intros Hle. split; [lia|]. apply Nat.div_le_lower_bound; lia.
  - intros [Hm Hle]. pose proof (Nat.div_mod HOPR_PAYLOAD_SIZE S0 ltac:(lia)).
    assert (length surbs * S0 ≤ HOPR_PAYLOAD_SIZE)%nat by nia. lia.
Qed.

(** *** From node to node *)
Context `{!KeyIdMapper} (openers : OffchainKeypair → bytes → option ReplyOpener).

(** A packet passes the nodes with whatever tickets carry the challenge that
    the previous node was told: each relayer accepts it, learns the next node
    and the next challenge, and holds an own key that the next node's
    acknowledgement completes; the last node gets the message, the pseudonym and
    the reply blocks under their identifiers.  [ack] is the acknowledgement key
    of the first node of the list. *)
Inductive hopr_travels (msg : bytes) (pseudonym : HoprPseudonym) (surbs : list (bytes * SURB)) (no_ack : bool) :
    list OffchainKeypair → bytes → EthereumChallenge → HalfKey → Prop :=
| hopr_last kp packet tc ack tag :
    (∀ prev pre_ticket, length pre_ticket = TICKET_SIZE →
      from_incoming poly1305 (packet ++ pre_ticket) kp prev (openers kp) =
        Ok (HoprFinal (mkIncoming tag (if no_ack then None else Some ack) prev msg pseudonym surbs))) →
    hopr_travels msg pseudonym surbs no_ack [kp] packet tc ack
| hopr_relay kp next nodes packet tc ack packet' tag own next_tc ack_challenge next_ack :
    (∀ prev pre_ticket t, Ticket_try_from pre_ticket = Ok t → t_challenge t = tc →
      from_incoming poly1305 (packet ++ pre_ticket) kp prev (openers kp) =
        Ok (HoprForwarded (mkForwarded (mkOutgoing packet' t (ok_public next) ack_challenge) tag ack prev own
          next_tc (Z.of_nat (S (length nodes)))))) →
    HalfKey_to_challenge next_ack = Ok ack_challenge →
    (∀ vt, t_challenge (verified_ticket vt) = tc →
      ∃ r, acknowledge (into_unacknowledged vt own) next_ack = Ok (into_acknowledged vt r)) →
    hopr_travels msg pseudonym surbs no_ack (next :: nodes) packet' next_tc next_ack →
    hopr_travels msg pseudonym surbs no_ack (kp :: next :: nodes) packet tc ack.

Lemma from_incoming_split packet pre_ticket kp prev ops :
  length packet = @MetaPacket_SIZE X25519Suite (HoprSphinxHeaderSpec poly1305) PAYLOAD_SIZE_INT →
  length pre_ticket = TICKET_SIZE →
  from_incoming poly1305 (packet ++ pre_ticket) kp prev ops =
    (fwd ← map_err PacketSphinxError (into_forwarded PAYLOAD_SIZE_INT (kp : keypair) ops packet);
     match fwd with
     | Relayed packet next_node path_pos additional_info derived_secret packet_tag =>
        ack_key ← derive_ack_key_share derived_secret;
        ticket ← map_err PacketOther (Ticket_try_from pre_ticket);
        verification_output ← pre_verify derived_secret additional_info (t_challenge ticket);
        Ok (HoprForwarded (mkForwarded
          (mkOutgoing packet ticket next_node (po_ack_challenge verification_output))
          packet_tag ack_key prev (po_own_key verification_output)
          (po_next_ticket_challenge verification_output) path_pos))
     | Final plain_text receiver_data derived_secret packet_tag no_ack =>
        '(surbs, plain_text) ← map_err PacketSphinxError (try_into_parts plain_text);
        ack_key ← derive_ack_key_share derived_secret;
        ids ← into_sequence (length surbs) receiver_data;
        Ok (HoprFinal (mkIncoming packet_tag (if (no_ack : bool) then None else Some ack_key) prev
          plain_text (HoprSenderId_pseudonym receiver_data) (zip (map HoprSenderId_surb_id ids) surbs)))
     end).
Proof.
  intros Hp Ht. unfold from_incoming, HoprPacket_SIZE.
  assert (@MetaPacket_SIZE X25519Suite (HoprSphinxHeaderSpec poly1305) PAYLOAD_SIZE_INT = PACKET_LEN poly1305)
    as Hsz by done.
  rewrite Hsz in Hp. rewrite bool_decide_eq_true_2 by lens.
  rewrite take_app_length', drop_app_length' by done.
  unfold MetaPacket_try_from. rewrite (proj2 (array_try_from_ok _ _ packet)) by (by rewrite Hsz).
  done.
Qed.

Lemma Ticket_try_from_length b t : Ticket_try_from b = Ok t → length b = TICKET_SIZE.
Proof. unfold Ticket_try_from. by case_bool_decide. Qed.

Lemma travels_hopr plain receiver_data no_ack nodes secrets strings packet tc ack surbs msg ids :
  travels PAYLOAD_SIZE_INT openers plain receiver_data no_ack nodes secrets strings packet →
  length packet = @MetaPacket_SIZE X25519Suite (HoprSphinxHeaderSpec poly1305) PAYLOAD_SIZE_INT →
  relayers_paid secrets strings tc → derive_ack_key_share (hd [] secrets) = Ok ack →
  try_into_parts plain = Ok (surbs, msg) →
  into_sequence (E:=PacketError) (length surbs) receiver_data = Ok ids →
  hopr_travels msg (HoprSenderId_pseudonym receiver_data) (zip (map HoprSenderId_surb_id ids) surbs) no_ack
    nodes packet tc ack.
Proof.
  intros Htr Hlen Hpaid Hack Hparts Hids. revert tc ack Hlen Hpaid Hack.
  induction Htr as [kp secret tag packet Hfwd Htag|kp next nodes secret secrets d datas packet packet' tag
    Hfwd Htag Hlen' Htr IH]; intros tc ack Hlen Hpaid Hack.
  - apply (hopr_last _ _ _ _ _ _ _ _ tag). intros prev pre_ticket Hpt.
    rewrite from_incoming_split, Hfwd by done. cbn [map_err mbind outcome_bind].
    rewrite Hparts. cbn [map_err mbind outcome_bind]. cbn [hd] in Hack. rewrite Hack. cbn [mbind outcome_bind].
    by rewrite Hids.
  - destruct secrets as [|s2 secrets]; [done|].
    destruct Hpaid as (out & ack2 & Hpre & Hack2 & Hch & Hackn & Hpaid).
    eapply (hopr_relay _ _ _ _ _ _ _ _ _ _ packet' tag (po_own_key out) (po_next_ticket_challenge out)
      (po_ack_challenge out) ack2); [|exact Hch|exact Hackn|by apply IH].
    intros prev pre_ticket t Ht <-.
    rewrite from_incoming_split by (done || by eapply Ticket_try_from_length). rewrite Hfwd.
    cbn [map_err mbind outcome_bind]. cbn [hd] in Hack. rewrite Hack. cbn [mbind outcome_bind].
    rewrite Ht. cbn [map_err mbind outcome_bind]. by rewrite Hpre.
Qed.

(** *** The sender *)

Lemma issue_ticket_challenge b challenge kp ds t :
  issue_ticket b challenge kp ds = Ok t → t_challenge t = challenge.
Proof.
  unfold issue_ticket, build_signed. intros (vt & Hb%map_err_Ok & [= <-])%bind_Ok.
  cbn [b_signature set_challenge] in Hb. destruct (b_signature b); [done|].
  apply bind_Ok in Hb as (t & Ht & Hs). unfold sign in Hs.
  apply bind_Ok in Hs as (sig & _ & [= <-]). cbn.
  unfold build in Ht. apply bind_Ok in Ht as (amt & _ & Ht).
  do 3 (case_match; [done|]). apply bind_Ok in Ht as (cid & _ & Ht).
  apply bind_Ok in Ht as (ch & Hch & [= <-]). cbn in Hch. by injection Hch.
Qed.

Lemma length_expected_strings random path final :
  path_ok random path final →
  length (expected_strings path final) = length path ∧
  Forall (λ d, length d = ProofOfRelayString_SIZE) (expected_strings path final).
Proof.
  induction path as [|[s [[[own ack] so] sa]] rest IH]; [done|].
  intros ((_ & _ & Hack & Hsa) & _ & Hrest). destruct (IH Hrest) as [Hl Hf].
  cbn [expected_strings length]. rewrite Hl. split; [done|]. constructor; [|done].
  unfold ProofOfRelayString_new. rewrite length_app, length_hop_challenge, (length_ack_point ack) by done. done.
Qed.

(** The part of the sender's work that all routes along explicit nodes share:
    shared keys whose proof-of-relay shares are usable, with [shares] and
    [final] naming them. *)
Definition usable_shares (random : bytes) (secrets : list bytes)
    (shares : list (HalfKey * HalfKey * Z * Z)) (final : HalfKey * HalfKey * Z * Z) : Prop :=
  length shares = length secrets ∧ path_ok random (zip secrets shares) final.

Lemma usable_shares_pay random secrets shares final strings values :
  secrets ≠ [] → usable_shares random secrets shares final →
  generate_proof_of_relay random secrets = Ok (strings, values) →
  ∃ tc ack, ticket_challenge (E:=PacketError) values = Ok tc ∧
    (∃ ch, acknowledgement_challenge (E:=PacketError) values = Ok ch ∧ HalfKey_to_challenge ack = Ok ch) ∧
    derive_ack_key_share (hd [] secrets) = Ok ack ∧
    length strings = (length secrets - 1)%nat ∧
    Forall (λ d, length d = ProofOfRelayString_SIZE) strings ∧ relayers_paid secrets strings tc ∧
    length values = ProofOfRelayValues_SIZE.
Proof.
  intros Hne [Hl Hok] Hgen. destruct secrets as [|s secrets]; [done|].
  destruct shares as [|[[[own ack] so] sa] shares]; [done|]. cbn [zip_with] in Hok.
  assert (map fst (zip secrets shares) = secrets) as Hmap.
  { injection Hl as Hl. clear -Hl. revert shares Hl. induction secrets as [|x l IH]; intros [|y l'] Hl; try done.
    cbn. f_equal. apply IH. by injection Hl. }
  pose proof (generate_chain random s own ack so sa (zip secrets shares) final Hok) as Hg.
  rewrite Hmap, Hgen in Hg. injection Hg as -> ->.
  pose proof Hok as ((_ & _ & Hack & Hsa) & _ & Hrest).
  set (tc := hop_challenge so _).
  destruct (ProofOfRelayValues_parts (E:=PacketError) (wrap 8 (Z.of_nat (S (length (zip secrets shares)))))
    (ack_point sa) tc (length_ack_point ack sa Hsa) (length_hop_challenge _ _)) as (_ & Hach & Htc).
  destruct (length_expected_strings random _ final Hrest) as [Hles Hfes].
  exists tc, ack. split_and!; try done.
  - exists (ack_point sa). split; [done|]. exact (half_key_challenge ack sa Hsa).
  - rewrite Hles, length_zip. cbn in *. lia.
  - pose proof (relayers_paid_expected random s own ack so sa (zip secrets shares) final Hok) as Hp.
    by rewrite Hmap in Hp.
  - unfold ProofOfRelayValues_new, ProofOfRelayValues_SIZE. cbn [length].
    rewrite length_app, (length_ack_point ack) by done. unfold tc. by rewrite length_hop_challenge.
Qed.

Lemma HoprSenderId_new_ok {E} random pseudonym :
  length random = HoprSenderId_SIZE → length pseudonym = HoprPseudonym_SIZE →
  ∃ r, HoprSenderId_new (E:=E) random pseudonym = Ok r ∧ length r = HoprSenderId_SIZE ∧
    HoprSenderId_pseudonym r = pseudonym.
Proof.
  intros Hr Hp. unfold HoprSenderId_new.
  apply (cut random HoprPseudonym_SIZE SURB_ID_SIZE) in Hr as (a & b & -> & Ha & Hb).
  rewrite <-(app_nil_l (a ++ b)), copy_from_slice_ok by lens. rewrite app_nil_l.
  eexists. split; [done|]. unfold HoprSenderId_SIZE, HoprSenderId_pseudonym. split; [lens|].
  by apply take_app_length'.
Qed.

Lemma sequence_from_length {E} n i s l :
  sequence_from (E:=E) n i s = Ok l → length l = n.
Proof.
  revert i s l. induction n as [|n IH]; intros i s l Hs; cbn [sequence_from] in Hs; [by injection Hs as <-|].
  apply bind_Ok in Hs as (next & _ & (rest & Hr & [= <-])%bind_Ok). cbn. f_equal. by eapply IH.
Qed.

(** The sender keeps the opener of each reply block under the identifier that
    the receiver will file the block under. *)
Lemma surb_ids_agree dr_return returns (ids : list bytes) pairs :
  length ids = length returns →
  mapM (λ '(i, (rp, data)), create_surb_for_path poly1305 (dr_return i) rp data)
    (imap pair (zip returns ids)) = Ok pairs →
  map fst (map snd pairs) = map HoprSenderId_surb_id ids ∧ length pairs = length ids.
Proof.
  intros Hl Hp. apply mapM_Ok in Hp.
  assert (∀ n, Forall2 (λ x y, (let '(i, (rp, data)) := x in create_surb_for_path poly1305 (dr_return i) rp data) = Ok y)
    (imap (λ i, pair (n + i)%nat) (zip returns ids)) pairs →
    map fst (map snd pairs) = map HoprSenderId_surb_id ids ∧ length pairs = length ids) as Hgen; [|by apply (Hgen 0%nat)].
  clear Hp. revert returns pairs Hl.
  induction ids as [|id ids IH]; intros [|rp returns] pairs Hl n Hf; try done.
  { by apply Forall2_nil_inv_l in Hf as ->. }
  cbn [zip_with imap] in Hf. apply Forall2_cons_inv_l in Hf as (pr & pairs' & Hpr & Hf & ->).
  rewrite (imap_ext _ (λ i, pair (S n + i)%nat)) in Hf by (intros; cbn; by rewrite Nat.add_succ_r).
  destruct (IH returns pairs' ltac:(by injection Hl) (S n) Hf) as [IHf IHl].
  cbn [map length]. rewrite IHf, IHl. split; [|done]. f_equal.
  unfold create_surb_for_path in Hpr.
  apply bind_Ok in Hpr as (sk & _ & ([strs vals] & _ & (l & _ & ([s r] & _ & [= <-])%bind_Ok)%bind_Ok)%bind_Ok).
  done.
Qed.

(** Nodes that packets can be made for. *)
Definition known_nodes (nodes : list OffchainKeypair) : Prop :=
  Forall (@keypair_wf X25519Suite) nodes ∧ (0 < length nodes ≤ 4)%nat ∧
  Forall (λ kp, ∃ id, map_key_to_id (ok_public kp) = Some id ∧ length id = 4%nat ∧
    map_id_to_public id = Some (ok_public kp)) nodes.

Lemma forward_hopr_travels nodes x random sk strings values shares final por_random receiver_data no_ack tc
    surbs msg payload pp packet ids :
  known_nodes nodes → length receiver_data = HoprSenderId_SIZE →
  ((4 - length nodes) * @ROUTING_INFO_LEN (HoprSphinxHeaderSpec poly1305) ≤ length random)%nat →
  new_shared_keys x (ok_public <$> nodes) = Ok sk → usable_shares por_random (sk_secrets sk) shares final →
  generate_proof_of_relay por_random (sk_secrets sk) = Ok (strings, values) →
  ticket_challenge (E:=PacketError) values = Ok tc →
  Forall surb_wf surbs → from_parts PAYLOAD_SIZE_INT surbs msg = Ok payload →
  PartialPacket_new random (ForwardPath sk (ok_public <$> nodes) strings receiver_data no_ack) = Ok pp →
  into_meta_packet PAYLOAD_SIZE_INT pp payload = Ok packet →
  into_sequence (E:=PacketError) (length surbs) receiver_data = Ok ids →
  ∃ ack ch, acknowledgement_challenge (E:=PacketError) values = Ok ch ∧ HalfKey_to_challenge ack = Ok ch ∧
    hopr_travels msg (HoprSenderId_pseudonym receiver_data) (zip (map HoprSenderId_surb_id ids) surbs) no_ack
      nodes packet tc ack.
Proof.
  intros (Hkeys & Hn & Hids) Hrecv Hrand Hsk Hsh Hgen Htc Hsurbs Hparts Hpp Hpkt Hseq.
  destruct (new_shared_keys_derives x nodes sk Hkeys Hsk) as (Hd & _ & _).
  pose proof (derives_length _ _ _ Hd) as Hlen.
  assert (sk_secrets sk ≠ []) as Hne by (intros He; rewrite He in Hlen; cbn in Hlen; lia).
  destruct (usable_shares_pay _ _ _ _ _ _ Hne Hsh Hgen)
    as (tc' & ack & Htc' & (ch & Hch & Hack) & Hda & Hls & Hfs & Hpaid & _).
  rewrite Htc in Htc'. injection Htc' as <-.
  destruct (from_parts_cases PAYLOAD_SIZE_INT surbs msg Hsurbs) as [[[Hn255 Hfit] Hm]|[_ [e He]]];
    [|by rewrite Hparts in He].
  rewrite Hparts in Hm. injection Hm as ->.
  pose proof (length_concat_surbs surbs Hsurbs) as Hlc. unfold MESSAGE_HEADER_LEN in Hfit.
  pose proof surb_size_ge as Hss. set (content := _ :: _ ++ msg) in *.
  assert (length content ≤ PAYLOAD_SIZE_INT)%nat as Hcl by (unfold content; lens).
  destruct (forward_packet_travels (H1 := X25519Suite) PAYLOAD_SIZE_INT (openers : @keypair X25519Suite → _) nodes strings receiver_data random
    (padded PAYLOAD_SIZE_INT content) x sk no_ack hopr_spec_wf) as (packet' & Hnew & Hlp & Htr).
  - split; [done|done|done|by rewrite <-Hlen|done|done|exact Hrand].
  - by apply length_padded.
  - done.
  - unfold MetaPacket_new in Hnew. apply bind_Ok in Hnew as (pp' & Hpp' & Hnew).
    assert (Ok (E:=SphinxError) pp = Ok pp') as [= <-] by (rewrite <-Hpp; exact Hpp'). rewrite Hpkt in Hnew. injection Hnew as <-.
    exists ack, ch. split_and!; [done|done|].
    eapply travels_hopr; [exact Htr|exact Hlp|exact Hpaid|exact Hda| |exact Hseq].
    apply try_into_parts_message; [lia|done|done].
Qed.

(** C34. A HOPR packet crosses the network and pays for it.  For a path of known
    nodes whose key shares are usable, the packet goes first to the first node,
    whose acknowledgement key solves the challenge that the sender keeps.  Every
    relayer that receives it with any ticket carrying the challenge promised to
    it accepts the ticket's challenge, learns the next node, its position and
    the challenge to put on the next ticket; the next node's acknowledgement
    opens the challenge it keeps and completes its ticket.  The last node gets
    the message, the sender's pseudonym and the reply blocks, each filed under
    the identifier under which the sender keeps its opener. *)
Theorem outgoing_packet_delivered (nodes : list OffchainKeypair) (dr : draws) (sender_random : bytes)
    (dr_return : nat → draws) (pseudonym : HoprPseudonym) (return_paths : list (list OffchainPublicKey))
    (chain_keypair : ChainKeypair) (ticket : TicketBuilder) (ds : Hash) (msg : bytes)
    (p : PartialHoprPacket) (o : HoprOutgoingPacket) (ops : list (bytes * ReplyOpener))
    (sk : SharedKeys) (shares : list (HalfKey * HalfKey * Z * Z)) (final : HalfKey * HalfKey * Z * Z) :
  known_nodes nodes → length pseudonym = HoprPseudonym_SIZE → length sender_random = HoprSenderId_SIZE →
  ((4 - length nodes) * @ROUTING_INFO_LEN (HoprSphinxHeaderSpec poly1305) ≤ length (dr_padding dr))%nat →
  new_shared_keys (dr_scalar dr) (ok_public <$> nodes) = Ok sk →
  usable_shares (dr_por dr) (sk_secrets sk) shares final →
  PartialHoprPacket_new poly1305 dr sender_random dr_return pseudonym
    (RouteForward (ok_public <$> nodes) return_paths) chain_keypair ticket ds = Ok p →
  Forall surb_wf (ph_surbs p) →
  into_hopr_packet poly1305 p msg = Ok (HoprOutgoing o, ops) →
  Some (out_next_hop o) = head (ok_public <$> nodes) ∧ length ops = length return_paths ∧
  ∃ ack, HalfKey_to_challenge ack = Ok (out_ack_challenge o) ∧
    hopr_travels msg pseudonym (zip (map fst ops) (ph_surbs p)) false nodes (out_packet o)
      (t_challenge (out_ticket o)) ack.
Proof.
  intros Hnodes Hps Hsr Hrand Hsk Hsh Hp Hsurbs Ho.
  destruct (HoprSenderId_new_ok (E:=PacketError) sender_random pseudonym Hsr Hps) as (recv & Hrecv & Hlr & Hpr).
  unfold PartialHoprPacket_new in Hp. rewrite Hsk in Hp. cbn [map_err mbind outcome_bind] in Hp.
  apply bind_Ok in Hp as ([strings values] & Hgen & Hp). rewrite Hrecv in Hp. cbn [mbind outcome_bind] in Hp.
  apply bind_Ok in Hp as (ids & Hids & Hp). apply bind_Ok in Hp as (pairs & Hpairs & Hp).
  apply bind_Ok in Hp as (tc & Htc & Hp). apply bind_Ok in Hp as (t & Ht & Hp).
  apply bind_Ok in Hp as (pp & Hpp%map_err_Ok & Hp). apply bind_Ok in Hp as (nh & Hnh%unwrap_option_Ok & Hp).
  apply bind_Ok in Hp as (ch & Hch & [= <-]). cbn [ph_surbs] in Hsurbs |- *.
  unfold into_hopr_packet in Ho. cbn [ph_surbs ph_partial_packet ph_ticket ph_next_hop ph_ack_challenge ph_openers] in Ho.
  apply bind_Ok in Ho as (payload & Hparts%map_err_Ok & Ho).
  apply bind_Ok in Ho as (packet & Hpkt%map_err_Ok & [= <- <-]). cbn.
  pose proof (sequence_from_length _ _ _ _ Hids) as Hlids.
  destruct (surb_ids_agree dr_return return_paths ids pairs Hlids Hpairs) as [Hmap Hlp].
  split; [|split; [rewrite length_map; lia|]].
  { destruct nodes; [done|]. cbn in *. by injection Hnh as <-. }
  assert (length (map fst pairs) = length return_paths) as Hlsurbs by (rewrite length_map; lia).
  destruct (forward_hopr_travels nodes (dr_scalar dr) (dr_padding dr) sk strings values shares final (dr_por dr)
    recv false tc (map fst pairs) msg payload pp packet ids) as (ack & ch' & Hch' & Hack & Htr); try done.
  { by rewrite Hlsurbs. }
  rewrite Hch in Hch'. injection Hch' as <-. exists ack. split; [done|].
  by rewrite (issue_ticket_challenge _ _ _ _ _ Ht), Hmap, <-Hpr.
Qed.

Lemma mapM_key_ids nodes ids (e : PacketError) :
  mapM (λ k, ok_or (map_key_to_id k) e) (ok_public <$> nodes) = Ok ids →
  path_ids (ok_public <$> nodes) = Ok ids.
Proof.
  intros Hm%mapM_Ok. unfold path_ids. induction Hm as [|k id l l' Hk%ok_or_Ok _ IH]; [done|].
  cbn [mapM]. rewrite Hk. cbn [ok_or mbind outcome_bind]. by rewrite IH.
Qed.

Lemma from_pseudonym_and_id_ok {E} s :
  length s = HoprSenderId_SIZE →
  from_pseudonym_and_id (E:=E) (HoprSenderId_pseudonym s) (HoprSenderId_surb_id s) = Ok s.
Proof.
  intros Hs. apply (cut s HoprPseudonym_SIZE SURB_ID_SIZE) in Hs as (a & b & -> & Ha & Hb).
  unfold from_pseudonym_and_id, HoprSenderId_pseudonym, HoprSenderId_surb_id, HoprSenderId_SIZE.
  rewrite take_app_length', drop_app_length', (take_ge b) by lia.
  rewrite replicate_add, <-(app_nil_l (_ ++ _)), copy_from_slice_ok by lens. cbn [mbind outcome_bind].
  rewrite app_nil_l, <-(app_nil_r (replicate SURB_ID_SIZE 0)), copy_from_slice_ok by lens.
  by rewrite app_nil_r.
Qed.

(** C35. A reply reaches the creator of the reply block.  A block made for a path
    whose last node is its creator is well-formed, and its opener is filed under
    the identifier in its receiver data.  Whoever replies with it under the same
    pseudonym sends a packet to the first node of the path; it crosses the path
    with checked proofs of relay like a packet sent forward, and the creator,
    looking the opener up by the receiver data, gets the message. *)
Theorem reply_packet_delivered (nodes : list OffchainKeypair) (dr : draws) (recv : bytes)
    (surb : SURB) (id : bytes) (opener : ReplyOpener)
    (sk : SharedKeys) (shares : list (HalfKey * HalfKey * Z * Z)) (final : HalfKey * HalfKey * Z * Z) :
  known_nodes nodes → length recv = HoprSenderId_SIZE → length (dr_key dr) = SecretKey16_LENGTH →
  ((4 - length nodes) * @ROUTING_INFO_LEN (HoprSphinxHeaderSpec poly1305) ≤ length (dr_padding dr))%nat →
  new_shared_keys (dr_scalar dr) (ok_public <$> nodes) = Ok sk →
  usable_shares (dr_por dr) (sk_secrets sk) shares final →
  create_surb_for_path poly1305 dr (ok_public <$> nodes) recv = Ok (surb, (id, opener)) →
  (∀ kp, last nodes = Some kp → openers kp recv = Some opener) →
  surb_wf surb ∧ id = HoprSenderId_surb_id recv ∧
  ∀ dr' sr dr_return chain_keypair ticket ds msg p o ops,
    PartialHoprPacket_new poly1305 dr' sr dr_return (HoprSenderId_pseudonym recv) (RouteSurb id surb)
      chain_keypair ticket ds = Ok p →
    into_hopr_packet poly1305 p msg = Ok (HoprOutgoing o, ops) →
    Some (out_next_hop o) = head (ok_public <$> nodes) ∧ ops = [] ∧
    ∃ ack, HalfKey_to_challenge ack = Ok (out_ack_challenge o) ∧
      hopr_travels msg (HoprSenderId_pseudonym recv) [] false nodes (out_packet o)
        (t_challenge (out_ticket o)) ack.
Proof.
  intros (Hkeys & Hn & Hids) Hrecv Hkey Hrand Hsk Hsh Hsurb Hop.
  destruct (new_shared_keys_derives (H1 := X25519Suite) (dr_scalar dr) nodes sk Hkeys Hsk) as (Hd & _ & _).
  pose proof (derives_length _ _ _ Hd) as Hlen.
  assert (sk_secrets sk ≠ []) as Hne by (intros He; rewrite He in Hlen; cbn in Hlen; lia).
  unfold create_surb_for_path in Hsurb. rewrite Hsk in Hsurb. cbn [map_err mbind outcome_bind] in Hsurb.
  apply bind_Ok in Hsurb as ([strings values] & Hgen & Hsurb).
  apply bind_Ok in Hsurb as (ids & Hkids & Hsurb).
  apply bind_Ok in Hsurb as ([s r] & Hcs%map_err_Ok & [= -> <- ->]).
  destruct (usable_shares_pay _ _ _ _ _ _ Hne Hsh Hgen)
    as (tc & ack & Htc & (ch & Hch & Hack) & Hda & Hls & Hfs & Hpaid & Hlv).
  set (info := SurbReceiverInfo_new values (replicate 32 0)) in *.
  destruct (reply_packet_travels (H1 := X25519Suite) PAYLOAD_SIZE_INT (openers : @keypair X25519Suite → _) nodes strings recv
    (dr_padding dr) (dr_key dr) info (dr_scalar dr) sk ids hopr_spec_wf) as (s' & r' & Hcs' & Hwf & Htr);
    [|done|exact (mapM_key_ids _ _ _ Hkids)|done| |].
  { split; [done|done|done|by rewrite <-Hlen|done|done|exact Hrand]. }
  { unfold info, SurbReceiverInfo_new. rewrite length_app, Hlv. done. }
  assert (Ok (E:=CryptoError) (s', r') = Ok (surb, opener)) as [= -> ->] by (rewrite <-Hcs, <-Hcs'; done).
  split; [done|]. split; [done|].
  intros dr' sr dr_return chain_keypair ticket ds msg p o ops Hp Ho.
  unfold create_surb in Hcs. apply bind_Ok in Hcs as (header & _ & (first & Hfirst%ok_or_Ok & [= <- <-])%bind_Ok).
  unfold PartialHoprPacket_new in Hp. cbn [additional_data_receiver first_relayer] in Hp. unfold info in Hp.
  rewrite SurbReceiverInfo_parts in Hp by done. cbn [mbind outcome_bind] in Hp.
  rewrite Htc in Hp. cbn [mbind outcome_bind] in Hp. apply bind_Ok in Hp as (t & Ht & Hp).
  apply bind_Ok in Hp as (nh & Hnh%ok_or_Ok & Hp). rewrite Hch in Hp. cbn [mbind outcome_bind] in Hp.
  rewrite from_pseudonym_and_id_ok in Hp by done. cbn [mbind outcome_bind] in Hp.
  apply bind_Ok in Hp as (pp & Hpp%map_err_Ok & [= <-]).
  unfold into_hopr_packet in Ho. cbn [ph_surbs ph_partial_packet ph_ticket ph_next_hop ph_ack_challenge ph_openers] in Ho.
  apply bind_Ok in Ho as (payload & Hparts%map_err_Ok & Ho).
  apply bind_Ok in Ho as (packet & Hpkt%map_err_Ok & [= <- <-]). cbn [out_next_hop out_ack_challenge out_packet out_ticket].
  split.
  { apply mapM_Ok in Hkids. destruct nodes as [|kp nodes]; [cbn in Hn; lia|].
    cbn in Hkids. apply Forall2_cons_inv_l in Hkids as (i & ids' & Hi%ok_or_Ok & _ & ->). injection Hfirst as ->.
    apply Forall_cons in Hids as [(i' & Hi' & _ & Hpub) _]. cbn. congruence. }
  split; [done|]. exists ack. split; [done|]. rewrite (issue_ticket_challenge _ _ _ _ _ Ht).
  destruct (from_parts_cases PAYLOAD_SIZE_INT [] msg ltac:(constructor)) as [[[Hn255 Hfit] Hm]|[_ [e He]]];
    [|by rewrite Hparts in He].
  rewrite Hparts in Hm. injection Hm as ->. cbn in Hfit.
  set (content := wrap 8 (Z.of_nat 0) :: msg) in *.
  assert (length content ≤ PAYLOAD_SIZE_INT)%nat as Hcl by (unfold content; cbn; lia).
  destruct (Htr (padded PAYLOAD_SIZE_INT content) (dr_padding dr') (length_padded _ _ Hcl) Hop)
    as (packet' & Hnew & Hlp & Htr').
  unfold MetaPacket_new in Hnew. apply bind_Ok in Hnew as (pp' & Hpp' & Hnew).
  assert (Ok (E:=SphinxError) pp = Ok pp') as [= <-] by (rewrite <-Hpp; exact Hpp').
  rewrite Hpkt in Hnew. injection Hnew as <-.
  change [] with (zip (map HoprSenderId_surb_id []) (@nil SURB)).
  eapply travels_hopr; [exact Htr'|exact Hlp|exact Hpaid|exact Hda| |done].
  apply (try_into_parts_message PAYLOAD_SIZE_INT [] msg); [pose proof surb_size_ge; lia|constructor|cbn; lia].
Qed.
End Hopr.

(** ** A network of three nodes

    The laws of the curves, the key derivation and the one-time authenticator
    hold of simple functions, on which every theorem above applies to a packet
    that is really built. *)
Definition toy_mac : UniversalHash := {|
  uh_key_size := 32;
  TAG_SIZE := 16;
  uh_tag := λ key data, to_be 16 (foldl (λ a b, (a * 31 + b) `mod` 2 ^ 64) 0 (key ++ data))
|}.

Lemma toy_mac_laws : @UniversalHashLaws toy_mac.
Proof. intros key data. apply length_to_be. Qed.

#[local] Existing Instances Z3_curve Z3_curve_laws toy_kdf toy_kdf_laws toy_curve toy_curve_laws toy_mac_laws.

Definition toy_node (i : Z) : OffchainKeypair :=
  match OffchainKeypair_from_secret (replicate 32 i) with
  | Ok kp => kp
  | _ => mkOffchainKeypair [] (mkOffchainPublicKey [] [] [])
  end.

Definition toy_nodes : list OffchainKeypair := [toy_node 1; toy_node 9; toy_node 17].
Definition toy_path : list OffchainPublicKey := ok_public <$> toy_nodes.

#[local] Instance toy_mapper : KeyIdMapper := {|
  map_key_to_id := λ k, (λ '(i, _), to_be 4 (Z.of_nat i)) <$>
    list_find (λ kp, opk_compressed (ok_public kp) = opk_compressed k) toy_nodes;
  map_id_to_public := λ id, ok_public <$> toy_nodes !! Z.to_nat (from_be id)
|}.

Definition toy_draws (i : Z) : draws :=
  mkDraws (9 + i : dalek_scalar) (replicate 32 i) (replicate 16 i) (replicate 300 i).

(** A packet along the three nodes, with one reply block for the way back. *)
Definition toy_partial : outcome PacketError PartialHoprPacket :=
  PartialHoprPacket_new toy_mac (toy_draws 1) (replicate 18 7) (λ i, toy_draws (Z.of_nat i)) (replicate 10 5)
    (RouteForward toy_path [reverse toy_path]) (toy_key 1) toy_builder toy_ds.

Definition toy_outgoing (msg : bytes) : option (HoprOutgoingPacket * list (bytes * ReplyOpener)) :=
  match p ← toy_partial; into_hopr_packet toy_mac p msg with
  | Ok (HoprOutgoing o, ops) => Some (o, ops)
  | _ => None
  end.

Definition toy_surb : option (SURB * (bytes * ReplyOpener)) :=
  match create_surb_for_path toy_mac (toy_draws 2) (reverse toy_path) (replicate 18 7) with
  | Ok s => Some s
  | _ => None
  end.

#[local] Instance surb_wf_dec `{!SphinxSuite} `{!SphinxHeaderSpec} (s : SURB) : Decision (surb_wf s).
Proof. unfold surb_wf. apply _. Defined.

#[local] Existing Instances X25519Suite HoprSphinxHeaderSpec.
#[local] Existing Instance toy_mac.

Lemma toy_node_known i n :
  map_key_to_id (ok_public (toy_node i)) = Some (to_be 4 n) →
  map_id_to_public (to_be 4 n) = Some (ok_public (toy_node i)) →
  @keypair_wf X25519Suite (toy_node i) ∧
  (∃ id, map_key_to_id (ok_public (toy_node i)) = Some id ∧ length id = 4%nat ∧
    map_id_to_public id = Some (ok_public (toy_node i))).
Proof.
  intros Hk Hi. split.
  { destruct (OffchainKeypair_from_secret_wf (replicate 32 i)) as (kp & Hs & Hwf); [done|].
    unfold toy_node. by rewrite Hs. }
  exists (to_be 4 n). by rewrite length_to_be.
Qed.

(** Equations between closed terms, left to the kernel's virtual machine. *)
Ltac by_vm :=
  match goal with
  | |- ?x = ?y => vm_cast_no_check (@eq_refl _ y)
  | |- Is_true _ => vm_cast_no_check I
  end.

Lemma toy_known_nodes : known_nodes toy_nodes ∧ known_nodes (reverse toy_nodes).
Proof.
  destruct (toy_node_known 1 0 ltac:(by_vm) ltac:(by_vm)) as [? ?].
  destruct (toy_node_known 9 1 ltac:(by_vm) ltac:(by_vm)) as [? ?].
  destruct (toy_node_known 17 2 ltac:(by_vm) ltac:(by_vm)) as [? ?].
  split; (split; [repeat constructor; done|]); (split; [cbn; lia|]); repeat constructor; done.
Qed.

Definition toy_sk (i : Z) (path : list OffchainPublicKey) : SharedKeys :=
  match new_shared_keys (dr_scalar (toy_draws i)) path with Ok sk => sk | _ => mkSharedKeys [] [] end.

Lemma toy_sk_ok :
  new_shared_keys (dr_scalar (toy_draws 1)) (ok_public <$> toy_nodes) = Ok (toy_sk 1 (ok_public <$> toy_nodes)) ∧
  new_shared_keys (dr_scalar (toy_draws 2)) (ok_public <$> reverse toy_nodes) =
    Ok (toy_sk 2 (ok_public <$> reverse toy_nodes)).
Proof. split; by_vm. Qed.

Lemma toy_shares_usable :
  usable_shares (dr_por (toy_draws 1)) (sk_secrets (toy_sk 1 (ok_public <$> toy_nodes)))
    [toy_share; toy_share; toy_share] toy_share ∧
  usable_shares (dr_por (toy_draws 2)) (sk_secrets (toy_sk 2 (ok_public <$> reverse toy_nodes)))
    [toy_share; toy_share; toy_share] toy_share.
Proof. split; (split; [vm_compute; reflexivity|]); vm_compute; repeat split; congruence. Qed.

Definition toy_packet_ok : bool :=
  match toy_partial with
  | Ok p => bool_decide (Forall surb_wf (ph_surbs p)) &&
      match into_hopr_packet toy_mac p [1; 2; 3] with Ok (HoprOutgoing _, _) => true | _ => false end
  | _ => false
  end.

(** The packet with message 1, 2, 3 reaches the last node with one reply block. *)
Lemma outgoing_packet_delivered_witness :
  ∃ p o ops, toy_partial = Ok p ∧ into_hopr_packet toy_mac p [1; 2; 3] = Ok (HoprOutgoing o, ops) ∧
    length ops = 1%nat ∧
    ∃ ack, HalfKey_to_challenge ack = Ok (out_ack_challenge o) ∧
      hopr_travels toy_mac (λ _ _, None) [1; 2; 3] (replicate 10 5) (zip (map fst ops) (ph_surbs p)) false
        toy_nodes (out_packet o) (t_challenge (out_ticket o)) ack.
Proof.
  assert (toy_packet_ok = true) as Hok by by_vm. unfold toy_packet_ok in Hok.
  destruct toy_partial as [p| |] eqn:Hp; [|discriminate Hok..].
  apply andb_prop in Hok as [Hwf Ho]. apply bool_decide_eq_true in Hwf.
  destruct (into_hopr_packet toy_mac p [1; 2; 3]) as [[[| |o] ops]| |] eqn:Hpkt; try discriminate Ho.
  destruct (outgoing_packet_delivered toy_mac (λ _ _, None) toy_nodes (toy_draws 1) (replicate 18 7)
    (λ i, toy_draws (Z.of_nat i)) (replicate 10 5) [reverse toy_path] (toy_key 1) toy_builder toy_ds [1; 2; 3]
    p o ops (toy_sk 1 (ok_public <$> toy_nodes)) [toy_share; toy_share; toy_share] toy_share) as (_ & Hl & Htr).
  - apply toy_known_nodes.
  - reflexivity.
  - reflexivity.
  - apply (bool_decide_unpack _). by_vm.
  - apply toy_sk_ok.
  - apply toy_shares_usable.
  - exact Hp.
  - exact Hwf.
  - exact Hpkt.
  - exists p, o, ops. split; [reflexivity|]. split; [exact Hpkt|]. split; [exact Hl|exact Htr].
Defined.

Definition toy_reply_ok : bool :=
  match toy_surb with
  | Some (s, (id, _)) =>
      match PartialHoprPacket_new toy_mac (toy_draws 3) [] (λ _, toy_draws 0) (replicate 10 7)
              (RouteSurb id s) (toy_key 2) toy_builder toy_ds with
      | Ok p => match into_hopr_packet toy_mac p [4; 5] with Ok (HoprOutgoing _, _) => true | _ => false end
      | _ => false
      end
  | _ => false
  end.

(** The reply with message 4, 5 reaches the creator of the block. *)
Lemma reply_packet_delivered_witness :
  ∃ s id opener p o ops, toy_surb = Some (s, (id, opener)) ∧ surb_wf s ∧
    PartialHoprPacket_new toy_mac (toy_draws 3) [] (λ _, toy_draws 0) (replicate 10 7)
      (RouteSurb id s) (toy_key 2) toy_builder toy_ds = Ok p ∧
    into_hopr_packet toy_mac p [4; 5] = Ok (HoprOutgoing o, ops) ∧
    ∃ ack, HalfKey_to_challenge ack = Ok (out_ack_challenge o) ∧
      hopr_travels toy_mac (λ _ _, Some opener) [4; 5] (replicate 10 7) [] false
        (reverse toy_nodes) (out_packet o) (t_challenge (out_ticket o)) ack.
Proof.
  assert (toy_reply_ok = true) as Hok by by_vm. unfold toy_reply_ok in Hok.
  destruct toy_surb as [[s [id opener]]|] eqn:Hs; [|discriminate Hok].
  destruct (PartialHoprPacket_new _ _ _ _ _ _ _ _ _) as [p| |] eqn:Hp; try discriminate Hok.
  destruct (into_hopr_packet toy_mac p [4; 5]) as [[[| |o] ops]| |] eqn:Hpkt; try discriminate Hok.
  destruct (reply_packet_delivered toy_mac (λ _ _, Some opener) (reverse toy_nodes) (toy_draws 2) (replicate 18 7)
    s id opener (toy_sk 2 (ok_public <$> reverse toy_nodes)) [toy_share; toy_share; toy_share] toy_share)
    as (Hwf & _ & Htr).
  - apply toy_known_nodes.
  - reflexivity.
  - reflexivity.
  - apply (bool_decide_unpack _). by_vm.
  - apply toy_sk_ok.
  - apply toy_shares_usable.
  - unfold toy_surb in Hs. unfold toy_path in Hs. rewrite fmap_reverse.
    destruct (create_surb_for_path _ _ _ _); congruence.
  - reflexivity.
  - destruct (Htr _ _ _ _ _ _ _ _ _ _ Hp Hpkt) as (_ & _ & ack & Hack & Hd).
    exists s, id, opener, p, o, ops. split; [reflexivity|]. split; [exact Hwf|].
    split; [exact Hp|]. split; [exact Hpkt|]. exists ack. split; [exact Hack|exact Hd].
Defined.

Definition toy_block : SURB :=
  mkSURB (replicate 4 1) (replicate 32 2) (replicate (@RoutingInfo_SIZE (HoprSphinxHeaderSpec toy_mac)) 3)
    (replicate 16 4) (replicate SurbReceiverInfo_SIZE 5).

Lemma toy_block_wf : Forall surb_wf [toy_block; toy_block].
Proof. apply (bool_decide_unpack _). by_vm. Qed.

Lemma message_roundtrip_witness :
  ∃ m, from_parts PAYLOAD_SIZE_INT [toy_block; toy_block] [1; 2; 3] = Ok m ∧
    try_into_parts m = Ok ([toy_block; toy_block], [1; 2; 3]).
Proof.
  destruct (message_roundtrip PAYLOAD_SIZE_INT [toy_block; toy_block] [1; 2; 3]) as [(_ & m & Hm & _ & Hp)|[Hf _]].
  - apply (bool_decide_unpack _). by_vm.
  - exact toy_block_wf.
  - exists m. split; [exact Hm|exact Hp].
  - destruct Hf. split; apply (bool_decide_unpack _); by_vm.
Defined.

Lemma try_into_parts_panics_iff_witness : try_into_parts [170] = Panic.
Proof.
  apply (try_into_parts_panics_iff [170]); [apply (bool_decide_unpack _); by_vm|by_vm].
Defined.

Lemma capacity_exact_witness : ∃ m, from_parts PAYLOAD_SIZE_INT [toy_block; toy_block] (replicate 100 7) = Ok m.
Proof.
  apply (capacity_exact toy_mac [toy_block; toy_block] (replicate 100 7) toy_block_wf).
  split; apply (bool_decide_unpack _); by_vm.
Defined.

(** A packet of zeros is dropped or processed, without an abort. *)
Lemma into_forwarded_total_witness :
  into_forwarded PAYLOAD_SIZE_INT (toy_node 1 : keypair) (λ _, None)
    (replicate (MetaPacket_SIZE PAYLOAD_SIZE_INT) 0) ≠ Panic.
Proof.
  pose proof (into_forwarded_total PAYLOAD_SIZE_INT (toy_node 1) (λ _, None)
    (replicate (MetaPacket_SIZE PAYLOAD_SIZE_INT) 0)) as Ht.
  intros Hp. rewrite Hp in Ht. apply Ht.
  - apply (bool_decide_unpack _). by_vm.
  - pose proof (proj1 toy_known_nodes) as [Hk _]. inversion Hk. assumption.
  - intros alpha. unfold from_alpha. cbn. discriminate.
  - apply length_replicate.
Defined.
