(* ===== verification/TicketStore.v ===== *)
(** * The ticket database

    Models [db/sql/src/ticket_manager.rs], the ticket operations of
    [db/sql/src/tickets.rs] (aggregation is in [Aggregation.v]), the ticket
    selector of [db/api/src/tickets.rs] and the table conversions of
    [db/entity/src/conversions/tickets.rs].  A table is the list of its rows
    with the columns as they are stored; a query without [ORDER BY] returns
    rows in an order that the class [ScanOrder] leaves open.  Failures of the
    database connection itself are not modelled. *)
From stdpp Require Import gmap strings.
From S2P Require Import Prelude Primitives Crypto Channels Tickets.

(** [DbEntityError] and [DbSqlError], without the formatted details. *)
Inductive DbEntityError :=
| ConversionError (what : string)
| EntityTypesError (e : CoreTypesError)
| EntityCryptoError (e : CryptoError)
| EntityGeneralError (e : GeneralError).

(** [hopr_db_api]'s error keeps the text of a database error; the model keeps
    the error itself. *)
Inductive DbSqlError :=
| Construction (what : string)
| MissingLogStatus
| MissingLog
| EmptyLogsList
| UpdateLogStatusError
| MissingAccount
| ChannelNotFound (channel : Hash)
| MissingFixedTableEntry (table : string)
| TicketAggregationError (what : string)
| DbTicketValidationError (t : Ticket) (reason : string)
| DecodingError
| LogicalError (what : string)
| AcknowledgementValidationError (what : string)
| BackendError (what : string)
| DbCoreTypesError (e : CoreTypesError)
| DbCryptoError (e : CryptoError)
| EntityError (e : DbEntityError)
| NonSpecificError (e : GeneralError)
| CacheError (e : DbSqlError)
| ApiError (e : DbError)
with DbError :=
| General (e : DbSqlError)
| NoSurbAvailable (what : string)
| ApiLogicalError (what : string)
| ApiMissingLogStatus
| ApiMissingLog
| InconsistentLogs.

Abbreviation DR := (outcome DbSqlError).

(** The [hex] crate. *)
Class HexCodec := { hex_encode : bytes → string; hex_decode : string → option bytes }.

Class HexCodecLaws `{!HexCodec} := {
  hex_length b : String.length (hex_encode b) = (2 * length b)%nat;
  hex_roundtrip b : bytes_wf b → hex_decode (hex_encode b) = Some b
}.

(** The order of the rows of a query without [ORDER BY]. *)
Class ScanOrder := scan : ∀ {A : Type}, list A → list A.
Class ScanOrderLaws `{!ScanOrder} := scan_permutation : ∀ (A : Type) (l : list A), scan l ≡ₚ l.

Section Hex.
Context `{!HexCodec}.

Definition to_hex (b : bytes) : string := "0x" +:+ hex_encode b.

Definition from_hex {T} (try_from : bytes → outcome GeneralError T) (s : string) : outcome GeneralError T :=
  if negb (String.length s =? 0)%nat && Nat.even (String.length s) then
    let data := if String.eqb (String.substring 0 2 s) "0x" || String.eqb (String.substring 0 2 s) "0X"
                then String.substring 2 (String.length s) s else s in
    b ← ok_or (hex_decode data) (ParseError "hex");
    try_from b
  else Err (ParseError "invalid hex length").

Definition Hash_from_hex : string → outcome GeneralError Hash := from_hex Hash_try_from.
End Hex.

(** ** Rows *)
Record TicketModel := mkTicketModel {
  m_id : Z;
  m_channel_id : string;
  m_amount : bytes;
  m_index : bytes;
  m_index_offset : Z;
  m_winning_probability : bytes;
  m_channel_epoch : bytes;
  m_signature : bytes;
  m_response : bytes;
  m_state : Z;
  m_hash : bytes
}.

(** The cast of a [u32] to [i32]. *)
Definition to_i32 (z : Z) : Z := if wrap 32 z <? 2 ^ 31 then wrap 32 z else wrap 32 z - 2 ^ 32.

#[export] Instance AcknowledgedTicketStatus_eq_dec : EqDecision AcknowledgedTicketStatus.
Proof. solve_decision. Defined.

Definition AcknowledgedTicketStatus_try_from (z : Z) : option AcknowledgedTicketStatus :=
  if z =? 0 then Some Untouched else if z =? 1 then Some BeingRedeemed
  else if z =? 2 then Some BeingAggregated else None.

(** The winning part of a statistics row; values are stored as big-endian bytes. *)
Record StatsModel := mkStats {
  st_winning_tickets : Z;
  st_redeemed_value : bytes;
  st_neglected_value : bytes;
  st_rejected_value : bytes
}.

Definition StatsModel_default : StatsModel :=
  mkStats 0 (replicate 12 0) (replicate 12 0) (replicate 12 0).

Section Rows.
Context `{!Secp256k1} `{!HexCodec}.

(** [From<AcknowledgedTicket> for ticket::ActiveModel]; [id] is assigned by the database. *)
Definition ActiveModel_from {E} (id : Z) (value : AcknowledgedTicket) : outcome E TicketModel :=
  let t := verified_ticket (ack_ticket value) in
  signature ← unwrap_option (t_signature t);
  Ok (mkTicketModel id (to_hex (t_channel_id t)) (U256_to_be_bytes (amount (t_amount t)))
        (to_be 8 (t_index t)) (to_i32 (t_index_offset t)) (t_encoded_win_prob t)
        (U256_to_be_bytes (t_channel_epoch t)) signature (ack_response value)
        (AcknowledgedTicketStatus_repr (ack_status value)) (verified_hash (ack_ticket value))).

(** [TryFrom<&ticket::Model> for AcknowledgedTicket]. *)
Definition AcknowledgedTicket_try_from (value : TicketModel) : outcome DbEntityError AcknowledgedTicket :=
  response ← map_err EntityGeneralError (Response_try_from (m_response value));
  channel_id ← map_err EntityGeneralError (Hash_from_hex (m_channel_id value));
  amount ← U256_from_be_bytes (m_amount value);
  index ← U256_from_be_bytes (m_index value);
  index ← U256_as 64 index;
  win_prob ← map_err (λ _, ConversionError "invalid winning probability")
    (WinProb_try_from (m_winning_probability value));
  epoch ← U256_from_be_bytes (m_channel_epoch value);
  epoch ← U256_as 32 epoch;
  challenge ← map_err EntityCryptoError (Response_to_challenge response);
  signature ← map_err (λ _, ConversionError "invalid signature format")
    (Signature_try_from (m_signature value));
  hash ← map_err (λ _, ConversionError "invalid ticket hash") (Hash_try_from (m_hash value));
  vt ← map_err (λ _, ConversionError "invalid ticket in the db")
    (build_verified
      (set_signature signature (set_challenge (Challenge_to_ethereum_challenge challenge)
        (set_channel_epoch epoch (set_win_prob win_prob
          (set_index_offset (wrap 32 (m_index_offset value)) (set_index index
            (set_amount amount (set_channel_id channel_id TicketBuilder_default)))))))) hash);
  state ← ok_or (AcknowledgedTicketStatus_try_from (wrap 8 (m_state value)))
    (ConversionError "invalid ticket state");
  Ok (mkAcknowledged state vt response).
End Rows.

(** ** Ticket selectors *)
Inductive Bound (T : Type) := Included (x : T) | Excluded (x : T) | Unbounded.
Arguments Included {_} _.
Arguments Excluded {_} _.
Arguments Unbounded {_}.

Inductive TicketIndexSelector :=
| NoIndex
| SingleIndex (idx : Z)
| MultipleIndices (idxs : gset Z)
| IndexRange (lb ub : Bound Z).

Record TicketSelector := mkSelector {
  channel_identifiers : list (Hash * Z);
  sel_index : TicketIndexSelector;
  sel_win_prob : Bound WinningProbability * Bound WinningProbability;
  sel_amount : Bound HoprBalance * Bound HoprBalance;
  sel_state : option AcknowledgedTicketStatus;
  only_aggregated : bool
}.

Definition TicketSelector_new (channel_id : Hash) (epoch : Z) : TicketSelector :=
  mkSelector [(channel_id, epoch)] NoIndex (Unbounded, Unbounded) (Unbounded, Unbounded) None false.

Definition also_on_channel (channel_id : Hash) (epoch : Z) (s : TicketSelector) : TicketSelector :=
  mkSelector (channel_identifiers s ++ [(channel_id, epoch)]) NoIndex (sel_win_prob s) (sel_amount s)
    (sel_state s) (only_aggregated s).

Definition just_on_channel (channel_id : Hash) (epoch : Z) (s : TicketSelector) : TicketSelector :=
  mkSelector [(channel_id, epoch)] (sel_index s) (sel_win_prob s) (sel_amount s)
    (sel_state s) (only_aggregated s).

Definition is_single_channel (s : TicketSelector) : bool := (length (channel_identifiers s) =? 1)%nat.

Definition is_unique (s : TicketSelector) : bool :=
  is_single_channel s &&
  match sel_index s with
  | SingleIndex _ => true
  | MultipleIndices idxs => bool_decide (size idxs = 1%nat)
  | _ => false
  end.

Definition with_index (index : Z) (s : TicketSelector) : TicketSelector :=
  mkSelector (take 1 (channel_identifiers s))
    (match sel_index s with
     | NoIndex | IndexRange _ _ => SingleIndex index
     | SingleIndex existing => MultipleIndices {[existing; index]}
     | MultipleIndices existing => MultipleIndices ({[index]} ∪ existing)
     end) (sel_win_prob s) (sel_amount s) (sel_state s) (only_aggregated s).

Definition with_index_range (lb ub : Bound Z) (s : TicketSelector) : TicketSelector :=
  mkSelector (take 1 (channel_identifiers s)) (IndexRange lb ub) (sel_win_prob s) (sel_amount s)
    (sel_state s) (only_aggregated s).

Definition with_state (state : AcknowledgedTicketStatus) (s : TicketSelector) : TicketSelector :=
  mkSelector (channel_identifiers s) (sel_index s) (sel_win_prob s) (sel_amount s) (Some state)
    (only_aggregated s).

Definition with_no_state (s : TicketSelector) : TicketSelector :=
  mkSelector (channel_identifiers s) (sel_index s) (sel_win_prob s) (sel_amount s) None (only_aggregated s).

Definition with_aggregated_only (only : bool) (s : TicketSelector) : TicketSelector :=
  mkSelector (channel_identifiers s) (sel_index s) (sel_win_prob s) (sel_amount s) (sel_state s) only.

Definition with_winning_probability (lb ub : Bound WinningProbability) (s : TicketSelector) : TicketSelector :=
  mkSelector (channel_identifiers s) (sel_index s) (lb, ub) (sel_amount s) (sel_state s) (only_aggregated s).

Definition with_amount (lb ub : Bound HoprBalance) (s : TicketSelector) : TicketSelector :=
  mkSelector (channel_identifiers s) (sel_index s) (sel_win_prob s) (lb, ub) (sel_state s) (only_aggregated s).

Definition selector_of_channel (c : ChannelEntry) : TicketSelector := TicketSelector_new (get_id c) (channel_epoch c).

Section Selectors.
Context `{!Secp256k1}.

Definition selector_of_acknowledged (a : AcknowledgedTicket) : TicketSelector :=
  let t := verified_ticket (ack_ticket a) in
  mkSelector [(t_channel_id t, t_channel_epoch t)] (SingleIndex (t_index t)) (Unbounded, Unbounded)
    (Unbounded, Unbounded) (Some (ack_status a)) (1 <? t_index_offset t).

Definition selector_of_redeemable (r : RedeemableTicket) : TicketSelector :=
  let t := verified_ticket (r_ticket r) in
  mkSelector [(t_channel_id t, t_channel_epoch t)] (SingleIndex (t_index t)) (Unbounded, Unbounded)
    (Unbounded, Unbounded) None (1 <? t_index_offset t).
End Selectors.

(** Blobs compare byte by byte. *)
Definition blob_le (a b : bytes) : bool := match bytes_cmp a b with Gt => false | _ => true end.
Definition blob_lt (a b : bytes) : bool := match bytes_cmp a b with Lt => true | _ => false end.

Definition lower_bound {T} (enc : T → bytes) (b : Bound T) (column : bytes) : bool :=
  match b with
  | Included x => blob_le (enc x) column
  | Excluded x => blob_lt (enc x) column
  | Unbounded => true
  end.

Definition upper_bound {T} (enc : T → bytes) (b : Bound T) (column : bytes) : bool :=
  match b with
  | Included x => blob_le column (enc x)
  | Excluded x => blob_lt column (enc x)
  | Unbounded => true
  end.

Section Store.
Context `{!Secp256k1} `{!HexCodec} `{!ScanOrder}.

(** [IntoCondition for WrappedTicketSelector]; no channel selects nothing. *)
Definition into_condition (s : TicketSelector) (r : TicketModel) : bool :=
  existsb (λ '(channel_id, epoch), bool_decide (m_channel_id r = to_hex channel_id) &&
                                   bool_decide (m_channel_epoch r = U256_to_be_bytes epoch))
    (channel_identifiers s) &&
  match sel_index s with
  | NoIndex => true
  | SingleIndex idx => bool_decide (m_index r = to_be 8 idx)
  | MultipleIndices idxs => existsb (λ i, bool_decide (m_index r = to_be 8 i)) (elements idxs)
  | IndexRange lb ub => lower_bound (to_be 8) lb (m_index r) && upper_bound (to_be 8) ub (m_index r)
  end &&
  match sel_state s with Some state => m_state r =? AcknowledgedTicketStatus_repr state | None => true end &&
  (if only_aggregated s then 1 <? m_index_offset r else true) &&
  lower_bound as_encoded (sel_win_prob s).1 (m_winning_probability r) &&
  upper_bound as_encoded (sel_win_prob s).2 (m_winning_probability r) &&
  lower_bound Balance_to_be_bytes (sel_amount s).1 (m_amount r) &&
  upper_bound Balance_to_be_bytes (sel_amount s).2 (m_amount r).

(** ** The state *)
Record TicketsDb := mkTicketsDb {
  tickets : list TicketModel;
  next_id : Z;
  statistics : gmap string StatsModel;
  outgoing_indices : gmap string bytes
}.

Inductive TicketOperation := Insert (t : AcknowledgedTicket) | Replace (t : AcknowledgedTicket).

Definition op_ticket (o : TicketOperation) : AcknowledgedTicket :=
  match o with Insert t => t | Replace t => t end.

(** The ticket manager: the database, its two caches, the queue of the
    background task ([None] before it is started) and what was notified. *)
Record TicketManager := mkTicketManager {
  tickets_db : TicketsDb;
  unrealized_cache : gmap (Hash * Z) HoprBalance;
  index_cache : gmap Hash Z;
  incoming : option (list TicketOperation);
  notified : list AcknowledgedTicket
}.

Definition set_tickets_db (d : TicketsDb) (m : TicketManager) : TicketManager :=
  mkTicketManager d (unrealized_cache m) (index_cache m) (incoming m) (notified m).
Definition set_unrealized (c : gmap (Hash * Z) HoprBalance) (m : TicketManager) : TicketManager :=
  mkTicketManager (tickets_db m) c (index_cache m) (incoming m) (notified m).
Definition set_index_cache (c : gmap Hash Z) (m : TicketManager) : TicketManager :=
  mkTicketManager (tickets_db m) (unrealized_cache m) c (incoming m) (notified m).
Definition set_incoming (q : option (list TicketOperation)) (m : TicketManager) : TicketManager :=
  mkTicketManager (tickets_db m) (unrealized_cache m) (index_cache m) q (notified m).
Definition set_notified (l : list AcknowledgedTicket) (m : TicketManager) : TicketManager :=
  mkTicketManager (tickets_db m) (unrealized_cache m) (index_cache m) (incoming m) l.

Definition set_tickets (l : list TicketModel) (d : TicketsDb) : TicketsDb :=
  mkTicketsDb l (next_id d) (statistics d) (outgoing_indices d).
Definition set_statistics (l : gmap string StatsModel) (d : TicketsDb) : TicketsDb :=
  mkTicketsDb (tickets d) (next_id d) l (outgoing_indices d).
Definition set_outgoing_indices (l : gmap string bytes) (d : TicketsDb) : TicketsDb :=
  mkTicketsDb (tickets d) (next_id d) (statistics d) l.

(** Operations on the database, and on the manager. *)
Abbreviation TX := (SM TicketsDb DbSqlError).
Abbreviation TM := (SM TicketManager DbSqlError).

(** [OpenTransaction::perform]: an error rolls the database back; the caches
    are not part of the transaction. *)
Definition perform {A} (tx : TX A) : TM A := λ m,
  match tx (tickets_db m) with
  | (d, Ok a) => (set_tickets_db d m, Ok a)
  | (_, Err e) => (m, Err e)
  | (_, Panic) => (m, Panic)
  end.

(** ** Queries *)
Definition find_where (cond : TicketModel → bool) (d : TicketsDb) : list TicketModel :=
  scan (filter cond (tickets d)).

Definition delete_many (cond : TicketModel → bool) : TX nat :=
  d ← get;
  modify (set_tickets (filter (λ r, negb (cond r)) (tickets d)));;
  mret (length (filter cond (tickets d))).

Definition set_state (state : Z) (r : TicketModel) : TicketModel :=
  mkTicketModel (m_id r) (m_channel_id r) (m_amount r) (m_index r) (m_index_offset r)
    (m_winning_probability r) (m_channel_epoch r) (m_signature r) (m_response r) state (m_hash r).

Definition update_many (cond : TicketModel → bool) (state : Z) : TX nat :=
  d ← get;
  modify (set_tickets ((λ r, if cond r then set_state state r else r) <$> tickets d));;
  mret (length (filter cond (tickets d))).

(** The unique index of the table: channel, epoch and index. *)
Definition row_key (r : TicketModel) : string * bytes * bytes := (m_channel_id r, m_channel_epoch r, m_index r).

Definition insert_row (t : AcknowledgedTicket) : TX unit :=
  d ← get;
  r ← lift (ActiveModel_from (next_id d) t);
  if existsb (λ r', bool_decide (row_key r' = row_key r)) (tickets d)
  then throw (BackendError "UNIQUE constraint failed")
  else modify (λ d, mkTicketsDb (tickets d ++ [r]) (next_id d + 1) (statistics d) (outgoing_indices d)).

(** ** The background task *)

(** [U256 + U256] panics on overflow. *)
Definition U256_add {E} (a b : Z) : outcome E Z := if a + b <=? U256_max then Ok (a + b) else Panic.

Definition find_stats_for_channel (channel_id : Hash) : TX StatsModel :=
  d ← get;
  match statistics d !! to_hex channel_id with
  | Some model => mret model
  | None =>
      modify (set_statistics (<[to_hex channel_id := StatsModel_default]> (statistics d)));;
      mret StatsModel_default
  end.

Definition save_stats (channel_id : Hash) (model : StatsModel) : TX unit :=
  d ← get; modify (set_statistics (<[to_hex channel_id := model]> (statistics d))).

(** The counter is an [i32]. *)
Definition process_insert (ack_ticket : AcknowledgedTicket) : TX unit :=
  let channel_id := t_channel_id (verified_ticket (Tickets.ack_ticket ack_ticket)) in
  insert_row ack_ticket;;
  d ← get;
  match statistics d !! to_hex channel_id with
  | Some model =>
      save_stats channel_id (mkStats (to_i32 (st_winning_tickets model + 1)) (st_redeemed_value model)
        (st_neglected_value model) (st_rejected_value model))
  | None => save_stats channel_id (mkStats 1 (replicate 12 0) (replicate 12 0) (replicate 12 0))
  end.

Definition process_replace (ack_ticket : AcknowledgedTicket) : TX unit :=
  let t := verified_ticket (Tickets.ack_ticket ack_ticket) in
  let start_idx := t_index t in
  let offset := t_index_offset t in
  let selector := with_state BeingAggregated
    (with_index_range (Included start_idx) (Excluded (wrap 64 (start_idx + offset)))
      (TicketSelector_new (t_channel_id t) (t_channel_epoch t))) in
  deleted ← delete_many (into_condition selector);
  if offset <? Z.of_nat deleted
  then throw (LogicalError "deleted ticket count must not be more than the ticket index offset")
  else insert_row ack_ticket.

(** One turn of the loop of [start_ticket_processing]: errors are logged. *)
Definition process_next (m : TicketManager) : outcome DbSqlError TicketManager :=
  match incoming m with
  | Some (op :: rest) =>
      let m := set_incoming (Some rest) m in
      match perform (match op with Insert t => process_insert t | Replace t => process_replace t end) m with
      | (m, Ok _) => Ok (set_notified (notified m ++ [op_ticket op]) m)
      | (m, Err _) => Ok m
      | (_, Panic) => Panic
      end
  | _ => Ok m
  end.

Definition start_ticket_processing : TM unit :=
  m ← get;
  match incoming m with
  | None => modify (set_incoming (Some []))
  | Some _ => throw (LogicalError "ticket processing already started")
  end.

(** The sender is cloned for every message, so there always is a slot. *)
Definition enqueue (op : TicketOperation) : TM unit :=
  m ← get;
  match incoming m with
  | Some q => modify (set_incoming (Some (q ++ [op])))
  | None => throw (LogicalError "ticket processing not started")
  end.

(** ** Values *)
Definition rows_value {E} (rows : list TicketModel) : outcome E HoprBalance :=
  foldl (λ acc r, value ← acc; b ← Balance_from_be_bytes (m_amount r); Ok (Balance_add value b))
    (Ok Balance_zero) rows.

Definition unrealized_value (selector : TicketSelector) : TM HoprBalance :=
  match channel_identifiers selector with
  | [key] =>
      m ← get;
      match unrealized_cache m !! key with
      | Some v => mret v
      | None =>
          v ← perform (d ← get; lift (rows_value (find_where (into_condition selector) d)));
          modify (λ m, set_unrealized (<[key := v]> (unrealized_cache m)) m);;
          mret v
      end
  | _ => throw (LogicalError "selector must represent a single channel")
  end.

Definition insert_ticket (ticket : AcknowledgedTicket) : TM unit :=
  let t := verified_ticket (Tickets.ack_ticket ticket) in
  enqueue (Insert ticket);;
  unrealized ← unrealized_value (TicketSelector_new (t_channel_id t) (t_channel_epoch t));
  modify (λ m, set_unrealized
    (<[(t_channel_id t, t_channel_epoch t) := Balance_add unrealized (t_amount t)]> (unrealized_cache m)) m).

Definition replace_tickets (ticket : AcknowledgedTicket) : TM unit := enqueue (Replace ticket).

Definition get_tickets_value_int (selector : TicketSelector) : TX (nat * HoprBalance) :=
  d ← get;
  let rows := find_where (into_condition selector) d in
  value ← lift (rows_value rows);
  mret (length rows, value).

Definition get_tickets_value (selector : TicketSelector) : TM (nat * HoprBalance) :=
  perform (get_tickets_value_int selector).

(** ** Fetching *)
Definition decode_rows (rows : list TicketModel) : DR (list AcknowledgedTicket) :=
  map_err EntityError (mapM AcknowledgedTicket_try_from rows).

Definition get_all_tickets : TM (list AcknowledgedTicket) :=
  perform (d ← get; lift (decode_rows (find_where (λ _, true) d))).

Definition get_tickets (selector : TicketSelector) : TM (list AcknowledgedTicket) :=
  perform (d ← get; lift (decode_rows (find_where (into_condition selector) d))).

(** ** Marking *)
Inductive TicketMarker := Redeemed | Rejected | Neglected.

(** Adds a value to the marked column of a statistics row. *)
Definition add_marked {E} (mark_as : TicketMarker) (value : Z) (st : StatsModel) : outcome E StatsModel :=
  current ← U256_from_be_bytes
    (match mark_as with
     | Redeemed => st_redeemed_value st
     | Rejected => st_rejected_value st
     | Neglected => st_neglected_value st
     end);
  sum ← U256_add current value;
  let column := U256_to_be_bytes sum in
  Ok match mark_as with
     | Redeemed => mkStats (st_winning_tickets st) column (st_neglected_value st) (st_rejected_value st)
     | Rejected => mkStats (st_winning_tickets st) (st_redeemed_value st) (st_neglected_value st) column
     | Neglected => mkStats (st_winning_tickets st) (st_redeemed_value st) column (st_rejected_value st)
     end.

(** Runs a part of a transaction that started before: the cache writes of the
    other parts are kept apart from it. *)
Definition in_tx {A} (tx : TX A) : TM A := λ m,
  match tx (tickets_db m) with (d, o) => (set_tickets_db d m, o) end.

Definition with_write_locked_db {A} (f : TM A) : TM A := λ m,
  match f m with
  | (m', Ok a) => (m', Ok a)
  | (m', Err e) => (set_tickets_db (tickets_db m) m', Err e)
  | (m', Panic) => (set_tickets_db (tickets_db m) m', Panic)
  end.

Fixpoint mark_loop (selector : TicketSelector) (mark_as : TicketMarker) (ids : list (Hash * Z))
    (total_marked_count : nat) : TM nat :=
  match ids with
  | [] => mret total_marked_count
  | (channel_id, epoch) :: ids =>
      let channel_selector := just_on_channel channel_id epoch selector in
      '(marked_count, marked_value) ← in_tx (get_tickets_value_int channel_selector);
      if (0 <? marked_count)%nat then
        deleted ← in_tx (delete_many (into_condition channel_selector));
        if (deleted =? marked_count)%nat then
          in_tx (stats ← find_stats_for_channel channel_id;
                 new_stats ← lift (add_marked mark_as (amount marked_value) stats);
                 save_stats channel_id new_stats);;
          modify (λ m, set_unrealized (delete (channel_id, epoch) (unrealized_cache m)) m);;
          mark_loop selector mark_as ids (total_marked_count + marked_count)
        else throw (LogicalError "could not mark tickets")
      else mark_loop selector mark_as ids total_marked_count
  end.

Definition mark_tickets_as (selector : TicketSelector) (mark_as : TicketMarker) : TM nat :=
  with_write_locked_db (mark_loop selector mark_as (channel_identifiers selector) 0).

Definition mark_unsaved_ticket_rejected (ticket : Ticket) : TM unit :=
  perform (stats ← find_stats_for_channel (t_channel_id ticket);
           new_stats ← lift (add_marked Rejected (amount (t_amount ticket)) stats);
           save_stats (t_channel_id ticket) new_stats).

(** ** States *)
Definition update_ticket_states (selector : TicketSelector) (new_state : AcknowledgedTicketStatus) : TM nat :=
  perform (update_many (into_condition selector) (AcknowledgedTicketStatus_repr new_state)).

(** [update_ticket_states_and_fetch] is a stream.  Opening it selects the rows;
    each item updates one of them in a statement of its own, whatever its state
    is by then, and is returned when the row can be decoded.  The mutex is not
    held (its guard is never awaited), so that other calls may come between
    these steps; what they are when none does is the composition below. *)
Definition open_ticket_stream (selector : TicketSelector) : TM (list TicketModel) :=
  m ← get; mret (find_where (into_condition selector) (tickets_db m)).

Definition update_fetched (r : TicketModel) (new_state : AcknowledgedTicketStatus) : TM (option AcknowledgedTicket) :=
  in_tx (update_many (λ r', m_id r' =? m_id r) (AcknowledgedTicketStatus_repr new_state));;
  match AcknowledgedTicket_try_from r with
  | Ok t => mret (Some (mkAcknowledged new_state (Tickets.ack_ticket t) (ack_response t)))
  | Err _ => mret None
  | Panic => lift Panic
  end.

(** The stream consumed to its end. *)
Fixpoint update_and_fetch_loop (rows : list TicketModel) (new_state : AcknowledgedTicketStatus) :
    TM (list AcknowledgedTicket) :=
  match rows with
  | [] => mret []
  | r :: rows =>
      fetched ← update_fetched r new_state;
      rest ← update_and_fetch_loop rows new_state;
      mret (option_list fetched ++ rest)
  end.

Definition update_ticket_states_and_fetch (selector : TicketSelector) (new_state : AcknowledgedTicketStatus) :
    TM (list AcknowledgedTicket) :=
  rows ← open_ticket_stream selector;
  update_and_fetch_loop rows new_state.

(** ** Statistics *)
Record ChannelTicketStatistics := mkChannelStats {
  winning_tickets : Z;
  neglected_value : HoprBalance;
  redeemed_value : HoprBalance;
  unredeemed_value : HoprBalance;
  rejected_value : HoprBalance
}.

Definition U256_rows_value {E} (rows : list TicketModel) : outcome E Z :=
  foldl (λ acc r, value ← acc; b ← U256_from_be_bytes (m_amount r); U256_add value b) (Ok 0) rows.

Definition add_stats {E} (acc : outcome E ChannelTicketStatistics) (st : StatsModel) :
    outcome E ChannelTicketStatistics :=
  acc ← acc;
  neglected ← Balance_from_be_bytes (st_neglected_value st);
  redeemed ← Balance_from_be_bytes (st_redeemed_value st);
  rejected ← Balance_from_be_bytes (st_rejected_value st);
  Ok (mkChannelStats (wrap 128 (winning_tickets acc + wrap 128 (st_winning_tickets st)))
        (Balance_add (neglected_value acc) neglected) (Balance_add (redeemed_value acc) redeemed)
        (unredeemed_value acc) (Balance_add (rejected_value acc) rejected)).

(** [channel_exists] is whether the channel is in the index database. *)
Definition get_ticket_statistics (channel_exists : Hash → bool) (channel_id : option Hash) :
    TM ChannelTicketStatistics :=
  match channel_id with
  | None =>
      perform (
        d ← get;
        unredeemed ← lift (U256_rows_value (find_where (λ _, true) d));
        all_stats ← lift (foldl add_stats
          (Ok (mkChannelStats 0 Balance_zero Balance_zero Balance_zero Balance_zero))
          (scan (snd <$> map_to_list (statistics d))));
        mret (mkChannelStats (winning_tickets all_stats) (neglected_value all_stats)
                (redeemed_value all_stats) (mkBalance unredeemed) (rejected_value all_stats)))
  | Some channel =>
      if channel_exists channel then
        perform (
          stats ← find_stats_for_channel channel;
          d ← get;
          unredeemed ← lift (U256_rows_value
            (find_where (λ r, bool_decide (m_channel_id r = to_hex channel)) d));
          neglected ← lift (Balance_from_be_bytes (st_neglected_value stats));
          redeemed ← lift (Balance_from_be_bytes (st_redeemed_value stats));
          rejected ← lift (Balance_from_be_bytes (st_rejected_value stats));
          mret (mkChannelStats (wrap 128 (st_winning_tickets stats)) neglected redeemed
                  (mkBalance unredeemed) rejected))
      else throw (ChannelNotFound channel)
  end.

Definition reset_ticket_statistics : TM unit := perform (modify (set_statistics ∅)).

(** ** Outgoing ticket indices: atomics shared through the cache *)
Definition get_outgoing_ticket_index (channel_id : Hash) : TM Z :=
  m ← get;
  match index_cache m !! channel_id with
  | Some i => mret i
  | None =>
      index ← (match outgoing_indices (tickets_db m) !! to_hex channel_id with
               | Some b => lift (i ← U256_from_be_bytes b; U256_as 64 i)
               | None =>
                   perform (modify (λ d, set_outgoing_indices
                     (<[to_hex channel_id := replicate 8 0]> (outgoing_indices d)) d));;
                   mret 0
               end);
      modify (λ m, set_index_cache (<[channel_id := index]> (index_cache m)) m);;
      mret index
  end.

Definition store_index (channel_id : Hash) (index : Z) : TM unit :=
  modify (λ m, set_index_cache (<[channel_id := index]> (index_cache m)) m).

Definition compare_and_set_outgoing_ticket_index (channel_id : Hash) (index : Z) : TM Z :=
  old ← get_outgoing_ticket_index channel_id; store_index channel_id (Z.max old index);; mret old.

Definition reset_outgoing_ticket_index (channel_id : Hash) : TM Z :=
  old ← get_outgoing_ticket_index channel_id; store_index channel_id 0;; mret old.

Definition increment_outgoing_ticket_index (channel_id : Hash) : TM Z :=
  old ← get_outgoing_ticket_index channel_id; store_index channel_id (wrap 64 (old + 1));; mret old.

Fixpoint persist_loop (rows : list (string * bytes)) (updated : nat) : TM nat :=
  match rows with
  | [] => mret updated
  | (hex, index) :: rows =>
      channel_id ← lift (map_err NonSpecificError (Hash_from_hex hex));
      db_index ← lift (i ← U256_from_be_bytes index; U256_as 64 i);
      m ← get;
      match index_cache m !! channel_id with
      | Some cached_index =>
          if db_index <? cached_index then
            perform (modify (λ d, set_outgoing_indices (<[hex := to_be 8 cached_index]> (outgoing_indices d)) d));;
            persist_loop rows (S updated)
          else persist_loop rows updated
      | None => persist_loop rows updated
      end
  end.

Definition persist_outgoing_ticket_indices : TM nat :=
  m ← get; persist_loop (scan (map_to_list (outgoing_indices (tickets_db m)))) 0.

(** ** Upserting and the repair of redemptions *)
Definition update_row (id : Z) (t : AcknowledgedTicket) : TX unit :=
  d ← get;
  r ← lift (ActiveModel_from id t);
  if existsb (λ r', negb (m_id r' =? id) && bool_decide (row_key r' = row_key r)) (tickets d)
  then throw (BackendError "UNIQUE constraint failed")
  else modify (set_tickets ((λ r', if m_id r' =? id then r else r') <$> tickets d)).

Definition upsert_ticket (acknowledged_ticket : AcknowledgedTicket) : TM unit :=
  let t := verified_ticket (Tickets.ack_ticket acknowledged_ticket) in
  let selector := with_index (t_index t) (TicketSelector_new (t_channel_id t) (t_channel_epoch t)) in
  perform (d ← get;
           match find_where (into_condition selector) d with
           | r :: _ => update_row (m_id r) acknowledged_ticket
           | [] => insert_row acknowledged_ticket
           end).

Fixpoint fix_channels_next_ticket_state (incoming_channels : list ChannelEntry) : TM unit :=
  match incoming_channels with
  | [] => mret tt
  | channel :: channels =>
      index ← lift (U256_as 64 (ticket_index channel));
      _ ← update_ticket_states_and_fetch
        (with_index index (with_state BeingRedeemed (selector_of_channel channel))) Untouched;
      fix_channels_next_ticket_state channels
  end.
End Store.
