(* ===== verification/TicketStoreSpec.v ===== *)
(** * The ticket database: what its operations do

    Stored rows decode to the tickets they came from and selectors pick exactly
    the tickets they describe; marking, insertion and replacement account for
    every amount; outgoing ticket indices never repeat. *)
From Stdlib Require Import Ascii.
From stdpp Require Import gmap strings.
From S2P Require Import Prelude Primitives Crypto Channels Tickets WinProb TicketStore.

(** Bytes of one length compare as the numbers they encode. *)
Lemma bytes_cmp_from_be a b :
  bytes_wf a → bytes_wf b → length a = length b → bytes_cmp a b = (from_be a ?= from_be b).
Proof.
  intros Ha. revert b. induction Ha as [|x a Hx Ha IH]; intros [|y b] Hb Hl; try done.
  injection Hl as Hl. apply Forall_cons in Hb as [Hy Hb]. cbn [bytes_cmp].
  specialize (IH b Hb Hl). rewrite !from_be_cons, Hl by done. pose proof (from_be_bound a Ha). pose proof (from_be_bound b Hb).
  unfold in_u in *. rewrite Hl in *. set (m := 2 ^ (8 * Z.of_nat (length b))) in *.
  destruct (Z.compare_spec x y) as [->|Hxy|Hxy].
  - rewrite IH. destruct (Z.compare_spec (from_be a) (from_be b)); symmetry;
      [apply Z.compare_eq_iff|apply Z.compare_lt_iff|apply Z.compare_gt_iff]; lia.
  - symmetry. apply Z.compare_lt_iff. nia.
  - symmetry. apply Z.compare_gt_iff. nia.
Qed.

Lemma U256_from_to_be {E} n z :
  (n ≤ 32)%nat → in_u (8 * Z.of_nat n) z → U256_from_be_bytes (E:=E) (to_be n z) = Ok z.
Proof.
  intros Hn Hz. unfold U256_from_be_bytes. rewrite length_to_be, bool_decide_eq_true_2 by done.
  by rewrite from_be_to_be_small.
Qed.

Lemma U256_as_ok {E} w z : in_u w z → U256_as (E:=E) w z = Ok z.
Proof. intros [_ Hz]. unfold U256_as. by rewrite (proj2 (Z.ltb_lt _ _)). Qed.

(** ** Amounts *)
Definition row_value (r : TicketModel) : Z := from_be (m_amount r).
Fixpoint total (rows : list TicketModel) : Z :=
  match rows with [] => 0 | r :: rows => row_value r + total rows end.
Definition column_wf (b : bytes) : Prop := bytes_wf b ∧ (length b ≤ 32)%nat.

Lemma total_app l1 l2 : total (l1 ++ l2) = total l1 + total l2.
Proof. induction l1 as [|r l1 IH]; cbn; lia. Qed.

#[global] Instance total_proper : Proper ((≡ₚ) ==> (=)) total.
Proof. intros l1 l2 Hl. induction Hl; cbn in *; lia. Qed.

Lemma total_filter (P : TicketModel → bool) l :
  total l = total (filter P l) + total (filter (λ r, negb (P r)) l).
Proof.
  induction l as [|r l IH]; [done|]. rewrite !filter_cons. cbn [total].
  repeat case_decide; destruct (P r); cbn in *; try done; lia.
Qed.

Lemma from_be_column b : column_wf b → in_u 256 (from_be b).
Proof.
  intros [Hw Hl]. pose proof (from_be_bound b Hw) as Hb. unfold in_u in *.
  split; [lia|]. eapply Z.lt_le_trans; [apply Hb|]. apply Z.pow_le_mono_r; lia.
Qed.

Lemma total_nonneg l : Forall (λ r, column_wf (m_amount r)) l → 0 ≤ total l.
Proof.
  induction 1 as [|r l Hr _ IH]; cbn; [lia|]. unfold row_value.
  pose proof (from_be_column _ Hr). unfold in_u in *. lia.
Qed.

(** The folds over the rows compute the total, whatever the order, up to the
    saturation of balances. *)
Lemma rows_value_total {E} rows :
  Forall (λ r, column_wf (m_amount r)) rows →
  rows_value (E:=E) rows = Ok (mkBalance (Z.min (total rows) U256_max)).
Proof.
  intros Hw. unfold rows_value.
  enough (∀ acc, 0 ≤ acc → foldl (λ acc r, value ← acc; b ← Balance_from_be_bytes (m_amount r);
    Ok (Balance_add value b)) (Ok (E:=E) (mkBalance (C:=WxHOPR) (Z.min acc U256_max))) rows =
    Ok (mkBalance (Z.min (acc + total rows) U256_max))) as Hg.
  { exact (Hg 0 ltac:(lia)). }
  induction Hw as [|r rows [Hb Hl] Hw IH]; intros acc Hacc; cbn [foldl total].
  { by rewrite Z.add_0_r. }
  pose proof (from_be_column _ (conj Hb Hl)) as Hv. unfold in_u in Hv.
  unfold Balance_from_be_bytes, U256_from_be_bytes. rewrite bool_decide_eq_true_2 by done.
  cbn [fmap outcome_fmap mbind outcome_bind]. unfold Balance_add, U256_saturating_add. cbn [amount].
  rewrite Z.add_assoc, <-(IH (acc + row_value r)) by (unfold row_value; lia). f_equal. f_equal. f_equal.
  unfold row_value. lia.
Qed.

(** ** Rows *)
Section Hex.
Context `{!HexCodec, !HexCodecLaws}.
#[local] Set Default Proof Using "Type*".

Lemma substring_all n s : (String.length s ≤ n)%nat → String.substring 0 n s = s.
Proof.
  revert n. induction s as [|c s IH]; intros [|n]; cbn; try done; [lia|].
  intros Hn. by rewrite IH by lia.
Qed.

Lemma from_to_hex {T} (try_from : bytes → outcome GeneralError T) b :
  bytes_wf b → from_hex try_from (to_hex b) = try_from b.
Proof.
  intros Hw. unfold from_hex, to_hex. pose proof (hex_length b) as Hl.
  change ("0x" +:+ hex_encode b) with (String "0"%char (String "x"%char (hex_encode b))).
  cbn [String.length Nat.eqb negb andb Nat.even]. rewrite Hl.
  assert (Nat.even (2 * length b) = true) as -> by (rewrite Nat.even_mul; done).
  cbn [String.substring]. replace (String.substring 0 0 (hex_encode b)) with "" by (by destruct (hex_encode b)).
  cbn [String.eqb Ascii.eqb Bool.eqb orb]. rewrite substring_all by lia. by rewrite hex_roundtrip.
Qed.

Lemma Hash_from_to_hex h : array_wf 32 h → Hash_from_hex (to_hex h) = Ok h.
Proof.
  intros [Hl Hw]. unfold Hash_from_hex. rewrite from_to_hex by done. unfold Hash_try_from, array_try_from.
  by rewrite bool_decide_eq_true_2.
Qed.

Lemma to_hex_inj a b : bytes_wf a → bytes_wf b → to_hex a = to_hex b → a = b.
Proof.
  intros Ha Hb Hab. assert (hex_encode a = hex_encode b) as He by (unfold to_hex in Hab; by injection Hab).
  assert (Some a = Some b) as [= ->]; [|done]. by rewrite <-!hex_roundtrip, He by done.
Qed.
End Hex.

Section Rows.
Context `{!Secp256k1} `{!HexCodec, !HexCodecLaws}.
#[local] Set Default Proof Using "Type*".

(** What every acknowledged ticket of the node satisfies: the ticket is
    verified and was built in its bounds, and the response solves its
    challenge. *)
Definition storable (ds : Hash) (a : AcknowledgedTicket) : Prop :=
  let t := verified_ticket (ack_ticket a) in
  VerifiedTicket_wf ds (ack_ticket a) ∧ Ticket_typed t ∧ Ticket_built t ∧
  array_wf 32 (ack_response a) ∧ array_wf 32 (verified_hash (ack_ticket a)) ∧
  ∃ c, Response_to_challenge (ack_response a) = Ok c ∧ t_challenge t = Challenge_to_ethereum_challenge c.

Lemma wrap_to_i32 z : in_u 32 z → wrap 32 (to_i32 z) = z.
Proof.
  intros Hz. unfold to_i32. rewrite (wrap_small 32 z) by done. unfold in_u, wrap in *.
  case_match; [by apply Z.mod_small|].
  replace (z - 2 ^ 32) with (z + (-1) * 2 ^ 32) by lia. rewrite Z.mod_add by lia. by apply Z.mod_small.
Qed.

Lemma status_roundtrip s : AcknowledgedTicketStatus_try_from (wrap 8 (AcknowledgedTicketStatus_repr s)) = Some s.
Proof. by destruct s. Qed.

Lemma build_decoded t sig :
  Ticket_built t → t_signature t = Some sig →
  build (set_signature sig (set_challenge (t_challenge t) (set_channel_epoch (t_channel_epoch t)
    (set_win_prob (t_encoded_win_prob t) (set_index_offset (t_index_offset t) (set_index (t_index t)
      (set_amount (amount (t_amount t)) (set_channel_id (t_channel_id t) TicketBuilder_default)))))))) = Ok t.
Proof.
  intros (Ha & Hi & He & Ho) Hs. apply build_Ok. exists (t_channel_id t), (t_challenge t).
  split; [done|]. split; [done|]. exists (t_amount t).
  split; [|split; [apply Hi|split; [apply He|split; [apply Ho|]]]].
  - unfold build_amount. cbn [b_amount b_balance set_signature set_challenge set_channel_epoch set_win_prob
      set_index_offset set_index set_amount set_channel_id TicketBuilder_default].
    rewrite (proj2 (Z.ltb_lt _ _)) by lia. by destruct (t_amount t).
  - destruct t; cbn in *. by rewrite Hs.
Qed.

(** Rows lose nothing: an acknowledged ticket is read back as it was stored. *)
Lemma row_roundtrip ds id a :
  storable ds a → ∃ r, ActiveModel_from (E:=DbSqlError) id a = Ok r ∧ AcknowledgedTicket_try_from r = Ok a.
Proof.
  destruct a as [st [t h iss] resp].
  intros ((Hh & sig & pk & Hsig & Hrec & Hiss) & (Hc & Ha & Hi & Ho & Hw & He & Hch & Hs) & Hb & Hr & Hhw & c & Hrc & Htc).
  cbn [ack_ticket verified_ticket verified_hash verified_issuer ack_response ack_status] in *.
  unfold ActiveModel_from. cbn [ack_ticket verified_ticket]. rewrite Hsig. eexists. split; [done|].
  unfold AcknowledgedTicket_try_from.
  cbn [m_response m_channel_id m_amount m_index m_index_offset m_winning_probability m_channel_epoch
       m_signature m_hash m_state ack_ticket verified_ticket verified_hash ack_response ack_status].
  assert (∀ size name v, length v = size → array_try_from size name v = Ok v) as Hat
    by (intros; unfold array_try_from; by rewrite bool_decide_eq_true_2).
  unfold Response_try_from, WinProb_try_from, Signature_try_from, Hash_try_from.
  rewrite !Hat by first [apply Hr|apply Hw|apply Hhw|apply (Hs _ Hsig)]. cbn [map_err mbind outcome_bind].
  rewrite (Hash_from_to_hex _ Hc). cbn [map_err mbind outcome_bind].
  rewrite (U256_be_roundtrip _ Ha). cbn [mbind outcome_bind].
  rewrite U256_from_to_be by (done || lia). cbn [mbind outcome_bind]. rewrite (U256_as_ok _ _ Hi). cbn [mbind outcome_bind].
  rewrite U256_be_roundtrip by (unfold in_u in *; lia). cbn [mbind outcome_bind].
  rewrite (U256_as_ok _ _ He). cbn [mbind outcome_bind].
  rewrite Hrc. cbn [map_err mbind outcome_bind].
  unfold build_verified. change (b_signature (set_signature sig ?b)) with (Some sig).
  cbv iota beta. rewrite Hrec. cbn [map_err mbind outcome_bind].
  rewrite wrap_to_i32 by done.
  rewrite <-Htc, (build_decoded t sig Hb Hsig). cbn [map_err mbind outcome_bind].
  rewrite status_roundtrip. cbn [ok_or mbind outcome_bind]. by rewrite Hiss.
Qed.

(** ** Selectors *)
Definition bounded {T} (val : T → Z) (lb ub : Bound T) (x : Z) : bool :=
  match lb with Included l => val l <=? x | Excluded l => val l <? x | Unbounded => true end &&
  match ub with Included u => x <=? val u | Excluded u => x <? val u | Unbounded => true end.

(** The tickets that a selector describes. *)
Definition selects (s : TicketSelector) (a : AcknowledgedTicket) : bool :=
  let t := verified_ticket (ack_ticket a) in
  existsb (λ '(channel_id, epoch), bool_decide (t_channel_id t = channel_id) && (t_channel_epoch t =? epoch))
    (channel_identifiers s) &&
  match sel_index s with
  | NoIndex => true
  | SingleIndex idx => t_index t =? idx
  | MultipleIndices idxs => bool_decide (t_index t ∈ idxs)
  | IndexRange lb ub => bounded (λ i, i) lb ub (t_index t)
  end &&
  match sel_state s with Some state => bool_decide (ack_status a = state) | None => true end &&
  (if only_aggregated s then 1 <? t_index_offset t else true) &&
  bounded as_luck (sel_win_prob s).1 (sel_win_prob s).2 (as_luck (t_encoded_win_prob t)) &&
  bounded amount (sel_amount s).1 (sel_amount s).2 (amount (t_amount t)).

Definition bound_in {T} (P : T → Prop) (b : Bound T) : Prop :=
  match b with Included x | Excluded x => P x | Unbounded => True end.

Definition id_wf (id : Hash * Z) : Prop := array_wf 32 id.1 ∧ in_u 256 id.2.

(** The ranges of the Rust types of a selector. *)
Definition selector_typed (s : TicketSelector) : Prop :=
  Forall id_wf (channel_identifiers s) ∧
  match sel_index s with
  | NoIndex => True
  | SingleIndex idx => in_u 64 idx
  | MultipleIndices idxs => ∀ i, i ∈ idxs → in_u 64 i
  | IndexRange lb ub => bound_in (in_u 64) lb ∧ bound_in (in_u 64) ub
  end ∧
  bound_in (array_wf 7) (sel_win_prob s).1 ∧ bound_in (array_wf 7) (sel_win_prob s).2 ∧
  bound_in Balance_wf (sel_amount s).1 ∧ bound_in Balance_wf (sel_amount s).2.

Lemma bounds_exact {T} (enc : T → bytes) (val : T → Z) (P : T → Prop) lb ub x :
  (∀ a b, P a → P b → bytes_cmp (enc a) (enc b) = (val a ?= val b)) →
  bound_in P lb → bound_in P ub → P x →
  lower_bound enc lb (enc x) && upper_bound enc ub (enc x) = bounded val lb ub (val x).
Proof.
  intros Hcmp Hl Hu Hx. unfold lower_bound, upper_bound, bounded, blob_le, blob_lt.
  destruct lb as [l|l|], ub as [u|u|]; cbn in Hl, Hu; rewrite ?Hcmp by done; unfold Z.leb, Z.ltb;
    repeat destruct (_ ?= _); done.
Qed.

Lemma bytes_cmp_to_be n a b :
  in_u (8 * Z.of_nat n) a → in_u (8 * Z.of_nat n) b → bytes_cmp (to_be n a) (to_be n b) = (a ?= b).
Proof.
  intros Ha Hb. rewrite bytes_cmp_from_be, !from_be_to_be_small by (done || apply to_be_wf || by rewrite !length_to_be).
  done.
Qed.

Lemma bytes_cmp_as_luck a b :
  array_wf 7 a → array_wf 7 b → bytes_cmp (as_encoded a) (as_encoded b) = (as_luck a ?= as_luck b).
Proof. intros [Ha ?] [Hb ?]. rewrite !as_luck_from_be. apply bytes_cmp_from_be; congruence. Qed.

Lemma to_be_eq n a b :
  in_u (8 * Z.of_nat n) a → in_u (8 * Z.of_nat n) b → bool_decide (to_be n a = to_be n b) = (a =? b).
Proof.
  intros Ha Hb. destruct (Z.eqb_spec a b) as [->|Hab]; [by rewrite bool_decide_eq_true_2|].
  apply bool_decide_eq_false_2. intros He. apply Hab.
  by rewrite <-(from_be_to_be_small n a), He, from_be_to_be_small.
Qed.

(** The condition on rows and the description of tickets agree. *)
Lemma selector_agrees (s : TicketSelector) (a : AcknowledgedTicket) (id : Z) (r : TicketModel) :
  selector_typed s → Ticket_typed (verified_ticket (ack_ticket a)) →
  t_index_offset (verified_ticket (ack_ticket a)) < 2 ^ 31 →
  ActiveModel_from (E:=DbSqlError) id a = Ok r →
  into_condition s r = selects s a.
Proof.
  intros (Hids & Hidx & Hw1 & Hw2 & Ha1 & Ha2) (Hc & Ha & Hi & Ho & Hw & He & _) Hoff Hr.
  unfold ActiveModel_from in Hr. apply bind_Ok in Hr as (sig & _ & [= <-]).
  unfold into_condition, selects.
  cbn [m_channel_id m_channel_epoch m_index m_state m_index_offset m_winning_probability m_amount].
  set (t := verified_ticket (ack_ticket a)) in *.
  assert (∀ l, Forall id_wf l →
    existsb (λ '(c, e), bool_decide (to_hex (t_channel_id t) = to_hex c) &&
      bool_decide (U256_to_be_bytes (t_channel_epoch t) = U256_to_be_bytes e)) l =
    existsb (λ '(c, e), bool_decide (t_channel_id t = c) && (t_channel_epoch t =? e)) l) as Hex.
  { induction 1 as [|[c e] l [Hwc Hwe] _ IH]; [done|]. cbn in Hwc, Hwe. cbn [existsb]. rewrite IH. f_equal. f_equal.
    - apply bool_decide_ext. split; [apply to_hex_inj; [apply Hc|apply Hwc]|congruence].
    - apply (to_be_eq 32); unfold in_u in *; lia. }
  rewrite (Hex _ Hids).
  rewrite <-(bounds_exact as_encoded as_luck (array_wf 7) _ _ _ bytes_cmp_as_luck Hw1 Hw2 Hw).
  rewrite <-(bounds_exact Balance_to_be_bytes amount Balance_wf _ _ _
    (λ a b, bytes_cmp_to_be 32 (amount a) (amount b)) Ha1 Ha2 Ha).
  rewrite !andb_assoc. do 4 f_equal.
  assert (to_i32 (t_index_offset t) = t_index_offset t) as ->.
  { unfold to_i32. rewrite wrap_small by done. by rewrite (proj2 (Z.ltb_lt _ _)). }
  f_equal. f_equal; [f_equal|].
  - destruct (sel_index s) as [|idx|idxs|lb ub]; [done|by apply (to_be_eq 8)| |].
    + apply eq_true_iff_eq. rewrite List.existsb_exists, bool_decide_eq_true. split.
      * intros (k & Hk%list_elem_of_In%elem_of_elements & Hik). rewrite (to_be_eq 8) in Hik by auto.
        apply Z.eqb_eq in Hik. by rewrite Hik.
      * intros Hk. exists (t_index t). rewrite <-list_elem_of_In, elem_of_elements.
        split; [done|]. by apply bool_decide_eq_true.
    + destruct Hidx. by apply (bounds_exact (to_be 8) (λ i, i) (in_u 64) _ _ _ (bytes_cmp_to_be 8)).
  - destruct (sel_state s) as [st|]; [|done]. by destruct (ack_status a), st.
Qed.

(** The SQL condition of a selector selects exactly the tickets that the
    selector describes: the columns hold big-endian bytes, and comparing these
    compares the channel, epoch, index, winning probability and amount as
    numbers.  The [i32] column of the index offset costs nothing below 2^31. *)
Theorem selector_exact (s : TicketSelector) (a : AcknowledgedTicket) (id : Z) (r : TicketModel) :
  selector_typed s → Ticket_typed (verified_ticket (ack_ticket a)) →
  t_index_offset (verified_ticket (ack_ticket a)) < 2 ^ 31 →
  ActiveModel_from (E:=DbSqlError) id a = Ok r →
  into_condition s r = selects s a.
Proof. by apply selector_agrees. Qed.
End Rows.

(** ** Marking *)
Section Accounts.
Context `{!Secp256k1} `{!HexCodec, !HexCodecLaws} `{!ScanOrder, !ScanOrderLaws}.
#[local] Set Default Proof Using "Type*".

Definition column (mark : TicketMarker) (st : StatsModel) : bytes :=
  match mark with
  | Redeemed => st_redeemed_value st
  | Rejected => st_rejected_value st
  | Neglected => st_neglected_value st
  end.

Definition stats_wf (st : StatsModel) : Prop := ∀ mark, column_wf (column mark st).

(** The shape that every operation keeps: columns that decode, fresh ids, and
    at most one ticket for a channel, epoch and index. *)
Record store_wf (d : TicketsDb) : Prop := {
  wf_amounts : Forall (λ r, column_wf (m_amount r)) (tickets d);
  wf_stats : map_Forall (λ _, stats_wf) (statistics d);
  wf_ids : NoDup (m_id <$> tickets d);
  wf_next : Forall (λ r, m_id r < next_id d) (tickets d);
  wf_keys : NoDup (row_key <$> tickets d)
}.

(** The amount in a column of the statistics of a channel. *)
Definition marked (d : TicketsDb) (mark : TicketMarker) (c : string) : Z :=
  match statistics d !! c with Some st => from_be (column mark st) | None => 0 end.

Definition won (d : TicketsDb) (c : string) : Z :=
  match statistics d !! c with Some st => st_winning_tickets st | None => 0 end.

(** The rows of one channel in a list. *)
Definition in_channel (c : string) (r : TicketModel) : bool := bool_decide (m_channel_id r = c).
Definition channel_total (c : string) (rows : list TicketModel) : Z := total (filter (in_channel c) rows).

Lemma Forall_filter {A} (Q : A → Prop) (P : A → bool) (l : list A) : Forall Q l → Forall Q (filter P l).
Proof. rewrite !Forall_forall. intros Hq x [_ Hx]%list_elem_of_filter. by apply Hq. Qed.

Lemma filter_none {A} (P : A → bool) (l : list A) : (∀ x, x ∈ l → P x = false) → filter P l = [].
Proof.
  induction l as [|x l IH]; intros Hl; [done|]. rewrite filter_cons, (Hl x) by by left.
  cbn. apply IH. intros y Hy. apply Hl. by right.
Qed.

Lemma NoDup_fmap_filter {A B} (f : A → B) (P : A → bool) (l : list A) :
  NoDup (f <$> l) → NoDup (f <$> filter P l).
Proof. intros Hl. eapply sublist_NoDup; [done|]. apply fmap_sublist, sublist_filter. Qed.

Lemma filter_negb_filter {A} (P Q : A → bool) (l : list A) :
  filter (λ r, negb (Q r)) (filter (λ r, negb (P r)) l) = filter (λ r, negb (P r || Q r)) l.
Proof.
  rewrite list_filter_filter. apply list_filter_iff. intros r. destruct (P r), (Q r); cbn; tauto.
Qed.

Lemma filter_split {A} (P Q : A → bool) (l : list A) :
  filter (λ r, P r || Q r) l ≡ₚ filter P l ++ filter Q (filter (λ r, negb (P r)) l).
Proof.
  induction l as [|r l IH]; [done|]. rewrite !filter_cons.
  destruct (P r) eqn:HP, (Q r) eqn:HQ; cbn [orb negb]; repeat case_decide; cbn in *; try done;
    rewrite ?filter_cons, ?HQ; repeat case_decide; cbn in *; try done; rewrite IH; try done;
    by rewrite Permutation_middle.
Qed.

Lemma stats_default_wf : stats_wf StatsModel_default.
Proof. intros []; (split; [by apply (bool_decide_unpack _)|cbn; lia]). Qed.

Definition with_column (mark : TicketMarker) (b : bytes) (st : StatsModel) : StatsModel :=
  match mark with
  | Redeemed => mkStats (st_winning_tickets st) b (st_neglected_value st) (st_rejected_value st)
  | Rejected => mkStats (st_winning_tickets st) (st_redeemed_value st) (st_neglected_value st) b
  | Neglected => mkStats (st_winning_tickets st) (st_redeemed_value st) b (st_rejected_value st)
  end.

Lemma add_marked_eq {E} mark v st :
  column_wf (column mark st) →
  add_marked (E:=E) mark v st =
    if from_be (column mark st) + v <=? U256_max
    then Ok (with_column mark (U256_to_be_bytes (from_be (column mark st) + v)) st) else Panic.
Proof.
  intros [_ Hl]. unfold add_marked, U256_from_be_bytes, U256_add.
  destruct mark; cbn [column] in *; rewrite bool_decide_eq_true_2 by done; cbn [mbind outcome_bind];
    by destruct (_ <=? _).
Qed.

Lemma add_marked_ok {E} mark v st st' :
  stats_wf st → 0 ≤ v → add_marked (E:=E) mark v st = Ok st' →
  stats_wf st' ∧ from_be (column mark st') = from_be (column mark st) + v ∧
  (∀ mark', mark' ≠ mark → column mark' st' = column mark' st) ∧
  st_winning_tickets st' = st_winning_tickets st.
Proof.
  intros Hwf Hv Ha. pose proof (from_be_column _ (Hwf mark)) as Hb. rewrite add_marked_eq in Ha by done.
  destruct (Z.leb_spec (from_be (column mark st) + v) U256_max) as [Hle|]; [|done]. injection Ha as <-.
  set (z := from_be (column mark st) + v) in *.
  assert (in_u 256 z) as Hz by (unfold in_u in *; change U256_max with (2 ^ 256 - 1) in Hle; lia).
  assert (column_wf (U256_to_be_bytes z)) as Hnew.
  { unfold U256_to_be_bytes. split; [apply to_be_wf|rewrite length_to_be; lia]. }
  split_and!.
  - intros mark'. pose proof (Hwf mark'). by destruct mark, mark'.
  - transitivity (from_be (U256_to_be_bytes z)); [by destruct mark|]. by apply from_be_to_be_small.
  - intros mark' Hne. by destruct mark, mark'.
  - by destruct mark.
Qed.

Definition matches_id (id : Hash * Z) (r : TicketModel) : bool :=
  bool_decide (m_channel_id r = to_hex id.1) && bool_decide (m_channel_epoch r = U256_to_be_bytes id.2).

(** A selector with its channels taken out. *)
Definition matches_rest (s : TicketSelector) (r : TicketModel) : bool :=
  into_condition (just_on_channel (replicate 32 0) 0 s)
    (mkTicketModel (m_id r) (to_hex (replicate 32 0)) (m_amount r) (m_index r) (m_index_offset r)
       (m_winning_probability r) (U256_to_be_bytes 0) (m_signature r) (m_response r) (m_state r) (m_hash r)).

Lemma into_condition_split s r :
  into_condition s r = existsb (λ id, matches_id id r) (channel_identifiers s) && matches_rest s r.
Proof.
  unfold matches_rest, into_condition at 2. cbn [just_on_channel channel_identifiers existsb m_channel_id
    m_channel_epoch m_index m_state m_index_offset m_winning_probability m_amount sel_index sel_state
    only_aggregated sel_win_prob sel_amount].
  rewrite !bool_decide_eq_true_2 by done. cbn [andb orb].
  unfold into_condition. rewrite <-!andb_assoc. f_equal.
  induction (channel_identifiers s) as [|[c e] l IH]; [done|]. cbn [existsb]. by rewrite IH.
Qed.

Lemma just_on_channel_split s id r :
  into_condition (just_on_channel id.1 id.2 s) r = matches_id id r && matches_rest s r.
Proof. rewrite into_condition_split. cbn [just_on_channel channel_identifiers existsb]. by rewrite orb_false_r. Qed.

Definition same_but_marked (mark : TicketMarker) (d d' : TicketsDb) : Prop :=
  (∀ c mark', mark' ≠ mark → marked d' mark' c = marked d mark' c) ∧
  (∀ c, won d' c = won d c) ∧ next_id d' = next_id d ∧ outgoing_indices d' = outgoing_indices d.

Lemma get_tickets_value_int_ok sel d :
  store_wf d → total (tickets d) ≤ U256_max →
  get_tickets_value_int sel d =
    (d, Ok (length (filter (into_condition sel) (tickets d)),
            mkBalance (total (filter (into_condition sel) (tickets d))))).
Proof.
  intros Hwf Ht. unfold get_tickets_value_int, find_where. autorewrite with run.
  set (rows := filter (into_condition sel) (tickets d)).
  assert (Forall (λ r, column_wf (m_amount r)) rows) as Hr by apply Forall_filter, (wf_amounts _ Hwf).
  pose proof (scan_permutation _ rows) as Hp.
  rewrite rows_value_total by (by rewrite Hp). autorewrite with run. rewrite Hp.
  pose proof (total_filter (into_condition sel) (tickets d)) as Hs.
  assert (0 ≤ total (filter (λ r, negb (into_condition sel r)) (tickets d)))
    by (apply total_nonneg, Forall_filter, (wf_amounts _ Hwf)).
  fold rows in Hs. rewrite Z.min_l by lia. done.
Qed.

Lemma set_tickets_wf (P : TicketModel → bool) d :
  store_wf d → store_wf (set_tickets (filter P (tickets d)) d).
Proof.
  intros [Ha Hs Hi Hn Hk].
  split; cbn; [by apply Forall_filter|done|by apply NoDup_fmap_filter|by apply Forall_filter|
    by apply NoDup_fmap_filter].
Qed.

(** What marking the tickets [P] of a channel does to the database. *)
Definition marks (mark : TicketMarker) (P : TicketModel → bool) (d d' : TicketsDb) : Prop :=
  tickets d' = filter (λ r, negb (P r)) (tickets d) ∧
  (∀ c, marked d' mark c = marked d mark c + channel_total c (filter P (tickets d))) ∧
  same_but_marked mark d d' ∧ store_wf d'.

Lemma marks_none mark (P : TicketModel → bool) d : store_wf d → filter P (tickets d) = [] → marks mark P d d.
Proof.
  intros Hwf Hn. split_and!; [|intros c; rewrite Hn; cbn; lia|done|done].
  clear -Hn. induction (tickets d) as [|r l IH]; [done|]. rewrite !filter_cons in *.
  destruct (P r); cbn in *; repeat case_decide; cbn in *; try done. f_equal. by apply IH.
Qed.

Lemma marks_ext mark (P Q : TicketModel → bool) d d' :
  (∀ r, P r = Q r) → marks mark P d d' → marks mark Q d d'.
Proof.
  intros HPQ (Ht & Hm & Hs & Hwf).
  assert (∀ l, filter P l = filter Q l) as Hf by (intros; apply list_filter_iff; intros; by rewrite HPQ).
  split_and!; [|intros c; by rewrite <-Hf|done|done].
  rewrite Ht. apply list_filter_iff. intros r. by rewrite HPQ.
Qed.

Lemma channel_total_app c l1 l2 : channel_total c (l1 ++ l2) = channel_total c l1 + channel_total c l2.
Proof. unfold channel_total. by rewrite filter_app, total_app. Qed.

Lemma marks_trans mark (P Q : TicketModel → bool) d d1 d2 :
  marks mark P d d1 → marks mark Q d1 d2 → marks mark (λ r, P r || Q r) d d2.
Proof.
  intros (Ht1 & Hm1 & (Ho1 & Hw1 & Hn1 & Hi1) & _) (Ht2 & Hm2 & (Ho2 & Hw2 & Hn2 & Hi2) & Hwf). split_and!.
  - by rewrite Ht2, Ht1, filter_negb_filter.
  - intros c. rewrite Hm2, Hm1, Ht1. unfold channel_total at 3. rewrite filter_split.
    fold (channel_total c (filter P (tickets d) ++ filter Q (filter (λ r, negb (P r)) (tickets d)))).
    rewrite channel_total_app. lia.
  - split_and!; [intros; by rewrite Ho2, Ho1|intros; by rewrite Hw2, Hw1|congruence|congruence].
  - done.
Qed.

(** The tail of one turn of the loop: the rows are deleted and their value is
    added to the statistics of their channel. *)
Lemma mark_turn mark (id : Hash * Z) (P : TicketModel → bool) d st :
  store_wf d → (∀ r, P r = true → m_channel_id r = to_hex id.1) →
  0 ≤ total (filter P (tickets d)) →
  add_marked (E:=DbSqlError) mark (total (filter P (tickets d)))
    (default StatsModel_default (statistics d !! to_hex id.1)) = Ok st →
  marks mark P d (set_statistics (<[to_hex id.1 := st]> (statistics d))
    (set_tickets (filter (λ r, negb (P r)) (tickets d)) d)).
Proof.
  intros Hwf HP Hpos Hst.
  assert (stats_wf (default StatsModel_default (statistics d !! to_hex id.1))) as Hsw.
  { destruct (statistics d !! to_hex id.1) eqn:Hl; [by apply (wf_stats _ Hwf _ _ Hl)|apply stats_default_wf]. }
  destruct (add_marked_ok _ _ _ _ Hsw Hpos Hst) as (Hw' & Hc & Ho & Hwin).
  split; [done|]. split; [|split].
  - intros c. unfold marked. cbn [statistics set_statistics set_tickets].
    destruct (decide (c = to_hex id.1)) as [->|Hne].
    + rewrite lookup_insert_eq, Hc. unfold channel_total.
      assert (filter (in_channel (to_hex id.1)) (filter P (tickets d)) = filter P (tickets d)) as ->.
      { rewrite list_filter_filter. apply list_filter_iff. intros r. unfold in_channel.
        rewrite bool_decide_spec. destruct (P r) eqn:HPr; cbn; [|tauto]. rewrite (HP r HPr). tauto. }
      destruct (statistics d !! to_hex id.1); [done|]. cbn. destruct mark; done.
    + rewrite lookup_insert_ne by done. unfold channel_total.
      assert (filter (in_channel c) (filter P (tickets d)) = []) as ->; [|cbn; lia].
      apply filter_none. intros r [HPr _]%list_elem_of_filter. apply Is_true_true, HP in HPr.
      unfold in_channel. rewrite HPr. by apply bool_decide_eq_false_2.
  - split_and!; [| |done|done]; intros c.
    + intros mark' Hne. unfold marked. cbn [statistics set_statistics set_tickets].
      destruct (decide (c = to_hex id.1)) as [->|Hc']; [|by rewrite lookup_insert_ne].
      rewrite lookup_insert_eq, Ho by done. destruct (statistics d !! to_hex id.1); [done|]. by destruct mark'.
    + unfold won. cbn [statistics set_statistics set_tickets].
      destruct (decide (c = to_hex id.1)) as [->|Hc']; [|by rewrite lookup_insert_ne].
      rewrite lookup_insert_eq, Hwin. by destruct (statistics d !! to_hex id.1).
  - pose proof (set_tickets_wf (λ r, negb (P r)) d Hwf) as [Ha Hs Hi Hn Hk]. split; try done.
    cbn [statistics set_statistics]. by apply map_Forall_insert_2.
Qed.

(** Adding to the statistics of a channel, its row being created on demand. *)
Lemma add_stats_run mark (c : Hash) v d :
  store_wf d → 0 ≤ v →
  let tx := stats ← find_stats_for_channel c; new_stats ← lift (add_marked mark v stats); save_stats c new_stats in
  (∃ st, add_marked (E:=DbSqlError) mark v (default StatsModel_default (statistics d !! to_hex c)) = Ok st ∧
         tx d = (set_statistics (<[to_hex c := st]> (statistics d)) d, Ok tt)) ∨
  ((tx d).2 = Panic ∧ U256_max < marked d mark (to_hex c) + v).
Proof.
  intros Hwf Hv tx. subst tx. unfold find_stats_for_channel, save_stats, marked.
  assert (stats_wf (default StatsModel_default (statistics d !! to_hex c))) as Hsw.
  { destruct (statistics d !! to_hex c) eqn:Hl; [by apply (wf_stats _ Hwf _ _ Hl)|apply stats_default_wf]. }
  set (st := default StatsModel_default (statistics d !! to_hex c)) in *.
  assert (from_be (column mark st) = match statistics d !! to_hex c with
    Some st => from_be (column mark st) | None => 0 end) as Hcol.
  { subst st. destruct (statistics d !! to_hex c); [done|]. by destruct mark. }
  assert ((d ← get; match statistics d !! to_hex c with
                    | Some model => mret model
                    | None => modify (set_statistics (<[to_hex c := StatsModel_default]> (statistics d)));;
                              mret StatsModel_default
                    end) d =
    (match statistics d !! to_hex c with
     | Some _ => d | None => set_statistics (<[to_hex c := StatsModel_default]> (statistics d)) d end,
     Ok (E:=DbSqlError) st)) as Hfind.
  { subst st. autorewrite with run. by destruct (statistics d !! to_hex c). }
  rewrite (run_Ok _ _ _ _ _ Hfind), <-Hcol. unfold mbind at 1 2, SM_bind. unfold lift at 1 2.
  rewrite !add_marked_eq by done.
  destruct (Z.leb_spec (from_be (column mark st) + v) U256_max) as [Hle|Hgt]; [left|by right].
  eexists. split; [done|]. autorewrite with run.
  destruct (statistics d !! to_hex c); [done|]. cbn. unfold set_statistics. cbn. by rewrite insert_insert_eq.
Qed.

(** One turn of the loop either finds nothing or marks the tickets of the
    channel and forgets its cached value; it can only fail by the overflow of
    a statistics column, which aborts. *)
Lemma mark_loop_turn s mark id ids n m :
  let P r := matches_id id r && matches_rest s r in
  store_wf (tickets_db m) → total (tickets (tickets_db m)) ≤ U256_max →
  (filter P (tickets (tickets_db m)) = [] ∧ mark_loop s mark (id :: ids) n m = mark_loop s mark ids n m) ∨
  (filter P (tickets (tickets_db m)) ≠ [] ∧
    (mark_loop s mark (id :: ids) n m).2 = Panic ∧
    U256_max < marked (tickets_db m) mark (to_hex id.1) + total (filter P (tickets (tickets_db m)))) ∨
  (filter P (tickets (tickets_db m)) ≠ [] ∧ ∃ d', marks mark P (tickets_db m) d' ∧
    mark_loop s mark (id :: ids) n m =
      mark_loop s mark ids (n + length (filter P (tickets (tickets_db m))))
        (set_unrealized (delete id (unrealized_cache m)) (set_tickets_db d' m))).
Proof.
  intros P Hwf Ht. destruct id as [c e]. set (d := tickets_db m) in *.
  assert (∀ r, into_condition (just_on_channel c e s) r = P r) as HP by apply (just_on_channel_split s (c, e)).
  assert (∀ l, filter (into_condition (just_on_channel c e s)) l = filter P l) as HF
    by (intros; apply list_filter_iff; intros; by rewrite HP).
  assert (∀ l, filter (λ r, negb (into_condition (just_on_channel c e s) r)) l = filter (λ r, negb (P r)) l) as HN
    by (intros; apply list_filter_iff; intros; by rewrite HP).
  cbn [mark_loop]. set (k := mark_loop s mark ids) in *.
  assert (in_tx (get_tickets_value_int (just_on_channel c e s)) m =
    (m, Ok (length (filter P (tickets d)), mkBalance (total (filter P (tickets d)))))) as Hget.
  { unfold in_tx. fold d. rewrite (get_tickets_value_int_ok _ _ Hwf Ht), !HF. by destruct m. }
  rewrite (run_Ok _ _ _ _ _ Hget). cbv beta iota.
  destruct (Nat.ltb_spec 0 (length (filter P (tickets d)))) as [Hlt|Hle].
  2: { left. assert (filter P (tickets d) = []) as Hnil by (destruct (filter P (tickets d)); cbn in *; [done|lia]).
    done. }
  right. assert (filter P (tickets d) ≠ []) as Hne by (intros He; rewrite He in Hlt; cbn in Hlt; lia).
  assert (in_tx (delete_many (into_condition (just_on_channel c e s))) m =
    (set_tickets_db (set_tickets (filter (λ r, negb (P r)) (tickets d)) d) m, Ok (length (filter P (tickets d))))) as Hdel.
  { unfold in_tx, delete_many. autorewrite with run. fold d. by rewrite HN, HF. }
  rewrite (run_Ok _ _ _ _ _ Hdel). rewrite Nat.eqb_refl.
  set (d1 := set_tickets (filter (λ r, negb (P r)) (tickets d)) d).
  assert (store_wf d1) as Hwf1 by by apply set_tickets_wf.
  assert (0 ≤ total (filter P (tickets d))) as Hpos by apply total_nonneg, Forall_filter, (wf_amounts _ Hwf).
  pose proof (add_stats_run mark c (total (filter P (tickets d))) d1 Hwf1 Hpos) as Hadd. cbv zeta in Hadd.
  set (tx := stats ← find_stats_for_channel c; _) in Hadd.
  match goal with |- context [in_tx ?t] => change t with tx end.
  destruct Hadd as [(st & Hst & Hrun)|[Hrun Hgt]].
  - right. split; [done|]. exists (set_statistics (<[to_hex c := st]> (statistics d)) d1). split.
    + apply (mark_turn mark (c, e) P d st Hwf); [|done..].
      intros r [[Hr _]%andb_prop _]%andb_prop. by apply bool_decide_eq_true in Hr.
    + assert (in_tx tx (set_tickets_db d1 m) =
        (set_tickets_db (set_statistics (<[to_hex c := st]> (statistics d)) d1) m, Ok tt)) as Hin.
      { unfold in_tx. cbn [tickets_db set_tickets_db]. by rewrite Hrun. }
      by rewrite (run_Ok _ _ _ _ _ Hin).
  - left. split_and!; [done| |done].
    assert (∃ m', in_tx tx (set_tickets_db d1 m) = (m', Panic)) as [m' Hin].
    { unfold in_tx. cbn [tickets_db set_tickets_db]. destruct (tx d1) as [d2 o]. cbn in Hrun. subst o. by eexists. }
    unfold mbind, SM_bind. by rewrite Hin.
Qed.

(** What [mark_tickets_as] leaves of the cached unrealized values: an entry is
    forgotten when tickets of its channel and epoch were marked. *)
Definition forgotten (s : TicketSelector) (ids : list (Hash * Z)) (d : TicketsDb) (key : Hash * Z) : bool :=
  bool_decide (key ∈ ids) && existsb (λ r, matches_id key r && matches_rest s r) (tickets d).

Definition marked_by (s : TicketSelector) (ids : list (Hash * Z)) (r : TicketModel) : bool :=
  existsb (λ id, matches_id id r) ids && matches_rest s r.

Lemma filter_complement {A} (P : A → bool) (l : list A) : l ≡ₚ filter P l ++ filter (λ r, negb (P r)) l.
Proof.
  induction l as [|r l IH]; [done|]. rewrite !filter_cons. destruct (P r); cbn; repeat case_decide; try done; cbn in *; try done;
    rewrite IH at 1; [done|]. by rewrite Permutation_middle.
Qed.

Lemma filter_nil_existsb {A} (P : A → bool) (l : list A) : filter P l = [] ↔ existsb P l = false.
Proof.
  induction l as [|x l IH]; [done|]. rewrite filter_cons. cbn. destruct (P x); cbn; [done|].
  by rewrite <-IH.
Qed.

Lemma matches_id_inj id id' r :
  id_wf id → id_wf id' → matches_id id r = true → matches_id id' r = true → id = id'.
Proof.
  destruct id as [c e], id' as [c' e']. intros [[_ Hwc] He] [[_ Hwc'] He']. cbn in Hwc, Hwc', He, He'.
  unfold matches_id. cbn. rewrite !andb_true_iff, !bool_decide_eq_true. intros [Hc Hee] [Hc' Hee'].
  rewrite Hc in Hc'. apply to_hex_inj in Hc' as ->; [|done..]. rewrite Hee in Hee'. f_equal.
  rewrite <-(from_be_to_be_small 32 e), <-(from_be_to_be_small 32 e') by done. by f_equal.
Qed.

Lemma forgotten_turn s id ids d d1 key :
  Forall id_wf (id :: ids) →
  tickets d1 = filter (λ r, negb (matches_id id r && matches_rest s r)) (tickets d) →
  forgotten s (id :: ids) d key =
    (bool_decide (key = id) && existsb (λ r, matches_id id r && matches_rest s r) (tickets d))
    || forgotten s ids d1 key.
Proof.
  intros [Hid Hids]%Forall_cons Hd1. unfold forgotten. rewrite Hd1.
  destruct (decide (key = id)) as [->|Hne].
  - rewrite !(bool_decide_eq_true_2 (id = id)) by done. rewrite bool_decide_eq_true_2 by by left. cbn [andb].
    destruct (existsb _ (tickets d)); [done|]. cbn [orb]. symmetry. apply andb_false_intro2.
    apply filter_nil_existsb, filter_none. intros r [Hr _]%list_elem_of_filter.
    by destruct (matches_id id r && matches_rest s r).
  - rewrite (bool_decide_eq_false_2 (key = id)) by done. cbn [andb orb].
    rewrite (bool_decide_ext (key ∈ id :: ids) (key ∈ ids)) by (rewrite elem_of_cons; tauto).
    case_bool_decide as Hin; [|done]. cbn [andb].
    apply eq_true_iff_eq. rewrite !List.existsb_exists.
    rewrite Forall_forall in Hids. specialize (Hids _ Hin). split.
    + intros (r & Hr & Hk). exists r. split; [|done]. apply list_elem_of_In, list_elem_of_filter.
      split; [|by apply list_elem_of_In]. apply andb_prop in Hk as [Hk _].
      destruct (matches_id id r) eqn:Hir; [|done]. destruct Hne. by apply (matches_id_inj key id r).
    + intros (r & Hr%list_elem_of_In & Hk). exists r. split; [|done].
      apply list_elem_of_filter in Hr as [_ Hr]. by apply list_elem_of_In.
Qed.
(** The outcome of marking: exact accounts, or the abort of an overflow. *)
Definition marking (s : TicketSelector) (mark : TicketMarker) (ids : list (Hash * Z)) (n : nat)
    (m : TicketManager) (res : TicketManager * outcome DbSqlError nat) : Prop :=
  let d := tickets_db m in
  let rows := filter (marked_by s ids) (tickets d) in
  match res with
  | (m', Ok n') =>
      n' = (n + length rows)%nat ∧ marks mark (marked_by s ids) d (tickets_db m') ∧
      (∀ key, unrealized_cache m' !! key = if forgotten s ids d key then None else unrealized_cache m !! key) ∧
      index_cache m' = index_cache m ∧ incoming m' = incoming m ∧ notified m' = notified m
  | (_, Err _) => False
  | (_, Panic) => ∃ c, U256_max < marked d mark c + channel_total c rows
  end.

Lemma marked_by_cons s id ids r :
  marked_by s (id :: ids) r = matches_id id r && matches_rest s r || marked_by s ids r.
Proof. unfold marked_by. cbn [existsb]. by rewrite andb_orb_distrib_l. Qed.

Lemma filter_marked_by_cons s id ids l :
  let P r := matches_id id r && matches_rest s r in
  filter (marked_by s (id :: ids)) l ≡ₚ filter P l ++ filter (marked_by s ids) (filter (λ r, negb (P r)) l).
Proof.
  intros P. rewrite <-filter_split. apply reflexive_eq, list_filter_iff. intros r. by rewrite marked_by_cons.
Qed.

Lemma channel_total_nonneg c l : Forall (λ r, column_wf (m_amount r)) l → 0 ≤ channel_total c l.
Proof. intros Hl. by apply total_nonneg, Forall_filter. Qed.

#[global] Instance channel_total_proper c : Proper ((≡ₚ) ==> (=)) (channel_total c).
Proof. intros l1 l2 Hl. unfold channel_total. by rewrite Hl. Qed.

(** Rows of one channel. *)
Lemma channel_total_one c l : (∀ r, r ∈ l → m_channel_id r = c) → channel_total c l = total l.
Proof.
  intros Hl. unfold channel_total. f_equal. induction l as [|r l IH]; [done|]. rewrite filter_cons.
  rewrite IH by (intros r' Hr'; apply Hl; by right).
  case_decide as Hr; [done|]. destruct Hr. unfold in_channel. rewrite (Hl r) by by left. by apply bool_decide_spec.
Qed.

Lemma mark_loop_ok s mark ids n m :
  Forall id_wf ids →
  store_wf (tickets_db m) → total (tickets (tickets_db m)) ≤ U256_max →
  marking s mark ids n m (mark_loop s mark ids n m).
Proof.
  intros Hids. revert n m. induction Hids as [|id ids Hid Hids IH]; intros n m Hwf Ht.
  { assert (filter (marked_by s []) (tickets (tickets_db m)) = []) as Hn by by apply filter_none.
    cbn [mark_loop]. unfold marking. rewrite Hn. split; [cbn; lia|]. split; [by apply marks_none|].
    split; [intros key; unfold forgotten; by rewrite bool_decide_eq_false_2 by apply not_elem_of_nil|done]. }
  set (P := λ r, matches_id id r && matches_rest s r). set (d := tickets_db m) in *.
  pose proof (filter_marked_by_cons s id ids (tickets d)) as Hsplit. cbv zeta in Hsplit. fold P in Hsplit.
  assert (∀ c, 0 ≤ channel_total c (filter (marked_by s ids) (filter (λ r, negb (P r)) (tickets d)))) as Hrest.
  { intros c. by apply channel_total_nonneg, Forall_filter, Forall_filter, (wf_amounts _ Hwf). }
  pose proof (mark_loop_turn s mark id ids n m Hwf Ht) as Hturn. cbv zeta in Hturn. fold P d in Hturn.
  destruct Hturn as [[Hnil ->]|[(Hne & Hp & Hgt)|(Hne & d' & Hm & ->)]].
  - assert (filter (λ r, negb (P r)) (tickets d) = tickets d) as Hall.
    { by destruct (marks_none mark P d Hwf Hnil) as [<- _]. }
    rewrite Hnil, Hall in Hsplit. cbn [app] in Hsplit.
    specialize (IH n m Hwf Ht). unfold marking in *. fold d in IH |- *.
    destruct (mark_loop s mark ids n m) as [m' [n'|e|]]; [|done|].
    + destruct IH as (-> & Hm & Hc & Hr). split; [by rewrite Hsplit|]. split; [|split; [|done]].
      * assert (marks mark (λ r, P r || marked_by s ids r) d (tickets_db m')) as Hg
          by (apply (marks_trans mark P _ d d); [by apply marks_none|done]).
        revert Hg. apply marks_ext. intros r. by rewrite marked_by_cons.
      * intros key. rewrite (forgotten_turn s id ids d d) by first [by apply Forall_cons|by symmetry].
        assert (existsb (λ r, matches_id id r && matches_rest s r) (tickets d) = false) as ->
          by by apply filter_nil_existsb.
        rewrite andb_false_r. apply Hc.
    + destruct IH as [c Hc]. exists c. by rewrite Hsplit.
  - unfold marking. destruct (mark_loop s mark (id :: ids) n m) as [m' o]. cbn in Hp. subst o.
    exists (to_hex id.1). fold d. rewrite Hsplit, channel_total_app. specialize (Hrest (to_hex id.1)).
    rewrite channel_total_one; [lia|].
    intros r [Hr _]%list_elem_of_filter. apply Is_true_true in Hr. apply andb_prop in Hr as [Hr _].
    apply andb_prop in Hr as [Hr _]. by apply bool_decide_eq_true in Hr.
  - destruct Hm as (Hd' & Hmk & Hsame & Hwf').
    assert (total (tickets d') ≤ U256_max) as Ht'.
    { rewrite Hd'. pose proof (total_filter P (tickets d)).
      assert (0 ≤ total (filter P (tickets d))) by apply total_nonneg, Forall_filter, (wf_amounts _ Hwf). lia. }
    set (m1 := set_unrealized _ _). specialize (IH (n + length (filter P (tickets d)))%nat m1 Hwf' Ht').
    unfold marking in *. fold d. change (tickets_db m1) with d' in IH. rewrite Hd' in IH.
    destruct (mark_loop s mark ids _ m1) as [m' [n'|e|]]; [|done|].
    + destruct IH as (-> & Hm' & Hc & Hr). split; [rewrite Hsplit, length_app; lia|]. split; [|split; [|done]].
      * assert (marks mark (λ r, P r || marked_by s ids r) d (tickets_db m')) as Hg
          by by apply (marks_trans mark P _ d d').
        revert Hg. apply marks_ext. intros r. by rewrite marked_by_cons.
      * intros key. rewrite (forgotten_turn s id ids d d') by first [by apply Forall_cons|done].
        rewrite Hc. cbn [m1 unrealized_cache set_unrealized set_tickets_db].
        destruct (decide (key = id)) as [->|Hk].
        -- rewrite lookup_delete_eq, bool_decide_eq_true_2 by done. cbn [andb].
           destruct (existsb _ (tickets d)) eqn:He; [by destruct (forgotten s ids d' id)|].
           by apply filter_nil_existsb in He.
        -- rewrite lookup_delete_ne, bool_decide_eq_false_2 by done. done.
    + destruct IH as [c Hc]. exists c. rewrite Hsplit, channel_total_app. rewrite Hmk in Hc. lia.
Qed.

(** The whole call. *)
Lemma mark_tickets_as_ok (s : TicketSelector) (mark : TicketMarker) (m : TicketManager) :
  Forall id_wf (channel_identifiers s) →
  store_wf (tickets_db m) → total (tickets (tickets_db m)) ≤ U256_max →
  let d := tickets_db m in
  let rows := filter (into_condition s) (tickets d) in
  match mark_tickets_as s mark m with
  | (m', Ok n) =>
      n = length rows ∧ marks mark (into_condition s) d (tickets_db m') ∧
      (∀ key, unrealized_cache m' !! key =
        if forgotten s (channel_identifiers s) d key then None else unrealized_cache m !! key) ∧
      index_cache m' = index_cache m ∧ incoming m' = incoming m ∧ notified m' = notified m
  | (_, Err _) => False
  | (_, Panic) => ∃ c, U256_max < marked d mark c + channel_total c rows
  end.
Proof.
  intros Hids Hwf Ht d rows. subst d rows.
  assert (∀ r, marked_by s (channel_identifiers s) r = into_condition s r) as Hby
    by (intros r; by rewrite into_condition_split).
  assert (∀ l, filter (marked_by s (channel_identifiers s)) l = filter (into_condition s) l) as Hf
    by (intros; apply list_filter_iff; intros; by rewrite Hby).
  pose proof (mark_loop_ok s mark _ 0 m Hids Hwf Ht) as Hl. unfold marking in Hl. rewrite Hf in Hl.
  unfold mark_tickets_as, with_write_locked_db.
  destruct (mark_loop s mark (channel_identifiers s) 0 m) as [m' [n|e|]]; [|done..].
  destruct Hl as (Hn & Hm & Hr). split; [done|]. split; [by apply (marks_ext _ _ _ _ _ Hby)|done].
Qed.

(** Marking tickets as redeemed, rejected or neglected is exact: the
    selected tickets and no others leave the database, their number is
    returned, their value is added to the marked column of the statistics of
    each channel while the other columns and the win counts stay, and exactly
    the cached unrealized values of the channels that lost tickets are
    forgotten.  It never returns an error; it aborts only if a statistics
    column overflows 256 bits. *)
Theorem mark_tickets_as_exact (s : TicketSelector) (mark : TicketMarker) (m : TicketManager) :
  Forall id_wf (channel_identifiers s) →
  store_wf (tickets_db m) → total (tickets (tickets_db m)) ≤ U256_max →
  let d := tickets_db m in
  let rows := filter (into_condition s) (tickets d) in
  match mark_tickets_as s mark m with
  | (m', Ok n) =>
      n = length rows ∧ marks mark (into_condition s) d (tickets_db m') ∧
      (∀ key, unrealized_cache m' !! key =
        if forgotten s (channel_identifiers s) d key then None else unrealized_cache m !! key) ∧
      index_cache m' = index_cache m ∧ incoming m' = incoming m ∧ notified m' = notified m
  | (_, Err _) => False
  | (_, Panic) => ∃ c, U256_max < marked d mark c + channel_total c rows
  end.
Proof. by apply mark_tickets_as_ok. Qed.
(** ** Insertion and replacement *)
Definition ticket_of (a : AcknowledgedTicket) : Ticket := verified_ticket (ack_ticket a).
Definition value_of (a : AcknowledgedTicket) : Z := amount (t_amount (ticket_of a)).
Definition amount_ok (t : Ticket) : Prop := in_u 256 (amount (t_amount t)).

(** A new row at the end of the table. *)
Definition appends (a : AcknowledgedTicket) (l : list TicketModel) (d d' : TicketsDb) : Prop :=
  ∃ r, ActiveModel_from (E:=DbSqlError) (next_id d) a = Ok r ∧
    (row_key r ∉ (row_key <$> l)) ∧ tickets d' = l ++ [r] ∧ next_id d' = next_id d + 1.

Lemma row_of_ticket {E} id a r :
  amount_ok (ticket_of a) → ActiveModel_from (E:=E) id a = Ok r →
  m_id r = id ∧ m_channel_id r = to_hex (t_channel_id (ticket_of a)) ∧
  column_wf (m_amount r) ∧ row_value r = value_of a.
Proof.
  intros Ha (sig & _ & [= <-])%bind_Ok. unfold row_value. cbn [m_id m_channel_id m_amount].
  split_and!; [done|done| |].
  - unfold U256_to_be_bytes. split; [apply to_be_wf|rewrite length_to_be; lia].
  - by apply (from_be_to_be_small 32).
Qed.

Lemma insert_row_ok a d d' :
  insert_row a d = (d', Ok tt) →
  appends a (tickets d) d d' ∧ statistics d' = statistics d ∧ outgoing_indices d' = outgoing_indices d.
Proof.
  unfold insert_row. autorewrite with run. intros Hi.
  apply run_Ok_inv in Hi as (d1 & r & Hr & Hi). unfold lift in Hr. injection Hr as <- Hr.
  destruct (existsb _ (tickets d)) eqn:He; [done|]. injection Hi as <-.
  split; [|done]. exists r. split_and!; [done| |done|done].
  intros (r' & Hk & Hin)%list_elem_of_fmap. apply not_true_iff_false in He. apply He.
  apply List.existsb_exists. exists r'. split; [by apply list_elem_of_In|]. by apply bool_decide_eq_true_2.
Qed.

Lemma appends_wf a (P : TicketModel → bool) d d' :
  store_wf d → amount_ok (ticket_of a) → appends a (filter P (tickets d)) d d' →
  map_Forall (λ _, stats_wf) (statistics d') → store_wf d'.
Proof.
  intros [Ha Hs Hi Hn Hk] Hv (r & Hr & Hfresh & Ht & Hid) Hs'.
  destruct (row_of_ticket _ _ _ Hv Hr) as (Hrid & _ & Hcol & _). split; rewrite ?Ht, ?Hid; [..|done| | |].
  - apply Forall_app. split; [by apply Forall_filter|by apply Forall_singleton].
  - rewrite fmap_app. apply NoDup_app. split_and!; [by apply NoDup_fmap_filter| |apply NoDup_singleton].
    intros x (r' & -> & Hr')%list_elem_of_fmap Hx. apply list_elem_of_singleton in Hx.
    apply list_elem_of_filter in Hr' as [_ Hr']. rewrite Forall_forall in Hn. specialize (Hn _ Hr'). lia.
  - apply Forall_app. split; [|apply Forall_singleton; lia].
    apply Forall_filter. eapply Forall_impl; [done|]. cbn. lia.
  - rewrite fmap_app. apply NoDup_app. split_and!; [by apply NoDup_fmap_filter| |apply NoDup_singleton].
    intros x Hx Hx'. apply list_elem_of_singleton in Hx'. by subst x.
Qed.

Lemma process_insert_ok a d d' :
  store_wf d → amount_ok (ticket_of a) → process_insert a d = (d', Ok tt) →
  appends a (tickets d) d d' ∧ store_wf d' ∧ (∀ mark c, marked d' mark c = marked d mark c) ∧
  (∀ c, won d' c = if decide (c = to_hex (t_channel_id (ticket_of a))) then to_i32 (won d c + 1) else won d c).
Proof.
  intros Hwf Hv Hp. set (ch := to_hex (t_channel_id (ticket_of a))).
  unfold process_insert in Hp. apply run_Ok_inv in Hp as (d1 & [] & Hi & Hp).
  apply insert_row_ok in Hi as (Happ & Hst & _). autorewrite with run in Hp.
  fold (ticket_of a) ch in Hp. rewrite Hst in Hp.
  set (old := default StatsModel_default (statistics d !! ch)).
  assert (stats_wf old) as How.
  { subst old. destruct (statistics d !! ch) eqn:Hl; [by apply (wf_stats _ Hwf _ _ Hl)|apply stats_default_wf]. }
  assert (∃ st, d' = set_statistics (<[ch := st]> (statistics d)) d1 ∧
    st_winning_tickets st = to_i32 (st_winning_tickets old + 1) ∧ ∀ mark, column mark st = column mark old)
    as (st & -> & Hwin & Hcol).
  { unfold save_stats in Hp. subst old. fold (ticket_of a) ch in Hp.
    destruct (statistics d !! ch) as [model|] eqn:Hl; autorewrite with run in Hp;
      injection Hp as <-; rewrite Hst; eexists; (split; [done|]); split; [done|by intros []|done|by intros []]. }
  assert (map_Forall (λ _, stats_wf) (<[ch := st]> (statistics d))) as Hs'.
  { apply map_Forall_insert_2; [|apply (wf_stats _ Hwf)]. intros mark. rewrite Hcol. apply How. }
  split; [done|]. split; [|split].
  - apply (appends_wf a (λ _, true) d); [done|done| |done].
    replace (filter (λ _, true) (tickets d)) with (tickets d); [done|]. clear.
    by induction (tickets d) as [|r l IH]; [|rewrite filter_cons; cbn; f_equal].
  - intros mark c. unfold marked. cbn [statistics set_statistics].
    destruct (decide (c = ch)) as [->|Hc]; [|by rewrite lookup_insert_ne].
    rewrite lookup_insert_eq, Hcol. subst old. destruct (statistics d !! ch); [done|]. by destruct mark.
  - intros c. unfold won. cbn [statistics set_statistics].
    destruct (decide (c = ch)) as [->|Hc]; [|by rewrite lookup_insert_ne].
    rewrite lookup_insert_eq, Hwin. subst old. by destruct (statistics d !! ch).
Qed.

(** The tickets that an aggregated ticket replaces. *)
Definition replaced_by (a : AcknowledgedTicket) : TicketModel → bool :=
  let t := ticket_of a in
  into_condition (with_state BeingAggregated
    (with_index_range (Included (t_index t)) (Excluded (wrap 64 (t_index t + t_index_offset t)))
      (TicketSelector_new (t_channel_id t) (t_channel_epoch t)))).

Lemma process_replace_ok a d d' :
  store_wf d → amount_ok (ticket_of a) → process_replace a d = (d', Ok tt) →
  appends a (filter (λ r, negb (replaced_by a r)) (tickets d)) d d' ∧ store_wf d' ∧
  statistics d' = statistics d ∧
  Z.of_nat (length (filter (replaced_by a) (tickets d))) ≤ t_index_offset (ticket_of a).
Proof.
  intros Hwf Hv Hp. unfold process_replace in Hp. fold (ticket_of a) (replaced_by a) in Hp.
  apply run_Ok_inv in Hp as (d1 & n & Hd & Hp). unfold delete_many in Hd. autorewrite with run in Hd.
  injection Hd as <- <-.
  destruct (Z.ltb_spec (t_index_offset (ticket_of a)) (Z.of_nat (length (filter (replaced_by a) (tickets d)))));
    [done|]. apply insert_row_ok in Hp as (Happ & Hst & _). split_and!; [done| |done|lia].
  apply (appends_wf a _ d _ Hwf Hv Happ). rewrite Hst. apply (wf_stats _ Hwf).
Qed.
(** ** The ledger *)

(** The calls that other parts of the node make, and the turns of the
    background task. *)
Inductive StoreOp :=
| OpStart
| OpInsert (a : AcknowledgedTicket)
| OpReplace (a : AcknowledgedTicket)
| OpProcess
| OpMark (s : TicketSelector) (mark : TicketMarker)
| OpReject (t : Ticket)
| OpState (s : TicketSelector) (st : AcknowledgedTicketStatus).

(** The manager after a call, errors included; [None] when the call aborts. *)
Definition unless_panic {A} (res : TicketManager * outcome DbSqlError A) : option TicketManager :=
  match res with (_, Panic) => None | (m, _) => Some m end.

Definition store_step (op : StoreOp) (m : TicketManager) : option TicketManager :=
  match op with
  | OpStart => unless_panic (start_ticket_processing m)
  | OpInsert a => unless_panic (insert_ticket a m)
  | OpReplace a => unless_panic (replace_tickets a m)
  | OpProcess => match process_next m with Ok m => Some m | _ => None end
  | OpMark s mark => unless_panic (mark_tickets_as s mark m)
  | OpReject t => unless_panic (mark_unsaved_ticket_rejected t m)
  | OpState s st => unless_panic (update_ticket_states s st m)
  end.

Fixpoint store_run (ops : list StoreOp) (m : TicketManager) : option TicketManager :=
  match ops with [] => Some m | op :: ops => m' ← store_step op m; store_run ops m' end.

(** All value that was ever earned in a channel. *)
Definition account (d : TicketsDb) (c : string) : Z :=
  channel_total c (tickets d) + marked d Redeemed c + marked d Neglected c + marked d Rejected c.

Definition credit_to (c : string) (t : Ticket) : Z :=
  if decide (c = to_hex (t_channel_id t)) then amount (t_amount t) else 0.

(** What a step adds to a channel: an inserted ticket its amount, an aggregated
    one its amount in place of the tickets it replaces, a rejected one its amount. *)
Definition credit (c : string) (op : StoreOp) (m m' : TicketManager) : Z :=
  match op with
  | OpReject t => credit_to c t
  | OpProcess =>
      match incoming m with
      | Some (o :: _) =>
          if (length (notified m') =? length (notified m))%nat then 0
          else credit_to c (ticket_of (op_ticket o)) -
               match o with
               | Insert _ => 0
               | Replace a => channel_total c (filter (replaced_by a) (tickets (tickets_db m)))
               end
      | _ => 0
      end
  | _ => 0
  end.

Fixpoint credits (c : string) (ops : list StoreOp) (m : TicketManager) : Z :=
  match ops with
  | [] => 0
  | op :: ops =>
      match store_step op m with Some m' => credit c op m m' + credits c ops m' | None => 0 end
  end.

Definition op_typed (op : StoreOp) : Prop :=
  match op with
  | OpInsert a | OpReplace a => amount_ok (ticket_of a)
  | OpReject t => amount_ok t
  | OpMark s _ => Forall id_wf (channel_identifiers s)
  | _ => True
  end.

Definition queue (m : TicketManager) : list TicketOperation := default [] (incoming m).
Fixpoint queued_value (q : list TicketOperation) : Z :=
  match q with [] => 0 | o :: q => value_of (op_ticket o) + queued_value q end.
Definition offered (op : StoreOp) : Z :=
  match op with OpInsert a | OpReplace a => value_of a | _ => 0 end.
Definition offered_all (ops : list StoreOp) : Z := foldr (λ op n, offered op + n) 0 ops.

(** The value that is or may come to the table. *)
Definition supply (m : TicketManager) : Z := total (tickets (tickets_db m)) + queued_value (queue m).

Record manager_wf (m : TicketManager) : Prop := {
  wf_store : store_wf (tickets_db m);
  wf_queue : Forall (λ o, amount_ok (ticket_of (op_ticket o))) (queue m)
}.

Lemma queued_value_app q1 q2 : queued_value (q1 ++ q2) = queued_value q1 + queued_value q2.
Proof. induction q1 as [|o q1 IH]; cbn; lia. Qed.

Lemma queued_nonneg q : Forall (λ o, amount_ok (ticket_of (op_ticket o))) q → 0 ≤ queued_value q.
Proof. induction 1 as [|o q Ho _ IH]; cbn; [lia|]. unfold value_of, amount_ok, in_u in *. lia. Qed.
Lemma supply_covers m : manager_wf m → supply m ≤ U256_max → total (tickets (tickets_db m)) ≤ U256_max.
Proof. intros [_ Hq] Hs. pose proof (queued_nonneg _ Hq). unfold supply in Hs. lia. Qed.

(** What every step keeps and adds. *)
Definition step_ok (op : StoreOp) (m m' : TicketManager) : Prop :=
  manager_wf m' ∧ supply m' ≤ supply m + offered op ∧
  ∀ c, account (tickets_db m') c = account (tickets_db m) c + credit c op m m'.

(** A step that leaves the database alone. *)
Lemma step_ok_idle op m m' q :
  manager_wf m → op_typed op → tickets_db m' = tickets_db m → queue m' = queue m ++ q →
  Forall (λ o, amount_ok (ticket_of (op_ticket o))) q → queued_value q ≤ offered op →
  (∀ c, credit c op m m' = 0) → step_ok op m m'.
Proof.
  intros [Hs Hq] Ht Hd Hqq Hqok Hv Hc. split_and!.
  - split; [by rewrite Hd|]. rewrite Hqq. by apply Forall_app.
  - unfold supply. rewrite Hd, Hqq, queued_value_app. lia.
  - intros c. rewrite Hc, Hd. lia.
Qed.

Lemma step_start m m' : manager_wf m → store_step OpStart m = Some m' → step_ok OpStart m m'.
Proof.
  intros Hwf Hs. cbn in Hs. unfold start_ticket_processing in Hs. autorewrite with run in Hs.
  apply (step_ok_idle _ _ _ []); try done; destruct (incoming m) eqn:Hi; injection Hs as <-; try done;
    unfold queue; cbn; by rewrite Hi, ?app_nil_r.
Qed.

Lemma enqueue_ok o m m' :
  enqueue o m = (m', Ok tt) →
  tickets_db m' = tickets_db m ∧ queue m' = queue m ++ [o] ∧ unrealized_cache m' = unrealized_cache m ∧
  is_Some (incoming m').
Proof.
  unfold enqueue. autorewrite with run. unfold queue. destruct (incoming m) as [q|]; [|done].
  by intros [= <-].
Qed.

Lemma enqueue_result o m : (∃ m', enqueue o m = (m', Ok tt)) ∨ ∃ e, enqueue o m = (m, Err e).
Proof. unfold enqueue. autorewrite with run. destruct (incoming m); [left|right]; by eexists. Qed.

(** Reading the unrealized value changes the cache only. *)
Lemma unrealized_value_frame s m :
  let m' := (unrealized_value s m).1 in
  tickets_db m' = tickets_db m ∧ incoming m' = incoming m ∧ index_cache m' = index_cache m ∧ notified m' = notified m.
Proof.
  unfold unrealized_value. destruct (channel_identifiers s) as [|key [|]]; [done| |done].
  autorewrite with run. destruct (unrealized_cache m !! key) as [v|]; [done|].
  unfold mbind, SM_bind, perform. unfold get, lift at 1. cbv zeta beta iota.
  by destruct (rows_value _) as [v| |], m.
Qed.

Lemma insert_ticket_frame a m m' o :
  insert_ticket a m = (m', o) →
  tickets_db m' = tickets_db m ∧ notified m' = notified m ∧ index_cache m' = index_cache m ∧
  (queue m' = queue m ∨ queue m' = queue m ++ [Insert a]).
Proof.
  intros Hi. unfold insert_ticket in Hi.
  destruct (enqueue_result (Insert a) m) as [[m1 He]|[e He]].
  2: { unfold mbind, SM_bind in Hi. rewrite He in Hi. injection Hi as <- _. split_and!; [done..|by left]. }
  rewrite (run_Ok _ _ _ _ _ He) in Hi.
  assert (notified m1 = notified m ∧ index_cache m1 = index_cache m) as [Hn1 Hx1].
  { unfold enqueue in He. autorewrite with run in He. destruct (incoming m); [|done]. by injection He as <-. }
  apply enqueue_ok in He as (Hd & Hq & _ & _).
  match type of Hi with context [unrealized_value ?s] => pose proof (unrealized_value_frame s m1) as Hf end.
  cbv zeta in Hf. unfold mbind, SM_bind in Hi. destruct (unrealized_value _ m1) as [m2 [v|e|]].
  all: cbn [fst] in Hf; destruct Hf as (Hd2 & Hq2 & Hx2 & Hn2); injection Hi as <- _;
    cbn [tickets_db set_unrealized notified index_cache]; split_and!; try congruence; right;
    unfold queue in *; cbn; congruence.
Qed.
Lemma unless_panic_Some {A} (res : TicketManager * outcome DbSqlError A) m' :
  unless_panic res = Some m' → ∃ o, res = (m', o) ∧ o ≠ Panic.
Proof. destruct res as [m [a|e|]]; [..|done]; intros [= ->]; by eexists. Qed.

Lemma step_insert a m m' :
  manager_wf m → op_typed (OpInsert a) → store_step (OpInsert a) m = Some m' → step_ok (OpInsert a) m m'.
Proof.
  intros Hwf Ht (o & Hi & _)%unless_panic_Some. apply insert_ticket_frame in Hi as (Hd & _ & _ & [Hq|Hq]).
  - apply (step_ok_idle _ _ _ []); try done; [by rewrite app_nil_r|]. cbn in *.
    unfold value_of, amount_ok, in_u in *. lia.
  - apply (step_ok_idle _ _ _ [Insert a]); try done; [by apply Forall_singleton|]. cbn. lia.
Qed.

Lemma step_replace a m m' :
  manager_wf m → op_typed (OpReplace a) → store_step (OpReplace a) m = Some m' → step_ok (OpReplace a) m m'.
Proof.
  intros Hwf Ht (o & Hi & _)%unless_panic_Some. unfold replace_tickets in Hi.
  destruct (enqueue_result (Replace a) m) as [[m1 He]|[e He]]; rewrite He in Hi; injection Hi as <- <-.
  - apply enqueue_ok in He as (Hd & Hq & _).
    apply (step_ok_idle _ _ _ [Replace a]); try done; [by apply Forall_singleton|]. cbn. lia.
  - apply (step_ok_idle _ _ _ []); try done; [by rewrite app_nil_r|]. cbn in *.
    unfold value_of, amount_ok, in_u in *. lia.
Qed.

Lemma step_mark s mark m m' :
  manager_wf m → supply m ≤ U256_max → op_typed (OpMark s mark) →
  store_step (OpMark s mark) m = Some m' → step_ok (OpMark s mark) m m'.
Proof.
  intros Hwf Hs Ht (o & Hi & Hp)%unless_panic_Some.
  pose proof (supply_covers _ Hwf Hs) as Htot. destruct Hwf as [Hst Hq].
  pose proof (mark_loop_ok s mark _ 0 m Ht Hst Htot) as Hl. unfold marking in Hl.
  unfold mark_tickets_as, with_write_locked_db in Hi.
  destruct (mark_loop s mark (channel_identifiers s) 0 m) as [m1 [n|e|]]; [|done|by injection Hi as <- <-].
  injection Hi as <- <-. destruct Hl as (_ & (Hd & Hm & (Ho & _) & Hwf') & _ & _ & Hin & _).
  set (P := marked_by s (channel_identifiers s)) in *.
  pose proof (total_filter P (tickets (tickets_db m))) as Hsplit.
  assert (0 ≤ total (filter P (tickets (tickets_db m)))) by apply total_nonneg, Forall_filter, (wf_amounts _ Hst).
  assert (queue m1 = queue m) as Hqq by (unfold queue; by rewrite Hin). split_and!.
  - split; [done|]. by rewrite Hqq.
  - unfold supply. rewrite Hqq, Hd. cbn. lia.
  - intros c. unfold account. rewrite Hd.
    assert (channel_total c (tickets (tickets_db m)) =
      channel_total c (filter P (tickets (tickets_db m))) +
      channel_total c (filter (λ r, negb (P r)) (tickets (tickets_db m)))) as Hc.
    { rewrite <-channel_total_app. apply channel_total_proper. apply filter_complement. }
    specialize (Hm c). destruct mark;
      rewrite ?(Ho c Redeemed), ?(Ho c Neglected), ?(Ho c Rejected) by done; cbn [credit]; lia.
Qed.
Lemma stats_added mark (ch : Hash) v d st :
  store_wf d → 0 ≤ v →
  add_marked (E:=DbSqlError) mark v (default StatsModel_default (statistics d !! to_hex ch)) = Ok st →
  let d' := set_statistics (<[to_hex ch := st]> (statistics d)) d in
  store_wf d' ∧ (∀ c, marked d' mark c = marked d mark c + if decide (c = to_hex ch) then v else 0) ∧
  (∀ c mark', mark' ≠ mark → marked d' mark' c = marked d mark' c).
Proof.
  intros Hwf Hv Hst d'.
  assert (stats_wf (default StatsModel_default (statistics d !! to_hex ch))) as Hsw.
  { destruct (statistics d !! to_hex ch) eqn:Hl; [by apply (wf_stats _ Hwf _ _ Hl)|apply stats_default_wf]. }
  destruct (add_marked_ok _ _ _ _ Hsw Hv Hst) as (Hw' & Hc & Ho & _). split_and!.
  - destruct Hwf as [Ha Hs Hi Hn Hk]. split; try done. by apply map_Forall_insert_2.
  - intros c. unfold marked, d'. cbn [statistics set_statistics]. case_decide as Hch; [subst c|].
    + rewrite lookup_insert_eq, Hc. destruct (statistics d !! to_hex ch); [done|]. by destruct mark.
    + rewrite lookup_insert_ne by done. lia.
  - intros c mark' Hne. unfold marked, d'. cbn [statistics set_statistics].
    destruct (decide (c = to_hex ch)) as [->|Hc']; [|by rewrite lookup_insert_ne].
    rewrite lookup_insert_eq, Ho by done. destruct (statistics d !! to_hex ch); [done|]. by destruct mark'.
Qed.

Lemma step_reject t m m' :
  manager_wf m → op_typed (OpReject t) → store_step (OpReject t) m = Some m' → step_ok (OpReject t) m m'.
Proof.
  intros [Hst Hq] [Hv _] (o & Hi & Hp)%unless_panic_Some. unfold mark_unsaved_ticket_rejected, perform in Hi.
  pose proof (add_stats_run Rejected (t_channel_id t) (amount (t_amount t)) _ Hst Hv) as Hadd. cbv zeta in Hadd.
  set (tx := stats ← _; _) in Hadd. change (stats ← find_stats_for_channel (t_channel_id t); _) with tx in Hi.
  destruct Hadd as [(st & Ha & Hrun)|[Hpan _]].
  - rewrite Hrun in Hi. injection Hi as <- _.
    pose proof (stats_added _ _ _ _ _ Hst Hv Ha) as (Hwf' & Hm & Ho). cbv zeta in *. split_and!.
    + split; [done|]. by cbn.
    + unfold supply, queue. cbn. lia.
    + intros c. unfold account. cbn [tickets_db set_tickets_db tickets set_statistics credit].
      rewrite Hm, !Ho by done. unfold credit_to. case_decide; lia.
  - destruct (tx (tickets_db m)) as [d o']. cbn in Hpan. subst o'. by injection Hi as <- <-.
Qed.

(** Changing columns other than id, key and amount. *)
Lemma relabelled (f : TicketModel → TicketModel) d :
  (∀ r, m_id (f r) = m_id r ∧ row_key (f r) = row_key r ∧ m_amount (f r) = m_amount r) →
  store_wf d →
  store_wf (set_tickets (f <$> tickets d) d) ∧ total (f <$> tickets d) = total (tickets d) ∧
  ∀ c, channel_total c (f <$> tickets d) = channel_total c (tickets d).
Proof.
  intros Hf Hst. assert (∀ l, total (f <$> l) = total l) as Ht.
  { induction l as [|r l IH]; cbn; [done|]. unfold row_value. destruct (Hf r) as (_ & _ & ->). by rewrite <-IH. }
  split; [|split; [apply Ht|]].
  - destruct Hst as [Ha Hs Hid Hn Hk]. split; cbn.
    + apply Forall_fmap. apply (Forall_impl _ _ _ Ha). intros r Hr. cbn in *. destruct (Hf r) as (_ & _ & ->). done.
    + done.
    + rewrite <-list_fmap_compose. erewrite list_fmap_ext; [done|]. intros i r _. cbn. by apply Hf.
    + apply Forall_fmap. apply (Forall_impl _ _ _ Hn). intros r Hr. cbn in *. destruct (Hf r) as (Hid' & _). by rewrite Hid'.
    + rewrite <-list_fmap_compose. erewrite list_fmap_ext; [done|]. intros i r _. cbn. by apply Hf.
  - intros c. unfold channel_total. rewrite <-(Ht (filter (in_channel c) (tickets d))). f_equal.
    induction (tickets d) as [|r l IH]; cbn [fmap list_fmap]; [done|]. rewrite !filter_cons.
    assert (in_channel c (f r) = in_channel c r) as ->.
    { destruct (Hf r) as (_ & Hk & _). unfold row_key in Hk. unfold in_channel.
      rewrite !pair_equal_spec in Hk. by destruct Hk as [[-> _] _]. }
    destruct (in_channel c r); cbn; [by rewrite IH|done].
Qed.

Lemma step_state s st m m' :
  manager_wf m → store_step (OpState s st) m = Some m' → step_ok (OpState s st) m m'.
Proof.
  intros [Hst Hq] (o & Hi & Hp)%unless_panic_Some. unfold update_ticket_states, perform, update_many in Hi.
  autorewrite with run in Hi. injection Hi as <- _. set (f := λ r, if into_condition s r then set_state (AcknowledgedTicketStatus_repr st) r else r).
  destruct (relabelled f (tickets_db m)) as (Hst' & Ht & Hct); [|done|].
  { intros r. unfold f. by destruct (into_condition s r). }
  split_and!.
  - by split.
  - unfold supply, queue. cbn. rewrite Ht. lia.
  - intros c. unfold account, marked. cbn [tickets_db set_tickets_db tickets set_tickets statistics credit].
    rewrite Hct. lia.
Qed.

Lemma appends_total a l d d' :
  amount_ok (ticket_of a) → appends a l d d' →
  total (tickets d') = total l + value_of a ∧
  ∀ c, channel_total c (tickets d') = channel_total c l + credit_to c (ticket_of a).
Proof.
  intros Hv (r & Hr & _ & Ht & _). destruct (row_of_ticket _ _ _ Hv Hr) as (_ & Hc & _ & Hval).
  rewrite Ht, total_app. cbn [total]. split; [lia|]. intros c. rewrite channel_total_app. f_equal.
  unfold channel_total, credit_to. rewrite filter_cons. unfold in_channel.
  destruct (decide (c = to_hex (t_channel_id (ticket_of a)))) as [->|Hne]; case_decide as Hd.
  - cbn. rewrite Hval. unfold value_of. lia.
  - destruct Hd. by apply bool_decide_spec.
  - apply bool_decide_spec in Hd. congruence.
  - done.
Qed.
(** A transaction of the background task. *)
Lemma process_tx_ok o d d' :
  store_wf d → amount_ok (ticket_of (op_ticket o)) →
  (match o with Insert t => process_insert t | Replace t => process_replace t end) d = (d', Ok tt) →
  store_wf d' ∧
  total (tickets d') ≤ total (tickets d) + value_of (op_ticket o) ∧
  ∀ c, account d' c = account d c + credit_to c (ticket_of (op_ticket o)) -
    match o with Insert _ => 0 | Replace a => channel_total c (filter (replaced_by a) (tickets d)) end.
Proof.
  intros Hwf Hv Hp. destruct o as [a|a]; cbn [op_ticket] in *.
  - apply process_insert_ok in Hp as (Happ & Hwf' & Hm & _); [|done..].
    apply appends_total in Happ as [Ht Hc]; [|done]. split; [done|]. split; [lia|].
    intros c. unfold account. rewrite Hc, !Hm. lia.
  - apply process_replace_ok in Hp as (Happ & Hwf' & Hs & _); [|done..].
    apply appends_total in Happ as [Ht Hc]; [|done]. split; [done|].
    pose proof (total_filter (replaced_by a) (tickets d)) as Hsplit.
    assert (0 ≤ total (filter (replaced_by a) (tickets d))) by apply total_nonneg, Forall_filter, (wf_amounts _ Hwf).
    split; [lia|]. intros c. unfold account. rewrite Hc.
    assert (∀ mark, marked d' mark c = marked d mark c) as Hm by (intros; unfold marked; by rewrite Hs).
    rewrite !Hm, (channel_total_proper c _ _ (filter_complement (replaced_by a) (tickets d))), channel_total_app. lia.
Qed.

Lemma step_process m m' : manager_wf m → store_step OpProcess m = Some m' → step_ok OpProcess m m'.
Proof.
  intros Hwf Hs. cbn [store_step] in Hs. destruct (process_next m) as [m1| |] eqn:Hp; [|done..]. injection Hs as ->.
  unfold process_next in Hp. destruct (incoming m) as [[|o q]|] eqn:Hin.
  1, 3: injection Hp as <-; apply (step_ok_idle _ _ _ []); try done;
    [by rewrite app_nil_r|intros c; cbn; by rewrite Hin].
  unfold perform in Hp. cbn [tickets_db set_incoming] in Hp.
  pose proof (wf_queue _ Hwf) as Hq. unfold queue in Hq. rewrite Hin in Hq. apply Forall_cons in Hq as [Ho Hq].
  pose proof (queued_nonneg _ Hq) as Hpos.
  assert (supply m = total (tickets (tickets_db m)) + (value_of (op_ticket o) + queued_value q)) as Hsup
    by (unfold supply, queue; by rewrite Hin).
  assert (0 ≤ value_of (op_ticket o)) as Hov by (unfold value_of, amount_ok, in_u in *; lia).
  destruct ((match o with Insert t => process_insert t | Replace t => process_replace t end) (tickets_db m))
    as [d' [[]|e|]] eqn:Htx; [..|done]; injection Hp as <-.
  - apply process_tx_ok in Htx as (Hwf' & Ht & Hacc); [|apply Hwf|done]. split_and!.
    + by split.
    + rewrite Hsup. unfold supply, queue. cbn. lia.
    + intros c. cbn [tickets_db set_notified set_tickets_db credit notified]. rewrite Hacc, Hin.
      rewrite (proj2 (Nat.eqb_neq _ _)); [lia|]. cbn [notified set_notified set_tickets_db set_incoming].
      rewrite length_app. cbn. lia.
  - split_and!.
    + split; [apply Hwf|done].
    + rewrite Hsup. unfold supply, queue. cbn. lia.
    + intros c. cbn [tickets_db set_incoming credit notified]. rewrite Hin, Nat.eqb_refl. lia.
Qed.

Lemma store_step_ok op m m' :
  manager_wf m → supply m ≤ U256_max → op_typed op → store_step op m = Some m' → step_ok op m m'.
Proof.
  intros Hwf Hs Ht Hop. destruct op; [by apply step_start|by apply step_insert|by apply step_replace|
    by apply step_process|by apply step_mark|by apply step_reject|by apply step_state].
Qed.

(** C25. Over any history of insertions, replacements, marking, rejections,
    state changes and turns of the background task, failed ones included, the
    database keeps its shape and the books of every channel balance: the value
    of the stored tickets and of the redeemed, neglected and rejected columns
    grows by exactly the notified tickets (an aggregated one in place of those
    it replaced) and the rejected ones, and by nothing else. *)
Theorem ledger (ops : list StoreOp) (m m' : TicketManager) :
  manager_wf m → Forall op_typed ops → supply m + offered_all ops ≤ U256_max →
  store_run ops m = Some m' →
  manager_wf m' ∧ ∀ c, account (tickets_db m') c = account (tickets_db m) c + credits c ops m.
Proof.
  intros Hwf Hops. revert m Hwf. induction Hops as [|op ops Hop Hops IH]; intros m Hwf Hs Hrun.
  { injection Hrun as <-. split; [done|]. intros c. cbn. lia. }
  cbn [store_run] in Hrun. apply bind_Some in Hrun as (m1 & Hstep & Hrun).
  cbn [offered_all foldr] in Hs. fold (offered_all ops) in Hs.
  assert (0 ≤ offered op ∧ 0 ≤ offered_all ops) as [Hpos1 Hpos2].
  { assert (∀ op, op_typed op → 0 ≤ offered op) as Ho.
    { intros [| | | | | |]; cbn; try lia; unfold value_of, amount_ok, in_u; lia. }
    split; [by apply Ho|]. clear -Hops Ho. induction Hops as [|op ops Hop _ IH]; [done|]. cbn.
    fold (offered_all ops). specialize (Ho _ Hop). lia. }
  destruct (store_step_ok op m m1 Hwf ltac:(lia) Hop Hstep) as (Hwf1 & Hs1 & Hacc).
  destruct (IH m1 Hwf1 ltac:(lia) Hrun) as [Hwf' Hacc']. split; [done|].
  intros c. rewrite Hacc', Hacc. cbn [credits]. rewrite Hstep. lia.
Qed.
(** ** Unrealized values *)
Definition saturated (v : Z) : HoprBalance := mkBalance (Z.min v U256_max).

Lemma unrealized_value_ok s key m :
  store_wf (tickets_db m) → channel_identifiers s = [key] →
  unrealized_value s m =
    match unrealized_cache m !! key with
    | Some v => (m, Ok v)
    | None =>
        let v := saturated (total (filter (into_condition s) (tickets (tickets_db m)))) in
        (set_unrealized (<[key := v]> (unrealized_cache m)) m, Ok v)
    end.
Proof.
  intros Hwf Hs. unfold unrealized_value. rewrite Hs. autorewrite with run.
  destruct (unrealized_cache m !! key) as [v|]; [done|].
  set (rows := filter (into_condition s) (tickets (tickets_db m))).
  assert (Forall (λ r, column_wf (m_amount r)) rows) as Hr by apply Forall_filter, (wf_amounts _ Hwf).
  pose proof (scan_permutation _ rows) as Hp.
  assert (perform (d ← get; lift (rows_value (find_where (into_condition s) d))) m =
    (m, Ok (saturated (total rows)))) as Hperf.
  { unfold perform. autorewrite with run. unfold lift, find_where. fold rows.
    rewrite rows_value_total by (by rewrite Hp). rewrite Hp. by destruct m. }
  by rewrite (run_Ok _ _ _ _ _ Hperf).
Qed.

(** Announcing a ticket queues it and caches the unrealized value of its
    channel and epoch as the cached value plus the amount; without a cached
    value only the tickets in the table are summed, so the tickets still in
    the queue are left out until the entry is forgotten again. *)
Theorem insert_ticket_caches (a : AcknowledgedTicket) (m : TicketManager) (q : list TicketOperation) :
  store_wf (tickets_db m) → incoming m = Some q →
  let t := ticket_of a in
  let key := (t_channel_id t, t_channel_epoch t) in
  let stored := filter (into_condition (TicketSelector_new (t_channel_id t) (t_channel_epoch t))) (tickets (tickets_db m)) in
  let known := match unrealized_cache m !! key with Some v => v | None => saturated (total stored) end in
  insert_ticket a m =
    (mkTicketManager (tickets_db m) (<[key := Balance_add known (t_amount t)]> (unrealized_cache m))
       (index_cache m) (Some (q ++ [Insert a])) (notified m), Ok tt).
Proof.
  intros Hwf Hq t key stored known. unfold insert_ticket. fold (ticket_of a) t.
  assert (enqueue (Insert a) m = (set_incoming (Some (q ++ [Insert a])) m, Ok tt)) as He.
  { unfold enqueue. autorewrite with run. by rewrite Hq. }
  rewrite (run_Ok _ _ _ _ _ He).
  pose proof (unrealized_value_ok (TicketSelector_new (t_channel_id t) (t_channel_epoch t)) key
    (set_incoming (Some (q ++ [Insert a])) m) Hwf eq_refl) as Hu.
  cbn [unrealized_cache set_incoming tickets_db] in Hu. fold stored in Hu. subst known.
  destruct (unrealized_cache m !! key) as [v|]; rewrite (run_Ok _ _ _ _ _ Hu); [done|].
  unfold modify, set_unrealized. cbn. by rewrite insert_insert_eq.
Qed.
End Accounts.
