(* ===== verification/TicketIndexSpec.v ===== *)
(** * Outgoing ticket indices

    No index is handed out twice: whatever increments, raises, persists and
    orderly restarts happen, the indices issued in a channel strictly increase,
    and persisting loses none of them. *)
From stdpp Require Import gmap strings.
From S2P Require Import Prelude Primitives Crypto Channels Tickets TicketStore TicketStoreSpec.

Section Indices.
Context `{!Secp256k1} `{!HexCodec, !HexCodecLaws} `{!ScanOrder, !ScanOrderLaws}.
#[local] Set Default Proof Using "Type*".

Definition stored_index (m : TicketManager) (c : Hash) : option Z :=
  from_be <$> outgoing_indices (tickets_db m) !! to_hex c.

(** The next index of a channel, as the node knows it. *)
Definition current (m : TicketManager) (c : Hash) : Z :=
  match index_cache m !! c with Some i => i | None => default 0 (stored_index m c) end.

(** The rows are keyed by hashes and hold 8-byte indices, and every cached
    index has a row. *)
Record index_wf (m : TicketManager) : Prop := {
  iw_rows : ∀ k b, outgoing_indices (tickets_db m) !! k = Some b →
    ∃ c : Hash, array_wf 32 c ∧ k = to_hex c ∧ array_wf 8 b;
  iw_cached : ∀ (c : Hash) i, index_cache m !! c = Some i →
    array_wf 32 c ∧ in_u 64 i ∧ is_Some (outgoing_indices (tickets_db m) !! to_hex c)
}.

Lemma current_bound m (c : Hash) : index_wf m → in_u 64 (current m c).
Proof.
  intros [Hr Hc]. unfold current, stored_index. destruct (index_cache m !! c) as [i|] eqn:Hi.
  { by apply Hc in Hi as (_ & ? & _). }
  destruct (outgoing_indices (tickets_db m) !! to_hex c) as [b|] eqn:Hb; cbn; [|done].
  apply Hr in Hb as (_ & _ & _ & Hw & Hl). pose proof (from_be_bound b Hl) as Hbd. by rewrite Hw in Hbd.
Qed.

(** Reading an index fills the cache and changes nothing else. *)
Lemma get_index_ok m (c : Hash) :
  index_wf m → array_wf 32 c →
  ∃ m', get_outgoing_ticket_index c m = (m', Ok (current m c)) ∧ index_wf m' ∧
    index_cache m' = <[c := current m c]> (index_cache m) ∧
    (∀ c', current m' c' = current m c') ∧
    (∀ c', default 0 (stored_index m' c') = default 0 (stored_index m c')).
Proof.
  intros Hwf Hc. pose proof (current_bound m c Hwf) as Hb. destruct Hwf as [Hrows Hcache].
  unfold get_outgoing_ticket_index. autorewrite with run. unfold current in Hb |- *.
  destruct (index_cache m !! c) as [i|] eqn:Hi.
  { exists m. split_and!; [done|by split|by rewrite insert_id|done|done]. }
  unfold stored_index in *. destruct (outgoing_indices (tickets_db m) !! to_hex c) as [b|] eqn:Hrow; cbn in Hb |- *.
  - destruct (Hrows _ _ Hrow) as (_ & _ & _ & Hl & Hbw).
    assert ((i ← U256_from_be_bytes b; U256_as 64 i) = Ok (E:=DbSqlError) (from_be b)) as Hdec.
    { unfold U256_from_be_bytes. rewrite bool_decide_eq_true_2 by lia. by apply U256_as_ok. }
    rewrite Hdec. autorewrite with run. eexists. split; [done|]. cbn [index_cache set_index_cache].
    split_and!; [|done| |done].
    + split; [done|]. cbn [index_cache set_index_cache tickets_db].
      intros c' i [[<- <-]|[_ Hl']]%lookup_insert_Some; [|by apply Hcache]. by split_and!; [..|eexists].
    + intros c'. cbn [index_cache set_index_cache tickets_db].
      destruct (decide (c' = c)) as [->|Hne]; [by rewrite lookup_insert_eq, Hi, Hrow|by rewrite lookup_insert_ne].
  - unfold perform. autorewrite with run. unfold modify. cbn.
    eexists. split; [done|]. cbn [index_cache set_index_cache]. split_and!; [|done| |].
    + split; cbn.
      * intros k b' [[<- <-]|[_ Hl']]%lookup_insert_Some; [|by apply Hrows].
        exists c. split_and!; [done..|]. by apply (bool_decide_unpack _).
      * intros c' i [[<- <-]|[_ Hl']]%lookup_insert_Some.
        -- split_and!; [done..|]. rewrite lookup_insert_eq. by eexists.
        -- apply Hcache in Hl' as (? & ? & [b' Hb']). split_and!; [done..|].
           destruct (decide (to_hex c' = to_hex c)) as [->|Hne]; [rewrite lookup_insert_eq|rewrite lookup_insert_ne by done];
             by eexists.
    + intros c'. cbn. destruct (decide (c' = c)) as [->|Hne]; [by rewrite lookup_insert_eq, Hi, Hrow|].
      rewrite lookup_insert_ne by done. destruct (index_cache m !! c'); [done|].
      destruct (decide (to_hex c' = to_hex c)) as [He|Hne']; [by rewrite He, lookup_insert_eq, Hrow|].
      by rewrite lookup_insert_ne.
    + intros c'. cbn. destruct (decide (to_hex c' = to_hex c)) as [He|Hne']; [by rewrite He, lookup_insert_eq, Hrow|].
      by rewrite lookup_insert_ne.
Qed.
Lemma store_index_wf m (c : Hash) i :
  index_wf m → array_wf 32 c → in_u 64 i → is_Some (index_cache m !! c) →
  index_wf (set_index_cache (<[c := i]> (index_cache m)) m).
Proof.
  intros [Hr Hc] Hcw Hi [j Hj]. split; [done|]. cbn [index_cache set_index_cache tickets_db].
  intros c' i' [[<- <-]|[_ Hl]]%lookup_insert_Some; [|by apply Hc]. by apply Hc in Hj as (_ & _ & ?).
Qed.

(** The operations that set an index to a function of the old one. *)
Lemma update_index_ok m (c : Hash) (f : Z → Z) :
  index_wf m → array_wf 32 c → in_u 64 (f (current m c)) →
  ∃ m', (old ← get_outgoing_ticket_index c; store_index c (f old);; mret old) m = (m', Ok (current m c)) ∧
    index_wf m' ∧ current m' c = f (current m c) ∧ (∀ c' : Hash, c' ≠ c → current m' c' = current m c') ∧
    (∀ c', default 0 (stored_index m' c') = default 0 (stored_index m c')).
Proof.
  intros Hwf Hc Hf. destruct (get_index_ok m c Hwf Hc) as (m1 & Hget & Hwf1 & Hc1 & Hcur & Hst).
  rewrite (run_Ok _ _ _ _ _ Hget). unfold store_index. autorewrite with run.
  eexists. split; [done|]. split; [|split; [|split; [|done]]].
  - apply store_index_wf; [done..|]. rewrite Hc1, lookup_insert_eq. by eexists.
  - unfold current at 1. cbn [index_cache set_index_cache]. by rewrite lookup_insert_eq.
  - intros c' Hne. rewrite <-(Hcur c'). unfold current. cbn [index_cache set_index_cache].
    by rewrite lookup_insert_ne.
Qed.

(** Persisting raises every row to the cached index and lowers none. *)
Lemma persist_loop_ok rows n m :
  index_wf m → NoDup rows.*1 → (∀ k b, (k, b) ∈ rows → outgoing_indices (tickets_db m) !! k = Some b) →
  ∃ m' n', persist_loop rows n m = (m', Ok n') ∧ index_wf m' ∧ index_cache m' = index_cache m ∧
    (∀ k, k ∉ rows.*1 → outgoing_indices (tickets_db m') !! k = outgoing_indices (tickets_db m) !! k) ∧
    (∀ (c : Hash) b, array_wf 32 c → (to_hex c, b) ∈ rows →
      stored_index m' c = Some (Z.max (default 0 (index_cache m !! c)) (from_be b))).
Proof.
  revert n m. induction rows as [|[k b] rows IH]; intros n m Hwf Hnd Hin.
  { exists m, n. split_and!; try done. intros c b _ Hb. by apply elem_of_nil in Hb. }
  cbn [fmap list_fmap fst] in Hnd. apply NoDup_cons in Hnd as [Hk Hnd].
  assert (outgoing_indices (tickets_db m) !! k = Some b) as Hkb by (apply Hin; by left).
  destruct (iw_rows _ Hwf _ _ Hkb) as (c & Hc & -> & Hbl & Hbw).
  assert (in_u 64 (from_be b)) as Hbb by (pose proof (from_be_bound b Hbw) as Hx; by rewrite Hbl in Hx).
  cbn [persist_loop]. rewrite (Hash_from_to_hex _ Hc). cbn [map_err]. autorewrite with run.
  assert ((i ← U256_from_be_bytes b; U256_as 64 i) = Ok (E:=DbSqlError) (from_be b)) as ->.
  { unfold U256_from_be_bytes. rewrite bool_decide_eq_true_2 by lia. by apply U256_as_ok. }
  autorewrite with run.
  assert (∀ m1, index_wf m1 → index_cache m1 = index_cache m →
    (∀ k', k' ≠ to_hex c → outgoing_indices (tickets_db m1) !! k' = outgoing_indices (tickets_db m) !! k') →
    stored_index m1 c = Some (Z.max (default 0 (index_cache m !! c)) (from_be b)) →
    ∀ n1, ∃ m' n', persist_loop rows n1 m1 = (m', Ok n') ∧ index_wf m' ∧ index_cache m' = index_cache m ∧
    (∀ k, k ∉ (to_hex c, b).1 :: rows.*1 → outgoing_indices (tickets_db m') !! k = outgoing_indices (tickets_db m) !! k) ∧
    (∀ (c' : Hash) b', array_wf 32 c' → (to_hex c', b') ∈ (to_hex c, b) :: rows →
      stored_index m' c' = Some (Z.max (default 0 (index_cache m !! c')) (from_be b')))) as Hgo.
  { intros m1 Hwf1 Hc1 Ho1 Hs1 n1. destruct (IH n1 m1 Hwf1 Hnd) as (m' & n' & Hrun & Hwf' & Hc' & Hk' & Hst).
    { intros k' b' Hkb'. rewrite Ho1; [apply Hin; by right|]. intros ->. apply Hk.
      apply list_elem_of_fmap. by exists (to_hex c, b'). }
    exists m', n'. split_and!; [done|done|congruence| |].
    - cbn [fst]. intros k' [Hne Hni]%not_elem_of_cons. by rewrite Hk', Ho1.
    - intros c' b' Hcw' [[He ->]%pair_equal_spec|Hb']%elem_of_cons.
      + apply to_hex_inj in He as ->; [|apply Hcw'|apply Hc]. rewrite <-Hs1. unfold stored_index. by rewrite Hk'.
      + rewrite (Hst c' b') by done. by rewrite Hc1. }
  destruct (index_cache m !! c) as [i|] eqn:Hi; [|apply Hgo; try done].
  2: { unfold stored_index. rewrite Hkb. cbn. f_equal. unfold in_u in *. lia. }
  destruct (iw_cached _ Hwf _ _ Hi) as (_ & Hib & _).
  destruct (Z.ltb_spec (from_be b) i) as [Hlt|Hge].
  - unfold perform. autorewrite with run. unfold modify, mbind at 1, SM_bind. apply Hgo; cbn.
    + split; cbn; [|intros c' i' Hl; destruct (iw_cached _ Hwf _ _ Hl) as (? & ? & [b' Hb'])].
      * intros k b' [[<- <-]|[_ Hl]]%lookup_insert_Some; [|by apply (iw_rows _ Hwf)].
        exists c. split_and!; [done..|]. split; [apply length_to_be|apply to_be_wf].
      * split_and!; [done..|]. destruct (decide (to_hex c' = to_hex c)) as [->|Hne];
          [rewrite lookup_insert_eq|rewrite lookup_insert_ne by done]; by eexists.
    + done.
    + intros k' Hne. by rewrite lookup_insert_ne.
    + unfold stored_index. cbn. rewrite lookup_insert_eq. cbn. f_equal.
      rewrite from_be_to_be_small by done. lia.
  - apply Hgo; try done. unfold stored_index. rewrite Hkb. cbn. f_equal. lia.
Qed.
Lemma persist_ok m :
  index_wf m →
  ∃ m' n', persist_outgoing_ticket_indices m = (m', Ok n') ∧ index_wf m' ∧ index_cache m' = index_cache m ∧
    ∀ c : Hash, array_wf 32 c →
      stored_index m' c = Z.max (default 0 (index_cache m !! c)) <$> stored_index m c.
Proof.
  intros Hwf. unfold persist_outgoing_ticket_indices. autorewrite with run.
  set (rows := map_to_list (outgoing_indices (tickets_db m))).
  pose proof (scan_permutation _ rows) as Hp.
  destruct (persist_loop_ok (scan rows) 0 m Hwf) as (m' & n' & Hrun & Hwf' & Hc & Hk & Hs).
  { rewrite Hp. apply NoDup_fst_map_to_list. }
  { intros k b. rewrite Hp. by intros ?%elem_of_map_to_list. }
  exists m', n'. split_and!; [done..|]. intros c Hcw. unfold stored_index at 2.
  destruct (outgoing_indices (tickets_db m) !! to_hex c) as [b|] eqn:Hb; cbn.
  - apply Hs; [done|]. rewrite Hp. by apply elem_of_map_to_list.
  - unfold stored_index. rewrite Hk; [by rewrite Hb|]. rewrite Hp.
    intros ([k b] & Hkb & Hin)%list_elem_of_fmap. apply elem_of_map_to_list in Hin. cbn in Hkb. congruence.
Qed.

(** ** Histories *)
Inductive IndexOp :=
| IIncrement (c : Hash)
| IRaise (c : Hash) (index : Z)
| IPersist
| IRestart.

(** A restart is orderly when the indices were persisted before the caches
    are lost. *)
Definition index_step (op : IndexOp) (m : TicketManager) : TicketManager * list (Hash * Z) :=
  match op with
  | IIncrement c =>
      match increment_outgoing_ticket_index c m with (m', Ok i) => (m', [(c, i)]) | (m', _) => (m', []) end
  | IRaise c index => ((compare_and_set_outgoing_ticket_index c index m).1, [])
  | IPersist => ((persist_outgoing_ticket_indices m).1, [])
  | IRestart => (set_index_cache ∅ (persist_outgoing_ticket_indices m).1, [])
  end.

(** The indices issued by a history. *)
Fixpoint issued (ops : list IndexOp) (m : TicketManager) : list (Hash * Z) :=
  match ops with
  | [] => []
  | op :: ops => let (m', l) := index_step op m in l ++ issued ops m'
  end.

Definition on_channel (c : Hash) (l : list (Hash * Z)) : list Z :=
  snd <$> filter (λ p, p.1 = c) l.

Definition raise_ok (bound : Z) (op : IndexOp) : Prop :=
  match op with
  | IIncrement c => array_wf 32 c
  | IRaise c i => array_wf 32 c ∧ 0 ≤ i ≤ bound
  | _ => True
  end.

(** The table lags behind the cache. *)
Definition lagging (m : TicketManager) : Prop :=
  ∀ c : Hash, array_wf 32 c → default 0 (stored_index m c) ≤ current m c.

Lemma persist_current m m' n :
  index_wf m → lagging m → persist_outgoing_ticket_indices m = (m', Ok n) →
  index_wf m' ∧ lagging m' ∧
  ∀ c : Hash, array_wf 32 c → current m' c = current m c ∧ default 0 (stored_index m' c) = current m c.
Proof.
  intros Hwf Hlag Hrun. destruct (persist_ok m Hwf) as (m1 & n1 & Hrun1 & Hwf' & Hc & Hs).
  rewrite Hrun in Hrun1. injection Hrun1 as <- <-.
  assert (∀ c : Hash, array_wf 32 c → current m' c = current m c ∧ default 0 (stored_index m' c) = current m c) as Hg.
  { intros c Hcw. specialize (Hlag c Hcw). unfold current in *. rewrite Hc, Hs by done.
    destruct (index_cache m !! c) as [i|] eqn:Hi.
    - destruct (iw_cached _ Hwf _ _ Hi) as (_ & _ & [b Hb]). unfold stored_index in *. rewrite Hb in *. cbn in *. lia.
    - unfold stored_index. destruct (outgoing_indices (tickets_db m) !! to_hex c) as [b|] eqn:Hb; cbn; [|done].
      assert (0 ≤ from_be b); [|lia]. destruct (iw_rows _ Hwf _ _ Hb) as (_ & _ & _ & _ & Hbw).
      by apply from_be_bound. }
  split; [done|]. split; [|done]. intros c Hcw. destruct (Hg c Hcw). lia.
Qed.

(** What a step issues, and how it moves the indices. *)
Lemma index_step_ok op m N :
  index_wf m → lagging m → raise_ok N op → N < 2 ^ 64 - 1 → (∀ c : Hash, array_wf 32 c → current m c ≤ N) →
  let (m', l) := index_step op m in
  index_wf m' ∧ lagging m' ∧
  ∀ c : Hash, array_wf 32 c → current m c ≤ current m' c ≤ N + 1 ∧
    (l = [] ∨ l = [(c, current m c)] ∧ current m c < current m' c ∨ on_channel c l = []).
Proof.
  intros Hwf Hlag Hop HN Hcur. destruct op as [c0|c0 i| |]; cbn in Hop; cbn [index_step].
  - destruct (update_index_ok m c0 (λ i, wrap 64 (i + 1)) Hwf Hop) as (m' & Hrun & Hwf' & Hc0 & Hne & Hst).
    { apply wrap_in_u; lia. }
    unfold increment_outgoing_ticket_index. rewrite Hrun. specialize (Hcur c0 Hop) as HcN.
    pose proof (current_bound m c0 Hwf) as [Hb _]. rewrite wrap_small in Hc0 by (unfold in_u; lia).
    assert (∀ c : Hash, array_wf 32 c → current m c ≤ current m' c ≤ N + 1) as Hmono.
    { intros c Hc. specialize (Hcur c Hc). destruct (decide (c = c0)) as [->|Hcc]; [lia|]. rewrite Hne by done. lia. }
    split; [done|]. split.
    { intros c Hc. rewrite Hst. specialize (Hlag c Hc). destruct (Hmono c Hc). lia. }
    intros c Hc. split; [by apply Hmono|]. right. destruct (decide (c = c0)) as [->|Hcc]; [left; split; [done|lia]|right].
    unfold on_channel. rewrite filter_cons_False by (cbn; congruence). done.
  - destruct Hop as [Hc0 Hi]. destruct (update_index_ok m c0 (λ o, Z.max o i) Hwf Hc0) as (m' & Hrun & Hwf' & Hcc0 & Hne & Hst).
    { pose proof (current_bound m c0 Hwf). unfold in_u in *. lia. }
    unfold compare_and_set_outgoing_ticket_index. rewrite Hrun. cbn [fst].
    assert (∀ c : Hash, array_wf 32 c → current m c ≤ current m' c ≤ N + 1) as Hmono.
    { intros c Hc. specialize (Hcur c Hc). destruct (decide (c = c0)) as [->|Hcc]; [lia|]. rewrite Hne by done. lia. }
    split; [done|]. split; [|intros c Hc; split; [by apply Hmono|by left]].
    intros c Hc. rewrite Hst. specialize (Hlag c Hc). destruct (Hmono c Hc). lia.
  - destruct (persist_ok m Hwf) as (m' & n & Hrun & _). rewrite Hrun. cbn [fst].
    destruct (persist_current m m' n Hwf Hlag Hrun) as (Hwf' & Hlag' & Hc'). split; [done|]. split; [done|].
    intros c Hc. destruct (Hc' c Hc) as [-> _]. specialize (Hcur c Hc). split; [lia|by left].
  - destruct (persist_ok m Hwf) as (m' & n & Hrun & _). rewrite Hrun. cbn [fst].
    destruct (persist_current m m' n Hwf Hlag Hrun) as (Hwf' & Hlag' & Hc').
    assert (∀ c, current (set_index_cache ∅ m') c = default 0 (stored_index m' c)) as Hres by done.
    split; [|split].
    + split; [apply Hwf'|done].
    + intros c Hc. by rewrite Hres.
    + intros c Hc. rewrite Hres. destruct (Hc' c Hc) as [_ ->]. specialize (Hcur c Hc). split; [lia|by left].
Qed.

(** C26. No ticket index is handed out twice: over any history of increments,
    raises, persists and orderly restarts the indices issued in a channel
    strictly increase and start at the current one, as long as 64 bits
    suffice. *)
Theorem indices_never_repeat (ops : list IndexOp) (m : TicketManager) (N : Z) (c : Hash) :
  index_wf m → lagging m → Forall (raise_ok N) ops → N + Z.of_nat (length ops) < 2 ^ 64 →
  (∀ c : Hash, array_wf 32 c → current m c ≤ N) → array_wf 32 c →
  Sorted.StronglySorted Z.lt (on_channel c (issued ops m)) ∧
  Forall (λ i, current m c ≤ i) (on_channel c (issued ops m)).
Proof.
  intros Hwf Hlag Hops. revert m N Hwf Hlag Hops. induction ops as [|op ops IH]; intros m N Hwf Hlag Hops Hlen HN Hc.
  { split; constructor. }
  apply Forall_cons in Hops as [Hop Hops]. cbn [length] in Hlen. cbn [issued].
  pose proof (index_step_ok op m N Hwf Hlag Hop ltac:(lia) HN) as Hstep.
  destruct (index_step op m) as [m' l]. destruct Hstep as (Hwf' & Hlag' & Hcur).
  assert (Forall (raise_ok (N + 1)) ops) as Hops'.
  { eapply Forall_impl; [apply Hops|]. intros [| | |]; cbn; intuition lia. }
  destruct (IH m' (N + 1) Hwf' Hlag' Hops' ltac:(lia) (λ c Hc, proj2 (proj1 (Hcur c Hc))) Hc) as [Hsort Hall].
  unfold on_channel in *. rewrite filter_app, fmap_app.
  destruct (Hcur c Hc) as [[Hle _] Hl].
  assert (Forall (λ i, current m c ≤ i) (snd <$> filter (λ p, p.1 = c) (issued ops m'))) as Hall'
    by (eapply Forall_impl; [apply Hall|]; cbn; lia).
  destruct Hl as [->|[[-> Hlt]|Hnone]]; [done| |by rewrite Hnone].
  rewrite filter_cons_True by done. cbn. split; [|by constructor; [lia|]].
  constructor; [done|]. eapply Forall_impl; [apply Hall|]. cbn. lia.
Qed.
End Indices.
