(* ===== verification/TicketTable.v ===== *)
(** * The ticket table as a list of tickets

    A table whose rows are those of a list of acknowledged tickets: fetching
    and marking by a selector act on that list by the selector's description,
    and as long as the values of a channel fit into 256 bits no call aborts. *)
From stdpp Require Import gmap strings.
From S2P Require Import Prelude Primitives Crypto Channels Tickets TicketStore TicketStoreSpec TicketIndexSpec.

(** Filters by boolean conditions. *)
Lemma filter_cons_bool {A} (P : A → bool) x (l : list A) :
  filter P (x :: l) = if P x then x :: filter P l else filter P l.
Proof. rewrite filter_cons. by destruct (P x). Qed.

Lemma filter_ext_in {A} (P Q : A → bool) (l : list A) : (∀ x, x ∈ l → P x = Q x) → filter P l = filter Q l.
Proof.
  intros HPQ. induction l as [|x l IH]; [done|]. rewrite !filter_cons, HPQ by by left.
  rewrite IH; [done|]. intros y Hy. apply HPQ. by right.
Qed.

Lemma filter_filter_andb {A} (P Q : A → bool) (l : list A) : filter P (filter Q l) = filter (λ x, Q x && P x) l.
Proof.
  induction l as [|x l IH]; [done|]. rewrite !filter_cons, <-IH.
  destruct (Q x); cbn [andb]; [|done]. destruct (decide (Is_true true)) as [_|[]]; [|done]. by rewrite filter_cons.
Qed.

Lemma Forall2_filter {A B} (R : A → B → Prop) (P : A → Prop) (Q : B → Prop) `{!∀ x, Decision (P x)} `{!∀ y, Decision (Q y)} l k :
  Forall2 R l k → (∀ x y, R x y → P x ↔ Q y) → Forall2 R (filter P l) (filter Q k).
Proof.
  intros Hlk HPQ. induction Hlk as [|x y l k Hxy _ IH]; [done|].
  rewrite !filter_cons. pose proof (HPQ x y Hxy). repeat case_decide; [by constructor|tauto|tauto|done].
Qed.

Lemma filter_only {A} (P : A → bool) (l : list A) a :
  NoDup l → a ∈ l → (∀ b, b ∈ l → P b = true ↔ b = a) → filter P l = [a].
Proof.
  intros Hnd [i Hi]%list_elem_of_lookup HP.
  rewrite <-(take_drop_middle l i a Hi) in Hnd, HP |- *. apply NoDup_app in Hnd as (_ & Hni & [Hna _]%NoDup_cons).
  assert (∀ k, (∀ b, b ∈ k → P b = true ↔ b = a) → a ∉ k → filter P k = []) as Hnone.
  { intros k Hk Hak. induction k as [|b k IH]; [done|]. rewrite filter_cons. destruct (P b) eqn:Hb.
    - destruct Hak. apply Hk in Hb as ->; by left.
    - cbn. apply IH; [intros c Hc; apply Hk; by right|]. intros Hin. apply Hak. by right. }
  rewrite filter_app, filter_cons, !Hnone.
  - by rewrite (proj2 (HP a ltac:(rewrite elem_of_app, elem_of_cons; tauto)) eq_refl).
  - intros b Hb. apply HP. rewrite elem_of_app, elem_of_cons. tauto.
  - done.
  - intros b Hb. apply HP. rewrite elem_of_app, elem_of_cons. tauto.
  - intros Hin. apply (Hni a Hin). by left.
Qed.

Section Table.
Context `{!Secp256k1} `{!HexCodec, !HexCodecLaws} `{!ScanOrder, !ScanOrderLaws}.
#[local] Set Default Proof Using "Type*".

Definition row_of_acknowledged (r : TicketModel) (a : AcknowledgedTicket) : Prop :=
  (∃ ds, storable ds a) ∧ t_index_offset (ticket_of a) < 2 ^ 31 ∧ ActiveModel_from (E:=DbSqlError) (m_id r) a = Ok r.

#[global] Instance TicketMarker_eq_dec : EqDecision TicketMarker.
Proof. solve_decision. Defined.

(** The table holds a list of tickets, and its accounts leave room for marking
    all of them. *)
Record holds (l : list AcknowledgedTicket) (m : TicketManager) : Prop := {
  hd_store : store_wf (tickets_db m);
  hd_rows : Forall2 row_of_acknowledged (tickets (tickets_db m)) l;
  hd_total : total (tickets (tickets_db m)) ≤ U256_max;
  hd_books mark c : marked (tickets_db m) mark c + channel_total c (tickets (tickets_db m)) ≤ U256_max
}.

(** The value of the tickets of a channel. *)
Definition on_ticket_channel (c : Hash) (a : AcknowledgedTicket) : bool := bool_decide (t_channel_id (ticket_of a) = c).
Definition value_in (c : Hash) (l : list AcknowledgedTicket) : Z :=
  foldr (λ a n, value_of a + n) 0 (filter (on_ticket_channel c) l).

(** What marking does to the accounts. *)
Definition accounts_marked (mark : TicketMarker) (marked_tickets : list AcknowledgedTicket) (d d' : TicketsDb) : Prop :=
  (∀ c : Hash, array_wf 32 c → marked d' mark (to_hex c) = marked d mark (to_hex c) + value_in c marked_tickets) ∧
  same_but_marked mark d d'.

#[global] Instance value_in_proper c : Proper ((≡ₚ) ==> (=)) (value_in c).
Proof.
  intros l l' Hl. unfold value_in. apply (filter_Permutation (on_ticket_channel c)) in Hl.
  induction Hl; cbn; lia.
Qed.

Lemma value_in_cons c a l : value_in c (a :: l) = value_in c [a] + value_in c l.
Proof. unfold value_in. rewrite !filter_cons. case_decide; cbn; lia. Qed.

Lemma row_selected s r a : selector_typed s → row_of_acknowledged r a → into_condition s r = selects s a.
Proof. intros Hs ((ds & (_ & Ht & _)) & Ho & Hr). by apply (selector_agrees s a (m_id r)). Qed.

Lemma row_columns r a :
  row_of_acknowledged r a → m_channel_id r = to_hex (t_channel_id (ticket_of a)) ∧ row_value r = value_of a ∧
    array_wf 32 (t_channel_id (ticket_of a)).
Proof.
  intros ((ds & (_ & (Hc & Ha & _) & _)) & _ & Hr). unfold ActiveModel_from in Hr. apply bind_Ok in Hr as (sig & _ & [= <-]).
  split_and!; [done| |apply Hc]. unfold row_value. cbn [m_amount]. by apply (from_be_to_be_small 32).
Qed.

Lemma channel_total_value (c : Hash) rows l :
  array_wf 32 c → Forall2 row_of_acknowledged rows l → channel_total (to_hex c) rows = value_in c l.
Proof.
  intros [_ Hc] Hrows. unfold channel_total, value_in. induction Hrows as [|r a rows l Hr _ IH]; [done|].
  destruct (row_columns r a Hr) as (Hid & Hv & [_ Hw]). rewrite !filter_cons.
  assert (in_channel (to_hex c) r = on_ticket_channel c a) as ->.
  { unfold in_channel, on_ticket_channel. rewrite Hid. apply bool_decide_ext. split; [by apply to_hex_inj|congruence]. }
  case_decide; [|done]. cbn [total foldr]. fold (row_value r). rewrite IH, Hv. done.
Qed.

Lemma channel_total_split c (P : TicketModel → bool) rows :
  channel_total c rows = channel_total c (filter P rows) + channel_total c (filter (λ r, negb (P r)) rows).
Proof. rewrite <-channel_total_app. by rewrite <-filter_complement. Qed.

(** Marking. *)
Lemma mark_holds s mark l m :
  selector_typed s → holds l m →
  ∃ m', mark_tickets_as s mark m = (m', Ok (length (filter (selects s) l))) ∧
    holds (filter (λ a, negb (selects s a)) l) m' ∧
    accounts_marked mark (filter (selects s) l) (tickets_db m) (tickets_db m') ∧
    index_cache m' = index_cache m ∧ incoming m' = incoming m.
Proof.
  intros Hs [Hst Hrows Ht Hbooks]. pose proof (row_selected s) as Hsel.
  assert (Forall2 row_of_acknowledged (filter (into_condition s) (tickets (tickets_db m))) (filter (selects s) l)) as Hf
    by (apply Forall2_filter; [done|]; intros r a Hra; by rewrite (Hsel r a)).
  assert (Forall2 row_of_acknowledged (filter (λ r, negb (into_condition s r)) (tickets (tickets_db m)))
    (filter (λ a, negb (selects s a)) l)) as Hn by (apply Forall2_filter; [done|]; intros r a Hra; by rewrite (Hsel r a)).
  pose proof (λ c, channel_total_split c (into_condition s) (tickets (tickets_db m))) as Hsplit.
  assert (∀ (P : TicketModel → bool) c, 0 ≤ channel_total c (filter P (tickets (tickets_db m)))) as Hpos
    by (intros; by apply channel_total_nonneg, Forall_filter, (wf_amounts _ Hst)).
  pose proof (mark_tickets_as_ok s mark m (proj1 Hs) Hst Ht) as Hmark. cbv zeta in Hmark.
  destruct (mark_tickets_as s mark m) as [m' [n|e|]]; [|done|].
  - destruct Hmark as (-> & (Hd' & Hm & Hsame & Hwf') & _ & Hi & Hin & _). exists m'.
    rewrite (Forall2_length _ _ _ Hf). split; [done|]. split; [|split; [|done]].
    + split; [done|by rewrite Hd'| |].
      * rewrite Hd'. pose proof (total_filter (into_condition s) (tickets (tickets_db m))).
        assert (0 ≤ total (filter (into_condition s) (tickets (tickets_db m)))) by
          by apply total_nonneg, Forall_filter, (wf_amounts _ Hst). lia.
      * intros mark' c. rewrite Hd'. specialize (Hsplit c). specialize (Hbooks mark' c).
        destruct (decide (mark' = mark)) as [->|Hne]; [rewrite Hm; lia|].
        rewrite (proj1 Hsame) by done. specialize (Hpos (into_condition s) c). lia.
    + split; [|done]. intros c Hc. by rewrite Hm, (channel_total_value c _ _ Hc Hf).
  - exfalso. destruct Hmark as [c Hc]. specialize (Hbooks mark c). specialize (Hsplit c).
    specialize (Hpos (λ r, negb (into_condition s r)) c). cbv beta in Hpos. lia.
Qed.

(** Fetching. *)
Lemma mapM_rows rows l : Forall2 row_of_acknowledged rows l → mapM AcknowledgedTicket_try_from rows = Ok l.
Proof.
  induction 1 as [|r a rows l Hr _ IH]; [done|]. cbn. destruct Hr as ([ds Hs] & _ & Hr).
  destruct (row_roundtrip ds (m_id r) a Hs) as (r' & Hr' & Ha). assert (r' = r) as -> by congruence.
  rewrite Ha. cbn. by rewrite IH.
Qed.

Lemma Forall2_permuted {A B} (R : A → B → Prop) l k k' :
  Forall2 R k l → k' ≡ₚ k → ∃ l', Forall2 R k' l' ∧ l' ≡ₚ l.
Proof.
  intros Hkl Hk. symmetry in Hk.
  destruct (Permutation.Permutation_Forall2 Hk Hkl) as (l' & ? & ?). by exists l'.
Qed.

Lemma get_tickets_holds s l m :
  selector_typed s → holds l m →
  ∃ l', get_tickets s m = (m, Ok l') ∧ l' ≡ₚ filter (selects s) l.
Proof.
  intros Hs [Hst Hrows _ _].
  assert (Forall2 row_of_acknowledged (filter (into_condition s) (tickets (tickets_db m))) (filter (selects s) l)) as Hf
    by (apply Forall2_filter; [done|]; intros r a Hra; by rewrite (row_selected s r a)).
  destruct (Forall2_permuted _ _ _ _ Hf (scan_permutation _ _)) as (l' & Hf' & Hp). exists l'. split; [|done].
  unfold get_tickets, perform, find_where, decode_rows. autorewrite with run. unfold lift.
  rewrite (mapM_rows _ _ Hf'). by destruct m.
Qed.

(** Two tickets of a channel and epoch with one index are the same. *)
Lemma holds_position l m i j a b :
  holds l m → l !! i = Some a → l !! j = Some b → t_channel_id (ticket_of a) = t_channel_id (ticket_of b) →
  t_channel_epoch (ticket_of a) = t_channel_epoch (ticket_of b) → t_index (ticket_of a) = t_index (ticket_of b) → i = j.
Proof.
  intros [Hst Hrows _ _] Ha Hb Hc He Hi.
  destruct (Forall2_lookup_r _ _ _ _ _ Hrows Ha) as (r & Hr & (_ & _ & Hra)).
  destruct (Forall2_lookup_r _ _ _ _ _ Hrows Hb) as (r' & Hr' & (_ & _ & Hrb)).
  assert (row_key r = row_key r') as Hk.
  { unfold ActiveModel_from in Hra, Hrb. fold (ticket_of a) in Hra. fold (ticket_of b) in Hrb.
    apply bind_Ok in Hra as (? & _ & [= <-]). apply bind_Ok in Hrb as (? & _ & [= <-]).
    unfold row_key. cbn [m_channel_id m_channel_epoch m_index]. congruence. }
  apply (NoDup_lookup (row_key <$> tickets (tickets_db m)) i j (row_key r) (wf_keys _ Hst)); rewrite list_lookup_fmap;
    [by rewrite Hr|by rewrite Hr', Hk].
Qed.

Lemma holds_unique l m a b :
  holds l m → a ∈ l → b ∈ l → t_channel_id (ticket_of a) = t_channel_id (ticket_of b) →
  t_channel_epoch (ticket_of a) = t_channel_epoch (ticket_of b) → t_index (ticket_of a) = t_index (ticket_of b) → a = b.
Proof.
  intros Hh [i Ha]%list_elem_of_lookup [j Hb]%list_elem_of_lookup Hc He Hi.
  assert (i = j) as ->; [by eapply holds_position|congruence].
Qed.

Lemma holds_NoDup l m : holds l m → NoDup l.
Proof. intros Hh. apply NoDup_alt. intros i j a Hi Hj. by eapply holds_position. Qed.

(** Operations on the indices leave the tickets alone. *)
Lemma holds_frame l m m' :
  holds l m → tickets (tickets_db m') = tickets (tickets_db m) → statistics (tickets_db m') = statistics (tickets_db m) →
  next_id (tickets_db m') = next_id (tickets_db m) → holds l m'.
Proof.
  intros [[Ha Hs Hi Hn Hk] Hr Ht Hb] He Hst Hid. split; rewrite ?He; [|done..|].
  - by split; rewrite ?He, ?Hst, ?Hid.
  - intros mark c. specialize (Hb mark c). unfold marked in *. by rewrite Hst.
Qed.
End Table.
