(* ===== verification/TicketStoreRuns.v ===== *)
(** * Concrete runs of the ticket database

    A hexadecimal codec that satisfies the laws of the [hex] crate, a database
    with one stored ticket, and the theorems of the ticket database applied to
    it. *)
From Stdlib Require Import Ascii.
From stdpp Require Import gmap strings.
From S2P Require Import Prelude Primitives Crypto Channels Tickets TicketStore TicketStoreSpec TicketIndexSpec.

Definition hex_digit (n : Z) : ascii := ascii_of_nat (Z.to_nat (if n <? 10 then 48 + n else 87 + n)).
Definition hex_value (a : ascii) : option Z :=
  let n := Z.of_nat (nat_of_ascii a) in
  if (48 <=? n) && (n <=? 57) then Some (n - 48)
  else if (97 <=? n) && (n <=? 102) then Some (n - 87) else None.

Fixpoint to_hex_string (b : bytes) : string :=
  match b with
  | [] => ""
  | x :: b => String (hex_digit (x / 16)) (String (hex_digit (x mod 16)) (to_hex_string b))
  end.

Fixpoint from_hex_string (s : string) : option bytes :=
  match s with
  | EmptyString => Some []
  | String hi (String lo s) =>
      x ← hex_value hi; y ← hex_value lo; b ← from_hex_string s; Some (16 * x + y :: b)
  | _ => None
  end.

#[local] Instance plain_hex : HexCodec := {| hex_encode := to_hex_string; hex_decode := from_hex_string |}.

Lemma hex_digit_value n : 0 ≤ n < 16 → hex_value (hex_digit n) = Some n.
Proof.
  intros Hn. assert (Forall (λ k, hex_value (hex_digit k) = Some k) (seqZ 0 16)) as Hall
    by (repeat (constructor; [reflexivity|]); constructor).
  rewrite Forall_forall in Hall. apply Hall. apply elem_of_seqZ. lia.
Qed.

#[local] Instance plain_hex_laws : @HexCodecLaws plain_hex.
Proof.
  split.
  - intros b. cbn. induction b as [|x b IH]; [done|]. cbn [to_hex_string String.length length]. rewrite IH. lia.
  - intros b Hb. cbn. induction Hb as [|x b Hx Hb IH]; [done|]. cbn [to_hex_string from_hex_string].
    unfold in_u in Hx. change (2 ^ 8) with 256 in Hx.
    rewrite !hex_digit_value by (split; [apply Z.div_pos||apply Z.mod_pos_bound; lia|];
      first [apply Z.div_lt_upper_bound; lia|apply Z.mod_pos_bound; lia] || lia).
    rewrite IH. cbn. by rewrite <-Z.div_mod by lia.
Qed.

#[local] Instance table_order : ScanOrder := λ _ l, l.
#[local] Instance table_order_laws : @ScanOrderLaws table_order.
Proof. by intros A l. Qed.

#[local] Existing Instances Z3_curve.

Definition empty_manager : TicketManager :=
  mkTicketManager (mkTicketsDb [] 1 ∅ ∅) ∅ ∅ (Some []) [].

Definition one_ticket : TicketManager :=
  default empty_manager (store_run [OpInsert toy_acknowledged; OpProcess] empty_manager).

Definition toy_selector : TicketSelector := selector_of_acknowledged toy_acknowledged.

Ltac by_eval := match goal with |- ?x = ?y => vm_cast_no_check (@eq_refl _ y) end.
Ltac by_check := apply (bool_decide_unpack _); vm_cast_no_check I.

Lemma toy_ticket_typed : Ticket_typed (verified_ticket (ack_ticket toy_acknowledged)).
Proof.
  unfold Ticket_typed. split_and!; try by_check.
  intros sig Hsig. assert (Some sig = t_signature (verified_ticket toy_verified)) as Hs by (by rewrite <-Hsig).
  vm_compute in Hs. injection Hs as ->. by_check.
Qed.

Lemma toy_selector_typed : selector_typed toy_selector.
Proof. split; [|done]. constructor; [|done]. split; by_check. Qed.

Lemma one_ticket_wf : store_wf (tickets_db one_ticket).
Proof.
  split.
  - assert (m_amount <$> tickets (tickets_db one_ticket) = [U256_to_be_bytes 100]) as Hm by by_eval.
    apply (Forall_fmap m_amount column_wf). rewrite Hm. constructor; [|done]. split; [by_check|unfold U256_to_be_bytes; rewrite length_to_be; lia].
  - intros c st Hc. assert (st = mkStats 1 (replicate 12 0) (replicate 12 0) (replicate 12 0)) as ->.
    { apply elem_of_map_to_list in Hc.
      assert (map_to_list (statistics (tickets_db one_ticket)) =
        [(to_hex (replicate 32 2), mkStats 1 (replicate 12 0) (replicate 12 0) (replicate 12 0))]) as Hl by by_eval.
      rewrite Hl in Hc. by apply list_elem_of_singleton in Hc as [= _ ->]. }
    intros []; (split; [by_check|cbn; lia]).
  - assert (m_id <$> tickets (tickets_db one_ticket) = [1]) as -> by by_eval. apply NoDup_singleton.
  - assert (m_id <$> tickets (tickets_db one_ticket) = [1]) as Hm by by_eval.
    apply (Forall_fmap m_id (λ i, i < next_id (tickets_db one_ticket))). rewrite Hm.
    constructor; [|done]. assert (next_id (tickets_db one_ticket) = 2) as -> by by_eval. lia.
  - assert (length (row_key <$> tickets (tickets_db one_ticket)) = 1%nat) as Hl by by_eval.
    destruct (row_key <$> tickets (tickets_db one_ticket)) as [|k [|]]; [done| |done]. apply NoDup_singleton.
Qed.

Lemma selector_exact_witness :
  ∃ r, ActiveModel_from (E:=DbSqlError) 7 toy_acknowledged = Ok r ∧ into_condition toy_selector r = true.
Proof.
  destruct (ActiveModel_from (E:=DbSqlError) 7 toy_acknowledged) as [r| |] eqn:Hr; [|exfalso; revert Hr; vm_compute; discriminate..].
  exists r. split; [reflexivity|].
  rewrite (selector_exact toy_selector toy_acknowledged 7 r toy_selector_typed toy_ticket_typed eq_refl Hr). by_eval.
Defined.

Lemma mark_tickets_as_exact_witness :
  match mark_tickets_as toy_selector Redeemed one_ticket with
  | (m', Ok n) => n = 1%nat ∧ marked (tickets_db m') Redeemed (to_hex (replicate 32 2)) = 100
  | _ => False
  end.
Proof.
  assert (Forall id_wf (channel_identifiers toy_selector)) as Hids by apply toy_selector_typed.
  assert (total (tickets (tickets_db one_ticket)) ≤ U256_max) as Ht.
  { assert (total (tickets (tickets_db one_ticket)) = 100) as -> by by_eval. vm_compute. discriminate. }
  pose proof (mark_tickets_as_exact toy_selector Redeemed one_ticket Hids one_ticket_wf Ht) as Hm. cbv zeta in Hm.
  assert (∃ m', mark_tickets_as toy_selector Redeemed one_ticket = (m', Ok 1%nat)) as [m' Hrun].
  { eexists. vm_compute. reflexivity. }
  rewrite Hrun in Hm |- *. destruct Hm as (_ & (_ & Hmarked & _) & _). split; [reflexivity|].
  rewrite Hmarked. by_eval.
Defined.

Lemma empty_manager_wf : manager_wf empty_manager.
Proof. split; [|constructor]. split; [constructor|apply map_Forall_empty|constructor..]. Qed.

(** A ticket is stored, another one queued, the first redeemed and a third
    rejected: the books hold 100 redeemed and 100 rejected. *)
Definition toy_history : list StoreOp :=
  [OpInsert toy_acknowledged; OpProcess; OpInsert toy_acknowledged; OpMark toy_selector Redeemed;
   OpReject (verified_ticket toy_verified)].

Lemma ledger_witness :
  ∃ m', store_run toy_history empty_manager = Some m' ∧
    account (tickets_db m') (to_hex (replicate 32 2)) = 200.
Proof.
  assert (∃ m', store_run toy_history empty_manager = Some m') as [m' Hrun] by (eexists; vm_compute; reflexivity).
  exists m'. split; [exact Hrun|].
  assert (Forall op_typed toy_history) as Hops.
  { assert (amount_ok (verified_ticket toy_verified)) as Ha by by_check.
    repeat (constructor; [first [exact Ha|exact I|apply toy_selector_typed]|]). constructor. }
  assert (supply empty_manager + offered_all toy_history ≤ U256_max) as Hs.
  { assert (supply empty_manager + offered_all toy_history = 200) as -> by by_eval. vm_compute. discriminate. }
  destruct (ledger toy_history empty_manager m' empty_manager_wf Hops Hs Hrun) as [_ Hacc].
  rewrite Hacc. by_eval.
Defined.

Lemma insert_ticket_caches_witness :
  ∃ m', insert_ticket toy_acknowledged one_ticket = (m', Ok tt) ∧
    unrealized_cache m' !! (replicate 32 2 : Hash, 1) = Some (mkBalance 200).
Proof.
  eexists. split; [apply (insert_ticket_caches toy_acknowledged one_ticket [] one_ticket_wf)|]; by_eval.
Defined.

(** *** Indices *)
Definition toy_channel : Hash := replicate 32 2.
Definition fresh_indices : TicketManager := mkTicketManager (mkTicketsDb [] 1 ∅ ∅) ∅ ∅ None [].

Lemma indices_never_repeat_witness :
  issued [IIncrement toy_channel; IIncrement toy_channel; IRestart; IRaise toy_channel 7; IIncrement toy_channel]
    fresh_indices = [(toy_channel, 0); (toy_channel, 1); (toy_channel, 7)] ∧
  Sorted.StronglySorted Z.lt [0; 1; 7].
Proof.
  set (ops := [_; _; _; _; _]).
  assert (array_wf 32 toy_channel) as Hc by by_check.
  assert (issued ops fresh_indices = [(toy_channel, 0); (toy_channel, 1); (toy_channel, 7)]) as Hi by by_eval.
  split; [exact Hi|].
  destruct (indices_never_repeat ops fresh_indices 7 toy_channel) as [Hs _]; [by split|done| |done| |done|].
  - repeat (constructor; [first [exact Hc|exact I|split; [exact Hc|lia]]|]). constructor.
  - intros c _. vm_compute. discriminate.
  - rewrite Hi in Hs. exact Hs.
Defined.
