(* ===== verification/NodeDb.v ===== *)
(** * The node database

    Models the index side of [db/sql]: the channel table and its editor
    ([channels.rs], [db/entity/src/conversions/channels.rs]), accounts and
    announcements ([accounts.rs], [resolver.rs]), the indexer data and the Safe
    ([info.rs]), the network registry ([registry.rs]) and the caches in front of
    them ([cache.rs]).  A call inside an outer transaction runs on the tables as
    that transaction sees them; caches are shared.  Cache entries may also
    expire at any moment, which is a step of the environment. *)
From Stdlib Require Import Floats.SpecFloat.
From stdpp Require Import gmap strings sorting.
From S2P Require Import Prelude Primitives Crypto Channels Tickets SharedKeys MetaPacket Packet.
From S2P Require Import TicketStore.

(** ** Accounts *)

(** The [multiaddr] crate. *)
Class Multiaddrs := {
  Multiaddr : Type;
  parse_multiaddr : string → option Multiaddr;
  multiaddr_to_string : Multiaddr → string
}.

Section Accounts.
Context `{!Multiaddrs}.

Inductive AccountType :=
| NotAnnounced
| Announced (multiaddr : Multiaddr) (updated_block : Z).

Context `{!Curve25519}.

Record AccountEntry := mkAccount {
  public_key : OffchainPublicKey;
  chain_addr : Address;
  entry_type : AccountType;
  published_at : Z
}.

Context `{!Secp256k1}.

Definition updated_at (a : AccountEntry) : option Z :=
  match entry_type a with NotAnnounced => None | Announced _ b => Some b end.

Definition key_id (a : AccountEntry) : KeyIdent :=
  KeyIdent_from_int 4 (from_be (take 4
    (Hash_create [opk_compressed (public_key a); chain_addr a; to_be 4 (published_at a)]))).

Definition has_announced (a : AccountEntry) : bool :=
  match entry_type a with Announced _ _ => true | NotAnnounced => false end.

Definition get_multiaddr (a : AccountEntry) : option Multiaddr :=
  match entry_type a with NotAnnounced => None | Announced m _ => Some m end.
End Accounts.

(** ** Rows *)
Record ChannelModel := mkChannelModel {
  cm_id : Z;
  cm_channel_id : string;
  cm_source : string;
  cm_destination : string;
  cm_balance : bytes;
  cm_status : Z;
  cm_epoch : bytes;
  cm_ticket_index : bytes;
  cm_closure_time : option SystemTime
}.

Record AccountModel := mkAccountModel {
  am_id : Z;
  am_chain_key : string;
  am_packet_key : string;
  am_published_at : Z
}.

Record AnnouncementModel := mkAnnouncementModel {
  nm_id : Z;
  nm_account_id : Z;
  nm_multiaddress : string;
  nm_at_block : Z
}.

Definition f32 : Type := spec_float.

(** [f64 as f32] and back. *)
Definition f64_as_f32 (x : f64) : f32 :=
  match x with
  | S754_finite s m e => binary_normalize 24 128 (cond_Zopp s (Z.pos m)) e s
  | x => x
  end.
Definition f32_as_f64 (x : f32) : f64 :=
  match x with
  | S754_finite s m e => binary_normalize 53 1024 (cond_Zopp s (Z.pos m)) e s
  | x => x
  end.

Record ChainInfoModel := mkChainInfo {
  ci_ledger_dst : option bytes;
  ci_safe_registry_dst : option bytes;
  ci_channels_dst : option bytes;
  ci_ticket_price : option bytes;
  ci_min_incoming_ticket_win_prob : f32;
  ci_network_registry_enabled : bool;
  ci_last_indexed_block : Z
}.

Record NodeInfoModel := mkNodeInfo {
  ni_safe_address : option string;
  ni_module_address : option string;
  ni_safe_balance : bytes;
  ni_safe_allowance : bytes
}.

(** The index database; an id is larger than all ids before. *)
Record IndexDb := mkIndexDb {
  channels : list ChannelModel;
  accounts : list AccountModel;
  announcements : list AnnouncementModel;
  chain_info : option ChainInfoModel;
  node_info : option NodeInfoModel;
  network_registry : gset string;
  network_eligibility : gset string;
  global_settings : gmap string bytes;
  next_row : Z
}.

(** ** Types of the API ([db/api/src/info.rs]) *)
Record IndexerData := mkIndexerData {
  ledger_dst : option Hash;
  safe_registry_dst : option Hash;
  channels_dst : option Hash;
  ticket_price : option HoprBalance;
  minimum_incoming_ticket_winning_prob : WinningProbability;
  nr_enabled : bool
}.

Inductive DomainSeparator := Ledger | SafeRegistry | Channel.

Definition domain_separator (d : IndexerData) (dst_type : DomainSeparator) : option Hash :=
  match dst_type with
  | Ledger => ledger_dst d
  | SafeRegistry => safe_registry_dst d
  | Channel => channels_dst d
  end.

Record SafeInfo := mkSafeInfo { safe_address : Address; module_address : Address }.

(** ** The state *)

(** [PendingAcknowledgement] ([internal-types/src/protocol.rs]). *)
Inductive PendingAcknowledgement :=
| WaitingAsSender
| WaitingAsRelayer (t : UnacknowledgedTicket).

Section Db.
Context `{!Secp256k1} `{!Curve25519} `{!HexCodec} `{!ScanOrder} `{!Multiaddrs}.

(** The database of the node with its caches.  A cache keyed by public keys is
    keyed by their compressed form, which is what their equality compares. *)
Record HoprDb := mkHoprDb {
  index_db : IndexDb;
  ticket_manager : TicketManager;
  indexer_data_cache : option IndexerData;
  safe_info_cache : option (option SafeInfo);
  unacked_tickets : gmap HalfKeyChallenge PendingAcknowledgement;
  chain_to_offchain : gmap Address (option OffchainPublicKey);
  offchain_to_chain : gmap bytes (option Address);
  src_dst_to_channel : gmap (Address * Address) (option ChannelEntry);
  key_id_to_public : gmap KeyIdent OffchainPublicKey;
  public_to_key_id : gmap bytes KeyIdent;
  pseudonym_openers : gmap bytes ReplyOpener;
  surbs_per_pseudonym : gmap HoprPseudonym (list (bytes * SURB));
  chain_key : ChainKeypair;
  me_onchain : Address
}.

Definition set_index_db x db := mkHoprDb x (ticket_manager db) (indexer_data_cache db) (safe_info_cache db)
  (unacked_tickets db) (chain_to_offchain db) (offchain_to_chain db) (src_dst_to_channel db)
  (key_id_to_public db) (public_to_key_id db) (pseudonym_openers db) (surbs_per_pseudonym db) (chain_key db) (me_onchain db).
Definition set_ticket_manager x db := mkHoprDb (index_db db) x (indexer_data_cache db) (safe_info_cache db)
  (unacked_tickets db) (chain_to_offchain db) (offchain_to_chain db) (src_dst_to_channel db)
  (key_id_to_public db) (public_to_key_id db) (pseudonym_openers db) (surbs_per_pseudonym db) (chain_key db) (me_onchain db).
Definition set_indexer_data_cache x db := mkHoprDb (index_db db) (ticket_manager db) x (safe_info_cache db)
  (unacked_tickets db) (chain_to_offchain db) (offchain_to_chain db) (src_dst_to_channel db)
  (key_id_to_public db) (public_to_key_id db) (pseudonym_openers db) (surbs_per_pseudonym db) (chain_key db) (me_onchain db).
Definition set_safe_info_cache x db := mkHoprDb (index_db db) (ticket_manager db) (indexer_data_cache db) x
  (unacked_tickets db) (chain_to_offchain db) (offchain_to_chain db) (src_dst_to_channel db)
  (key_id_to_public db) (public_to_key_id db) (pseudonym_openers db) (surbs_per_pseudonym db) (chain_key db) (me_onchain db).
Definition set_unacked_tickets x db := mkHoprDb (index_db db) (ticket_manager db) (indexer_data_cache db) (safe_info_cache db)
  x (chain_to_offchain db) (offchain_to_chain db) (src_dst_to_channel db)
  (key_id_to_public db) (public_to_key_id db) (pseudonym_openers db) (surbs_per_pseudonym db) (chain_key db) (me_onchain db).
Definition set_chain_to_offchain x db := mkHoprDb (index_db db) (ticket_manager db) (indexer_data_cache db) (safe_info_cache db)
  (unacked_tickets db) x (offchain_to_chain db) (src_dst_to_channel db)
  (key_id_to_public db) (public_to_key_id db) (pseudonym_openers db) (surbs_per_pseudonym db) (chain_key db) (me_onchain db).
Definition set_offchain_to_chain x db := mkHoprDb (index_db db) (ticket_manager db) (indexer_data_cache db) (safe_info_cache db)
  (unacked_tickets db) (chain_to_offchain db) x (src_dst_to_channel db)
  (key_id_to_public db) (public_to_key_id db) (pseudonym_openers db) (surbs_per_pseudonym db) (chain_key db) (me_onchain db).
Definition set_src_dst_to_channel x db := mkHoprDb (index_db db) (ticket_manager db) (indexer_data_cache db) (safe_info_cache db)
  (unacked_tickets db) (chain_to_offchain db) (offchain_to_chain db) x
  (key_id_to_public db) (public_to_key_id db) (pseudonym_openers db) (surbs_per_pseudonym db) (chain_key db) (me_onchain db).
Definition set_key_ids x y db := mkHoprDb (index_db db) (ticket_manager db) (indexer_data_cache db) (safe_info_cache db)
  (unacked_tickets db) (chain_to_offchain db) (offchain_to_chain db) (src_dst_to_channel db)
  x y (pseudonym_openers db) (surbs_per_pseudonym db) (chain_key db) (me_onchain db).
Definition set_pseudonym_openers x db := mkHoprDb (index_db db) (ticket_manager db) (indexer_data_cache db) (safe_info_cache db)
  (unacked_tickets db) (chain_to_offchain db) (offchain_to_chain db) (src_dst_to_channel db)
  (key_id_to_public db) (public_to_key_id db) x (surbs_per_pseudonym db) (chain_key db) (me_onchain db).
Definition set_surbs_per_pseudonym x db := mkHoprDb (index_db db) (ticket_manager db) (indexer_data_cache db) (safe_info_cache db)
  (unacked_tickets db) (chain_to_offchain db) (offchain_to_chain db) (src_dst_to_channel db)
  (key_id_to_public db) (public_to_key_id db) (pseudonym_openers db) x (chain_key db) (me_onchain db).

Abbreviation IX := (SM IndexDb DbSqlError).
Abbreviation DB := (SM HoprDb DbSqlError).

(** A transaction on the index database: rolled back on an error. *)
Definition index_tx {A} (tx : IX A) : DB A := λ db,
  match tx (index_db db) with
  | (d, Ok a) => (set_index_db d db, Ok a)
  | (_, Err e) => (db, Err e)
  | (_, Panic) => (db, Panic)
  end.

(** An operation of the ticket manager. *)
Definition on_tickets {A} (f : SM TicketManager DbSqlError A) : DB A := λ db,
  match f (ticket_manager db) with (m, o) => (set_ticket_manager m db, o) end.

(** [try_get_with] of a cache: an error is wrapped and not cached. *)
Definition try_get_with {A} (look : HoprDb → option A) (store : A → HoprDb → HoprDb) (fetch : DB A) : DB A := λ db,
  match look db with
  | Some v => (db, Ok v)
  | None =>
      match fetch db with
      | (db, Ok v) => (store v db, Ok v)
      | (db, Err e) => (db, Err (CacheError e))
      | (db, Panic) => (db, Panic)
      end
  end.

Definition set_channels x d := mkIndexDb x (accounts d) (announcements d) (chain_info d) (node_info d)
  (network_registry d) (network_eligibility d) (global_settings d) (next_row d).
Definition set_accounts x d := mkIndexDb (channels d) x (announcements d) (chain_info d) (node_info d)
  (network_registry d) (network_eligibility d) (global_settings d) (next_row d).
Definition set_announcements x d := mkIndexDb (channels d) (accounts d) x (chain_info d) (node_info d)
  (network_registry d) (network_eligibility d) (global_settings d) (next_row d).
Definition set_chain_info x d := mkIndexDb (channels d) (accounts d) (announcements d) x (node_info d)
  (network_registry d) (network_eligibility d) (global_settings d) (next_row d).
Definition set_node_info x d := mkIndexDb (channels d) (accounts d) (announcements d) (chain_info d) x
  (network_registry d) (network_eligibility d) (global_settings d) (next_row d).
Definition set_network_registry x d := mkIndexDb (channels d) (accounts d) (announcements d) (chain_info d) (node_info d)
  x (network_eligibility d) (global_settings d) (next_row d).
Definition set_network_eligibility x d := mkIndexDb (channels d) (accounts d) (announcements d) (chain_info d) (node_info d)
  (network_registry d) x (global_settings d) (next_row d).
Definition set_global_settings x d := mkIndexDb (channels d) (accounts d) (announcements d) (chain_info d) (node_info d)
  (network_registry d) (network_eligibility d) x (next_row d).
Definition bump_row d := mkIndexDb (channels d) (accounts d) (announcements d) (chain_info d) (node_info d)
  (network_registry d) (network_eligibility d) (global_settings d) (next_row d + 1).

(** ** Channels *)
Definition ChannelStatus_try_from (value : ChannelModel) : outcome DbEntityError ChannelStatus :=
  if cm_status value =? 0 then Ok Closed
  else if cm_status value =? 1 then Ok Open
  else if cm_status value =? 2 then
    time ← ok_or (cm_closure_time value) (ConversionError "channel is pending to close but without closure time");
    Ok (PendingToClose time)
  else Err (ConversionError "invalid channel status value").

Definition Address_from_hex : string → outcome GeneralError Address := from_hex Address_try_from.

Definition ChannelEntry_try_from (value : ChannelModel) : outcome DbEntityError ChannelEntry :=
  status ← ChannelStatus_try_from value;
  source ← map_err EntityGeneralError (Address_from_hex (cm_source value));
  destination ← map_err EntityGeneralError (Address_from_hex (cm_destination value));
  balance ← U256_from_be_bytes (cm_balance value);
  ticket_index ← U256_from_be_bytes (cm_ticket_index value);
  epoch ← U256_from_be_bytes (cm_epoch value);
  Ok (ChannelEntry_new source destination (mkBalance balance) ticket_index status epoch).

(** The columns that are set; the closure time only for a pending channel. *)
Definition closure_of (s : ChannelStatus) : option SystemTime :=
  match s with PendingToClose t => Some t | _ => None end.

(** [From<ChannelEntry> for channel::ActiveModel], saved in the place of [old]. *)
Definition ChannelModel_from (id : Z) (old_closure : option SystemTime) (value : ChannelEntry) : ChannelModel :=
  mkChannelModel id (to_hex (get_id value)) (to_hex (source value)) (to_hex (destination value))
    (U256_to_be_bytes (amount (balance value))) (ChannelStatus_to_i8 (status value))
    (U256_to_be_bytes (channel_epoch value)) (U256_to_be_bytes (ticket_index value))
    (match closure_of (status value) with Some t => Some t | None => old_closure end).

Definition decode_channel (m : ChannelModel) : DR ChannelEntry := map_err EntityError (ChannelEntry_try_from m).

(** At most one row, then decoded. *)
Definition find_channel (cond : ChannelModel → bool) : IX (option ChannelModel) :=
  d ← get; mret (hd_error (scan (filter cond (channels d)))).

Definition decode_option (m : option ChannelModel) : DR (option ChannelEntry) :=
  match m with Some m => e ← decode_channel m; Ok (Some e) | None => Ok None end.

Definition get_channel_by_id (id : Hash) : DB (option ChannelEntry) :=
  index_tx (m ← find_channel (λ m, bool_decide (cm_channel_id m = to_hex id)); lift (decode_option m)).

(** [ChannelEditor]: the entry and the row that were read, and the changes. *)
Record ChannelEditor := mkChannelEditor {
  ce_orig : ChannelEntry;
  ce_model : ChannelModel;
  ce_balance : option bytes;
  ce_status : option ChannelStatus;
  ce_closure_time : option SystemTime;
  ce_ticket_index : option bytes;
  ce_epoch : option bytes;
  ce_delete : bool
}.

Definition change_balance (balance : HoprBalance) (e : ChannelEditor) : ChannelEditor :=
  mkChannelEditor (ce_orig e) (ce_model e) (Some (U256_to_be_bytes (amount balance))) (ce_status e) (ce_closure_time e)
    (ce_ticket_index e) (ce_epoch e) (ce_delete e).
Definition change_status (status : ChannelStatus) (e : ChannelEditor) : ChannelEditor :=
  mkChannelEditor (ce_orig e) (ce_model e) (ce_balance e) (Some status)
    (match closure_of status with Some t => Some t | None => ce_closure_time e end)
    (ce_ticket_index e) (ce_epoch e) (ce_delete e).
Definition change_ticket_index (index : Z) (e : ChannelEditor) : ChannelEditor :=
  mkChannelEditor (ce_orig e) (ce_model e) (ce_balance e) (ce_status e) (ce_closure_time e)
    (Some (U256_to_be_bytes index)) (ce_epoch e) (ce_delete e).
Definition change_epoch (epoch : Z) (e : ChannelEditor) : ChannelEditor :=
  mkChannelEditor (ce_orig e) (ce_model e) (ce_balance e) (ce_status e) (ce_closure_time e)
    (ce_ticket_index e) (Some (U256_to_be_bytes epoch)) (ce_delete e).
Definition editor_delete (e : ChannelEditor) : ChannelEditor :=
  mkChannelEditor (ce_orig e) (ce_model e) (ce_balance e) (ce_status e) (ce_closure_time e)
    (ce_ticket_index e) (ce_epoch e) true.

Definition begin_channel_update (id : Hash) : DB (option ChannelEditor) :=
  index_tx (
    m ← find_channel (λ m, bool_decide (cm_channel_id m = to_hex id));
    match m with
    | Some m =>
        e ← lift (decode_channel m);
        mret (Some (mkChannelEditor e m None None None None None false))
    | None => mret None
    end).

(** The set columns of an editor, written over a row. *)
Definition apply_edits (e : ChannelEditor) (m : ChannelModel) : ChannelModel :=
  mkChannelModel (cm_id m) (cm_channel_id m) (cm_source m) (cm_destination m)
    (default (cm_balance m) (ce_balance e))
    (match ce_status e with Some s => ChannelStatus_to_i8 s | None => cm_status m end)
    (default (cm_epoch m) (ce_epoch e))
    (default (cm_ticket_index m) (ce_ticket_index e))
    (match ce_closure_time e with Some t => Some t | None => cm_closure_time m end).

Definition update_channel_row (e : ChannelEditor) : IX ChannelModel :=
  d ← get;
  match List.find (λ m, cm_id m =? cm_id (ce_model e)) (channels d) with
  | Some m =>
      modify (set_channels ((λ m, if cm_id m =? cm_id (ce_model e) then apply_edits e m else m) <$> channels d));;
      mret (apply_edits e m)
  | None => throw (BackendError "RecordNotUpdated")
  end.

(** The cached unrealized value of a channel and epoch is forgotten. *)
Definition invalidate_unrealized (channel_id : Hash) (epoch : Z) : DB unit :=
  on_tickets (modify (λ m, set_unrealized (delete (channel_id, epoch) (unrealized_cache m)) m)).

Definition invalidate_parties (source destination : Address) : DB unit :=
  modify (λ db, set_src_dst_to_channel (delete (source, destination) (src_dst_to_channel db)) db).

(** The editor's epoch is the new one if it was changed. *)
Definition finish_channel_update (e : ChannelEditor) : DB ChannelEntry :=
  ret ← index_tx (
    if ce_delete e then
      modify (λ d, set_channels (filter (λ m, negb (cm_id m =? cm_id (ce_model e))) (channels d)) d);;
      mret (ce_orig e)
    else m ← update_channel_row e; lift (decode_channel m));
  invalidate_parties (source (ce_orig e)) (destination (ce_orig e));;
  invalidate_unrealized (get_id (ce_orig e)) (from_be (default (cm_epoch (ce_model e)) (ce_epoch e)));;
  mret ret.

Definition fetch_channel (src dst : Address) : DB (option ChannelEntry) :=
  index_tx (
    m ← find_channel (λ m, bool_decide (cm_source m = to_hex src) && bool_decide (cm_destination m = to_hex dst));
    lift (decode_option m)).

Definition get_channel_by_parties (src dst : Address) (use_cache : bool) : DB (option ChannelEntry) :=
  if use_cache then
    try_get_with (λ db, src_dst_to_channel db !! (src, dst))
      (λ v db, set_src_dst_to_channel (<[(src, dst) := v]> (src_dst_to_channel db)) db) (fetch_channel src dst)
  else fetch_channel src dst.

Definition get_channels_via (direction : ChannelDirection) (target : Address) : DB (list ChannelEntry) :=
  index_tx (
    d ← get;
    lift (mapM decode_channel (scan (filter (λ m,
      (match direction with Incoming => cm_destination m | Outgoing => cm_source m end) = to_hex target)
      (channels d))))).

Definition get_incoming_channels : DB (list ChannelEntry) :=
  db ← get; get_channels_via Incoming (me_onchain db).
Definition get_outgoing_channels : DB (list ChannelEntry) :=
  db ← get; get_channels_via Outgoing (me_onchain db).

Definition get_all_channels : DB (list ChannelEntry) :=
  index_tx (d ← get; lift (mapM decode_channel (scan (channels d)))).

(** The elements of the stream, in order; [now] is the time of the query. *)
Definition stream_active_channels (now : SystemTime) : DB (list (DR ChannelEntry)) :=
  db ← get;
  mret (decode_channel <$> scan (filter (λ m, (cm_status m =? 1) ||
    ((cm_status m =? 2) && match cm_closure_time m with Some t => now <? t | None => false end))
    (channels (index_db db)))).

(** The unique indices of the table. *)
Definition channel_conflict (m m' : ChannelModel) : bool :=
  bool_decide (cm_channel_id m = cm_channel_id m') ||
  (bool_decide (cm_source m = cm_source m') && bool_decide (cm_destination m = cm_destination m')).

Definition upsert_channel_tx (channel_entry : ChannelEntry) : IX unit :=
  m ← find_channel (λ m, bool_decide (cm_channel_id m = to_hex (get_id channel_entry)));
  d ← get;
  match m with
  | Some m =>
      let new := ChannelModel_from (cm_id m) (cm_closure_time m) channel_entry in
      if existsb (λ m', negb (cm_id m' =? cm_id m) && channel_conflict new m') (channels d)
      then throw (BackendError "UNIQUE constraint failed")
      else modify (set_channels ((λ m', if cm_id m' =? cm_id m then new else m') <$> channels d))
  | None =>
      let new := ChannelModel_from (next_row d) None channel_entry in
      if existsb (channel_conflict new) (channels d)
      then throw (BackendError "UNIQUE constraint failed")
      else modify (λ d, bump_row (set_channels (channels d ++ [new]) d))
  end.

Definition upsert_channel (channel_entry : ChannelEntry) : DB unit :=
  index_tx (upsert_channel_tx channel_entry);;
  invalidate_parties (source channel_entry) (destination channel_entry);;
  invalidate_unrealized (get_id channel_entry) (channel_epoch channel_entry).

(** ** Accounts *)
Inductive ChainOrPacketKey := ChainKey (a : Address) | PacketKey (k : OffchainPublicKey).

Definition key_condition (key : ChainOrPacketKey) (a : AccountModel) : bool :=
  match key with
  | ChainKey chain_key => bool_decide (am_chain_key a = to_hex chain_key)
  | PacketKey packet_key => bool_decide (am_packet_key a = to_hex (opk_compressed packet_key))
  end.

Definition OffchainPublicKey_from_hex : string → outcome GeneralError OffchainPublicKey :=
  from_hex OffchainPublicKey_try_from.

Definition model_to_account_entry (account : AccountModel) (announcements : list AnnouncementModel) :
    DR AccountEntry :=
  public_key ← map_err NonSpecificError (OffchainPublicKey_from_hex (am_packet_key account));
  chain_addr ← map_err NonSpecificError (Address_from_hex (am_chain_key account));
  entry_type ← match announcements with
               | [] => Ok NotAnnounced
               | a :: _ =>
                   multiaddr ← ok_or (parse_multiaddr (nm_multiaddress a)) DecodingError;
                   Ok (Announced multiaddr (wrap 32 (nm_at_block a)))
               end;
  Ok (mkAccount public_key chain_addr entry_type (wrap 32 (am_published_at account))).

(** The left join of accounts with their announcements, the latest
    announcement first; rows without one come last. *)
Definition join_rows (d : IndexDb) (cond : AccountModel → bool) : list (AccountModel * option AnnouncementModel) :=
  a ← filter cond (accounts d);
  match filter (λ n, nm_account_id n = am_id a) (announcements d) with
  | [] => [(a, None)]
  | l => (λ n, (a, Some n)) <$> l
  end.

Definition at_block_desc (x y : AccountModel * option AnnouncementModel) : Prop :=
  match x.2, y.2 with
  | Some n, Some n' => nm_at_block n' ≤ nm_at_block n
  | Some _, None => True
  | None, Some _ => False
  | None, None => True
  end.
#[global] Instance at_block_desc_dec x y : Decision (at_block_desc x y).
Proof. unfold at_block_desc. destruct x.2, y.2; apply _. Defined.

(** The rows of one account are gathered where the first of them is. *)
Fixpoint consolidate (rows : list (AccountModel * option AnnouncementModel))
    (acc : list (AccountModel * list AnnouncementModel)) : list (AccountModel * list AnnouncementModel) :=
  match rows with
  | [] => acc
  | (a, n) :: rows =>
      let n := match n with Some n => [n] | None => [] end in
      consolidate rows
        (if existsb (λ p, am_id p.1 =? am_id a) acc
         then (λ p, if am_id p.1 =? am_id a then (p.1, p.2 ++ n) else p) <$> acc
         else acc ++ [(a, n)])
  end.

Definition find_with_related (cond : AccountModel → bool) (d : IndexDb) :
    list (AccountModel * list AnnouncementModel) :=
  consolidate (merge_sort at_block_desc (scan (join_rows d cond))) [].

Definition get_account (key : ChainOrPacketKey) : DB (option AccountEntry) :=
  index_tx (
    d ← get;
    match last (find_with_related (key_condition key) d) with
    | Some (account, announcements) =>
        e ← lift (model_to_account_entry account announcements); mret (Some e)
    | None => mret None
    end).

Definition get_self_account : DB AccountEntry :=
  db ← get;
  a ← get_account (ChainKey (me_onchain db));
  match a with Some a => mret a | None => throw MissingAccount end.

(** With [public_only], accounts without an announcement have no joined row. *)
Definition get_accounts (public_only : bool) : DB (list AccountEntry) :=
  index_tx (
    d ← get;
    let rows := if public_only
                then filter (λ r : AccountModel * option AnnouncementModel,
                       from_option (λ n, negb (String.eqb (nm_multiaddress n) "")) false r.2)
                       (join_rows d (λ _, true))
                else join_rows d (λ _, true) in
    lift (mapM (λ p, model_to_account_entry p.1 p.2) (consolidate (merge_sort at_block_desc (scan rows)) []))).

(** The index of [announcements] is unique for an account and multiaddress. *)
Definition insert_announcement_tx (key : ChainOrPacketKey) (multiaddr : Multiaddr) (at_block : Z) : IX AccountEntry :=
  d ← get;
  match last (find_with_related (key_condition key) d) with
  | None => throw MissingAccount
  | Some (existing_account, existing) =>
      let text := multiaddr_to_string multiaddr in
      match list_find (λ n, nm_multiaddress n = text) existing with
      | Some (index, n) =>
          let n' := mkAnnouncementModel (nm_id n) (nm_account_id n) (nm_multiaddress n) (to_i32 at_block) in
          modify (set_announcements ((λ m, if nm_id m =? nm_id n then n' else m) <$> announcements d));;
          lift (model_to_account_entry existing_account (<[index := n']> existing))
      | None =>
          let n := mkAnnouncementModel (next_row d) (am_id existing_account) text (to_i32 at_block) in
          modify (λ d, bump_row (set_announcements (announcements d ++ [n]) d));;
          lift (model_to_account_entry existing_account (n :: existing))
      end
  end.

Definition insert_announcement (key : ChainOrPacketKey) (multiaddr : Multiaddr) (at_block : Z) : DB AccountEntry :=
  index_tx (insert_announcement_tx key multiaddr at_block).

(** [CacheKeyMapper::update_key_id_binding]. *)
Definition update_key_id_binding (account : AccountEntry) : DB unit :=
  db ← get;
  let id := key_id account in
  match key_id_to_public db !! id, public_to_key_id db !! opk_compressed (public_key account) with
  | None, None =>
      modify (set_key_ids (<[id := public_key account]> (key_id_to_public db))
        (<[opk_compressed (public_key account) := id]> (public_to_key_id db)))
  | Some k, Some _ =>
      if bool_decide (opk_compressed k = opk_compressed (public_key account)) then mret tt
      else throw (LogicalError "attempt to insert key with a key-id that already exists")
  | _, _ => throw (LogicalError "inconsistent key-id binding")
  end.

(** Runs a transaction whose steps also write caches: an error rolls the
    tables back but not the caches. *)
Definition index_rollback {E A} (f : SM HoprDb E A) : SM HoprDb E A := λ db,
  match f db with
  | (db', Ok a) => (db', Ok a)
  | (db', Err e) => (set_index_db (index_db db) db', Err e)
  | (db', Panic) => (set_index_db (index_db db) db', Panic)
  end.

(** The row of the account, unless there is one. *)
Definition insert_account_row (account : AccountEntry) : IX unit :=
  d ← get;
  let chain_key := to_hex (chain_addr account) in
  let packet_key := to_hex (opk_compressed (public_key account)) in
  if existsb (λ a, String.eqb (am_chain_key a) chain_key && String.eqb (am_packet_key a) packet_key) (accounts d)
  then mret tt
  else modify (λ d, bump_row (set_accounts
         (accounts d ++ [mkAccountModel (next_row d) chain_key packet_key (to_i32 (published_at account))]) d)).

Definition insert_account (account : AccountEntry) : DB unit :=
  index_rollback (
    index_tx (insert_account_row account);;
    modify (λ db, set_chain_to_offchain
      (<[chain_addr account := Some (public_key account)]> (chain_to_offchain db)) db);;
    modify (λ db, set_offchain_to_chain
      (<[opk_compressed (public_key account) := Some (chain_addr account)]> (offchain_to_chain db)) db);;
    update_key_id_binding account;;
    match entry_type account with
    | Announced multiaddr updated_block =>
        insert_announcement (ChainKey (chain_addr account)) multiaddr updated_block;; mret tt
    | NotAnnounced => mret tt
    end).

(** The announcements of an account, deleted by their ids. *)
Definition delete_all_announcements (key : ChainOrPacketKey) : DB unit :=
  index_tx (
    d ← get;
    let to_delete := nm_id <$> (a ← filter (key_condition key) (accounts d);
                                filter (λ n, nm_account_id n = am_id a) (announcements d)) in
    match to_delete with
    | [] => throw MissingAccount
    | _ => modify (set_announcements (filter (λ n, negb (existsb (Z.eqb (nm_id n)) to_delete)) (announcements d)))
    end).

(** Announcements are deleted with their account. *)
Definition delete_account (key : ChainOrPacketKey) : DB unit :=
  index_rollback (
    entry ← index_tx (
      d ← get;
      match hd_error (scan (filter (key_condition key) (accounts d))) with
      | Some entry =>
          account_entry ← lift (model_to_account_entry entry []);
          modify (λ d, set_announcements (filter (λ n, nm_account_id n ≠ am_id entry) (announcements d))
            (set_accounts (filter (λ a, am_id a ≠ am_id entry) (accounts d)) d));;
          mret account_entry
      | None => throw MissingAccount
      end);
    modify (λ db, set_chain_to_offchain (delete (chain_addr entry) (chain_to_offchain db)) db);;
    modify (λ db, set_offchain_to_chain (delete (opk_compressed (public_key entry)) (offchain_to_chain db)) db)).

Definition fetch_packet_key (chain_key : Address) : DB (option OffchainPublicKey) :=
  index_tx (
    d ← get;
    match hd_error (scan (filter (key_condition (ChainKey chain_key)) (accounts d))) with
    | Some m => k ← lift (map_err NonSpecificError (OffchainPublicKey_from_hex (am_packet_key m))); mret (Some k)
    | None => mret None
    end).

Definition fetch_chain_key (packet_key : OffchainPublicKey) : DB (option Address) :=
  index_tx (
    d ← get;
    match hd_error (scan (filter (key_condition (PacketKey packet_key)) (accounts d))) with
    | Some m => k ← lift (map_err NonSpecificError (Address_from_hex (am_chain_key m))); mret (Some k)
    | None => mret None
    end).

Definition translate_key (key : ChainOrPacketKey) : DB (option ChainOrPacketKey) :=
  match key with
  | ChainKey chain_key =>
      k ← try_get_with (λ db, chain_to_offchain db !! chain_key)
            (λ v db, set_chain_to_offchain (<[chain_key := v]> (chain_to_offchain db)) db)
            (fetch_packet_key chain_key);
      mret (PacketKey <$> k)
  | PacketKey packet_key =>
      k ← try_get_with (λ db, offchain_to_chain db !! opk_compressed packet_key)
            (λ v db, set_offchain_to_chain (<[opk_compressed packet_key := v]> (offchain_to_chain db)) db)
            (fetch_chain_key packet_key);
      mret (ChainKey <$> k)
  end.

(** [TryFrom<ChainOrPacketKey>]. *)
Definition as_packet_key (k : ChainOrPacketKey) : outcome GeneralError OffchainPublicKey :=
  match k with PacketKey k => Ok k | ChainKey _ => Err InvalidInput end.
Definition as_chain_key (k : ChainOrPacketKey) : outcome GeneralError Address :=
  match k with ChainKey a => Ok a | PacketKey _ => Err InvalidInput end.

Definition transpose_failed {E} : E → DbSqlError :=
  λ _, ApiError (ApiLogicalError "failed to transpose the translated key").

(** [HoprDbResolverOperations]; the API error carries the database error. *)
Definition resolve_packet_key (onchain_key : Address) : DB (option OffchainPublicKey) :=
  k ← translate_key (ChainKey onchain_key);
  match k with
  | Some k => p ← lift (map_err transpose_failed (as_packet_key k)); mret (Some p)
  | None => mret None
  end.

Definition resolve_chain_key (offchain_key : OffchainPublicKey) : DB (option Address) :=
  k ← translate_key (PacketKey offchain_key);
  match k with
  | Some k => p ← lift (map_err transpose_failed (as_chain_key k)); mret (Some p)
  | None => mret None
  end.
(** ** Chain information and the Safe: single rows, updated by column *)
Definition single {A} (table : string) (row : option A) : DR A := ok_or row (MissingFixedTableEntry table).

(** An update of the fixed row; without it nothing is updated. *)
Definition update_chain_info (f : ChainInfoModel → ChainInfoModel) : IX unit :=
  d ← get;
  match chain_info d with
  | Some m => modify (set_chain_info (Some (f m)))
  | None => throw (BackendError "RecordNotUpdated")
  end.
Definition update_node_info (f : NodeInfoModel → NodeInfoModel) : IX unit :=
  d ← get;
  match node_info d with
  | Some m => modify (set_node_info (Some (f m)))
  | None => throw (BackendError "RecordNotUpdated")
  end.

Definition chain_info_default : ChainInfoModel :=
  mkChainInfo None None None None (f64_as_f32 f64_one) false 0.
Definition node_info_default : NodeInfoModel := mkNodeInfo None None (replicate 12 0) (replicate 12 0).

Definition index_is_empty : DB bool :=
  db ← get;
  let d := index_db db in
  mret (negb (1 <? length (accounts d))%nat && (length (announcements d) =? 0)%nat &&
        (length (channels d) =? 0)%nat && bool_decide (network_eligibility d = ∅) &&
        bool_decide (network_registry d = ∅)).

Definition clear_index_db : DB unit :=
  index_tx (modify (λ d, mkIndexDb [] [] [] (Some chain_info_default) (Some node_info_default) ∅ ∅
    (global_settings d) (next_row d))).

Definition get_safe_hopr_balance : DB HoprBalance :=
  index_tx (d ← get; m ← lift (single "node_info" (node_info d)); lift (Balance_from_be_bytes (ni_safe_balance m))).

Definition set_safe_hopr_balance (new_balance : HoprBalance) : DB unit :=
  index_tx (update_node_info (λ m, mkNodeInfo (ni_safe_address m) (ni_module_address m)
    (Balance_to_be_bytes new_balance) (ni_safe_allowance m))).

Definition get_safe_hopr_allowance : DB HoprBalance :=
  index_tx (d ← get; m ← lift (single "node_info" (node_info d)); lift (Balance_from_be_bytes (ni_safe_allowance m))).

Definition set_safe_hopr_allowance (new_allowance : HoprBalance) : DB unit :=
  index_tx (update_node_info (λ m, mkNodeInfo (ni_safe_address m) (ni_module_address m)
    (ni_safe_balance m) (U256_to_be_bytes (amount new_allowance)))).

Definition fetch_safe_info : DB (option SafeInfo) :=
  addrs ← index_tx (
    d ← get; m ← lift (single "node_info" (node_info d));
    mret match ni_safe_address m, ni_module_address m with Some s, Some a => Some (s, a) | _, _ => None end);
  match addrs with
  | Some (s, a) =>
      s ← lift (map_err NonSpecificError (Address_from_hex s));
      a ← lift (map_err NonSpecificError (Address_from_hex a));
      mret (Some (mkSafeInfo s a))
  | None => mret None
  end.

Definition get_safe_info : DB (option SafeInfo) :=
  try_get_with safe_info_cache (λ v, set_safe_info_cache (Some v)) fetch_safe_info.

Definition set_safe_info (safe_info : SafeInfo) : DB unit :=
  index_tx (update_node_info (λ m, mkNodeInfo (Some (to_hex (safe_address safe_info)))
    (Some (to_hex (module_address safe_info))) (ni_safe_balance m) (ni_safe_allowance m)));;
  modify (set_safe_info_cache (Some (Some safe_info))).

Definition hash_column (b : option bytes) : DR (option Hash) :=
  match b with Some b => h ← map_err NonSpecificError (Hash_try_from b); Ok (Some h) | None => Ok None end.

Context `{!FloatCmp}.

Definition fetch_indexer_data : DB IndexerData :=
  index_tx (
    d ← get;
    model ← lift (single "chain_info" (chain_info d));
    ledger_dst ← lift (hash_column (ci_ledger_dst model));
    safe_registry_dst ← lift (hash_column (ci_safe_registry_dst model));
    channels_dst ← lift (hash_column (ci_channels_dst model));
    ticket_price ← lift (match ci_ticket_price model with
                         | Some b => p ← Balance_from_be_bytes b; Ok (Some p)
                         | None => Ok None
                         end);
    win_prob ← lift (map_err DbCoreTypesError (try_from_f64 (f32_as_f64 (ci_min_incoming_ticket_win_prob model))));
    mret (mkIndexerData ledger_dst safe_registry_dst channels_dst ticket_price win_prob
            (ci_network_registry_enabled model))).

Definition get_indexer_data : DB IndexerData :=
  try_get_with indexer_data_cache (λ v, set_indexer_data_cache (Some v)) fetch_indexer_data.

Definition update_indexer_data (f : ChainInfoModel → ChainInfoModel) : DB unit :=
  index_tx (update_chain_info f);; modify (set_indexer_data_cache None).

Definition set_domain_separator (dst_type : DomainSeparator) (value : Hash) : DB unit :=
  update_indexer_data (λ m,
    mkChainInfo (match dst_type with Ledger => Some value | _ => ci_ledger_dst m end)
      (match dst_type with SafeRegistry => Some value | _ => ci_safe_registry_dst m end)
      (match dst_type with Channel => Some value | _ => ci_channels_dst m end)
      (ci_ticket_price m) (ci_min_incoming_ticket_win_prob m) (ci_network_registry_enabled m)
      (ci_last_indexed_block m)).

Definition set_minimum_incoming_ticket_win_prob (win_prob : WinningProbability) : DB unit :=
  update_indexer_data (λ m, mkChainInfo (ci_ledger_dst m) (ci_safe_registry_dst m) (ci_channels_dst m)
    (ci_ticket_price m) (f64_as_f32 (as_f64 win_prob)) (ci_network_registry_enabled m) (ci_last_indexed_block m)).

Definition update_ticket_price (price : HoprBalance) : DB unit :=
  update_indexer_data (λ m, mkChainInfo (ci_ledger_dst m) (ci_safe_registry_dst m) (ci_channels_dst m)
    (Some (Balance_to_be_bytes price)) (ci_min_incoming_ticket_win_prob m) (ci_network_registry_enabled m)
    (ci_last_indexed_block m)).

Definition set_network_registry_enabled (enabled : bool) : DB unit :=
  update_indexer_data (λ m, mkChainInfo (ci_ledger_dst m) (ci_safe_registry_dst m) (ci_channels_dst m)
    (ci_ticket_price m) (ci_min_incoming_ticket_win_prob m) enabled (ci_last_indexed_block m)).

(** The latest block; the other fields of [IndexerStateInfo] are defaults. *)
Definition get_indexer_state_info : DB Z :=
  index_tx (d ← get; m ← lift (single "chain_info" (chain_info d)); mret (wrap 32 (ci_last_indexed_block m))).

Definition set_indexer_state_info (block_num : Z) : DB unit :=
  index_tx (
    d ← get; _ ← lift (single "chain_info" (chain_info d));
    update_chain_info (λ m, mkChainInfo (ci_ledger_dst m) (ci_safe_registry_dst m) (ci_channels_dst m)
      (ci_ticket_price m) (ci_min_incoming_ticket_win_prob m) (ci_network_registry_enabled m) (to_i32 block_num))).

Definition get_global_setting (key : string) : DB (option bytes) :=
  index_tx (d ← get; mret (global_settings d !! key)).

Definition set_global_setting (key : string) (value : option bytes) : DB unit :=
  index_tx (modify (λ d, set_global_settings (partial_alter (λ _, value) key (global_settings d)) d)).

(** ** The network registry *)
Definition set_access_in_network_registry (address : Address) (allowed : bool) : DB unit :=
  index_tx (modify (λ d, set_network_registry
    (if allowed then {[to_hex address]} ∪ network_registry d else network_registry d ∖ {[to_hex address]}) d)).

Definition is_allowed_in_network_registry (address : Address) : DB bool :=
  index_tx (d ← get; mret (bool_decide (to_hex address ∈ network_registry d))).

Definition set_safe_eligibility (address : Address) (eligible : bool) : DB unit :=
  index_tx (modify (λ d, set_network_eligibility
    (if eligible then {[to_hex address]} ∪ network_eligibility d else network_eligibility d ∖ {[to_hex address]}) d)).

Definition is_safe_eligible (address : Address) : DB bool :=
  index_tx (d ← get; mret (bool_decide (to_hex address ∈ network_eligibility d))).
End Db.
