(* ===== verification/NodeDbSpec.v ===== *)
(** * The node database: channels and their cache

    The channel table holds channel entries without loss and refines a finite
    set of entries under lookup, upsert and editing; the cache in front of it
    never disagrees with the table; key identifiers are bound once. *)
From stdpp Require Import gmap strings sorting.
From S2P Require Import Prelude Primitives Crypto Channels Tickets SharedKeys MetaPacket Packet.
From S2P Require Import TicketStore TicketStoreSpec NodeDb.

Section Channels.
Context `{!Secp256k1} `{!Secp256k1Laws} `{!Curve25519} `{!HexCodec, !HexCodecLaws} `{!ScanOrder, !ScanOrderLaws} `{!Multiaddrs}.
#[local] Set Default Proof Using "Type*".

(** ** Rows *)
Record entry_wf (e : ChannelEntry) : Prop := {
  ew_source : array_wf 20 (source e);
  ew_destination : array_wf 20 (destination e);
  ew_balance : Balance_wf (balance e);
  ew_index : in_u 256 (ticket_index e);
  ew_epoch : in_u 256 (channel_epoch e);
  ew_id : get_id e = generate_channel_id (source e) (destination e)
}.

Lemma Address_from_to_hex a : array_wf 20 a → Address_from_hex (to_hex a) = Ok a.
Proof.
  intros [Hl Hw]. unfold Address_from_hex. rewrite from_to_hex by done.
  unfold Address_try_from, array_try_from. by rewrite bool_decide_eq_true_2.
Qed.

(** A stored channel is read back as it was written, whatever closure time the
    row had before. *)
Lemma channel_row_roundtrip id old e :
  entry_wf e → ChannelEntry_try_from (ChannelModel_from id old e) = Ok e.
Proof.
  intros [Hs Hd Hb Hi He Hid]. unfold ChannelEntry_try_from, ChannelModel_from. cbn [cm_source cm_destination
    cm_balance cm_ticket_index cm_epoch].
  assert (ChannelStatus_try_from (ChannelModel_from id old e) = Ok (status e)) as Hst.
  { unfold ChannelStatus_try_from, ChannelModel_from. cbn. by destruct (status e). }
  unfold ChannelModel_from in Hst. rewrite Hst. cbn [mbind outcome_bind].
  rewrite !Address_from_to_hex by done. cbn [map_err mbind outcome_bind].
  rewrite !U256_be_roundtrip by done. cbn [mbind outcome_bind]. unfold ChannelEntry_new. rewrite <-Hid.
  by destruct e as [? ? [] ? ? ? ?].
Qed.

(** A row is that of an entry. *)
Definition row_of (e : ChannelEntry) (m : ChannelModel) : Prop :=
  entry_wf e ∧ m = ChannelModel_from (cm_id m) (cm_closure_time m) e.

Lemma row_of_decode e m : row_of e m → ChannelEntry_try_from m = Ok e.
Proof. intros [He ->]. by apply channel_row_roundtrip. Qed.

Lemma row_of_from id old e : entry_wf e → row_of e (ChannelModel_from id old e).
Proof. intros He. split; [done|]. unfold ChannelModel_from. cbn. by destruct (closure_of (status e)). Qed.

Lemma row_of_columns e m :
  row_of e m → cm_channel_id m = to_hex (get_id e) ∧ cm_source m = to_hex (source e) ∧
    cm_destination m = to_hex (destination e).
Proof. by intros [_ ->]. Qed.

(** ** Tables *)

(** The table lists the rows of the entries, each id and each channel once. *)
Record channels_wf (entries : list ChannelEntry) (d : IndexDb) : Prop := {
  cw_rows : Forall2 row_of entries (channels d);
  cw_ids : NoDup (cm_id <$> channels d);
  cw_fresh : Forall (λ m, cm_id m < next_row d) (channels d);
  cw_channels : NoDup (get_id <$> entries);
  cw_parties : NoDup ((λ e, (source e, destination e)) <$> entries)
}.

Lemma scan_singleton {A} (x : A) : scan [x] = [x].
Proof. apply Permutation_singleton_r, scan_permutation. Qed.
Lemma scan_nil {A} : scan (A:=A) [] = [].
Proof. apply Permutation_nil_r, scan_permutation. Qed.

Lemma get_id_wf e : entry_wf e → array_wf 32 (get_id e).
Proof. intros [_ _ _ _ _ ->]. apply Hash_create_wf. Qed.

(** A condition on rows that is one on their entries, and true of at most one. *)
Lemma find_unique {K} `{!EqDecision K} (key : ChannelEntry → K) (k : K) (cond : ChannelModel → bool) entries rows :
  Forall2 row_of entries rows → NoDup (key <$> entries) →
  (∀ e m, row_of e m → cond m = bool_decide (key e = k)) →
  match list_find (λ e, key e = k) entries with
  | Some (i, e) => ∃ m, rows !! i = Some m ∧ row_of e m ∧ filter cond rows = [m]
  | None => filter cond rows = []
  end.
Proof.
  intros Hrows Hnd Hcond. revert Hnd. induction Hrows as [|e m entries rows Hem Hrows IH]; intros Hnd; [done|].
  cbn [fmap list_fmap] in Hnd. apply NoDup_cons in Hnd as [Hfresh Hnd]. specialize (IH Hnd).
  rewrite filter_cons. cbn [list_find]. specialize (Hcond e m Hem) as Hce. destruct (decide (key e = k)) as [Hk|Hk].
  - exists m. split_and!; [done|done|]. rewrite Hce, bool_decide_eq_true_2 by done. cbn. f_equal.
    destruct (list_find (λ e, key e = k) entries) as [[i e']|] eqn:Hf; [|done].
    apply list_find_Some in Hf as (Hi & Hk' & _). destruct Hfresh. apply list_elem_of_fmap.
    exists e'. split; [congruence|]. by eapply list_elem_of_lookup_2.
  - rewrite Hce, bool_decide_eq_false_2 by done. cbn.
    destruct (list_find (λ e, key e = k) entries) as [[i e']|]; cbn; [|done].
    destruct IH as (m' & Hm' & Hr & Hf). by exists m'.
Qed.
(** The entry with a given identifier, or between given parties. *)
Definition entry_by_id (id : Hash) (entries : list ChannelEntry) : option ChannelEntry :=
  snd <$> list_find (λ e, get_id e = id) entries.
Definition entry_by_parties (src dst : Address) (entries : list ChannelEntry) : option ChannelEntry :=
  snd <$> list_find (λ e, (source e, destination e) = (src, dst)) entries.

Lemma id_condition id e m :
  array_wf 32 id → row_of e m → bool_decide (cm_channel_id m = to_hex id) = bool_decide (get_id e = id).
Proof.
  intros [_ Hid] Hr. destruct (row_of_columns _ _ Hr) as (-> & _). apply bool_decide_ext. split; [|congruence].
  apply to_hex_inj; [|done]. destruct Hr as [He _]. by apply get_id_wf.
Qed.

Lemma parties_condition (src dst : Address) e m :
  array_wf 20 src → array_wf 20 dst → row_of e m →
  bool_decide (cm_source m = to_hex src) && bool_decide (cm_destination m = to_hex dst) =
  bool_decide ((source e, destination e) = (src, dst)).
Proof.
  intros [_ Hs] [_ Hd] Hr. destruct (row_of_columns _ _ Hr) as (_ & -> & ->). destruct Hr as [[[_ Hes] [_ Hed] _ _ _ _] _].
  rewrite <-bool_decide_and. apply bool_decide_ext. rewrite pair_equal_spec.
  split; intros [Hsrc Hdst]; split; try congruence; by apply to_hex_inj.
Qed.

(** A query that selects the row of at most one entry. *)
Lemma find_channel_ok {K} `{!EqDecision K} (key : ChannelEntry → K) (k : K) cond entries d :
  channels_wf entries d → NoDup (key <$> entries) →
  (∀ e m, row_of e m → cond m = bool_decide (key e = k)) →
  match list_find (λ e, key e = k) entries with
  | Some (i, e) => ∃ m, channels d !! i = Some m ∧ row_of e m ∧ find_channel cond d = (d, Ok (Some m))
  | None => find_channel cond d = (d, Ok None)
  end.
Proof.
  intros Hwf Hnd Hcond. pose proof (find_unique key k cond entries _ (cw_rows _ _ Hwf) Hnd Hcond) as Hu.
  unfold find_channel. autorewrite with run. destruct (list_find _ entries) as [[i e]|].
  - destruct Hu as (m & Hm & Hr & Hf). exists m. split; [done|]. split; [done|]. rewrite Hf. by rewrite scan_singleton.
  - rewrite Hu. by rewrite scan_nil.
Qed.

Lemma decode_row e m : row_of e m → decode_channel m = Ok e.
Proof. intros Hr. unfold decode_channel. by rewrite (row_of_decode _ _ Hr). Qed.

Lemma get_channel_by_id_ok entries id db :
  channels_wf entries (index_db db) → array_wf 32 id →
  get_channel_by_id id db = (db, Ok (entry_by_id id entries)).
Proof.
  intros Hwf Hid. unfold get_channel_by_id, index_tx, entry_by_id.
  pose proof (find_channel_ok get_id id _ _ _ Hwf (cw_channels _ _ Hwf) (λ e m, id_condition id e m Hid)) as Hf.
  destruct (list_find _ entries) as [[i e]|]; cbn [fmap option_fmap option_map snd].
  - destruct Hf as (m & _ & Hr & Hf). rewrite (run_Ok _ _ _ _ _ Hf). unfold lift, decode_option.
    rewrite (decode_row _ _ Hr). by destruct db.
  - rewrite (run_Ok _ _ _ _ _ Hf). by destruct db.
Qed.

Lemma fetch_channel_ok entries (src dst : Address) db :
  channels_wf entries (index_db db) → array_wf 20 src → array_wf 20 dst →
  fetch_channel src dst db = (db, Ok (entry_by_parties src dst entries)).
Proof.
  intros Hwf Hs Hd. unfold fetch_channel, index_tx, entry_by_parties.
  pose proof (find_channel_ok (λ e, (source e, destination e)) (src, dst) _ _ _ Hwf (cw_parties _ _ Hwf)
    (λ e m, parties_condition src dst e m Hs Hd)) as Hf.
  destruct (list_find _ entries) as [[i e]|]; cbn [fmap option_fmap option_map snd].
  - destruct Hf as (m & _ & Hr & Hf). rewrite (run_Ok _ _ _ _ _ Hf). unfold lift, decode_option.
    rewrite (decode_row _ _ Hr). by destruct db.
  - rewrite (run_Ok _ _ _ _ _ Hf). by destruct db.
Qed.
(** ** Editing *)
Inductive ChannelEdit :=
| EditBalance (b : HoprBalance)
| EditStatus (s : ChannelStatus)
| EditTicketIndex (i : Z)
| EditEpoch (n : Z).

Definition edit_wf (x : ChannelEdit) : Prop :=
  match x with
  | EditBalance b => Balance_wf b
  | EditStatus _ => True
  | EditTicketIndex i => in_u 256 i
  | EditEpoch n => in_u 256 n
  end.

(** What an edit means, on the entry and as a call of the editor. *)
Definition edit_entry (e : ChannelEntry) (x : ChannelEdit) : ChannelEntry :=
  match x with
  | EditBalance b => mkChannel (source e) (destination e) b (ticket_index e) (status e) (channel_epoch e) (get_id e)
  | EditStatus s => mkChannel (source e) (destination e) (balance e) (ticket_index e) s (channel_epoch e) (get_id e)
  | EditTicketIndex i => mkChannel (source e) (destination e) (balance e) i (status e) (channel_epoch e) (get_id e)
  | EditEpoch n => mkChannel (source e) (destination e) (balance e) (ticket_index e) (status e) n (get_id e)
  end.

Definition edit_editor (ed : ChannelEditor) (x : ChannelEdit) : ChannelEditor :=
  match x with
  | EditBalance b => change_balance b ed
  | EditStatus s => change_status s ed
  | EditTicketIndex i => change_ticket_index i ed
  | EditEpoch n => change_epoch n ed
  end.

Lemma edit_row ed m e x :
  row_of e (apply_edits ed m) → edit_wf x → row_of (edit_entry e x) (apply_edits (edit_editor ed x) m).
Proof.
  intros [[Hs Hd Hb Hi He Hid] Hm] Hx. split.
  - by destruct x; split.
  - unfold apply_edits, ChannelModel_from in *.
    cbn [cm_id cm_channel_id cm_source cm_destination cm_balance cm_status cm_epoch cm_ticket_index cm_closure_time] in Hm.
    injection Hm as Hm1 Hm2 Hm3 Hm4 Hm5 Hm6 Hm7 Hm8.
    destruct x; cbn; f_equal; try done; try congruence.
    by destruct s.
Qed.

Lemma edit_entry_parties edits e :
  source (foldl edit_entry e edits) = source e ∧ destination (foldl edit_entry e edits) = destination e ∧
  get_id (foldl edit_entry e edits) = get_id e.
Proof. revert e. induction edits as [|x edits IH]; intros e; [done|]. cbn. destruct (IH (edit_entry e x)) as (-> & -> & ->). by destruct x. Qed.

Lemma edits_row edits ed m e :
  row_of e (apply_edits ed m) → Forall edit_wf edits →
  row_of (foldl edit_entry e edits) (apply_edits (foldl edit_editor ed edits) m) ∧
  ce_orig (foldl edit_editor ed edits) = ce_orig ed ∧ ce_model (foldl edit_editor ed edits) = ce_model ed ∧
  ce_delete (foldl edit_editor ed edits) = ce_delete ed.
Proof.
  intros Hr Hx. revert ed e Hr. induction Hx as [|x edits Hx _ IH]; intros ed e Hr; [done|].
  cbn. destruct (IH _ _ (edit_row _ _ _ _ Hr Hx)) as (Hr' & -> & -> & ->). split; [done|]. by destruct x.
Qed.

(** The table with the entry at a position replaced. *)
Lemma replace_row (d : IndexDb) entries i e e' m m' :
  channels_wf entries d → entries !! i = Some e → channels d !! i = Some m → row_of e' m' → cm_id m' = cm_id m →
  get_id e' = get_id e → source e' = source e → destination e' = destination e →
  (λ m0, if cm_id m0 =? cm_id m then m' else m0) <$> channels d = <[i := m']> (channels d) ∧
  channels_wf (<[i := e']> entries) (set_channels (<[i := m']> (channels d)) d).
Proof.
  intros [Hr Hids Hfr Hch Hpa] He Hm Hr' Hid Hgid Hs Hd. split.
  - apply list_eq. intros j. rewrite list_lookup_fmap.
    destruct (decide (i = j)) as [->|Hij].
    + rewrite Hm, list_lookup_insert_eq by (by eapply lookup_lt_Some). cbn. by rewrite Z.eqb_refl.
    + rewrite list_lookup_insert_ne by done. destruct (channels d !! j) as [m0|] eqn:Hj; [|done]. cbn.
      destruct (Z.eqb_spec (cm_id m0) (cm_id m)) as [Heq|]; [|done]. destruct Hij.
      apply (NoDup_lookup (cm_id <$> channels d) i j (cm_id m) Hids); rewrite list_lookup_fmap;
        [by rewrite Hm|rewrite Hj; cbn; congruence].
  - split; cbn [channels set_channels next_row].
    + by apply Forall2_insert.
    + by rewrite list_fmap_insert, Hid, list_insert_id by (by rewrite list_lookup_fmap, Hm).
    + apply Forall_insert; [done|]. rewrite Hid. rewrite Forall_lookup in Hfr. by apply (Hfr i).
    + by rewrite list_fmap_insert, Hgid, list_insert_id by (by rewrite list_lookup_fmap, He).
    + by rewrite list_fmap_insert, Hs, Hd, list_insert_id by (by rewrite list_lookup_fmap, He).
Qed.
(** ** The cache *)
Definition coherent (entries : list ChannelEntry) (db : HoprDb) : Prop :=
  ∀ (src dst : Address) v, array_wf 20 src → array_wf 20 dst →
    src_dst_to_channel db !! (src, dst) = Some v → v = entry_by_parties src dst entries.

Definition db_ok (entries : list ChannelEntry) (db : HoprDb) : Prop :=
  channels_wf entries (index_db db) ∧ coherent entries db.

Lemma find_iff {K} `{!EqDecision K} (key : ChannelEntry → K) k entries e :
  NoDup (key <$> entries) →
  snd <$> list_find (λ e, key e = k) entries = Some e ↔ e ∈ entries ∧ key e = k.
Proof.
  intros Hnd. rewrite fmap_Some. split.
  - intros ([i e'] & (Hi & Hk & _)%list_find_Some & ->). split; [by eapply list_elem_of_lookup_2|done].
  - intros [Hin Hk]. destruct (list_find_elem_of (λ e, key e = k) entries e) as [[i e'] Hf]; [done..|].
    exists (i, e'). split; [done|]. apply list_find_Some in Hf as (Hi & Hk' & _). cbn.
    apply list_elem_of_lookup in Hin as [j Hj].
    assert (i = j) as ->; [|congruence].
    apply (NoDup_lookup (key <$> entries) i j k Hnd); rewrite list_lookup_fmap; [rewrite Hi|rewrite Hj]; cbn; congruence.
Qed.

Lemma by_parties_iff (src dst : Address) entries d e :
  channels_wf entries d →
  entry_by_parties src dst entries = Some e ↔ e ∈ entries ∧ source e = src ∧ destination e = dst.
Proof.
  intros Hwf. unfold entry_by_parties.
  rewrite (find_iff (λ e, (source e, destination e))) by apply (cw_parties _ _ Hwf).
  by rewrite pair_equal_spec.
Qed.

(** Two tables with the same entries between two parties. *)
Lemma same_parties entries entries' d d' (src dst : Address) :
  channels_wf entries d → channels_wf entries' d' →
  (∀ e, source e = src → destination e = dst → e ∈ entries ↔ e ∈ entries') →
  entry_by_parties src dst entries = entry_by_parties src dst entries'.
Proof.
  intros Hwf Hwf' Hin. apply option_eq. intros e.
  rewrite (by_parties_iff _ _ _ _ _ Hwf), (by_parties_iff _ _ _ _ _ Hwf').
  split; (intros (He & Hs & Hd); split; [by apply (Hin e Hs Hd)|done]).
Qed.

(** The cache survives a change that concerns one pair of parties, which is
    then invalidated. *)
Lemma coherent_after entries entries' d' db db' (src dst : Address) :
  db_ok entries db → channels_wf entries' d' →
  (∀ e, (source e, destination e) ≠ (src, dst) → e ∈ entries ↔ e ∈ entries') →
  src_dst_to_channel db' = delete (src, dst) (src_dst_to_channel db) →
  coherent entries' db'.
Proof.
  intros [Hwf Hco] Hwf' Hin Hc s d v Hs Hd Hv. rewrite Hc in Hv. apply lookup_delete_Some in Hv as [Hne Hv].
  rewrite (Hco s d v Hs Hd Hv). eapply same_parties; [done..|]. intros e <- <-. apply Hin. congruence.
Qed.

Lemma get_by_parties_ok entries (src dst : Address) use_cache db :
  db_ok entries db → array_wf 20 src → array_wf 20 dst →
  ∃ db', get_channel_by_parties src dst use_cache db = (db', Ok (entry_by_parties src dst entries)) ∧
    db_ok entries db'.
Proof.
  intros [Hwf Hco] Hs Hd. unfold get_channel_by_parties, try_get_with. cbv beta.
  destruct use_cache; [|exists db; split; [by apply fetch_channel_ok|done]].
  destruct (src_dst_to_channel db !! (src, dst)) as [v|] eqn:Hv.
  - exists db. split; [by rewrite <-(Hco _ _ _ Hs Hd Hv)|done].
  - rewrite (fetch_channel_ok entries) by done. eexists. split; [done|]. split; [done|].
    intros s d v Hs' Hd'. cbn [src_dst_to_channel set_src_dst_to_channel].
    intros [[[= <- <-] <-]|[_ Hl]]%lookup_insert_Some; [done|by apply Hco].
Qed.

Lemma elem_of_insert_other {A} (l : list A) i (y x z : A) :
  l !! i = Some y → z ≠ x → z ≠ y → z ∈ l ↔ z ∈ <[i := x]> l.
Proof.
  intros Hy Hx Hzy. rewrite !list_elem_of_lookup. split; intros [j Hj]; exists j.
  - rewrite list_lookup_insert_ne; [done|]. intros <-. congruence.
  - apply list_lookup_insert_Some in Hj as [(_ & ? & _)|[_ Hj]]; [congruence|done].
Qed.

(** ** The calls *)
Inductive ChannelOp :=
| CUpsert (e : ChannelEntry)
| CEdit (id : Hash) (edits : list ChannelEdit)
| CDelete (id : Hash)
| CGet (id : Hash)
| CRead (src dst : Address) (use_cache : bool)
| CExpire (src dst : Address).

Definition with_editor (id : Hash) (f : ChannelEditor → ChannelEditor) : SM HoprDb DbSqlError (option ChannelEntry) :=
  ed ← begin_channel_update id;
  match ed with
  | Some ed => e ← finish_channel_update (f ed); mret (Some e)
  | None => mret None
  end.

Definition channel_step (op : ChannelOp) : SM HoprDb DbSqlError (option ChannelEntry) :=
  match op with
  | CUpsert e => upsert_channel e;; mret None
  | CEdit id edits => with_editor id (λ ed, foldl edit_editor ed edits)
  | CDelete id => with_editor id editor_delete
  | CGet id => get_channel_by_id id
  | CRead src dst use_cache => get_channel_by_parties src dst use_cache
  | CExpire src dst => invalidate_parties src dst;; mret None
  end.

(** The same calls on the set of entries. *)
Definition abs_step (op : ChannelOp) (entries : list ChannelEntry) : list ChannelEntry :=
  match op with
  | CUpsert e =>
      match list_find (λ e', get_id e' = get_id e) entries with
      | Some (i, _) => <[i := e]> entries
      | None => entries ++ [e]
      end
  | CEdit id edits =>
      match list_find (λ e, get_id e = id) entries with
      | Some (i, e) => <[i := foldl edit_entry e edits]> entries
      | None => entries
      end
  | CDelete id =>
      match list_find (λ e, get_id e = id) entries with
      | Some (i, _) => delete i entries
      | None => entries
      end
  | _ => entries
  end.

Definition abs_result (op : ChannelOp) (entries : list ChannelEntry) : option ChannelEntry :=
  match op with
  | CEdit id edits => (λ e, foldl edit_entry e edits) <$> entry_by_id id entries
  | CDelete id | CGet id => entry_by_id id entries
  | CRead src dst _ => entry_by_parties src dst entries
  | CUpsert _ | CExpire _ _ => None
  end.

(** The types of the arguments, and no collision of channel identifiers. *)
Definition op_ok (entries : list ChannelEntry) (op : ChannelOp) : Prop :=
  match op with
  | CUpsert e =>
      entry_wf e ∧ ∀ e', e' ∈ entries → get_id e' = get_id e → source e' = source e ∧ destination e' = destination e
  | CEdit id edits => array_wf 32 id ∧ Forall edit_wf edits
  | CDelete id | CGet id => array_wf 32 id
  | CRead src dst _ => array_wf 20 src ∧ array_wf 20 dst
  | CExpire _ _ => True
  end.
(** What leaves the index and the cache alone. *)
Lemma db_ok_frame entries db db' :
  db_ok entries db → index_db db' = index_db db → src_dst_to_channel db' = src_dst_to_channel db → db_ok entries db'.
Proof. intros [Hwf Hco] Hi Hc. split; [by rewrite Hi|]. intros s d v. rewrite Hc. apply Hco. Qed.

(** The end of an update: caches of the channel are forgotten. *)
Lemma invalidations_run (src dst : Address) (id : Hash) epoch db :
  ∃ db', (invalidate_parties src dst;; invalidate_unrealized id epoch) db = (db', Ok tt) ∧
    index_db db' = index_db db ∧ src_dst_to_channel db' = delete (src, dst) (src_dst_to_channel db) ∧
    unrealized_cache (ticket_manager db') = delete (id, epoch) (unrealized_cache (ticket_manager db)).
Proof. eexists. split; [reflexivity|]. by split_and!. Qed.

Lemma begin_update_ok entries (id : Hash) db :
  channels_wf entries (index_db db) → array_wf 32 id →
  match list_find (λ e, get_id e = id) entries with
  | Some (i, e) => ∃ m, channels (index_db db) !! i = Some m ∧ row_of e m ∧
      begin_channel_update id db = (db, Ok (Some (mkChannelEditor e m None None None None None false)))
  | None => begin_channel_update id db = (db, Ok None)
  end.
Proof.
  intros Hwf Hid.
  pose proof (find_channel_ok get_id id _ _ _ Hwf (cw_channels _ _ Hwf) (λ e m, id_condition id e m Hid)) as Hf.
  unfold begin_channel_update, index_tx. destruct (list_find _ entries) as [[i e]|].
  - destruct Hf as (m & Hm & Hr & Hf). exists m. split; [done|]. split; [done|].
    rewrite (run_Ok _ _ _ _ _ Hf). cbv iota beta. rewrite (decode_row _ _ Hr). autorewrite with run. by destruct db.
  - rewrite (run_Ok _ _ _ _ _ Hf). by destruct db.
Qed.

(** The row that an editor points to. *)
Lemma find_by_id entries d i m :
  channels_wf entries d → channels d !! i = Some m → List.find (λ m', cm_id m' =? cm_id m) (channels d) = Some m.
Proof.
  intros Hwf Hm. pose proof (cw_ids _ _ Hwf) as Hnd. revert i Hm Hnd.
  induction (channels d) as [|m0 l IH]; intros i Hm Hnd; [done|]. cbn [List.find].
  cbn [fmap list_fmap] in Hnd. apply NoDup_cons in Hnd as [Hfr Hnd].
  destruct i as [|i]; cbn in Hm; [injection Hm as ->; by rewrite Z.eqb_refl|].
  destruct (Z.eqb_spec (cm_id m0) (cm_id m)) as [He|]; [|by apply (IH i)].
  destruct Hfr. rewrite He. apply list_elem_of_fmap. exists m. split; [done|]. by eapply list_elem_of_lookup_2.
Qed.

(** Finishing an edit. *)
Lemma finish_edit_ok entries db i e m edits :
  db_ok entries db → entries !! i = Some e → channels (index_db db) !! i = Some m → row_of e m →
  Forall edit_wf edits →
  let e' := foldl edit_entry e edits in
  ∃ db', finish_channel_update (foldl edit_editor (mkChannelEditor e m None None None None None false) edits) db =
      (db', Ok e') ∧ db_ok (<[i := e']> entries) db'.
Proof.
  intros Hok He Hm Hr Hx e'. pose proof Hok as [Hwf Hco].
  set (ed0 := mkChannelEditor e m None None None None None false).
  assert (apply_edits ed0 m = m) as Hid by by destruct m.
  destruct (edits_row edits ed0 m e) as (Hr' & Ho & Hmo & Hdel); [by rewrite Hid|done|].
  set (ed := foldl edit_editor ed0 edits) in *. cbn [ce_orig ce_model ce_delete ed0] in Ho, Hmo, Hdel.
  destruct (edit_entry_parties edits e) as (Hs & Hd & Hg).
  destruct (replace_row (index_db db) entries i e e' m (apply_edits ed m)) as [Hmap Hwf']; try done.
  unfold finish_channel_update. rewrite Hdel, Ho.
  set (d' := set_channels (<[i := apply_edits ed m]> (channels (index_db db))) (index_db db)) in *.
  assert (index_tx (m ← update_channel_row ed; lift (decode_channel m)) db = (set_index_db d' db, Ok e')) as Htx.
  { unfold index_tx, update_channel_row. autorewrite with run. rewrite Hmo, (find_by_id _ _ _ _ Hwf Hm).
    autorewrite with run. unfold lift. rewrite (decode_row _ _ Hr').
    assert (((λ m0, if cm_id m0 =? cm_id m then apply_edits ed m0 else m0) <$> channels (index_db db)) =
      <[i := apply_edits ed m]> (channels (index_db db))) as ->; [|done].
    rewrite <-Hmap. apply list_eq. intros j. rewrite !list_lookup_fmap.
    destruct (channels (index_db db) !! j) as [m0|] eqn:Hj; [|done]. cbn. f_equal.
    destruct (Z.eqb_spec (cm_id m0) (cm_id m)) as [Heq|]; [|done]. f_equal.
    assert (i = j) as ->; [|congruence].
    apply (NoDup_lookup (cm_id <$> channels (index_db db)) i j (cm_id m) (cw_ids _ _ Hwf)); rewrite list_lookup_fmap;
      [by rewrite Hm|rewrite Hj; cbn; congruence]. }
  rewrite (run_Ok _ _ _ _ _ Htx).
  eexists. split; [reflexivity|]. split; [done|].
  eapply (coherent_after entries _ d' db _ (source e) (destination e)); [done|done| |done].
  intros e0 Hne. apply (elem_of_insert_other _ i e); [done| |intros ->; apply Hne; done].
  intros ->. apply Hne. unfold e'. by rewrite Hs, Hd.
Qed.
Lemma finish_delete_ok entries db i e m :
  db_ok entries db → entries !! i = Some e → channels (index_db db) !! i = Some m → row_of e m →
  ∃ db', finish_channel_update (editor_delete (mkChannelEditor e m None None None None None false)) db =
      (db', Ok e) ∧ db_ok (delete i entries) db'.
Proof.
  intros Hok He Hm Hr. pose proof Hok as [Hwf Hco]. unfold finish_channel_update.
  cbn [ce_delete editor_delete ce_orig ce_model].
  assert (filter (λ m0, negb (cm_id m0 =? cm_id m)) (channels (index_db db)) = delete i (channels (index_db db))) as Hdel.
  { pose proof (cw_ids _ _ Hwf) as Hnd. clear -Hm Hnd. revert i Hm.
    induction (channels (index_db db)) as [|m0 l IH]; intros i Hm; [done|]. rewrite filter_cons.
    cbn [fmap list_fmap] in Hnd. apply NoDup_cons in Hnd as [Hfr Hnd].
    destruct i as [|i]; cbn in Hm |- *.
    - injection Hm as ->. rewrite Z.eqb_refl. cbn. assert (filter (λ m0, negb (cm_id m0 =? cm_id m)) l = l) as ->; [|done].
      clear -Hfr. induction l as [|m1 l IH]; [done|]. cbn in Hfr. apply not_elem_of_cons in Hfr as [Hne Hfr].
      rewrite filter_cons, IH by done. destruct (Z.eqb_spec (cm_id m1) (cm_id m)); [congruence|done].
    - destruct (Z.eqb_spec (cm_id m0) (cm_id m)) as [Heq|]; cbn.
      + destruct Hfr. rewrite Heq. apply list_elem_of_fmap. exists m. split; [done|]. by eapply list_elem_of_lookup_2.
      + f_equal. by apply IH. }
  set (d' := set_channels (delete i (channels (index_db db))) (index_db db)).
  assert (channels_wf (delete i entries) d') as Hwf'.
  { destruct Hwf as [Hrows Hids Hfr Hch Hpa].
    assert (∀ A B (f : A → B) (l : list A), NoDup (f <$> l) → NoDup (f <$> delete i l)) as Hsub.
    { intros A B f l Hl. eapply sublist_NoDup; [exact Hl|]. apply fmap_sublist, sublist_delete. }
    split; cbn [channels set_channels next_row d'].
    - by apply Forall2_delete.
    - by apply Hsub.
    - by apply Forall_delete.
    - by apply Hsub.
    - by apply Hsub. }
  assert (index_tx (modify (λ d, set_channels (filter (λ m0, negb (cm_id m0 =? cm_id m)) (channels d)) d);; mret e) db =
    (set_index_db d' db, Ok e)) as Htx.
  { unfold index_tx. autorewrite with run. by rewrite Hdel. }
  rewrite (run_Ok _ _ _ _ _ Htx). eexists. split; [reflexivity|]. split; [done|].
  eapply (coherent_after entries _ d' db _ (source e) (destination e)); [done|done| |done].
  intros e0 Hne. generalize (delete_Permutation entries i e He). generalize (delete i entries). intros l Hp.
  rewrite Hp, elem_of_cons.
  split; [intros [->|Hin]; [by destruct Hne|done]|by right].
Qed.

Lemma row_conflict e e' m m' :
  row_of e m → row_of e' m' →
  channel_conflict m m' = true → get_id e = get_id e' ∨ (source e = source e' ∧ destination e = destination e').
Proof.
  intros Hr Hr'. destruct (row_of_columns _ _ Hr) as (Hc & Hs & Hd), (row_of_columns _ _ Hr') as (Hc' & Hs' & Hd').
  destruct Hr as [Hw _], Hr' as [Hw' _]. unfold channel_conflict.
  rewrite orb_true_iff, andb_true_iff, !bool_decide_eq_true, Hc, Hc', Hs, Hs', Hd, Hd'.
  intros [Hid|[Hsrc Hdst]].
  - left. apply to_hex_inj in Hid; [done|by apply get_id_wf..].
  - right. destruct Hw as [[_ Hs1] [_ Hd1] _ _ _ _], Hw' as [[_ Hs2] [_ Hd2] _ _ _ _].
    by apply to_hex_inj in Hsrc; apply to_hex_inj in Hdst.
Qed.
Lemma entries_wf entries d e : channels_wf entries d → e ∈ entries → entry_wf e.
Proof.
  intros Hwf [i Hi]%list_elem_of_lookup.
  destruct (Forall2_lookup_l _ _ _ _ _ (cw_rows _ _ Hwf) Hi) as (m & _ & [He _]). done.
Qed.

(** No other row conflicts with a row written for [e]. *)
Lemma no_conflict entries d e id old m' :
  channels_wf entries d → entry_wf e → m' ∈ channels d → 
  (∀ i e', entries !! i = Some e' → channels d !! i = Some m' → get_id e' ≠ get_id e) →
  channel_conflict (ChannelModel_from id old e) m' = false.
Proof.
  intros Hwf He [j Hj]%list_elem_of_lookup Hne. apply not_true_iff_false. intros Hcf.
  destruct (Forall2_lookup_r _ _ _ _ _ (cw_rows _ _ Hwf) Hj) as (e2 & Hj2 & Hr2).
  apply (Hne j e2 Hj2 Hj).
  destruct (row_conflict _ _ _ _ (row_of_from id old e He) Hr2 Hcf) as [|[Hs Hd]]; [done|].
  rewrite (ew_id _ (proj1 Hr2)), (ew_id _ He). congruence.
Qed.

(** Writing a channel: in the place of the entry with its identifier, or at
    the end of the table. *)
Lemma upsert_tx_ok entries e d :
  channels_wf entries d → op_ok entries (CUpsert e) →
  ∃ d', upsert_channel_tx e d = (d', Ok tt) ∧ channels_wf (abs_step (CUpsert e) entries) d' ∧
    ∀ e', (source e', destination e') ≠ (source e, destination e) → e' ∈ entries ↔ e' ∈ abs_step (CUpsert e) entries.
Proof.
  intros Hwf [He Hcol]. pose proof (get_id_wf _ He) as Hgid.
  pose proof (find_channel_ok get_id (get_id e) _ _ _ Hwf (cw_channels _ _ Hwf) (λ e' m, id_condition (get_id e) e' m Hgid)) as Hf.
  unfold upsert_channel_tx. cbn [abs_step].
  destruct (list_find (λ e', get_id e' = get_id e) entries) as [[i e']|] eqn:Hfind.
  - destruct Hf as (m & Hm & Hr & Hf). rewrite (run_Ok _ _ _ _ _ Hf). autorewrite with run. cbv zeta.
    apply list_find_Some in Hfind as (Hi & Hgid' & _).
    destruct (Hcol e') as [Hs Hd]; [by eapply list_elem_of_lookup_2|done|].
    set (new := ChannelModel_from (cm_id m) (cm_closure_time m) e).
    destruct (replace_row d entries i e' e m new) as [Hmap Hwf'];
      [done|done|done|by apply row_of_from|done|congruence..|].
    exists (set_channels (<[i := new]> (channels d)) d). split; [|split; [done|]].
    + assert (existsb (λ m', negb (cm_id m' =? cm_id m) && channel_conflict new m') (channels d) = false) as ->;
        [|unfold modify; by rewrite Hmap].
      apply not_true_iff_false. rewrite List.existsb_exists. intros (m' & Hin & [Hne Hcf]%andb_prop).
      apply list_elem_of_In in Hin. apply not_false_iff_true in Hcf. apply Hcf.
      apply (no_conflict entries d); [done..|]. intros j e2 Hj2 Hj Hg.
      assert (i = j) as <-; [|rewrite Hm in Hj; injection Hj as ->; by rewrite Z.eqb_refl in Hne].
      apply (NoDup_lookup (get_id <$> entries) i j (get_id e) (cw_channels _ _ Hwf)); rewrite list_lookup_fmap;
        [rewrite Hi|rewrite Hj2]; cbn; congruence.
    + intros e0 Hne. apply (elem_of_insert_other _ i e'); [done|congruence|]. intros ->. apply Hne. by rewrite Hs, Hd.
  - rewrite (run_Ok _ _ _ _ _ Hf). autorewrite with run. cbv zeta.
    set (new := ChannelModel_from (next_row d) None e).
    apply list_find_None in Hfind. rewrite Forall_forall in Hfind.
    assert (existsb (channel_conflict new) (channels d) = false) as ->.
    { apply not_true_iff_false. rewrite List.existsb_exists. intros (m' & Hin & Hcf).
      apply list_elem_of_In in Hin. apply not_false_iff_true in Hcf. apply Hcf.
      apply (no_conflict entries d); [done..|]. intros j e2 Hj2 _. by eapply Hfind, list_elem_of_lookup_2. }
    eexists. split; [reflexivity|]. split.
    + destruct Hwf as [Hrows Hids Hfr Hch Hpa]. split; cbn [channels set_channels bump_row next_row].
      * apply Forall2_app; [done|]. constructor; [by apply row_of_from|constructor].
      * rewrite fmap_app. apply NoDup_app. split_and!; [done| |apply NoDup_singleton].
        intros x (m & -> & Hm)%list_elem_of_fmap Hx. apply list_elem_of_singleton in Hx. cbn in Hx.
        rewrite Forall_forall in Hfr. specialize (Hfr _ Hm). lia.
      * apply Forall_app. split; [eapply Forall_impl; [apply Hfr|]; cbn; lia|].
        apply Forall_singleton. cbn. lia.
      * rewrite fmap_app. apply NoDup_app. split_and!; [done| |apply NoDup_singleton].
        intros x (e' & -> & Hin)%list_elem_of_fmap Hx. apply list_elem_of_singleton in Hx. by destruct (Hfind e' Hin).
      * rewrite fmap_app. apply NoDup_app. split_and!; [done| |apply NoDup_singleton].
        intros x (e' & -> & Hin)%list_elem_of_fmap Hx. apply list_elem_of_singleton in Hx as [= Hs Hd].
        apply (Hfind e' Hin). apply list_elem_of_lookup in Hin as [j Hj].
        destruct (Forall2_lookup_l _ _ _ _ _ Hrows Hj) as (m & _ & [He' _]).
        rewrite (ew_id _ He'), (ew_id _ He). congruence.
    + intros e0 Hne. rewrite elem_of_app, list_elem_of_singleton.
      split; [by left|intros [Hin| ->]; [done|by destruct Hne]].
Qed.

(** One call refines its abstract step. *)
Lemma channel_step_ok entries op db :
  db_ok entries db → op_ok entries op →
  ∃ db', channel_step op db = (db', Ok (abs_result op entries)) ∧ db_ok (abs_step op entries) db'.
Proof.
  intros Hok Hop. pose proof Hok as [Hwf Hco]. destruct op as [e|id edits|id|id|src dst use_cache|src dst]; cbn [channel_step].
  - destruct (upsert_tx_ok entries e (index_db db) Hwf Hop) as (d' & Hrun & Hwf' & Hin).
    unfold upsert_channel.
    assert (index_tx (upsert_channel_tx e) db = (set_index_db d' db, Ok tt)) as Htx by (unfold index_tx; by rewrite Hrun).
    autorewrite with run. rewrite (run_Ok _ _ _ _ _ Htx). eexists. split; [reflexivity|]. split; [done|].
    by eapply (coherent_after entries _ d' db _ (source e) (destination e)).
  - destruct Hop as [Hid Hx]. pose proof (begin_update_ok entries id db Hwf Hid) as Hb. unfold with_editor.
    cbn [abs_step abs_result]. unfold entry_by_id. destruct (list_find (λ e, get_id e = id) entries) as [[i e]|] eqn:Hf.
    + destruct Hb as (m & Hm & Hr & Hb). rewrite (run_Ok _ _ _ _ _ Hb). cbv iota beta.
      apply list_find_Some in Hf as (Hi & _).
      destruct (finish_edit_ok entries db i e m edits) as (db' & Hfin & Hok'); [done..|].
      rewrite (run_Ok _ _ _ _ _ Hfin). by exists db'.
    + rewrite (run_Ok _ _ _ _ _ Hb). by exists db.
  - pose proof (begin_update_ok entries id db Hwf Hop) as Hb. unfold with_editor.
    cbn [abs_step abs_result]. unfold entry_by_id. destruct (list_find (λ e, get_id e = id) entries) as [[i e]|] eqn:Hf.
    + destruct Hb as (m & Hm & Hr & Hb). rewrite (run_Ok _ _ _ _ _ Hb). cbv iota beta.
      apply list_find_Some in Hf as (Hi & _).
      destruct (finish_delete_ok entries db i e m) as (db' & Hfin & Hok'); [done..|].
      rewrite (run_Ok _ _ _ _ _ Hfin). by exists db'.
    + rewrite (run_Ok _ _ _ _ _ Hb). by exists db.
  - exists db. split; [by apply get_channel_by_id_ok|done].
  - destruct Hop as [Hs Hd]. by apply get_by_parties_ok.
  - unfold invalidate_parties. autorewrite with run. eexists. split; [reflexivity|]. split; [done|].
    by eapply (coherent_after entries entries (index_db db) db _ src dst).
Qed.

(** ** Histories *)
Fixpoint channel_run (ops : list ChannelOp) : SM HoprDb DbSqlError (list (option ChannelEntry)) :=
  match ops with
  | [] => mret []
  | op :: ops => r ← channel_step op; rs ← channel_run ops; mret (r :: rs)
  end.

Fixpoint abs_run (ops : list ChannelOp) (entries : list ChannelEntry) : list (option ChannelEntry) :=
  match ops with
  | [] => []
  | op :: ops => abs_result op entries :: abs_run ops (abs_step op entries)
  end.

Fixpoint ops_ok (ops : list ChannelOp) (entries : list ChannelEntry) : Prop :=
  match ops with
  | [] => True
  | op :: ops => op_ok entries op ∧ ops_ok ops (abs_step op entries)
  end.

(** C27. The channel table with its editor and its cache refines a plain list
    of channel entries: over any history of upserts, edits, deletions, reads
    through the cache or past it and cache expirations every call succeeds and
    returns what the same call on the list returns, so that the cache never
    shows an entry that the table does not hold. *)
Theorem channel_store_refines (ops : list ChannelOp) (entries : list ChannelEntry) (db : HoprDb) :
  db_ok entries db → ops_ok ops entries →
  ∃ db', channel_run ops db = (db', Ok (abs_run ops entries)) ∧ db_ok (foldl (λ l op, abs_step op l) entries ops) db'.
Proof.
  revert entries db. induction ops as [|op ops IH]; intros entries db Hok Hops; [by exists db|].
  destruct Hops as [Hop Hops]. destruct (channel_step_ok entries op db Hok Hop) as (db1 & Hrun & Hok1).
  destruct (IH _ db1 Hok1 Hops) as (db' & Hrun' & Hok'). exists db'. cbn [channel_run].
  rewrite (run_Ok _ _ _ _ _ Hrun), (run_Ok _ _ _ _ _ Hrun'). done.
Qed.
End Channels.

(** ** Key identifiers *)
Section Keys.
Context `{!Secp256k1} `{!Curve25519} `{!HexCodec} `{!ScanOrder, !ScanOrderLaws} `{!Multiaddrs}.
#[local] Set Default Proof Using "Type*".

(** The two maps are inverse to each other. *)
Record bindings_wf (db : HoprDb) : Prop := {
  bw_id (i : KeyIdent) k : key_id_to_public db !! i = Some k → public_to_key_id db !! opk_compressed k = Some i;
  bw_key (p : bytes) i : public_to_key_id db !! p = Some i →
    ∃ k, key_id_to_public db !! i = Some k ∧ opk_compressed k = p
}.

(** A key identifier is bound once and for all: the two maps stay inverse
    to each other, binding an account either leaves everything as it was with
    an error, or its identifier then stands for its key and its key for its
    identifier, and all bindings that were there remain. *)
Theorem key_binding_stable (account : AccountEntry) (db : HoprDb) :
  bindings_wf db →
  match update_key_id_binding account db with
  | (db', Ok _) =>
      bindings_wf db' ∧
      (∃ k, key_id_to_public db' !! key_id account = Some k ∧ opk_compressed k = opk_compressed (public_key account)) ∧
      public_to_key_id db' !! opk_compressed (public_key account) = Some (key_id account) ∧
      key_id_to_public db ⊆ key_id_to_public db' ∧ public_to_key_id db ⊆ public_to_key_id db'
  | (db', Err _) => db' = db
  | (_, Panic) => False
  end.
Proof.
  intros [Hid Hkey]. unfold update_key_id_binding. autorewrite with run. cbv zeta.
  set (i := key_id account). set (p := opk_compressed (public_key account)).
  destruct (key_id_to_public db !! i) as [k|] eqn:Hi, (public_to_key_id db !! p) as [j|] eqn:Hp; try done.
  - case_bool_decide as Hk; [|done]. split; [by split|]. split; [by exists k|].
    apply Hid in Hi. rewrite Hk in Hi. by split_and!.
  - assert (∀ q j, public_to_key_id db !! q = Some j → j ≠ i) as Hni.
    { intros q j Hq ->. apply Hkey in Hq as (k & Hk & _). congruence. }
    assert (∀ j k, key_id_to_public db !! j = Some k → opk_compressed k ≠ p) as Hnp.
    { intros j k Hj Hk. apply Hid in Hj. congruence. }
    unfold modify. cbn [key_id_to_public public_to_key_id set_key_ids]. split_and!.
    + split; cbn [key_id_to_public public_to_key_id set_key_ids].
      * intros j k [[<- <-]|[Hne Hj]]%lookup_insert_Some; [by rewrite lookup_insert_eq|].
        rewrite lookup_insert_ne; [by apply Hid|]. apply not_eq_sym. by eapply Hnp.
      * intros q j [[<- <-]|[Hne Hq]]%lookup_insert_Some.
        { exists (public_key account). by rewrite lookup_insert_eq. }
        rewrite lookup_insert_ne; [by apply Hkey|]. apply not_eq_sym. by eapply Hni.
    + exists (public_key account). by rewrite lookup_insert_eq.
    + by rewrite lookup_insert_eq.
    + by apply insert_subseteq.
    + by apply insert_subseteq.
Qed.

(** The account is in the table. *)
Definition account_stored (account : AccountEntry) (db : HoprDb) : Prop :=
  ∃ a, a ∈ accounts (index_db db) ∧ am_chain_key a = to_hex (chain_addr account) ∧
    am_packet_key a = to_hex (opk_compressed (public_key account)).

Lemma account_row_run account db :
  ∃ d', index_tx (insert_account_row account) db = (set_index_db d' db, Ok tt) ∧
    account_stored account (set_index_db d' db).
Proof using Type.
  unfold index_tx, insert_account_row, account_stored. autorewrite with run. cbv zeta.
  destruct (existsb _ _) eqn:He; eexists; (split; [reflexivity|]); cbn [index_db set_index_db].
  - apply List.existsb_exists in He as (a & Hin%list_elem_of_In & [Hc Hp]%andb_prop).
    apply String.eqb_eq in Hc, Hp. by exists a.
  - eexists. split; [cbn; apply elem_of_app; right; by apply list_elem_of_singleton|done].
Qed.

(** A cached account resolves both ways. *)
Lemma cached_resolves account db :
  chain_to_offchain db !! chain_addr account = Some (Some (public_key account)) →
  offchain_to_chain db !! opk_compressed (public_key account) = Some (Some (chain_addr account)) →
  resolve_chain_key (public_key account) db = (db, Ok (Some (chain_addr account))) ∧
  resolve_packet_key (chain_addr account) db = (db, Ok (Some (public_key account))).
Proof using Type.
  intros Hc Ho. unfold resolve_chain_key, resolve_packet_key, translate_key.
  assert (∀ A (l : HoprDb → option A) s f v, l db = Some v → try_get_with l s f db = (db, Ok v)) as Ht
    by (intros A l s f v Hl; unfold try_get_with; by rewrite Hl).
  rewrite !run_bind. rewrite (run_Ok _ _ _ _ _ (Ht _ _ _ _ _ Ho)), (run_Ok _ _ _ _ _ (Ht _ _ _ _ _ Hc)). done.
Qed.

(** An account whose key identifier is taken by another key is refused and
    the table is rolled back, but the caches are filled before the check and
    stay: the key that was refused still resolves to its address, and the
    address to the key, until the entries expire. *)
Theorem refused_account_resolves (account : AccountEntry) (db : HoprDb) (other : OffchainPublicKey) :
  key_id_to_public db !! key_id account = Some other →
  opk_compressed other ≠ opk_compressed (public_key account) →
  ∃ db' e, insert_account account db = (db', Err e) ∧ index_db db' = index_db db ∧
    resolve_chain_key (public_key account) db' = (db', Ok (Some (chain_addr account))) ∧
    resolve_packet_key (chain_addr account) db' = (db', Ok (Some (public_key account))).
Proof.
  intros Hi Hne. destruct (account_row_run account db) as (d' & Htx & _).
  set (db1 := set_offchain_to_chain (<[opk_compressed (public_key account) := Some (chain_addr account)]> (offchain_to_chain db))
    (set_chain_to_offchain (<[chain_addr account := Some (public_key account)]> (chain_to_offchain db)) (set_index_db d' db))).
  assert (∃ e, update_key_id_binding account db1 = (db1, Err e)) as (e & Hup).
  { unfold update_key_id_binding. autorewrite with run. cbv zeta. change (key_id_to_public db1) with (key_id_to_public db).
    rewrite Hi. destruct (public_to_key_id db1 !! _); [rewrite bool_decide_eq_false_2 by done|]; by eexists. }
  exists (set_index_db (index_db db) db1), e.
  assert (insert_account account db = (set_index_db (index_db db) db1, Err e)) as ->.
  { unfold insert_account, index_rollback. rewrite (run_Ok _ _ _ _ _ Htx), !run_modify. unfold mbind at 1, SM_bind.
    match goal with |- context [update_key_id_binding account ?s] => change s with db1 end. by rewrite Hup. }
  split; [done|]. split; [done|]. apply cached_resolves; cbn; by rewrite lookup_insert_eq.
Qed.
End Keys.
