(* ===== verification/Protocol.v ===== *)
(** * Acknowledgements, packet tags and application data

    Models [common/internal-types/src/protocol.rs] and the Ed25519 signatures
    of [crypto/types/src/types.rs]: signed acknowledgements that must be
    validated before their key share can be read, the Bloom filter that detects
    replayed packets, and the tagged payload of applications. *)
From S2P Require Import Prelude Primitives Crypto Channels Tickets SharedKeys Packet.

(** ed25519-dalek: signing with the expanded secret, and strict verification. *)
Class Ed25519 `{!Curve25519} := {
  ed25519_sign : OffchainKeypair → bytes → bytes;
  ed25519_verify : OffchainPublicKey → bytes → bytes → bool
}.

Class Ed25519Laws `{!Curve25519} `{!Ed25519} := {
  length_ed25519_sign kp m : length (ed25519_sign kp m) = 64%nat;
  ed25519_correct secret kp m :
    OffchainKeypair_from_secret secret = Ok kp → ed25519_verify (ok_public kp) m (ed25519_sign kp m) = true
}.

Section Signatures.
Context `{!Curve25519} `{!Ed25519}.

Definition OffchainSignature : Type := bytes.
Definition OffchainSignature_SIZE : nat := 64.
Definition OffchainSignature_try_from : bytes → outcome GeneralError OffchainSignature :=
  array_try_from OffchainSignature_SIZE "OffchainSignature".
Definition sign_message (msg : bytes) (kp : OffchainKeypair) : OffchainSignature := ed25519_sign kp msg.
Definition verify_message (sig : OffchainSignature) (msg : bytes) (pk : OffchainPublicKey) : bool :=
  ed25519_verify pk msg sig.
End Signatures.

(** ** Acknowledgements *)
Section Acknowledgements.
Context `{!Secp256k1} `{!Curve25519} `{!Ed25519}.

Definition HalfKey_SIZE : nat := 32.
Definition Acknowledgement_SIZE : nat := HalfKey_SIZE + OffchainSignature_SIZE.

Record Acknowledgement := mkAck { ack_data : bytes; ack_validated : bool }.

Definition Acknowledgement_try_from (value : bytes) : outcome GeneralError Acknowledgement :=
  if bool_decide (length value = Acknowledgement_SIZE) then Ok (mkAck value false)
  else Err (ParseError "Acknowledgement").

(** The two [copy_from_slice] panic on wrong lengths. *)
Definition Acknowledgement_new {E} (ack_key_share : HalfKey) (node_keypair : OffchainKeypair) :
    outcome E Acknowledgement :=
  let signature := sign_message ack_key_share node_keypair in
  data ← copy_from_slice 0 HalfKey_SIZE ack_key_share (replicate Acknowledgement_SIZE 0);
  data ← copy_from_slice HalfKey_SIZE (HalfKey_SIZE + OffchainSignature_SIZE) signature data;
  Ok (mkAck data true).

Definition validate (a : Acknowledgement) (sender_node_key : OffchainPublicKey) : TR Acknowledgement :=
  if negb (ack_validated a) then
    slice ← range HalfKey_SIZE (HalfKey_SIZE + OffchainSignature_SIZE) (ack_data a);
    signature ← map_err CoreGeneralError (OffchainSignature_try_from slice);
    msg ← range 0 HalfKey_SIZE (ack_data a);
    if verify_message signature msg sender_node_key then Ok (mkAck (ack_data a) true)
    else Err InvalidAcknowledgement
  else Ok a.

Definition ack_key_share (a : Acknowledgement) : TR HalfKey :=
  if ack_validated a then
    slice ← range 0 HalfKey_SIZE (ack_data a);
    map_err CoreGeneralError (HalfKey_try_from slice)
  else Err InvalidAcknowledgement.

(** [to_challenge] panics on an invalid half key. *)
Definition ack_challenge (a : Acknowledgement) : TR HalfKeyChallenge :=
  k ← ack_key_share a; unwrap (HalfKey_to_challenge k).
End Acknowledgements.

(** ** The tag filter *)

(** The [bloomfilter] crate: no tag that was set is missed. *)
Class Bloom := {
  bloom : Type;
  bloom_new : nat → bloom;
  bloom_clear : bloom → bloom;
  bloom_set : bytes → bloom → bloom;
  bloom_check : bytes → bloom → bool
}.

Section Filter.
Context `{!Bloom}.

Record TagBloomFilter := mkTagFilter { tf_bloom : bloom; tf_count : nat; tf_capacity : nat }.

Definition with_capacity (size : nat) : TagBloomFilter := mkTagFilter (bloom_new size) 0 size.

Definition tag_set (tag : bytes) (f : TagBloomFilter) : TagBloomFilter :=
  let (b, c) := if (tf_count f =? tf_capacity f)%nat then (bloom_clear (tf_bloom f), 0%nat)
                else (tf_bloom f, tf_count f) in
  mkTagFilter (bloom_set tag b) (S c) (tf_capacity f).

Definition tag_check (tag : bytes) (f : TagBloomFilter) : bool := bloom_check tag (tf_bloom f).

(** [Bloom::check_and_set] checks, then sets. *)
Definition check_and_set (tag : bytes) (f : TagBloomFilter) : TagBloomFilter * bool :=
  if (tf_count f =? tf_capacity f)%nat then
    let is_present := bloom_check tag (tf_bloom f) in
    if negb is_present then (mkTagFilter (bloom_set tag (bloom_clear (tf_bloom f))) 1 (tf_capacity f), is_present)
    else (f, is_present)
  else
    let was_present := bloom_check tag (tf_bloom f) in
    (mkTagFilter (bloom_set tag (tf_bloom f)) (if negb was_present then S (tf_count f) else tf_count f)
       (tf_capacity f), was_present).
End Filter.

(** ** Application data *)
Record ApplicationData := mkAppData { application_tag : Z; app_plain_text : bytes }.
Definition TAG_SIZE : nat := 2.

Definition ApplicationData_len (a : ApplicationData) : nat := TAG_SIZE + length (app_plain_text a).

Definition ApplicationData_from_bytes (data : bytes) : outcome GeneralError ApplicationData :=
  if bool_decide (TAG_SIZE ≤ length data)%nat then
    Ok (mkAppData (from_be (take TAG_SIZE data)) (drop TAG_SIZE data))
  else Err (ParseError "ApplicationData").

Definition ApplicationData_to_bytes (a : ApplicationData) : bytes :=
  to_be TAG_SIZE (application_tag a) ++ app_plain_text a.
