(* ===== verification/ProtocolSpec.v ===== *)
(** * Acknowledgements, packet tags and application data: what they promise *)
From S2P Require Import Prelude Primitives Crypto Channels Tickets SharedKeys Packet Protocol.

(** ** Acknowledgements *)
Section Acknowledgements.
Context `{!Secp256k1} `{!Curve25519} `{!Ed25519, !Ed25519Laws}.
#[local] Set Default Proof Using "Type*".

Lemma Acknowledgement_new_ok {E} k kp :
  length k = HalfKey_SIZE → Acknowledgement_new (E:=E) k kp = Ok (mkAck (k ++ ed25519_sign kp k) true).
Proof.
  intros Hk. unfold Acknowledgement_new, sign_message. pose proof (length_ed25519_sign kp k) as Hs.
  change (replicate Acknowledgement_SIZE 0) with ([] ++ replicate HalfKey_SIZE 0 ++ replicate OffchainSignature_SIZE 0).
  rewrite copy_from_slice_ok by done. cbn [mbind outcome_bind app].
  rewrite <-(app_nil_r (replicate OffchainSignature_SIZE 0)), copy_from_slice_ok by done.
  cbn [mbind outcome_bind].
  by rewrite app_nil_r.
Qed.

(** Both slices of the wire form are what was written there. *)
Lemma ack_slices {E} (k : HalfKey) kp :
  length k = HalfKey_SIZE →
  range (E:=E) 0 HalfKey_SIZE (k ++ ed25519_sign kp k) = Ok k ∧
  range (E:=E) HalfKey_SIZE (HalfKey_SIZE + OffchainSignature_SIZE) (k ++ ed25519_sign kp k) = Ok (ed25519_sign kp k).
Proof.
  intros Hk. pose proof (length_ed25519_sign kp k) as Hs. split.
  - by apply (range_ok 0 HalfKey_SIZE [] k).
  - rewrite <-(app_nil_r (ed25519_sign kp k)) at 1. apply range_ok; [done|by rewrite Hs].
Qed.

(** The wire form, its validation with the key of its author, and its share. *)
Lemma ack_accepted secret kp (k : HalfKey) :
  OffchainKeypair_from_secret secret = Ok kp → length k = HalfKey_SIZE →
  let data := k ++ ed25519_sign kp k in
  length data = Acknowledgement_SIZE ∧
  Acknowledgement_try_from data = Ok (mkAck data false) ∧
  validate (mkAck data false) (ok_public kp) = Ok (mkAck data true) ∧
  ack_key_share (mkAck data true) = Ok k.
Proof.
  intros Hkp Hk data. pose proof (length_ed25519_sign kp k) as Hs.
  assert (length data = Acknowledgement_SIZE) as Hl by (unfold data; rewrite length_app, Hk, Hs; done).
  split; [done|]. split; [|split].
  - unfold Acknowledgement_try_from. by rewrite bool_decide_eq_true_2.
  - unfold validate. cbn [ack_validated negb ack_data]. unfold data.
    rewrite (proj2 (ack_slices k kp Hk)), (proj1 (ack_slices k kp Hk)).
    cbn [mbind outcome_bind]. unfold OffchainSignature_try_from, array_try_from. rewrite bool_decide_eq_true_2 by done.
    cbn [map_err mbind outcome_bind]. unfold verify_message. by rewrite (ed25519_correct secret).
  - unfold ack_key_share. cbn [ack_validated ack_data]. unfold data. rewrite (proj1 (ack_slices k kp Hk)).
    cbn [mbind outcome_bind]. unfold HalfKey_try_from, array_try_from. by rewrite bool_decide_eq_true_2.
Qed.

(** An acknowledgement crosses the network unchanged: its 96 bytes parse to
    an acknowledgement whose key share cannot be read before the signature was
    checked, the check succeeds with the key of its author, and the share is
    the one that was acknowledged. *)
Theorem acknowledgement_roundtrip (secret : bytes) (kp : OffchainKeypair) (k : HalfKey) :
  OffchainKeypair_from_secret secret = Ok kp → length k = HalfKey_SIZE →
  ∃ a b, Acknowledgement_new (E:=CoreTypesError) k kp = Ok a ∧ length (ack_data a) = Acknowledgement_SIZE ∧
    Acknowledgement_try_from (ack_data a) = Ok b ∧ ack_key_share b = Err InvalidAcknowledgement ∧
    validate b (ok_public kp) = Ok a ∧ ack_key_share a = Ok k.
Proof.
  intros Hkp Hk. destruct (ack_accepted secret kp k Hkp Hk) as (Hl & Ht & Hv & Hs).
  exists (mkAck (k ++ ed25519_sign kp k) true), (mkAck (k ++ ed25519_sign kp k) false).
  split; [by apply Acknowledgement_new_ok|]. by split_and!.
Qed.
End Acknowledgements.

(** ** The tag filter *)

(** No false negatives. *)
Class BloomLaws `{!Bloom} := {
  bloom_check_set t b : bloom_check t (bloom_set t b) = true;
  bloom_set_mono t t' b : bloom_check t b = true → bloom_check t (bloom_set t' b) = true
}.

Section Filter.
Context `{!Bloom, !BloomLaws}.
#[local] Set Default Proof Using "Type*".

Definition present (tags : list bytes) (f : TagBloomFilter) : TagBloomFilter :=
  foldl (λ f tag, (check_and_set tag f).1) f tags.

Definition filter_wf (f : TagBloomFilter) : Prop := (0 < tf_capacity f)%nat ∧ (tf_count f ≤ tf_capacity f)%nat.

Lemma check_and_set_step tag f :
  filter_wf f →
  let (f', seen) := check_and_set tag f in
  filter_wf f' ∧ tf_capacity f' = tf_capacity f ∧ tag_check tag f' = true ∧ seen = tag_check tag f ∧
  ((tf_count f < tf_capacity f)%nat →
    (tf_count f' ≤ S (tf_count f))%nat ∧ ∀ t, tag_check t f = true → tag_check t f' = true).
Proof.
  intros [Hpos Hle]. unfold check_and_set, tag_check.
  destruct (Nat.eqb_spec (tf_count f) (tf_capacity f)) as [Heq|Hne]; destruct (bloom_check tag (tf_bloom f)) eqn:Hc; cbn.
  - do 4 (split; [done|]). lia.
  - do 2 (split; [done || split; cbn; lia|]). split; [apply bloom_check_set|]. split; [done|lia].
  - do 2 (split; [done || split; cbn; lia|]). split; [apply bloom_check_set|]. split; [done|].
    intros _. split; [lia|]. intros t. apply bloom_set_mono.
  - do 2 (split; [done || split; cbn; lia|]). split; [apply bloom_check_set|]. split; [done|].
    intros _. split; [lia|]. intros t. apply bloom_set_mono.
Qed.

(** C30. The tag filter detects replays within a window: its count never
    exceeds its capacity, and a tag that was once presented is reported as
    seen after any further tags, as long as their number fits into what is
    left of the capacity. *)
Theorem tag_filter_detects_replays (tag : bytes) (tags : list bytes) (f : TagBloomFilter) :
  filter_wf f →
  filter_wf (present tags f) ∧
  let f1 := (check_and_set tag f).1 in
  ((tf_count f1 + length tags ≤ tf_capacity f1)%nat → (check_and_set tag (present tags f1)).2 = true).
Proof.
  intros Hwf. split.
  { revert f Hwf. induction tags as [|t tags IH]; intros f Hwf; [done|]. cbn. apply IH.
    pose proof (check_and_set_step t f Hwf) as Hs. destruct (check_and_set t f). apply Hs. }
  pose proof (check_and_set_step tag f Hwf) as Hs. destruct (check_and_set tag f) as [f1 seen]. cbn [fst].
  destruct Hs as (Hwf1 & _ & Hseen & _ & _). clear seen Hwf f. revert f1 Hwf1 Hseen.
  induction tags as [|t tags IH]; intros f1 Hwf Hseen Hlen; cbn [present foldl].
  - pose proof (check_and_set_step tag f1 Hwf) as Hs. destruct (check_and_set tag f1) as [f2 seen].
    destruct Hs as (_ & _ & _ & -> & _). done.
  - pose proof (check_and_set_step t f1 Hwf) as Hs. destruct (check_and_set t f1) as [f2 seen]. cbn [fst].
    cbn [length] in Hlen. destruct Hs as (Hwf2 & Hcap & _ & _ & Hmono). destruct Hmono as [Hcnt Hmono]; [lia|].
    apply IH; [done|by apply Hmono|lia].
Qed.
End Filter.

(** ** Application data *)
Lemma application_data_roundtrip :
  (∀ a, in_u 16 (application_tag a) → ApplicationData_from_bytes (ApplicationData_to_bytes a) = Ok a ∧
    length (ApplicationData_to_bytes a) = ApplicationData_len a) ∧
  (∀ b a, bytes_wf b → ApplicationData_from_bytes b = Ok a → ApplicationData_to_bytes a = b).
Proof.
  split.
  - intros [tag text] Ht. cbn in Ht. unfold ApplicationData_from_bytes, ApplicationData_to_bytes, ApplicationData_len.
    cbn [application_tag app_plain_text]. rewrite length_app, length_to_be.
    rewrite bool_decide_eq_true_2 by lia. rewrite take_app_length', drop_app_length' by (by rewrite length_to_be).
    by rewrite from_be_to_be_small.
  - intros b a Hb. unfold ApplicationData_from_bytes. case_bool_decide as Hl; [|done]. intros [= <-].
    unfold ApplicationData_to_bytes. cbn [application_tag app_plain_text].
    assert (length (take TAG_SIZE b) = TAG_SIZE) as Ht by (rewrite length_take; lia).
    rewrite (to_be_from_be TAG_SIZE (take TAG_SIZE b)) by (try apply Forall_take; done). apply take_drop.
Qed.
