(* ===== verification/NodeProtocol.v ===== *)
(** * The packet pipeline of a node

    Models [db/sql/src/protocol.rs] with the ring buffer of reply blocks of
    [cache.rs] and the types of [db/api/src/protocol.rs] and
    [network-types/src/types.rs]: sending a packet, receiving one, checking and
    replacing the ticket of a forwarded packet, and resolving acknowledgements.
    Random values are arguments. *)
From stdpp Require Import gmap strings.
From S2P Require Import Prelude Primitives Crypto Channels Tickets SharedKeys Sphinx MetaPacket Por Packet.
From S2P Require Import TicketStore NodeDb Protocol.

(** ** Types *)
Inductive SurbMatcher := Exact (id : bytes) | Pseudonym (p : HoprPseudonym).

Definition matcher_pseudonym (m : SurbMatcher) : HoprPseudonym :=
  match m with Exact id => HoprSenderId_pseudonym id | Pseudonym p => p end.

Inductive ResolvedTransportRouting `{!Curve25519} :=
| Forward (pseudonym : HoprPseudonym) (forward_path : list OffchainPublicKey)
    (return_paths : list (list OffchainPublicKey))
| Return (sender_id : bytes) (surb : SURB).

Inductive ResolvedAcknowledgement :=
| Sending (a : Acknowledgement)
| RelayingWin (t : AcknowledgedTicket)
| RelayingLoss (channel : Hash).

Section Pipeline.
Context `{!Secp256k1} `{Kdf} `{!Curve25519} `{!Ed25519} (poly1305 : UniversalHash).
Context `{!HexCodec} `{!ScanOrder} `{!Multiaddrs} `{!FloatCmp}.

#[local] Existing Instance HoprSphinxHeaderSpec.

Record OutgoingPacket := mkOutgoingPacket {
  op_next_hop : OffchainPublicKey;
  op_ack_challenge : HalfKeyChallenge;
  op_data : bytes
}.

Inductive IncomingPacket :=
| IncomingFinal (packet_tag : bytes) (previous_hop : OffchainPublicKey) (sender : HoprPseudonym)
    (plain_text : bytes) (ack_key : HalfKey)
| IncomingForwarded (packet_tag : bytes) (previous_hop next_hop : OffchainPublicKey) (data : bytes)
    (ack : Acknowledgement).

Abbreviation DB := (SM HoprDb DbSqlError).

(** ** The ring buffer of reply blocks *)
Definition SURB_RB_CAPACITY : nat := Z.to_nat 10000.

(** Extending a full buffer drops its oldest elements. *)
Definition rb_push (surbs : list (bytes * SURB)) (rb : list (bytes * SURB)) : list (bytes * SURB) :=
  drop (length rb + length surbs - SURB_RB_CAPACITY) (rb ++ surbs).

Definition rb_pop_one (rb : list (bytes * SURB)) :
    outcome DbError ((bytes * SURB) * list (bytes * SURB)) :=
  match rb with
  | x :: rb => Ok (x, rb)
  | [] => Err (NoSurbAvailable "no more surbs")
  end.

Definition rb_pop_one_if_has_id (id : bytes) (rb : list (bytes * SURB)) :
    outcome DbError ((bytes * SURB) * list (bytes * SURB)) :=
  match rb with
  | (surb_id, s) :: rb =>
      if bool_decide (surb_id = id) then Ok ((surb_id, s), rb)
      else Err (NoSurbAvailable "surb does not match the given id")
  | [] => Err (NoSurbAvailable "surb does not match the given id")
  end.

Definition find_surb (matcher : SurbMatcher) : SM HoprDb DbError (bytes * SURB) :=
  let pseudonym := matcher_pseudonym matcher in
  db ← get;
  match surbs_per_pseudonym db !! pseudonym with
  | None => throw (NoSurbAvailable "pseudonym not found")
  | Some rb =>
      '((id, s), rb) ← lift (match matcher with
                             | Pseudonym _ => rb_pop_one rb
                             | Exact id => rb_pop_one_if_has_id (HoprSenderId_surb_id id) rb
                             end);
      modify (λ db, set_surbs_per_pseudonym (<[pseudonym := rb]> (surbs_per_pseudonym db)) db);;
      sender_id ← lift (from_pseudonym_and_id pseudonym id);
      mret (sender_id, s)
  end.

(** The key identifiers known to the node. *)
Definition db_mapper (db : HoprDb) : @KeyIdMapper X25519Suite := {|
  map_key_to_id := λ k : @public X25519Suite, public_to_key_id db !! opk_compressed k;
  map_id_to_public := λ i, key_id_to_public db !! i
|}.

Definition db_some {A} (o : option A) (e : DbSqlError) : DB A := lift (ok_or o e).

Definition fetch_domain_separator : DB Hash :=
  data ← get_indexer_data;
  db_some (channels_dst data) (LogicalError "failed to fetch the domain separator").

(** ** Tickets of outgoing packets *)
Definition create_multihop_ticket (channel : ChannelEntry) (me_onchain destination : Address)
    (current_path_pos : Z) (winning_prob : WinningProbability) (price : HoprBalance) : DB TicketBuilder :=
  total ← lift (U256_mul (amount price) (wrap 8 (current_path_pos - 1)));
  value ← lift (map_err (λ _, LogicalError "winning probability outside of the allowed interval (0.0, 1.0]")
                 (U256_div_f64 total (as_f64 winning_prob)));
  if Balance_ltb (balance channel) (mkBalance value) then throw (LogicalError "out of funds")
  else
    index ← on_tickets (increment_outgoing_ticket_index (get_id channel));
    epoch ← lift (U256_as 32 (channel_epoch channel));
    mret (set_channel_epoch epoch (set_win_prob winning_prob (set_index_offset 1 (set_index index
            (set_balance (mkBalance value) (set_direction me_onchain destination TicketBuilder_default)))))).

(** A ticket for the next peer: of a channel for more than one hop, else empty. *)
Definition next_ticket (me next_peer : Address) (hops : Z) (winning_prob : WinningProbability)
    (price : HoprBalance) : DB TicketBuilder :=
  if 1 <? hops then
    channel ← get_channel_by_parties me next_peer true;
    channel ← db_some channel (LogicalError "channel not found");
    create_multihop_ticket channel me next_peer (wrap 8 hops) winning_prob price
  else mret (set_direction me next_peer zero_hop).

(** ** Forwarded packets *)
Definition validate_and_replace_ticket (fwd : HoprForwardedPacket) (me : ChainKeypair)
    (outgoing_ticket_win_prob : WinningProbability) (outgoing_ticket_price : HoprBalance) :
    DB HoprForwardedPacket :=
  db ← get;
  let me_onchain := me_onchain db in
  let out := fwd_outgoing fwd in
  previous_hop_addr ← resolve_chain_key (fwd_previous_hop fwd);
  previous_hop_addr ← db_some previous_hop_addr (LogicalError "failed to find channel key for previous hop");
  next_hop_addr ← resolve_chain_key (out_next_hop out);
  next_hop_addr ← db_some next_hop_addr (LogicalError "failed to find channel key for next hop");
  incoming_channel ← get_channel_by_parties previous_hop_addr me_onchain true;
  incoming_channel ← db_some incoming_channel (LogicalError "no channel found for previous hop");
  if negb (bool_decide (t_channel_id (out_ticket out) = get_id incoming_channel))
  then throw (LogicalError "invalid ticket for channel")
  else
    chain_data ← get_indexer_data;
    domain_separator ← db_some (channels_dst chain_data) (LogicalError "failed to fetch the domain separator");
    price ← db_some (ticket_price chain_data) (LogicalError "failed to fetch the ticket price");
    let minimum_ticket_price := Balance_mul price (mkBalance (fwd_path_pos fwd)) in
    unrealized ← on_tickets (unrealized_value (selector_of_channel incoming_channel));
    let remaining_balance := Balance_sub (balance incoming_channel) unrealized in
    verified_incoming_ticket ← lift (map_err (λ e, DbTicketValidationError (tve_ticket e) "ticket validation")
      (validate_unacknowledged_ticket (out_ticket out) incoming_channel minimum_ticket_price
         (minimum_incoming_ticket_winning_prob chain_data) remaining_balance domain_separator));
    outgoing_ticket_win_prob ← lift (WinProb_max outgoing_ticket_win_prob
      (win_prob (verified_ticket verified_incoming_ticket)));
    modify (λ db, set_unacked_tickets
      (<[out_ack_challenge out := WaitingAsRelayer (into_unacknowledged verified_incoming_ticket (fwd_own_key fwd))]>
         (unacked_tickets db)) db);;
    ticket_builder ← next_ticket me_onchain next_hop_addr (fwd_path_pos fwd)
      outgoing_ticket_win_prob outgoing_ticket_price;
    vt ← lift (map_err DbCoreTypesError
      (build_signed (set_challenge (fwd_next_challenge fwd) ticket_builder) me domain_separator));
    mret (mkForwarded (mkOutgoing (out_packet out) (leak vt) (out_next_hop out) (out_ack_challenge out))
      (fwd_packet_tag fwd) (fwd_ack_key fwd) (fwd_previous_hop fwd) (fwd_own_key fwd)
      (fwd_next_challenge fwd) (fwd_path_pos fwd)).

(** ** Acknowledgements *)

(** [random] is the nonce of the VRF. *)
Definition validate_acknowledgement (random : bytes) (ack : Acknowledgement) : DB ResolvedAcknowledgement :=
  challenge ← lift (map_err DbCoreTypesError (ack_challenge ack));
  db ← get;
  pending ← db_some (unacked_tickets db !! challenge)
    (AcknowledgementValidationError "received unexpected acknowledgement");
  modify (λ db, set_unacked_tickets (delete challenge (unacked_tickets db)) db);;
  match pending with
  | WaitingAsSender => mret (Sending ack)
  | WaitingAsRelayer unacknowledged =>
      maybe_channel ← get_channel_by_parties (verified_issuer (ua_ticket unacknowledged)) (me_onchain db) true;
      matching ← (match maybe_channel with
                  | Some c =>
                      epoch ← lift (U256_as 32 (channel_epoch c));
                      mret (epoch =? t_channel_epoch (verified_ticket (ua_ticket unacknowledged)))
                  | None => mret false
                  end);
      if (matching : bool) then
        data ← get_indexer_data;
        domain_separator ← db_some (channels_dst data) (LogicalError "domain separator missing");
        share ← lift (map_err DbCoreTypesError (ack_key_share ack));
        ack_ticket ← lift (map_err DbCoreTypesError (acknowledge unacknowledged share));
        winning ← lift (AcknowledgedTicket_is_winning random ack_ticket (chain_key db) domain_separator);
        mret (if (winning : bool) then RelayingWin ack_ticket
              else RelayingLoss (t_channel_id (verified_ticket (Tickets.ack_ticket ack_ticket))))
      else throw (LogicalError "no channel found with a matching epoch")
  end.

(** The API error carries the database error. *)
Definition handle_acknowledgement (random : bytes) (ack : Acknowledgement) : DB unit :=
  result ← validate_acknowledgement random ack;
  match result with
  | RelayingWin ack_ticket => on_tickets (insert_ticket ack_ticket)
  | RelayingLoss _ | Sending _ => mret tt
  end.

Definition get_network_winning_probability : DB WinningProbability :=
  data ← get_indexer_data; mret (minimum_incoming_ticket_winning_prob data).

Definition get_network_ticket_price : DB HoprBalance :=
  data ← get_indexer_data; db_some (ticket_price data) (LogicalError "missing ticket price").

(** ** Sending *)
Definition transport_payload (out : HoprOutgoingPacket) : DB bytes :=
  ticket ← lift (Ticket_to_bytes (out_ticket out)); mret (out_packet out ++ ticket).

(** The packet is built from the key identifiers known at that moment. *)
Definition build_packet (dr : draws) (sender_random : bytes) (dr_return : nat → draws) (data : bytes)
    (pseudonym : HoprPseudonym) (routing : PacketRouting) (ticket : TicketBuilder) (domain_separator : Hash) :
    DB (HoprPacket * list (bytes * ReplyOpener)) :=
  db ← get;
  lift (map_err (λ _, LogicalError "failed to construct chain components for a packet")
    (@into_outgoing _ _ _ poly1305 (db_mapper db) dr sender_random dr_return data pseudonym routing
       (chain_key db) ticket domain_separator)).

Definition to_send_no_ack (dr : draws) (sender_random : bytes) (dr_return : nat → draws)
    (pseudonym : HoprPseudonym) (data : bytes) (destination : OffchainPublicKey) : DB OutgoingPacket :=
  db ← get;
  next_peer ← resolve_chain_key destination;
  next_peer ← db_some next_peer (LogicalError "failed to find chain key");
  let ticket := set_direction (me_onchain db) next_peer zero_hop in
  domain_separator ← fetch_domain_separator;
  '(packet, _) ← build_packet dr sender_random dr_return data pseudonym (RouteNoAck destination) ticket domain_separator;
  match packet with
  | HoprOutgoing out =>
      payload ← transport_payload out;
      mret (mkOutgoingPacket (out_next_hop out) (out_ack_challenge out) payload)
  | _ => throw (LogicalError "must be an outgoing packet")
  end.

(** The first peer, the number of hops, the pseudonym and the routing. *)
Definition packet_routing (routing : ResolvedTransportRouting) :
    DB (OffchainPublicKey * Z * HoprPseudonym * PacketRouting) :=
  match routing with
  | Forward pseudonym forward_path return_paths =>
      next ← lift (unwrap_option (hd_error forward_path));
      mret (next, Z.of_nat (length forward_path), pseudonym, RouteForward forward_path return_paths)
  | Return sender_id surb =>
      db ← get;
      next ← db_some (key_id_to_public db !! first_relayer surb) MissingAccount;
      values ← lift (proof_of_relay_values (additional_data_receiver surb));
      mret (next, chain_length values, HoprSenderId_pseudonym sender_id,
            RouteSurb (HoprSenderId_surb_id sender_id) surb)
  end.

Definition store_openers (pseudonym : HoprPseudonym) (openers : list (bytes * ReplyOpener)) : DB unit :=
  ids ← lift (mapM (λ '(surb_id, opener), id ← from_pseudonym_and_id pseudonym surb_id; Ok (id, opener)) openers);
  modify (λ db, set_pseudonym_openers
    (foldl (λ m '(id, opener), <[id := opener]> m) (pseudonym_openers db) ids) db).

Definition to_send (dr : draws) (sender_random : bytes) (dr_return : nat → draws) (data : bytes)
    (routing : ResolvedTransportRouting) (outgoing_ticket_win_prob : WinningProbability)
    (outgoing_ticket_price : HoprBalance) : DB OutgoingPacket :=
  '(next_peer, num_hops, pseudonym, routing) ← packet_routing routing;
  next_peer ← resolve_chain_key next_peer;
  next_peer ← db_some next_peer (LogicalError "failed to find chain key");
  db ← get;
  ticket ← next_ticket (me_onchain db) next_peer num_hops outgoing_ticket_win_prob outgoing_ticket_price;
  domain_separator ← fetch_domain_separator;
  '(packet, openers) ← build_packet dr sender_random dr_return data pseudonym routing ticket domain_separator;
  store_openers pseudonym openers;;
  match packet with
  | HoprOutgoing out =>
      modify (λ db, set_unacked_tickets (<[out_ack_challenge out := WaitingAsSender]> (unacked_tickets db)) db);;
      payload ← transport_payload out;
      mret (mkOutgoingPacket (out_next_hop out) (out_ack_challenge out) payload)
  | _ => throw (LogicalError "must be an outgoing packet")
  end.

(** ** Receiving *)

(** The sender id under which the opening of a packet looks for a reply
    opener: that of a final packet that is a reply. *)
Definition opener_asked (node_keypair : OffchainKeypair) (data : bytes) : option bytes :=
  if negb (bool_decide (length data = HoprPacket_SIZE poly1305)) then None else
  match
    (packet ← map_err SphinxGeneralError (MetaPacket_try_from PAYLOAD_SIZE_INT (take (PACKET_LEN poly1305) data));
     alpha ← range 0 AlphaLen packet;
     private_scalar ← map_err SphinxCryptoError (scalar_from_keypair (node_keypair : keypair));
     '(_, secret) ← map_err SphinxCryptoError
       (forward_transform alpha private_scalar (group_from_public (kp_public (node_keypair : keypair))));
     header ← range AlphaLen (AlphaLen + RoutingInfo_SIZE) packet;
     fwd_header ← map_err SphinxCryptoError (forward_header secret header);
     _ ← map_err SphinxCryptoError (new_prp_init secret);
     Ok fwd_header)
  with
  | Ok (HeaderFinal receiver_data true _) => Some receiver_data
  | _ => None
  end.

Definition receive_packet (data : bytes) (pkt_keypair : OffchainKeypair) (sender : OffchainPublicKey) : DB HoprPacket :=
  db ← get;
  modify (λ db, set_pseudonym_openers
    (match opener_asked pkt_keypair data with
     | Some id => delete id (pseudonym_openers db)
     | None => pseudonym_openers db
     end) db);;
  lift (map_err (λ _, LogicalError "failed to construct an incoming packet")
    (@from_incoming _ _ _ poly1305 (db_mapper db) data pkt_keypair sender (λ id, pseudonym_openers db !! id))).

Definition store_surbs (sender : HoprPseudonym) (surbs : list (bytes * SURB)) : DB unit :=
  modify (λ db, set_surbs_per_pseudonym
    (<[sender := rb_push surbs (default [] (surbs_per_pseudonym db !! sender))]> (surbs_per_pseudonym db)) db).

(** The cache that holds the ring buffers: an entry that was not used for ten
    minutes is gone, and an entry may be evicted while there are more than the
    cache may hold.  [store_surbs] and [find_surb] are what a call does with the
    entries that are left; these are the calls at an instant. *)
Definition SURBS_TIME_TO_IDLE : Duration := 600 * 10 ^ 9.
Definition SURBS_MAX_CAPACITY : Z := 10000.

Record SurbCache := mkSurbCache { sc_db : HoprDb; sc_used : gmap HoprPseudonym SystemTime }.

Definition surbs_expired (now : SystemTime) (p : HoprPseudonym) (c : SurbCache) : bool :=
  match sc_used c !! p with Some t => SURBS_TIME_TO_IDLE <=? now - t | None => false end.

Definition forget_surbs (p : HoprPseudonym) (c : SurbCache) : SurbCache :=
  mkSurbCache (set_surbs_per_pseudonym (delete p (surbs_per_pseudonym (sc_db c))) (sc_db c)) (delete p (sc_used c)).

Definition expire_surbs (now : SystemTime) (p : HoprPseudonym) (c : SurbCache) : SurbCache :=
  if surbs_expired now p c then forget_surbs p c else c.

Definition store_surbs_at (now : SystemTime) (sender : HoprPseudonym) (surbs : list (bytes * SURB)) (c : SurbCache) :
    SurbCache :=
  let c := expire_surbs now sender c in
  mkSurbCache (store_surbs sender surbs (sc_db c)).1 (<[sender := now]> (sc_used c)).

Definition find_surb_at (now : SystemTime) (matcher : SurbMatcher) (c : SurbCache) :
    SurbCache * outcome DbError (bytes * SURB) :=
  let p := matcher_pseudonym matcher in
  let c := expire_surbs now p c in
  let used := if surbs_per_pseudonym (sc_db c) !! p then <[p := now]> (sc_used c) else sc_used c in
  let '(db, r) := find_surb matcher (sc_db c) in
  (mkSurbCache db used, r).

Definition evict_surbs (p : HoprPseudonym) (c : SurbCache) : option SurbCache :=
  if SURBS_MAX_CAPACITY <? Z.of_nat (size (surbs_per_pseudonym (sc_db c))) then Some (forget_surbs p c) else None.

(** The processing of a forwarded packet: a ticket that fails its checks is
    counted as rejected. *)
Definition forward_packet (pkt_keypair : OffchainKeypair) (fwd : HoprForwardedPacket)
    (outgoing_ticket_win_prob : WinningProbability) (outgoing_ticket_price : HoprBalance) :
    DB (option IncomingPacket) := λ s,
  match validate_and_replace_ticket fwd (chain_key s) outgoing_ticket_win_prob outgoing_ticket_price s with
  | (s, Ok fwd) =>
      (payload ← transport_payload (fwd_outgoing fwd);
       ack ← lift (Acknowledgement_new (fwd_ack_key fwd) pkt_keypair);
       mret (Some (IncomingForwarded (fwd_packet_tag fwd) (fwd_previous_hop fwd)
               (out_next_hop (fwd_outgoing fwd)) payload ack))) s
  | (s, Err (DbTicketValidationError rejected_ticket error)) =>
      match on_tickets (mark_unsaved_ticket_rejected rejected_ticket) s with
      | (s, Ok _) => (s, Err (DbTicketValidationError rejected_ticket error))
      | (s, Err _) => (s, Err (DbTicketValidationError rejected_ticket "another error occurred"))
      | (s, Panic) => (s, Panic)
      end
  | (s, Err e) => (s, Err e)
  | (s, Panic) => (s, Panic)
  end.

Definition from_recv (random : bytes) (data : bytes) (pkt_keypair : OffchainKeypair) (sender : OffchainPublicKey)
    (outgoing_ticket_win_prob : WinningProbability) (outgoing_ticket_price : HoprBalance) :
    DB (option IncomingPacket) :=
  packet ← receive_packet data pkt_keypair sender;
  match packet with
  | HoprFinal incoming =>
      (match in_surbs incoming with [] => mret tt | surbs => store_surbs (in_sender incoming) surbs end);;
      match in_ack_key incoming with
      | Some ack_key =>
          mret (Some (IncomingFinal (in_packet_tag incoming) (in_previous_hop incoming) (in_sender incoming)
                  (in_plain_text incoming) ack_key))
      | None =>
          ack ← lift (map_err (λ _, DecodingError) (Acknowledgement_try_from (in_plain_text incoming)));
          ack ← lift (map_err (λ _, AcknowledgementValidationError "invalid acknowledgement")
                       (validate ack (in_previous_hop incoming)));
          handle_acknowledgement random ack;;
          mret None
      end
  | HoprForwarded fwd =>
      forward_packet pkt_keypair fwd outgoing_ticket_win_prob outgoing_ticket_price
  | HoprOutgoing _ => throw (LogicalError "cannot receive an outgoing packet")
  end.
End Pipeline.
