(* ===== verification/NodeProtocolSpec.v ===== *)
(** * The packet pipeline of a node: what it guarantees

    Reply blocks are handed out in order and at most once, an acknowledgement
    is consumed by the first attempt to redeem it and queues exactly the
    tickets that won, and a packet is only forwarded with a ticket that pays
    for it. *)
From stdpp Require Import gmap strings.
From S2P Require Import Prelude Primitives Crypto Channels Tickets WinProb SharedKeys Sphinx MetaPacket Por Packet.
From S2P Require Import TicketStore TicketStoreSpec TicketIndexSpec NodeDb NodeDbSpec Protocol ProtocolSpec NodeProtocol.

(** Splits a successful run into the runs of its steps. *)
Ltac step_Ok Hrun x Hx :=
  let s := fresh "db" in apply run_Ok_inv in Hrun as (s & x & Hx & Hrun).

Lemma lift_Ok_inv {S E A} (m : outcome E A) (s s' : S) a : lift m s = (s', Ok a) → s' = s ∧ m = Ok a.
Proof. unfold lift. by intros [= -> ->]. Qed.

Lemma ok_or_Ok_inv {E A} (o : option A) (e : E) a : ok_or o e = Ok a → o = Some a.
Proof. destruct o; [by intros [= ->]|done]. Qed.

(** Reads the result of a step that only computes. *)
Ltac pure_Ok Hx := apply lift_Ok_inv in Hx as [-> Hx].

Section Surbs.
Context `{!Secp256k1} `{Kdf} `{!Curve25519} `{!HexCodec} `{!ScanOrder} `{!Multiaddrs}.

(** ** Reply blocks *)
Inductive SurbOp :=
| StoreSurbs (sender : HoprPseudonym) (surbs : list (bytes * SURB))
| FindSurb (matcher : SurbMatcher)
| EvictSurbs (p : HoprPseudonym).

Definition buffer (db : HoprDb) (p : HoprPseudonym) : list (bytes * SURB) := default [] (surbs_per_pseudonym db !! p).

(** One call at an instant, and the reply blocks it hands out with their sender
    ids; an eviction only when the cache is too large. *)
Definition surb_step (now : SystemTime) (op : SurbOp) (c : SurbCache) :
    option (SurbCache * list (HoprPseudonym * (bytes * SURB))) :=
  match op with
  | StoreSurbs sender surbs => Some (store_surbs_at now sender surbs c, [])
  | FindSurb m =>
      match find_surb_at now m c with
      | (c, Ok (sender_id, s)) => Some (c, [(matcher_pseudonym m, (sender_id, s))])
      | (c, _) => Some (c, [])
      end
  | EvictSurbs p => c ← evict_surbs p c; Some (c, [])
  end.

Fixpoint surb_run (ops : list (SystemTime * SurbOp)) (c : SurbCache) :
    option (SurbCache * list (HoprPseudonym * (bytes * SURB))) :=
  match ops with
  | [] => Some (c, [])
  | (now, op) :: ops =>
      '(c, out) ← surb_step now op c;
      '(c, rest) ← surb_run ops c;
      Some (c, out ++ rest)
  end.

Definition of_pseudonym {A} (p : HoprPseudonym) (l : list (HoprPseudonym * A)) : list A :=
  snd <$> filter (λ x, x.1 = p) l.

(** What was stored for a pseudonym. *)
Fixpoint stored_for (p : HoprPseudonym) (ops : list (SystemTime * SurbOp)) : list (bytes * SURB) :=
  match ops with
  | [] => []
  | (_, StoreSurbs sender surbs) :: ops => (if decide (sender = p) then surbs else []) ++ stored_for p ops
  | _ :: ops => stored_for p ops
  end.

(** A pseudonym is undisturbed in a history when it is never evicted and each
    of its calls comes before ten minutes have passed since the one before, or
    since [used]. *)
Definition uses (p : HoprPseudonym) (op : SurbOp) : bool :=
  match op with
  | StoreSurbs q _ => bool_decide (q = p)
  | FindSurb m => bool_decide (matcher_pseudonym m = p)
  | EvictSurbs _ => false
  end.

Definition in_time (p : HoprPseudonym) (used : option SystemTime) (now : SystemTime) (op : SurbOp) : Prop :=
  op ≠ EvictSurbs p ∧ (uses p op = true → ∀ t, used = Some t → now - t < SURBS_TIME_TO_IDLE).

Fixpoint undisturbed (p : HoprPseudonym) (used : option SystemTime) (ops : list (SystemTime * SurbOp)) : Prop :=
  match ops with
  | [] => True
  | (now, op) :: ops => in_time p used now op ∧ undisturbed p (if uses p op then Some now else used) ops
  end.

(** A reply block under the sender id made of a pseudonym and its own id. *)
Definition under (p : HoprPseudonym) (x : bytes * SURB) : bytes * SURB := (p ++ x.1, x.2).

Lemma sender_id_ok {E} (p id s : bytes) :
  from_pseudonym_and_id (E:=E) p id = Ok s → s = p ++ id ∧ length p = HoprPseudonym_SIZE ∧ length id = SURB_ID_SIZE.
Proof.
  unfold from_pseudonym_and_id, copy_from_slice, HoprSenderId_SIZE. rewrite length_replicate.
  case_bool_decide as Hp; [|done]. destruct Hp as (_ & _ & Hp). rewrite Nat.sub_0_r in Hp.
  cbn [mbind outcome_bind]. case_bool_decide as Hi; [|done]. intros [= <-]. destruct Hi as (_ & _ & Hi).
  assert (length id = SURB_ID_SIZE) as Hi' by (rewrite Hi; unfold SURB_ID_SIZE; lia). split; [|done].
  cbn [take drop app replicate Nat.add HoprPseudonym_SIZE SURB_ID_SIZE].
  rewrite take_app_length' by done. f_equal.
  rewrite drop_ge by (rewrite length_app, Hp; unfold HoprPseudonym_SIZE, SURB_ID_SIZE; cbn; lia). by rewrite app_nil_r.
Qed.

Lemma sender_id_cases {E} (p id : bytes) :
  from_pseudonym_and_id (E:=E) p id =
    if bool_decide (length p = HoprPseudonym_SIZE ∧ length id = SURB_ID_SIZE) then Ok (p ++ id) else Panic.
Proof.
  destruct (from_pseudonym_and_id p id) as [s|e|] eqn:Hs.
  - apply sender_id_ok in Hs as [-> Hl]. by rewrite bool_decide_eq_true_2.
  - unfold from_pseudonym_and_id, copy_from_slice in Hs. case_bool_decide; [|done]. cbn [mbind outcome_bind] in Hs.
    by case_bool_decide.
  - rewrite bool_decide_eq_false_2; [done|]. intros [Hp Hi]. revert Hs.
    unfold from_pseudonym_and_id, copy_from_slice. rewrite length_replicate.
    rewrite bool_decide_eq_true_2 by (rewrite Hp; unfold HoprSenderId_SIZE; lia). cbn [mbind outcome_bind].
    rewrite bool_decide_eq_true_2; [done|]. rewrite Hi. rewrite take_0, drop_replicate. cbn [app].
    rewrite length_app, length_replicate, Hp. unfold HoprSenderId_SIZE. lia.
Qed.

(** A call fails without a trace, or takes the oldest block of the buffer; only
    identifiers of a wrong length make it panic then. *)
Lemma find_surb_cases m db db' o :
  find_surb m db = (db', o) →
  let p := matcher_pseudonym m in
  (db' = db ∧ ∃ e, o = Err e) ∨
  ∃ x rb, buffer db p = x :: rb ∧ db' = set_surbs_per_pseudonym (<[p := rb]> (surbs_per_pseudonym db)) db ∧
    (o = Ok (under p x) ∨ o = Panic ∧ ¬ (length p = HoprPseudonym_SIZE ∧ length x.1 = SURB_ID_SIZE)).
Proof.
  unfold find_surb. autorewrite with run. cbv zeta. set (p := matcher_pseudonym m). unfold buffer.
  destruct (surbs_per_pseudonym db !! p) as [rb|] eqn:Hq; [|intros [= <- <-]; left; by eauto]. cbn [default from_option id].
  set (r := match m with Exact _ => _ | Pseudonym _ => _ end).
  assert ((∃ e, r = Err e) ∨ ∃ x rb', r = Ok (x, rb') ∧ rb = x :: rb') as [[e ->]|(x & rb' & -> & ->)].
  { unfold r, rb_pop_one, rb_pop_one_if_has_id.
    destruct m as [want|?]; destruct rb as [|[j t] rb]; [by eauto| |by eauto|by eauto 10].
    case_bool_decide; by eauto 10. }
  { intros [= <- <-]. left. by eauto. }
  destruct x as [i s]. unfold mbind, SM_bind, lift, modify. cbn. intros Hrun. right. exists (i, s), rb'. split; [done|].
  rewrite sender_id_cases in Hrun. case_bool_decide as Hl; injection Hrun as <- <-; by eauto.
Qed.

Lemma length_rb_push surbs rb : (length (rb_push surbs rb) ≤ SURB_RB_CAPACITY)%nat.
Proof. unfold rb_push. rewrite length_drop, length_app. lia. Qed.

Lemma of_pseudonym_app {A} p (l1 l2 : list (HoprPseudonym * A)) :
  of_pseudonym p (l1 ++ l2) = of_pseudonym p l1 ++ of_pseudonym p l2.
Proof. unfold of_pseudonym. by rewrite filter_app, fmap_app. Qed.

(** The buffers change by what one call stores and hands out. *)
Definition flows (p : HoprPseudonym) (kept : Prop) (before stored popped after : list (bytes * SURB)) : Prop :=
  popped ++ after `sublist_of` before ++ stored ∧
  (kept → length p = HoprPseudonym_SIZE → Forall (λ x, length x.1 = SURB_ID_SIZE) (before ++ stored) →
   (length (before ++ stored) ≤ SURB_RB_CAPACITY)%nat → popped ++ after = before ++ stored).

Lemma flows_trans p (k1 k2 : Prop) b s1 s2 p1 p2 m a :
  flows p k1 b s1 p1 m → flows p k2 m s2 p2 a → flows p (k1 ∧ k2) b (s1 ++ s2) (p1 ++ p2) a.
Proof.
  intros [Hs1 He1] [Hs2 He2]. unfold flows. rewrite <-!app_assoc. split.
  - etrans; [by apply sublist_app|]. rewrite (app_assoc p1), (app_assoc b). by apply sublist_app.
  - rewrite (app_assoc b), length_app, Forall_app. intros [Hk1 Hk2] Hp [Hf1 Hf2] Hl.
    specialize (He1 Hk1 Hp Hf1 ltac:(lia)). rewrite <-He1 in Hf1, Hl |- *. rewrite <-app_assoc. f_equal.
    apply He2; [done|done| |].
    + apply Forall_app in Hf1 as [_ Hf1]. by apply Forall_app.
    + rewrite length_app in Hl |- *. lia.
Qed.

(** What expiry and eviction do to a buffer; the use that is recorded is that
    of an entry. *)
Definition used_by (p : HoprPseudonym) (used : option SystemTime) (c : SurbCache) : Prop :=
  surbs_per_pseudonym (sc_db c) !! p = None ∨ sc_used c !! p = used.

Lemma expire_flows now q p used c :
  used_by p used c →
  let c' := expire_surbs now q c in
  flows p (q = p → ∀ t, used = Some t → now - t < SURBS_TIME_TO_IDLE) (buffer (sc_db c) p) [] [] (buffer (sc_db c') p) ∧
  used_by p used c'.
Proof.
  intros Hu. cbv zeta. unfold expire_surbs. destruct (surbs_expired now q c) eqn:He.
  2: { split; [|done]. unfold flows. by rewrite app_nil_r. }
  unfold forget_surbs, used_by, buffer. cbn [sc_db sc_used surbs_per_pseudonym set_surbs_per_pseudonym].
  destruct (decide (q = p)) as [->|Hne].
  - rewrite lookup_delete_eq. split; [|by left]. unfold flows. cbn [default from_option id app]. split; [apply sublist_nil_l|].
    intros Hk _ _ _. destruct Hu as [->|Hu]; [done|]. assert (match used with Some t => SURBS_TIME_TO_IDLE <=? now - t | None => false end = true) as He' by (by rewrite <-Hu).
    clear He. rename He' into He. destruct used as [t|]; [|done]. apply Z.leb_le in He. specialize (Hk eq_refl t eq_refl). lia.
  - rewrite !lookup_delete_ne by done. split; [|done]. unfold flows. by rewrite app_nil_r.
Qed.

Lemma store_flows p sender surbs db :
  (length (buffer db p) ≤ SURB_RB_CAPACITY)%nat →
  let db' := (store_surbs sender surbs db).1 in
  (length (buffer db' p) ≤ SURB_RB_CAPACITY)%nat ∧
  flows p True (buffer db p) (if decide (sender = p) then surbs else []) [] (buffer db' p).
Proof.
  intros Hcap. cbv zeta. unfold store_surbs, modify, buffer. cbn [fst surbs_per_pseudonym set_surbs_per_pseudonym].
  destruct (decide (sender = p)) as [->|Hne].
  - rewrite lookup_insert_eq. cbn [default from_option id]. split; [apply length_rb_push|].
    unfold flows, rb_push. cbn [app]. split; [apply sublist_drop|].
    intros _ _ _ Hl. rewrite length_app in Hl. replace (_ + _ - _)%nat with 0%nat by lia. done.
  - rewrite lookup_insert_ne by done. split; [done|]. unfold flows. by rewrite app_nil_r.
Qed.

Lemma find_flows p m db db' o :
  find_surb m db = (db', o) → (length (buffer db p) ≤ SURB_RB_CAPACITY)%nat →
  (length (buffer db' p) ≤ SURB_RB_CAPACITY)%nat ∧
  ∃ popped, of_pseudonym p (match o with Ok (i, s) => [(matcher_pseudonym m, (i, s))] | _ => [] end) = under p <$> popped ∧
    flows p True (buffer db p) [] popped (buffer db' p).
Proof.
  intros Hf Hcap. apply find_surb_cases in Hf as [[-> [e ->]]|(x & rb & Hb & -> & Ho)]; cbv zeta in *.
  { split; [done|]. exists []. split; [done|]. unfold flows. by rewrite app_nil_r. }
  set (q := matcher_pseudonym m) in *. destruct (decide (q = p)) as [->|Hne].
  - assert (buffer (set_surbs_per_pseudonym (<[p:=rb]> (surbs_per_pseudonym db)) db) p = rb) as Hrb.
    { unfold buffer. cbn. by rewrite lookup_insert_eq. }
    rewrite Hb in Hcap |- *. cbn [length] in Hcap. destruct x as [i s], Ho as [->|[-> Hl]]; rewrite Hrb; (split; [lia|]).
    + exists [(i, s)]. unfold under, of_pseudonym, flows. cbn [fst snd fmap list_fmap]. rewrite filter_cons_True by done. by rewrite app_nil_r.
    + exists []. split; [done|]. unfold flows. rewrite app_nil_r. split; [by constructor|].
      intros _ Hp [Hi _]%Forall_cons. by destruct Hl.
  - assert (buffer (set_surbs_per_pseudonym (<[q:=rb]> (surbs_per_pseudonym db)) db) p = buffer db p) as Hrb.
    { unfold buffer. cbn. by rewrite lookup_insert_ne. }
    destruct x as [i s], Ho as [->|[-> _]]; rewrite Hrb; (split; [done|]); exists [];
      unfold under, of_pseudonym, flows; cbn [fst snd]; rewrite ?filter_cons_False by done; by rewrite app_nil_r.
Qed.

(** The entries after a lookup are those before it. *)
Lemma find_entries m db db' o p :
  find_surb m db = (db', o) → surbs_per_pseudonym db' !! p = None ↔ surbs_per_pseudonym db !! p = None.
Proof.
  intros [[-> _]|(x & rb & Hb & -> & _)]%find_surb_cases; cbv zeta in *; [done|]. cbn.
  destruct (decide (matcher_pseudonym m = p)) as [<-|Hne]; [|by rewrite lookup_insert_ne].
  rewrite lookup_insert_eq. unfold buffer in Hb. destruct (surbs_per_pseudonym db !! matcher_pseudonym m); [by split|discriminate Hb].
Qed.

Lemma flows_kept p (k k' : Prop) b s popped a : (k' → k) → flows p k b s popped a → flows p k' b s popped a.
Proof. intros Hk [Hs He]. split; [done|]. intros Hk' Hp Hf Hl. apply He; auto. Qed.

Lemma expire_short now q p c :
  (length (buffer (sc_db c) p) ≤ SURB_RB_CAPACITY)%nat → (length (buffer (sc_db (expire_surbs now q c)) p) ≤ SURB_RB_CAPACITY)%nat.
Proof.
  intros Hcap. destruct (expire_flows now q p (sc_used c !! p) c) as [[Hs _] _]; [by right|].
  apply sublist_length in Hs. rewrite app_nil_r in Hs. cbn [app] in Hs. lia.
Qed.

Lemma evict_flows p q used now c c1 :
  evict_surbs q c = Some c1 → used_by p used c →
  flows p (in_time p used now (EvictSurbs q)) (buffer (sc_db c) p) [] [] (buffer (sc_db c1) p) ∧ used_by p used c1.
Proof.
  unfold evict_surbs. destruct (_ <? _); [|done]. intros [= <-] Hu.
  unfold forget_surbs, used_by, buffer. cbn [sc_db sc_used surbs_per_pseudonym set_surbs_per_pseudonym].
  destruct (decide (q = p)) as [->|Hne].
  - rewrite lookup_delete_eq. split; [|by left]. split; [apply sublist_nil_l|]. by intros [Hno _].
  - rewrite !lookup_delete_ne by done. split; [|done]. unfold flows. by rewrite app_nil_r.
Qed.

Lemma surb_step_ok now op c c1 out p used :
  surb_step now op c = Some (c1, out) → (length (buffer (sc_db c) p) ≤ SURB_RB_CAPACITY)%nat → used_by p used c →
  (length (buffer (sc_db c1) p) ≤ SURB_RB_CAPACITY)%nat ∧ used_by p (if uses p op then Some now else used) c1 ∧
  ∃ popped, of_pseudonym p out = under p <$> popped ∧
    flows p (in_time p used now op) (buffer (sc_db c) p) (stored_for p [(now, op)]) popped (buffer (sc_db c1) p).
Proof.
  intros Hstep Hcap Hu. destruct op as [sender surbs|m|q]; cbn [surb_step stored_for uses] in *.
  - injection Hstep as <- <-. destruct (expire_flows now sender p used c Hu) as [Hex Hu1].
    pose proof (expire_short now sender p c Hcap) as Hcap1. unfold store_surbs_at. cbn [sc_db].
    destruct (store_flows p sender surbs _ Hcap1) as [Hcap2 Hst]. split; [done|]. split.
    + unfold used_by. cbn [sc_db sc_used]. case_bool_decide as Hd; [subst; right; by rewrite lookup_insert_eq|].
      rewrite lookup_insert_ne by done. cbn. by rewrite lookup_insert_ne.
    + exists []. split; [done|]. rewrite app_nil_r.
      eapply flows_kept, (flows_trans _ _ _ _ _ _ _ _ _ _ Hex Hst). intros [_ Hk]. split; [|done].
      intros ->. apply Hk. by apply bool_decide_eq_true.
  - destruct (find_surb_at now m c) as [c' o] eqn:Hf. unfold find_surb_at in Hf.
    set (q := matcher_pseudonym m) in *. destruct (expire_flows now q p used c Hu) as [Hex Hu1].
    pose proof (expire_short now q p c Hcap) as Hcap1. set (c0 := expire_surbs now q c) in *.
    destruct (find_surb m (sc_db c0)) as [db' o'] eqn:Hrun. injection Hf as <- <-.
    destruct (find_flows p m _ _ _ Hrun Hcap1) as (Hcap2 & popped & Hpop & Hfl). fold q in Hpop.
    assert (c1 = mkSurbCache db' (if surbs_per_pseudonym (sc_db c0) !! q then <[q := now]> (sc_used c0) else sc_used c0) ∧
      of_pseudonym p out = under p <$> popped) as [-> Hout].
    { by destruct o' as [[i s]| |]; injection Hstep as <- <-. }
    cbn [sc_db]. split; [done|]. split.
    + unfold used_by. cbn [sc_db sc_used]. rewrite (find_entries _ _ _ _ p Hrun). case_bool_decide as Hd; [rewrite Hd|].
      * destruct (surbs_per_pseudonym (sc_db c0) !! p); [right; by rewrite lookup_insert_eq|by left].
      * destruct (surbs_per_pseudonym (sc_db c0) !! q); [by rewrite lookup_insert_ne|done].
    + exists popped. split; [done|]. eapply flows_kept, (flows_trans _ _ _ _ [] [] _ _ _ _ Hex Hfl). intros [_ Hk]. split; [|done].
      intros Hq. apply Hk. by apply bool_decide_eq_true.
  - apply bind_Some in Hstep as (c' & He & [= <- <-]). destruct (evict_flows p q used now c c' He Hu) as [Hfl Hu'].
    split; [|split; [done|by exists []]]. destruct Hfl as [Hs _]. apply sublist_length in Hs. rewrite app_nil_r in Hs. cbn [app] in Hs. lia.
Qed.

(** C29. Reply blocks are used at most once, oldest first: over any history of
    stores, lookups and evictions at their instants, what was handed out for a
    pseudonym, followed by what is still buffered, is a subsequence of what was
    buffered and stored; the buffer never exceeds its capacity; and nothing is
    lost where the pseudonym is never evicted from the cache (which happens only
    above 10,000 pseudonyms) and never unused for ten minutes, the capacity of
    its buffer suffices and the identifiers have their lengths. *)
Theorem surbs_used_once (ops : list (SystemTime * SurbOp)) (c c' : SurbCache) out (p : HoprPseudonym) :
  surb_run ops c = Some (c', out) → (length (buffer (sc_db c) p) ≤ SURB_RB_CAPACITY)%nat →
  (length (buffer (sc_db c') p) ≤ SURB_RB_CAPACITY)%nat ∧
  ∃ popped, of_pseudonym p out = under p <$> popped ∧
    flows p (undisturbed p (sc_used c !! p) ops) (buffer (sc_db c) p) (stored_for p ops) popped (buffer (sc_db c') p).
Proof.
  assert (used_by p (sc_used c !! p) c) as Hu by by right. revert Hu. generalize (sc_used c !! p) as used.
  revert c out. induction ops as [|[now op] ops IH]; intros c out used Hu Hrun Hcap; cbn [surb_run] in Hrun.
  { injection Hrun as <- <-. split; [done|]. exists []. split; [done|]. unfold flows. by rewrite app_nil_r. }
  apply bind_Some in Hrun as ([c1 o1] & Hstep & Hrun). apply bind_Some in Hrun as ([c2 o2] & Hrest & [= <- <-]).
  destruct (surb_step_ok _ _ _ _ _ p used Hstep Hcap Hu) as (Hcap1 & Hu1 & p1 & Ho1 & Hf1).
  destruct (IH _ _ _ Hu1 Hrest Hcap1) as (Hcap2 & p2 & Ho2 & Hf2). split; [done|]. exists (p1 ++ p2). split.
  - by rewrite of_pseudonym_app, fmap_app, Ho1, Ho2.
  - assert (stored_for p ((now, op) :: ops) = stored_for p [(now, op)] ++ stored_for p ops) as ->.
    { destruct op; cbn; by rewrite ?app_nil_r. }
    exact (flows_trans _ _ _ _ _ _ _ _ _ _ Hf1 Hf2).
Qed.
End Surbs.

(** ** Acknowledgements *)
Section Acks.
Context `{!Secp256k1, !Secp256k1Laws} `{!Curve25519} `{!Ed25519} `{!HexCodec, !HexCodecLaws}.
Context `{!ScanOrder, !ScanOrderLaws} `{!Multiaddrs} `{!FloatCmp}.
#[local] Set Default Proof Using "Type*".

(** What reading the database leaves alone. *)
Record reads (db db' : HoprDb) : Prop := {
  rd_index : index_db db' = index_db db;
  rd_tickets : ticket_manager db' = ticket_manager db;
  rd_unacked : unacked_tickets db' = unacked_tickets db;
  rd_me : me_onchain db' = me_onchain db;
  rd_key : chain_key db' = chain_key db
}.

#[export] Instance reads_preorder : PreOrder reads.
Proof. split; [by split|]. intros a b c [] []. split; congruence. Qed.

(** Computations that change no state, and the fetches made of them. *)
Definition still {S E A} (m : SM S E A) : Prop := ∀ s, (m s).1 = s.

Lemma still_bind {S E A B} (m : SM S E A) (k : A → SM S E B) : still m → (∀ a, still (k a)) → still (m ≫= k).
Proof. intros Hm Hk s. unfold mbind, SM_bind. specialize (Hm s). destruct (m s) as [s' [a| |]]; cbn in *; subst; [apply Hk|done..]. Qed.

Lemma still_match {S E A B} (o : option A) (k : A → SM S E B) (n : SM S E B) :
  (∀ a, still (k a)) → still n → still (match o with Some a => k a | None => n end).
Proof. by destruct o. Qed.

Ltac still := repeat first [done | apply still_bind; [|intros ?] | apply still_match; [intros ?|] ].

Definition fetch_only {A} (m : SM HoprDb DbSqlError A) : Prop := ∃ f, ∀ db, m db = (db, f (index_db db)).

Lemma fetch_only_tx {A} (m : SM IndexDb DbSqlError A) : still m → fetch_only (index_tx m).
Proof.
  intros Hm. exists (λ d, (m d).2). intros db. unfold index_tx. specialize (Hm (index_db db)).
  destruct (m (index_db db)) as [d [a| |]]; cbn in *; subst; by destruct db.
Qed.

Lemma fetch_channel_only src dst : fetch_only (fetch_channel src dst).
Proof. apply fetch_only_tx. unfold find_channel. still. Qed.

Lemma fetch_indexer_data_only : fetch_only fetch_indexer_data.
Proof. apply fetch_only_tx. still. Qed.

Lemma try_get_reads {A} look (store : A → HoprDb → HoprDb) fetch db db' o :
  fetch_only fetch → (∀ v db, reads db (store v db)) → try_get_with look store fetch db = (db', o) → reads db db'.
Proof.
  intros [f Hf] Hs. unfold try_get_with. destruct (look db); [by intros [= <- _]|].
  rewrite Hf. destruct (f (index_db db)); intros [= <- _]; [apply Hs|done..].
Qed.

Lemma get_channel_reads src dst uc db db' o : get_channel_by_parties src dst uc db = (db', o) → reads db db'.
Proof.
  unfold get_channel_by_parties. destruct uc.
  - apply try_get_reads; [apply fetch_channel_only|done].
  - destruct (fetch_channel_only src dst) as [f Hf]. rewrite Hf. by intros [= <- _].
Qed.

Lemma get_channel_data src dst uc db db' o :
  get_channel_by_parties src dst uc db = (db', o) → indexer_data_cache db' = indexer_data_cache db.
Proof.
  unfold get_channel_by_parties, try_get_with. destruct (fetch_channel_only src dst) as [f Hf].
  destruct uc; [|rewrite Hf; by intros [= <- _]]. destruct (src_dst_to_channel db !! (src, dst)); [by intros [= <- _]|].
  rewrite Hf. destruct (f (index_db db)); by intros [= <- _].
Qed.

Lemma get_indexer_data_reads db db' o : get_indexer_data db = (db', o) → reads db db'.
Proof. apply try_get_reads; [apply fetch_indexer_data_only|done]. Qed.

(** Translated keys depend on the tables and on the cached entry. *)
Definition chain_key_cached (k : OffchainPublicKey) (db : HoprDb) : option (option Address) :=
  offchain_to_chain db !! opk_compressed k.

Definition chain_key_row (p : bytes) : SM IndexDb DbSqlError (option Address) :=
  d ← get;
  match hd_error (scan (filter (λ a, bool_decide (am_packet_key a = to_hex p)) (accounts d))) with
  | Some m => k ← lift (map_err NonSpecificError (Address_from_hex (am_chain_key m))); mret (Some k)
  | None => mret None
  end.

Lemma resolve_chain_key_run :
  ∃ f : bytes → IndexDb → DR (option Address), ∀ k db, resolve_chain_key k db =
    match chain_key_cached k db with
    | Some a => (db, Ok a)
    | None =>
        match f (opk_compressed k) (index_db db) with
        | Ok a => (set_offchain_to_chain (<[opk_compressed k := a]> (offchain_to_chain db)) db, Ok a)
        | Err e => (db, Err (CacheError e))
        | Panic => (db, Panic)
        end
    end.
Proof.
  assert (∀ p, still (chain_key_row p)) as Hstill by (intros p; unfold chain_key_row; still).
  exists (λ p d, (chain_key_row p d).2). intros k db.
  unfold resolve_chain_key, translate_key, chain_key_cached. rewrite run_bind.
  unfold try_get_with, mbind, SM_bind. destruct (offchain_to_chain db !! opk_compressed k) as [[a|]|]; [done|done|].
  change (fetch_chain_key k db) with (index_tx (chain_key_row (opk_compressed k)) db). unfold index_tx.
  specialize (Hstill (opk_compressed k) (index_db db)). destruct (chain_key_row _ _) as [d r]. cbn in Hstill |- *. subst d.
  destruct r as [[a|]|e|]; by destruct db.
Qed.

Lemma resolve_chain_key_reads k db db' o :
  resolve_chain_key k db = (db', o) →
  reads db db' ∧ src_dst_to_channel db' = src_dst_to_channel db ∧ indexer_data_cache db' = indexer_data_cache db.
Proof.
  destruct resolve_chain_key_run as [f Hf]. rewrite Hf.
  destruct (chain_key_cached k db); [|destruct (f _ (index_db db))]; by intros [= <- _].
Qed.

(** A second resolution sees the same as the first. *)
Lemma resolve_chain_key_again k k' db db1 db2 o a :
  resolve_chain_key k db = (db1, o) → resolve_chain_key k' db1 = (db2, Ok a) →
  (resolve_chain_key k' db).2 = Ok a.
Proof.
  intros Hrun1 Hrun2. destruct (resolve_chain_key_reads _ _ _ _ Hrun1) as (Hr & _). revert Hrun1 Hrun2.
  destruct resolve_chain_key_run as [f Hf]. rewrite !Hf, (rd_index _ _ Hr). unfold chain_key_cached.
  destruct (offchain_to_chain db !! opk_compressed k) as [v|] eqn:Hk;
    [|destruct (f (opk_compressed k) (index_db db)) as [v|e|] eqn:Hfk];
    intros Hrun1 Hrun2; injection Hrun1 as <- _; cbn [offchain_to_chain set_offchain_to_chain] in Hrun2;
    [|destruct (decide (opk_compressed k' = opk_compressed k)) as [He|Hne]|..].
  2: { rewrite He, lookup_insert_eq in Hrun2. rewrite He, Hk, Hfk. by simplify_eq. }
  2: rewrite lookup_insert_ne in Hrun2 by done.
  all: destruct (offchain_to_chain db !! opk_compressed k') as [w|]; [by simplify_eq|];
    destruct (f (opk_compressed k') (index_db db)); by simplify_eq.
Qed.

(** The tickets waiting to be stored. *)
Lemma insert_ticket_queue a m m' :
  insert_ticket a m = (m', Ok tt) → queue m' = queue m ++ [Insert a].
Proof.
  unfold insert_ticket. intros Hrun. step_Ok Hrun u Hu. unfold enqueue in Hu. autorewrite with run in Hu.
  destruct (incoming m) as [q|] eqn:Hq; [|done]. injection Hu as <- _.
  step_Ok Hrun v Hv.
  match type of Hv with unrealized_value ?s ?m = _ => pose proof (unrealized_value_frame s m) as Hf end.
  cbv zeta in Hf. rewrite Hv in Hf. destruct Hf as (_ & Hf & _). injection Hrun as <-. unfold queue. cbn in Hf |- *. by rewrite Hf, Hq.
Qed.

Lemma on_tickets_Ok {A} (f : SM TicketManager DbSqlError A) db db' a :
  on_tickets f db = (db', Ok a) → ∃ m', f (ticket_manager db) = (m', Ok a) ∧ db' = set_ticket_manager m' db.
Proof. unfold on_tickets. destruct (f _) as [m' o]. intros [= <- ->]. by exists m'. Qed.

Lemma on_tickets_unacked {A} (f : SM TicketManager DbSqlError A) db db' o :
  on_tickets f db = (db', o) → unacked_tickets db' = unacked_tickets db.
Proof. unfold on_tickets. destruct (f _) as [m' r]. by intros [= <- _]. Qed.

(** Everything after the pending entry was taken keeps the entries. *)
Definition keeps_unacked {A} (m : SM HoprDb DbSqlError A) : Prop := ∀ db, unacked_tickets (m db).1 = unacked_tickets db.

Lemma keeps_unacked_bind {A B} (m : SM HoprDb DbSqlError A) (k : A → SM HoprDb DbSqlError B) :
  keeps_unacked m → (∀ a, keeps_unacked (k a)) → keeps_unacked (m ≫= k).
Proof.
  intros Hm Hk s. unfold mbind, SM_bind. specialize (Hm s). destruct (m s) as [s' [a| |]]; cbn in *; [|done..].
  by rewrite Hk.
Qed.

Lemma keeps_unacked_reads {A} (m : SM HoprDb DbSqlError A) :
  (∀ db db' o, m db = (db', o) → reads db db') → keeps_unacked m.
Proof. intros Hm db. by apply rd_unacked, (Hm db _ (m db).2), surjective_pairing. Qed.

(** What a relayed ticket becomes, from the pending ticket and the share. *)
Definition redeemed_from (random : bytes) (a : Acknowledgement) (kp : ChainKeypair) (u : UnacknowledgedTicket)
    (t : AcknowledgedTicket) (win : bool) : Prop :=
  ∃ share ds, ack_key_share a = Ok share ∧ acknowledge u share = Ok t ∧
    AcknowledgedTicket_is_winning (E:=DbSqlError) random t kp ds = Ok win.

Lemma validate_acknowledgement_run random ack c db :
  ack_challenge ack = Ok c →
  unacked_tickets (validate_acknowledgement random ack db).1 = delete c (unacked_tickets db) ∧
  (unacked_tickets db !! c = None → validate_acknowledgement random ack db =
    (db, Err (AcknowledgementValidationError "received unexpected acknowledgement"))) ∧
  (∀ db' r, validate_acknowledgement random ack db = (db', Ok r) →
    ticket_manager db' = ticket_manager db ∧
    match unacked_tickets db !! c, r with
    | Some WaitingAsSender, Sending a => a = ack
    | Some (WaitingAsRelayer u), RelayingWin t => redeemed_from random ack (chain_key db) u t true
    | Some (WaitingAsRelayer u), RelayingLoss id =>
        ∃ t, redeemed_from random ack (chain_key db) u t false ∧ id = t_channel_id (ticket_of t)
    | _, _ => False
    end).
Proof.
  intros Hc. unfold validate_acknowledgement. rewrite Hc. cbn [map_err]. autorewrite with run. unfold db_some.
  destruct (unacked_tickets db !! c) as [pending|] eqn:Hp.
  2: { cbn [ok_or]. split; [by rewrite delete_id|]. split; done. }
  cbn [ok_or]. autorewrite with run. set (db1 := set_unacked_tickets (delete c (unacked_tickets db)) db).
  destruct pending as [|u]; [split; [done|]; split; [done|]; by intros db' r [= <- <-]|].
  split; [|split; [done|]].
  - change (delete c (unacked_tickets db)) with (unacked_tickets db1).
    assert (∀ m : SM HoprDb DbSqlError ResolvedAcknowledgement, keeps_unacked m →
      unacked_tickets (m db1).1 = unacked_tickets db1) as Hk by (intros m Hm; apply Hm). apply Hk.
    apply keeps_unacked_bind; [apply keeps_unacked_reads; intros ? ? ?; apply get_channel_reads|intros mc].
    apply keeps_unacked_bind; [by destruct mc as [ch|]; [apply keeps_unacked_bind|]|intros [|]; [|done]].
    apply keeps_unacked_bind; [apply keeps_unacked_reads; intros ? ? ?; apply get_indexer_data_reads|intros data].
    by repeat (apply keeps_unacked_bind; [done|intros ?]).
  - intros db' r Hrun. step_Ok Hrun mc Hmc. apply get_channel_reads in Hmc as [_ Hm1 _ _ _].
    step_Ok Hrun b Hb.
    assert (db2 = db0) as ->.
    { destruct mc as [ch|]; [step_Ok Hb ep Hep; pure_Ok Hep|]; by injection Hb as <- _. }
    destruct b; [|done]. step_Ok Hrun data Hdata. apply get_indexer_data_reads in Hdata as [_ Hm2 _ _ _].
    step_Ok Hrun ds Hds. pure_Ok Hds. step_Ok Hrun share Hshare. pure_Ok Hshare.
    step_Ok Hrun t Ht. pure_Ok Ht. step_Ok Hrun win Hwin. pure_Ok Hwin. injection Hrun as <- <-.
    split; [by rewrite Hm2, Hm1|]. apply map_err_Ok in Hshare, Ht.
    destruct win; [|exists t; split; [|done]]; by exists share, ds.
Qed.

(** An acknowledgement is consumed by the first attempt to redeem it,
    whatever comes of that attempt: the pending entry for its challenge is
    gone and every later attempt is refused.  A successful attempt had a
    pending entry: one of a packet the node sent itself queues nothing, one of
    a packet it relayed yields the acknowledged ticket and queues exactly that
    ticket if it won. *)
Theorem acknowledgement_consumed (random : bytes) (ack : Acknowledgement) (c : HalfKeyChallenge) (db db' : HoprDb) o :
  ack_challenge ack = Ok c → handle_acknowledgement random ack db = (db', o) →
  unacked_tickets db' = delete c (unacked_tickets db) ∧
  (∀ random', handle_acknowledgement random' ack db' =
    (db', Err (AcknowledgementValidationError "received unexpected acknowledgement"))) ∧
  (o = Ok tt →
    match unacked_tickets db !! c with
    | None => False
    | Some WaitingAsSender => ticket_manager db' = ticket_manager db
    | Some (WaitingAsRelayer u) => ∃ t win, redeemed_from random ack (chain_key db) u t win ∧
        queue (ticket_manager db') = queue (ticket_manager db) ++ (if win then [Insert t] else [])
    end).
Proof.
  intros Hc Hrun. destruct (validate_acknowledgement_run random ack c db Hc) as (Hdel & _ & Hok).
  assert (unacked_tickets db' = delete c (unacked_tickets db)) as Hun.
  { rewrite <-Hdel. unfold handle_acknowledgement, mbind, SM_bind in Hrun.
    destruct (validate_acknowledgement random ack db) as [db1 [r|e|]]; [|by injection Hrun as <- _..].
    destruct r; [by injection Hrun as <- _|by apply on_tickets_unacked in Hrun|by injection Hrun as <- _]. }
  split; [done|]. split.
  - intros random'. destruct (validate_acknowledgement_run random' ack c db' Hc) as (_ & Hno & _).
    unfold handle_acknowledgement, mbind, SM_bind. rewrite Hno; [done|]. by rewrite Hun, lookup_delete_eq.
  - intros ->. unfold handle_acknowledgement in Hrun. step_Ok Hrun r Hr. destruct (Hok _ _ Hr) as [Hm Hcase].
    destruct (unacked_tickets db !! c) as [[|u]|]; [|destruct r as [|t|id]|]; try done.
    + destruct r; [|done..]. by injection Hrun as <-.
    + apply on_tickets_Ok in Hrun as (m' & Hins & ->). apply insert_ticket_queue in Hins. rewrite Hm in Hins.
      by exists t, true.
    + destruct Hcase as (t & Ht & ->). injection Hrun as <-. exists t, false. by rewrite Hm, app_nil_r.
Qed.

(** A peer can make the node panic: an acknowledgement that it signed over
    a key share which is not a scalar other than zero is well-formed and passes
    the validation of the signature, and reading its challenge then panics
    before anything is looked up. *)
Theorem malformed_acknowledgement_panics `{!Ed25519Laws} (secret : bytes) (kp : OffchainKeypair) (share : HalfKey) :
  OffchainKeypair_from_secret secret = Ok kp → length share = HalfKey_SIZE → nonzero_scalar share = None →
  ∃ b ack, Acknowledgement_try_from (share ++ ed25519_sign kp share) = Ok b ∧ validate b (ok_public kp) = Ok ack ∧
    ∀ random db, handle_acknowledgement random ack db = (db, Panic).
Proof.
  intros Hkp Hl Hs. destruct (ack_accepted secret kp share Hkp Hl) as (_ & Ht & Hv & Hk).
  eexists _, _. split; [exact Ht|]. split; [exact Hv|]. intros random db.
  assert (ack_challenge (mkAck (share ++ ed25519_sign kp share) true) = Panic) as Hc.
  { unfold ack_challenge. rewrite Hk. cbn [mbind outcome_bind].
    unfold HalfKey_to_challenge, CurvePoint_from_exponent, PublicKey_from_privkey. by rewrite Hs. }
  unfold handle_acknowledgement, validate_acknowledgement. by rewrite Hc.
Qed.
End Acks.
(** ** Forwarded packets *)
Section Relay.
Context `{!Secp256k1, !Secp256k1Laws} `{!Curve25519} `{!Ed25519} `{!HexCodec, !HexCodecLaws}.
Context `{!ScanOrder, !ScanOrderLaws} `{!Multiaddrs} `{!FloatCmp}.
#[local] Set Default Proof Using "Type*".

Lemma get_channel_Ok entries (src dst : Address) db db' v :
  db_ok entries db → array_wf 20 src → array_wf 20 dst →
  get_channel_by_parties src dst true db = (db', Ok v) →
  v = entry_by_parties src dst entries ∧ db_ok entries db' ∧ reads db db'.
Proof.
  intros Hok Hs Hd Hrun. pose proof (get_channel_reads _ _ _ _ _ _ Hrun) as Hr.
  destruct (get_by_parties_ok entries src dst true db Hok Hs Hd) as (db1 & Hrun1 & Hok1).
  rewrite Hrun1 in Hrun. by injection Hrun as <- <-.
Qed.

Lemma get_indexer_data_src db db' o :
  get_indexer_data db = (db', o) → src_dst_to_channel db' = src_dst_to_channel db.
Proof.
  unfold get_indexer_data, try_get_with. destruct (indexer_data_cache db); [by intros [= <- _]|].
  destruct fetch_indexer_data_only as [f Hf]. rewrite Hf. destruct (f _); by intros [= <- _].
Qed.

Lemma get_indexer_data_frame db db1 db2 o :
  index_db db1 = index_db db → indexer_data_cache db1 = indexer_data_cache db → get_indexer_data db1 = (db2, o) →
  (get_indexer_data db).2 = o.
Proof.
  intros Hr Hc. unfold get_indexer_data, try_get_with. rewrite Hc. destruct (indexer_data_cache db); [by intros [= _ <-]|].
  destruct fetch_indexer_data_only as [f Hf]. rewrite !Hf, Hr. destruct (f _); by intros [= _ <-].
Qed.

Lemma index_wf_frame m m' :
  tickets_db m' = tickets_db m → index_cache m' = index_cache m →
  (index_wf m → index_wf m') ∧ ∀ c, current m' c = current m c.
Proof.
  intros Hd Hc. split; [intros [Hr Hx]; by split; rewrite ?Hd, ?Hc|].
  intros c. unfold current, stored_index. by rewrite Hd, Hc.
Qed.

(** The ticket for the next peer. *)
Definition next_ticket_ok (entries : list ChannelEntry) (m : TicketManager) (me next_peer : Address) (hops : Z)
    (wp : WinningProbability) (price : HoprBalance) (t : Ticket) : Prop :=
  t_channel_id t = generate_channel_id me next_peer ∧
  if 1 <? hops then
    ∃ ch value, entry_by_parties me next_peer entries = Some ch ∧
      U256_div_f64 (amount price * wrap 8 (wrap 8 hops - 1)) (as_f64 wp) = Ok value ∧
      t_amount t = mkBalance value ∧ value ≤ amount (balance ch) ∧
      t_index t = current m (get_id ch) ∧ t_channel_epoch t = channel_epoch ch ∧ t_encoded_win_prob t = wp
  else amount (t_amount t) = 0 ∧ t_encoded_win_prob t = NEVER.

Lemma U256_as_Ok_inv {E} w z x : U256_as (E:=E) w z = Ok x → x = z.
Proof. unfold U256_as. destruct (_ <? _); [by intros [= ->]|done]. Qed.

Lemma next_ticket_run entries (me next_peer : Address) hops wp price db db' b :
  db_ok entries db → index_wf (ticket_manager db) → array_wf 20 me → array_wf 20 next_peer →
  next_ticket me next_peer hops wp price db = (db', Ok b) →
  unacked_tickets db' = unacked_tickets db ∧
  ∀ c t sig, build (set_challenge c b) = Ok t →
    next_ticket_ok entries (ticket_manager db) me next_peer hops wp price (set_ticket_signature sig t) ∧ t_challenge t = c.
Proof.
  intros Hok Hix Hme Hnext Hrun. unfold next_ticket in Hrun. unfold next_ticket_ok. destruct (1 <? hops).
  - step_Ok Hrun mch Hmch. destruct (get_channel_Ok _ _ _ _ _ _ Hok Hme Hnext Hmch) as (-> & Hok0 & Hr0).
    step_Ok Hrun ch Hch. pure_Ok Hch. apply ok_or_Ok_inv in Hch.
    assert (entry_wf ch) as Hch'.
    { eapply entries_wf; [apply Hok|]. by apply (by_parties_iff _ _ _ _ _ (proj1 Hok)) in Hch as (? & _). }
    unfold create_multihop_ticket in Hrun. step_Ok Hrun tot Htot. pure_Ok Htot. step_Ok Hrun val Hv. pure_Ok Hv.
    apply map_err_Ok in Hv. unfold U256_mul in Htot. destruct (_ <=? _); [|done]. injection Htot as <-.
    destruct (Balance_ltb _ _) eqn:Hfunds; [done|]. apply Z.ltb_ge in Hfunds. cbn [amount] in Hfunds.
    step_Ok Hrun idx Hindex. apply on_tickets_Ok in Hindex as (m' & Hinc & ->).
    rewrite (rd_tickets _ _ Hr0) in Hinc.
    destruct (update_index_ok (ticket_manager db) (get_id ch) (λ i, wrap 64 (i + 1)) Hix (get_id_wf ch Hch'))
      as (m2 & Hrun2 & _); [by apply wrap_in_u|].
    unfold increment_outgoing_ticket_index in Hinc. rewrite Hrun2 in Hinc. injection Hinc as <- <-.
    step_Ok Hrun epoch Hep. pure_Ok Hep. apply U256_as_Ok_inv in Hep as ->. injection Hrun as <- <-.
    split; [apply (rd_unacked _ _ Hr0)|]. intros c t sig (i & chl & Hc & [= <-] & amt & Ha & _ & _ & _ & ->)%build_Ok.
    cbn in Hc, Ha |- *. injection Hc as <-. destruct (_ <? _); [|done]. injection Ha as <-. split; [|done].
    split; [done|]. by exists ch, val.
  - injection Hrun as <- <-. split; [done|]. intros c t sig (i & chl & Hc & [= <-] & amt & Ha & _ & _ & _ & ->)%build_Ok.
    cbn in Hc, Ha |- *. injection Hc as <-. by injection Ha as <-.
Qed.
(** What the node believes to be unrealized in a channel. *)
Definition unrealized_of (ch : ChannelEntry) (m : TicketManager) : HoprBalance :=
  match unrealized_cache m !! (get_id ch, channel_epoch ch) with
  | Some v => v
  | None => saturated (total (filter (into_condition (selector_of_channel ch)) (tickets (tickets_db m))))
  end.

(** The incoming ticket of a forwarded packet pays for the rest of the path,
    out of a channel that still covers it. *)
Definition incoming_ticket_ok (entries : list ChannelEntry) (m : TicketManager) (previous me : Address)
    (path_pos : Z) (data : IndexerData) (ds : Hash) (t : Ticket) (vt : VerifiedTicket) : Prop :=
  ∃ ch price, entry_by_parties previous me entries = Some ch ∧ ticket_price data = Some price ∧
    t_channel_id t = get_id ch ∧ t_channel_epoch t = channel_epoch ch ∧ status ch ≠ Closed ∧
    vt = mkVerified t (get_hash t ds) previous ∧ VerifiedTicket_wf ds vt ∧
    Z.min (amount price * path_pos) U256_max ≤ amount (t_amount t) ∧
    amount (t_amount t) ≤ Z.max 0 (amount (balance ch) - amount (unrealized_of ch m)) ∧
    (f64_approx_eq (as_f64 (t_encoded_win_prob t)) (as_f64 (minimum_incoming_ticket_winning_prob data)) EPSILON = true ∨
     prob_numerator (minimum_incoming_ticket_winning_prob data) ≤ prob_numerator (t_encoded_win_prob t)).

Lemma build_signed_Ok b kp a ds vt :
  ChainKeypair_wf kp a → build_signed b kp ds = Ok vt →
  ∃ t sig, build b = Ok t ∧ leak vt = set_ticket_signature sig t ∧ VerifiedTicket_wf ds vt ∧
    verified_issuer vt = PublicKey_to_address (ck_public kp).
Proof.
  intros Hkp. unfold build_signed. destruct (b_signature b); [done|].
  destruct (build b) as [t| |]; [|done..]. cbn [mbind outcome_bind].
  destruct (sign_Ok (E:=CoreTypesError) t kp a ds Hkp) as (vt' & -> & Hwf & Hi & sig & Ht). intros [= <-].
  by exists t, sig.
Qed.

(** What the tickets depend on. *)
Lemma next_ticket_ok_frame entries m m' me next_peer hops wp price t :
  (∀ c, current m' c = current m c) →
  next_ticket_ok entries m' me next_peer hops wp price t → next_ticket_ok entries m me next_peer hops wp price t.
Proof.
  intros Hc. unfold next_ticket_ok. intros [Hid Hcase]. split; [done|]. destruct (1 <? hops); [|done].
  setoid_rewrite Hc in Hcase. done.
Qed.

Lemma incoming_accepted entries (previous me : Address) path_pos data ds t vt m m1 unr ch price d :
  channels_wf entries d → store_wf (tickets_db m) → array_wf 7 (t_encoded_win_prob t) →
  array_wf 7 (minimum_incoming_ticket_winning_prob data) →
  entry_by_parties previous me entries = Some ch → ticket_price data = Some price → t_channel_id t = get_id ch →
  unrealized_value (selector_of_channel ch) m = (m1, Ok unr) →
  validate_unacknowledged_ticket t ch (Balance_mul price (mkBalance path_pos))
    (minimum_incoming_ticket_winning_prob data) (Balance_sub (balance ch) unr) ds = Ok vt →
  incoming_ticket_ok entries m previous me path_pos data ds t vt.
Proof.
  intros Hwf Hst Hp Hmin Hch Hpr Hid Hunr Hval.
  assert (unr = unrealized_of ch m) as ->.
  { rewrite (unrealized_value_ok _ ((get_id ch : Hash), channel_epoch ch)) in Hunr by done. unfold unrealized_of.
    revert Hunr. by destruct (unrealized_cache m !! _) as [v|]; intros [= _ ->]. }
  apply validate_ticket_cases in Hval as (Hvt & Hw & [Hmi Hma] & Hwp & Hs & He); [|done..].
  assert (source ch = previous) as Hsrc by (by apply (by_parties_iff _ _ _ _ _ Hwf) in Hch as (_ & ? & _)).
  exists ch, price. rewrite Hsrc in Hvt. unfold Balance_sub, Balance_mul, U256_saturating_mul, U256_saturating_sub in *.
  cbn [amount] in *. split_and!; try done. lia.
Qed.

(** ** Relayed packets are paid *)
Lemma insert_ticket_Ok a m q :
  store_wf (tickets_db m) → incoming m = Some q → ∃ m', insert_ticket a m = (m', Ok tt).
Proof.
  intros Hwf Hq. unfold insert_ticket.
  assert (enqueue (Insert a) m = (set_incoming (Some (q ++ [Insert a])) m, Ok tt)) as He
    by (unfold enqueue; autorewrite with run; by rewrite Hq).
  rewrite (run_Ok _ _ _ _ _ He).
  set (key := ((t_channel_id (ticket_of a) : Hash), t_channel_epoch (ticket_of a))).
  pose proof (unrealized_value_ok (TicketSelector_new (t_channel_id (ticket_of a)) (t_channel_epoch (ticket_of a))) key
    (set_incoming (Some (q ++ [Insert a])) m) Hwf eq_refl) as Hu.
  cbn [unrealized_cache set_incoming] in Hu. destruct (unrealized_cache m !! key); rewrite (run_Ok _ _ _ _ _ Hu); by eexists.
Qed.

Lemma derive_vrf_no_panic random msg kp a dst : ChainKeypair_wf kp a → derive_vrf_parameters random msg kp dst ≠ Panic.
Proof.
  intros Hkp. destruct (ChainKeypair_scalar_wf _ _ Hkp) as [Hsc Ha]. unfold derive_vrf_parameters.
  destruct (hash_from_bytes _ _) as [B|]; [|done]. cbn [ok_or mbind outcome_bind]. rewrite Hsc.
  cbn [mbind outcome_bind]. rewrite (proj2 (Z.eqb_neq a 0)) by lia.
  destruct (hash_to_scalar_keccak _ _); [|done]. cbn [ok_or mbind outcome_bind]. by destruct (hash_to_scalar_keccak _ _).
Qed.

Lemma is_winning_Ok random (t : AcknowledgedTicket) kp a ds :
  ChainKeypair_wf kp a → VerifiedTicket_wf ds (Tickets.ack_ticket t) →
  ∃ win, AcknowledgedTicket_is_winning (E:=DbSqlError) random t kp ds = Ok win.
Proof.
  intros Hkp (_ & sig & pk & Hsig & _). unfold AcknowledgedTicket_is_winning, VerifiedTicket_is_winning.
  pose proof (derive_vrf_no_panic random (verified_hash (Tickets.ack_ticket t)) kp a ds Hkp).
  destruct (derive_vrf_parameters _ _ _ _); [|by exists false|done].
  unfold verified_signature. rewrite Hsig. by eexists.
Qed.

(** The two half keys of a relayed ticket open its challenge. *)
Lemma acknowledge_Ok (vt : VerifiedTicket) (own k : HalfKey) so sa :
  nonzero_scalar own = Some so → nonzero_scalar k = Some sa → (so + sa) `mod` group_order ≠ 0 →
  t_challenge (verified_ticket vt) = hop_challenge so sa →
  ∃ t, acknowledge (mkUnacknowledged vt own) k = Ok t ∧ Tickets.ack_ticket t = vt.
Proof.
  intros Hso Hsa Hne Hch. destruct (response_challenge so sa own k Hso Hsa Hne) as (r & Hr & Hc).
  unfold acknowledge. cbn [ua_own_key ua_ticket]. rewrite Hr. cbn [map_err mbind outcome_bind]. rewrite Hc.
  cbn [map_err mbind outcome_bind]. rewrite bool_decide_eq_true_2 by exact Hch. by eexists.
Qed.

(** What makes a pending ticket redeemable: its channel is still there in the
    same epoch, and the two half keys open its challenge. *)
Record redeemable_on (entries : list ChannelEntry) (db : HoprDb) (vt : VerifiedTicket) (own k : HalfKey) (ds : Hash) : Prop := {
  ro_db : db_ok entries db;
  ro_store : store_wf (tickets_db (ticket_manager db));
  ro_started : is_Some (incoming (ticket_manager db));
  ro_me : array_wf 20 (me_onchain db);
  ro_issuer : array_wf 20 (verified_issuer vt);
  ro_channel : ∃ ch, entry_by_parties (verified_issuer vt) (me_onchain db) entries = Some ch ∧
    channel_epoch ch = t_channel_epoch (verified_ticket vt) ∧ in_u 32 (channel_epoch ch);
  ro_data : ∃ data, (get_indexer_data db).2 = Ok data ∧ channels_dst data = Some ds;
  ro_ticket : VerifiedTicket_wf ds vt;
  ro_opens : ∃ so sa, nonzero_scalar own = Some so ∧ nonzero_scalar k = Some sa ∧ (so + sa) `mod` group_order ≠ 0 ∧
    t_challenge (verified_ticket vt) = hop_challenge so sa
}.

(** C8. Relaying is paid: when the node waits for the acknowledgement of a
    packet it relayed, the channel is still in the same epoch and the half
    keys open the challenge, then the acknowledgement of the next hop is
    accepted and yields the acknowledged ticket, which is queued for the
    ticket database exactly if it won. *)
Theorem relayed_packet_is_paid (random : bytes) (ack : Acknowledgement) (k own : HalfKey) (vt : VerifiedTicket)
    (ds : Hash) (a : Z) (entries : list ChannelEntry) (db : HoprDb) :
  redeemable_on entries db vt own k ds → ChainKeypair_wf (chain_key db) a →
  ack_key_share ack = Ok k →
  (∀ c, ack_challenge ack = Ok c → unacked_tickets db !! c = Some (WaitingAsRelayer (mkUnacknowledged vt own))) →
  ∃ db' t win, handle_acknowledgement random ack db = (db', Ok tt) ∧
    acknowledge (mkUnacknowledged vt own) k = Ok t ∧ Tickets.ack_ticket t = vt ∧
    AcknowledgedTicket_is_winning (E:=DbSqlError) random t (chain_key db) ds = Ok win ∧
    queue (ticket_manager db') = queue (ticket_manager db) ++ (if win then [Insert t] else []).
Proof.
  intros Hro Hkp Hk Hpend. destruct (ro_opens _ _ _ _ _ _ Hro) as (so & sa & Hso & Hsa & Hne & Hch).
  assert (ack_challenge ack = Ok (sec1_encode true (p_mul p_generator sa))) as Hc.
  { unfold ack_challenge. rewrite Hk. cbn [mbind outcome_bind]. by rewrite (half_key_challenge _ _ Hsa). }
  specialize (Hpend _ Hc). destruct (acknowledge_Ok vt own k so sa Hso Hsa Hne Hch) as (t & Ht & Hvt).
  assert (VerifiedTicket_wf ds (Tickets.ack_ticket t)) as Hwf by (rewrite Hvt; apply (ro_ticket _ _ _ _ _ _ Hro)).
  destruct (is_winning_Ok random t _ a ds Hkp Hwf) as [win Hwin].
  unfold handle_acknowledgement, validate_acknowledgement. rewrite Hc. cbn [map_err]. autorewrite with run.
  unfold db_some. rewrite Hpend. cbn [ok_or]. autorewrite with run. cbn [ua_ticket].
  match goal with |- context [set_unacked_tickets ?x db] => set (db1 := set_unacked_tickets x db) end.
  assert (db_ok entries db1) as Hok1 by (by apply (db_ok_frame entries db); [apply (ro_db _ _ _ _ _ _ Hro)|..]).
  destruct (ro_channel _ _ _ _ _ _ Hro) as (ch & Hent & Hep & Hb).
  destruct (get_by_parties_ok entries (verified_issuer vt) (me_onchain db) true db1 Hok1
    (ro_issuer _ _ _ _ _ _ Hro) (ro_me _ _ _ _ _ _ Hro)) as (db2 & Hget & _).
  rewrite (run_Ok _ _ _ _ _ Hget), Hent. autorewrite with run. rewrite U256_as_ok by done. autorewrite with run.
  rewrite Hep, Z.eqb_refl.
  pose proof (get_channel_reads _ _ _ _ _ _ Hget) as Hr.
  destruct (get_indexer_data db2) as [db3 o] eqn:Hdata.
  destruct (ro_data _ _ _ _ _ _ Hro) as (data & Hd & Hds).
  rewrite (get_indexer_data_frame db db2 db3 o (rd_index _ _ Hr) (get_channel_data _ _ _ _ _ _ Hget) Hdata) in Hd. subst o.
  assert (ticket_manager db3 = ticket_manager db) as Htm.
  { by rewrite (rd_tickets _ _ (get_indexer_data_reads _ _ _ Hdata)), (rd_tickets _ _ Hr). }
  autorewrite with run. rewrite (run_Ok _ _ _ _ _ Hdata), Hds. cbn [ok_or]. autorewrite with run.
  rewrite Hk. cbn [map_err]. autorewrite with run. rewrite Ht. cbn [map_err]. autorewrite with run.
  rewrite Hwin. autorewrite with run. destruct (ro_started _ _ _ _ _ _ Hro) as [q Hq]. destruct win.
  - destruct (insert_ticket_Ok t (ticket_manager db3) q) as [m' Hins].
    { rewrite Htm. apply (ro_store _ _ _ _ _ _ Hro). }
    { by rewrite Htm. }
    exists (set_ticket_manager m' db3), t, true. unfold on_tickets. rewrite Hins. split_and!; try done.
    apply insert_ticket_queue in Hins. cbn [ticket_manager set_ticket_manager]. by rewrite Hins, Htm.
  - exists db3, t, false. split_and!; try done. by rewrite Htm, app_nil_r.
Qed.
End Relay.
