(* ===== verification/NodeRuns.v ===== *)
(** * Concrete runs of the node database and the packet pipeline

    A signature scheme, a tag filter and an address parser that satisfy what
    is assumed of them, a database with two channels and two accounts, and the
    theorems of the node applied to it. *)
From Stdlib Require Import Floats.SpecFloat.
From stdpp Require Import gmap strings.
From S2P Require Import Prelude Primitives Crypto Channels Tickets WinProb SharedKeys Sphinx MetaPacket Por Packet PacketSpec.
From S2P Require Import TicketStore TicketStoreSpec TicketIndexSpec TicketStoreRuns NodeDb NodeDbSpec.
From S2P Require Import Protocol ProtocolSpec NodeProtocol NodeProtocolSpec.

#[local] Existing Instances Z3_curve Z3_curve_laws toy_kdf toy_curve toy_curve_laws.
#[local] Existing Instances plain_hex plain_hex_laws table_order table_order_laws.

#[local] Instance plain_addresses : Multiaddrs :=
  {| Multiaddr := string; parse_multiaddr := Some; multiaddr_to_string := λ s, s |}.

#[local] Instance exact_floats : FloatCmp := λ a b _, SFeqb a b.

(** A signature that anyone can make, but that depends on key and message. *)
Definition toy_signature (pk : OffchainPublicKey) (m : bytes) : bytes :=
  Hash_create [opk_compressed pk; m] ++ Hash_create [m].
#[local] Instance toy_ed25519 : Ed25519 := {|
  ed25519_sign := λ kp m, toy_signature (ok_public kp) m;
  ed25519_verify := λ pk m s, bool_decide (s = toy_signature pk m)
|}.

#[local] Instance toy_ed25519_laws : Ed25519Laws.
Proof.
  split; cbn.
  - intros kp m. unfold toy_signature. rewrite length_app. pose proof (Hash_create_wf [opk_compressed (ok_public kp); m]) as [Hl1 _]. pose proof (Hash_create_wf [m]) as [Hl2 _]. exact (f_equal2 Nat.add Hl1 Hl2).
  - intros secret kp m _. by rewrite bool_decide_eq_true_2.
Qed.

(** An exact filter. *)
#[local] Instance exact_filter : Bloom := {|
  bloom := list bytes;
  bloom_new := λ _, [];
  bloom_clear := λ _, [];
  bloom_set := λ t b, t :: b;
  bloom_check := λ t b, bool_decide (t ∈ b)
|}.

#[local] Instance exact_filter_laws : BloomLaws.
Proof.
  split; cbn; intros.
  - apply bool_decide_eq_true_2. by left.
  - apply bool_decide_eq_true_2. right. by eapply bool_decide_eq_true.
Qed.

Lemma acknowledgement_roundtrip_witness :
  ∃ a b, Acknowledgement_new (E:=CoreTypesError) (Z3_scalar_to_bytes 1) (toy_node 1) = Ok a ∧
    Acknowledgement_try_from (ack_data a) = Ok b ∧ validate b (ok_public (toy_node 1)) = Ok a.
Proof.
  destruct (acknowledgement_roundtrip (replicate 32 1) (toy_node 1) (Z3_scalar_to_bytes 1))
    as (a & b & Hn & _ & Ht & _ & Hv & _); [by_eval|by_eval|].
  exists a, b. split; [exact Hn|]. split; [exact Ht|exact Hv].
Defined.

Lemma tag_filter_detects_replays_witness :
  let f := with_capacity 3 in
  (check_and_set [1] (present [[2]; [3]] (check_and_set [1] f).1)).2 = true.
Proof.
  apply (tag_filter_detects_replays [1] [[2]; [3]] (with_capacity 3)); [split; by_check|by_check].
Defined.

(** ** A database with two channels *)
Definition toy_previous : Address := PublicKey_to_address (ck_public (toy_key 1)).
Definition toy_me : Address := PublicKey_to_address (ck_public (toy_key 2)).
Definition toy_next : Address := replicate 20 7.

Definition toy_accounts : list AccountModel :=
  [mkAccountModel 1 (to_hex toy_previous) (to_hex (opk_compressed (ok_public (toy_node 1)))) 0;
   mkAccountModel 2 (to_hex toy_next) (to_hex (opk_compressed (ok_public (toy_node 9)))) 0].

Definition toy_chain_info : ChainInfoModel :=
  mkChainInfo None None (Some toy_ds) (Some (U256_to_be_bytes 10)) (f64_as_f32 f64_one) false 0.

Definition toy_db : HoprDb :=
  mkHoprDb (mkIndexDb [] toy_accounts [] (Some toy_chain_info) (Some node_info_default) ∅ ∅ ∅ 3)
    empty_manager None None ∅ ∅ ∅ ∅ ∅ ∅ ∅ ∅ (toy_key 2) toy_me.

Definition toy_incoming : ChannelEntry := ChannelEntry_new toy_previous toy_me (mkBalance 500) 0 Open 1.
Definition toy_outgoing_channel : ChannelEntry := ChannelEntry_new toy_me toy_next (mkBalance 300) 0 Open 4.

Lemma toy_db_ok : db_ok [] toy_db.
Proof.
  split; [|by intros s d v _ _ Hl]. split; try constructor.
Qed.

Lemma toy_entries_wf : entry_wf toy_incoming ∧ entry_wf toy_outgoing_channel.
Proof. split; split; by_check || reflexivity. Qed.

Definition toy_calls : list ChannelOp :=
  [CUpsert toy_incoming; CUpsert toy_outgoing_channel; CRead toy_previous toy_me true;
   CEdit (get_id toy_incoming) [EditBalance (mkBalance 700)]; CRead toy_previous toy_me true].

Lemma channel_store_refines_witness :
  ∃ db', channel_run toy_calls toy_db =
    (db', Ok [None; None; Some toy_incoming; Some (edit_entry toy_incoming (EditBalance (mkBalance 700)));
              Some (edit_entry toy_incoming (EditBalance (mkBalance 700)))]).
Proof.
  assert (ops_ok toy_calls []) as Hops.
  { unfold toy_calls. cbn [ops_ok op_ok]. split.
    { split; [apply toy_entries_wf|]. intros e' He'. by apply elem_of_nil in He'. }
    split.
    { split; [apply toy_entries_wf|]. cbn [abs_step list_find app]. intros e' ->%list_elem_of_singleton Hid. exfalso. revert Hid. vm_compute. discriminate. }
    split; [split; by_check|]. split; [split; [by_check|constructor; [by_check|constructor]]|].
    split; [split; by_check|exact I]. }
  destruct (channel_store_refines toy_calls [] toy_db toy_db_ok Hops) as (db' & Hrun & _).
  exists db'. rewrite Hrun. by_eval.
Defined.

(** ** Keys *)
Definition toy_account (i at_block : Z) : AccountEntry :=
  mkAccount (ok_public (toy_node i)) toy_next NotAnnounced at_block.

Lemma key_binding_stable_witness :
  match update_key_id_binding (toy_account 9 5) toy_db with
  | (db', Ok _) => public_to_key_id db' !! opk_compressed (ok_public (toy_node 9)) = Some (key_id (toy_account 9 5))
  | _ => False
  end.
Proof.
  assert (bindings_wf toy_db) as Hwf.
  { split; intros x y; unfold toy_db; cbn [key_id_to_public public_to_key_id]; by rewrite lookup_empty. }
  pose proof (key_binding_stable (toy_account 9 5) toy_db Hwf) as Hb.
  destruct (update_key_id_binding (toy_account 9 5) toy_db) as [db' o] eqn:Hrun.
  assert (o = Ok tt) as -> by (change o with (db', o).2; rewrite <-Hrun; by_eval).
  destruct Hb as (_ & _ & Hk & _). exact Hk.
Defined.

Definition bound_db : HoprDb :=
  set_key_ids {[key_id (toy_account 9 5) := ok_public (toy_node 1)]}
    {[opk_compressed (ok_public (toy_node 1)) := key_id (toy_account 9 5)]} toy_db.

Lemma refused_account_resolves_witness :
  ∃ db' e, insert_account (toy_account 9 5) bound_db = (db', Err e) ∧
    resolve_packet_key toy_next db' = (db', Ok (Some (ok_public (toy_node 9)))).
Proof.
  destruct (refused_account_resolves (toy_account 9 5) bound_db (ok_public (toy_node 1))) as (db' & e & Hrun & _ & _ & Hp).
  - apply lookup_singleton_eq.
  - vm_compute. discriminate.
  - exists db', e. split; [exact Hrun|exact Hp].
Defined.

(** ** Reply blocks *)
Definition toy_pseudonym : HoprPseudonym := replicate 10 5.

Definition toy_surbs : list (bytes * SURB) := [(replicate 8 1, toy_block); (replicate 8 2, toy_block)].
Definition seconds (n : Z) : SystemTime := n * 10 ^ 9.

Lemma surbs_used_once_witness :
  ∃ c out popped,
    surb_run [(seconds 0, StoreSurbs toy_pseudonym toy_surbs); (seconds 599, FindSurb (Pseudonym toy_pseudonym));
              (seconds 1000, FindSurb (Exact (toy_pseudonym ++ replicate 8 1)))] (mkSurbCache toy_db ∅) = Some (c, out) ∧
    of_pseudonym toy_pseudonym out = under toy_pseudonym <$> popped ∧
    popped ++ buffer (sc_db c) toy_pseudonym = toy_surbs.
Proof.
  set (ops := [_; _; _]). assert (is_Some (surb_run ops (mkSurbCache toy_db ∅))) as [[c out] Hrun] by (eexists; reflexivity).
  destruct (surbs_used_once ops (mkSurbCache toy_db ∅) c out toy_pseudonym Hrun (Nat.le_0_l SURB_RB_CAPACITY)) as (_ & popped & Ho & _ & Hex).
  exists c, out, popped. split; [exact Hrun|]. split; [exact Ho|]. apply Hex; [|by_eval|apply (bool_decide_unpack _); vm_cast_no_check I|].
  - split; [split; [discriminate|intros _ t Ht; discriminate Ht]|].
    split; [split; [discriminate|intros _ t [= <-]; vm_compute; reflexivity]|].
    split; [split; [discriminate|intros _ t [= <-]; vm_compute; reflexivity]|exact I].
  - change (2 ≤ SURB_RB_CAPACITY)%nat. unfold SURB_RB_CAPACITY. lia.
Defined.

(** After ten minutes without a use the reply blocks are gone. *)
Example idle_surbs_lost :
  snd <$> surb_run [(seconds 0, StoreSurbs toy_pseudonym toy_surbs); (seconds 600, FindSurb (Pseudonym toy_pseudonym))]
    (mkSurbCache toy_db ∅) = Some [].
Proof. reflexivity. Qed.

(** ** Acknowledgements *)
Definition toy_ack : Acknowledgement :=
  match Acknowledgement_new (E:=Empty_set) (Z3_scalar_to_bytes 1) (toy_node 9) with Ok a => a | _ => mkAck [] false end.

Definition toy_challenge : HalfKeyChallenge :=
  match ack_challenge toy_ack with Ok c => c | _ => [] end.

Definition waiting_db : HoprDb := set_unacked_tickets {[toy_challenge := WaitingAsSender]} toy_db.

Lemma acknowledgement_consumed_witness :
  match handle_acknowledgement [3] toy_ack waiting_db with
  | (db', o) => o = Ok tt ∧ unacked_tickets db' = ∅ ∧ ticket_manager db' = empty_manager
  end.
Proof.
  destruct (handle_acknowledgement [3] toy_ack waiting_db) as [db' o] eqn:Hrun.
  destruct (acknowledgement_consumed [3] toy_ack toy_challenge waiting_db db' o) as (Hun & _ & Hok); [by_eval|exact Hrun|].
  assert (o = Ok tt) as Ho.
  { change o with (db', o).2. rewrite <-Hrun. by_eval. }
  split; [exact Ho|]. split.
  - rewrite Hun. by_eval.
  - specialize (Hok Ho). revert Hok. assert (unacked_tickets waiting_db !! toy_challenge = Some WaitingAsSender) as -> by by_eval.
    by intros ->.
Defined.

Lemma malformed_acknowledgement_panics_witness :
  ∃ b ack, Acknowledgement_try_from (replicate 32 0 ++ ed25519_sign (toy_node 9) (replicate 32 0)) = Ok b ∧
    validate b (ok_public (toy_node 9)) = Ok ack ∧ handle_acknowledgement [3] ack waiting_db = (waiting_db, Panic).
Proof.
  destruct (malformed_acknowledgement_panics (replicate 32 9) (toy_node 9) (replicate 32 0)) as (b & ack & Ht & Hv & Hp);
    [by_eval|by_eval|by_eval|].
  exists b, ack. split; [exact Ht|]. split; [exact Hv|apply Hp].
Defined.

(** ** A forwarded packet *)
Definition relay_db : HoprDb := (upsert_channel toy_outgoing_channel (upsert_channel toy_incoming toy_db).1).1.

Definition paid_ticket : Ticket :=
  match build_signed (set_challenge (replicate 20 1) (set_amount 100 (set_index 5
      (set_direction toy_previous toy_me TicketBuilder_default)))) (toy_key 1) toy_ds with
  | Ok vt => verified_ticket vt
  | _ => mkTicket [] (mkBalance 0) 0 0 [] 0 [] None
  end.

Definition paid_packet : HoprForwardedPacket :=
  mkForwarded (mkOutgoing [1; 2; 3] paid_ticket (ok_public (toy_node 9)) toy_challenge) (replicate 16 4)
    (Z3_scalar_to_bytes 1) (ok_public (toy_node 1)) (Z3_scalar_to_bytes 2) (replicate 20 8) 3.

Lemma relay_db_ok : db_ok [toy_incoming; toy_outgoing_channel] relay_db.
Proof.
  destruct (channel_step_ok [] (CUpsert toy_incoming) toy_db toy_db_ok) as (db1 & Hrun1 & Hok1).
  { split; [apply toy_entries_wf|]. intros e' He'. by apply elem_of_nil in He'. }
  cbn [channel_step abs_result] in Hrun1. apply run_Ok_inv in Hrun1 as (db1' & [] & Hup1 & [= ->]).
  destruct (channel_step_ok _ (CUpsert toy_outgoing_channel) db1 Hok1) as (db2 & Hrun2 & Hok2).
  { split; [apply toy_entries_wf|]. cbn [abs_step list_find app]. intros e' ->%list_elem_of_singleton Hid.
    exfalso. revert Hid. vm_compute. discriminate. }
  cbn [channel_step abs_result] in Hrun2. apply run_Ok_inv in Hrun2 as (db2' & [] & Hup2 & [= ->]).
  unfold relay_db. rewrite Hup1. cbn [fst]. rewrite Hup2. cbn [fst].
  assert (abs_step (CUpsert toy_outgoing_channel) (abs_step (CUpsert toy_incoming) []) =
    [toy_incoming; toy_outgoing_channel]) as He by by_eval.
  by rewrite He in Hok2.
Qed.

Lemma empty_index_wf : index_wf empty_manager.
Proof.
  split; cbn [outgoing_indices tickets_db empty_manager index_cache].
  - intros k b. by rewrite lookup_empty.
  - intros c i. by rewrite lookup_empty.
Qed.

Definition is_ok {E A} (o : outcome E A) : bool := match o with Ok _ => true | _ => false end.


(** ** A packet that was relayed *)
Definition relayed_ticket : VerifiedTicket :=
  match build_signed (set_challenge (hop_challenge 1 1) (set_amount 100 (set_index 5
      (set_direction toy_previous toy_me TicketBuilder_default)))) (toy_key 1) toy_ds with
  | Ok vt => vt
  | _ => toy_verified
  end.

Definition relaying_db : HoprDb :=
  set_unacked_tickets {[toy_challenge := WaitingAsRelayer (mkUnacknowledged relayed_ticket (Z3_scalar_to_bytes 1))]} relay_db.

Lemma db_ok_unacked entries x (db : HoprDb) : db_ok entries db → db_ok entries (set_unacked_tickets x db).
Proof. intros Hok. by apply (db_ok_frame entries db). Qed.

Lemma relayed_redeemable :
  redeemable_on [toy_incoming; toy_outgoing_channel] relaying_db relayed_ticket (Z3_scalar_to_bytes 1)
    (Z3_scalar_to_bytes 1) toy_ds.
Proof.
  split.
  - apply db_ok_unacked, relay_db_ok.
  - apply empty_manager_wf.
  - exists []. reflexivity.
  - by_check.
  - by_check.
  - exists toy_incoming. split; [by_eval|]. split; [by_eval|by_check].
  - assert (match (get_indexer_data relaying_db).2 with Ok d => bool_decide (channels_dst d = Some toy_ds) | _ => false end = true)
      as Hd by by_eval.
    destruct ((get_indexer_data relaying_db).2) as [d| |]; [|discriminate Hd..].
    exists d. split; [reflexivity|]. exact (bool_decide_unpack _ (Is_true_true_2 _ Hd)).
  - destruct (build_signed (set_challenge (hop_challenge 1 1) (set_amount 100 (set_index 5
      (set_direction toy_previous toy_me TicketBuilder_default)))) (toy_key 1) toy_ds) as [vt| |] eqn:Hb.
    + destruct (build_signed_Ok _ _ 1 _ _ (toy_key_wf 1 ltac:(lia)) Hb) as (_ & _ & _ & _ & Hwf & _).
      unfold relayed_ticket. rewrite Hb. exact Hwf.
    + exfalso. assert (is_ok (build_signed (set_challenge (hop_challenge 1 1) (set_amount 100 (set_index 5
        (set_direction toy_previous toy_me TicketBuilder_default)))) (toy_key 1) toy_ds) = true) as Ho by by_eval.
      rewrite Hb in Ho. discriminate Ho.
    + exfalso. assert (is_ok (build_signed (set_challenge (hop_challenge 1 1) (set_amount 100 (set_index 5
        (set_direction toy_previous toy_me TicketBuilder_default)))) (toy_key 1) toy_ds) = true) as Ho by by_eval.
      rewrite Hb in Ho. discriminate Ho.
  - exists 1, 1. split; [by_eval|]. split; [by_eval|]. split; [by_check|by_eval].
Qed.

Lemma relayed_packet_is_paid_witness :
  ∃ t win, (handle_acknowledgement [3] toy_ack relaying_db).2 = Ok tt ∧ Tickets.ack_ticket t = relayed_ticket ∧
    queue (ticket_manager (handle_acknowledgement [3] toy_ack relaying_db).1) = (if win : bool then [Insert t] else []).
Proof.
  destruct (relayed_packet_is_paid [3] toy_ack (Z3_scalar_to_bytes 1) (Z3_scalar_to_bytes 1) relayed_ticket toy_ds 2
    [toy_incoming; toy_outgoing_channel] relaying_db relayed_redeemable) as (db' & t & win & Hrun & _ & Ht & _ & Hq).
  - assert (chain_key relaying_db = toy_key 2) as -> by by_eval. apply toy_key_wf. lia.
  - by_eval.
  - intros c Hc. assert (ack_challenge toy_ack = Ok toy_challenge) as Hc' by by_eval.
    assert (c = toy_challenge) as -> by (injection (eq_trans (eq_sym Hc) Hc'); intros Heq; exact Heq).
    apply lookup_singleton_eq.
  - exists t, win. rewrite Hrun. split; [reflexivity|]. split; [exact Ht|]. exact Hq.
Defined.
