(* ===== verification/Indexer.v ===== *)
(** * The chain indexer: event handlers

    Models [chain/indexer/src/handlers.rs] with the key binding of
    [common/internal-types/src/announcement.rs] and the significant events of
    [chain/types/src/chain_events.rs]: every decoded contract event is one
    operation on the database of the node, the logs of a block are handled in
    one outer transaction.  The decoding of a log into an event is done by the
    code that alloy generates, a class of functions here. *)
From stdpp Require Import gmap strings.
From S2P Require Import Prelude Primitives Crypto Channels Tickets WinProb SharedKeys MetaPacket Packet.
From S2P Require Import TicketStore Protocol NodeDb.

(** ** Errors ([chain/indexer/src/errors.rs]) *)
Inductive CoreEthereumIndexerError :=
| ProcessError (what : string)
| DbApiError (e : DbSqlError)
| IndexerDbError (e : DbError)
| IndexerDbEntityError (e : DbEntityError)
| AbiError
| SolTypeError
| IndexerGeneralError (e : GeneralError)
| IndexerValidationError (what : string)
| AnnounceBeforeKeyBinding
| AnnounceEmptyMultiaddr
| UnsupportedKeyRebinding
| RevocationBeforeKeyBinding
| AccountEntrySignatureVerification
| ChannelDoesNotExist
| MFAModuleDoesNotExist
| UnknownContract (a : Address)
| MultiaddrParseError
| IndexerRpcError.

(** ** Contract events, as the bindings decode them *)
Module HoprAnnouncements.
Inductive HoprAnnouncementsEvents :=
| AddressAnnouncement (node : Address) (baseMultiaddr : string)
| KeyBinding (ed25519_sig_0 ed25519_sig_1 ed25519_pub_key : bytes) (chain_key : Address)
| RevokeAnnouncement (node : Address).
End HoprAnnouncements.

(** A balance is 96 bits wide, an index 48, a closure time 32. *)
Module HoprChannels.
Inductive HoprChannelsEvents :=
| ChannelBalanceDecreased (channelId : Hash) (newBalance : Z)
| ChannelBalanceIncreased (channelId : Hash) (newBalance : Z)
| ChannelClosed (channelId : Hash)
| ChannelOpened (source destination : Address)
| DomainSeparatorUpdated (domainSeparator : Hash)
| LedgerDomainSeparatorUpdated (ledgerDomainSeparator : Hash)
| OutgoingChannelClosureInitiated (channelId : Hash) (closureTime : Z)
| TicketRedeemed (channelId : Hash) (newTicketIndex : Z).
End HoprChannels.

(** Of the events that no handler looks at only the names are kept. *)
Module HoprToken.
Inductive HoprTokenEvents :=
| Approval (owner spender : Address) (value : Z)
| AuthorizedOperator
| Burned
| Minted
| RevokedOperator
| RoleAdminChanged
| RoleGranted
| RoleRevoked
| Sent
| Transfer (from to : Address) (value : Z).
End HoprToken.

Module HoprNetworkRegistry.
Inductive HoprNetworkRegistryEvents :=
| Deregistered (nodeAddress : Address)
| DeregisteredByManager (nodeAddress : Address)
| EligibilityUpdated (stakingAccount : Address) (eligibility : bool)
| NetworkRegistryStatusUpdated (isEnabled : bool)
| Registered (nodeAddress : Address)
| RegisteredByManager (nodeAddress : Address)
| RequirementUpdated
| RoleAdminChanged
| RoleGranted
| RoleRevoked.
End HoprNetworkRegistry.

Module HoprNodeSafeRegistry.
Inductive HoprNodeSafeRegistryEvents :=
| DergisteredNodeSafe (safeAddress nodeAddress : Address)
| DomainSeparatorUpdated (domainSeparator : Hash)
| RegisteredNodeSafe (safeAddress nodeAddress : Address).
End HoprNodeSafeRegistry.

(** A winning probability is 56 bits wide. *)
Module HoprWinningProbabilityOracle.
Inductive HoprWinningProbabilityOracleEvents :=
| OwnershipTransferStarted
| OwnershipTransferred
| WinProbUpdated (oldWinProb newWinProb : Z).
End HoprWinningProbabilityOracle.

Module HoprTicketPriceOracle.
Inductive HoprTicketPriceOracleEvents :=
| OwnershipTransferred
| TicketPriceUpdated (old new : Z).
End HoprTicketPriceOracle.

(** alloy: the check of a raw log and the decoding of the events.  Those of the
    management module are not looked at. *)
Class LogDecoder := {
  log_valid : list bytes → bytes → bool;
  HoprNodeManagementModuleEvents : Type;
  decode_announcements : list bytes → bytes → option HoprAnnouncements.HoprAnnouncementsEvents;
  decode_channels : list bytes → bytes → option HoprChannels.HoprChannelsEvents;
  decode_network_registry : list bytes → bytes → option HoprNetworkRegistry.HoprNetworkRegistryEvents;
  decode_token : list bytes → bytes → option HoprToken.HoprTokenEvents;
  decode_safe_registry : list bytes → bytes → option HoprNodeSafeRegistry.HoprNodeSafeRegistryEvents;
  decode_module : list bytes → bytes → option HoprNodeManagementModuleEvents;
  decode_price_oracle : list bytes → bytes → option HoprTicketPriceOracle.HoprTicketPriceOracleEvents;
  decode_win_prob_oracle : list bytes → bytes → option HoprWinningProbabilityOracle.HoprWinningProbabilityOracleEvents
}.

(** [chain/types/src/lib.rs]. *)
Record ContractAddresses := mkContracts {
  token : Address;
  channels_contract : Address;
  announcements_contract : Address;
  network_registry_contract : Address;
  network_registry_proxy : Address;
  safe_registry : Address;
  price_oracle : Address;
  win_prob_oracle : Address;
  stake_factory : Address;
  module_implementation : Address
}.

(** ** Key bindings ([internal-types/src/announcement.rs]) *)
Section KeyBindings.
Context `{!Curve25519} `{!Ed25519}.

Record KeyBinding := mkKeyBinding {
  kb_chain_key : Address;
  kb_packet_key : OffchainPublicKey;
  kb_signature : OffchainSignature
}.

(** A byte string literal. *)
Definition ascii_bytes (s : string) : bytes := (λ c, Z.of_N (Ascii.N_of_ascii c)) <$> String.list_ascii_of_string s.

Definition KEY_BINDING_TAG : bytes := ascii_bytes "HOPR_KEY_BINDING".
Definition SIGNING_SIZE : nat := 16 + 20 + 32.

Definition prepare_for_signing {E} (chain_key : Address) (packet_key : OffchainPublicKey) : outcome E bytes :=
  to_sign ← copy_from_slice 0 16 KEY_BINDING_TAG (replicate SIGNING_SIZE 0);
  to_sign ← copy_from_slice 16 36 chain_key to_sign;
  copy_from_slice 36 SIGNING_SIZE (opk_compressed packet_key) to_sign.

Definition KeyBinding_new {E} (chain_key : Address) (packet_key : OffchainKeypair) : outcome E KeyBinding :=
  to_sign ← prepare_for_signing chain_key (ok_public packet_key);
  Ok (mkKeyBinding chain_key (ok_public packet_key) (sign_message to_sign packet_key)).

Definition KeyBinding_from_parts (chain_key : Address) (packet_key : OffchainPublicKey)
    (signature : OffchainSignature) : outcome CoreTypesError KeyBinding :=
  to_verify ← prepare_for_signing chain_key packet_key;
  if verify_message signature to_verify packet_key then Ok (mkKeyBinding chain_key packet_key signature)
  else Err (CoreCryptoError SignatureVerification).
End KeyBindings.

(** ** Significant events ([chain/types/src/chain_events.rs]) *)
Inductive NetworkRegistryStatus := Allowed | Denied.

Section Handlers.
Context `{!Secp256k1} `{!Curve25519} `{!Ed25519} `{!HexCodec} `{!ScanOrder} `{!Multiaddrs} `{!FloatCmp} `{!LogDecoder}.

(** A peer id is an encoding of the public key, which stands for it here. *)
Inductive ChainEventType :=
| Announcement (peer : OffchainPublicKey) (address : Address) (multiaddresses : list Multiaddr)
| ChannelOpened (c : ChannelEntry)
| ChannelClosureInitiated (c : ChannelEntry)
| ChannelClosed (c : ChannelEntry)
| ChannelBalanceIncreased (c : ChannelEntry) (diff : HoprBalance)
| ChannelBalanceDecreased (c : ChannelEntry) (diff : HoprBalance)
| TicketRedeemed (c : ChannelEntry) (t : option AcknowledgedTicket)
| NodeSafeRegistered (safe : Address)
| NetworkRegistryUpdate (node : Address) (status : NetworkRegistryStatus).

Record SignificantChainEvent := mkSignificant { sce_tx_hash : Hash; event_type : ChainEventType }.

(** The handlers' own configuration; the database is the state. *)
Record ContractEventHandlers := mkHandlers {
  contract_addrs : ContractAddresses;
  monitored_safe : Address;
  handler_key : ChainKeypair
}.

Definition own_address (h : ContractEventHandlers) : Address := PublicKey_to_address (ck_public (handler_key h)).

Abbreviation IM := (SM HoprDb CoreEthereumIndexerError).

(** [?] on a database error, and on an error of the ticket operations. *)
Definition lift_err {S E F A} (f : E → F) (m : SM S E A) : SM S F A := λ s, let '(s', o) := m s in (s', map_err f o).
Abbreviation DB := (SM HoprDb DbSqlError).
Definition on_db {A} : DB A → IM A := lift_err DbApiError.
Definition ticket_db {A} (m : SM TicketManager DbSqlError A) : IM A :=
  lift_err (λ e, IndexerDbError (General e)) (on_tickets m).

(** ** Announcements *)
Definition on_announcement_event (event : HoprAnnouncements.HoprAnnouncementsEvents) (block_number : Z) :
    IM (option ChainEventType) :=
  match event with
  | HoprAnnouncements.AddressAnnouncement node baseMultiaddr =>
      if String.eqb baseMultiaddr "" then mret None
      else
        multiaddr ← lift (ok_or (parse_multiaddr baseMultiaddr) MultiaddrParseError);
        account ← lift_err (λ e, match e with MissingAccount => AnnounceBeforeKeyBinding | e => DbApiError e end)
          (insert_announcement (ChainKey node) multiaddr block_number);
        m ← lift (match get_multiaddr account with Some m => Ok m | None => Panic end);
        mret (Some (Announcement (public_key account) (chain_addr account) [m]))
  | HoprAnnouncements.KeyBinding sig_0 sig_1 ed25519_pub_key chain_key =>
      packet_key ← lift (map_err IndexerGeneralError (OffchainPublicKey_try_from ed25519_pub_key));
      match KeyBinding_from_parts chain_key packet_key (sig_0 ++ sig_1) with
      | Ok binding =>
          on_db (insert_account (mkAccount (kb_packet_key binding) (kb_chain_key binding) NotAnnounced block_number));;
          mret None
      | Err _ => mret None
      | Panic => lift Panic
      end
  | HoprAnnouncements.RevokeAnnouncement node =>
      lift_err (λ e, match e with MissingAccount => RevocationBeforeKeyBinding | e => DbApiError e end)
        (delete_all_announcements (ChainKey node));;
      mret None
  end.

(** ** Channels *)
Definition close_channel (h : ContractEventHandlers) (channel_edits : ChannelEditor) : IM (option ChainEventType) :=
  let channel_id := get_id (ce_orig channel_edits) in
  updated_channel ← (match orientation (ce_orig channel_edits) (own_address h) with
    | Some (direction, _) =>
        updated_channel ← on_db (finish_channel_update
          (change_ticket_index 0 (change_balance Balance_zero (change_status Closed channel_edits))));
        match direction with
        | Incoming =>
            ticket_db (mark_tickets_as (selector_of_channel updated_channel) Neglected);; mret updated_channel
        | Outgoing => ticket_db (reset_outgoing_ticket_index channel_id);; mret updated_channel
        end
    | None => on_db (finish_channel_update (editor_delete channel_edits))
    end);
  mret (Some (ChannelClosed updated_channel)).

Definition open_channel (h : ContractEventHandlers) (source destination : Address) : IM (option ChainEventType) :=
  let channel_id := generate_channel_id source destination in
  maybe_channel ← on_db (begin_channel_update channel_id);
  channel ← (match maybe_channel with
    | Some channel_edits =>
        if negb (ChannelStatus_eqb (status (ce_orig channel_edits)) Closed)
        then throw (ProcessError "trying to re-open channel which is not closed")
        else
          let current_epoch := channel_epoch (ce_orig channel_edits) in
          (if bool_decide (source = own_address h) || bool_decide (destination = own_address h) then
             ticket_db (mark_tickets_as (TicketSelector_new channel_id current_epoch) Neglected);;
             ticket_db (reset_outgoing_ticket_index channel_id);;
             mret tt
           else mret tt);;
          new_epoch ← lift (U256_add current_epoch 1);
          on_db (finish_channel_update
            (change_status Open (change_epoch new_epoch (change_ticket_index 0 channel_edits))))
    | None =>
        let new_channel := ChannelEntry_new source destination (mkBalance 0) 0 Open 1 in
        on_db (upsert_channel new_channel);; mret new_channel
    end);
  mret (Some (ChannelOpened channel)).

(** The ticket that was redeemed at this point. *)
Definition redeemed_at (newTicketIndex : Z) (ticket : AcknowledgedTicket) : bool :=
  let t := verified_ticket (Tickets.ack_ticket ticket) in
  wrap 64 (t_index t + t_index_offset t) =? newTicketIndex.

Definition redeem_incoming (entry : ChannelEntry) (newTicketIndex : Z) : IM (option AcknowledgedTicket) :=
  tickets ← ticket_db (get_tickets (with_state BeingRedeemed (selector_of_channel entry)));
  match filter (redeemed_at newTicketIndex) tickets with
  | [ack_ticket] => ticket_db (mark_tickets_as (selector_of_acknowledged ack_ticket) Redeemed);; mret (Some ack_ticket)
  | [] => mret None
  | _ => throw (ProcessError "multiple tickets matching idx found")
  end.

Definition redeem_ticket (h : ContractEventHandlers) (newTicketIndex : Z) (channel_edits : ChannelEditor) :
    IM (option ChainEventType) :=
  let entry := ce_orig channel_edits in
  ack_ticket ← (match direction entry (own_address h) with
    | Some Incoming => redeem_incoming entry newTicketIndex
    | Some Outgoing =>
        ticket_db (compare_and_set_outgoing_ticket_index (get_id entry) newTicketIndex);; mret None
    | None => mret None
    end);
  new_index ← lift (U256_from_be_bytes (to_be 6 newTicketIndex));
  channel ← on_db (finish_channel_update (change_ticket_index new_index channel_edits));
  ticket_db (mark_tickets_as
    (with_index_range Unbounded (Excluded newTicketIndex) (selector_of_channel channel)) Neglected);;
  mret (Some (TicketRedeemed channel ack_ticket)).

(** [begin_channel_update], and the error of the handlers without a channel. *)
Definition with_channel (channelId : Hash) (f : ChannelEditor → IM (option ChainEventType)) : IM (option ChainEventType) :=
  maybe_channel ← on_db (begin_channel_update channelId);
  match maybe_channel with
  | Some channel_edits => f channel_edits
  | None => throw ChannelDoesNotExist
  end.

Definition on_channel_event (h : ContractEventHandlers) (event : HoprChannels.HoprChannelsEvents) :
    IM (option ChainEventType) :=
  match event with
  | HoprChannels.ChannelBalanceDecreased channelId newBalance =>
      with_channel channelId (λ channel_edits,
        new_balance ← lift (Balance_from_be_bytes (to_be 12 newBalance));
        let diff := Balance_sub (balance (ce_orig channel_edits)) new_balance in
        updated_channel ← on_db (finish_channel_update (change_balance new_balance channel_edits));
        mret (Some (ChannelBalanceDecreased updated_channel diff)))
  | HoprChannels.ChannelBalanceIncreased channelId newBalance =>
      with_channel channelId (λ channel_edits,
        new_balance ← lift (Balance_from_be_bytes (to_be 12 newBalance));
        let diff := Balance_sub new_balance (balance (ce_orig channel_edits)) in
        updated_channel ← on_db (finish_channel_update (change_balance new_balance channel_edits));
        mret (Some (ChannelBalanceIncreased updated_channel diff)))
  | HoprChannels.ChannelClosed channelId => with_channel channelId (close_channel h)
  | HoprChannels.ChannelOpened source destination => open_channel h source destination
  | HoprChannels.TicketRedeemed channelId newTicketIndex => with_channel channelId (redeem_ticket h newTicketIndex)
  | HoprChannels.OutgoingChannelClosureInitiated channelId closureTime =>
      with_channel channelId (λ channel_edits,
        channel ← on_db (finish_channel_update (change_status (PendingToClose (closureTime * 10 ^ 9)) channel_edits));
        mret (Some (ChannelClosureInitiated channel)))
  | HoprChannels.DomainSeparatorUpdated domainSeparator =>
      on_db (set_domain_separator Channel domainSeparator);; mret None
  | HoprChannels.LedgerDomainSeparatorUpdated ledgerDomainSeparator =>
      on_db (set_domain_separator Ledger ledgerDomainSeparator);; mret None
  end.

(** ** Token, registries and oracles *)
Definition on_token_event (h : ContractEventHandlers) (event : HoprToken.HoprTokenEvents) :
    IM (option ChainEventType) :=
  match event with
  | HoprToken.Transfer from to value =>
      current_balance ← on_db get_safe_hopr_balance;
      transferred_value ← lift (Balance_from_be_bytes (to_be 32 value));
      if negb (bool_decide (to = monitored_safe h)) && negb (bool_decide (from = monitored_safe h)) then mret None
      else
        let current_balance :=
          if bool_decide (to = monitored_safe h) then Balance_add current_balance transferred_value
          else if bool_decide (from = monitored_safe h) then Balance_sub current_balance transferred_value
          else current_balance in
        on_db (set_safe_hopr_balance current_balance);; mret None
  | HoprToken.Approval owner spender value =>
      if bool_decide (owner = monitored_safe h) && bool_decide (spender = channels_contract (contract_addrs h)) then
        allowance ← lift (Balance_from_be_bytes (to_be 32 value));
        on_db (set_safe_hopr_allowance allowance);; mret None
      else mret None
  | _ => mret None
  end.

Definition on_network_registry_event (event : HoprNetworkRegistry.HoprNetworkRegistryEvents) :
    IM (option ChainEventType) :=
  match event with
  | HoprNetworkRegistry.DeregisteredByManager nodeAddress | HoprNetworkRegistry.Deregistered nodeAddress =>
      on_db (set_access_in_network_registry nodeAddress false);; mret (Some (NetworkRegistryUpdate nodeAddress Denied))
  | HoprNetworkRegistry.RegisteredByManager nodeAddress | HoprNetworkRegistry.Registered nodeAddress =>
      on_db (set_access_in_network_registry nodeAddress true);; mret (Some (NetworkRegistryUpdate nodeAddress Allowed))
  | HoprNetworkRegistry.EligibilityUpdated stakingAccount eligibility =>
      on_db (set_safe_eligibility stakingAccount eligibility);; mret None
  | HoprNetworkRegistry.NetworkRegistryStatusUpdated isEnabled =>
      on_db (set_network_registry_enabled isEnabled);; mret None
  | _ => mret None
  end.

Definition on_node_safe_registry_event (h : ContractEventHandlers)
    (event : HoprNodeSafeRegistry.HoprNodeSafeRegistryEvents) : IM (option ChainEventType) :=
  match event with
  | HoprNodeSafeRegistry.RegisteredNodeSafe safeAddress nodeAddress =>
      if bool_decide (own_address h = nodeAddress) then mret (Some (NodeSafeRegistered safeAddress)) else mret None
  | HoprNodeSafeRegistry.DergisteredNodeSafe _ _ => mret None
  | HoprNodeSafeRegistry.DomainSeparatorUpdated domainSeparator =>
      on_db (set_domain_separator SafeRegistry domainSeparator);; mret None
  end.

Definition on_node_management_module_event (event : HoprNodeManagementModuleEvents) : IM (option ChainEventType) :=
  mret None.

(** The selector of the unredeemed tickets on the incoming channels. *)
Fixpoint selector_of_channels (selector : option TicketSelector) (channels : list ChannelEntry) : option TicketSelector :=
  match channels with
  | [] => selector
  | channel :: channels =>
      selector_of_channels
        (match selector with
         | Some s => Some (also_on_channel (get_id channel) (channel_epoch channel) s)
         | None => Some (selector_of_channel channel)
         end) channels
  end.

Definition on_ticket_winning_probability_oracle_event
    (event : HoprWinningProbabilityOracle.HoprWinningProbabilityOracleEvents) : IM (option ChainEventType) :=
  match event with
  | HoprWinningProbabilityOracle.WinProbUpdated oldWinProb newWinProb =>
      let old_minimum_win_prob := to_be 7 oldWinProb in
      let new_minimum_win_prob := to_be 7 newWinProb in
      on_db (set_minimum_incoming_ticket_win_prob new_minimum_win_prob);;
      order ← lift (approx_cmp old_minimum_win_prob new_minimum_win_prob);
      match order with
      | Lt =>
          incoming_channels ← on_db get_incoming_channels;
          match selector_of_channels None incoming_channels with
          | Some selector =>
              ticket_db (mark_tickets_as
                (with_winning_probability Unbounded (Excluded new_minimum_win_prob) selector) Rejected);;
              mret None
          | None => mret None
          end
      | _ => mret None
      end
  | _ => mret None
  end.

Definition on_ticket_price_oracle_event (event : HoprTicketPriceOracle.HoprTicketPriceOracleEvents) :
    IM (option ChainEventType) :=
  match event with
  | HoprTicketPriceOracle.TicketPriceUpdated _ new =>
      price ← lift (Balance_from_be_bytes (to_be 32 new));
      on_db (update_ticket_price price);; mret None
  | HoprTicketPriceOracle.OwnershipTransferred => mret None
  end.

(** ** Logs and blocks *)
Definition decoded {A} (event : option A) (f : A → IM (option ChainEventType)) : IM (option ChainEventType) :=
  e ← lift (ok_or event SolTypeError); f e.

Definition process_log_event (h : ContractEventHandlers) (slog : SerializableLog) : IM (option ChainEventType) :=
  let addrs := contract_addrs h in
  let address := log_address slog in
  if negb (log_valid (log_topics slog) (log_data slog))
  then throw (ProcessError "failed to convert log to primitive log")
  else if bool_decide (address = announcements_contract addrs) then
    decoded (decode_announcements (log_topics slog) (log_data slog)) (λ e, on_announcement_event e (wrap 32 (block_number slog)))
  else if bool_decide (address = channels_contract addrs) then
    decoded (decode_channels (log_topics slog) (log_data slog)) (on_channel_event h)
  else if bool_decide (address = network_registry_contract addrs) then
    decoded (decode_network_registry (log_topics slog) (log_data slog)) on_network_registry_event
  else if bool_decide (address = token addrs) then
    decoded (decode_token (log_topics slog) (log_data slog)) (on_token_event h)
  else if bool_decide (address = safe_registry addrs) then
    decoded (decode_safe_registry (log_topics slog) (log_data slog)) (on_node_safe_registry_event h)
  else if bool_decide (address = module_implementation addrs) then
    decoded (decode_module (log_topics slog) (log_data slog)) on_node_management_module_event
  else if bool_decide (address = price_oracle addrs) then
    decoded (decode_price_oracle (log_topics slog) (log_data slog)) on_ticket_price_oracle_event
  else if bool_decide (address = win_prob_oracle addrs) then
    decoded (decode_win_prob_oracle (log_topics slog) (log_data slog)) on_ticket_winning_probability_oracle_event
  else throw (UnknownContract address).

(** The addresses and topics whose logs are fetched; the topics are the
    signature hashes of the generated events. *)
Definition contract_addresses (h : ContractEventHandlers) : list Address :=
  let a := contract_addrs h in
  [announcements_contract a; channels_contract a; module_implementation a; network_registry_contract a;
   price_oracle a; win_prob_oracle a; safe_registry a; token a].

(** The logs of a block, one after the other: an error is only logged, and what
    the log had changed until then is kept. *)
Fixpoint collect_logs (h : ContractEventHandlers) (logs : list SerializableLog) : IM (list SignificantChainEvent) := λ s,
  match logs with
  | [] => (s, Ok [])
  | log :: logs =>
      match process_log_event h log s with
      | (s', Ok (Some event_type)) =>
          (rest ← collect_logs h logs; mret (mkSignificant (tx_hash log) event_type :: rest)) s'
      | (s', Ok None) | (s', Err _) => collect_logs h logs s'
      | (s', Panic) => (s', Panic)
      end
  end.

(** In an outer transaction on the index database. *)
Definition collect_block_events (h : ContractEventHandlers) (logs : list SerializableLog) :
    IM (list SignificantChainEvent) := index_rollback (collect_logs h logs).

(** ** Running the calls *)
Lemma lift_err_Ok {S E F A} (f : E → F) (m : SM S E A) s s' a : m s = (s', Ok a) → lift_err f m s = (s', Ok a).
Proof. unfold lift_err. by intros ->. Qed.

Lemma on_db_Ok {A} (m : SM HoprDb DbSqlError A) s s' a : m s = (s', Ok a) → on_db m s = (s', Ok a).
Proof. apply lift_err_Ok. Qed.

Lemma ticket_db_frame {A} (m : SM TicketManager DbSqlError A) db db' o :
  ticket_db m db = (db', o) → db' = set_ticket_manager (ticket_manager db') db.
Proof. unfold ticket_db, lift_err, on_tickets. destruct (m (ticket_manager db)). by intros [= <- <-]. Qed.
End Handlers.
