(* ===== verification/IndexerSpec.v ===== *)
(** * The chain indexer: properties

    The handlers of channel events refine a step on a plain list of channel
    entries and a plain list of unredeemed tickets; a redeemed ticket is settled
    exactly; key bindings, the Safe balance and the minimum winning probability
    follow their events. *)
From stdpp Require Import gmap strings.
From S2P Require Import Prelude Primitives Crypto Channels Tickets WinProb SharedKeys MetaPacket Packet.
From S2P Require Import TicketStore TicketStoreSpec TicketIndexSpec TicketTable Protocol NodeDb NodeDbSpec Indexer.

Section ChannelEvents.
Context `{!Secp256k1} `{!Secp256k1Laws} `{!Curve25519} `{!Ed25519} `{!HexCodec, !HexCodecLaws}
  `{!ScanOrder, !ScanOrderLaws} `{!Multiaddrs} `{!FloatCmp} `{!LogDecoder}.
#[local] Set Default Proof Using "Type*".

(** ** The abstract indexer *)

(** A ticket of a channel and epoch. *)
Definition in_epoch (id : Hash) (epoch : Z) (a : AcknowledgedTicket) : bool :=
  bool_decide (t_channel_id (ticket_of a) = id) && (t_channel_epoch (ticket_of a) =? epoch).

(** The tickets with an index below the new one of a channel. *)
Definition superseded (e : ChannelEntry) (n : Z) (a : AcknowledgedTicket) : bool :=
  in_epoch (get_id e) (channel_epoch e) a && (t_index (ticket_of a) <? n).

(** The tickets being redeemed that end right before a new index. *)
Definition redeeming (e : ChannelEntry) (n : Z) (a : AcknowledgedTicket) : bool :=
  in_epoch (get_id e) (channel_epoch e) a && bool_decide (ack_status a = BeingRedeemed) &&
  (t_index (ticket_of a) + t_index_offset (ticket_of a) =? n).

(** The ticket that a redemption pays to a node, if any; more than one candidate
    is an error. *)
Definition redeem_result (e : ChannelEntry) (n : Z) (l : list AcknowledgedTicket) : option (option AcknowledgedTicket) :=
  match filter (redeeming e n) l with [] => Some None | [a] => Some (Some a) | _ => None end.
Definition redemption (own : Address) (e : ChannelEntry) (n : Z) (l : list AcknowledgedTicket) :
    option (option AcknowledgedTicket) :=
  if bool_decide (source e ≠ own) && bool_decide (destination e = own) then redeem_result e n l else Some None.

Definition View : Type := list ChannelEntry * list AcknowledgedTicket.

(** The entry of a channel is changed by edits, if there is one. *)
Definition on_entry (id : Hash) (entries : list ChannelEntry) (f : nat → ChannelEntry → View * option ChainEventType)
    (tickets : list AcknowledgedTicket) : View * option ChainEventType :=
  match list_find (λ e, get_id e = id) entries with
  | Some (i, e) => f i e
  | None => ((entries, tickets), None)
  end.

Definition edit_at (i : nat) (e : ChannelEntry) (edits : list ChannelEdit) (entries : list ChannelEntry) :
    list ChannelEntry := <[i := foldl edit_entry e edits]> entries.

Definition closing : list ChannelEdit := [EditStatus Closed; EditBalance Balance_zero; EditTicketIndex 0].
Definition reopening (e : ChannelEntry) : list ChannelEdit :=
  [EditTicketIndex 0; EditEpoch (channel_epoch e + 1); EditStatus Open].

(** What a channel event means for a node with address [own]. *)
Definition chain_step (own : Address) (event : HoprChannels.HoprChannelsEvents) (v : View) :
    View * option ChainEventType :=
  let '(entries, tickets) := v in
  match event with
  | HoprChannels.ChannelBalanceDecreased id b =>
      on_entry id entries (λ i e, let e' := foldl edit_entry e [EditBalance (mkBalance b)] in
        ((<[i := e']> entries, tickets), Some (ChannelBalanceDecreased e' (Balance_sub (balance e) (mkBalance b))))) tickets
  | HoprChannels.ChannelBalanceIncreased id b =>
      on_entry id entries (λ i e, let e' := foldl edit_entry e [EditBalance (mkBalance b)] in
        ((<[i := e']> entries, tickets), Some (ChannelBalanceIncreased e' (Balance_sub (mkBalance b) (balance e))))) tickets
  | HoprChannels.ChannelClosed id =>
      on_entry id entries (λ i e, let e' := foldl edit_entry e closing in
        if bool_decide (source e = own) then ((<[i := e']> entries, tickets), Some (ChannelClosed e'))
        else if bool_decide (destination e = own) then
          ((<[i := e']> entries, filter (λ a, negb (in_epoch id (channel_epoch e) a)) tickets), Some (ChannelClosed e'))
        else ((delete i entries, tickets), Some (ChannelClosed e))) tickets
  | HoprChannels.ChannelOpened src dst =>
      let id := generate_channel_id src dst in
      match list_find (λ e, get_id e = id) entries with
      | Some (i, e) =>
          if ChannelStatus_eqb (status e) Closed then
            let e' := foldl edit_entry e (reopening e) in
            ((<[i := e']> entries,
              if bool_decide (src = own) || bool_decide (dst = own)
              then filter (λ a, negb (in_epoch id (channel_epoch e) a)) tickets else tickets), Some (ChannelOpened e'))
          else (v, None)
      | None =>
          let e := ChannelEntry_new src dst Balance_zero 0 Open 1 in
          ((entries ++ [e], tickets), Some (ChannelOpened e))
      end
  | HoprChannels.TicketRedeemed id n =>
      on_entry id entries (λ i e, let e' := foldl edit_entry e [EditTicketIndex n] in
        match redemption own e n tickets with
        | Some t => ((<[i := e']> entries, filter (λ a, negb (superseded e n a)) tickets), Some (TicketRedeemed e' t))
        | None => (v, None)
        end) tickets
  | HoprChannels.OutgoingChannelClosureInitiated id t =>
      on_entry id entries (λ i e, let e' := foldl edit_entry e [EditStatus (PendingToClose (t * 10 ^ 9))] in
        ((<[i := e']> entries, tickets), Some (ChannelClosureInitiated e'))) tickets
  | HoprChannels.DomainSeparatorUpdated _ | HoprChannels.LedgerDomainSeparatorUpdated _ => (v, None)
  end.

(** The widths of the values of an event; no two channels with one identifier,
    and an epoch that can be advanced. *)
Definition event_ok (entries : list ChannelEntry) (event : HoprChannels.HoprChannelsEvents) : Prop :=
  match event with
  | HoprChannels.ChannelBalanceDecreased id b | HoprChannels.ChannelBalanceIncreased id b => array_wf 32 id ∧ in_u 96 b
  | HoprChannels.ChannelClosed id => array_wf 32 id
  | HoprChannels.ChannelOpened src dst =>
      array_wf 20 src ∧ array_wf 20 dst ∧
      ∀ e, e ∈ entries → get_id e = generate_channel_id src dst →
        source e = src ∧ destination e = dst ∧ channel_epoch e < U256_max
  | HoprChannels.TicketRedeemed id n => array_wf 32 id ∧ in_u 48 n
  | HoprChannels.OutgoingChannelClosureInitiated id t => array_wf 32 id ∧ in_u 32 t
  | HoprChannels.DomainSeparatorUpdated _ | HoprChannels.LedgerDomainSeparatorUpdated _ => True
  end.

(** The database shows the view. *)
Record indexed (v : View) (db : HoprDb) : Prop := {
  ix_channels : db_ok v.1 db;
  ix_tickets : holds v.2 (ticket_manager db);
  ix_indices : index_wf (ticket_manager db)
}.

(** ** The calls of the handlers *)
(** Changes of the index side leave the tickets alone but for the cache of
    unrealized values. *)
Definition tickets_kept (db db' : HoprDb) : Prop :=
  tickets_db (ticket_manager db') = tickets_db (ticket_manager db) ∧
  index_cache (ticket_manager db') = index_cache (ticket_manager db).

Lemma tickets_kept_indexed v db db' entries' :
  indexed v db → db_ok entries' db' → tickets_kept db db' → indexed (entries', v.2) db'.
Proof.
  intros [_ Ht Hi] Hok [Hd Hc]. split; [done| |].
  - by eapply holds_frame; [exact Ht|rewrite Hd..].
  - destruct Hi as [Hr Hca]. split; rewrite ?Hd, ?Hc; done.
Qed.

Lemma index_tx_kept {A} (tx : SM IndexDb DbSqlError A) db : ticket_manager (index_tx tx db).1 = ticket_manager db.
Proof. unfold index_tx. by destruct (tx (index_db db)) as [d [a|e|]]. Qed.

Lemma finish_update_kept ed db : tickets_kept db (finish_channel_update ed db).1.
Proof.
  unfold finish_channel_update, mbind at 1, SM_bind. set (tx := if ce_delete ed then _ else _).
  pose proof (index_tx_kept tx db) as Hk. destruct (index_tx tx db) as [db1 [a|e|]]; cbn in Hk; unfold tickets_kept; rewrite <-Hk; done.
Qed.

Lemma upsert_kept e db : tickets_kept db (upsert_channel e db).1.
Proof.
  unfold upsert_channel, mbind at 1, SM_bind.
  pose proof (index_tx_kept (upsert_channel_tx e) db) as Hk.
  destruct (index_tx (upsert_channel_tx e) db) as [db1 [a|err|]]; cbn in Hk; unfold tickets_kept; rewrite <-Hk; done.
Qed.

Lemma begin_run v (id : Hash) db :
  indexed v db → array_wf 32 id →
  match list_find (λ e, get_id e = id) v.1 with
  | Some (i, e) => ∃ m, v.1 !! i = Some e ∧ get_id e = id ∧ channels (index_db db) !! i = Some m ∧ row_of e m ∧
      on_db (begin_channel_update id) db = (db, Ok (Some (mkChannelEditor e m None None None None None false)))
  | None => on_db (begin_channel_update id) db = (db, Ok None)
  end.
Proof.
  intros Hix Hid. pose proof (begin_update_ok v.1 id db (proj1 (ix_channels _ _ Hix)) Hid) as Hb.
  destruct (list_find (λ e, get_id e = id) v.1) as [[i e]|] eqn:Hf; [|by apply lift_err_Ok].
  destruct Hb as (m & Hm & Hr & Hb). apply list_find_Some in Hf as (Hi & He & _).
  exists m. split_and!; [done..|]. by apply lift_err_Ok.
Qed.

Lemma finish_run v i e m edits db :
  indexed v db → v.1 !! i = Some e → channels (index_db db) !! i = Some m → row_of e m → Forall edit_wf edits →
  ∃ db', on_db (finish_channel_update (foldl edit_editor (mkChannelEditor e m None None None None None false) edits)) db =
      (db', Ok (foldl edit_entry e edits)) ∧
    indexed (<[i := foldl edit_entry e edits]> v.1, v.2) db' ∧ tickets_kept db db'.
Proof.
  intros Hix Hi Hm Hr Hx. destruct (finish_edit_ok v.1 db i e m edits (ix_channels _ _ Hix) Hi Hm Hr Hx) as (db' & Hrun & Hok).
  exists db'. pose proof (finish_update_kept (foldl edit_editor (mkChannelEditor e m None None None None None false) edits) db) as Hk.
  rewrite Hrun in Hk. split; [by apply lift_err_Ok|]. split; [|done]. by eapply tickets_kept_indexed.
Qed.

Lemma delete_run v i e m db :
  indexed v db → v.1 !! i = Some e → channels (index_db db) !! i = Some m → row_of e m →
  ∃ db', on_db (finish_channel_update (editor_delete (mkChannelEditor e m None None None None None false))) db =
      (db', Ok e) ∧ indexed (delete i v.1, v.2) db'.
Proof.
  intros Hix Hi Hm Hr. destruct (finish_delete_ok v.1 db i e m (ix_channels _ _ Hix) Hi Hm Hr) as (db' & Hrun & Hok).
  exists db'. pose proof (finish_update_kept (editor_delete (mkChannelEditor e m None None None None None false)) db) as Hk.
  rewrite Hrun in Hk. split; [by apply lift_err_Ok|]. by eapply tickets_kept_indexed.
Qed.

Lemma upsert_run v e db :
  indexed v db → op_ok v.1 (CUpsert e) → list_find (λ e', get_id e' = get_id e) v.1 = None →
  ∃ db', on_db (upsert_channel e) db = (db', Ok tt) ∧ indexed (v.1 ++ [e], v.2) db'.
Proof.
  intros Hix Hop Hf. destruct (channel_step_ok v.1 (CUpsert e) db (ix_channels _ _ Hix) Hop) as (db' & Hrun & Hok).
  cbn [channel_step abs_step] in Hrun, Hok. rewrite Hf in Hok. apply run_Ok_inv in Hrun as (db1 & [] & Hrun & [= ->]).
  exists db'. pose proof (upsert_kept e db) as Hk. rewrite Hrun in Hk.
  split; [by apply lift_err_Ok|]. by eapply tickets_kept_indexed.
Qed.

(** An operation of the ticket manager. *)
Lemma ticket_db_Ok {A} (f : SM TicketManager DbSqlError A) db m' a :
  f (ticket_manager db) = (m', Ok a) → ticket_db f db = (set_ticket_manager m' db, Ok a).
Proof. intros Hf. apply lift_err_Ok. unfold on_tickets. by rewrite Hf. Qed.

Lemma ticket_op_indexed v l' db m' :
  indexed v db → holds l' m' → index_wf m' → indexed (v.1, l') (set_ticket_manager m' db).
Proof. intros [Hc _ _] Ht Hi. split; [|done..]. by eapply db_ok_frame. Qed.

Lemma mark_run s mark v db :
  selector_typed s → indexed v db →
  ∃ db', ticket_db (mark_tickets_as s mark) db = (db', Ok (length (filter (selects s) v.2))) ∧
    indexed (v.1, filter (λ a, negb (selects s a)) v.2) db' ∧ index_db db' = index_db db ∧
    accounts_marked mark (filter (selects s) v.2) (tickets_db (ticket_manager db)) (tickets_db (ticket_manager db')).
Proof.
  intros Hs Hix. destruct (mark_holds s mark v.2 _ Hs (ix_tickets _ _ Hix)) as (m' & Hrun & Hh & Ha & Hc & _).
  eexists. split; [by apply ticket_db_Ok|]. split; [|done]. apply ticket_op_indexed; [done..|].
  destruct (ix_indices _ _ Hix) as [Hr Hca]. destruct Ha as (_ & _ & _ & _ & Ho).
  split; rewrite ?Hc, ?Ho; done.
Qed.

Lemma update_index_frame (c : Hash) (f : Z → Z) m :
  let m' := ((old ← get_outgoing_ticket_index c; store_index c (f old);; mret old) m).1 in
  tickets (tickets_db m') = tickets (tickets_db m) ∧ statistics (tickets_db m') = statistics (tickets_db m) ∧
  next_id (tickets_db m') = next_id (tickets_db m).
Proof.
  unfold get_outgoing_ticket_index. autorewrite with run. destruct (index_cache m !! c); [done|].
  destruct (outgoing_indices (tickets_db m) !! to_hex c) as [b|]; [|done].
  unfold mbind at 1, SM_bind, lift. by destruct (i ← U256_from_be_bytes b; U256_as 64 i).
Qed.

Lemma update_index_run (c : Hash) (f : Z → Z) v db :
  indexed v db → array_wf 32 c → in_u 64 (f (current (ticket_manager db) c)) →
  ∃ db' i, ticket_db (old ← get_outgoing_ticket_index c; store_index c (f old);; mret old) db = (db', Ok i) ∧
    indexed v db' ∧ index_db db' = index_db db ∧ current (ticket_manager db') c = f (current (ticket_manager db) c) ∧
    statistics (tickets_db (ticket_manager db')) = statistics (tickets_db (ticket_manager db)).
Proof.
  intros Hix Hc Hf. destruct (update_index_ok (ticket_manager db) c f (ix_indices _ _ Hix) Hc Hf) as (m' & Hrun & Hwf & Hcur & _).
  destruct (update_index_frame c f (ticket_manager db)) as (Ht & Hs & Hn). rewrite Hrun in Ht, Hs, Hn.
  eexists _, _. split; [by apply ticket_db_Ok|]. split; [|by split].
  destruct v as [entries l]. apply (ticket_op_indexed (entries, l) l); [done| |done].
  by eapply holds_frame; [apply (ix_tickets _ _ Hix)|..].
Qed.

(** ** Selectors of the handlers *)
Lemma selects_new (id : Hash) epoch a : selects (TicketSelector_new id epoch) a = in_epoch id epoch a.
Proof. unfold selects, in_epoch, ticket_of. cbn. by rewrite orb_false_r, !andb_true_r. Qed.

Lemma selects_channel e a : selects (selector_of_channel e) a = in_epoch (get_id e) (channel_epoch e) a.
Proof. apply selects_new. Qed.

Lemma selects_being e a :
  selects (with_state BeingRedeemed (selector_of_channel e)) a =
  in_epoch (get_id e) (channel_epoch e) a && bool_decide (ack_status a = BeingRedeemed).
Proof. unfold selects, in_epoch, ticket_of. cbn. by rewrite orb_false_r, !andb_true_r. Qed.

Lemma selects_lower e n a :
  selects (with_index_range Unbounded (Excluded n) (selector_of_channel e)) a = superseded e n a.
Proof. unfold selects, superseded, in_epoch, ticket_of. cbn. by rewrite orb_false_r, !andb_true_r. Qed.

Lemma selector_new_typed (id : Hash) epoch : array_wf 32 id → in_u 256 epoch → selector_typed (TicketSelector_new id epoch).
Proof. intros. split; [by constructor|done]. Qed.

Lemma selector_lower_typed e n :
  array_wf 32 (get_id e) → in_u 256 (channel_epoch e) → in_u 48 n →
  selector_typed (with_index_range Unbounded (Excluded n) (selector_of_channel e)).
Proof. intros. split; [by constructor|]. cbn. unfold in_u in *. split_and!; try done; lia. Qed.

Lemma selector_acknowledged_typed ds a : storable ds a → selector_typed (selector_of_acknowledged a).
Proof.
  intros (_ & (Hc & _ & Hi & _ & _ & He & _) & _). split; [constructor; [|done]|done].
  split; [done|]. cbn. unfold in_u in *. lia.
Qed.

(** Of the stored tickets the selector of a ticket describes that one only. *)
Lemma selects_acknowledged l m a b :
  holds l m → a ∈ l → b ∈ l → selects (selector_of_acknowledged a) b = true ↔ b = a.
Proof.
  intros Hh Ha Hb. unfold selects. cbn. rewrite orb_false_r, !andb_true_r, !andb_true_iff, !Z.eqb_eq, !bool_decide_eq_true.
  split; [|intros ->; split_and!; try done; by destruct (1 <? _)].
  intros ((((Hc & He) & Hi) & _) & _). by eapply holds_unique.
Qed.

Lemma stored_index_bound l m a : holds l m → a ∈ l → 1 ≤ t_index_offset (ticket_of a) ∧ in_u 64 (t_index (ticket_of a) + t_index_offset (ticket_of a)).
Proof.
  intros [_ Hr _ _] [i Ha]%list_elem_of_lookup. destruct (Forall2_lookup_r _ _ _ _ _ Hr Ha) as (r & _ & ((ds & Hs) & Ho & _)).
  destruct Hs as (_ & (_ & _ & Hi & Hoff & _) & (_ & Hb) & _). fold (ticket_of a) in Hi, Hoff, Hb.
  destruct Hb as (Hb & _ & ?). unfold in_u in *. lia.
Qed.

(** ** The handlers follow the abstract step *)
Definition steps (res : HoprDb * outcome CoreEthereumIndexerError (option ChainEventType))
    (want : View * option ChainEventType) : Prop :=
  indexed want.1 res.1 ∧
  match res.2 with Ok r => r = want.2 | Err _ => want.2 = None | Panic => False end.

Abbreviation editor e m := (mkChannelEditor e m None None None None None false).

Lemma with_channel_ok (id : Hash) f F v db :
  indexed v db → array_wf 32 id →
  (∀ i e m, v.1 !! i = Some e → get_id e = id → channels (index_db db) !! i = Some m → row_of e m →
    steps (f (editor e m) db) (F i e)) →
  steps (with_channel id f db) (on_entry id v.1 F v.2).
Proof.
  intros Hix Hid Hf. pose proof (begin_run v id db Hix Hid) as Hb. unfold with_channel, on_entry.
  destruct (list_find (λ e, get_id e = id) v.1) as [[i e]|].
  - destruct Hb as (m & Hi & He & Hm & Hr & Hb). rewrite (run_Ok _ _ _ _ _ Hb). by apply Hf.
  - rewrite (run_Ok _ _ _ _ _ Hb). split; [by destruct v|done].
Qed.

Lemma edit_ok v i e m edits out db :
  indexed v db → v.1 !! i = Some e → channels (index_db db) !! i = Some m → row_of e m → Forall edit_wf edits →
  steps ((c ← on_db (finish_channel_update (foldl edit_editor (editor e m) edits)); mret (Some (out c))) db)
    ((<[i := foldl edit_entry e edits]> v.1, v.2), Some (out (foldl edit_entry e edits))).
Proof.
  intros Hix Hi Hm Hr Hx. destruct (finish_run v i e m edits db Hix Hi Hm Hr Hx) as (db' & Hrun & Hix' & _).
  by rewrite (run_Ok _ _ _ _ _ Hrun).
Qed.

Lemma balance_of_event {E} b : in_u 96 b → Balance_from_be_bytes (E:=E) (C:=WxHOPR) (to_be 12 b) = Ok (mkBalance b).
Proof.
  intros Hb. unfold Balance_from_be_bytes. by rewrite U256_from_to_be by (done || lia).
Qed.

Lemma close_ok h i e m v db :
  indexed v db → v.1 !! i = Some e → channels (index_db db) !! i = Some m → row_of e m →
  let own := own_address h in
  let e' := foldl edit_entry e closing in
  steps (close_channel h (editor e m) db)
    (if bool_decide (source e = own) then ((<[i := e']> v.1, v.2), Some (ChannelClosed e'))
     else if bool_decide (destination e = own) then
       ((<[i := e']> v.1, filter (λ a, negb (in_epoch (get_id e) (channel_epoch e) a)) v.2), Some (ChannelClosed e'))
     else ((delete i v.1, v.2), Some (ChannelClosed e))).
Proof.
  intros Hix Hi Hm Hr own e'. pose proof Hr as [He _].
  destruct (finish_run v i e m closing db Hix Hi Hm Hr) as (db1 & Hrun & Hix1 & _); [by repeat constructor|].
  unfold close_channel. cbn [ce_orig]. fold own. unfold orientation.
  change (change_ticket_index 0 _) with (foldl edit_editor (editor e m) closing).
  case_bool_decide as Hs; [|case_bool_decide as Hd].
  - rewrite run_bind, (run_Ok _ _ _ _ _ Hrun). cbv beta iota.
    destruct (update_index_run (get_id e) (λ _, 0) _ db1 Hix1 (get_id_wf _ He)) as (db2 & j & Hrun2 & Hix2 & _); [done|].
    unfold reset_outgoing_ticket_index. by rewrite run_bind, (run_Ok _ _ _ _ _ Hrun2).
  - rewrite run_bind, (run_Ok _ _ _ _ _ Hrun). cbv beta iota. fold e'.
    destruct (mark_run (selector_of_channel e') Neglected _ db1 (selector_new_typed _ _ (get_id_wf _ He) (ew_epoch _ He)) Hix1)
      as (db2 & Hrun2 & Hix2 & _).
    rewrite run_bind, (run_Ok _ _ _ _ _ Hrun2). split; [|done]. cbn [fst snd] in Hix2 |- *. revert Hix2.
    assert (∀ l, filter (λ a, negb (selects (selector_of_channel e') a)) l =
      filter (λ a, negb (in_epoch (get_id e) (channel_epoch e) a)) l) as ->; [|done].
    intros l. apply list_filter_iff. intros a. by rewrite selects_channel.
  - destruct (delete_run v i e m db Hix Hi Hm Hr) as (db2 & Hrun2 & Hix2). by rewrite (run_Ok _ _ _ _ _ Hrun2).
Qed.

(** The clean-up of the tickets of the previous epoch. *)
Lemma neglect_epoch_run v (id : Hash) epoch (own : bool) db :
  indexed v db → array_wf 32 id → in_u 256 epoch →
  ∃ db', (if own then ticket_db (mark_tickets_as (TicketSelector_new id epoch) Neglected);;
            ticket_db (reset_outgoing_ticket_index id);; mret tt
          else mret tt) db = (db', Ok tt) ∧ index_db db' = index_db db ∧
    indexed (v.1, if own then filter (λ a, negb (in_epoch id epoch a)) v.2 else v.2) db'.
Proof.
  intros Hix Hid He. destruct own; [|by exists db; destruct v].
  destruct (mark_run (TicketSelector_new id epoch) Neglected v db (selector_new_typed _ _ Hid He) Hix)
    as (db1 & Hrun1 & Hix1 & Hi1 & _).
  destruct (update_index_run id (λ _, 0) _ db1 Hix1 Hid) as (db2 & j & Hrun2 & Hix2 & Hi2 & _); [done|].
  exists db2. rewrite (run_Ok _ _ _ _ _ Hrun1). unfold reset_outgoing_ticket_index. rewrite (run_Ok _ _ _ _ _ Hrun2).
  split; [done|]. split; [congruence|]. revert Hix2. cbn [fst snd].
  assert (∀ l, filter (λ a, negb (selects (TicketSelector_new id epoch) a)) l =
    filter (λ a, negb (in_epoch id epoch a)) l) as ->; [|done].
  intros l. apply list_filter_iff. intros a. by rewrite selects_new.
Qed.

Lemma open_ok h (src dst : Address) v db :
  indexed v db → event_ok v.1 (HoprChannels.ChannelOpened src dst) →
  steps (open_channel h src dst db) (chain_step (own_address h) (HoprChannels.ChannelOpened src dst) v).
Proof.
  intros Hix (Hs & Hd & Hsame). destruct v as [entries l]. cbn [fst] in Hsame.
  set (id := generate_channel_id src dst : Hash) in *.
  assert (array_wf 32 id) as Hid by apply Hash_create_wf.
  pose proof (begin_run _ id db Hix Hid) as Hb. cbn [fst] in Hb.
  unfold open_channel, chain_step. fold id. destruct (list_find (λ e, get_id e = id) entries) as [[i e]|] eqn:Hf.
  - destruct Hb as (m & Hi & He & Hm & Hr & Hb). rewrite (run_Ok _ _ _ _ _ Hb). cbv beta iota. cbn [ce_orig].
    destruct (ChannelStatus_eqb (status e) Closed); cbn [negb]; [|done].
    destruct (Hsame e) as (_ & _ & Hlt); [by eapply list_elem_of_lookup_2|done|]. pose proof (ew_epoch _ (proj1 Hr)) as Hep.
    destruct (neglect_epoch_run _ id (channel_epoch e) (bool_decide (src = own_address h) || bool_decide (dst = own_address h))
      db Hix Hid Hep) as (db1 & Hrun1 & Hi1 & Hix1).
    rewrite !run_bind, (run_Ok _ _ _ _ _ Hrun1), run_bind.
    assert (U256_add (E:=CoreEthereumIndexerError) (channel_epoch e) 1 = Ok (channel_epoch e + 1)) as ->.
    { unfold U256_add. by rewrite (proj2 (Z.leb_le _ _)) by lia. }
    rewrite run_lift. rewrite <-Hi1 in Hm.
    apply (edit_ok _ i e m (reopening e) ChannelOpened db1 Hix1 Hi Hm Hr).
    unfold reopening. rewrite !Forall_cons. cbn. clear -Hep Hlt. unfold in_u, U256_max, u_max in *. split_and!; try done; lia.
  - rewrite (run_Ok _ _ _ _ _ Hb). cbv beta iota. set (e := ChannelEntry_new src dst (mkBalance 0) 0 Open 1).
    destruct (upsert_run _ e db Hix) as (db1 & Hrun1 & Hix1); [|done|].
    + split; [by split|]. intros e0 Hin Hg. destruct (Hsame e0 Hin Hg) as (-> & -> & _). done.
    + by rewrite run_bind, (run_Ok _ _ _ _ _ Hrun1).
Qed.

(** Redeemed tickets. *)
Lemma filter_redeeming e n l m :
  holds l m → filter (redeemed_at n) (filter (selects (with_state BeingRedeemed (selector_of_channel e))) l) =
    filter (redeeming e n) l.
Proof.
  intros Hh. rewrite filter_filter_andb. apply filter_ext_in. intros a Ha. unfold redeemed_at, redeeming.
  rewrite selects_being. destruct (stored_index_bound l m a Hh Ha) as [_ Hb]. unfold ticket_of in *. by rewrite (wrap_small 64).
Qed.

(** The first marking takes the redeemed ticket itself, the second all tickets
    below the new index: the redeemed one is among these. *)
Lemma redeemed_superseded e n l m a :
  holds l m → filter (redeeming e n) l = [a] → a ∈ l ∧ superseded e n a = true.
Proof.
  intros Hh Hf. assert (a ∈ filter (redeeming e n) l) as [Hr Hin]%list_elem_of_filter by (rewrite Hf; by left).
  split; [done|]. destruct (stored_index_bound l m a Hh Hin) as [Ho _]. apply Is_true_true in Hr. unfold redeeming, superseded in *.
  apply andb_prop in Hr as [[Hr _]%andb_prop He]. rewrite Hr. cbn. apply Z.ltb_lt. lia.
Qed.

Lemma redeem_incoming_run e n v db :
  indexed v db → entry_wf e →
  ∃ db' o, redeem_incoming e n db = (db', o) ∧ index_db db' = index_db db ∧
    match redeem_result e n v.2 with
    | None => db' = db ∧ ∃ err, o = Err err
    | Some None => db' = db ∧ o = Ok None
    | Some (Some a) => o = Ok (Some a) ∧
        indexed (v.1, filter (λ b, negb (selects (selector_of_acknowledged a) b)) v.2) db' ∧
        accounts_marked Redeemed [a] (tickets_db (ticket_manager db)) (tickets_db (ticket_manager db'))
    end.
Proof.
  intros Hix He. set (sel := with_state BeingRedeemed (selector_of_channel e)).
  assert (selector_typed sel) as Hst by (by destruct (selector_new_typed _ _ (get_id_wf _ He) (ew_epoch _ He))).
  destruct (get_tickets_holds sel v.2 _ Hst (ix_tickets _ _ Hix)) as (l' & Hget & Hp).
  assert (filter (redeemed_at n) l' ≡ₚ filter (redeeming e n) v.2) as Hpf.
  { rewrite <-(filter_redeeming e n v.2 _ (ix_tickets _ _ Hix)). by apply filter_Permutation. }
  unfold redeem_incoming. fold sel. assert (ticket_db (get_tickets sel) db = (db, Ok l')) as Hg.
  { rewrite (ticket_db_Ok _ _ _ _ Hget). by destruct db. }
  rewrite (run_Ok _ _ _ _ _ Hg). unfold redeem_result.
  destruct (filter (redeeming e n) v.2) as [|a [|b k]] eqn:Hf.
  - apply Permutation_nil_r in Hpf. rewrite Hpf. by eexists _, _.
  - apply Permutation_singleton_r in Hpf. rewrite Hpf.
    destruct (redeemed_superseded e n v.2 _ a (ix_tickets _ _ Hix) Hf) as [Hin _].
    pose proof Hin as [j Hj]%list_elem_of_lookup.
    destruct (Forall2_lookup_r _ _ _ _ _ (hd_rows _ _ (ix_tickets _ _ Hix)) Hj) as (r & _ & ((ds & Hsto) & _)).
    destruct (mark_run (selector_of_acknowledged a) Redeemed v db (selector_acknowledged_typed _ _ Hsto) Hix)
      as (db' & Hrun & Hix' & Hi & Ha).
    rewrite (run_Ok _ _ _ _ _ Hrun). eexists _, _. split; [done|]. split; [done|]. split; [done|]. split; [done|].
    assert (filter (selects (selector_of_acknowledged a)) v.2 = [a]) as <-; [|done].
    apply filter_only; [by eapply holds_NoDup, ix_tickets|done|].
    intros b Hb. by eapply selects_acknowledged; [apply (ix_tickets _ _ Hix)|..].
  - assert (∃ c1 c2 k', filter (redeemed_at n) l' = c1 :: c2 :: k') as (c1 & c2 & k' & ->).
    { apply Permutation_length in Hpf. destruct (filter (redeemed_at n) l') as [|c1 [|c2 k']]; [done|done|by eexists _, _, _]. }
    eexists _, _. split; [done|]. split; [done|]. split; [done|]. by eexists.
Qed.

(** Of the tickets below the new index the redeemed one is paid, the others are
    neglected. *)
Definition settled (paid : option AcknowledgedTicket) (lower : list AcknowledgedTicket) (d d' : TicketsDb) : Prop :=
  ∀ c : Hash, array_wf 32 c →
    marked d' Redeemed (to_hex c) = marked d Redeemed (to_hex c) + value_in c (option_list paid) ∧
    marked d' Neglected (to_hex c) =
      marked d Neglected (to_hex c) + (value_in c lower - value_in c (option_list paid)) ∧
    marked d' Rejected (to_hex c) = marked d Rejected (to_hex c).

Lemma settled_paid e n l m a d d1 d2 :
  holds l m → filter (redeeming e n) l = [a] →
  let l1 := filter (λ b, negb (selects (selector_of_acknowledged a) b)) l in
  accounts_marked Redeemed [a] d d1 → accounts_marked Neglected (filter (superseded e n) l1) d1 d2 →
  settled (Some a) (filter (superseded e n) l) d d2 ∧
  filter (λ b, negb (superseded e n b)) l1 = filter (λ b, negb (superseded e n b)) l.
Proof.
  intros Hh Hf l1 [Hm1 (Ho1 & _)] [Hm2 (Ho2 & _)]. destruct (redeemed_superseded e n l m a Hh Hf) as [Hin Hsup].
  assert (filter (selects (selector_of_acknowledged a)) l = [a]) as Hsel.
  { apply filter_only; [by eapply holds_NoDup|done|]. intros b Hb. by eapply selects_acknowledged. }
  assert (l ≡ₚ a :: l1) as Hp by (rewrite (filter_complement (selects (selector_of_acknowledged a)) l), Hsel; done).
  split.
  - intros c Hc. cbn [option_list]. rewrite (Ho2 _ Redeemed), Hm1, Hm2, (Ho1 _ Neglected) by done.
    rewrite (Ho2 _ Rejected), (Ho1 _ Rejected) by done.
    assert (filter (superseded e n) l ≡ₚ a :: filter (superseded e n) l1) as ->.
    { rewrite Hp at 1. rewrite filter_cons, Hsup. done. }
    rewrite (value_in_cons c a (filter _ _)).
    change (option_list (Some a)) with [a]. lia.
  - unfold l1. rewrite filter_filter_andb. apply filter_ext_in. intros b Hb.
    destruct (superseded e n b) eqn:Hs; cbn; [by rewrite andb_false_r|]. rewrite andb_true_r.
    apply negb_true_iff, not_true_iff_false. intros Hsb.
    apply (selects_acknowledged l m a b Hh Hin Hb) in Hsb as ->. congruence.
Qed.

(** The index of the channel advances and all tickets below it are neglected. *)
Lemma advance_run v i e m n t db :
  indexed v db → v.1 !! i = Some e → channels (index_db db) !! i = Some m → row_of e m → in_u 48 n →
  let e' := foldl edit_entry e [EditTicketIndex n] in
  ∃ db', (new_index ← lift (U256_from_be_bytes (to_be 6 n));
          channel ← on_db (finish_channel_update (change_ticket_index new_index (editor e m)));
          ticket_db (mark_tickets_as (with_index_range Unbounded (Excluded n) (selector_of_channel channel)) Neglected);;
          mret (Some (TicketRedeemed channel t))) db = (db', Ok (Some (TicketRedeemed e' t))) ∧
    indexed (<[i := e']> v.1, filter (λ a, negb (superseded e n a)) v.2) db' ∧
    accounts_marked Neglected (filter (superseded e n) v.2) (tickets_db (ticket_manager db)) (tickets_db (ticket_manager db')).
Proof.
  intros Hix Hi Hm Hr Hn e'. pose proof Hr as [He _]. rewrite U256_from_to_be by (done || lia). rewrite run_lift.
  destruct (finish_run v i e m [EditTicketIndex n] db Hix Hi Hm Hr) as (db1 & Hrun1 & Hix1 & Hk & _).
  { apply Forall_singleton. cbn. unfold in_u in *. lia. }
  cbn [foldl edit_editor] in Hrun1. rewrite (run_Ok _ _ _ _ _ Hrun1).
  destruct (mark_run (with_index_range Unbounded (Excluded n) (selector_of_channel e')) Neglected _ db1
    (selector_lower_typed e' n (get_id_wf _ He) (ew_epoch _ He) Hn) Hix1) as (db2 & Hrun2 & Hix2 & _ & Ha).
  cbn [foldl] in Hrun2 |- *. fold e'. rewrite (run_Ok _ _ _ _ _ Hrun2). exists db2. split; [done|].
  cbn [fst snd] in Hix2, Ha. rewrite Hk in Ha.
  assert (∀ l, filter (λ a, negb (selects (with_index_range Unbounded (Excluded n) (selector_of_channel e')) a)) l =
    filter (λ a, negb (superseded e n a)) l) as Hneg by (intros; apply filter_ext_in; intros; by rewrite selects_lower).
  assert (∀ l, filter (selects (with_index_range Unbounded (Excluded n) (selector_of_channel e'))) l =
    filter (superseded e n) l) as Hpos by (intros; apply filter_ext_in; intros; by rewrite selects_lower).
  rewrite Hneg in Hix2. rewrite Hpos in Ha. done.
Qed.

Lemma settled_none lower d d' : accounts_marked Neglected lower d d' → settled None lower d d'.
Proof.
  intros [Hm (Ho & _)] c Hc. rewrite Hm, (Ho _ Redeemed), (Ho _ Rejected) by done.
  change (option_list None) with (@nil AcknowledgedTicket). change (value_in c []) with 0. lia.
Qed.

Lemma redeem_run h v i e m n db :
  indexed v db → v.1 !! i = Some e → channels (index_db db) !! i = Some m → row_of e m → in_u 48 n →
  match redemption (own_address h) e n v.2 with
  | None => ∃ err, redeem_ticket h n (editor e m) db = (db, Err err)
  | Some t =>
      let e' := foldl edit_entry e [EditTicketIndex n] in
      ∃ db', redeem_ticket h n (editor e m) db = (db', Ok (Some (TicketRedeemed e' t))) ∧
        indexed (<[i := e']> v.1, filter (λ a, negb (superseded e n a)) v.2) db' ∧
        settled t (filter (superseded e n) v.2) (tickets_db (ticket_manager db)) (tickets_db (ticket_manager db'))
  end.
Proof.
  intros Hix Hi Hm Hr Hn. pose proof Hr as [He _]. unfold redeem_ticket, redemption, direction. cbn [ce_orig].
  set (own := own_address h).
  pose proof (λ db1 t, advance_run v i e m n t db1) as Hadv.
  destruct (decide (source e = own)) as [Hs|Hs]; [rewrite (bool_decide_eq_true_2 (source e = own)) by done|
    rewrite (bool_decide_eq_false_2 (source e = own)) by done].
  - rewrite (bool_decide_eq_false_2 (source e ≠ own)) by (intros []; done). cbn [andb].
    destruct (update_index_run (get_id e) (λ old, Z.max old n) v db Hix (get_id_wf _ He)) as (db1 & j & Hrun1 & Hix1 & Hi1 & _ & Hst).
    { pose proof (current_bound _ (get_id e) (ix_indices _ _ Hix)). unfold in_u in *. lia. }
    unfold compare_and_set_outgoing_ticket_index. rewrite run_bind, (run_Ok _ _ _ _ _ Hrun1), run_ret. rewrite <-Hi1 in Hm.
    destruct (Hadv db1 None Hix1 Hi Hm Hr Hn) as (db2 & Hrun2 & Hix2 & Ha). exists db2.
    split; [done|]. split; [done|]. apply settled_none in Ha. unfold settled, marked in *. by rewrite Hst in Ha.
  - rewrite (bool_decide_eq_true_2 (source e ≠ own)) by done. cbn [andb]. case_bool_decide as Hd.
    + destruct (redeem_incoming_run e n v db Hix He) as (db1 & o & Hrun1 & Hi1 & Ho).
      unfold redeem_result in *. destruct (filter (redeeming e n) v.2) as [|a [|b k]] eqn:Hf.
      * destruct Ho as [-> ->]. rewrite (run_Ok _ _ _ _ _ Hrun1).
        destruct (Hadv db None Hix Hi Hm Hr Hn) as (db2 & Hrun2 & Hix2 & Ha). exists db2.
        split; [done|]. split; [done|]. by apply settled_none.
      * destruct Ho as (-> & Hix1 & Ha1). rewrite (run_Ok _ _ _ _ _ Hrun1). rewrite <-Hi1 in Hm.
        destruct (advance_run _ i e m n (Some a) db1 Hix1 Hi Hm Hr Hn) as (db2 & Hrun2 & Hix2 & Ha2). exists db2.
        split; [done|]. cbn [fst snd] in Hix2, Ha2.
        destruct (settled_paid e n v.2 _ a _ _ _ (ix_tickets _ _ Hix) Hf Ha1 Ha2) as [Hset Hrest].
        rewrite Hrest in Hix2. done.
      * destruct Ho as (-> & err & ->). exists err. unfold mbind, SM_bind. by rewrite Hrun1.
    + rewrite run_ret. destruct (Hadv db None Hix Hi Hm Hr Hn) as (db2 & Hrun2 & Hix2 & Ha). exists db2.
      split; [done|]. split; [done|]. by apply settled_none.
Qed.

Lemma set_domain_separator_kept dst x v db :
  indexed v db → steps ((on_db (set_domain_separator dst x);; mret None) db) (v, None).
Proof.
  intros Hix. unfold set_domain_separator, update_indexer_data, update_chain_info, index_tx, on_db, lift_err.
  unfold mbind, SM_bind, get, modify, throw, mret, SM_ret. cbn. destruct (chain_info (index_db db)); cbn; [|by split].
  split; [|done]. destruct Hix as [[Hwf Hco] Ht Hi]. by repeat (split; try done); destruct Hwf.
Qed.

(** One channel event. *)
Lemma channel_event_ok h event v db :
  indexed v db → event_ok v.1 event →
  steps (on_channel_event h event db) (chain_step (own_address h) event v).
Proof.
  intros Hix Hev. destruct v as [entries l]. cbn [fst] in Hev. destruct event as [id b|id b|id|src dst|x|x|id t|id n];
    cbn [on_channel_event chain_step].
  - destruct Hev as [Hid Hb]. apply (with_channel_ok id _ _ (entries, l)); [done..|]. intros i e m Hi He Hm Hr.
    rewrite balance_of_event by done. rewrite run_lift.
    apply (edit_ok _ i e m [EditBalance (mkBalance b)] (λ c, ChannelBalanceDecreased c _) db Hix Hi Hm Hr).
    apply Forall_singleton. cbn. unfold Balance_wf, in_u in *. cbn. lia.
  - destruct Hev as [Hid Hb]. apply (with_channel_ok id _ _ (entries, l)); [done..|]. intros i e m Hi He Hm Hr.
    rewrite balance_of_event by done. rewrite run_lift.
    apply (edit_ok _ i e m [EditBalance (mkBalance b)] (λ c, ChannelBalanceIncreased c _) db Hix Hi Hm Hr).
    apply Forall_singleton. cbn. unfold Balance_wf, in_u in *. cbn. lia.
  - apply (with_channel_ok id _ _ (entries, l)); [done..|]. intros i e m Hi <- Hm Hr. by apply (close_ok h i e m (entries, l)).
  - exact (open_ok h src dst (entries, l) db Hix Hev).
  - by apply set_domain_separator_kept.
  - by apply set_domain_separator_kept.
  - destruct Hev as [Hid Ht]. apply (with_channel_ok id _ _ (entries, l)); [done..|]. intros i e m Hi He Hm Hr.
    apply (edit_ok _ i e m [EditStatus (PendingToClose (t * 10 ^ 9))] ChannelClosureInitiated db Hix Hi Hm Hr).
    by apply Forall_singleton.
  - destruct Hev as [Hid Hn]. apply (with_channel_ok id _ _ (entries, l)); [done..|]. intros i e m Hi He Hm Hr.
    pose proof (redeem_run h _ i e m n db Hix Hi Hm Hr Hn) as Hrun. cbn [fst snd] in Hrun |- *.
    destruct (redemption (own_address h) e n l) as [t|].
    + destruct Hrun as (db' & -> & Hix' & _). done.
    + destruct Hrun as (err & ->). done.
Qed.

(** ** Blocks *)

(** A log of the channels contract that decodes to an event. *)
Definition channel_log (h : ContractEventHandlers) (log : SerializableLog) (event : HoprChannels.HoprChannelsEvents) : Prop :=
  log_valid (log_topics log) (log_data log) = true ∧ log_address log = channels_contract (contract_addrs h) ∧
  log_address log ≠ announcements_contract (contract_addrs h) ∧ decode_channels (log_topics log) (log_data log) = Some event.

Definition follow (own : Address) (v : View) (event : HoprChannels.HoprChannelsEvents) : View := (chain_step own event v).1.

Fixpoint events_ok (own : Address) (events : list HoprChannels.HoprChannelsEvents) (v : View) : Prop :=
  match events with
  | [] => True
  | event :: events => event_ok v.1 event ∧ events_ok own events (follow own v event)
  end.

(** The significant events, with the hashes of their transactions. *)
Fixpoint significant (own : Address) (logs : list SerializableLog) (events : list HoprChannels.HoprChannelsEvents)
    (v : View) : list SignificantChainEvent :=
  match logs, events with
  | log :: logs, event :: events =>
      (match (chain_step own event v).2 with Some t => [mkSignificant (tx_hash log) t] | None => [] end) ++
      significant own logs events (follow own v event)
  | _, _ => []
  end.

Lemma channel_log_run h log event db :
  channel_log h log event → process_log_event h log db = on_channel_event h event db.
Proof.
  intros (Hv & Ha & Hna & Hd). unfold process_log_event. rewrite Hv. cbn [negb].
  rewrite bool_decide_eq_false_2, bool_decide_eq_true_2, Hd by done. reflexivity.
Qed.

Lemma collect_channel_logs h logs events v db :
  indexed v db → Forall2 (channel_log h) logs events → events_ok (own_address h) events v →
  ∃ db', collect_logs h logs db = (db', Ok (significant (own_address h) logs events v)) ∧
    indexed (foldl (follow (own_address h)) v events) db'.
Proof.
  intros Hix Hlogs. revert v db Hix. induction Hlogs as [|log event logs events Hlog _ IH]; intros v db Hix Hev; [by exists db|].
  destruct Hev as [Hev Hevs]. destruct (channel_event_ok h event v db Hix Hev) as [Hix1 Hres].
  cbn [collect_logs significant foldl]. rewrite (channel_log_run h log event db Hlog).
  destruct (on_channel_event h event db) as [db1 o]. cbn [fst snd] in Hix1, Hres.
  destruct (IH _ db1 Hix1 Hevs) as (db' & Hrun & Hix'). exists db'. split; [|done]. unfold follow in Hrun |- *.
  destruct o as [r|err|]; [subst r| |done].
  - destruct (chain_step (own_address h) event v).2; [|done]. by rewrite (run_Ok _ _ _ _ _ Hrun).
  - by rewrite Hres.
Qed.

(** C1. The node's view of the payment channels follows the chain: whatever
    events of the channels contract a block holds, indexing it never aborts,
    and afterwards the channel table with its cache and the ticket table hold
    exactly what a plain list of channels and a plain list of tickets hold
    after the same events - own closed channels reset and foreign ones removed,
    reopened channels in a new epoch with the tickets of the old one neglected,
    tickets below a redeemed index gone - while events that make no sense are
    skipped; the reported events are those of the plain lists, in order. *)
Theorem channels_follow_chain (h : ContractEventHandlers) (logs : list SerializableLog)
    (events : list HoprChannels.HoprChannelsEvents) (v : View) (db : HoprDb) :
  indexed v db → Forall2 (channel_log h) logs events → events_ok (own_address h) events v →
  ∃ db', collect_block_events h logs db = (db', Ok (significant (own_address h) logs events v)) ∧
    indexed (foldl (follow (own_address h)) v events) db'.
Proof.
  intros Hix Hlogs Hev. destruct (collect_channel_logs h logs events v db Hix Hlogs Hev) as (db' & Hrun & Hix').
  exists db'. unfold collect_block_events, index_rollback. by rewrite Hrun.
Qed.

(** A redemption seen on chain is settled exactly: on a channel to this
    node whose only ticket being redeemed up to the new index is [a], the event
    reports [a], the index of the channel advances, [a] and all tickets of the
    epoch below that index leave the ticket table and no others, the value of
    [a] is added to what was redeemed and the value of the others to what was
    neglected, in every channel. *)
Theorem redeemed_ticket_settled (h : ContractEventHandlers) (n : Z) (e : ChannelEntry) (a : AcknowledgedTicket)
    (v : View) (db : HoprDb) :
  indexed v db → e ∈ v.1 → in_u 48 n → source e ≠ own_address h → destination e = own_address h →
  filter (redeeming e n) v.2 = [a] →
  ∃ db' entries', on_channel_event h (HoprChannels.TicketRedeemed (get_id e) n) db =
      (db', Ok (Some (TicketRedeemed (foldl edit_entry e [EditTicketIndex n]) (Some a)))) ∧
    indexed (entries', filter (λ b, negb (superseded e n b)) v.2) db' ∧
    entry_by_id (get_id e) entries' = Some (foldl edit_entry e [EditTicketIndex n]) ∧
    settled (Some a) (filter (superseded e n) v.2) (tickets_db (ticket_manager db)) (tickets_db (ticket_manager db')).
Proof.
  intros Hix Hin Hn Hs Hd Hf. pose proof (proj1 (ix_channels _ _ Hix)) as Hwf.
  pose proof (begin_run v (get_id e) db Hix (get_id_wf _ (entries_wf _ _ _ Hwf Hin))) as Hb.
  destruct (list_find (λ e', get_id e' = get_id e) v.1) as [[i e0]|] eqn:Hlf.
  2: { apply list_find_None in Hlf. rewrite Forall_forall in Hlf. by destruct (Hlf _ Hin). }
  destruct Hb as (m & Hi & He & Hm & Hr & Hb).
  assert (e0 = e) as ->.
  { apply list_elem_of_lookup in Hin as [j Hj]. assert (i = j) as ->; [|congruence].
    apply (NoDup_lookup (get_id <$> v.1) i j (get_id e) (cw_channels _ _ Hwf)); rewrite list_lookup_fmap;
      [rewrite Hi; cbn; congruence|by rewrite Hj]. }
  pose proof (redeem_run h v i e m n db Hix Hi Hm Hr Hn) as Hrun. unfold redemption, redeem_result in Hrun.
  rewrite !bool_decide_eq_true_2, Hf in Hrun by done. destruct Hrun as (db' & Hrun & Hix' & Hset).
  exists db', (<[i := foldl edit_entry e [EditTicketIndex n]]> v.1). cbn [on_channel_event]. unfold with_channel.
  rewrite (run_Ok _ _ _ _ _ Hb). split; [done|]. split; [done|]. split; [|done].
  unfold entry_by_id. apply (find_iff get_id); [apply (cw_channels _ _ (proj1 (ix_channels _ _ Hix')))|].
  split; [|done]. eapply list_elem_of_lookup_2, list_lookup_insert_eq. by eapply lookup_lt_Some.
Qed.
End ChannelEvents.
