(* ===== verification/IndexerFacts.v ===== *)
(** * The chain indexer: the Safe, key bindings and the minimum winning probability

    The recorded Safe balance is the sum of the transfers seen, a key binding
    that a node announces is accepted and resolves, and raising the minimum
    winning probability rejects exactly the tickets that fall below it. *)
From stdpp Require Import gmap strings.
From S2P Require Import Prelude Primitives Crypto Channels Tickets WinProb SharedKeys MetaPacket Packet.
From S2P Require Import TicketStore TicketStoreSpec TicketIndexSpec TicketTable Protocol NodeDb NodeDbSpec Indexer IndexerSpec.

(** ** The Safe balance *)
Section Token.
Context `{!Secp256k1} `{!Curve25519} `{!Ed25519} `{!HexCodec} `{!ScanOrder} `{!Multiaddrs} `{!FloatCmp} `{!LogDecoder}.

(** A transfer: from, to and value. *)
Definition TokenTransfer : Type := Address * Address * Z.

Fixpoint on_transfers (h : ContractEventHandlers) (ts : list TokenTransfer) : SM HoprDb CoreEthereumIndexerError unit :=
  match ts with
  | [] => mret tt
  | (from, to, value) :: ts => on_token_event h (HoprToken.Transfer from to value);; on_transfers h ts
  end.

(** The balance that the database records for the Safe. *)
Definition recorded (b : Z) (db : HoprDb) : Prop :=
  ∃ m, node_info (index_db db) = Some m ∧ column_wf (ni_safe_balance m) ∧ from_be (ni_safe_balance m) = b.

Definition net_change (safe : Address) (t : TokenTransfer) : Z :=
  let '(from, to, value) := t in
  (if bool_decide (to = safe) then value else 0) - (if bool_decide (from = safe) then value else 0).
Definition self_transfer (safe : Address) (t : TokenTransfer) : Z :=
  let '(from, to, value) := t in if bool_decide (to = safe) && bool_decide (from = safe) then value else 0.

(** What the node adds up: transfers from the Safe to itself count as received. *)
Definition counted (safe : Address) (t : TokenTransfer) : Z := net_change safe t + self_transfer safe t.
Definition sum_of (f : TokenTransfer → Z) (ts : list TokenTransfer) : Z := foldr (λ t n, f t + n) 0 ts.

(** The running balance stays in its type. *)
Fixpoint in_range (safe : Address) (b : Z) (ts : list TokenTransfer) : Prop :=
  match ts with
  | [] => True
  | t :: ts => in_u 256 t.2 ∧ 0 ≤ b + counted safe t ≤ U256_max ∧ in_range safe (b + counted safe t) ts
  end.

Lemma recorded_bound b db : recorded b db → in_u 256 b.
Proof. intros (m & _ & Hc & <-). by apply from_be_column. Qed.

Lemma read_balance b db : recorded b db → get_safe_hopr_balance db = (db, Ok (mkBalance b)).
Proof.
  intros (m & Hm & [Hw Hl] & <-). unfold get_safe_hopr_balance, index_tx. autorewrite with run.
  unfold single. rewrite Hm. cbn [ok_or]. rewrite run_lift. unfold lift, Balance_from_be_bytes, U256_from_be_bytes.
  rewrite bool_decide_eq_true_2 by done. by destruct db.
Qed.

Lemma write_balance b b' db :
  recorded b db → in_u 256 b' → ∃ db', set_safe_hopr_balance (mkBalance b') db = (db', Ok tt) ∧ recorded b' db'.
Proof.
  intros (m & Hm & _) Hb'. unfold set_safe_hopr_balance, index_tx, update_node_info. autorewrite with run.
  rewrite Hm. eexists. split; [reflexivity|]. eexists. split; [reflexivity|]. cbn [ni_safe_balance]. split.
  - split; [apply to_be_wf|]. unfold Balance_to_be_bytes, U256_to_be_bytes. cbn. by rewrite length_to_be.
  - by apply (from_be_to_be_small 32).
Qed.

Lemma transfer_run h from to value b db :
  recorded b db → in_u 256 value → 0 ≤ b + counted (monitored_safe h) (from, to, value) ≤ U256_max →
  ∃ db', on_token_event h (HoprToken.Transfer from to value) db = (db', Ok None) ∧
    recorded (b + counted (monitored_safe h) (from, to, value)) db'.
Proof.
  intros Hb Hv Hc. unfold on_token_event.
  rewrite (run_Ok _ _ _ _ _ (on_db_Ok _ _ _ _ (read_balance b db Hb))).
  assert (Balance_from_be_bytes (E:=CoreEthereumIndexerError) (C:=WxHOPR) (to_be 32 value) = Ok (mkBalance value)) as ->.
  { unfold Balance_from_be_bytes. by rewrite U256_from_to_be. }
  rewrite run_lift. unfold counted, net_change, self_transfer in *. pose proof (recorded_bound b db Hb) as Hbb.
  set (safe := monitored_safe h) in *. unfold in_u, U256_max, u_max in *.
  assert (∀ x, 0 ≤ x < 2 ^ 256 → ∃ db', (on_db (set_safe_hopr_balance (mkBalance x));; mret None) db =
    (db', Ok (A:=option ChainEventType) None) ∧ recorded x db') as Hset.
  { intros x Hx. destruct (write_balance b x db Hb Hx) as (db' & Hrun & Hr). exists db'. split; [|done].
    by rewrite (run_Ok _ _ _ _ _ (on_db_Ok _ _ _ _ Hrun)). }
  destruct (bool_decide (to = safe)), (bool_decide (from = safe)); cbn [negb andb] in *.
  - unfold Balance_add, U256_saturating_add, U256_max, u_max. cbn [amount]. rewrite Z.min_l by lia. destruct (Hset (b + value)) as (db' & Hrun & Hr); [lia|].
    exists db'. split; [done|]. by replace (b + (value - value + value)) with (b + value) by lia.
  - unfold Balance_add, U256_saturating_add, U256_max, u_max. cbn [amount]. rewrite Z.min_l by lia. destruct (Hset (b + value)) as (db' & Hrun & Hr); [lia|].
    exists db'. split; [done|]. by replace (b + (value - 0 + 0)) with (b + value) by lia.
  - unfold Balance_sub, U256_saturating_sub. cbn [amount]. rewrite Z.max_l by lia. destruct (Hset (b - value)) as (db' & Hrun & Hr); [lia|].
    exists db'. split; [done|]. by replace (b + (0 - value + 0)) with (b - value) by lia.
  - exists db. split; [done|]. by replace (b + (0 - 0 + 0)) with b by lia.
Qed.

(** The recorded Safe balance follows the token transfers, with one
    exception: over any list of transfers whose balances fit into 256 bits it
    changes by what the Safe received less what it sent, plus the value of the
    transfers from the Safe to itself, which are added but not taken off.  So
    it is exact if and only if these are worth nothing. *)
Theorem safe_balance_follows (h : ContractEventHandlers) (ts : list TokenTransfer) (b : Z) (db : HoprDb) :
  recorded b db → in_range (monitored_safe h) b ts →
  let true_balance := b + sum_of (net_change (monitored_safe h)) ts in
  let surplus := sum_of (self_transfer (monitored_safe h)) ts in
  ∃ db', on_transfers h ts db = (db', Ok tt) ∧ recorded (true_balance + surplus) db' ∧
    get_safe_hopr_balance db' = (db', Ok (mkBalance (true_balance + surplus))).
Proof.
  cbv zeta. revert b db. induction ts as [|t ts IH]; intros b db Hb Hr.
  - exists db. cbn. rewrite !Z.add_0_r. split; [done|]. split; [done|]. by apply read_balance.
  - destruct t as [[from to] value]. destruct Hr as (Hv & Hc & Hr).
    destruct (transfer_run h from to value b db Hb Hv Hc) as (db1 & Hrun1 & Hb1).
    destruct (IH _ db1 Hb1 Hr) as (db' & Hrun & Hb' & Hget). exists db'. cbn [on_transfers].
    rewrite (run_Ok _ _ _ _ _ Hrun1).
    assert (∀ f, sum_of f ((from, to, value) :: ts) = f (from, to, value) + sum_of f ts) as Hsum by done.
    rewrite !Hsum. unfold counted in Hb', Hget.
    set (safe := monitored_safe h) in *. set (x := net_change safe _) in *. set (y := self_transfer safe _) in *.
    replace (b + (x + sum_of (net_change safe) ts) + (y + sum_of (self_transfer safe) ts))
      with (b + (x + y) + sum_of (net_change safe) ts + sum_of (self_transfer safe) ts) by lia. done.
Qed.
End Token.

(** ** Key bindings *)
Section Bindings.
Context `{!Secp256k1} `{!Curve25519} `{!Ed25519} `{!Ed25519Laws} `{!HexCodec} `{!ScanOrder} `{!Multiaddrs} `{!FloatCmp}
  `{!LogDecoder}.
#[local] Set Default Proof Using "Type*".

Lemma prepare_for_signing_ok {E} (chain_key : Address) packet_key :
  array_wf 20 chain_key → length (opk_compressed packet_key) = 32%nat →
  prepare_for_signing (E:=E) chain_key packet_key = Ok (KEY_BINDING_TAG ++ chain_key ++ opk_compressed packet_key).
Proof.
  intros [Hc _] Hp. unfold prepare_for_signing, SIGNING_SIZE.
  change (replicate (16 + 20 + 32) 0) with ([] ++ replicate 16 0 ++ replicate 52 0).
  rewrite copy_from_slice_ok by done. cbn [mbind outcome_bind app].
  change (replicate 52 0) with (replicate 20 0 ++ replicate 32 0).
  rewrite copy_from_slice_ok by done. cbn [mbind outcome_bind].
  rewrite (app_assoc KEY_BINDING_TAG), <-(app_nil_r (replicate 32 0)), copy_from_slice_ok
    by (rewrite ?length_app, ?Hc; cbn; lia).
  by rewrite app_nil_r, <-app_assoc.
Qed.

Lemma keypair_public secret kp :
  OffchainKeypair_from_secret secret = Ok kp →
  OffchainPublicKey_try_from (opk_compressed (ok_public kp)) = Ok (ok_public kp) ∧
  length (opk_compressed (ok_public kp)) = 32%nat.
Proof.
  unfold OffchainKeypair_from_secret, OffchainPublicKey_from_privkey, OffchainPublicKey_try_from, array_try_from.
  destruct (bool_decide (length secret = 32%nat)); [|done]. intros Hkp.
  apply bind_Ok in Hkp as (pk & Hpk & [= <-]). cbn [ok_public].
  destruct (bool_decide (length (ed25519_public secret) = 32%nat)) eqn:Hl; cbn [mbind outcome_bind] in Hpk; [|done].
  apply bool_decide_eq_true in Hl. destruct (decompress (ed25519_public secret)) as [e|] eqn:He; cbn in Hpk; [|done].
  injection Hpk as <-. cbn [opk_compressed]. split; [|done]. rewrite bool_decide_eq_true_2 by done. cbn. by rewrite He.
Qed.

(** A fresh account is stored, cached and bound. *)
Lemma insert_account_ok account db :
  entry_type account = NotAnnounced → key_id_to_public db !! key_id account = None →
  public_to_key_id db !! opk_compressed (public_key account) = None →
  ∃ db', insert_account account db = (db', Ok tt) ∧ account_stored account db' ∧
    chain_to_offchain db' !! chain_addr account = Some (Some (public_key account)) ∧
    offchain_to_chain db' !! opk_compressed (public_key account) = Some (Some (chain_addr account)) ∧
    key_id_to_public db' !! key_id account = Some (public_key account) ∧
    public_to_key_id db' !! opk_compressed (public_key account) = Some (key_id account).
Proof.
  intros Hna Hi Hp. destruct (account_row_run account db) as (d' & Htx & Hst).
  unfold insert_account, index_rollback. rewrite (run_Ok _ _ _ _ _ Htx), !run_modify.
  unfold update_key_id_binding. rewrite run_bind, run_get. cbv zeta.
  cbn [key_id_to_public public_to_key_id set_offchain_to_chain set_chain_to_offchain set_index_db].
  rewrite Hi, Hp, run_modify, Hna. eexists. split; [reflexivity|]. split; [exact Hst|].
  cbn. by rewrite !lookup_insert_eq.
Qed.

(** A key binding that a node signs is indexed by every node: the log made
    of its parts is accepted, the account is stored and bound under its key
    identifier, and its keys resolve to each other; and no other signature will
    do, a log whose signature does not verify changes nothing. *)
Theorem key_binding_indexed (secret : bytes) (kp : OffchainKeypair) (ck : Address) (kb : KeyBinding) (block : Z) (db : HoprDb) :
  OffchainKeypair_from_secret secret = Ok kp → array_wf 20 ck → KeyBinding_new (E:=CoreTypesError) ck kp = Ok kb →
  let account := mkAccount (ok_public kp) ck NotAnnounced block in
  let event s := HoprAnnouncements.KeyBinding (take 32 s) (drop 32 s) (opk_compressed (ok_public kp)) ck in
  key_id_to_public db !! key_id account = None → public_to_key_id db !! opk_compressed (ok_public kp) = None →
  (∃ db', on_announcement_event (event (kb_signature kb)) block db = (db', Ok None) ∧
    account_stored account db' ∧ key_id_to_public db' !! key_id account = Some (ok_public kp) ∧
    resolve_chain_key (ok_public kp) db' = (db', Ok (Some ck)) ∧
    resolve_packet_key ck db' = (db', Ok (Some (ok_public kp)))) ∧
  ∀ s, verify_message s (KEY_BINDING_TAG ++ ck ++ opk_compressed (ok_public kp)) (ok_public kp) = false →
    on_announcement_event (event s) block db = (db, Ok None).
Proof.
  intros Hkp Hck Hkb account event Hi Hp. destruct (keypair_public _ _ Hkp) as [Htry Hlen].
  unfold KeyBinding_new in Hkb. rewrite prepare_for_signing_ok in Hkb by done. injection Hkb as <-. cbn [kb_signature].
  set (msg := KEY_BINDING_TAG ++ ck ++ opk_compressed (ok_public kp)).
  assert (∀ s, on_announcement_event (event s) block db =
    (if verify_message s msg (ok_public kp) then (on_db (insert_account account);; mret None) db else (db, Ok None))) as Hev.
  { intros s. unfold event, on_announcement_event. rewrite Htry. cbn [map_err]. rewrite run_lift, take_drop.
    unfold KeyBinding_from_parts. rewrite prepare_for_signing_ok by done. cbn [mbind outcome_bind]. fold msg.
    by destruct (verify_message s msg (ok_public kp)). }
  split; [|intros s Hs; by rewrite Hev, Hs].
  rewrite Hev. unfold verify_message, sign_message. rewrite (ed25519_correct secret) by done.
  destruct (insert_account_ok account db) as (db' & Hrun & Hst & Hc & Ho & Hk & _); [done..|].
  exists db'. rewrite (run_Ok _ _ _ _ _ (on_db_Ok _ _ _ _ Hrun)).
  split; [done|]. split; [done|]. split; [done|]. by apply (cached_resolves account).
Qed.
End Bindings.

(** ** The minimum winning probability *)
Section MinimumWinProb.
Context `{!Secp256k1} `{!Secp256k1Laws} `{!Curve25519} `{!Ed25519} `{!HexCodec, !HexCodecLaws}
  `{!ScanOrder, !ScanOrderLaws} `{!Multiaddrs} `{!FloatCmp} `{!LogDecoder}.
#[local] Set Default Proof Using "Type*".

Lemma mapM_decode_rows entries rows : Forall2 row_of entries rows → mapM decode_channel rows = Ok entries.
Proof. induction 1 as [|e m entries rows Hr _ IH]; [done|]. cbn. rewrite (decode_row _ _ Hr). cbn. by rewrite IH. Qed.

Definition incoming_to (target : Address) (e : ChannelEntry) : bool := bool_decide (destination e = target).

Lemma incoming_channels_ok entries db :
  channels_wf entries (index_db db) → array_wf 20 (me_onchain db) →
  ∃ l, get_incoming_channels db = (db, Ok l) ∧ l ≡ₚ filter (incoming_to (me_onchain db)) entries.
Proof.
  intros Hwf [_ Ht]. set (rows := filter (λ m, cm_destination m = to_hex (me_onchain db)) (channels (index_db db))) in *.
  assert (Forall2 row_of (filter (incoming_to (me_onchain db)) entries) rows) as Hf.
  { apply Forall2_filter; [apply (cw_rows _ _ Hwf)|]. intros e m Hem. unfold incoming_to. rewrite bool_decide_spec.
    destruct (row_of_columns _ _ Hem) as (_ & _ & ->). destruct Hem as [[_ [_ Hw] _ _ _ _] _].
    split; [congruence|by apply to_hex_inj]. }
  destruct (Permutation.Permutation_Forall2 (symmetry (scan_permutation _ rows)) (proj2 (Forall2_flip _ _ _) Hf)) as (l & Hl & Hfl).
  exists l. split; [|by symmetry]. unfold get_incoming_channels, get_channels_via, index_tx. autorewrite with run.
  unfold lift. fold rows. rewrite (mapM_decode_rows l) by (by apply Forall2_flip). by destruct db.
Qed.

(** The selector that the handler builds. *)
Lemma selector_of_channels_more (l : list ChannelEntry) ids wp am st ag :
  selector_of_channels (Some (mkSelector ids NoIndex wp am st ag)) l =
  Some (mkSelector (ids ++ ((λ e, (get_id e, channel_epoch e)) <$> l)) NoIndex wp am st ag).
Proof using Type.
  revert ids. induction l as [|e l IH]; intros ids; cbn [selector_of_channels fmap list_fmap]; [by rewrite app_nil_r|].
  unfold also_on_channel. cbn [channel_identifiers sel_win_prob sel_amount sel_state only_aggregated].
  by rewrite IH, <-app_assoc.
Qed.

Lemma selector_of_channels_ok (l : list ChannelEntry) :
  selector_of_channels None l =
  match l with
  | [] => None
  | _ => Some (mkSelector ((λ e, (get_id e, channel_epoch e)) <$> l) NoIndex (Unbounded, Unbounded)
                 (Unbounded, Unbounded) None false)
  end.
Proof using Type. destruct l as [|e l]; [done|]. cbn [selector_of_channels]. apply selector_of_channels_more. Qed.

(** The tickets on the incoming channels, in their current epochs, whose
    winning probability is below a minimum. *)
Definition below_minimum (own : Address) (minimum : Z) (entries : list ChannelEntry) (a : AcknowledgedTicket) : bool :=
  existsb (λ e, incoming_to own e && in_epoch (get_id e) (channel_epoch e) a) entries &&
  (as_luck (t_encoded_win_prob (ticket_of a)) <? minimum).

Lemma existsb_permuted {A} (P : A → bool) l l' : l ≡ₚ l' → existsb P l = existsb P l'.
Proof using Type. induction 1; cbn; [done|congruence| |congruence]. by rewrite !orb_assoc, (orb_comm (P y)). Qed.

Lemma existsb_filter {A} (P Q : A → bool) l : existsb P (filter Q l) = existsb (λ x, Q x && P x) l.
Proof using Type. induction l as [|x l IH]; [done|]. rewrite filter_cons_bool. cbn [existsb]. destruct (Q x); cbn [existsb andb]; by rewrite IH. Qed.

Lemma selects_below own minimum entries l a :
  in_u 56 minimum → l ≡ₚ filter (incoming_to own) entries →
  selects (with_winning_probability Unbounded (Excluded (to_be 7 minimum))
    (mkSelector ((λ e, (get_id e, channel_epoch e)) <$> l) NoIndex (Unbounded, Unbounded) (Unbounded, Unbounded) None false)) a =
  below_minimum own minimum entries a.
Proof using Type.
  intros Hmin Hl. unfold selects, below_minimum, bounded. cbn. fold (ticket_of a).
  rewrite !andb_true_r. rewrite !as_luck_from_be, (from_be_to_be_small 7) by done. f_equal.
  rewrite <-existsb_filter, <-(existsb_permuted _ _ _ Hl).
  clear Hl. induction l as [|e l IH]; [done|]. cbn. by rewrite IH.
Qed.

Lemma set_minimum_run wp v db :
  indexed v db → is_Some (chain_info (index_db db)) →
  ∃ db', set_minimum_incoming_ticket_win_prob wp db = (db', Ok tt) ∧ indexed v db' ∧
    me_onchain db' = me_onchain db ∧ ticket_manager db' = ticket_manager db ∧
    ci_min_incoming_ticket_win_prob <$> chain_info (index_db db') = Some (f64_as_f32 (as_f64 wp)) ∧
    indexer_data_cache db' = None.
Proof.
  intros [[Hwf Hco] Ht Hi] [ci Hci]. unfold set_minimum_incoming_ticket_win_prob, update_indexer_data, index_tx, update_chain_info.
  unfold mbind, SM_bind, get, modify. rewrite Hci. eexists. split; [reflexivity|]. split; [|done].
  split; [|done|done]. split; [|done]. by destruct Hwf.
Qed.

(** When the network raises the minimum winning probability, exactly the
    tickets that fall below it are rejected: the new minimum is recorded (as a
    32-bit float) and no cached one remains, the tickets on the incoming
    channels in their current epochs whose probability is below it leave the
    ticket table and are added to what was rejected, and no other ticket or
    account changes. *)
Theorem raised_minimum_rejects (old new : Z) (v : View) (db : HoprDb) :
  indexed v db → array_wf 20 (me_onchain db) → is_Some (chain_info (index_db db)) →
  in_u 56 new → approx_cmp (E:=CoreEthereumIndexerError) (to_be 7 old) (to_be 7 new) = Ok Lt →
  let below := below_minimum (me_onchain db) new v.1 in
  ∃ db', on_ticket_winning_probability_oracle_event (HoprWinningProbabilityOracle.WinProbUpdated old new) db = (db', Ok None) ∧
    indexed (v.1, filter (λ a, negb (below a)) v.2) db' ∧
    accounts_marked Rejected (filter below v.2) (tickets_db (ticket_manager db)) (tickets_db (ticket_manager db')) ∧
    ci_min_incoming_ticket_win_prob <$> chain_info (index_db db') = Some (f64_as_f32 (as_f64 (to_be 7 new))) ∧
    indexer_data_cache db' = None.
Proof.
  intros Hix Hme Hci Hn Hcmp below.
  destruct (set_minimum_run (to_be 7 new) v db Hix Hci) as (db1 & Hrun1 & Hix1 & Hme1 & Htm1 & Hmin1 & Hc1).
  unfold on_ticket_winning_probability_oracle_event. rewrite (run_Ok _ _ _ _ _ (on_db_Ok _ _ _ _ Hrun1)), Hcmp, run_lift.
  destruct (incoming_channels_ok v.1 db1 (proj1 (ix_channels _ _ Hix1))) as (l & Hrun2 & Hp); [by rewrite Hme1|].
  rewrite Hme1 in Hp. rewrite (run_Ok _ _ _ _ _ (on_db_Ok _ _ _ _ Hrun2)), selector_of_channels_ok.
  assert (∀ e, e ∈ l → entry_wf e) as Hl.
  { intros e He. rewrite Hp in He. apply list_elem_of_filter in He as [_ He].
    by apply (entries_wf _ _ _ (proj1 (ix_channels _ _ Hix))). }
  pose proof (λ a, selects_below (me_onchain db) new v.1 l a Hn Hp) as Hsel. fold below in Hsel.
  destruct l as [|e l].
  - exists db1. split; [done|].
    assert (∀ a, below a = false) as Hno by (intros a; by rewrite <-Hsel).
    assert (filter below v.2 = []) as -> by (apply filter_none; intros; apply Hno).
    assert (filter (λ a, negb (below a)) v.2 = v.2) as ->.
    { clear -Hno. induction v.2 as [|a k IH]; [done|]. by rewrite filter_cons_bool, Hno, IH. }
    split; [by destruct v|]. rewrite Htm1. split; [|done]. split; [|done]. intros c _. change (value_in c []) with 0. lia.
  - set (sel := mkSelector ((λ e, (get_id e, channel_epoch e)) <$> e :: l) NoIndex (Unbounded, Unbounded)
      (Unbounded, Unbounded) None false) in *.
    set (sel' := with_winning_probability Unbounded (Excluded (to_be 7 new)) sel) in *.
    assert (selector_typed sel') as Hst.
    { split; [|split; [done|split; [done|]]].
      - apply Forall_fmap, Forall_forall. intros x Hx. pose proof (Hl x Hx) as Hw. by split; [apply get_id_wf|apply (ew_epoch _ Hw)].
      - split; [|done]. by split; [apply length_to_be|apply to_be_wf]. }
    destruct (mark_run sel' Rejected v db1 Hst Hix1) as (db2 & Hrun3 & Hix3 & Hi3 & Ha).
    exists db2. rewrite (run_Ok _ _ _ _ _ Hrun3). split; [done|].
    rewrite (filter_ext_in _ below) in Ha by (intros; apply Hsel).
    rewrite (filter_ext_in _ (λ a, negb (below a))) in Hix3 by (intros; by rewrite Hsel).
    rewrite Htm1 in Ha. rewrite Hi3. split; [done|]. split; [done|]. split; [done|].
    by rewrite (ticket_db_frame _ _ _ _ Hrun3).
Qed.
End MinimumWinProb.
