(* ===== verification/IndexerRuns.v ===== *)
(** * Concrete runs of the chain indexer

    A decoder that finds its events in a table, a node with one incoming
    channel and one ticket being redeemed, and the theorems of the indexer
    applied to them. *)
From Stdlib Require Import Floats.SpecFloat.
From stdpp Require Import gmap strings.
From S2P Require Import Prelude Primitives Crypto Channels Tickets WinProb SharedKeys Sphinx MetaPacket Por Packet PacketSpec.
From S2P Require Import TicketStore TicketStoreSpec TicketIndexSpec TicketStoreRuns TicketTable NodeDb NodeDbSpec.
From S2P Require Import Protocol ProtocolSpec NodeProtocol NodeProtocolSpec NodeRuns Indexer IndexerSpec IndexerFacts.

#[local] Existing Instances Z3_curve Z3_curve_laws toy_kdf toy_curve toy_curve_laws.
#[local] Existing Instances plain_hex plain_hex_laws table_order table_order_laws.
#[local] Existing Instances plain_addresses exact_floats toy_ed25519 toy_ed25519_laws.

(** ** A block of channel events *)
Definition toy_id : Hash := generate_channel_id toy_previous toy_me.

Definition toy_events : list HoprChannels.HoprChannelsEvents :=
  [HoprChannels.ChannelOpened toy_previous toy_me; HoprChannels.ChannelBalanceIncreased toy_id 500;
   HoprChannels.ChannelClosed (replicate 32 9); HoprChannels.OutgoingChannelClosureInitiated toy_id 77;
   HoprChannels.ChannelClosed toy_id; HoprChannels.ChannelOpened toy_previous toy_me].

#[local] Instance toy_decoder : LogDecoder := {|
  log_valid := λ _ _, true;
  HoprNodeManagementModuleEvents := unit;
  decode_announcements := λ _ _, None;
  decode_channels := λ _ data, toy_events !! Z.to_nat (from_be data);
  decode_network_registry := λ _ _, None;
  decode_token := λ _ _, None;
  decode_safe_registry := λ _ _, None;
  decode_module := λ _ _, None;
  decode_price_oracle := λ _ _, None;
  decode_win_prob_oracle := λ _ _, None
|}.

Definition toy_contracts : ContractAddresses :=
  let a n := replicate 20 n in mkContracts (a 1) (a 2) (a 3) (a 4) (a 5) (a 6) (a 7) (a 8) (a 9) (a 10).
Definition toy_safe : Address := replicate 20 42.
Definition toy_handlers : ContractEventHandlers := mkHandlers toy_contracts toy_safe (toy_key 2).

Definition toy_log (i : Z) : SerializableLog :=
  mkLog (replicate 20 2) [] [i] 0 5 (replicate 32 5) (replicate 32 i) i false None None None.
Definition toy_logs : list SerializableLog := toy_log <$> seqZ 0 6.

Lemma toy_indexed : indexed ([], []) toy_db.
Proof.
  split; [exact toy_db_ok| |exact empty_index_wf]. split; [apply empty_manager_wf|constructor|by vm_compute|].
  intros mark c. unfold marked. by vm_compute.
Qed.

Definition toy_entry (b : Z) (st : ChannelStatus) (epoch : Z) : ChannelEntry :=
  mkChannel toy_previous toy_me (mkBalance b) 0 st epoch toy_id.

Lemma follow_to own (events : list HoprChannels.HoprChannelsEvents) (event : HoprChannels.HoprChannelsEvents) (v v' : View) :
  event_ok v.1 event → follow own v event = v' → events_ok own events v' → events_ok own (event :: events) v.
Proof. intros Hev <- Hevs. by split. Qed.

Lemma toy_events_ok : events_ok (own_address toy_handlers) toy_events ([], []).
Proof.
  eapply (follow_to _ _ _ _ ([toy_entry 0 Open 1], [])); [|by_eval|].
  { split; [by_check|]. split; [by_check|]. intros e He. by apply elem_of_nil in He. }
  eapply (follow_to _ _ _ _ ([toy_entry 500 Open 1], [])); [split; [by_check|done]|by_eval|].
  eapply (follow_to _ _ _ _ ([toy_entry 500 Open 1], [])); [by_check|by_eval|].
  eapply (follow_to _ _ _ _ ([toy_entry 500 (PendingToClose (77 * 10 ^ 9)) 1], [])); [split; [by_check|done]|by_eval|].
  eapply (follow_to _ _ _ _ ([toy_entry 0 Closed 1], [])); [by_check|by_eval|].
  eapply (follow_to _ _ _ _ ([toy_entry 0 Open 2], [])); [|by_eval|exact I].
  split; [by_check|]. split; [by_check|]. intros e ->%list_elem_of_singleton _. by vm_compute.
Qed.

(** The channel is opened, funded, closed and reopened in its second epoch. *)
Lemma channels_follow_chain_witness :
  ∃ db', collect_block_events toy_handlers toy_logs toy_db =
      (db', Ok (significant toy_me toy_logs toy_events ([], []))) ∧
    indexed ([toy_entry 0 Open 2], []) db'.
Proof.
  destruct (channels_follow_chain toy_handlers toy_logs toy_events ([], []) toy_db toy_indexed) as (db' & Hrun & Hix).
  - repeat (constructor; [split; [reflexivity|split; [reflexivity|split; [by vm_compute|reflexivity]]]|]). constructor.
  - exact toy_events_ok.
  - exists db'. split; [exact Hrun|].
    assert (foldl (follow (own_address toy_handlers)) ([], []) toy_events =
      ([toy_entry 0 Open 2], [])) as He by by_eval.
    rewrite <-He. exact Hix.
Defined.

(** ** A ticket being redeemed *)
Definition redeeming_ticket : AcknowledgedTicket :=
  match acknowledge (mkUnacknowledged relayed_ticket (Z3_scalar_to_bytes 1)) (Z3_scalar_to_bytes 1) with
  | Ok t => mkAcknowledged BeingRedeemed (Tickets.ack_ticket t) (ack_response t)
  | _ => toy_acknowledged
  end.

(** A database with one ticket. *)
Definition row_for (a : AcknowledgedTicket) : TicketModel :=
  match ActiveModel_from (E:=DbSqlError) 1 a with
  | Ok r => r
  | _ => mkTicketModel 0 "" [] [] 0 [] [] [] [] 0 []
  end.

Definition manager_with (a : AcknowledgedTicket) : TicketManager :=
  mkTicketManager (mkTicketsDb [row_for a] 2 ∅ ∅) ∅ ∅ (Some []) [].

Definition db_with (a : AcknowledgedTicket) : HoprDb := set_ticket_manager (manager_with a) relay_db.

(** What [storable] asks for besides a valid signature, decided. *)
Definition storable_check (a : AcknowledgedTicket) : bool :=
  let t := verified_ticket (Tickets.ack_ticket a) in
  bool_decide (Ticket_typed t) && bool_decide (Ticket_built t) && bool_decide (array_wf 32 (ack_response a)) &&
  bool_decide (array_wf 32 (verified_hash (Tickets.ack_ticket a))) &&
  match Response_to_challenge (ack_response a) with
  | Ok c => bool_decide (t_challenge t = Challenge_to_ethereum_challenge c)
  | _ => false
  end.

Lemma storable_by ds a : VerifiedTicket_wf ds (Tickets.ack_ticket a) → storable_check a = true → storable ds a.
Proof.
  unfold storable_check, storable. intros Hwf ((((Ht & Hb)%andb_prop & Hr)%andb_prop & Hh)%andb_prop & Hc)%andb_prop.
  apply bool_decide_eq_true in Ht, Hb, Hr, Hh. split_and!; [done..|].
  destruct (Response_to_challenge (ack_response a)) as [c| |]; [|done..].
  exists c. split; [done|]. by apply bool_decide_eq_true in Hc.
Qed.

Lemma redeeming_storable : storable toy_ds redeeming_ticket.
Proof.
  apply storable_by; [|by_eval]. assert (Tickets.ack_ticket redeeming_ticket = relayed_ticket) as -> by by_eval.
  apply (ro_ticket _ _ _ _ _ _ relayed_redeemable).
Qed.

Lemma row_for_storable ds a :
  storable ds a → ActiveModel_from (E:=DbSqlError) 1 a = Ok (row_for a) ∧ m_id (row_for a) = 1 ∧
    m_amount (row_for a) = U256_to_be_bytes (value_of a) ∧ in_u 256 (value_of a).
Proof.
  intros Hs. destruct (row_roundtrip ds 1 a Hs) as (r & Hr & _). unfold row_for. rewrite Hr. split; [done|].
  destruct Hs as (_ & (_ & Ha & _) & _).
  unfold ActiveModel_from in Hr. apply bind_Ok in Hr as (sig & _ & [= <-]). done.
Qed.

Lemma holds_one ds a :
  storable ds a → t_index_offset (ticket_of a) < 2 ^ 31 → holds [a] (manager_with a).
Proof.
  intros Hs Ho. destruct (row_for_storable ds a Hs) as (Hr & Hid & Ham & Hv).
  assert (Forall (λ r, column_wf (m_amount r)) [row_for a]) as Hcol.
  { constructor; [|done]. rewrite Ham. split; [apply to_be_wf|]. unfold U256_to_be_bytes. by rewrite length_to_be. }
  assert (total [row_for a] = value_of a) as Ht.
  { cbn. unfold row_value. rewrite Ham. unfold U256_to_be_bytes. rewrite (from_be_to_be_small 32) by done. lia. }
  assert (0 ≤ value_of a ≤ U256_max) as Hb by (unfold in_u, U256_max, u_max in *; lia).
  split; cbn [tickets tickets_db manager_with].
  - split; cbn [tickets statistics next_id]; [done|apply map_Forall_empty|apply NoDup_singleton| |apply NoDup_singleton].
    apply Forall_singleton. rewrite Hid. lia.
  - constructor; [|constructor]. split; [by exists ds|]. split; [done|]. by rewrite Hid.
  - lia.
  - intros mark c. unfold marked, channel_total. cbn [statistics]. rewrite lookup_empty.
    pose proof (total_filter (in_channel c) [row_for a]) as Hf. rewrite Ht in Hf.
    assert (0 ≤ total (filter (λ r, negb (in_channel c r)) [row_for a])) by (by apply total_nonneg, Forall_filter). lia.
Qed.

Lemma db_ok_tickets entries m (db : HoprDb) : db_ok entries db → db_ok entries (set_ticket_manager m db).
Proof. intros Hok. by apply (db_ok_frame entries db). Qed.

Lemma indexed_one ds a :
  storable ds a → t_index_offset (ticket_of a) < 2 ^ 31 →
  indexed ([toy_incoming; toy_outgoing_channel], [a]) (db_with a).
Proof.
  intros Hs Ho. split.
  - apply db_ok_tickets, relay_db_ok.
  - by apply (holds_one ds).
  - split; cbn [outgoing_indices tickets_db ticket_manager manager_with index_cache db_with set_ticket_manager].
    + intros k b. by rewrite lookup_empty.
    + intros c i. by rewrite lookup_empty.
Qed.

(** The ticket with index 5 is redeemed: the index of the channel becomes 6. *)
Lemma redeemed_ticket_settled_witness :
  ∃ db', on_channel_event toy_handlers (HoprChannels.TicketRedeemed (get_id toy_incoming) 6) (db_with redeeming_ticket) =
      (db', Ok (Some (TicketRedeemed (edit_entry toy_incoming (EditTicketIndex 6)) (Some redeeming_ticket)))) ∧
    marked (tickets_db (ticket_manager db')) Redeemed (to_hex (get_id toy_incoming)) = 100.
Proof.
  destruct (redeemed_ticket_settled toy_handlers 6 toy_incoming redeeming_ticket
    ([toy_incoming; toy_outgoing_channel], [redeeming_ticket]) (db_with redeeming_ticket)
    (indexed_one _ _ redeeming_storable ltac:(by_check)))
    as (db' & entries' & Hrun & _ & _ & Hset).
  - left.
  - by_check.
  - by vm_compute.
  - by_eval.
  - by_eval.
  - exists db'. split; [exact Hrun|]. destruct (Hset (get_id toy_incoming)) as [Hr _]; [by_check|]. rewrite Hr. by_eval.
Defined.

(** ** Transfers, key bindings and the minimum winning probability *)
Definition toy_transfers : list TokenTransfer :=
  [(replicate 20 7, toy_safe, 100); (toy_safe, replicate 20 8, 30); (toy_safe, toy_safe, 5); (replicate 20 7, replicate 20 8, 9)].

(** 70 is the balance of the Safe, 75 what is recorded. *)
Lemma safe_balance_follows_witness :
  ∃ db', on_transfers toy_handlers toy_transfers toy_db = (db', Ok tt) ∧ recorded (70 + 5) db'.
Proof.
  destruct (safe_balance_follows toy_handlers toy_transfers 0 toy_db) as (db' & Hrun & Hr & _).
  - exists node_info_default. split; [reflexivity|]. split; [split; [by_check|by vm_compute; lia]|reflexivity].
  - repeat (split; [by vm_compute|]). exact I.
  - exists db'. split; [exact Hrun|exact Hr].
Defined.

Lemma key_binding_indexed_witness :
  ∃ kb db', KeyBinding_new (E:=CoreTypesError) toy_next (toy_node 3) = Ok kb ∧
    on_announcement_event (HoprAnnouncements.KeyBinding (take 32 (kb_signature kb)) (drop 32 (kb_signature kb))
      (opk_compressed (ok_public (toy_node 3))) toy_next) 12 toy_db = (db', Ok None) ∧
    resolve_packet_key toy_next db' = (db', Ok (Some (ok_public (toy_node 3)))).
Proof.
  assert (is_ok (KeyBinding_new (E:=CoreTypesError) toy_next (toy_node 3)) = true) as Ho by by_eval.
  destruct (KeyBinding_new (E:=CoreTypesError) toy_next (toy_node 3)) as [kb| |] eqn:Hkb; [|discriminate Ho..].
  destruct (key_binding_indexed (replicate 32 3) (toy_node 3) toy_next kb 12 toy_db) as [(db' & Hrun & _ & _ & _ & Hp) _].
  - by_eval.
  - by_check.
  - exact Hkb.
  - apply lookup_empty.
  - apply lookup_empty.
  - exists kb, db'. split; [reflexivity|]. split; [exact Hrun|exact Hp].
Defined.

(** A ticket that wins with a probability of one half. *)
Definition cheap_builder : TicketBuilder :=
  set_win_prob (WinProb_from_u64 (2 ^ 55)) (set_challenge (hop_challenge 1 1) (set_amount 100 (set_index 5
    (set_direction toy_previous toy_me TicketBuilder_default)))).
Definition cheap_ticket : AcknowledgedTicket :=
  match build_signed cheap_builder (toy_key 1) toy_ds with
  | Ok vt => mkAcknowledged Untouched vt (ack_response redeeming_ticket)
  | _ => toy_acknowledged
  end.

Lemma cheap_storable : storable toy_ds cheap_ticket.
Proof.
  apply storable_by; [|by_eval]. unfold cheap_ticket.
  assert (is_ok (build_signed cheap_builder (toy_key 1) toy_ds) = true) as Ho by by_eval.
  destruct (build_signed cheap_builder (toy_key 1) toy_ds) as [vt| |] eqn:Hb; [|discriminate Ho..].
  by destruct (build_signed_Ok _ _ 1 _ _ (toy_key_wf 1 ltac:(lia)) Hb) as (_ & _ & _ & _ & Hwf & _).
Qed.

Lemma filtered_out entries a (P : AcknowledgedTicket → bool) db :
  P a = false → indexed (entries, filter P [a]) db → indexed (entries, []) db.
Proof. intros HP. by rewrite filter_cons_bool, HP. Qed.

(** Raising the minimum above one half rejects the ticket. *)
Lemma raised_minimum_rejects_witness :
  ∃ db', on_ticket_winning_probability_oracle_event (HoprWinningProbabilityOracle.WinProbUpdated (2 ^ 54) (2 ^ 55 + 2 ^ 54))
      (db_with cheap_ticket) = (db', Ok None) ∧
    indexed ([toy_incoming; toy_outgoing_channel], []) db' ∧
    marked (tickets_db (ticket_manager db')) Rejected (to_hex (get_id toy_incoming)) = 100.
Proof.
  destruct (raised_minimum_rejects (2 ^ 54) (2 ^ 55 + 2 ^ 54) ([toy_incoming; toy_outgoing_channel], [cheap_ticket])
    (db_with cheap_ticket) (indexed_one _ _ cheap_storable ltac:(by_check))) as (db' & Hrun & Hix & [Ha _] & _).
  - by_check.
  - exists toy_chain_info. by_eval.
  - by vm_compute.
  - by_eval.
  - exists db'. split; [exact Hrun|]. split.
    + refine (filtered_out _ cheap_ticket _ db' _ Hix). by_eval.
    + rewrite (Ha (get_id toy_incoming)) by by_check. by_eval.
Defined.
