(* ===== verification/Logs.v ===== *)
(** * The log database

    Models [db/sql/src/logs.rs] with the conversions of
    [db/entity/src/conversions/logs.rs]: the raw logs of the contracts as they
    were fetched, for each log whether it was processed and its checksum in the
    chain of all logs, and the contracts and topics the logs were fetched for.
    The tables of a separate database; their primary key is block, transaction
    and log, all as big-endian blobs.  Every query that returns several rows has
    an [ORDER BY] over the whole key. *)
From stdpp Require Import gmap strings sorting.
From S2P Require Import Prelude Primitives Crypto Channels Tickets TicketStore.

(** ** Rows *)
Record LogModel := mkLogModel {
  lm_address : bytes;
  lm_topics : bytes;
  lm_data : bytes;
  lm_block_number : bytes;
  lm_transaction_hash : bytes;
  lm_transaction_index : bytes;
  lm_block_hash : bytes;
  lm_log_index : bytes;
  lm_removed : bool
}.

Record LogStatusModel := mkLogStatus {
  ls_block_number : bytes;
  ls_transaction_index : bytes;
  ls_log_index : bytes;
  ls_processed : bool;
  ls_processed_at : option Z;
  ls_checksum : option bytes
}.

Record LogsDb := mkLogsDb {
  log : list LogModel;
  log_status : list LogStatusModel;
  log_topic_info : list (string * string)
}.

Definition set_log (v : list LogModel) (d : LogsDb) : LogsDb := mkLogsDb v (log_status d) (log_topic_info d).
Definition set_log_status (v : list LogStatusModel) (d : LogsDb) : LogsDb := mkLogsDb (log d) v (log_topic_info d).
Definition set_log_topic_info (v : list (string * string)) (d : LogsDb) : LogsDb := mkLogsDb (log d) (log_status d) v.

Abbreviation LX := (SM LogsDb DbError).

(** ** Keys and their order *)
Definition LogKey : Type := bytes * bytes * bytes.

Definition log_key (m : LogModel) : LogKey := (lm_block_number m, lm_transaction_index m, lm_log_index m).
Definition status_key (s : LogStatusModel) : LogKey := (ls_block_number s, ls_transaction_index s, ls_log_index s).

Definition key_cmp (a b : LogKey) : comparison :=
  match bytes_cmp a.1.1 b.1.1 with
  | Eq => match bytes_cmp a.1.2 b.1.2 with Eq => bytes_cmp a.2 b.2 | c => c end
  | c => c
  end.

(** [ORDER BY] the key, ascending and descending. *)
Definition ascending {A} (key : A → LogKey) (x y : A) : Prop := key_cmp (key x) (key y) ≠ Gt.
Definition descending {A} (key : A → LogKey) (x y : A) : Prop := key_cmp (key x) (key y) ≠ Lt.

#[export] Instance ascending_dec {A} (key : A → LogKey) : RelDecision (ascending key).
Proof. intros x y. unfold ascending. apply _. Defined.
#[export] Instance descending_dec {A} (key : A → LogKey) : RelDecision (descending key).
Proof. intros x y. unfold descending. apply _. Defined.

(** The blocks of a query: from the first block on, or a number of them.  The
    sum is one of 64-bit integers. *)
Definition block_condition (first offset : option Z) (block : bytes) : bool :=
  let min_block_number := default 0 first in
  let max_block_number := (λ v, wrap 64 (min_block_number + v + 1)) <$> offset in
  blob_le (to_be 8 min_block_number) block &&
  match max_block_number with Some v => blob_lt block (to_be 8 v) | None => true end.

Section Logs.
Context `{!Secp256k1} `{!HexCodec}.

(** ** Conversions *)
Definition log_ActiveModel_from (value : SerializableLog) : LogModel :=
  mkLogModel (log_address value) (concat (log_topics value)) (log_data value) (to_be 8 (block_number value))
    (tx_hash value) (to_be 8 (tx_index value)) (block_hash value) (to_be 8 (log_index value)) (removed value).

Definition U256_as_u64 {E} (b : bytes) : outcome E Z := v ← U256_from_be_bytes b; U256_as 64 v.

Definition array_32 (what : string) (b : bytes) : outcome DbEntityError bytes :=
  map_err (λ _, ConversionError what) (array_try_from 32 what b).

Definition SerializableLog_try_from (value : LogModel) : outcome DbEntityError SerializableLog :=
  transaction_hash ← array_32 "Invalid tx_hash" (lm_transaction_hash value);
  hash_of_block ← array_32 "Invalid block_hash" (lm_block_hash value);
  address ← Address_new (lm_address value);
  block ← U256_as_u64 (lm_block_number value);
  tx ← U256_as_u64 (lm_transaction_index value);
  index ← U256_as_u64 (lm_log_index value);
  Ok (mkLog address (chunks_exact 32 (lm_topics value)) (lm_data value) tx block hash_of_block transaction_hash index
        (lm_removed value) None None None).

(** A checksum that is no hash in hexadecimal panics. *)
Definition log_status_ActiveModel_from {E} (value : SerializableLog) : outcome E LogStatusModel :=
  sum ← match checksum value with Some c => h ← unwrap (Hash_from_hex c); Ok (Some h) | None => Ok None end;
  Ok (mkLogStatus (to_be 8 (block_number value)) (to_be 8 (tx_index value)) (to_be 8 (log_index value))
        (default false (processed value)) (processed_at value) sum).

Definition set_log_state (p : option bool) (at_ : option Z) (sum : option string) (l : SerializableLog) : SerializableLog :=
  mkLog (log_address l) (log_topics l) (log_data l) (tx_index l) (block_number l) (block_hash l) (tx_hash l) (log_index l)
    (removed l) p at_ sum.

Definition create_log (raw_log : LogModel) (status : LogStatusModel) : DR SerializableLog :=
  log ← map_err EntityError (SerializableLog_try_from raw_log);
  sum ← match ls_checksum status with
        | Some c => map_err (λ _, EntityError (ConversionError "Invalid log checksum"))
            (h ← array_try_from 32 "Hash" c; Ok (Some (to_hex h)))
        | None => Ok None
        end;
  Ok (set_log_state (Some (ls_processed status)) (ls_processed_at status) sum log).

(** ** Storing logs *)

(** [ON CONFLICT DO NOTHING]: a row that is there already is reported. *)
Definition insert_log_status (m : LogStatusModel) : LX unit :=
  d ← get;
  if existsb (λ s, bool_decide (status_key s = status_key m)) (log_status d)
  then throw (General (BackendError "RecordNotInserted"))
  else modify (set_log_status (log_status d ++ [m])).
Definition insert_log (m : LogModel) : LX unit :=
  d ← get;
  if existsb (λ l, bool_decide (log_key l = log_key m)) (log d)
  then throw (General (BackendError "RecordNotInserted"))
  else modify (set_log (log d ++ [m])).

Definition insert_log_with_status (l : SerializableLog) : LX unit :=
  let model := log_ActiveModel_from l in
  status_model ← lift (log_status_ActiveModel_from l);
  insert_log_status status_model;; insert_log model.

(** The results of the single logs; none of them ends the transaction. *)
Fixpoint store_logs (logs : list SerializableLog) : LX (list (outcome DbError unit)) := λ d,
  match logs with
  | [] => (d, Ok [])
  | l :: logs =>
      match insert_log_with_status l d with
      | (d', Panic) => (d', Panic)
      | (d', o) => (rest ← store_logs logs; mret (o :: rest)) d'
      end
  end.

Definition store_log (l : SerializableLog) : LX unit :=
  results ← store_logs [l];
  match results with result :: _ => lift result | [] => lift Panic end.

(** ** Reading logs *)

(** [find_also_related]: each row with the row of the other table, if any. *)
Definition related_status (d : LogsDb) (m : LogModel) : option LogStatusModel :=
  hd_error (filter (λ s, status_key s = log_key m) (log_status d)).
Definition related_log (d : LogsDb) (s : LogStatusModel) : option LogModel :=
  hd_error (filter (λ m, log_key m = status_key s) (log d)).

Definition get_log (block_number tx_index log_index : Z) : LX SerializableLog :=
  d ← get;
  let key := (to_be 8 block_number, to_be 8 tx_index, to_be 8 log_index) in
  match last (filter (λ m, log_key m = key) (log d)) with
  | Some m =>
      match related_status d m with
      | Some status => lift (map_err General (create_log m status))
      | None => throw ApiMissingLogStatus
      end
  | None => throw ApiMissingLog
  end.

Definition loaded_log (d : LogsDb) (m : LogModel) : outcome DbError SerializableLog :=
  match related_status d m with
  | Some status => unwrap (create_log m status)
  | None => unwrap (SerializableLog_try_from m)
  end.

Definition selected_logs (block_number block_offset : option Z) (d : LogsDb) : list LogModel :=
  filter (λ m, block_condition block_number block_offset (lm_block_number m)) (log d).

Definition get_logs (block_number block_offset : option Z) : LX (list SerializableLog) :=
  d ← get;
  lift (mapM (loaded_log d) (merge_sort (ascending log_key) (selected_logs block_number block_offset d))).

Definition get_logs_count (block_number block_offset : option Z) : LX Z :=
  d ← get; mret (Z.of_nat (length (selected_logs block_number block_offset d))).

(** The order of blobs, for the distinct block numbers. *)
Definition blob_order (a b : bytes) : Prop := bytes_cmp a b ≠ Gt.
#[export] Instance blob_order_dec : RelDecision blob_order.
Proof. intros x y. unfold blob_order. apply _. Defined.

Definition get_logs_block_numbers (block_number block_offset : option Z) (processed : option bool) : LX (list Z) :=
  d ← get;
  let rows := filter (λ s, block_condition block_number block_offset (ls_block_number s) &&
                       match processed with Some v => Bool.eqb (ls_processed s) v | None => true end) (log_status d) in
  lift (mapM U256_as_u64 (merge_sort blob_order (remove_dups (ls_block_number <$> rows)))).

(** ** Marking logs *)
Definition set_status (p : bool) (at_ : option Z) (s : LogStatusModel) : LogStatusModel :=
  mkLogStatus (ls_block_number s) (ls_transaction_index s) (ls_log_index s) p at_ (ls_checksum s).

Definition mark_logs (p : bool) (at_ : option Z) (block_number block_offset : option Z) : LX unit :=
  modify (λ d, set_log_status ((λ s, if block_condition block_number block_offset (ls_block_number s)
                                     then set_status p at_ s else s) <$> log_status d) d).

(** [now] is the time of the call. *)
Definition set_logs_processed (now : Z) (block_number block_offset : option Z) : LX unit :=
  mark_logs true (Some now) block_number block_offset.
Definition set_logs_unprocessed (block_number block_offset : option Z) : LX unit :=
  mark_logs false None block_number block_offset.

(** All columns are written, the checksum too. *)
Definition set_log_processed (now : Z) (l : SerializableLog) : LX unit :=
  status ← lift (log_status_ActiveModel_from (set_log_state (Some true) (Some now) (checksum l) l));
  d ← get;
  if existsb (λ s, bool_decide (status_key s = status_key status)) (log_status d)
  then modify (set_log_status ((λ s, if bool_decide (status_key s = status_key status) then status else s) <$> log_status d))
  else throw (General (BackendError "RecordNotUpdated")).

(** ** Checksums *)
Definition checksummed (d : LogsDb) : list LogStatusModel :=
  merge_sort (descending status_key) (filter (λ s, is_Some (ls_checksum s)) (log_status d)).
Definition unchecked (d : LogsDb) : list LogStatusModel :=
  merge_sort (ascending status_key) (filter (λ s, ls_checksum s = None) (log_status d)).

Definition get_last_checksummed_log : LX (option SerializableLog) :=
  d ← get;
  match hd_error (checksummed d) with
  | Some status =>
      match related_log d status with
      | Some m =>
          match create_log m status with
          | Ok slog => mret (Some slog)
          | Err _ => mret None
          | Panic => lift Panic
          end
      | None => mret None
      end
  | None => mret None
  end.

Definition log_hash (m : LogModel) : Hash := Hash_create [lm_block_hash m; lm_transaction_hash m; lm_log_index m].
Definition next_checksum (last_checksum : Hash) (m : LogModel) : Hash := Hash_create [last_checksum; log_hash m].

Definition set_checksum (sum : Hash) (s : LogStatusModel) : LogStatusModel :=
  mkLogStatus (ls_block_number s) (ls_transaction_index s) (ls_log_index s) (ls_processed s) (ls_processed_at s) (Some sum).

Definition save_checksum (key : LogKey) (sum : Hash) (d : LogsDb) : LogsDb :=
  set_log_status ((λ s, if bool_decide (status_key s = key) then set_checksum sum s else s) <$> log_status d) d.

(** The loop ends at the first status without a log. *)
Fixpoint update_checksums (last_checksum : Hash) (entries : list (LogStatusModel * option LogModel)) : LX Hash :=
  match entries with
  | (status, Some log_entry) :: entries =>
      lift (map_err General (create_log log_entry status));;
      let sum := next_checksum last_checksum log_entry in
      modify (save_checksum (status_key status) sum);;
      update_checksums sum entries
  | _ => mret last_checksum
  end.

(** A transaction on the log database. *)
Definition logs_rollback {A} (f : LX A) : LX A := λ d,
  match f d with (d', Ok a) => (d', Ok a) | (_, Err e) => (d, Err e) | (_, Panic) => (d, Panic) end.

Definition Hash_default : Hash := replicate 32 0.

Definition last_checksum_of (d : LogsDb) : Hash :=
  match hd_error (checksummed d) ≫= ls_checksum with
  | Some c => match Hash_try_from c with Ok h => h | _ => Hash_default end
  | None => Hash_default
  end.

Definition update_logs_checksums : LX Hash :=
  logs_rollback (
    d ← get;
    update_checksums (last_checksum_of d) ((λ s, (s, related_log d s)) <$> unchecked d)).

(** ** The origin of the logs *)
Definition ensure_logs_origin (contract_address_topics : list (Address * Hash)) : LX unit :=
  let rows := (λ p, (to_hex p.1, to_hex p.2)) <$> contract_address_topics in
  if bool_decide (rows = []) then throw (ApiLogicalError "contract address topics must not be empty")
  else
    d ← get;
    if bool_decide (length (log d) = 0%nat) && bool_decide (length (log_topic_info d) = 0%nat) then
      if bool_decide (NoDup rows) then modify (set_log_topic_info rows)
      else throw (General (BackendError "UNIQUE constraint failed"))
    else if forallb (λ row, bool_decide (length (filter (λ r, r = row) (log_topic_info d)) = 1%nat)) rows then mret tt
    else throw InconsistentLogs.
End Logs.
