(* ===== verification/LogsSpec.v ===== *)
(** * What the log database holds

    The log database refines a list of logs in the order of block, transaction
    and log: queries return parts of the list in that order, markings map over
    it, and the checksums are the running hash of all logs.  *)
From stdpp Require Import gmap strings sorting.
From S2P Require Import Prelude Primitives Crypto Channels Tickets TicketStore TicketStoreSpec TicketTable Logs.

(** ** Total orders from comparisons *)
Class TotalCmp {A} (cmp : A → A → comparison) := {
  cmp_eq a b : cmp a b = Eq ↔ a = b;
  cmp_opp a b : cmp b a = CompOpp (cmp a b);
  cmp_trans a b c : cmp a b = Lt → cmp b c = Lt → cmp a c = Lt
}.

#[export] Instance bytes_total : TotalCmp bytes_cmp.
Proof.
  split.
  - induction a as [|x a IH]; intros [|y b]; [done..|]. cbn.
    destruct (Z.compare_spec x y) as [->| |]; [rewrite IH; split; [by intros ->|by intros [= ->]]|..];
      (split; [done|intros [= ? ?]; lia]).
  - induction a as [|x a IH]; intros [|y b]; [done..|]. cbn. rewrite (Z.compare_antisym x y).
    destruct (x ?= y); [apply IH|done..].
  - induction a as [|x a IH]; intros [|y b] [|z c]; [done..|]. cbn.
    destruct (Z.compare_spec x y) as [->|Hxy|]; [|intros _|done].
    + destruct (y ?= z); [apply IH|done..].
    + destruct (Z.compare_spec y z) as [<-|Hyz|]; [..|done]; intros _; by rewrite (proj2 (Z.compare_lt_iff x _)) by lia.
Qed.

#[export] Instance key_total : TotalCmp key_cmp.
Proof.
  unfold key_cmp. split.
  - intros [[a1 a2] a3] [[b1 b2] b3]; cbn.
    transitivity (bytes_cmp a1 b1 = Eq ∧ bytes_cmp a2 b2 = Eq ∧ bytes_cmp a3 b3 = Eq).
    + destruct (bytes_cmp a1 b1), (bytes_cmp a2 b2), (bytes_cmp a3 b3); intuition congruence.
    + rewrite !cmp_eq. split; [by intros (-> & -> & ->)|by intros [= -> -> ->]].
  - intros [[a1 a2] a3] [[b1 b2] b3]; cbn. rewrite (cmp_opp (cmp:=bytes_cmp) a1 b1), (cmp_opp (cmp:=bytes_cmp) a2 b2), (cmp_opp (cmp:=bytes_cmp) a3 b3).
    by destruct (bytes_cmp a1 b1), (bytes_cmp a2 b2).
  - intros [[a1 a2] a3] [[b1 b2] b3] [[c1 c2] c3]; cbn.
    destruct (bytes_cmp a1 b1) eqn:H1; [apply cmp_eq in H1 as ->| |done].
    + destruct (bytes_cmp b1 c1); [|done..].
      destruct (bytes_cmp a2 b2) eqn:H2; [apply cmp_eq in H2 as ->| |done].
      * destruct (bytes_cmp b2 c2); [|done..]. apply cmp_trans.
      * destruct (bytes_cmp b2 c2) eqn:H3; [apply cmp_eq in H3 as <-| |done]; intros _; [by rewrite H2|].
        by rewrite (cmp_trans _ _ _ H2 H3).
    + intros _. destruct (bytes_cmp b1 c1) eqn:H2; [apply cmp_eq in H2 as <-| |done]; [by rewrite H1|].
      by rewrite (cmp_trans _ _ _ H1 H2).
Qed.

Lemma strongly_sorted_impl {A} (R S : A → A → Prop) l : (∀ x y, R x y → S x y) → StronglySorted R l → StronglySorted S l.
Proof. intros HRS. induction 1 as [|x l _ IH Hx]; constructor; [done|]. eapply Forall_impl; eauto. Qed.

Lemma strongly_sorted_filter {A} (R : A → A → Prop) (P : A → Prop) `{∀ x, Decision (P x)} l :
  StronglySorted R l → StronglySorted R (filter P l).
Proof.
  induction 1 as [|x l _ IH Hx]; [constructor|]. rewrite filter_cons. destruct (decide (P x)); [|done].
  constructor; [done|]. rewrite Forall_forall in Hx |- *. intros y [_ Hy]%list_elem_of_filter. by apply Hx.
Qed.

Lemma filter_fmap {A B} (f : A → B) (P : B → Prop) `{∀ b, Decision (P b)} (l : list A) :
  filter P (f <$> l) = f <$> filter (λ a, P (f a)) l.
Proof.
  induction l as [|x l IH]; [done|]. rewrite fmap_cons, !filter_cons, IH. by destruct (decide (P (f x))).
Qed.

(** The row of an element, found by its key. *)
Lemma filter_key {A B K} `{EqDecision K} (f : A → B) (key : B → K) (l : list A) x k :
  NoDup ((λ a, key (f a)) <$> l) → x ∈ l → key (f x) = k → filter (λ b, key b = k) (f <$> l) = [f x].
Proof.
  intros Hnd Hx <-. induction l as [|y l IH]; [by apply elem_of_nil in Hx|].
  csimpl in *. apply NoDup_cons in Hnd as [Hy Hnd]. rewrite filter_cons. apply elem_of_cons in Hx as [<-|Hx].
  - rewrite decide_True by done. f_equal. destruct (filter _ _) as [|b r] eqn:Hr; [done|]. destruct Hy.
    assert (b ∈ filter (λ b, key b = key (f x)) (f <$> l)) as Hb by (rewrite Hr; by left).
    apply list_elem_of_filter in Hb as [<- (z & -> & Hz)%list_elem_of_fmap]. by apply (list_elem_of_fmap_2 (λ a, key (f a))).
  - rewrite decide_False; [by apply IH|]. intros Hk. apply Hy. rewrite Hk. by apply (list_elem_of_fmap_2 (λ a, key (f a))).
Qed.

Section Sorting.
Context {K A} (cmp : K → K → comparison) `{!TotalCmp cmp} (key : A → K).

Definition le_by (x y : A) : Prop := cmp (key x) (key y) ≠ Gt.
Definition ge_by (x y : A) : Prop := cmp (key x) (key y) ≠ Lt.
Definition lt_by (x y : A) : Prop := cmp (key x) (key y) = Lt.

#[local] Instance le_by_total : Total le_by.
Proof using Type*. intros x y. unfold le_by. rewrite (cmp_opp (cmp:=cmp) (key x) (key y)). destruct (cmp (key x) (key y)); cbn; auto. Qed.

#[local] Instance le_by_trans : Transitive le_by.
Proof using Type*.
  intros x y z. unfold le_by. destruct (cmp (key x) (key y)) eqn:H1; [apply cmp_eq in H1 as ->; done| |done].
  intros _. destruct (cmp (key y) (key z)) eqn:H2; [apply cmp_eq in H2 as <-| |done]; [by rewrite H1|].
  by rewrite (cmp_trans _ _ _ H1 H2).
Qed.

#[local] Instance ge_by_total : Total ge_by.
Proof using Type*. intros x y. unfold ge_by. rewrite (cmp_opp (cmp:=cmp) (key x) (key y)). destruct (cmp (key x) (key y)); cbn; auto. Qed.

Lemma ge_by_le x y : ge_by x y ↔ le_by y x.
Proof using Type*. unfold ge_by, le_by. rewrite (cmp_opp (cmp:=cmp) (key x) (key y)). by destruct (cmp (key x) (key y)). Qed.

#[local] Instance ge_by_trans : Transitive ge_by.
Proof using Type*. intros x y z. rewrite !ge_by_le. intros. by etrans. Qed.

Lemma lt_by_distinct x y : lt_by x y → ¬ le_by y x.
Proof using Type*. unfold lt_by, le_by. rewrite (cmp_opp (cmp:=cmp) (key x) (key y)). intros -> H. by apply H. Qed.

Lemma strict_antisym l x y : StronglySorted lt_by l → x ∈ l → y ∈ l → le_by x y → le_by y x → x = y.
Proof using Type*.
  intros Hs. revert x y. induction Hs as [|z l _ IH Hz]; [by intros ?? ?%elem_of_nil|].
  rewrite Forall_forall in Hz. intros x y [->|Hx]%elem_of_cons [->|Hy]%elem_of_cons Hxy Hyx; [done|..|by apply IH].
  - by destruct (lt_by_distinct _ _ (Hz _ Hy)).
  - by destruct (lt_by_distinct _ _ (Hz _ Hx)).
Qed.

(** A list that is strictly sorted is what sorting any permutation of it gives,
    and its reverse is what sorting in descending order gives. *)
Lemma sort_to `{!RelDecision le_by} (l l' : list A) :
  l' ≡ₚ l → StronglySorted lt_by l' → merge_sort le_by l = l'.
Proof using Type*.
  intros Hp Hs. assert (StronglySorted le_by l') as Hle.
  { eapply strongly_sorted_impl; [|exact Hs]. intros x y Hxy. unfold le_by. by rewrite Hxy. }
  apply (StronglySorted_unique_strong le_by); [|apply (StronglySorted_merge_sort le_by)|done|by rewrite merge_sort_Permutation].
  intros x y Hx Hy. rewrite merge_sort_Permutation, <-Hp in Hx. by apply (strict_antisym l').
Qed.

Lemma sort_down_to `{!RelDecision ge_by} (l l' : list A) :
  l' ≡ₚ l → StronglySorted lt_by l' → merge_sort ge_by l = reverse l'.
Proof using Type*.
  intros Hp Hs. assert (StronglySorted ge_by (reverse l')) as Hge.
  { clear Hp. induction Hs as [|x l' Hs IH Hx]; [constructor|]. rewrite reverse_cons. apply StronglySorted_app_2; [|done|by repeat constructor].
    intros y z Hy ->%list_elem_of_singleton. rewrite reverse_Permutation in Hy. rewrite Forall_forall in Hx.
    apply ge_by_le. unfold le_by. by rewrite (Hx _ Hy). }
  apply (StronglySorted_unique_strong ge_by); [|apply (StronglySorted_merge_sort ge_by)|done|by rewrite merge_sort_Permutation, reverse_Permutation].
  intros x y Hx Hy. rewrite merge_sort_Permutation, <-Hp in Hx. rewrite reverse_Permutation in Hy. rewrite !ge_by_le.
  intros. by apply (strict_antisym l').
Qed.

Lemma lt_by_nodup l : StronglySorted lt_by l → NoDup (key <$> l).
Proof using Type*.
  induction 1 as [|x l _ IH Hx]; constructor; [|done]. intros (y & Hk & Hy)%list_elem_of_fmap.
  rewrite Forall_forall in Hx. pose proof (Hx _ Hy) as Hlt. unfold lt_by in Hlt.
  by rewrite (proj2 (cmp_eq _ _) Hk) in Hlt.
Qed.
End Sorting.

(** ** The list of logs *)
Section LogBook.
Context `{!Secp256k1} `{!HexCodec, !HexCodecLaws}.
#[local] Set Default Proof Using "Type*".

Definition log_lt (a b : SerializableLog) : Prop := SerializableLog_cmp a b = Lt.

(** A log as the table can give it back. *)
Record log_wf (l : SerializableLog) : Prop := {
  lw_address : length (log_address l) = 20%nat;
  lw_topics : Forall (λ t, length t = 32%nat) (log_topics l);
  lw_block : in_u 64 (block_number l);
  lw_tx : in_u 64 (tx_index l);
  lw_index : in_u 64 (log_index l);
  lw_block_hash : length (block_hash l) = 32%nat;
  lw_tx_hash : length (tx_hash l) = 32%nat;
  lw_processed : is_Some (processed l);
  lw_checksum : ∀ c, checksum l = Some c → ∃ h, c = to_hex h ∧ array_wf 32 h
}.

Definition checksum_bytes (c : option string) : option bytes :=
  match c with Some c => match Hash_from_hex c with Ok h => Some h | _ => None end | None => None end.

Definition status_of (l : SerializableLog) : LogStatusModel :=
  mkLogStatus (to_be 8 (block_number l)) (to_be 8 (tx_index l)) (to_be 8 (log_index l))
    (default false (processed l)) (processed_at l) (checksum_bytes (checksum l)).

(** The tables hold the logs [ls]; the rows may be in any order. *)
Definition logs_hold (ls : list SerializableLog) (d : LogsDb) : Prop :=
  StronglySorted log_lt ls ∧ Forall log_wf ls ∧
  ∃ us, us ≡ₚ ls ∧ log d = log_ActiveModel_from <$> us ∧ log_status d = status_of <$> us.

Lemma key_cmp_logs a b : log_wf a → log_wf b →
  key_cmp (log_key (log_ActiveModel_from a)) (log_key (log_ActiveModel_from b)) = SerializableLog_cmp a b.
Proof.
  intros [_ _ ?? ?] [_ _ ?? ?]. unfold key_cmp, SerializableLog_cmp. cbn. by rewrite !bytes_cmp_to_be.
Qed.

Lemma status_key_log l : status_key (status_of l) = log_key (log_ActiveModel_from l).
Proof. done. Qed.

Lemma log_lt_cmp a b : log_wf a → log_wf b →
  log_lt a b ↔ lt_by key_cmp (λ l, log_key (log_ActiveModel_from l)) a b.
Proof. intros Ha Hb. unfold log_lt, lt_by. by rewrite key_cmp_logs. Qed.

(** ** Rows of a log *)
Lemma topics_ok (ts : list bytes) : Forall (λ t, length t = 32%nat) ts → chunks_exact 32 (concat ts) = ts.
Proof.
  intros Ht. rewrite <-(app_nil_r (concat ts)). rewrite chunks_exact_concat by (done || lia). apply app_nil_r.
Qed.

Lemma U256_as_u64_to_be {E} z : in_u 64 z → U256_as_u64 (E:=E) (to_be 8 z) = Ok z.
Proof.
  intros Hz. unfold U256_as_u64, U256_from_be_bytes. rewrite length_to_be. cbn [bool_decide decide_rel mbind].
  rewrite bool_decide_eq_true_2 by lia. cbn. rewrite from_be_to_be_small by done. unfold U256_as.
  by rewrite (proj2 (Z.ltb_lt _ _)) by apply Hz.
Qed.

Lemma array_32_ok what b : length b = 32%nat → array_32 what b = Ok b.
Proof. intros Hb. unfold array_32, array_try_from. by rewrite bool_decide_eq_true_2. Qed.

Lemma try_from_model l : log_wf l →
  SerializableLog_try_from (log_ActiveModel_from l) = Ok (set_log_state None None None l).
Proof.
  intros [Ha Ht Hb Hx Hi Hbh Hth _ _]. unfold SerializableLog_try_from, log_ActiveModel_from.
  cbn [lm_address lm_topics lm_data lm_block_number lm_transaction_hash lm_transaction_index lm_block_hash lm_log_index lm_removed].
  rewrite !array_32_ok by done. cbn [mbind outcome_bind]. unfold Address_new, copy_exact. rewrite bool_decide_eq_true_2 by done. cbn [mbind outcome_bind].
  rewrite !U256_as_u64_to_be by done. cbn [mbind outcome_bind]. by rewrite topics_ok.
Qed.

Lemma checksum_hex h : array_wf 32 h → checksum_bytes (Some (to_hex h)) = Some h.
Proof. intros Hh. unfold checksum_bytes. by rewrite Hash_from_to_hex. Qed.

Lemma create_log_ok l : log_wf l → create_log (log_ActiveModel_from l) (status_of l) = Ok l.
Proof.
  intros Hw. unfold create_log. rewrite try_from_model by done. cbn [map_err mbind outcome_bind status_of ls_checksum].
  destruct (lw_processed _ Hw) as [p Hp]. pose proof (lw_checksum _ Hw) as Hc.
  destruct l as [a t dt x b bh th i r p' at_ c]. cbn in *. subst p'. destruct c as [c|]; [|done].
  destruct (Hc c eq_refl) as (h & -> & Hh). rewrite checksum_hex by done. cbn. unfold array_try_from.
  rewrite bool_decide_eq_true_2 by apply Hh. done.
Qed.

Lemma status_row {E} l : log_wf l → log_status_ActiveModel_from (E:=E) l = Ok (status_of l).
Proof.
  intros Hw. unfold log_status_ActiveModel_from, status_of. destruct (checksum l) as [c|] eqn:Hc; [|done].
  destruct (lw_checksum _ Hw c Hc) as (h & -> & Hh). rewrite checksum_hex by done. by rewrite Hash_from_to_hex.
Qed.

(** ** Queries *)
Definition logged (l : SerializableLog) : LogKey := log_key (log_ActiveModel_from l).

Lemma sorted_logs ls : Forall log_wf ls → StronglySorted log_lt ls → StronglySorted (lt_by key_cmp logged) ls.
Proof.
  intros Hw. induction 1 as [|x ls _ IH Hx]; constructor; apply Forall_cons in Hw as [Hxw Hw]; [by apply IH|].
  rewrite Forall_forall in Hw, Hx |- *. intros y Hy. apply (log_lt_cmp x y); auto.
Qed.

(** The rows of a table that satisfy a condition, in the order of a query. *)
Lemma sorted_rows {B} (f : SerializableLog → B) (key : B → LogKey) (P : B → Prop) `{∀ b, Decision (P b)} us ls :
  (∀ l, key (f l) = logged l) → Forall log_wf ls → StronglySorted log_lt ls → us ≡ₚ ls →
  merge_sort (ascending key) (filter P (f <$> us)) = f <$> filter (λ l, P (f l)) ls ∧
  merge_sort (descending key) (filter P (f <$> us)) = reverse (f <$> filter (λ l, P (f l)) ls).
Proof.
  intros Hkey Hw Hs Hp.
  assert (f <$> filter (λ l, P (f l)) ls ≡ₚ filter P (f <$> us)) as Hp' by (by rewrite filter_fmap, Hp).
  assert (StronglySorted (lt_by key_cmp key) (f <$> filter (λ l, P (f l)) ls)) as Hs'.
  { apply (StronglySorted_fmap f (lt_by key_cmp logged)); [intros x y; unfold lt_by; by rewrite !Hkey|].
    by apply strongly_sorted_filter, sorted_logs. }
  split; [by apply (sort_to key_cmp key)|by apply (sort_down_to key_cmp key)].
Qed.

Lemma held_related ls d l : logs_hold ls d → l ∈ ls →
  related_status d (log_ActiveModel_from l) = Some (status_of l) ∧
  related_log d (status_of l) = Some (log_ActiveModel_from l).
Proof.
  intros (Hs & Hw & us & Hp & Hl & Hst) Hin.
  assert (NoDup (logged <$> us)) as Hnd by (rewrite Hp; by eapply lt_by_nodup, sorted_logs; [apply _|..]).
  rewrite <-Hp in Hin. unfold related_status, related_log. rewrite Hl, Hst.
  rewrite (filter_key status_of status_key us l), (filter_key log_ActiveModel_from log_key us l) by done. done.
Qed.

Definition in_blocks (first offset : option Z) (l : SerializableLog) : bool :=
  block_condition first offset (to_be 8 (block_number l)).

Lemma in_blocks_spec first offset l : log_wf l → in_u 64 (default 0 first) →
  in_blocks first offset l = (default 0 first <=? block_number l) &&
    match offset with Some v => block_number l <? wrap 64 (default 0 first + v + 1) | None => true end.
Proof.
  intros Hw Hf. unfold in_blocks, block_condition, blob_le, blob_lt. pose proof (lw_block _ Hw) as Hb.
  rewrite bytes_cmp_to_be by done. f_equal.
  destruct offset as [v|]; [|done]. cbn [fmap option_fmap option_map].
  rewrite bytes_cmp_to_be by (done || apply wrap_in_u; lia). by rewrite Z.ltb_compare.
Qed.

Lemma in_blocks_all l : log_wf l → in_blocks None None l = true.
Proof.
  intros Hl. rewrite in_blocks_spec; [|done|by apply in_u_0]. cbn. rewrite andb_true_r. apply Z.leb_le, (lw_block _ Hl).
Qed.

Lemma loaded_log_ok ls d l : logs_hold ls d → l ∈ ls → loaded_log d (log_ActiveModel_from l) = Ok l.
Proof.
  intros Hh Hin. unfold loaded_log. rewrite (proj1 (held_related ls d l Hh Hin)).
  destruct Hh as (_ & Hw & _). rewrite Forall_forall in Hw. by rewrite create_log_ok by auto.
Qed.

Lemma get_logs_ok first offset ls d : logs_hold ls d →
  get_logs first offset d = (d, Ok (filter (in_blocks first offset) ls)).
Proof.
  intros Hh. pose proof Hh as (Hs & Hw & us & Hp & Hl & Hst). unfold get_logs. rewrite run_get. unfold lift. f_equal.
  unfold selected_logs. rewrite Hl.
  rewrite (proj1 (sorted_rows log_ActiveModel_from log_key _ us ls (λ _, eq_refl) Hw Hs Hp)).
  set (k := filter _ ls). assert (∀ l, l ∈ k → l ∈ ls) as Hk by (by intros l [_ Hin]%list_elem_of_filter).
  change (filter (in_blocks first offset) ls) with k. clearbody k. induction k as [|l k IH]; [done|].
  cbn [fmap list_fmap mapM]. rewrite (loaded_log_ok ls d l Hh (Hk l (list_elem_of_here _ _))).
  cbn [mbind outcome_bind]. rewrite IH by (intros; apply Hk; by right). done.
Qed.

Lemma get_log_ok l ls d : logs_hold ls d → l ∈ ls →
  get_log (block_number l) (tx_index l) (log_index l) d = (d, Ok l).
Proof.
  intros Hh Hin. pose proof Hh as (Hs & Hw & us & Hp & Hl & Hst). unfold get_log. rewrite run_get.
  assert (NoDup (logged <$> us)) as Hnd by (rewrite Hp; by eapply lt_by_nodup, sorted_logs; [apply _|..]).
  rewrite Hl, (filter_key log_ActiveModel_from log_key us l) by (done || by rewrite Hp). cbn [last].
  rewrite (proj1 (held_related ls d l Hh Hin)), create_log_ok by (by rewrite Forall_forall in Hw; apply Hw). done.
Qed.

(** ** Storing *)

(** What the table keeps of a log. *)
Definition stored (l : SerializableLog) : SerializableLog :=
  set_log_state (Some (default false (processed l))) (processed_at l) (checksum l) l.

Fixpoint book_insert (l : SerializableLog) (ls : list SerializableLog) : list SerializableLog :=
  match ls with
  | [] => [l]
  | x :: ls' => match SerializableLog_cmp l x with Lt => l :: ls | _ => x :: book_insert l ls' end
  end.

Definition same_id (a b : SerializableLog) : bool := match SerializableLog_cmp a b with Eq => true | _ => false end.

(** A log is kept once; storing it again is an error. *)
Definition book_store (l : SerializableLog) (ls : list SerializableLog) : list SerializableLog * outcome DbError unit :=
  if existsb (same_id l) ls then (ls, Err (General (BackendError "RecordNotInserted"))) else (book_insert (stored l) ls, Ok tt).

Fixpoint book_store_all (logs : list SerializableLog) (ls : list SerializableLog) :
    list SerializableLog * list (outcome DbError unit) :=
  match logs with
  | [] => (ls, [])
  | l :: logs => let r := book_store l ls in let rest := book_store_all logs r.1 in (rest.1, r.2 :: rest.2)
  end.

Lemma same_id_key a b : log_wf a → log_wf b → same_id a b = true ↔ logged a = logged b.
Proof.
  intros Ha Hb. unfold same_id. rewrite <-(cmp_eq (cmp:=key_cmp)). unfold logged. rewrite key_cmp_logs by done.
  by destruct (SerializableLog_cmp a b).
Qed.

Lemma book_insert_perm l ls : book_insert l ls ≡ₚ l :: ls.
Proof using Type.
  induction ls as [|x ls IH]; [done|]. cbn. destruct (SerializableLog_cmp l x); [|done|]; rewrite IH; apply Permutation_swap.
Qed.

Lemma book_insert_sorted l ls :
  StronglySorted log_lt ls → existsb (same_id l) ls = false → StronglySorted log_lt (book_insert l ls).
Proof using Type.
  induction 1 as [|x ls Hs IH Hx]; [by repeat constructor|]. cbn. intros [Hne Hnot]%orb_false_iff.
  unfold same_id in Hne. destruct (SerializableLog_cmp l x) eqn:Hc; [done|..].
  - constructor; [by constructor|]. constructor; [done|]. rewrite Forall_forall in Hx |- *. intros y Hy.
    by apply (SerializableLog_cmp_trans _ x), Hx.
  - constructor; [by apply IH|]. apply Forall_forall. intros y Hy. rewrite book_insert_perm in Hy.
    apply elem_of_cons in Hy as [->|Hy]; [|rewrite Forall_forall in Hx; by apply Hx].
    unfold log_lt. by rewrite SerializableLog_cmp_antisym, Hc.
Qed.

Lemma book_insert_last l ls : Forall (λ x, log_lt x l) ls → book_insert l ls = ls ++ [l].
Proof using Type.
  induction 1 as [|x ls Hx _ IH]; [done|]. cbn. rewrite SerializableLog_cmp_antisym, Hx, IH. done.
Qed.

Lemma existsb_key {B} (f : SerializableLog → B) (key : B → LogKey) us ls l :
  (∀ x, key (f x) = logged x) → log_wf l → Forall log_wf ls → us ≡ₚ ls →
  existsb (λ b, bool_decide (key b = logged l)) (f <$> us) = existsb (same_id l) ls.
Proof.
  intros Hkey Hl Hw Hp. rewrite Forall_forall in Hw. apply eq_true_iff_eq. rewrite !existsb_exists. split.
  - intros (b & Hb & Hk%bool_decide_eq_true). apply list_elem_of_In in Hb. apply list_elem_of_fmap in Hb as (x & -> & Hx).
    rewrite Hp in Hx. exists x. split; [by apply list_elem_of_In|]. apply same_id_key; [done|by apply Hw|]. by rewrite <-Hk, Hkey.
  - intros (x & Hx & Hk). apply list_elem_of_In in Hx. exists (f x). split.
    + apply list_elem_of_In, list_elem_of_fmap_2. by rewrite Hp.
    + apply bool_decide_eq_true. rewrite Hkey. symmetry. apply same_id_key; [done|by apply Hw|done].
Qed.

Lemma insert_log_ok l ls d : logs_hold ls d → log_wf (stored l) →
  ∃ d', insert_log_with_status l d = (d', (book_store l ls).2) ∧ logs_hold (book_store l ls).1 d'.
Proof.
  intros Hh Hl. pose proof Hh as (Hs & Hw & us & Hp & Hlog & Hst). unfold insert_log_with_status, book_store. cbv zeta.
  change (log_status_ActiveModel_from l) with (log_status_ActiveModel_from (E:=DbError) (stored l)).
  rewrite status_row, run_lift by done. unfold insert_log_status. rewrite run_bind, run_get, Hst.
  change (status_key (status_of (stored l))) with (logged (stored l)).
  rewrite (existsb_key status_of status_key us ls (stored l)) by done.
  change (existsb (same_id (stored l)) ls) with (existsb (same_id l) ls).
  destruct (existsb (same_id l) ls) eqn:Hex; [by exists d|].
  rewrite run_modify. unfold insert_log. rewrite run_get. cbn [log set_log_status]. rewrite Hlog.
  change (log_key (log_ActiveModel_from l)) with (logged (stored l)).
  rewrite (existsb_key log_ActiveModel_from log_key us ls (stored l)) by done.
  change (existsb (same_id (stored l)) ls) with (existsb (same_id l) ls). rewrite Hex.
  eexists. split; [reflexivity|]. split; [by apply book_insert_sorted|]. split.
  - apply Forall_forall. intros x Hx. rewrite book_insert_perm in Hx. rewrite Forall_forall in Hw.
    apply elem_of_cons in Hx as [->|Hx]; [done|by apply Hw].
  - exists (us ++ [stored l]). split; [by rewrite book_insert_perm, Permutation_app_comm, Hp|].
    cbn [log log_status set_log set_log_status]. by rewrite !fmap_app, ?Hlog.
Qed.

Lemma store_logs_ok logs ls d : logs_hold ls d → Forall (λ l, log_wf (stored l)) logs →
  ∃ d', store_logs logs d = (d', Ok (book_store_all logs ls).2) ∧ logs_hold (book_store_all logs ls).1 d'.
Proof.
  intros Hh Hl. revert ls d Hh. induction Hl as [|l logs Hl _ IH]; intros ls d Hh; [by exists d|].
  destruct (insert_log_ok l ls d Hh Hl) as (d1 & Hrun & Hh1). cbn [store_logs book_store_all]. rewrite Hrun.
  destruct (IH _ _ Hh1) as (d' & Hrun' & Hh'). exists d'. split; [|exact Hh'].
  unfold book_store in *. destruct (existsb _ _); cbn [snd fst] in *; by rewrite (run_Ok _ _ _ _ _ Hrun').
Qed.

(** New logs after all others are appended. *)
Lemma book_append logs ls :
  StronglySorted log_lt (ls ++ logs) → book_store_all logs ls = (ls ++ (stored <$> logs), (λ _, Ok tt) <$> logs).
Proof using Type.
  revert ls. induction logs as [|l logs IH]; intros ls Hs; [cbn; by rewrite app_nil_r|].
  pose proof (proj1 (StronglySorted_app _ _ _) Hs) as (Hlt & _ & _).
  assert (existsb (same_id l) ls = false) as Hex.
  { apply not_true_iff_false. intros (x & Hx%list_elem_of_In & Hk)%existsb_exists.
    pose proof (Hlt x l Hx (list_elem_of_here _ _)) as Hxl. unfold same_id in Hk. by rewrite SerializableLog_cmp_antisym, Hxl in Hk. }
  cbn [book_store_all]. unfold book_store. rewrite Hex. cbn [fst snd].
  rewrite book_insert_last by (apply Forall_forall; intros x Hx; exact (Hlt x l Hx (list_elem_of_here _ _))).
  rewrite IH; [cbn; by rewrite <-app_assoc|]. rewrite <-app_assoc. clear -Hs.
  induction ls as [|x ls IH]; cbn in *; apply StronglySorted_cons in Hs as [Hx Hs]; constructor; [done|done|by apply IH|].
  rewrite Forall_app, Forall_cons in Hx |- *. done.
Qed.

(** ** Markings *)

(** A change of the status rows that is one of the logs. *)
Lemma hold_map (f : SerializableLog → SerializableLog) (g : LogStatusModel → LogStatusModel) ls d :
  logs_hold ls d →
  (∀ l, l ∈ ls → log_ActiveModel_from (f l) = log_ActiveModel_from l ∧ status_of (f l) = g (status_of l) ∧ log_wf (f l)) →
  logs_hold (f <$> ls) (set_log_status (g <$> log_status d) d).
Proof.
  intros (Hs & Hw & us & Hp & Hl & Hst) Hf. split; [|split].
  - assert (∀ a b, a ∈ ls → b ∈ ls → SerializableLog_cmp (f a) (f b) = SerializableLog_cmp a b) as Hcmp.
    { intros a b Ha Hb. rewrite Forall_forall in Hw. destruct (Hf _ Ha) as (Hma & _ & Hwa), (Hf _ Hb) as (Hmb & _ & Hwb).
      by rewrite <-!key_cmp_logs, Hma, Hmb by auto. }
    clear -Hs Hcmp. induction Hs as [|x ls _ IH Hx]; cbn; constructor.
    + apply IH. intros; apply Hcmp; by right.
    + rewrite Forall_forall in Hx. apply Forall_forall. intros ? (y & -> & Hy)%list_elem_of_fmap.
      unfold log_lt. rewrite Hcmp by (by left || by right). by apply Hx.
  - apply Forall_forall. intros ? (l & -> & Hin)%list_elem_of_fmap. by apply Hf.
  - exists (f <$> us). split; [by rewrite Hp|]. cbn [log log_status set_log_status].
    rewrite Hl, Hst, <-!list_fmap_compose. split; apply list_fmap_ext; intros i l Hi; apply list_elem_of_lookup_2 in Hi;
      rewrite Hp in Hi; destruct (Hf _ Hi) as (Hm & Hg & _); [by symmetry|by cbn; rewrite Hg].
Qed.

Definition marked_log (p : bool) (at_ : option Z) (first offset : option Z) (l : SerializableLog) : SerializableLog :=
  if in_blocks first offset l then set_log_state (Some p) at_ (checksum l) l else l.

Lemma log_wf_state p at_ l : log_wf l → log_wf (set_log_state (Some p) at_ (checksum l) l).
Proof. intros []. split; cbn; eauto. Qed.

Lemma mark_logs_ok p at_ first offset ls d : logs_hold ls d →
  ∃ d', mark_logs p at_ first offset d = (d', Ok tt) ∧ logs_hold (marked_log p at_ first offset <$> ls) d'.
Proof.
  intros Hh. eexists. split; [reflexivity|]. apply hold_map; [done|]. intros l Hin.
  destruct Hh as (_ & Hw & _). rewrite Forall_forall in Hw. unfold marked_log, in_blocks. cbn [ls_block_number status_of].
  destruct (block_condition _ _ _); [|by auto]. split; [done|]. split; [done|]. by apply log_wf_state, Hw.
Qed.

End LogBook.

(** ** Checksums *)
Section Checksums.
Context `{!Secp256k1} `{!Secp256k1Laws} `{!HexCodec, !HexCodecLaws}.
#[local] Set Default Proof Using "Type*".

Definition next_sum (c : Hash) (l : SerializableLog) : Hash := next_checksum c (log_ActiveModel_from l).

(** The running hash of a list of logs. *)
Definition chain (c : Hash) (ls : list SerializableLog) : Hash := foldl next_sum c ls.

Definition with_checksum (c : Hash) (l : SerializableLog) : SerializableLog :=
  set_log_state (processed l) (processed_at l) (Some (to_hex c)) l.

Fixpoint with_checksums (c : Hash) (ls : list SerializableLog) : list SerializableLog :=
  match ls with
  | [] => []
  | l :: ls => with_checksum (next_sum c l) l :: with_checksums (next_sum c l) ls
  end.

Lemma with_checksums_app c a b : with_checksums c (a ++ b) = with_checksums c a ++ with_checksums (chain c a) b.
Proof using Type. revert c. induction a as [|l a IH]; intros c; [done|]. cbn. by rewrite IH. Qed.

Lemma chain_with_checksums c c' ls : chain c (with_checksums c' ls) = chain c ls.
Proof using Type. revert c c'. induction ls as [|l ls IH]; intros c c'; [done|]. cbn. apply IH. Qed.

Lemma with_checksums_idemp c ls : with_checksums c (with_checksums c ls) = with_checksums c ls.
Proof using Type. revert c. induction ls as [|l ls IH]; intros c; [done|]. cbn. f_equal. apply IH. Qed.

Lemma with_checksums_checked c ls : Forall (λ l, is_Some (checksum l)) (with_checksums c ls).
Proof using Type. revert c. induction ls as [|l ls IH]; intros c; constructor; [by eexists|apply IH]. Qed.

Lemma next_sum_wf c l : array_wf 32 (next_sum c l).
Proof. apply keccak256_wf. Qed.

Lemma chain_wf c ls : array_wf 32 c → array_wf 32 (chain c ls).
Proof. revert c. induction ls as [|l ls IH]; intros c Hc; [done|]. apply IH, next_sum_wf. Qed.

Lemma last_with_checksums c ls :
  match last (with_checksums c ls) with
  | Some l => checksum l = Some (to_hex (chain c ls))
  | None => ls = []
  end.
Proof using Type.
  induction ls as [|l ls _] using rev_ind; [done|]. rewrite with_checksums_app. cbn [with_checksums]. rewrite last_snoc.
  unfold chain. by rewrite foldl_app.
Qed.

Lemma log_wf_checksum c l : log_wf l → array_wf 32 c → log_wf (with_checksum c l).
Proof. intros [] Hc. split; cbn; [done..|]. intros ? [= <-]. by exists c. Qed.

(** The log [l] among [ls] gets a checksum. *)
Lemma save_checksum_ok done_ l rest c d :
  logs_hold (done_ ++ l :: rest) d → array_wf 32 c →
  logs_hold (done_ ++ with_checksum c l :: rest) (save_checksum (status_key (status_of l)) c d).
Proof.
  intros Hh Hc. pose proof Hh as (Hs & Hw & _). rewrite Forall_forall in Hw.
  assert (NoDup (logged <$> (done_ ++ l :: rest))) as Hnd
    by (eapply lt_by_nodup, sorted_logs; [apply _|by apply Forall_forall|done]).
  set (f := λ x, if bool_decide (logged x = logged l) then with_checksum c x else x).
  assert (∀ k : list SerializableLog, logged l ∉ logged <$> k → f <$> k = k) as Hf.
  { intros k Hk. rewrite <-(list_fmap_id k) at 2. apply list_fmap_ext. intros i x Hx%list_elem_of_lookup_2.
    unfold f. rewrite bool_decide_eq_false_2; [done|]. intros Heq. apply Hk. rewrite <-Heq. by apply list_elem_of_fmap_2. }
  rewrite fmap_app in Hnd. cbn in Hnd. apply NoDup_app in Hnd as (_ & Hd & [Hr _]%NoDup_cons).
  assert (f <$> (done_ ++ l :: rest) = done_ ++ with_checksum c l :: rest) as <-.
  { rewrite fmap_app, fmap_cons, (Hf rest Hr), (Hf done_).
    - unfold f. by rewrite bool_decide_eq_true_2.
    - intros Hin. apply (Hd _ Hin). by left. }
  apply (hold_map f); [done|]. intros x Hx. unfold f. change (status_key (status_of x)) with (logged x).
  change (status_key (status_of l)) with (logged l).
  destruct (bool_decide (logged x = logged l)); [|by auto]. split; [done|].
  split; [|by apply log_wf_checksum; [apply Hw|]].
  unfold status_of, set_checksum, with_checksum, set_log_state. cbn [checksum processed processed_at block_number tx_index log_index
    ls_block_number ls_transaction_index ls_log_index ls_processed ls_processed_at]. by rewrite checksum_hex.
Qed.

Lemma update_checksums_run done_ fresh c d : logs_hold (done_ ++ fresh) d →
  ∃ d', update_checksums c ((λ l, (status_of l, Some (log_ActiveModel_from l))) <$> fresh) d = (d', Ok (chain c fresh)) ∧
    logs_hold (done_ ++ with_checksums c fresh) d'.
Proof.
  revert done_ c d. induction fresh as [|l fresh IH]; intros done_ c d Hh; [by exists d|].
  assert (log_wf l) as Hl.
  { destruct Hh as (_ & Hw & _). rewrite Forall_forall in Hw. apply Hw, elem_of_app. right. by left. }
  cbn [fmap list_fmap update_checksums]. rewrite create_log_ok by done. cbn [map_err]. rewrite run_lift, run_modify.
  pose proof (save_checksum_ok done_ l fresh (next_sum c l) d Hh (next_sum_wf c l)) as Hh1.
  rewrite (cons_middle _ done_) in Hh1. rewrite app_assoc in Hh1.
  destruct (IH _ (next_sum c l) _ Hh1) as (d' & Hrun & Hh'). exists d'. split; [exact Hrun|].
  by rewrite <-app_assoc in Hh'.
Qed.

(** The checked logs come first, and their checksums are those of the chain. *)
Definition chain_ok (ls : list SerializableLog) : Prop :=
  ∃ checked fresh, ls = checked ++ fresh ∧ with_checksums Hash_default checked = checked ∧
    Forall (λ l, checksum l = None) fresh.

Lemma checksum_bytes_iff l : log_wf l → is_Some (ls_checksum (status_of l)) ↔ is_Some (checksum l).
Proof.
  intros Hw. cbn. destruct (checksum l) as [c|] eqn:Hc; [|by split; intros [? [=]]].
  destruct (lw_checksum _ Hw c Hc) as (h & -> & Hh). rewrite checksum_hex by done. by split; eexists.
Qed.

Lemma filter_prefix {A} (P : A → Prop) `{∀ x, Decision (P x)} (a b : list A) :
  Forall P a → Forall (λ x, ¬ P x) b → filter P (a ++ b) = a.
Proof using Type.
  intros Ha Hb. rewrite filter_app. replace (filter P b) with (@nil A).
  - rewrite app_nil_r. induction Ha as [|x a Hx _ IH]; [done|]. by rewrite filter_cons, decide_True, IH.
  - induction Hb as [|x b Hx _ IH]; [done|]. by rewrite filter_cons, decide_False.
Qed.

Lemma filter_suffix {A} (P : A → Prop) `{∀ x, Decision (P x)} (a b : list A) :
  Forall (λ x, ¬ P x) a → Forall P b → filter P (a ++ b) = b.
Proof using Type.
  intros Ha Hb. rewrite filter_app. replace (filter P a) with (@nil A).
  - cbn. induction Hb as [|x b Hx _ IH]; [done|]. by rewrite filter_cons, decide_True, IH.
  - induction Ha as [|x a Hx _ IH]; [done|]. by rewrite filter_cons, decide_False.
Qed.

(** The two queries over checksums, on a list whose checked logs come first. *)
Lemma checksum_queries checked fresh d :
  logs_hold (checked ++ fresh) d → Forall (λ l, is_Some (checksum l)) checked → Forall (λ l, checksum l = None) fresh →
  hd_error (checksummed d) = status_of <$> last checked ∧ unchecked d = status_of <$> fresh.
Proof.
  intros (Hs & Hw & us & Hp & Hl & Hst) Hc Hf. unfold checksummed, unchecked. rewrite Hst.
  rewrite (proj2 (sorted_rows status_of status_key _ us _ (λ _, eq_refl) Hw Hs Hp)).
  rewrite (proj1 (sorted_rows status_of status_key _ us _ (λ _, eq_refl) Hw Hs Hp)).
  rewrite Forall_app in Hw. destruct Hw as [Hw1 Hw2]. rewrite Forall_forall in Hc, Hf, Hw1, Hw2.
  rewrite filter_prefix, filter_suffix.
  - split; [|done]. rewrite head_reverse. apply fmap_last.
  - apply Forall_forall. intros l Hin Hn. destruct (Hc l Hin) as [c Hc'].
    destruct (proj2 (checksum_bytes_iff l (Hw1 l Hin)) (Hc l Hin)). congruence.
  - apply Forall_forall. intros l Hin. cbn. by rewrite Hf.
  - apply Forall_forall. intros l Hin. apply checksum_bytes_iff; auto.
  - apply Forall_forall. intros l Hin Hs'. apply checksum_bytes_iff in Hs' as [? ?]; [|by auto]. by rewrite Hf in *.
Qed.

Lemma update_logs_checksums_ok ls d : logs_hold ls d → chain_ok ls →
  ∃ d', update_logs_checksums d = (d', Ok (chain Hash_default ls)) ∧ logs_hold (with_checksums Hash_default ls) d'.
Proof.
  intros Hh (checked & fresh & -> & Hc & Hf).
  assert (Forall (λ l, is_Some (checksum l)) checked) as Hcs by (rewrite <-Hc; apply with_checksums_checked).
  destruct (checksum_queries checked fresh d Hh Hcs Hf) as [Hlast Hun].
  assert (last_checksum_of d = chain Hash_default checked) as Hsum.
  { unfold last_checksum_of. rewrite Hlast. pose proof (last_with_checksums Hash_default checked) as Hl. rewrite Hc in Hl.
    destruct (last checked) as [l|]; [|by rewrite Hl]. cbn [fmap option_fmap option_map mbind option_bind status_of ls_checksum].
    rewrite Hl, checksum_hex by (apply chain_wf; by split; [|repeat constructor]).
    unfold Hash_try_from, array_try_from. rewrite bool_decide_eq_true_2; [done|].
    apply chain_wf; by split; [|repeat constructor]. }
  unfold update_logs_checksums, logs_rollback. rewrite run_get, Hsum, Hun, <-list_fmap_compose.
  rewrite (list_fmap_ext _ (λ l, (status_of l, Some (log_ActiveModel_from l))) fresh).
  - destruct (update_checksums_run checked fresh (chain Hash_default checked) d Hh) as (d' & -> & Hh').
    exists d'. unfold chain. rewrite foldl_app. split; [done|]. by rewrite with_checksums_app, Hc.
  - intros i l Hi. cbn. rewrite (proj2 (held_related _ d l Hh ltac:(apply elem_of_app; right; by eapply list_elem_of_lookup_2))). done.
Qed.

Lemma get_last_checksummed_log_ok checked fresh d :
  logs_hold (checked ++ fresh) d → Forall (λ l, is_Some (checksum l)) checked → Forall (λ l, checksum l = None) fresh →
  get_last_checksummed_log d = (d, Ok (last checked)).
Proof.
  intros Hh Hc Hf. unfold get_last_checksummed_log. rewrite run_get.
  rewrite (proj1 (checksum_queries checked fresh d Hh Hc Hf)). destruct (last checked) as [l|] eqn:Hl; [|done].
  assert (l ∈ checked ++ fresh) as Hin.
  { apply elem_of_app. left. apply last_Some in Hl as [k ->]. apply elem_of_app. right. by left. }
  cbn [fmap option_fmap option_map]. rewrite (proj2 (held_related _ d l Hh Hin)), create_log_ok; [done|].
  destruct Hh as (_ & Hw & _). rewrite Forall_forall in Hw. by apply Hw.
Qed.

Lemma get_all_logs ls d : logs_hold ls d → get_logs None None d = (d, Ok ls).
Proof.
  intros Hh. rewrite (get_logs_ok None None _ d Hh). f_equal. f_equal.
  rewrite <-(app_nil_r ls) at 1. apply filter_prefix; [|done].
  destruct Hh as (_ & Hw & _). eapply Forall_impl; [exact Hw|]. intros l Hlw. by rewrite in_blocks_all.
Qed.

(** ** Logs in batches *)

(** A log as the chain gives it. *)
Definition new_log (l : SerializableLog) : Prop := log_wf (stored l) ∧ checksum l = None.

Lemma stored_sorted ls : StronglySorted log_lt ls → StronglySorted log_lt (stored <$> ls).
Proof using Type. by apply StronglySorted_fmap. Qed.

Lemma chain_stored c (ls : list SerializableLog) : chain c (stored <$> ls) = chain c ls.
Proof using Type. revert c. induction ls as [|l ls IH]; intros c; [done|]. apply IH. Qed.

Lemma chain_ok_extend ls logs : with_checksums Hash_default ls = ls → Forall new_log logs → chain_ok (ls ++ (stored <$> logs)).
Proof using Type.
  intros Hc Hn. exists ls, (stored <$> logs). split; [done|]. split; [done|]. apply Forall_fmap.
  eapply Forall_impl; [exact Hn|]. by intros l [_ Hl].
Qed.

(** A batch of new logs after all that are there. *)
Lemma store_batch_ok ls logs d :
  logs_hold ls d → StronglySorted log_lt (ls ++ logs) → Forall new_log logs →
  ∃ d', store_logs logs d = (d', Ok ((λ _, Ok tt) <$> logs)) ∧ logs_hold (ls ++ (stored <$> logs)) d'.
Proof.
  intros Hh Hs Hn. destruct (store_logs_ok logs ls d Hh) as (d' & Hrun & Hh').
  { eapply Forall_impl; [exact Hn|]. by intros l [Hl _]. }
  rewrite book_append in Hrun, Hh' by done. by exists d'.
Qed.

Fixpoint store_batches (batches : list (list SerializableLog)) : LX Hash :=
  match batches with
  | [] => update_logs_checksums
  | logs :: batches => store_logs logs;; update_logs_checksums;; store_batches batches
  end.

Lemma store_batches_ok batches ls d :
  logs_hold ls d → with_checksums Hash_default ls = ls → StronglySorted log_lt (ls ++ concat batches) →
  Forall new_log (concat batches) →
  ∃ d', store_batches batches d = (d', Ok (chain Hash_default (ls ++ concat batches))) ∧
    logs_hold (with_checksums Hash_default (ls ++ (stored <$> concat batches))) d'.
Proof.
  revert ls d. induction batches as [|logs batches IH]; intros ls d Hh Hc Hs Hn.
  - cbn [concat fmap list_fmap store_batches]. rewrite app_nil_r.
    apply (update_logs_checksums_ok ls d Hh). exists ls, []. by rewrite app_nil_r.
  - cbn [concat] in *. rewrite Forall_app in Hn. destruct Hn as [Hn1 Hn2]. rewrite app_assoc in Hs.
    destruct (store_batch_ok ls logs d Hh) as (d1 & Hrun1 & Hh1); [by eapply StronglySorted_app_1_l|done|].
    destruct (update_logs_checksums_ok _ d1 Hh1) as (d2 & Hrun2 & Hh2); [by apply chain_ok_extend|].
    assert (StronglySorted log_lt (with_checksums Hash_default (ls ++ (stored <$> logs)) ++ concat batches)) as Hs2.
    { apply StronglySorted_app in Hs as (Hlt & _ & Hs'). apply StronglySorted_app_2; [|apply Hh2|done].
      clear -Hlt. intros x y Hx Hy. rewrite with_checksums_app in Hx.
      assert (∀ c k, x ∈ with_checksums c k → ∃ z, z ∈ k ∧ ∀ y, SerializableLog_cmp x y = SerializableLog_cmp z y) as Hex.
      { intros c k. revert c. induction k as [|z k IH]; intros c Hk; [by apply elem_of_nil in Hk|].
        cbn in Hk. apply elem_of_cons in Hk as [->|Hk]; [by exists z; split; [left|]|].
        destruct (IH _ Hk) as (w & Hw & Hcmp). exists w. split; [by right|done]. }
      unfold log_lt in *. apply elem_of_app in Hx as [Hx|Hx]; apply Hex in Hx as (z & Hz & ->).
      - apply Hlt; [apply elem_of_app; by left|done].
      - apply list_elem_of_fmap in Hz as (w & -> & Hw). apply (Hlt w y); [apply elem_of_app; by right|done]. }
    destruct (IH _ d2 Hh2 (with_checksums_idemp _ _) Hs2 Hn2) as (d' & Hrun & Hh').
    exists d'. cbn [store_batches]. rewrite (run_Ok _ _ _ _ _ Hrun1), (run_Ok _ _ _ _ _ Hrun2), Hrun. split.
    + unfold chain. rewrite !foldl_app. fold (chain Hash_default (with_checksums Hash_default (ls ++ (stored <$> logs)))).
      rewrite chain_with_checksums. unfold chain. rewrite foldl_app. by rewrite <-(chain_stored _ logs).
    + rewrite with_checksums_app, with_checksums_idemp, chain_with_checksums, <-with_checksums_app in Hh'.
      by rewrite fmap_app, app_assoc.
Qed.

(** The log database keeps every log and one checksum of its history: new
    logs stored in any number of batches, each after the previous ones, are
    read back in order, unprocessed, each with the running hash of all logs up
    to it; the last hash depends on the logs only, not on the batches. *)
Theorem checksums_ignore_batches (batches : list (list SerializableLog)) (d : LogsDb) :
  log d = [] → log_status d = [] → StronglySorted log_lt (concat batches) → Forall new_log (concat batches) →
  ∃ d', store_batches batches d = (d', Ok (chain Hash_default (concat batches))) ∧
    get_logs None None d' = (d', Ok (with_checksums Hash_default (stored <$> concat batches))).
Proof.
  intros Hl Hst Hs Hn. assert (logs_hold [] d) as Hh.
  { split; [constructor|]. split; [constructor|]. exists []. by rewrite Hl, Hst. }
  destruct (store_batches_ok batches [] d Hh eq_refl Hs Hn) as (d' & Hrun & Hh'). exists d'. split; [exact Hrun|].
  by apply get_all_logs.
Qed.
End Checksums.
