(* ===== verification/Blocks.v ===== *)
(** * The chain indexer: blocks

    Models [chain/indexer/src/block.rs] with [constants.rs] and [config.rs]: the
    start of the indexer with its fast synchronisation from the log database,
    the point from which logs are fetched, and the loop over the blocks that
    the RPC client streams, each stored, handled, marked and sealed with a
    checksum.  The stream asks for the next block only when the events of the
    last one are delivered, so a block is one step.  Metrics and the progress in
    per cent are left out; the channel to the consumer of events is unbounded. *)
From stdpp Require Import gmap strings sorting.
From S2P Require Import Prelude Primitives Crypto Channels Tickets WinProb SharedKeys MetaPacket Packet.
From S2P Require Import TicketStore Protocol NodeDb Indexer Logs.

(** alloy: the topic of an event, by the names of contract and event. *)
Class EventSignatures := SIGNATURE_HASH : string → string → Hash.

(** ** Configuration and blocks *)
Record IndexerConfig := mkIndexerConfig { start_block_number : Z; fast_sync : bool }.

(** The set of logs as the list in its order. *)
Record BlockWithLogs := mkBlock { block_id : Z; block_logs : list SerializableLog }.

(** [BTreeSet::insert]: an equal log that is there already is kept. *)
Fixpoint btree_insert (l : SerializableLog) (ls : list SerializableLog) : list SerializableLog :=
  match ls with
  | [] => [l]
  | x :: ls' =>
      match SerializableLog_cmp l x with
      | Lt => l :: ls
      | Eq => ls
      | Gt => x :: btree_insert l ls'
      end
  end.

Record LogFilter := mkLogFilter { filter_address : list Address; filter_topics : list Hash }.

Inductive FastSyncMode := NoFastSync | FromScratch | Continue.

(** ** The topics of the contracts ([constants.rs]) *)
Module topics.
Definition channel `{!EventSignatures} : list Hash := SIGNATURE_HASH "HoprChannelsEvents" <$>
  ["ChannelBalanceDecreased"; "ChannelBalanceIncreased"; "ChannelClosed"; "ChannelOpened";
   "OutgoingChannelClosureInitiated"; "TicketRedeemed"; "DomainSeparatorUpdated"; "LedgerDomainSeparatorUpdated"].
Definition token `{!EventSignatures} : list Hash := SIGNATURE_HASH "HoprToken" <$> ["Transfer"; "Approval"].
Definition network_registry `{!EventSignatures} : list Hash := SIGNATURE_HASH "HoprNetworkRegistryEvents" <$>
  ["DeregisteredByManager"; "Deregistered"; "EligibilityUpdated"; "NetworkRegistryStatusUpdated";
   "RegisteredByManager"; "Registered"; "RequirementUpdated"].
Definition announcement `{!EventSignatures} : list Hash := SIGNATURE_HASH "HoprAnnouncementsEvents" <$>
  ["AddressAnnouncement"; "KeyBinding"; "RevokeAnnouncement"].
Definition node_safe_registry `{!EventSignatures} : list Hash := SIGNATURE_HASH "HoprNodeSafeRegistryEvents" <$>
  ["RegisteredNodeSafe"; "DergisteredNodeSafe"; "DomainSeparatorUpdated"].
Definition ticket_price_oracle `{!EventSignatures} : list Hash := [SIGNATURE_HASH "HoprTicketPriceOracleEvents" "TicketPriceUpdated"].
Definition winning_prob_oracle `{!EventSignatures} : list Hash := [SIGNATURE_HASH "HoprWinningProbabilityOracleEvents" "WinProbUpdated"].
Definition module_implementation `{!EventSignatures} : list Hash := [].
End topics.

Section Blocks.
Context `{!Secp256k1} `{!Curve25519} `{!Ed25519} `{!HexCodec} `{!ScanOrder} `{!Multiaddrs} `{!FloatCmp} `{!LogDecoder}
  `{!EventSignatures}.

(** The two databases that the indexer works on. *)
Record Store := mkStore { index_store : HoprDb; log_store : LogsDb }.

(** The state of the loop: whether the head of the chain was reached, and the
    events passed on. *)
Record IndexerState := mkIndexerState {
  node_store : Store;
  chain_head : Z;
  is_synced : bool;
  start_notified : bool;
  egress : list SignificantChainEvent
}.

Definition set_node_store s st := mkIndexerState s (chain_head st) (is_synced st) (start_notified st) (egress st).
Definition set_chain_head h st := mkIndexerState (node_store st) h (is_synced st) (start_notified st) (egress st).
Definition set_synced st := mkIndexerState (node_store st) (chain_head st) true true (egress st).
Definition set_egress e st := mkIndexerState (node_store st) (chain_head st) (is_synced st) (start_notified st) e.

(** A [match] on the result of a call: only a panic is not caught. *)
Definition attempt {S E F A} (m : SM S E A) : SM S F (outcome E A) := λ s,
  match m s with (s', Panic) => (s', Panic) | (s', o) => (s', Ok o) end.

Abbreviation SX := (SM Store CoreEthereumIndexerError).

Definition on_index {E A} (m : SM HoprDb E A) : SM Store E A := λ s,
  let '(db, o) := m (index_store s) in (mkStore db (log_store s), o).
Definition on_logs {E A} (m : SM LogsDb E A) : SM Store E A := λ s,
  let '(d, o) := m (log_store s) in (mkStore (index_store s) d, o).

Definition index_call {A} (m : SM HoprDb DbSqlError A) : SX A := lift_err DbApiError (on_index m).
Definition log_call {A} (m : SM LogsDb DbError A) : SX A := lift_err IndexerDbError (on_logs m).

Definition contract_address_topics (h : ContractEventHandlers) (contract : Address) : list Hash :=
  let a := contract_addrs h in
  if bool_decide (contract = announcements_contract a) then topics.announcement
  else if bool_decide (contract = channels_contract a) then topics.channel
  else if bool_decide (contract = module_implementation a) then topics.module_implementation
  else if bool_decide (contract = network_registry_contract a) then topics.network_registry
  else if bool_decide (contract = price_oracle a) then topics.ticket_price_oracle
  else if bool_decide (contract = win_prob_oracle a) then topics.winning_prob_oracle
  else if bool_decide (contract = safe_registry a) then topics.node_safe_registry
  else if bool_decide (contract = token a) then topics.token
  else [].

(** Contracts without topics are skipped. *)
Definition origin_of_logs (h : ContractEventHandlers) : list (Address * Hash) :=
  concat ((λ a, (λ t, (a, t)) <$> contract_address_topics h a) <$> contract_addresses h).
Definition log_filter (h : ContractEventHandlers) : LogFilter :=
  mkLogFilter (filter (λ a, contract_address_topics h a ≠ []) (contract_addresses h)) (snd <$> origin_of_logs h).

(** ** One block *)

(** [now] is the time at which the logs are marked. *)
Definition process_block (h : ContractEventHandlers) (now : Z) (block : BlockWithLogs) (fetch_checksum_from_db : bool) :
    SX (option (list SignificantChainEvent)) :=
  collected ← attempt (on_index (collect_block_events h (block_logs block)));
  match collected with
  | Ok events =>
      marked ← attempt (on_logs (set_logs_processed now (Some (block_id block)) (Some 0)));
      match marked with
      | Ok _ =>
          updated ← attempt (on_logs update_logs_checksums);
          match updated with
          | Ok last_log_checksum =>
              known ← (if fetch_checksum_from_db then
                         last_log ← lift (unwrap_option (last (block_logs block)));
                         log ← attempt (on_logs (get_log (block_id block) (tx_index last_log) (log_index last_log)));
                         mret (match log with Ok log => Some (checksum log) | _ => None end)
                       else mret (Some (Some (to_hex last_log_checksum))));
              match known with
              | Some _ =>
                  attempt (on_index (set_indexer_state_info (wrap 32 (block_id block))));;
                  mret (Some events)
              | None => mret None
              end
          | _ => mret (Some events)
          end
      | _ => mret (Some events)
      end
  | _ => mret None
  end.

(** The logs of the query, inserted one by one. *)
Fixpoint logs_of_block (block_id : Z) (logs : list SerializableLog) (acc : list SerializableLog) :
    outcome CoreEthereumIndexerError (list SerializableLog) :=
  match logs with
  | [] => Ok acc
  | log :: logs => if block_number log =? block_id then logs_of_block block_id logs (btree_insert log acc) else Panic
  end.

Definition process_block_by_id (h : ContractEventHandlers) (now : Z) (block_id : Z) :
    SX (option (list SignificantChainEvent)) :=
  logs ← log_call (get_logs (Some block_id) (Some 0));
  block ← lift (logs_of_block block_id logs []);
  process_block h now (mkBlock block_id block) true.

(** ** Starting *)
Fixpoint fast_sync_blocks (h : ContractEventHandlers) (clock : Z → Z) (numbers : list Z) : SX unit :=
  match numbers with
  | [] => mret tt
  | n :: numbers => process_block_by_id h (clock n) n;; fast_sync_blocks h clock numbers
  end.

Definition choose_mode (cfg : IndexerConfig) : SX FastSyncMode :=
  index_empty ← index_call index_is_empty;
  match fast_sync cfg, index_empty with
  | true, false => mret Continue
  | false, true => index_call clear_index_db;; log_call (set_logs_unprocessed None None);; mret NoFastSync
  | false, false => mret NoFastSync
  | true, true => index_call clear_index_db;; log_call (set_logs_unprocessed None None);; mret FromScratch
  end.

Definition run_fast_sync (h : ContractEventHandlers) (clock : Z → Z) (mode : FastSyncMode) : SX unit :=
  match mode with
  | NoFastSync => mret tt
  | FromScratch => ns ← log_call (get_logs_block_numbers None None None); fast_sync_blocks h clock ns
  | Continue => ns ← log_call (get_logs_block_numbers None None (Some false)); fast_sync_blocks h clock ns
  end.

Definition next_block_to_process (cfg : IndexerConfig) : SX Z :=
  last_log ← log_call get_last_checksummed_log;
  match last_log with
  | Some last_log =>
      lift (unwrap_option (checksum last_log));;
      mret (if start_block_number cfg <? block_number last_log then wrap 64 (block_number last_log + 1)
            else start_block_number cfg)
  | None => mret (start_block_number cfg)
  end.

(** [start] up to the background process: the head of the chain, which the RPC
    client must give, the block to begin with and the filter. *)
Definition start (h : ContractEventHandlers) (clock : Z → Z) (rpc_head : option Z) (cfg : IndexerConfig) :
    SX (Z * Z * LogFilter) :=
  log_call (ensure_logs_origin (origin_of_logs h));;
  head ← lift (unwrap_option rpc_head);
  mode ← choose_mode cfg;
  run_fast_sync h clock mode;;
  next ← next_block_to_process cfg;
  mret (head, next, log_filter h).

(** ** The loop *)
Definition update_chain_head (rpc_head : option Z) : SM IndexerState CoreEthereumIndexerError Z :=
  head ← lift (unwrap_option rpc_head); modify (set_chain_head head);; mret head.

(** The head is asked for again when there seems to be nothing to fetch. *)
Definition calculate_sync_process (current_block : Z) (rpc_head : option Z) (start_block : Z) :
    SM IndexerState CoreEthereumIndexerError unit :=
  st ← get;
  if is_synced st then mret tt
  else
    head ← (if saturating_sub (chain_head st) start_block =? 0 then update_chain_head rpc_head else mret (chain_head st));
    if head <=? current_block then modify set_synced else mret tt.

Definition on_store {A} (m : SX A) : SM IndexerState CoreEthereumIndexerError A := λ st,
  let '(s, o) := m (node_store st) in (set_node_store s st, o).

Definition is_err {E A} (o : outcome E A) : bool := match o with Ok _ => false | _ => true end.

(** One block of the stream, with the head the RPC client would report. *)
Definition index_block (h : ContractEventHandlers) (now : Z) (rpc_head : option Z) (start_block : Z) (block : BlockWithLogs) :
    SM IndexerState CoreEthereumIndexerError unit :=
  calculate_sync_process (block_id block) rpc_head start_block;;
  stored ← attempt (on_store (log_call (store_logs (block_logs block))));
  match stored with
  | Ok results =>
      if existsb is_err results then mret tt
      else
        events ← on_store (process_block h now block false);
        modify (λ st, if is_synced st then set_egress (egress st ++ default [] events) st else st)
  | _ => mret tt
  end.

Fixpoint index_blocks (h : ContractEventHandlers) (clock : Z → Z) (start_block : Z) (blocks : list (BlockWithLogs * option Z)) :
    SM IndexerState CoreEthereumIndexerError unit :=
  match blocks with
  | [] => mret tt
  | (block, rpc_head) :: blocks =>
      index_block h (clock (block_id block)) rpc_head start_block block;; index_blocks h clock start_block blocks
  end.
End Blocks.
