(* ===== verification/BlocksSpec.v ===== *)
(** * What the block loop does

    Streaming blocks handles each once and in order, stores its logs, marks
    them and seals them with the chain of checksums; rebuilding the index from
    the stored logs gives the same index.  *)
From stdpp Require Import gmap strings sorting.
From S2P Require Import Prelude Primitives Crypto Channels Tickets WinProb SharedKeys MetaPacket Packet.
From S2P Require Import TicketStore TicketStoreSpec TicketTable Protocol NodeDb Indexer Logs LogsSpec Blocks.

Section BlocksSpec.
Context `{!Secp256k1} `{!Secp256k1Laws} `{!Curve25519} `{!Ed25519} `{!HexCodec, !HexCodecLaws}
  `{!ScanOrder} `{!Multiaddrs} `{!FloatCmp} `{!LogDecoder} `{!EventSignatures}.
#[local] Set Default Proof Using "Type*".

(** ** Calls of the two databases *)
Lemma on_index_Ok {E A} (m : SM HoprDb E A) s db a :
  m (index_store s) = (db, Ok a) → on_index m s = (mkStore db (log_store s), Ok a).
Proof using Type. unfold on_index. by intros ->. Qed.

Lemma log_call_Ok {A} (m : SM LogsDb DbError A) s d a :
  m (log_store s) = (d, Ok a) → log_call m s = (mkStore (index_store s) d, Ok a).
Proof using Type. unfold log_call, lift_err, on_logs. by intros ->. Qed.

Lemma index_call_Ok {A} (m : SM HoprDb DbSqlError A) s db a :
  m (index_store s) = (db, Ok a) → index_call m s = (mkStore db (log_store s), Ok a).
Proof using Type. unfold index_call, lift_err, on_index. by intros ->. Qed.

Lemma attempt_Ok {S E F A} (m : SM S E A) s s' a : m s = (s', Ok a) → attempt (F:=F) m s = (s', Ok (Ok a)).
Proof using Type. unfold attempt. by intros ->. Qed.

Lemma attempt_logs {E F A} (m : SM LogsDb E A) s d a :
  m (log_store s) = (d, Ok a) → attempt (F:=F) (on_logs m) s = (mkStore (index_store s) d, Ok (Ok a)).
Proof using Type. unfold attempt, on_logs. by intros ->. Qed.

(** ** What handling a block does to the index *)

(** The events of a block; its number is recorded if the row for it exists. *)
Definition index_only (h : ContractEventHandlers) (block : BlockWithLogs) :
    SM HoprDb CoreEthereumIndexerError (list SignificantChainEvent) :=
  events ← collect_block_events h (block_logs block);
  attempt (set_indexer_state_info (wrap 32 (block_id block)));;
  mret events.

Fixpoint replay (h : ContractEventHandlers) (blocks : list BlockWithLogs) :
    SM HoprDb CoreEthereumIndexerError (list (list SignificantChainEvent)) :=
  match blocks with
  | [] => mret []
  | block :: blocks => events ← index_only h block; rest ← replay h blocks; mret (events :: rest)
  end.

Lemma collect_logs_no_err h logs db e : (collect_logs h logs db).2 ≠ Err e.
Proof using Type.
  revert db. induction logs as [|l logs IH]; intros db; [done|]. cbn [collect_logs].
  destruct (process_log_event h l db) as [db' [[t|]|e'|]]; [|apply IH..|done].
  unfold mbind, SM_bind. specialize (IH db'). destruct (collect_logs h logs db') as [db2 [| |]]; [done| |done].
  cbn in *. congruence.
Qed.

(** The events depend on what the chain said only. *)
Definition raw (l : SerializableLog) : SerializableLog := set_log_state None None None l.

Lemma process_log_raw h l : process_log_event h l = process_log_event h (raw l).
Proof using Type. done. Qed.

Lemma collect_logs_raw h logs : collect_logs h logs = collect_logs h (raw <$> logs).
Proof using Type.
  induction logs as [|l logs IH]; [done|]. cbn [fmap list_fmap collect_logs]. rewrite <-process_log_raw.
  change (tx_hash (raw l)) with (tx_hash l). change (list_fmap _ _ raw logs) with (raw <$> logs). by rewrite <-IH.
Qed.

Lemma index_only_raw h n (a b : list SerializableLog) : raw <$> a = raw <$> b → index_only h (mkBlock n a) = index_only h (mkBlock n b).
Proof using Type.
  intros Hab. unfold index_only, collect_block_events. cbn [block_logs block_id].
  by rewrite (collect_logs_raw h a), Hab, <-collect_logs_raw.
Qed.

Lemma index_only_inv h block db db' events : index_only h block db = (db', Ok events) →
  ∃ db1, collect_block_events h (block_logs block) db = (db1, Ok events) ∧
    attempt (F:=CoreEthereumIndexerError) (set_indexer_state_info (wrap 32 (block_id block))) db1 =
      (db', Ok (set_indexer_state_info (wrap 32 (block_id block)) db1).2).
Proof using Type.
  unfold index_only. intros (db1 & ev & Hc & Hrest)%run_Ok_inv. exists db1.
  apply run_Ok_inv in Hrest as (db2 & o & Ha & [= <- <-]). split; [done|]. rewrite Ha. unfold attempt in Ha.
  destruct (set_indexer_state_info _ db1) as [db3 [| |]]; by simplify_eq.
Qed.

(** ** The logs of a block *)
Definition block_marked (now id : Z) (l : SerializableLog) : SerializableLog :=
  marked_log true (Some now) (Some id) (Some 0) l.

Lemma in_block_spec id l : log_wf l → in_u 64 (id + 1) → 0 ≤ id →
  in_blocks (Some id) (Some 0) l = (block_number l =? id).
Proof.
  intros Hl Hid Hge. assert (in_u 64 id) as Hid' by (unfold in_u in *; lia). rewrite in_blocks_spec by done. change (default 0 (Some id)) with id.
  replace (id + 0 + 1) with (id + 1) by lia. rewrite wrap_small by done.
  pose proof (lw_block _ Hl). unfold in_u in *. destruct (Z.eqb_spec (block_number l) id), (Z.leb_spec id (block_number l)),
    (Z.ltb_spec (block_number l) (id + 1)); (done || lia).
Qed.

Lemma marked_raw p at_ a b l : raw (marked_log p at_ a b l) = raw l ∧ checksum (marked_log p at_ a b l) = checksum l ∧
  log_ActiveModel_from (marked_log p at_ a b l) = log_ActiveModel_from l.
Proof using Type. unfold marked_log. by destruct (in_blocks a b l). Qed.

Lemma sealed_map (f : SerializableLog → SerializableLog) c ls :
  (∀ l, checksum (f l) = checksum l ∧ log_ActiveModel_from (f l) = log_ActiveModel_from l) →
  with_checksums c ls = ls → with_checksums c (f <$> ls) = f <$> ls.
Proof using Type.
  intros Hf. revert c. induction ls as [|l ls IH]; intros c Hca; [done|].
  apply (f_equal (λ k, (head k, tail k))) in Hca. cbn in Hca |- *. injection Hca as Hl Ha.
  assert (next_sum c (f l) = next_sum c l) as Hn by (unfold next_sum; by rewrite (proj2 (Hf l))).
  rewrite Hn, IH by done. f_equal. destruct (Hf l) as [Hc Hm].
  transitivity (set_log_state (processed (f l)) (processed_at (f l)) (checksum (f l)) (f l)); [|by destruct (f l)].
  unfold with_checksum. f_equal. rewrite Hc, <-Hl. done.
Qed.

Lemma chain_ok_map (f : SerializableLog → SerializableLog) ls :
  (∀ l, checksum (f l) = checksum l ∧ log_ActiveModel_from (f l) = log_ActiveModel_from l) → chain_ok ls → chain_ok (f <$> ls).
Proof using Type.
  intros Hf (a & b & -> & Ha & Hb). exists (f <$> a), (f <$> b). rewrite fmap_app. split; [done|].
  split; [by apply sealed_map|]. apply Forall_fmap. eapply Forall_impl; [exact Hb|]. intros l Hl. cbn. by rewrite (proj1 (Hf l)).
Qed.

Lemma sealed_chain ls : with_checksums Hash_default ls = ls → chain_ok ls.
Proof using Type. intros Hs. exists ls, []. by rewrite app_nil_r. Qed.

Lemma with_checksums_lookup c k x : x ∈ with_checksums c k →
  ∃ z c', z ∈ k ∧ x = with_checksum c' z.
Proof using Type.
  revert c. induction k as [|z k IH]; intros c; [by intros ?%elem_of_nil|]. cbn.
  intros [->|Hk]%elem_of_cons; [by exists z, (next_sum c z); split; [left|]|].
  destruct (IH _ Hk) as (w & c' & Hw & ->). exists w, c'. split; [by right|done].
Qed.

Lemma last_block_log_held now id ls d l : logs_hold (with_checksums Hash_default (block_marked now id <$> ls)) d →
  (∃ x, x ∈ ls ∧ same_id l x = true) →
  ∃ x, get_log (block_number l) (tx_index l) (log_index l) d = (d, Ok x).
Proof.
  intros Hh (x & Hx & Hid).
  assert (∀ c k, x ∈ k → ∃ y, y ∈ with_checksums c (block_marked now id <$> k) ∧
    log_ActiveModel_from y = log_ActiveModel_from x ∧ SerializableLog_cmp l y = SerializableLog_cmp l x) as Hk.
  { intros c k. revert c. clear. induction k as [|z k IH]; intros c; [by intros ?%elem_of_nil|]. cbn.
    intros [->|Hk]%elem_of_cons.
    - eexists. split; [by left|]. unfold block_marked, marked_log. by destruct (in_blocks _ _ z).
    - destruct (IH (next_sum c (block_marked now id z)) Hk) as (y & Hy & Hm). exists y. split; [by right|done]. }
  destruct (Hk Hash_default ls Hx) as (y & Hy & _ & Hcmp). unfold same_id in Hid. rewrite <-Hcmp in Hid.
  exists y. rewrite <-(get_log_ok y _ d Hh Hy). unfold SerializableLog_cmp in Hid.
  destruct (Z.compare_spec (block_number l) (block_number y)) as [->| |]; [|done..].
  destruct (Z.compare_spec (tx_index l) (tx_index y)) as [->| |]; [|done..].
  by destruct (Z.compare_spec (log_index l) (log_index y)) as [->| |].
Qed.

(** Handling a block whose logs are stored. *)
Lemma process_block_ok h now block fetch ls s db events :
  logs_hold ls (log_store s) → chain_ok ls →
  (fetch = true → ∃ l, last (block_logs block) = Some l ∧ block_number l = block_id block ∧ ∃ x, x ∈ ls ∧ same_id l x = true) →
  index_only h block (index_store s) = (db, Ok events) →
  ∃ d, process_block h now block fetch s = (mkStore db d, Ok (Some events)) ∧
    logs_hold (with_checksums Hash_default (block_marked now (block_id block) <$> ls)) d.
Proof.
  intros Hh Hc Hf (db1 & Hcol & Hset)%index_only_inv.
  destruct (mark_logs_ok true (Some now) (Some (block_id block)) (Some 0) ls _ Hh) as (d1 & Hrun1 & Hh1).
  fold (block_marked now (block_id block)) in Hh1.
  destruct (update_logs_checksums_ok _ d1 Hh1) as (d2 & Hrun2 & Hh2).
  { apply chain_ok_map; [intros l; by apply marked_raw|done]. }
  exists d2. split; [|done]. unfold process_block.
  rewrite (run_Ok _ _ _ _ _ (attempt_Ok _ _ _ _ (on_index_Ok _ _ _ _ Hcol))).
  rewrite (run_Ok _ _ _ _ _ (attempt_logs _ (mkStore db1 (log_store s)) _ _ Hrun1)).
  rewrite (run_Ok _ _ _ _ _ (attempt_logs _ (mkStore db1 d1) _ _ Hrun2)). cbn [index_store].
  assert (∀ k : option (option string) → SM Store CoreEthereumIndexerError (option (list SignificantChainEvent)),
    (∀ o, k (Some o) (mkStore db1 d2) = (mkStore db d2, Ok (Some events))) →
    ((if fetch then
        last_log ← lift (unwrap_option (last (block_logs block)));
        log ← attempt (on_logs (get_log (block_id block) (tx_index last_log) (log_index last_log)));
        mret (match log with Ok log => Some (checksum log) | _ => None end)
      else mret (Some (Some (to_hex (chain Hash_default (block_marked now (block_id block) <$> ls)))))) ≫= k)
      (mkStore db1 d2) = (mkStore db d2, Ok (Some events))) as Hknown.
  { intros k Hk. destruct fetch; [|apply Hk]. destruct (Hf eq_refl) as (l & -> & <- & Hin).
    destruct (last_block_log_held _ _ ls d2 l Hh2 Hin) as (x & Hx). cbn [unwrap_option]. rewrite run_bind, run_lift, run_bind.
    rewrite (run_Ok _ _ _ _ _ (attempt_logs _ (mkStore db1 d2) _ _ Hx)). apply Hk. }
  apply Hknown. intros o.
  assert (attempt (F:=CoreEthereumIndexerError) (on_index (set_indexer_state_info (wrap 32 (block_id block)))) (mkStore db1 d2) =
    (mkStore db d2, Ok (set_indexer_state_info (wrap 32 (block_id block)) db1).2)) as Hset'.
  { clear -Hset. unfold attempt, on_index in *. cbn [index_store log_store].
    destruct (set_indexer_state_info _ db1) as [db3 [| |]]; by simplify_eq. }
  by rewrite (run_Ok _ _ _ _ _ Hset').
Qed.

(** ** Streaming blocks *)

(** A block as the chain gives it: new logs of this block, in order. *)
Record block_wf (b : BlockWithLogs) : Prop := {
  bw_id : 0 ≤ block_id b;
  bw_next : in_u 64 (block_id b + 1);
  bw_logs : Forall (λ l, new_log l ∧ block_number l = block_id b) (block_logs b);
  bw_sorted : StronglySorted log_lt (block_logs b)
}.

(** Blocks after the block [n], in order. *)
Fixpoint blocks_ok (n : Z) (blocks : list BlockWithLogs) : Prop :=
  match blocks with [] => True | b :: blocks => n < block_id b ∧ block_wf b ∧ blocks_ok (block_id b) blocks end.

(** A log after it was handled, but for its checksum. *)
Definition handled (now : Z) (l : SerializableLog) : SerializableLog := set_log_state (Some true) (Some now) None l.

Definition handled_logs (clock : Z → Z) (blocks : list BlockWithLogs) : list SerializableLog :=
  concat ((λ b, handled (clock (block_id b)) <$> block_logs b) <$> blocks).

Lemma sorted_append n ls b :
  StronglySorted log_lt ls → Forall (λ l, block_number l ≤ n) ls → block_wf b → n < block_id b →
  StronglySorted log_lt (ls ++ block_logs b).
Proof using Type.
  intros Hs Hn Hb Hlt. apply StronglySorted_app_2; [|done|apply Hb]. intros x y Hx Hy.
  rewrite Forall_forall in Hn. pose proof (bw_logs _ Hb) as Hl. rewrite Forall_forall in Hl.
  apply SerializableLog_cmp_lt. left. rewrite (proj2 (Hl y Hy)). specialize (Hn x Hx). cbn in Hn. lia.
Qed.

Lemma block_marked_append now n ls b :
  Forall log_wf ls → Forall (λ l, block_number l ≤ n) ls → block_wf b → n < block_id b →
  block_marked now (block_id b) <$> (ls ++ (stored <$> block_logs b)) = ls ++ (handled now <$> block_logs b).
Proof.
  intros Hw Hn Hb Hlt. rewrite fmap_app. f_equal.
  - rewrite <-(list_fmap_id ls) at 2. apply list_fmap_ext. intros i l Hi%list_elem_of_lookup_2.
    rewrite Forall_forall in Hw, Hn. unfold block_marked, marked_log. rewrite in_block_spec by (apply Hb || by apply Hw).
    specialize (Hn l Hi). cbn in Hn. by rewrite (proj2 (Z.eqb_neq _ _)) by lia.
  - rewrite <-list_fmap_compose. apply list_fmap_ext. intros i l Hi%list_elem_of_lookup_2.
    pose proof (bw_logs _ Hb) as Hl. rewrite Forall_forall in Hl. destruct (Hl l Hi) as [[Hlw Hlc] Hln].
    unfold compose, block_marked, marked_log. rewrite in_block_spec by (apply Hb || done).
    change (block_number (stored l)) with (block_number l). rewrite Hln, Z.eqb_refl.
    change (checksum (stored l)) with (checksum l). by rewrite Hlc.
Qed.

(** Whether the head of the chain is reached at a block. *)
Definition reached (id : Z) (st : IndexerState) : IndexerState :=
  if is_synced st then st else if chain_head st <=? id then set_synced st else st.

Lemma reached_store id st : node_store (reached id st) = node_store st.
Proof using Type. unfold reached. destruct (is_synced st); [done|]. by destruct (chain_head st <=? id). Qed.

Lemma calculate_sync_ok id rpc_head start_block st : start_block < chain_head st →
  calculate_sync_process id rpc_head start_block st = (reached id st, Ok tt).
Proof using Type.
  intros Hlt. unfold calculate_sync_process, reached. rewrite run_get. destruct (is_synced st); [done|].
  unfold saturating_sub. rewrite (proj2 (Z.eqb_neq _ _)) by lia. rewrite run_ret. by destruct (chain_head st <=? id).
Qed.

Lemma no_errors (logs : list SerializableLog) : existsb (is_err (E:=DbError)) ((λ _, Ok tt) <$> logs) = false.
Proof using Type. by induction logs. Qed.

Lemma on_store_Ok {A} (m : SM Store CoreEthereumIndexerError A) st s a :
  m (node_store st) = (s, Ok a) → on_store m st = (set_node_store s st, Ok a).
Proof using Type. unfold on_store. by intros ->. Qed.

Definition pass_on (events : list SignificantChainEvent) (st : IndexerState) : IndexerState :=
  if is_synced st then set_egress (egress st ++ events) st else st.

(** One new block of the stream. *)
Lemma index_block_ok h now rpc_head start_block b n ls st db events :
  logs_hold ls (log_store (node_store st)) → with_checksums Hash_default ls = ls →
  Forall (λ l, block_number l ≤ n) ls → block_wf b → n < block_id b → start_block < chain_head st →
  index_only h b (index_store (node_store st)) = (db, Ok events) →
  ∃ d, index_block h now rpc_head start_block b st =
      (pass_on events (set_node_store (mkStore db d) (reached (block_id b) st)), Ok tt) ∧
    logs_hold (with_checksums Hash_default (ls ++ (handled now <$> block_logs b))) d.
Proof.
  intros Hh Hc Hn Hb Hlt Hst Hix. pose proof (bw_logs _ Hb) as Hlogs.
  assert (Forall new_log (block_logs b)) as Hnew by (eapply Forall_impl; [exact Hlogs|]; by intros l [? _]).
  destruct (store_batch_ok ls (block_logs b) _ Hh) as (d1 & Hrun1 & Hh1); [|done|].
  { apply (sorted_append n); [apply Hh|done..]. }
  destruct (process_block_ok h now b false _ (mkStore (index_store (node_store st)) d1) db events Hh1) as (d & Hrun & Hd);
    [by apply chain_ok_extend|done|exact Hix|].
  rewrite (block_marked_append now n) in Hd by (done || apply Hh).
  exists d. split; [|done]. unfold index_block. rewrite (run_Ok _ _ _ _ _ (calculate_sync_ok _ _ _ _ Hst)).
  pose proof (reached_store (block_id b) st) as Hns.
  rewrite <-Hns in Hrun1, Hrun. set (st1 := reached (block_id b) st) in *.
  rewrite (run_Ok _ _ _ _ _ (attempt_Ok _ _ _ _ (on_store_Ok _ _ _ _ (log_call_Ok _ _ _ _ Hrun1)))), no_errors.
  rewrite (run_Ok _ _ _ _ _ (on_store_Ok _ (set_node_store (mkStore (index_store (node_store st1)) d1) st1) _ _ Hrun)).
  unfold modify, pass_on. cbn [is_synced set_node_store]. by destruct st1 as [? ? [] ? ?].
Qed.

(** The events that are passed on: those from the block on with which the node
    has caught up with the chain. *)
Fixpoint passed_on (head : Z) (synced : bool) (blocks : list BlockWithLogs) (events : list (list SignificantChainEvent)) :
    list SignificantChainEvent :=
  match blocks, events with
  | b :: blocks, e :: events =>
      let synced := synced || (head <=? block_id b) in
      (if synced then e else []) ++ passed_on head synced blocks events
  | _, _ => []
  end.

Lemma pass_on_reached events s id st :
  let st' := pass_on events (set_node_store s (reached id st)) in
  node_store st' = s ∧ chain_head st' = chain_head st ∧ is_synced st' = is_synced st || (chain_head st <=? id) ∧
  egress st' = egress st ++ if is_synced st || (chain_head st <=? id) then events else [].
Proof using Type.
  unfold pass_on, reached. destruct st as [s0 head synced note out]; cbn. destruct synced; [by rewrite ?app_nil_r|].
  destruct (head <=? id); cbn; by rewrite ?app_nil_r.
Qed.

Lemma with_checksums_numbers c n ls : Forall (λ l, block_number l ≤ n) ls → Forall (λ l, block_number l ≤ n) (with_checksums c ls).
Proof using Type. intros Hn. revert c. induction Hn as [|l ls Hl _ IH]; intros c; constructor; [done|apply IH]. Qed.

Lemma numbers_append n ls now b : Forall (λ l, block_number l ≤ n) ls → block_wf b → n < block_id b →
  Forall (λ l, block_number l ≤ block_id b) (with_checksums Hash_default (ls ++ (handled now <$> block_logs b))).
Proof using Type.
  intros Hn Hb Hlt. apply with_checksums_numbers, Forall_app. split.
  - eapply Forall_impl; [exact Hn|]. cbn. intros. lia.
  - apply Forall_fmap. eapply Forall_impl; [apply (bw_logs _ Hb)|]. intros l [_ Hl]. cbn. lia.
Qed.

Lemma index_blocks_ok h clock start_block blocks n ls st db events :
  logs_hold ls (log_store (node_store st)) → with_checksums Hash_default ls = ls →
  Forall (λ l, block_number l ≤ n) ls → blocks_ok n blocks.*1 → start_block < chain_head st →
  replay h blocks.*1 (index_store (node_store st)) = (db, Ok events) →
  ∃ st', index_blocks h clock start_block blocks st = (st', Ok tt) ∧ index_store (node_store st') = db ∧
    logs_hold (with_checksums Hash_default (ls ++ handled_logs clock blocks.*1)) (log_store (node_store st')) ∧
    egress st' = egress st ++ passed_on (chain_head st) (is_synced st) blocks.*1 events.
Proof.
  revert n ls st events. induction blocks as [|[b rpc_head] blocks IH]; intros n ls st events Hh Hc Hn Hok Hst Hre.
  - injection Hre as <- <-. exists st. unfold handled_logs. cbn [fmap list_fmap concat passed_on index_blocks]. by rewrite !app_nil_r, Hc.
  - destruct Hok as (Hlt & Hb & Hok). cbn [fmap list_fmap fst replay] in Hre.
    apply run_Ok_inv in Hre as (db1 & e & Hix & (db2 & es & Hre & [= <- <-])%run_Ok_inv).
    destruct (index_block_ok h (clock (block_id b)) rpc_head start_block b n ls st db1 e Hh Hc Hn Hb Hlt Hst Hix) as (d & Hrun & Hd).
    set (st1 := pass_on _ _) in Hrun.
    destruct (pass_on_reached e (mkStore db1 d) (block_id b) st) as (Hs1 & Hhd1 & Hsy1 & Heg1). fold st1 in Hs1, Hhd1, Hsy1, Heg1.
    set (ls1 := with_checksums Hash_default (ls ++ (handled (clock (block_id b)) <$> block_logs b))) in Hd.
    assert (Forall (λ l, block_number l ≤ block_id b) ls1) as Hn1 by (by apply (numbers_append n)).
    destruct (IH (block_id b) ls1 st1 es) as (st' & Hrun' & Hdb & Hlogs & Heg);
      [by rewrite Hs1|apply with_checksums_idemp|done|done|by rewrite Hhd1|by rewrite Hs1|].
    exists st'. cbn [index_blocks]. rewrite (run_Ok _ _ _ _ _ Hrun). split; [exact Hrun'|]. split; [done|]. split.
    + unfold ls1 in Hlogs.
      rewrite with_checksums_app, with_checksums_idemp, chain_with_checksums, <-with_checksums_app, <-app_assoc in Hlogs. exact Hlogs.
    + rewrite Heg, Heg1, Hhd1, Hsy1, <-app_assoc. done.
Qed.

(** C3. Blocks streamed in order are each handled once: the index is that of
    handling their logs one block after the other, every log is kept with its
    place in the chain of checksums and marked, and the events passed on are
    those from the block on that reaches the head of the chain, in order. *)
Theorem stream_indexed (h : ContractEventHandlers) (clock : Z → Z) (start_block n : Z)
    (blocks : list (BlockWithLogs * option Z)) (ls : list SerializableLog) (st : IndexerState)
    (db : HoprDb) (events : list (list SignificantChainEvent)) :
  logs_hold ls (log_store (node_store st)) → with_checksums Hash_default ls = ls →
  Forall (λ l, block_number l ≤ n) ls → blocks_ok n blocks.*1 → start_block < chain_head st →
  replay h blocks.*1 (index_store (node_store st)) = (db, Ok events) →
  let all := ls ++ handled_logs clock blocks.*1 in
  ∃ st', index_blocks h clock start_block blocks st = (st', Ok tt) ∧ index_store (node_store st') = db ∧
    get_logs None None (log_store (node_store st')) = (log_store (node_store st'), Ok (with_checksums Hash_default all)) ∧
    egress st' = egress st ++ passed_on (chain_head st) (is_synced st) blocks.*1 events.
Proof.
  intros Hh Hc Hn Hok Hst Hre all.
  destruct (index_blocks_ok h clock start_block blocks n ls st db events Hh Hc Hn Hok Hst Hre) as (st' & Hrun & Hdb & Hl & Heg).
  exists st'. split; [done|]. split; [done|]. split; [|done]. by apply get_all_logs.
Qed.

(** ** Fast synchronisation *)
Lemma filter_raw n (a b : list SerializableLog) : raw <$> a = raw <$> b →
  raw <$> filter (λ l, block_number l = n) a = raw <$> filter (λ l, block_number l = n) b.
Proof using Type.
  intros Hab. transitivity (filter (λ l, block_number l = n) (raw <$> a)); [symmetry; apply (filter_fmap raw)|].
  rewrite Hab. apply (filter_fmap raw).
Qed.

Lemma raw_with_checksums c ls : raw <$> with_checksums c ls = raw <$> ls.
Proof using Type. revert c. induction ls as [|l ls IH]; intros c; [done|]. cbn. f_equal. apply IH. Qed.

Lemma raw_block_marked now n (ls : list SerializableLog) : raw <$> (block_marked now n <$> ls) = raw <$> ls.
Proof using Type. rewrite <-list_fmap_compose. apply list_fmap_ext. intros i l _. apply marked_raw. Qed.

(** The query of a block gives its logs, and inserting them keeps their order. *)
Lemma get_block_ok n ls d : logs_hold ls d → in_u 64 (n + 1) → 0 ≤ n →
  get_logs (Some n) (Some 0) d = (d, Ok (filter (λ l, block_number l = n) ls)).
Proof.
  intros Hh Hn Hge. rewrite (get_logs_ok _ _ _ d Hh). f_equal. f_equal. destruct Hh as (_ & Hw & _).
  induction Hw as [|l ls Hl _ IH]; [done|]. rewrite !filter_cons, IH.
  rewrite in_block_spec by done. destruct (decide (block_number l = n)) as [->|Hne]; [by rewrite Z.eqb_refl|].
  by rewrite (proj2 (Z.eqb_neq _ _)).
Qed.

Lemma btree_insert_last l ls : Forall (λ x, log_lt x l) ls → btree_insert l ls = ls ++ [l].
Proof using Type.
  induction 1 as [|x ls Hx _ IH]; [done|]. cbn. by rewrite SerializableLog_cmp_antisym, Hx, IH.
Qed.

Lemma logs_of_block_ok n logs acc :
  Forall (λ l, block_number l = n) logs → StronglySorted log_lt (acc ++ logs) → logs_of_block n logs acc = Ok (acc ++ logs).
Proof using Type.
  intros Hn. revert acc. induction Hn as [|l logs Hl _ IH]; intros acc Hs; cbn [logs_of_block]; [by rewrite app_nil_r|].
  assert (Forall (λ x, log_lt x l) acc) as Hlt.
  { apply Forall_forall. intros x Hx. eapply StronglySorted_app_1_elem_of; [exact Hs|done|by left]. }
  rewrite Hl, Z.eqb_refl, btree_insert_last, IH by (done || by rewrite <-app_assoc). by rewrite <-app_assoc.
Qed.

(** The logs of a block among the stored ones. *)
Definition stored_block (ls : list SerializableLog) (b : BlockWithLogs) : Prop :=
  0 ≤ block_id b ∧ in_u 64 (block_id b + 1) ∧ block_logs b ≠ [] ∧
  raw <$> filter (λ l, block_number l = block_id b) ls = raw <$> block_logs b.

Lemma process_block_by_id_ok h now b ls s db events :
  logs_hold ls (log_store s) → chain_ok ls → stored_block ls b → index_only h b (index_store s) = (db, Ok events) →
  ∃ d, process_block_by_id h now (block_id b) s = (mkStore db d, Ok (Some events)) ∧
    logs_hold (with_checksums Hash_default (block_marked now (block_id b) <$> ls)) d.
Proof.
  intros Hh Hc (Hge & Hn & Hne & Hraw) Hix. set (logs := filter (λ l, block_number l = block_id b) ls) in Hraw.
  assert (Forall (λ l, block_number l = block_id b) logs) as Hnum by (apply Forall_forall; by intros l [? _]%list_elem_of_filter).
  assert (StronglySorted log_lt logs) as Hs by apply strongly_sorted_filter, Hh.
  destruct (process_block_ok h now (mkBlock (block_id b) logs) true ls s db events Hh Hc) as (d & Hrun & Hd).
  - intros _. cbn [block_logs block_id]. destruct (last logs) as [l|] eqn:Hl.
    + apply last_Some in Hl as [k Hk]. assert (l ∈ logs) as Hin by (rewrite Hk; apply elem_of_app; right; by left).
      exists l. split; [done|]. apply list_elem_of_filter in Hin as [Hb Hin]. split; [done|]. exists l. split; [done|].
      unfold same_id, SerializableLog_cmp. by rewrite !Z.compare_refl.
    + apply last_None in Hl. rewrite Hl in Hraw. symmetry in Hraw. by apply fmap_nil_inv in Hraw.
  - rewrite <-Hix. rewrite (index_only_raw h (block_id b) logs (block_logs b)) by done. by destruct b.
  - exists d. split; [|done]. unfold process_block_by_id.
    rewrite (run_Ok _ _ _ _ _ (log_call_Ok _ _ _ _ (get_block_ok (block_id b) ls _ Hh Hn Hge))). fold logs.
    rewrite logs_of_block_ok, run_lift by done. by destruct s.
Qed.

(** What the synchronisation of some blocks leaves of a log. *)
Definition marked_by (clock : Z → Z) (ids : list Z) (l : SerializableLog) : Prop :=
  block_number l ∈ ids → processed l = Some true ∧ processed_at l = Some (clock (block_number l)).

Lemma marked_by_step clock n ids ls c : Forall log_wf ls → in_u 64 (n + 1) → 0 ≤ n → Forall (marked_by clock ids) ls →
  Forall (marked_by clock (n :: ids)) (with_checksums c (block_marked (clock n) n <$> ls)).
Proof.
  intros Hw Hn Hge Hm. apply Forall_forall. intros x Hx.
  apply with_checksums_lookup in Hx as (z & c' & (l & -> & Hl)%list_elem_of_fmap & ->).
  rewrite Forall_forall in Hw, Hm. unfold block_marked, marked_log. rewrite in_block_spec by auto.
  destruct (Z.eqb_spec (block_number l) n) as [<-|Hne]; [done|].
  intros [Heq|Hin]%elem_of_cons; [done|]. by apply (Hm l Hl).
Qed.

Lemma fast_sync_blocks_ok h clock blocks ids ls s db events :
  logs_hold ls (log_store s) → chain_ok ls → Forall (stored_block ls) blocks → Forall (marked_by clock ids) ls →
  replay h blocks (index_store s) = (db, Ok events) →
  ∃ d ls', fast_sync_blocks h clock (block_id <$> blocks) s = (mkStore db d, Ok tt) ∧ logs_hold ls' d ∧
    chain_ok ls' ∧ raw <$> ls' = raw <$> ls ∧ Forall (marked_by clock (reverse (block_id <$> blocks) ++ ids)) ls' ∧
    (with_checksums Hash_default ls = ls → with_checksums Hash_default ls' = ls').
Proof.
  revert ids ls s events. induction blocks as [|b blocks IH]; intros ids ls s events Hh Hc Hb Hm Hre.
  - injection Hre as <- <-. exists (log_store s), ls. by destruct s.
  - apply Forall_cons in Hb as [Hb Hbs]. cbn [replay] in Hre.
    apply run_Ok_inv in Hre as (db1 & e & Hix & (db2 & es & Hre & [= <- <-])%run_Ok_inv).
    destruct (process_block_by_id_ok h (clock (block_id b)) b ls s db1 e Hh Hc Hb Hix) as (d & Hrun & Hd).
    set (ls1 := with_checksums _ _) in Hd.
    assert (raw <$> ls1 = raw <$> ls) as Hraw1 by (unfold ls1; by rewrite raw_with_checksums, raw_block_marked).
    assert (with_checksums Hash_default ls1 = ls1) as Hsum1 by apply with_checksums_idemp.
    destruct (IH (block_id b :: ids) ls1 (mkStore db1 d) es) as (d' & ls' & Hrun' & Hh' & Hc' & Hraw' & Hm' & Hsum'); [done|..].
    + exists ls1, []. by rewrite app_nil_r.
    + eapply Forall_impl; [exact Hbs|]. intros b' (Hge' & Hn' & Hne' & Hr'). split; [done|]. split; [done|]. split; [done|].
      rewrite <-Hr'. by apply filter_raw.
    + destruct Hb as (Hge & Hn & _). apply marked_by_step; [apply Hh|done..].
    + done.
    + exists d', ls'. cbn [fmap list_fmap fast_sync_blocks]. rewrite (run_Ok _ _ _ _ _ Hrun). split; [exact Hrun'|].
      split; [done|]. split; [done|]. split; [by rewrite Hraw'|]. split; [|by intros _; apply Hsum'].
      rewrite reverse_cons, <-app_assoc. exact Hm'.
Qed.

(** The distinct blocks of the stored logs. *)
Lemma block_numbers_ok ids ls d :
  logs_hold ls d → StronglySorted Z.lt ids → (∀ n, n ∈ ids ↔ ∃ l, l ∈ ls ∧ block_number l = n) →
  get_logs_block_numbers None None None d = (d, Ok ids).
Proof.
  intros (Hs & Hw & us & Hp & _ & Hst) Hids Hmem. unfold get_logs_block_numbers. rewrite run_get. unfold lift. f_equal.
  rewrite Hst. rewrite Forall_forall in Hw.
  assert (∀ n, n ∈ ids → in_u 64 n) as Hu by (intros n (l & Hl & <-)%Hmem; by apply lw_block, Hw).
  rewrite <-(app_nil_r (status_of <$> us)), filter_prefix; [|apply Forall_fmap, Forall_forall|done].
  2: { intros l Hl. rewrite Hp in Hl. unfold compose. rewrite andb_true_r.
       change (in_blocks None None l). by rewrite in_blocks_all by auto. }
  rewrite <-list_fmap_compose.
  assert (merge_sort blob_order (remove_dups (ls_block_number ∘ status_of <$> us)) = to_be 8 <$> ids) as ->.
  - apply (sort_to bytes_cmp (λ b, b)).
    + apply NoDup_Permutation; [|apply NoDup_remove_dups|].
      * apply NoDup_fmap_2_strong; [|clear -Hids; induction Hids as [|x ids _ IH Hx]; constructor; [|done]].
        -- intros x y Hx Hy Heq. rewrite <-(from_be_to_be_small 8 x), <-(from_be_to_be_small 8 y) by (by apply Hu). by rewrite Heq.
        -- intros Hin. rewrite Forall_forall in Hx. specialize (Hx _ Hin). cbn in Hx. lia.
      * intros b. rewrite elem_of_remove_dups, !list_elem_of_fmap. split.
        -- intros (n & -> & (l & Hl & <-)%Hmem). exists l. by rewrite Hp.
        -- intros (l & -> & Hl). rewrite Hp in Hl. exists (block_number l). split; [done|]. apply Hmem. by exists l.
    + clear -Hids Hu. induction Hids as [|x ids _ IH Hx]; [constructor|]. cbn. constructor; [apply IH; intros; apply Hu; by right|].
      rewrite Forall_forall in Hx. apply Forall_forall. intros ? (y & -> & Hy)%list_elem_of_fmap. unfold lt_by.
      rewrite bytes_cmp_to_be by (apply Hu; by (left || right)). by apply Z.compare_lt_iff, Hx.
  - clear -Hu. induction ids as [|n ids IH]; [done|]. cbn [fmap list_fmap mapM].
    rewrite U256_as_u64_to_be by (apply Hu; by left). cbn [mbind outcome_bind].
    rewrite IH by (intros; apply Hu; by right). done.
Qed.

Lemma blocks_ok_sorted n blocks : blocks_ok n blocks →
  StronglySorted Z.lt (block_id <$> blocks) ∧ Forall (λ b, n < block_id b) blocks.
Proof using Type.
  revert n. induction blocks as [|b blocks IH]; intros n; [by repeat constructor|]. intros (Hlt & Hb & Hok).
  destruct (IH _ Hok) as [Hs Hf]. split; constructor; [done| |done|].
  - apply Forall_fmap. exact Hf.
  - eapply Forall_impl; [exact Hf|]. cbn. lia.
Qed.

Lemma blocks_ok_wf n blocks : blocks_ok n blocks → Forall block_wf blocks.
Proof using Type. revert n. induction blocks as [|b blocks IH]; intros n; [constructor|]. intros (_ & Hb & Hok). constructor; eauto. Qed.

Lemma filter_concat n blocks b : blocks_ok n blocks → b ∈ blocks →
  filter (λ l, block_number l = block_id b) (concat (block_logs <$> blocks)) = block_logs b.
Proof using Type.
  revert n. induction blocks as [|b' blocks IH]; intros n Hok Hin; [by apply elem_of_nil in Hin|].
  pose proof (blocks_ok_sorted _ _ Hok) as [Hs _]. destruct Hok as (_ & Hb' & Hok).
  cbn [fmap list_fmap concat] in *. apply StronglySorted_cons in Hs as [Hlt _]. rewrite Forall_fmap, Forall_forall in Hlt.
  pose proof (bw_logs _ Hb') as Hl'. rewrite Forall_forall in Hl'. apply elem_of_cons in Hin as [->|Hin].
  - apply filter_prefix; [apply Forall_forall; intros l Hl; by apply Hl'|].
    apply Forall_concat, Forall_fmap, Forall_forall. intros b Hb. pose proof (blocks_ok_wf _ _ Hok) as Hw.
    rewrite Forall_forall in Hw. eapply Forall_impl; [apply (bw_logs _ (Hw b Hb))|]. intros l [_ Hl]. specialize (Hlt b Hb). cbn in Hlt |- *. lia.
  - rewrite filter_app. rewrite (IH _ Hok Hin). replace (filter _ (block_logs b')) with (@nil SerializableLog); [done|].
    symmetry. rewrite <-(app_nil_r (block_logs b')). apply filter_suffix; [|constructor].
    apply Forall_forall. intros l Hl. destruct (Hl' l Hl) as [_ Hn]. specialize (Hlt b Hin). cbn in Hlt |- *. lia.
Qed.

Lemma raw_handled clock blocks : raw <$> handled_logs clock blocks = raw <$> concat (block_logs <$> blocks).
Proof using Type.
  unfold handled_logs. induction blocks as [|b blocks IH]; [done|]. cbn [fmap list_fmap concat]. rewrite !fmap_app.
  f_equal; [|exact IH]. rewrite <-list_fmap_compose. by apply list_fmap_ext.
Qed.

(** ** Restarting *)

(** Where fetching goes on. *)
Definition resume_at (cfg : IndexerConfig) (ls : list SerializableLog) : Z :=
  match last ls with
  | Some l => if start_block_number cfg <? block_number l then wrap 64 (block_number l + 1) else start_block_number cfg
  | None => start_block_number cfg
  end.

Lemma resume_raw cfg a b : raw <$> a = raw <$> b → resume_at cfg a = resume_at cfg b.
Proof using Type.
  intros Hab. assert (∀ k, resume_at cfg k = resume_at cfg (raw <$> k)) as Hr.
  { intros k. unfold resume_at. rewrite fmap_last. by destruct (last k). }
  by rewrite (Hr a), Hab, <-Hr.
Qed.

Lemma next_block_ok cfg ls s : logs_hold ls (log_store s) → with_checksums Hash_default ls = ls →
  next_block_to_process cfg s = (s, Ok (resume_at cfg ls)).
Proof.
  intros Hh Hc. unfold next_block_to_process, resume_at.
  assert (Forall (λ l, is_Some (checksum l)) ls) as Hcs by (rewrite <-Hc; apply with_checksums_checked).
  assert (get_last_checksummed_log (log_store s) = (log_store s, Ok (last ls))) as Hg.
  { apply (get_last_checksummed_log_ok ls []); [by rewrite app_nil_r|done|done]. }
  rewrite (run_Ok _ _ _ _ _ (log_call_Ok _ _ _ _ Hg)). destruct (last ls) as [l|] eqn:Hl; [|by destruct s].
  apply last_Some in Hl as [k ->]. apply Forall_app in Hcs as [_ [[c Hcl] _]%Forall_cons].
  rewrite Hcl. cbn [unwrap_option]. rewrite run_lift. by destruct s.
Qed.

Definition unprocessed (l : SerializableLog) : SerializableLog := set_log_state (Some false) None (checksum l) l.

Lemma raw_unprocessed (ls : list SerializableLog) : raw <$> (unprocessed <$> ls) = raw <$> ls.
Proof using Type. rewrite <-list_fmap_compose. by apply list_fmap_ext. Qed.

Lemma unprocess_ok ls d : logs_hold ls d →
  ∃ d', set_logs_unprocessed None None d = (d', Ok tt) ∧ logs_hold (unprocessed <$> ls) d'.
Proof.
  intros Hh. destruct (mark_logs_ok false None None None ls d Hh) as (d' & Hrun & Hh'). exists d'. split; [exact Hrun|].
  rewrite (list_fmap_ext _ unprocessed) in Hh'; [done|]. intros i l Hl%list_elem_of_lookup_2.
  destruct Hh as (_ & Hw & _). rewrite Forall_forall in Hw. unfold marked_log. by rewrite in_blocks_all by auto.
Qed.

(** The index is cleared and all logs count as unprocessed. *)
Lemma reset_ok db ls d : logs_hold ls d →
  ∃ d', (index_call clear_index_db;; log_call (set_logs_unprocessed None None)) (mkStore db d) =
      (mkStore (clear_index_db db).1 d', Ok tt) ∧ logs_hold (unprocessed <$> ls) d'.
Proof.
  intros Hh. destruct (unprocess_ok ls d Hh) as (d' & Hrun & Hh'). exists d'. split; [|done].
  rewrite (run_Ok _ _ _ (mkStore (clear_index_db db).1 d) tt) by done.
  exact (log_call_Ok _ (mkStore _ d) _ _ Hrun).
Qed.

Lemma start_run h clock head cfg db d :
  ensure_logs_origin (origin_of_logs h) d = (d, Ok tt) →
  start h clock (Some head) cfg (mkStore db d) =
    (mode ← choose_mode cfg; run_fast_sync h clock mode;; next ← next_block_to_process cfg;
     mret (head, next, log_filter h)) (mkStore db d).
Proof using Type. intros Ho. unfold start. by rewrite (run_Ok _ _ _ _ _ (log_call_Ok _ (mkStore db d) _ _ Ho)). Qed.

Lemma choose_empty cfg db d k : index_is_empty db = (db, Ok true) →
  (choose_mode cfg ≫= k) (mkStore db d : Store) =
    ((index_call clear_index_db;; log_call (set_logs_unprocessed None None)) ≫= λ _,
       k (if fast_sync cfg then FromScratch else NoFastSync) : SM Store CoreEthereumIndexerError (Z * Z * LogFilter)) (mkStore db d).
Proof using Type.
  intros He. unfold choose_mode. rewrite run_bind, (run_Ok _ _ _ _ _ (index_call_Ok _ (mkStore db d) _ _ He)).
  destruct (fast_sync cfg); by rewrite !run_bind.
Qed.

Lemma numbers_of_blocks n ls blocks : blocks_ok n blocks → Forall (stored_block ls) blocks →
  raw <$> ls = raw <$> concat (block_logs <$> blocks) →
  ∀ k, k ∈ block_id <$> blocks ↔ ∃ l, l ∈ ls ∧ block_number l = k.
Proof using Type.
  intros Hok Hb Hraw k. rewrite Forall_forall in Hb. split.
  - intros (b & -> & Hin)%list_elem_of_fmap. destruct (Hb b Hin) as (_ & _ & Hne & Hr).
    destruct (filter (λ l, block_number l = block_id b) ls) as [|l k] eqn:Hf.
    + symmetry in Hr. by apply fmap_nil_inv in Hr.
    + assert (l ∈ filter (λ l, block_number l = block_id b) ls) as Hl by (rewrite Hf; by left).
      apply list_elem_of_filter in Hl as [? ?]. by exists l.
  - intros (l & Hl & <-). apply (list_elem_of_fmap_2 raw) in Hl. rewrite Hraw in Hl.
    apply list_elem_of_fmap in Hl as (x & Hx & Hl). apply list_elem_of_In, in_concat in Hl as (logs & Hlogs & Hin).
    apply list_elem_of_In, list_elem_of_fmap in Hlogs as (b & -> & Hbin). apply list_elem_of_fmap. exists b. split; [|done].
    pose proof (blocks_ok_wf _ _ Hok) as Hw. rewrite Forall_forall in Hw. pose proof (bw_logs _ (Hw b Hbin)) as Hlw.
    rewrite Forall_forall in Hlw. destruct (Hlw x) as [_ <-]; [by apply list_elem_of_In|].
    change (block_number (raw l) = block_number (raw x)). by rewrite Hx.
Qed.

(** C2. Rebuilding the index from the stored logs gives the index that fetching
    gave: after a node has streamed blocks into an empty log database, a start
    with fast synchronisation on an emptied index ends with exactly the index
    of the streaming node, and fetching goes on after the last stored block. *)
Theorem fast_sync_replays (h : ContractEventHandlers) (clock : Z → Z) (start_block n : Z)
    (blocks : list (BlockWithLogs * option Z)) (st : IndexerState) (db : HoprDb) (events : list (list SignificantChainEvent)) :
  log (log_store (node_store st)) = [] → log_status (log_store (node_store st)) = [] →
  blocks_ok n blocks.*1 → Forall (λ b, block_logs b ≠ []) blocks.*1 → start_block < chain_head st →
  replay h blocks.*1 (index_store (node_store st)) = (db, Ok events) →
  ∃ st', index_blocks h clock start_block blocks st = (st', Ok tt) ∧ index_store (node_store st') = db ∧
    ∀ (rebuilt : HoprDb) (clock' : Z → Z) (cfg : IndexerConfig) (head : Z),
      fast_sync cfg = true → index_is_empty rebuilt = (rebuilt, Ok true) →
      (clear_index_db rebuilt).1 = index_store (node_store st) →
      ensure_logs_origin (origin_of_logs h) (log_store (node_store st')) = (log_store (node_store st'), Ok tt) →
      ∃ d, start h clock' (Some head) cfg (mkStore rebuilt (log_store (node_store st'))) =
        (mkStore db d, Ok (head, resume_at cfg (concat (block_logs <$> blocks.*1)), log_filter h)).
Proof.
  intros Hl Hst Hok Hne Hhead Hre.
  assert (logs_hold [] (log_store (node_store st))) as Hh.
  { split; [constructor|]. split; [constructor|]. exists []. by rewrite Hl, Hst. }
  destruct (index_blocks_ok h clock start_block blocks n [] st db events Hh) as (st' & Hrun & Hdb & Hlogs & _); [done..|].
  exists st'. split; [done|]. split; [done|]. intros rebuilt clock' cfg head Hfs He Hclear Ho.
  rewrite (start_run h clock' head cfg rebuilt _ Ho), (choose_empty cfg rebuilt _ _ He), Hfs.
  destruct (reset_ok rebuilt _ _ Hlogs) as (d1 & Hreset & Hlogs1). rewrite (run_Ok _ _ _ _ _ Hreset), Hclear.
  set (ls := unprocessed <$> _) in Hlogs1.
  assert (raw <$> ls = raw <$> concat (block_logs <$> blocks.*1)) as Hraw.
  { unfold ls. rewrite raw_unprocessed, raw_with_checksums. apply raw_handled. }
  assert (with_checksums Hash_default ls = ls) as Hsum by (apply sealed_map; [done|apply with_checksums_idemp]).
  assert (Forall (stored_block ls) blocks.*1) as Hb.
  { pose proof (blocks_ok_wf _ _ Hok) as Hw. rewrite Forall_forall in Hw, Hne. apply Forall_forall. intros b Hb.
    destruct (Hw b Hb) as [? ? ? ?]. split; [done|]. split; [done|]. split; [by apply Hne|].
    rewrite (filter_raw _ _ _ Hraw). by rewrite (filter_concat n). }
  assert (get_logs_block_numbers None None None d1 = (d1, Ok (block_id <$> blocks.*1))) as Hnums.
  { apply (block_numbers_ok _ ls); [done|by eapply blocks_ok_sorted|].
    by apply (numbers_of_blocks n). }
  cbn [run_fast_sync]. rewrite run_bind, (run_Ok _ _ _ _ _ (log_call_Ok _ (mkStore _ d1) _ _ Hnums)).
  destruct (fast_sync_blocks_ok h clock' blocks.*1 [] ls (mkStore (index_store (node_store st)) d1) db events)
    as (d & ls' & Hfast & Hh' & _ & Hraw' & _ & Hsum'); [done|by apply sealed_chain|done| |done|].
  { apply Forall_forall. intros l _ Hin. by apply elem_of_nil in Hin. }
  exists d. rewrite (run_Ok _ _ _ _ _ Hfast).
  rewrite (run_Ok _ _ _ _ _ (next_block_ok cfg ls' (mkStore db d) Hh' (Hsum' Hsum))).
  by rewrite (resume_raw cfg ls' (concat (block_logs <$> blocks.*1))) by congruence.
Qed.

(** C28. Without fast synchronisation an emptied index is never rebuilt: the
    start clears the index and marks every stored log as unprocessed, but the
    checksums stay, so fetching goes on after the last stored block and the
    history before it is skipped. *)
Theorem full_resync_skips_history (h : ContractEventHandlers) (clock : Z → Z) (cfg : IndexerConfig) (head : Z)
    (ls : list SerializableLog) (l : SerializableLog) (db : HoprDb) (d : LogsDb) :
  logs_hold ls d → with_checksums Hash_default ls = ls → last ls = Some l →
  start_block_number cfg < block_number l → in_u 64 (block_number l + 1) → fast_sync cfg = false →
  index_is_empty db = (db, Ok true) → ensure_logs_origin (origin_of_logs h) d = (d, Ok tt) →
  ∃ d', start h clock (Some head) cfg (mkStore db d) =
      (mkStore (clear_index_db db).1 d', Ok (head, block_number l + 1, log_filter h)) ∧
    get_logs None None d' = (d', Ok (unprocessed <$> ls)).
Proof.
  intros Hh Hc Hl Hlt Hn Hfs He Ho.
  rewrite (start_run h clock head cfg db _ Ho), (choose_empty cfg db _ _ He), Hfs.
  destruct (reset_ok db _ _ Hh) as (d' & Hreset & Hh'). exists d'. rewrite (run_Ok _ _ _ _ _ Hreset).
  split; [|by apply get_all_logs]. cbn [run_fast_sync]. rewrite run_ret.
  rewrite (run_Ok _ _ _ _ _ (next_block_ok cfg _ (mkStore _ d') Hh' ltac:(by apply sealed_map))).
  rewrite (resume_raw cfg _ ls (raw_unprocessed ls)). unfold resume_at. rewrite Hl.
  rewrite (proj2 (Z.ltb_lt _ _) Hlt), wrap_small by done. done.
Qed.

(** ** A block that is stored already *)
Lemma book_insert_has l x ls : existsb (same_id l) ls = true → existsb (same_id l) (book_insert x ls) = true.
Proof using Type.
  intros (y & Hy & Hid)%existsb_exists. apply existsb_exists. exists y. split; [|done].
  apply list_elem_of_In. rewrite book_insert_perm. right. by apply list_elem_of_In.
Qed.

Lemma book_store_refuses l logs ls : l ∈ logs → existsb (same_id l) ls = true →
  existsb is_err (book_store_all logs ls).2 = true.
Proof using Type.
  revert ls. induction logs as [|x logs IH]; intros ls Hl Hex; [by apply elem_of_nil in Hl|].
  cbn [book_store_all existsb snd]. apply orb_true_iff. apply elem_of_cons in Hl as [<-|Hl].
  - left. unfold book_store. by rewrite Hex.
  - right. apply IH; [done|]. unfold book_store. destruct (existsb (same_id x) ls); [done|]. by apply book_insert_has.
Qed.

(** A block that is streamed again is not handled: as soon as one of its
    logs is stored already, the others are stored but the index stays as it is
    and no event is passed on - also when the node stopped between storing the
    block and handling it. *)
Theorem stored_block_skipped (h : ContractEventHandlers) (now : Z) (rpc_head : option Z) (start_block : Z)
    (b : BlockWithLogs) (ls : list SerializableLog) (l : SerializableLog) (st : IndexerState) :
  logs_hold ls (log_store (node_store st)) → Forall (λ x, log_wf (stored x)) (block_logs b) →
  l ∈ block_logs b → existsb (same_id l) ls = true → start_block < chain_head st →
  ∃ d, index_block h now rpc_head start_block b st =
      (set_node_store (mkStore (index_store (node_store st)) d) (reached (block_id b) st), Ok tt) ∧
    get_logs None None d = (d, Ok (book_store_all (block_logs b) ls).1).
Proof.
  intros Hh Hw Hl Hex Hst. destruct (store_logs_ok (block_logs b) ls _ Hh Hw) as (d & Hrun & Hd).
  exists d. split; [|by apply get_all_logs]. unfold index_block. rewrite (run_Ok _ _ _ _ _ (calculate_sync_ok _ _ _ _ Hst)).
  pose proof (reached_store (block_id b) st) as Hns.
  rewrite <-Hns in Hrun |- *.
  rewrite (run_Ok _ _ _ _ _ (attempt_Ok _ _ _ _ (on_store_Ok _ _ _ _ (log_call_Ok _ _ _ _ Hrun)))).
  by rewrite (book_store_refuses l).
Qed.
End BlocksSpec.
