(* ===== verification/BlockRuns.v ===== *)
(** * Concrete runs of the block loop

    Two blocks of channel events, streamed into an empty log database,
    replayed from it, and fetched a second time. *)
From Stdlib Require Import Floats.SpecFloat.
From stdpp Require Import gmap strings sorting.
From S2P Require Import Prelude Primitives Crypto Channels Tickets WinProb SharedKeys Sphinx MetaPacket Por Packet PacketSpec.
From S2P Require Import TicketStore TicketStoreSpec TicketStoreRuns NodeDb Protocol ProtocolSpec NodeProtocol NodeRuns.
From S2P Require Import Indexer IndexerRuns Logs LogsSpec Blocks BlocksSpec.

#[local] Existing Instances Z3_curve Z3_curve_laws toy_kdf toy_curve toy_curve_laws.
#[local] Existing Instances plain_hex plain_hex_laws table_order table_order_laws.
#[local] Existing Instances plain_addresses exact_floats toy_ed25519 toy_ed25519_laws toy_decoder.

(** The topic of an event: its name. *)
#[local] Instance toy_topics : EventSignatures :=
  λ _ event, take 32 (((λ c, Z.of_N (Ascii.N_of_ascii c)) <$> String.list_ascii_of_string event) ++ replicate 32 0).

Definition chain_log (block i : Z) : SerializableLog :=
  mkLog (replicate 20 2) [] [i] 0 block (replicate 32 block) (replicate 32 i) i false None None None.

Definition toy_block (block : Z) (idx : list Z) : BlockWithLogs := mkBlock block (chain_log block <$> idx).
Definition toy_blocks : list (BlockWithLogs * option Z) := [(toy_block 5 [0; 1], None); (toy_block 8 [2; 3; 4], Some 9)].

Definition empty_index : HoprDb := (clear_index_db toy_db).1.
Definition primed : LogsDb := (ensure_logs_origin (origin_of_logs toy_handlers) (mkLogsDb [] [] [])).1.
Definition first_state : IndexerState := mkIndexerState (mkStore empty_index primed) 8 false false [].
Definition toy_clock (block : Z) : Z := 1000 + block.

Lemma chain_log_new block i : in_u 64 block → in_u 64 i → new_log (chain_log block i).
Proof. intros. split; [|done]. by split. Qed.

Lemma toy_blocks_ok : blocks_ok (-1) toy_blocks.*1.
Proof.
  split; [by_check|]. split; [|split; [by_check|split; [|exact I]]].
  - split; [by_check|by_check| |].
    + repeat constructor; by apply chain_log_new.
    + repeat constructor.
  - split; [by_check|by_check| |].
    + repeat constructor; by apply chain_log_new.
    + repeat constructor.
Qed.

Lemma toy_replay : ∃ db events, replay toy_handlers toy_blocks.*1 empty_index = (db, Ok events).
Proof.
  assert (is_ok (replay toy_handlers toy_blocks.*1 empty_index).2 = true) as Hok by by_eval.
  destruct (replay toy_handlers toy_blocks.*1 empty_index) as [db [events|e|]] eqn:Hr; [|discriminate Hok..].
  by exists db, events.
Qed.

Lemma primed_tables : log primed = [] ∧ log_status primed = [].
Proof. split; by_eval. Qed.

Lemma primed_empty : logs_hold [] primed.
Proof.
  destruct primed_tables as [Hl Hs]. split; [constructor|]. split; [constructor|]. exists [].
  split; [constructor|]. split; [exact Hl|exact Hs].
Qed.

(** ** The log database *)
Lemma checksums_ignore_batches_witness :
  let logs := chain_log 5 <$> [0; 1; 2] in
  (store_batches [logs] (mkLogsDb [] [] [])).2 = Ok (chain Hash_default logs) ∧
  (store_batches [take 1 logs; drop 1 logs] (mkLogsDb [] [] [])).2 = Ok (chain Hash_default logs).
Proof.
  cbv zeta.
  assert (StronglySorted log_lt (chain_log 5 <$> [0; 1; 2])) as Hs by repeat constructor.
  assert (Forall new_log (chain_log 5 <$> [0; 1; 2])) as Hn by (repeat constructor; by apply chain_log_new).
  split.
  - destruct (checksums_ignore_batches [chain_log 5 <$> [0; 1; 2]] (mkLogsDb [] [] []) eq_refl eq_refl) as (d & Hrun & _);
      [exact Hs|exact Hn|]. by rewrite Hrun.
  - destruct (checksums_ignore_batches [take 1 (chain_log 5 <$> [0; 1; 2]); drop 1 (chain_log 5 <$> [0; 1; 2])]
      (mkLogsDb [] [] []) eq_refl eq_refl) as (d & Hrun & _); [exact Hs|exact Hn|]. by rewrite Hrun.
Defined.

(** ** Streaming and replaying *)
Lemma stream_indexed_witness :
  ∃ st' db events, replay toy_handlers toy_blocks.*1 empty_index = (db, Ok events) ∧
    index_blocks toy_handlers toy_clock 0 toy_blocks first_state = (st', Ok tt) ∧ index_store (node_store st') = db ∧
    egress st' = default [] (events !! 1%nat).
Proof.
  destruct toy_replay as (db & events & Hre).
  pose proof primed_empty as Hh.
  destruct (stream_indexed toy_handlers toy_clock 0 (-1) toy_blocks [] first_state db events Hh eq_refl)
    as (st' & Hrun & Hdb & _ & Heg); [constructor|exact toy_blocks_ok|by_check|exact Hre|].
  exists st', db, events. split; [exact Hre|]. split; [exact Hrun|]. split; [exact Hdb|].
  rewrite Heg. destruct events as [|e1 [|e2 [|e3 es]]]; [done..|cbn; by rewrite app_nil_r|].
  exfalso. assert (length <$> (match (replay toy_handlers toy_blocks.*1 empty_index).2 with Ok es => Some es | _ => None end) =
    Some 2%nat) as Hlen by by_eval. by rewrite Hre in Hlen.
Defined.

Lemma origin_known h d : log_topic_info d = (λ p, (to_hex p.1, to_hex p.2)) <$> origin_of_logs h →
  origin_of_logs h ≠ [] → NoDup ((λ p, (to_hex p.1, to_hex p.2)) <$> origin_of_logs h) →
  ensure_logs_origin (origin_of_logs h) d = (d, Ok tt).
Proof.
  intros Htopics Hne Hnd. unfold ensure_logs_origin. set (rows := (λ p : Address * Hash, (to_hex p.1, to_hex p.2)) <$> origin_of_logs h) in *.
  assert (rows ≠ []) as Hr by (intros Hr; by apply fmap_nil_inv in Hr).
  rewrite bool_decide_eq_false_2 by done. rewrite run_get, Htopics.
  rewrite (bool_decide_eq_false_2 (length rows = 0%nat)) by (intros Hl; by apply nil_length_inv in Hl).
  rewrite andb_false_r.
  replace (forallb _ rows) with true; [done|]. symmetry. apply forallb_forall. intros r Hin%list_elem_of_In.
  apply bool_decide_eq_true. pose proof (filter_key (λ x, x) (λ x, x) rows r r) as Hk.
  rewrite !list_fmap_id in Hk. change 1%nat with (length [r]). f_equal. by apply Hk.
Qed.

Lemma streamed_origin st' : index_blocks toy_handlers toy_clock 0 toy_blocks first_state = (st', Ok tt) →
  ensure_logs_origin (origin_of_logs toy_handlers) (log_store (node_store st')) = (log_store (node_store st'), Ok tt).
Proof.
  intros Hrun. apply origin_known.
  - change st' with (st', @Ok CoreEthereumIndexerError _ tt).1. rewrite <-Hrun. by_eval.
  - intros Hn. apply (f_equal length) in Hn. revert Hn. assert (length (origin_of_logs toy_handlers) = 25%nat) as -> by by_eval. discriminate.
  - apply (bool_decide_unpack _). vm_cast_no_check I.
Qed.

Lemma empty_index_empty : index_is_empty empty_index = (empty_index, Ok true).
Proof. unfold index_is_empty. rewrite run_get. cbv zeta. by_eval. Qed.

Lemma fast_sync_replays_witness :
  ∃ st' d db, index_blocks toy_handlers toy_clock 0 toy_blocks first_state = (st', Ok tt) ∧ index_store (node_store st') = db ∧
    start toy_handlers toy_clock (Some 9) (mkIndexerConfig 2 true) (mkStore empty_index (log_store (node_store st'))) =
      (mkStore db d, Ok (9, 9, log_filter toy_handlers)).
Proof.
  destruct toy_replay as (db & events & Hre).
  destruct (fast_sync_replays toy_handlers toy_clock 0 (-1) toy_blocks first_state db events (proj1 primed_tables) (proj2 primed_tables))
    as (st' & Hrun & Hdb & Hstart); [exact toy_blocks_ok|repeat constructor; discriminate|by_check|exact Hre|].
  destruct (Hstart empty_index toy_clock (mkIndexerConfig 2 true) 9) as (d & Hs);
    [reflexivity|exact empty_index_empty|reflexivity|by apply streamed_origin|].
  exists st', d, db. split; [exact Hrun|]. split; [exact Hdb|]. rewrite Hs. by_eval.
Defined.

(** ** Restarts that go wrong *)

(** The logs of the blocks, each sealed. *)
Definition sealed_logs : list SerializableLog :=
  with_checksums Hash_default (handled_logs toy_clock toy_blocks.*1).

Lemma streamed_logs : ∃ st', index_blocks toy_handlers toy_clock 0 toy_blocks first_state = (st', Ok tt) ∧
  logs_hold sealed_logs (log_store (node_store st')).
Proof.
  destruct toy_replay as (db & events & Hre).
  destruct (index_blocks_ok toy_handlers toy_clock 0 toy_blocks (-1) [] first_state db events primed_empty eq_refl)
    as (st' & Hrun & _ & Hl & _); [constructor|exact toy_blocks_ok|by_check|exact Hre|].
  exists st'. split; [exact Hrun|exact Hl].
Qed.

Lemma full_resync_skips_history_witness :
  ∃ st' d, index_blocks toy_handlers toy_clock 0 toy_blocks first_state = (st', Ok tt) ∧
    start toy_handlers toy_clock (Some 9) (mkIndexerConfig 2 false) (mkStore empty_index (log_store (node_store st'))) =
      (mkStore empty_index d, Ok (9, 9, log_filter toy_handlers)) ∧
    get_logs None None d = (d, Ok (unprocessed <$> sealed_logs)).
Proof.
  destruct streamed_logs as (st' & Hrun & Hl).
  assert (is_Some (last sealed_logs)) as [l Hlast] by (apply (bool_decide_unpack _); vm_cast_no_check I).
  assert (block_number l = 8) as Hn.
  { assert (block_number <$> last sealed_logs = Some 8) as Hb by by_eval. rewrite Hlast in Hb. by injection Hb. }
  destruct (full_resync_skips_history toy_handlers toy_clock (mkIndexerConfig 2 false) 9 sealed_logs l empty_index
    (log_store (node_store st')) Hl) as (d & Hs & Hg);
    [apply with_checksums_idemp|exact Hlast|rewrite Hn; by_check|rewrite Hn; by_check|reflexivity|exact empty_index_empty
    |by apply streamed_origin|].
  exists st', d. split; [exact Hrun|]. split; [|exact Hg]. rewrite Hn in Hs. exact Hs.
Defined.

(** The second block comes again, with one more log. *)
Lemma stored_block_skipped_witness :
  ∃ st' d, index_blocks toy_handlers toy_clock 0 toy_blocks first_state = (st', Ok tt) ∧
    index_block toy_handlers 2000 None 0 (toy_block 8 [4; 5]) st' =
      (set_node_store (mkStore (index_store (node_store st')) d) (reached 8 st'), Ok tt) ∧
    get_logs None None d = (d, Ok (sealed_logs ++ [stored (chain_log 8 5)])).
Proof.
  destruct streamed_logs as (st' & Hrun & Hl).
  destruct (stored_block_skipped toy_handlers 2000 None 0 (toy_block 8 [4; 5]) sealed_logs (chain_log 8 4) st' Hl)
    as (d & Hd & Hg).
  - assert (∀ i, in_u 64 i → log_wf (stored (chain_log 8 i))) as Hw by (intros i Hi; exact (proj1 (chain_log_new 8 i ltac:(by_check) Hi))).
    constructor; [apply Hw; by_check|constructor; [apply Hw; by_check|constructor]].
  - by left.
  - by_eval.
  - assert (chain_head st' = 8) as ->; [|by_check].
    change st' with (st', @Ok CoreEthereumIndexerError _ tt).1. rewrite <-Hrun. by_eval.
  - exists st', d. split; [exact Hrun|]. split; [exact Hd|]. rewrite Hg. by_eval.
Defined.
