(* ===== verification/Aggregation.v ===== *)
(** * Ticket aggregation

    Models the aggregation operations of [db/sql/src/tickets.rs]: the receiver
    of tickets chooses those to be aggregated and marks them, the issuer checks
    them and signs one ticket for all, the receiver checks it and puts it in
    their place. *)
From Stdlib Require Import Floats.SpecFloat.
From stdpp Require Import gmap strings sorting.
From S2P Require Import Prelude Primitives Crypto Channels Tickets WinProb SharedKeys MetaPacket Packet.
From S2P Require Import TicketStore Protocol NodeDb.

Record AggregationPrerequisites := mkPrerequisites {
  min_ticket_count : option Z;
  min_unaggregated_ratio : option f64
}.

Definition MAX_TICKETS_TO_AGGREGATE_BATCH : nat := 500.

Section Aggregation.
Context `{!Secp256k1} `{!Curve25519} `{!HexCodec} `{!ScanOrder} `{!Multiaddrs} `{!FloatCmp}.

Abbreviation TX := (SM TicketsDb DbSqlError).
Abbreviation DB := (SM HoprDb DbSqlError).

(** ** Choosing the tickets *)

(** The loop: the tickets that reach the minimum probability, until the balance
    of the channel is exceeded; with their total. *)
Fixpoint satisfying_loop (models : list TicketModel) (channel_entry : ChannelEntry) (min_win_prob : WinningProbability)
    (total_balance : HoprBalance) (acc : list TicketModel) : DR (list TicketModel * HoprBalance) :=
  match models with
  | [] => Ok (acc, total_balance)
  | m :: models =>
      ticket_wp ← map_err (λ _, DecodingError) (WinProb_try_from (m_winning_probability m));
      order ← approx_cmp ticket_wp min_win_prob;
      match order with
      | Lt => satisfying_loop models channel_entry min_win_prob total_balance acc
      | _ =>
          to_add ← Balance_from_be_bytes (m_amount m);
          let total := Balance_add total_balance to_add in
          if Balance_ltb (balance channel_entry) total then Ok (acc, Balance_sub total to_add)
          else satisfying_loop models channel_entry min_win_prob total (acc ++ [m])
      end
  end.

Definition filter_satisfying_ticket_models (prerequisites : AggregationPrerequisites) (models : list TicketModel)
    (channel_entry : ChannelEntry) (min_win_prob : WinningProbability) : DR (list TicketModel) :=
  '(to_be_aggregated, total_balance) ← satisfying_loop models channel_entry min_win_prob Balance_zero [];
  let to_be_agg_count := Z.of_nat (length to_be_aggregated) in
  match min_ticket_count prerequisites, min_unaggregated_ratio prerequisites with
  | None, None => Ok to_be_aggregated
  | threshold, ratio =>
      if match threshold with Some agg_threshold => agg_threshold <=? to_be_agg_count | None => false end
      then Ok to_be_aggregated
      else match ratio with
           | Some unrealized_threshold =>
               diminished_balance ← map_err NonSpecificError (Balance_mul_f64 (balance channel_entry) unrealized_threshold);
               if Balance_leb diminished_balance total_balance && (1 <? to_be_agg_count)
               then Ok to_be_aggregated else Ok []
           | None => Ok []
           end
  end.

(** The order of a query by index, ascending and descending. *)
Definition index_ascending (a b : TicketModel) : Prop := bytes_cmp (m_index a) (m_index b) ≠ Gt.
Definition index_descending (a b : TicketModel) : Prop := bytes_cmp (m_index a) (m_index b) ≠ Lt.
#[export] Instance index_ascending_dec : RelDecision index_ascending.
Proof. intros x y. unfold index_ascending. apply _. Defined.
#[export] Instance index_descending_dec : RelDecision index_descending.
Proof. intros x y. unfold index_descending. apply _. Defined.

Definition not_being_aggregated (r : TicketModel) : bool :=
  negb (m_state r =? AcknowledgedTicketStatus_repr BeingAggregated).

(** Tickets that the first one, itself an aggregate, covers are left out. *)
Definition not_covered (first_ticket : Ticket) (t : TransferableWinningTicket) : bool :=
  negb ((t_index first_ticket <=? t_index (tw_ticket t)) &&
        (t_index (tw_ticket t) <? wrap 64 (t_index first_ticket + t_index_offset first_ticket))).

Definition without_covered (tickets : list TransferableWinningTicket) : list TransferableWinningTicket :=
  match tickets with
  | [] => []
  | first_ticket :: rest => first_ticket :: filter (not_covered (tw_ticket first_ticket)) rest
  end.

(** The random values that the VRF proofs draw, one per ticket. *)
Definition transferable_of (chain_key : ChainKeypair) (domain_separator : Hash) (random : bytes) (model : TicketModel) :
    DR TransferableWinningTicket :=
  ack ← map_err EntityError (AcknowledgedTicket_try_from model);
  map_err DbCoreTypesError (into_transferable random ack chain_key domain_separator).

Fixpoint transferable_all (chain_key : ChainKeypair) (domain_separator : Hash) (randoms : list bytes)
    (models : list TicketModel) : DR (list TransferableWinningTicket) :=
  match models with
  | [] => Ok []
  | m :: models =>
      t ← transferable_of chain_key domain_separator (hd [] randoms) m;
      rest ← transferable_all chain_key domain_separator (tail randoms) models;
      Ok (t :: rest)
  end.

Definition is_chosen (channel_entry : ChannelEntry) (chosen : list TransferableWinningTicket) (r : TicketModel) : bool :=
  into_condition (selector_of_channel channel_entry) r &&
  existsb (λ t, bool_decide (m_index r = to_be 8 (t_index (tw_ticket t)))) chosen && not_being_aggregated r.

(** The write transaction of [prepare_aggregation_in_channel]. *)
Definition choose_tickets (prerequisites : AggregationPrerequisites) (channel_entry : ChannelEntry)
    (chain_key : ChainKeypair) (domain_separator : Hash) (min_win_prob : WinningProbability) (randoms : list bytes) :
    TX (list TransferableWinningTicket) :=
  d ← get;
  match find_where (into_condition (with_state BeingAggregated (selector_of_channel channel_entry))) d with
  | _ :: _ => throw (LogicalError "channel is already being aggregated")
  | [] =>
      let redeemed := merge_sort index_descending
        (find_where (into_condition (with_state BeingRedeemed (selector_of_channel channel_entry))) d) in
      next_idx ← lift (match redeemed with
                       | m :: _ => i ← U256_from_be_bytes (m_index m); i ← U256_as 64 i; Ok (wrap 64 (i + 1))
                       | [] => Ok 0
                       end);
      channel_index ← lift (U256_as 64 (ticket_index channel_entry));
      let first_idx_to_take := Z.max next_idx channel_index in
      let models := take MAX_TICKETS_TO_AGGREGATE_BATCH (merge_sort index_ascending
        (find_where (λ r, into_condition (selector_of_channel channel_entry) r &&
                          blob_le (to_be 8 first_idx_to_take) (m_index r) && not_being_aggregated r) d)) in
      satisfying ← lift (filter_satisfying_ticket_models prerequisites models channel_entry min_win_prob);
      to_be_aggregated ← lift (transferable_all chain_key domain_separator randoms satisfying);
      let chosen := without_covered to_be_aggregated in
      match to_be_aggregated with
      | [] => mret []
      | _ =>
        marked ← update_many (is_chosen channel_entry chosen) (AcknowledgedTicketStatus_repr BeingAggregated);
        if bool_decide (marked = length chosen) then mret chosen
        else throw (LogicalError "expected to mark another number of tickets")
      end
  end.

(** An open or closing channel to this node. *)
Definition incoming_channel (channel : Hash) : DB ChannelEntry :=
  db ← get;
  entry ← get_channel_by_id channel;
  match entry with
  | Some entry =>
      if ChannelStatus_eqb (status entry) Closed then throw (LogicalError "channel is closed")
      else match direction entry (me_onchain db) with
           | Some Incoming => mret entry
           | _ => throw (LogicalError "channel is not incoming")
           end
  | None => throw (ChannelNotFound channel)
  end.

Definition channels_domain_separator : DB (IndexerData * Hash) :=
  indexer_data ← get_indexer_data;
  match channels_dst indexer_data with
  | Some domain_separator => mret (indexer_data, domain_separator)
  | None => throw (LogicalError "domain separator missing")
  end.

Definition prepare_aggregation_in_channel (channel : Hash) (prerequisites : AggregationPrerequisites) (randoms : list bytes) :
    DB (option (OffchainPublicKey * list TransferableWinningTicket * Hash)) :=
  channel_entry ← incoming_channel channel;
  pk ← resolve_packet_key (source channel_entry);
  match pk with
  | None => throw (LogicalError "peer has no offchain key record")
  | Some peer =>
      '(indexer_data, domain_separator) ← channels_domain_separator;
      db ← get;
      tickets ← on_tickets (perform (choose_tickets prerequisites channel_entry (NodeDb.chain_key db) domain_separator
        (minimum_incoming_ticket_winning_prob indexer_data) randoms));
      mret (match tickets with [] => None | _ => Some (peer, tickets, domain_separator) end)
  end.

Definition rollback_aggregation_in_channel (channel : Hash) : DB nat :=
  entry ← get_channel_by_id channel;
  match entry with
  | Some channel_entry =>
      on_tickets (update_ticket_states (with_state BeingAggregated (selector_of_channel channel_entry)) Untouched)
  | None => throw (ChannelNotFound channel)
  end.

(** ** Receiving the aggregated ticket *)
(** The response is that of the first ticket that the query returns. *)
Definition process_received_aggregated_ticket (aggregated_ticket : Ticket) (chain_keypair : ChainKeypair) :
    DB AcknowledgedTicket :=
  db ← get;
  if negb (bool_decide (PublicKey_to_address (ck_public chain_keypair) = me_onchain db))
  then throw (LogicalError "chain key for ticket aggregation does not match the DB public address")
  else
    channel_entry ← incoming_channel (t_channel_id aggregated_ticket);
    '(_, domain_separator) ← channels_domain_separator;
    verified ← lift (map_err (λ _, LogicalError "failed to verify received aggregated ticket")
      (verify aggregated_ticket (source channel_entry) domain_separator));
    always ← lift (approx_eq (win_prob (verified_ticket verified)) ALWAYS);
    if negb always then throw (LogicalError "Aggregated tickets must have 100% win probability")
    else
      rows ← on_tickets (perform (d ← get; mret (find_where
        (into_condition (with_state BeingAggregated (selector_of_channel channel_entry))) d)));
      if (length rows =? 0)%nat then throw (LogicalError "failed insert aggregated ticket")
      else
        stored_value ← lift (rows_value rows);
        if Balance_ltb (t_amount (verified_ticket verified)) stored_value
        then throw (LogicalError "Value of received aggregated ticket is too low")
        else
          acknowledged_tickets ← lift (decode_rows rows);
          first_stored_ticket ← lift (unwrap_option (head acknowledged_tickets));
          _ ← lift (U256_add (t_index (verified_ticket verified)) (t_index_offset (verified_ticket verified)));
          let acked_aggregated_ticket := into_acknowledged verified (ack_response first_stored_ticket) in
          on_tickets (replace_tickets acked_aggregated_ticket);;
          mret acked_aggregated_ticket.

(** ** Aggregating *)

#[export] Instance Ticket_eq_dec : EqDecision Ticket.
Proof. solve_decision. Defined.

(** [sort_by] on tickets, which keeps the order of equal ones, and [dedup] with
    its equality of neighbours, which ignores the VRF proof. *)
Fixpoint insert_transferable (t : TransferableWinningTicket) (l : list TransferableWinningTicket) :
    list TransferableWinningTicket :=
  match l with
  | [] => [t]
  | u :: l' =>
      match Ticket_cmp (tw_ticket t) (tw_ticket u) with
      | Gt => u :: insert_transferable t l'
      | _ => t :: u :: l'
      end
  end.

Definition sort_transferable (l : list TransferableWinningTicket) : list TransferableWinningTicket :=
  foldr insert_transferable [] l.

Definition transferable_eqb (a b : TransferableWinningTicket) : bool :=
  bool_decide (tw_ticket a = tw_ticket b) && bool_decide (tw_signer a = tw_signer b) &&
  bool_decide (tw_response a = tw_response b).

Fixpoint dedup (l : list TransferableWinningTicket) : list TransferableWinningTicket :=
  match l with
  | a :: l' =>
      match dedup l' with
      | b :: r => if transferable_eqb a b then a :: r else a :: b :: r
      | [] => [a]
      end
  | [] => []
  end.

(** The checks of one ticket; [next] is the ticket after it. *)
Definition check_for_aggregation (channel_entry : ChannelEntry) (epoch : Z) (min_win_prob : WinningProbability)
    (t : Ticket) (next : option Ticket) (final_value : HoprBalance) : DR HoprBalance :=
  if negb (bool_decide (get_id channel_entry = t_channel_id t))
  then Err (LogicalError "ticket for aggregation has an invalid channel id")
  else if negb (t_channel_epoch t =? epoch) then Err (LogicalError "channel epochs do not match")
  else if match next with Some n => t_index n <? wrap 64 (t_index t + t_index_offset t) | None => false end
  then Err (LogicalError "tickets with overlapping index intervals")
  else
    order ← approx_cmp (win_prob t) min_win_prob;
    match order with
    | Lt => Err (LogicalError "cannot aggregate ticket with lower than minimum winning probability in network")
    | _ =>
        let final_value := Balance_add final_value (t_amount t) in
        if Balance_ltb (balance channel_entry) final_value
        then Err (LogicalError "ticket amount to aggregate is greater than the balance of the channel")
        else Ok final_value
    end.

Fixpoint check_all (channel_entry : ChannelEntry) (epoch : Z) (min_win_prob : WinningProbability)
    (tickets : list Ticket) (final_value : HoprBalance) : DR HoprBalance :=
  match tickets with
  | [] => Ok final_value
  | t :: tickets =>
      v ← check_for_aggregation channel_entry epoch min_win_prob t (head tickets) final_value;
      check_all channel_entry epoch min_win_prob tickets v
  end.

Definition outgoing_channel_to (address : Address) : DB ChannelEntry :=
  db ← get;
  entry ← get_channel_by_parties (me_onchain db) address false;
  match entry with
  | Some entry =>
      if ChannelStatus_eqb (status entry) Closed then throw (LogicalError "channel is closed")
      else match direction entry (me_onchain db) with
           | Some Outgoing => mret entry
           | _ => throw (LogicalError "channel is not outgoing")
           end
  | None => throw (ChannelNotFound (generate_channel_id (me_onchain db) address))
  end.

Definition aggregate_several (destination : OffchainPublicKey) (acked_tickets : list TransferableWinningTicket)
    (me : ChainKeypair) (domain_separator : Hash) : DB VerifiedTicket :=
  db ← get;
  address ← resolve_chain_key destination;
  match address with
  | None => throw (LogicalError "peer has no chain key record")
  | Some address =>
      channel_entry ← outgoing_channel_to address;
      indexer_data ← get_indexer_data;
      epoch ← lift (U256_as 32 (channel_epoch channel_entry));
      redeemable ← lift (map_err (λ _, LogicalError "trying to aggregate an invalid or a non-winning ticket")
        (mapM (λ t, transferable_into_redeemable t (me_onchain db) domain_separator)
          (dedup (sort_transferable acked_tickets))));
      let verified_tickets := (λ r, verified_ticket (r_ticket r)) <$> redeemable in
      final_value ← lift (check_all channel_entry epoch (minimum_incoming_ticket_winning_prob indexer_data)
        verified_tickets Balance_zero);
      first_acked_ticket ← lift (unwrap_option (head verified_tickets));
      last_acked_ticket ← lift (unwrap_option (last verified_tickets));
      on_tickets (compare_and_set_outgoing_ticket_index (get_id channel_entry) (wrap 64 (t_index last_acked_ticket + 1)));;
      lift (map_err DbCoreTypesError (build_signed
        (set_challenge (t_challenge first_acked_ticket)
          (Tickets.set_channel_epoch epoch
            (set_win_prob ALWAYS
              (set_index_offset (wrap 32 (wrap 64 (t_index last_acked_ticket - t_index first_acked_ticket + 1)))
                (set_index (t_index first_acked_ticket)
                  (set_balance final_value
                    (set_channel_id (generate_channel_id (me_onchain db) address) TicketBuilder_default)))))))
        me domain_separator))
  end.

Definition aggregate_tickets (destination : OffchainPublicKey) (acked_tickets : list TransferableWinningTicket)
    (me : ChainKeypair) : DB VerifiedTicket :=
  db ← get;
  if negb (bool_decide (PublicKey_to_address (ck_public me) = me_onchain db))
  then throw (LogicalError "chain key for ticket aggregation does not match the DB public address")
  else
    '(_, domain_separator) ← channels_domain_separator;
    match acked_tickets with
    | [] => throw (LogicalError "at least one ticket required for aggregation")
    | [t] =>
        single ← lift (map_err DbCoreTypesError (transferable_into_redeemable t (me_onchain db) domain_separator));
        on_tickets (compare_and_set_outgoing_ticket_index (t_channel_id (verified_ticket (r_ticket single)))
          (wrap 64 (t_index (verified_ticket (r_ticket single)) + 1)));;
        mret (r_ticket single)
    | acked_tickets => aggregate_several destination acked_tickets me domain_separator
    end.
End Aggregation.
