(* ===== verification/AggregationSpec.v ===== *)
(** * Aggregated tickets are worth what they replace

    The issuer signs an aggregate for the sum of disjoint winning tickets of
    its own and gives out no later ticket with an index in their range; the
    receiver puts an aggregate in the place of the tickets it had marked. *)
From Stdlib Require Import Floats.SpecFloat Sorting.Sorted.
From stdpp Require Import gmap strings sorting.
From S2P Require Import Prelude Primitives Crypto Channels Tickets WinProb SharedKeys MetaPacket Packet.
From S2P Require Import TicketStore TicketStoreSpec TicketIndexSpec TicketTable Protocol NodeDb NodeDbSpec NodeProtocol NodeProtocolSpec.
From S2P Require Import Indexer IndexerSpec Aggregation.

(** The index range of a ticket. *)
Definition range_end (t : Ticket) : Z := t_index t + t_index_offset t.
Definition before (t t' : Ticket) : Prop := range_end t ≤ t_index t'.
Definition sum_of (l : list Ticket) : Z := foldr (λ t n, amount (t_amount t) + n) 0 l.

Section Issuer.
Context `{!Secp256k1, !Secp256k1Laws} `{!Curve25519} `{!Ed25519} `{!HexCodec, !HexCodecLaws}.
Context `{!ScanOrder, !ScanOrderLaws} `{!Multiaddrs} `{!FloatCmp}.
#[local] Set Default Proof Using "Type*".

Abbreviation DB := (SM HoprDb DbSqlError).

Lemma elem_of_dedup l t :
  t ∈ dedup l → t ∈ l.
Proof using Type.
  revert t. induction l as [|a l IH]; intros t; [done|]. cbn. destruct (dedup l) as [|b r].
  - rewrite !list_elem_of_singleton. intros ->. by left.
  - case_match; rewrite !elem_of_cons; intros Hin.
    + destruct Hin as [->|Hin]; [by left|]. right. apply IH. by right.
    + destruct Hin as [->|Hin]; [by left|]. right. apply IH, elem_of_cons, Hin.
Qed.

Lemma dedup_tickets l t : t ∈ tw_ticket <$> dedup l ↔ t ∈ tw_ticket <$> l.
Proof using Type.
  induction l as [|a l IH]; [done|]. cbn [dedup]. rewrite fmap_cons, elem_of_cons, <-IH.
  destruct (dedup l) as [|b r]; [by rewrite !fmap_cons, elem_of_cons|].
  case_match eqn:Heq; rewrite !fmap_cons, !elem_of_cons; [|done].
  unfold transferable_eqb in Heq. apply andb_prop in Heq as [[Heq _]%andb_prop _]. apply bool_decide_eq_true in Heq.
  rewrite Heq. tauto.
Qed.

Lemma sort_permutation l : sort_transferable l ≡ₚ l.
Proof using Type.
  assert (∀ t k, insert_transferable t k ≡ₚ t :: k) as Hins.
  { intros t k. induction k as [|u k IH]; [done|]. cbn. destruct (Ticket_cmp _ _); [done|done|]. rewrite IH. constructor. }
  induction l as [|t l IH]; [done|]. cbn. fold (sort_transferable l). by rewrite Hins, IH.
Qed.

(** ** The checks of the issuer *)
Definition fits (e : ChannelEntry) (min_win_prob : WinningProbability) (t : Ticket) : Prop :=
  t_channel_id t = get_id e ∧ t_channel_epoch t = channel_epoch e ∧
  ∃ order, approx_cmp (E:=DbSqlError) (win_prob t) min_win_prob = Ok order ∧ order ≠ Lt.

Lemma check_one e epoch min_win_prob t next v v' :
  check_for_aggregation e epoch min_win_prob t next v = Ok v' ↔
    (t_channel_id t = get_id e ∧ t_channel_epoch t = epoch ∧
     ∃ order, approx_cmp (E:=DbSqlError) (win_prob t) min_win_prob = Ok order ∧ order ≠ Lt) ∧
    (∀ n, next = Some n → wrap 64 (range_end t) ≤ t_index n) ∧
    v' = Balance_add v (t_amount t) ∧ amount v' ≤ amount (balance e).
Proof using Type.
  unfold check_for_aggregation. case_bool_decide as Hid; cbn [negb]; [|split; [done|intros ((? & _) & _); congruence]].
  destruct (Z.eqb_spec (t_channel_epoch t) epoch) as [He|He]; cbn [negb]; [|split; [done|intros ((_ & ? & _) & _); done]].
  assert ((∀ n, next = Some n → wrap 64 (range_end t) ≤ t_index n) ↔
    match next with Some n => t_index n <? wrap 64 (t_index t + t_index_offset t) | None => false end = false) as Hnext.
  { unfold range_end. destruct next as [n|]; [|split; [done|by intros _ n]]. rewrite Z.ltb_ge.
    split; [intros Hn; by apply Hn|by intros Hn ? [= <-]]. }
  rewrite Hnext. clear Hnext. destruct (match next with Some n => _ | None => false end); [split; [done|intros (_ & ? & _); done]|].
  destruct (approx_cmp (win_prob t) min_win_prob) as [order|err|] eqn:Ho; cbn [mbind outcome_bind];
    [|split; [done|intros ((_ & _ & ? & ? & _) & _); congruence]..].
  destruct (decide (order = Lt)) as [->|Hne]; [split; [done|intros ((_ & _ & o & [= <-] & ?) & _); done]|].
  transitivity ((if Balance_ltb (balance e) (Balance_add v (t_amount t)) then
    Err (LogicalError "ticket amount to aggregate is greater than the balance of the channel")
    else Ok (Balance_add v (t_amount t))) = Ok v'); [by destruct order|].
  unfold Balance_ltb. destruct (Z.ltb_spec (amount (balance e)) (amount (Balance_add v (t_amount t)))).
  - split; [done|]. intros (_ & _ & -> & ?). lia.
  - split; [intros [= <-]|by intros (_ & _ & -> & _)]. split_and!; try done. by exists order.
Qed.

(** Of an accepted list every ticket fits, neighbours do not overlap, and an
    unsaturated result is the sum, within the balance. *)
Lemma check_all_Ok e epoch min_win_prob l v v' :
  check_all e epoch min_win_prob l v = Ok v' → epoch = channel_epoch e →
  Forall Ticket_built l → 0 ≤ amount v → amount v' < U256_max →
  Forall (fits e min_win_prob) l ∧ Sorted (λ t t', wrap 64 (range_end t) ≤ t_index t') l ∧
  amount v' = amount v + sum_of l ∧ amount v ≤ amount v' ∧ (l ≠ [] → amount v' ≤ amount (balance e)).
Proof using Type.
  intros Hrun Hep. revert v Hrun. induction l as [|t l IH]; intros v Hrun Hb Hv Hmax.
  { injection Hrun as ->. cbn. split_and!; [done..|lia|lia|done]. }
  cbn [check_all] in Hrun. apply bind_Ok in Hrun as (v1 & (Hfit & Hnext & -> & Hbal)%check_one & Hrun).
  apply Forall_cons in Hb as [Ht Hb]. destruct Ht as (Ham & _).
  assert (0 ≤ amount (Balance_add v (t_amount t))) as Hv1.
  { unfold Balance_add, U256_saturating_add. cbn. pose proof (eq_refl : U256_max = 2 ^ 256 - 1). lia. }
  destruct (IH _ Hrun Hb Hv1 Hmax) as (Hf & Hs & Hsum & Hle & Hl).
  assert (amount (Balance_add v (t_amount t)) = amount v + amount (t_amount t)) as Hadd.
  { unfold Balance_add, U256_saturating_add in *. cbn [amount] in *. lia. }
  cbn [sum_of foldr]. fold (sum_of l). split_and!.
  - constructor; [|done]. subst epoch. exact Hfit.
  - constructor; [done|]. destruct l as [|t' l]; constructor. by apply Hnext.
  - lia.
  - lia.
  - intros _. destruct l as [|t' l]; [|by apply Hl]. injection Hrun as <-. lia.
Qed.

(** Without overflow, no two of the ranges overlap. *)
Lemma disjoint_ranges l :
  Forall (λ t, Ticket_built t ∧ in_u 32 (t_index_offset t)) l →
  Sorted (λ t t', wrap 64 (range_end t) ≤ t_index t') l → StronglySorted before l.
Proof using Type.
  intros Hl Hs. set (R := λ t t', before t t' ∧ t_index t' ≤ range_end t').
  assert (Sorted R l) as HR.
  { induction Hs as [|t l Hs IH Hhd]; [constructor|]. apply Forall_cons in Hl as [((_ & Hi & _ & _) & Ho) Hl].
    constructor; [by apply IH|]. destruct Hhd as [|t' l Hle]; constructor.
    apply Forall_cons in Hl as [((_ & Hi' & _ & Ho') & _) _].
    unfold R, before, range_end in *. rewrite wrap_small in Hle by (unfold in_u in *; lia). lia. }
  apply Sorted_StronglySorted in HR; [|intros x y z [? ?] [? ?]; unfold R, before in *; lia].
  clear Hs. induction HR as [|t l _ IH Hf]; constructor; [apply IH; by apply Forall_cons in Hl as [_ ?]|].
  eapply Forall_impl; [exact Hf|]. by intros t' [? _].
Qed.

(** Reading changes nothing the view shows. *)
Lemma reads_indexed v db db' :
  reads db db' → src_dst_to_channel db' = src_dst_to_channel db → indexed v db → indexed v db'.
Proof.
  intros [Hi Hm _ _ _] Hs [Hc Ht Hx]. split; [by eapply db_ok_frame|by rewrite Hm|by rewrite Hm].
Qed.

Lemma get_indexer_data_indexed v db db' o :
  get_indexer_data db = (db', o) → indexed v db → indexed v db' ∧ reads db db'.
Proof.
  intros Hrun Hix. pose proof (get_indexer_data_reads _ _ _ Hrun) as Hr.
  split; [|done]. by eapply reads_indexed; [|eapply get_indexer_data_src|].
Qed.

Lemma get_indexer_data_cached db db' data :
  get_indexer_data db = (db', Ok data) → indexer_data_cache db' = Some data.
Proof using Type.
  unfold get_indexer_data, try_get_with. destruct (indexer_data_cache db) as [d|] eqn:Hd; [by intros [= <- <-]|].
  destruct (fetch_indexer_data db) as [db1 [d| |]]; [|done..]. by intros [= <- <-].
Qed.

Lemma resolve_after_data dest db db' o :
  get_indexer_data db = (db', o) → (resolve_chain_key dest db').2 = (resolve_chain_key dest db).2.
Proof.
  intros Hrun. destruct resolve_chain_key_run as [f Hf]. rewrite !Hf, (rd_index _ _ (get_indexer_data_reads _ _ _ Hrun)).
  assert (offchain_to_chain db' = offchain_to_chain db) as Hc.
  { revert Hrun. unfold get_indexer_data, try_get_with. destruct (indexer_data_cache db); [by intros [= <- _]|].
    destruct fetch_indexer_data_only as [g Hg]. rewrite Hg. destruct (g _); by intros [= <- _]. }
  unfold chain_key_cached. rewrite Hc. destruct (offchain_to_chain db !! _); [done|]. by destruct (f _ _).
Qed.

Lemma channels_domain_separator_Ok db db' data ds :
  channels_domain_separator db = (db', Ok (data, ds)) →
  get_indexer_data db = (db', Ok data) ∧ channels_dst data = Some ds.
Proof using Type.
  unfold channels_domain_separator. intros Hrun. step_Ok Hrun d Hd. destruct (channels_dst d) eqn:Hds; [|done].
  by injection Hrun as <- <- <-.
Qed.

Lemma outgoing_channel_Ok v (a : Address) db db' e :
  indexed v db → array_wf 20 (me_onchain db) → array_wf 20 a → outgoing_channel_to a db = (db', Ok e) →
  db' = db ∧ e ∈ v.1 ∧ source e = me_onchain db ∧ destination e = a ∧ status e ≠ Closed ∧
  get_id e = generate_channel_id (me_onchain db) a.
Proof.
  intros [[Hwf Hco] _ _] Hme Ha. unfold outgoing_channel_to. autorewrite with run.
  pose proof (fetch_channel_ok v.1 (me_onchain db) a db Hwf Hme Ha : get_channel_by_parties _ _ false db = _) as Hrun.
  rewrite (run_Ok _ _ _ _ _ Hrun).
  destruct (entry_by_parties _ _ _) as [e'|] eqn:He; [|done]. apply (by_parties_iff _ _ _ _ _ Hwf) in He as (Hin & Hs & Hd).
  destruct (ChannelStatus_eqb (status e') Closed) eqn:Hst; [done|].
  destruct (direction e' (me_onchain db)) as [[]|]; [done| |done]. intros [= <- <-].
  split_and!; try done; [intros Heq; by rewrite Heq in Hst|].
  rewrite (ew_id _ (entries_wf _ _ _ Hwf Hin)). congruence.
Qed.

(** What the issuer [me] signs for the tickets [ts] on a channel: the tickets
    it pays are those it was shown, its own and winning, on disjoint ranges. *)
Record aggregates (me : Address) (e : ChannelEntry) (data : IndexerData) (ds : Hash)
    (ts : list TransferableWinningTicket) (paid : list Ticket) (vt : VerifiedTicket) : Prop := {
  ag_paid : ∀ t, t ∈ paid ↔ t ∈ tw_ticket <$> ts;
  ag_won : ∀ t, t ∈ paid → ∃ tw r, tw ∈ ts ∧ tw_ticket tw = t ∧ transferable_into_redeemable tw me ds = Ok r;
  ag_fit : Forall (fits e (minimum_incoming_ticket_winning_prob data)) paid;
  ag_disjoint : StronglySorted before paid;
  ag_value : amount (t_amount (verified_ticket vt)) = sum_of paid ∧ sum_of paid ≤ amount (balance e);
  ag_signed : VerifiedTicket_wf ds vt ∧ verified_issuer vt = me;
  ag_built : Ticket_built (verified_ticket vt);
  ag_ticket : ∃ first_ticket last_ticket, head paid = Some first_ticket ∧ last paid = Some last_ticket ∧
    TicketBuilder_from (verified_ticket vt) = mkTicketBuilder (Some (get_id e)) None (Some (t_amount (verified_ticket vt)))
      (t_index first_ticket) (wrap 32 (t_index last_ticket - t_index first_ticket + 1)) (channel_epoch e) ALWAYS
      (Some (t_challenge first_ticket)) None
}.

Lemma redeemable_signed t me ds r :
  transferable_into_redeemable t me ds = Ok r →
  verified_ticket (r_ticket r) = tw_ticket t ∧ VerifiedTicket_wf ds (r_ticket r) ∧ verified_issuer (r_ticket r) = me.
Proof using Type*.
  unfold transferable_into_redeemable. case_bool_decide as Hs; [|done]. cbn [negb]. intros Hrun.
  apply bind_Ok in Hrun as (vt & Hvt & Hrun). apply map_err_Ok, verify_Ok_iff in Hvt as [-> Hwf].
  apply bind_Ok in Hrun as (sig & _ & Hrun). case_match; [|done]. by injection Hrun as <-.
Qed.

Lemma redeemable_tickets l me ds rs :
  mapM (λ t, transferable_into_redeemable t me ds) l = Ok rs →
  (λ r, verified_ticket (r_ticket r)) <$> rs = tw_ticket <$> l ∧
  ∀ t, t ∈ l → ∃ r, transferable_into_redeemable t me ds = Ok r.
Proof.
  intros Hrs%mapM_Ok. induction Hrs as [|t r l rs Ht _ [IH1 IH2]]; [split; [done|by intros t Ht%not_elem_of_nil]|].
  rewrite !fmap_cons, IH1, (proj1 (redeemable_signed _ _ _ _ Ht)). split; [done|].
  intros t' [->|Hin]%elem_of_cons; [by exists r|by apply IH2].
Qed.

Lemma compare_and_set_run v (c : Hash) (i : Z) db db' o :
  indexed v db → array_wf 32 c → in_u 64 i →
  on_tickets (compare_and_set_outgoing_ticket_index c i) db = (db', Ok o) →
  indexed v db' ∧ i ≤ current (ticket_manager db') c.
Proof.
  intros Hix Hc Hi Hrun. pose proof (current_bound _ c (ix_indices _ _ Hix)) as Hb.
  destruct (update_index_ok (ticket_manager db) c (λ old, Z.max old i) (ix_indices _ _ Hix) Hc) as (m' & Hop & Hwf & Hcur & _).
  { unfold in_u in *. lia. }
  destruct (update_index_frame c (λ old, Z.max old i) (ticket_manager db)) as (Ht & Hs & Hn).
  change (old ← get_outgoing_ticket_index c; store_index c (Z.max old i);; mret old)
    with (compare_and_set_outgoing_ticket_index c i) in Hop, Ht, Hs, Hn.
  unfold on_tickets in Hrun. rewrite Hop in Hrun, Ht, Hs, Hn. injection Hrun as <- <-.
  split; [|cbn [ticket_manager set_ticket_manager]; lia]. destruct v as [entries l].
  apply (ticket_op_indexed (entries, l) l); [done| |done]. by eapply holds_frame; [apply (ix_tickets _ _ Hix)|..].
Qed.

Lemma last_index l z :
  Forall (λ t, Ticket_built t ∧ in_u 32 (t_index_offset t)) l → StronglySorted before l → last l = Some z →
  ∀ t, t ∈ l → t_index t ≤ t_index z.
Proof using Type.
  intros Hl Hs. revert z. induction Hs as [|t l _ IH Hf]; intros z Hz t' Hin; [done|].
  apply Forall_cons in Hl as [((_ & _ & _ & Ho) & _) Hl]. destruct l as [|u l].
  - injection Hz as <-. by apply list_elem_of_singleton in Hin as ->.
  - change (last (u :: l) = Some z) in Hz. apply elem_of_cons in Hin as [->|Hin]; [|by apply IH].
    apply last_Some in Hz as [l' Hz]. rewrite Hz, Forall_app, Forall_singleton in Hf. destruct Hf as [_ Hb].
    unfold before, range_end in Hb. lia.
Qed.

(** The ticket that is signed for an accepted list. *)
Lemma aggregates_signed (me : ChainKeypair) k e data ds ts rs paid_value fst_t lst_t vt :
  let paid := tw_ticket <$> dedup (sort_transferable ts) in
  ChainKeypair_wf me k →
  Forall (λ t, Ticket_built (tw_ticket t) ∧ in_u 32 (t_index_offset (tw_ticket t))) ts →
  mapM (λ t, transferable_into_redeemable t (PublicKey_to_address (ck_public me)) ds) (dedup (sort_transferable ts)) = Ok rs →
  check_all e (channel_epoch e) (minimum_incoming_ticket_winning_prob data) paid Balance_zero = Ok paid_value →
  head paid = Some fst_t → last paid = Some lst_t →
  build_signed
    (set_challenge (t_challenge fst_t) (Tickets.set_channel_epoch (channel_epoch e) (set_win_prob ALWAYS
      (set_index_offset (wrap 32 (wrap 64 (t_index lst_t - t_index fst_t + 1))) (set_index (t_index fst_t)
        (set_balance paid_value (set_channel_id (get_id e) TicketBuilder_default))))))) me ds = Ok vt →
  aggregates (PublicKey_to_address (ck_public me)) e data ds ts paid vt ∧ ∀ t, t ∈ paid → t_index t ≤ t_index lst_t.
Proof.
  intros paid Hkp Hts Hrs Hv Hf Hl Hrun.
  assert (∀ t, t ∈ paid ↔ t ∈ tw_ticket <$> ts) as Hin.
  { intros t. unfold paid. rewrite dedup_tickets. by rewrite (sort_permutation ts). }
  assert (Forall (λ t, Ticket_built t ∧ in_u 32 (t_index_offset t)) paid) as Hb.
  { apply Forall_forall. intros t Ht. apply Hin, list_elem_of_fmap in Ht as (tw & -> & Htw).
    rewrite Forall_forall in Hts. by apply Hts. }
  destruct (redeemable_tickets _ _ _ _ Hrs) as [_ Hwon].
  unfold build_signed in Hrun. cbn [b_signature set_challenge Tickets.set_channel_epoch set_win_prob set_index_offset set_index
    set_balance set_channel_id TicketBuilder_default] in Hrun.
  apply bind_Ok in Hrun as (t & Ht & Hrun). apply build_Ok in Ht as (c & ch & [= <-] & [= <-] & amt & Hamt & Hbi & Hbe & Hbo & ->).
  assert (amt = paid_value ∧ amount paid_value < 10 ^ 25) as [-> Hsmall].
  { unfold build_amount in Hamt. cbn in Hamt. destruct (Z.ltb_spec (amount paid_value) (10 ^ 25)); [|done]. by injection Hamt as <-. }
  destruct (check_all_Ok _ _ _ _ _ _ Hv eq_refl) as (Hfit & Hs & Hsum & Hpos & Hbal); [|done| |].
  { eapply Forall_impl; [exact Hb|]. by intros t [? _]. }
  { pose proof (eq_refl : (10 ^ 25 <? U256_max) = true) as Hu%Z.ltb_lt. lia. }
  pose proof (disjoint_ranges _ Hb Hs) as Hdis.
  destruct (sign_Ok (E:=CoreTypesError) (mkTicket (get_id e) paid_value (t_index fst_t)
    (wrap 32 (wrap 64 (t_index lst_t - t_index fst_t + 1))) ALWAYS (channel_epoch e) (t_challenge fst_t) None) me k ds Hkp)
    as (vt' & Hsig & Hwf & Hiss & sig & Hvt).
  match type of Hrun with sign ?t _ _ = _ => change t with (mkTicket (get_id e) paid_value (t_index fst_t)
    (wrap 32 (wrap 64 (t_index lst_t - t_index fst_t + 1))) ALWAYS (channel_epoch e) (t_challenge fst_t) None) in Hrun end.
  rewrite Hsig in Hrun. injection Hrun as ->. split; [|by apply last_index].
  split; [done| |done|done| |done| |].
  - intros t (tw & -> & Htw)%list_elem_of_fmap. destruct (Hwon tw Htw) as [r Hr]. exists tw, r. split_and!; [|done..].
    apply elem_of_dedup in Htw. by rewrite (sort_permutation ts) in Htw.
  - rewrite Hvt. cbn [set_ticket_signature t_amount]. change (amount Balance_zero) with 0 in Hsum.
    split; [lia|]. assert (paid ≠ []) as Hne by (intros Hp; by rewrite Hp in Hf). specialize (Hbal Hne). lia.
  - assert (fst_t ∈ paid) as Hfin by (destruct paid; [done|injection Hf as ->; by left]).
    rewrite Forall_forall in Hb, Hfit. destruct (Hb _ Hfin) as [(_ & Hi & Hep & _) _]. destruct (Hfit _ Hfin) as (_ & Heq & _).
    rewrite Hvt. unfold Ticket_built. cbn in Hbi, Hbe, Hbo |- *. change (amount Balance_zero) with 0 in Hpos. split_and!; lia.
  - exists fst_t, lst_t. split_and!; [done..|]. rewrite Hvt. unfold TicketBuilder_from, set_ticket_signature. cbn. f_equal.
    unfold wrap. apply Z.mod_mod_divide. by exists (2 ^ 32).
Qed.

(** The several tickets of an accepted request. *)
Lemma aggregate_several_Ok dest ts (me : ChainKeypair) k v ds db db' vt :
  indexed v db → ChainKeypair_wf me k → PublicKey_to_address (ck_public me) = me_onchain db → array_wf 20 (me_onchain db) →
  (∀ a, (resolve_chain_key dest db).2 = Ok (Some a) → array_wf 20 a) →
  Forall (λ t, Ticket_built (tw_ticket t) ∧ in_u 32 (t_index_offset (tw_ticket t))) ts → ts ≠ [] →
  aggregate_several dest ts me ds db = (db', Ok vt) →
  ∃ e data paid, e ∈ v.1 ∧ source e = me_onchain db ∧ status e ≠ Closed ∧
    (resolve_chain_key dest db).2 = Ok (Some (destination e)) ∧
    (get_indexer_data db).2 = Ok data ∧ aggregates (me_onchain db) e data ds ts paid vt ∧
    indexed v db' ∧ ∀ t, t ∈ paid → t_index t < current (ticket_manager db') (get_id e).
Proof.
  intros Hix Hkp Hme Hmw Haddr Hts Hne Hrun. unfold aggregate_several in Hrun. autorewrite with run in Hrun.
  step_Ok Hrun ma Hma. destruct (resolve_chain_key_reads _ _ _ _ Hma) as (Hr1 & Hs1 & Hi1).
  destruct ma as [a|]; [|done]. specialize (Haddr a (f_equal snd Hma)).
  pose proof (reads_indexed _ _ _ Hr1 Hs1 Hix) as Hix1.
  step_Ok Hrun e He. rewrite <-(rd_me _ _ Hr1) in Hmw. destruct (outgoing_channel_Ok _ _ _ _ _ Hix1 Hmw Haddr He)
    as (-> & Hin & Hsrc & Hdst & Hst & Hid). rewrite (rd_me _ _ Hr1) in Hsrc, Hid, Hmw.
  step_Ok Hrun data Hdata. destruct (get_indexer_data_indexed _ _ _ _ Hdata Hix1) as [Hix2 Hr2].
  step_Ok Hrun epoch Hep. pure_Ok Hep. apply U256_as_Ok_inv in Hep as ->.
  step_Ok Hrun rs Hrs. pure_Ok Hrs. apply map_err_Ok in Hrs. destruct (redeemable_tickets _ _ _ _ Hrs) as [Hpaid Hwon].
  step_Ok Hrun paid_value Hv. pure_Ok Hv. rewrite Hpaid in Hrun, Hv.
  step_Ok Hrun fst_t Hf. pure_Ok Hf. apply unwrap_option_Ok in Hf.
  step_Ok Hrun lst_t Hl. pure_Ok Hl. apply unwrap_option_Ok in Hl.
  step_Ok Hrun i Hset. pure_Ok Hrun. apply map_err_Ok in Hrun.
  pose proof (get_id_wf e (entries_wf _ _ _ (proj1 (ix_channels _ _ Hix)) Hin)) as Hidw.
  rewrite <-Hid in Hrun. rewrite <-Hme in Hrs.
  destruct (aggregates_signed me k e data ds ts rs paid_value fst_t lst_t vt Hkp Hts Hrs Hv Hf Hl Hrun) as [Hagg Hmax].
  rewrite Hme in Hagg. pose proof (last_Some_elem_of _ _ Hl) as Hlin.
  apply (ag_paid _ _ _ _ _ _ _ Hagg), list_elem_of_fmap in Hlin as (tw & -> & Htw).
  rewrite Forall_forall in Hts. destruct (Hts tw Htw) as [(_ & Hi & _) _].
  assert (in_u 64 (t_index (tw_ticket tw) + 1)) as Hw by (unfold in_u; lia).
  rewrite wrap_small in Hset by done. destruct (compare_and_set_run _ _ _ _ _ _ Hix2 Hidw Hw Hset) as [Hix3 Hcur].
  exists e, data, (tw_ticket <$> dedup (sort_transferable ts)). split_and!; try done.
  - by rewrite Hdst, Hma.
  - by rewrite <-(get_indexer_data_frame db db0 db1 (Ok data) (rd_index _ _ Hr1) Hi1 Hdata).
  - intros t Ht. specialize (Hmax t Ht). lia.
Qed.


(** The request with several tickets. *)
Lemma aggregate_tickets_Ok (dest : OffchainPublicKey) (ts : list TransferableWinningTicket) (me : ChainKeypair) (k : Z)
    (v : View) (db db' : HoprDb) (vt : VerifiedTicket) :
  indexed v db → ChainKeypair_wf me k → array_wf 20 (me_onchain db) →
  (∀ a, (resolve_chain_key dest db).2 = Ok (Some a) → array_wf 20 a) →
  Forall (λ t, Ticket_typed (tw_ticket t) ∧ Ticket_built (tw_ticket t)) ts → (1 < length ts)%nat →
  aggregate_tickets dest ts me db = (db', Ok vt) →
  ∃ data ds e paid, (get_indexer_data db).2 = Ok data ∧ channels_dst data = Some ds ∧ e ∈ v.1 ∧ source e = me_onchain db ∧
    status e ≠ Closed ∧ (resolve_chain_key dest db).2 = Ok (Some (destination e)) ∧
    aggregates (me_onchain db) e data ds ts paid vt ∧ indexed v db' ∧
    ∀ t, t ∈ paid → t_index t < current (ticket_manager db') (get_id e).
Proof.
  intros Hix Hkp Hmw Haddr Hts Hlen Hrun. unfold aggregate_tickets in Hrun. autorewrite with run in Hrun.
  case_bool_decide as Hme; [|done]. cbn [negb] in Hrun.
  step_Ok Hrun p Hp. destruct p as [data ds]. destruct (channels_domain_separator_Ok _ _ _ _ Hp) as [Hdata Hds].
  destruct (get_indexer_data_indexed _ _ _ _ Hdata Hix) as [Hix1 Hr]. exists data, ds.
  destruct ts as [|tw [|tw' ts]]; [cbn in Hlen; lia..|].
  change (aggregate_several dest (tw :: tw' :: ts) me ds db0 = (db', Ok vt)) in Hrun.
  destruct (aggregate_several_Ok dest (tw :: tw' :: ts) me k v ds db0 db' vt) as (e & data' & paid & Hin & Hsrc & Hst & Hd & Hg & Hagg & Hix2 & Hcur);
    rewrite ?(rd_me _ _ Hr); try done.
  - intros a. rewrite (resolve_after_data _ _ _ _ Hdata). apply Haddr.
  - eapply Forall_impl; [exact Hts|]. by intros t [(_ & _ & _ & ? & _) ?].
  - rewrite (resolve_after_data _ _ _ _ Hdata) in Hd. rewrite (rd_me _ _ Hr) in Hsrc, Hagg.
    assert (data' = data) as ->.
    { unfold get_indexer_data, try_get_with in Hg. rewrite (get_indexer_data_cached _ _ _ Hdata) in Hg. by injection Hg. }
    exists e, paid. split_and!; try done. by rewrite Hdata.
Qed.

(** C5. The issuer pays every ticket of an aggregation once, and no ticket
    that it could not redeem against itself.  A single ticket is returned as it
    was.  Of several, the signed aggregate is worth exactly the sum of the
    tickets shown (each counted once), which were issued by the node itself on
    its channel to the requester, in the epoch of the channel, won, reach the
    minimum probability, occupy disjoint index ranges and do not exceed the
    balance of the channel; it starts at the first index, covers up to the last
    one, and always wins.  The node issues its next ticket past all of them. *)
Theorem aggregation_pays_once (dest : OffchainPublicKey) (ts : list TransferableWinningTicket) (me : ChainKeypair) (k : Z)
    (v : View) (db db' : HoprDb) (vt : VerifiedTicket) :
  indexed v db → ChainKeypair_wf me k → array_wf 20 (me_onchain db) →
  (∀ a, (resolve_chain_key dest db).2 = Ok (Some a) → array_wf 20 a) →
  Forall (λ t, Ticket_typed (tw_ticket t) ∧ Ticket_built (tw_ticket t)) ts →
  aggregate_tickets dest ts me db = (db', Ok vt) →
  ∃ data ds, (get_indexer_data db).2 = Ok data ∧ channels_dst data = Some ds ∧
    VerifiedTicket_wf ds vt ∧ verified_issuer vt = me_onchain db ∧ indexed v db' ∧
    ((∃ tw, ts = [tw] ∧ verified_ticket vt = tw_ticket tw ∧
        t_index (tw_ticket tw) < current (ticket_manager db') (t_channel_id (tw_ticket tw))) ∨
     (∃ e paid, (1 < length ts)%nat ∧ e ∈ v.1 ∧ source e = me_onchain db ∧ status e ≠ Closed ∧
        (resolve_chain_key dest db).2 = Ok (Some (destination e)) ∧
        aggregates (me_onchain db) e data ds ts paid vt ∧
        ∀ t, t ∈ paid → t_index t < current (ticket_manager db') (get_id e))).
Proof.
  intros Hix Hkp Hmw Haddr Hts Hrun. destruct (decide (1 < length ts)%nat) as [Hlen|Hlen].
  { destruct (aggregate_tickets_Ok _ _ _ _ _ _ _ _ Hix Hkp Hmw Haddr Hts Hlen Hrun) as (data & ds & e & paid & Hd & Hds & Hin & Hsrc & Hst & Ha & Hagg & Hix' & Hcur).
    destruct (ag_signed _ _ _ _ _ _ _ Hagg). exists data, ds. split_and!; try done. right. by exists e, paid. }
  unfold aggregate_tickets in Hrun. autorewrite with run in Hrun.
  case_bool_decide as Hme; [|done]. cbn [negb] in Hrun.
  step_Ok Hrun p Hp. destruct p as [data ds]. destruct (channels_domain_separator_Ok _ _ _ _ Hp) as [Hdata Hds].
  destruct (get_indexer_data_indexed _ _ _ _ Hdata Hix) as [Hix1 Hr]. exists data, ds.
  split; [by rewrite Hdata|]. split; [done|]. destruct ts as [|tw [|tw' ts]]; [done| |cbn in Hlen; lia].
  step_Ok Hrun r Hrd. pure_Ok Hrd. apply map_err_Ok in Hrd. step_Ok Hrun i Hset. injection Hrun as <- <-.
  destruct (redeemable_signed _ _ _ _ Hrd) as (Heq & Hwf & Hiss). rewrite Heq in Hset. apply Forall_singleton in Hts as [(Hc & _) (_ & Hi & _)].
  assert (in_u 64 (t_index (tw_ticket tw) + 1)) as Hw by (unfold in_u; lia).
  rewrite wrap_small in Hset by done. destruct (compare_and_set_run _ _ _ _ _ _ Hix1 Hc Hw Hset) as [Hix2 Hcur].
  split_and!; [done..|]. left. exists tw. split_and!; [done|done|lia].
Qed.

End Issuer.

(** ** The receiver *)
Section Receiver.
Context `{!Secp256k1, !Secp256k1Laws} `{!Curve25519} `{!Ed25519} `{!HexCodec, !HexCodecLaws}.
Context `{!ScanOrder, !ScanOrderLaws} `{!Multiaddrs} `{!FloatCmp}.
#[local] Set Default Proof Using "Type*".

(** The tickets on a channel that are being aggregated, and those of them in
    the range of an aggregate. *)
Definition aggregating (c : Hash) (epoch : Z) (a : AcknowledgedTicket) : bool :=
  in_epoch c epoch a && bool_decide (ack_status a = BeingAggregated).

Definition covered_by (t : Ticket) (a : AcknowledgedTicket) : bool :=
  aggregating (t_channel_id t) (t_channel_epoch t) a &&
  ((t_index t <=? t_index (ticket_of a)) && (t_index (ticket_of a) <? range_end t)).

Lemma selects_aggregating e a :
  selects (with_state BeingAggregated (selector_of_channel e)) a = aggregating (get_id e) (channel_epoch e) a.
Proof using Type. unfold selects, aggregating, in_epoch, ticket_of. cbn. by rewrite orb_false_r, !andb_true_r. Qed.

Lemma aggregating_typed e :
  entry_wf e → selector_typed (with_state BeingAggregated (selector_of_channel e)).
Proof. intros He. apply selector_new_typed; [by apply get_id_wf|apply He]. Qed.

Definition replaced_selector (t : Ticket) : TicketSelector :=
  with_state BeingAggregated (with_index_range (Included (t_index t)) (Excluded (wrap 64 (range_end t)))
    (TicketSelector_new (t_channel_id t) (t_channel_epoch t))).

Lemma selects_replaced t a :
  in_u 64 (range_end t) → selects (replaced_selector t) a = covered_by t a.
Proof using Type.
  intros Hr. unfold selects, covered_by, aggregating, in_epoch, ticket_of, replaced_selector, bounded. cbn.
  rewrite wrap_small by done. rewrite orb_false_r, !andb_true_r.
  by destruct (bool_decide (ack_status a = BeingAggregated)); rewrite ?andb_false_r, ?andb_true_r, ?andb_false_l.
Qed.

Lemma stored_ranges ds a :
  storable ds a → t_index_offset (ticket_of a) < 2 ^ 31 → 1 ≤ t_index_offset (ticket_of a) ∧ in_u 64 (range_end (ticket_of a)).
Proof using Type.
  intros (_ & (_ & _ & Hi & Hoff & _) & (_ & Hb) & _) Ho. fold (ticket_of a) in *. destruct Hb as (Hb & _ & ?).
  unfold range_end, in_u in *. lia.
Qed.

(** Rows of the query of a selector show the tickets that it describes. *)
Lemma find_rows s l m :
  selector_typed s → holds l m →
  ∃ l', Forall2 row_of_acknowledged (find_where (into_condition s) (tickets_db m)) l' ∧ l' ≡ₚ filter (selects s) l.
Proof.
  intros Hs [_ Hrows _ _]. apply (Forall2_permuted row_of_acknowledged (filter (selects s) l) (filter (into_condition s) (tickets (tickets_db m)))).
  - apply Forall2_filter; [done|]. intros r a Hra. by rewrite (row_selected s r a).
  - apply scan_permutation.
Qed.

(** The key of a row tells channel, epoch and index. *)
Lemma row_key_same r r' a b :
  row_of_acknowledged r a → row_of_acknowledged r' b → row_key r = row_key r' →
  t_channel_id (ticket_of a) = t_channel_id (ticket_of b) ∧ t_channel_epoch (ticket_of a) = t_channel_epoch (ticket_of b) ∧
  t_index (ticket_of a) = t_index (ticket_of b).
Proof.
  intros ([ds (_ & (Hc & _ & Hi & _ & _ & He & _) & _)] & _ & Hr) ([ds' (_ & (Hc' & _ & Hi' & _ & _ & He' & _) & _)] & _ & Hr').
  fold (ticket_of a) in Hc, Hi, He. fold (ticket_of b) in Hc', Hi', He'.
  unfold ActiveModel_from in Hr, Hr'. fold (ticket_of a) in Hr. fold (ticket_of b) in Hr'.
  apply bind_Ok in Hr as (? & _ & [= <-]). apply bind_Ok in Hr' as (? & _ & [= <-]).
  unfold row_key. cbn [m_channel_id m_channel_epoch m_index]. rewrite !pair_equal_spec. intros [[Hk1 Hk2] Hk3]. split_and!.
  - apply to_hex_inj; [apply Hc|apply Hc'|done].
  - unfold U256_to_be_bytes in Hk2. apply (f_equal from_be) in Hk2.
    rewrite !from_be_to_be_small in Hk2 by (unfold in_u in *; lia). done.
  - apply (f_equal from_be) in Hk3. rewrite !from_be_to_be_small in Hk3 by done. done.
Qed.

(** Room in the accounts for a ticket in the place of those that it covers. *)
Definition values (l : list AcknowledgedTicket) : Z := foldr (λ a n, value_of a + n) 0 l.

Definition room_for (t : Ticket) (l : list AcknowledgedTicket) (m : TicketManager) : Prop :=
  let profit := amount (t_amount t) - values (filter (covered_by t) l) in
  total (tickets (tickets_db m)) + profit ≤ U256_max ∧
  ∀ mark, marked (tickets_db m) mark (to_hex (t_channel_id t)) +
    channel_total (to_hex (t_channel_id t)) (tickets (tickets_db m)) + profit ≤ U256_max.

Lemma rows_total rows l : Forall2 row_of_acknowledged rows l → total rows = values l.
Proof.
  induction 1 as [|r a rows l Hr _ IH]; [done|]. change (row_value r + total rows = value_of a + values l).
  destruct (row_columns r a Hr) as (_ & Hv & _). rewrite Hv, IH. done.
Qed.

Lemma process_replace_indices a d d' :
  process_replace a d = (d', Ok tt) → outgoing_indices d' = outgoing_indices d.
Proof.
  unfold process_replace, delete_many. autorewrite with run. case_match; [done|]. intros Hrun.
  by apply insert_row_ok in Hrun as (_ & _ & ->).
Qed.

(** The background task puts an aggregate in the place of what it covers. *)
Section Replace.
Context (ds : Hash) (a : AcknowledgedTicket) (l : list AcknowledgedTicket) (m : TicketManager).
Context (Hh : holds l m) (Hs : storable ds a) (Ho : t_index_offset (ticket_of a) < 2 ^ 31).
#[local] Set Default Proof Using "Type* Hh Hs Ho".
Let d := tickets_db m.
Let t := ticket_of a.

Lemma replaced_typed : selector_typed (replaced_selector t).
Proof.
  destruct (stored_ranges ds a Hs Ho) as [_ Hend]. destruct Hs as (_ & (Hc & _ & Hi & _ & _ & He & _) & _).
  split; [constructor; [|done]|]; split; [done| | |done].
  - cbn. fold (ticket_of a) t in He. unfold in_u in *. lia.
  - cbn. by rewrite wrap_small.
Qed.

Lemma replaced_row r b : row_of_acknowledged r b → replaced_by a r = covered_by t b.
Proof.
  intros Hrb. destruct (stored_ranges ds a Hs Ho) as [_ Hend].
  rewrite <-(selects_replaced t b Hend). exact (row_selected (replaced_selector t) r b replaced_typed Hrb).
Qed.

Lemma covered_rows : Forall2 row_of_acknowledged (filter (replaced_by a) (tickets d)) (filter (covered_by t) l).
Proof. apply Forall2_filter; [apply (hd_rows _ _ Hh)|]. intros r b Hrb. by rewrite (replaced_row r b Hrb). Qed.

Lemma other_rows : Forall2 row_of_acknowledged (filter (λ r, negb (replaced_by a r)) (tickets d)) (filter (λ b, negb (covered_by t b)) l).
Proof. apply Forall2_filter; [apply (hd_rows _ _ Hh)|]. intros r b Hrb. by rewrite (replaced_row r b Hrb). Qed.

Lemma new_row : ∃ row, ActiveModel_from (E:=DbSqlError) (next_id d) a = Ok row ∧ row_of_acknowledged row a ∧
  m_channel_id row = to_hex (t_channel_id t) ∧ row_value row = value_of a.
Proof.
  destruct (row_roundtrip ds (next_id d) a Hs) as (row & Hrow & _). exists row. split; [done|].
  destruct (row_of_ticket _ _ _ (proj1 (proj2 (proj1 (proj2 Hs))) : amount_ok (ticket_of a)) Hrow) as (Hrid & Hrc & _ & Hrv).
  split; [|done]. split; [by exists ds|]. by rewrite Hrid.
Qed.

(** It runs when no other ticket has its index. *)
Lemma replace_runs :
  Z.of_nat (length (filter (covered_by t) l)) ≤ t_index_offset t →
  (∀ b, b ∈ l → t_channel_id (ticket_of b) = t_channel_id t → t_channel_epoch (ticket_of b) = t_channel_epoch t →
    t_index (ticket_of b) = t_index t → covered_by t b = true) →
  ∃ d', process_replace a d = (d', Ok tt).
Proof.
  intros Hlen Hkey. destruct new_row as (row & Hrow & Hra & _).
  unfold process_replace. fold (ticket_of a) (replaced_by a) t. unfold delete_many. autorewrite with run.
  rewrite (Forall2_length _ _ _ covered_rows). rewrite (proj2 (Z.ltb_ge _ _)) by lia.
  unfold insert_row. autorewrite with run. cbn [next_id set_tickets tickets]. rewrite Hrow. autorewrite with run.
  destruct (existsb _ _) eqn:Hex; [exfalso|by eexists].
  apply List.existsb_exists in Hex as (r' & Hin & Hk). apply bool_decide_eq_true in Hk.
  apply list_elem_of_In, list_elem_of_lookup in Hin as [j Hj].
  destruct (Forall2_lookup_l _ _ _ _ _ other_rows Hj) as (b & Hb & Hrb).
  apply list_elem_of_lookup_2, list_elem_of_filter in Hb as [Hnb Hb].
  destruct (row_key_same _ _ _ _ Hrb Hra Hk) as (Hc & He & Hi). by rewrite (Hkey b Hb Hc He Hi) in Hnb.
Qed.

(** All that is covered is on the channel of the aggregate. *)
Lemma covered_total c :
  channel_total c (filter (replaced_by a) (tickets d)) =
  if bool_decide (to_hex (t_channel_id t) = c) then values (filter (covered_by t) l) else 0.
Proof.
  assert (∀ r, r ∈ filter (replaced_by a) (tickets d) → m_channel_id r = to_hex (t_channel_id t)) as Hin.
  { intros r [j Hj]%list_elem_of_lookup. destruct (Forall2_lookup_l _ _ _ _ _ covered_rows Hj) as (b & Hb & Hrb).
    destruct (row_columns r b Hrb) as (-> & _). apply list_elem_of_lookup_2, list_elem_of_filter in Hb as [Hb _].
    apply Is_true_true in Hb. unfold covered_by, aggregating, in_epoch in Hb.
    rewrite !andb_true_iff, bool_decide_eq_true in Hb. by destruct Hb as [[[-> _] _] _]. }
  rewrite <-(rows_total _ _ covered_rows). case_bool_decide as Hc; [subst c; by apply channel_total_one|].
  unfold channel_total. induction (filter (replaced_by a) (tickets d)) as [|r rows IH]; [done|].
  rewrite filter_cons_bool. unfold in_channel at 1. rewrite (Hin r) by by left. rewrite bool_decide_eq_false_2 by done.
  apply IH. intros r' Hr'. apply Hin. by right.
Qed.

Lemma replace_holds :
  room_for t l m → Z.of_nat (length (filter (covered_by t) l)) ≤ t_index_offset t →
  (∀ b, b ∈ l → t_channel_id (ticket_of b) = t_channel_id t → t_channel_epoch (ticket_of b) = t_channel_epoch t →
    t_index (ticket_of b) = t_index t → covered_by t b = true) →
  ∃ d', process_replace a d = (d', Ok tt) ∧
    holds (filter (λ b, negb (covered_by t b)) l ++ [a]) (set_tickets_db d' m) ∧ statistics d' = statistics d.
Proof.
  intros [Hroom1 Hroom2] Hlen Hkey. destruct (replace_runs Hlen Hkey) as [d' Hrun].
  exists d'. split; [done|]. pose proof Hh as [Hst _ Htot Hbooks]. destruct new_row as (row & Hrow & Hra & Hrc & Hrv).
  destruct (process_replace_ok a d d' Hst (proj1 (proj2 (proj1 (proj2 Hs)))) Hrun) as ((r & Hr & _ & Ht' & _) & Hst' & Hs' & _).
  assert (r = row) as -> by congruence. split; [|done].
  split; cbn [tickets_db set_tickets_db]; [done|rewrite Ht'|rewrite Ht'|rewrite Ht'].
  - by apply Forall2_app; [apply other_rows|constructor].
  - rewrite total_app. pose proof (total_filter (replaced_by a) (tickets d)) as Hsum. rewrite (rows_total _ _ covered_rows) in Hsum.
    cbn [total]. rewrite Hrv. unfold value_of. fold d in Hroom1. fold t. lia.
  - intros mark c. unfold marked. rewrite Hs'. fold (marked d mark c). rewrite channel_total_app.
    pose proof (channel_total_split c (replaced_by a) (tickets d)) as Hsum. rewrite covered_total in Hsum.
    specialize (Hbooks mark c). fold d in Hbooks. unfold channel_total at 2. rewrite filter_cons_bool. unfold in_channel at 1. rewrite Hrc.
    case_bool_decide as Hd; [subst c|cbn; lia]. specialize (Hroom2 mark). fold d in Hroom2.
    cbn [total filter list_filter]. rewrite Hrv. unfold value_of. fold t. lia.
Qed.
End Replace.

(** Distinct indices in a range are at most as many as the range is wide. *)
Lemma range_length (l : list Z) start width :
  NoDup l → (∀ i, i ∈ l → start ≤ i < start + width) → Z.of_nat (length l) ≤ Z.max 0 width.
Proof using Type.
  intros Hnd Hin. assert (l ⊆+ seqZ start width) as Hs%submseteq_length.
  { apply NoDup_submseteq; [done|]. intros i Hi. apply elem_of_seqZ. by apply Hin. }
  rewrite length_seqZ in Hs. lia.
Qed.

Lemma indices_NoDup c epoch (P : AcknowledgedTicket → bool) l m :
  (∀ a, P a = true → in_epoch c epoch a = true) → holds l m → NoDup ((λ a, t_index (ticket_of a)) <$> filter P l).
Proof.
  intros HP Hh. pose proof (proj1 (NoDup_alt _) (NoDup_filter P _ (holds_NoDup _ _ Hh))) as Hnd.
  apply NoDup_alt. intros i j x Hi Hj. rewrite list_lookup_fmap in Hi, Hj.
  destruct (filter P l !! i) as [a|] eqn:Ha; [|done].
  destruct (filter P l !! j) as [b|] eqn:Hb; [|done]. cbn in Hi, Hj.
  apply (Hnd i j a Ha). rewrite Hb. f_equal. apply list_elem_of_lookup_2, list_elem_of_filter in Ha as [Ha1 Ha2], Hb as [Hb1 Hb2].
  apply Is_true_true, HP in Ha1, Hb1. unfold in_epoch in Ha1, Hb1. rewrite andb_true_iff, Z.eqb_eq, bool_decide_eq_true in Ha1, Hb1.
  symmetry. apply (holds_unique l m a b Hh); try done; [by destruct Ha1 as [-> _], Hb1 as [-> _]|
    by destruct Ha1 as [_ ->], Hb1 as [_ ->]|congruence].
Qed.

Lemma aggregating_epoch c epoch a : aggregating c epoch a = true → in_epoch c epoch a = true.
Proof using Type. by intros [? _]%andb_prop. Qed.

Lemma incoming_channel_run v e db :
  indexed v db → e ∈ v.1 → direction e (me_onchain db) = Some Incoming → status e ≠ Closed →
  incoming_channel (get_id e) db = (db, Ok e).
Proof.
  intros [[Hwf _] _ _] He Hdir Hst. unfold incoming_channel. autorewrite with run.
  pose proof (get_channel_by_id_ok v.1 (get_id e) db Hwf (get_id_wf e (entries_wf _ _ _ Hwf He))) as Hrun.
  rewrite (run_Ok _ _ _ _ _ Hrun). unfold entry_by_id.
  rewrite (proj2 (find_iff get_id (get_id e) v.1 e (cw_channels _ _ Hwf)) (conj He eq_refl)).
  destruct (status e) eqn:Hs; [done| |]; cbn; by rewrite Hdir.
Qed.

Lemma domain_separator_run db data ds :
  (get_indexer_data db).2 = Ok data → channels_dst data = Some ds →
  ∃ db', channels_domain_separator db = (db', Ok (data, ds)) ∧ get_indexer_data db = (db', Ok data).
Proof using Type.
  intros Hd Hds. destruct (get_indexer_data db) as [db' o] eqn:Hrun. cbn in Hd. subst o. exists db'. split; [|done].
  unfold channels_domain_separator. rewrite (run_Ok _ _ _ _ _ Hrun), Hds. done.
Qed.

Lemma always_wins : approx_eq (E:=DbSqlError) ALWAYS ALWAYS = Ok true.
Proof using Type.
  unfold approx_eq, approx_cmp. assert (SFcompare (as_f64 ALWAYS) (as_f64 ALWAYS) = Some Eq) as -> by by vm_compute.
  by destruct (f64_approx_eq _ _ _).
Qed.

Lemma total_filter_le (P : TicketModel → bool) rows :
  Forall (λ r, column_wf (m_amount r)) rows → total rows ≤ U256_max → total (filter P rows) ≤ U256_max.
Proof using Type.
  intros Hw Ht. rewrite (total_filter P) in Ht.
  pose proof (total_nonneg (filter (λ r, negb (P r)) rows) ltac:(by apply Forall_filter)). lia.
Qed.

#[export] Instance values_proper : Proper ((≡ₚ) ==> (=)) values.
Proof using Type. intros l l' Hl. unfold values. induction Hl; cbn in *; lia. Qed.

(** An aggregate for the tickets being aggregated on a channel. *)
Record replaces (e : ChannelEntry) (l : list AcknowledgedTicket) (t : Ticket) : Prop := {
  rp_channel : t_channel_id t = get_id e ∧ t_channel_epoch t = channel_epoch e;
  rp_typed : Ticket_typed t ∧ Ticket_built t ∧ t_index_offset t < 2 ^ 31;
  rp_always : t_encoded_win_prob t = ALWAYS;
  rp_covers : ∀ a, a ∈ l → aggregating (get_id e) (channel_epoch e) a = true →
    t_index t ≤ t_index (ticket_of a) < range_end t;
  rp_first : ∃ a, a ∈ l ∧ aggregating (get_id e) (channel_epoch e) a = true ∧ t_index (ticket_of a) = t_index t
}.

Lemma replaces_covered e l t a :
  replaces e l t → a ∈ l → covered_by t a = aggregating (get_id e) (channel_epoch e) a.
Proof using Type.
  intros [[Hc He] _ _ Hcov _] Ha. unfold covered_by. rewrite Hc, He.
  destruct (aggregating _ _ a) eqn:Hagg; [|done]. destruct (Hcov a Ha Hagg).
  rewrite (proj2 (Z.leb_le _ _)), (proj2 (Z.ltb_lt _ _)) by lia. done.
Qed.

(** The query for the tickets being aggregated, in the order of its rows. *)
Definition aggregating_rows (e : ChannelEntry) (m : TicketManager) : list TicketModel :=
  find_where (into_condition (with_state BeingAggregated (selector_of_channel e))) (tickets_db m).

(** Once verified, an aggregate is queued if it is worth enough. *)
Lemma process_received_run (kp : ChainKeypair) v e data ds t vt q db :
  let P := aggregating (get_id e) (channel_epoch e) in
  indexed v db → PublicKey_to_address (ck_public kp) = me_onchain db →
  e ∈ v.1 → direction e (me_onchain db) = Some Incoming → status e ≠ Closed →
  (get_indexer_data db).2 = Ok data → channels_dst data = Some ds →
  verify t (source e) ds = Ok vt → replaces e v.2 t → incoming (ticket_manager db) = Some q →
  ∃ db1 a rest, Forall2 row_of_acknowledged (aggregating_rows e (ticket_manager db)) (a :: rest) ∧
    a :: rest ≡ₚ filter P v.2 ∧ indexed v db1 ∧ ticket_manager db1 = ticket_manager db ∧
    process_received_aggregated_ticket t kp db =
      if values (filter P v.2) <=? amount (t_amount t)
      then (set_ticket_manager (set_incoming (Some (q ++ [Replace (into_acknowledged vt (ack_response a))])) (ticket_manager db1)) db1,
            Ok (into_acknowledged vt (ack_response a)))
      else (db1, Err (LogicalError "Value of received aggregated ticket is too low")).
Proof.
  intros P Hix Hme Hin Hdir Hst Hd Hds Hv Hrep Hq.
  pose proof Hrep as [[Hc He] (Hty & Hbu & Ho) Hal Hcov (a0 & Ha0 & Hagg0 & Hi0)].
  destruct (domain_separator_run db data ds Hd Hds) as (db1 & Hrun & Hdata).
  destruct (get_indexer_data_indexed _ _ _ _ Hdata Hix) as [Hix1 Hr1].
  pose proof (entries_wf _ _ _ (proj1 (ix_channels _ _ Hix)) Hin) as Hewf.
  destruct (find_rows (with_state BeingAggregated (selector_of_channel e)) v.2 (ticket_manager db) (aggregating_typed e Hewf)
    (ix_tickets _ _ Hix)) as (l' & Hrows & Hp). fold (aggregating_rows e (ticket_manager db)) in Hrows.
  assert (filter (selects (with_state BeingAggregated (selector_of_channel e))) v.2 = filter P v.2) as Heq
    by (apply filter_ext_in; intros a _; apply selects_aggregating).
  rewrite Heq in Hp. destruct l' as [|a rest].
  { exfalso. symmetry in Hp. apply Permutation_nil_r in Hp. eapply not_elem_of_nil. rewrite <-Hp.
    apply list_elem_of_filter. split; [|exact Ha0]. unfold P. by rewrite Hagg0. }
  exists db1, a, rest. split; [done|]. split; [done|]. split; [done|]. split; [apply (rd_tickets _ _ Hr1)|].
  unfold process_received_aggregated_ticket. autorewrite with run. rewrite bool_decide_eq_true_2 by done. cbn [negb].
  rewrite Hc. rewrite (run_Ok _ _ _ _ _ (incoming_channel_run v e db Hix Hin Hdir Hst)), (run_Ok _ _ _ _ _ Hrun).
  rewrite Hv. cbn [map_err]. autorewrite with run. apply verify_Ok_iff in Hv as [-> _]. cbn [verified_ticket].
  unfold win_prob. rewrite Hal, always_wins. autorewrite with run. cbn [negb].
  assert (on_tickets (perform (d ← get; mret (find_where
    (into_condition (with_state BeingAggregated (selector_of_channel e))) d))) db1 =
    (db1, Ok (aggregating_rows e (ticket_manager db)))) as Hq'.
  { rewrite <-(rd_tickets _ _ Hr1). unfold on_tickets, perform, aggregating_rows. autorewrite with run. cbn. by destruct db1 as [? []]. }
  rewrite (run_Ok _ _ _ _ _ Hq'), (Forall2_length _ _ _ Hrows). cbn [length Nat.eqb].
  assert (Forall (λ r, column_wf (m_amount r)) (aggregating_rows e (ticket_manager db))) as Hcw.
  { unfold aggregating_rows, find_where. rewrite scan_permutation. apply Forall_filter, (wf_amounts _ (hd_store _ _ (ix_tickets _ _ Hix))). }
  rewrite (rows_value_total _ Hcw), (rows_total _ _ Hrows), Hp. autorewrite with run.
  assert (values (filter P v.2) ≤ U256_max) as Hmax.
  { rewrite <-Hp, <-(rows_total _ _ Hrows). unfold aggregating_rows, find_where. rewrite scan_permutation.
    apply total_filter_le; [apply (wf_amounts _ (hd_store _ _ (ix_tickets _ _ Hix)))|apply (hd_total _ _ (ix_tickets _ _ Hix))]. }
  rewrite Z.min_l by done. unfold Balance_ltb. cbn [amount]. rewrite Z.ltb_antisym.
  destruct (values (filter P v.2) <=? amount (t_amount t)); [|done]. cbn [negb].
  unfold decode_rows. rewrite (mapM_rows _ _ Hrows). cbn [map_err head]. rewrite run_lift. cbn [unwrap_option head].
  assert (U256_add (E:=DbSqlError) (t_index t) (t_index_offset t) = Ok (range_end t)) as ->.
  { unfold U256_add, range_end. rewrite (proj2 (Z.leb_le _ _)); [done|]. destruct Hty as (_ & _ & Hi & Hof & _).
    unfold in_u in *. pose proof (eq_refl : U256_max = 2 ^ 256 - 1). lia. }
  rewrite !run_lift. set (ag := into_acknowledged _ _).
  assert (on_tickets (replace_tickets ag) db1 =
    (set_ticket_manager (set_incoming (Some (q ++ [Replace ag])) (ticket_manager db1)) db1, Ok tt)) as Hen.
  { unfold on_tickets, replace_tickets, enqueue. rewrite run_get, (rd_tickets _ _ Hr1), Hq. done. }
  by rewrite (run_Ok _ _ _ _ _ Hen).
Qed.

(** The aggregate with the response of a ticket it answers can be stored. *)
Lemma received_storable ds issuer t a :
  VerifiedTicket_wf ds (mkVerified t (get_hash t ds) issuer) → Ticket_typed t → Ticket_built t →
  (∃ ds', storable ds' a) → t_challenge (ticket_of a) = t_challenge t →
  storable ds (into_acknowledged (mkVerified t (get_hash t ds) issuer) (ack_response a)).
Proof.
  intros Hwf Hty Hbu [ds' (_ & _ & _ & Hr & _ & c & Hrc & Hc)] Hch.
  split_and!; [done|done|done|done|apply get_hash_wf|]. exists c. split; [done|]. cbn. rewrite <-Hc. symmetry. exact Hch.
Qed.

(** A turn of the background task with a queued aggregate. *)
Lemma replace_turn v e ds t vt a db :
  indexed v db → VerifiedTicket_wf ds vt → vt = mkVerified t (get_hash t ds) (source e) → replaces e v.2 t →
  (∃ ds', storable ds' a) → t_challenge (ticket_of a) = t_challenge t → room_for t v.2 (ticket_manager db) →
  let ag := into_acknowledged vt (ack_response a) in
  incoming (ticket_manager db) = Some [Replace ag] →
  ∃ m', process_next (ticket_manager db) = Ok m' ∧
    indexed (v.1, filter (λ b, negb (aggregating (get_id e) (channel_epoch e) b)) v.2 ++ [ag]) (set_ticket_manager m' db) ∧
    notified m' = notified (ticket_manager db) ++ [ag] ∧ incoming m' = Some [] ∧
    statistics (tickets_db m') = statistics (tickets_db (ticket_manager db)).
Proof.
  intros Hix Hwf Hvt Hrep Hsa Hch Hroom ag Hq. subst vt.
  pose proof Hrep as [[Hc He] (Hty & Hbu & Ho) _ Hcov (a0 & Ha0 & Hagg0 & Hi0)].
  assert (filter (covered_by t) v.2 = filter (aggregating (get_id e) (channel_epoch e)) v.2) as Heq
    by (apply filter_ext_in; intros b Hb; by eapply replaces_covered).
  destruct (replace_holds ds ag v.2 (ticket_manager db) (ix_tickets _ _ Hix)) as (d' & Hrun & Hh & Hs).
  { by apply received_storable. }
  { done. }
  { done. }
  { change (ticket_of ag) with t. rewrite Heq.
    pose proof (range_length _ (t_index t) (t_index_offset t) (indices_NoDup _ _ _ _ _ (aggregating_epoch (get_id e) (channel_epoch e)) (ix_tickets _ _ Hix))) as Hlen.
    rewrite length_fmap in Hlen. destruct Hbu as (_ & _ & _ & ?). etrans; [apply Hlen|lia].
    intros i (b & -> & [Hb1 Hb]%list_elem_of_filter)%list_elem_of_fmap. by apply (Hcov b Hb), Is_true_true. }
  { change (ticket_of ag) with t. intros b Hb Hbc Hbe Hbi. rewrite (replaces_covered _ _ _ _ Hrep Hb).
    assert (b = a0) as ->; [|done]. unfold aggregating, in_epoch in Hagg0.
    rewrite !andb_true_iff, Z.eqb_eq, !bool_decide_eq_true in Hagg0. destruct Hagg0 as [[Hc0 He0] _].
    apply (holds_unique _ _ _ _ (ix_tickets _ _ Hix) Hb Ha0); congruence. }
  unfold process_next. rewrite Hq. unfold perform. cbn [tickets_db set_incoming]. rewrite Hrun.
  eexists. split; [reflexivity|]. split; [|done].
  apply (ticket_op_indexed v); [done| |].
  - rewrite (filter_ext_in _ (λ b, negb (covered_by (ticket_of ag) b))); [by eapply holds_frame; [exact Hh|..]|].
    intros b Hb. change (ticket_of ag) with t. by rewrite (replaces_covered _ _ _ _ Hrep Hb).
  - destruct (ix_indices _ _ Hix) as [Hr Hca]. pose proof (process_replace_indices _ _ _ Hrun) as Ho'.
    by split; cbn [tickets_db index_cache set_notified set_tickets_db set_incoming]; rewrite ?Ho'.
Qed.

(** The aggregate is received, and the background task has its turn. *)
Lemma receive_Ok (kp : ChainKeypair) v e data ds t vt db :
  let P := aggregating (get_id e) (channel_epoch e) in
  indexed v db → PublicKey_to_address (ck_public kp) = me_onchain db →
  e ∈ v.1 → direction e (me_onchain db) = Some Incoming → status e ≠ Closed →
  (get_indexer_data db).2 = Ok data → channels_dst data = Some ds →
  verify t (source e) ds = Ok vt → replaces e v.2 t → room_for t v.2 (ticket_manager db) →
  (∀ r rows a, aggregating_rows e (ticket_manager db) = r :: rows → row_of_acknowledged r a → t_challenge (ticket_of a) = t_challenge t) →
  incoming (ticket_manager db) = Some [] → values (filter P v.2) ≤ amount (t_amount t) →
  ∃ db1 a m2, process_received_aggregated_ticket t kp db = (db1, Ok (into_acknowledged vt (ack_response a))) ∧
    a ∈ filter P v.2 ∧ process_next (ticket_manager db1) = Ok m2 ∧
    indexed (v.1, filter (λ b, negb (P b)) v.2 ++ [into_acknowledged vt (ack_response a)]) (set_ticket_manager m2 db1) ∧
    notified m2 = notified (ticket_manager db) ++ [into_acknowledged vt (ack_response a)] ∧ incoming m2 = Some [] ∧
    statistics (tickets_db m2) = statistics (tickets_db (ticket_manager db)).
Proof.
  intros P Hix Hme Hin Hdir Hst Hd Hds Hv Hrep Hroom Hans Hq Hle.
  destruct (process_received_run kp v e data ds t vt [] db Hix Hme Hin Hdir Hst Hd Hds Hv Hrep Hq)
    as (db1 & a & rest & Hrows & Hp & Hix1 & Hm & Hrun). fold P in Hp, Hrun.
  rewrite (proj2 (Z.leb_le _ _) Hle) in Hrun.
  destruct (aggregating_rows e (ticket_manager db)) as [|r rows] eqn:Hr; [by apply Forall2_nil_inv_l in Hrows|].
  apply Forall2_cons in Hrows as [Hra _]. pose proof (Hans r rows a eq_refl Hra) as Hch.
  apply verify_Ok_iff in Hv as [Hvt Hwf]. set (ag := into_acknowledged vt (ack_response a)) in *.
  set (db1' := set_ticket_manager (set_incoming (Some ([] ++ [Replace ag])) (ticket_manager db1)) db1) in *.
  assert (indexed v db1') as Hix1'.
  { destruct v as [entries l]. apply (ticket_op_indexed (entries, l)); [done| |].
    - by eapply holds_frame; [apply (ix_tickets _ _ Hix1)|..].
    - destruct (ix_indices _ _ Hix1) as [Hr1 Hca]. by split. }
  destruct (replace_turn v e ds t vt a db1' Hix1' Hwf Hvt Hrep) as (m2 & Hnext & Hix2 & Hnot & Hinc & Hstat); [|done| |done|].
  { apply Hra. }
  { unfold room_for, db1'. cbn [ticket_manager set_ticket_manager tickets_db set_incoming]. by rewrite Hm. }
  exists db1', a, m2. change (notified (ticket_manager db1')) with (notified (ticket_manager db1)) in Hnot.
  change (tickets_db (ticket_manager db1')) with (tickets_db (ticket_manager db1)) in Hstat. rewrite Hm in Hnot, Hstat.
  split_and!; try done. rewrite <-Hp. by left.
Qed.

(** C6. A received aggregate takes the place of the tickets that were given for
    it.  When it was signed by the other end of an incoming channel, always
    wins, and its index range starts at the first of the tickets being
    aggregated there and covers them, it is refused if it is worth less than
    they are; otherwise it is queued, with a response that the node had stored,
    and the next turn of the background task removes exactly those tickets from
    the table and adds the aggregate, whatever other tickets lie around, and
    changes no account. *)
Theorem aggregate_replaces (kp : ChainKeypair) (v : View) (e : ChannelEntry) (data : IndexerData) (ds : Hash) (t : Ticket)
    (vt : VerifiedTicket) (db : HoprDb) :
  let P := aggregating (get_id e) (channel_epoch e) in
  indexed v db → PublicKey_to_address (ck_public kp) = me_onchain db →
  e ∈ v.1 → direction e (me_onchain db) = Some Incoming → status e ≠ Closed →
  (get_indexer_data db).2 = Ok data → channels_dst data = Some ds →
  verify t (source e) ds = Ok vt → replaces e v.2 t → room_for t v.2 (ticket_manager db) →
  (∀ r rows a, aggregating_rows e (ticket_manager db) = r :: rows → row_of_acknowledged r a → t_challenge (ticket_of a) = t_challenge t) →
  incoming (ticket_manager db) = Some [] →
  if values (filter P v.2) <=? amount (t_amount t) then
    ∃ db1 a m2, process_received_aggregated_ticket t kp db = (db1, Ok (into_acknowledged vt (ack_response a))) ∧
      a ∈ filter P v.2 ∧ process_next (ticket_manager db1) = Ok m2 ∧
      indexed (v.1, filter (λ b, negb (P b)) v.2 ++ [into_acknowledged vt (ack_response a)]) (set_ticket_manager m2 db1) ∧
      notified m2 = notified (ticket_manager db) ++ [into_acknowledged vt (ack_response a)] ∧ incoming m2 = Some [] ∧
      statistics (tickets_db m2) = statistics (tickets_db (ticket_manager db))
  else ∃ db1, process_received_aggregated_ticket t kp db =
      (db1, Err (LogicalError "Value of received aggregated ticket is too low")) ∧
    indexed v db1 ∧ ticket_manager db1 = ticket_manager db.
Proof.
  intros P Hix Hme Hin Hdir Hst Hd Hds Hv Hrep Hroom Hans Hq.
  destruct (Z.leb_spec (values (filter P v.2)) (amount (t_amount t))) as [Hle|Hgt]; [by eapply receive_Ok|].
  destruct (process_received_run kp v e data ds t vt [] db Hix Hme Hin Hdir Hst Hd Hds Hv Hrep Hq)
    as (db1 & a & rest & _ & _ & Hix1 & Hm & Hrun). fold P in Hrun.
  rewrite (proj2 (Z.leb_gt _ _) Hgt) in Hrun. by exists db1.
Qed.
End Receiver.
