(* ===== verification/PrepareSpec.v ===== *)
(** * The tickets given for aggregation

    What a node shows to the issuer of its tickets: winning tickets of the
    channel in the order of their indices, all of them marked, none else. *)
From Stdlib Require Import Floats.SpecFloat Sorting.Sorted.
From stdpp Require Import gmap strings sorting.
From S2P Require Import Prelude Primitives Crypto Channels Tickets WinProb SharedKeys MetaPacket Packet.
From S2P Require Import TicketStore TicketStoreSpec TicketIndexSpec TicketTable Protocol NodeDb NodeDbSpec NodeProtocol NodeProtocolSpec.
From S2P Require Import Indexer IndexerSpec Aggregation AggregationSpec.

Lemma sublist_elem {A} (l k : list A) x : l `sublist_of` k → x ∈ l → x ∈ k.
Proof. intros Hs. intros Hx. eapply elem_of_submseteq; [exact Hx|by apply sublist_submseteq]. Qed.

Lemma sublist_Forall {A} (P : A → Prop) (l k : list A) : l `sublist_of` k → Forall P k → Forall P l.
Proof. rewrite !Forall_forall. intros Hs HP x Hx. apply HP. by eapply sublist_elem. Qed.

(** Sublists keep an order. *)
Lemma StronglySorted_sublist {A} (R : A → A → Prop) l k : l `sublist_of` k → StronglySorted R k → StronglySorted R l.
Proof.
  induction 1 as [|x l k Hl IH|x l k Hl IH]; intros Hs; [done|..]; inversion Hs as [|? ? Hs' Hf]; subst.
  - constructor; [by apply IH|by eapply sublist_Forall].
  - by apply IH.
Qed.

Lemma sublist_filter_bool {A} (P : A → bool) (l : list A) : filter P l `sublist_of` l.
Proof. induction l as [|x l IH]; [done|]. rewrite filter_cons. case_decide; by constructor. Qed.

Lemma Forall2_sublist_l {A B} (R : A → B → Prop) l k l' :
  Forall2 R l k → l' `sublist_of` l → ∃ k', k' `sublist_of` k ∧ Forall2 R l' k'.
Proof.
  intros Hlk Hs. revert k Hlk. induction Hs as [|x l' l Hs IH|x l' l Hs IH]; intros k Hlk.
  - apply Forall2_nil_inv_l in Hlk as ->. by exists [].
  - apply Forall2_cons_inv_l in Hlk as (y & k1 & Hxy & Hlk & ->). destruct (IH _ Hlk) as (k' & Hk & HR).
    exists (y :: k'). by split; constructor.
  - apply Forall2_cons_inv_l in Hlk as (y & k1 & Hxy & Hlk & ->). destruct (IH _ Hlk) as (k' & Hk & HR).
    exists k'. split; [by constructor|done].
Qed.

Section Prepare.
Context `{!Secp256k1, !Secp256k1Laws} `{!Curve25519} `{!Ed25519} `{!HexCodec, !HexCodecLaws}.
Context `{!ScanOrder, !ScanOrderLaws} `{!Multiaddrs} `{!FloatCmp}.
#[local] Set Default Proof Using "Type*".

Abbreviation DB := (SM HoprDb DbSqlError).

(** ** The choice *)

Lemma sublist_total l k : l `sublist_of` k → Forall (λ r, column_wf (m_amount r)) k → total l ≤ total k.
Proof using Type.
  induction 1 as [|r l k _ IH|r l k _ IH]; intros Hw; [done|..]; apply Forall_cons in Hw as [Hr Hw]; cbn [total]; [by apply Z.add_le_mono_l, IH|].
  pose proof (from_be_column _ Hr) as Hv. unfold in_u in Hv. fold (row_value r) in Hv. specialize (IH Hw). lia.
Qed.

(** What the loop takes is a part of the list with a total that the channel
    can pay. *)
Lemma satisfying_loop_sublist models e min_win_prob sum acc l sum' :
  satisfying_loop models e min_win_prob sum acc = Ok (l, sum') →
  ∃ more, l = acc ++ more ∧ more `sublist_of` models ∧
    (amount sum + total more ≤ U256_max → Forall (λ r, column_wf (m_amount r)) models →
     0 ≤ amount sum → amount sum ≤ amount (balance e) → amount sum + total more ≤ amount (balance e)).
Proof.
  revert sum acc. induction models as [|m models IH]; intros sum acc Hrun; cbn [satisfying_loop] in Hrun.
  { injection Hrun as <- <-. exists []. rewrite app_nil_r. split_and!; [done|done|]. cbn. lia. }
  apply bind_Ok in Hrun as (wp & _ & Hrun). apply bind_Ok in Hrun as (order & _ & Hrun).
  assert (∀ acc', satisfying_loop models e min_win_prob sum acc' = Ok (l, sum') → acc' = acc →
    ∃ more, l = acc ++ more ∧ more `sublist_of` m :: models ∧
    (amount sum + total more ≤ U256_max → Forall (λ r, column_wf (m_amount r)) (m :: models) →
     0 ≤ amount sum → amount sum ≤ amount (balance e) → amount sum + total more ≤ amount (balance e))) as Hskip.
  { intros acc' Hr ->. destruct (IH _ _ Hr) as (more & -> & Hs & Hle). exists more. split; [done|]. split; [by constructor|].
    intros Hmax [_ Hw]%Forall_cons. by apply Hle. }
  assert (∀ o, order = o → o ≠ Lt → (to_add ← Balance_from_be_bytes (m_amount m);
    let total := Balance_add sum to_add in
    if Balance_ltb (balance e) total then Ok (acc, Balance_sub total to_add)
    else satisfying_loop models e min_win_prob total (acc ++ [m])) = Ok (E:=DbSqlError) (l, sum') →
    ∃ more, l = acc ++ more ∧ more `sublist_of` m :: models ∧
    (amount sum + total more ≤ U256_max → Forall (λ r, column_wf (m_amount r)) (m :: models) →
     0 ≤ amount sum → amount sum ≤ amount (balance e) → amount sum + total more ≤ amount (balance e))) as Htake.
  { intros o _ _ Hr. apply bind_Ok in Hr as (b & Hb & Hr). cbv zeta in Hr.
    destruct (Balance_ltb (balance e) (Balance_add sum b)) eqn:Hlt.
    { injection Hr as <- <-. exists []. rewrite app_nil_r. split_and!; [done|apply sublist_nil_l|]. cbn. lia. }
    destruct (IH _ _ Hr) as (more & -> & Hs & Hle). exists (m :: more). rewrite <-app_assoc.
    split; [done|]. split; [by constructor|]. intros Hmax [Hcol Hw]%Forall_cons Hp Hbal. cbn [total] in *.
    assert (amount b = row_value m) as Hbv.
    { unfold Balance_from_be_bytes, U256_from_be_bytes in Hb. case_bool_decide; [|done]. by injection Hb as <-. }
    pose proof (total_nonneg more ltac:(by eapply sublist_Forall)) as Hmore.
    assert (amount (Balance_add sum b) = amount sum + row_value m) as Hadd.
    { unfold Balance_add, U256_saturating_add. cbn. rewrite Hbv. lia. }
    unfold Balance_ltb in Hlt. apply Z.ltb_ge in Hlt. rewrite Hadd in Hle, Hlt.
    pose proof (from_be_column _ Hcol) as Hrv. unfold in_u in Hrv. fold (row_value m) in Hrv.
    specialize (Hle ltac:(lia) Hw ltac:(lia) ltac:(lia)). lia. }
  destruct order; [by eapply Htake|by eapply Hskip|by eapply Htake].
Qed.

(** ** Rows and their order *)
Lemma row_fields r a :
  row_of_acknowledged r a →
  m_index r = to_be 8 (t_index (ticket_of a)) ∧ 0 ≤ t_index (ticket_of a) ≤ 2 ^ 48 ∧
  m_state r = AcknowledgedTicketStatus_repr (ack_status a).
Proof.
  intros ([ds (_ & _ & (_ & Hi & _) & _)] & _ & Hr). fold (ticket_of a) in Hi.
  unfold ActiveModel_from in Hr. fold (ticket_of a) in Hr. by apply bind_Ok in Hr as (? & _ & [= <-]).
Qed.

Lemma rows_compare r r' a b :
  row_of_acknowledged r a → row_of_acknowledged r' b →
  bytes_cmp (m_index r) (m_index r') = (t_index (ticket_of a) ?= t_index (ticket_of b)).
Proof.
  intros (-> & Ha & _)%row_fields (-> & Hb & _)%row_fields. apply bytes_cmp_to_be; unfold in_u; lia.
Qed.

Lemma sorted_tickets (R : TicketModel → TicketModel → Prop) (S : Z → Z → Prop) `{!Transitive S} rows l :
  (∀ r r' a b, row_of_acknowledged r a → row_of_acknowledged r' b → R r r' → S (t_index (ticket_of a)) (t_index (ticket_of b))) →
  Forall2 row_of_acknowledged rows l → Sorted R rows →
  StronglySorted (λ a b, S (t_index (ticket_of a)) (t_index (ticket_of b))) l.
Proof using Type.
  intros HR Hrows Hs. apply Sorted_StronglySorted; [intros a b c ? ?; cbn in *; by etrans|].
  revert l Hrows. induction Hs as [|r rows Hs IH Hhd]; intros l Hrows.
  - by apply Forall2_nil_inv_l in Hrows as ->.
  - apply Forall2_cons_inv_l in Hrows as (a & l' & Ha & Hrows & ->). constructor; [by apply IH|].
    destruct Hhd as [|r' rows' Hr]; [by apply Forall2_nil_inv_l in Hrows as ->|].
    apply Forall2_cons_inv_l in Hrows as (b & l'' & Hb & _ & ->). constructor. by eapply HR.
Qed.

Lemma bytes_cmp_sym a b : bytes_cmp a b = CompOpp (bytes_cmp b a).
Proof using Type.
  revert b. induction a as [|x a IH]; intros [|y b]; [done..|]. cbn. rewrite (Z.compare_antisym y x).
  destruct (y ?= x); cbn; [apply IH|done|done].
Qed.

#[export] Instance index_ascending_total : Total index_ascending.
Proof using Type. intros r r'. unfold index_ascending. rewrite (bytes_cmp_sym (m_index r') (m_index r)). destruct (bytes_cmp _ _); cbn; [left|left|right]; done. Qed.

#[export] Instance index_descending_total : Total index_descending.
Proof using Type. intros r r'. unfold index_descending. rewrite (bytes_cmp_sym (m_index r') (m_index r)). destruct (bytes_cmp _ _); cbn; [left|right|left]; done. Qed.

Lemma ascending_rows rows l :
  Forall2 row_of_acknowledged rows l → Sorted index_ascending rows →
  StronglySorted (λ a b, t_index (ticket_of a) ≤ t_index (ticket_of b)) l.
Proof.
  intros Hrows. apply (sorted_tickets index_ascending Z.le rows l); [|done].
  intros r r' a b Ha Hb. unfold index_ascending. by rewrite (rows_compare _ _ _ _ Ha Hb).
Qed.

Lemma descending_rows rows l :
  Forall2 row_of_acknowledged rows l → Sorted index_descending rows →
  StronglySorted (λ a b, t_index (ticket_of b) ≤ t_index (ticket_of a)) l.
Proof.
  intros Hrows. apply (sorted_tickets index_descending (flip Z.le) rows l); [|done].
  intros r r' a b Ha Hb. unfold index_descending, flip. rewrite (rows_compare _ _ _ _ Ha Hb).
  intros Hlt. destruct (Z.compare_spec (t_index (ticket_of a)) (t_index (ticket_of b))); [lia|done|lia].
Qed.

(** ** Conversions *)
Definition transfers (t : TransferableWinningTicket) (a : AcknowledgedTicket) : Prop :=
  tw_ticket t = ticket_of a ∧ tw_response t = ack_response a ∧ tw_signer t = verified_issuer (ack_ticket a).

Lemma transferable_all_Ok key ds randoms rows l ts :
  Forall2 row_of_acknowledged rows l → transferable_all key ds randoms rows = Ok ts → Forall2 transfers ts l.
Proof.
  intros Hrows. revert randoms ts. induction Hrows as [|r a rows l Hr Hrows IH]; intros randoms ts Hrun.
  { by injection Hrun as <-. }
  cbn [transferable_all] in Hrun. apply bind_Ok in Hrun as (t & Ht & Hrun). apply bind_Ok in Hrun as (rest & Hrest & Hrun).
  injection Hrun as <-. constructor; [|by eapply IH]. unfold transferable_of in Ht.
  pose proof (mapM_rows [r] [a] ltac:(by constructor)) as Ha. cbn in Ha. apply bind_Ok in Ha as (a' & Ha & Heq). injection Heq as ->.
  rewrite Ha in Ht. cbn [map_err] in Ht. apply bind_Ok in Ht as (a' & Hack & Ht). injection Hack as <-.
  apply map_err_Ok in Ht. unfold into_transferable, into_redeemable in Ht. apply bind_Ok in Ht as (rd & Hrd & Ht).
  case_bool_decide; [done|]. apply bind_Ok in Hrd as (vrf & _ & Hrd). injection Hrd as <-. by injection Ht as <-.
Qed.

Lemma filter_satisfying_sublist pre models e min_win_prob l :
  filter_satisfying_ticket_models pre models e min_win_prob = Ok l →
  l `sublist_of` models ∧
  (total models ≤ U256_max → Forall (λ r, column_wf (m_amount r)) models → Balance_wf (balance e) → total l ≤ amount (balance e)).
Proof.
  unfold filter_satisfying_ticket_models. intros Hrun. apply bind_Ok in Hrun as ([taken sum] & Hloop & Hrun).
  destruct (satisfying_loop_sublist _ _ _ _ _ _ _ Hloop) as (more & -> & Hs & Hle). cbn [app] in Hloop, Hrun.
  assert (l = more ∨ l = []) as Hl.
  { repeat match type of Hrun with
    | context [match min_ticket_count pre with _ => _ end] => destruct (min_ticket_count pre)
    | context [match min_unaggregated_ratio pre with _ => _ end] => destruct (min_unaggregated_ratio pre)
    | context [if ?b then _ else _] => destruct b
    | (_ ≫= _) = Ok _ => apply bind_Ok in Hrun as (? & _ & Hrun)
    | Ok _ = Ok _ => injection Hrun as <-
    end; by (left + right). }
  destruct Hl as [->| ->]; [|split; [apply sublist_nil_l|intros _ _ [? _]; cbn; lia]].
  split; [done|]. intros Hmax Hw [Hb _]. change (amount Balance_zero) with 0 in Hle.
  pose proof (sublist_total _ _ Hs Hw). apply Hle; [lia|done|lia|lia].
Qed.

(** ** Marking *)
Definition with_status (st : AcknowledgedTicketStatus) (a : AcknowledgedTicket) : AcknowledgedTicket :=
  mkAcknowledged st (Tickets.ack_ticket a) (ack_response a).

Definition mark_if (c : AcknowledgedTicket → bool) (st : AcknowledgedTicketStatus) (a : AcknowledgedTicket) : AcknowledgedTicket :=
  if c a then with_status st a else a.

Lemma ticket_of_marked c st a : ticket_of (mark_if c st a) = ticket_of a.
Proof using Type. unfold mark_if. by destruct (c a). Qed.

Lemma with_status_row st r a :
  row_of_acknowledged r a → row_of_acknowledged (set_state (AcknowledgedTicketStatus_repr st) r) (with_status st a).
Proof.
  intros ([ds Hs] & Ho & Hr). split; [by exists ds|]. split; [done|].
  unfold ActiveModel_from in *. apply bind_Ok in Hr as (sig & Hsig & [= <-]). cbn. by rewrite Hsig.
Qed.

Lemma marked_rows (C : TicketModel → bool) (c : AcknowledgedTicket → bool) st rows l :
  Forall2 row_of_acknowledged rows l → Forall2 (λ r a, C r = c a) rows l →
  Forall2 row_of_acknowledged (filter C rows) (filter c l) ∧
  Forall2 row_of_acknowledged ((λ r, if C r then set_state (AcknowledgedTicketStatus_repr st) r else r) <$> rows) (mark_if c st <$> l).
Proof.
  intros Hrows HC. induction Hrows as [|r a rows l Hr _ IH]; [by split; constructor|].
  apply Forall2_cons_1 in HC as [Hra HC]. destruct (IH HC) as [IH1 IH2]. rewrite !filter_cons_bool, !fmap_cons.
  unfold mark_if at 1. rewrite Hra.
  destruct (c a); (split; [try by constructor|constructor; [|done]]); [by apply with_status_row|done|done].
Qed.

Lemma update_many_at (C : TicketModel → bool) (c : AcknowledgedTicket → bool) st l m :
  holds l m → Forall2 (λ r a, C r = c a) (tickets (tickets_db m)) l →
  ∃ d', update_many C (AcknowledgedTicketStatus_repr st) (tickets_db m) = (d', Ok (length (filter c l))) ∧
    holds (mark_if c st <$> l) (set_tickets_db d' m) ∧ (m_id <$> tickets d') = (m_id <$> tickets (tickets_db m)) ∧
    statistics d' = statistics (tickets_db m) ∧ outgoing_indices d' = outgoing_indices (tickets_db m).
Proof.
  intros [Hst Hrows Ht Hb] HC. unfold update_many. autorewrite with run.
  set (f := λ r, if C r then set_state (AcknowledgedTicketStatus_repr st) r else r).
  destruct (relabelled f (tickets_db m)) as (Hst' & Ht' & Hct); [intros r; unfold f; by destruct (C r)|done|].
  destruct (marked_rows C c st _ _ Hrows HC) as [Hf Hm].
  eexists. split; [by rewrite (Forall2_length _ _ _ Hf)|]. split; [|split; [|done]].
  - split; cbn [tickets_db set_tickets_db].
    + done.
    + done.
    + cbn. by rewrite Ht'.
    + intros mark ch. cbn [tickets set_tickets]. fold f. rewrite Hct. apply Hb.
  - cbn. rewrite <-list_fmap_compose. apply list_fmap_ext. intros i r _. cbn. unfold f. by destruct (C r).
Qed.

Lemma update_many_holds (C : TicketModel → bool) (c : AcknowledgedTicket → bool) st l m :
  holds l m → (∀ r a, a ∈ l → row_of_acknowledged r a → C r = c a) →
  ∃ d', update_many C (AcknowledgedTicketStatus_repr st) (tickets_db m) = (d', Ok (length (filter c l))) ∧
    holds (mark_if c st <$> l) (set_tickets_db d' m) ∧
    statistics d' = statistics (tickets_db m) ∧ outgoing_indices d' = outgoing_indices (tickets_db m).
Proof.
  intros Hh HC. destruct (update_many_at C c st l m Hh) as (d' & ? & ? & _ & ?); [|by eauto].
  apply Forall2_same_length_lookup_2; [by eapply Forall2_length, hd_rows|]. intros i r a Hr Ha.
  apply HC; [by eapply list_elem_of_lookup_2|]. by eapply Forall2_lookup_lr; [apply (hd_rows _ _ Hh)|..].
Qed.

(** Being in the channel, row and ticket. *)
Lemma in_channel_row e r a :
  entry_wf e → row_of_acknowledged r a → into_condition (selector_of_channel e) r = in_epoch (get_id e) (channel_epoch e) a.
Proof.
  intros He Hr. rewrite (row_selected _ r a); [apply selects_channel| |done].
  apply selector_new_typed; [by apply get_id_wf|apply He].
Qed.

Definition is_aggregating (a : AcknowledgedTicket) : bool := bool_decide (ack_status a = BeingAggregated).

Lemma not_being_row r a : row_of_acknowledged r a → not_being_aggregated r = negb (is_aggregating a).
Proof.
  intros (_ & _ & Hst)%row_fields. unfold not_being_aggregated, is_aggregating. rewrite Hst. by destruct (ack_status a).
Qed.

(** The tickets of the channel with the index of a chosen one. *)
Definition chosen_by (e : ChannelEntry) (chosen : list TransferableWinningTicket) (a : AcknowledgedTicket) : bool :=
  in_epoch (get_id e) (channel_epoch e) a &&
  existsb (λ t, t_index (ticket_of a) =? t_index (tw_ticket t)) chosen && negb (is_aggregating a).

Lemma is_chosen_row e chosen r a :
  entry_wf e → Forall (λ t, in_u 64 (t_index (tw_ticket t))) chosen → row_of_acknowledged r a →
  is_chosen e chosen r = chosen_by e chosen a.
Proof.
  intros He Hch Hr. unfold is_chosen, chosen_by. rewrite (in_channel_row e r a He Hr), (not_being_row r a Hr).
  f_equal. f_equal. destruct (row_fields r a Hr) as (-> & Hi & _).
  induction Hch as [|t chosen Ht _ IH]; [done|]. cbn [existsb]. rewrite IH. f_equal.
  apply (to_be_eq 8); [unfold in_u; lia|done].
Qed.

(** ** The transaction *)
Lemma strictly_sorted l :
  StronglySorted (λ a b, t_index (ticket_of a) ≤ t_index (ticket_of b)) l → NoDup ((λ a, t_index (ticket_of a)) <$> l) →
  StronglySorted (λ a b, t_index (ticket_of a) < t_index (ticket_of b)) l.
Proof using Type.
  induction 1 as [|a l _ IH Hf]; intros Hnd; [constructor|]. rewrite fmap_cons in Hnd. apply NoDup_cons in Hnd as [Hni Hnd].
  constructor; [by apply IH|]. rewrite Forall_forall in *. intros b Hb. specialize (Hf b Hb).
  assert (t_index (ticket_of b) ≠ t_index (ticket_of a)); [|lia]. intros Heq. apply Hni. rewrite <-Heq.
  apply list_elem_of_fmap. by exists b.
Qed.

Lemma values_sublist rows l k : Forall2 row_of_acknowledged rows k → l `sublist_of` k → values l ≤ values k.
Proof.
  intros Hrows Hs. revert rows Hrows. induction Hs as [|a l k _ IH|a l k _ IH]; intros rows Hrows; [done|..];
    apply Forall2_cons_inv_r in Hrows as (r & rows' & Hr & Hrows & ->); specialize (IH _ Hrows);
    change (values (a :: k)) with (value_of a + values k); [change (values (a :: l)) with (value_of a + values l); lia|].
  destruct Hr as ([ds (_ & (_ & [Ha _] & _) & _)] & _). fold (ticket_of a) in Ha. unfold value_of. lia.
Qed.

(** No ticket being redeemed has the first index or a later one. *)
Lemma redeemed_before e l m next_idx :
  entry_wf e → holds l m →
  match merge_sort index_descending
      (find_where (into_condition (with_state BeingRedeemed (selector_of_channel e))) (tickets_db m)) with
  | m :: _ => i ← U256_from_be_bytes (m_index m); i ← U256_as 64 i; Ok (E:=DbSqlError) (wrap 64 (i + 1))
  | [] => Ok 0
  end = Ok next_idx →
  0 ≤ next_idx < 2 ^ 64 ∧
  ∀ a, a ∈ l → in_epoch (get_id e) (channel_epoch e) a = true → next_idx ≤ t_index (ticket_of a) → ack_status a ≠ BeingRedeemed.
Proof.
  intros He Hh Hrun.
  destruct (find_rows (with_state BeingRedeemed (selector_of_channel e)) l m) as (l1 & Hrows & Hp); [|done|].
  { apply selector_new_typed; [by apply get_id_wf|apply He]. }
  set (rows := find_where _ _) in Hrun, Hrows.
  destruct (Forall2_permuted _ _ _ _ Hrows (merge_sort_Permutation index_descending rows)) as (l2 & Hrows2 & Hp2).
  pose proof (descending_rows _ _ Hrows2 (Sorted_merge_sort index_descending rows)) as Hs.
  assert (∀ a, a ∈ l → in_epoch (get_id e) (channel_epoch e) a = true → ack_status a = BeingRedeemed → a ∈ l2) as Hin.
  { intros a Ha Hep Hst. rewrite Hp2, Hp. apply list_elem_of_filter. split; [|done].
    rewrite selects_being, Hep, Hst. done. }
  destruct (merge_sort index_descending rows) as [|r rows']; [apply Forall2_nil_inv_l in Hrows2 as ->|].
  { injection Hrun as <-. split; [done|]. intros a Ha Hep _ Hst. by apply (Hin a Ha Hep), not_elem_of_nil in Hst. }
  apply Forall2_cons_inv_l in Hrows2 as (b & l2' & Hr & _ & ->). destruct (row_fields r b Hr) as (Hi & Hb & _).
  rewrite Hi in Hrun. rewrite U256_from_to_be in Hrun by (done || unfold in_u; lia). cbn [mbind outcome_bind] in Hrun.
  rewrite U256_as_ok in Hrun by (unfold in_u; lia). cbn [mbind outcome_bind] in Hrun. injection Hrun as <-.
  rewrite wrap_small by (unfold in_u; lia). split; [lia|]. intros a Ha Hep Hle Hst.
  apply (Hin a Ha Hep) in Hst. inversion Hs as [|? ? _ Hf]; subst. apply elem_of_cons in Hst as [->|Hst]; [lia|].
  rewrite Forall_forall in Hf. specialize (Hf a Hst). lia.
Qed.

(** The tickets that may be given: of the channel, not used otherwise. *)
Definition available (e : ChannelEntry) (l : list AcknowledgedTicket) (a : AcknowledgedTicket) : Prop :=
  a ∈ l ∧ in_epoch (get_id e) (channel_epoch e) a = true ∧ ack_status a = Untouched ∧ ticket_index e ≤ t_index (ticket_of a).

(** What is chosen, and what is marked. *)
Record prepared (e : ChannelEntry) (l : list AcknowledgedTicket) (ts : list TransferableWinningTicket)
    (chosen : list AcknowledgedTicket) : Prop := {
  pr_given : Forall2 transfers ts chosen;
  pr_sorted : StronglySorted (λ a b, t_index (ticket_of a) < t_index (ticket_of b)) chosen;
  pr_batch : (0 < length chosen ≤ MAX_TICKETS_TO_AGGREGATE_BATCH)%nat;
  pr_value : values chosen ≤ amount (balance e);
  pr_available : ∀ a, a ∈ chosen → available e l a;
  pr_alone : filter (aggregating (get_id e) (channel_epoch e)) l = [];
  pr_marked : ∀ a, a ∈ l → chosen_by e ts a = true ↔ a ∈ chosen
}.

(** The candidates of the query, in the order of their indices. *)
Lemma candidates_rows e l m first_idx :
  entry_wf e → holds l m → in_u 64 first_idx →
  let rows := merge_sort index_ascending (find_where (λ r, into_condition (selector_of_channel e) r &&
    blob_le (to_be 8 first_idx) (m_index r) && not_being_aggregated r) (tickets_db m)) in
  ∃ l1, Forall2 row_of_acknowledged rows l1 ∧ total rows ≤ U256_max ∧ Forall (λ r, column_wf (m_amount r)) rows ∧
    StronglySorted (λ a b, t_index (ticket_of a) < t_index (ticket_of b)) l1 ∧
    ∀ a, a ∈ l1 → a ∈ l ∧ in_epoch (get_id e) (channel_epoch e) a = true ∧ is_aggregating a = false ∧ first_idx ≤ t_index (ticket_of a).
Proof.
  intros He Hh Hf rows. pose proof Hh as [Hst Hrows Ht _].
  set (P := λ a, in_epoch (get_id e) (channel_epoch e) a && (first_idx <=? t_index (ticket_of a)) && negb (is_aggregating a)).
  set (C := λ r, into_condition (selector_of_channel e) r && blob_le (to_be 8 first_idx) (m_index r) && not_being_aggregated r) in *.
  assert (Forall2 row_of_acknowledged (filter C (tickets (tickets_db m))) (filter P l)) as HC.
  { apply Forall2_filter; [done|]. intros r a Hr. unfold C, P. rewrite (in_channel_row e r a He Hr), (not_being_row r a Hr).
    destruct (row_fields r a Hr) as (-> & Hi & _). unfold blob_le. rewrite bytes_cmp_to_be by (done || unfold in_u; lia). done. }
  assert (rows ≡ₚ filter C (tickets (tickets_db m))) as Hp by (unfold rows, find_where; by rewrite (merge_sort_Permutation index_ascending), scan_permutation).
  destruct (Forall2_permuted _ _ _ _ HC Hp) as (l1 & Hrows1 & Hp1). exists l1. split; [done|]. split.
  { rewrite Hp. by apply total_filter_le; [apply (wf_amounts _ Hst)|]. }
  split; [rewrite Hp; by apply Forall_filter, (wf_amounts _ Hst)|]. split.
  - apply strictly_sorted; [by eapply ascending_rows; [|apply (Sorted_merge_sort index_ascending)]|].
    rewrite Hp1. apply (indices_NoDup (get_id e) (channel_epoch e) P l m); [|done]. by intros a [[? _]%andb_prop _]%andb_prop.
  - intros a Ha. rewrite Hp1 in Ha. apply list_elem_of_filter in Ha as [HP Ha]. apply Is_true_true in HP. unfold P in HP.
    rewrite !andb_true_iff, Z.leb_le, negb_true_iff in HP. tauto.
Qed.

Lemma without_covered_sublist ts : without_covered ts `sublist_of` ts.
Proof using Type. destruct ts as [|t ts]; [done|]. cbn. apply sublist_skip, sublist_filter_bool. Qed.

(** A given ticket is chosen in the table, and no other. *)
Lemma chosen_by_chosen e l m ts chosen :
  holds l m → Forall2 transfers ts chosen →
  (∀ a, a ∈ chosen → a ∈ l ∧ in_epoch (get_id e) (channel_epoch e) a = true ∧ is_aggregating a = false) →
  ∀ a, a ∈ l → chosen_by e ts a = true ↔ a ∈ chosen.
Proof.
  intros Hh Hts Hch a Ha. unfold chosen_by. rewrite !andb_true_iff, negb_true_iff. split.
  - intros [[Hep Hex] _]. apply List.existsb_exists in Hex as (t & Ht & Hi). apply Z.eqb_eq in Hi.
    apply list_elem_of_In, list_elem_of_lookup in Ht as [j Ht]. destruct (Forall2_lookup_l _ _ _ _ _ Hts Ht) as (b & Hb & Heq & _).
    apply list_elem_of_lookup_2 in Hb. destruct (Hch b Hb) as (Hbl & Hbe & _).
    assert (a = b) as ->; [|done]. unfold in_epoch in Hep, Hbe. rewrite andb_true_iff, bool_decide_eq_true, Z.eqb_eq in Hep, Hbe.
    destruct Hep, Hbe. apply (holds_unique _ _ _ _ Hh Ha Hbl); [congruence|congruence|by rewrite Hi, Heq].
  - intros Hin. destruct (Hch a Hin) as (_ & -> & ->). split; [|done]. split; [done|].
    apply list_elem_of_lookup in Hin as [j Hj]. destruct (Forall2_lookup_r _ _ _ _ _ Hts Hj) as (t & Ht & Heq & _).
    apply List.existsb_exists. exists t. split; [by eapply list_elem_of_In, list_elem_of_lookup_2|]. rewrite Heq. apply Z.eqb_refl.
Qed.

(** The write transaction: either nothing happens, or what is given is marked. *)
Lemma choose_tickets_Ok pre e key ds min_win_prob randoms l m m' ts :
  holds l m → entry_wf e → perform (choose_tickets pre e key ds min_win_prob randoms) m = (m', Ok ts) →
  (ts = [] ∧ m' = m) ∨
  (∃ chosen, prepared e l ts chosen ∧ holds (mark_if (chosen_by e ts) BeingAggregated <$> l) m' ∧
    statistics (tickets_db m') = statistics (tickets_db m) ∧ outgoing_indices (tickets_db m') = outgoing_indices (tickets_db m) ∧
    index_cache m' = index_cache m ∧ incoming m' = incoming m).
Proof.
  intros Hh He Hrun. unfold perform in Hrun. destruct (choose_tickets pre e key ds min_win_prob randoms (tickets_db m)) as [d [ts'|err|]] eqn:Htx; [|done..].
  injection Hrun as <- ->. unfold choose_tickets in Htx. autorewrite with run in Htx.
  destruct (find_rows (with_state BeingAggregated (selector_of_channel e)) l m (aggregating_typed e He) Hh) as (l0 & Hrows0 & Hp0).
  destruct (find_where (into_condition (with_state BeingAggregated (selector_of_channel e))) (tickets_db m)); [|done].
  apply Forall2_nil_inv_l in Hrows0 as ->. symmetry in Hp0. apply Permutation_nil_r in Hp0.
  rewrite (filter_ext_in _ (aggregating (get_id e) (channel_epoch e))) in Hp0 by (intros; apply selects_aggregating).
  step_Ok Htx next_idx Hnext. pure_Ok Hnext. destruct (redeemed_before e l m next_idx He Hh Hnext) as [Hnb Hnone].
  step_Ok Htx ch_idx Hidx. pure_Ok Hidx. cbv zeta in Htx.
  assert (ch_idx = ticket_index e ∧ in_u 64 ch_idx) as [-> Hciw].
  { pose proof (U256_as_Ok_inv _ _ _ Hidx) as ->. split; [done|]. unfold U256_as in Hidx. destruct (ew_index _ He) as [? _].
    destruct (Z.ltb_spec (ticket_index e) (2 ^ 64)); [by split|done]. }
  destruct (candidates_rows e l m (Z.max next_idx (ticket_index e)) He Hh ltac:(unfold in_u in *; lia))
    as (l1 & Hrows1 & Hmax1 & Hcw1 & Hs1 & Hc1).
  set (rows := merge_sort index_ascending _) in *.
  step_Ok Htx sat Hsat. pure_Ok Hsat. apply filter_satisfying_sublist in Hsat as [Hsub Hval].
  pose proof (sublist_take rows MAX_TICKETS_TO_AGGREGATE_BATCH) as Htake.
  assert (total sat ≤ amount (balance e)) as Hbal.
  { apply Hval; [|by eapply sublist_Forall|apply (ew_balance _ He)]. pose proof (sublist_total _ _ Htake Hcw1). lia. }
  assert (sat `sublist_of` rows) as Hsr by by etrans.
  destruct (Forall2_sublist_l _ _ _ _ Hrows1 Hsr) as (l2 & Hs2 & Hrows2).
  step_Ok Htx tb Htb. pure_Ok Htb. apply (transferable_all_Ok _ _ _ _ _ _ Hrows2) in Htb.
  destruct tb as [|t tb]; [left; injection Htx as <- <-; by destruct m|right].
  destruct (Forall2_sublist_l _ _ _ _ Htb (without_covered_sublist (t :: tb))) as (chosen & Hs3 & Hgiven).
  assert (without_covered (t :: tb) ≠ []) as Hne by done. set (wc := without_covered (t :: tb)) in *.
  assert (∀ a, a ∈ chosen → a ∈ l1) as Hin by (intros a Ha; eapply sublist_elem; [|exact Ha]; by etrans).
  assert (∀ r a, a ∈ l → row_of_acknowledged r a → is_chosen e wc r = chosen_by e wc a) as HC.
  { intros r a _ Hr. apply is_chosen_row; [done| |done]. apply Forall_lookup. intros j u Hu.
    destruct (Forall2_lookup_l _ _ _ _ _ Hgiven Hu) as (b & Hb & -> & _). apply list_elem_of_lookup_2, Hin, list_elem_of_lookup in Hb as [k Hb].
    destruct (Forall2_lookup_r _ _ _ _ _ Hrows1 Hb) as (rb & _ & (_ & Hi & _)%row_fields). unfold in_u. lia. }
  destruct (update_many_holds (is_chosen e wc) (chosen_by e wc) BeingAggregated l m Hh HC) as (d' & Hup & Hh' & Hst & Hout).
  rewrite (run_Ok _ _ _ _ _ Hup) in Htx. case_bool_decide as Hlen; [|done]. injection Htx as <- <-.
  exists chosen. split; [|done]. split.
  - done.
  - by do 2 (eapply StronglySorted_sublist; [eassumption|]).
  - rewrite <-(Forall2_length _ _ _ Hgiven). split; [by destruct wc; [|cbn; lia]|].
    assert (length wc ≤ length sat)%nat as Hle.
    { rewrite (Forall2_length _ _ _ Hgiven), (Forall2_length _ _ _ Hrows2). by apply sublist_length. }
    apply sublist_length in Hsub. rewrite length_take in Hsub. lia.
  - pose proof (values_sublist _ _ _ Hrows2 Hs3). rewrite <-(rows_total _ _ Hrows2) in *. lia.
  - intros a Ha. destruct (Hc1 a (Hin a Ha)) as (Hal & Hep & Hag & Hi). split_and!; [done|done| |lia].
    specialize (Hnone a Hal Hep ltac:(lia)). unfold is_aggregating in Hag. apply bool_decide_eq_false in Hag. by destruct (ack_status a).
  - done.
  - apply (chosen_by_chosen e l m); [done..|]. intros a Ha. by destruct (Hc1 a (Hin a Ha)) as (? & ? & ? & _).
Qed.

(** ** The preparation *)
Definition packet_key_row (a : Address) : SM IndexDb DbSqlError (option OffchainPublicKey) :=
  d ← get;
  match hd_error (scan (filter (λ m, bool_decide (am_chain_key m = to_hex a)) (accounts d))) with
  | Some m => k ← lift (map_err NonSpecificError (OffchainPublicKey_from_hex (am_packet_key m))); mret (Some k)
  | None => mret None
  end.

Lemma resolve_packet_key_reads a db db' o :
  resolve_packet_key a db = (db', o) → reads db db' ∧ src_dst_to_channel db' = src_dst_to_channel db ∧
    indexer_data_cache db' = indexer_data_cache db.
Proof.
  assert (still (packet_key_row a)) as Hstill.
  { unfold packet_key_row. apply still_bind; [done|intros d]. apply still_match; [intros m|done]. by apply still_bind. }
  unfold resolve_packet_key, translate_key. rewrite run_bind. unfold try_get_with, mbind, SM_bind.
  destruct (chain_to_offchain db !! a) as [[k|]|]; [by intros [= <- _]|by intros [= <- _]|].
  change (fetch_packet_key a db) with (index_tx (packet_key_row a) db). unfold index_tx.
  specialize (Hstill (index_db db)). destruct (packet_key_row a (index_db db)) as [d r]. cbn in Hstill |- *. subst d.
  destruct r as [[k|]|err|]; intros [= <- _]; by destruct db.
Qed.

Lemma incoming_channel_Ok v (id : Hash) db db' e :
  indexed v db → array_wf 32 id → incoming_channel id db = (db', Ok e) →
  db' = db ∧ e ∈ v.1 ∧ get_id e = id ∧ direction e (me_onchain db) = Some Incoming ∧ status e ≠ Closed.
Proof.
  intros [[Hwf _] _ _] Hid. unfold incoming_channel. autorewrite with run.
  rewrite (run_Ok _ _ _ _ _ (get_channel_by_id_ok v.1 id db Hwf Hid)). unfold entry_by_id.
  destruct (snd <$> list_find (λ e, get_id e = id) v.1) as [e'|] eqn:Hf; [|done].
  apply (find_iff get_id id v.1 e' (cw_channels _ _ Hwf)) in Hf as [Hin Hgid].
  destruct (ChannelStatus_eqb (status e') Closed) eqn:Hst; [done|].
  destruct (direction e' (me_onchain db)) as [[]|] eqn:Hd; [|done|done]. intros [= <- <-].
  split_and!; try done. intros Heq. by rewrite Heq in Hst.
Qed.

(** What a node shows to the issuer for aggregation is what it marks.  The
    tickets given are stored, untouched tickets of an incoming channel that is
    not closed, in the current epoch and not below its next index, in the order
    of their indices, at most 500 of them and together within the balance of
    the channel; before, no ticket of the channel was being aggregated, and
    afterwards exactly the given ones are, with nothing else changed. *)
Lemma prepare_marks_given (id : Hash) (pre : AggregationPrerequisites) (randoms : list bytes) (v : View) (db db' : HoprDb)
    (peer : OffchainPublicKey) (ts : list TransferableWinningTicket) (ds : Hash) :
  indexed v db → array_wf 32 id →
  prepare_aggregation_in_channel id pre randoms db = (db', Ok (Some (peer, ts, ds))) →
  ∃ e chosen data, e ∈ v.1 ∧ get_id e = id ∧ direction e (me_onchain db) = Some Incoming ∧ status e ≠ Closed ∧
    (resolve_packet_key (source e) db).2 = Ok (Some peer) ∧
    (get_indexer_data db').2 = Ok data ∧ channels_dst data = Some ds ∧
    prepared e v.2 ts chosen ∧
    indexed (v.1, mark_if (chosen_by e ts) BeingAggregated <$> v.2) db' ∧
    incoming (ticket_manager db') = incoming (ticket_manager db) ∧
    statistics (tickets_db (ticket_manager db')) = statistics (tickets_db (ticket_manager db)) ∧
    me_onchain db' = me_onchain db.
Proof.
  intros Hix Hid Hrun. unfold prepare_aggregation_in_channel in Hrun.
  step_Ok Hrun e He. destruct (incoming_channel_Ok v id db _ e Hix Hid He) as (-> & Hin & Hgid & Hdir & Hst).
  step_Ok Hrun mk Hmk. destruct (resolve_packet_key_reads _ _ _ _ Hmk) as (Hr1 & Hs1 & _). destruct mk as [peer'|]; [|done].
  pose proof (reads_indexed _ _ _ Hr1 Hs1 Hix) as Hix1.
  step_Ok Hrun p Hp. destruct p as [data ds']. destruct (channels_domain_separator_Ok _ _ _ _ Hp) as [Hdata Hds].
  destruct (get_indexer_data_indexed _ _ _ _ Hdata Hix1) as [Hix2 Hr2].
  autorewrite with run in Hrun. step_Ok Hrun ts' Hts. apply on_tickets_Ok in Hts as (m' & Hts & ->).
  destruct (choose_tickets_Ok _ _ _ _ _ _ _ _ _ _ (ix_tickets _ _ Hix2) (entries_wf _ _ _ (proj1 (ix_channels _ _ Hix)) Hin) Hts)
    as [[-> _]|(chosen & Hprep & Hh & Hstat & Hout & Hic & Hinc)]; [done|].
  destruct ts' as [|t ts']; [done|]. injection Hrun as <- <- <- <-. exists e, chosen, data.
  rewrite (rd_tickets _ _ Hr2), (rd_tickets _ _ Hr1) in *.
  split_and!; try done.
  - by rewrite Hmk.
  - unfold get_indexer_data, try_get_with. by rewrite (get_indexer_data_cached _ _ _ Hdata : indexer_data_cache (set_ticket_manager m' db1) = _).
  - apply (ticket_op_indexed v); [done|done|]. destruct (ix_indices _ _ Hix) as [Hr Hc]. by split; rewrite ?Hout, ?Hic.
  - cbn. by rewrite (rd_me _ _ Hr2), (rd_me _ _ Hr1).
Qed.

(** ** The round between two nodes *)
Lemma aggregating_with_status c epoch a : aggregating c epoch (with_status BeingAggregated a) = in_epoch c epoch a.
Proof using Type. unfold aggregating, in_epoch, ticket_of. cbn. by rewrite andb_true_r. Qed.

(** After marking, those being aggregated are the marked ones. *)
Lemma marked_filter c epoch (cb : AcknowledgedTicket → bool) l :
  filter (aggregating c epoch) l = [] → (∀ a, cb a = true → in_epoch c epoch a = true) →
  filter (aggregating c epoch) (mark_if cb BeingAggregated <$> l) = with_status BeingAggregated <$> filter cb l ∧
  filter (λ a, negb (aggregating c epoch a)) (mark_if cb BeingAggregated <$> l) = filter (λ a, negb (cb a)) l.
Proof using Type.
  intros Hnil Hcb. induction l as [|a l IH]; [done|]. rewrite filter_cons_bool in Hnil.
  destruct (aggregating c epoch a) eqn:Ha; [done|]. destruct (IH Hnil) as [IH1 IH2].
  rewrite fmap_cons, !filter_cons_bool.
  assert (mark_if cb BeingAggregated a = if cb a then with_status BeingAggregated a else a) as -> by done.
  destruct (cb a) eqn:Hc; cbn [negb].
  - rewrite aggregating_with_status, (Hcb a Hc). cbn [negb fmap list_fmap]. by rewrite IH1, IH2.
  - rewrite Ha. cbn [negb]. by rewrite IH1, IH2.
Qed.

Lemma values_with_status st l : values (with_status st <$> l) = values l.
Proof using Type. induction l as [|a l IH]; [done|]. change (value_of a + values (with_status st <$> l) = value_of a + values l). by rewrite IH. Qed.

Lemma values_sum l : values l = sum_of (ticket_of <$> l).
Proof using Type. induction l as [|a l IH]; [done|]. change (value_of a + values l = value_of a + sum_of (ticket_of <$> l)). by rewrite IH. Qed.

#[export] Instance sum_of_proper : Proper ((≡ₚ) ==> (=)) sum_of.
Proof using Type. intros l l' Hl. unfold sum_of. induction Hl; cbn in *; lia. Qed.

Lemma before_NoDup l : Forall Ticket_built l → StronglySorted before l → NoDup l.
Proof using Type.
  intros Hl Hs. induction Hs as [|t l Hs IH Hf]; [constructor|]. apply Forall_cons in Hl as [(_ & _ & _ & Ho) Hl].
  constructor; [|by apply IH]. intros Hin. rewrite Forall_forall in Hf. specialize (Hf t Hin). unfold before, range_end in Hf. lia.
Qed.

Lemma ordered_NoDup l : StronglySorted (λ a b, t_index (ticket_of a) < t_index (ticket_of b)) l → NoDup (ticket_of <$> l).
Proof using Type.
  induction 1 as [|a l _ IH Hf]; [constructor|]. rewrite fmap_cons. constructor; [|done].
  intros (b & Heq & Hb)%list_elem_of_fmap. rewrite Forall_forall in Hf. specialize (Hf b Hb). rewrite Heq in Hf. lia.
Qed.

Lemma given_tickets ts chosen : Forall2 transfers ts chosen → tw_ticket <$> ts = ticket_of <$> chosen.
Proof using Type. induction 1 as [|t a ts chosen (Ht & _) _ IH]; [done|]. by rewrite !fmap_cons, Ht, IH. Qed.

Lemma head_index k t :
  Forall (λ t, Ticket_built t ∧ in_u 32 (t_index_offset t)) k → StronglySorted before k → head k = Some t →
  ∀ t', t' ∈ k → t_index t ≤ t_index t'.
Proof using Type.
  intros Hk Hs Hhd t' Hin. destruct Hs as [|u k _ Hf]; [done|]. injection Hhd as ->.
  apply elem_of_cons in Hin as [->|Hin]; [lia|]. apply Forall_cons in Hk as [((_ & _ & _ & Ho) & _) _].
  rewrite Forall_forall in Hf. specialize (Hf t' Hin). unfold before, range_end in Hf. lia.
Qed.

Section Round.
Context (e : ChannelEntry) (l : list AcknowledgedTicket) (ts : list TransferableWinningTicket) (chosen : list AcknowledgedTicket).
Context (Hprep : prepared e l ts chosen).

Lemma prepared_filter :
  filter (aggregating (get_id e) (channel_epoch e)) (mark_if (chosen_by e ts) BeingAggregated <$> l) =
    with_status BeingAggregated <$> filter (chosen_by e ts) l ∧
  filter (λ a, negb (aggregating (get_id e) (channel_epoch e) a)) (mark_if (chosen_by e ts) BeingAggregated <$> l) =
    filter (λ a, negb (chosen_by e ts a)) l.
Proof.
  apply marked_filter; [apply (pr_alone _ _ _ _ Hprep)|]. by intros a [[? _]%andb_prop _]%andb_prop.
Qed.

Lemma prepared_values :
  values (filter (aggregating (get_id e) (channel_epoch e)) (mark_if (chosen_by e ts) BeingAggregated <$> l)) = values (filter (chosen_by e ts) l).
Proof. by rewrite (proj1 prepared_filter), values_with_status. Qed.

Lemma chosen_filter m : holds l m → filter (chosen_by e ts) l ≡ₚ chosen.
Proof.
  intros Hh. apply NoDup_Permutation.
  - apply NoDup_filter, (holds_NoDup _ _ Hh).
  - eapply NoDup_fmap_1, ordered_NoDup, (pr_sorted _ _ _ _ Hprep).
  - intros a. rewrite list_elem_of_filter. split.
    + intros [Ha Hin]. by apply (pr_marked _ _ _ _ Hprep a Hin), Is_true_true.
    + intros Ha. destruct (pr_available _ _ _ _ Hprep a Ha) as (Hin & _). split; [|done].
      by apply Is_true_true, (pr_marked _ _ _ _ Hprep a Hin).
Qed.

Context (own : Address) (e' : ChannelEntry) (data : IndexerData) (ds : Hash) (paid : list Ticket) (vt : VerifiedTicket).
Context (Hagg : aggregates own e' data ds ts paid vt).
Context (Hbuilt : Forall (λ a, Ticket_built (ticket_of a) ∧ in_u 32 (t_index_offset (ticket_of a))) chosen).

Lemma paid_chosen : paid ≡ₚ ticket_of <$> chosen.
Proof.
  apply NoDup_Permutation.
  - apply before_NoDup; [|apply (ag_disjoint _ _ _ _ _ _ _ Hagg)]. apply Forall_forall. intros t Ht.
    apply (ag_paid _ _ _ _ _ _ _ Hagg) in Ht. rewrite (given_tickets _ _ (pr_given _ _ _ _ Hprep)) in Ht.
    apply list_elem_of_fmap in Ht as (a & -> & Ha). rewrite Forall_forall in Hbuilt. by apply Hbuilt.
  - apply ordered_NoDup, (pr_sorted _ _ _ _ Hprep).
  - intros t. rewrite (ag_paid _ _ _ _ _ _ _ Hagg). by rewrite (given_tickets _ _ (pr_given _ _ _ _ Hprep)).
Qed.

Lemma aggregate_worth : amount (t_amount (verified_ticket vt)) = values chosen.
Proof. destruct (ag_value _ _ _ _ _ _ _ Hagg) as [-> _]. by rewrite paid_chosen, values_sum. Qed.

Lemma paid_built t : t ∈ paid → Ticket_built t ∧ in_u 32 (t_index_offset t).
Proof.
  rewrite paid_chosen. intros (a & -> & Ha)%list_elem_of_fmap. rewrite Forall_forall in Hbuilt. by apply Hbuilt.
Qed.

Lemma paid_channel t : t ∈ paid → t_channel_id t = get_id e ∧ t_channel_epoch t = channel_epoch e.
Proof.
  rewrite paid_chosen. intros (a & -> & Ha)%list_elem_of_fmap.
  destruct (pr_available _ _ _ _ Hprep a Ha) as (_ & Hep & _). unfold in_epoch in Hep.
  by rewrite andb_true_iff, bool_decide_eq_true, Z.eqb_eq in Hep.
Qed.

(** Those being aggregated are the paid ones. *)
Lemma aggregating_paid a :
  a ∈ filter (aggregating (get_id e) (channel_epoch e)) (mark_if (chosen_by e ts) BeingAggregated <$> l) →
  ticket_of a ∈ paid.
Proof.
  rewrite (proj1 prepared_filter), paid_chosen. intros (b & -> & [Hb Hin]%list_elem_of_filter)%list_elem_of_fmap.
  apply list_elem_of_fmap. exists b. split; [done|]. by apply (pr_marked _ _ _ _ Hprep b Hin), Is_true_true.
Qed.

Lemma paid_aggregating t :
  t ∈ paid → ∃ a, a ∈ filter (aggregating (get_id e) (channel_epoch e)) (mark_if (chosen_by e ts) BeingAggregated <$> l) ∧ ticket_of a = t.
Proof.
  rewrite (proj1 prepared_filter), paid_chosen. intros (b & -> & Hb)%list_elem_of_fmap.
  exists (with_status BeingAggregated b). split; [|done]. apply list_elem_of_fmap. exists b. split; [done|].
  destruct (pr_available _ _ _ _ Hprep b Hb) as (Hin & _). apply list_elem_of_filter. split; [|done].
  by apply Is_true_true, (pr_marked _ _ _ _ Hprep b Hin).
Qed.

Context (Hspan : ∀ a b, a ∈ chosen → b ∈ chosen → t_index (ticket_of a) - t_index (ticket_of b) < 2 ^ 31 - 1).

(** The aggregate takes the place of the prepared tickets. *)
Lemma aggregate_of_prepared :
  Ticket_typed (verified_ticket vt) → replaces e (mark_if (chosen_by e ts) BeingAggregated <$> l) (verified_ticket vt) ∧
  ∃ first_ticket, first_ticket ∈ paid ∧ t_index first_ticket = t_index (verified_ticket vt) ∧
    t_challenge first_ticket = t_challenge (verified_ticket vt).
Proof.
  intros Hty. destruct (ag_ticket _ _ _ _ _ _ _ Hagg) as (fst_t & lst_t & Hf & Hl & Heq).
  assert (fst_t ∈ paid) as Hfin by (destruct paid; [done|injection Hf as ->; by left]).
  pose proof (last_Some_elem_of _ _ Hl) as Hlin.
  destruct (paid_channel _ Hfin) as [Hc He]. pose proof (ag_fit _ _ _ _ _ _ _ Hagg) as Hfit.
  rewrite Forall_forall in Hfit. destruct (Hfit _ Hfin) as (Hc' & He' & _).
  unfold TicketBuilder_from in Heq. injection Heq as Hid Hi Hoff Hep Hw Hch.
  assert (t_index lst_t - t_index fst_t < 2 ^ 31 - 1) as Hsp.
  { assert (∀ t, t ∈ paid → ∃ a, t = ticket_of a ∧ a ∈ chosen) as Hof
      by (intros t Ht; rewrite paid_chosen in Ht; by apply list_elem_of_fmap in Ht).
    destruct (Hof _ Hfin) as (a & -> & Ha), (Hof _ Hlin) as (b & -> & Hb). by apply Hspan. }
  assert (Forall (λ t, Ticket_built t ∧ in_u 32 (t_index_offset t)) paid) as Hall by (apply Forall_forall, paid_built).
  pose proof (ag_disjoint _ _ _ _ _ _ _ Hagg) as Hs.
  pose proof (head_index _ _ Hall Hs Hf _ Hlin) as Hle. rewrite wrap_small in Hoff by (unfold in_u; lia).
  split; [|by exists fst_t]. split.
  - split; congruence.
  - split_and!; [done|apply (ag_built _ _ _ _ _ _ _ Hagg)|lia].
  - done.
  - intros a Ha Hag. assert (ticket_of a ∈ paid) as Hp
      by (apply aggregating_paid, list_elem_of_filter; split; [by rewrite Hag|done]).
    pose proof (head_index _ _ Hall Hs Hf _ Hp). pose proof (last_index _ _ Hall Hs Hl _ Hp). unfold range_end. lia.
  - destruct (paid_aggregating fst_t Hfin) as (a & [Hag Ha]%list_elem_of_filter & Ht). exists a.
    split; [done|]. split; [by apply Is_true_true|congruence].
Qed.

(** The first row answers the aggregate when it has the lowest index. *)
Lemma paid_index t t' : t ∈ paid → t' ∈ paid → t_index t = t_index t' → t = t'.
Proof.
  rewrite paid_chosen. intros (a & -> & Ha)%list_elem_of_fmap (b & -> & Hb)%list_elem_of_fmap Hi.
  pose proof (pr_sorted _ _ _ _ Hprep) as Hs. clear -Hs Ha Hb Hi. induction Hs as [|c k _ IH Hf]; [by apply not_elem_of_nil in Ha|].
  rewrite Forall_forall in Hf. apply elem_of_cons in Ha as [->|Ha], Hb as [->|Hb]; [done| | |by apply IH].
  - specialize (Hf b Hb). lia.
  - specialize (Hf a Ha). lia.
Qed.

End Round.

Lemma row_decodes r a b : row_of_acknowledged r a → row_of_acknowledged r b → a = b.
Proof.
  intros Ha Hb. pose proof (mapM_rows [r] [a] ltac:(by constructor)) as H1'. pose proof (mapM_rows [r] [b] ltac:(by constructor)) as H2'.
  rewrite H1' in H2'. by injection H2'.
Qed.

Lemma aggregating_head e l m r rows a :
  entry_wf e → holds l m → aggregating_rows e m = r :: rows → row_of_acknowledged r a →
  a ∈ filter (aggregating (get_id e) (channel_epoch e)) l.
Proof.
  intros He Hh Hr Hra.
  destruct (find_rows (with_state BeingAggregated (selector_of_channel e)) l m (aggregating_typed e He) Hh) as (l' & Hrows & Hp).
  fold (aggregating_rows e m) in Hrows. rewrite Hr in Hrows. apply Forall2_cons_inv_l in Hrows as (b & k & Hb & _ & ->).
  rewrite (row_decodes r a b Hra Hb). rewrite <-(filter_ext_in _ _ l (λ a _, selects_aggregating e a)), <-Hp. by left.
Qed.

Lemma no_profit_room e l t m :
  holds l m → replaces e l t → values (filter (aggregating (get_id e) (channel_epoch e)) l) = amount (t_amount t) → room_for t l m.
Proof.
  intros [_ _ Ht Hb] Hrep Hv. unfold room_for.
  rewrite (filter_ext_in _ _ l (λ a, replaces_covered e l t a Hrep)), Hv. split; [lia|]. intros mark.
  specialize (Hb mark (to_hex (t_channel_id t))). lia.
Qed.

Lemma chosen_built l m chosen : holds l m → (∀ a, a ∈ chosen → a ∈ l) →
  Forall (λ a, Ticket_typed (ticket_of a) ∧ Ticket_built (ticket_of a)) chosen.
Proof.
  intros [_ Hrows _ _] Hin. apply Forall_forall. intros a Ha. apply Hin, list_elem_of_lookup in Ha as [i Ha].
  destruct (Forall2_lookup_r _ _ _ _ _ Hrows Ha) as (r & _ & ([ds (_ & Hty & Hb & _)] & _)). done.
Qed.

(** C4. Aggregation between two nodes keeps the value of a channel.  When a
    node has prepared its tickets for the issuer, the issuer has aggregated
    what it was given, and the node has received the result and its background
    task has had a turn, then exactly the prepared tickets have left its table
    and one ticket has joined, which is worth exactly as much, always wins and
    is signed by the issuer; no account and no other ticket has changed.  This
    needs indices that span less than 31 bits, and a query that returns the
    row with the lowest index first. *)
Theorem aggregation_round (id : Hash) (pre : AggregationPrerequisites) (randoms : list bytes) (v : View) (db db1 : HoprDb)
    (peer dest : OffchainPublicKey) (ts : list TransferableWinningTicket) (ds : Hash) (kp issuer : ChainKeypair) (k : Z)
    (v' : View) (dbi dbi' : HoprDb) (vt : VerifiedTicket) :
  indexed v db → array_wf 32 id → PublicKey_to_address (ck_public kp) = me_onchain db → incoming (ticket_manager db) = Some [] →
  prepare_aggregation_in_channel id pre randoms db = (db1, Ok (Some (peer, ts, ds))) → (1 < length ts)%nat →
  (∀ t t', t ∈ tw_ticket <$> ts → t' ∈ tw_ticket <$> ts → t_index t - t_index t' < 2 ^ 31 - 1) →
  indexed v' dbi → ChainKeypair_wf issuer k → array_wf 20 (me_onchain dbi) →
  (∀ a, (resolve_chain_key dest dbi).2 = Ok (Some a) → array_wf 20 a) →
  (∀ data, (get_indexer_data dbi).2 = Ok data → channels_dst data = Some ds) →
  (∀ e, e ∈ v.1 → get_id e = id → source e = me_onchain dbi) →
  aggregate_tickets dest ts issuer dbi = (dbi', Ok vt) → Ticket_typed (verified_ticket vt) →
  (∀ e r rows a, e ∈ v.1 → get_id e = id → aggregating_rows e (ticket_manager db1) = r :: rows → row_of_acknowledged r a →
    ∀ t, t ∈ tw_ticket <$> ts → t_index (ticket_of a) ≤ t_index t) →
  ∃ e chosen db2 ag m3, e ∈ v.1 ∧ get_id e = id ∧ prepared e v.2 ts chosen ∧
    process_received_aggregated_ticket (verified_ticket vt) kp db1 = (db2, Ok ag) ∧ process_next (ticket_manager db2) = Ok m3 ∧
    Tickets.ack_ticket ag = vt ∧ t_encoded_win_prob (ticket_of ag) = ALWAYS ∧ verified_issuer vt = source e ∧
    value_of ag = values (filter (chosen_by e ts) v.2) ∧
    indexed (v.1, filter (λ a, negb (chosen_by e ts a)) v.2 ++ [ag]) (set_ticket_manager m3 db2) ∧
    statistics (tickets_db m3) = statistics (tickets_db (ticket_manager db)).
Proof.
  intros Hix Hid Hme Hq Hprun Hlen Hspan Hixi Hkp Hmw Haddr Hdi Hsrc Harun Hty Hscan.
  destruct (prepare_marks_given _ _ _ _ _ _ _ _ _ Hix Hid Hprun)
    as (e & chosen & data & Hin & Hgid & Hdir & Hst & _ & Hd & Hds & Hprep & Hix1 & Hq1 & Hstat1 & Hme1).
  pose proof (chosen_built _ _ chosen (ix_tickets _ _ Hix) (λ a Ha, proj1 (pr_available _ _ _ _ Hprep a Ha))) as Hbuilt.
  pose proof (given_tickets _ _ (pr_given _ _ _ _ Hprep)) as Hgiven.
  assert (Forall (λ a, Ticket_built (ticket_of a) ∧ in_u 32 (t_index_offset (ticket_of a))) chosen) as Hb
    by (eapply Forall_impl; [exact Hbuilt|]; by intros a [(_ & _ & _ & ? & _) ?]).
  assert (Forall (λ t, Ticket_typed (tw_ticket t) ∧ Ticket_built (tw_ticket t)) ts) as Hts.
  { apply Forall_forall. intros t Ht. assert (tw_ticket t ∈ tw_ticket <$> ts) as Hin' by (apply list_elem_of_fmap; by exists t).
    rewrite Hgiven in Hin'. apply list_elem_of_fmap in Hin' as (a & -> & Ha). rewrite Forall_forall in Hbuilt. by apply Hbuilt. }
  destruct (aggregate_tickets_Ok _ _ _ _ _ _ _ _ Hixi Hkp Hmw Haddr Hts Hlen Harun)
    as (datai & ds' & e' & paid & Hdata & Hds' & _ & _ & _ & _ & Hagg & _).
  assert (ds' = ds) as -> by (specialize (Hdi _ Hdata); congruence).
  assert (∀ a b, a ∈ chosen → b ∈ chosen → t_index (ticket_of a) - t_index (ticket_of b) < 2 ^ 31 - 1) as Hsp
    by (intros a b Ha Hb'; apply Hspan; rewrite Hgiven; apply list_elem_of_fmap; by eexists).
  destruct (aggregate_of_prepared e v.2 ts chosen Hprep _ e' datai ds paid vt Hagg Hb Hsp Hty) as (Hrep & first_t & Hfin & Hfi & Hfc).
  pose proof (aggregate_worth e v.2 ts chosen Hprep _ e' datai ds paid vt Hagg Hb) as Hworth.
  pose proof (chosen_filter e v.2 ts chosen Hprep _ (ix_tickets _ _ Hix)) as Hperm.
  pose proof (prepared_values e v.2 ts chosen Hprep) as Hvals. rewrite Hperm in Hvals.
  destruct (ag_signed _ _ _ _ _ _ _ Hagg) as [Hwf Hiss]. pose proof (Hsrc e Hin Hgid) as Hse.
  destruct (receive_Ok kp (v.1, mark_if (chosen_by e ts) BeingAggregated <$> v.2) e data ds (verified_ticket vt) vt db1)
    as (db2 & a & m3 & Hrecv & _ & Hnext & Hix3 & _ & _ & Hst3); rewrite ?Hme1; try done.
  - apply verify_Ok_iff. split; [|done]. rewrite <-(proj1 Hwf), Hse, <-Hiss. by destruct vt.
  - eapply no_profit_room; [apply (ix_tickets _ _ Hix1)|exact Hrep|]. by rewrite Hworth.
  - intros r rows b Hr Hrb. pose proof (Hscan e r rows b Hin Hgid Hr Hrb first_t (proj1 (ag_paid _ _ _ _ _ _ _ Hagg _) Hfin)) as Hle.
    pose proof (aggregating_head e _ _ r rows b (entries_wf _ _ _ (proj1 (ix_channels _ _ Hix)) Hin) (ix_tickets _ _ Hix1) Hr Hrb) as Hb'.
    cbn [snd] in Hb'. pose proof (aggregating_paid e v.2 ts chosen Hprep _ e' datai ds paid vt Hagg Hb b Hb') as Hbp.
    apply list_elem_of_filter in Hb' as [Hag Hbl]. apply Is_true_true in Hag. pose proof (rp_covers _ _ _ Hrep b Hbl Hag) as [Hge _].
    rewrite <-Hfc. f_equal. apply (paid_index e v.2 ts chosen Hprep _ e' datai ds paid vt Hagg Hb); try done; try lia.
  - by rewrite Hq1.
  - cbn [snd]. rewrite Hvals, Hworth. done.
  - exists e, chosen, db2, (into_acknowledged vt (ack_response a)), m3. split_and!; try done.
    + apply (rp_always _ _ _ Hrep).
    + congruence.
    + rewrite Hperm. exact Hworth.
    + cbn [fst snd] in Hix3. by rewrite (proj2 (prepared_filter e v.2 ts chosen Hprep)) in Hix3.
    + by rewrite Hst3.
Qed.
End Prepare.
