(* ===== verification/AggregationRuns.v ===== *)
(** * Concrete runs of ticket aggregation

    Two nodes with a channel between them: one holds two winning tickets of
    the other, and the theorems of aggregation are applied to them. *)
From Stdlib Require Import Floats.SpecFloat Sorting.Sorted.
From stdpp Require Import gmap strings.
From S2P Require Import Prelude Primitives Crypto Channels Tickets WinProb SharedKeys Sphinx MetaPacket Por Packet PacketSpec.
From S2P Require Import TicketStore TicketStoreSpec TicketIndexSpec TicketStoreRuns TicketTable NodeDb NodeDbSpec.
From S2P Require Import Protocol ProtocolSpec NodeProtocol NodeProtocolSpec NodeRuns Indexer IndexerSpec IndexerFacts IndexerRuns.
From S2P Require Import Aggregation AggregationSpec PrepareSpec.

#[local] Existing Instances Z3_curve Z3_curve_laws toy_kdf toy_curve toy_curve_laws.
#[local] Existing Instances plain_hex plain_hex_laws table_order table_order_laws.
#[local] Existing Instances plain_addresses exact_floats toy_ed25519 toy_ed25519_laws.

(** ** Tables of tickets *)
Definition row_num (id : Z) (a : AcknowledgedTicket) : TicketModel :=
  match ActiveModel_from (E:=DbSqlError) id a with
  | Ok r => r
  | _ => mkTicketModel 0 "" [] [] 0 [] [] [] [] 0 []
  end.

Lemma row_num_ok ds id a :
  storable ds a → t_index_offset (ticket_of a) < 2 ^ 31 →
  row_of_acknowledged (row_num id a) a ∧ m_id (row_num id a) = id ∧ column_wf (m_amount (row_num id a)).
Proof.
  intros Hs Ho. destruct (row_roundtrip ds id a Hs) as (r & Hr & _). unfold row_num. rewrite Hr.
  assert (m_id r = id ∧ column_wf (m_amount r)) as [Hid Hc].
  { unfold ActiveModel_from in Hr. apply bind_Ok in Hr as (sig & _ & [= <-]). split; [done|].
    cbn. unfold U256_to_be_bytes. split; [apply to_be_wf|by rewrite length_to_be]. }
  split; [|done]. split; [by exists ds|]. split; [done|]. by rewrite Hid.
Qed.

Definition manager_of_two (a b : AcknowledgedTicket) : TicketManager :=
  mkTicketManager (mkTicketsDb [row_num 1 a; row_num 2 b] 3 ∅ ∅) ∅ ∅ (Some []) [].

Lemma holds_two ds a b :
  storable ds a → storable ds b → t_index_offset (ticket_of a) < 2 ^ 31 → t_index_offset (ticket_of b) < 2 ^ 31 →
  row_key (row_num 1 a) ≠ row_key (row_num 2 b) → value_of a + value_of b ≤ U256_max →
  holds [a; b] (manager_of_two a b).
Proof.
  intros Ha Hb Hoa Hob Hk Hv. destruct (row_num_ok ds 1 a Ha Hoa) as (Hra & Hia & Hca).
  destruct (row_num_ok ds 2 b Hb Hob) as (Hrb & Hib & Hcb). set (rows := [row_num 1 a; row_num 2 b]).
  assert (Forall2 row_of_acknowledged rows [a; b]) as Hrows by (constructor; [exact Hra|constructor; [exact Hrb|constructor]]).
  assert (Forall (λ r, column_wf (m_amount r)) rows) as Hcol by (constructor; [exact Hca|constructor; [exact Hcb|constructor]]).
  assert (total rows = value_of a + value_of b) as Ht by (rewrite (rows_total _ _ Hrows); cbn; lia).
  split; cbn [tickets tickets_db manager_of_two]; fold rows.
  - split; cbn [tickets statistics next_id]; [done|apply map_Forall_empty| | |].
    + unfold rows. cbn [fmap list_fmap]. rewrite Hia, Hib. apply (bool_decide_unpack _). vm_cast_no_check I.
    + unfold rows. repeat (apply Forall_cons; split; [lia|]). apply Forall_nil. exact I.
    + unfold rows. cbn [fmap list_fmap]. apply NoDup_cons. split; [by rewrite list_elem_of_singleton|apply NoDup_singleton].
  - done.
  - lia.
  - intros mark c. unfold marked, channel_total. cbn [statistics]. rewrite lookup_empty.
    pose proof (total_filter_le (in_channel c) rows Hcol ltac:(lia)). lia.
Qed.

(** ** The tickets *)
Definition win_builder (i : Z) : TicketBuilder :=
  set_challenge (hop_challenge 1 1) (set_amount 100 (set_index i (set_direction toy_previous toy_me TicketBuilder_default))).
Definition win_ticket (i : Z) : AcknowledgedTicket :=
  match build_signed (win_builder i) (toy_key 1) toy_ds with
  | Ok vt => mkAcknowledged Untouched vt (ack_response redeeming_ticket)
  | _ => toy_acknowledged
  end.

Lemma win_storable i : is_ok (build_signed (win_builder i) (toy_key 1) toy_ds) = true → storable_check (win_ticket i) = true →
  storable toy_ds (win_ticket i).
Proof.
  intros Ho Hc. apply storable_by; [|done]. unfold win_ticket.
  destruct (build_signed (win_builder i) (toy_key 1) toy_ds) as [vt| |] eqn:Hb; [|discriminate Ho..].
  by destruct (build_signed_Ok _ _ 1 _ _ (toy_key_wf 1 ltac:(lia)) Hb) as (_ & _ & _ & _ & Hwf & _).
Qed.

Definition holder_db : HoprDb := set_ticket_manager (manager_of_two (win_ticket 5) (win_ticket 7)) relay_db.
Definition toy_view : View := ([toy_incoming; toy_outgoing_channel], [win_ticket 5; win_ticket 7]).

Lemma holder_indexed : indexed toy_view holder_db.
Proof.
  split.
  - apply db_ok_tickets, relay_db_ok.
  - apply (holds_two toy_ds); [apply win_storable; by_eval|apply win_storable; by_eval|by_check|by_check| |by_check].
    refine (bool_decide_eq_false_1 _ _). by_eval.
  - split; cbn [outgoing_indices tickets_db ticket_manager manager_of_two index_cache holder_db set_ticket_manager].
    + intros k b. by rewrite lookup_empty.
    + intros c i. by rewrite lookup_empty.
Qed.

Definition issuer_db : HoprDb :=
  mkHoprDb (set_accounts [mkAccountModel 1 (to_hex toy_me) (to_hex (opk_compressed (ok_public (toy_node 2)))) 0] (index_db relay_db))
    empty_manager None None ∅ ∅ ∅ ∅ ∅ ∅ ∅ ∅ (toy_key 1) toy_previous.

Lemma issuer_indexed : indexed ([toy_incoming; toy_outgoing_channel], []) issuer_db.
Proof.
  split.
  - destruct relay_db_ok as [[Hr Hi Hf Hc Hp] _]. split; [by split|]. intros s d v _ _ Hl.
    exfalso. revert Hl. unfold issuer_db. cbn [src_dst_to_channel]. rewrite lookup_empty. discriminate.
  - apply toy_indexed.
  - exact empty_index_wf.
Qed.

Definition no_prerequisites : AggregationPrerequisites := mkPrerequisites None None.
Definition preparation := prepare_aggregation_in_channel (get_id toy_incoming) no_prerequisites [[3]; [4]] holder_db.
Definition given : list TransferableWinningTicket :=
  match preparation.2 with Ok (Some (_, ts, _)) => ts | _ => [] end.

Definition aggregation := aggregate_tickets (ok_public (toy_node 2)) given (toy_key 1) issuer_db.
Definition aggregate : VerifiedTicket := match aggregation.2 with Ok vt => vt | _ => toy_verified end.

Lemma preparation_run : ∃ peer, preparation = (preparation.1, Ok (Some (peer, given, toy_ds))).
Proof.
  assert (match preparation.2 with Ok (Some (_, _, ds)) => bool_decide (ds = toy_ds) | _ => false end = true) as Ho by by_eval.
  unfold given. destruct preparation as [db [[[[peer ts] ds]|]|err|]]; cbn [fst snd] in Ho |- *; [|discriminate Ho..].
  apply bool_decide_eq_true in Ho. exists peer. rewrite Ho. reflexivity.
Qed.

Lemma aggregation_run : aggregation = (aggregation.1, Ok aggregate).
Proof.
  assert (is_ok aggregation.2 = true) as Ho by by_eval. unfold aggregate.
  destruct aggregation as [db [vt|err|]]; [reflexivity|discriminate Ho..].
Qed.

Lemma given_typed : Forall (λ t, Ticket_typed (tw_ticket t) ∧ Ticket_built (tw_ticket t)) given.
Proof. apply (bool_decide_unpack _). vm_cast_no_check I. Qed.

Lemma addresses_typed a : (resolve_chain_key (ok_public (toy_node 2)) issuer_db).2 = Ok (Some a) → array_wf 20 a.
Proof.
  assert (match (resolve_chain_key (ok_public (toy_node 2)) issuer_db).2 with
    | Ok (Some a) => bool_decide (array_wf 20 a) | _ => true end = true) as Hw by by_eval.
  intros Hr. rewrite Hr in Hw. by apply bool_decide_eq_true in Hw.
Qed.

(** The two tickets, with indices 5 and 7, are paid by one for 5 to 7. *)
Lemma aggregation_pays_once_witness :
  ∃ e paid, aggregation.2 = Ok aggregate ∧ amount (t_amount (verified_ticket aggregate)) = sum_of paid ∧
    StronglySorted before paid ∧ (∀ t, t ∈ paid ↔ t ∈ tw_ticket <$> given) ∧
    (∀ t, t ∈ paid → t_index t < current (ticket_manager aggregation.1) (get_id e)).
Proof.
  destruct (aggregation_pays_once (ok_public (toy_node 2)) given (toy_key 1) 1 ([toy_incoming; toy_outgoing_channel], []) issuer_db
    aggregation.1 aggregate issuer_indexed (toy_key_wf 1 ltac:(lia)) ltac:(by_check) addresses_typed given_typed aggregation_run)
    as (data & ds & _ & _ & _ & _ & _ & [(tw & Htw & _)|(e & paid & _ & _ & _ & _ & _ & Hagg & Hcur)]).
  - exfalso. assert (length given = 2%nat) as Hl by by_eval. rewrite Htw in Hl. discriminate Hl.
  - exists e, paid. split; [rewrite aggregation_run; reflexivity|].
    split; [apply (ag_value _ _ _ _ _ _ _ Hagg)|]. split; [exact (ag_disjoint _ _ _ _ _ _ _ Hagg)|].
    split; [exact (ag_paid _ _ _ _ _ _ _ Hagg)|exact Hcur].
Defined.

Definition marked_tickets : list AcknowledgedTicket :=
  [with_status BeingAggregated (win_ticket 5); with_status BeingAggregated (win_ticket 7)].

Lemma incoming_only e : e ∈ [toy_incoming; toy_outgoing_channel] → get_id e = get_id toy_incoming → e = toy_incoming.
Proof.
  intros [->| ->%list_elem_of_singleton]%elem_of_cons; [reflexivity|]. intros Hid. exfalso.
  assert (bool_decide (get_id toy_outgoing_channel = get_id toy_incoming) = false) as Hd by by_eval.
  apply bool_decide_eq_false in Hd. exact (Hd Hid).
Qed.

Lemma prepared_rows :
  aggregating_rows toy_incoming (ticket_manager preparation.1) =
  [row_num 1 (with_status BeingAggregated (win_ticket 5)); row_num 2 (with_status BeingAggregated (win_ticket 7))].
Proof. by_eval. Qed.

Lemma first_row_ticket r rows a :
  aggregating_rows toy_incoming (ticket_manager preparation.1) = r :: rows → row_of_acknowledged r a →
  ticket_of a = ticket_of (win_ticket 5).
Proof.
  intros Hr Ha. rewrite prepared_rows in Hr. injection Hr as <- _.
  assert (row_of_acknowledged (row_num 1 (with_status BeingAggregated (win_ticket 5))) (with_status BeingAggregated (win_ticket 5))) as Hb.
  { apply (row_num_ok toy_ds); [|by_check]. apply win_storable; by_eval. }
  rewrite (row_decodes _ _ _ Ha Hb). reflexivity.
Qed.

Lemma given_indices t : t ∈ tw_ticket <$> given → 5 ≤ t_index t ≤ 7.
Proof.
  assert (Forall (λ t, 5 ≤ t_index t ≤ 7) (tw_ticket <$> given)) as Hf by (apply (bool_decide_unpack _); vm_cast_no_check I).
  rewrite Forall_forall in Hf. apply Hf.
Qed.

(** The tickets are replaced by one worth 200. *)
Lemma aggregation_round_witness :
  ∃ db2 ag m3, process_received_aggregated_ticket (verified_ticket aggregate) (toy_key 2) preparation.1 = (db2, Ok ag) ∧
    process_next (ticket_manager db2) = Ok m3 ∧ Tickets.ack_ticket ag = aggregate ∧ value_of ag = 200 ∧
    indexed ([toy_incoming; toy_outgoing_channel], [ag]) (set_ticket_manager m3 db2).
Proof.
  destruct preparation_run as [peer Hprep].
  destruct (aggregation_round (get_id toy_incoming) no_prerequisites [[3]; [4]] toy_view holder_db preparation.1 peer
    (ok_public (toy_node 2)) given toy_ds (toy_key 2) (toy_key 1) 1 ([toy_incoming; toy_outgoing_channel], []) issuer_db
    aggregation.1 aggregate holder_indexed) as (e & chosen & db2 & ag & m3 & He & Hid & _ & Hrecv & Hnext & Hvt & _ & _ & Hv & Hix & _).
  - by_check.
  - by_eval.
  - by_eval.
  - exact Hprep.
  - apply (bool_decide_unpack _). vm_cast_no_check I.
  - intros t t' [? ?]%given_indices [? ?]%given_indices. lia.
  - exact issuer_indexed.
  - apply toy_key_wf. lia.
  - by_check.
  - exact addresses_typed.
  - intros data Hd. assert (match (get_indexer_data issuer_db).2 with Ok d => bool_decide (channels_dst d = Some toy_ds) | _ => true end = true) as Hw by by_eval.
    rewrite Hd in Hw. apply bool_decide_eq_true in Hw. exact Hw.
  - intros e He Hid. rewrite (incoming_only e He Hid). by_eval.
  - exact aggregation_run.
  - apply (bool_decide_unpack _). vm_cast_no_check I.
  - intros e r rows a He Hid Hr Ha t Ht. apply given_indices in Ht. rewrite (incoming_only e He Hid) in Hr.
    rewrite (first_row_ticket r rows a Hr Ha). assert (t_index (ticket_of (win_ticket 5)) = 5) as -> by by_eval. lia.
  - exists db2, ag, m3. rewrite (incoming_only e He Hid) in Hv, Hix. split; [exact Hrecv|]. split; [exact Hnext|]. split; [exact Hvt|]. split.
    + rewrite Hv. by_eval.
    + assert (filter (λ a, negb (chosen_by toy_incoming given a)) toy_view.2 = []) as Hn by by_eval.
      rewrite Hn in Hix. exact Hix.
Defined.

(** Another aggregate, worth more, replaces them as well. *)
Definition rich_aggregate : VerifiedTicket :=
  match build_signed (set_index_offset 9 (set_amount 250 (set_challenge (hop_challenge 1 1) (set_index 5
      (set_direction toy_previous toy_me TicketBuilder_default))))) (toy_key 1) toy_ds with
  | Ok vt => vt
  | _ => toy_verified
  end.

Lemma prepared_indexed : indexed ([toy_incoming; toy_outgoing_channel], marked_tickets) preparation.1.
Proof.
  destruct preparation_run as [peer Hprep].
  destruct (prepare_marks_given (get_id toy_incoming) no_prerequisites [[3]; [4]] toy_view holder_db preparation.1 peer given toy_ds
    holder_indexed ltac:(by_check) Hprep) as (e & _ & _ & He & Hid & _ & _ & _ & _ & _ & _ & Hix & _).
  rewrite (incoming_only e He Hid) in Hix.
  assert (mark_if (chosen_by toy_incoming given) BeingAggregated <$> toy_view.2 = marked_tickets) as Hm by by_eval.
  rewrite Hm in Hix. exact Hix.
Qed.

Lemma rich_replaces : replaces toy_incoming marked_tickets (verified_ticket rich_aggregate).
Proof.
  split.
  - split; by_eval.
  - split; [by_check|]. split; [by_check|by_check].
  - by_eval.
  - intros a Ha _. assert (Forall (λ a, t_index (verified_ticket rich_aggregate) ≤ t_index (ticket_of a) < range_end (verified_ticket rich_aggregate))
      marked_tickets) as Hf by (apply (bool_decide_unpack _); vm_cast_no_check I).
    rewrite Forall_forall in Hf. exact (Hf a Ha).
  - exists (with_status BeingAggregated (win_ticket 5)). split; [left|]. split; by_eval.
Qed.

Lemma aggregate_replaces_witness :
  ∃ db1 a m2, process_received_aggregated_ticket (verified_ticket rich_aggregate) (toy_key 2) preparation.1 =
      (db1, Ok (into_acknowledged rich_aggregate (ack_response a))) ∧
    process_next (ticket_manager db1) = Ok m2 ∧
    indexed ([toy_incoming; toy_outgoing_channel], [into_acknowledged rich_aggregate (ack_response a)]) (set_ticket_manager m2 db1).
Proof.
  assert (match (get_indexer_data preparation.1).2 with Ok d => bool_decide (channels_dst d = Some toy_ds) | _ => false end = true) as Hd by by_eval.
  destruct ((get_indexer_data preparation.1).2) as [data| |] eqn:Hdata; [|discriminate Hd..]. apply bool_decide_eq_true in Hd.
  pose proof (aggregate_replaces (toy_key 2) ([toy_incoming; toy_outgoing_channel], marked_tickets) toy_incoming data toy_ds
    (verified_ticket rich_aggregate) rich_aggregate preparation.1 prepared_indexed) as Hrep. cbv zeta in Hrep.
  assert ((values (filter (aggregating (get_id toy_incoming) (channel_epoch toy_incoming))
    ([toy_incoming; toy_outgoing_channel], marked_tickets).2) <=? amount (t_amount (verified_ticket rich_aggregate))) = true) as Hle by by_eval.
  rewrite Hle in Hrep. destruct Hrep as (db1 & a & m2 & Hrecv & _ & Hnext & Hix & _).
  - by_eval.
  - left.
  - by_eval.
  - vm_compute. discriminate.
  - exact Hdata.
  - exact Hd.
  - by_eval.
  - exact rich_replaces.
  - split; [by_check|]. intros []; by_check.
  - intros r rows a Hr Ha. rewrite (first_row_ticket r rows a Hr Ha). by_eval.
  - by_eval.
  - exists db1, a, m2. split; [exact Hrecv|]. split; [exact Hnext|].
    assert (filter (λ b, negb (aggregating (get_id toy_incoming) (channel_epoch toy_incoming) b))
      ([toy_incoming; toy_outgoing_channel], marked_tickets).2 = []) as Hn by by_eval.
    rewrite Hn in Hix. exact Hix.
Defined.
