(* ===== verification/Actions.v ===== *)
(** * Chain actions

    Models [chain/actions/src]: what the node asks of the chain ([channels.rs],
    [redeem.rs], [node.rs]), the queue that runs the actions
    ([action_queue.rs]) and the table of expected events ([action_state.rs]),
    with [AnnouncementData] of [internal-types/src/announcement.rs].  The
    executor of transactions is the chain: its answers are arguments. *)
From stdpp Require Import gmap strings.
From S2P Require Import Prelude Primitives Crypto Channels Tickets SharedKeys MetaPacket Packet.
From S2P Require Import TicketStore Protocol NodeDb Indexer.

Inductive ChainActionsError :=
| ChannelAlreadyExists
| ActionChannelDoesNotExist
| ChannelAlreadyClosed
| ClosureTimeHasNotElapsed (secs : Z)
| AlreadyAnnounced
| PeerAccessDenied
| WrongTicketState
| OldTicket
| NotAWinningTicket
| BalanceTooLow
| InvalidChannelStake
| NotEnoughAllowance
| TransactionSubmissionFailed (what : string)
| InvalidArguments (what : string)
| InvalidState (what : string)
| Timeout
| ExpectationUnregistered
| MissingDomainSeparator
| ActionsDbBackendError (e : DbSqlError)
| ActionsDbError (e : DbError)
| ActionsRpcError
| ActionsCoreTypesError (e : CoreTypesError)
| ActionsGeneralError (e : GeneralError).

(** ** Announcements ([internal-types/src/announcement.rs])

    The protocols of a multiaddress belong to the [multiaddr] crate; a peer id
    is an encoding of the key that stands for it. *)
Class MultiaddrProtocols `{!Multiaddrs} `{!Curve25519} := {
  Protocol : Type;
  protocols : Multiaddr → list Protocol;
  collect_protocols : list Protocol → Multiaddr;
  is_p2p : Protocol → bool;
  with_p2p : Multiaddr → OffchainPublicKey → outcome Multiaddr Multiaddr;
  multiaddr_pop : Multiaddr → Multiaddr;
  multiaddr_eqb : Multiaddr → Multiaddr → bool
}.

Section Announcements.
Context `{!Curve25519} `{!Ed25519} `{!Multiaddrs} `{!MultiaddrProtocols}.

Fixpoint take_while {A} (f : A → bool) (l : list A) : list A :=
  match l with [] => [] | x :: l => if f x then x :: take_while f l else [] end.

Definition decapsulate_multiaddress (multiaddr : Multiaddr) : Multiaddr :=
  collect_protocols (take_while (λ p, negb (is_p2p p)) (protocols multiaddr)).

Record AnnouncementData := mkAnnouncement { ad_multiaddress : Multiaddr; key_binding : option KeyBinding }.

Definition AnnouncementData_new (multiaddress : Multiaddr) (key_binding : option KeyBinding) :
    outcome GeneralError AnnouncementData :=
  match protocols multiaddress with
  | [] => Err InvalidInput
  | _ =>
      match key_binding with
      | Some binding =>
          match with_p2p multiaddress (kb_packet_key binding) with
          | Ok multiaddress => Ok (mkAnnouncement (multiaddr_pop multiaddress) key_binding)
          | Err _ => Err (Primitives.NonSpecificError "multiaddress does not match the keybinding peer id")
          | Panic => Panic
          end
      | None => Ok (mkAnnouncement multiaddress None)
      end
  end.
End Announcements.

Section Actions.
Context `{!Secp256k1} `{!Curve25519} `{!Ed25519} `{!HexCodec} `{!ScanOrder} `{!Multiaddrs} `{!MultiaddrProtocols} `{!FloatCmp}.

(** ** Actions ([chain/types/src/actions.rs]) *)
Inductive Action :=
| RedeemTicket (ticket : RedeemableTicket)
| OpenChannel (destination : Address) (stake : HoprBalance)
| FundChannel (channel : ChannelEntry) (amount : HoprBalance)
| CloseChannel (channel : ChannelEntry) (direction : ChannelDirection)
| Withdraw (recipient : Address) (amount : HoprBalance)
| WithdrawNative (recipient : Address) (amount : XDaiBalance)
| Announce (data : AnnouncementData)
| RegisterSafe (safe : Address).

(** ** Expected events ([action_state.rs]) *)
Record IndexerExpectation := mkExpectation { exp_tx_hash : Hash; predicate : ChainEventType → bool }.

Definition expectation_test (e : IndexerExpectation) (event : SignificantChainEvent) : bool :=
  bool_decide (sce_tx_hash event = exp_tx_hash e) && predicate e (event_type event).

(** The table maps a hash to the expectation and the sending half of a one-shot
    channel, which is the number of the channel.  The receiving half is gone,
    or holds nothing yet, an event, or the notice that the sender is gone. *)
Inductive Receiver := Pending | Received (event : SignificantChainEvent) | Canceled.

Record IndexerActionTracker := mkTracker {
  expectations : gmap Hash (IndexerExpectation * nat);
  receivers : gmap nat Receiver;
  next_channel : nat
}.

Definition tracker_default : IndexerActionTracker := mkTracker ∅ ∅ 0.

(** [Sender::send]: fails when the receiver has been dropped. *)
Definition oneshot_send (channel : nat) (event : SignificantChainEvent) (t : IndexerActionTracker) :
    IndexerActionTracker * bool :=
  match receivers t !! channel with
  | Some _ => (mkTracker (expectations t) (<[channel := Received event]> (receivers t)) (next_channel t), true)
  | None => (t, false)
  end.

(** Dropping the sender. *)
Definition oneshot_drop (channel : nat) (t : IndexerActionTracker) : IndexerActionTracker :=
  match receivers t !! channel with
  | Some Pending => mkTracker (expectations t) (<[channel := Canceled]> (receivers t)) (next_channel t)
  | _ => t
  end.

(** Dropping the receiver. *)
Definition receiver_drop (channel : nat) (t : IndexerActionTracker) : IndexerActionTracker :=
  mkTracker (expectations t) (delete channel (receivers t)) (next_channel t).

(** The first half of [match_and_resolve], under the read lock. *)
Definition matched_keys (event : SignificantChainEvent) (t : IndexerActionTracker) : list Hash :=
  (filter (λ kv, expectation_test kv.2.1 event = true) (map_to_list (expectations t))).*1.

(** The second half, under the write lock: returns the resolved expectations. *)
Fixpoint resolve_keys (event : SignificantChainEvent) (keys : list Hash) (t : IndexerActionTracker) :
    IndexerActionTracker * list IndexerExpectation :=
  match keys with
  | [] => (t, [])
  | key :: keys =>
      match expectations t !! key with
      | Some (exp, channel) =>
          let t := mkTracker (delete key (expectations t)) (receivers t) (next_channel t) in
          let '(t, sent) := oneshot_send channel event t in
          let '(t, rest) := resolve_keys event keys t in
          (t, if sent then exp :: rest else rest)
      | None => resolve_keys event keys t
      end
  end.

Definition match_and_resolve (event : SignificantChainEvent) (t : IndexerActionTracker) :
    IndexerActionTracker * list IndexerExpectation := resolve_keys event (matched_keys event t) t.

Definition register_expectation (exp : IndexerExpectation) (t : IndexerActionTracker) :
    IndexerActionTracker * outcome ChainActionsError nat :=
  match expectations t !! exp_tx_hash exp with
  | Some _ => (t, Err (InvalidState "expectation already present"))
  | None =>
      let channel := next_channel t in
      (mkTracker (<[exp_tx_hash exp := (exp, channel)]> (expectations t))
         (<[channel := Pending]> (receivers t)) (S channel), Ok channel)
  end.

Definition unregister_expectation (tx_hash : Hash) (t : IndexerActionTracker) : IndexerActionTracker :=
  match expectations t !! tx_hash with
  | Some (_, channel) =>
      oneshot_drop channel (mkTracker (delete tx_hash (expectations t)) (receivers t) (next_channel t))
  | None => t
  end.

(** ** The execution of an action ([ExecutionContext::execute_action]) *)

(** The calls of [TransactionExecutor]. *)
Inductive ExecutorCall :=
| CallRedeemTicket (ticket : RedeemableTicket)
| CallFundChannel (destination : Address) (balance : HoprBalance)
| CallInitiateOutgoingChannelClosure (dst : Address)
| CallFinalizeOutgoingChannelClosure (dst : Address)
| CallCloseIncomingChannel (src : Address)
| CallWithdraw (recipient : Address) (amount : HoprBalance)
| CallWithdrawNative (recipient : Address) (amount : XDaiBalance)
| CallAnnounce (data : AnnouncementData)
| CallRegisterSafe (safe : Address).

(** The transaction that an action submits. *)
Definition executor_call (action : Action) : outcome ChainActionsError ExecutorCall :=
  match action with
  | RedeemTicket ticket => Ok (CallRedeemTicket ticket)
  | OpenChannel address stake => Ok (CallFundChannel address stake)
  | FundChannel channel amount =>
      if ChannelStatus_eqb (status channel) Open then Ok (CallFundChannel (destination channel) amount)
      else Err (InvalidState "cannot fund a channel that is not opened")
  | CloseChannel channel Incoming =>
      match status channel with
      | Open | PendingToClose _ => Ok (CallCloseIncomingChannel (source channel))
      | Closed => Err ChannelAlreadyClosed
      end
  | CloseChannel channel Outgoing =>
      match status channel with
      | Open => Ok (CallInitiateOutgoingChannelClosure (destination channel))
      | PendingToClose _ => Ok (CallFinalizeOutgoingChannelClosure (destination channel))
      | Closed => Err ChannelAlreadyClosed
      end
  | Withdraw recipient amount => Ok (CallWithdraw recipient amount)
  | WithdrawNative recipient amount => Ok (CallWithdrawNative recipient amount)
  | Announce data => Ok (CallAnnounce data)
  | RegisterSafe safe => Ok (CallRegisterSafe safe)
  end.

(** The events that confirm an action. *)
Definition confirms (action : Action) (event : ChainEventType) : bool :=
  match action, event with
  | RedeemTicket ticket, TicketRedeemed channel _ =>
      bool_decide (t_channel_id (verified_ticket (r_ticket ticket)) = get_id channel)
  | OpenChannel address _, ChannelOpened channel => bool_decide (destination channel = address)
  | FundChannel channel amount, ChannelBalanceIncreased r_channel diff =>
      bool_decide (get_id r_channel = get_id channel) && bool_decide (amount = diff)
  | CloseChannel channel Incoming, ChannelClosed r_channel => bool_decide (get_id r_channel = get_id channel)
  | CloseChannel channel Outgoing, ChannelClosureInitiated r_channel =>
      ChannelStatus_eqb (status channel) Open && bool_decide (get_id r_channel = get_id channel)
  | CloseChannel channel Outgoing, ChannelClosed r_channel =>
      negb (ChannelStatus_eqb (status channel) Open) && bool_decide (get_id r_channel = get_id channel)
  | Announce data, Announcement _ _ multiaddresses => existsb (multiaddr_eqb (ad_multiaddress data)) multiaddresses
  | RegisterSafe safe, NodeSafeRegistered address => bool_decide (safe = address)
  | _, _ => false
  end.

(** Withdrawals are polled for and expect no event. *)
Definition expectation_of (action : Action) (tx_hash : Hash) : option IndexerExpectation :=
  match action with
  | Withdraw _ _ | WithdrawNative _ _ => None
  | _ => Some (mkExpectation tx_hash (confirms action))
  end.

Record ActionConfirmation := mkConfirmation {
  cf_tx_hash : Hash;
  cf_event : option ChainEventType;
  cf_action : Action
}.

(** ** The queue ([ActionQueue::start])

    Each action runs in a task of its own.  [Submitting]: the executor has been
    called; [Registering]: it has answered and the expectation is about to be
    registered; [Awaiting]: the task waits on its receiver or the timeout. *)
Inductive Task :=
| Submitting (action : Action)
| Registering (action : Action) (exp : IndexerExpectation)
| Awaiting (action : Action) (tx_hash : Hash) (channel : nat).

Definition task_action (t : Task) : Action :=
  match t with Submitting a | Registering a _ | Awaiting a _ _ => a end.

Record QueueState := mkQueue {
  queue_db : HoprDb;
  queue_open : bool;                           (** the receiving end is alive *)
  sent : list Action;                          (** all actions ever sent, by number *)
  taken : nat;                                 (** how many of them the loop has taken *)
  tasks : gmap nat Task;
  tracker : IndexerActionTracker;
  resolving : option (SignificantChainEvent * list Hash);
  results : gmap nat (outcome ChainActionsError ActionConfirmation)
}.

Definition set_queue_db x s := mkQueue x (queue_open s) (sent s) (taken s) (tasks s) (tracker s) (resolving s) (results s).
Definition set_tasks x s := mkQueue (queue_db s) (queue_open s) (sent s) (taken s) x (tracker s) (resolving s) (results s).
Definition set_tracker x s := mkQueue (queue_db s) (queue_open s) (sent s) (taken s) (tasks s) x (resolving s) (results s).
Definition set_resolving x s := mkQueue (queue_db s) (queue_open s) (sent s) (taken s) (tasks s) (tracker s) x (results s).

Definition push_action (action : Action) (s : QueueState) : QueueState :=
  mkQueue (queue_db s) (queue_open s) (sent s ++ [action]) (taken s) (tasks s) (tracker s) (resolving s) (results s).

(** What the task does with the result: a failed redemption gives the ticket
    back, whether or not that succeeds. *)
Definition finish (n : nat) (action : Action) (result : outcome ChainActionsError ActionConfirmation) (s : QueueState) :
    QueueState :=
  let db := match result, action with
            | Err _, RedeemTicket ack =>
                (on_tickets (update_ticket_states (selector_of_redeemable ack) Untouched) (queue_db s)).1
            | _, _ => queue_db s
            end in
  mkQueue db (queue_open s) (sent s) (taken s) (delete n (tasks s)) (tracker s) (resolving s) (<[n := result]> (results s)).

(** One step of the loop, of a task, or of the indexer. *)
Inductive QueueEvent :=
| EvSend (action : Action)                                  (** a producer sends an action *)
| EvTake                                                    (** the loop spawns a task for the next one *)
| EvAnswer (n : nat) (r : outcome ChainActionsError Hash)   (** the executor answers task [n] *)
| EvRegister (n : nat)                                      (** task [n] registers its expectation *)
| EvMatch (event : SignificantChainEvent)                   (** the indexer looks up the matching expectations *)
| EvResolve                                                 (** and resolves them *)
| EvPoll (n : nat) (timed_out : bool)                       (** task [n] polls receiver and timeout *)
| EvDb (db : HoprDb).                                       (** another component writes the database *)

Definition take_action (s : QueueState) : option QueueState :=
  action ← sent s !! taken s;
  let n := taken s in
  let s := mkQueue (queue_db s) (queue_open s) (sent s) (S n) (tasks s) (tracker s) (resolving s) (results s) in
  Some (match executor_call action with
        | Ok _ => set_tasks (<[n := Submitting action]> (tasks s)) s
        | Err e => finish n action (Err e) s
        | Panic => s
        end).

Definition answer (n : nat) (r : outcome ChainActionsError Hash) (s : QueueState) : option QueueState :=
  match tasks s !! n with
  | Some (Submitting action) =>
      match r with
      | Ok tx_hash =>
          Some (match expectation_of action tx_hash with
                | Some exp => set_tasks (<[n := Registering action exp]> (tasks s)) s
                | None => finish n action (Ok (mkConfirmation tx_hash None action)) s
                end)
      | Err e => Some (finish n action (Err e) s)
      | Panic => None
      end
  | _ => None
  end.

Definition register (n : nat) (s : QueueState) : option QueueState :=
  match tasks s !! n with
  | Some (Registering action exp) =>
      let '(t, r) := register_expectation exp (tracker s) in
      Some (match r with
            | Ok channel => set_tasks (<[n := Awaiting action (exp_tx_hash exp) channel]> (tasks s)) (set_tracker t s)
            | Err e => finish n action (Err e) (set_tracker t s)
            | Panic => s
            end)
  | _ => None
  end.

(** [select(confirmation, timeout)] prefers the confirmation. *)
Definition poll (n : nat) (timed_out : bool) (s : QueueState) : option QueueState :=
  match tasks s !! n with
  | Some (Awaiting action tx_hash channel) =>
      let gave_up e := finish n action (Err e)
        (set_tracker (receiver_drop channel (unregister_expectation tx_hash (tracker s))) s) in
      match receivers (tracker s) !! channel with
      | Some (Received event) =>
          Some (finish n action (Ok (mkConfirmation (sce_tx_hash event) (Some (event_type event)) action))
                  (set_tracker (receiver_drop channel (tracker s)) s))
      | Some Pending => if timed_out then Some (gave_up Timeout) else None
      | Some Canceled | None => Some (gave_up (InvalidState "action expectation was removed before resolving"))
      end
  | _ => None
  end.

Definition queue_step (ev : QueueEvent) (s : QueueState) : option QueueState :=
  match ev with
  | EvSend action => if queue_open s then Some (push_action action s) else None
  | EvTake => take_action s
  | EvAnswer n r => answer n r s
  | EvRegister n => register n s
  | EvMatch event =>
      match resolving s with
      | None => Some (set_resolving (Some (event, matched_keys event (tracker s))) s)
      | Some _ => None
      end
  | EvResolve =>
      match resolving s with
      | Some (event, keys) => Some (set_resolving None (set_tracker (resolve_keys event keys (tracker s)).1 s))
      | None => None
      end
  | EvPoll n timed_out => poll n timed_out s
  | EvDb db => Some (set_queue_db db s)
  end.

Fixpoint queue_run (evs : list QueueEvent) (s : QueueState) : option QueueState :=
  match evs with
  | [] => Some s
  | ev :: evs => s' ← queue_step ev s; queue_run evs s'
  end.

(** ** What the node asks for

    The bounded queue only delays a sender, so that sending is appending.  A
    pending action is the number of the action: its result appears in
    [results]. *)
Abbreviation AM := (SM QueueState ChainActionsError).
Abbreviation DB := (SM HoprDb DbSqlError).
Abbreviation TM := (SM TicketManager DbSqlError).

(** [?] on errors of the index database and of the ticket database. *)
Definition on_db_with {A} (wrap : DbSqlError → ChainActionsError) (m : DB A) : AM A := λ s,
  let '(db, r) := m (queue_db s) in (set_queue_db db s, map_err wrap r).
Definition on_index {A} : DB A → AM A := on_db_with ActionsDbBackendError.
Definition on_ticket_db {A} (m : TM A) : AM A := on_db_with (λ e, ActionsDbError (General e)) (on_tickets m).

(** [ActionSender::send]. *)
Definition send (action : Action) : AM nat := λ s,
  if queue_open s then (push_action action s, Ok (length (sent s)))
  else (s, Err (TransactionSubmissionFailed "ethereum tx queue is closed")).

Definition self_address : AM Address := s ← get; mret (me_onchain (queue_db s)).

(** [require b e]: an early return of [e] unless [b]. *)
Definition require (b : bool) (e : ChainActionsError) : AM unit := if b then mret tt else throw e.

(** *** Channels ([channels.rs]) *)
Definition enough_funds (amount : HoprBalance) : AM unit :=
  allowance ← on_index get_safe_hopr_allowance;
  require (negb (Balance_ltb allowance amount)) NotEnoughAllowance;;
  hopr_balance ← on_index get_safe_hopr_balance;
  require (negb (Balance_ltb hopr_balance amount)) BalanceTooLow.

Definition open_channel (destination : Address) (amount : HoprBalance) : AM nat :=
  self_addr ← self_address;
  require (negb (bool_decide (self_addr = destination))) (InvalidArguments "cannot open channel to self");;
  require (negb (Balance_is_zero amount)) (InvalidArguments "invalid balance or balance type given");;
  enough_funds amount;;
  require (negb (Balance_ltb (mkBalance MAX_CHANNEL_BALANCE) amount)) InvalidChannelStake;;
  indexer_data ← on_index get_indexer_data;
  (if nr_enabled indexer_data then
     allowed ← on_index (is_allowed_in_network_registry destination);
     require allowed PeerAccessDenied
   else mret tt);;
  maybe_channel ← on_index (get_channel_by_parties self_addr destination false);
  (match maybe_channel with
   | Some channel => require (ChannelStatus_eqb (status channel) Closed) ChannelAlreadyExists
   | None => mret tt
   end);;
  send (OpenChannel destination amount).

Definition fund_channel (channel_id : Hash) (amount : HoprBalance) : AM nat :=
  require (negb (Balance_is_zero amount)) (InvalidArguments "invalid balance or balance type given");;
  enough_funds amount;;
  maybe_channel ← on_index (get_channel_by_id channel_id);
  match maybe_channel with
  | Some channel =>
      if ChannelStatus_eqb (status channel) Open then
        require (negb (Balance_ltb (mkBalance MAX_CHANNEL_BALANCE) (Balance_add (balance channel) amount))) InvalidChannelStake;;
        send (FundChannel channel amount)
      else throw (InvalidState "channel is not opened")
  | None => throw ActionChannelDoesNotExist
  end.

(** *** Redeeming tickets ([redeem.rs])

    [randoms] are the random values of the VRF proofs, one per ticket. *)
Definition channel_dst : AM Hash :=
  indexer_data ← on_index get_indexer_data;
  match domain_separator indexer_data Channel with
  | Some dst => mret dst
  | None => throw (InvalidState "missing channel dst")
  end.

(** A ticket that cannot be made redeemable or submitted is logged and passed over. *)
Fixpoint redeem_stream (tickets : list AcknowledgedTicket) (randoms : list bytes) (key : ChainKeypair) (dst : Hash) :
    AM (list nat) :=
  match tickets with
  | [] => mret []
  | ack_ticket :: tickets =>
      match into_redeemable (default [] (head randoms)) ack_ticket key dst with
      | Ok redeemable => λ s,
          match send (RedeemTicket redeemable) s with
          | (s, Ok n) => (rest ← redeem_stream tickets (tail randoms) key dst; mret (n :: rest)) s
          | (s, Err _) => redeem_stream tickets (tail randoms) key dst s
          | (s, Panic) => (s, Panic)
          end
      | Err _ => redeem_stream tickets (tail randoms) key dst
      | Panic => lift Panic
      end
  end.

(** The call as it runs with nothing in between; its steps, between which other
    calls may come, are those of [RedeemSteps]. *)
Definition redeem_tickets (selector : TicketSelector) (randoms : list bytes) : AM (list nat) :=
  '(count_redeemable_tickets, _) ← on_ticket_db (get_tickets_value selector);
  if (count_redeemable_tickets =? 0)%nat then mret []
  else
    dst ← channel_dst;
    tickets ← on_ticket_db (update_ticket_states_and_fetch selector BeingRedeemed);
    s ← get;
    redeem_stream tickets randoms (NodeDb.chain_key (queue_db s)) dst.

Definition redeem_tickets_in_channel (channel : ChannelEntry) (only_aggregated : bool) (randoms : list bytes) :
    AM (list nat) :=
  index ← lift (U256_as 64 (ticket_index channel));
  redeem_tickets (with_state Untouched (with_index_range (Included index) Unbounded
    (with_aggregated_only only_aggregated (selector_of_channel channel)))) randoms.

(** [randoms] holds the random values of each channel in turn. *)
Fixpoint redeem_channels (channels : list ChannelEntry) (only_aggregated : bool) (randoms : list (list bytes)) :
    AM (list nat) :=
  match channels with
  | [] => mret []
  | incoming_channel :: channels => λ s,
      match redeem_tickets_in_channel incoming_channel only_aggregated (default [] (head randoms)) s with
      | (s, Ok successful_txs) =>
          (rest ← redeem_channels channels only_aggregated (tail randoms); mret (successful_txs ++ rest)) s
      | (s, Err _) => redeem_channels channels only_aggregated (tail randoms) s
      | (s, Panic) => (s, Panic)
      end
  end.

Definition redeem_all_tickets (only_aggregated : bool) (randoms : list (list bytes)) : AM (list nat) :=
  me ← self_address;
  incoming_channels ← on_index (get_channels_via Incoming me);
  redeem_channels incoming_channels only_aggregated randoms.

Definition redeem_tickets_with_counterparty (counterparty : Address) (only_aggregated : bool) (randoms : list bytes) :
    AM (list nat) :=
  me ← self_address;
  maybe_channel ← on_index (get_channel_by_parties counterparty me false);
  match maybe_channel with
  | Some channel => redeem_tickets_in_channel channel only_aggregated randoms
  | None => throw ActionChannelDoesNotExist
  end.

(** The first item of the stream of [update_ticket_states_and_fetch]: rows
    after the first that decodes are left alone. *)
Fixpoint fetch_next (rows : list TicketModel) (new_state : AcknowledgedTicketStatus) : TM (option AcknowledgedTicket) :=
  match rows with
  | [] => mret None
  | r :: rows =>
      fetched ← update_fetched r new_state;
      match fetched with
      | Some t => mret (Some t)
      | None => fetch_next rows new_state
      end
  end.

Definition update_state_and_fetch_next (selector : TicketSelector) (new_state : AcknowledgedTicketStatus) :
    TM (option AcknowledgedTicket) :=
  rows ← open_ticket_stream selector;
  fetch_next rows new_state.

Definition redeem_ticket (ack_ticket : AcknowledgedTicket) (random : bytes) : AM nat :=
  let ticket := verified_ticket (Tickets.ack_ticket ack_ticket) in
  maybe_channel ← on_index (get_channel_by_id (t_channel_id ticket));
  match maybe_channel with
  | Some channel =>
      channel_index ← lift (U256_as 64 (ticket_index channel));
      require (negb (t_index ticket <? channel_index)) OldTicket;;
      maybe_ticket ← on_ticket_db (update_state_and_fetch_next
        (with_state Untouched (with_index (t_index ticket) (selector_of_channel channel))) BeingRedeemed);
      match maybe_ticket with
      | Some stored =>
          dst ← channel_dst;
          s ← get;
          redeemable ← lift (map_err ActionsCoreTypesError
            (into_redeemable random stored (NodeDb.chain_key (queue_db s)) dst));
          send (RedeemTicket redeemable)
      | None => throw WrongTicketState
      end
  | None => throw ActionChannelDoesNotExist
  end.

(** [now] and [later] are the two readings of the clock. *)
Definition close_channel (counterparty : Address) (direction : ChannelDirection) (redeem_before_close : bool)
    (now later : SystemTime) (randoms : list bytes) : AM nat :=
  me ← self_address;
  maybe_channel ← on_index (match direction with
                            | Incoming => get_channel_by_parties counterparty me false
                            | Outgoing => get_channel_by_parties me counterparty false
                            end);
  match maybe_channel with
  | Some channel =>
      match status channel with
      | Closed => throw ChannelAlreadyClosed
      | PendingToClose _ =>
          match remaining_closure_time channel now with
          | Some 0 => send (CloseChannel channel direction)
          | _ =>
              match remaining_closure_time channel later with
              | Some remaining => throw (ClosureTimeHasNotElapsed (as_secs remaining))
              | None => lift Panic
              end
          end
      | Open =>
          (match direction with
           | Incoming => if redeem_before_close then redeem_tickets_in_channel channel false randoms;; mret tt else mret tt
           | Outgoing => mret tt
           end);;
          send (CloseChannel channel direction)
      end
  | None => throw ActionChannelDoesNotExist
  end.

(** *** The node ([node.rs]) *)
Definition withdraw (recipient : Address) (amount : HoprBalance) : AM nat :=
  require (negb (Balance_is_zero amount)) (InvalidArguments "cannot withdraw zero amount");;
  send (Withdraw recipient amount).

Definition withdraw_native (recipient : Address) (amount : XDaiBalance) : AM nat :=
  require (negb (Balance_is_zero amount)) (InvalidArguments "cannot withdraw zero amount");;
  send (WithdrawNative recipient amount).

Definition already_announced (key : OffchainPublicKey) (data : AnnouncementData) (account : AccountEntry) : bool :=
  bool_decide (opk_compressed (public_key account) = opk_compressed key)
  && match get_multiaddr account with
     | Some ma => multiaddr_eqb (decapsulate_multiaddress ma) (ad_multiaddress data)
     | None => false
     end.

Definition announce (multiaddrs : list Multiaddr) (offchain_key : OffchainKeypair) : AM nat :=
  me ← self_address;
  match multiaddrs with
  | [] => lift Panic
  | first :: _ =>
      binding ← lift (KeyBinding_new me offchain_key);
      announcement_data ← lift (map_err ActionsGeneralError (AnnouncementData_new first (Some binding)));
      accounts ← on_index (get_accounts true);
      require (negb (existsb (already_announced (ok_public offchain_key) announcement_data) accounts)) AlreadyAnnounced;;
      send (Announce announcement_data)
  end.

Definition register_safe_by_node (safe_address : Address) : AM nat := send (RegisterSafe safe_address).

End Actions.
