(* ===== verification/ActionsSpec.v ===== *)
(** * Actions are confirmed by their own events

    The queue of actions as a transition system: the numbers of the actions,
    the table of expectations and the one-shot channels fit together in every
    reachable state, so that an action is confirmed by nothing but an event of
    its own transaction that it waits for. *)
From Stdlib Require Import Floats.SpecFloat.
From stdpp Require Import gmap strings.
From S2P Require Import Prelude Primitives Crypto Channels Tickets SharedKeys MetaPacket Packet.
From S2P Require Import TicketStore Protocol NodeDb Indexer Actions.

Section Queue.
Context `{!Secp256k1} `{!Curve25519} `{!Ed25519} `{!HexCodec} `{!ScanOrder} `{!Multiaddrs} `{!MultiaddrProtocols}.

(** The events the indexer has looked at, and the hashes of the submitted
    transactions. *)
Definition handled (evs : list QueueEvent) : list SignificantChainEvent :=
  omap (λ ev, match ev with EvMatch event => Some event | _ => None end) evs.
Definition answered (evs : list QueueEvent) : list (nat * Hash) :=
  omap (λ ev, match ev with EvAnswer n (Ok h) => Some (n, h) | _ => None end) evs.

Definition queue_new (db : HoprDb) : QueueState := mkQueue db true [] 0 ∅ tracker_default None ∅.

(** The event fits an action that was submitted under a hash. *)
Definition fits_event (evs : list QueueEvent) (action : Action) (tx_hash : Hash) (event : SignificantChainEvent) : Prop :=
  event ∈ handled evs ∧ sce_tx_hash event = tx_hash ∧ confirms action (event_type event) = true.

Definition tracked (action : Action) (exp : IndexerExpectation) : Prop :=
  expectation_of action (exp_tx_hash exp) = Some exp.

Definition task_ok (evs : list QueueEvent) (t : IndexerActionTracker) (n : nat) (task : Task) : Prop :=
  match task with
  | Submitting _ => True
  | Registering a exp => (n, exp_tx_hash exp) ∈ answered evs ∧ tracked a exp
  | Awaiting a h channel =>
      (n, h) ∈ answered evs ∧ (channel < next_channel t)%nat ∧
      ∀ event, receivers t !! channel = Some (Received event) →
        fits_event evs a h event ∧ ∀ exp, expectations t !! h ≠ Some (exp, channel)
  end.

Definition past_registration (s : QueueState) (n : nat) : Prop :=
  (n < taken s)%nat ∧ ∀ task, tasks s !! n = Some task → ∃ a h channel, task = Awaiting a h channel.

Definition confirmed (evs : list QueueEvent) (s : QueueState) (n : nat) (c : ActionConfirmation) : Prop :=
  sent s !! n = Some (cf_action c) ∧ (n, cf_tx_hash c) ∈ answered evs ∧
  match cf_event c with
  | Some event => fits_event evs (cf_action c) (cf_tx_hash c) (mkSignificant (cf_tx_hash c) event)
  | None => expectation_of (cf_action c) (cf_tx_hash c) = None
  end.

Record queue_inv (evs : list QueueEvent) (s : QueueState) : Prop := {
  qi_taken : (taken s ≤ length (sent s))%nat;
  qi_answered n h : (n, h) ∈ answered evs → (n < taken s)%nat;
  qi_task n task : tasks s !! n = Some task →
    sent s !! n = Some (task_action task) ∧ (n < taken s)%nat ∧ task_ok evs (tracker s) n task;
  qi_channel n n' a a' h h' channel : tasks s !! n = Some (Awaiting a h channel) →
    tasks s !! n' = Some (Awaiting a' h' channel) → n = n';
  qi_expectation h exp channel : expectations (tracker s) !! h = Some (exp, channel) →
    ∃ n a, tasks s !! n = Some (Awaiting a h channel) ∧ exp_tx_hash exp = h ∧ tracked a exp;
  qi_resolving event keys : resolving s = Some (event, keys) →
    event ∈ handled evs ∧ ∀ key, key ∈ keys →
      key = sce_tx_hash event ∧ (∃ n, (n, key) ∈ answered evs ∧ past_registration s n) ∧
      ∀ exp channel, expectations (tracker s) !! key = Some (exp, channel) → predicate exp (event_type event) = true;
  qi_result n c : results s !! n = Some (Ok c) → confirmed evs s n c
}.

Lemma queue_inv_new db : queue_inv [] (queue_new db).
Proof. split; cbn; try done. by intros n h ?%elem_of_nil. Qed.

Lemma tracked_predicate a exp : tracked a exp → predicate exp = confirms a.
Proof. unfold tracked. destruct a; cbn; intros Ha; by simplify_eq; rewrite <-Ha. Qed.

Lemma handled_snoc evs ev event : event ∈ handled evs → event ∈ handled (evs ++ [ev]).
Proof. unfold handled. rewrite omap_app. set_solver. Qed.

Lemma answered_snoc evs ev x : x ∈ answered evs → x ∈ answered (evs ++ [ev]).
Proof. unfold answered. rewrite omap_app. set_solver. Qed.

Lemma task_ok_snoc evs ev t n task : task_ok evs t n task → task_ok (evs ++ [ev]) t n task.
Proof.
  destruct task as [a|a exp|a h channel]; [done|..]; cbn.
  - intros [? ?]. split; [by apply answered_snoc|done].
  - intros (? & ? & Hr). split_and!; [by apply answered_snoc|done|]. intros event He.
    destruct (Hr event He) as [(? & ? & ?) ?]. split; [|done]. split_and!; [by apply handled_snoc|done..].
Qed.

Lemma confirmed_snoc evs ev s n c : confirmed evs s n c → confirmed (evs ++ [ev]) s n c.
Proof.
  intros (? & ? & Hc). split_and!; [done|by apply answered_snoc|]. destruct (cf_event c); [|done].
  destruct Hc as (? & ? & ?). split_and!; [by apply handled_snoc|done..].
Qed.

(** A step that the environment takes keeps what the invariant says. *)
Lemma queue_inv_snoc evs ev s :
  queue_inv evs s → (∀ n h, ev = EvAnswer n (Ok h) → (n < taken s)%nat) → queue_inv (evs ++ [ev]) s.
Proof.
  intros [Hn Hans Htask Hch Hexp Hres Hok] Hev. split; [done|..].
  - intros n h. unfold answered. rewrite omap_app, elem_of_app. intros [?|Hin]; [by eapply Hans|].
    cbn in Hin. destruct ev as [| |m [h'| |]| | | | |]; try (by apply elem_of_nil in Hin).
    apply list_elem_of_singleton in Hin as [= -> ->]. by eapply Hev.
  - intros n task Ht. destruct (Htask n task Ht) as (? & ? & ?). split_and!; [done..|by apply task_ok_snoc].
  - done.
  - done.
  - intros event keys Hr. destruct (Hres _ _ Hr) as [He Hk]. split; [by apply handled_snoc|]. intros key Hin.
    destruct (Hk key Hin) as (? & (n & Ha & ?) & ?). split_and!; [done| |done]. exists n. split; [by apply answered_snoc|done].
  - intros n c Hc. by apply confirmed_snoc, Hok.
Qed.

(** ** The tracker *)
(** Expectations and received events can only go. *)
Definition shrinks (t t' : IndexerActionTracker) : Prop :=
  next_channel t' = next_channel t ∧
  (∀ h x, expectations t' !! h = Some x → expectations t !! h = Some x) ∧
  (∀ channel event, receivers t' !! channel = Some (Received event) → receivers t !! channel = Some (Received event)).

Lemma queue_inv_shrinks evs s t : queue_inv evs s → shrinks (tracker s) t → queue_inv evs (set_tracker t s).
Proof.
  intros [Hn Hans Htask Hch Hexp Hres Hok] (Hnext & He & Hr). split; cbn [sent taken tasks tracker resolving results set_tracker]; try done.
  - intros n task Ht. destruct (Htask n task Ht) as (? & ? & Hk). split_and!; [done..|].
    destruct task as [|a exp|a h channel]; [done..|]. cbn in *. rewrite Hnext. destruct Hk as (? & ? & Hk). split_and!; [done..|].
    intros event Hev. destruct (Hk event (Hr _ _ Hev)) as [? Hno]. split; [done|]. intros exp Hx. by apply (Hno exp), He.
  - intros h exp channel Hx. apply (Hexp h), He, Hx.
  - intros event keys Hr'. destruct (Hres _ _ Hr') as [? Hk]. split; [done|]. intros key Hin.
    destruct (Hk key Hin) as (? & ? & Hp). split_and!; [done..|]. intros exp channel Hx. eapply Hp, He, Hx.
Qed.

Lemma receiver_drop_shrinks channel t : shrinks t (receiver_drop channel t).
Proof. split_and!; [done|done|]. intros ch event. cbn. by intros [_ ?]%lookup_delete_Some. Qed.

Lemma unregister_shrinks tx_hash t : shrinks t (unregister_expectation tx_hash t).
Proof.
  unfold unregister_expectation, oneshot_drop. destruct (expectations t !! tx_hash) as [[exp channel]|]; [|done]. cbn.
  split_and!; [by repeat case_match|intros h x|intros ch event].
  - assert (∀ r, delete tx_hash (expectations t) !! h = Some x → expectations (mkTracker (expectations t) r (next_channel t)) !! h = Some x)
      as Hd by (intros r [_ ?]%lookup_delete_Some; done). repeat case_match; apply (Hd ∅).
  - repeat case_match; cbn; try done. by intros [[_ [=]]|[_ ?]]%lookup_insert_Some.
Qed.

Lemma shrinks_trans t1 t2 t3 : shrinks t1 t2 → shrinks t2 t3 → shrinks t1 t3.
Proof. intros (H1n & H1e & H1r) (H2n & H2e & H2r). split_and!; [congruence|eauto..]. Qed.

Lemma unregistered_key tx_hash t x : expectations (unregister_expectation tx_hash t) !! tx_hash ≠ Some x.
Proof.
  unfold unregister_expectation, oneshot_drop. destruct (expectations t !! tx_hash) as [[exp channel]|] eqn:He; [|by rewrite He].
  cbn. repeat case_match; cbn; by rewrite lookup_delete_eq.
Qed.

(** Resolving the keys found for an event. *)
Lemma resolve_one evs s event exp channel :
  queue_inv evs s → event ∈ handled evs → expectations (tracker s) !! sce_tx_hash event = Some (exp, channel) →
  predicate exp (event_type event) = true →
  queue_inv evs (set_tracker (oneshot_send channel event
    (mkTracker (delete (sce_tx_hash event) (expectations (tracker s))) (receivers (tracker s)) (next_channel (tracker s)))).1 s).
Proof.
  intros Hinv Hin Hx Hp. destruct (qi_expectation _ _ Hinv _ _ _ Hx) as (n & a & Hn & Hh & Ha).
  assert (shrinks (tracker s) (mkTracker (delete (sce_tx_hash event) (expectations (tracker s))) (receivers (tracker s))
    (next_channel (tracker s)))) as Hs by (split_and!; [done|intros h x; cbn; by intros [_ ?]%lookup_delete_Some|done]).
  apply (queue_inv_shrinks _ _ _ Hinv) in Hs as Hinv'. unfold oneshot_send. cbn [receivers].
  destruct (receivers (tracker s) !! channel) as [r|]; [|done]. cbn [fst].
  destruct Hinv' as [Hn' Hans Htask Hch Hexp Hres Hok]. split; try done.
  intros m task Hm. destruct (Htask m task Hm) as (? & ? & Hk). split_and!; [done..|].
  destruct task as [|b e|b h ch]; [done..|]. cbn in *. destruct Hk as (? & ? & Hk). split_and!; [done..|].
  intros event' [[<- [= <-]]|[Hne Hr]]%lookup_insert_Some; [|by apply Hk].
  pose proof (qi_channel _ _ Hinv _ _ _ _ _ _ _ Hn Hm) as <-. cbn in Hm. rewrite Hn in Hm. injection Hm as <- <-.
  split; [split_and!; [done..|by rewrite <-(tracked_predicate a exp)]|]. intros e. by rewrite lookup_delete_eq.
Qed.

Lemma resolve_inv evs event keys s :
  queue_inv evs s → event ∈ handled evs →
  (∀ key, key ∈ keys → key = sce_tx_hash event ∧
    ∀ exp channel, expectations (tracker s) !! key = Some (exp, channel) → predicate exp (event_type event) = true) →
  queue_inv evs (set_tracker (resolve_keys event keys (tracker s)).1 s).
Proof.
  intros Hinv Hin. revert s Hinv. induction keys as [|key keys IH]; intros s Hinv Hkeys; [by destruct s|]. cbn [resolve_keys].
  destruct (Hkeys key) as [-> Hp]; [by left|]. destruct (expectations (tracker s) !! sce_tx_hash event) as [[exp channel]|] eqn:Hx.
  - pose proof (resolve_one _ _ _ _ _ Hinv Hin Hx (Hp _ _ eq_refl)) as Hinv'. destruct (oneshot_send _ _ _) as [t ok] eqn:Ht.
    cbn [fst] in Hinv'. specialize (IH _ Hinv'). cbn [tracker set_tracker] in IH.
    destruct (resolve_keys event keys t) as [t' rest]. apply IH. intros key Hk. destruct (Hkeys key) as [-> Hpk]; [by right|].
    split; [done|]. intros e ch. assert (expectations t = delete (sce_tx_hash event) (expectations (tracker s))) as ->.
    { unfold oneshot_send in Ht. cbn in Ht. case_match; by injection Ht as <- _. }
    by rewrite lookup_delete_eq.
  - apply IH; [done|]. intros key Hk. apply Hkeys. by right.
Qed.

(** ** The steps *)
Lemma finish_inv evs s n a r :
  queue_inv evs s → (∀ c, r = Ok c → confirmed evs s n c) →
  (∀ a' h channel, tasks s !! n = Some (Awaiting a' h channel) →
    ∀ h' exp, expectations (tracker s) !! h' ≠ Some (exp, channel)) →
  queue_inv evs (finish n a r s).
Proof.
  intros [Hn Hans Htask Hch Hexp Hres Hok] Hr Hfree. split; cbn [sent taken tasks tracker resolving results finish]; try done.
  - intros m task [_ Hm]%lookup_delete_Some. by apply Htask.
  - intros m m' b b' h h' ch [_ Hm]%lookup_delete_Some [_ Hm']%lookup_delete_Some. by eapply Hch.
  - intros h exp ch Hx. destruct (Hexp h exp ch Hx) as (m & b & Hm & ?). exists m, b. split; [|done].
    apply lookup_delete_Some. split; [|done]. intros ->. by eapply Hfree.
  - intros event keys Hk. destruct (Hres _ _ Hk) as [? Hall]. split; [done|]. intros key Hin.
    destruct (Hall key Hin) as (? & (m & ? & ? & Hpast) & ?). split_and!; [done| |done]. exists m. split; [done|]. split; [done|].
    cbn. intros task [_ ?]%lookup_delete_Some. by apply Hpast.
  - intros m c [[<- Hc]|[_ Hc]]%lookup_insert_Some; [exact (Hr c Hc)|exact (Hok m c Hc)].
Qed.

(** A task moves on without touching the tracker. *)
Lemma move_inv evs s n task :
  queue_inv evs s → sent s !! n = Some (task_action task) → (n < taken s)%nat → task_ok evs (tracker s) n task →
  (∀ a h channel, task ≠ Awaiting a h channel ∧ tasks s !! n ≠ Some (Awaiting a h channel)) →
  (∀ key, (n, key) ∈ answered evs → past_registration s n → False) →
  queue_inv evs (set_tasks (<[n := task]> (tasks s)) s).
Proof.
  intros [Hn Hans Htask Hch Hexp Hres Hok] Hsent Hlt Hk Hno Hfresh.
  split; cbn [sent taken tasks tracker resolving results set_tasks]; try done.
  - intros m t [[<- <-]|[_ Hm]]%lookup_insert_Some; [done|by apply Htask].
  - intros m m' b b' h h' ch [[_ Hx]|[_ Hm]]%lookup_insert_Some [[_ Hx']|[_ Hm']]%lookup_insert_Some;
      [by destruct (Hno b h ch)|by destruct (Hno b h ch)|by destruct (Hno b' h' ch)|by eapply Hch].
  - intros h exp ch Hx. destruct (Hexp h exp ch Hx) as (m & b & Hm & ?). exists m, b. split; [|done].
    rewrite lookup_insert_ne; [done|]. intros <-. by destruct (Hno b h ch).
  - intros event keys Hr. destruct (Hres _ _ Hr) as [? Hall]. split; [done|]. intros key Hin.
    destruct (Hall key Hin) as (? & (m & Ha & Hlm & Hpast) & ?). split_and!; [done| |done]. exists m. split; [done|]. split; [done|].
    cbn. intros t [[<- <-]|[_ Hm]]%lookup_insert_Some; [|by apply Hpast]. exfalso. by eapply Hfresh.
Qed.

(** A transaction hash belongs to one task. *)
Lemma answered_unique evs n n' h : NoDup (answered evs).*2 → (n, h) ∈ answered evs → (n', h) ∈ answered evs → n = n'.
Proof.
  intros Hnd [i Hi]%list_elem_of_lookup [j Hj]%list_elem_of_lookup.
  assert (i = j) as <- by (eapply (NoDup_lookup _ _ _ h Hnd); by rewrite list_lookup_fmap, ?Hi, ?Hj). congruence.
Qed.

Lemma take_inv evs s s' : queue_inv evs s → take_action s = Some s' → queue_inv evs s'.
Proof.
  intros Hinv Hrun. unfold take_action in Hrun. apply bind_Some in Hrun as (action & Hact & [= <-]).
  set (n := taken s) in *. pose (s1 := mkQueue (queue_db s) (queue_open s) (sent s) (S n) (tasks s) (tracker s) (resolving s) (results s)).
  assert (∀ task, tasks s !! n ≠ Some task) as Hno by (intros task Ht; apply (qi_task _ _ Hinv) in Ht; unfold n in Ht; lia).
  assert (queue_inv evs s1) as Hinv1.
  { destruct Hinv as [Hn Hans Htask Hch Hexp Hres Hok]. split; cbn [s1 sent taken tasks tracker resolving results]; try done.
    - by apply lookup_lt_Some in Hact.
    - intros m h Hm. apply Hans in Hm. unfold n. lia.
    - intros m task Hm. destruct (Htask m task Hm) as (? & ? & ?). split_and!; [done|unfold n; lia|done].
    - intros event keys Hr. destruct (Hres _ _ Hr) as [? Hall]. split; [done|]. intros key Hin.
      destruct (Hall key Hin) as (? & (m & ? & ? & ?) & ?). split_and!; [done| |done]. exists m. split; [done|]. split; [cbn; lia|done]. }
  fold s1. destruct (executor_call action) as [call|e|]; [|by apply finish_inv; [done|done|intros ? ? ? Hx; by destruct (Hno _ Hx)]|done].
  apply (move_inv evs s1 n (Submitting action)); [done|done|cbn; lia|done| |].
  - intros a h ch. split; [done|]. apply Hno.
  - intros key Hk _. apply (qi_answered _ _ Hinv) in Hk. unfold n in Hk. lia.
Qed.

Lemma answer_inv evs s s' n r :
  queue_inv evs s → answer n r s = Some s' → queue_inv (evs ++ [EvAnswer n r]) s'.
Proof.
  intros Hinv Hrun. unfold answer in Hrun. destruct (tasks s !! n) as [[action| |]|] eqn:Ht; try done.
  destruct (qi_task _ _ Hinv _ _ Ht) as (Hsent & Hlt & _).
  apply (queue_inv_snoc _ (EvAnswer n r)) in Hinv; [|by intros m h [= <- _]].
  assert (∀ h, r = Ok h → (n, h) ∈ answered (evs ++ [EvAnswer n r])) as Hin.
  { intros h ->. unfold answered. rewrite omap_app, elem_of_app. right. by left. }
  assert (∀ a' h channel, tasks s !! n ≠ Some (Awaiting a' h channel)) as Hno by (intros; by rewrite Ht).
  destruct r as [tx_hash|e|]; [|injection Hrun as <-; by apply finish_inv; [done|done|intros ? ? ? Hx; by destruct (Hno _ _ _ Hx)]|done].
  destruct (expectation_of action tx_hash) as [exp|] eqn:He; injection Hrun as <-.
  - assert (exp_tx_hash exp = tx_hash) as Hh by (destruct action; cbn in He; by simplify_eq).
    apply move_inv; [done|done|done| | |].
    + split; [rewrite Hh; by apply Hin|]. unfold tracked. by rewrite Hh.
    + intros a h ch. split; [done|]. apply Hno.
    + intros key _ [_ Hpast]. destruct (Hpast _ Ht) as (? & ? & ? & [=]).
  - apply finish_inv; [done| |intros ? ? ? Hx; by destruct (Hno _ _ _ Hx)].
    intros c [= <-]. split_and!; [done|by apply Hin|done].
Qed.

Lemma register_inv evs s s' n :
  NoDup (answered evs).*2 → queue_inv evs s → register n s = Some s' → queue_inv evs s'.
Proof.
  intros Hnd Hinv Hrun. unfold register in Hrun. destruct (tasks s !! n) as [[|action exp|]|] eqn:Ht; try done.
  destruct (qi_task _ _ Hinv _ _ Ht) as (Hsent & Hlt & Hin & Htr).
  unfold register_expectation in Hrun. destruct (expectations (tracker s) !! exp_tx_hash exp) as [x|] eqn:Hx; injection Hrun as <-.
  { apply finish_inv; [by destruct s|done|]. cbn. intros ? ? ?. by rewrite Ht. }
  assert (∀ a h channel, tasks s !! n ≠ Some (Awaiting a h channel)) as Hno by (intros; by rewrite Ht).
  destruct Hinv as [Hn Hans Htask Hch Hexp Hres Hok].
  split; cbn [sent taken tasks tracker resolving results set_tasks set_tracker expectations receivers next_channel]; try done.
  - intros m task [[<- <-]|[_ Hm]]%lookup_insert_Some.
    + split_and!; [done..|]. cbn. split_and!; [done|lia|]. intros event. by rewrite lookup_insert_eq.
    + destruct (Htask m task Hm) as (? & ? & Hk). split_and!; [done..|]. destruct task as [|a e|a h ch]; [done..|].
      cbn in *. destruct Hk as (? & Hlc & Hk). split_and!; [done|lia|]. intros event. rewrite lookup_insert_ne by lia. intros Hev.
      destruct (Hk event Hev) as [? Hfree]. split; [done|]. intros e [[_ [= _ Hc]]|[_ He]]%lookup_insert_Some; [lia|by eapply Hfree].
  - intros m m' b b' h h' ch [[<- [= <- <- <-]]|[_ Hm]]%lookup_insert_Some [[<- Hx']|[_ Hm']]%lookup_insert_Some; [done| | |by eapply Hch].
    + apply Htask in Hm' as (_ & _ & _ & Hm' & _). lia.
    + injection Hx' as <- <- <-. apply Htask in Hm as (_ & _ & _ & Hm & _). lia.
  - intros h e ch [[<- [= <- <-]]|[_ He]]%lookup_insert_Some.
    + exists n, action. split; [by rewrite lookup_insert_eq|done].
    + destruct (Hexp h e ch He) as (m & b & Hm & ?). exists m, b. split; [|done]. rewrite lookup_insert_ne; [done|].
      intros <-. by eapply Hno.
  - intros event keys Hr. destruct (Hres _ _ Hr) as [? Hall]. split; [done|]. intros key Hk.
    destruct (Hall key Hk) as (? & (m & Ha & Hlm & Hpast) & Hp).
    assert (m ≠ n) as Hmn by (intros ->; by destruct (Hpast _ Ht) as (? & ? & ? & [=])).
    split_and!; [done| |].
    + exists m. split; [done|]. split; [done|]. cbn. intros task. rewrite lookup_insert_ne by done. apply Hpast.
    + intros e ch [[<- _]|[_ He]]%lookup_insert_Some; [|by eapply Hp]. destruct Hmn. by eapply answered_unique.
Qed.

Lemma poll_inv evs s s' n timed_out : queue_inv evs s → poll n timed_out s = Some s' → queue_inv evs s'.
Proof.
  intros Hinv Hrun. unfold poll in Hrun. destruct (tasks s !! n) as [[| |action h channel]|] eqn:Ht; try done.
  destruct (qi_task _ _ Hinv _ _ Ht) as (Hsent & Hlt & Hin & Hlc & Hev).
  assert (∀ e, queue_inv evs (finish n action (Err e)
    (set_tracker (receiver_drop channel (unregister_expectation h (tracker s))) s))) as Hgave.
  { intros e. pose proof (shrinks_trans _ _ _ (unregister_shrinks h (tracker s)) (receiver_drop_shrinks channel _)) as Hs.
    apply finish_inv; [by apply queue_inv_shrinks|done|]. cbn. intros a' h' ch Ha h1 exp Hx. rewrite Ht in Ha. injection Ha as <- <- <-.
    apply (proj1 (proj2 Hs)) in Hx as Hx'. destruct (qi_expectation _ _ Hinv _ _ _ Hx') as (m & b & Hm & _ & _).
    pose proof (qi_channel _ _ Hinv _ _ _ _ _ _ _ Ht Hm) as <-. rewrite Ht in Hm. injection Hm as <- <-.
    by apply unregistered_key in Hx. }
  destruct (receivers (tracker s) !! channel) as [[|event|]|] eqn:Hr;
    [destruct timed_out; [|done]|..]; injection Hrun as <-; try apply Hgave.
  destruct (Hev event eq_refl) as [(Hh & Heq & Hc) Hfree].
  apply finish_inv; [apply queue_inv_shrinks; [done|apply receiver_drop_shrinks]| |].
  - intros c [= <-]. split_and!; [done|by rewrite Heq|]. cbn. by destruct event.
  - cbn. intros a' h' ch Ha h1 exp Hx. rewrite Ht in Ha. injection Ha as <- <- <-.
    destruct (qi_expectation _ _ Hinv _ _ _ Hx) as (m & b & Hm & _ & _).
    pose proof (qi_channel _ _ Hinv _ _ _ _ _ _ _ Ht Hm) as <-. rewrite Ht in Hm. injection Hm as <- <-. by eapply Hfree.
Qed.

Lemma match_inv evs s event :
  queue_inv evs s → resolving s = None →
  queue_inv (evs ++ [EvMatch event]) (set_resolving (Some (event, matched_keys event (tracker s))) s).
Proof.
  intros Hinv Hnone. apply (queue_inv_snoc _ (EvMatch event)) in Hinv; [|done].
  assert (event ∈ handled (evs ++ [EvMatch event])) as Hin by (unfold handled; rewrite omap_app, elem_of_app; right; by left).
  destruct Hinv as [Hn Hans Htask Hch Hexp Hres Hok]. split; try done. cbn.
  intros event' keys [= <- <-]. split; [done|]. intros key Hk. unfold matched_keys in Hk.
  apply list_elem_of_fmap in Hk as ([k [exp ch]] & -> & [Htest Hk]%list_elem_of_filter). cbn in *.
  apply elem_of_map_to_list in Hk. apply andb_prop in Htest as [Hh%bool_decide_eq_true Hp].
  destruct (Hexp _ _ _ Hk) as (m & a & Hm & Hexh & _). split_and!; [congruence| |].
  - exists m. destruct (Htask _ _ Hm) as (_ & Hlt & Ha & _). split; [done|]. split; [done|]. cbn. intros task Htk.
    rewrite Hm in Htk. injection Htk as <-. by eauto.
  - intros e c Hx. rewrite Hk in Hx. by injection Hx as <- _.
Qed.

Lemma step_inv evs ev s s' :
  NoDup (answered evs).*2 → queue_inv evs s → queue_step ev s = Some s' → queue_inv (evs ++ [ev]) s'.
Proof.
  intros Hnd Hinv Hrun.
  destruct ev as [action| |n r|n|event| |n timed_out|db]; cbn in Hrun.
  3: by apply (answer_inv _ s).
  4: destruct (resolving s) eqn:Hr; [done|]; injection Hrun as <-; by apply match_inv.
  all: apply queue_inv_snoc; [|by intros].
  - destruct (queue_open s); [|done]. injection Hrun as <-. destruct Hinv as [Hn Hans Htask Hch Hexp Hres Hok]. split; try done.
    + cbn. rewrite length_app. lia.
    + intros n task Ht. destruct (Htask n task Ht) as (? & ? & ?). split_and!; [by apply lookup_app_l_Some|done..].
    + intros n c Hc. destruct (Hok n c Hc) as (? & ? & ?). split_and!; [by apply lookup_app_l_Some|done..].
  - by eapply take_inv.
  - by eapply register_inv.
  - destruct (resolving s) as [[event keys]|] eqn:Hr; [|done]. injection Hrun as <-.
    destruct (qi_resolving _ _ Hinv _ _ Hr) as [Hin Hk].
    assert (queue_inv evs (set_tracker (resolve_keys event keys (tracker s)).1 s)) as [] by
      (apply resolve_inv; [done..|]; intros key Hkey; by destruct (Hk key Hkey) as (? & _ & ?)).
    by split.
  - by eapply poll_inv.
  - injection Hrun as <-. by destruct Hinv; split.
Qed.

Lemma run_inv evs0 evs s s' :
  NoDup (answered (evs0 ++ evs)).*2 → queue_inv evs0 s → queue_run evs s = Some s' → queue_inv (evs0 ++ evs) s'.
Proof.
  revert evs0 s. induction evs as [|ev evs IH]; intros evs0 s Hnd Hinv Hrun.
  { injection Hrun as <-. by rewrite app_nil_r. }
  cbn in Hrun. apply bind_Some in Hrun as (s1 & Hs1 & Hrun). rewrite cons_middle, app_assoc in Hnd |- *.
  apply (IH _ s1); [done| |done]. apply (step_inv _ _ s); [|done..].
  unfold answered in Hnd |- *. rewrite !omap_app, !fmap_app in Hnd. by apply NoDup_app in Hnd as [[? _]%NoDup_app _].
Qed.

(** C11. An action is confirmed by an event of its own transaction only.  In any
    interleaving of senders, the loop, the tasks, the executor's answers and
    the indexer's two-phase matching, when every transaction has a hash of its
    own, a confirmation names the action that was sent under its number and
    the hash that the executor gave for it; its event was seen by the indexer
    in that transaction and is one the action waits for, and only withdrawals
    are confirmed without an event. *)
Theorem confirmed_by_own_event (evs : list QueueEvent) (db : HoprDb) (s : QueueState) (n : nat) (c : ActionConfirmation) :
  queue_run evs (queue_new db) = Some s → NoDup (answered evs).*2 → results s !! n = Some (Ok c) →
  sent s !! n = Some (cf_action c) ∧ (n, cf_tx_hash c) ∈ answered evs ∧
  match cf_event c with
  | Some event =>
      mkSignificant (cf_tx_hash c) event ∈ handled evs ∧ confirms (cf_action c) event = true
  | None => expectation_of (cf_action c) (cf_tx_hash c) = None
  end.
Proof.
  intros Hrun Hnd Hc. pose proof (run_inv [] evs _ _ Hnd (queue_inv_new db) Hrun) as Hinv.
  destruct (qi_result _ _ Hinv _ _ Hc) as (Hs & Ha & Hev). split; [done|]. split; [done|].
  destruct (cf_event c); [|done]. by destruct Hev as (? & _ & ?).
Qed.

(** ** Losing an event *)
Lemma filter_map_none {A} (P : A → Prop) `{!∀ x, Decision (P x)} (l : list A) : (∀ x, x ∈ l → ¬ P x) → filter P l = [].
Proof.
  induction l as [|x l IH]; [done|]. intros Hno. rewrite filter_cons_False; [|apply Hno; by left].
  apply IH. intros y Hy. apply Hno. by right.
Qed.

(** An event that the indexer handles between the submission of a transaction
    and the registration of its expectation is lost: with no other event the
    action times out, and a redemption gives back what is still stored of its
    ticket. *)
Lemma early_event_times_out (s : QueueState) (n : nat) (action : Action) (exp : IndexerExpectation) (event : SignificantChainEvent) :
  tasks s !! n = Some (Registering action exp) → resolving s = None →
  (∀ h x, expectations (tracker s) !! h = Some x → h ≠ sce_tx_hash event ∧ exp_tx_hash x.1 = h) →
  expectation_test exp event = true →
  ∃ s', queue_run [EvMatch event; EvResolve; EvRegister n; EvPoll n true] s = Some s' ∧
    results s' !! n = Some (Err Timeout) ∧ tasks s' !! n = None ∧
    queue_db s' = match action with
                  | RedeemTicket ack => (on_tickets (update_ticket_states (selector_of_redeemable ack) Untouched) (queue_db s)).1
                  | _ => queue_db s
                  end.
Proof.
  intros Ht Hr Hexp Htest. apply andb_prop in Htest as [Hh%bool_decide_eq_true _].
  assert (matched_keys event (tracker s) = []) as Hkeys.
  { unfold matched_keys. rewrite filter_map_none; [done|]. intros [h [e ch]] Hin Htest. apply elem_of_map_to_list in Hin.
    destruct (Hexp _ _ Hin) as [Hne Heq]. cbn in *. apply andb_prop in Htest as [Ht'%bool_decide_eq_true _]. congruence. }
  assert (expectations (tracker s) !! exp_tx_hash exp = None) as Hnone.
  { destruct (expectations (tracker s) !! exp_tx_hash exp) as [x|] eqn:Hx; [|done]. destruct (Hexp _ _ Hx) as [Hne _]. congruence. }
  cbn [queue_run queue_step]. rewrite Hr. cbn. rewrite Hkeys. cbn. unfold register. cbn. rewrite Ht.
  unfold register_expectation. cbn. rewrite Hnone. cbn. unfold poll. cbn. rewrite lookup_insert_eq. cbn.
  rewrite lookup_insert_eq. eexists. split; [done|]. cbn. split; [by rewrite lookup_insert_eq|]. split; [by rewrite lookup_delete_eq|done].
Qed.
End Queue.
