(* ===== verification/RedeemSpec.v ===== *)
(** * Redeeming tickets

    What the redemption of tickets does to the ticket table and the queue: the
    selected untouched tickets are marked and submitted, no ticket is submitted
    again while its redemption is under way, and a failed redemption puts the
    ticket back. *)
From Stdlib Require Import Floats.SpecFloat.
From stdpp Require Import gmap strings relations.
From S2P Require Import Prelude Primitives Crypto Channels Tickets SharedKeys MetaPacket Packet.
From S2P Require Import TicketStore TicketStoreSpec TicketIndexSpec TicketTable Protocol NodeDb NodeDbSpec NodeProtocol NodeProtocolSpec.
From S2P Require Import Indexer IndexerSpec IndexerFacts Aggregation AggregationSpec PrepareSpec Actions ActionsSpec.

Section Redeem.
Context `{!Secp256k1, !Secp256k1Laws} `{!Curve25519} `{!Ed25519} `{!HexCodec, !HexCodecLaws}.
Context `{!ScanOrder, !ScanOrderLaws} `{!Multiaddrs} `{!MultiaddrProtocols} `{!FloatCmp}.
#[local] Set Default Proof Using "Type*".

(** ** Fetching and marking *)
(** Among the tickets of a list. *)
Definition among (l : list AcknowledgedTicket) (a : AcknowledgedTicket) : bool :=
  bool_decide (ticket_of a ∈ ticket_of <$> l).

Lemma mark_if_twice (c c' : AcknowledgedTicket → bool) st (l : list AcknowledgedTicket) :
  (∀ a, c (with_status st a) = c a) →
  mark_if c st <$> (mark_if c' st <$> l) = mark_if (λ a, c' a || c a) st <$> l.
Proof using Type.
  intros Hc. rewrite <-list_fmap_compose. apply list_fmap_ext. intros i a _. unfold compose, mark_if at 1 3.
  unfold mark_if. destruct (c' a); cbn; [|done]. rewrite Hc. by destruct (c a).
Qed.

Lemma mark_if_ext (c c' : AcknowledgedTicket → bool) st (l : list AcknowledgedTicket) :
  (∀ a, a ∈ l → c a = c' a) → mark_if c st <$> l = mark_if c' st <$> l.
Proof using Type.
  intros Hc. apply list_fmap_ext. intros i a Ha. unfold mark_if. rewrite Hc; [done|]. by eapply list_elem_of_lookup_2.
Qed.

Lemma ticket_of_with_status st a : ticket_of (with_status st a) = ticket_of a.
Proof using Type. done. Qed.

Lemma same_tickets_position l m i j a b :
  holds l m → l !! i = Some a → l !! j = Some b → ticket_of a = ticket_of b → i = j.
Proof. intros Hh Ha Hb Heq. by eapply holds_position; [done..| | |]; rewrite Heq. Qed.

(** One row of the table, found again by its number. *)
Lemma mark_one st r a l m i r0 a0 :
  holds l m → tickets (tickets_db m) !! i = Some r0 → m_id r0 = m_id r → l !! i = Some a0 → ticket_of a0 = ticket_of a →
  ∃ m', in_tx (update_many (λ r', m_id r' =? m_id r) (AcknowledgedTicketStatus_repr st)) m = (m', Ok 1%nat) ∧
    holds (mark_if (among [a]) st <$> l) m' ∧ (m_id <$> tickets (tickets_db m')) = (m_id <$> tickets (tickets_db m)) ∧
    index_cache m' = index_cache m ∧ outgoing_indices (tickets_db m') = outgoing_indices (tickets_db m).
Proof.
  intros Hh Hr0 Hid Ha0 Heq.
  assert (∀ j b, l !! j = Some b → among [a] b = bool_decide (j = i)) as Hamong.
  { intros j b Hb. unfold among. apply bool_decide_ext. cbn. rewrite list_elem_of_singleton. split.
    - intros Hab. symmetry. eapply (same_tickets_position l m i j a0 b); [done..|congruence].
    - intros ->. congruence. }
  assert (Forall2 (λ r' a', (m_id r' =? m_id r) = among [a] a') (tickets (tickets_db m)) l) as HC.
  { apply Forall2_same_length_lookup_2; [by eapply Forall2_length, hd_rows|]. intros j r' b Hr' Hb. rewrite (Hamong j b Hb).
    destruct (Z.eqb_spec (m_id r') (m_id r)) as [Hj|Hj]; symmetry; [apply bool_decide_eq_true|apply bool_decide_eq_false; congruence].
    eapply (NoDup_lookup (m_id <$> tickets (tickets_db m)) _ _ (m_id r)); [apply (wf_ids _ (hd_store _ _ Hh))|..];
      rewrite list_lookup_fmap, ?Hr', ?Hr0; cbn; congruence. }
  destruct (update_many_at _ (among [a]) st l m Hh HC) as (d' & Hup & Hh' & Hids & _ & Hout).
  assert (length (filter (among [a]) l) = 1%nat) as Hlen.
  { clear -Ha0 Hamong. revert i Ha0 Hamong. induction l as [|b l IH]; intros i Ha0 Hamong; [done|].
    rewrite filter_cons_bool, (Hamong 0%nat b eq_refl). destruct i as [|i].
    - cbn. rewrite filter_none; [done|]. intros x [j Hj]%list_elem_of_lookup. by rewrite (Hamong (S j) x Hj).
    - cbn. apply (IH i Ha0). intros j x Hj. rewrite (Hamong (S j) x Hj). apply bool_decide_ext. lia. }
  exists (set_tickets_db d' m). unfold in_tx. rewrite Hup, Hlen. by destruct m.
Qed.

(** One item of the stream. *)
Lemma fetched_one st r a l m i r0 a0 :
  holds l m → row_of_acknowledged r a →
  tickets (tickets_db m) !! i = Some r0 → m_id r0 = m_id r → l !! i = Some a0 → ticket_of a0 = ticket_of a →
  ∃ m', update_fetched r st m = (m', Ok (Some (with_status st a))) ∧
    holds (mark_if (among [a]) st <$> l) m' ∧ (m_id <$> tickets (tickets_db m')) = (m_id <$> tickets (tickets_db m)) ∧
    index_cache m' = index_cache m ∧ outgoing_indices (tickets_db m') = outgoing_indices (tickets_db m).
Proof.
  intros Hh Hra Hr0 Hid Ha0 Heq. destruct (mark_one st r a l m i r0 a0 Hh Hr0 Hid Ha0 Heq) as (m1 & Hrun & Hrest).
  exists m1. split; [|exact Hrest]. unfold update_fetched. rewrite (run_Ok _ _ _ _ _ Hrun).
  pose proof (mapM_rows [r] [a] ltac:(by constructor)) as Hdec. cbn in Hdec.
  destruct (AcknowledgedTicket_try_from r) as [t| |]; [|done|done]. by injection Hdec as ->.
Qed.

Lemma fetch_loop_holds st rows as_ l m :
  holds l m → Forall2 row_of_acknowledged rows as_ → NoDup (ticket_of <$> as_) →
  Forall2 (λ r a, ∃ i r0 a0, tickets (tickets_db m) !! i = Some r0 ∧ m_id r0 = m_id r ∧ l !! i = Some a0 ∧ ticket_of a0 = ticket_of a) rows as_ →
  ∃ m', update_and_fetch_loop rows st m = (m', Ok (with_status st <$> as_)) ∧
    holds (mark_if (among as_) st <$> l) m' ∧
    index_cache m' = index_cache m ∧ outgoing_indices (tickets_db m') = outgoing_indices (tickets_db m).
Proof.
  intros Hh Hrows. revert l m Hh. induction Hrows as [|r a rows as_ Hra Hrows IH]; intros l m Hh Hnd Hpos.
  { exists m. split; [done|]. split; [|done]. rewrite (mark_if_ext _ (λ _, false)); [by rewrite list_fmap_id|].
    intros b _. unfold among. apply bool_decide_eq_false. apply not_elem_of_nil. }
  apply Forall2_cons_1 in Hpos as [(i & r0 & a0 & Hr0 & Hid & Ha0 & Heq) Hpos].
  destruct (fetched_one st r a l m i r0 a0 Hh Hra Hr0 Hid Ha0 Heq) as (m1 & Hrun & Hh1 & Hids & Hc1 & Ho1).
  apply NoDup_cons in Hnd as [Hnin Hnd].
  destruct (IH _ m1 Hh1 Hnd) as (m' & Hrest & Hh' & Hc & Ho).
  { eapply Forall2_impl; [exact Hpos|]. intros r1 a1 (j & r2 & a2 & Hr2 & Hid2 & Ha2 & Heq2).
    destruct (lookup_lt_is_Some_2 (tickets (tickets_db m1)) j) as [r3 Hr3].
    { rewrite <-(length_fmap m_id), Hids, length_fmap. by eapply lookup_lt_Some. }
    exists j, r3, (mark_if (among [a]) st a2). split; [done|].
    assert (m_id <$> tickets (tickets_db m1) !! j = m_id <$> tickets (tickets_db m) !! j) as Hj by (by rewrite <-!list_lookup_fmap, Hids).
    rewrite Hr3, Hr2 in Hj. injection Hj as Hj. split; [congruence|]. rewrite list_lookup_fmap, Ha2. split; [done|].
    by rewrite ticket_of_marked. }
  exists m'. cbn [update_and_fetch_loop]. rewrite (run_Ok _ _ _ _ _ Hrun).
  rewrite (run_Ok _ _ _ _ _ Hrest). split; [done|]. split; [|split; congruence].
  rewrite mark_if_twice in Hh' by done. rewrite (mark_if_ext _ (among (a :: as_))) in Hh'; [done|].
  intros b _. unfold among. rewrite <-bool_decide_or. apply bool_decide_ext. cbn. rewrite list_elem_of_singleton, elem_of_cons. done.
Qed.

Lemma holds_tickets_NoDup l m : holds l m → NoDup (ticket_of <$> l).
Proof.
  intros Hh. apply NoDup_alt. intros i j t Hi Hj. rewrite list_lookup_fmap in Hi, Hj.
  destruct (l !! i) as [a|] eqn:Ha; [|done]. destruct (l !! j) as [b|] eqn:Hb; [|done]. cbn in *.
  eapply same_tickets_position; [done..|congruence].
Qed.

Lemma selected_positions s l m rows as_ :
  holds l m → rows ≡ₚ filter (into_condition s) (tickets (tickets_db m)) → Forall2 row_of_acknowledged rows as_ →
  Forall2 (λ r a, ∃ i r0 a0, tickets (tickets_db m) !! i = Some r0 ∧ m_id r0 = m_id r ∧ l !! i = Some a0 ∧ ticket_of a0 = ticket_of a) rows as_.
Proof.
  intros Hh Hp Hrows. apply Forall2_same_length_lookup_2; [by eapply Forall2_length|]. intros k r a Hr Ha.
  pose proof (Forall2_lookup_lr _ _ _ _ _ _ Hrows Hr Ha) as Hra.
  assert (r ∈ tickets (tickets_db m)) as [i Hi]%list_elem_of_lookup.
  { apply list_elem_of_lookup_2 in Hr. rewrite Hp in Hr. by apply list_elem_of_filter in Hr as [_ ?]. }
  destruct (Forall2_lookup_l _ _ _ _ _ (hd_rows _ _ Hh) Hi) as (a0 & Ha0 & Hra0).
  exists i, r, a0. by rewrite (row_decodes r a a0).
Qed.

Lemma fetch_holds s st l m :
  holds l m → selector_typed s →
  ∃ l' m', l' ≡ₚ filter (selects s) l ∧ update_ticket_states_and_fetch s st m = (m', Ok (with_status st <$> l')) ∧
    (∀ a, l' = [a] → update_state_and_fetch_next s st m = (m', Ok (Some (with_status st a)))) ∧
    (l' = [] → update_state_and_fetch_next s st m = (m', Ok None)) ∧
    holds (mark_if (selects s) st <$> l) m' ∧
    index_cache m' = index_cache m ∧ outgoing_indices (tickets_db m') = outgoing_indices (tickets_db m).
Proof.
  intros Hh Hs. pose proof (hd_rows _ _ Hh) as Hrows.
  assert (Forall2 row_of_acknowledged (filter (into_condition s) (tickets (tickets_db m))) (filter (selects s) l)) as Hf
    by (apply Forall2_filter; [done|]; intros r a Hra; by rewrite (row_selected s r a)).
  destruct (Forall2_permuted _ _ _ _ Hf (scan_permutation _ _)) as (l' & Hf' & Hp).
  set (rows := scan (filter (into_condition s) (tickets (tickets_db m)))) in *.
  assert (NoDup (ticket_of <$> l')) as Hnd by (rewrite Hp; apply NoDup_fmap_filter; by eapply holds_tickets_NoDup).
  destruct (fetch_loop_holds st rows l' l m Hh Hf' Hnd) as (m' & Hrun & Hh' & Hc & Ho).
  { apply (selected_positions s); [done|apply scan_permutation|done]. }
  exists l', m'. split; [done|].
  unfold update_ticket_states_and_fetch, update_state_and_fetch_next, open_ticket_stream, find_where. autorewrite with run. fold rows.
  split; [done|]. split_and!; [| | |done|done].
  - intros a ->. apply Forall2_cons_inv_r in Hf' as (r & rows' & Hra & Hnil & Hrs). apply Forall2_nil_inv_r in Hnil as ->.
    rewrite Hrs in Hrun |- *. cbn [update_and_fetch_loop fetch_next] in Hrun |- *.
    apply run_Ok_inv in Hrun as (m1 & o & Hup & Hrun). rewrite (run_Ok _ _ _ _ _ Hup).
    autorewrite with run in Hrun. injection Hrun as -> Ho'. destruct o as [t|]; [|done]. by injection Ho' as ->.
  - intros ->. apply Forall2_nil_inv_r in Hf' as Hrs. rewrite Hrs in Hrun |- *. by injection Hrun as ->.
  - rewrite (mark_if_ext (selects s) (among l')); [done|]. intros a Ha. unfold among. apply eq_iff_eq_true.
    rewrite bool_decide_eq_true, Hp, list_elem_of_fmap. split.
    + intros Hsel. exists a. split; [done|]. by apply list_elem_of_filter; rewrite Hsel.
    + intros (b & Heq & Hb). apply list_elem_of_filter in Hb as [Hsel Hb].
      replace a with b; [by apply Is_true_eq_true|].
      apply (holds_unique l m b a Hh Hb Ha); by rewrite Heq.
Qed.

(** ** Running on the parts of the state *)
Lemma index_frame v l' (db : HoprDb) m' :
  indexed v db → holds l' m' → index_cache m' = index_cache (ticket_manager db) →
  outgoing_indices (tickets_db m') = outgoing_indices (tickets_db (ticket_manager db)) →
  indexed (v.1, l') (set_ticket_manager m' db).
Proof.
  intros Hix Hh Hc Ho. apply ticket_op_indexed; [done..|]. destruct (ix_indices _ _ Hix) as [Hr Hk].
  by split; rewrite ?Hc, ?Ho.
Qed.

Lemma on_db_with_Ok {A} wrap (m : SM HoprDb DbSqlError A) s db' a :
  m (queue_db s) = (db', Ok a) → on_db_with wrap m s = (set_queue_db db' s, Ok a).
Proof using Type. unfold on_db_with. by intros ->. Qed.

Lemma on_ticket_db_Ok {A} (f : SM TicketManager DbSqlError A) s m' a :
  f (ticket_manager (queue_db s)) = (m', Ok a) → on_ticket_db f s = (set_queue_db (set_ticket_manager m' (queue_db s)) s, Ok a).
Proof using Type. intros Hf. apply on_db_with_Ok. unfold on_tickets. by rewrite Hf. Qed.

Lemma get_tickets_value_run sel l m :
  holds l m → selector_typed sel → ∃ value, get_tickets_value sel m = (m, Ok (length (filter (selects sel) l), value)).
Proof.
  intros Hh Hs. unfold get_tickets_value, perform.
  rewrite get_tickets_value_int_ok by apply Hh.
  assert (length (filter (into_condition sel) (tickets (tickets_db m))) = length (filter (selects sel) l)) as ->.
  { eapply Forall2_length, (Forall2_filter row_of_acknowledged); [apply Hh|]. intros r a Hra. by rewrite (row_selected sel r a). }
  eexists. by destruct m.
Qed.

(** ** Submitting *)
Definition push_all (rs : list RedeemableTicket) (s : QueueState) : QueueState :=
  mkQueue (queue_db s) (queue_open s) (sent s ++ (RedeemTicket <$> rs)) (taken s) (tasks s) (tracker s) (resolving s) (results s).

Lemma push_all_cons r rs s : push_all rs (push_action (RedeemTicket r) s) = push_all (r :: rs) s.
Proof using Type. unfold push_all, push_action. cbn. by rewrite <-app_assoc. Qed.

(** The redeemable tickets made of some of the tickets. *)
Definition made_of (rs : list RedeemableTicket) (ts : list AcknowledgedTicket) : Prop :=
  Forall2 (λ r a, r_ticket r = Tickets.ack_ticket a) rs ts.

Lemma into_redeemable_ticket random a kp dst r : into_redeemable random a kp dst = Ok r → r_ticket r = Tickets.ack_ticket a.
Proof using Type.
  unfold into_redeemable. case_bool_decide; [done|]. intros Hr. apply bind_Ok in Hr as (vrf & _ & [= <-]). done.
Qed.

Lemma redeem_stream_run ts randoms kp dst s s' o :
  redeem_stream ts randoms kp dst s = (s', o) →
  ∃ rs ts', s' = push_all rs s ∧ ts' `sublist_of` ts ∧ made_of rs ts' ∧
    ∀ ns, o = Ok ns → ns = seq (length (sent s)) (length rs) ∧
      (queue_open s = true → ∀ a, a ∈ ts → (∀ random, ∃ r, into_redeemable random a kp dst = Ok r) → a ∈ ts').
Proof using Type.
  revert randoms s s' o. induction ts as [|a ts IH]; intros randoms s s' o Hrun.
  { injection Hrun as <- <-. exists [], []. split_and!; [by destruct s; unfold push_all; cbn; rewrite app_nil_r|done|constructor|].
    intros ns [= <-]. split; [done|]. intros _ a Ha. by apply elem_of_nil in Ha. }
  cbn [redeem_stream] in Hrun. destruct (into_redeemable _ a kp dst) as [r| |] eqn:Hr.
  2: { destruct (IH _ _ _ _ Hrun) as (rs & ts' & -> & Hs & Hm & Hns). exists rs, ts'. split_and!; [done|by constructor|done|].
       intros ns Ho. destruct (Hns ns Ho) as [? Hall]. split; [done|]. intros Hop b [->|Hb]%elem_of_cons Hred; [|by apply Hall].
       destruct (Hred (default [] (head randoms))) as [? Hx]. by rewrite Hr in Hx. }
  2: { injection Hrun as <- <-. exists [], []. split_and!; [by destruct s; unfold push_all; cbn; rewrite app_nil_r|apply sublist_nil_l|constructor|done]. }
  apply into_redeemable_ticket in Hr as Ht. unfold send in Hrun. destruct (queue_open s) eqn:Hop.
  - unfold mbind, SM_bind in Hrun. destruct (redeem_stream ts (tail randoms) kp dst _) as [s1 o1] eqn:Hrest.
    destruct (IH _ _ _ _ Hrest) as (rs & ts' & Hs1 & Hs & Hm & Hns). rewrite push_all_cons in Hs1.
    exists (r :: rs), (a :: ts'). destruct o1 as [ns1|e|]; injection Hrun as <- <-;
      (split_and!; [done|by constructor|by constructor|intros ns Hns'; try done]).
    injection Hns' as <-. destruct (Hns ns1 eq_refl) as [-> Hall]. cbn. rewrite length_app, Nat.add_comm. cbn. split; [done|].
    intros _ b [->|Hb]%elem_of_cons Hred; [by left|right; by apply Hall].
  - destruct (IH _ _ _ _ Hrun) as (rs & ts' & -> & Hs & Hm & Hns). exists rs, ts'. split_and!; [done|by constructor|done|].
    intros ns Ho. destruct (Hns ns Ho) as [? _]. by split.
Qed.

Lemma redeem_stream_no_panic ts randoms kp a dst s :
  ChainKeypair_wf kp a → ∃ s' ns, redeem_stream ts randoms kp dst s = (s', Ok ns).
Proof.
  intros Hkp. revert randoms s. induction ts as [|t ts IH]; intros randoms s; [by do 2 eexists|]. cbn [redeem_stream].
  destruct (into_redeemable _ t kp dst) as [r| |] eqn:Hr; [|apply IH|].
  - unfold send. destruct (queue_open s); [|apply IH].
    destruct (IH (tail randoms) (push_action (RedeemTicket r) s)) as (s' & ns & Hrun). rewrite (run_Ok _ _ _ _ _ Hrun). by do 2 eexists.
  - exfalso. unfold into_redeemable in Hr. case_bool_decide; [done|].
    destruct (derive_vrf_parameters _ _ kp dst) eqn:Hv; try done. by eapply derive_vrf_no_panic.
Qed.

(** ** Redeeming by a selector *)
Lemma set_queue_db_same s : set_queue_db (queue_db s) s = s.
Proof using Type. by destruct s. Qed.

Lemma push_all_nil s : push_all [] s = s.
Proof using Type. unfold push_all. cbn. rewrite app_nil_r. by destruct s. Qed.

Lemma filter_nil_mark sel st l : filter (selects sel) l = [] → mark_if (selects sel) st <$> l = l.
Proof using Type.
  intros Hnil. rewrite (mark_if_ext _ (λ _, false)); [by rewrite list_fmap_id|]. intros a Ha.
  destruct (selects sel a) eqn:Hs; [|done]. exfalso. apply (not_elem_of_nil a). rewrite <-Hnil.
  apply list_elem_of_filter. by rewrite Hs.
Qed.

(** What a redemption does, however it ends: the submitted tickets are among
    the selected ones, which are marked all or none. *)
Record redeems (sel : TicketSelector) (v : View) (s s' : QueueState) (rs : list RedeemableTicket)
    (chosen : list AcknowledgedTicket) : Prop := {
  rt_sent : sent s' = sent s ++ (RedeemTicket <$> rs);
  rt_made : made_of rs chosen;
  rt_chosen : chosen ⊆+ filter (selects sel) v.2;
  rt_queue : queue_open s' = queue_open s ∧ taken s' = taken s ∧ tasks s' = tasks s ∧ tracker s' = tracker s ∧
    resolving s' = resolving s ∧ results s' = results s;
  rt_db : rs = [] ∧ indexed v (queue_db s') ∨ indexed (v.1, mark_if (selects sel) BeingRedeemed <$> v.2) (queue_db s');
  rt_me : me_onchain (queue_db s') = me_onchain (queue_db s) ∧ chain_key (queue_db s') = chain_key (queue_db s)
}.

Lemma redeems_none sel v s db' :
  indexed v db' → me_onchain db' = me_onchain (queue_db s) → chain_key db' = chain_key (queue_db s) →
  redeems sel v s (set_queue_db db' s) [] [].
Proof using Type.
  intros Hix Hm Hk. split; try done; [by rewrite app_nil_r|constructor|apply submseteq_nil_l|by left].
Qed.

Lemma channel_dst_run s :
  ∃ o, channel_dst s = (set_queue_db (get_indexer_data (queue_db s)).1 s, o) ∧
    ∀ dst, o = Ok dst ↔ ∃ data, (get_indexer_data (queue_db s)).2 = Ok data ∧ channels_dst data = Some dst.
Proof using Type.
  unfold channel_dst, on_index, on_db_with, mbind, SM_bind. destruct (get_indexer_data (queue_db s)) as [db1 [data|e|]]; cbn.
  - destruct (channels_dst data) as [d|] eqn:Hd; eexists; (split; [done|]); intros dst; split;
      [by intros [= <-]; exists data|intros (? & [= <-] & ?); congruence|done|intros (? & [= <-] & ?); congruence].
  - eexists. split; [done|]. intros dst. split; [done|]. by intros (? & ? & _).
  - eexists. split; [done|]. intros dst. split; [done|]. by intros (? & ? & _).
Qed.

Lemma sublist_fmap_inv {A B} (f : A → B) l k : k `sublist_of` f <$> l → ∃ l', l' `sublist_of` l ∧ k = f <$> l'.
Proof using Type.
  intros Hs. destruct (Forall2_sublist_l (λ y x, y = f x) (f <$> l) l k) as (l' & Hl & Hk); [|done|].
  - apply Forall2_fmap_l, Forall_Forall2_diag, Forall_forall. done.
  - exists l'. split; [done|]. clear -Hk. induction Hk; cbn; congruence.
Qed.

Lemma redeem_tickets_shape sel randoms v s s' o :
  indexed v (queue_db s) → selector_typed sel → redeem_tickets sel randoms s = (s', o) →
  ∃ rs chosen, redeems sel v s s' rs chosen ∧
    ∀ ns, o = Ok ns → ns = seq (length (sent s)) (length rs) ∧
      indexed (v.1, mark_if (selects sel) BeingRedeemed <$> v.2) (queue_db s') ∧
      ∀ data dst, (get_indexer_data (queue_db s)).2 = Ok data → channels_dst data = Some dst → queue_open s = true →
        ∀ a, a ∈ filter (selects sel) v.2 →
          (∀ random, ∃ r, into_redeemable random (with_status BeingRedeemed a) (chain_key (queue_db s)) dst = Ok r) → a ∈ chosen.
Proof.
  intros Hix Hsel Hrun. unfold redeem_tickets in Hrun.
  destruct (get_tickets_value_run sel v.2 (ticket_manager (queue_db s)) (ix_tickets _ _ Hix) Hsel) as [value Hval].
  apply on_ticket_db_Ok in Hval. assert (set_ticket_manager (ticket_manager (queue_db s)) (queue_db s) = queue_db s) as Hsame
    by by destruct (queue_db s).
  rewrite Hsame, set_queue_db_same in Hval. rewrite (run_Ok _ _ _ _ _ Hval) in Hrun.
  destruct (Nat.eqb_spec (length (filter (selects sel) v.2)) 0) as [Hz|Hnz].
  { apply length_zero_iff_nil in Hz. injection Hrun as <- <-. exists [], []. rewrite Hz. split.
    - pose proof (redeems_none sel v s (queue_db s) Hix eq_refl eq_refl) as Hn. by rewrite set_queue_db_same in Hn.
    - intros ns [= <-]. split; [done|]. rewrite (filter_nil_mark _ _ _ Hz). split; [by destruct v|].
      intros ? ? _ _ _ a Ha. by apply elem_of_nil in Ha. }
  destruct (channel_dst_run s) as (od & Hdst & Hod). destruct (get_indexer_data (queue_db s)) as [db1 od'] eqn:Hdata. cbn in Hdst, Hod.
  destruct (get_indexer_data_indexed _ _ _ _ Hdata Hix) as [Hix1 [_ _ _ Hme Hkey]].
  destruct od as [dst| |]; [rewrite (run_Ok _ _ _ _ _ Hdst) in Hrun| |];
    [|unfold mbind, SM_bind in Hrun; rewrite Hdst in Hrun; injection Hrun as <- <-; exists [], [];
      (split; [by apply redeems_none|done])..].
  destruct (fetch_holds sel BeingRedeemed v.2 (ticket_manager db1) (ix_tickets _ _ Hix1) Hsel)
    as (l' & m' & Hp & Hf & _ & _ & Hh' & Hc & Ho).
  pose proof (on_ticket_db_Ok _ (set_queue_db db1 s) _ _ Hf) as Hf'. rewrite (run_Ok _ _ _ _ _ Hf') in Hrun.
  autorewrite with run in Hrun. apply redeem_stream_run in Hrun as (rs & ts' & -> & Hs & Hm & Hns).
  apply sublist_fmap_inv in Hs as (chosen & Hs & ->).
  assert (indexed (v.1, mark_if (selects sel) BeingRedeemed <$> v.2) (set_ticket_manager m' db1)) as Hix2 by (by apply index_frame).
  exists rs, chosen. split.
  - split; try done; [|by rewrite <-Hp; apply sublist_submseteq|by right]. apply Forall2_fmap_r in Hm. exact Hm.
  - intros ns Hn. destruct (Hns ns Hn) as [-> Hall]. split; [done|]. split; [done|].
    intros data dst' Hd Hds Hop a Ha Hred. destruct (proj1 (Hod dst) eq_refl) as (data' & Hd' & Hds').
    cbn in Hd. assert (dst' = dst) as -> by congruence.
    assert (with_status BeingRedeemed a ∈ with_status BeingRedeemed <$> chosen) as Hin.
    { apply Hall; [done| |]; [apply list_elem_of_fmap_2; by rewrite Hp|]. cbn. by rewrite Hkey. }
    apply list_elem_of_fmap in Hin as (b & Heq & Hb). replace a with b; [done|].
    assert (b ∈ filter (selects sel) v.2) as Hb' by (rewrite <-Hp; eapply sublist_elem; [exact Hs|done]).
    apply list_elem_of_filter in Ha as [_ Ha], Hb' as [_ Hb'].
    assert (ticket_of b = ticket_of a) as Heq' by (change (ticket_of (with_status BeingRedeemed b) = ticket_of (with_status BeingRedeemed a)); by rewrite Heq).
    apply (holds_unique v.2 _ b a (ix_tickets _ _ Hix)); [done..| | |]; by rewrite Heq'.
Qed.

(** Tickets of the node's own channels are never refused for their issuer, and
    with a valid key nothing panics. *)
Lemma redeem_tickets_total sel randoms v s data dst x :
  indexed v (queue_db s) → selector_typed sel → (get_indexer_data (queue_db s)).2 = Ok data → channels_dst data = Some dst →
  ChainKeypair_wf (chain_key (queue_db s)) x → ∃ s' ns, redeem_tickets sel randoms s = (s', Ok ns).
Proof.
  intros Hix Hsel Hdata Hds Hkp. unfold redeem_tickets.
  destruct (get_tickets_value_run sel v.2 (ticket_manager (queue_db s)) (ix_tickets _ _ Hix) Hsel) as [value Hval].
  apply on_ticket_db_Ok in Hval. assert (set_ticket_manager (ticket_manager (queue_db s)) (queue_db s) = queue_db s) as Hsame
    by by destruct (queue_db s).
  rewrite Hsame, set_queue_db_same in Hval. rewrite (run_Ok _ _ _ _ _ Hval).
  destruct (Nat.eqb_spec (length (filter (selects sel) v.2)) 0); [by do 2 eexists|].
  destruct (channel_dst_run s) as (od & Hdst & Hod). rewrite (proj2 (Hod dst)) in Hdst by (by exists data).
  rewrite (run_Ok _ _ _ _ _ Hdst). destruct (get_indexer_data (queue_db s)) as [db1 od'] eqn:Hd. cbn [fst].
  destruct (get_indexer_data_indexed _ _ _ _ Hd Hix) as [Hix1 [_ _ _ _ Hkey]].
  destruct (fetch_holds sel BeingRedeemed v.2 (ticket_manager db1) (ix_tickets _ _ Hix1) Hsel) as (l' & m' & _ & Hf & _).
  pose proof (on_ticket_db_Ok _ (set_queue_db db1 s) _ _ Hf) as Hf'. rewrite (run_Ok _ _ _ _ _ Hf').
  autorewrite with run. cbn. rewrite Hkey. by eapply redeem_stream_no_panic.
Qed.

(** C10. Redeeming the tickets of a selector submits and marks exactly what the
    selector describes: all selected tickets and no others become
    [BeingRedeemed]; each submitted ticket is a selected one, none is submitted
    twice, and of the selected tickets every one that converts (every ticket
    that the node did not issue itself, but for a failing hash to the curve) is
    submitted; the pending actions returned are those of the submissions.
    Nothing else in queue or tables changes. *)
Theorem redeem_tickets_exact (sel : TicketSelector) (randoms : list bytes) (v : View) (s : QueueState)
    (data : IndexerData) (dst : Hash) (x : Z) :
  indexed v (queue_db s) → selector_typed sel → queue_open s = true →
  (get_indexer_data (queue_db s)).2 = Ok data → channels_dst data = Some dst → ChainKeypair_wf (chain_key (queue_db s)) x →
  ∃ s' rs chosen,
    redeem_tickets sel randoms s = (s', Ok (seq (length (sent s)) (length rs))) ∧
    sent s' = sent s ++ (RedeemTicket <$> rs) ∧
    Forall2 (λ r a, r_ticket r = Tickets.ack_ticket a) rs chosen ∧
    chosen ⊆+ filter (selects sel) v.2 ∧
    (∀ a, a ∈ filter (selects sel) v.2 →
      (∀ random, ∃ r, into_redeemable random (with_status BeingRedeemed a) (chain_key (queue_db s)) dst = Ok r) → a ∈ chosen) ∧
    indexed (v.1, mark_if (selects sel) BeingRedeemed <$> v.2) (queue_db s') ∧
    tasks s' = tasks s ∧ tracker s' = tracker s ∧ results s' = results s.
Proof.
  intros Hix Hsel Hop Hdata Hds Hkp.
  destruct (redeem_tickets_total sel randoms v s data dst x) as (s' & ns & Hrun); [done..|].
  destruct (redeem_tickets_shape sel randoms v s s' _ Hix Hsel Hrun) as (rs & chosen & Hr & Hns).
  destruct (Hns ns eq_refl) as (-> & Hix' & Hall). destruct (rt_queue _ _ _ _ _ _ Hr) as (_ & _ & ? & ? & _ & ?).
  exists s', rs, chosen. split_and!; [done|apply (rt_sent _ _ _ _ _ _ Hr)|apply (rt_made _ _ _ _ _ _ Hr)|
    apply (rt_chosen _ _ _ _ _ _ Hr)|by eapply Hall|done..].
Qed.

(** ** Redeeming one ticket *)
Lemma selects_single e i a :
  selects (with_state Untouched (with_index i (selector_of_channel e))) a = true ↔
  t_channel_id (ticket_of a) = get_id e ∧ t_channel_epoch (ticket_of a) = channel_epoch e ∧
  t_index (ticket_of a) = i ∧ ack_status a = Untouched.
Proof using Type.
  unfold selects. cbn. fold (ticket_of a). rewrite orb_false_r, !andb_true_r, !andb_true_iff, !Z.eqb_eq, !bool_decide_eq_true. tauto.
Qed.

Lemma redeem_ticket_shape ack random v s s' o :
  indexed v (queue_db s) → array_wf 32 (t_channel_id (ticket_of ack)) → in_u 64 (t_index (ticket_of ack)) →
  redeem_ticket ack random s = (s', o) →
  ∃ sel rs chosen, selector_typed sel ∧ sel_state sel = Some Untouched ∧ redeems sel v s s' rs chosen.
Proof.
  intros Hix Hid Hi Hrun. unfold redeem_ticket in Hrun. fold (ticket_of ack) in Hrun.
  set (any := mkSelector [] NoIndex (Unbounded, Unbounded) (Unbounded, Unbounded) (Some Untouched) false).
  assert (∃ sel rs chosen, selector_typed sel ∧ sel_state sel = Some Untouched ∧ redeems sel v s s rs chosen) as Hstay.
  { exists any, [], []. split; [by split|]. split; [done|].
    pose proof (redeems_none any v s (queue_db s) Hix eq_refl eq_refl) as Hn. by rewrite set_queue_db_same in Hn. }
  destruct (ix_channels _ _ Hix) as [Hcw _].
  pose proof (on_db_with_Ok ActionsDbBackendError _ s _ _ (get_channel_by_id_ok v.1 _ _ Hcw Hid)) as Hch.
  rewrite set_queue_db_same in Hch. rewrite (run_Ok _ _ _ _ _ Hch) in Hrun.
  destruct (entry_by_id _ v.1) as [e|] eqn:He; [|by injection Hrun as <- _].
  apply (find_iff get_id _ v.1 e (cw_channels _ _ Hcw)) in He as [Hin _]. apply (entries_wf _ _ _ Hcw) in Hin as Hew.
  unfold U256_as in Hrun. destruct (ticket_index e <? 2 ^ 64); [|by injection Hrun as <- _]. autorewrite with run in Hrun.
  unfold require in Hrun. destruct (negb _); [autorewrite with run in Hrun|by injection Hrun as <- _].
  set (sel := with_state Untouched (with_index (t_index (ticket_of ack)) (selector_of_channel e))) in *.
  assert (selector_typed sel) as Hsel by (split; [constructor; [split; [by apply get_id_wf|apply Hew]|done]|done]).
  destruct (fetch_holds sel BeingRedeemed v.2 (ticket_manager (queue_db s)) (ix_tickets _ _ Hix) Hsel)
    as (l' & m' & Hp & _ & Hone & Hnone & Hh' & Hc & Ho).
  set (db1 := set_ticket_manager m' (queue_db s)).
  assert (indexed (v.1, mark_if (selects sel) BeingRedeemed <$> v.2) db1) as Hix1 by (by apply index_frame).
  destruct l' as [|a [|b l']].
  - rewrite (run_Ok _ _ _ _ _ (on_ticket_db_Ok _ s _ _ (Hnone eq_refl))) in Hrun. injection Hrun as <- <-.
    exists sel, [], []. split; [done|]. split; [done|]. split; try done; [by rewrite app_nil_r|constructor|apply submseteq_nil_l|by right].
  - rewrite (run_Ok _ _ _ _ _ (on_ticket_db_Ok _ s _ _ (Hone a eq_refl))) in Hrun.
    destruct (channel_dst_run (set_queue_db db1 s)) as (od & Hdst & _). cbn [queue_db set_queue_db] in Hdst.
    destruct (get_indexer_data db1) as [db2 od'] eqn:Hdata. destruct (get_indexer_data_indexed _ _ _ _ Hdata Hix1) as [Hix2 [_ _ _ Hme Hkey]].
    assert (∀ rs chosen, made_of rs chosen → chosen ⊆+ [a] → redeems sel v s (push_all rs (set_queue_db db2 s)) rs chosen) as Hred.
    { intros rs chosen Hm Hsub. split; try done; [by rewrite <-Hp|by right]. }
    specialize (Hred [] []) as Hred0. rewrite push_all_nil in Hred0.
    specialize (Hred0 ltac:(constructor) ltac:(apply submseteq_nil_l)).
    exists sel. fold db1 in Hrun. destruct od as [dst| |].
    2, 3: unfold mbind, SM_bind in Hrun; rewrite Hdst in Hrun; injection Hrun as <- _; by exists [], [].
    rewrite (run_Ok _ _ _ _ _ Hdst) in Hrun. autorewrite with run in Hrun.
    destruct (into_redeemable random _ _ dst) as [r| |] eqn:Hr; [|by exists [], []; injection Hrun as <- _..].
    cbn [map_err] in Hrun. autorewrite with run in Hrun. unfold send in Hrun. cbn [fst] in Hrun.
    destruct (queue_open _); injection Hrun as <- _; [|by exists [], []].
    apply into_redeemable_ticket in Hr. exists [r], [a]. split; [done|]. split; [done|]. apply (Hred [r] [a]); [by repeat constructor|done].
  - exfalso. assert (a ∈ filter (selects sel) v.2 ∧ b ∈ filter (selects sel) v.2) as [Ha Hb] by (rewrite <-!Hp; split; [by left|right; by left]).
    apply list_elem_of_filter in Ha as [(Ha1 & Ha2 & Ha3 & _)%Is_true_true%selects_single Ha],
      Hb as [(Hb1 & Hb2 & Hb3 & _)%Is_true_true%selects_single Hb].
    assert (a = b) as -> by (eapply (holds_unique v.2 _ a b (ix_tickets _ _ Hix)); congruence).
    pose proof (holds_NoDup _ _ (ix_tickets _ _ Hix)) as Hnd. apply (NoDup_filter (selects sel)) in Hnd. rewrite <-Hp in Hnd.
    apply NoDup_cons in Hnd as [Hnin _]. apply Hnin. by left.
Qed.
(** ** Giving tickets back *)
(** Tickets are known by their channel, epoch and index. *)
Definition key_of (t : Ticket) : Hash * Z * Z := (t_channel_id t, t_channel_epoch t, t_index t).
Definition redeemed (r : RedeemableTicket) : Hash * Z * Z := key_of (verified_ticket (r_ticket r)).
Lemma selector_redeemable_typed l m a r :
  holds l m → a ∈ l → r_ticket r = Tickets.ack_ticket a → selector_typed (selector_of_redeemable r).
Proof.
  intros Hh [i Ha]%list_elem_of_lookup Hr. destruct (Forall2_lookup_r _ _ _ _ _ (hd_rows _ _ Hh) Ha) as (row & _ & ([ds Hs] & _)).
  apply selector_acknowledged_typed in Hs as (Hc & Hi & _). unfold selector_of_redeemable. rewrite Hr. by split.
Qed.

Lemma selects_redeemed_key r b : selects (selector_of_redeemable r) b = true → key_of (ticket_of b) = redeemed r.
Proof.
  unfold selects. cbn. fold (ticket_of b). rewrite !andb_true_iff, orb_false_r, !andb_true_iff, !Z.eqb_eq, bool_decide_eq_true.
  unfold key_of, redeemed, key_of. by intros [[[[[[-> ->] ->] _] _] _] _].
Qed.

Lemma give_back_run v r db :
  indexed v db → selector_typed (selector_of_redeemable r) →
  indexed (v.1, mark_if (selects (selector_of_redeemable r)) Untouched <$> v.2)
    (on_tickets (update_ticket_states (selector_of_redeemable r) Untouched) db).1 ∧
  me_onchain (on_tickets (update_ticket_states (selector_of_redeemable r) Untouched) db).1 = me_onchain db.
Proof.
  intros Hix Hs. destruct (update_many_holds (into_condition (selector_of_redeemable r)) (selects (selector_of_redeemable r))
    Untouched v.2 (ticket_manager db) (ix_tickets _ _ Hix)) as (d' & Hup & Hh & _ & Ho).
  { intros row a _ Hra. by apply row_selected. }
  unfold on_tickets, update_ticket_states, perform. rewrite Hup. cbn. split; [|done]. by apply index_frame.
Qed.

(** Where no stored ticket is the redeemed one, giving it back changes nothing. *)
Lemma give_back_nothing v r db :
  indexed v db → selector_typed (selector_of_redeemable r) → (∀ b, b ∈ v.2 → key_of (ticket_of b) ≠ redeemed r) →
  indexed v (on_tickets (update_ticket_states (selector_of_redeemable r) Untouched) db).1.
Proof.
  intros Hix Hs Hno. destruct (give_back_run v r db Hix Hs) as [Hix' _].
  rewrite (filter_nil_mark (selector_of_redeemable r) Untouched v.2) in Hix'; [by destruct v|].
  apply filter_none. intros b Hb. destruct (selects _ b) eqn:Hsel; [|done]. by destruct (Hno b Hb (selects_redeemed_key _ _ Hsel)).
Qed.

(** C12. A confirmation that comes early is lost: when the indexer handles the
    redemption of a ticket after its transaction was submitted and before the
    expectation is registered, the ticket is settled and leaves the table, the
    event matches nothing, and the action ends with a timeout although the
    redemption is on chain; the ticket does not come back, since the update
    that should make it untouched again finds no row. *)
Theorem early_redemption_lost (h : ContractEventHandlers) (v : View) (s : QueueState) (n : nat) (r : RedeemableTicket)
    (tx : Hash) (exp : IndexerExpectation) (e : ChannelEntry) (index : Z) (a : AcknowledgedTicket) :
  indexed v (queue_db s) → e ∈ v.1 → in_u 48 index → source e ≠ own_address h → destination e = own_address h →
  filter (redeeming e index) v.2 = [a] → r_ticket r = Tickets.ack_ticket a →
  tasks s !! n = Some (Registering (RedeemTicket r) exp) → expectation_of (RedeemTicket r) tx = Some exp →
  resolving s = None → (∀ h x, expectations (tracker s) !! h = Some x → h ≠ tx ∧ exp_tx_hash x.1 = h) →
  ∃ db event s' entries,
    on_channel_event h (HoprChannels.TicketRedeemed (get_id e) index) (queue_db s) = (db, Ok (Some event)) ∧
    queue_run [EvDb db; EvMatch (mkSignificant tx event); EvResolve; EvRegister n; EvPoll n true] s = Some s' ∧
    results s' !! n = Some (Err Timeout) ∧ tasks s' !! n = None ∧
    settled (Some a) (filter (superseded e index) v.2) (tickets_db (ticket_manager (queue_db s))) (tickets_db (ticket_manager db)) ∧
    indexed (entries, filter (λ b, negb (superseded e index b)) v.2) (queue_db s') ∧
    ∀ b, b ∈ filter (λ b, negb (superseded e index b)) v.2 → key_of (ticket_of b) ≠ redeemed r.
Proof.
  intros Hix He Hi Hsrc Hdst Hf Hr Ht Hexp Hres Hothers.
  destruct (redeemed_ticket_settled h index e a v (queue_db s) Hix He Hi Hsrc Hdst Hf)
    as (db & entries & Hrun & Hix' & _ & Hset).
  set (event := TicketRedeemed _ _) in *. injection Hexp as <-. pose proof (ix_tickets _ _ Hix) as Hh.
  assert (a ∈ v.2 ∧ redeeming e index a = true) as [Ha Hred].
  { assert (a ∈ filter (redeeming e index) v.2) as Hin by (rewrite Hf; by left).
    apply list_elem_of_filter in Hin as [? ?]. split; [done|by apply Is_true_true]. }
  unfold redeeming in Hred. rewrite !andb_true_iff, Z.eqb_eq in Hred. destruct Hred as [[Hep _] Hsum].
  assert (1 ≤ t_index_offset (ticket_of a)) as Hoff.
  { apply list_elem_of_lookup in Ha as [i Ha]. destruct (Forall2_lookup_r _ _ _ _ _ (hd_rows _ _ Hh) Ha) as (row & _ & ([ds Hs] & _)).
    by destruct Hs as (_ & _ & (_ & _ & _ & ?) & _). }
  assert (∀ b, b ∈ filter (λ b, negb (superseded e index b)) v.2 → key_of (ticket_of b) ≠ redeemed r) as Hgone.
  { intros b [Hb _]%list_elem_of_filter Hk. unfold redeemed, key_of in Hk. rewrite Hr in Hk. fold (ticket_of a) in Hk.
    injection Hk as Hk1 Hk2 Hk3. apply Is_true_true, negb_true_iff in Hb. unfold superseded, in_epoch in Hb, Hep.
    rewrite Hk1, Hk2, Hep, Hk3 in Hb. apply Z.ltb_ge in Hb. lia. }
  destruct (early_event_times_out (set_queue_db db s) n (RedeemTicket r) (mkExpectation tx (confirms (RedeemTicket r)))
    (mkSignificant tx event)) as (s' & Hq & Hresult & Htask & Hdb); [done..| |].
  { unfold expectation_test. cbn. rewrite bool_decide_eq_true_2 by done. cbn. apply bool_decide_eq_true.
    rewrite Hr. fold (ticket_of a). unfold in_epoch in Hep. rewrite andb_true_iff, bool_decide_eq_true in Hep. by destruct Hep as [-> _]. }
  exists db, event, s', entries. split_and!; [done|exact Hq|done|done|done| |done].
  rewrite Hdb. apply (give_back_nothing (entries, _)); [done| |done]. by eapply selector_redeemable_typed.
Qed.
End Redeem.
