(* ===== verification/RedeemSteps.v ===== *)
(** * Redemption requests step by step

    The calls of [chain/actions/src/redeem.rs] cut where they wait: other calls,
    the queue and the other components of the node may act between two steps.
    Run without interruption the steps are [redeem_tickets] and
    [redeem_ticket]. *)
From stdpp Require Import gmap strings relations.
From S2P Require Import Prelude Primitives Crypto Channels Tickets SharedKeys TicketStore NodeDb Indexer Actions.

Section Steps.
Context `{!Secp256k1} `{!Curve25519} `{!Ed25519} `{!HexCodec} `{!ScanOrder} `{!Multiaddrs} `{!MultiaddrProtocols} `{!FloatCmp}.
#[local] Set Default Proof Using "Type".

Abbreviation AM := (SM QueueState ChainActionsError).

(** Where a call is: what it does next, and what it has read so far.  The first
    five are those of [redeem_tickets], the next five those of
    [redeem_ticket]. *)
Inductive RedeemCall :=
| Counting (sel : TicketSelector) (randoms : list bytes)
| Separating (sel : TicketSelector) (randoms : list bytes)
| Opening (sel : TicketSelector) (randoms : list bytes) (dst : Hash)
| Streaming (rows : list TicketModel) (got : list AcknowledgedTicket) (randoms : list bytes) (dst : Hash)
| Submitting (got : list AcknowledgedTicket) (randoms : list bytes) (dst : Hash) (receivers : list nat)
| Finding (ack : AcknowledgedTicket) (random : bytes)
| OpeningOne (sel : TicketSelector) (random : bytes)
| StreamingOne (rows : list TicketModel) (random : bytes)
| SeparatingOne (stored : AcknowledgedTicket) (random : bytes)
| SubmittingOne (stored : AcknowledgedTicket) (random : bytes) (dst : Hash)
| Returned (result : outcome ChainActionsError (list nat)).

(** A step that fails ends the call. *)
Definition and_then {A} (m : AM A) (k : A → RedeemCall) (s : QueueState) : QueueState * RedeemCall :=
  match m s with
  | (s, Ok a) => (s, k a)
  | (s, Err e) => (s, Returned (Err e))
  | (s, Panic) => (s, Returned Panic)
  end.

(** The selector of a single ticket, when it may still be redeemed. *)
Definition find_redeemable (ack : AcknowledgedTicket) : AM TicketSelector :=
  let ticket := verified_ticket (Tickets.ack_ticket ack) in
  maybe_channel ← on_index (get_channel_by_id (t_channel_id ticket));
  match maybe_channel with
  | Some channel =>
      channel_index ← lift (U256_as 64 (ticket_index channel));
      require (negb (t_index ticket <? channel_index)) OldTicket;;
      mret (with_state Untouched (with_index (t_index ticket) (selector_of_channel channel)))
  | None => throw ActionChannelDoesNotExist
  end.

Definition call_step (c : RedeemCall) (s : QueueState) : QueueState * RedeemCall :=
  match c with
  | Counting sel randoms =>
      and_then (on_ticket_db (get_tickets_value sel))
        (λ v, if (v.1 =? 0)%nat then Returned (Ok []) else Separating sel randoms) s
  | Separating sel randoms => and_then channel_dst (Opening sel randoms) s
  | Opening sel randoms dst => and_then (on_ticket_db (open_ticket_stream sel)) (λ rows, Streaming rows [] randoms dst) s
  | Streaming [] got randoms dst => (s, Submitting got randoms dst [])
  | Streaming (r :: rows) got randoms dst =>
      and_then (on_ticket_db (update_fetched r BeingRedeemed)) (λ o, Streaming rows (got ++ option_list o) randoms dst) s
  | Submitting [] _ _ receivers => (s, Returned (Ok receivers))
  | Submitting (ack :: got) randoms dst receivers =>
      match into_redeemable (default [] (head randoms)) ack (NodeDb.chain_key (queue_db s)) dst with
      | Ok redeemable =>
          match send (RedeemTicket redeemable) s with
          | (s, Ok n) => (s, Submitting got (tail randoms) dst (receivers ++ [n]))
          | (s, Err _) => (s, Submitting got (tail randoms) dst receivers)
          | (s, Panic) => (s, Returned Panic)
          end
      | Err _ => (s, Submitting got (tail randoms) dst receivers)
      | Panic => (s, Returned Panic)
      end
  | Finding ack random => and_then (find_redeemable ack) (λ sel, OpeningOne sel random) s
  | OpeningOne sel random => and_then (on_ticket_db (open_ticket_stream sel)) (λ rows, StreamingOne rows random) s
  | StreamingOne [] _ => (s, Returned (Err WrongTicketState))
  | StreamingOne (r :: rows) random =>
      and_then (on_ticket_db (update_fetched r BeingRedeemed))
        (λ o, match o with Some stored => SeparatingOne stored random | None => StreamingOne rows random end) s
  | SeparatingOne stored random => and_then channel_dst (SubmittingOne stored random) s
  | SubmittingOne stored random dst =>
      and_then (s ← get;
                redeemable ← lift (map_err ActionsCoreTypesError
                  (into_redeemable random stored (NodeDb.chain_key (queue_db s)) dst));
                send (RedeemTicket redeemable)) (λ n, Returned (Ok [n])) s
  | Returned _ => (s, c)
  end.

(** ** Uninterrupted *)
Definition steps_to (x y : QueueState * RedeemCall) : Prop := y = call_step x.2 x.1.

Lemma step_once s c y : call_step c s = y → rtc steps_to (s, c) y.
Proof. intros <-. by apply rtc_once. Qed.

Lemma step_then s c y z : call_step c s = y → rtc steps_to y z → rtc steps_to (s, c) z.
Proof. intros <- Hz. by eapply rtc_l. Qed.

(** From a state the call ends in another with a result. *)
Definition ends (x : QueueState * RedeemCall) (y : QueueState * outcome ChainActionsError (list nat)) : Prop :=
  rtc steps_to x (y.1, Returned y.2).

Lemma ends_step s c y z : call_step c s = y → ends y z → ends (s, c) z.
Proof. by apply step_then. Qed.

Lemma ends_bind {A} (m : AM A) (k : A → RedeemCall) (f : A → AM (list nat)) s c :
  call_step c s = and_then m k s → (∀ s a, ends (s, k a) (f a s)) → ends (s, c) ((m ≫= f) s).
Proof.
  intros Hc Hf. unfold mbind, SM_bind. unfold and_then in Hc.
  destruct (m s) as [s1 [a|e|]]; [eapply ends_step; [exact Hc|apply Hf]|by apply step_once..].
Qed.

Lemma opened_stream {A} sel (k : list TicketModel → SM TicketManager DbSqlError A) s :
  on_ticket_db (open_ticket_stream sel) s = (s, Ok (find_where (into_condition sel) (tickets_db (ticket_manager (queue_db s))))) ∧
  on_ticket_db (open_ticket_stream sel ≫= k) s =
    on_ticket_db (k (find_where (into_condition sel) (tickets_db (ticket_manager (queue_db s))))) s.
Proof.
  split; [|done]. unfold on_ticket_db, on_db_with, on_tickets, open_ticket_stream. cbn. f_equal. by destruct s as [[]].
Qed.

Lemma stream_steps rows got randoms dst s :
  match on_ticket_db (update_and_fetch_loop rows BeingRedeemed) s with
  | (s', Ok l) => rtc steps_to (s, Streaming rows got randoms dst) (s', Submitting (got ++ l) randoms dst [])
  | (s', Err e) => rtc steps_to (s, Streaming rows got randoms dst) (s', Returned (Err e))
  | (s', Panic) => rtc steps_to (s, Streaming rows got randoms dst) (s', Returned Panic)
  end.
Proof.
  revert got s. induction rows as [|r rows IH]; intros got s.
  { unfold on_ticket_db, on_db_with, on_tickets. cbn. rewrite app_nil_r. apply step_once. cbn. do 2 f_equal. by destruct s as [[]]. }
  assert (∀ y, call_step (Streaming (r :: rows) got randoms dst) s = y → y = and_then (on_ticket_db (update_fetched r BeingRedeemed))
    (λ o, Streaming rows (got ++ option_list o) randoms dst) s) as Hstep by by intros ? <-.
  cbn [update_and_fetch_loop]. unfold on_ticket_db at 1, on_db_with at 1, on_tickets at 1, mbind at 1, SM_bind at 1.
  unfold and_then, on_ticket_db, on_db_with, on_tickets in Hstep.
  destruct (update_fetched r BeingRedeemed (ticket_manager (queue_db s))) as [m1 [o|e|]]; cbn in Hstep |- *.
  - specialize (IH (got ++ option_list o) (set_queue_db (set_ticket_manager m1 (queue_db s)) s)).
    unfold on_ticket_db, on_db_with, on_tickets in IH. cbn in IH. unfold mbind, SM_bind.
    destruct (update_and_fetch_loop rows BeingRedeemed m1) as [m2 [l|e|]]; cbn in IH |- *.
    all: eapply step_then; [by apply Hstep|]; rewrite ?(app_assoc got); exact IH.
  - apply step_once. by apply Hstep.
  - apply step_once. by apply Hstep.
Qed.
Lemma submit_steps got randoms dst ns s :
  let (s', o) := redeem_stream got randoms (NodeDb.chain_key (queue_db s)) dst s in
  ends (s, Submitting got randoms dst ns) (s', l ← o; Ok (ns ++ l)).
Proof.
  revert randoms ns s. induction got as [|ack got IH]; intros randoms ns s; cbn [redeem_stream].
  { apply step_once. cbn. by rewrite app_nil_r. }
  assert (call_step (Submitting (ack :: got) randoms dst ns) s =
    match into_redeemable (default [] (head randoms)) ack (NodeDb.chain_key (queue_db s)) dst with
    | Ok redeemable =>
        match send (RedeemTicket redeemable) s with
        | (s, Ok n) => (s, Submitting got (tail randoms) dst (ns ++ [n]))
        | (s, Err _) => (s, Submitting got (tail randoms) dst ns)
        | (s, Panic) => (s, Returned Panic)
        end
    | Err _ => (s, Submitting got (tail randoms) dst ns)
    | Panic => (s, Returned Panic)
    end) as Hstep by done.
  destruct (into_redeemable _ ack _ dst) as [r|e|]; [| |by apply step_once].
  - unfold send in *. destruct (queue_open s).
    + specialize (IH (tail randoms) (ns ++ [length (sent s)]) (push_action (RedeemTicket r) s)).
      unfold mbind, SM_bind. change (NodeDb.chain_key (queue_db (push_action (RedeemTicket r) s))) with (NodeDb.chain_key (queue_db s)) in IH.
      destruct (redeem_stream got _ _ dst _) as [s' [l|e|]]; cbn in IH |- *; (eapply ends_step; [exact Hstep|]);
        rewrite <-?app_assoc in IH; exact IH.
    + specialize (IH (tail randoms) ns s). destruct (redeem_stream got _ _ dst _) as [s' o]. by eapply ends_step.
  - specialize (IH (tail randoms) ns s). destruct (redeem_stream got _ _ dst _) as [s' o]. by eapply ends_step.
Qed.

(** The steps of the calls with nothing in between are the calls. *)
Theorem redeem_tickets_by_steps (sel : TicketSelector) (randoms : list bytes) (s : QueueState) :
  ends (s, Counting sel randoms) (redeem_tickets sel randoms s).
Proof.
  apply (ends_bind _ (λ v, if (v.1 =? 0)%nat then Returned (Ok []) else Separating sel randoms)); [done|].
  clear s. intros s [count value]. cbn [fst]. destruct (count =? 0)%nat; [apply rtc_refl|].
  apply (ends_bind _ (Opening sel randoms)); [done|]. clear s. intros s dst. unfold update_ticket_states_and_fetch.
  destruct (opened_stream sel (λ rows, update_and_fetch_loop rows BeingRedeemed) s) as [Hopen Hrest].
  eapply ends_step; [cbn [call_step]; unfold and_then; by rewrite Hopen|].
  set (rows := find_where _ _) in *. unfold mbind at 1, SM_bind at 1. rewrite Hrest.
  pose proof (stream_steps rows [] randoms dst s) as Hst.
  destruct (on_ticket_db (update_and_fetch_loop rows BeingRedeemed) s) as [s1 [l|e|]]; [|done..].
  autorewrite with run. pose proof (submit_steps l randoms dst [] s1) as Hsub. cbn [app] in Hst.
  destruct (redeem_stream l randoms _ dst s1) as [s' o]. unfold ends in *. cbn [fst snd] in *. etrans; [exact Hst|].
  by destruct o.
Qed.

Lemma stream_one_steps rows random s (f : option AcknowledgedTicket → AM (list nat)) :
  (∀ s, ends (s, Returned (Err WrongTicketState)) (f None s)) → (∀ s t, ends (s, SeparatingOne t random) (f (Some t) s)) →
  ends (s, StreamingOne rows random) ((on_ticket_db (fetch_next rows BeingRedeemed) ≫= f) s).
Proof.
  intros Hnone Hsome. revert s. induction rows as [|r rows IH]; intros s.
  { eapply ends_step; [done|]. unfold mbind, SM_bind, on_ticket_db, on_db_with, on_tickets. cbn.
    assert (set_queue_db (set_ticket_manager (ticket_manager (queue_db s)) (queue_db s)) s = s) as -> by by destruct s as [[]].
    apply Hnone. }
  specialize (IH (on_ticket_db (update_fetched r BeingRedeemed) s).1).
  assert (call_step (StreamingOne (r :: rows) random) s = and_then (on_ticket_db (update_fetched r BeingRedeemed))
    (λ o, match o with Some stored => SeparatingOne stored random | None => StreamingOne rows random end) s) as Hstep by done.
  unfold and_then in Hstep. unfold mbind, SM_bind, on_ticket_db, on_db_with, on_tickets in *. cbn [fetch_next] in *.
  unfold mbind, SM_bind in *. destruct (update_fetched r BeingRedeemed (ticket_manager (queue_db s))) as [m1 [[t|]|e|]]; cbn in *.
  - eapply ends_step; [exact Hstep|]. apply Hsome.
  - eapply ends_step; [exact Hstep|]. exact IH.
  - by apply step_once.
  - by apply step_once.
Qed.

Theorem redeem_ticket_by_steps (ack : AcknowledgedTicket) (random : bytes) (s : QueueState) :
  ends (s, Finding ack random) ((n ← redeem_ticket ack random; mret [n]) s).
Proof.
  set (f := λ maybe_ticket : option AcknowledgedTicket,
    match maybe_ticket with
    | Some stored =>
        dst ← channel_dst;
        n ← (s ← get;
             redeemable ← lift (map_err ActionsCoreTypesError (into_redeemable random stored (NodeDb.chain_key (queue_db s)) dst));
             send (RedeemTicket redeemable));
        mret [n]
    | None => throw WrongTicketState
    end : AM (list nat)).
  assert (∀ s, (n ← redeem_ticket ack random; mret [n]) s =
    (find_redeemable ack ≫= λ sel, on_ticket_db (update_state_and_fetch_next sel BeingRedeemed) ≫= f) s) as Hshape.
  { clear s. intros s. unfold redeem_ticket, find_redeemable. autorewrite with run. unfold mbind, SM_bind.
    destruct (on_index _ s) as [s1 [[ch|]|e|]]; [|done..]. unfold lift. destruct (U256_as 64 _) as [i|e|]; [|done..].
    destruct (require _ _ s1) as [s2 [[]|e|]]; [|done..]. cbn.
    destruct (on_ticket_db _ s2) as [s3 [[t|]|e|]]; [|done..]. cbn. unfold mbind, SM_bind.
    destruct (channel_dst s3) as [s4 [dst|e|]]; [|done..]. cbn. by destruct (map_err _ _). }
  rewrite Hshape. apply (ends_bind _ (λ sel, OpeningOne sel random)); [done|]. clear s Hshape. intros s sel.
  unfold update_state_and_fetch_next.
  destruct (opened_stream sel (λ rows, fetch_next rows BeingRedeemed) s) as [Hopen Hrest].
  eapply ends_step; [cbn [call_step]; unfold and_then; by rewrite Hopen|].
  set (rows := find_where _ _) in *. unfold mbind at 1, SM_bind at 1. rewrite Hrest.
  apply (stream_one_steps rows random s f); unfold f; clear.
  - intros s. apply rtc_refl.
  - intros s t. apply (ends_bind _ (SubmittingOne t random)); [done|]. clear s. intros s dst.
    apply (ends_bind _ (λ n, Returned (Ok [n]))); [done|]. intros s' n. apply rtc_refl.
Qed.
End Steps.
