(* ===== verification/RedeemWorld.v ===== *)
(** * No ticket is redeemed twice at a time

    The queue, the tracker and the ticket table under any interleaving of the
    steps of redemption requests, of other requests, of the steps of the queue
    and of changes to the database.  The streams that mark the tickets of a
    request do not hold the lock of the table: what is proved holds as long as
    no two streams that are open at the same time have selected the same row. *)
From Stdlib Require Import Floats.SpecFloat.
From stdpp Require Import gmap strings relations.
From S2P Require Import Prelude Primitives Crypto Channels Tickets SharedKeys MetaPacket Packet.
From S2P Require Import TicketStore TicketStoreSpec TicketIndexSpec TicketTable Protocol NodeDb NodeDbSpec NodeProtocol NodeProtocolSpec.
From S2P Require Import Indexer IndexerSpec IndexerFacts Aggregation AggregationSpec PrepareSpec Actions ActionsSpec RedeemSpec RedeemSteps.

Section World.
Context `{!Secp256k1, !Secp256k1Laws} `{!Curve25519} `{!Ed25519} `{!HexCodec, !HexCodecLaws}.
Context `{!ScanOrder, !ScanOrderLaws} `{!Multiaddrs} `{!MultiaddrProtocols} `{!FloatCmp}.
#[local] Set Default Proof Using "Type*".

Abbreviation AM := (SM QueueState ChainActionsError).

(** ** Calls that redeem tickets

    [redeem_all_tickets], [redeem_tickets_in_channel],
    [redeem_tickets_with_counterparty] and a closure that redeems first read the
    channels and then call [redeem_tickets] one after another: each of these
    calls is one that starts here, at any time and with any typed selector of
    untouched tickets. *)
Definition table (db : HoprDb) : list TicketModel := tickets (tickets_db (ticket_manager db)).

(** The rows that a call has selected and not yet marked, and the marked tickets
    that it has not yet submitted. *)
Definition stream_rows (c : RedeemCall) : list TicketModel :=
  match c with Streaming rows _ _ _ | StreamingOne rows _ => rows | _ => [] end.

Definition in_hand (c : RedeemCall) : list AcknowledgedTicket :=
  match c with
  | Streaming _ got _ _ | Submitting got _ _ _ => got
  | SeparatingOne t _ | SubmittingOne t _ _ => [t]
  | _ => []
  end.

Definition call_typed (c : RedeemCall) : Prop :=
  match c with
  | Counting sel _ | Separating sel _ | Opening sel _ _ | OpeningOne sel _ => selector_typed sel ∧ sel_state sel = Some Untouched
  | Finding ack _ => array_wf 32 (t_channel_id (ticket_of ack)) ∧ in_u 64 (t_index (ticket_of ack))
  | _ => True
  end.

Definition call_start (c : RedeemCall) : Prop :=
  match c with Counting _ _ | Finding _ _ => call_typed c | _ => False end.

Record World := mkWorld { w_queue : QueueState; w_calls : list RedeemCall }.

(** One step of one of the calls. *)
Definition advance (i : nat) (w : World) : option World :=
  c ← w_calls w !! i;
  let '(s, c) := call_step c (w_queue w) in
  Some (mkWorld s (<[i := c]> (w_calls w))).

(** No two open streams have a row in common. *)
Definition streams_apart (w : World) : Prop :=
  ∀ i j c c' r r', i ≠ j → w_calls w !! i = Some c → w_calls w !! j = Some c' →
    r ∈ stream_rows c → r' ∈ stream_rows c' → m_id r ≠ m_id r'.

(** ** Other requests *)
Inductive Request :=
| ReqOpen (destination : Address) (amount : HoprBalance)
| ReqFund (channel : Hash) (amount : HoprBalance)
| ReqClose (counterparty : Address) (direction : ChannelDirection) (now later : SystemTime)
| ReqWithdraw (recipient : Address) (amount : HoprBalance)
| ReqWithdrawNative (recipient : Address) (amount : XDaiBalance)
| ReqRegisterSafe (safe : Address).

Definition discard {A} (m : AM A) : AM unit := m;; mret tt.

Definition request (r : Request) : AM unit :=
  match r with
  | ReqOpen dst amount => discard (open_channel dst amount)
  | ReqFund channel amount => discard (fund_channel channel amount)
  | ReqClose cp dir now later => discard (close_channel cp dir false now later [])
  | ReqWithdraw to amount => discard (withdraw to amount)
  | ReqWithdrawNative to amount => discard (withdraw_native to amount)
  | ReqRegisterSafe safe => discard (register_safe_by_node safe)
  end.

(** ** Steps *)
(** A redemption is under way from its submission to its result. *)
Definition flying (s : QueueState) (n : nat) (r : RedeemableTicket) : Prop :=
  sent s !! n = Some (RedeemTicket r) ∧ ((taken s ≤ n)%nat ∨ is_Some (tasks s !! n)).

(** A selected row is the stored row of its ticket. *)
Definition row_fits (db : HoprDb) (v : View) (r : TicketModel) (t : AcknowledgedTicket) : Prop :=
  ∀ j id a, (m_id <$> table db) !! j = Some id → v.2 !! j = Some a → id = m_id r ↔ key_of (ticket_of a) = key_of (ticket_of t).

(** What the other components may do to the database meanwhile: of the tickets
    under redemption or in the hand of a call those that are still stored stay
    marked, and a selected row that is still stored stays that of its ticket. *)
Definition db_step_ok (w : World) (db : HoprDb) : Prop :=
  me_onchain db = me_onchain (queue_db (w_queue w)) ∧
  ∃ v, indexed v db ∧
    (∀ n r a, flying (w_queue w) n r → a ∈ v.2 → key_of (ticket_of a) = redeemed r → ack_status a = BeingRedeemed) ∧
    (∀ c t a, c ∈ w_calls w → t ∈ in_hand c → a ∈ v.2 → key_of (ticket_of a) = key_of (ticket_of t) → ack_status a = BeingRedeemed) ∧
    (∀ c r t, c ∈ w_calls w → r ∈ stream_rows c → row_of_acknowledged r t → row_fits db v r t).

Inductive world_step : World → World → Prop :=
| step_start w c : call_start c → world_step w (mkWorld (w_queue w) (w_calls w ++ [c]))
| step_call w i w' : advance i w = Some w' → world_step w w'
| step_request w r : world_step w (mkWorld (request r (w_queue w)).1 (w_calls w))
| step_queue w ev s : (∀ t, ev ≠ EvSend (RedeemTicket t)) → (∀ db, ev = EvDb db → db_step_ok w db) →
    queue_step ev (w_queue w) = Some s → world_step w (mkWorld s (w_calls w)).

(** A step after which the streams are still apart. *)
Definition careful_step (w w' : World) : Prop := world_step w w' ∧ streams_apart w'.

(** ** The invariant *)
Definition row_key (r : TicketModel) : option (Hash * Z * Z) :=
  match AcknowledgedTicket_try_from r with Ok t => Some (key_of (ticket_of t)) | _ => None end.

Definition call_keys (c : RedeemCall) : list (Hash * Z * Z) :=
  omap row_key (stream_rows c) ++ ((λ t, key_of (ticket_of t)) <$> in_hand c).
Definition held (cs : list RedeemCall) : list (Hash * Z * Z) := cs ≫= call_keys.

Definition marked_in (v : View) (k : Hash * Z * Z) : Prop := ∀ a, a ∈ v.2 → key_of (ticket_of a) = k → ack_status a = BeingRedeemed.
Definition submittable (t : AcknowledgedTicket) : Prop :=
  ∀ r, r_ticket r = Tickets.ack_ticket t → selector_typed (selector_of_redeemable r).

Record redeem_inv (cs : list RedeemCall) (v : View) (s : QueueState) : Prop := {
  ri_indexed : indexed v (queue_db s);
  ri_me : array_wf 20 (me_onchain (queue_db s));
  ri_taken : (taken s ≤ length (sent s))%nat;
  ri_tasks n task : tasks s !! n = Some task → sent s !! n = Some (task_action task) ∧ (n < taken s)%nat;
  ri_once n n' r r' : flying s n r → flying s n' r' → redeemed r = redeemed r' → n = n';
  ri_marked n r : flying s n r → marked_in v (redeemed r);
  ri_typed n r : flying s n r → selector_typed (selector_of_redeemable r);
  ri_held : NoDup (held cs);
  ri_apart n r : flying s n r → redeemed r ∉ held cs;
  ri_hand c t : c ∈ cs → t ∈ in_hand c → submittable t ∧ marked_in v (key_of (ticket_of t));
  ri_rows c r : c ∈ cs → r ∈ stream_rows c → ∃ t, row_of_acknowledged r t ∧ row_fits (queue_db s) v r t;
  ri_calls c : c ∈ cs → call_typed c
}.

Lemma same_key l m a b : holds l m → a ∈ l → b ∈ l → key_of (ticket_of a) = key_of (ticket_of b) → a = b.
Proof. intros Hh Ha Hb [= ? ? ?]. by eapply holds_unique. Qed.

Lemma held_at cs i c : cs !! i = Some c → held cs ≡ₚ call_keys c ++ held (delete i cs).
Proof using Type. intros Hi. unfold held. rewrite (delete_Permutation cs i c Hi) at 1. by rewrite bind_cons. Qed.

Lemma held_set cs i c c' : cs !! i = Some c → held (<[i := c']> cs) ≡ₚ call_keys c' ++ held (delete i cs).
Proof using Type.
  intros Hi. rewrite (held_at _ i c') by (by apply list_lookup_insert_eq; eapply lookup_lt_Some). f_equiv.
  assert (delete i (<[i := c']> cs) = delete i cs) as ->; [|done].
  clear Hi. revert i. induction cs as [|x cs IH]; intros [|i]; cbn; [done..|]. f_equal. apply IH.
Qed.

Lemma held_elem cs c k : c ∈ cs → k ∈ call_keys c → k ∈ held cs.
Proof using Type. intros Hc Hk. apply list_elem_of_bind. by exists c. Qed.

Lemma hand_held cs c t : c ∈ cs → t ∈ in_hand c → key_of (ticket_of t) ∈ held cs.
Proof using Type.
  intros Hc Ht. eapply held_elem; [done|]. unfold call_keys. apply elem_of_app. right.
  by apply (list_elem_of_fmap_2 (λ t, key_of (ticket_of t))).
Qed.

Lemma elem_of_set (cs : list RedeemCall) (i : nat) (c c' : RedeemCall) : c ∈ <[i := c']> cs → c = c' ∨ c ∈ cs.
Proof using Type.
  intros [j Hj]%list_elem_of_lookup. apply list_lookup_insert_Some in Hj as [(_ & <- & _)|[_ Hj]]; [by left|right].
  by eapply list_elem_of_lookup_2.
Qed.

Lemma row_key_of r t : row_of_acknowledged r t → row_key r = Some (key_of (ticket_of t)).
Proof.
  intros Hr. pose proof (mapM_rows [r] [t] ltac:(by constructor)) as Hdec. cbn in Hdec. unfold row_key.
  destruct (AcknowledgedTicket_try_from r); [|done|done]. by injection Hdec as ->.
Qed.

Lemma row_keys_of rows l : Forall2 row_of_acknowledged rows l → omap row_key rows = (λ a, key_of (ticket_of a)) <$> l.
Proof. induction 1 as [|r a rows l Hr _ IH]; [done|]. cbn. by rewrite (row_key_of r a Hr), IH. Qed.

Lemma row_submittable r t st : row_of_acknowledged r t → submittable (with_status st t).
Proof.
  intros ([ds Hs] & _) red Hr. apply selector_acknowledged_typed in Hs as (Hc & Hi & _).
  unfold selector_of_redeemable. rewrite Hr. by split.
Qed.

(** The states of tickets change: to marked, or where nobody cares; redemptions
    end. *)
Lemma inv_relabel cs v v' s s' :
  redeem_inv cs v s → indexed v' (queue_db s') → me_onchain (queue_db s') = me_onchain (queue_db s) →
  m_id <$> table (queue_db s') = m_id <$> table (queue_db s) → ticket_of <$> v'.2 = ticket_of <$> v.2 →
  (taken s' ≤ length (sent s'))%nat →
  (∀ n task, tasks s' !! n = Some task → sent s' !! n = Some (task_action task) ∧ (n < taken s')%nat) →
  (∀ n r, flying s' n r → flying s n r) →
  (∀ j a a', v.2 !! j = Some a → v'.2 !! j = Some a' → ack_status a' = ack_status a ∨ ack_status a' = BeingRedeemed ∨
    key_of (ticket_of a) ∉ held cs ∧ ∀ n r, flying s' n r → redeemed r ≠ key_of (ticket_of a)) →
  redeem_inv cs v' s'.
Proof.
  intros [Hix Hme Hn Htask Honce Hmark Htyped Hheld Hapart Hhand Hrows Hcalls] Hix' Hme' Hids Htick Hn' Htask' Hfly Hst.
  assert (∀ a', a' ∈ v'.2 → ∃ a, a ∈ v.2 ∧ ticket_of a = ticket_of a' ∧ (ack_status a' = ack_status a ∨ ack_status a' = BeingRedeemed ∨
    key_of (ticket_of a) ∉ held cs ∧ ∀ n r, flying s' n r → redeemed r ≠ key_of (ticket_of a))) as Hback.
  { intros a' [j Ha']%list_elem_of_lookup. assert ((ticket_of <$> v'.2) !! j = (ticket_of <$> v.2) !! j) as Hj by by rewrite Htick.
    rewrite !list_lookup_fmap, Ha' in Hj. destruct (v.2 !! j) as [a|] eqn:Ha; [|done]. injection Hj as Hj.
    exists a. split; [by eapply list_elem_of_lookup_2|]. split; [done|]. by eapply Hst. }
  split; [done|by rewrite Hme'|done|done|by eauto| |by eauto|done|by eauto| | |done].
  - intros n r Hf a' Ha' Hk. destruct (Hback a' Ha') as (a & Ha & Heq & [Hs|[Hs|[_ Hno]]]); [|done|].
    + rewrite Hs. eapply (Hmark n r); [by apply Hfly|done|by rewrite Heq].
    + destruct (Hno n r Hf). by rewrite Heq.
  - intros c t Hc Ht. destruct (Hhand c t Hc Ht) as [Hsub Hm]. split; [done|]. intros a' Ha' Hk.
    destruct (Hback a' Ha') as (a & Ha & Heq & [Hs|[Hs|[Hno _]]]); [|done|].
    + rewrite Hs. apply Hm; [done|by rewrite Heq].
    + destruct Hno. rewrite Heq, Hk. by eapply hand_held.
  - intros c r Hc Hr. destruct (Hrows c r Hc Hr) as (t & Hrt & Hfit). exists t. split; [done|]. intros j id a' Hid Ha'.
    rewrite Hids in Hid. assert ((ticket_of <$> v'.2) !! j = (ticket_of <$> v.2) !! j) as Hj by by rewrite Htick.
    rewrite !list_lookup_fmap, Ha' in Hj. destruct (v.2 !! j) as [a|] eqn:Ha; [|done]. injection Hj as Hj.
    rewrite Hj. by eapply Hfit.
Qed.

(** Redemptions that end, and actions of other kinds, leave the rest. *)
Lemma inv_shrink cs v s s' :
  redeem_inv cs v s → indexed v (queue_db s') → me_onchain (queue_db s') = me_onchain (queue_db s) →
  ticket_manager (queue_db s') = ticket_manager (queue_db s) →
  (taken s' ≤ length (sent s'))%nat →
  (∀ n task, tasks s' !! n = Some task → sent s' !! n = Some (task_action task) ∧ (n < taken s')%nat) →
  (∀ n r, flying s' n r → flying s n r) → redeem_inv cs v s'.
Proof.
  intros Hinv Hix Hme Htm Hn Ht Hf. apply (inv_relabel cs v v s); [done|done|done|by unfold table; rewrite Htm|done|done|done|done|].
  intros j a a' Ha Ha'. left. congruence.
Qed.

(** ** The calls *)
Lemma inv_start cs v s c : redeem_inv cs v s → call_start c → redeem_inv (cs ++ [c]) v s.
Proof.
  intros [Hix Hme Hn Htask Honce Hmark Htyped Hheld Hapart Hhand Hrows Hcalls] Hc.
  assert (held (cs ++ [c]) = held cs) as Heq.
  { unfold held. rewrite bind_app. destruct c; try done; cbn; by rewrite app_nil_r. }
  assert (in_hand c = [] ∧ stream_rows c = [] ∧ call_typed c) as (Hh & Hr & Ht) by by destruct c.
  split; try done; rewrite ?Heq; try done.
  - intros c' t [Hc'|Hc'%list_elem_of_singleton]%elem_of_app; [by apply Hhand|]. rewrite Hc', Hh. by intros ?%elem_of_nil.
  - intros c' r [Hc'|Hc'%list_elem_of_singleton]%elem_of_app; [by apply Hrows|]. rewrite Hc', Hr. by intros ?%elem_of_nil.
  - intros c' [Hc'|Hc'%list_elem_of_singleton]%elem_of_app; [by apply Hcalls|by rewrite Hc'].
Qed.

(** A call goes on with what it has, and what it has marked. *)
Lemma inv_set_call cs v s i c c' :
  redeem_inv cs v s → cs !! i = Some c → call_keys c' ⊆+ call_keys c → stream_rows c' ⊆ stream_rows c →
  (∀ t, t ∈ in_hand c' → t ∈ in_hand c ∨ submittable t ∧ marked_in v (key_of (ticket_of t))) → call_typed c' →
  redeem_inv (<[i := c']> cs) v s.
Proof.
  intros [Hix Hme Hn Htask Honce Hmark Htyped Hheld Hapart Hhand Hrows Hcalls] Hi Hkeys Hsub Hin Hct.
  assert (held (<[i := c']> cs) ⊆+ held cs) as Hless.
  { rewrite (held_set _ _ c), (held_at cs i c) by done. by apply submseteq_app. }
  pose proof (list_elem_of_lookup_2 _ _ _ Hi) as Hc. split; try done.
  - apply submseteq_Permutation in Hless as [k Hk]. rewrite Hk in Hheld. by apply NoDup_app in Hheld as [? _].
  - intros n r Hf Hk. apply (Hapart n r Hf). by eapply elem_of_submseteq.
  - intros c0 t [->|Hc0]%elem_of_set Ht; [|by eauto]. destruct (Hin t Ht) as [Ht'|?]; [by eauto|done].
  - intros c0 r [->|Hc0]%elem_of_set Hr; [|by eauto]. apply (Hrows c); [done|by apply Hsub].
  - intros c0 [->|Hc0]%elem_of_set; [done|by apply Hcalls].
Qed.

(** A stream is opened: the rows it selects are untouched, so nobody has them
    but for another open stream. *)
Lemma selected_keys sel l m rows :
  holds l m → selector_typed sel → rows ≡ₚ filter (into_condition sel) (tickets (tickets_db m)) →
  ∃ as_, as_ ≡ₚ filter (selects sel) l ∧ Forall2 row_of_acknowledged rows as_ ∧
    omap row_key rows = (λ a, key_of (ticket_of a)) <$> as_ ∧ NoDup ((λ a, key_of (ticket_of a)) <$> as_).
Proof.
  intros Hh Hs Hp. pose proof (hd_rows _ _ Hh) as Hrows.
  assert (Forall2 row_of_acknowledged (filter (into_condition sel) (tickets (tickets_db m))) (filter (selects sel) l)) as Hf
    by (apply Forall2_filter; [done|]; intros r a Hra; by rewrite (row_selected sel r a)).
  destruct (Forall2_permuted _ _ _ _ Hf Hp) as (as_ & Hf' & Hp'). exists as_. split_and!; [done|done| |].
  - by apply row_keys_of.
  - rewrite Hp'. apply NoDup_fmap_2_strong; [|apply NoDup_filter; by eapply holds_NoDup].
    intros a b [_ Ha]%list_elem_of_filter [_ Hb]%list_elem_of_filter Hk. by eapply same_key.
Qed.

Lemma inv_open cs v s i c c' sel rows :
  redeem_inv cs v s → cs !! i = Some c → call_keys c = [] → selector_typed sel → sel_state sel = Some Untouched →
  rows ≡ₚ filter (into_condition sel) (table (queue_db s)) → stream_rows c' = rows → in_hand c' = [] → call_typed c' →
  (∀ j cj r r', j ≠ i → cs !! j = Some cj → r ∈ rows → r' ∈ stream_rows cj → m_id r ≠ m_id r') →
  redeem_inv (<[i := c']> cs) v s.
Proof.
  intros Hinv Hi Hnone Hsel Hun Hp Hsr Hih Hct Hap.
  destruct Hinv as [Hix Hme Hn Htask Honce Hmark Htyped Hheld Hapart Hhand Hrows Hcalls]. pose proof (ix_tickets _ _ Hix) as Hh.
  destruct (selected_keys sel v.2 (ticket_manager (queue_db s)) rows Hh Hsel Hp) as (as_ & Has & Hra & Hkeys & Hnd).
  assert (call_keys c' = (λ a, key_of (ticket_of a)) <$> as_) as Hck by (unfold call_keys; by rewrite Hsr, Hih, Hkeys, app_nil_r).
  assert (held (<[i := c']> cs) ≡ₚ call_keys c' ++ held cs) as Hnew.
  { by rewrite (held_set _ _ c), (held_at cs i c), Hnone by done. }
  assert (∀ a, a ∈ as_ → a ∈ v.2 ∧ ack_status a = Untouched) as Huntouched.
  { intros a Ha. rewrite Has in Ha. apply list_elem_of_filter in Ha as [Hs%Is_true_true Ha]. split; [done|]. revert Hs.
    unfold selects. rewrite Hun, !andb_true_iff, bool_decide_eq_true. tauto. }
  assert (∀ r, r ∈ rows → ∃ a j, a ∈ as_ ∧ row_of_acknowledged r a ∧ (m_id <$> table (queue_db s)) !! j = Some (m_id r) ∧ v.2 !! j = Some a)
    as Hpos.
  { intros r Hr. assert (r ∈ table (queue_db s)) as [j Hj]%list_elem_of_lookup by (rewrite Hp in Hr; by apply list_elem_of_filter in Hr as [_ ?]).
    destruct (Forall2_lookup_l _ _ _ _ _ (hd_rows _ _ Hh) Hj) as (a & Ha & Hrow). apply list_elem_of_lookup in Hr as [k Hk].
    destruct (Forall2_lookup_l _ _ _ _ _ Hra Hk) as (b & Hb & Hrow'). assert (b = a) as -> by by eapply row_decodes.
    exists a, j. split_and!; [by eapply list_elem_of_lookup_2|done|by rewrite list_lookup_fmap, Hj|done]. }
  split; try done.
  - rewrite Hnew, Hck. apply NoDup_app. split_and!; [done| |done]. intros k (a & -> & Ha)%list_elem_of_fmap Hk.
    destruct (Huntouched a Ha) as [Hal Hau]. apply list_elem_of_bind in Hk as (c0 & Hk & Hc0).
    unfold call_keys in Hk. apply elem_of_app in Hk as [(r0 & Hr0 & Hk)%list_elem_of_omap|(t & Hk & Ht)%list_elem_of_fmap].
    + destruct (Hrows c0 r0 Hc0 Hr0) as (t & Hrt & Hfit). rewrite (row_key_of r0 t Hrt) in Hk. apply (inj Some) in Hk.
      apply list_elem_of_lookup in Hc0 as [j Hj]. destruct (decide (j = i)) as [->|Hji].
      { rewrite Hi in Hj. injection Hj as <-. unfold call_keys in Hnone. apply app_nil in Hnone as [Hnone _].
        assert (key_of (ticket_of t) ∈ omap row_key (stream_rows c)) as Hin by (apply list_elem_of_omap; exists r0; by rewrite (row_key_of r0 t)).
        rewrite Hnone in Hin. by apply elem_of_nil in Hin. }
      apply list_elem_of_lookup in Ha as [k Hak]. destruct (Forall2_lookup_r _ _ _ _ _ Hra Hak) as (r & Hr & Hrow).
      apply list_elem_of_lookup_2 in Hr. destruct (Hpos r Hr) as (b & p & _ & Hb & Hid & Hp').
      assert (b = a) as -> by by eapply row_decodes. apply (Hap j c0 r r0 Hji Hj Hr Hr0). apply (Hfit p (m_id r) a Hid Hp'); by symmetry.
    + destruct (Hhand c0 t Hc0 Ht) as [_ Hm]. rewrite (Hm a Hal Hk) in Hau. done.
  - intros n r Hf. rewrite Hnew, Hck. intros [(a & Hk & Ha)%list_elem_of_fmap|Hk]%elem_of_app; [|by eapply Hapart].
    destruct (Huntouched a Ha) as [Hal Hau]. rewrite (Hmark n r Hf a Hal) in Hau; done.
  - intros c0 t [->|Hc0]%elem_of_set Ht; [|by eauto]. rewrite Hih in Ht. by apply elem_of_nil in Ht.
  - intros c0 r [->|Hc0]%elem_of_set Hr; [|by eauto]. rewrite Hsr in Hr. destruct (Hpos r Hr) as (a & j & _ & Hrow & Hid & Ha).
    exists a. split; [done|]. intros j' id b Hid' Hb. split.
    + intros ->. assert (j' = j) as -> by (eapply NoDup_lookup; [apply (wf_ids _ (hd_store _ _ Hh))|done..]). congruence.
    + intros [= Hk1 Hk2 Hk3]. assert (j' = j) as -> by (by eapply (holds_position v.2 _ j' j b a)). rewrite Hid in Hid'. by injection Hid'.
  - intros c0 [->|Hc0]%elem_of_set; [done|by apply Hcalls].
Qed.

(** A row of a stream is marked, whatever its state is by then; when it is gone
    nothing is. *)
Lemma inv_mark cs v s i c r :
  redeem_inv cs v s → cs !! i = Some c → r ∈ stream_rows c →
  ∃ t m v', row_of_acknowledged r t ∧
    on_ticket_db (update_fetched r BeingRedeemed) s = (set_queue_db (set_ticket_manager m (queue_db s)) s, Ok (Some (with_status BeingRedeemed t))) ∧
    redeem_inv cs v' (set_queue_db (set_ticket_manager m (queue_db s)) s) ∧ marked_in v' (key_of (ticket_of t)).
Proof.
  intros Hinv Hi Hr. apply list_elem_of_lookup_2 in Hi as Hc. destruct (ri_rows _ _ _ Hinv c r Hc Hr) as (t & Hrt & Hfit).
  pose proof (ix_tickets _ _ (ri_indexed _ _ _ Hinv)) as Hh. set (same := λ a, bool_decide (key_of (ticket_of a) = key_of (ticket_of t))).
  destruct (update_many_at (λ r', m_id r' =? m_id r) same BeingRedeemed v.2 _ Hh) as (d' & Hup & Hh' & Hids & _ & Hout).
  { apply Forall2_same_length_lookup_2; [by eapply Forall2_length, hd_rows|]. intros j r' a Hr' Ha. unfold same.
    apply eq_true_iff_eq. rewrite bool_decide_eq_true, Z.eqb_eq. apply (Hfit j); [|done].
    unfold table. by rewrite list_lookup_fmap, Hr'. }
  set (m := ticket_manager (queue_db s)) in *.
  assert (update_fetched r BeingRedeemed m = (set_tickets_db d' m, Ok (Some (with_status BeingRedeemed t)))) as Hrun.
  { unfold update_fetched. assert (in_tx (update_many (λ r', m_id r' =? m_id r) (AcknowledgedTicketStatus_repr BeingRedeemed)) m =
      (set_tickets_db d' m, Ok (length (filter same v.2)))) as Htx by (unfold in_tx; by rewrite Hup).
    rewrite (run_Ok _ _ _ _ _ Htx). pose proof (mapM_rows [r] [t] ltac:(by constructor)) as Hdec. cbn in Hdec.
    destruct (AcknowledgedTicket_try_from r) as [t'| |]; [|done|done]. by injection Hdec as ->. }
  exists t, (set_tickets_db d' m), (v.1, mark_if same BeingRedeemed <$> v.2). split; [done|]. split; [by apply on_ticket_db_Ok|].
  assert (∀ a, a ∈ mark_if same BeingRedeemed <$> v.2 → key_of (ticket_of a) = key_of (ticket_of t) → ack_status a = BeingRedeemed) as Hm.
  { intros a (b & -> & Hb)%list_elem_of_fmap. rewrite ticket_of_marked. unfold mark_if, same. intros Hk.
    by rewrite bool_decide_eq_true_2. }
  split; [|exact Hm]. apply (inv_relabel cs v _ s); [done| |done|done| |exact (ri_taken _ _ _ Hinv)|exact (ri_tasks _ _ _ Hinv)|done|].
  - apply index_frame; [exact (ri_indexed _ _ _ Hinv)|done|done|done].
  - cbn [snd]. rewrite <-list_fmap_compose. apply list_fmap_ext. intros ? a _. apply ticket_of_marked.
  - cbn [snd]. intros j a a' Ha Ha'. rewrite list_lookup_fmap, Ha in Ha'. injection Ha' as <-. unfold mark_if.
    destruct (same a); [by right; left|by left].
Qed.

(** A ticket in hand is submitted. *)
Lemma inv_push cs v s r :
  redeem_inv cs v s → selector_typed (selector_of_redeemable r) → marked_in v (redeemed r) → redeemed r ∉ held cs →
  (∀ n r', flying s n r' → redeemed r' ≠ redeemed r) → redeem_inv cs v (push_action (RedeemTicket r) s).
Proof.
  intros [Hix Hme Hn Htask Honce Hmark Htyped Hheld Hapart Hhand Hrows Hcalls] Ht Hm Hno Hnew.
  assert (∀ n r', flying (push_action (RedeemTicket r) s) n r' → flying s n r' ∨ n = length (sent s) ∧ r' = r) as Hfly.
  { intros n r' [Hs Hf]. cbn in Hs, Hf. apply lookup_app_Some in Hs as [Hs|[Hge Hs]]; [by left|right].
    apply list_lookup_singleton_Some in Hs as [Hz [= ->]]. split; [lia|done]. }
  split; try done.
  - cbn. rewrite length_app. lia.
  - cbn. intros n task Hs. destruct (Htask n task Hs). split; [by apply lookup_app_l_Some|done].
  - intros n n' q q' [Hf|[-> ->]]%Hfly [Hf'|[-> ->]]%Hfly Hk; [by eapply Honce| | |done].
    + by destruct (Hnew _ _ Hf).
    + by destruct (Hnew _ _ Hf').
  - intros n q [Hf|[-> ->]]%Hfly; [by eapply Hmark|done].
  - intros n q [Hf|[-> ->]]%Hfly; [by eapply Htyped|done].
  - intros n q [Hf|[-> ->]]%Hfly; [by eapply Hapart|done].
Qed.

(** ** The steps of the queue *)
Definition non_redeem (a : Action) : Prop := ∀ r, a ≠ RedeemTicket r.

Lemma finish_flying s n a res n' r :
  (n < taken s)%nat → flying (finish n a res s) n' r → n' ≠ n ∧ flying s n' r.
Proof using Type.
  intros Hlt [Hs Ht]. cbn in Hs, Ht. destruct (decide (n' = n)) as [->|Hne].
  - rewrite lookup_delete_eq in Ht. destruct Ht as [?|[? [=]]]. lia.
  - rewrite lookup_delete_ne in Ht by done. by split.
Qed.

Lemma give_back_ids v r db :
  indexed v db → selector_typed (selector_of_redeemable r) →
  m_id <$> table (on_tickets (update_ticket_states (selector_of_redeemable r) Untouched) db).1 = m_id <$> table db.
Proof.
  intros Hix Hs. destruct (update_many_at (into_condition (selector_of_redeemable r)) (selects (selector_of_redeemable r))
    Untouched v.2 (ticket_manager db) (ix_tickets _ _ Hix)) as (d' & Hup & _ & Hids & _).
  { pose proof (hd_rows _ _ (ix_tickets _ _ Hix)) as Hrows. eapply Forall2_impl; [exact Hrows|]. intros row a Hra. by apply row_selected. }
  unfold on_tickets, update_ticket_states, perform. rewrite Hup. exact Hids.
Qed.

Lemma finish_redeem_inv cs v s n a res :
  redeem_inv cs v s → (n < taken s)%nat → (∀ r, a = RedeemTicket r → flying s n r) → ∃ v', redeem_inv cs v' (finish n a res s).
Proof.
  intros Hinv Hlt Hfly.
  assert (∀ m task, tasks (finish n a res s) !! m = Some task → sent s !! m = Some (task_action task) ∧ (m < taken s)%nat) as Htask.
  { cbn. intros m task [_ Hm]%lookup_delete_Some. by eapply ri_tasks. }
  assert (∀ m r, flying (finish n a res s) m r → m ≠ n ∧ flying s m r) as Hless by (intros; by eapply finish_flying).
  assert (queue_db (finish n a res s) = queue_db s → ∃ v', redeem_inv cs v' (finish n a res s)) as Hsame.
  { intros Hdb. exists v. apply (inv_shrink cs v s); [done|rewrite Hdb; by eapply ri_indexed|by rewrite Hdb|by rewrite Hdb
      |exact (ri_taken _ _ _ Hinv)|done|]. intros m r Hm. by apply Hless in Hm as [_ Hm]. }
  destruct res as [c|e|]; [by apply Hsame| |by apply Hsame]. destruct a as [r| | | | | | |]; try by apply Hsame.
  assert (selector_typed (selector_of_redeemable r)) as Hty by by eapply ri_typed, Hfly.
  destruct (give_back_run v r (queue_db s) (ri_indexed _ _ _ Hinv) Hty) as [Hix Hme].
  pose proof (give_back_ids v r (queue_db s) (ri_indexed _ _ _ Hinv) Hty) as Hids.
  eexists. apply (inv_relabel cs v _ s); [done|exact Hix|exact Hme|exact Hids| |exact (ri_taken _ _ _ Hinv)|exact Htask
    |intros m q Hm; by apply Hless in Hm as [_ Hm]|]; cbn [snd].
  - rewrite <-list_fmap_compose. apply list_fmap_ext. intros ? b _. apply ticket_of_marked.
  - intros j b b' Hb Hb'. rewrite list_lookup_fmap, Hb in Hb'. injection Hb' as <-. unfold mark_if.
    destruct (selects _ b) eqn:Hsel; [|by left]. right. right. apply selects_redeemed_key in Hsel as ->. split.
    + by eapply ri_apart, Hfly.
    + intros m q [Hne Hm]%Hless Hk. apply Hne. eapply (ri_once _ _ _ Hinv); [done|by apply Hfly|done].
Qed.

(** A task that goes on. *)
Lemma task_redeem_inv cs v s n task t :
  redeem_inv cs v s → (n < taken s)%nat → sent s !! n = Some (task_action task) → is_Some (tasks s !! n) →
  redeem_inv cs v (set_tasks (<[n := task]> (tasks s)) (set_tracker t s)).
Proof.
  intros Hinv Hlt Hs Hn. apply (inv_shrink cs v s); [done|exact (ri_indexed _ _ _ Hinv)|done|done|exact (ri_taken _ _ _ Hinv)| |].
  - cbn. intros m task' [[<- <-]|[_ Hm]]%lookup_insert_Some; [done|by eapply ri_tasks].
  - intros m r [Hm [Ht|Ht]]; (split; [done|]); [by left|right]. cbn in Ht. destruct (decide (m = n)) as [->|Hne]; [done|].
    by rewrite lookup_insert_ne in Ht.
Qed.

Lemma set_tracker_inv cs v s t : redeem_inv cs v s → redeem_inv cs v (set_tracker t s).
Proof.
  intros Hinv. apply (inv_shrink cs v s); [done|exact (ri_indexed _ _ _ Hinv)|done|done|exact (ri_taken _ _ _ Hinv)
    |exact (ri_tasks _ _ _ Hinv)|done].
Qed.

Lemma running_flying cs v s n task r : redeem_inv cs v s → tasks s !! n = Some task → task_action task = RedeemTicket r → flying s n r.
Proof. intros Hinv Hn Ha. destruct (ri_tasks _ _ _ Hinv _ _ Hn) as [Hs _]. split; [by rewrite Hs, Ha|right; by eexists]. Qed.

Lemma take_redeem_inv cs v s s' : redeem_inv cs v s → take_action s = Some s' → ∃ v', redeem_inv cs v' s'.
Proof.
  intros Hinv Hrun. unfold take_action in Hrun. apply bind_Some in Hrun as (a & Ha & [= <-]). set (n := taken s) in *.
  set (s1 := mkQueue (queue_db s) (queue_open s) (sent s) (S n) (tasks s) (tracker s) (resolving s) (results s)).
  assert (∀ m r, flying s1 m r → flying s m r) as Hfly.
  { intros m r [Hm [Ht|Ht]]; (split; [done|]); [left; cbn in Ht; unfold n in Ht; lia|by right]. }
  assert (redeem_inv cs v s1) as Hinv1.
  { apply (inv_shrink cs v s); [done|exact (ri_indexed _ _ _ Hinv)|done|done|by apply lookup_lt_Some in Ha| |done].
    intros m task Hm. destruct (ri_tasks _ _ _ Hinv m task Hm). split; [done|]. cbn. unfold n. lia. }
  destruct (executor_call a) as [call|e|] eqn:Hcall; [|apply (finish_redeem_inv cs v s1); [done|cbn; lia|intros r ->; by cbn in Hcall]|by exists v].
  exists v. apply (inv_shrink cs v s); [done|exact (ri_indexed _ _ _ Hinv)|done|done|by apply lookup_lt_Some in Ha| |].
  - cbn. intros m task [[<- <-]|[_ Hm]]%lookup_insert_Some; [split; [done|lia]|].
    destruct (ri_tasks _ _ _ Hinv m task Hm). split; [done|]. unfold n. lia.
  - intros m r [Hm [Ht|Ht]]; (split; [done|]); cbn in Ht; [left; unfold n in Ht; lia|].
    destruct (decide (m = n)) as [->|Hne]; [left; unfold n; lia|right; by rewrite lookup_insert_ne in Ht].
Qed.

Lemma queue_step_inv cs v s ev s' :
  redeem_inv cs v s → (∀ t, ev ≠ EvSend (RedeemTicket t)) → (∀ db, ev = EvDb db → db_step_ok (mkWorld s cs) db) →
  queue_step ev s = Some s' → ∃ v', redeem_inv cs v' s'.
Proof.
  intros Hinv Hns Hdb Hrun. destruct ev as [a| |n r|n|event| |n timed_out|db]; cbn in Hrun.
  - destruct (queue_open s); [|done]. injection Hrun as <-. exists v.
    apply (inv_shrink cs v s); [done|exact (ri_indexed _ _ _ Hinv)|done|done| | |].
    + cbn. rewrite length_app. pose proof (ri_taken _ _ _ Hinv). lia.
    + intros m task Hm. destruct (ri_tasks _ _ _ Hinv m task Hm). split; [by apply lookup_app_l_Some|done].
    + intros m r [Hm Ht]. split; [|done]. cbn in Hm. apply lookup_app_Some in Hm as [Hm|[_ Hm]]; [done|].
      apply list_lookup_singleton_Some in Hm as [_ [= ->]]. by destruct (Hns r).
  - by eapply take_redeem_inv.
  - unfold answer in Hrun. destruct (tasks s !! n) as [[a| |]|] eqn:Ht; try done. destruct (ri_tasks _ _ _ Hinv _ _ Ht) as [Hs Hlt].
    assert (∀ r, a = RedeemTicket r → flying s n r) as Hfly by (intros r' ->; by eapply running_flying).
    destruct r as [h|e|]; [destruct (expectation_of a h)|..]; try done; injection Hrun as <-; try by eapply finish_redeem_inv.
    exists v. pose proof (task_redeem_inv cs v s n (Registering a i) (tracker s) Hinv Hlt Hs ltac:(by rewrite Ht)) as H'. by destruct s.
  - unfold register in Hrun. destruct (tasks s !! n) as [[|a exp|]|] eqn:Ht; try done. destruct (ri_tasks _ _ _ Hinv _ _ Ht) as [Hs Hlt].
    destruct (register_expectation exp (tracker s)) as [t o]. injection Hrun as <-.
    destruct o as [ch|e|]; [exists v; apply task_redeem_inv; [done..|by rewrite Ht]| |by exists v].
    eapply finish_redeem_inv; [by apply set_tracker_inv|done|]. intros r ->. cbn in *. by eapply (running_flying cs v s).
  - destruct (resolving s); [done|]. injection Hrun as <-. exists v. apply (inv_shrink cs v s);
      [done|exact (ri_indexed _ _ _ Hinv)|done|done|exact (ri_taken _ _ _ Hinv)|exact (ri_tasks _ _ _ Hinv)|done].
  - destruct (resolving s) as [[event keys]|]; [|done]. injection Hrun as <-. exists v. apply (inv_shrink cs v s);
      [done|exact (ri_indexed _ _ _ Hinv)|done|done|exact (ri_taken _ _ _ Hinv)|exact (ri_tasks _ _ _ Hinv)|done].
  - unfold poll in Hrun. destruct (tasks s !! n) as [[| |a h ch]|] eqn:Ht; try done. destruct (ri_tasks _ _ _ Hinv _ _ Ht) as [Hs Hlt].
    assert (∀ r, a = RedeemTicket r → flying s n r) as Hfly by (intros r' ->; by eapply running_flying).
    destruct (receivers (tracker s) !! ch) as [[]|]; [destruct timed_out; [|done]|..]; injection Hrun as <-;
      (eapply finish_redeem_inv; [by apply set_tracker_inv|done|exact Hfly]).
  - injection Hrun as <-. destruct (Hdb db eq_refl) as (Hme & v' & Hix & Hm & Hhand & Hrows). exists v'. cbn [w_queue w_calls] in *.
    destruct Hinv as [_ Hme' Hn Htask Honce _ Htyped Hheld Hapart Hsub Hfit Hcalls]. split; try done.
    + cbn. by rewrite Hme.
    + intros n r Hf a. by apply (Hm n r).
    + intros c t Hc Ht. destruct (Hsub c t Hc Ht). split; [done|]. intros a. by apply (Hhand c t).
    + intros c r Hc Hr. destruct (Hfit c r Hc Hr) as (t & Hrt & _). exists t. split; [done|]. by eapply Hrows.
Qed.

(** ** The requests *)
Definition good (cs : list RedeemCall) (s : QueueState) : Prop := ∃ v, redeem_inv cs v s.
Abbreviation safe cs := (keeps false (good cs)).

Lemma safe_db {A} cs wrap (m : SM HoprDb DbSqlError A) :
  (∀ db db' o, m db = (db', o) → reads db db' ∧ src_dst_to_channel db' = src_dst_to_channel db) → safe cs (on_db_with wrap m).
Proof.
  intros Hm s [v Hinv]. split; [|done]. unfold on_db_with. destruct (m (queue_db s)) as [db' o] eqn:Hrun.
  destruct (Hm _ _ _ Hrun) as [Hr Hs]. exists v. pose proof (ri_indexed _ _ _ Hinv) as Hix.
  apply (inv_shrink cs v s); [done|by eapply reads_indexed|by apply (rd_me _ _ Hr)|by apply (rd_tickets _ _ Hr)|exact (ri_taken _ _ _ Hinv)
    |exact (ri_tasks _ _ _ Hinv)|done].
Qed.

Lemma safe_fetch {A} cs wrap (m : SM HoprDb DbSqlError A) : fetch_only m → safe cs (on_db_with wrap m).
Proof. intros [f Hf]. apply safe_db. intros db db' o. rewrite Hf. by intros [= <- _]. Qed.

Lemma safe_indexer_data cs wrap : safe cs (on_db_with wrap get_indexer_data).
Proof. apply safe_db. intros db db' o Hrun. split; [by eapply get_indexer_data_reads|by eapply get_indexer_data_src]. Qed.

Ltac stay_still := repeat first [done | apply still_bind; [|intros ?] | apply still_match; [intros ?|]].

Lemma safe_allowance cs wrap : safe cs (on_db_with wrap get_safe_hopr_allowance).
Proof. apply safe_fetch, fetch_only_tx. stay_still. Qed.

Lemma safe_balance cs wrap : safe cs (on_db_with wrap get_safe_hopr_balance).
Proof. apply safe_fetch, fetch_only_tx. stay_still. Qed.

Lemma safe_registry cs wrap a : safe cs (on_db_with wrap (is_allowed_in_network_registry a)).
Proof. apply safe_fetch, fetch_only_tx. stay_still. Qed.

Lemma safe_channel cs wrap src dst : safe cs (on_db_with wrap (get_channel_by_parties src dst false)).
Proof. apply safe_fetch, fetch_channel_only. Qed.

Lemma safe_channel_by_id cs wrap id : safe cs (on_db_with wrap (get_channel_by_id id)).
Proof. apply safe_fetch, fetch_only_tx. unfold find_channel. stay_still. Qed.

Lemma safe_require cs b e : safe cs (require b e).
Proof. unfold require. destruct b; [apply keeps_ret|apply keeps_throw]. Qed.

Lemma safe_send cs a : non_redeem a → safe cs (send a).
Proof.
  intros Ha s [v Hinv]. split; [|done]. unfold send. destruct (queue_open s) eqn:Hop; [|by exists v].
  apply (queue_step_inv cs v s (EvSend a)); [done|intros t [= Ht]; by eapply Ha|done|cbn; by rewrite Hop].
Qed.

Lemma safe_self cs : safe cs self_address.
Proof. apply keeps_get. intros s _. apply keeps_ret. Qed.

Ltac stay_good := repeat first
  [ done | apply safe_require | apply safe_allowance | apply safe_balance | apply safe_indexer_data | apply safe_registry
  | apply safe_channel | apply safe_channel_by_id | apply safe_self | apply keeps_ret | apply keeps_throw
  | apply safe_send; done | apply keeps_bind; [|intros ?] | case_match ].

Lemma request_safe cs r : safe cs (request r).
Proof.
  unfold request, discard, open_channel, fund_channel, close_channel, enough_funds, on_index, withdraw, withdraw_native, register_safe_by_node.
  destruct r; (apply keeps_bind; [|intros ?; apply keeps_ret]); stay_good.
Qed.

Lemma safe_separator cs : safe cs channel_dst.
Proof. unfold channel_dst, on_index. apply keeps_bind; [apply safe_indexer_data|intros ?; stay_good]. Qed.

(** ** The steps of a call *)
(** A step that has nothing in hand and goes on with nothing. *)
Lemma idle_step {A} cs i c (m : AM A) (k : A → RedeemCall) s :
  cs !! i = Some c → safe cs m → (∀ a, call_keys (k a) = [] ∧ stream_rows (k a) = [] ∧ in_hand (k a) = [] ∧ call_typed (k a)) →
  good cs s → good (<[i := (and_then m k s).2]> cs) (and_then m k s).1.
Proof.
  intros Hi Hm Hk Hg. destruct (Hm s Hg) as [[v Hinv] _]. exists v. unfold and_then.
  assert (∀ c' s', redeem_inv cs v s' → call_keys c' = [] → stream_rows c' = [] → in_hand c' = [] → call_typed c' → redeem_inv (<[i := c']> cs) v s')
    as Hset.
  { intros c' s' Hinv' Hck Hsr Hih Hct. apply (inv_set_call cs v s' i c); [done|done| | | |done].
    - rewrite Hck. apply submseteq_nil_l.
    - rewrite Hsr. intros r Hr. by apply elem_of_nil in Hr.
    - rewrite Hih. intros t Ht. by apply elem_of_nil in Ht. }
  destruct (m s) as [s' [a|e|]]; cbn [fst snd] in *; [|by apply Hset..]. destruct (Hk a) as (? & ? & ? & ?). by apply Hset.
Qed.

(** A call that only loses tickets. *)
Lemma drop_step cs v s i c c' :
  redeem_inv cs v s → cs !! i = Some c → call_keys c' ⊆+ call_keys c → stream_rows c' ⊆ stream_rows c → in_hand c' ⊆ in_hand c →
  call_typed c' → good (<[i := c']> cs) s.
Proof. intros Hinv Hi Hk Hr Hh Ht. exists v. apply (inv_set_call cs v s i c); [done..| |done]. intros t Hin. left. by apply Hh. Qed.

Lemma returned_step cs v s i c o : redeem_inv cs v s → cs !! i = Some c → good (<[i := Returned o]> cs) s.
Proof.
  intros Hinv Hi. apply (drop_step cs v s i c); [done|done|apply submseteq_nil_l| | |done]; intros x Hx; by apply elem_of_nil in Hx.
Qed.

Lemma pass_step cs v s i t got rnds rnds' dst ns :
  redeem_inv cs v s → cs !! i = Some (Submitting (t :: got) rnds dst ns) → good (<[i := Submitting got rnds' dst ns]> cs) s.
Proof.
  intros Hinv Hi. apply (drop_step cs v s i _ _ Hinv Hi); [|done| |done].
  - unfold call_keys. cbn. apply submseteq_cons. reflexivity.
  - intros x Hx. by right.
Qed.

(** A ticket leaves the hand of a call for the queue. *)
Lemma submit_step cs v s i c c' t r :
  redeem_inv cs v s → cs !! i = Some c → call_keys c ≡ₚ key_of (ticket_of t) :: call_keys c' → stream_rows c' ⊆ stream_rows c →
  in_hand c' ⊆ in_hand c → t ∈ in_hand c → call_typed c' → r_ticket r = Tickets.ack_ticket t →
  good (<[i := c']> cs) (push_action (RedeemTicket r) s).
Proof.
  intros Hinv Hi Hk Hr Hh Ht Hct Hred. exists v. pose proof (list_elem_of_lookup_2 _ _ _ Hi) as Hc.
  assert (redeemed r = key_of (ticket_of t)) as Heq by (unfold redeemed, ticket_of; by rewrite Hred).
  destruct (ri_hand _ _ _ Hinv c t Hc Ht) as [Hsub Hm].
  assert (redeem_inv (<[i := c']> cs) v s) as Hinv'.
  { apply (inv_set_call cs v s i c); [done..|rewrite Hk; by apply submseteq_cons|done| |done]. intros x Hx. left. by apply Hh. }
  apply inv_push; [done|by apply Hsub|by rewrite Heq| |].
  - rewrite Heq, (held_set _ _ c), elem_of_app by done. pose proof (ri_held _ _ _ Hinv) as Hnd.
    rewrite (held_at cs i c Hi), Hk in Hnd. cbn in Hnd. apply NoDup_cons in Hnd as [Hno _]. by rewrite elem_of_app in Hno.
  - intros n q Hf Hq. apply (ri_apart _ _ _ Hinv n q Hf). rewrite Hq, Heq. by eapply hand_held.
Qed.

Lemma find_step cs v s i ack random :
  redeem_inv cs v s → cs !! i = Some (Finding ack random) →
  let x := call_step (Finding ack random) s in good (<[i := x.2]> cs) x.1.
Proof.
  intros Hinv Hi. cbv zeta. destruct (ri_calls _ _ _ Hinv _ (list_elem_of_lookup_2 _ _ _ Hi)) as [Hid Hix].
  cbn [call_step]. unfold and_then, find_redeemable. fold (ticket_of ack).
  destruct (ix_channels _ _ (ri_indexed _ _ _ Hinv)) as [Hcw _].
  pose proof (on_db_with_Ok ActionsDbBackendError _ s _ _ (get_channel_by_id_ok v.1 _ _ Hcw Hid)) as Hch.
  rewrite set_queue_db_same in Hch. rewrite (run_Ok _ _ _ _ _ Hch).
  destruct (entry_by_id _ v.1) as [e|] eqn:He; [|by eapply returned_step].
  apply (find_iff get_id _ v.1 e (cw_channels _ _ Hcw)) in He as [Hin _]. apply (entries_wf _ _ _ Hcw) in Hin as Hew.
  unfold U256_as. destruct (ticket_index e <? 2 ^ 64); [|by eapply returned_step]. autorewrite with run.
  unfold require. destruct (negb _); [autorewrite with run|by eapply returned_step]. cbn [fst snd].
  apply (drop_step cs v s i (Finding ack random)); [done|done|apply submseteq_nil_l|by intros x Hx; apply elem_of_nil in Hx..|].
  split; [|done]. split; [constructor; [split; [by apply get_id_wf|apply Hew]|done]|done].
Qed.

(** Opening a stream. *)
Lemma open_step cs v s i c (k : list TicketModel → RedeemCall) sel :
  redeem_inv cs v s → cs !! i = Some c → call_keys c = [] → selector_typed sel ∧ sel_state sel = Some Untouched →
  (∀ rows, stream_rows (k rows) = rows ∧ in_hand (k rows) = [] ∧ call_typed (k rows)) →
  let x := and_then (on_ticket_db (open_ticket_stream sel)) k s in
  streams_apart (mkWorld x.1 (<[i := x.2]> cs)) → good (<[i := x.2]> cs) x.1.
Proof.
  intros Hinv Hi Hnone [Hsel Hun] Hk. destruct (opened_stream sel (λ rows, mret rows) s) as [Hopen _].
  cbv zeta. unfold and_then. rewrite Hopen. cbn [fst snd]. set (rows := find_where _ _). destruct (Hk rows) as (Hsr & Hih & Hct).
  intros Hap. exists v. apply (inv_open cs v s i c _ sel rows); [done..|apply scan_permutation|done|done|done|].
  intros j cj r r' Hji Hj Hr Hr'. apply (Hap i j (k rows) cj); [done| |cbn; by rewrite list_lookup_insert_ne by done|by rewrite Hsr|done].
  apply list_lookup_insert_eq. by eapply lookup_lt_Some.
Qed.

Lemma call_keys_eq rows got c :
  stream_rows c = rows → in_hand c = got → call_keys c = omap row_key rows ++ ((λ t, key_of (ticket_of t)) <$> got).
Proof using Type. unfold call_keys. by intros -> ->. Qed.

Lemma call_step_good cs v s i c :
  redeem_inv cs v s → cs !! i = Some c → let x := call_step c s in
  streams_apart (mkWorld x.1 (<[i := x.2]> cs)) → good (<[i := x.2]> cs) x.1.
Proof.
  intros Hinv Hi. cbv zeta. intros Hap. pose proof (list_elem_of_lookup_2 _ _ _ Hi) as Hc.
  pose proof (ri_calls _ _ _ Hinv c Hc) as Hct. assert (good cs s) as Hg by by exists v.
  destruct c as [sel rnds|sel rnds|sel rnds dst|[|r rows] got rnds dst|[|t got] rnds dst ns|ack rnd|sel rnd|[|r rows] rnd|t rnd|t rnd dst|o];
    cbn [call_step] in *.
  - eapply idle_step; [done| | |done].
    + intros s' [v' Hinv']. split; [|done]. unfold on_ticket_db, on_db_with, on_tickets.
      destruct (get_tickets_value_run sel v'.2 (ticket_manager (queue_db s')) (ix_tickets _ _ (ri_indexed _ _ _ Hinv')) (proj1 Hct)) as [x ->].
      cbn. exists v'. by destruct s' as [[]].
    + intros [n x]. cbn. by destruct (n =? 0)%nat.
  - by eapply idle_step; [done|apply safe_separator| |].
  - by eapply (open_step cs v s i _ (λ rows, Streaming rows [] rnds dst) sel).
  - by apply (drop_step cs v s i (Streaming [] got rnds dst)).
  - destruct (inv_mark cs v s i _ r Hinv Hi) as (t & m & v' & Hrt & Hrun & Hinv' & Hm); [by left|].
    unfold and_then. rewrite Hrun. cbn [fst snd option_list]. exists v'.
    apply (inv_set_call cs v' _ i (Streaming (r :: rows) got rnds dst)); [done|done| | | |done].
    + rewrite (call_keys_eq rows (got ++ [with_status BeingRedeemed t])), (call_keys_eq (r :: rows) got) by done.
      cbn [omap list_omap]. rewrite (row_key_of r t Hrt), fmap_app. cbn. by rewrite <-Permutation_cons_append, <-Permutation_middle.
    + intros x Hx. by right.
    + intros x [Hx|Hx%list_elem_of_singleton]%elem_of_app; [by left|right]. subst x. split; [by eapply row_submittable|exact Hm].
  - by eapply returned_step.
  - destruct (into_redeemable _ t _ dst) as [red|e|] eqn:Hred; cbn [fst snd]; [|by eapply pass_step|by eapply returned_step].
    unfold send. destruct (queue_open s); cbn [fst snd].
    + apply into_redeemable_ticket in Hred. eapply (submit_step cs v s i _ _ t red); [done..| |by left|done|done]. intros x Hx. by right.
    + by eapply pass_step.
  - by apply (find_step cs v s i).
  - by eapply (open_step cs v s i _ (λ rows, StreamingOne rows rnd) sel).
  - by eapply returned_step.
  - destruct (inv_mark cs v s i _ r Hinv Hi) as (t & m & v' & Hrt & Hrun & Hinv' & Hm); [by left|].
    unfold and_then. rewrite Hrun. cbn [fst snd]. exists v'.
    apply (inv_set_call cs v' _ i (StreamingOne (r :: rows) rnd)); [done|done| | | |done].
    + rewrite (call_keys_eq [] [with_status BeingRedeemed t]), (call_keys_eq (r :: rows) []) by done.
      cbn [omap list_omap]. rewrite (row_key_of r t Hrt). cbn. apply submseteq_skip, submseteq_nil_l.
    + intros x Hx. by apply elem_of_nil in Hx.
    + intros x Hx%list_elem_of_singleton. right. subst x. split; [by eapply row_submittable|exact Hm].
  - unfold and_then. destruct (safe_separator cs s Hg) as [[v' Hinv'] _]. destruct (channel_dst s) as [s' [dst|e|]]; cbn [fst snd] in *.
    + by apply (drop_step cs v' s' i (SeparatingOne t rnd)).
    + by eapply returned_step.
    + by eapply returned_step.
  - unfold and_then. autorewrite with run. destruct (into_redeemable rnd t _ dst) as [red|e|] eqn:Hred;
      [|by eapply returned_step..]. cbn [map_err]. autorewrite with run. unfold send. destruct (queue_open s); cbn [fst snd];
      [|by eapply returned_step].
    apply into_redeemable_ticket in Hred. eapply (submit_step cs v s i _ _ t red); [done|done|done| | |by left|done|done];
      intros x Hx; by apply elem_of_nil in Hx.
  - exists v. by rewrite list_insert_id.
Qed.

Lemma careful_good w w' : rtc careful_step w w' → good (w_calls w) (w_queue w) → good (w_calls w') (w_queue w').
Proof.
  induction 1 as [|w1 w2 w3 [Hstep Hap] _ IH]; [done|]. intros [v Hinv]. apply IH. clear IH. destruct Hstep as [w c Hc|w i w' Hrun|w r|w ev s' Hns Hdb Hrun].
  - exists v. by apply inv_start.
  - unfold advance in Hrun. apply bind_Some in Hrun as (c & Hi & Hrun). pose proof (call_step_good _ v (w_queue w) i c Hinv Hi) as Hgood.
    destruct (call_step c (w_queue w)) as [s' c']. injection Hrun as <-. by apply Hgood.
  - apply request_safe. by exists v.
  - apply (queue_step_inv _ v (w_queue w) ev); [done|done| |done]. by destruct w.
Qed.

Lemma new_good v db : indexed v db → array_wf 20 (me_onchain db) → good [] (queue_new db).
Proof.
  intros Hix Hme. exists v.
  assert (∀ n r, ¬ flying (queue_new db) n r) as Hno by (intros n r [Hs _]; cbn in Hs; by rewrite lookup_nil in Hs).
  split; try done; try (intros; by edestruct Hno); [apply NoDup_nil_2|..];
    [intros c ? Hc; by apply elem_of_nil in Hc..|intros c Hc; by apply elem_of_nil in Hc].
Qed.

(** C9. A ticket is redeemed at most once at a time, as long as the streams that
    mark tickets keep apart.  From an empty queue, in any interleaving of the
    steps of requests to redeem untouched tickets (counting, reading the domain
    separator, opening the stream, marking one row, submitting one ticket), of other
    requests, of the steps of the queue, its tasks and the indexer's matching,
    and of changes to the database that leave tickets under redemption alone:
    if no two streams are ever open with a row in common that neither has
    marked yet, then no two redemptions under way are of the same ticket, none
    is of a ticket that a request is about to mark or submit, and a ticket under
    redemption that is still stored is marked [BeingRedeemed].  The condition is
    needed, since the stream does not hold the lock. *)
Theorem no_double_redemption (v : View) (db : HoprDb) (w : World) :
  indexed v db → array_wf 20 (me_onchain db) → rtc careful_step (mkWorld (queue_new db) []) w →
  (∀ n n' r r', flying (w_queue w) n r → flying (w_queue w) n' r' → redeemed r = redeemed r' → n = n') ∧
  (∀ n r, flying (w_queue w) n r → redeemed r ∉ held (w_calls w)) ∧
  ∃ v', indexed v' (queue_db (w_queue w)) ∧
    ∀ n r a, flying (w_queue w) n r → a ∈ v'.2 → key_of (ticket_of a) = redeemed r → ack_status a = BeingRedeemed.
Proof.
  intros Hix Hme Hrun. destruct (careful_good _ _ Hrun (new_good v db Hix Hme)) as [v' Hinv].
  split; [by eapply ri_once|]. split; [by eapply ri_apart|]. exists v'. split; [by eapply ri_indexed|].
  intros n r a Hf. by apply (ri_marked _ _ _ Hinv n r Hf).
Qed.
End World.
