(* ===== verification/ActionRuns.v ===== *)
(** * Concrete runs of the chain actions

    A node with two winning tickets redeems them, and the theorems of the
    action queue are applied to the runs. *)
From Stdlib Require Import Floats.SpecFloat.
From stdpp Require Import gmap strings relations.
From S2P Require Import Prelude Primitives Crypto Channels Tickets WinProb SharedKeys Sphinx MetaPacket Por Packet PacketSpec.
From S2P Require Import TicketStore TicketStoreSpec TicketIndexSpec TicketStoreRuns TicketTable NodeDb NodeDbSpec.
From S2P Require Import Protocol ProtocolSpec NodeProtocol NodeProtocolSpec NodeRuns Indexer IndexerSpec IndexerFacts IndexerRuns.
From S2P Require Import Aggregation AggregationSpec PrepareSpec AggregationRuns Actions ActionsSpec RedeemSpec RedeemSteps RedeemWorld.

#[local] Existing Instances Z3_curve Z3_curve_laws toy_kdf toy_curve toy_curve_laws.
#[local] Existing Instances plain_hex plain_hex_laws table_order table_order_laws.
#[local] Existing Instances plain_addresses exact_floats toy_ed25519 toy_ed25519_laws.

(** A multiaddress is its list of characters; no protocol is a peer id. *)
#[local] Instance plain_protocols : MultiaddrProtocols := {|
  Protocol := Ascii.ascii;
  protocols := String.list_ascii_of_string;
  collect_protocols := String.string_of_list_ascii;
  is_p2p := λ _, false;
  with_p2p := λ ma _, Ok ma;
  multiaddr_pop := λ ma, ma;
  multiaddr_eqb := String.eqb
|}.

Definition holding : QueueState := queue_new holder_db.
Definition all_incoming : TicketSelector := with_state Untouched (selector_of_channel toy_incoming).
Definition redeeming : QueueState * outcome ChainActionsError (list nat) := redeem_tickets all_incoming [[3]; [4]] holding.

Lemma all_incoming_typed : selector_typed all_incoming.
Proof. split; [constructor; [by split; by_check|constructor]|done]. Qed.

Lemma redeem_tickets_exact_witness :
  ∃ s' rs chosen, redeeming = (s', Ok [0%nat; 1%nat]) ∧ sent s' = RedeemTicket <$> rs ∧
    Forall2 (λ r a, r_ticket r = Tickets.ack_ticket a) rs chosen ∧
    chosen ⊆+ filter (selects all_incoming) toy_view.2 ∧
    indexed ([toy_incoming; toy_outgoing_channel],
      [with_status BeingRedeemed (win_ticket 5); with_status BeingRedeemed (win_ticket 7)]) (queue_db s').
Proof.
  assert (match (get_indexer_data holder_db).2 with Ok d => bool_decide (channels_dst d = Some toy_ds) | _ => false end = true) as Hd by by_eval.
  destruct (get_indexer_data holder_db).2 as [data| |] eqn:Hdata; [|discriminate Hd..]. apply bool_decide_eq_true_1 in Hd.
  assert (NodeDb.chain_key holder_db = toy_key 2) as Hkey by by_eval.
  destruct (redeem_tickets_exact all_incoming [[3]; [4]] toy_view holding data toy_ds 2)
    as (s' & rs & chosen & Hrun & Hs & Hm & Hc & _ & Hix & _).
  - exact holder_indexed.
  - exact all_incoming_typed.
  - reflexivity.
  - exact Hdata.
  - exact Hd.
  - change (queue_db holding) with holder_db. rewrite Hkey. apply toy_key_wf. lia.
  - exists s', rs, chosen. assert (redeeming.2 = Ok [0%nat; 1%nat]) as Ho by by_eval.
    fold redeeming in Hrun. rewrite Hrun in Ho. cbn [snd] in Ho. rewrite Ho in Hrun.
    split; [exact Hrun|]. split; [exact Hs|]. split; [exact Hm|]. split; [exact Hc|].
    assert (mark_if (selects all_incoming) BeingRedeemed <$> toy_view.2 =
      [with_status BeingRedeemed (win_ticket 5); with_status BeingRedeemed (win_ticket 7)]) as He by by_eval.
    rewrite <-He. exact Hix.
Defined.

(** ** Two redemptions under way *)
Inductive Move := MoveStart (c : RedeemCall) | MoveCall (i : nat) | MoveQueue (ev : QueueEvent).

Definition internal (ev : QueueEvent) : bool := match ev with EvSend _ | EvDb _ => false | _ => true end.

Definition move (mv : Move) (w : World) : option World :=
  match mv with
  | MoveStart c => Some (mkWorld (w_queue w) (w_calls w ++ [c]))
  | MoveCall i => advance i w
  | MoveQueue ev => if internal ev then s ← queue_step ev (w_queue w); Some (mkWorld s (w_calls w)) else None
  end.

Definition start_of (mv : Move) : Prop := match mv with MoveStart c => call_start c | _ => True end.

(** The rows of all open streams are different. *)
Definition apart (w : World) : bool := bool_decide (NoDup (w_calls w ≫= λ c, m_id <$> stream_rows c)).

Fixpoint play (careful : bool) (mvs : list Move) (w : World) : option World :=
  match mvs with
  | [] => Some w
  | mv :: mvs => w ← move mv w; if negb careful || apart w then play careful mvs w else None
  end.

Lemma apart_streams w : apart w = true → streams_apart w.
Proof.
  intros Hnd%bool_decide_eq_true i j c c' r r' Hij Hi Hj Hr Hr' Heq. revert i j Hij Hi Hj. generalize dependent (w_calls w).
  induction l as [|c0 l IH]; intros Hnd [|i] [|j] Hij Hi Hj; try done; cbn in Hi, Hj; rewrite bind_cons in Hnd;
    apply NoDup_app in Hnd as (_ & Hdis & Hnd).
  - injection Hi as ->. apply (Hdis (m_id r)); [by apply list_elem_of_fmap_2|]. apply list_elem_of_bind. exists c'.
    split; [rewrite Heq; by apply list_elem_of_fmap_2|by eapply list_elem_of_lookup_2].
  - injection Hj as ->. apply (Hdis (m_id r')); [by apply list_elem_of_fmap_2|]. apply list_elem_of_bind. exists c.
    split; [rewrite <-Heq; by apply list_elem_of_fmap_2|by eapply list_elem_of_lookup_2].
  - eapply (IH Hnd i j); [congruence|done..].
Qed.

Lemma move_step mv w w' : start_of mv → move mv w = Some w' → world_step w w'.
Proof.
  intros Hs. destruct mv as [c|i|ev]; cbn [move].
  - intros [= <-]. by apply step_start.
  - by apply step_call.
  - destruct (internal ev) eqn:Hin; [|done]. intros (s & Hq & [= <-])%bind_Some.
    apply (step_queue w ev); [by intros t ->|by intros db ->|done].
Qed.

Lemma play_careful mvs w w' : Forall start_of mvs → play true mvs w = Some w' → rtc careful_step w w'.
Proof.
  intros Hs. revert w. induction Hs as [|mv mvs Hmv _ IH]; intros w; cbn [play]; [intros [= <-]; by apply rtc_refl|].
  intros (w1 & Hm & Hrest)%bind_Some. destruct (apart w1) eqn:Ha; [|done].
  apply (rtc_l _ w w1); [|by apply IH]. split; [by eapply move_step|by apply apart_streams].
Qed.

Lemma play_steps mvs w w' : Forall start_of mvs → play false mvs w = Some w' → rtc world_step w w'.
Proof.
  intros Hs. revert w. induction Hs as [|mv mvs Hmv _ IH]; intros w; cbn [play]; [intros [= <-]; by apply rtc_refl|].
  intros (w1 & Hm & Hrest)%bind_Some. apply (rtc_l _ w w1); [by eapply move_step|by apply IH].
Qed.

(** Two requests for all tickets of a channel, and the steps of the first up to
    its second submission. *)
Definition two_requests : list Move := [MoveStart (Counting all_incoming [[3]; [4]]); MoveStart (Counting all_incoming [[5]; [6]])].
Definition idle_world : World := mkWorld holding [].

Lemma two_requests_start mvs : Forall start_of mvs → Forall start_of (two_requests ++ mvs).
Proof. intros Hs. constructor; [split; [exact all_incoming_typed|reflexivity]|constructor; [split; [exact all_incoming_typed|reflexivity]|exact Hs]]. Qed.

(** The second request counts while the first is at its stream and opens its own
    after it. *)
Definition careful_moves : list Move :=
  [MoveCall 0; MoveCall 0; MoveCall 0; MoveCall 0; MoveCall 1; MoveCall 0; MoveCall 0; MoveCall 0; MoveQueue EvTake;
   MoveCall 1; MoveCall 0; MoveCall 1; MoveCall 1].
Definition careful_world : World := default idle_world (play true (two_requests ++ careful_moves) idle_world).

Lemma careful_run : rtc careful_step idle_world careful_world.
Proof.
  apply (play_careful (two_requests ++ careful_moves)); [apply two_requests_start; repeat constructor|].
  assert (match play true (two_requests ++ careful_moves) idle_world with Some _ => true | None => false end = true) as Hs by by_eval.
  unfold careful_world. destruct (play true _ idle_world); [reflexivity|discriminate Hs].
Qed.

(** The keys of the redemptions under way. *)
Definition flying_keys (s : QueueState) : list (Hash * Z * Z) :=
  omap (λ '(n, a), match a with
                   | RedeemTicket r => if (taken s <=? n)%nat || match tasks s !! n with Some _ => true | None => false end
                                       then Some (redeemed r) else None
                   | _ => None
                   end) (zip (seq 0 (length (sent s))) (sent s)).

Lemma no_double_redemption_witness :
  (∀ n n' r r', flying (w_queue careful_world) n r → flying (w_queue careful_world) n' r' → redeemed r = redeemed r' → n = n') ∧
  bool_decide (length (flying_keys (w_queue careful_world)) = 2%nat) = true ∧
  ∃ v', indexed v' (queue_db (w_queue careful_world)).
Proof.
  destruct (no_double_redemption toy_view holder_db careful_world) as (Honce & _ & v' & Hix & _).
  - exact holder_indexed.
  - by_check.
  - exact careful_run.
  - split; [exact Honce|]. split; [by_eval|]. exists v'. exact Hix.
Defined.

(** Without the condition the property fails: the second request opens its
    stream before the first has marked anything, and both submit both tickets. *)
Definition overlapping_moves : list Move :=
  [MoveCall 0; MoveCall 1; MoveCall 0; MoveCall 1; MoveCall 0; MoveCall 1] ++
  replicate 5 (MoveCall 0) ++ replicate 5 (MoveCall 1).
Definition overlapping_world : World := default idle_world (play false (two_requests ++ overlapping_moves) idle_world).

Theorem overlapping_streams_redeem_twice :
  rtc world_step idle_world overlapping_world ∧
  ∃ k k', flying_keys (w_queue overlapping_world) = [k; k'; k; k'].
Proof.
  split.
  - apply (play_steps (two_requests ++ overlapping_moves)); [apply two_requests_start; repeat constructor|].
    assert (match play false (two_requests ++ overlapping_moves) idle_world with Some _ => true | None => false end = true) as Hs by by_eval.
    unfold overlapping_world. destruct (play false _ idle_world); [reflexivity|discriminate Hs].
  - assert (match flying_keys (w_queue overlapping_world) with
            | [a; b; c; d] => bool_decide (a = c) && bool_decide (b = d)
            | _ => false
            end = true) as Hk by by_eval.
    destruct (flying_keys (w_queue overlapping_world)) as [|a [|b [|c [|d [|]]]]]; try discriminate Hk.
    apply andb_prop in Hk as [<-%bool_decide_eq_true <-%bool_decide_eq_true]. by exists a, b.
Qed.

(** ** A confirmation *)
Definition safe_address : Address := replicate 20 6.
Definition tx_of (n : Z) : Hash := replicate 32 n.
Definition safe_events : list QueueEvent :=
  [EvSend (RegisterSafe safe_address); EvTake; EvAnswer 0 (Ok (tx_of 1)); EvRegister 0;
   EvMatch (mkSignificant (tx_of 2) (NodeSafeRegistered safe_address)); EvResolve;
   EvMatch (mkSignificant (tx_of 1) (NodeSafeRegistered safe_address)); EvResolve; EvPoll 0 false].
Definition registered : QueueState := default holding (queue_run safe_events holding).

Lemma confirmed_by_own_event_witness :
  ∃ c, results registered !! 0%nat = Some (Ok c) ∧ (0%nat, cf_tx_hash c) ∈ answered safe_events ∧
    cf_action c = RegisterSafe safe_address.
Proof.
  assert (match results registered !! 0%nat with Some (Ok c) => true | _ => false end = true) as Hr by by_eval.
  destruct (results registered !! 0%nat) as [[c| |]|] eqn:Hc; [|discriminate Hr..].
  destruct (confirmed_by_own_event safe_events holder_db registered 0 c) as (Hs & Ha & _).
  - assert (match queue_run safe_events holding with Some _ => true | None => false end = true) as Hs by by_eval.
    unfold registered. fold holding. destruct (queue_run safe_events holding); [reflexivity|discriminate Hs].
  - assert ((answered safe_events).*2 = [tx_of 1]) as -> by by_eval. apply NoDup_singleton.
  - exact Hc.
  - exists c. split; [reflexivity|]. split; [exact Ha|]. assert (sent registered !! 0%nat = Some (RegisterSafe safe_address)) as He by by_eval.
    rewrite He in Hs. injection Hs as Heq. symmetry. exact Heq.
Defined.

(** ** A lost confirmation

    The only ticket of a channel is submitted; the indexer handles its
    redemption before the expectation is registered. *)
Definition lone_redeemable : RedeemableTicket :=
  match into_redeemable [3] redeeming_ticket (toy_key 2) toy_ds with
  | Ok r => r
  | _ => mkRedeemable (Tickets.ack_ticket redeeming_ticket) [] (mkVrf (CurvePoint_from_affine O1) 0 0) []
  end.

Definition answered_redemption : QueueState :=
  default holding (queue_run [EvSend (RedeemTicket lone_redeemable); EvTake; EvAnswer 0 (Ok (tx_of 1))]
    (queue_new (db_with redeeming_ticket))).

Lemma early_redemption_lost_witness :
  ∃ db event s', on_channel_event toy_handlers (HoprChannels.TicketRedeemed (get_id toy_incoming) 6) (queue_db answered_redemption) =
      (db, Ok (Some event)) ∧
    queue_run [EvDb db; EvMatch (mkSignificant (tx_of 1) event); EvResolve; EvRegister 0; EvPoll 0 true] answered_redemption = Some s' ∧
    results s' !! 0%nat = Some (Err Timeout) ∧ ∃ entries, indexed (entries, []) (queue_db s').
Proof.
  assert (r_ticket lone_redeemable = Tickets.ack_ticket redeeming_ticket) as Hr.
  { unfold lone_redeemable. destruct (into_redeemable [3] redeeming_ticket (toy_key 2) toy_ds) as [r| |] eqn:Hr; [|reflexivity..].
    exact (into_redeemable_ticket _ _ _ _ _ Hr). }
  destruct (early_redemption_lost toy_handlers ([toy_incoming; toy_outgoing_channel], [redeeming_ticket]) answered_redemption 0
    lone_redeemable (tx_of 1) (mkExpectation (tx_of 1) (confirms (RedeemTicket lone_redeemable))) toy_incoming 6 redeeming_ticket)
    as (db & event & s' & entries & Hrun & Hq & Hres & _ & _ & Hix & _).
  - exact (indexed_one _ _ redeeming_storable ltac:(by_check)).
  - left.
  - by_check.
  - by vm_compute.
  - by_eval.
  - by_eval.
  - exact Hr.
  - reflexivity.
  - reflexivity.
  - reflexivity.
  - intros h x Hx. change (expectations (tracker answered_redemption)) with (∅ : gmap Hash (IndexerExpectation * nat)) in Hx.
    rewrite lookup_empty in Hx. discriminate Hx.
  - exists db, event, s'. split; [exact Hrun|]. split; [exact Hq|]. split; [exact Hres|]. exists entries.
    assert (filter (λ b, negb (superseded toy_incoming 6 b)) [redeeming_ticket] = []) as He by by_eval.
    cbn [snd] in Hix. rewrite He in Hix. exact Hix.
Defined.
