(* ===== verification/Peers.v ===== *)
(** * Network peers

    Models the peer store ([db/api/src/peers.rs], [db/sql/src/peers.rs]) and
    the network in front of it ([transport/network/src/network.rs], with the
    configuration of [config.rs]): which peers are known, their quality and
    back-off, which of them are pinged next, and the health of the network.
    A point in time is a number of nanoseconds since the Unix epoch; readings
    of the clock are arguments. *)
From Stdlib Require Import Floats.SpecFloat.
From stdpp Require Import gmap strings sorting.
From S2P Require Import Prelude Primitives Crypto Channels ChannelGraph SharedKeys.
From S2P Require Import TicketStore NodeDb.

(** ** Floats and time of the standard library *)

(** [f64::powf] has an unspecified precision. *)
Class FloatPowf := powf : f64 → f64 → f64.

Definition f64_max (a b : f64) : f64 :=
  match a, b with
  | S754_nan, _ => b
  | _, S754_nan => a
  | _, _ => if SFltb a b then b else a
  end.

(** [x as u32]: truncated, saturating, zero for a NaN. *)
Definition f64_as_u32 (x : f64) : Z :=
  match x with
  | S754_infinity false => u_max 32
  | S754_finite false m e => Z.min (if 0 <=? e then Z.pos m * 2 ^ e else Z.pos m `div` 2 ^ (- e)) (u_max 32)
  | _ => 0
  end.

(** An [i32] back [as u64]. *)
Definition i32_as_u64 (z : Z) : Z := wrap 64 z.

(** [Duration * u32] panics on overflow, and so does [SystemTime + Duration]. *)
Definition duration_mul_u32 {E} (d : Duration) (k : Z) : outcome E Duration :=
  if as_secs (d * k) <=? u_max 64 then Ok (d * k) else Panic.
Definition time_checked_add (t : SystemTime) (d : Duration) : option SystemTime :=
  if as_secs (t + d) <? 2 ^ 63 then Some (t + d) else None.
Definition time_add {E} (t : SystemTime) (d : Duration) : outcome E SystemTime := unwrap_option (time_checked_add t d).

Definition as_millis (d : Duration) : Z := d `div` 10 ^ 6.
Definition from_millis (ms : Z) : Duration := ms * 10 ^ 6.

(** [f64] as a sample of a moving average. *)
#[export] Instance f64_sample : Sample f64 := {|
  s_zero := f64_zero; s_add := f64_add; s_sub := f64_sub;
  s_div a n := f64_div a (binary_normalize 53 1024 n 0 false)
|}.

(** [s.trim().is_empty()]: nothing but characters with the property
    White_Space, in UTF-8. *)
Fixpoint is_blank (s : string) : bool :=
  match s with
  | EmptyString => true
  | String a s1 =>
      let c := Z.of_nat (Ascii.nat_of_ascii a) in
      if (9 <=? c) && (c <=? 13) || (c =? 32) then is_blank s1
      else match s1 with
           | String b s2 =>
               let d := Z.of_nat (Ascii.nat_of_ascii b) in
               if (c =? 0xC2) && ((d =? 0x85) || (d =? 0xA0)) then is_blank s2
               else match s2 with
                    | String b' s3 =>
                        let e := Z.of_nat (Ascii.nat_of_ascii b') in
                        if (c =? 0xE1) && (d =? 0x9A) && (e =? 0x80)
                           || (c =? 0xE2) && (d =? 0x80) && ((0x80 <=? e) && (e <=? 0x8A) || (e =? 0xA8) || (e =? 0xA9) || (e =? 0xAF))
                           || (c =? 0xE2) && (d =? 0x81) && (e =? 0x9F)
                           || (c =? 0xE3) && (d =? 0x80) && (e =? 0x80)
                        then is_blank s3 else false
                    | EmptyString => false
                    end
           | EmptyString => false
           end
  end.

(** ** Code of other crates *)

(** [libp2p_identity]: the peer id of an Ed25519 key, and the key in a peer id
    that holds one. *)
Class PeerIds := {
  PeerId : Type;
  PeerId_eq_dec :: EqDecision PeerId;
  from_ed25519 : bytes → PeerId;
  decode_ed25519 : PeerId → option bytes
}.

(** Multiaddresses are compared when a list of them is made into a set. *)
Class MultiaddrSet `{!Multiaddrs} := Multiaddr_eq_dec :: EqDecision Multiaddr.

(** The [bincode] encoding of a moving average. *)
Class SmaCodec := {
  sma_encode : SingleSumSMA f64 → option bytes;
  sma_decode : bytes → option (SingleSumSMA f64)
}.

(** ** Peers ([db/api/src/peers.rs]) *)
Inductive PeerOrigin :=
| Initialization | NetworkRegistry | IncomingConnection | OutgoingConnection | StrategyExistingChannel
| StrategyConsideringChannel | StrategyNewChannel | ManualPing | Testing.

Definition PeerOrigin_repr (o : PeerOrigin) : Z :=
  match o with
  | Initialization => 0 | NetworkRegistry => 1 | IncomingConnection => 2 | OutgoingConnection => 3
  | StrategyExistingChannel => 4 | StrategyConsideringChannel => 5 | StrategyNewChannel => 6 | ManualPing => 7 | Testing => 8
  end.
Definition PeerOrigin_try_from (z : Z) : option PeerOrigin :=
  [Initialization; NetworkRegistry; IncomingConnection; OutgoingConnection; StrategyExistingChannel;
   StrategyConsideringChannel; StrategyNewChannel; ManualPing; Testing] !! Z.to_nat z.

Record Stats := mkStats {
  good_quality_public : Z;
  bad_quality_public : Z;
  good_quality_non_public : Z;
  bad_quality_non_public : Z
}.

Record PeerSelector := mkPeerSelector {
  ps_last_seen : option SystemTime * option SystemTime;
  ps_quality : option f64 * option f64
}.
Definition PeerSelector_default : PeerSelector := mkPeerSelector (None, None) (None, None).
Definition with_last_seen_gte (t : SystemTime) (s : PeerSelector) : PeerSelector :=
  mkPeerSelector (Some t, (ps_last_seen s).2) (ps_quality s).
Definition with_last_seen_lte (t : SystemTime) (s : PeerSelector) : PeerSelector :=
  mkPeerSelector ((ps_last_seen s).1, Some t) (ps_quality s).
Definition with_quality_gte (q : f64) (s : PeerSelector) : PeerSelector :=
  mkPeerSelector (ps_last_seen s) (Some q, (ps_quality s).2).
Definition with_quality_lte (q : f64) (s : PeerSelector) : PeerSelector :=
  mkPeerSelector (ps_last_seen s) ((ps_quality s).1, Some q).

Section PeerStore.
Context `{!Curve25519} `{!PeerIds} `{!Multiaddrs} `{!MultiaddrSet} `{!SmaCodec} `{!ScanOrder} `{!FloatPowf}.

(** The conversions of [crypto/types/src/types.rs]. *)
Definition key_of_peer_id (value : PeerId) : outcome GeneralError OffchainPublicKey :=
  match decode_ed25519 value with
  | Some b => OffchainPublicKey_try_from b
  | None => Err (ParseError "invalid ed25519 peer id")
  end.
Definition peer_id_of (value : OffchainPublicKey) : PeerId := from_ed25519 (opk_compressed value).

Record PeerStatus := mkPeerStatus {
  ps_id : OffchainPublicKey * PeerId;
  ps_origin : PeerOrigin;
  ps_is_public : bool;
  last_seen : SystemTime;
  last_seen_latency : Duration;
  heartbeats_sent : Z;
  heartbeats_succeeded : Z;
  ps_backoff : f64;
  ps_ignored : option SystemTime;
  peer_version : option string;
  ps_multiaddresses : list Multiaddr;
  peer_quality : f64;
  quality_avg : SingleSumSMA f64
}.

Definition PeerStatus_new {E} (id : PeerId) (origin : PeerOrigin) (backoff : f64) (quality_window : Z) :
    outcome E PeerStatus :=
  key ← unwrap (key_of_peer_id id);
  sma ← ss_new quality_window;
  Ok (mkPeerStatus (key, id) origin true 0 0 0 0 backoff None None [] f64_zero sma).

Definition update_quality (new_value : f64) (p : PeerStatus) : PeerStatus :=
  if f64_unit_contains new_value then
    mkPeerStatus (ps_id p) (ps_origin p) (ps_is_public p) (last_seen p) (last_seen_latency p) (heartbeats_sent p)
      (heartbeats_succeeded p) (ps_backoff p) (ps_ignored p) (peer_version p) (ps_multiaddresses p) new_value
      (sma_push new_value (quality_avg p))
  else p.

Definition get_average_quality (p : PeerStatus) : f64 := default f64_zero (sma_average (quality_avg p)).

Definition is_ignored (p : PeerStatus) (now : SystemTime) (max_ignore : Duration) : bool :=
  match ps_ignored p with Some t => time_saturating_sub now t <=? max_ignore | None => false end.

(** ** The table ([db/sql/src/peers.rs])

    Of a JSON value the code looks at the strings in an array. *)
Inductive JsonValue := JsonArray (items : list (option string)) | JsonOther.

Record PeerModel := mkPeerModel {
  pm_id : Z;
  pm_packet_key : bytes;
  pm_multi_addresses : JsonValue;
  pm_origin : Z;
  pm_version : option string;
  pm_last_seen : SystemTime;
  pm_last_seen_latency : Z;
  pm_ignored : option SystemTime;
  pm_public : bool;
  pm_quality : f64;
  pm_quality_sma : option bytes;
  pm_backoff : option f64;
  pm_heartbeats_sent : option Z;
  pm_heartbeats_successful : option Z
}.

Record PeersDb := mkPeersDb { network_peers : list PeerModel; next_peer_id : Z }.

Abbreviation PD := (SM PeersDb DbSqlError).

Definition json_of_multiaddrs (mas : list Multiaddr) : JsonValue := JsonArray (Some ∘ multiaddr_to_string <$> mas).

(** [WrappedPeerSelector::into_condition]. *)
Definition peer_condition (s : PeerSelector) (r : PeerModel) : bool :=
  match (ps_last_seen s).1 with Some t => t <=? pm_last_seen r | None => true end &&
  match (ps_last_seen s).2 with Some t => pm_last_seen r <=? t | None => true end &&
  match (ps_quality s).1 with Some q => SFleb q (pm_quality r) | None => true end &&
  match (ps_quality s).2 with Some q => SFleb (pm_quality r) q | None => true end.

(** [WrappedPeerStatus::try_from]. *)
Definition decode_multiaddrs (j : JsonValue) : outcome DbSqlError (list Multiaddr) :=
  match j with
  | JsonArray items =>
      mapM (λ s, ok_or (parse_multiaddr s) DecodingError) (filter (λ s, is_blank s = false) (omap (λ s, s) items))
  | _ => Err DecodingError
  end.

Definition PeerStatus_try_from (r : PeerModel) : outcome DbSqlError PeerStatus :=
  key ← map_err (λ _, DecodingError) (OffchainPublicKey_try_from (pm_packet_key r));
  origin ← ok_or (PeerOrigin_try_from (wrap 8 (pm_origin r))) DecodingError;
  multiaddresses ← decode_multiaddrs (pm_multi_addresses r);
  sma ← ok_or (pm_quality_sma r) (LogicalError "the SMA should always be present for every peer");
  quality_avg ← ok_or (sma_decode sma) DecodingError;
  Ok (mkPeerStatus (key, peer_id_of key) origin (pm_public r) (pm_last_seen r)
        (from_millis (i32_as_u64 (pm_last_seen_latency r)))
        (i32_as_u64 (default 0 (pm_heartbeats_sent r))) (i32_as_u64 (default 0 (pm_heartbeats_successful r)))
        (default f64_one (pm_backoff r)) (pm_ignored r) (pm_version r) multiaddresses (pm_quality r) quality_avg).

Definition find_peer (key : bytes) (d : PeersDb) : option PeerModel :=
  head (scan (filter (λ r, pm_packet_key r = key) (network_peers d))).

Definition key_for (peer : PeerId) : outcome DbSqlError OffchainPublicKey := map_err (λ _, DecodingError) (key_of_peer_id peer).

(** The other columns have the defaults of the migration; the key is unique. *)
Definition add_network_peer (peer : PeerId) (origin : PeerOrigin) (mas : list Multiaddr) (backoff : f64)
    (quality_window : Z) : PD unit := λ d,
  match
    key ← key_for peer;
    sma ← ss_new quality_window;
    encoded ← ok_or (sma_encode sma) DecodingError;
    if existsb (λ r, bool_decide (pm_packet_key r = opk_compressed key)) (network_peers d)
    then Err (BackendError "UNIQUE constraint failed")
    else Ok (mkPeersDb (network_peers d ++ [mkPeerModel (next_peer_id d) (opk_compressed key) (json_of_multiaddrs mas)
               (PeerOrigin_repr origin) None 0 0 None true f64_zero (Some encoded) (Some backoff) (Some 0) (Some 0)])
             (next_peer_id d + 1))
  with
  | Ok d' => (d', Ok tt)
  | Err e => (d, Err e)
  | Panic => (d, Panic)
  end.

Definition remove_network_peer (peer : PeerId) : PD unit := λ d,
  match key_for peer with
  | Ok key =>
      let rows := filter (λ r, pm_packet_key r ≠ opk_compressed key) (network_peers d) in
      if (length rows <? length (network_peers d))%nat then (mkPeersDb rows (next_peer_id d), Ok tt)
      else (d, Err (LogicalError "peer cannot be removed because it does not exist"))
  | Err e => (d, Err e)
  | Panic => (d, Panic)
  end.

Definition peer_row (id : Z) (encoded : bytes) (p : PeerStatus) : PeerModel :=
  mkPeerModel id (opk_compressed (ps_id p).1) (json_of_multiaddrs (ps_multiaddresses p)) (PeerOrigin_repr (ps_origin p))
    (peer_version p) (last_seen p) (to_i32 (as_millis (last_seen_latency p))) (ps_ignored p) (ps_is_public p)
    (peer_quality p) (Some encoded) (Some (ps_backoff p)) (Some (to_i32 (heartbeats_sent p)))
    (Some (to_i32 (heartbeats_succeeded p))).

Definition update_network_peer (new_status : PeerStatus) : PD unit := λ d,
  match find_peer (opk_compressed (ps_id new_status).1) d with
  | Some model =>
      match sma_encode (quality_avg new_status) with
      | Some encoded =>
          let row := peer_row (pm_id model) encoded new_status in
          (mkPeersDb ((λ r, if pm_id r =? pm_id model then row else r) <$> network_peers d) (next_peer_id d), Ok tt)
      | None => (d, Err (LogicalError "cannot serialize sma"))
      end
  | None => (d, Err (LogicalError "cannot update a non-existing peer"))
  end.

Definition get_network_peer (peer : PeerId) : PD (option PeerStatus) := λ d,
  (d, key ← key_for peer;
      match find_peer (opk_compressed key) d with
      | Some model => status ← PeerStatus_try_from model; Ok (Some status)
      | None => Ok None
      end).

(** Rows that do not decode are logged and passed over. *)
Definition decoded_rows (rows : list PeerModel) : list PeerStatus :=
  omap (λ r, match PeerStatus_try_from r with Ok p => Some p | _ => None end) rows.

Definition seen_order (asc : bool) (r r' : PeerModel) : Prop :=
  if asc then pm_last_seen r ≤ pm_last_seen r' else pm_last_seen r' ≤ pm_last_seen r.
#[export] Instance seen_order_dec asc r r' : Decision (seen_order asc r r').
Proof. unfold seen_order. destruct asc; apply _. Defined.

Definition get_network_peers (selector : PeerSelector) (sort_last_seen_asc : bool) : PD (list PeerStatus) := λ d,
  let rows := scan (filter (λ r, peer_condition selector r = true) (network_peers d)) in
  (d, Ok (decoded_rows (merge_sort (seen_order sort_last_seen_asc) rows))).

Definition count_peers (c : PeerModel → bool) (d : PeersDb) : Z :=
  wrap 32 (Z.of_nat (length (filter (λ r, c r = true) (network_peers d)))).

Definition network_peer_stats (quality_threshold : f64) : PD Stats := λ d,
  let good r := SFltb quality_threshold (pm_quality r) in
  let bad r := SFleb (pm_quality r) quality_threshold in
  let active r := bool_decide (pm_ignored r = None) in
  (d, Ok (mkStats (count_peers (λ r, pm_public r && active r && good r) d) (count_peers (λ r, pm_public r && active r && bad r) d)
            (count_peers (λ r, negb (pm_public r) && active r && good r) d)
            (count_peers (λ r, negb (pm_public r) && active r && bad r) d))).

(** ** The network ([transport/network/src])

    [NetworkConfig::validate] collects the violated rules. *)
Record NetworkConfig := mkNetworkConfig {
  min_delay : Duration;
  max_delay : Duration;
  quality_bad_threshold : f64;
  quality_offline_threshold : f64;
  node_score_auto_path_threshold : f64;
  max_first_hop_latency_threshold : option Duration;
  quality_step : f64;
  quality_avg_window_size : Z;
  ignore_timeframe : Duration;
  backoff_exponent : f64;
  backoff_min : f64;
  backoff_max : f64
}.

(** The defaults: 0.1, 0.0, 0.95, 0.1, 1.5, 2.0 and 300.0. *)
Definition NetworkConfig_default : NetworkConfig :=
  mkNetworkConfig (1 * 10 ^ 9) (300 * 10 ^ 9) (f64_from_bits 0x3FB999999999999A) f64_zero (f64_from_bits 0x3FEE666666666666)
    (Some (100 * 10 ^ 6)) (f64_from_bits 0x3FB999999999999A) 25 (2 * 60 * 10 ^ 9) (f64_from_bits 0x3FF8000000000000)
    (f64_from_bits 0x4000000000000000) (f64_from_bits 0x4072C00000000000).

Definition NetworkConfig_validate (cfg : NetworkConfig) : list string :=
  let rule (ok : bool) (name : string) := if ok then [] else [name] in
  rule (negb (max_delay cfg <=? min_delay cfg)) "min_delay and max_delay" ++
  rule (f64_unit_contains (quality_bad_threshold cfg)) "quality_bad_threshold" ++
  rule (f64_unit_contains (node_score_auto_path_threshold cfg)) "node_score_auto_path_threshold" ++
  rule (f64_unit_contains (quality_offline_threshold cfg)) "quality_offline_threshold" ++
  rule (negb (SFltb (quality_bad_threshold cfg) (quality_offline_threshold cfg))) "quality_bad_threshold and quality_offline_threshold" ++
  rule (f64_unit_contains (quality_step cfg)) "quality_step" ++
  rule (negb (quality_avg_window_size cfg <? 1)) "quality_avg_window_size" ++
  rule (negb (SFleb (backoff_max cfg) (backoff_min cfg))) "backoff_min and backoff_max".

Inductive Health := Unknown | Red | Orange | Yellow | Green.

Inductive NetworkTriggeredEvent := CloseConnection (peer : PeerId) | UpdateQuality (peer : PeerId) (quality : f64).

Inductive NetworkingError :=
| NetworkTimeout (secs : Z)
| MessagingError (what : string)
| NetworkDecodingError
| DisallowedOperationOnOwnPeerIdError
| NetworkDbError (e : DbSqlError)
| NonExistingPeer
| PingerError (peer : PeerId) (what : string)
| NetworkOther (what : string).

Abbreviation NM := (SM PeersDb NetworkingError).

(** [?] on the errors of the store. *)
Definition on_peers {A} (m : PD A) : NM A := λ d, let '(d, r) := m d in (d, map_err NetworkDbError r).

Definition health_from_stats (stats : Stats) (is_public : bool) : Health :=
  let health := if 0 <? bad_quality_public stats then Orange else Red in
  if 0 <? good_quality_public stats then
    if is_public || (0 <? good_quality_non_public stats) then Green else Yellow
  else health.

Record Network := mkNetwork {
  net_me : PeerId;
  me_addresses : list Multiaddr;
  am_i_public : bool;
  net_cfg : NetworkConfig
}.

Definition Network_new (my_peer_id : PeerId) (my_multiaddresses : list Multiaddr) (cfg : NetworkConfig) : Network :=
  mkNetwork my_peer_id my_multiaddresses true cfg.

Definition set_ignored (x : option SystemTime) (p : PeerStatus) : PeerStatus :=
  mkPeerStatus (ps_id p) (ps_origin p) (ps_is_public p) (last_seen p) (last_seen_latency p) (heartbeats_sent p)
    (heartbeats_succeeded p) (ps_backoff p) x (peer_version p) (ps_multiaddresses p) (peer_quality p) (quality_avg p).
Definition set_multiaddresses (x : list Multiaddr) (p : PeerStatus) : PeerStatus :=
  mkPeerStatus (ps_id p) (ps_origin p) (ps_is_public p) (last_seen p) (last_seen_latency p) (heartbeats_sent p)
    (heartbeats_succeeded p) (ps_backoff p) (ps_ignored p) (peer_version p) x (peer_quality p) (quality_avg p).
Definition set_backoff (x : f64) (p : PeerStatus) : PeerStatus :=
  mkPeerStatus (ps_id p) (ps_origin p) (ps_is_public p) (last_seen p) (last_seen_latency p) (heartbeats_sent p)
    (heartbeats_succeeded p) x (ps_ignored p) (peer_version p) (ps_multiaddresses p) (peer_quality p) (quality_avg p).
Definition heartbeat_sent (version : option string) (p : PeerStatus) : PeerStatus :=
  mkPeerStatus (ps_id p) (ps_origin p) (ps_is_public p) (last_seen p) (last_seen_latency p)
    (wrap 64 (heartbeats_sent p + 1)) (heartbeats_succeeded p) (ps_backoff p) (ps_ignored p) version
    (ps_multiaddresses p) (peer_quality p) (quality_avg p).
Definition heartbeat_answered (now : SystemTime) (latency : Duration) (p : PeerStatus) : PeerStatus :=
  mkPeerStatus (ps_id p) (ps_origin p) (ps_is_public p) now latency (heartbeats_sent p)
    (wrap 64 (heartbeats_succeeded p + 1)) (ps_backoff p) (ps_ignored p) (peer_version p) (ps_multiaddresses p)
    (peer_quality p) (quality_avg p).

Section Network.
Context (net : Network).

Definition has (peer : PeerId) : SM PeersDb Empty_set bool := λ d,
  if bool_decide (peer = net_me net) then (d, Ok true)
  else match get_network_peer peer d with
       | (d, Ok p) => (d, Ok (bool_decide (is_Some p)))
       | (d, Err _) => (d, Ok false)
       | (d, Panic) => (d, Panic)
       end.

Definition get_peer (peer : PeerId) : NM (option PeerStatus) :=
  if bool_decide (peer = net_me net) then
    ps ← lift (PeerStatus_new peer Initialization f64_zero 2);
    mret (Some (set_multiaddresses (me_addresses net) ps))
  else on_peers (get_network_peer peer).

Definition peer_is_ignored (peer : PeerId) (now : SystemTime) : SM PeersDb Empty_set bool := λ d,
  if bool_decide (peer = net_me net) then (d, Ok false)
  else match get_peer peer d with
       | (d, Ok (Some p)) => (d, Ok (is_ignored p now (ignore_timeframe (net_cfg net))))
       | (d, Panic) => (d, Panic)
       | (d, _) => (d, Ok false)
       end.

(** The set of addresses is listed in an order left open. *)
Definition add_peer (peer : PeerId) (origin : PeerOrigin) (addrs : list Multiaddr) (now : SystemTime) : NM unit :=
  if bool_decide (peer = net_me net) then throw DisallowedOperationOnOwnPeerIdError
  else
    maybe_status ← on_peers (get_network_peer peer);
    match maybe_status with
    | Some peer_status =>
        if is_ignored peer_status now (ignore_timeframe (net_cfg net)) then mret tt
        else on_peers (update_network_peer (set_multiaddresses (scan (remove_dups (ps_multiaddresses peer_status ++ addrs)))
                                              (set_ignored None peer_status)))
    | None => on_peers (add_network_peer peer origin addrs (backoff_exponent (net_cfg net)) (quality_avg_window_size (net_cfg net)))
    end.

Definition remove_peer (peer : PeerId) : NM unit :=
  if bool_decide (peer = net_me net) then throw DisallowedOperationOnOwnPeerIdError else on_peers (remove_network_peer peer).

(** The observation of one ping; [now] and [later] are the two readings of the
    clock. *)
Definition observe (ping_result : option Duration) (version : option string) (now later : SystemTime) (entry : PeerStatus) :
    PeerStatus :=
  let cfg := net_cfg net in
  let entry := if is_ignored entry now (ignore_timeframe cfg) then entry else set_ignored None entry in
  let entry := heartbeat_sent version entry in
  match ping_result with
  | Some latency =>
      let entry := set_backoff (backoff_min cfg) (heartbeat_answered later latency entry) in
      update_quality (f64_min f64_one (f64_add (peer_quality entry) (quality_step cfg))) entry
  | None =>
      let entry := set_backoff (f64_max (backoff_max cfg) (powf (ps_backoff entry) (backoff_exponent cfg))) entry in
      let entry := update_quality (f64_max f64_zero (f64_sub (peer_quality entry) (quality_step cfg))) entry in
      if SFltb (peer_quality entry) (quality_bad_threshold cfg) then set_ignored (Some later) entry else entry
  end.

Definition update_peer (peer : PeerId) (ping_result : option Duration) (version : option string) (now later : SystemTime) :
    NM (option NetworkTriggeredEvent) :=
  if bool_decide (peer = net_me net) then throw DisallowedOperationOnOwnPeerIdError
  else
    maybe_entry ← on_peers (get_network_peer peer);
    match maybe_entry with
    | Some entry =>
        let entry := observe ping_result version now later entry in
        on_peers (update_network_peer entry);;
        mret (Some (if SFleb (peer_quality entry) (quality_offline_threshold (net_cfg net))
                    then CloseConnection (ps_id entry).2 else UpdateQuality (ps_id entry).2 (peer_quality entry)))
    | None => mret None
    end.

Definition health : SM PeersDb Empty_set Health := λ d,
  match network_peer_stats (quality_bad_threshold (net_cfg net)) d with
  | (d, Ok stats) => (d, Ok (health_from_stats stats (am_i_public net)))
  | (d, Err _) => (d, Ok Unknown)
  | (d, Panic) => (d, Panic)
  end.

Definition connected_peers : NM (list PeerId) :=
  peers ← on_peers (get_network_peers PeerSelector_default false);
  mret (omap (λ p, if SFltb (quality_offline_threshold (net_cfg net)) (peer_quality p) then Some (ps_id p).2 else None) peers).

(** Whether a peer last seen by the threshold is pinged at that threshold. *)
Definition to_ping (threshold : SystemTime) (v : PeerStatus) : outcome NetworkingError bool :=
  let cfg := net_cfg net in
  if bool_decide ((ps_id v).2 = net_me net) then Ok false
  else if match ps_ignored v with
          | Some ignore_start =>
              match time_checked_add ignore_start (ignore_timeframe cfg) with
              | Some until => threshold <? until
              | None => false
              end
          | None => false
          end then Ok false
  else
    let backoff := powf (ps_backoff v) (backoff_exponent cfg) in
    delay ← duration_mul_u32 (min_delay cfg) (f64_as_u32 backoff);
    due ← time_add (last_seen v) (Z.min delay (max_delay cfg));
    Ok (due <? threshold).

Fixpoint pinged (threshold : SystemTime) (peers : list PeerStatus) : outcome NetworkingError (list PeerStatus) :=
  match peers with
  | [] => Ok []
  | v :: peers =>
      keep ← to_ping threshold v;
      rest ← pinged threshold peers;
      Ok (if keep : bool then v :: rest else rest)
  end.

(** [sort_by] with [Less] exactly for an earlier time. *)
Definition seen_before (p p' : PeerStatus) : Prop := last_seen p ≤ last_seen p'.
#[export] Instance seen_before_dec p p' : Decision (seen_before p p').
Proof. unfold seen_before. apply _. Defined.

Definition find_peers_to_ping (threshold : SystemTime) : NM (list PeerId) :=
  peers ← on_peers (get_network_peers (with_last_seen_lte threshold PeerSelector_default) false);
  data ← lift (pinged threshold peers);
  mret ((λ p, (ps_id p).2) <$> merge_sort seen_before data).
End Network.
End PeerStore.
