(* ===== verification/PeersSpec.v ===== *)
(** * The network as a map of peers

    The peer table with the network in front of it refines a finite map from
    packet keys to peers, the peers that are due are pinged in the order in
    which they were last seen, and a peer that fails once is at the largest
    back-off. *)
From Stdlib Require Import Floats.SpecFloat.
From stdpp Require Import gmap strings sorting.
From S2P Require Import Prelude Primitives Crypto Channels ChannelGraph SharedKeys.
From S2P Require Import TicketStore NodeDb Peers.

(** What the encodings of the columns promise. *)
Class PeerCodecLaws `{!Multiaddrs} `{!SmaCodec} := {
  sma_roundtrip (s : SingleSumSMA f64) : ∃ b, sma_encode s = Some b ∧ sma_decode b = Some s;
  multiaddr_roundtrip (m : Multiaddr) : parse_multiaddr (multiaddr_to_string m) = Some m
}.

Section PeersSpec.
Context `{!Curve25519} `{!PeerIds} `{!Multiaddrs} `{!MultiaddrSet} `{!SmaCodec, !PeerCodecLaws}.
Context `{!ScanOrder, !ScanOrderLaws} `{!FloatPowf}.
#[local] Set Default Proof Using "Type*".

(** ** Statuses and rows *)
Definition key_of (p : PeerStatus) : bytes := opk_compressed (ps_id p).1.
Definition valid_key (k : OffchainPublicKey) : Prop := OffchainPublicKey_try_from (opk_compressed k) = Ok k.

(** A status as the table gives it back: latency in milliseconds, counters of 31
    bits, the peer id of the key, no blank addresses. *)
Definition in_table (p : PeerStatus) : PeerStatus :=
  mkPeerStatus ((ps_id p).1, peer_id_of (ps_id p).1) (ps_origin p) (ps_is_public p) (last_seen p)
    (from_millis (i32_as_u64 (to_i32 (as_millis (last_seen_latency p)))))
    (i32_as_u64 (to_i32 (heartbeats_sent p))) (i32_as_u64 (to_i32 (heartbeats_succeeded p)))
    (ps_backoff p) (ps_ignored p) (peer_version p)
    (filter (λ m, is_blank (multiaddr_to_string m) = false) (ps_multiaddresses p)) (peer_quality p) (quality_avg p).

Lemma OffchainPublicKey_bytes b k : OffchainPublicKey_try_from b = Ok k → opk_compressed k = b ∧ valid_key k.
Proof using Type.
  intros Hk. assert (opk_compressed k = b) as Hb; [|unfold valid_key; by rewrite Hb]. unfold OffchainPublicKey_try_from in Hk.
  apply bind_Ok in Hk as (c & Hc & Hk). apply bind_Ok in Hk as (e & _ & [= <-]). unfold array_try_from in Hc.
  case_bool_decide; [by injection Hc as <-|done].
Qed.

Lemma PeerOrigin_roundtrip o : PeerOrigin_try_from (wrap 8 (PeerOrigin_repr o)) = Some o.
Proof using Type. by destruct o. Qed.

Lemma decode_addresses (mas : list Multiaddr) :
  decode_multiaddrs (json_of_multiaddrs mas) = Ok (filter (λ m, is_blank (multiaddr_to_string m) = false) mas).
Proof.
  unfold decode_multiaddrs, json_of_multiaddrs.
  assert (omap (λ s, s) (Some ∘ multiaddr_to_string <$> mas) = multiaddr_to_string <$> mas) as ->
    by (induction mas as [|m mas IH]; cbn; [done|by rewrite IH]).
  induction mas as [|m mas IH]; [done|]. cbn [fmap list_fmap]. rewrite !filter_cons.
  case_decide; [|exact IH]. cbn [mapM]. rewrite multiaddr_roundtrip. cbn. by rewrite IH.
Qed.

Lemma row_decoded id encoded p :
  sma_decode encoded = Some (quality_avg p) → valid_key (ps_id p).1 →
  PeerStatus_try_from (peer_row id encoded p) = Ok (in_table p).
Proof.
  intros Hs Hk. unfold PeerStatus_try_from, peer_row. cbn [pm_packet_key pm_origin pm_multi_addresses pm_quality_sma].
  rewrite Hk, PeerOrigin_roundtrip, decode_addresses. cbn. by rewrite Hs.
Qed.

Lemma decoded_key r p : PeerStatus_try_from r = Ok p → key_of p = pm_packet_key r ∧ valid_key (ps_id p).1.
Proof using Type.
  unfold PeerStatus_try_from. intros Hr. apply bind_Ok in Hr as (k & Hk & Hr).
  apply map_err_Ok in Hk. apply bind_Ok in Hr as (o & _ & Hr). apply bind_Ok in Hr as (mas & _ & Hr).
  apply bind_Ok in Hr as (b & _ & Hr). apply bind_Ok in Hr as (s & _ & [= <-]). by apply OffchainPublicKey_bytes.
Qed.

(** The columns that are copied. *)
Lemma decoded_fields r p : PeerStatus_try_from r = Ok p →
  ps_is_public p = pm_public r ∧ ps_ignored p = pm_ignored r ∧ peer_quality p = pm_quality r ∧ last_seen p = pm_last_seen r.
Proof using Type.
  unfold PeerStatus_try_from. intros Hr. apply bind_Ok in Hr as (k & Hk & Hr).
  apply bind_Ok in Hr as (o & _ & Hr). apply bind_Ok in Hr as (mas & _ & Hr).
  apply bind_Ok in Hr as (b & _ & Hr). by apply bind_Ok in Hr as (s & _ & [= <-]).
Qed.

(** ** The table as a map *)
Record holds_peers (m : gmap bytes PeerStatus) (d : PeersDb) : Prop := {
  hp_rows r : r ∈ network_peers d → ∃ p, PeerStatus_try_from r = Ok p ∧ m !! pm_packet_key r = Some p;
  hp_map k p : m !! k = Some p → ∃ r, r ∈ network_peers d ∧ pm_packet_key r = k;
  hp_keys : NoDup (pm_packet_key <$> network_peers d);
  hp_ids : NoDup (pm_id <$> network_peers d);
  hp_next r : r ∈ network_peers d → pm_id r < next_peer_id d
}.

Lemma unique_by {A B} (f : A → B) (l : list A) x y : NoDup (f <$> l) → x ∈ l → y ∈ l → f x = f y → x = y.
Proof using Type.
  intros Hnd [i Hi]%list_elem_of_lookup [j Hj]%list_elem_of_lookup Hf.
  assert (i = j) as <- by (eapply (NoDup_lookup (f <$> l) i j (f x)); rewrite ?list_lookup_fmap, ?Hi, ?Hj; cbn; congruence). congruence.
Qed.

Lemma filter_every {A} (P : A → Prop) `{!∀ x, Decision (P x)} (l : list A) : (∀ x, x ∈ l → P x) → filter P l = l.
Proof using Type.
  induction l as [|x l IH]; [done|]. intros Hl. rewrite filter_cons_True by (apply Hl; by left).
  f_equal. apply IH. intros y Hy. apply Hl. by right.
Qed.

Lemma find_peer_iff m d k r : holds_peers m d → find_peer k d = Some r ↔ r ∈ network_peers d ∧ pm_packet_key r = k.
Proof.
  intros Hm. unfold find_peer. set (l := filter _ _). assert (∀ x, x ∈ scan l ↔ x ∈ network_peers d ∧ pm_packet_key x = k) as Hl.
  { intros x. rewrite (scan_permutation _ l). unfold l. rewrite list_elem_of_filter. tauto. }
  destruct (scan l) as [|y l'] eqn:He; cbn.
  - split; [done|]. intros Hr%Hl. by apply elem_of_nil in Hr.
  - assert (y ∈ network_peers d ∧ pm_packet_key y = k) as [Hy Hk] by (apply Hl; left). split.
    + by intros [= <-].
    + intros [Hr Hkr]. f_equal. apply (unique_by pm_packet_key _ _ _ (hp_keys _ _ Hm)); congruence.
Qed.

Lemma find_peer_held m d k : holds_peers m d →
  match m !! k with
  | Some p => ∃ r, find_peer k d = Some r ∧ PeerStatus_try_from r = Ok p ∧ r ∈ network_peers d ∧ pm_packet_key r = k
  | None => find_peer k d = None
  end.
Proof.
  intros Hm. destruct (m !! k) as [p|] eqn:Hk.
  - destruct (hp_map _ _ Hm _ _ Hk) as (r & Hr & <-). exists r. destruct (hp_rows _ _ Hm r Hr) as (p' & Hp' & Hk').
    split; [by apply (find_peer_iff m)|]. split; [congruence|done].
  - destruct (find_peer k d) as [r|] eqn:Hf; [|done]. apply (find_peer_iff m) in Hf as [Hr <-]; [|done].
    destruct (hp_rows _ _ Hm r Hr) as (p & _ & Hp). congruence.
Qed.

(** The packet key in a peer id. *)
Definition packet_key (peer : PeerId) : option bytes :=
  match key_of_peer_id peer with Ok k => Some (opk_compressed k) | _ => None end.

Lemma key_for_run peer :
  match packet_key peer with
  | Some b => ∃ k, key_for peer = Ok k ∧ key_of_peer_id peer = Ok k ∧ opk_compressed k = b ∧ valid_key k
  | None => key_for peer = Err DecodingError
  end.
Proof using Type.
  unfold packet_key, key_for. destruct (key_of_peer_id peer) as [k| |] eqn:Hk; cbn.
  - exists k. unfold key_of_peer_id in Hk. destruct (decode_ed25519 peer) as [b|]; [|done].
    by apply OffchainPublicKey_bytes in Hk as [_ ?].
  - done.
  - exfalso. unfold key_of_peer_id in Hk. destruct (decode_ed25519 peer) as [b|]; [|done].
    unfold OffchainPublicKey_try_from, array_try_from in Hk. case_bool_decide; [|done]. cbn in Hk. by destruct (decompress b).
Qed.

Lemma get_peer_run m d peer : holds_peers m d →
  get_network_peer peer d = (d, match packet_key peer with Some k => Ok (m !! k) | None => Err DecodingError end).
Proof.
  intros Hm. unfold get_network_peer. pose proof (key_for_run peer) as Hk. destruct (packet_key peer) as [b|].
  - destruct Hk as (k & Hk & _ & <- & _). rewrite Hk. cbn. pose proof (find_peer_held m d (opk_compressed k) Hm) as Hf. destruct (m !! opk_compressed k) as [p|].
    + destruct Hf as (r & -> & Hr & _). cbn. by rewrite Hr.
    + by rewrite Hf.
  - by rewrite Hk.
Qed.

Lemma held_valid m d k p : holds_peers m d → m !! k = Some p → key_of p = k ∧ valid_key (ps_id p).1.
Proof.
  intros Hm Hk. destruct (hp_map _ _ Hm _ _ Hk) as (r & Hr & <-). destruct (hp_rows _ _ Hm r Hr) as (p' & Hp' & Hk').
  replace p with p' by congruence. by apply decoded_key.
Qed.

Lemma update_run m d p :
  holds_peers m d → valid_key (ps_id p).1 → is_Some (m !! key_of p) →
  ∃ d', update_network_peer p d = (d', Ok tt) ∧ holds_peers (<[key_of p := in_table p]> m) d'.
Proof.
  intros Hm Hv [q Hq]. pose proof (find_peer_held m d (key_of p) Hm) as Hf. rewrite Hq in Hf.
  destruct Hf as (r & Hf & _ & Hr & Hkr). destruct (sma_roundtrip (quality_avg p)) as (enc & Henc & Hdec).
  unfold update_network_peer. fold (key_of p). rewrite Hf, Henc. set (row := peer_row (pm_id r) enc p).
  assert (pm_packet_key row = key_of p) as Hrow by done.
  assert (∀ x, x ∈ network_peers d → (pm_id x =? pm_id r) = bool_decide (pm_packet_key x = key_of p)) as Hsame.
  { intros x Hx. destruct (Z.eqb_spec (pm_id x) (pm_id r)) as [He|Hne]; symmetry.
    - apply bool_decide_eq_true. rewrite <-Hkr. f_equal. by apply (unique_by pm_id _ _ _ (hp_ids _ _ Hm)).
    - apply bool_decide_eq_false. intros He. apply Hne. f_equal.
      apply (unique_by pm_packet_key _ _ _ (hp_keys _ _ Hm)); congruence. }
  set (f x := if pm_id x =? pm_id r then row else x).
  assert (∀ x, x ∈ network_peers d → pm_packet_key (f x) = pm_packet_key x ∧ pm_id (f x) = pm_id x) as Hfx.
  { intros x Hx. unfold f. rewrite Hsame by done. case_bool_decide as Hkx; [|done]. split; [congruence|].
    specialize (Hsame x Hx). rewrite bool_decide_true in Hsame by done. apply Z.eqb_eq in Hsame. by rewrite Hsame. }
  eexists. split; [done|]. split; cbn [network_peers next_peer_id]; fold f.
  - intros x (y & -> & Hy)%list_elem_of_fmap. destruct (Hfx y Hy) as [Hky _]. unfold f. rewrite Hsame by done.
    case_bool_decide as Hk.
    + exists (in_table p). rewrite Hrow, lookup_insert_eq. split; [by apply row_decoded|done].
    + rewrite lookup_insert_ne by done. by apply (hp_rows _ _ Hm).
  - intros k p' [[<- _]|[_ Hk]]%lookup_insert_Some.
    + exists (f r). split; [by apply list_elem_of_fmap_2|]. by rewrite (proj1 (Hfx r Hr)).
    + destruct (hp_map _ _ Hm _ _ Hk) as (x & Hx & <-). exists (f x). split; [by apply list_elem_of_fmap_2|]. apply (Hfx x Hx).
  - rewrite <-list_fmap_compose. erewrite Forall_fmap_ext_1; [apply (hp_keys _ _ Hm)|]. apply Forall_forall. intros x Hx. by apply Hfx.
  - rewrite <-list_fmap_compose. erewrite Forall_fmap_ext_1; [apply (hp_ids _ _ Hm)|]. apply Forall_forall. intros x Hx. by apply Hfx.
  - intros x (y & -> & Hy)%list_elem_of_fmap. rewrite (proj2 (Hfx y Hy)). by apply (hp_next _ _ Hm).
Qed.

(** A new peer. *)
Definition new_status (k : OffchainPublicKey) (origin : PeerOrigin) (mas : list Multiaddr) (backoff : f64) (window : Z) :
    PeerStatus :=
  mkPeerStatus (k, peer_id_of k) origin true 0 0 0 0 backoff None None mas f64_zero (mkSingleSum [] window s_zero).

Lemma add_run m d peer k origin mas backoff window :
  holds_peers m d → key_of_peer_id peer = Ok k → m !! opk_compressed k = None → 1 < window →
  ∃ d', add_network_peer peer origin mas backoff window d = (d', Ok tt) ∧
    holds_peers (<[opk_compressed k := in_table (new_status k origin mas backoff window)]> m) d'.
Proof.
  intros Hm Hk Hno Hw. unfold add_network_peer, key_for, ss_new. rewrite Hk, (proj2 (Z.ltb_lt _ _) Hw).
  destruct (sma_roundtrip (mkSingleSum [] window s_zero)) as (enc & Henc & Hdec). cbn [map_err mbind outcome_bind]. rewrite Henc. cbn [ok_or].
  assert (∀ r, r ∈ network_peers d → pm_packet_key r ≠ opk_compressed k) as Hfresh.
  { intros r Hr He. destruct (hp_rows _ _ Hm r Hr) as (p & _ & Hp). congruence. }
  assert (valid_key k) as Hv.
  { unfold key_of_peer_id in Hk. destruct (decode_ed25519 peer) as [b|]; [|done]. by apply OffchainPublicKey_bytes in Hk as [_ ?]. }
  destruct (existsb _ (network_peers d)) eqn:Hex.
  { apply existsb_exists in Hex as (r & Hr & He%bool_decide_eq_true). apply list_elem_of_In in Hr. by destruct (Hfresh r Hr). }
  eexists. split; [done|]. set (row := mkPeerModel _ _ _ _ _ _ _ _ _ _ _ _ _ _).
  assert (row = peer_row (next_peer_id d) enc (new_status k origin mas backoff window)) as Hrow by done.
  assert (PeerStatus_try_from row = Ok (in_table (new_status k origin mas backoff window))) as Hdecoded
    by (rewrite Hrow; by apply row_decoded).
  split; cbn [network_peers next_peer_id].
  - intros r [Hr| ->%list_elem_of_singleton]%elem_of_app.
    + rewrite lookup_insert_ne by (symmetry; by apply Hfresh). by apply (hp_rows _ _ Hm).
    + eexists. split; [exact Hdecoded|]. by rewrite lookup_insert_eq.
  - intros k' p [[<- _]|[_ Hk']]%lookup_insert_Some.
    + exists row. split; [|done]. apply elem_of_app. right. by apply list_elem_of_singleton.
    + destruct (hp_map _ _ Hm _ _ Hk') as (r & Hr & <-). exists r. split; [|done]. apply elem_of_app. by left.
  - rewrite fmap_app. apply NoDup_app. split; [apply (hp_keys _ _ Hm)|]. split; [|apply NoDup_singleton].
    intros x (r & -> & Hr)%list_elem_of_fmap Hx%list_elem_of_singleton. by destruct (Hfresh r Hr).
  - rewrite fmap_app. apply NoDup_app. split; [apply (hp_ids _ _ Hm)|]. split; [|apply NoDup_singleton].
    intros x (r & -> & Hr)%list_elem_of_fmap Hx%list_elem_of_singleton. cbn in Hx. pose proof (hp_next _ _ Hm r Hr). lia.
  - intros r [Hr| ->%list_elem_of_singleton]%elem_of_app; [pose proof (hp_next _ _ Hm r Hr); lia|cbn; lia].
Qed.

Lemma remove_run m d peer k p :
  holds_peers m d → key_of_peer_id peer = Ok k → m !! opk_compressed k = Some p →
  ∃ d', remove_network_peer peer d = (d', Ok tt) ∧ holds_peers (delete (opk_compressed k) m) d'.
Proof.
  intros Hm Hk Hp. unfold remove_network_peer, key_for. rewrite Hk. cbn [map_err].
  destruct (hp_map _ _ Hm _ _ Hp) as (r & Hr & Hkr). set (rows := filter _ _).
  assert (∀ x, x ∈ rows ↔ x ∈ network_peers d ∧ pm_packet_key x ≠ opk_compressed k) as Hrows
    by (intros x; unfold rows; rewrite list_elem_of_filter; tauto).
  assert ((length rows < length (network_peers d))%nat) as Hlen.
  { unfold rows. apply (length_filter_lt _ _ r); [done|]. by intros []. }
  rewrite (proj2 (Nat.ltb_lt _ _) Hlen). eexists. split; [done|]. split; cbn [network_peers next_peer_id].
  - intros x [Hx Hne]%Hrows. rewrite lookup_delete_ne by done. by apply (hp_rows _ _ Hm).
  - intros k' p' [Hne Hk']%lookup_delete_Some. destruct (hp_map _ _ Hm _ _ Hk') as (x & Hx & <-). exists x. split; [|done].
    apply Hrows. by split.
  - eapply sublist_NoDup; [apply (hp_keys _ _ Hm)|]. apply fmap_sublist, sublist_filter.
  - eapply sublist_NoDup; [apply (hp_ids _ _ Hm)|]. apply fmap_sublist, sublist_filter.
  - intros x [Hx _]%Hrows. by apply (hp_next _ _ Hm).
Qed.

(** ** The network

    What a client calls, and what comes back. *)
Inductive NetworkCall :=
| CallHas (peer : PeerId)
| CallGet (peer : PeerId)
| CallAdd (peer : PeerId) (origin : PeerOrigin) (addrs : list Multiaddr) (now : SystemTime)
| CallRemove (peer : PeerId)
| CallUpdate (peer : PeerId) (ping_result : option Duration) (version : option string) (now later : SystemTime)
| CallHealth.

Inductive NetworkReply :=
| ReplyHas (b : bool) | ReplyPeer (p : option PeerStatus) | ReplyDone | ReplyEvent (e : option NetworkTriggeredEvent)
| ReplyHealth (h : Health).

Definition no_error {E A} (m : SM PeersDb Empty_set A) : SM PeersDb E A := λ d,
  let '(d, o) := m d in (d, map_err (λ e : Empty_set, match e with end) o).

Definition network_call (net : Network) (c : NetworkCall) : SM PeersDb NetworkingError NetworkReply :=
  match c with
  | CallHas peer => b ← no_error (has net peer); mret (ReplyHas b)
  | CallGet peer => p ← get_peer net peer; mret (ReplyPeer p)
  | CallAdd peer origin addrs now => add_peer net peer origin addrs now;; mret ReplyDone
  | CallRemove peer => remove_peer net peer;; mret ReplyDone
  | CallUpdate peer result version now later =>
      e ← update_peer net peer result version now later; mret (ReplyEvent e)
  | CallHealth => h ← no_error (health net); mret (ReplyHealth h)
  end.

Fixpoint network_calls (net : Network) (cs : list NetworkCall) (d : PeersDb) :
    PeersDb * list (outcome NetworkingError NetworkReply) :=
  match cs with
  | [] => (d, [])
  | c :: cs =>
      let '(d, r) := network_call net c d in
      let '(d, rs) := network_calls net cs d in (d, r :: rs)
  end.

(** The same calls on a map from packet keys to peers. *)
Abbreviation PeerMap := (gmap bytes PeerStatus).

Definition count_in (c : PeerStatus → bool) (m : PeerMap) : Z :=
  wrap 32 (Z.of_nat (length (filter (λ p, c p = true) (map_to_list m).*2))).

Definition map_stats (threshold : f64) (m : PeerMap) : Stats :=
  let good p := SFltb threshold (peer_quality p) in
  let bad p := SFleb (peer_quality p) threshold in
  let active p := bool_decide (ps_ignored p = None) in
  mkStats (count_in (λ p, ps_is_public p && active p && good p) m) (count_in (λ p, ps_is_public p && active p && bad p) m)
    (count_in (λ p, negb (ps_is_public p) && active p && good p) m)
    (count_in (λ p, negb (ps_is_public p) && active p && bad p) m).

Definition event_of (net : Network) (p : PeerStatus) : NetworkTriggeredEvent :=
  if SFleb (peer_quality p) (quality_offline_threshold (net_cfg net))
  then CloseConnection (ps_id p).2 else UpdateQuality (ps_id p).2 (peer_quality p).

Definition with_key (peer : PeerId) (m : PeerMap)
    (f : bytes → PeerMap * outcome NetworkingError NetworkReply) : PeerMap * outcome NetworkingError NetworkReply :=
  match packet_key peer with Some k => f k | None => (m, Err (NetworkDbError DecodingError)) end.

Definition map_call (net : Network) (c : NetworkCall) (m : PeerMap) : PeerMap * outcome NetworkingError NetworkReply :=
  let cfg := net_cfg net in
  match c with
  | CallHas peer =>
      (m, Ok (ReplyHas (bool_decide (peer = net_me net)
                        || match packet_key peer with Some k => bool_decide (is_Some (m !! k)) | None => false end)))
  | CallGet peer =>
      if bool_decide (peer = net_me net) then
        (m, p ← PeerStatus_new peer Initialization f64_zero 2;
            Ok (ReplyPeer (Some (set_multiaddresses (me_addresses net) p))))
      else with_key peer m (λ k, (m, Ok (ReplyPeer (m !! k))))
  | CallAdd peer origin addrs now =>
      if bool_decide (peer = net_me net) then (m, Err DisallowedOperationOnOwnPeerIdError)
      else with_key peer m (λ k,
        match m !! k with
        | Some p =>
            if is_ignored p now (ignore_timeframe cfg) then (m, Ok ReplyDone)
            else (<[k := in_table (set_multiaddresses (scan (remove_dups (ps_multiaddresses p ++ addrs))) (set_ignored None p))]> m,
                  Ok ReplyDone)
        | None =>
            match key_of_peer_id peer with
            | Ok key =>
                if 1 <? quality_avg_window_size cfg then
                  (<[k := in_table (new_status key origin addrs (backoff_exponent cfg) (quality_avg_window_size cfg))]> m, Ok ReplyDone)
                else (m, Panic)
            | _ => (m, Panic)
            end
        end)
  | CallRemove peer =>
      if bool_decide (peer = net_me net) then (m, Err DisallowedOperationOnOwnPeerIdError)
      else with_key peer m (λ k,
        match m !! k with
        | Some _ => (delete k m, Ok ReplyDone)
        | None => (m, Err (NetworkDbError (LogicalError "peer cannot be removed because it does not exist")))
        end)
  | CallUpdate peer result version now later =>
      if bool_decide (peer = net_me net) then (m, Err DisallowedOperationOnOwnPeerIdError)
      else with_key peer m (λ k,
        match m !! k with
        | Some p =>
            let p := observe net result version now later p in
            (<[k := in_table p]> m, Ok (ReplyEvent (Some (event_of net p))))
        | None => (m, Ok (ReplyEvent None))
        end)
  | CallHealth => (m, Ok (ReplyHealth (health_from_stats (map_stats (quality_bad_threshold cfg) m) (am_i_public net))))
  end.

Fixpoint map_calls (net : Network) (cs : list NetworkCall) (m : PeerMap) :
    PeerMap * list (outcome NetworkingError NetworkReply) :=
  match cs with
  | [] => (m, [])
  | c :: cs =>
      let '(m, r) := map_call net c m in
      let '(m, rs) := map_calls net cs m in (m, r :: rs)
  end.

Lemma update_quality_id q p : ps_id (update_quality q p) = ps_id p.
Proof using Type. unfold update_quality. by destruct (f64_unit_contains q). Qed.

Lemma observe_id net result version now later p : ps_id (observe net result version now later p) = ps_id p.
Proof using Type.
  unfold observe. destruct (is_ignored p now _), result as [latency|]; try destruct (SFltb _ (quality_bad_threshold _));
    cbn [ps_id set_ignored]; by rewrite update_quality_id.
Qed.

(** The rows, decoded, are the values of the map. *)
Lemma rows_permuted m d : holds_peers m d →
  ∃ ps, Forall2 (λ r p, PeerStatus_try_from r = Ok p) (network_peers d) ps ∧ ps ≡ₚ (map_to_list m).*2.
Proof.
  intros Hm. assert (∃ ps, Forall2 (λ r p, PeerStatus_try_from r = Ok p) (network_peers d) ps) as [ps Hps].
  { assert (Forall (λ r, ∃ p, PeerStatus_try_from r = Ok p) (network_peers d)) as Hall.
    { apply Forall_forall. intros r Hr. destruct (hp_rows _ _ Hm r Hr) as (p & Hp & _). by exists p. }
    induction Hall as [|r rows [p Hp] _ [ps Hps]]; [by exists []|]. exists (p :: ps). by constructor. }
  assert (pm_packet_key <$> network_peers d = key_of <$> ps) as Hkeys.
  { clear -Hps. induction Hps as [|r p rows ps' Hr _ IH]; [done|]. cbn. f_equal; [by apply decoded_key in Hr as [-> _]|exact IH]. }
  assert ((λ p, (key_of p, p)) <$> ps ≡ₚ map_to_list m) as Hp.
  { apply NoDup_Permutation; [|apply NoDup_map_to_list|].
    - apply (NoDup_fmap_1 fst). rewrite <-list_fmap_compose. change (NoDup (key_of <$> ps)). rewrite <-Hkeys. apply (hp_keys _ _ Hm).
    - intros [k p]. rewrite list_elem_of_fmap, elem_of_map_to_list. split.
      + intros (p' & [= -> ->] & Hin). apply list_elem_of_lookup in Hin as [i Hi].
        destruct (Forall2_lookup_r _ _ _ _ _ Hps Hi) as (r & Hr & Hd). apply list_elem_of_lookup_2 in Hr.
        destruct (hp_rows _ _ Hm r Hr) as (p'' & Hp'' & Hk). apply decoded_key in Hd as Hd'. destruct Hd' as [-> _]. congruence.
      + intros Hk. destruct (hp_map _ _ Hm _ _ Hk) as (r & Hr & <-). apply list_elem_of_lookup in Hr as [i Hi].
        destruct (Forall2_lookup_l _ _ _ _ _ Hps Hi) as (p' & Hp' & Hd). apply list_elem_of_lookup_2 in Hi.
        destruct (hp_rows _ _ Hm r Hi) as (p'' & Hp'' & Hk'). apply decoded_key in Hd as Hd'. destruct Hd' as [Hkd _].
        exists p'. apply list_elem_of_lookup_2 in Hp'. split; [|by replace p with p' by congruence].
        replace p with p' by congruence. by rewrite Hkd. }
  exists ps. split; [done|]. rewrite <-Hp, <-list_fmap_compose. by rewrite list_fmap_id.
Qed.

Lemma count_peers_map m d (c : PeerModel → bool) (c' : PeerStatus → bool) :
  holds_peers m d → (∀ r p, PeerStatus_try_from r = Ok p → c r = c' p) → count_peers c d = count_in c' m.
Proof.
  intros Hm Hc. destruct (rows_permuted m d Hm) as (ps & Hps & Hp). unfold count_peers, count_in. do 2 f_equal.
  rewrite <-Hp. clear Hp. induction Hps as [|r p rows ps Hr _ IH]; [done|]. rewrite !filter_cons, (Hc r p Hr).
  case_decide; cbn; congruence.
Qed.

Lemma stats_map m d threshold : holds_peers m d → network_peer_stats threshold d = (d, Ok (map_stats threshold m)).
Proof.
  intros Hm. unfold network_peer_stats, map_stats.
  f_equal. f_equal. f_equal; (apply count_peers_map; [done|]);
    (intros r p Hr; destruct (decoded_fields r p Hr) as (-> & -> & -> & _); done).
Qed.

(** One call. *)
Lemma call_refines net c m d :
  holds_peers m d → ∃ d', network_call net c d = (d', (map_call net c m).2) ∧ holds_peers (map_call net c m).1 d'.
Proof.
  intros Hm. pose proof (λ peer, get_peer_run m d peer Hm) as Hget.
  destruct c as [peer|peer|peer origin addrs now|peer|peer result version now later|]; cbn [network_call map_call].
  - exists d. split; [|done]. unfold has, no_error, mbind, SM_bind. case_bool_decide; [done|]. rewrite Hget.
    by destruct (packet_key peer).
  - exists d. unfold get_peer, with_key. case_bool_decide.
    + split; [|done]. autorewrite with run. by destruct (PeerStatus_new _ _ _ _).
    + unfold mbind, SM_bind, on_peers. rewrite Hget. by destruct (packet_key peer).
  - unfold add_peer, with_key. case_bool_decide; [by exists d|]. pose proof (key_for_run peer) as Hkey.
    unfold mbind, SM_bind, on_peers. rewrite Hget. destruct (packet_key peer) as [k|]; cbn [map_err]; [|by exists d].
    destruct Hkey as (key & _ & Hkey & <- & Hv). destruct (m !! opk_compressed key) as [p|] eqn:Hp.
    + destruct (is_ignored _ _ _); [by exists d|]. destruct (held_valid _ _ _ _ Hm Hp) as [Hkp Hvp].
      edestruct (update_run m d (set_multiaddresses (scan (remove_dups (ps_multiaddresses p ++ addrs))) (set_ignored None p))) as (d' & -> & Hd');
        [done|exact Hvp| |].
      * change (is_Some (m !! key_of p)). rewrite Hkp. by eexists.
      * exists d'. split; [done|]. by rewrite <-Hkp.
    + rewrite Hkey. destruct (Z.ltb_spec 1 (quality_avg_window_size (net_cfg net))) as [Hw|Hw].
      * destruct (add_run m d peer key origin addrs (backoff_exponent (net_cfg net)) _ Hm Hkey Hp Hw) as (d' & -> & Hd'). by exists d'.
      * exists d. split; [|done]. unfold add_network_peer, key_for, ss_new. rewrite Hkey, (proj2 (Z.ltb_ge _ _) Hw). done.
  - unfold remove_peer, with_key. case_bool_decide; [by exists d|]. pose proof (key_for_run peer) as Hkey.
    unfold mbind, SM_bind, on_peers. destruct (packet_key peer) as [k|].
    + destruct Hkey as (key & Hk & Hkey & <- & _). destruct (m !! opk_compressed key) as [p|] eqn:Hp.
      * destruct (remove_run m d peer key p Hm Hkey Hp) as (d' & -> & Hd'). by exists d'.
      * exists d. split; [|done]. unfold remove_network_peer. rewrite Hk. cbn [map_err].
        rewrite filter_every; [by rewrite Nat.ltb_irrefl|]. intros r Hr He.
        destruct (hp_rows _ _ Hm r Hr) as (p & _ & Hp'). congruence.
    + exists d. split; [|done]. unfold remove_network_peer. by rewrite Hkey.
  - unfold update_peer, with_key. case_bool_decide; [by exists d|].
    unfold mbind, SM_bind, on_peers. rewrite Hget. destruct (packet_key peer) as [k|]; cbn [map_err]; [|by exists d].
    destruct (m !! k) as [p|] eqn:Hp; [|by exists d]. destruct (held_valid _ _ _ _ Hm Hp) as [Hkp Hvp].
    set (p' := observe net result version now later p). assert (ps_id p' = ps_id p) as Hid by apply observe_id.
    destruct (update_run m d p') as (d' & -> & Hd'); [done|by rewrite Hid|unfold key_of; rewrite Hid; fold (key_of p); rewrite Hkp; by eexists|].
    exists d'. split; [done|]. unfold key_of in Hd'. rewrite Hid in Hd'. fold (key_of p) in Hd'. by rewrite Hkp in Hd'.
  - exists d. split; [|done]. unfold health, no_error, mbind, SM_bind. by rewrite (stats_map m d _ Hm).
Qed.

(** C13. The network over the peer table is a finite map.  From any table that
    holds a map of peers, any sequence of calls (looking peers up, adding and
    removing them, recording pings, asking for the health of the network)
    answers like the same calls on the map, errors and panics included, and
    leaves the table holding the resulting map: one peer per packet key, with
    what the columns keep of its status. *)
Theorem network_refines (net : Network) (cs : list NetworkCall) (m : gmap bytes PeerStatus) (d : PeersDb) :
  holds_peers m d →
  ∃ d', network_calls net cs d = (d', (map_calls net cs m).2) ∧ holds_peers (map_calls net cs m).1 d'.
Proof.
  revert m d. induction cs as [|c cs IH]; intros m d Hm; [by exists d|]. cbn [network_calls map_calls].
  destruct (call_refines net c m d Hm) as (d1 & -> & Hm1). destruct (map_call net c m) as [m1 r1]. cbn [fst snd] in *.
  destruct (IH m1 d1 Hm1) as (d2 & -> & Hm2). exists d2. by destruct (map_calls net cs m1).
Qed.

(** ** Whom to ping *)
Definition due (net : Network) (threshold : SystemTime) (p : PeerStatus) : bool :=
  let cfg := net_cfg net in
  let delay := min_delay cfg * f64_as_u32 (powf (ps_backoff p) (backoff_exponent cfg)) in
  negb (bool_decide ((ps_id p).2 = net_me net))
  && match ps_ignored p with
     | Some t => match time_checked_add t (ignore_timeframe cfg) with Some until => until <=? threshold | None => true end
     | None => true
     end
  && (last_seen p + Z.min delay (max_delay cfg) <? threshold).

(** Times and delays that cannot overflow: the smallest delay below 2^31
    seconds, the others below 2^62 seconds. *)
Definition delays_ok (net : Network) (threshold : SystemTime) : Prop :=
  0 ≤ min_delay (net_cfg net) < 2 ^ 31 * 10 ^ 9 ∧ 0 ≤ max_delay (net_cfg net) < 2 ^ 62 * 10 ^ 9 ∧ threshold < 2 ^ 62 * 10 ^ 9.

Lemma f64_as_u32_bound x : 0 ≤ f64_as_u32 x ≤ u_max 32.
Proof using Type.
  unfold f64_as_u32, u_max. destruct x as [|[]| |[] mm e]; try lia. split; [|lia]. apply Z.min_glb; [|lia].
  destruct (Z.leb_spec 0 e); [apply Z.mul_nonneg_nonneg; [lia|apply Z.pow_nonneg; lia]|].
  apply Z.div_pos; [lia|]. apply Z.pow_pos_nonneg; lia.
Qed.

Lemma to_ping_due net threshold p :
  delays_ok net threshold → last_seen p ≤ threshold → to_ping net threshold p = Ok (due net threshold p).
Proof using Type.
  intros (Hmin & Hmax & Ht) Hp. unfold to_ping, due. case_bool_decide; [done|]. cbn [negb andb].
  set (ignored := match ps_ignored p with Some t => _ | None => false end).
  assert (match ps_ignored p with
          | Some t => match time_checked_add t (ignore_timeframe (net_cfg net)) with Some until => until <=? threshold | None => true end
          | None => true
          end = negb ignored) as ->.
  { unfold ignored. destruct (ps_ignored p) as [t|]; [|done]. destruct (time_checked_add _ _); [|done]. by rewrite Z.leb_antisym. }
  destruct ignored; [done|]. cbn [negb andb].
  set (k := f64_as_u32 _). assert (0 ≤ k ≤ u_max 32) as Hk by apply f64_as_u32_bound. unfold u_max in Hk.
  unfold duration_mul_u32, time_add, time_checked_add, as_secs.
  assert (((min_delay (net_cfg net) * k) `div` (10 ^ 9) <=? u_max 64) = true) as ->.
  { apply Z.leb_le. unfold u_max. apply Z.lt_succ_r, Z.div_lt_upper_bound; [lia|]. nia. }
  cbn [mbind outcome_bind]. assert (((last_seen p + Z.min (min_delay (net_cfg net) * k) (max_delay (net_cfg net))) `div` (10 ^ 9) <? 2 ^ 63) = true) as ->.
  { apply Z.ltb_lt, Z.div_lt_upper_bound; lia. }
  done.
Qed.

Lemma pinged_filter net threshold ps :
  delays_ok net threshold → (∀ p, p ∈ ps → last_seen p ≤ threshold) →
  pinged net threshold ps = Ok (filter (λ p, due net threshold p = true) ps).
Proof using Type.
  intros Hd. induction ps as [|p ps IH]; [done|]. intros Hps. cbn [pinged]. rewrite to_ping_due by (try done; apply Hps; by left).
  cbn [mbind outcome_bind]. rewrite IH by (intros q Hq; apply Hps; by right). rewrite filter_cons. cbn [mbind outcome_bind].
  by destruct (due net threshold p).
Qed.

Lemma decoded_filter (c : PeerModel → bool) (c' : PeerStatus → bool) rows ps :
  Forall2 (λ r p, PeerStatus_try_from r = Ok p) rows ps → (∀ r p, PeerStatus_try_from r = Ok p → c r = c' p) →
  decoded_rows (filter (λ r, c r = true) rows) = filter (λ p, c' p = true) ps.
Proof using Type.
  intros Hps Hc. induction Hps as [|r p rows ps Hr _ IH]; [done|]. rewrite !filter_cons, (Hc r p Hr). case_decide; [|done].
  cbn. rewrite Hr. by f_equal.
Qed.

#[local] Instance seen_before_order : Transitive seen_before.
Proof using Type. unfold seen_before. intros p q r. lia. Qed.
#[local] Instance seen_before_total : Total seen_before.
Proof using Type. unfold seen_before. intros p q. lia. Qed.

(** C14. The heartbeat pings the peers that are due, those longest unseen first.
    Over a table that holds a map of peers, and with delays that cannot
    overflow, [find_peers_to_ping] never fails and lists the peer ids of a
    permutation of the peers that were last seen by the threshold, are not this
    node, are not ignored at the threshold, and whose delay (the back-off raised
    to its exponent times the smallest delay, at most the largest delay) has
    passed since; the list ascends in the time they were last seen. *)
Theorem pings_due_peers (net : Network) (m : gmap bytes PeerStatus) (d : PeersDb) (threshold : SystemTime) :
  holds_peers m d → delays_ok net threshold →
  ∃ ps, find_peers_to_ping net threshold d = (d, Ok ((λ p, (ps_id p).2) <$> ps)) ∧ StronglySorted seen_before ps ∧
    ps ≡ₚ filter (λ p, (last_seen p <=? threshold) && due net threshold p = true) (map_to_list m).*2.
Proof.
  intros Hm Hd. destruct (rows_permuted m d Hm) as (all & Hall & Hp).
  set (sel := with_last_seen_lte threshold PeerSelector_default).
  set (seen := decoded_rows (merge_sort (seen_order false) (scan (filter (λ r, peer_condition sel r = true) (network_peers d))))).
  assert (seen ≡ₚ filter (λ p, (last_seen p <=? threshold) = true) all) as Hseen.
  { unfold seen. rewrite <-(decoded_filter (peer_condition sel) (λ p, last_seen p <=? threshold) _ _ Hall).
    - unfold decoded_rows. by rewrite merge_sort_Permutation, (scan_permutation _ _).
    - intros r p Hr. destruct (decoded_fields r p Hr) as (_ & _ & _ & ->). unfold peer_condition. cbn. by rewrite !andb_true_r. }
  assert (on_peers (get_network_peers sel false) d = (d, Ok seen)) as Hrun by done.
  unfold find_peers_to_ping. fold sel. rewrite (run_Ok _ _ _ _ _ Hrun), pinged_filter; [rewrite run_lift|done|].
  - eexists. split; [done|]. split; [by apply StronglySorted_merge_sort; apply _|].
    rewrite merge_sort_Permutation, Hseen, <-Hp. clear. induction all as [|p all IH]; [done|].
    rewrite !filter_cons. destruct (last_seen p <=? threshold); cbn [andb]; [|exact IH].
    rewrite !decide_True by done. rewrite filter_cons. by case_decide; rewrite ?IH.
  - intros p Hin. rewrite Hseen in Hin. apply list_elem_of_filter in Hin as [Hle _]. by apply Z.leb_le.
Qed.

(** ** The back-off *)
Lemma SFleb_refl a : a ≠ S754_nan → SFleb a a = true.
Proof using Type.
  unfold SFleb. destruct a as [[]|[]| |[] mm e]; try done; intros _; cbn; rewrite Z.compare_refl;
    by rewrite ?Pos.compare_cont_refl.
Qed.

Lemma f64_max_ge a b : a ≠ S754_nan → SFleb a (f64_max a b) = true.
Proof using Type.
  intros Ha. unfold f64_max. destruct a as [sa|sa| |sa ma ea] eqn:Hea; [| |done|].
  all: destruct b as [sb|sb| |sb mb eb] eqn:Heb; try (by apply SFleb_refl).
  all: lazymatch goal with |- SFleb ?x (if SFltb ?x ?y then _ else _) = _ =>
         destruct (SFltb x y) eqn:Hlt; [|by apply SFleb_refl];
         unfold SFltb, SFleb in *; destruct (SFcompare x y) as [[]|]; done
       end.
Qed.

(** One failed ping puts the back-off of a peer at least at [backoff_max],
    which is thereby a lower bound and not an upper one. *)
Lemma failed_ping_backoff net version now later p :
  backoff_max (net_cfg net) ≠ S754_nan →
  SFleb (backoff_max (net_cfg net)) (ps_backoff (observe net None version now later p)) = true.
Proof using Type.
  intros Hmax. unfold observe. set (q := if is_ignored _ _ _ then _ else _). set (q1 := heartbeat_sent _ q).
  assert (∀ x y, ps_backoff (update_quality x y) = ps_backoff y) as Hq
    by (intros x y; unfold update_quality; by destruct (f64_unit_contains x)).
  destruct (SFltb _ (quality_bad_threshold _)); cbn [ps_backoff set_ignored]; rewrite Hq; by apply f64_max_ge.
Qed.

(** A window of one sample passes the validation, but a peer cannot be added
    with it. *)
Lemma window_of_one_panics net d peer k origin addrs now :
  quality_avg_window_size (net_cfg net) = 1 → key_of_peer_id peer = Ok k → peer ≠ net_me net →
  find_peer (opk_compressed k) d = None → add_peer net peer origin addrs now d = (d, Panic).
Proof using Type.
  intros Hw Hk Hme Hf. unfold add_peer. rewrite bool_decide_false by done.
  unfold mbind, SM_bind, on_peers, get_network_peer, key_for. rewrite Hk. cbn [map_err mbind outcome_bind]. rewrite Hf. cbn [map_err].
  unfold add_network_peer, key_for, ss_new. by rewrite Hk, Hw.
Qed.

(** The network calls itself public, so that its health is never [Yellow], and
    [Green] takes one active public peer of good quality. *)
Lemma health_of_new me addrs cfg m :
  let h := health_from_stats (map_stats (quality_bad_threshold cfg) m) (am_i_public (Network_new me addrs cfg)) in
  h ≠ Yellow ∧ (h = Green ↔ 0 < good_quality_public (map_stats (quality_bad_threshold cfg) m)).
Proof using Type.
  cbv zeta. set (stats := map_stats _ m). unfold health_from_stats. cbn [am_i_public Network_new orb].
  destruct (Z.ltb_spec 0 (good_quality_public stats)); [done|].
  split; [by destruct (0 <? _)|]. split; [by destruct (0 <? _)|intros ?; lia].
Qed.
End PeersSpec.
