(* ===== verification/PeerRuns.v ===== *)
(** * A concrete network of peers *)
From Stdlib Require Import Floats.SpecFloat Sorting.Sorted.
From stdpp Require Import gmap strings countable.
From S2P Require Import Prelude Primitives Crypto Channels ChannelGraph SharedKeys PacketSpec.
From S2P Require Import TicketStore TicketStoreRuns NodeDb NodeRuns Peers PeersSpec.

#[local] Existing Instances toy_curve plain_addresses table_order table_order_laws.

#[local] Instance plain_peer_ids : PeerIds := {| PeerId := bytes; from_ed25519 := λ b, b; decode_ed25519 := Some |}.
#[local] Instance string_set : MultiaddrSet := String.eq_dec.
#[local] Instance squaring : FloatPowf := λ x _, SFmul 53 1024 x x.

(** Averages are encoded through their number. *)
Definition float_parts (x : f64) : bool + bool + unit + (bool * positive * Z) :=
  match x with
  | S754_zero s => inl (inl (inl s))
  | S754_infinity s => inl (inl (inr s))
  | S754_nan => inl (inr ())
  | S754_finite s m e => inr (s, m, e)
  end.
Definition float_of_parts (p : bool + bool + unit + (bool * positive * Z)) : f64 :=
  match p with
  | inl (inl (inl s)) => S754_zero s
  | inl (inl (inr s)) => S754_infinity s
  | inl (inr _) => S754_nan
  | inr (s, m, e) => S754_finite s m e
  end.

#[local] Instance float_eq_dec : EqDecision f64.
Proof. unfold f64. solve_decision. Defined.
#[local] Instance float_countable : Countable f64.
Proof. apply (inj_countable' float_parts float_of_parts). by intros []. Defined.

#[local] Instance sma_eq_dec : EqDecision (SingleSumSMA f64).
Proof. solve_decision. Defined.
#[local] Instance sma_countable : Countable (SingleSumSMA f64).
Proof.
  apply (inj_countable' (λ s, (ss_window s, ss_window_size s, ss_sum s)) (λ '(w, n, s), mkSingleSum w n s)). by intros [].
Defined.

#[local] Instance numbered_averages : SmaCodec := {|
  sma_encode := λ s, Some [Z.pos (encode s)];
  sma_decode := λ b, match b with [Z.pos p] => decode p | _ => None end
|}.

#[local] Instance numbered_laws : PeerCodecLaws.
Proof.
  split; [|done]. intros s. exists [Z.pos (encode s)]. split; [done|]. cbn [sma_decode numbered_averages]. by rewrite decode_encode.
Qed.

(** ** A peer that fails once and recovers *)
Definition seconds (n : Z) : SystemTime := n * 10 ^ 9.
Definition home : Network := Network_new (opk_compressed (ok_public (toy_node 1))) [] NetworkConfig_default.
Definition friend : PeerId := opk_compressed (ok_public (toy_node 9)).
Definition stranger : PeerId := opk_compressed (ok_public (toy_node 17)).
Definition empty_peers : PeersDb := mkPeersDb [] 1.

Lemma empty_peers_held : holds_peers ∅ empty_peers.
Proof.
  split; cbn [network_peers empty_peers].
  - intros r Hr. by apply elem_of_nil in Hr.
  - intros k p Hk. by rewrite lookup_empty in Hk.
  - apply NoDup_nil_2.
  - apply NoDup_nil_2.
  - intros r Hr. by apply elem_of_nil in Hr.
Qed.

Definition first_calls : list NetworkCall :=
  [CallAdd friend IncomingConnection ["/ip4/1.2.3.4"; ""] (seconds 10); CallAdd stranger NetworkRegistry [] (seconds 11);
   CallUpdate friend None None (seconds 20) (seconds 20); CallHealth;
   CallUpdate friend (Some (7 * 10 ^ 6)) (Some "2.0.0") (seconds 200) (seconds 201);
   CallUpdate friend (Some (7 * 10 ^ 6)) (Some "2.0.0") (seconds 300) (seconds 301); CallHealth; CallRemove stranger;
   CallRemove stranger; CallHas stranger; CallHas friend].

Lemma network_refines_witness :
  ∃ d', network_calls home first_calls empty_peers = (d', (map_calls home first_calls ∅).2) ∧
    holds_peers (map_calls home first_calls ∅).1 d' ∧
    (map_calls home first_calls ∅).2 !! 2%nat = Some (Ok (ReplyEvent (Some (CloseConnection friend)))) ∧
    (map_calls home first_calls ∅).2 !! 3%nat = Some (Ok (ReplyHealth Orange)) ∧
    (map_calls home first_calls ∅).2 !! 6%nat = Some (Ok (ReplyHealth Green)).
Proof.
  destruct (network_refines home first_calls ∅ empty_peers) as (d' & Hrun & Hm); [exact empty_peers_held|].
  exists d'. split; [exact Hrun|]. split; [exact Hm|]. split; [by_eval|]. split; by_eval.
Defined.

(** ** Whom to ping *)
Definition two_peers : list NetworkCall :=
  [CallAdd friend IncomingConnection ["/ip4/1.2.3.4"] (seconds 10); CallAdd stranger NetworkRegistry [] (seconds 11);
   CallUpdate friend (Some (7 * 10 ^ 6)) None (seconds 300) (seconds 301)].

Lemma calls_held net cs m d : holds_peers m d → ∃ d', holds_peers (map_calls net cs m).1 d'.
Proof.
  revert m d. induction cs as [|c cs IH]; intros m d Hm; [by exists d|]. cbn [map_calls].
  destruct (call_refines net c m d Hm) as (d1 & _ & Hm1). destruct (map_call net c m) as [m1 r1].
  destruct (IH m1 d1 Hm1) as [d2 Hm2]. exists d2. by destruct (map_calls net cs m1).
Qed.

(** At second 400 both are due, at second 302 only the one never seen. *)
Lemma pings_due_peers_witness :
  ∃ d', holds_peers (map_calls home two_peers ∅).1 d' ∧
    (∃ ps, find_peers_to_ping home (seconds 400) d' = (d', Ok ((λ p, (ps_id p).2) <$> ps)) ∧
      StronglySorted seen_before ps ∧ length ps = 2%nat) ∧
    ∃ ps, find_peers_to_ping home (seconds 302) d' = (d', Ok ((λ p, (ps_id p).2) <$> ps)) ∧
      (λ p, (ps_id p).2) <$> ps = [stranger].
Proof.
  destruct (calls_held home two_peers ∅ empty_peers empty_peers_held) as [d' Hm]. exists d'. split; [exact Hm|]. split.
  - destruct (pings_due_peers home _ d' (seconds 400) Hm) as (ps & Hrun & Hs & Hp).
    + split; [by_check|]. split; by_check.
    + exists ps. split; [exact Hrun|]. split; [exact Hs|]. rewrite Hp. by_eval.
  - destruct (pings_due_peers home _ d' (seconds 302) Hm) as (ps & Hrun & _ & Hp).
    + split; [by_check|]. split; by_check.
    + exists ps. split; [exact Hrun|]. apply (fmap_Permutation (λ p, (ps_id p).2)) in Hp.
      apply Permutation_singleton_r. etransitivity; [exact Hp|].
      assert ((λ p, (ps_id p).2) <$> filter (λ p, (last_seen p <=? seconds 302) && due home (seconds 302) p = true)
        (map_to_list (map_calls home two_peers ∅).1).*2 = [stranger]) as -> by by_eval. reflexivity.
Defined.
