(* ===== verification/Mixer.v ===== *)
(** * The mixer

    Models [transport/mixer/src]: the channel that delays each packet by a
    random time and releases the packets in the order of their release times
    ([channel.rs], [data.rs], [config.rs]), with [random_integer] of
    [crypto/random/src/lib.rs].  A call holds the lock of the channel, so that
    it is one step; a panic inside it poisons the lock.  Readings of the clock,
    random draws and the lateness of the timer are arguments. *)
From stdpp Require Import list.
From S2P Require Import Prelude Primitives Channels Peers.

Definition Instant : Type := Z.

(** ** Delays ([config.rs]) *)
Record MixerConfig := mkMixerConfig {
  mx_min_delay : Duration;
  delay_range : Duration;
  capacity : Z;
  metric_delay_window : Z
}.

Definition MixerConfig_default : MixerConfig := mkMixerConfig (from_millis 0) (from_millis 200) 20000 100.

Definition MAX_RANDOM_INTEGER : Z := 9007199254740991.

(** [draw] is the random number below the bound; out-of-order bounds panic. *)
Definition random_integer {E} (start : Z) (end_ : option Z) (draw : Z) : outcome E Z :=
  let real_end := default MAX_RANDOM_INTEGER end_ in
  if (start <? real_end) && (real_end <=? MAX_RANDOM_INTEGER) then Ok (start + draw `mod` (real_end - start)) else Panic.

(** The largest [Duration]: 2^64 - 1 seconds and a nanosecond less than one. *)
Definition Duration_MAX : Duration := 2 ^ 64 * 10 ^ 9 - 1.

Definition random_delay {E} (cfg : MixerConfig) (draw : Z) : outcome E Duration :=
  let max_delay := Z.min (mx_min_delay cfg + delay_range cfg) Duration_MAX in
  random_delay ← (if as_millis max_delay =? 0 then Ok (wrap 64 (as_millis max_delay))
                  else random_integer (wrap 64 (as_millis (mx_min_delay cfg))) (Some (wrap 64 (as_millis max_delay))) draw);
  Ok (from_millis random_delay).

(** ** Delayed items ([data.rs]) *)
Record DelayedData (T : Type) := mkDelayed { release_at : Instant; item : T }.
Arguments mkDelayed {T} _ _.
Arguments release_at {T} _.
Arguments item {T} _.

Definition DelayedData_cmp {T} (a b : DelayedData T) : comparison := release_at a ?= release_at b.

(** The binary heap of the standard library over [Reverse]: the content is a
    list whose order is that of the heap. *)
Class MinHeap := pop_min : ∀ {T : Type}, list (DelayedData T) → option (DelayedData T * list (DelayedData T)).

Class MinHeapLaws `{!MinHeap} := {
  pop_min_nil {T} (q : list (DelayedData T)) : pop_min q = None → q = [];
  pop_min_least {T} (q : list (DelayedData T)) x q' : pop_min q = Some (x, q') →
    q ≡ₚ x :: q' ∧ ∀ y, y ∈ q' → DelayedData_cmp x y ≠ Gt
}.

Inductive SenderError := SenderClosed | SenderLock.

Inductive Poll (A : Type) := Ready (a : A) | Pending.
Arguments Ready {A} a.
Arguments Pending {A}.

Section Mixer.
Context `{!MinHeap} {T : Type}.

Definition peek (q : list (DelayedData T)) : option (DelayedData T) := fst <$> pop_min q.

(** ** The channel ([channel.rs])

    [waker]: a receiver waits to be woken; [woken]: it has been since. *)
Record Channel := mkChannel {
  mx_cfg : MixerConfig;
  buffer : list (DelayedData T);
  timer : Instant;
  waker : bool;
  woken : bool;
  sender_count : nat;
  receiver_active : bool;
  poisoned : bool
}.

(** [channel()]. *)
Definition channel (cfg : MixerConfig) : Channel := mkChannel cfg [] 0 false false 1 true false.

(** [Sender::clone] and [Sender::drop]. *)
Definition sender_clone (c : Channel) : Channel :=
  mkChannel (mx_cfg c) (buffer c) (timer c) (waker c) (woken c) (S (sender_count c)) (receiver_active c) (poisoned c).

(** The last sender takes the waker away when the receiver is done, and then
    also clears the poison. *)
Definition sender_drop (c : Channel) : Channel :=
  let last := bool_decide (sender_count c = 1%nat) && negb (receiver_active c) in
  mkChannel (mx_cfg c) (buffer c) (timer c) (waker c && negb last) (woken c) (pred (sender_count c)) (receiver_active c)
    (poisoned c && negb last).

(** [Sink::start_send], which [Sender::send] calls on a clone. *)
Definition start_send (x : T) (now : Instant) (draw : Z) (c : Channel) : Channel * outcome SenderError unit :=
  if receiver_active c then
    if poisoned c then (c, Err SenderLock)
    else match random_delay (mx_cfg c) draw with
         | Ok delay =>
             (mkChannel (mx_cfg c) (mkDelayed (now + delay) x :: buffer c) (timer c) (waker c) (woken c || waker c)
                (sender_count c) (receiver_active c) (poisoned c), Ok tt)
         | Err e => (c, Err e)
         | Panic => (mkChannel (mx_cfg c) (buffer c) (timer c) (waker c) (woken c) (sender_count c) (receiver_active c) true, Panic)
         end
  else (c, Err SenderClosed).

Definition send (x : T) (now : Instant) (draw : Z) (c : Channel) : Channel * outcome SenderError unit :=
  let '(c, r) := start_send x now draw (sender_clone c) in (sender_drop c, r).

Definition take_item (q : list (DelayedData T)) (c : Channel) : Channel :=
  mkChannel (mx_cfg c) q (timer c) (waker c) (woken c) (sender_count c) (receiver_active c) (poisoned c).

(** A [futures_timer::Delay] is ready only at or after the instant that it was
    reset to; it may notice late. *)
Definition timer_ready (deadline clock : Instant) (late : bool) : bool := (deadline <=? clock) && negb late.

(** The readings of the clock in one call of [poll_next]: at its start, when
    the timer is reset, and when the timer is polled. *)
Record PollClock := mkPollClock { at_start : Instant; at_reset : Instant; at_timer : Instant; timer_late : bool }.

Definition clock_runs (p : PollClock) : bool := (at_start p <=? at_reset p) && (at_reset p <=? at_timer p).

(** [Stream::poll_next]: the timer is set to the earliest release and polled. *)
Definition poll_next (p : PollClock) (c : Channel) : Channel * Poll (option T) :=
  let now := at_start p in
  if (0 <? sender_count c)%nat then
    if poisoned c then (c, Ready None)
    else match pop_min (buffer c) with
         | Some (x, q) =>
             if release_at x <? now then (take_item q c, Ready (Some (item x)))
             else
               let remaining := time_saturating_sub (release_at x) now in
               let c := mkChannel (mx_cfg c) (buffer c) (at_reset p + remaining) true false
                          (sender_count c) (receiver_active c) (poisoned c) in
               if timer_ready (timer c) (at_timer p) (timer_late p)
               then (take_item q c, Ready (Some (item x))) else (c, Pending)
         | None => (mkChannel (mx_cfg c) (buffer c) (timer c) true false (sender_count c) (receiver_active c) (poisoned c), Pending)
         end
  else (mkChannel (mx_cfg c) (buffer c) (timer c) (waker c) (woken c) (sender_count c) false (poisoned c), Ready None).

(** ** Histories *)
Inductive MixerEvent :=
| EvSendItem (x : T) (now : Instant) (draw : Z)
| EvCloneSender
| EvDropSender
| EvPollNext (p : PollClock).

(** What a call shows: a delayed item that went in; one that came out, with the
    last reading of the clock before and the value that the receiver was given;
    the end; or nothing. *)
Inductive MixerObservation :=
| Entered (x : DelayedData T) | Left (clock : Instant) (x : DelayedData T) (given : T) | Ended | Nothing.

(** Senders are cloned and dropped by whoever has one. *)
Definition mixer_step (ev : MixerEvent) (c : Channel) : option (Channel * MixerObservation) :=
  match ev with
  | EvSendItem x now draw =>
      if (0 <? sender_count c)%nat then
        let '(c', r) := send x now draw c in
        Some (c', match r, buffer c' with Ok _, y :: _ => Entered y | _, _ => Nothing end)
      else None
  | EvCloneSender => if (0 <? sender_count c)%nat then Some (sender_clone c, Nothing) else None
  | EvDropSender => if (0 <? sender_count c)%nat then Some (sender_drop c, Nothing) else None
  | EvPollNext p =>
      if clock_runs p then
        let '(c', r) := poll_next p c in
        Some (c', match r, pop_min (buffer c) with
                  | Ready (Some given), Some (x, _) =>
                      Left (if release_at x <? at_start p then at_start p else at_timer p) x given
                  | Ready None, _ => Ended
                  | _, _ => Nothing
                  end)
      else None
  end.

Fixpoint mixer_run (evs : list MixerEvent) (c : Channel) : option (Channel * list MixerObservation) :=
  match evs with
  | [] => Some (c, [])
  | ev :: evs =>
      '(c, o) ← mixer_step ev c;
      '(c, os) ← mixer_run evs c;
      Some (c, o :: os)
  end.
End Mixer.
Arguments Channel : clear implicits.
Arguments MixerEvent : clear implicits.
Arguments MixerObservation : clear implicits.
