(* ===== verification/MixerSpec.v ===== *)
(** * What the mixer promises

    Every packet that entered has left or is in the buffer, packets leave in
    the order of their release times and not before them, and a receiver that
    keeps polling while a sender lives gets all of them; the packets in the
    buffer when the last sender goes are lost. *)
From Stdlib Require Import Sorting.Sorted.
From stdpp Require Import list sorting strings.
From S2P Require Import Prelude Primitives Channels Peers Mixer.

Section MixerSpec.
Context `{!MinHeap, !MinHeapLaws} {T : Type}.
#[local] Set Default Proof Using "Type*".

Definition entered (os : list (MixerObservation T)) : list (DelayedData T) :=
  omap (λ o, match o with Entered x => Some x | _ => None end) os.
Definition left_items (os : list (MixerObservation T)) : list (DelayedData T) :=
  omap (λ o, match o with Left _ x _ => Some x | _ => None end) os.
Definition no_later (x y : DelayedData T) : Prop := release_at x ≤ release_at y.

Lemma pop_min_some (q : list (DelayedData T)) : q ≠ [] → ∃ x q', pop_min q = Some (x, q').
Proof. intros Hq. destruct (pop_min q) as [[x q']|] eqn:Hp; [by do 2 eexists|]. by apply pop_min_nil in Hp. Qed.

Lemma pop_min_spec (q : list (DelayedData T)) x q' :
  pop_min q = Some (x, q') → q ≡ₚ x :: q' ∧ ∀ y, y ∈ q' → no_later x y.
Proof.
  intros Hp. destruct (pop_min_least q x q' Hp) as [Hperm Hle]. split; [done|]. intros y Hy. specialize (Hle y Hy).
  unfold DelayedData_cmp in Hle. unfold no_later. by apply Z.compare_le_iff.
Qed.

(** One step on the buffer. *)
Lemma step_buffer ev (c c' : Channel T) o :
  mixer_step ev c = Some (c', o) →
  match o with
  | Entered x => buffer c' = x :: buffer c
  | Left clock x given => buffer c ≡ₚ x :: buffer c' ∧ (release_at x ≤ clock ∧ given = item x) ∧ ∀ y, y ∈ buffer c' → no_later x y
  | _ => buffer c' = buffer c
  end.
Proof.
  intros Hs. destruct ev as [x now draw| | |p]; cbn [mixer_step] in Hs.
  - destruct (0 <? _)%nat; [|done]. unfold send, start_send in Hs. cbn in Hs.
    destruct (receiver_active c); [|by injection Hs as <- <-]. destruct (poisoned c); [by injection Hs as <- <-|].
    destruct (random_delay _ draw) as [delay| |]; cbn in Hs; by injection Hs as <- <-.
  - destruct (0 <? _)%nat; [|done]. by injection Hs as <- <-.
  - destruct (0 <? _)%nat; [|done]. by injection Hs as <- <-.
  - destruct (clock_runs p) eqn:Hp; [|done]. apply andb_prop in Hp as [Hp1%Z.leb_le Hp2%Z.leb_le].
    unfold poll_next in Hs. destruct (0 <? _)%nat; [|by injection Hs as <- <-].
    destruct (poisoned c); [by injection Hs as <- <-|]. destruct (pop_min (buffer c)) as [[x q]|] eqn:Hq; [|by injection Hs as <- <-].
    apply pop_min_spec in Hq as [Hperm Hle]. destruct (Z.ltb_spec (release_at x) (at_start p)).
    + injection Hs as <- <-. cbn. split_and!; [done|lia|done..].
    + cbn [timer] in Hs. destruct (timer_ready _ _ _) eqn:Hr; injection Hs as <- <-; cbn; [|done].
      apply andb_prop in Hr as [Hr%Z.leb_le _]. unfold time_saturating_sub in Hr.
      rewrite (proj2 (Z.leb_le _ _)) in Hr by done. split_and!; [done|lia|done..].
Qed.

Lemma run_app evs1 evs2 (c c' : Channel T) os :
  mixer_run (evs1 ++ evs2) c = Some (c', os) →
  ∃ c1 os1 os2, mixer_run evs1 c = Some (c1, os1) ∧ mixer_run evs2 c1 = Some (c', os2) ∧ os = os1 ++ os2.
Proof using Type.
  revert c os. induction evs1 as [|ev evs1 IH]; intros c os Hrun; [by exists c, [], os|]. cbn in Hrun.
  apply bind_Some in Hrun as ([c1 o] & Hs & Hrun). apply bind_Some in Hrun as ([c2 os'] & Hrun & [= <- <-]).
  destruct (IH _ _ Hrun) as (c3 & os1 & os2 & H1 & H2 & ->). exists c3, (o :: os1), os2. cbn. rewrite Hs. cbn. by rewrite H1.
Qed.

Lemma run_length evs (c c' : Channel T) os : mixer_run evs c = Some (c', os) → length os = length evs.
Proof using Type.
  revert c os. induction evs as [|ev evs IH]; intros c os Hrun; [by injection Hrun as <- <-|]. cbn in Hrun.
  apply bind_Some in Hrun as ([c1 o] & Hs & Hrun). apply bind_Some in Hrun as ([c2 os'] & Hrun & [= <- <-]). cbn. f_equal. by eapply IH.
Qed.

Lemma run_conserves evs (c c' : Channel T) os :
  mixer_run evs c = Some (c', os) → buffer c ++ entered os ≡ₚ left_items os ++ buffer c'.
Proof.
  revert c os. induction evs as [|ev evs IH]; intros c os Hrun; [injection Hrun as <- <-; cbn; by rewrite app_nil_r|]. cbn in Hrun.
  apply bind_Some in Hrun as ([c1 o] & Hs & Hrun). apply bind_Some in Hrun as ([c2 os'] & Hrun & [= <- <-]).
  specialize (IH _ _ Hrun). apply step_buffer in Hs. destruct o as [x|clock x given| |]; cbn.
  - rewrite Hs in IH. rewrite <-IH. by rewrite <-Permutation_middle.
  - destruct Hs as (Hp & _ & _). rewrite Hp, <-IH. done.
  - by rewrite <-Hs.
  - by rewrite <-Hs.
Qed.

(** C15. The mixer releases what entered, each item once, when it is due and in
    order.  In any history of sends, polls, clones and drops of senders from a
    new channel, the items that entered are those that left and those still in
    the buffer (where they stay when the receiver has ended); an item leaves
    only when the clock has reached its release time, also when the timer says
    so, the receiver is given that item, and no item that entered before and has
    not left is due earlier. *)
Theorem mixer_history (cfg : MixerConfig) (evs : list (MixerEvent T)) (c : Channel T) (os : list (MixerObservation T)) :
  mixer_run evs (channel cfg) = Some (c, os) →
  entered os ≡ₚ left_items os ++ buffer c ∧
  ∀ os1 clock x given os2, os = os1 ++ Left clock x given :: os2 →
    release_at x ≤ clock ∧ given = item x ∧
    ∃ rest, entered os1 ≡ₚ left_items os1 ++ x :: rest ∧ ∀ y, y ∈ rest → release_at x ≤ release_at y.
Proof.
  intros Hrun. split; [exact (run_conserves _ _ _ _ Hrun)|]. intros os1 clock x given os2 ->.
  apply run_length in Hrun as Hlen. rewrite length_app in Hlen.
  rewrite <-(take_drop (length os1) evs) in Hrun. apply run_app in Hrun as (c1 & os1' & os2' & Hr1 & Hr2 & Heq).
  apply run_length in Hr1 as Hl1. rewrite length_take in Hl1.
  apply app_inj_1 in Heq as [<- <-]; [|lia]. destruct (drop (length os1) evs) as [|ev evs2]; [done|]. cbn in Hr2.
  apply bind_Some in Hr2 as ([c2 o] & Hs & Hr2). apply bind_Some in Hr2 as ([c3 os3] & Hr2 & [= <- -> ->]).
  apply step_buffer in Hs as (Hp & [Hdue Hg] & Hle). split; [exact Hdue|]. split; [exact Hg|]. exists (buffer c2). split; [|exact Hle].
  rewrite <-Hp. exact (run_conserves _ _ _ _ Hr1).
Qed.

(** One poll after the release of everything. *)
Lemma poll_due p (c : Channel T) :
  (0 < sender_count c)%nat → poisoned c = false → clock_runs p = true → buffer c ≠ [] →
  (∀ x, x ∈ buffer c → release_at x < at_start p) →
  ∃ x q, pop_min (buffer c) = Some (x, q) ∧ mixer_step (EvPollNext p) c = Some (take_item q c, Left (at_start p) x (item x)).
Proof.
  intros Hn Hp Hc Hb Hdue. destruct (pop_min_some (buffer c) Hb) as (x & q & Hq). exists x, q. split; [done|].
  cbn [mixer_step]. unfold poll_next. rewrite Hc, (proj2 (Nat.ltb_lt _ _) Hn), Hp, Hq. destruct (pop_min_spec _ _ _ Hq) as [Hperm _].
  rewrite (proj2 (Z.ltb_lt _ _)); [done|]. apply Hdue. rewrite Hperm. by left.
Qed.

(** C16. A receiver that keeps polling gets everything.  While a sender lives and
    the lock is not poisoned, as many polls as there are items in the buffer,
    each after the release time of all of them, yield all of them in the order
    of their release times and leave the buffer empty. *)
Theorem mixer_drains (c : Channel T) (polls : list PollClock) :
  (0 < sender_count c)%nat → poisoned c = false → length polls = length (buffer c) →
  Forall (λ p, clock_runs p = true ∧ ∀ x, x ∈ buffer c → release_at x < at_start p) polls →
  ∃ c' os, mixer_run (EvPollNext <$> polls) c = Some (c', os) ∧ buffer c' = [] ∧
    left_items os ≡ₚ buffer c ∧ StronglySorted no_later (left_items os) ∧ length (left_items os) = length polls.
Proof.
  revert c. induction polls as [|p polls IH]; intros c Hn Hp Hlen Hdue.
  { symmetry in Hlen. apply nil_length_inv in Hlen. exists c, []. rewrite Hlen. cbn. by split_and!; try constructor. }
  apply Forall_cons in Hdue as [[Hc Hnow] Hdue]. assert (buffer c ≠ []) as Hb by (intros He; by rewrite He in Hlen).
  destruct (poll_due p c Hn Hp Hc Hb Hnow) as (x & q & Hq & Hs). destruct (pop_min_spec _ _ _ Hq) as [Hperm Hle].
  assert (length polls = length q) as Hlen' by (rewrite Hperm in Hlen; cbn in Hlen; lia).
  destruct (IH (take_item q c)) as (c' & os & Hrun & He & Hp' & Hso & Hl); [done..|exact Hlen'| |].
  { eapply Forall_impl; [exact Hdue|]. intros n [Hc' Hn']. split; [done|]. intros y Hy. apply Hn'. rewrite Hperm. by right. }
  exists c', (Left (at_start p) x (item x) :: os). rewrite fmap_cons. cbn [mixer_run]. rewrite Hs. cbn.
  rewrite Hrun. cbn in *.
  split; [done|]. split; [done|]. split; [by rewrite Hp', Hperm|]. split; [|by f_equal].
  constructor; [done|]. apply Forall_forall. intros y Hy. apply Hle. by rewrite <-Hp'.
Qed.

(** ** What closing loses *)

(** When the last sender goes, a receiver that waits is not woken, and its next
    poll ends the stream whatever is still in the buffer. *)
Lemma closing_loses_items p (c : Channel T) :
  sender_count c = 1%nat → receiver_active c = true → clock_runs p = true →
  ∃ c', mixer_run [EvDropSender; EvPollNext p] c = Some (c', [Nothing; Ended]) ∧ buffer c' = buffer c ∧
    woken (sender_drop c) = woken c ∧ left_items [Nothing; Ended] = [].
Proof using Type.
  intros Hn Hr Hc. cbn. rewrite Hc. unfold poll_next, sender_drop. cbn. rewrite Hn. cbn. eexists. by split_and!.
Qed.

(** A fixed positive delay has no random draw: the first send panics and
    poisons the lock, after which nothing is sent or received. *)
Lemma fixed_delay_poisons cfg (c : Channel T) x now draw p :
  0 < as_millis (mx_min_delay cfg) < 2 ^ 64 → as_secs (mx_min_delay cfg) < 2 ^ 64 → delay_range cfg = 0 → mx_cfg c = cfg →
  receiver_active c = true → poisoned c = false → (0 < sender_count c)%nat →
  ∃ c', send x now draw c = (c', Panic) ∧ send x now draw c' = (c', Err SenderLock) ∧ (poll_next p c').2 = Ready None.
Proof using Type.
  intros Hd Hs Hr Hcfg Ha Hp Hn. unfold send, start_send, random_delay. cbn [sender_clone mx_cfg receiver_active poisoned].
  rewrite Ha, Hp, Hcfg, Hr, Z.add_0_r.
  assert (Z.min (mx_min_delay cfg) Duration_MAX = mx_min_delay cfg) as ->.
  { unfold Duration_MAX, as_secs in *. apply Z.min_l.
    pose proof (Z.mod_pos_bound (mx_min_delay cfg) (10 ^ 9) ltac:(lia)). pose proof (Z.div_mod (mx_min_delay cfg) (10 ^ 9) ltac:(lia)). lia. }
  rewrite (proj2 (Z.eqb_neq _ _)) by lia. rewrite (wrap_small 64) by (unfold in_u; lia).
  unfold random_integer. cbn [default]. rewrite Z.ltb_irrefl. cbn [andb mbind outcome_bind].
  eexists. split; [done|]. unfold sender_drop, sender_clone. cbn. rewrite andb_false_r, !andb_true_r. cbn.
  rewrite andb_false_r, !andb_true_r. split; [done|]. unfold poll_next. cbn. by destruct (sender_count c); [lia|].
Qed.
End MixerSpec.

(** ** A run over a plain list *)
Section Runs.

Fixpoint pop_least {T} (q : list (DelayedData T)) : option (DelayedData T * list (DelayedData T)) :=
  match q with
  | [] => None
  | x :: q =>
      match pop_least q with
      | Some (y, q') => if release_at x <=? release_at y then Some (x, q) else Some (y, x :: q')
      | None => Some (x, [])
      end
  end.

#[local] Instance list_min_heap : MinHeap := @pop_least.

Lemma pop_least_spec {T} (q : list (DelayedData T)) :
  match pop_least q with
  | Some (x, q') => q ≡ₚ x :: q' ∧ ∀ y, y ∈ q' → release_at x ≤ release_at y
  | None => q = []
  end.
Proof.
  induction q as [|x q IH]; [done|]. cbn. destruct (pop_least q) as [[y q']|].
  - destruct IH as [Hp Hle]. destruct (Z.leb_spec (release_at x) (release_at y)); (split; [|intros z Hz]).
    + done.
    + rewrite Hp in Hz. apply elem_of_cons in Hz as [->|Hz]; [done|]. specialize (Hle z Hz). lia.
    + rewrite Hp. apply Permutation_swap.
    + apply elem_of_cons in Hz as [->|Hz]; [lia|by apply Hle].
  - rewrite IH. split; [done|]. intros y Hy. by apply elem_of_nil in Hy.
Qed.

#[local] Instance list_min_heap_laws : MinHeapLaws.
Proof.
  split; intros T q.
  - intros Hq. pose proof (pop_least_spec q) as Hs. unfold pop_min, list_min_heap in Hq. by rewrite Hq in Hs.
  - intros x q' Hq. pose proof (pop_least_spec q) as Hs. unfold pop_min, list_min_heap in Hq. rewrite Hq in Hs.
    destruct Hs as [Hp Hle]. split; [done|]. intros y Hy. unfold DelayedData_cmp. specialize (Hle y Hy).
    by apply Z.compare_le_iff.
Qed.

Definition ms (n : Z) : Instant := n * 10 ^ 6.
Definition at_once (n : Z) : PollClock := mkPollClock (ms n) (ms n) (ms n) false.

(** The third item is due at 50 ms: the timer, set one millisecond late, says so
    at 51 ms and not before. *)
Definition three_sends : list (MixerEvent string) :=
  [EvSendItem "first"%string (ms 0) 150; EvSendItem "second"%string (ms 1) 20; EvPollNext (at_once 30); EvCloneSender;
   EvSendItem "third"%string (ms 40) 10; EvPollNext (at_once 45);
   EvPollNext (mkPollClock (ms 46) (ms 47) (ms 50) false); EvPollNext (mkPollClock (ms 46) (ms 47) (ms 51) false); EvDropSender].

Lemma mixer_history_witness :
  ∃ c os, mixer_run three_sends (channel MixerConfig_default) = Some (c, os) ∧ entered os ≡ₚ left_items os ++ buffer c ∧
    item <$> left_items os = ["second"; "third"]%string ∧ item <$> buffer c = ["first"]%string.
Proof.
  assert (match mixer_run three_sends (channel MixerConfig_default) with
          | Some (c, os) => bool_decide (item <$> left_items os = ["second"; "third"]%string) && bool_decide (item <$> buffer c = ["first"]%string)
          | None => false
          end = true) as Hrun by vm_cast_no_check (eq_refl true).
  destruct (mixer_run three_sends (channel MixerConfig_default)) as [[c os]|] eqn:Hm; [|discriminate Hrun]. exists c, os. apply andb_prop in Hrun as [Hl Hb].
  destruct (mixer_history MixerConfig_default three_sends c os Hm) as [Hc _].
  split; [reflexivity|]. split; [exact Hc|]. split; [exact (bool_decide_eq_true_1 _ Hl)|exact (bool_decide_eq_true_1 _ Hb)].
Defined.

Definition two_waiting : Channel string :=
  (send "b"%string (ms 1) 20 (send "a"%string (ms 0) 150 (channel MixerConfig_default)).1).1.

Lemma mixer_drains_witness :
  ∃ c' os, mixer_run [EvPollNext (at_once 200); EvPollNext (at_once 201)] two_waiting = Some (c', os) ∧ buffer c' = [] ∧
    StronglySorted no_later (left_items os) ∧ length (left_items os) = 2%nat.
Proof.
  destruct (mixer_drains two_waiting [at_once 200; at_once 201]) as (c' & os & Hrun & Hb & _ & Hs & Hl).
  - apply Nat.ltb_lt. vm_cast_no_check (eq_refl true).
  - vm_cast_no_check (eq_refl false).
  - vm_cast_no_check (eq_refl 2%nat).
  - assert (∀ n x, n ∈ [ms 200; ms 201] → x ∈ buffer two_waiting → release_at x < n) as Hdue.
    { intros n x Hn Hx. assert (forallb (λ n, forallb (λ x, release_at x <? n) (buffer two_waiting)) [ms 200; ms 201] = true) as Hall
        by vm_cast_no_check (eq_refl true).
      rewrite forallb_forall in Hall. apply list_elem_of_In in Hn, Hx. specialize (Hall n Hn). rewrite forallb_forall in Hall.
      apply Z.ltb_lt, Hall. exact Hx. }
    constructor; [|constructor; [|constructor]]; (split; [vm_cast_no_check (eq_refl true)|]); intros x Hx;
      apply Hdue; try exact Hx; [left|right; left].
  - exists c', os. split; [exact Hrun|]. split; [exact Hb|]. split; [exact Hs|exact Hl].
Defined.
End Runs.
