(* ===== verification/Strategies.v ===== *)
(** * Strategies

    Models [logic/strategy/src]: what a node does by itself with its channels
    and tickets.  Promiscuous opens channels to good peers and closes those to
    bad ones, auto-funding and auto-redeeming react to changes, the closure
    finalizer and the aggregating strategy go over the channels at each tick,
    and a multi-strategy runs a list of strategies.  They act on the node
    through its actions ([Actions]), the peer table ([Peers]) and the databases.
    A handler is one step, the requests it sends off without waiting for them
    run one after another; readings of the clocks and random values are
    numbered. *)
From Stdlib Require Import Floats.SpecFloat.
From stdpp Require Import gmap strings sorting.
From S2P Require Import Prelude Primitives Crypto Channels Tickets ChannelGraph SharedKeys.
From S2P Require Import TicketStore Protocol NodeDb Aggregation Indexer Actions Peers.

(** [x.ceil() as usize]. *)
Definition f64_ceil_as_usize (x : f64) : Z :=
  match x with
  | S754_infinity false => u_max 64
  | S754_finite false m e => Z.min (if 0 <=? e then Z.pos m * 2 ^ e else div_ceil (Z.pos m) (2 ^ (- e))) (u_max 64)
  | _ => 0
  end.
Definition f64_sqrt : f64 → f64 := SFsqrt 53 1024.
Definition usize_as_f64 (n : Z) : f64 := binary_normalize 53 1024 n 0 false.

(** [sort_unstable_by] with [partial_cmp(..).expect(..)]: equal elements end in
    an order left open, and every element of a longer list is compared. *)
Definition not_greater (x y : f64) : bool := match SFcompare x y with Some Gt => false | _ => true end.
Definition quality_order {A} (q : A → f64) (best_first : bool) (a b : A) : Prop :=
  (if best_first then not_greater (q b) (q a) else not_greater (q a) (q b)) = true.
#[export] Instance quality_order_dec {A} (q : A → f64) best_first a b : Decision (quality_order q best_first a b).
Proof. unfold quality_order. apply _. Defined.

Definition is_nan (x : f64) : bool := match x with S754_nan => true | _ => false end.

Definition sort_by_quality {E A} `{!ScanOrder} (q : A → f64) (best_first : bool) (l : list A) : outcome E (list A) :=
  if (1 <? length l)%nat && existsb (λ a, is_nan (q a)) l then Panic
  else Ok (merge_sort (quality_order q best_first) (scan l)).

(** The crate [semver]: versions without pre-release and build parts, and
    requirements on them. *)
Class SemVer := {
  VersionReq : Type;
  parse_version : string → option (Z * Z * Z);
  parse_req : string → option VersionReq;
  req_to_string : VersionReq → string;
  req_matches : VersionReq → Z * Z * Z → bool
}.

Section Strategies.
Context `{!Secp256k1} `{!Curve25519} `{!Ed25519} `{!HexCodec} `{!ScanOrder} `{!Multiaddrs} `{!MultiaddrProtocols} `{!FloatCmp}.
Context `{!PeerIds} `{!MultiaddrSet} `{!SmaCodec} `{!FloatPowf} `{!SemVer}.

(** [StrategyError]. *)
Inductive StrategyError :=
| CriteriaNotSatisfied
| StrategyOther (what : string)
| StrategyDbError (e : DbSqlError)
| StrategyProtocolError (what : string)
| StrategyActionsError (e : ChainActionsError)
| StrategyGeneralError (e : GeneralError).

(** ** The state

    [agg_tasks] are the tables of the aggregating strategies by the number of
    the strategy: for a channel the number of the task that aggregates in it,
    and whether it is done.  [agg_spawned] are all tasks, with whether they are
    over. *)
Record AggTask := mkAggTask {
  at_table : nat;
  at_channel : Hash;
  at_criteria : AggregationPrerequisites;
  at_over : bool
}.

Record StrategyState := mkStrategies {
  st_queue : QueueState;
  st_peers : PeersDb;
  agg_tasks : gmap nat (gmap Hash (bool * nat));
  agg_spawned : list AggTask;
  readings : nat
}.

Definition set_st_queue x s := mkStrategies x (st_peers s) (agg_tasks s) (agg_spawned s) (readings s).
Definition set_agg_table (table : nat) (t : gmap Hash (bool * nat)) s :=
  mkStrategies (st_queue s) (st_peers s) (<[table := t]> (agg_tasks s)) (agg_spawned s) (readings s).
Definition agg_table (table : nat) (s : StrategyState) : gmap Hash (bool * nat) := default ∅ (agg_tasks s !! table).

Abbreviation StM := (SM StrategyState StrategyError).

(** The clocks and the random values, by the number of the reading. *)
Record Environment := mkEnvironment {
  clock : nat → SystemTime;
  elapsed : nat → Duration;              (** since the strategy was made *)
  draw : nat → bytes
}.
Context (env : Environment).

Definition read {A} (f : nat → A) : StM A := λ s,
  (mkStrategies (st_queue s) (st_peers s) (agg_tasks s) (agg_spawned s) (S (readings s)), Ok (f (readings s))).

(** [?] on the actions, the index database, the ticket database and the peers. *)
Definition on_actions {A} (m : SM QueueState ChainActionsError A) : StM A := λ s,
  let '(q, r) := m (st_queue s) in (set_st_queue q s, map_err StrategyActionsError r).
Definition on_store {A} (m : SM HoprDb DbSqlError A) : StM A := λ s,
  let '(db, r) := m (queue_db (st_queue s)) in
  (set_st_queue (set_queue_db db (st_queue s)) s, map_err StrategyDbError r).
Definition on_peer_table {A} (m : SM PeersDb DbSqlError A) : StM A := λ s,
  let '(d, r) := m (st_peers s) in
  (mkStrategies (st_queue s) d (agg_tasks s) (agg_spawned s) (readings s), map_err StrategyDbError r).

(** An error that is only logged; whether there was none. *)
Definition attempt {A} (m : StM A) : StM bool := λ s,
  match m s with
  | (s, Ok _) => (s, Ok true)
  | (s, Err _) => (s, Ok false)
  | (s, Panic) => (s, Panic)
  end.

(** [close_channel] on an outgoing channel; the random values are for the
    redemption of incoming ones. *)
Definition close_outgoing (destination : Address) : StM nat :=
  now ← read (clock env); later ← read (clock env);
  on_actions (close_channel destination Outgoing false now later []).

(** ** The promiscuous strategy ([promiscuous.rs]) *)
Record ChannelDecision := mkDecision { to_close : list ChannelEntry; to_open : list (Address * HoprBalance) }.

Definition will_channel_be_closed (closing : list ChannelEntry) (counter_party : Address) : bool :=
  existsb (λ c, bool_decide (destination c = counter_party)) closing.

Record PromiscuousStrategyConfig := mkPromiscuousConfig {
  network_quality_open_threshold : f64;
  network_quality_close_threshold : f64;
  minimum_peer_pings : Z;
  initial_delay : Duration;
  new_channel_stake : HoprBalance;
  minimum_safe_balance : HoprBalance;
  max_channels : option Z;
  enforce_max_channels : bool;
  minimum_peer_version : VersionReq
}.

(** The defaults: 0.9 and 0.2, 5 minutes, 10 and 1000 wxHOPR. *)
Definition PromiscuousStrategyConfig_default {E} : outcome E PromiscuousStrategyConfig :=
  req ← unwrap_option (parse_req ">=2.2.1");
  Ok (mkPromiscuousConfig (f64_from_bits 0x3FECCCCCCCCCCCCD) (f64_from_bits 0x3FC999999999999A) 50 (5 * 60 * 10 ^ 9)
        (mkBalance (10 * 10 ^ 18)) (mkBalance (1000 * 10 ^ 18)) None true req).

(** The names of the rules a configuration violates. *)
Definition PromiscuousStrategyConfig_validate (cfg : PromiscuousStrategyConfig) : list string :=
  let rule (ok : bool) (name : string) := if ok then [] else [name] in
  rule (f64_unit_contains (network_quality_open_threshold cfg)) "network_quality_open_threshold" ++
  rule (f64_unit_contains (network_quality_close_threshold cfg)) "network_quality_close_threshold" ++
  rule (negb (SFleb (network_quality_open_threshold cfg) (network_quality_close_threshold cfg)))
    "network_quality_open_threshold,network_quality_close_threshold" ++
  rule (negb (minimum_peer_pings cfg =? 0)) "minimum_peer_pings" ++
  rule (negb (Balance_is_zero (new_channel_stake cfg))) "new_channel_stake" ++
  rule (negb match max_channels cfg with Some m => m =? 0 | None => false end) "max_channels" ++
  rule match parse_req (req_to_string (minimum_peer_version cfg)) with Some _ => true | None => false end
    "minimum_peer_version".

Definition MIN_AUTO_DETECTED_MAX_AUTO_CHANNELS : Z := 10.

Record NetworkStats := mkNetworkStats {
  peers_with_quality : gmap Address (f64 * Z);
  num_online_peers : Z
}.

(** The entry of one peer, if it is counted; the version is rebuilt from the
    major and the patch number. *)
Definition peer_entry (cfg : PromiscuousStrategyConfig) (p : PeerStatus) : StM (option (Address * (f64 * Z))) :=
  match peer_version p ≫= parse_version with
  | Some (major, minor, patch) =>
      if req_matches (minimum_peer_version cfg) (major, major, patch) then λ s,
        match on_store (resolve_chain_key (ps_id p).1) s with
        | (s, Ok (Some addr)) => (s, Ok (Some (addr, (get_average_quality p, heartbeats_sent p))))
        | (s, Panic) => (s, Panic)
        | (s, _) => (s, Ok None)
        end
      else mret None
  | None => mret None
  end.

Fixpoint collect_entries (cfg : PromiscuousStrategyConfig) (peers : list PeerStatus) (acc : gmap Address (f64 * Z)) :
    StM (gmap Address (f64 * Z)) :=
  match peers with
  | [] => mret acc
  | p :: peers =>
      entry ← peer_entry cfg p;
      collect_entries cfg peers (match entry with Some (addr, v) => <[addr := v]> acc | None => acc end)
  end.

Definition get_network_stats (cfg : PromiscuousStrategyConfig) : StM NetworkStats :=
  peers ← on_peer_table (get_network_peers PeerSelector_default false);
  qualities ← collect_entries cfg peers ∅;
  mret (mkNetworkStats qualities (Z.of_nat (length (filter (λ p, SFltb f64_zero (peer_quality p) = true) peers)))).

(** The loop over the peers: the channels to close because the quality of the
    peer has dropped, and the candidates for a new channel. *)
Fixpoint review_peers (cfg : PromiscuousStrategyConfig) (open_channels : list ChannelEntry)
    (peers : list (Address * (f64 * Z))) : list ChannelEntry * list (Address * f64) :=
  match peers with
  | [] => ([], [])
  | (address, (quality, num_pings)) :: peers =>
      let '(closing, candidates) := review_peers cfg open_channels peers in
      match list_find (λ c, destination c = address) open_channels with
      | Some (_, channel) =>
          if SFltb quality (network_quality_close_threshold cfg) && (minimum_peer_pings cfg <=? num_pings)
          then (channel :: closing, candidates) else (closing, candidates)
      | None =>
          if SFleb (network_quality_open_threshold cfg) quality && (minimum_peer_pings cfg <=? num_pings)
          then (closing, (address, quality) :: candidates) else (closing, candidates)
      end
  end.

Definition max_auto_channels (cfg : PromiscuousStrategyConfig) (stats : NetworkStats) : Z :=
  default (Z.max MIN_AUTO_DETECTED_MAX_AUTO_CHANNELS (f64_ceil_as_usize (f64_sqrt (usize_as_f64 (num_online_peers stats)))))
    (max_channels cfg).

(** Maps are gone through in an order left open, and so are the candidates
    after the shuffle. *)
Definition collect_tick_decision (cfg : PromiscuousStrategyConfig) : StM ChannelDecision :=
  outgoing ← on_store get_outgoing_channels;
  let open_channels := filter (λ c, ChannelStatus_eqb (status c) Open = true) outgoing in
  network_stats ← get_network_stats cfg;
  let qualities := peers_with_quality network_stats in
  let unknown := filter (λ c, qualities !! destination c = None) open_channels in
  let '(bad, candidates) := review_peers cfg open_channels (scan (map_to_list qualities)) in
  let closing := unknown ++ bad in
  let max_auto := max_auto_channels cfg network_stats in
  let occupied := saturating_sub (Z.of_nat (length open_channels)) (Z.of_nat (length closing)) in
  if (max_auto <? occupied) && enforce_max_channels cfg then
    sorted_channels ← lift (sort_by_quality (λ c, default f64_zero (fst <$> qualities !! destination c)) false
                              (filter (λ c, will_channel_be_closed closing (destination c) = false) open_channels));
    mret (mkDecision (closing ++ take (Z.to_nat (occupied - max_auto)) sorted_channels) [])
  else if occupied <? max_auto then
    sorted_candidates ← lift (sort_by_quality snd true (scan candidates));
    let new_channel_candidates := take (Z.to_nat (max_auto - occupied)) sorted_candidates in
    current_safe_balance ← on_store get_safe_hopr_balance;
    affordable ← lift (U256_div (amount (Balance_sub current_safe_balance (minimum_safe_balance cfg)))
                         (amount (new_channel_stake cfg)));
    max_to_open ← lift (U256_as 64 affordable);
    mret (mkDecision closing ((λ c, (c.1, new_channel_stake cfg)) <$> take (Z.to_nat max_to_open) new_channel_candidates))
  else mret (mkDecision closing []).

(** What fails is logged and passed over. *)
Fixpoint close_all (channels : list ChannelEntry) : StM unit :=
  match channels with
  | [] => mret tt
  | c :: channels => attempt (close_outgoing (destination c));; close_all channels
  end.
Fixpoint open_all (openings : list (Address * HoprBalance)) : StM unit :=
  match openings with
  | [] => mret tt
  | o :: openings => attempt (on_actions (open_channel o.1 o.2));; open_all openings
  end.

Definition promiscuous_on_tick (cfg : PromiscuousStrategyConfig) : StM unit :=
  safe_balance ← on_store get_safe_hopr_balance;
  if Balance_leb safe_balance (minimum_safe_balance cfg) then throw CriteriaNotSatisfied
  else
    running ← read (elapsed env);
    if running <? initial_delay cfg then throw CriteriaNotSatisfied
    else
      tick_decision ← collect_tick_decision cfg;
      close_all (to_close tick_decision);;
      open_all (to_open tick_decision).

(** ** Funding channels ([auto_funding.rs]) *)
Record AutoFundingStrategyConfig := mkAutoFundingConfig {
  min_stake_threshold : HoprBalance;
  funding_amount : HoprBalance
}.
(** 1 and 10 wxHOPR. *)
Definition AutoFundingStrategyConfig_default : AutoFundingStrategyConfig :=
  mkAutoFundingConfig (mkBalance (10 ^ 18)) (mkBalance (10 * 10 ^ 18)).

Definition auto_funding_on_own_channel_changed (cfg : AutoFundingStrategyConfig) (channel : ChannelEntry)
    (dir : ChannelDirection) (change : ChannelChange) : StM unit :=
  match dir with
  | Incoming => mret tt
  | Outgoing =>
      match change with
      | ChangeCurrentBalance _ new =>
          if Balance_ltb new (min_stake_threshold cfg) && ChannelStatus_eqb (status channel) Open then
            on_actions (fund_channel (get_id channel) (funding_amount cfg));; mret tt
          else mret tt
      | _ => throw CriteriaNotSatisfied
      end
  end.

(** ** Redeeming tickets ([auto_redeeming.rs]) *)
Record AutoRedeemingStrategyConfig := mkAutoRedeemingConfig {
  redeem_only_aggregated : bool;
  redeem_all_on_close : bool;
  minimum_redeem_ticket_value : HoprBalance
}.
(** 0.09 wxHOPR. *)
Definition AutoRedeemingStrategyConfig_default : AutoRedeemingStrategyConfig :=
  mkAutoRedeemingConfig true true (mkBalance (9 * 10 ^ 16)).

Definition submit_redemption (ack : AcknowledgedTicket) : StM nat :=
  random ← read (draw env);
  on_actions (redeem_ticket ack random).

Definition auto_redeeming_on_acknowledged_winning_ticket (cfg : AutoRedeemingStrategyConfig) (ack : AcknowledgedTicket) :
    StM unit :=
  let ticket := verified_ticket (ack_ticket ack) in
  if (negb (redeem_only_aggregated cfg) || is_aggregated ticket) && Balance_leb (minimum_redeem_ticket_value cfg) (t_amount ticket)
  then submit_redemption ack;; mret tt
  else throw CriteriaNotSatisfied.

(** How many of the submissions succeed and fail. *)
Fixpoint submit_all (acks : list AcknowledgedTicket) (ok failed : nat) : StM (nat * nat) :=
  match acks with
  | [] => mret (ok, failed)
  | ack :: acks =>
      success ← attempt (submit_redemption ack);
      if success : bool then submit_all acks (S ok) failed else submit_all acks ok (S failed)
  end.

(** A channel goes from open to pending. *)
Definition starts_closing (old new : ChannelStatus) : bool :=
  ChannelStatus_eqb old Open && match new with PendingToClose _ => true | _ => false end.

Definition auto_redeeming_on_own_channel_changed (cfg : AutoRedeemingStrategyConfig) (channel : ChannelEntry)
    (dir : ChannelDirection) (change : ChannelChange) : StM unit :=
  match dir with
  | Outgoing => mret tt
  | Incoming =>
      if redeem_all_on_close cfg then
        match change with
        | ChangeStatus old new =>
            if starts_closing old new then
              let selector := with_amount (Included (minimum_redeem_ticket_value cfg)) Unbounded
                                (with_state Untouched (selector_of_channel channel)) in
              tickets ← on_store (on_tickets (get_tickets selector));
              '(redeem_sent_ok, redeem_sent_failed) ← submit_all tickets 0 0;
              if ((0 <? redeem_sent_ok) || (0 <? redeem_sent_failed))%nat then mret tt else throw CriteriaNotSatisfied
            else mret tt
        | _ => throw CriteriaNotSatisfied
        end
      else mret tt
  end.

(** ** Finalizing closures ([channel_finalizer.rs]) *)
Record ClosureFinalizerStrategyConfig := mkFinalizerConfig { max_closure_overdue : Duration }.
Definition ClosureFinalizerStrategyConfig_default : ClosureFinalizerStrategyConfig := mkFinalizerConfig (300 * 10 ^ 9).

(** [SystemTime - Duration] panics below the earliest time. *)
Definition time_sub {E} (t : SystemTime) (d : Duration) : outcome E SystemTime :=
  if - 2 ^ 63 <=? as_secs (t - d) then Ok (t - d) else Panic.

Fixpoint finalizable (ts_limit : SystemTime) (channels : list ChannelEntry) : StM (list ChannelEntry) :=
  match channels with
  | [] => mret []
  | c :: channels =>
      take_it ← (match status c with
                 | PendingToClose ct => if ts_limit <? ct then now ← read (clock env); mret (closure_time_passed c now) else mret false
                 | _ => mret false
                 end);
      rest ← finalizable ts_limit channels;
      mret (if take_it : bool then c :: rest else rest)
  end.

(** The requests run in an order left open. *)
Definition finalizer_on_tick (cfg : ClosureFinalizerStrategyConfig) : StM unit :=
  now ← read (clock env);
  ts_limit ← lift (time_sub now (max_closure_overdue cfg));
  outgoing_channels ← on_store get_outgoing_channels;
  closing ← finalizable ts_limit outgoing_channels;
  close_all (scan closing).

(** ** Aggregating tickets ([aggregating.rs]) *)
Record AggregatingStrategyConfig := mkAggregatingConfig {
  aggregation_threshold : option Z;
  unrealized_balance_ratio : option f32;
  aggregate_on_channel_close : bool
}.
(** 250 tickets, a ratio of 0.9 in single precision. *)
Definition AggregatingStrategyConfig_default : AggregatingStrategyConfig :=
  mkAggregatingConfig (Some 250) (Some (f64_as_f32 (f64_from_bits 0x3FECCCCCCCCCCCCD))) true.

Definition MAX_AGGREGATABLE_TICKET_COUNT : Z := wrap 32 (Z.of_nat MAX_TICKETS_TO_AGGREGATE_BATCH).
Definition AggregatingStrategyConfig_validate (cfg : AggregatingStrategyConfig) : list string :=
  match aggregation_threshold cfg with
  | Some n => if (2 <=? n) && (n <=? MAX_AGGREGATABLE_TICKET_COUNT) then [] else ["aggregation_threshold"]
  | None => []
  end ++
  match unrealized_balance_ratio cfg with
  | Some r => if f64_unit_contains (f32_as_f64 r) then [] else ["unrealized_balance_ratio"]
  | None => []
  end.

Definition prerequisites_of (cfg : AggregatingStrategyConfig) : AggregationPrerequisites :=
  mkPrerequisites (aggregation_threshold cfg) (f32_as_f64 <$> unrealized_balance_ratio cfg).

Definition is_strategy_aggregating_in_channel (table : nat) (channel_id : Hash) : StM bool :=
  s ← get;
  match agg_table table s !! channel_id with
  | Some (true, _) => modify (set_agg_table table (delete channel_id (agg_table table s)));; mret false
  | Some (false, _) => mret true
  | None => mret false
  end.

(** The new task, and its entry in the table; an entry that is there is replaced. *)
Definition spawn_aggregation (table : nat) (channel_id : Hash) (criteria : AggregationPrerequisites) (s : StrategyState) :
    StrategyState :=
  mkStrategies (st_queue s) (st_peers s) (agg_tasks s) (agg_spawned s ++ [mkAggTask table channel_id criteria false]) (readings s).

Definition insert_aggregation (table : nat) (channel_id : Hash) (n : nat) (s : StrategyState) : StrategyState :=
  set_agg_table table (<[channel_id := (false, n)]> (agg_table table s)) s.

(** [try_start_aggregation] takes the lock of the table three times and lets it
    go in between.  Its steps, with what a call does next: it reads the entry,
    removes it when its task is done and waits for that task, spawns the new
    task and inserts its entry. *)
Inductive AggCall :=
| AggChecking | AggRemoving | AggJoining (n : nat) | AggSpawning | AggInserting (n : nat) | AggReturned.

Definition agg_over (n : nat) (s : StrategyState) : bool :=
  match agg_spawned s !! n with Some t => at_over t | None => false end.

(** [None]: the call waits, or is over. *)
Definition agg_call_step (table : nat) (channel_id : Hash) (criteria : AggregationPrerequisites) (c : AggCall) (s : StrategyState) :
    option (StrategyState * AggCall) :=
  match c with
  | AggChecking =>
      Some (s, match agg_table table s !! channel_id with
               | Some (true, _) => AggRemoving
               | Some (false, _) => AggReturned
               | None => AggSpawning
               end)
  | AggRemoving =>
      Some match agg_table table s !! channel_id with
           | Some (_, n) => (set_agg_table table (delete channel_id (agg_table table s)) s, AggJoining n)
           | None => (s, AggSpawning)
           end
  | AggJoining n => if agg_over n s then Some (s, AggSpawning) else None
  | AggSpawning => Some (spawn_aggregation table channel_id criteria s, AggInserting (length (agg_spawned s)))
  | AggInserting n => Some (insert_aggregation table channel_id n s, AggReturned)
  | AggReturned => None
  end.

(** The call with nothing between its steps. *)
Definition start_aggregation (table : nat) (channel_id : Hash) (criteria : AggregationPrerequisites) (s : StrategyState) :
    StrategyState :=
  insert_aggregation table channel_id (length (agg_spawned s)) (spawn_aggregation table channel_id criteria s).

Definition try_start_aggregation (table : nat) (channel_id : Hash) (criteria : AggregationPrerequisites) : StM unit :=
  running ← is_strategy_aggregating_in_channel table channel_id;
  if running : bool then mret tt else modify (start_aggregation table channel_id criteria).

(** The aggregator has answered task [n], which then marks the entry of its
    channel; a task that panics marks nothing. *)
Definition finish_aggregation (n : nat) (panicked : bool) (s : StrategyState) : option StrategyState :=
  task ← agg_spawned s !! n;
  if at_over task then None
  else
    let over := mkStrategies (st_queue s) (st_peers s) (agg_tasks s)
                  (<[n := mkAggTask (at_table task) (at_channel task) (at_criteria task) true]> (agg_spawned s)) (readings s) in
    let t := agg_table (at_table task) s in
    Some (match t !! at_channel task with
          | Some (_, m) => if panicked then over else set_agg_table (at_table task) (<[at_channel task := (true, m)]> t) over
          | None => over
          end).

Fixpoint aggregate_channels (table : nat) (criteria : AggregationPrerequisites) (channels : list ChannelEntry) : StM unit :=
  match channels with
  | [] => mret tt
  | c :: channels =>
      now ← read (clock env);
      (if closure_time_passed c now then mret tt else try_start_aggregation table (get_id c) criteria);;
      aggregate_channels table criteria channels
  end.

Definition aggregating_on_tick (cfg : AggregatingStrategyConfig) (table : nat) : StM unit :=
  incoming ← on_store get_incoming_channels;
  aggregate_channels table (prerequisites_of cfg) incoming.

Definition aggregating_on_own_channel_changed (cfg : AggregatingStrategyConfig) (table : nat) (channel : ChannelEntry)
    (dir : ChannelDirection) (change : ChannelChange) : StM unit :=
  match dir with
  | Outgoing => mret tt
  | Incoming =>
      if aggregate_on_channel_close cfg then
        match change with
        | ChangeStatus old new =>
            if starts_closing old new then try_start_aggregation table (get_id channel) (mkPrerequisites (Some 2) None)
            else mret tt
        | _ => mret tt
        end
      else mret tt
  end.

(** ** Lists of strategies ([strategy.rs])

    [Strategy] is the configuration, [SingularStrategy] what is made of it. *)
Inductive Strategy :=
| Promiscuous (cfg : PromiscuousStrategyConfig)
| Aggregating (cfg : AggregatingStrategyConfig)
| AutoRedeeming (cfg : AutoRedeemingStrategyConfig)
| AutoFunding (cfg : AutoFundingStrategyConfig)
| ClosureFinalizer (cfg : ClosureFinalizerStrategyConfig)
| Multi (cfg : MultiStrategyConfig)
| Passive
with MultiStrategyConfig :=
| mkMultiConfig (on_fail_continue allow_recursive : bool) (execution_interval : Z) (strategies : list Strategy).

Definition MultiStrategyConfig_default : MultiStrategyConfig := mkMultiConfig true true 60 [].
Definition MultiStrategyConfig_validate (cfg : MultiStrategyConfig) : list string :=
  match cfg with mkMultiConfig _ _ execution_interval _ => if 1 <=? execution_interval then [] else ["execution_interval"] end.

(** [hopr_default_strategies]: aggregation of 100 tickets or nine tenths of a
    channel, and redemption of aggregated tickets. *)
Definition hopr_default_strategies : MultiStrategyConfig :=
  mkMultiConfig true false 60
    [Aggregating (mkAggregatingConfig (Some 100) (Some (f64_as_f32 (f64_from_bits 0x3FECCCCCCCCCCCCD))) true);
     AutoRedeeming (mkAutoRedeemingConfig true true (mkBalance (9 * 10 ^ 16)))].
Definition Strategy_default : Strategy := Multi hopr_default_strategies.

Inductive SingularStrategy :=
| PromiscuousStrategy (cfg : PromiscuousStrategyConfig)
| AggregatingStrategy (cfg : AggregatingStrategyConfig) (table : nat)
| AutoRedeemingStrategy (cfg : AutoRedeemingStrategyConfig)
| AutoFundingStrategy (cfg : AutoFundingStrategyConfig)
| ClosureFinalizerStrategy (cfg : ClosureFinalizerStrategyConfig)
| MultiStrategy (on_fail_continue : bool) (strategies : list SingularStrategy).

(** [MultiStrategy::new]; aggregating strategies are numbered from [next]. *)
Definition build_all (build : Strategy → nat → list SingularStrategy * nat) :
    list Strategy → nat → list SingularStrategy * nat :=
  fix go l next :=
    match l with
    | [] => ([], next)
    | st :: l => let '(built, next) := build st next in let '(rest, next) := go l next in (built ++ rest, next)
    end.

Fixpoint build_strategy (allow_recursive : bool) (strategy : Strategy) (next : nat) : list SingularStrategy * nat :=
  match strategy with
  | Promiscuous cfg => ([PromiscuousStrategy cfg], next)
  | Aggregating cfg => ([AggregatingStrategy cfg next], S next)
  | AutoRedeeming cfg => ([AutoRedeemingStrategy cfg], next)
  | AutoFunding cfg => ([AutoFundingStrategy cfg], next)
  | ClosureFinalizer cfg => ([ClosureFinalizerStrategy cfg], next)
  | Multi (mkMultiConfig on_fail_continue _ _ strategies) =>
      if allow_recursive then
        let '(built, next) := build_all (build_strategy false) strategies next in ([MultiStrategy on_fail_continue built], next)
      else ([], next)
  | Passive => ([MultiStrategy true []], next)
  end.

Definition MultiStrategy_new (cfg : MultiStrategyConfig) (next : nat) : SingularStrategy * nat :=
  match cfg with
  | mkMultiConfig on_fail_continue allow_recursive _ strategies =>
      let '(built, next) := build_all (build_strategy allow_recursive) strategies next in (MultiStrategy on_fail_continue built, next)
  end.

(** The loop over the strategies of a list. *)
Definition run_chain (on_fail_continue : bool) (f : SingularStrategy → StM unit) : list SingularStrategy → StM unit :=
  fix go l :=
    match l with
    | [] => mret tt
    | st :: l => λ s,
        match f st s with
        | (s, Ok _) => go l s
        | (s, Err e) => if on_fail_continue then go l s else (s, Err e)
        | (s, Panic) => (s, Panic)
        end
    end.

Fixpoint on_tick (st : SingularStrategy) : StM unit :=
  match st with
  | PromiscuousStrategy cfg => promiscuous_on_tick cfg
  | AggregatingStrategy cfg table => aggregating_on_tick cfg table
  | ClosureFinalizerStrategy cfg => finalizer_on_tick cfg
  | MultiStrategy on_fail_continue strategies => run_chain on_fail_continue on_tick strategies
  | _ => mret tt
  end.

Fixpoint on_acknowledged_winning_ticket (ack : AcknowledgedTicket) (st : SingularStrategy) : StM unit :=
  match st with
  | AutoRedeemingStrategy cfg => auto_redeeming_on_acknowledged_winning_ticket cfg ack
  | MultiStrategy on_fail_continue strategies => run_chain on_fail_continue (on_acknowledged_winning_ticket ack) strategies
  | _ => mret tt
  end.

Fixpoint on_own_channel_changed (channel : ChannelEntry) (dir : ChannelDirection) (change : ChannelChange)
    (st : SingularStrategy) : StM unit :=
  match st with
  | AggregatingStrategy cfg table => aggregating_on_own_channel_changed cfg table channel dir change
  | AutoRedeemingStrategy cfg => auto_redeeming_on_own_channel_changed cfg channel dir change
  | AutoFundingStrategy cfg => auto_funding_on_own_channel_changed cfg channel dir change
  | MultiStrategy on_fail_continue strategies => run_chain on_fail_continue (on_own_channel_changed channel dir change) strategies
  | _ => mret tt
  end.
End Strategies.
