(* ===== verification/StrategiesSpec.v ===== *)
(** * Properties of the strategies

    The decision of the promiscuous strategy described without its loops, what
    a tick asks of the chain, and that an aggregating strategy aggregates in a
    channel once at a time. *)
From Stdlib Require Import Floats.SpecFloat.
From stdpp Require Import gmap strings sorting relations.
From S2P Require Import Prelude Primitives Crypto Channels Tickets ChannelGraph SharedKeys TicketStore TicketStoreSpec TicketTable.
From S2P Require Import Protocol NodeDb NodeDbSpec NodeProtocol NodeProtocolSpec Aggregation Indexer Actions Peers PeersSpec Strategies.

(** ** The order of qualities *)
Definition float_key (x : f64) : Z * Z * Z :=
  match x with
  | S754_infinity true => (-2, 0, 0)
  | S754_finite true m e => (-1, - e, - Z.pos m)
  | S754_finite false m e => (1, e, Z.pos m)
  | S754_infinity false => (2, 0, 0)
  | _ => (0, 0, 0)
  end.
Definition key_le (k k' : Z * Z * Z) : Prop :=
  let '(a, b, c) := k in let '(a', b', c') := k' in a < a' ∨ a = a' ∧ (b < b' ∨ b = b' ∧ c ≤ c').

Lemma not_greater_key x y : is_nan x = false → is_nan y = false → not_greater x y = true ↔ key_le (float_key x) (float_key y).
Proof.
  intros Hx Hy. unfold not_greater, key_le.
  destruct x as [sx|[]| |[] m e], y as [sy|[]| |[] m' e']; try done; cbn; try (split; [lia|done]); try (split; [done|lia]).
  all: destruct (Z.compare_spec e e') as [->|?|?]; try (split; [lia|done]); try (split; [done|lia]).
  all: fold (Pos.compare m m'); destruct (Pos.compare_spec m m') as [->|?|?]; cbn; try (split; [lia|done]); try (split; [done|lia]).
Qed.

Lemma not_greater_trans x y z :
  is_nan x = false → is_nan y = false → is_nan z = false → not_greater x y = true → not_greater y z = true → not_greater x z = true.
Proof. intros Hx Hy Hz. rewrite !not_greater_key by done. unfold key_le. repeat case_match. lia. Qed.

#[export] Instance quality_order_total {A} (q : A → f64) best_first : Total (quality_order q best_first).
Proof.
  assert (∀ x y, not_greater x y = true ∨ not_greater y x = true) as Ht.
  { intros x y. destruct (is_nan x) eqn:Hx; [left; by destruct x|]. destruct (is_nan y) eqn:Hy; [left; by destruct x, y|].
    rewrite !not_greater_key by done. unfold key_le. repeat case_match. lia. }
  intros a b. unfold quality_order. destruct best_first; apply Ht.
Qed.

(** A sorted list of qualities, cut: the first part is not after the second. *)
Lemma sort_by_quality_Ok {E A} `{!ScanOrder, !ScanOrderLaws} (q : A → f64) best_first (l : list A) :
  Forall (λ a, is_nan (q a) = false) l →
  ∃ l', sort_by_quality (E:=E) q best_first l = Ok l' ∧ l' ≡ₚ l ∧ StronglySorted (quality_order q best_first) l'.
Proof.
  intros Hn. unfold sort_by_quality. replace (existsb _ l) with false.
  2: { symmetry. apply not_true_is_false. intros (a & Ha & Hq)%existsb_exists. rewrite Forall_forall in Hn.
       rewrite (Hn a) in Hq; [done|by apply list_elem_of_In]. }
  rewrite andb_false_r. eexists. split; [done|]. assert (merge_sort (quality_order q best_first) (scan l) ≡ₚ l) as Hp
    by (rewrite merge_sort_Permutation; apply scan_permutation).
  split; [done|]. rewrite <-Hp in Hn. revert Hn. generalize (Sorted_merge_sort (quality_order q best_first) (scan l)).
  generalize (merge_sort (quality_order q best_first) (scan l)). clear.
  intros l Hs. induction Hs as [|a l Hs IH Hh]; intros Hn; [constructor|]. apply Forall_cons in Hn as [Ha Hn]. specialize (IH Hn).
  constructor; [done|]. destruct Hh as [|b l Hab]; [done|]. apply Forall_cons in Hn as [Hb Hn]. apply StronglySorted_inv in IH as [_ IH].
  constructor; [done|]. rewrite Forall_forall in IH, Hn |- *. intros c Hc. specialize (IH c Hc). specialize (Hn c Hc).
  unfold quality_order in *. destruct best_first; by eapply (not_greater_trans _ (q b)).
Qed.

Lemma StronglySorted_cut {A} (R : A → A → Prop) n (l : list A) x y :
  StronglySorted R l → x ∈ take n l → y ∈ drop n l → R x y.
Proof.
  intros Hs. rewrite <-(take_drop n l) in Hs. apply StronglySorted_app in Hs as (H & _ & _). apply H.
Qed.

Section Spec.
Context `{!Secp256k1, !Secp256k1Laws} `{!Curve25519} `{!Ed25519} `{!HexCodec, !HexCodecLaws} `{!ScanOrder, !ScanOrderLaws}.
Context `{!Multiaddrs} `{!MultiaddrProtocols} `{!FloatCmp} `{!PeerIds} `{!MultiaddrSet} `{!SmaCodec} `{!FloatPowf} `{!SemVer}.
Context (env : Environment).
#[local] Set Default Proof Using "Type*".

(** ** The decision of the promiscuous strategy *)
Section Decision.
Context (cfg : PromiscuousStrategyConfig) (opened : list ChannelEntry) (stats : NetworkStats) (safe_balance : HoprBalance).

Definition quality_of (c : ChannelEntry) : f64 := default f64_zero (fst <$> peers_with_quality stats !! destination c).
Definition has_pings (n : Z) : bool := minimum_peer_pings cfg <=? n.

(** A channel to a peer that is unknown, or bad after enough pings. *)
Definition bad_channel (c : ChannelEntry) : bool :=
  match peers_with_quality stats !! destination c with
  | Some (quality, pings) => SFltb quality (network_quality_close_threshold cfg) && has_pings pings
  | None => true
  end.
Definition good_channels : list ChannelEntry := filter (λ c, bad_channel c = false) opened.

(** A known, good peer after enough pings to whom there is no channel. *)
Definition candidate (a : Address) (quality : f64) : Prop :=
  a ∉ destination <$> opened ∧
  ∃ pings, peers_with_quality stats !! a = Some (quality, pings) ∧
    SFleb (network_quality_open_threshold cfg) quality = true ∧ has_pings pings = true.

(** How many more channels are allowed, and can be paid. *)
Definition slots : Z := Z.max 0 (max_auto_channels cfg stats - Z.of_nat (length good_channels)).
Definition affordable : Z :=
  Z.max 0 (amount safe_balance - amount (minimum_safe_balance cfg)) `div` amount (new_channel_stake cfg).

(** Closed are the bad channels and, where the limit is enforced, the worst of
    the good ones above it; opened are channels to the best candidates, as many
    as there are slots and money for. *)
Record decision_ok (dec : ChannelDecision) : Prop := {
  do_close : ∃ extra kept,
    to_close dec ≡ₚ filter (λ c, bad_channel c = true) opened ++ extra ∧ good_channels ≡ₚ extra ++ kept ∧
    (∀ c c', c ∈ extra → c' ∈ kept → not_greater (quality_of c) (quality_of c') = true) ∧
    Z.of_nat (length extra) =
      (if enforce_max_channels cfg then Z.max 0 (Z.of_nat (length good_channels) - max_auto_channels cfg stats) else 0);
  do_open : ∃ best rest,
    to_open dec = (λ c, (c.1, new_channel_stake cfg)) <$> best ∧ NoDup (best ++ rest).*1 ∧
    (∀ a quality, (a, quality) ∈ best ++ rest ↔ candidate a quality) ∧
    (∀ c c', c ∈ best → c' ∈ rest → not_greater c'.2 c.2 = true) ∧
    Z.of_nat (length best) = Z.min (Z.of_nat (length (best ++ rest))) (Z.min slots affordable)
}.

Definition low (v : f64 * Z) : bool := SFltb v.1 (network_quality_close_threshold cfg) && has_pings v.2.
Definition high (v : f64 * Z) : bool := SFleb (network_quality_open_threshold cfg) v.1 && has_pings v.2.

(** The loop over the peers, as two maps over them. *)
Definition channel_with (a : Address) : option ChannelEntry := snd <$> list_find (λ c, destination c = a) opened.
Definition closing_of (x : Address * (f64 * Z)) : option ChannelEntry :=
  c ← channel_with x.1; if low x.2 then Some c else None.
Definition candidate_of (x : Address * (f64 * Z)) : option (Address * f64) :=
  match channel_with x.1 with Some _ => None | None => if high x.2 then Some (x.1, x.2.1) else None end.

Lemma review_eq peers : review_peers cfg opened peers = (omap closing_of peers, omap candidate_of peers).
Proof using Type.
  induction peers as [|[a [q n]] peers IH]; [done|]. cbn [review_peers omap list_omap]. rewrite IH.
  set (cl := omap closing_of peers). set (ca := omap candidate_of peers). unfold closing_of, candidate_of, channel_with.
  cbn [fst snd]. change (SFltb q _ && _) with (low (q, n)). change (SFleb _ q && _) with (high (q, n)).
  destruct (list_find _ opened) as [[i ch]|]; cbn [mbind option_bind fmap option_fmap option_map snd];
    [destruct (low (q, n))|destruct (high (q, n))]; done.
Qed.

Lemma NoDup_omap_key {A B K} (f : A → option B) (key : A → K) (key' : B → K) (l : list A) :
  (∀ x y, f x = Some y → key' y = key x) → NoDup (key <$> l) → NoDup (key' <$> omap f l).
Proof using Type.
  intros Hf. induction l as [|x l IH]; [constructor|]. cbn. intros [Hx Hl]%NoDup_cons. destruct (f x) as [y|] eqn:Hy; [|by apply IH].
  cbn. apply NoDup_cons. split; [|by apply IH]. intros (y' & Heq & (x' & Hx' & Hy')%list_elem_of_omap)%list_elem_of_fmap.
  apply Hx. apply list_elem_of_fmap. exists x'. split; [|done]. by rewrite <-(Hf _ _ Hy), <-(Hf _ _ Hy').
Qed.

Context (peers : list (Address * (f64 * Z))) (Hpeers : NoDup peers.*1) (Hopened : NoDup (destination <$> opened)).

Lemma channel_with_Some a c : channel_with a = Some c ↔ c ∈ opened ∧ destination c = a.
Proof. by apply (find_iff destination). Qed.

Lemma channel_with_None a : channel_with a = None ↔ a ∉ destination <$> opened.
Proof.
  rewrite eq_None_not_Some, list_elem_of_fmap. apply not_iff_compat. split.
  - intros [c [Hc <-]%channel_with_Some]. by exists c.
  - intros (c & -> & Hc). exists c. by apply channel_with_Some.
Qed.

Lemma closing_iff c : c ∈ omap closing_of peers ↔ c ∈ opened ∧ ∃ v, (destination c, v) ∈ peers ∧ low v = true.
Proof.
  rewrite list_elem_of_omap. split.
  - intros ([a v] & Hin & (c' & [Hc' Hd]%channel_with_Some & Hl)%bind_Some). cbn [fst snd] in *. subst a.
    destruct (low v) eqn:Hv; [|done]. injection Hl as ->. split; [done|by exists v].
  - intros (Hc & v & Hin & Hv). exists (destination c, v). split; [done|]. unfold closing_of.
    rewrite (proj2 (channel_with_Some _ c)) by done. cbn. by rewrite Hv.
Qed.

Lemma closing_NoDup : NoDup (omap closing_of peers).
Proof.
  apply (NoDup_fmap_1 destination). eapply NoDup_omap_key; [|exact Hpeers].
  intros x c (c' & [_ Hd]%channel_with_Some & Hl)%bind_Some. destruct (low x.2); [|done]. by injection Hl as <-.
Qed.

Lemma candidate_iff a q :
  (a, q) ∈ omap candidate_of peers ↔ a ∉ destination <$> opened ∧ ∃ n, (a, (q, n)) ∈ peers ∧ high (q, n) = true.
Proof.
  rewrite list_elem_of_omap, <-channel_with_None. unfold candidate_of. split.
  - intros ([a' [q' n]] & Hin & Hc). cbn in Hc. destruct (channel_with a') eqn:Ha; [done|].
    destruct (high (q', n)) eqn:Hh; [|done]. injection Hc as <- <-. split; [done|by exists n].
  - intros (Ha & n & Hin & Hh). exists (a, (q, n)). split; [done|]. cbn. by rewrite Ha, Hh.
Qed.

Lemma candidates_NoDup : NoDup (omap candidate_of peers).*1.
Proof.
  eapply NoDup_omap_key; [|exact Hpeers]. intros x y. unfold candidate_of.
  destruct (channel_with x.1), (high x.2); try done. by intros [= <-].
Qed.
End Decision.

Lemma length_partition {A} (f : A → bool) l :
  (length (filter (λ x, f x = true) l) + length (filter (λ x, f x = false) l) = length l)%nat.
Proof using Type. induction l as [|x l IH]; [done|]. rewrite !filter_cons. repeat case_decide; cbn in *; destruct (f x); try done; lia. Qed.

(** *** The channels to close and the candidates, over the whole map of peers *)
Section Review.
Context (cfg : PromiscuousStrategyConfig) (opened : list ChannelEntry) (stats : NetworkStats).
Context (Hopened : NoDup (destination <$> opened)).
Let peers := scan (map_to_list (peers_with_quality stats)).
Let closing := filter (λ c, peers_with_quality stats !! destination c = None) opened ++ omap (closing_of cfg opened) peers.

Lemma peers_NoDup : NoDup peers.*1.
Proof. unfold peers. rewrite (scan_permutation _ _). apply NoDup_fst_map_to_list. Qed.

Lemma elem_of_peers a v : (a, v) ∈ peers ↔ peers_with_quality stats !! a = Some v.
Proof. unfold peers. rewrite (scan_permutation _ _). apply elem_of_map_to_list. Qed.

Lemma closing_bad : closing ≡ₚ filter (λ c, bad_channel cfg stats c = true) opened.
Proof.
  assert (NoDup opened) as Hnd by exact (NoDup_fmap_1 _ _ Hopened). apply NoDup_Permutation; [|by apply NoDup_filter|].
  - apply NoDup_app. split; [by apply NoDup_filter|]. split; [|exact (closing_NoDup _ _ _ peers_NoDup Hopened)].
    intros c [Hc _]%list_elem_of_filter [_ (v & Hv & _)]%(closing_iff _ _ _ peers_NoDup Hopened). apply elem_of_peers in Hv. congruence.
  - intros c. unfold closing. rewrite elem_of_app, (closing_iff _ _ _ peers_NoDup Hopened), !list_elem_of_filter. unfold bad_channel.
    setoid_rewrite elem_of_peers. destruct (peers_with_quality stats !! destination c) as [[q n]|] eqn:Hq.
    + split; [|intros [Hl Hc]; right; split; [done|by exists (q, n)]]. intros [[? _]|[Hc (v & [= <-] & Hl)]]; [done|by split].
    + split; [|by intros [_ Hc]; left]. intros [[_ Hc]|[_ (v & ? & _)]]; done.
Qed.

Lemma kept_good :
  filter (λ c, will_channel_be_closed closing (destination c) = false) opened ≡ₚ good_channels cfg opened stats.
Proof.
  assert (NoDup opened) as Hnd by exact (NoDup_fmap_1 _ _ Hopened).
  apply NoDup_Permutation; [by apply NoDup_filter..|]. intros c. unfold good_channels. rewrite !list_elem_of_filter.
  assert (c ∈ opened → will_channel_be_closed closing (destination c) = bad_channel cfg stats c) as Heq.
  2: { split; intros [Hb Hc]; (split; [|exact Hc]); rewrite <-Hb, Heq by done; done. }
  intros Hc. apply eq_true_iff_eq. unfold will_channel_be_closed. rewrite existsb_exists. split.
  - intros (c' & Hin%list_elem_of_In & Hd%bool_decide_eq_true). rewrite closing_bad in Hin.
    apply list_elem_of_filter in Hin as [Hb Hin]. by rewrite <-(unique_by _ _ c' c Hopened Hin Hc Hd).
  - intros Hb. exists c. rewrite bool_decide_true by done. split; [|done]. apply list_elem_of_In. rewrite closing_bad.
    by apply list_elem_of_filter.
Qed.

Lemma good_length : saturating_sub (Z.of_nat (length opened)) (Z.of_nat (length closing)) = Z.of_nat (length (good_channels cfg opened stats)).
Proof.
  rewrite closing_bad. pose proof (length_partition (bad_channel cfg stats) opened).
  unfold good_channels, saturating_sub. lia.
Qed.

Lemma candidates_iff a q : (a, q) ∈ omap (candidate_of cfg opened) peers ↔ candidate cfg opened stats a q.
Proof.
  rewrite (candidate_iff _ _ _ peers_NoDup Hopened). unfold candidate, high. cbn. setoid_rewrite elem_of_peers.
  by setoid_rewrite andb_true_iff.
Qed.
End Review.

(** *** Reading the outgoing channels *)
Lemma mapM_Forall2 {E A B} (f : A → outcome E B) l k : Forall2 (λ x y, f x = Ok y) l k → mapM f l = Ok k.
Proof using Type. induction 1 as [|x y l k Hx _ IH]; [done|]. cbn [mapM]. rewrite Hx. cbn. by rewrite IH. Qed.

Lemma outgoing_run entries db :
  channels_wf entries (index_db db) → array_wf 20 (me_onchain db) →
  ∃ l, get_outgoing_channels db = (db, Ok l) ∧ l ≡ₚ filter (λ e, source e = me_onchain db) entries.
Proof.
  intros Hwf Hme.
  assert (Forall2 (λ m e, row_of e m) (filter (λ m, cm_source m = to_hex (me_onchain db)) (channels (index_db db)))
            (filter (λ e, source e = me_onchain db) entries)) as Hrows.
  { apply Forall2_filter; [apply Forall2_flip, (cw_rows _ _ Hwf)|]. intros m e Hr.
    destruct (row_of_columns _ _ Hr) as (_ & -> & _). destruct Hr as [He _].
    split; [|congruence]. apply to_hex_inj; [by destruct (ew_source _ He)|by destruct Hme]. }
  destruct (Forall2_permuted _ _ _ _ Hrows (scan_permutation _ _)) as (l & Hl & Hp). exists l. split; [|done].
  unfold get_outgoing_channels. rewrite run_get. unfold get_channels_via, index_tx. rewrite run_get. unfold lift.
  rewrite (mapM_Forall2 decode_channel _ l); [by destruct db|].
  eapply Forall2_impl; [exact Hl|]. intros m e. apply decode_row.
Qed.

(** ** What reading leaves alone *)
Record looks (s s' : StrategyState) : Prop := {
  lk_reads : reads (queue_db (st_queue s)) (queue_db (st_queue s'));
  lk_sent : sent (st_queue s') = sent (st_queue s);
  lk_open : queue_open (st_queue s') = queue_open (st_queue s);
  lk_peers : st_peers s' = st_peers s;
  lk_tasks : agg_tasks s' = agg_tasks s;
  lk_spawned : agg_spawned s' = agg_spawned s
}.
#[export] Instance looks_preorder : PreOrder looks.
Proof. split; [by split|]. intros a b c [[] ? ? ? ? ?] [[] ? ? ? ? ?]. split; [split|..]; congruence. Qed.

Abbreviation watches s0 := (keeps false (looks s0)).

Lemma looks_store {A} s0 (m : SM HoprDb DbSqlError A) :
  (∀ db db' o, m db = (db', o) → reads db db') → watches s0 (on_store m).
Proof.
  intros Hm s Hs. split; [|done]. unfold on_store. destruct (m (queue_db (st_queue s))) as [db' o] eqn:Hrun. apply Hm in Hrun.
  etrans; [exact Hs|]. by split.
Qed.

Lemma fetch_only_reads {A} (m : SM HoprDb DbSqlError A) db db' o : fetch_only m → m db = (db', o) → reads db db'.
Proof. intros [f Hf]. rewrite Hf. by intros [= <- _]. Qed.

Lemma looks_read {A} s0 (f : nat → A) : watches s0 (read f).
Proof. intros s Hs. split; [|done]. etrans; [exact Hs|]. by split. Qed.

Ltac stay_still := repeat first [done | apply still_bind; [|intros ?] | apply still_match; [intros ?|]].

Lemma safe_balance_only : fetch_only get_safe_hopr_balance.
Proof. apply fetch_only_tx. stay_still. Qed.

Lemma looks_outgoing s0 : watches s0 (on_store get_outgoing_channels).
Proof.
  apply looks_store. intros db db' o. unfold get_outgoing_channels. rewrite run_get. apply fetch_only_reads, fetch_only_tx. stay_still.
Qed.

Lemma looks_entry s0 cfg p : watches s0 (peer_entry cfg p).
Proof.
  intros s Hs. split; [|done]. unfold peer_entry. destruct (peer_version p ≫= parse_version) as [[[major minor] patch]|]; [|done].
  destruct (req_matches _ _); [|done].
  assert (watches s0 (on_store (resolve_chain_key (ps_id p).1))) as Hw
    by (apply looks_store; intros db db' o Hr; by destruct (resolve_chain_key_reads _ _ _ _ Hr)).
  destruct (Hw s Hs) as [H' _].
  by destruct (on_store _ s) as [s' [[a|]| |]].
Qed.

Lemma looks_entries s0 cfg peers acc : watches s0 (collect_entries cfg peers acc).
Proof.
  revert acc. induction peers as [|p peers IH]; intros acc; cbn [collect_entries]; [apply keeps_ret|].
  apply keeps_bind; [apply looks_entry|]. intros o. apply IH.
Qed.

Lemma looks_stats s0 cfg : watches s0 (get_network_stats cfg).
Proof.
  apply keeps_bind; [|intros peers; apply keeps_bind; [apply looks_entries|intros m; apply keeps_ret]].
  intros s Hs. split; [|done]. etrans; [exact Hs|]. by split.
Qed.

Lemma store_run_Ok {A} (m : SM HoprDb DbSqlError A) s db' a :
  m (queue_db (st_queue s)) = (db', Ok a) → on_store m s = (set_st_queue (set_queue_db db' (st_queue s)) s, Ok a).
Proof using Type. intros Hm. unfold on_store. by rewrite Hm. Qed.

Lemma set_same s : set_st_queue (set_queue_db (queue_db (st_queue s)) (st_queue s)) s = s.
Proof using Type. by destruct s as [[] ?]. Qed.

Lemma balance_again db db' b :
  reads db db' → (get_safe_hopr_balance db).2 = Ok b → get_safe_hopr_balance db' = (db', Ok b).
Proof.
  intros Hr. destruct safe_balance_only as [f Hf]. rewrite !Hf. cbn. rewrite (rd_index _ _ Hr). by intros ->.
Qed.

(** ** The decision, whole *)
Definition own_open (me : Address) (entries : list ChannelEntry) : list ChannelEntry :=
  filter (λ c, ChannelStatus_eqb (status c) Open = true) (filter (λ e, source e = me) entries).

Record stakes_ok (cfg : PromiscuousStrategyConfig) (safe_balance : HoprBalance) : Prop := {
  so_stake : 0 < amount (new_channel_stake cfg);
  so_channels : ∀ m, max_channels cfg = Some m → 0 ≤ m;
  so_usize : affordable cfg safe_balance < 2 ^ 64
}.

Definition no_nan (stats : NetworkStats) : Prop := ∀ a v, peers_with_quality stats !! a = Some v → is_nan v.1 = false.

Lemma f64_ceil_nonneg x : 0 ≤ f64_ceil_as_usize x.
Proof using Type.
  unfold f64_ceil_as_usize, u_max. destruct x as [| [] | |[] m e]; try lia.
  apply Z.min_glb; [|lia]. destruct (0 <=? e) eqn:He; [lia|]. unfold div_ceil.
  apply Z.div_pos; [|apply Z.pow_pos_nonneg; lia]. pose proof (Z.pow_pos_nonneg 2 (- e)). lia.
Qed.

Lemma max_auto_nonneg cfg stats b : stakes_ok cfg b → 0 ≤ max_auto_channels cfg stats.
Proof using Type.
  intros Hs. unfold max_auto_channels. destruct (max_channels cfg) eqn:Hm; cbn; [by eapply so_channels|].
  unfold MIN_AUTO_DETECTED_MAX_AUTO_CHANNELS. lia.
Qed.

(** The sorts do not fail. *)
Lemma channels_sorted stats l :
  no_nan stats → ∃ l', sort_by_quality (E:=StrategyError) (quality_of stats) false l = Ok l' ∧ l' ≡ₚ l ∧
    StronglySorted (quality_order (quality_of stats) false) l'.
Proof.
  intros Hn. apply sort_by_quality_Ok. apply Forall_forall. intros c _. unfold quality_of.
  destruct (peers_with_quality stats !! destination c) as [v|] eqn:Hv; [by eapply Hn|done].
Qed.

Lemma candidates_sorted opened stats cfg (l : list (Address * f64)) :
  no_nan stats → (∀ a q, (a, q) ∈ l → candidate cfg opened stats a q) →
  ∃ l', sort_by_quality (E:=StrategyError) snd true l = Ok l' ∧ l' ≡ₚ l ∧ StronglySorted (quality_order snd true) l'.
Proof.
  intros Hn Hl. apply sort_by_quality_Ok. apply Forall_forall. intros [a q] Hin. destruct (Hl a q Hin) as (_ & n & Hv & _).
  exact (Hn a (q, n) Hv).
Qed.

Section Decide.
Context (cfg : PromiscuousStrategyConfig) (opened : list ChannelEntry) (stats : NetworkStats) (b : HoprBalance).
Context (Hopened : NoDup (destination <$> opened)) (Hnan : no_nan stats) (Hstakes : stakes_ok cfg b).
Let peers := scan (map_to_list (peers_with_quality stats)).
Let closing := filter (λ c, peers_with_quality stats !! destination c = None) opened ++ omap (closing_of cfg opened) peers.
Let n_good := Z.of_nat (length (good_channels cfg opened stats)).

Lemma no_opening dec cands : slots cfg opened stats = 0 → to_open dec = [] →
  NoDup cands.*1 → (∀ a q, (a, q) ∈ cands ↔ candidate cfg opened stats a q) →
  ∃ best rest, to_open dec = (λ c : Address * f64, (c.1, new_channel_stake cfg)) <$> best ∧ NoDup (best ++ rest).*1 ∧
    (∀ a quality, (a, quality) ∈ best ++ rest ↔ candidate cfg opened stats a quality) ∧
    (∀ c c' : Address * f64, c ∈ best → c' ∈ rest → not_greater c'.2 c.2 = true) ∧
    Z.of_nat (length best) = Z.min (Z.of_nat (length (best ++ rest))) (Z.min (slots cfg opened stats) (affordable cfg b)).
Proof.
  intros Hs Ho Hnd Hc. exists [], cands. split_and!; [done..|by intros c c' ?%elem_of_nil|]. rewrite Hs. cbn.
  assert (0 ≤ affordable cfg b); [|lia]. unfold affordable. pose proof (so_stake _ _ Hstakes). apply Z.div_pos; lia.
Qed.

Lemma no_enforced dec : to_close dec = closing → (enforce_max_channels cfg = true → n_good ≤ max_auto_channels cfg stats) →
  ∃ extra kept, to_close dec ≡ₚ filter (λ c, bad_channel cfg stats c = true) opened ++ extra ∧
    good_channels cfg opened stats ≡ₚ extra ++ kept ∧
    (∀ c c', c ∈ extra → c' ∈ kept → not_greater (quality_of stats c) (quality_of stats c') = true) ∧
    Z.of_nat (length extra) =
      (if enforce_max_channels cfg then Z.max 0 (Z.of_nat (length (good_channels cfg opened stats)) - max_auto_channels cfg stats) else 0).
Proof.
  intros -> He. exists [], (good_channels cfg opened stats). split_and!; [|done|by intros c c' ?%elem_of_nil|].
  - rewrite app_nil_r. by apply closing_bad.
  - destruct (enforce_max_channels cfg); [|done]. specialize (He eq_refl). fold n_good. cbn. lia.
Qed.

Lemma candidates_all : NoDup (omap (candidate_of cfg opened) peers).*1 ∧
  ∀ a q, (a, q) ∈ omap (candidate_of cfg opened) peers ↔ candidate cfg opened stats a q.
Proof. split; [eapply candidates_NoDup; [by eapply peers_NoDup|exact Hopened]|by apply candidates_iff].
Qed.

Lemma enforced_ok sorted_channels :
  max_auto_channels cfg stats < n_good → enforce_max_channels cfg = true →
  sorted_channels ≡ₚ good_channels cfg opened stats → StronglySorted (quality_order (quality_of stats) false) sorted_channels →
  decision_ok cfg opened stats b
    (mkDecision (closing ++ take (Z.to_nat (n_good - max_auto_channels cfg stats)) sorted_channels) []).
Proof.
  intros Hlt He Hp Hs. pose proof (max_auto_nonneg cfg stats b Hstakes). destruct candidates_all as [Hnd Hiff].
  set (k := Z.to_nat (n_good - max_auto_channels cfg stats)). split.
  - exists (take k sorted_channels), (drop k sorted_channels). split_and!.
    + apply Permutation_app; [by apply closing_bad|done].
    + by rewrite take_drop.
    + intros c c' Hc Hc'. exact (StronglySorted_cut _ _ _ _ _ Hs Hc Hc').
    + rewrite He, length_take, Hp. fold n_good. unfold k. lia.
  - eapply no_opening; [|done|exact Hnd|exact Hiff]. unfold slots. fold n_good. lia.
Qed.

Lemma opening_ok sorted_candidates :
  n_good < max_auto_channels cfg stats →
  sorted_candidates ≡ₚ omap (candidate_of cfg opened) peers → StronglySorted (quality_order snd true) sorted_candidates →
  decision_ok cfg opened stats b
    (mkDecision closing ((λ c, (c.1, new_channel_stake cfg)) <$> take (Z.to_nat (affordable cfg b))
       (take (Z.to_nat (max_auto_channels cfg stats - n_good)) sorted_candidates))).
Proof.
  intros Hlt Hp Hs. destruct candidates_all as [Hnd Hiff]. split; [by apply no_enforced; [|lia]|].
  rewrite take_take. set (k := (_ `min` _)%nat). exists (take k sorted_candidates), (drop k sorted_candidates).
  rewrite take_drop. split_and!.
  - done.
  - by rewrite Hp.
  - intros a q. by rewrite Hp.
  - intros c c' Hc Hc'. exact (StronglySorted_cut _ _ _ _ _ Hs Hc Hc').
  - rewrite length_take. unfold k, slots. fold n_good. assert (0 ≤ affordable cfg b); [|lia].
    unfold affordable. pose proof (so_stake _ _ Hstakes). apply Z.div_pos; lia.
Qed.

(** The function reaches one of the three decisions. *)
Lemma decision_run s s1 outgoing :
  on_store get_outgoing_channels s = (s, Ok outgoing) → opened = filter (λ c, ChannelStatus_eqb (status c) Open = true) outgoing →
  get_network_stats cfg s = (s1, Ok stats) → on_store get_safe_hopr_balance s1 = (s1, Ok b) →
  ∃ dec, collect_tick_decision cfg s = (s1, Ok dec) ∧ decision_ok cfg opened stats b dec.
Proof.
  intros Hout Heq Hstats Hbal. unfold collect_tick_decision. rewrite (run_Ok _ _ _ _ _ Hout). cbn zeta. rewrite <-Heq.
  rewrite (run_Ok _ _ _ _ _ Hstats). fold peers. rewrite review_eq. fold closing.
  assert (saturating_sub (Z.of_nat (length opened)) (Z.of_nat (length closing)) = n_good) as ->
    by exact (good_length cfg opened stats Hopened).
  pose proof (max_auto_nonneg cfg stats b Hstakes) as Hmax.
  destruct candidates_all as [Hnd Hiff].
  destruct (Z.ltb_spec (max_auto_channels cfg stats) n_good) as [Hlt|Hle]; cbn [andb].
  - destruct (enforce_max_channels cfg) eqn:He.
    + destruct (channels_sorted stats (filter (λ c, will_channel_be_closed closing (destination c) = false) opened) Hnan)
        as (l & Hl & Hp & Hs).
      fold (quality_of stats) in Hl |- *. change (λ c, default f64_zero (fst <$> peers_with_quality stats !! destination c)) with (quality_of stats).
      rewrite Hl, run_lift. eexists. split; [done|]. apply enforced_ok; [done..| |done]. rewrite Hp. by apply kept_good.
    + rewrite (proj2 (Z.ltb_ge _ _)) by lia. eexists. split; [done|]. split; [by apply no_enforced; [|congruence]|].
      eapply no_opening; [|done|exact Hnd|exact Hiff]. unfold slots. fold n_good. lia.
  - destruct (Z.ltb_spec n_good (max_auto_channels cfg stats)) as [Hlt|Hge].
    + destruct (candidates_sorted opened stats cfg (scan (omap (candidate_of cfg opened) peers)) Hnan) as (l & Hl & Hp & Hs).
      { intros a q. rewrite (scan_permutation _ _). apply Hiff. }
      rewrite Hl, run_lift. rewrite (run_Ok _ _ _ _ _ Hbal).
      unfold U256_div, Balance_sub, U256_saturating_sub. rewrite (proj2 (Z.eqb_neq _ _)) by (pose proof (so_stake _ _ Hstakes); lia).
      rewrite run_lift. cbn [amount]. rewrite Z.max_comm. fold (affordable cfg b). unfold U256_as.
      rewrite (proj2 (Z.ltb_lt _ _)) by apply (so_usize _ _ Hstakes). rewrite run_lift. eexists. split; [done|].
      apply opening_ok; [done| |done]. by rewrite Hp, (scan_permutation _ _).
    + eexists. split; [done|]. split; [by apply no_enforced; [|lia]|].
      eapply no_opening; [|done|exact Hnd|exact Hiff]. unfold slots. fold n_good. lia.
Qed.
End Decide.

Lemma own_destinations entries d (me : Address) : channels_wf entries d → NoDup (destination <$> own_open me entries).
Proof.
  intros Hwf. unfold own_open. pose proof (cw_parties _ _ Hwf) as Hnd. clear Hwf.
  induction entries as [|e l IH]; [constructor|]. apply NoDup_cons in Hnd as [Hx Hnd]. specialize (IH Hnd).
  rewrite filter_cons. case_decide as Hs; [|done]. rewrite filter_cons. case_decide as Ho; [|done]. cbn. constructor; [|done].
  intros (e' & Hd & [_ [Hs' Hin]%list_elem_of_filter]%list_elem_of_filter)%list_elem_of_fmap.
  apply Hx. apply list_elem_of_fmap. exists e'. by rewrite Hs, Hs', Hd.
Qed.

(** C17. The decision of the promiscuous strategy, exactly.  Over a database that
    holds [entries], with peers that are counted in [stats] and a Safe that
    holds [balance], the tick closes its open channels to unknown peers and to
    those strictly below the closing quality after enough pings, and, where the
    limit is enforced, the worst of the others above the limit (so that some are
    closed also at a closing quality of zero); it opens channels to the best
    known peers at or above the opening quality to whom there is none, as many
    as the limit leaves room for and the balance above the minimum can pay.  At
    the thresholds and at zero this is what the code does and not what its
    comments say. *)
Theorem tick_decision_exact (cfg : PromiscuousStrategyConfig) (s s1 : StrategyState) (entries : list ChannelEntry)
    (stats : NetworkStats) (balance : HoprBalance) :
  let db := queue_db (st_queue s) in
  channels_wf entries (index_db db) → array_wf 20 (me_onchain db) → get_network_stats cfg s = (s1, Ok stats) →
  (get_safe_hopr_balance db).2 = Ok balance → no_nan stats → stakes_ok cfg balance →
  ∃ opened dec, opened ≡ₚ own_open (me_onchain db) entries ∧ collect_tick_decision cfg s = (s1, Ok dec) ∧
    decision_ok cfg opened stats balance dec.
Proof.
  intros db Hwf Hme Hstats Hbal Hnan Hstakes. destruct (outgoing_run entries db Hwf Hme) as (outgoing & Hout & Hp).
  apply store_run_Ok in Hout. fold db in Hout. unfold db in Hout at 1. rewrite set_same in Hout.
  assert (looks s s1) as Hl by (pose proof (looks_stats s cfg s ltac:(done)) as [H' _]; by rewrite Hstats in H').
  pose proof (store_run_Ok _ _ _ _ (balance_again _ _ _ (lk_reads _ _ Hl) Hbal)) as Hbal1. rewrite set_same in Hbal1.
  assert (filter (λ c, ChannelStatus_eqb (status c) Open = true) outgoing ≡ₚ own_open (me_onchain db) entries) as Hown
    by (unfold own_open; by rewrite Hp).
  edestruct decision_run as (dec & Hrun & Hok); [|exact Hnan|exact Hstakes|exact Hout|done|exact Hstats|exact Hbal1|].
  - rewrite Hown. by eapply own_destinations.
  - by eexists _, dec.
Qed.

(** ** What a tick asks of the chain

    [quiet]: a request that sends nothing; [asks a]: one that sends at most [a]. *)
Definition quiet {A} (m : SM QueueState ChainActionsError A) : Prop :=
  ∀ q q' o, m q = (q', o) → reads (queue_db q) (queue_db q') ∧ sent q' = sent q.
Definition asks {A} (a : Action) (m : SM QueueState ChainActionsError A) : Prop :=
  ∀ q q' o, m q = (q', o) → reads (queue_db q) (queue_db q') ∧ (sent q' = sent q ∨ sent q' = sent q ++ [a]).

Lemma reads_refl db : reads db db.
Proof. by split. Qed.
Lemma reads_trans db1 db2 db3 : reads db1 db2 → reads db2 db3 → reads db1 db3.
Proof. intros [] []. split; congruence. Qed.

Lemma quiet_ret {A} (x : A) : quiet (mret x).
Proof. intros q q' o [= <- _]. by split. Qed.
Lemma quiet_require b e : quiet (require b e).
Proof. unfold require. destruct b; [apply quiet_ret|]. intros q q' o [= <- _]. by split. Qed.
Lemma quiet_store {A} wrap (m : SM HoprDb DbSqlError A) :
  (∀ db db' o, m db = (db', o) → reads db db') → quiet (on_db_with wrap m).
Proof.
  intros Hm q q' o. unfold on_db_with. destruct (m (queue_db q)) as [db' r] eqn:Hr. intros [= <- _].
  split; [by eapply Hm|done].
Qed.
Lemma quiet_fetch {A} wrap (m : SM HoprDb DbSqlError A) : fetch_only m → quiet (on_db_with wrap m).
Proof. intros Hm. apply quiet_store. intros db db' o. by apply fetch_only_reads. Qed.
Lemma quiet_self : quiet self_address.
Proof. intros q q' o. unfold self_address. rewrite run_get. intros [= <- _]. by split. Qed.

Lemma quiet_bind {A B} (m : SM QueueState ChainActionsError A) (k : A → SM QueueState ChainActionsError B) :
  quiet m → (∀ x, quiet (k x)) → quiet (m ≫= k).
Proof.
  intros Hm Hk q q' o. unfold mbind, SM_bind. destruct (m q) as [q1 [x| |]] eqn:Hr; destruct (Hm _ _ _ Hr) as [Hd Hs];
    [|by intros [= <- _]..]. intros Hrun. destruct (Hk _ _ _ _ Hrun) as [Hd' Hs']. split; [by eapply reads_trans|congruence].
Qed.
Lemma asks_bind {A B} a (m : SM QueueState ChainActionsError A) (k : A → SM QueueState ChainActionsError B) :
  quiet m → (∀ x, asks a (k x)) → asks a (m ≫= k).
Proof.
  intros Hm Hk q q' o. unfold mbind, SM_bind. destruct (m q) as [q1 [x| |]] eqn:Hr; destruct (Hm _ _ _ Hr) as [Hd Hs].
  - intros Hrun. destruct (Hk _ _ _ _ Hrun) as [Hd' Hs']. split; [by eapply reads_trans|]. by rewrite <-Hs.
  - intros [= <- _]. split; [done|by left].
  - intros [= <- _]. split; [done|by left].
Qed.
Lemma asks_quiet {A} a (m : SM QueueState ChainActionsError A) : quiet m → asks a m.
Proof. intros Hm q q' o Hr. destruct (Hm _ _ _ Hr). split; [done|by left]. Qed.
Lemma asks_send a : asks a (send a).
Proof.
  intros q q' o. unfold send. destruct (queue_open q); intros [= <- _]; (split; [done|]); [by right|by left].
Qed.

Lemma quiet_funds amount : quiet (enough_funds amount).
Proof.
  unfold enough_funds. apply quiet_bind; [apply quiet_fetch, fetch_only_tx; stay_still|intros allowance].
  apply quiet_bind; [apply quiet_require|intros _]. apply quiet_bind; [apply quiet_fetch, safe_balance_only|intros b].
  apply quiet_require.
Qed.

Lemma quiet_channel (src dst : Address) : quiet (on_index (get_channel_by_parties src dst false)).
Proof. apply quiet_store. intros db db' o. apply get_channel_reads. Qed.

Lemma open_channel_asks (dst : Address) (stake : HoprBalance) : asks (OpenChannel dst stake) (open_channel dst stake).
Proof.
  unfold open_channel. apply asks_bind; [apply quiet_self|intros me]. do 2 (apply asks_bind; [apply quiet_require|intros _]).
  apply asks_bind; [apply quiet_funds|intros _]. apply asks_bind; [apply quiet_require|intros _].
  apply asks_bind; [apply quiet_store; intros db db' o; apply get_indexer_data_reads|intros data]. apply asks_bind.
  { destruct (nr_enabled data); [|apply quiet_ret]. apply quiet_bind; [|intros allowed; apply quiet_require].
    apply quiet_fetch, fetch_only_tx. stay_still. }
  intros _. apply asks_bind; [apply quiet_channel|intros channel]. apply asks_bind; [|intros _; apply asks_send].
  destruct channel; [apply quiet_require|apply quiet_ret].
Qed.

Lemma close_channel_asks entries c now later randoms q q' o :
  channels_wf entries (index_db (queue_db q)) → c ∈ entries → source c = me_onchain (queue_db q) →
  close_channel (destination c) Outgoing false now later randoms q = (q', o) →
  reads (queue_db q) (queue_db q') ∧ (sent q' = sent q ∨ sent q' = sent q ++ [CloseChannel c Outgoing]).
Proof.
  intros Hwf Hc Hs. pose proof (entries_wf _ _ _ Hwf Hc) as [Hws Hwd _ _ _ _]. rewrite Hs in Hws.
  assert (on_index (get_channel_by_parties (me_onchain (queue_db q)) (destination c) false) q = (q, Ok (Some c))) as Hget.
  { unfold on_index, on_db_with. unfold get_channel_by_parties. rewrite (fetch_channel_ok entries) by done.
    rewrite (proj2 (by_parties_iff _ _ _ _ c Hwf)) by done. by destruct q. }
  unfold close_channel, self_address. rewrite run_bind, run_get, run_ret, (run_Ok _ _ _ _ _ Hget).
  assert (asks (CloseChannel c Outgoing)
    match status c with
    | Closed => throw ChannelAlreadyClosed
    | PendingToClose _ =>
        match remaining_closure_time c now with
        | Some 0 => send (CloseChannel c Outgoing)
        | _ => match remaining_closure_time c later with
               | Some remaining => throw (ClosureTimeHasNotElapsed (as_secs remaining))
               | None => lift Panic
               end
        end
    | Open => mret tt;; send (CloseChannel c Outgoing)
    end) as Hasks; [|exact (Hasks q q' o)].
  assert (asks (CloseChannel c Outgoing)
    (match remaining_closure_time c later with
     | Some remaining => throw (ClosureTimeHasNotElapsed (as_secs remaining))
     | None => lift Panic
     end : SM QueueState ChainActionsError nat)) as Hlate.
  { apply asks_quiet. destruct (remaining_closure_time c later); intros ? ? ? [= <- _]; by split. }
  destruct (status c); [apply asks_quiet; intros ? ? ? [= <- _]; by split| |].
  - apply asks_bind; [apply quiet_ret|intros _; apply asks_send].
  - destruct (remaining_closure_time c now) as [[]|]; [apply asks_send|done..].
Qed.

(** A stretch of a tick that reads the databases and sends [l]. *)
Record sends (l : list Action) (s s' : StrategyState) : Prop := {
  sd_reads : reads (queue_db (st_queue s)) (queue_db (st_queue s'));
  sd_sent : sent (st_queue s') = sent (st_queue s) ++ l
}.

Lemma sends_nil s s' : looks s s' → sends [] s s'.
Proof. intros [Hr Hs _ _ _ _]. split; [done|by rewrite app_nil_r]. Qed.
Lemma sends_app l l' s s1 s' : sends l s s1 → sends l' s1 s' → sends (l ++ l') s s'.
Proof. intros [Hr Hs] [Hr' Hs']. split; [by eapply reads_trans|by rewrite Hs', Hs, app_assoc]. Qed.

Definition requests (P : Action → Prop) (s s' : StrategyState) : Prop := ∃ l, sends l s s' ∧ Forall P l.

Lemma requests_trans P s s1 s' : requests P s s1 → requests P s1 s' → requests P s s'.
Proof. intros (l & Hl & Hp) (l' & Hl' & Hp'). exists (l ++ l'). split; [by eapply sends_app|by apply Forall_app]. Qed.

Lemma attempt_state {A} (m : SM StrategyState StrategyError A) s : (attempt m s).1 = (m s).1.
Proof using Type. unfold attempt. by destruct (m s) as [s' []]. Qed.

Lemma on_actions_state {A} (m : SM QueueState ChainActionsError A) s : (on_actions m s).1 = set_st_queue (m (st_queue s)).1 s.
Proof. unfold on_actions. by destruct (m (st_queue s)). Qed.

Lemma asked (P : Action → Prop) a q q' s s' :
  st_queue s = q → st_queue s' = q' → P a → reads (queue_db q) (queue_db q') →
  (sent q' = sent q ∨ sent q' = sent q ++ [a]) → requests P s s'.
Proof.
  intros <- <- Ha Hr [Hs|Hs]; [exists []|exists [a]]; (split; [split; [done|by rewrite Hs, ?app_nil_r]|by repeat constructor]).
Qed.

Lemma close_outgoing_requests entries c s (P : Action → Prop) :
  channels_wf entries (index_db (queue_db (st_queue s))) → c ∈ entries → source c = me_onchain (queue_db (st_queue s)) →
  P (CloseChannel c Outgoing) → requests P s (attempt (close_outgoing env (destination c)) s).1.
Proof.
  intros Hwf Hc Hs HP. rewrite attempt_state. unfold close_outgoing.
  rewrite (run_Ok (read (clock env)) _ s _ _ eq_refl), (run_Ok (read (clock env)) _ _ _ _ eq_refl).
  rewrite on_actions_state. cbn [st_queue set_st_queue].
  destruct (close_channel _ _ _ _ _ _ (st_queue s)) as [q' o] eqn:Hrun.
  destruct (close_channel_asks entries _ _ _ _ _ _ _ Hwf Hc Hs Hrun) as [Hr Hl].
  by eapply asked.
Qed.

Lemma requests_looks P s s' : looks s s' → requests P s s'.
Proof. intros Hl. exists []. split; [by apply sends_nil|constructor]. Qed.

Lemma requests_reads P s s' : requests P s s' → reads (queue_db (st_queue s)) (queue_db (st_queue s')).
Proof. by intros (l & [Hr _] & _). Qed.

Lemma wf_reads entries db db' : reads db db' → channels_wf entries (index_db db) → channels_wf entries (index_db db').
Proof. intros Hr. by rewrite (rd_index _ _ Hr). Qed.

Lemma close_all_requests entries channels s (P : Action → Prop) :
  channels_wf entries (index_db (queue_db (st_queue s))) →
  (∀ c, c ∈ channels → c ∈ entries ∧ source c = me_onchain (queue_db (st_queue s)) ∧ P (CloseChannel c Outgoing)) →
  requests P s (close_all env channels s).1.
Proof.
  revert s. induction channels as [|c channels IH]; intros s Hwf Hc; [apply requests_looks; reflexivity|].
  cbn [close_all]. unfold mbind, SM_bind. destruct (Hc c ltac:(by left)) as (Hin & Hs & HP).
  pose proof (close_outgoing_requests entries c s P Hwf Hin Hs HP) as Hr.
  destruct (attempt (close_outgoing env (destination c)) s) as [s1 [b| |]]; cbn [fst] in *; [|done..].
  eapply requests_trans; [exact Hr|]. apply requests_reads in Hr. apply IH; [by eapply wf_reads|].
  intros c' Hc'. rewrite (rd_me _ _ Hr). apply Hc. by right.
Qed.

Lemma open_all_requests openings s :
  ∃ l, sends l s (open_all openings s).1 ∧ (length l ≤ length openings)%nat ∧
    ∀ a, a ∈ l → ∃ o, o ∈ openings ∧ a = OpenChannel o.1 o.2.
Proof.
  revert s. induction openings as [|o openings IH]; intros s.
  { exists []. split; [by apply sends_nil|]. split; [done|]. by intros a ?%elem_of_nil. }
  cbn [open_all]. unfold mbind, SM_bind. pose proof (attempt_state (on_actions (open_channel o.1 o.2)) s) as Hst.
  rewrite on_actions_state in Hst. destruct (open_channel o.1 o.2 (st_queue s)) as [q' r] eqn:Hrun.
  destruct (open_channel_asks _ _ _ _ _ Hrun) as [Hr Hl].
  assert (∃ l, sends l s (attempt (on_actions (open_channel o.1 o.2)) s).1 ∧ (length l ≤ 1)%nat ∧ ∀ a, a ∈ l → a = OpenChannel o.1 o.2)
    as (l & Hsl & Hll & Hal).
  { rewrite Hst. destruct Hl as [Hl|Hl]; [exists []|exists [OpenChannel o.1 o.2]]; (split; [split; cbn [fst st_queue set_st_queue]; [done|by rewrite Hl, ?app_nil_r]|]);
      (split; [cbn; lia|]); [by intros a ?%elem_of_nil|by intros a ->%list_elem_of_singleton]. }
  destruct (attempt _ s) as [s1 [b| |]]; cbn [fst] in *.
  - destruct (IH s1) as (l' & Hs' & Hl' & Ha'). exists (l ++ l'). split; [by eapply sends_app|].
    split; [rewrite length_app; cbn; lia|]. intros a [Ha|Ha]%elem_of_app; [exists o; by rewrite elem_of_cons; eauto|].
    destruct (Ha' a Ha) as (o' & Ho & ->). exists o'. by rewrite elem_of_cons; eauto.
  - exists l. split; [done|]. split; [cbn; lia|]. intros a Ha. exists o. by rewrite elem_of_cons; eauto.
  - exists l. split; [done|]. split; [cbn; lia|]. intros a Ha. exists o. by rewrite elem_of_cons; eauto.
Qed.

(** Whatever the decision is, it closes open channels, and opens for what the
    balance above the minimum can pay. *)
Record decision_fits (cfg : PromiscuousStrategyConfig) (me : Address) (entries : list ChannelEntry) (b : HoprBalance)
    (dec : ChannelDecision) : Prop := {
  df_close : ∀ c, c ∈ to_close dec → c ∈ own_open me entries;
  df_stake : ∀ o, o ∈ to_open dec → o.2 = new_channel_stake cfg;
  df_budget : 0 ≤ amount (new_channel_stake cfg) →
    Z.of_nat (length (to_open dec)) * amount (new_channel_stake cfg) ≤ Z.max 0 (amount b - amount (minimum_safe_balance cfg))
}.

Lemma closing_opened cfg opened stats c :
  c ∈ filter (λ c, peers_with_quality stats !! destination c = None) opened ++
      omap (closing_of cfg opened) (scan (map_to_list (peers_with_quality stats))) → c ∈ opened.
Proof.
  intros [[_ Hc]%list_elem_of_filter|([a v] & _ & (c' & Hc' & Hl)%bind_Some)%list_elem_of_omap]%elem_of_app; [done|].
  cbn [fst snd] in *. destruct (low cfg v); [|done]. injection Hl as ->. unfold channel_with in Hc'.
  destruct (list_find _ opened) as [[i c']|] eqn:Hf; [|done]. injection Hc' as ->.
  apply list_find_Some in Hf as (Hi & _). by eapply list_elem_of_lookup_2.
Qed.

Lemma sort_perm {E A} (q : A → f64) best (l l' : list A) : sort_by_quality (E:=E) q best l = Ok l' → l' ≡ₚ l.
Proof.
  unfold sort_by_quality. destruct (_ && _); [done|]. intros [= <-]. by rewrite merge_sort_Permutation, (scan_permutation _ _).
Qed.

Lemma pays n (a m k : Z) : 0 ≤ k → k ≠ 0 → (n ≤ Z.to_nat (Z.max (a - m) 0 `div` k))%nat → Z.of_nat n * k ≤ Z.max 0 (a - m).
Proof.
  intros Hk Hk0 Hn. pose proof (Z.mul_div_le (Z.max (a - m) 0) k ltac:(lia)).
  assert (0 ≤ Z.max (a - m) 0 `div` k) by (apply Z.div_pos; lia). nia.
Qed.

Lemma looks_lift {A} s0 (m : outcome StrategyError A) : watches s0 (lift m).
Proof. by apply keeps_lift. Qed.

Lemma looks_decision s0 cfg : watches s0 (collect_tick_decision cfg).
Proof.
  unfold collect_tick_decision. apply keeps_bind; [apply looks_outgoing|intros outgoing]. cbn zeta.
  apply keeps_bind; [apply looks_stats|intros stats]. rewrite review_eq.
  destruct (_ && _); [apply keeps_bind; [apply looks_lift|intros l; apply keeps_ret]|].
  destruct (_ <? _); [|apply keeps_ret]. apply keeps_bind; [apply looks_lift|intros l].
  apply keeps_bind; [apply looks_store; intros db db' o; apply fetch_only_reads, safe_balance_only|intros b].
  do 2 (apply keeps_bind; [apply looks_lift|intros ?]). apply keeps_ret.
Qed.

Lemma looks_run {A} (m : SM StrategyState StrategyError A) s s' o : watches s m → m s = (s', o) → looks s s'.
Proof. intros Hw Hr. destruct (Hw s ltac:(reflexivity)) as [H' _]. by rewrite Hr in H'. Qed.

Lemma decision_fits_run cfg s s' dec entries b :
  channels_wf entries (index_db (queue_db (st_queue s))) → array_wf 20 (me_onchain (queue_db (st_queue s))) →
  collect_tick_decision cfg s = (s', Ok dec) → (get_safe_hopr_balance (queue_db (st_queue s))).2 = Ok b →
  decision_fits cfg (me_onchain (queue_db (st_queue s))) entries b dec.
Proof.
  intros Hwf Hme Hrun Hb. destruct (outgoing_run entries _ Hwf Hme) as (outgoing & Hout & Hp).
  apply store_run_Ok in Hout. rewrite set_same in Hout. unfold collect_tick_decision in Hrun.
  rewrite (run_Ok _ _ _ _ _ Hout) in Hrun. cbn zeta in Hrun.
  set (opened := filter (λ c, ChannelStatus_eqb (status c) Open = true) outgoing) in Hrun.
  assert (∀ c, c ∈ opened → c ∈ own_open (me_onchain (queue_db (st_queue s))) entries) as Hown.
  { intros c. unfold opened, own_open. rewrite !list_elem_of_filter, Hp, list_elem_of_filter. tauto. }
  apply run_Ok_inv in Hrun as (s1 & stats & Hstats & Hrun). rewrite review_eq in Hrun.
  pose proof (closing_opened cfg opened stats) as Hcl. set (closing := filter _ opened ++ _) in Hrun, Hcl.
  destruct (_ && _) in Hrun.
  - apply run_Ok_inv in Hrun as (s2 & l & [= <- Hl] & [= <- <-]). apply sort_perm in Hl. split.
    + intros c [Hc|Hc]%elem_of_app; apply Hown; [by apply Hcl|]. apply elem_of_take in Hc as (j & Hj & _).
      apply list_elem_of_lookup_2 in Hj. rewrite Hl in Hj. by apply list_elem_of_filter in Hj as [_ ?].
    + by intros o ?%elem_of_nil.
    + cbn. lia.
  - destruct (_ <? _) in Hrun.
    + apply run_Ok_inv in Hrun as (s2 & l & [= <- Hl] & Hrun).
      pose proof (looks_run _ _ _ _ (looks_stats s cfg) Hstats) as Hlk.
      pose proof (store_run_Ok _ _ _ _ (balance_again _ _ _ (lk_reads _ _ Hlk) Hb)) as Hb1. rewrite (run_Ok _ _ _ _ _ Hb1) in Hrun.
      apply run_Ok_inv in Hrun as (s2 & n & [= <- Hn] & Hrun). apply run_Ok_inv in Hrun as (s2 & n' & [= <- Hn'] & [= <- <-]).
      split; cbn [to_close to_open]; [intros c Hc; by apply Hown, Hcl|by intros o (x & -> & _)%list_elem_of_fmap|].
      intros Hk. unfold U256_div in Hn. destruct (Z.eqb_spec (amount (new_channel_stake cfg)) 0) as [|Hk0]; [done|]. injection Hn as <-.
      unfold U256_as in Hn'. destruct (_ <? _); [|done]. injection Hn' as <-. apply pays; [done..|].
      rewrite length_fmap, length_take. unfold Balance_sub, U256_saturating_sub. cbn [amount]. lia.
    + injection Hrun as <- <-. split; [intros c Hc; by apply Hown, Hcl|by intros o ?%elem_of_nil|cbn; lia].
Qed.

Lemma status_open st : ChannelStatus_eqb st Open = true → st = Open.
Proof. by destruct st. Qed.

(** C18. A tick of the promiscuous strategy asks only for what it may.  Whatever
    happens in a tick, over a database that holds [entries], the actions it
    sends are closures of open outgoing channels of the node, each of a channel
    it holds, followed by openings of channels with the configured stake, and
    these together cost no more than what the balance of the Safe exceeds the
    configured minimum by. *)
Theorem tick_within_budget (cfg : PromiscuousStrategyConfig) (s s' : StrategyState) (o : outcome StrategyError unit)
    (entries : list ChannelEntry) (balance : HoprBalance) :
  let db := queue_db (st_queue s) in
  channels_wf entries (index_db db) → array_wf 20 (me_onchain db) → 0 ≤ amount (new_channel_stake cfg) →
  (get_safe_hopr_balance db).2 = Ok balance → promiscuous_on_tick env cfg s = (s', o) →
  ∃ closes opens, sent (st_queue s') = sent (st_queue s) ++ closes ++ opens ∧
    Forall (λ a, ∃ c, c ∈ entries ∧ source c = me_onchain db ∧ status c = Open ∧ a = CloseChannel c Outgoing) closes ∧
    Forall (λ a, ∃ dst, a = OpenChannel dst (new_channel_stake cfg)) opens ∧
    Z.of_nat (length opens) * amount (new_channel_stake cfg) ≤ Z.max 0 (amount balance - amount (minimum_safe_balance cfg)).
Proof.
  intros db Hwf Hme Hk Hb Hrun. unfold promiscuous_on_tick in Hrun.
  pose proof (store_run_Ok _ _ _ _ (balance_again db db balance (reads_refl db) Hb)) as Hb1. unfold db in Hb1 at 1.
  rewrite (run_Ok _ _ _ _ _ Hb1), set_same in Hrun.
  assert (∀ s1, looks s s1 → sent (st_queue s1) = sent (st_queue s) ++ [] ++ []) as Hnone
    by (intros s1 Hl; by rewrite (lk_sent _ _ Hl), app_nil_r).
  destruct (Balance_leb _ _); [injection Hrun as <- _; exists [], []; split_and!; [by apply Hnone|constructor..|cbn; lia]|].
  destruct (looks_read s (elapsed env) s ltac:(reflexivity)) as [Hl1 _]. unfold mbind at 1, SM_bind at 1 in Hrun.
  unfold read in Hrun, Hl1. cbn [fst] in Hl1. set (s1 := mkStrategies _ _ _ _ _) in Hrun, Hl1.
  destruct (_ <? _); [injection Hrun as <- _; exists [], []; split_and!; [by apply Hnone|constructor..|cbn; lia]|].
  destruct (collect_tick_decision cfg s1) as [s2 r] eqn:Hdec.
  pose proof (looks_run _ _ _ _ (looks_decision s1 cfg) Hdec) as Hl2. assert (looks s s2) as Hl by (by etrans).
  unfold mbind, SM_bind in Hrun. rewrite Hdec in Hrun.
  destruct r as [dec| |]; [|injection Hrun as <- _; exists [], []; split_and!; [by apply Hnone|constructor..|cbn; lia]..].
  pose proof (lk_reads _ _ Hl1) as Hr1. pose proof (lk_reads _ _ Hl) as Hr.
  assert (decision_fits cfg (me_onchain db) entries balance dec) as Hfits.
  { unfold db. rewrite <-(rd_me _ _ Hr1). eapply decision_fits_run; [by eapply wf_reads|by rewrite (rd_me _ _ Hr1)|done|].
    by rewrite (balance_again _ _ _ Hr1 Hb). }
  set (P a := ∃ c, c ∈ entries ∧ source c = me_onchain db ∧ status c = Open ∧ a = CloseChannel c Outgoing).
  destruct (close_all_requests entries (to_close dec) s2 P) as (closes & [Hrc Hsc] & HP).
  { by eapply wf_reads. }
  { intros c Hc. apply (df_close _ _ _ _ _ Hfits) in Hc. unfold own_open in Hc.
    apply list_elem_of_filter in Hc as [Ho Hc]. apply list_elem_of_filter in Hc as [Hs Hc].
    rewrite (rd_me _ _ Hr). split; [done|]. split; [done|]. exists c. by rewrite (status_open _ Ho). }
  rewrite (lk_sent _ _ Hl) in Hsc. destruct (close_all env (to_close dec) s2) as [s3 [[]| |]]; cbn [fst] in *.
  - destruct (open_all_requests (to_open dec) s3) as (opens & [_ Hso] & Hlen & Ha). rewrite Hrun in Hso. cbn [fst] in Hso.
    exists closes, opens. split_and!; [by rewrite Hso, Hsc, app_assoc|done| |].
    + apply Forall_forall. intros a (x & Hx & ->)%Ha. exists x.1. by rewrite (df_stake _ _ _ _ _ Hfits x Hx).
    + pose proof (df_budget _ _ _ _ _ Hfits Hk). nia.
  - injection Hrun as <- _. exists closes, []. split_and!; [by rewrite app_nil_r|done|constructor|cbn; lia].
  - injection Hrun as <- _. exists closes, []. split_and!; [by rewrite app_nil_r|done|constructor|cbn; lia].
Qed.
End Spec.
