(* ===== verification/StrategyWorld.v ===== *)
(** * Aggregations in parallel

    The steps of calls that start aggregations, the ends of aggregations and
    whatever else happens to the databases and the queue, in any order.  The
    table of a strategy is checked and written under different acquisitions of
    its lock: what is proved holds as long as no two calls are between the check
    and the insertion for the same channel. *)
From stdpp Require Import gmap strings relations.
From S2P Require Import Prelude Primitives Crypto Channels Tickets ChannelGraph SharedKeys TicketStore Protocol NodeDb.
From S2P Require Import Aggregation Indexer Actions Peers Strategies StrategiesSpec.

Section World.
Context `{!Secp256k1} `{!Curve25519} `{!Ed25519} `{!HexCodec} `{!ScanOrder} `{!Multiaddrs} `{!MultiaddrProtocols}.
Context `{!FloatCmp} `{!PeerIds} `{!MultiaddrSet} `{!SmaCodec} `{!FloatPowf} `{!SemVer}.
Context (env : Environment).
#[local] Set Default Proof Using "Type".

(** ** Who leaves the tables alone

    Everything but the aggregating strategies. *)
Definition tables_are (tables : gmap nat (gmap Hash (bool * nat))) (spawned : list AggTask) (s : StrategyState) : Prop :=
  agg_tasks s = tables ∧ agg_spawned s = spawned.

Section Untouched.
Context (tables : gmap nat (gmap Hash (bool * nat))) (spawned : list AggTask).
Abbreviation orderly := (keeps false (tables_are tables spawned)).

Lemma orderly_same {A} (m : SM StrategyState StrategyError A) :
  (∀ s, agg_tasks (m s).1 = agg_tasks s ∧ agg_spawned (m s).1 = agg_spawned s) → orderly m.
Proof.
  intros Hm s [Hs1 Hs2]. split; [|done]. destruct (Hm s) as [Ht Hsp]. unfold tables_are. by rewrite Ht, Hsp.
Qed.

Lemma orderly_store {A} (m : SM HoprDb DbSqlError A) : orderly (on_store m).
Proof. apply orderly_same. intros s. unfold on_store. by destruct (m _). Qed.
Lemma orderly_actions {A} (m : SM QueueState ChainActionsError A) : orderly (on_actions m).
Proof. apply orderly_same. intros s. unfold on_actions. by destruct (m _). Qed.
Lemma orderly_peers {A} (m : SM PeersDb DbSqlError A) : orderly (on_peer_table m).
Proof. apply orderly_same. intros s. unfold on_peer_table. by destruct (m _). Qed.
Lemma orderly_read {A} (f : nat → A) : orderly (read f).
Proof. by apply orderly_same. Qed.
Lemma orderly_lift {A} (m : outcome StrategyError A) : orderly (lift m).
Proof. by apply keeps_lift. Qed.
Lemma orderly_attempt {A} (m : SM StrategyState StrategyError A) : orderly m → orderly (attempt m).
Proof. intros Hm s Hs. split; [|done]. rewrite attempt_state. by apply Hm. Qed.

Ltac orderly := repeat first
  [ apply keeps_ret | apply keeps_throw | apply orderly_store | apply orderly_actions | apply orderly_peers
  | apply orderly_read | apply orderly_lift | apply orderly_attempt
  | apply keeps_bind; [|intros ?] | case_match ].

Lemma orderly_entry cfg p : orderly (peer_entry cfg p).
Proof.
  intros s Hs. split; [|done]. unfold peer_entry. destruct (peer_version p ≫= parse_version) as [[[major minor] patch]|]; [|done].
  destruct (req_matches _ _); [|done]. destruct (orderly_store (resolve_chain_key (ps_id p).1) s Hs) as [H' _].
  by destruct (on_store _ s) as [s' [[a|]| |]].
Qed.

Lemma orderly_entries cfg peers acc : orderly (collect_entries cfg peers acc).
Proof.
  revert acc. induction peers as [|p peers IH]; intros acc; cbn [collect_entries]; [apply keeps_ret|].
  apply keeps_bind; [apply orderly_entry|]. intros o. apply IH.
Qed.

Lemma orderly_close channels : orderly (close_all env channels).
Proof. induction channels as [|c channels IH]; cbn [close_all]; unfold close_outgoing; orderly. apply IH. Qed.
Lemma orderly_open openings : orderly (open_all openings).
Proof. induction openings as [|o openings IH]; cbn [open_all]; orderly. apply IH. Qed.

Lemma orderly_promiscuous cfg : orderly (promiscuous_on_tick env cfg).
Proof.
  unfold promiscuous_on_tick, collect_tick_decision, get_network_stats.
  orderly; [apply orderly_entries|apply orderly_close|apply orderly_open].
Qed.

Lemma orderly_finalizable limit channels : orderly (finalizable env limit channels).
Proof. induction channels as [|c channels IH]; cbn [finalizable]; orderly; apply IH. Qed.
Lemma orderly_finalizer cfg : orderly (finalizer_on_tick env cfg).
Proof. unfold finalizer_on_tick. orderly; [apply orderly_finalizable|apply orderly_close]. Qed.

Lemma orderly_submit acks ok failed : orderly (submit_all env acks ok failed).
Proof.
  revert ok failed. induction acks as [|a acks IH]; intros ok failed; cbn [submit_all]; unfold submit_redemption; orderly; apply IH.
Qed.
Lemma orderly_redeeming cfg channel dir change : orderly (auto_redeeming_on_own_channel_changed env cfg channel dir change).
Proof. unfold auto_redeeming_on_own_channel_changed. orderly. apply orderly_submit. Qed.

Lemma orderly_chain on_fail_continue f strategies :
  Forall (λ st, orderly (f st)) strategies → orderly (run_chain on_fail_continue f strategies).
Proof.
  induction 1 as [|st strategies Hst _ IH]; [apply keeps_ret|]. intros s Hs. split; [|done]. cbn [run_chain].
  destruct (Hst s Hs) as [H' _]. destruct (f st s) as [s' [|e|]]; cbn [fst] in *; [by apply IH| |done].
  destruct on_fail_continue; [by apply IH|done].
Qed.

(** Induction over strategies and the lists in them. *)
Lemma strategy_ind (P : SingularStrategy → Prop) :
  (∀ st, (∀ b l, st ≠ MultiStrategy b l) → P st) → (∀ b l, Forall P l → P (MultiStrategy b l)) → ∀ st, P st.
Proof.
  intros Hone Hmany. fix IH 1. intros [| | | | |b l]; [by apply Hone..|]. apply Hmany. induction l; constructor; [apply IH|done].
Qed.

(** No aggregating strategy among these. *)
Fixpoint aggregates (st : SingularStrategy) : bool :=
  match st with AggregatingStrategy _ _ => true | MultiStrategy _ l => existsb aggregates l | _ => false end.

Lemma chain_of_others (P : SingularStrategy → Prop) l :
  Forall (λ st, aggregates st = false → P st) l → existsb aggregates l = false → Forall P l.
Proof.
  induction 1 as [|st l Hst _ IH]; [by constructor|]. cbn. intros [Ha Hl]%orb_false_iff. constructor; [by apply Hst|by apply IH].
Qed.

Lemma orderly_tick st : aggregates st = false → orderly (on_tick env st).
Proof.
  induction st as [st Hst|b l IH] using strategy_ind; [|intros Ha; by eapply orderly_chain, chain_of_others].
  destruct st; intros Ha; cbn [on_tick];
    [apply orderly_promiscuous|done|apply keeps_ret|apply keeps_ret|apply orderly_finalizer|by destruct (Hst _ _ eq_refl)].
Qed.

Lemma orderly_ticket ack st : orderly (on_acknowledged_winning_ticket env ack st).
Proof.
  induction st as [st Hst|b l IH] using strategy_ind; [|by apply orderly_chain].
  destruct st; cbn [on_acknowledged_winning_ticket]; try apply keeps_ret; [|by destruct (Hst _ _ eq_refl)].
  unfold auto_redeeming_on_acknowledged_winning_ticket, submit_redemption. orderly.
Qed.

Lemma orderly_change channel dir change st : aggregates st = false → orderly (on_own_channel_changed env channel dir change st).
Proof.
  induction st as [st Hst|b l IH] using strategy_ind; [|intros Ha; by eapply orderly_chain, chain_of_others].
  destruct st; intros Ha; cbn [on_own_channel_changed];
    [apply keeps_ret|done|apply orderly_redeeming| |apply keeps_ret|by destruct (Hst _ _ eq_refl)].
  unfold auto_funding_on_own_channel_changed. orderly.
Qed.
End Untouched.

(** ** Calls and their steps

    A tick of an aggregating strategy makes a call per incoming channel, one
    after another, and a channel that starts closing makes one: a call may
    start at any time. *)
Record AggHandler := mkHandler { ah_table : nat; ah_channel : Hash; ah_criteria : AggregationPrerequisites; ah_at : AggCall }.

Record AggWorld := mkAggWorld { aw_state : StrategyState; aw_calls : list AggHandler }.

Definition set_at (c : AggCall) (h : AggHandler) : AggHandler := mkHandler (ah_table h) (ah_channel h) (ah_criteria h) c.

Inductive AggMove :=
| MoveCall (table : nat) (channel_id : Hash) (criteria : AggregationPrerequisites)
| MoveStep (i : nat)
| MoveFinish (n : nat) (panicked : bool)
| MoveOutside (q : QueueState) (d : PeersDb) (readings : nat).

(** A task marks its entry only after it was inserted; it may panic before. *)
Definition inserting (n : nat) (h : AggHandler) : bool := match ah_at h with AggInserting m => (n =? m)%nat | _ => false end.

Definition agg_move (mv : AggMove) (w : AggWorld) : option AggWorld :=
  match mv with
  | MoveCall table channel_id criteria =>
      Some (mkAggWorld (aw_state w) (aw_calls w ++ [mkHandler table channel_id criteria AggChecking]))
  | MoveStep i =>
      h ← aw_calls w !! i;
      '(s, c) ← agg_call_step (ah_table h) (ah_channel h) (ah_criteria h) (ah_at h) (aw_state w);
      Some (mkAggWorld s (<[i := set_at c h]> (aw_calls w)))
  | MoveFinish n panicked =>
      if negb panicked && existsb (inserting n) (aw_calls w) then None
      else s ← finish_aggregation n panicked (aw_state w); Some (mkAggWorld s (aw_calls w))
  | MoveOutside q d r =>
      Some (mkAggWorld (mkStrategies q d (agg_tasks (aw_state w)) (agg_spawned (aw_state w)) r) (aw_calls w))
  end.

(** A call that has seen no running task and has not inserted its own. *)
Definition between (h : AggHandler) : bool :=
  match ah_at h with AggRemoving | AggJoining _ | AggSpawning | AggInserting _ => true | _ => false end.
Definition same_place (h h' : AggHandler) : bool :=
  (ah_table h =? ah_table h')%nat && bool_decide (ah_channel h = ah_channel h').

(** No two calls are between check and insertion for the same channel. *)
Fixpoint apart (hs : list AggHandler) : bool :=
  match hs with
  | [] => true
  | h :: hs => forallb (λ h', negb (between h && between h' && same_place h h')) hs && apart hs
  end.

Fixpoint agg_moves (careful : bool) (mvs : list AggMove) (w : AggWorld) : option AggWorld :=
  match mvs with
  | [] => Some w
  | mv :: mvs => w ← agg_move mv w; if negb careful || apart (aw_calls w) then agg_moves careful mvs w else None
  end.

(** A new state: no tables, no tasks. *)
Definition strategies_new (q : QueueState) (d : PeersDb) : StrategyState := mkStrategies q d ∅ [] 0.
Definition agg_world_new (q : QueueState) (d : PeersDb) : AggWorld := mkAggWorld (strategies_new q d) [].

(** ** The invariant

    A task that is not over is the one its channel's entry names, or is about to
    be; while a call is between check and insertion no entry is of a running
    task. *)
Record agg_inv (w : AggWorld) : Prop := {
  ag_running n t : agg_spawned (aw_state w) !! n = Some t → at_over t = false →
    agg_table (at_table t) (aw_state w) !! at_channel t = Some (false, n) ∨
    ∃ h, h ∈ aw_calls w ∧ ah_at h = AggInserting n ∧ ah_table h = at_table t ∧ ah_channel h = at_channel t;
  ag_between h n : h ∈ aw_calls w → between h = true → agg_table (ah_table h) (aw_state w) !! ah_channel h ≠ Some (false, n);
  ag_inserting h n : h ∈ aw_calls w → ah_at h = AggInserting n →
    ∃ t, agg_spawned (aw_state w) !! n = Some t ∧ at_table t = ah_table h ∧ at_channel t = ah_channel h
}.

Lemma same_place_iff h h' : same_place h h' = true ↔ ah_table h = ah_table h' ∧ ah_channel h = ah_channel h'.
Proof. unfold same_place. by rewrite andb_true_iff, Nat.eqb_eq, bool_decide_eq_true. Qed.

Lemma apart_unique hs i j h h' :
  apart hs = true → hs !! i = Some h → hs !! j = Some h' → between h = true → between h' = true →
  ah_table h = ah_table h' → ah_channel h = ah_channel h' → i = j.
Proof.
  assert (∀ h h' hs, forallb (λ h', negb (between h && between h' && same_place h h')) hs = true → h' ∈ hs →
    between h = true → between h' = true → ah_table h = ah_table h' → ah_channel h = ah_channel h' → False) as Hno.
  { intros g g' l Hall Hin Hb Hb' Ht Hc. rewrite forallb_forall in Hall. apply list_elem_of_In in Hin. specialize (Hall _ Hin).
    by rewrite Hb, Hb', (proj2 (same_place_iff g g') (conj Ht Hc)) in Hall. }
  revert i j. induction hs as [|x hs IH]; intros [|i] [|j] Ha Hi Hj Hb Hb' Ht Hc; try done; cbn in Ha, Hi, Hj; apply andb_prop in Ha as [Hall Ha].
  - injection Hi as ->. apply list_elem_of_lookup_2 in Hj. by destruct (Hno h h' hs).
  - injection Hj as ->. apply list_elem_of_lookup_2 in Hi. by destruct (Hno h' h hs).
  - f_equal. by apply IH.
Qed.

Lemma agg_table_insert table t i s :
  agg_table i (set_agg_table table t s) = if decide (i = table) then t else agg_table i s.
Proof. unfold agg_table, set_agg_table. cbn. case_decide; [subst; by rewrite lookup_insert_eq|by rewrite lookup_insert_ne]. Qed.

Lemma handler_of_set (hs : list AggHandler) (i : nat) (h h' x : AggHandler) :
  hs !! i = Some h → x ∈ <[i := h']> hs → x = h' ∨ ∃ j, j ≠ i ∧ hs !! j = Some x.
Proof.
  intros Hi [j Hj]%list_elem_of_lookup. apply list_lookup_insert_Some in Hj as [(_ & <- & _)|[Hne Hj]]; [by left|right].
  exists j. by split.
Qed.

Lemma handler_kept (hs : list AggHandler) (i j : nat) (h' x : AggHandler) : j ≠ i → hs !! j = Some x → x ∈ <[i := h']> hs.
Proof. intros Hne Hj. eapply list_elem_of_lookup_2. by rewrite list_lookup_insert_ne by done. Qed.

(** A step of a call. *)
Lemma agg_step_inv w i h s c :
  agg_inv w → apart (aw_calls w) = true → apart (<[i := set_at c h]> (aw_calls w)) = true → aw_calls w !! i = Some h →
  agg_call_step (ah_table h) (ah_channel h) (ah_criteria h) (ah_at h) (aw_state w) = Some (s, c) →
  agg_inv (mkAggWorld s (<[i := set_at c h]> (aw_calls w))).
Proof.
  intros [Hrun Hbet Hins] Hap Hap' Hi Hstep. set (w' := mkAggWorld s _). pose proof (list_elem_of_lookup_2 _ _ _ Hi) as Hin.
  assert (∀ g, g ∈ aw_calls w → ah_at g ≠ ah_at h → g ∈ aw_calls w') as Hother.
  { intros g [j Hj]%list_elem_of_lookup Hne. apply (handler_kept _ i j); [|done]. intros ->. by rewrite Hi in Hj; injection Hj as ->. }
  assert (set_at c h ∈ aw_calls w') as Hnew.
  { eapply list_elem_of_lookup_2, list_lookup_insert_eq. by eapply lookup_lt_Some. }
  assert (∀ g, g ∈ aw_calls w' → g = set_at c h ∨ g ∈ aw_calls w ∧ (between h = true → between g = true →
    ah_table g = ah_table h → ah_channel g = ah_channel h → False)) as Hold.
  { intros g [->|(j & Hne & Hj)]%(handler_of_set _ _ h); [by left| |done]. right. split; [by eapply list_elem_of_lookup_2|].
    intros Hb Hb' Ht Hc. apply Hne. by apply (apart_unique (aw_calls w) j i g h). }
  assert (∀ g n, g ∈ aw_calls w → ah_at g = AggInserting n → between g = true) as Hbi by (intros g n _ Hg; unfold between; by rewrite Hg).
  destruct (ah_at h) as [| |m| |m|] eqn:Hat; cbn [agg_call_step] in Hstep; try done.
  - (* the entry is read *)
    injection Hstep as <- <-. split; cbn [aw_state w'].
    + intros n t Ht Ho. destruct (Hrun n t Ht Ho) as [?|(g & Hg & Hga & ?)]; [by left|right]. exists g.
      split; [apply Hother; [done|by rewrite Hga]|done].
    + intros g n [->|[Hg _]]%Hold Hb; [|by apply Hbet]. cbn [set_at ah_table ah_channel]. intros He. unfold between in Hb.
      cbn [set_at ah_at] in Hb. by rewrite He in Hb.
    + intros g n [->|[Hg _]]%Hold Hga; [|by apply Hins]. cbn in Hga. by destruct (agg_table _ _ !! _) as [[[] ?]|].
  - (* the entry is removed *)
    assert (between h = true) as Hb by (unfold between; by rewrite Hat).
    assert (∀ g, g ∈ aw_calls w' → ∀ n, ah_at g = AggInserting n → g ∈ aw_calls w) as Hga.
    { intros g [->|[Hg _]]%Hold n; [|done]. cbn. by destruct (agg_table _ _ !! _) as [[]|]; injection Hstep as _ <-. }
    destruct (agg_table (ah_table h) (aw_state w) !! ah_channel h) as [[b n0]|] eqn:He; injection Hstep as <- <-; split; cbn [aw_state w'].
    + intros n t Ht Ho. destruct (Hrun n t Ht Ho) as [He'|(g & Hg & Hg' & ?)].
      * left. rewrite agg_table_insert. case_decide as Hd; [|done]. rewrite Hd in He'. rewrite lookup_delete_ne; [done|].
        intros Heq. rewrite <-Heq in He'. by apply (Hbet h n).
      * right. exists g. split; [apply Hother; [done|by rewrite Hg']|done].
    + intros g n Hg Hgb. rewrite agg_table_insert. case_decide as Hd.
      * intros [_ He']%lookup_delete_Some. destruct (Hold g Hg) as [->|[Hg' _]]; [|by apply (Hbet g n Hg' Hgb); rewrite Hd].
        cbn in He'. by apply (Hbet h n).
      * destruct (Hold g Hg) as [->|[Hg' _]]; [by destruct Hd|]. by apply Hbet.
    + intros g n Hg Hgn. by eapply Hins, Hgn; eapply Hga.
    + intros n t Ht Ho. destruct (Hrun n t Ht Ho) as [?|(g & Hg & Hg' & ?)]; [by left|right]. exists g.
      split; [apply Hother; [done|by rewrite Hg']|done].
    + intros g n [->|[Hg _]]%Hold Hgb; [|by apply Hbet]. cbn. by rewrite He.
    + intros g n Hg Hgn. by eapply Hins, Hgn; eapply Hga.
  - (* the old task has ended *)
    assert (between h = true) as Hb by (unfold between; by rewrite Hat).
    destruct (agg_over m (aw_state w)); [|done]. injection Hstep as <- <-. split; cbn [aw_state w'].
    + intros n t Ht Ho. destruct (Hrun n t Ht Ho) as [?|(g & Hg & Hg' & ?)]; [by left|right]. exists g.
      split; [apply Hother; [done|by rewrite Hg']|done].
    + intros g n [->|[Hg _]]%Hold Hgb; [|by apply Hbet]. by apply (Hbet h n).
    + intros g n [->|[Hg _]]%Hold Hgn; [done|by apply Hins].
  - (* the task is spawned *)
    assert (between h = true) as Hb by (unfold between; by rewrite Hat). injection Hstep as <- <-. split; cbn [aw_state w' spawn_aggregation agg_spawned].
    + intros n t Ht Ho. change (agg_table (at_table t) (spawn_aggregation _ _ _ _)) with (agg_table (at_table t) (aw_state w)).
      apply lookup_app_Some in Ht as [Ht|[Hn Ht]].
      * destruct (Hrun n t Ht Ho) as [?|(g & Hg & Hg' & ?)]; [by left|right]. exists g.
        split; [apply Hother; [done|by rewrite Hg']|done].
      * apply list_lookup_singleton_Some in Ht as [Hn' <-]. right. exists (set_at (AggInserting (length (agg_spawned (aw_state w)))) h).
        split; [done|]. split; [|done]. cbn. f_equal. lia.
    + intros g n [->|[Hg _]]%Hold Hgb; [by apply (Hbet h n)|by apply Hbet].
    + intros g n [->|[Hg _]]%Hold Hgn.
      * cbn in Hgn. injection Hgn as <-. eexists. split; [by apply list_lookup_middle|done].
      * destruct (Hins g n Hg Hgn) as (t & Ht & ?). exists t. split; [by apply lookup_app_l_Some|done].
  - (* the entry is inserted *)
    assert (between h = true) as Hb by (unfold between; by rewrite Hat). injection Hstep as <- <-. unfold insert_aggregation in w'.
    split; cbn [aw_state w' agg_spawned set_agg_table].
    + intros n t Ht Ho. rewrite agg_table_insert. destruct (Hrun n t Ht Ho) as [He|(g & Hg & Hg' & Hgt & Hgc)].
      * left. case_decide as Hd; [|done]. rewrite Hd in He. rewrite lookup_insert_ne; [done|].
        intros Heq. rewrite <-Heq in He. by apply (Hbet h n).
      * apply list_elem_of_lookup in Hg as [j Hj]. destruct (decide (j = i)) as [->|Hji].
        -- rewrite Hi in Hj. injection Hj as <-. rewrite Hat in Hg'. injection Hg' as ->. left.
           rewrite decide_True by done. by rewrite Hgc, lookup_insert_eq.
        -- right. exists g. split; [by eapply handler_kept|done].
    + intros g n Hg Hgb. rewrite agg_table_insert. destruct (Hold g Hg) as [->|[Hg' Hno]]; [done|]. case_decide as Hd; [|by apply Hbet].
      rewrite lookup_insert_ne; [by rewrite <-Hd; apply Hbet|]. intros Heq. by apply Hno.
    + intros g n [->|[Hg _]]%Hold Hgn; [done|by apply Hins].
Qed.

Lemma task_ends_inv w n panicked s :
  agg_inv w → negb panicked && existsb (inserting n) (aw_calls w) = false → finish_aggregation n panicked (aw_state w) = Some s →
  agg_inv (mkAggWorld s (aw_calls w)).
Proof.
  intros [Hrun Hbet Hins] Hno Hf. unfold finish_aggregation in Hf. apply bind_Some in Hf as (task & Ht & Hf).
  destruct (at_over task) eqn:Ho; [done|]. set (ended := mkAggTask (at_table task) (at_channel task) (at_criteria task) true) in *.
  assert (∀ m t, <[n := ended]> (agg_spawned (aw_state w)) !! m = Some t → at_over t = false → m ≠ n ∧ agg_spawned (aw_state w) !! m = Some t) as Hrest.
  { intros m t Hm Hot. destruct (decide (m = n)) as [->|Hne]; [|by rewrite list_lookup_insert_ne in Hm].
    rewrite list_lookup_insert_eq in Hm by (by eapply lookup_lt_Some). by injection Hm as <-. }
  assert (∀ h m, h ∈ aw_calls w → ah_at h = AggInserting m →
    ∃ t, <[n := ended]> (agg_spawned (aw_state w)) !! m = Some t ∧ at_table t = ah_table h ∧ at_channel t = ah_channel h) as Hins'.
  { intros h m Hh Hat. destruct (Hins h m Hh Hat) as (t & Htm & Htt & Htc). destruct (decide (m = n)) as [->|Hne].
    - exists ended. rewrite list_lookup_insert_eq by (by eapply lookup_lt_Some). rewrite Ht in Htm. injection Htm as <-. by split.
    - exists t. by rewrite list_lookup_insert_ne. }
  set (over := mkStrategies _ _ _ _ _) in Hf.
  assert (agg_inv (mkAggWorld over (aw_calls w))) as Hover.
  { split; [|exact Hbet|exact Hins']. intros m t Hm Hot. destruct (Hrest m t Hm Hot) as [_ Hm']. by apply Hrun. }
  destruct (agg_table (at_table task) (aw_state w) !! at_channel task) as [[b m0]|] eqn:He; [|by injection Hf as <-].
  destruct panicked; [by injection Hf as <-|]. injection Hf as <-. cbn [negb andb] in Hno.
  destruct (Hrun n task Ht Ho) as [He'|(h & Hh & Hat & _)].
  2: { apply not_true_iff_false in Hno. destruct Hno. apply existsb_exists. exists h. split; [by apply list_elem_of_In|].
       unfold inserting. by rewrite Hat, Nat.eqb_refl. }
  split; cbn [aw_state aw_calls agg_spawned set_agg_table over].
  - intros m t Hm Hot. destruct (Hrest m t Hm Hot) as [Hne Hm']. destruct (Hrun m t Hm' Hot) as [Hmt|?]; [left|by right].
    rewrite agg_table_insert. case_decide as Hd; [|done]. rewrite lookup_insert_ne; [by rewrite <-Hd|].
    intros Heq. rewrite Hd, <-Heq, He' in Hmt. congruence.
  - intros h m Hh Hb. rewrite agg_table_insert. case_decide as Hd; [|by apply (ag_between _ Hover)].
    intros [[_ [=]]|[_ Hm]]%lookup_insert_Some. by apply (ag_between _ Hover h m Hh Hb); rewrite Hd.
  - exact Hins'.
Qed.

Lemma agg_move_inv mv w w' : agg_inv w → apart (aw_calls w) = true → apart (aw_calls w') = true → agg_move mv w = Some w' → agg_inv w'.
Proof.
  intros Hinv Hap Hap'. destruct mv as [table id crit|i|n p|q d r]; cbn [agg_move].
  - intros [= <-]. destruct Hinv as [Hrun Hbet Hins]. split; cbn [aw_state aw_calls].
    + intros n t Ht Ho. destruct (Hrun n t Ht Ho) as [?|(h & Hh & ?)]; [by left|right]. exists h. split; [|done].
      apply elem_of_app. by left.
    + intros h n [Hh|Hh%list_elem_of_singleton]%elem_of_app; [by apply Hbet|by subst].
    + intros h n [Hh|Hh%list_elem_of_singleton]%elem_of_app; [by apply Hins|by subst].
  - intros (h & Hi & Hrun)%bind_Some. apply bind_Some in Hrun as ([s c] & Hstep & [= <-]). by eapply agg_step_inv.
  - destruct (negb p && _) eqn:Hno; [done|]. intros (s & Hf & [= <-])%bind_Some. by eapply task_ends_inv.
  - intros [= <-]. by destruct Hinv.
Qed.

(** C19. A strategy aggregates in a channel once at a time, as long as its calls
    keep apart.  In any interleaving of the steps of calls that start
    aggregations (reading the entry of the channel, removing it, waiting for
    its task, spawning the new task, inserting its entry), of the ends of
    aggregations, panics included, and of anything else that happens to the
    databases and the queue: if no two calls are ever between the check and the
    insertion for the same channel of a strategy, then two aggregations that a
    strategy runs at the same time are in different channels.  The condition is
    needed, since the lock of the table is released in between. *)
Theorem one_aggregation_at_a_time (q : QueueState) (d : PeersDb) (mvs : list AggMove) (w : AggWorld)
    (n n' : nat) (t t' : AggTask) :
  agg_moves true mvs (agg_world_new q d) = Some w →
  agg_spawned (aw_state w) !! n = Some t → agg_spawned (aw_state w) !! n' = Some t' → at_over t = false → at_over t' = false →
  at_table t = at_table t' → at_channel t = at_channel t' → n = n'.
Proof.
  intros Hrun Ht Ht' Ho Ho' Htab Hch.
  assert (∀ w0, agg_inv w0 → apart (aw_calls w0) = true → agg_moves true mvs w0 = Some w → agg_inv w ∧ apart (aw_calls w) = true) as Hinv.
  { clear. induction mvs as [|mv mvs IH]; intros w0 Hw0 Hap; cbn [agg_moves]; [by intros [= <-]|].
    intros (w1 & Hmv & Hrun)%bind_Some. cbn [negb orb] in Hrun. destruct (apart (aw_calls w1)) eqn:Hap1; [|done].
    apply (IH w1); [by eapply agg_move_inv|done|done]. }
  destruct (Hinv (agg_world_new q d)) as [[Hrun' Hbet _] Hap]; [split; [done|intros h n0 Hh; by apply elem_of_nil in Hh..]|done|done|].
  destruct (Hrun' n t Ht Ho) as [He|(h & Hh & Hat & Hht & Hhc)], (Hrun' n' t' Ht' Ho') as [He'|(h' & Hh' & Hat' & Hht' & Hhc')].
  - rewrite Htab, Hch in He. congruence.
  - destruct (Hbet h' n Hh'); [unfold between; by rewrite Hat'|]. by rewrite Hht', Hhc', <-Htab, <-Hch.
  - destruct (Hbet h n' Hh); [unfold between; by rewrite Hat|]. by rewrite Hht, Hhc, Htab, Hch.
  - apply list_elem_of_lookup in Hh as [i Hi], Hh' as [j Hj].
    assert (i = j) as -> by (apply (apart_unique (aw_calls w) i j h h'); first [done|unfold between; by rewrite ?Hat, ?Hat'|congruence]).
    congruence.
Qed.

(** ** A call with nothing between its steps *)
Definition call_steps (table : nat) (channel_id : Hash) (criteria : AggregationPrerequisites) (x y : StrategyState * AggCall) : Prop :=
  agg_call_step table channel_id criteria x.2 x.1 = Some y.

(** Where a task that has marked its entry is over, the steps are
    [try_start_aggregation]. *)
Lemma try_start_by_steps table (channel_id : Hash) criteria s :
  (∀ m, agg_table table s !! channel_id = Some (true, m) → agg_over m s = true) →
  rtc (call_steps table channel_id criteria) (s, AggChecking) ((try_start_aggregation table channel_id criteria s).1, AggReturned).
Proof.
  intros Hjoin. unfold try_start_aggregation, is_strategy_aggregating_in_channel. rewrite run_bind, run_get.
  assert (∀ s', rtc (call_steps table channel_id criteria) (s', AggSpawning) (start_aggregation table channel_id criteria s', AggReturned)) as Hstart.
  { intros s'. eapply rtc_l; [reflexivity|]. cbn. eapply rtc_l; [reflexivity|]. reflexivity. }
  destruct (agg_table table s !! channel_id) as [[[] m]|] eqn:He.
  - rewrite run_bind, run_modify, run_ret. cbn [modify fst].
    eapply rtc_l; [unfold call_steps; cbn; by rewrite He|]. eapply rtc_l; [unfold call_steps; cbn; by rewrite He|].
    eapply rtc_l; [|apply Hstart]. unfold call_steps. cbn. unfold agg_over in *. cbn. by rewrite (Hjoin m eq_refl).
  - rewrite run_ret. eapply rtc_l; [unfold call_steps; cbn; by rewrite He|]. reflexivity.
  - rewrite run_ret. cbn [modify fst]. eapply rtc_l; [unfold call_steps; cbn; by rewrite He|]. apply Hstart.
Qed.

(** When two calls check before either inserts, both start an aggregation. *)
Lemma two_calls_start_twice (q : QueueState) (d : PeersDb) (channel_id : Hash) criteria :
  agg_spawned ∘ aw_state <$> agg_moves false
    [MoveCall 0 channel_id criteria; MoveCall 0 channel_id criteria; MoveStep 0; MoveStep 1;
     MoveStep 0; MoveStep 0; MoveStep 1; MoveStep 1] (agg_world_new q d) =
  Some [mkAggTask 0 channel_id criteria false; mkAggTask 0 channel_id criteria false].
Proof. reflexivity. Qed.

(** An aggregation that panics leaves its entry: the strategy never aggregates
    in the channel again. *)
Lemma panic_blocks_channel (q : QueueState) (d : PeersDb) (channel_id : Hash) criteria criteria' :
  let s := (try_start_aggregation 0 channel_id criteria (strategies_new q d)).1 in
  ∀ s', finish_aggregation 0 true s = Some s' → try_start_aggregation 0 channel_id criteria' s' = (s', Ok tt).
Proof.
  intros s s' Hf. assert (∀ s1, agg_table 0 s1 = agg_table 0 s → try_start_aggregation 0 channel_id criteria' s1 = (s1, Ok tt)) as Htry.
  { intros s1 Hs1. unfold try_start_aggregation, is_strategy_aggregating_in_channel. rewrite run_bind, run_get, Hs1.
    change (agg_table 0 s) with (<[channel_id := (false, 0%nat)]> (∅ : gmap Hash (bool * nat))). by rewrite lookup_insert_eq. }
  apply Htry. apply bind_Some in Hf as (t & Ht & Hf).
  change (agg_spawned s) with [mkAggTask 0 channel_id criteria false] in Ht. injection Ht as <-.
  cbn [at_over at_table at_channel] in Hf. destruct (agg_table 0 s !! channel_id) as [[b m]|]; by injection Hf as <-.
Qed.
End World.
