(* ===== verification/StrategyRuns.v ===== *)
(** * Concrete runs of the strategies

    A node with one channel to a bad peer and none to a good one: the
    promiscuous strategy closes the one and opens the other. *)
From Stdlib Require Import Floats.SpecFloat.
From stdpp Require Import gmap strings sorting.
From S2P Require Import Prelude Primitives Crypto Channels Tickets WinProb ChannelGraph SharedKeys Sphinx MetaPacket Por Packet PacketSpec.
From S2P Require Import TicketStore TicketStoreSpec TicketIndexSpec TicketStoreRuns TicketTable NodeDb NodeDbSpec.
From S2P Require Import Protocol ProtocolSpec NodeProtocol NodeProtocolSpec NodeRuns Indexer IndexerSpec IndexerRuns.
From S2P Require Import Aggregation AggregationRuns Actions ActionsSpec ActionRuns Peers PeersSpec PeerRuns.
From S2P Require Import Strategies StrategiesSpec StrategyWorld.

#[local] Existing Instances Z3_curve Z3_curve_laws toy_kdf toy_curve toy_curve_laws.
#[local] Existing Instances plain_hex plain_hex_laws table_order table_order_laws.
#[local] Existing Instances plain_addresses exact_floats toy_ed25519 plain_protocols.
#[local] Existing Instances plain_peer_ids string_set squaring numbered_averages.

(** Requirements are smallest versions; only two texts are read. *)
#[local] Instance smallest_version : SemVer := {|
  VersionReq := Z * Z * Z;
  parse_version := λ v, if bool_decide (v = "3.0.0") then Some (3, 0, 0) else None;
  parse_req := λ r, if bool_decide (r = ">=2.2.1") then Some (2, 2, 1) else None;
  req_to_string := λ _, ">=2.2.1";
  req_matches := λ '(a, b, c) '(a', b', c'), (a <? a') || (a =? a') && ((b <? b') || (b =? b') && (c <=? c'))
|}.

Definition steady : Environment := mkEnvironment (λ _, seconds 1000) (λ _, seconds 600) (λ _, [5]).

(** A peer with its average quality. *)
Definition rated (key : OffchainPublicKey) (quality : f64) : PeerStatus :=
  mkPeerStatus (key, peer_id_of key) NetworkRegistry true (seconds 900) 0 60 60 f64_one None (Some "3.0.0") [] quality
    (mkSingleSum [quality] 25 quality).
Definition rated_row (i : Z) (key : OffchainPublicKey) (quality : f64) : PeerModel :=
  peer_row i (default [] (sma_encode (quality_avg (rated key quality)))) (rated key quality).

(** The peer at [toy_previous] is excellent, the one at [toy_next] poor. *)
Definition rated_peers : PeersDb :=
  mkPeersDb [rated_row 1 (ok_public (toy_node 1)) f64_one; rated_row 2 (ok_public (toy_node 9)) f64_tenth] 3.

Definition funded_db : HoprDb :=
  (set_safe_hopr_allowance (mkBalance 5000) (set_safe_hopr_balance (mkBalance 1025) relay_db).1).1.
Definition funded : StrategyState := strategies_new (queue_new funded_db) rated_peers.

Definition thrifty : PromiscuousStrategyConfig :=
  mkPromiscuousConfig (f64_from_bits 0x3FECCCCCCCCCCCCD) (f64_from_bits 0x3FC999999999999A) 50 (seconds 300)
    (mkBalance 10) (mkBalance 1000) None true (2, 2, 1).

Definition counted : NetworkStats := mkNetworkStats (<[toy_previous := (f64_one, 60)]> {[toy_next := (f64_tenth, 60)]}) 2.

Definition toy_entries : list ChannelEntry := [toy_incoming; toy_outgoing_channel].

Lemma funded_channels : channels_wf toy_entries (index_db funded_db).
Proof.
  assert (channels (index_db funded_db) = channels (index_db relay_db)) as Hch by by_eval.
  assert (next_row (index_db funded_db) = next_row (index_db relay_db)) as Hn by by_eval.
  destruct relay_db_ok as [[Hr Hi Hf Hc Hp] _]. split; rewrite ?Hch, ?Hn; assumption.
Qed.

Lemma counted_no_nan : no_nan counted.
Proof.
  intros a v Hv. unfold counted in Hv. cbn [peers_with_quality] in Hv.
  apply lookup_insert_Some in Hv as [[_ <-]|[_ [_ <-]%lookup_singleton_Some]]; reflexivity.
Qed.

(** The open channel to the poor peer is closed, and one to the excellent peer
    is opened. *)
Lemma tick_decision_exact_witness :
  ∃ s1 opened dec, get_network_stats thrifty funded = (s1, Ok counted) ∧ opened ≡ₚ [toy_outgoing_channel] ∧
    collect_tick_decision thrifty funded = (s1, Ok dec) ∧ decision_ok thrifty opened counted (mkBalance 1025) dec ∧
    to_close dec = [toy_outgoing_channel] ∧ to_open dec = [(toy_previous, mkBalance 10)].
Proof.
  assert ((get_network_stats thrifty funded).2 = Ok counted) as Hstats by by_eval.
  destruct (get_network_stats thrifty funded) as [s1 r] eqn:Hrun. cbn [snd] in Hstats. rewrite Hstats in Hrun.
  destruct (tick_decision_exact thrifty funded s1 toy_entries counted (mkBalance 1025)) as (opened & dec & Hp & Hdec & Hok).
  - exact funded_channels.
  - by_check.
  - exact Hrun.
  - by_eval.
  - exact counted_no_nan.
  - split; [reflexivity|intros m [=]|reflexivity].
  - exists s1, opened, dec. split; [rewrite Hstats; reflexivity|].
    assert (own_open (me_onchain (queue_db (st_queue funded))) toy_entries = [toy_outgoing_channel]) as Hown by by_eval.
    rewrite Hown in Hp. split; [exact Hp|]. split; [exact Hdec|]. split; [exact Hok|].
    assert ((collect_tick_decision thrifty funded).2 =
      Ok (mkDecision [toy_outgoing_channel] [(toy_previous, mkBalance 10)])) as Hd by by_eval.
    rewrite Hdec in Hd. cbn [snd] in Hd. injection Hd as ->. split; reflexivity.
Defined.

Lemma tick_within_budget_witness :
  ∃ s', promiscuous_on_tick steady thrifty funded = (s', Ok tt) ∧
    ∃ closes opens, sent (st_queue s') = closes ++ opens ∧ length closes = 1%nat ∧ length opens = 1%nat ∧
      Forall (λ a, ∃ c, c ∈ toy_entries ∧ source c = toy_me ∧ status c = Open ∧ a = CloseChannel c Outgoing) closes ∧
      Forall (λ a, ∃ dst, a = OpenChannel dst (mkBalance 10)) opens.
Proof.
  assert ((promiscuous_on_tick steady thrifty funded).2 = Ok tt) as Ho by by_eval.
  assert (sent (st_queue (promiscuous_on_tick steady thrifty funded).1) =
    [CloseChannel toy_outgoing_channel Outgoing; OpenChannel toy_previous (mkBalance 10)]) as Hsent by by_eval.
  destruct (promiscuous_on_tick steady thrifty funded) as [s' o] eqn:Hrun. cbn [fst snd] in Ho, Hsent. subst o.
  destruct (tick_within_budget steady thrifty funded s' (Ok tt) toy_entries (mkBalance 1025)) as (closes & opens & Hs & Hc & Hop & _).
  - exact funded_channels.
  - by_check.
  - discriminate.
  - by_eval.
  - exact Hrun.
  - exists s'. split; [reflexivity|]. exists closes, opens. change (sent (st_queue funded)) with (@nil Action) in Hs.
    split; [exact Hs|]. rewrite Hsent in Hs.
    destruct closes as [|x closes].
    + exfalso. destruct opens as [|y opens]; [discriminate Hs|]. injection Hs as <- _.
      apply Forall_cons in Hop as [(dst & [=]) _].
    + destruct closes as [|x' closes].
      * injection Hs as _ <-. split; [reflexivity|]. split; [reflexivity|]. split; [exact Hc|exact Hop].
      * exfalso. injection Hs as _ Heq. apply Forall_cons in Hc as [_ [(c & _ & _ & _ & Hx) _]%Forall_cons].
        rewrite Hx in Heq. discriminate Heq.
Defined.

(** ** Two aggregations in one channel, one after the other

    The second call comes too early and gives up; the third one waits for the
    task of the first. *)
Definition three_calls : list AggMove :=
  let call := MoveCall 0 (get_id toy_incoming) (prerequisites_of AggregatingStrategyConfig_default) in
  [call; MoveStep 0; MoveStep 0; call; MoveStep 0; MoveStep 1; MoveFinish 0 false; call;
   MoveStep 2; MoveStep 2; MoveStep 2; MoveStep 2; MoveStep 2].

Lemma one_aggregation_at_a_time_witness :
  ∃ w, agg_moves true three_calls (agg_world_new (queue_new funded_db) rated_peers) = Some w ∧
    at_over <$> agg_spawned (aw_state w) = [true; false] ∧
    ∀ n n' t t', agg_spawned (aw_state w) !! n = Some t → agg_spawned (aw_state w) !! n' = Some t' → at_over t = false → at_over t' = false →
      at_table t = at_table t' → at_channel t = at_channel t' → n = n'.
Proof.
  assert (match agg_moves true three_calls (agg_world_new (queue_new funded_db) rated_peers) with
          | Some w => bool_decide (at_over <$> agg_spawned (aw_state w) = [true; false])
          | None => false
          end = true) as Hs by by_eval.
  destruct (agg_moves true three_calls (agg_world_new (queue_new funded_db) rated_peers)) as [w|] eqn:Hrun; [|discriminate Hs].
  apply bool_decide_eq_true in Hs. exists w. split; [reflexivity|]. split; [exact Hs|]. intros n n' t t'.
  exact (one_aggregation_at_a_time (queue_new funded_db) rated_peers three_calls w n n' t t' Hrun).
Defined.
