(* ===== verification/StartProtocol.v ===== *)
(** * The Start protocol

    Models [transport/session/src/initiation.rs], the types of
    [transport/session/src/types.rs], [lib.rs] and [errors.rs] it carries, and
    the routing types of [network-types/src/types.rs] they travel with: how the
    messages that open, refuse, keep and close a session are written into
    application data and read back.  The serializer [bincode] is a parameter. *)
From stdpp Require Import gmap strings pretty.
From S2P Require Import Prelude Primitives Channels Packet TicketStore TicketStoreSpec Protocol NodeProtocol SessionState.

(** ** Routing ([network-types/src/types.rs]) *)
Definition MAX_INTERMEDIATE_HOPS : nat := 3.

(** The bounded vectors and sizes are checked where they are built. *)
Inductive RoutingOptions := IntermediatePath (path : list Address) | Hops (hops : nat).

Definition RoutingOptions_invert (r : RoutingOptions) : RoutingOptions :=
  match r with IntermediatePath v => IntermediatePath (rev v) | Hops n => Hops n end.

Definition count_hops (r : RoutingOptions) : nat :=
  match r with IntermediatePath v => length v | Hops n => n end.

Inductive DestinationRouting :=
| RouteForward (dest : Address) (pseudonym : option HoprPseudonym)
    (forward_options : RoutingOptions) (return_options : option RoutingOptions)
| RouteReturn (matcher : SurbMatcher).

Definition DestinationRouting_forward_only (dest : Address) (forward_options : RoutingOptions) : DestinationRouting :=
  RouteForward dest None forward_options None.

(** A host with a port, and its sealed form. *)
Inductive IpOrHost := Dns (host : string) (port : Z) | Ip (ip : bytes) (port : Z).
Inductive SealedHost := Plain (host : IpOrHost) | Sealed (data : bytes).

Definition IpOrHost_port (h : IpOrHost) : Z := match h with Dns _ port => port | Ip _ port => port end.
Definition is_dns (h : IpOrHost) : bool := match h with Dns _ _ => true | Ip _ _ => false end.

(** [None] is [NetworkTypeError::SealedTarget]. *)
Definition IpOrHost_try_from (h : SealedHost) : option IpOrHost :=
  match h with Plain host => Some host | Sealed _ => None end.

(** ** Sessions ([lib.rs], [types.rs]) *)
Inductive Capability := Segmentation | Retransmission | RetransmissionAckOnly | CapNoDelay.

#[export] Instance Capability_eq_dec : EqDecision Capability.
Proof. solve_decision. Defined.
#[export] Instance Capability_countable : Countable Capability.
Proof.
  refine (inj_countable' (λ c, match c with Segmentation => 0%nat | Retransmission => 1%nat | RetransmissionAckOnly => 2%nat | CapNoDelay => 3%nat end)
    (λ n, match n with 0%nat => Segmentation | 1%nat => Retransmission | 2%nat => RetransmissionAckOnly | _ => CapNoDelay end) _).
  by intros [].
Defined.

Definition Capability_into_iter (c : Capability) : list SessionFeature :=
  match c with
  | Segmentation => []
  | Retransmission => [AcknowledgeFrames; RequestIncompleteFrames; RetransmitFrames]
  | RetransmissionAckOnly => [AcknowledgeFrames; RetransmitFrames]
  | CapNoDelay => [NoDelay]
  end.

Inductive SessionTarget := UdpStream (host : SealedHost) | TcpStream (host : SealedHost) | ExitNode (service : Z).

Record SessionId := mkSessionId { tag : Z; pseudonym : HoprPseudonym }.

#[export] Instance SessionId_eq_dec : EqDecision SessionId.
Proof. solve_decision. Defined.
#[export] Instance SessionId_countable : Countable SessionId.
Proof. refine (inj_countable' (λ s, (tag s, pseudonym s)) (λ p, mkSessionId p.1 p.2) _). by intros []. Defined.

Definition max_decimal_digits_for_n_bytes (n : Z) : Z := div_ceil (8 * n * 301030) 1000000.

Definition MAX_SESSION_ID_STR_LEN : Z :=
  2 + 2 * Z.of_nat HoprPseudonym_SIZE + 1 + max_decimal_digits_for_n_bytes (Z.of_nat TAG_SIZE).

(** ** Errors ([errors.rs], [initiation.rs]) *)
Inductive StartErrorReason := NoSlotsAvailable | Busy.

Inductive SessionManagerError := NotStarted | AlreadyStarted | NoChallengeSlots | Loopback | ManagerOther (what : string).

Inductive TransportSessionError :=
| Timeout
| BadTag
| BadPayloadSize
| SerializerEncoding
| SerializerDecoding
| BadPeerId
| BadPath
| OutOfSurbs
| Rejected (reason : StartErrorReason)
| UnknownData
| Manager (e : SessionManagerError)
| Network
| Closed.

(** ** Messages ([initiation.rs]) *)
Definition StartChallenge : Type := Z.

Record StartErrorType := mkStartError { err_challenge : StartChallenge; reason : StartErrorReason }.

Record StartInitiation := mkInitiation {
  challenge : StartChallenge;
  target : SessionTarget;
  capabilities : gset Capability
}.

Record StartEstablished (T : Type) := mkEstablished { orig_challenge : StartChallenge; session_id : T }.
Arguments mkEstablished {T} _ _.
Arguments orig_challenge {T} _.
Arguments session_id {T} _.

Inductive StartProtocol (T : Type) :=
| StartSession (init : StartInitiation)
| SessionEstablished (est : StartEstablished T)
| SessionError (err : StartErrorType)
| CloseSession (id : T)
| KeepAlive (id : T).
Arguments StartSession {T} _.
Arguments SessionEstablished {T} _.
Arguments SessionError {T} _.
Arguments CloseSession {T} _.
Arguments KeepAlive {T} _.

Inductive StartProtocolDiscriminants := DStartSession | DSessionEstablished | DSessionError | DCloseSession | DKeepAlive.

Definition discriminant {T} (m : StartProtocol T) : StartProtocolDiscriminants :=
  match m with
  | StartSession _ => DStartSession
  | SessionEstablished _ => DSessionEstablished
  | SessionError _ => DSessionError
  | CloseSession _ => DCloseSession
  | KeepAlive _ => DKeepAlive
  end.

Definition discriminant_repr (d : StartProtocolDiscriminants) : Z :=
  match d with DStartSession => 0 | DSessionEstablished => 1 | DSessionError => 2 | DCloseSession => 3 | DKeepAlive => 4 end.

Definition from_repr (z : Z) : option StartProtocolDiscriminants :=
  match z with
  | 0 => Some DStartSession | 1 => Some DSessionEstablished | 2 => Some DSessionError
  | 3 => Some DCloseSession | 4 => Some DKeepAlive | _ => None
  end.

(** ** Serialization

    [bincode::serde] in the configuration of the code: what it wrote, it reads
    back. *)
Class Bincode (A : Type) := {
  encode_to_vec : A → option bytes;
  borrow_decode_from_slice : bytes → option A
}.
Class BincodeLaws (A : Type) `{!Bincode A} :=
  bincode_roundtrip (a : A) b : encode_to_vec a = Some b → borrow_decode_from_slice b = Some a.

Section Codec.
Context {T : Type} `{!Bincode StartInitiation} `{!Bincode (StartEstablished T)} `{!Bincode StartErrorType} `{!Bincode T}.

#[local] Set Default Proof Using "Type*".

Definition encode (self : StartProtocol T) : outcome TransportSessionError (Z * bytes) :=
  let disc := wrap 8 (discriminant_repr (discriminant self) + 1) in
  inner ← ok_or (match self with
                 | StartSession init => encode_to_vec init
                 | SessionEstablished est => encode_to_vec est
                 | SessionError err => encode_to_vec err
                 | CloseSession id => encode_to_vec id
                 | KeepAlive id => encode_to_vec id
                 end) SerializerEncoding;
  Ok (disc, inner).

(** The tag is cut to its low byte, and one less than it wraps around. *)
Definition decode (tag : Z) (data : bytes) : outcome TransportSessionError (StartProtocol T) :=
  if tag =? 0 then Err BadTag
  else
    d ← ok_or (from_repr (wrap 8 (wrap 8 tag - 1))) BadPayloadSize;
    match d with
    | DStartSession => v ← ok_or (borrow_decode_from_slice data) SerializerDecoding; Ok (StartSession v)
    | DSessionEstablished => v ← ok_or (borrow_decode_from_slice data) SerializerDecoding; Ok (SessionEstablished v)
    | DSessionError => v ← ok_or (borrow_decode_from_slice data) SerializerDecoding; Ok (SessionError v)
    | DCloseSession => v ← ok_or (borrow_decode_from_slice data) SerializerDecoding; Ok (CloseSession v)
    | DKeepAlive => v ← ok_or (borrow_decode_from_slice data) SerializerDecoding; Ok (KeepAlive v)
    end.

Definition ApplicationData_try_from (value : StartProtocol T) : outcome TransportSessionError ApplicationData :=
  '(application_tag, plain_text) ← encode value;
  Ok (mkAppData application_tag plain_text).

Definition StartProtocol_try_from (value : ApplicationData) : outcome TransportSessionError (StartProtocol T) :=
  decode (application_tag value) (app_plain_text value).

(** ** What is written is read back *)
Lemma encode_tag m t data : encode m = Ok (t, data) → t = discriminant_repr (discriminant m) + 1.
Proof using Type. unfold encode. intros (inner & _ & [= <- <-])%bind_Ok. by destruct m. Qed.

Context `{!BincodeLaws StartInitiation} `{!BincodeLaws (StartEstablished T)} `{!BincodeLaws StartErrorType} `{!BincodeLaws T}.

Lemma decode_encode m t data : encode m = Ok (t, data) → decode t data = Ok m.
Proof.
  unfold encode. intros (inner & Hi%ok_or_Ok & [= <- <-])%bind_Ok.
  unfold decode. destruct m; apply bincode_roundtrip in Hi; cbn; by rewrite Hi.
Qed.

Lemma start_roundtrip m d : ApplicationData_try_from m = Ok d → StartProtocol_try_from d = Ok m.
Proof. unfold ApplicationData_try_from. intros ([t data] & He & [= <-])%bind_Ok. by apply decode_encode. Qed.

Lemma start_tag_small m d : ApplicationData_try_from m = Ok d → 1 ≤ application_tag d ≤ 5.
Proof using Type.
  unfold ApplicationData_try_from. intros ([t data] & He & [= <-])%bind_Ok. cbn.
  apply encode_tag in He as ->. destruct m; cbn; lia.
Qed.

(** A tag is read by its low byte only: 257 is taken for 1. *)
Lemma decode_low_byte t t' data :
  t ≠ 0 → t' ≠ 0 → t `mod` 2 ^ 8 = t' `mod` 2 ^ 8 → decode t data = decode t' data.
Proof using Type.
  intros Ht Ht' Heq. unfold decode. apply Z.eqb_neq in Ht as ->. apply Z.eqb_neq in Ht' as ->.
  unfold wrap. by rewrite Heq.
Qed.
End Codec.

(** ** The text of a session id *)
Section Display.
Context `{!HexCodec}.

Definition SessionId_as_str (id : SessionId) : string :=
  String.substring 0 (Z.to_nat MAX_SESSION_ID_STR_LEN) (to_hex (pseudonym id) +:+ ":" +:+ pretty (tag id)).

Lemma pretty_go_short k x s : (x < 10 ^ N.of_nat k)%N → (String.length (pretty_N_go x s) ≤ k + String.length s)%nat.
Proof using Type.
  revert x s. induction k as [|k IH]; intros x s Hx.
  { assert (x = 0%N) as -> by (cbn in Hx; lia). by rewrite pretty_N_go_0. }
  destruct (decide (x = 0%N)) as [->|Hne]; [rewrite pretty_N_go_0; lia|]. rewrite pretty_N_go_step by lia.
  etrans; [apply IH|cbn; lia]. clear s. rewrite Nat2N.inj_succ, N.pow_succ_r' in Hx. apply N.Div0.div_lt_upper_bound. lia.
Qed.

Lemma pretty_tag_short t : in_u 16 t → (String.length (pretty t) ≤ 5)%nat.
Proof using Type.
  intros [H0 Ht]. destruct t as [|p|p]; [cbn; lia| |lia].
  change (pretty (Z.pos p)) with (pretty_N_go (N.pos p) "").
  etrans; [apply (pretty_go_short 5)|cbn; lia]. cbn. lia.
Qed.

Lemma substring_whole s n : (String.length s ≤ n)%nat → String.substring 0 n s = s.
Proof using Type. revert n. induction s as [|a s IH]; intros [|n] Hn; cbn in *; try done; [lia|]. rewrite IH by lia. done. Qed.

Lemma string_length_app (a b : string) : String.length (a +:+ b) = (String.length a + String.length b)%nat.
Proof using Type. induction a as [|c a IH]; [done|]. exact (f_equal S IH). Qed.

Lemma string_app_inj (a a' b b' : string) : String.length a = String.length a' → a +:+ b = a' +:+ b' → a = a' ∧ b = b'.
Proof using Type.
  revert a'. induction a as [|c a IH]; intros [|c' a'] Hl Heq; try done. cbn in *. injection Heq as -> Heq.
  destruct (IH a') as [-> ->]; [lia|done|done].
Qed.

(** The text is never cut, so that it tells the ids apart. *)
Definition SessionId_wf (id : SessionId) : Prop :=
  in_u 16 (tag id) ∧ bytes_wf (pseudonym id) ∧ length (pseudonym id) = HoprPseudonym_SIZE.

Lemma as_str_inj `{!HexCodecLaws} (a b : SessionId) :
  SessionId_wf a → SessionId_wf b → SessionId_as_str a = SessionId_as_str b → a = b.
Proof.
  assert (∀ id, SessionId_wf id → SessionId_as_str id = to_hex (pseudonym id) +:+ ":" +:+ pretty (tag id)) as Hall.
  { intros id (Ht & _ & Hl). apply substring_whole. unfold to_hex. cbn. rewrite !string_length_app. cbn.
    pose proof (pretty_tag_short _ Ht). rewrite hex_length, Hl. change (Z.to_nat MAX_SESSION_ID_STR_LEN) with 28%nat.
    unfold HoprPseudonym_SIZE. lia. }
  intros Ha Hb. rewrite !Hall by done. destruct Ha as (_ & Hwa & Hla), Hb as (_ & Hwb & Hlb). intros Heq.
  apply string_app_inj in Heq as [Hp Ht]; [|unfold to_hex; by rewrite !string_length_app, !hex_length, Hla, Hlb].
  destruct a as [ta pa], b as [tb pb]; cbn in *. f_equal.
  - apply (string_app_inj ":" ":") in Ht as [_ Ht]; [|done]. by apply (inj pretty).
  - by apply to_hex_inj.
Qed.
End Display.
