(* ===== verification/SurbBalancer.v ===== *)
(** * Balancing reply blocks

    Models [transport/session/src/balancer]: the controller that estimates how
    many single-use reply blocks the other end of a session has left and sets
    the rate at which new ones are sent ([controller.rs]), and the stream of
    keep-alive messages limited to that rate ([rate_limiting.rs]); with the
    counting sender and the keep-alive controller of [manager.rs].  The PID
    controller is a parameter; readings of clocks and counters are arguments. *)
From Stdlib Require Import Floats.SpecFloat.
From stdpp Require Import list.
From S2P Require Import Prelude Primitives Channels SharedKeys Sphinx Packet Peers Protocol SessionState Mixer.

(** ** Integers and floats of the standard library *)
Definition as_i64 (z : Z) : Z := wrap 64 (z + 2 ^ 63) - 2 ^ 63.
Definition saturating_add_signed (a b : Z) : Z := Z.min (u_max 64) (Z.max 0 (a + b)).

(** [x as usize]: truncated, saturating, zero for a NaN. *)
Definition f64_as_usize (x : f64) : Z :=
  match x with
  | S754_infinity false => u_max 64
  | S754_finite false m e => Z.min (if 0 <=? e then Z.pos m * 2 ^ e else Z.pos m `div` 2 ^ (- e)) (u_max 64)
  | _ => 0
  end.

(** [x.clamp(lo, hi)]: bounds out of order panic, a NaN stays. *)
Definition f64_clamp {E} (x lo hi : f64) : outcome E f64 :=
  if SFleb lo hi then Ok (if SFltb x lo then lo else if SFltb hi x then hi else x) else Panic.

(** ** The controller ([controller.rs]) *)
Record SurbBalancerConfig := mkBalancerConfig { target_surb_buffer_size : Z; max_surbs_per_sec : Z }.
Definition SurbBalancerConfig_default : SurbBalancerConfig := mkBalancerConfig 5000 2500.

Definition DEFAULT_P_GAIN : f64 := f64_from_bits 0x3FE3333333333333.
Definition DEFAULT_I_GAIN : f64 := f64_from_bits 0x3FE6666666666666.
Definition DEFAULT_D_GAIN : f64 := f64_from_bits 0x3FC999999999999A.

(** The crate [pid]: a set point and a limit, three gains with their limits,
    and the next output for a measurement. *)
Class PidController := {
  Pid : Type;
  Pid_new : f64 → f64 → Pid;
  pid_p : f64 → f64 → Pid → Pid;
  pid_i : f64 → f64 → Pid → Pid;
  pid_d : f64 → f64 → Pid → Pid;
  next_control_output : f64 → Pid → Pid * f64
}.

Section Balancer.
Context `{!PidController}.

Record SurbBalancer := mkBalancer {
  pid : Pid;
  bal_cfg : SurbBalancerConfig;
  current_target_buffer : Z;
  last_surbs_delivered : Z;
  last_surbs_used : Z;
  last_update : Instant;
  was_below_target : bool
}.

(** The gains are those of the environment, when they are set there. *)
Definition SurbBalancer_new (p_gain i_gain d_gain : option f64) (now : Instant) (cfg : SurbBalancerConfig) : SurbBalancer :=
  let limit := f64_of_u64 (max_surbs_per_sec cfg) in
  let pid := Pid_new (f64_of_u64 (target_surb_buffer_size cfg)) limit in
  let pid := pid_p (default DEFAULT_P_GAIN p_gain) limit pid in
  let pid := pid_i (default DEFAULT_I_GAIN i_gain) limit pid in
  let pid := pid_d (default DEFAULT_D_GAIN d_gain) limit pid in
  mkBalancer pid cfg 0 0 0 now true.

(** Returns the estimate and, unless it is too early, the rate given to the
    flow controller.  [polled] and [now] are the two readings of the clock,
    [delivered] and [used] those of the counters. *)
Definition update {E} (polled now : Instant) (delivered used : Z) (b : SurbBalancer) :
    outcome E (SurbBalancer * option Z * Z) :=
  let dt := Z.max 0 (polled - last_update b) in
  if dt <? from_millis 10 then Ok (b, None, current_target_buffer b)
  else
    let surbs_delivered_delta := wrap 64 (delivered - last_surbs_delivered b) in
    let surbs_used_delta := wrap 64 (used - last_surbs_used b) in
    let target_buffer_change := as_i64 (as_i64 surbs_delivered_delta - as_i64 surbs_used_delta) in
    let current := saturating_add_signed (current_target_buffer b) target_buffer_change in
    let error := as_i64 (as_i64 current - as_i64 (target_surb_buffer_size (bal_cfg b))) in
    let below := if was_below_target b && (0 <=? error) then false
                 else if negb (was_below_target b) && (error <? 0) then true
                 else was_below_target b in
    let (pid', output) := next_control_output (f64_of_u64 current) (pid b) in
    corrected_output ← f64_clamp output f64_zero (f64_of_u64 (max_surbs_per_sec (bal_cfg b)));
    Ok (mkBalancer pid' (bal_cfg b) current delivered used now below, Some (f64_as_usize corrected_output), current).

Definition set_exact_target_buffer_size (size : Z) (b : SurbBalancer) : SurbBalancer :=
  mkBalancer (pid b) (bal_cfg b) size (last_surbs_delivered b) (last_surbs_used b) (last_update b) (was_below_target b).
End Balancer.

(** ** Counting what is sent ([manager.rs])

    A message that is sent adds the reply blocks that fit beside it. *)
Definition counting_send `{!Curve25519} (poly1305 : UniversalHash) {E} (data : ApplicationData) (answer : option E) (counter : Z) : Z :=
  match answer with
  | None => wrap 64 (counter + Z.of_nat (max_surbs_with_message poly1305 (ApplicationData_len data)))
  | Some _ => counter
  end.

(** ** The rate controller ([rate_limiting.rs])

    The state is the delay between two elements in microseconds, zero for no
    rate. *)
Definition MIN_DELAY : Duration := 100 * 10 ^ 3.
Definition as_micros (d : Duration) : Z := d `div` 10 ^ 3.
Definition from_micros (us : Z) : Duration := us * 10 ^ 3.

Definition set_rate_per_unit {E} (elements_per_unit : Z) (unit : Duration) : outcome E Z :=
  if negb (0 <? unit) then Panic
  else if 0 <? elements_per_unit then
    let rate_per_sec := SFdiv 53 1024 (f64_of_u64 elements_per_unit) (as_secs_f64 unit) in
    d ← from_secs_f64 (SFdiv 53 1024 (f64_of_u64 1) rate_per_sec);
    Ok (Z.min (as_micros (Z.max d MIN_DELAY)) (u_max 64))
  else Ok 0.

Definition get_rate_per_sec (delim : Z) : f64 :=
  if 0 <? delim then SFdiv 53 1024 (f64_of_u64 1) (as_secs_f64 (from_micros delim)) else f64_zero.

(** [KeepAliveController]: a message carries several reply blocks. *)
Definition adjust_surb_flow `{!Curve25519} (poly1305 : UniversalHash) {E} (surbs_per_sec : Z) : outcome E Z :=
  set_rate_per_unit surbs_per_sec (Z.of_nat (MAX_SURBS_IN_PACKET poly1305) * 10 ^ 9).

(** ** The limited stream ([rate_limiting.rs]) *)
Inductive RateState := RateRead | RateNoRate | RateWait.

Record RateLimitedStream (A : Type) := mkLimited {
  held : option A;
  rl_delay : option Duration;
  rl_state : RateState
}.
Arguments mkLimited {A} _ _ _.
Arguments held {A} _.
Arguments rl_delay {A} _.
Arguments rl_state {A} _.

Definition new_with_rate_per_unit {A E} (initial_rate_per_unit : Z) (unit : Duration) : outcome E (RateLimitedStream A * Z) :=
  rc ← set_rate_per_unit initial_rate_per_unit unit;
  Ok (mkLimited None None (if 0 <? initial_rate_per_unit then RateRead else RateNoRate), rc).

(** What one turn of the loop observes: the answer of the inner stream and the
    time it took, whether the delay has passed, and the rate. *)
Record Turn (A : Type) := mkTurn { inner_answer : Poll (option A); took : Duration; passed : bool; rate : Z }.
Arguments mkTurn {A} _ _ _ _.
Arguments inner_answer {A} _.
Arguments took {A} _.
Arguments passed {A} _.
Arguments rate {A} _.

(** One turn: the new state, and the answer when the loop ends. *)
Definition limited_turn {A} (t : Turn A) (s : RateLimitedStream A) : RateLimitedStream A * option (Poll (option A)) :=
  match rl_state s with
  | RateRead =>
      match inner_answer t with
      | Pending => (s, Some Pending)
      | Ready None => (s, Some (Ready None))
      | Ready (Some item) =>
          if 0 <? rate t then
            let wait := Z.max (Z.max 0 (from_micros (rate t) - took t)) MIN_DELAY in
            (mkLimited (Some item) (Some wait) RateWait, None)
          else (mkLimited (Some item) (Some (from_millis 100)) RateNoRate, None)
      end
  | RateNoRate =>
      if bool_decide (is_Some (rl_delay s)) && negb (passed t) then (s, Some Pending)
      else if 0 <? rate t then
        (mkLimited (held s) (Some (from_micros (rate t))) (if bool_decide (is_Some (held s)) then RateWait else RateRead), None)
      else (mkLimited (held s) (Some (from_millis 100)) RateNoRate, None)
  | RateWait =>
      match rl_delay s with
      | Some _ => if passed t then (mkLimited None (rl_delay s) RateRead, Some (Ready (held s))) else (s, Some Pending)
      | None => (s, None)
      end
  end.

(** [poll_next] over the turns it takes; [None] when they do not end it. *)
Fixpoint limited_poll_next {A} (turns : list (Turn A)) (s : RateLimitedStream A) : RateLimitedStream A * option (Poll (option A)) :=
  match turns with
  | [] => (s, None)
  | t :: turns =>
      match limited_turn t s with
      | (s, None) => limited_poll_next turns s
      | (s, Some answer) => (s, Some answer)
      end
  end.
