(* ===== verification/SessionManager.v ===== *)
(** * The session manager

    Models [transport/session/src/manager.rs] and the [Session] object of
    [types.rs]: how sessions are initiated, accepted, fed with data, kept and
    closed.  The caches are maps from which entries may be evicted; the queues
    between the manager and its sessions are shared objects that the entries
    refer to.  A handler is one step; [new_session], which waits twice, is
    three.  The message transport answers each message through an argument. *)
From stdpp Require Import gmap strings.
From S2P Require Import Prelude Primitives Crypto Channels SharedKeys Packet Peers Protocol NodeProtocol SessionState Mixer.
From S2P Require Import StartProtocol SurbBalancer.

(** ** Unbounded queues ([futures::channel::mpsc])

    A queue keeps what was ever sent; the receiver has taken the first
    [mq_read] elements. *)
Record Mpsc (A : Type) := mkMpsc { mq_sent : list A; mq_read : nat; mq_sender : bool; mq_receiver : bool }.
Arguments mkMpsc {A} _ _ _ _.
Arguments mq_sent {A} _.
Arguments mq_read {A} _.
Arguments mq_sender {A} _.
Arguments mq_receiver {A} _.

Definition unbounded {A} : Mpsc A := mkMpsc [] 0 true true.

(** Fails when the receiver is gone or the queue is closed. *)
Definition mpsc_send {A} (x : A) (q : Mpsc A) : option (Mpsc A) :=
  if mq_sender q && mq_receiver q then Some (mkMpsc (mq_sent q ++ [x]) (mq_read q) true true) else None.

(** [close_channel], or the last sender dropped. *)
Definition close_channel {A} (q : Mpsc A) : Mpsc A := mkMpsc (mq_sent q) (mq_read q) false (mq_receiver q).
Definition drop_receiver {A} (q : Mpsc A) : Mpsc A := mkMpsc (mq_sent q) (mq_read q) (mq_sender q) false.

(** The next element; [Ready None] when the queue is closed and empty. *)
Definition mpsc_next {A} (q : Mpsc A) : Mpsc A * Poll (option A) :=
  match mq_sent q !! mq_read q with
  | Some x => (mkMpsc (mq_sent q) (S (mq_read q)) (mq_sender q) (mq_receiver q), Ready (Some x))
  | None => if mq_sender q then (q, Pending) else (q, Ready None)
  end.

(** ** Free slots

    The loop asks the generator for keys until one is free or the first comes
    again.  After more keys than the cache has entries, without either, it
    would go on forever; that is [Panic] here. *)
Section Slots.
Context {K : Type} `{Countable K} {V E : Type} (gen : option K → outcome E K).

Fixpoint slot_loop (fuel : nat) (cache : gmap K V) (value : V) (initial next : K) : outcome E (gmap K V * option K) :=
  match fuel with
  | O => Panic
  | S fuel =>
      match cache !! next with
      | None => Ok (<[next := value]> cache, Some next)
      | Some _ =>
          next ← gen (Some next);
          if bool_decide (next = initial) then Ok (cache, None) else slot_loop fuel cache value initial next
      end
  end.

Definition insert_into_next_slot (cache : gmap K V) (value : V) : outcome E (gmap K V * option K) :=
  initial ← gen None;
  slot_loop (S (size cache)) cache value initial initial.
End Slots.

(** ** Configuration and state *)
Record SessionManagerConfig := mkManagerConfig {
  session_tag_range : Z * Z;
  initiation_timeout_base : Duration;
  idle_timeout : Duration;
  balancer_sampling_interval : Duration
}.

Definition SessionManagerConfig_default : SessionManagerConfig :=
  mkManagerConfig (16, 1024) (from_millis 5000) (from_millis 180000) (from_millis 500).

Definition range_contains (r : Z * Z) (t : Z) : bool := (r.1 <=? t) && (t <? r.2).

Definition MIN_CHALLENGE : StartChallenge := 1.
Definition MIN_SESSION_TAG_RANGE_RESERVATION : Z := 16.
Definition MIN_BALANCER_SAMPLING_INTERVAL : Duration := from_millis 100.
Definition SESSION_READINESS_TIMEOUT : Duration := from_millis 10000.

Definition initiation_timeout_max_one_way {E} (base : Duration) (hops : nat) : outcome E Duration :=
  duration_mul_u32 base (wrap 32 (Z.of_nat hops)).

(** [session_tx] names a data queue, [abort_handles] spawned tasks. *)
Record CachedSession := mkCached { session_tx : nat; routing_opts : DestinationRouting; abort_handles : list nat }.

Inductive DispatchResult := Processed | Unrelated (data : ApplicationData).

(** A session as its owner holds it: [ses_rx] names its data queue;
    [ses_socket] is the configuration of the Session protocol, where used;
    [ses_counted] tells whether its messages are counted for the balancer. *)
Record Session := mkSessionObj {
  ses_id : SessionId;
  ses_routing : DestinationRouting;
  ses_capabilities : gset Capability;
  ses_counted : bool;
  ses_rx : nat;
  ses_on_close : bool;
  ses_socket : option SessionConfig
}.

Definition socket_config (capabilities : gset Capability) : SessionConfig :=
  let rto_base := from_millis 3000 in
  let expiration_coefficient :=
    if bool_decide (Retransmission ∈ capabilities) || bool_decide (RetransmissionAckOnly ∈ capabilities) then 4 else 1 in
  {| max_buffered_segments := max_buffered_segments SessionConfig_default;
     acknowledged_frames_buffer := 100000;
     frame_expiration_age := rto_base * expiration_coefficient;
     rto_base_receiver := rto_base;
     rto_base_sender := rto_base * 2;
     cfg_backoff_base := cfg_backoff_base SessionConfig_default;
     rto_jitter := rto_jitter SessionConfig_default;
     enabled_features := elements capabilities ≫= Capability_into_iter |}.

Definition Session_new (id : SessionId) (routing : DestinationRouting) (capabilities : gset Capability)
    (counted : bool) (rx : nat) : Session :=
  mkSessionObj id routing capabilities counted rx true
    (if bool_decide (capabilities = ∅) then None else Some (socket_config capabilities)).

Record IncomingSession := mkIncoming { in_session : Session; in_target : SessionTarget }.

Record SessionClientConfig := mkClientConfig {
  forward_path_options : RoutingOptions;
  return_path_options : RoutingOptions;
  client_capabilities : list Capability;
  client_pseudonym : option HoprPseudonym;
  surb_management : option SurbBalancerConfig
}.

Definition SessionClientConfig_default : SessionClientConfig :=
  mkClientConfig (Hops 0) (Hops 0) [Segmentation] None (Some SurbBalancerConfig_default).

Abbreviation Answer := (StartEstablished SessionId + StartErrorType)%type.

(** The manager, its queues and the tasks it has spawned.  [started] is
    whether the message sender and the notifiers are set; [outbox] is what was
    given to the message sender. *)
Record ManagerState := mkManager {
  mgr_cfg : SessionManagerConfig;
  initiation_ttl : Duration;
  started : bool;
  session_initiations : gmap StartChallenge nat;
  sessions : gmap SessionId CachedSession;
  answer_queues : gmap nat (Mpsc Answer);
  data_queues : gmap nat (Mpsc bytes);
  incoming : Mpsc IncomingSession;
  closures : Mpsc SessionId;
  tasks : gset nat;
  outbox : list (ApplicationData * DestinationRouting);
  fresh_ref : nat
}.

Definition set_started b m := mkManager (mgr_cfg m) (initiation_ttl m) b (session_initiations m)
  (sessions m) (answer_queues m) (data_queues m) (incoming m) (closures m) (tasks m) (outbox m) (fresh_ref m).
Definition set_initiations x m := mkManager (mgr_cfg m) (initiation_ttl m) (started m) x
  (sessions m) (answer_queues m) (data_queues m) (incoming m) (closures m) (tasks m) (outbox m) (fresh_ref m).
Definition set_sessions x m := mkManager (mgr_cfg m) (initiation_ttl m) (started m) (session_initiations m)
  x (answer_queues m) (data_queues m) (incoming m) (closures m) (tasks m) (outbox m) (fresh_ref m).
Definition set_answer_queues x m := mkManager (mgr_cfg m) (initiation_ttl m) (started m) (session_initiations m)
  (sessions m) x (data_queues m) (incoming m) (closures m) (tasks m) (outbox m) (fresh_ref m).
Definition set_data_queues x m := mkManager (mgr_cfg m) (initiation_ttl m) (started m) (session_initiations m)
  (sessions m) (answer_queues m) x (incoming m) (closures m) (tasks m) (outbox m) (fresh_ref m).
Definition set_incoming x m := mkManager (mgr_cfg m) (initiation_ttl m) (started m) (session_initiations m)
  (sessions m) (answer_queues m) (data_queues m) x (closures m) (tasks m) (outbox m) (fresh_ref m).
Definition set_closures x m := mkManager (mgr_cfg m) (initiation_ttl m) (started m) (session_initiations m)
  (sessions m) (answer_queues m) (data_queues m) (incoming m) x (tasks m) (outbox m) (fresh_ref m).
Definition set_tasks x m := mkManager (mgr_cfg m) (initiation_ttl m) (started m) (session_initiations m)
  (sessions m) (answer_queues m) (data_queues m) (incoming m) (closures m) x (outbox m) (fresh_ref m).
Definition set_outbox x m := mkManager (mgr_cfg m) (initiation_ttl m) (started m) (session_initiations m)
  (sessions m) (answer_queues m) (data_queues m) (incoming m) (closures m) (tasks m) x (fresh_ref m).
Definition set_fresh x m := mkManager (mgr_cfg m) (initiation_ttl m) (started m) (session_initiations m)
  (sessions m) (answer_queues m) (data_queues m) (incoming m) (closures m) (tasks m) (outbox m) x.

(** A range that starts below the tags of the Start protocol is moved up. *)
Definition fit_range (r : Z * Z) : Z * Z :=
  if r.1 <? MIN_SESSION_TAG_RANGE_RESERVATION then
    (MIN_SESSION_TAG_RANGE_RESERVATION, wrap 16 (r.2 + (MIN_SESSION_TAG_RANGE_RESERVATION - r.1)))
  else r.

Definition SessionManager_new {E} (cfg : SessionManagerConfig) : outcome E ManagerState :=
  one_way ← initiation_timeout_max_one_way (initiation_timeout_base cfg) MAX_INTERMEDIATE_HOPS;
  ttl ← duration_mul_u32 one_way 2;
  Ok (mkManager (mkManagerConfig (fit_range (session_tag_range cfg)) (initiation_timeout_base cfg) (idle_timeout cfg)
                   (balancer_sampling_interval cfg))
        ttl false ∅ ∅ ∅ ∅ unbounded unbounded ∅ [] 0).

Section Manager.
Context `{!Bincode StartInitiation} `{!Bincode (StartEstablished SessionId)} `{!Bincode StartErrorType} `{!Bincode SessionId}.

Abbreviation MM := (SM ManagerState TransportSessionError).

Definition start : MM unit :=
  m ← get;
  if started m then throw (Manager AlreadyStarted) else modify (set_started true).

(** ** Shared pieces *)
Definition new_ref : MM nat :=
  m ← get; modify (set_fresh (S (fresh_ref m)));; mret (fresh_ref m).

Definition new_answer_queue : MM nat :=
  r ← new_ref; m ← get; modify (set_answer_queues (<[r := unbounded]> (answer_queues m)));; mret r.
Definition new_data_queue : MM nat :=
  r ← new_ref; m ← get; modify (set_data_queues (<[r := unbounded]> (data_queues m)));; mret r.
Definition spawn_task : MM nat :=
  r ← new_ref; m ← get; modify (set_tasks ({[r]} ∪ tasks m));; mret r.

Definition on_answer_queue (r : nat) (f : Mpsc Answer → Mpsc Answer) : MM unit :=
  m ← get; modify (set_answer_queues (alter f r (answer_queues m))).
Definition on_data_queue (r : nat) (f : Mpsc bytes → Mpsc bytes) : MM unit :=
  m ← get; modify (set_data_queues (alter f r (data_queues m))).
Definition abort_tasks (handles : list nat) : MM unit :=
  m ← get; modify (set_tasks (tasks m ∖ list_to_set handles)).

(** The values dropped when [m] fails. *)
Definition dropping {A} (cleanup : MM unit) (m : MM A) : MM A := λ s,
  match m s with
  | (s', Err e) => (fst (cleanup s'), Err e)
  | res => res
  end.

(** The message transport: [answer] is the error it returns, if any. *)
Definition send_message (answer : option TransportSessionError) (data : ApplicationData) (routing : DestinationRouting) : MM unit :=
  m ← get;
  modify (set_outbox (outbox m ++ [(data, routing)]));;
  match answer with Some e => throw e | None => mret tt end.

Definition msg_sender : MM unit :=
  m ← get; if started m then mret tt else throw (Manager NotStarted).

Definition with_context {A} (what : string) (m : MM A) : MM A := λ s,
  let '(s', r) := m s in (s', map_err (λ _, Manager (ManagerOther what)) r).

(** A failure that is only logged. *)
Definition logged {A} (m : MM A) : MM unit := λ s,
  match m s with
  | (s', Panic) => (s', Panic)
  | (s', _) => (s', Ok tt)
  end.

(** ** Initiating a session ([new_session])

    The first part runs until the initiation has been sent. *)
Record PendingSession := mkPending {
  ps_challenge : StartChallenge;
  ps_answers : nat;
  ps_routing : DestinationRouting;
  ps_timeout : Duration;
  ps_cfg : SessionClientConfig
}.

Definition challenge_gen {E} (draw : Z) (ch : option StartChallenge) : outcome E StartChallenge :=
  match ch with
  | Some challenge => Ok (Z.max ((challenge + 1) `mod` MAX_RANDOM_INTEGER) MIN_CHALLENGE)
  | None => random_integer MIN_CHALLENGE None draw
  end.

Definition begin_session (answer : option TransportSessionError) (draw : Z) (random_pseudonym : HoprPseudonym)
    (destination : Address) (target : SessionTarget) (cfg : SessionClientConfig) : MM PendingSession :=
  msg_sender;;
  rx ← new_answer_queue;
  dropping (on_answer_queue rx drop_receiver)
    (m ← get;
     '(initiations, slot) ← lift (insert_into_next_slot (challenge_gen draw) (session_initiations m) rx);
     modify (set_initiations initiations);;
     challenge ← lift (ok_or slot (Manager NoChallengeSlots));
     let start_session_msg := StartSession (mkInitiation challenge target (list_to_set (client_capabilities cfg))) in
     let pseudonym := default random_pseudonym (client_pseudonym cfg) in
     let forward_routing := RouteForward destination (Some pseudonym) (forward_path_options cfg) (Some (return_path_options cfg)) in
     data ← lift (ApplicationData_try_from start_session_msg);
     send_message answer data forward_routing;;
     timeout ← lift (initiation_timeout_max_one_way (initiation_timeout_base (mgr_cfg m))
                       (count_hops (forward_path_options cfg) + count_hops (return_path_options cfg) + 2));
     mret (mkPending challenge rx forward_routing timeout cfg)).

(** The second part polls the answer and the timer, in this order, and with an
    answer sets the session up.  [None] is to be polled again. *)
Record EstablishedSession := mkEstablishing {
  es_id : SessionId;
  es_queue : nat;
  es_tasks : list nat;
  es_pending : PendingSession
}.

Definition poll_established (elapsed : bool) (p : PendingSession) : MM (option EstablishedSession) :=
  m ← get;
  let rx := ps_answers p in
  dropping (on_answer_queue rx drop_receiver)
    (let '(q, polled) := mpsc_next (default unbounded (answer_queues m !! rx)) in
     on_answer_queue rx (λ _, q);;
     match polled with
     | Ready (Some (inl est)) =>
         tx ← new_data_queue;
         dropping (on_data_queue tx (λ q, close_channel (drop_receiver q)))
           (msg_sender;;
            match surb_management (ps_cfg p) with
            | Some _ =>
                ka ← spawn_task;
                balancer ← spawn_task;
                mret (Some (mkEstablishing (session_id est) tx [ka; balancer] p))
            | None => mret (Some (mkEstablishing (session_id est) tx [] p))
            end)
     | Ready (Some (inr e)) => throw (Rejected (reason e))
     | Ready None => throw (Manager (ManagerOther "internal error: sender has been closed without completing the session establishment"))
     | Pending => if elapsed then throw Timeout else mret None
     end).

(** The third part runs when enough reply blocks have been sent, their
    balancer has gone, or the time for them is over; without a balancer it
    follows at once. *)
Inductive Readiness := SurbsReady | SurbsCancelled | ReadinessElapsed.

(** [update] reports the level; the first one at half of the target is told. *)
Definition surbs_ready (cfg : SurbBalancerConfig) (level : Z) : bool := target_surb_buffer_size cfg `div` 2 <=? level.

Definition complete_session (ready : Readiness) (e : EstablishedSession) : MM Session :=
  let p := es_pending e in
  let abandon := on_data_queue (es_queue e) (λ q, close_channel (drop_receiver q)) in
  let session := Session_new (es_id e) (ps_routing p) (list_to_set (client_capabilities (ps_cfg p)))
                   (bool_decide (is_Some (surb_management (ps_cfg p)))) (es_queue e) in
  dropping (abandon;; on_answer_queue (ps_answers p) drop_receiver)
    (match surb_management (ps_cfg p), ready with
     | Some _, SurbsCancelled => throw (Manager (ManagerOther "surb balancer was cancelled prematurely"))
     | _, _ => mret tt
     end;;
     m ← get;
     match sessions m !! es_id e with
     | None =>
         modify (set_sessions (<[es_id e := mkCached (es_queue e) (ps_routing p) (es_tasks e)]> (sessions m)));;
         on_answer_queue (ps_answers p) drop_receiver;;
         mret session
     | Some _ => throw (Manager Loopback)
     end).

(** ** Closing *)
Definition close_session (id : SessionId) (notify_closure : bool) (answer : option TransportSessionError) : MM bool :=
  m ← get;
  match sessions m !! id with
  | Some session_data =>
      modify (set_sessions (delete id (sessions m)));;
      dropping (on_data_queue (session_tx session_data) close_channel)
        (if notify_closure then
           msg_sender;;
           data ← lift (ApplicationData_try_from (CloseSession id));
           send_message answer data (routing_opts session_data)
         else mret tt);;
      on_data_queue (session_tx session_data) close_channel;;
      abort_tasks (abort_handles session_data);;
      mret true
  | None => mret false
  end.

(** The task that closes what the sessions ask to close; failures are logged. *)
Definition handle_closure (answer : option TransportSessionError) : MM unit :=
  m ← get;
  let '(q, polled) := mpsc_next (closures m) in
  modify (set_closures q);;
  match polled with
  | Ready (Some id) => logged (close_session id true answer)
  | _ => mret tt
  end.

(** [Session::poll_close], when the inner stream is closed: the manager is
    told once. *)
Definition Session_poll_close (s : Session) : MM Session :=
  m ← get;
  (if ses_on_close s then modify (set_closures (default (closures m) (mpsc_send (ses_id s) (closures m)))) else mret tt);;
  mret (mkSessionObj (ses_id s) (ses_routing s) (ses_capabilities s) (ses_counted s) (ses_rx s) false (ses_socket s)).

(** The owner drops the session. *)
Definition drop_session (s : Session) : MM unit := on_data_queue (ses_rx s) drop_receiver.

(** Eviction from the cache of sessions, with its listener. *)
Inductive RemovalCause := Expired | Size | Explicit | Replaced.

Definition close_session_after_eviction (id : SessionId) (session_data : CachedSession) (cause : RemovalCause)
    (answer : option TransportSessionError) : MM unit :=
  m ← get;
  match cause with
  | Expired | Size =>
      if started m then
        match ApplicationData_try_from (CloseSession id) with
        | Ok data =>
            logged (send_message answer data (routing_opts session_data));;
            on_data_queue (session_tx session_data) close_channel;;
            abort_tasks (abort_handles session_data)
        | _ => mret tt
        end
      else mret tt
  | _ => mret tt
  end.

(** The entry leaves the cache, the listener runs, and the entry is dropped. *)
Definition evict_session (id : SessionId) (cause : RemovalCause) (answer : option TransportSessionError) : MM unit :=
  m ← get;
  match sessions m !! id with
  | Some session_data =>
      modify (set_sessions (delete id (sessions m)));;
      close_session_after_eviction id session_data cause answer;;
      on_data_queue (session_tx session_data) close_channel
  | None => mret tt
  end.

Definition evict_initiation (challenge : StartChallenge) : MM unit :=
  m ← get;
  match session_initiations m !! challenge with
  | Some tx =>
      modify (set_initiations (delete challenge (session_initiations m)));;
      on_answer_queue tx close_channel
  | None => mret tt
  end.

(** ** Messages *)

(** An answer to an initiation: the initiation is over, and its only sender is
    dropped after the answer. *)
Definition answer_initiation (challenge : StartChallenge) (a : Answer) (what : string) : MM unit :=
  m ← get;
  match session_initiations m !! challenge with
  | Some tx =>
      modify (set_initiations (delete challenge (session_initiations m)));;
      match mpsc_send a (default unbounded (answer_queues m !! tx)) with
      | Some q => on_answer_queue tx (λ _, close_channel q)
      | None => on_answer_queue tx close_channel;; throw (Manager (ManagerOther what))
      end
  | None => mret tt
  end.

Definition session_gen {E} (range : Z * Z) (p : HoprPseudonym) (draw : Z) (sid : option SessionId) : outcome E SessionId :=
  next_tag ← match sid with
             | Some session_id =>
                 if range.2 =? 0 then Panic else Ok (Z.max (wrap 16 (tag session_id + 1) `mod` range.2) range.1)
             | None => t ← random_integer range.1 (Some range.2) draw; Ok (wrap 16 t)
             end;
  Ok (mkSessionId next_tag p).

Definition accept_session (p : HoprPseudonym) (req : StartInitiation) (draw : Z) (answer : option TransportSessionError) : MM unit :=
  msg_sender;;
  let reply_routing := RouteReturn (Pseudonym p) in
  rx ← new_data_queue;
  m ← get;
  '(cache, slot) ← lift (insert_into_next_slot (session_gen (session_tag_range (mgr_cfg m)) p draw) (sessions m)
                            (mkCached rx reply_routing []));
  modify (set_sessions cache);;
  match slot with
  | Some session_id =>
      let session := Session_new session_id reply_routing (capabilities req) false rx in
      (match mpsc_send (mkIncoming session (target req)) (incoming m) with
       | Some q => modify (set_incoming q)
       | None => drop_session session
       end);;
      data ← lift (ApplicationData_try_from (SessionEstablished (mkEstablished (challenge req) session_id)));
      with_context "failed to send session establishment message" (send_message answer data reply_routing)
  | None =>
      on_data_queue rx (λ q, close_channel (drop_receiver q));;
      data ← lift (ApplicationData_try_from (SessionError (mkStartError (challenge req) NoSlotsAvailable)));
      with_context "failed to send session establishment error message" (send_message answer data reply_routing)
  end.

Definition handle_start_protocol_message (p : HoprPseudonym) (data : ApplicationData) (draw : Z)
    (answer : option TransportSessionError) : MM unit :=
  msg ← lift (StartProtocol_try_from data);
  match msg with
  | StartSession session_req => accept_session p session_req draw answer
  | SessionEstablished est => answer_initiation (orig_challenge est) (inl est) "could not notify session establishment"
  | SessionError error => answer_initiation (err_challenge error) (inr error) "could not notify session establishment error"
  | CloseSession session_id => logged (close_session session_id false answer)
  | KeepAlive session_id => mret tt
  end.

Definition dispatch_message (p : HoprPseudonym) (data : ApplicationData) (draw : Z)
    (answer : option TransportSessionError) : MM DispatchResult :=
  m ← get;
  let range := session_tag_range (mgr_cfg m) in
  if range_contains (0, range.1) (application_tag data) then
    handle_start_protocol_message p data draw answer;; mret Processed
  else if range_contains range (application_tag data) then
    match sessions m !! mkSessionId (application_tag data) p with
    | Some session_data =>
        match mpsc_send (app_plain_text data) (default unbounded (data_queues m !! session_tx session_data)) with
        | Some q => on_data_queue (session_tx session_data) (λ _, q);; mret Processed
        | None => throw (Manager (ManagerOther "send failed because receiver is gone"))
        end
    | None => throw UnknownData
    end
  else mret (Unrelated data).

(** An element of the keep-alive stream of a session; a failure ends it. *)
Definition send_keep_alive (task : nat) (id : SessionId) (routing : DestinationRouting) (answer : option TransportSessionError) : MM unit :=
  m ← get;
  if bool_decide (task ∈ tasks m) then
    logged (dropping (abort_tasks [task]) (data ← lift (ApplicationData_try_from (KeepAlive id)); send_message answer data routing))
  else mret tt.
End Manager.
