(* ===== verification/SessionManagerSpec.v ===== *)
(** * Properties of the session manager

    The search for a free slot, a table of streams as the specification of the
    manager, and the handshake between two managers. *)
From stdpp Require Import gmap strings.
From S2P Require Import Prelude Primitives Crypto Channels SharedKeys Packet Peers Protocol NodeProtocol SessionState Mixer.
From S2P Require Import StartProtocol SurbBalancer SessionManager.

(** ** Free slots *)
Section Slots.
Context {K : Type} `{Countable K} {V E : Type} (gen : option K → outcome E K).

(** The generator starts at the head of [l], goes through [l] and starts over. *)
Definition cycles (l : list K) : Prop :=
  NoDup l ∧ ∃ k0, head l = Some k0 ∧ gen None = Ok k0 ∧ ∀ i k, l !! i = Some k → gen (Some k) = Ok (default k0 (l !! S i)).

Definition first_free (cache : gmap K V) (l : list K) : option K := head (filter (λ k, cache !! k = None) l).

Lemma length_occupied (cache : gmap K V) l : NoDup l → Forall (λ k, is_Some (cache !! k)) l → (length l ≤ size cache)%nat.
Proof.
  intros Hnd Hall. rewrite <-(size_list_to_set l (C:=gset K)), <-size_dom by done. apply subseteq_size.
  intros k Hk%elem_of_list_to_set. apply elem_of_dom. by eapply Forall_forall in Hall.
Qed.

Lemma slot_loop_exact cache value fuel k0 l1 next l2 :
  NoDup (l1 ++ next :: l2) → head (l1 ++ next :: l2) = Some k0 →
  (∀ i k, (l1 ++ next :: l2) !! i = Some k → gen (Some k) = Ok (default k0 ((l1 ++ next :: l2) !! S i))) →
  Forall (λ k, is_Some (cache !! k)) l1 → (size cache < fuel + length l1)%nat →
  slot_loop gen fuel cache value k0 next =
    Ok (match first_free cache (next :: l2) with Some k => (<[k := value]> cache, Some k) | None => (cache, None) end).
Proof.
  revert l1 next l2. induction fuel as [|fuel IH]; intros l1 next l2 Hnd Hk0 Hgen Hocc Hfuel.
  { pose proof (length_occupied cache l1 (proj1 (proj1 (NoDup_app _ _) Hnd)) Hocc). lia. }
  cbn [slot_loop]. unfold first_free. rewrite filter_cons. destruct (cache !! next) as [v|] eqn:Hnext; [|by rewrite decide_True].
  rewrite decide_False by done. pose proof (Hgen (length l1) next) as Hg. rewrite list_lookup_middle in Hg by done.
  specialize (Hg eq_refl). rewrite Hg. cbn [mbind outcome_bind]. rewrite lookup_app_r by lia.
  replace (S (length l1) - length l1)%nat with 1%nat by lia. destruct l2 as [|n2 l2].
  { change (default k0 _) with k0. by rewrite bool_decide_true. }
  change (default k0 _) with n2. rewrite bool_decide_false.
  - apply (IH (l1 ++ [next])); rewrite <-?app_assoc; cbn; try done.
    + apply Forall_app. split; [done|]. constructor; [by rewrite Hnext|done].
    + rewrite length_app. cbn. lia.
  - intros ->. apply NoDup_app in Hnd as (_ & Hd & Hnd). destruct l1 as [|a l1]; cbn in Hk0; injection Hk0 as ->.
    + apply NoDup_cons in Hnd as [Hn _]. apply Hn. by left.
    + apply (Hd k0); [by left|]. right. by left.
Qed.

Lemma insert_into_next_slot_exact l cache value : cycles l →
  insert_into_next_slot gen cache value =
    Ok (match first_free cache l with Some k => (<[k := value]> cache, Some k) | None => (cache, None) end).
Proof.
  intros (Hnd & k0 & Hk0 & Hg0 & Hgen). unfold insert_into_next_slot. rewrite Hg0. cbn [mbind outcome_bind].
  destruct l as [|k l]; [done|]. injection Hk0 as ->. apply (slot_loop_exact cache value _ k0 []); try done. cbn. lia.
Qed.

Lemma first_free_Some cache l k : first_free cache l = Some k → k ∈ l ∧ cache !! k = None.
Proof.
  unfold first_free. intros Hh. assert (k ∈ filter (λ k, cache !! k = None) l) as Hin.
  { destruct (filter _ l); [done|]. injection Hh as ->. by left. }
  by apply list_elem_of_filter in Hin as [? ?].
Qed.

Lemma first_free_None cache l : first_free cache l = None ↔ ∀ k, k ∈ l → is_Some (cache !! k).
Proof.
  unfold first_free. split.
  - intros Hh k Hk. destruct (cache !! k) eqn:Hc; [done|]. assert (k ∈ filter (λ k, cache !! k = None) l) as Hin
      by (by apply list_elem_of_filter). destruct (filter _ l); [|done]. by apply not_elem_of_nil in Hin.
  - intros Hall. destruct (filter _ l) as [|k l'] eqn:Hf; [done|]. assert (k ∈ filter (λ k, cache !! k = None) l) as Hin
      by (rewrite Hf; by left). apply list_elem_of_filter in Hin as [Hn Hk]. destruct (Hall k Hk). congruence.
Qed.
End Slots.

(** The numbers from [t], up to [e], and then again from [s]. *)
Definition ring (s e t : Z) : list Z := seqZ t (e - t) ++ seqZ s (t - s).

Lemma elem_of_ring s e t k : s ≤ t < e → k ∈ ring s e t ↔ s ≤ k < e.
Proof. intros Ht. unfold ring. rewrite elem_of_app, !elem_of_seqZ. lia. Qed.

Lemma NoDup_ring s e t : NoDup (ring s e t).
Proof.
  apply NoDup_app. split; [apply NoDup_seqZ|]. split; [|apply NoDup_seqZ].
  intros k Hk%elem_of_seqZ Hk'%elem_of_seqZ. lia.
Qed.

Lemma ring_next s e t i k : 0 < s → s ≤ t < e → ring s e t !! i = Some k →
  Z.max ((k + 1) `mod` e) s = default t (ring s e t !! S i).
Proof.
  intros Hs Ht Hk. assert (k ∈ ring s e t) as Hin by (by eapply list_elem_of_lookup_2).
  apply elem_of_ring in Hin; [|done]. unfold ring in *. set (n := length (seqZ t (e - t))).
  assert (n = Z.to_nat (e - t)) as Hn by (unfold n; by rewrite length_seqZ).
  assert ((k + 1) `mod` e = if decide (k + 1 = e) then 0 else k + 1) as ->.
  { case_decide as Heq; [rewrite Heq; apply Z_mod_same_full|]. apply Z.mod_small. lia. }
  destruct (decide (i < n)%nat) as [Hi|Hi].
  - rewrite lookup_app_l in Hk by done. apply lookup_seqZ in Hk as [-> Hi'].
    destruct (decide (S i < n)%nat) as [Hi2|Hi2].
    + rewrite lookup_app_l, lookup_seqZ_lt by (try done; lia). cbn. case_decide; lia.
    + rewrite lookup_app_r by (fold n; lia). fold n. replace (S i - n)%nat with 0%nat by lia.
      rewrite decide_True by lia. destruct (decide (t = s)) as [->|Hne].
      * rewrite Z.sub_diag. change (0 `max` s = s). lia.
      * rewrite lookup_seqZ_lt by lia. cbn. lia.
  - rewrite lookup_app_r in Hk by (fold n; lia). fold n in Hk. apply lookup_seqZ in Hk as [-> Hi'].
    rewrite decide_False by lia. rewrite lookup_app_r by (fold n; lia). fold n.
    destruct (decide (s + Z.of_nat (i - n) + 1 < t)).
    + rewrite lookup_seqZ_lt by lia. cbn. lia.
    + rewrite lookup_seqZ_ge by lia. cbn. lia.
Qed.

Lemma random_integer_Ok {E} s e draw t : random_integer (E:=E) s e draw = Ok t → s ≤ t < default MAX_RANDOM_INTEGER e.
Proof.
  unfold random_integer. destruct (_ && _) eqn:Hb; [|done]. intros [= <-]. apply andb_true_iff in Hb as [Hb _].
  apply Z.ltb_lt in Hb. pose proof (Z.mod_pos_bound draw (default MAX_RANDOM_INTEGER e - s)). lia.
Qed.

Lemma random_integer_is_Ok {E} s e draw : s < default MAX_RANDOM_INTEGER e ≤ MAX_RANDOM_INTEGER → is_Ok (random_integer (E:=E) s e draw).
Proof.
  intros [Hs He]. unfold random_integer. apply Z.ltb_lt in Hs as ->. apply Z.leb_le in He as ->. by eexists.
Qed.

Lemma head_ring s e t : s ≤ t < e → head (ring s e t) = Some t.
Proof. intros Ht. unfold ring. rewrite head_lookup, lookup_app_l, lookup_seqZ_lt by (rewrite ?length_seqZ; lia). f_equal. lia. Qed.

Lemma challenge_cycles {E} draw : ∃ c, cycles (challenge_gen (E:=E) draw) (ring MIN_CHALLENGE MAX_RANDOM_INTEGER c) ∧
  MIN_CHALLENGE ≤ c < MAX_RANDOM_INTEGER.
Proof.
  destruct (random_integer_is_Ok (E:=E) MIN_CHALLENGE None draw) as [c Hc]; [done|]. exists c.
  pose proof (random_integer_Ok _ _ _ _ Hc) as Hb. change (default _ _) with MAX_RANDOM_INTEGER in Hb. split; [|done].
  split; [apply NoDup_ring|]. exists c. split; [by apply head_ring|]. split; [done|]. intros i k Hk. cbn [challenge_gen]. f_equal.
  by apply ring_next.
Qed.

(** A range of tags the manager works with. *)
Definition tags_ok (r : Z * Z) : Prop := 0 < r.1 < r.2 ∧ r.2 < 2 ^ 16.

Lemma session_cycles {E} r p draw : tags_ok r → ∃ t, r.1 ≤ t < r.2 ∧
  cycles (session_gen (E:=E) r p draw) ((λ t, mkSessionId t p) <$> ring r.1 r.2 t).
Proof.
  intros [Hr H16]. destruct (random_integer_is_Ok (E:=E) r.1 (Some r.2) draw) as [t Ht].
  { change (default _ _) with r.2. unfold MAX_RANDOM_INTEGER. lia. }
  pose proof (random_integer_Ok _ _ _ _ Ht) as Hb. change (default _ _) with r.2 in Hb. exists t. split; [done|].
  split. { apply NoDup_fmap_2; [|apply NoDup_ring]. by intros ?? [= ->]. }
  exists (mkSessionId t p). split.
  { pose proof (head_ring _ _ _ Hb) as Hh. destruct (ring r.1 r.2 t); [done|]. by injection Hh as ->. }
  split.
  - unfold session_gen. rewrite Ht. cbn [mbind outcome_bind]. do 2 f_equal. unfold wrap. apply Z.mod_small. lia.
  - intros i k. rewrite !list_lookup_fmap. destruct (ring r.1 r.2 t !! i) as [k'|] eqn:Hk; [|done]. intros [= <-].
    unfold session_gen. rewrite (proj2 (Z.eqb_neq r.2 0)) by lia. cbn [mbind outcome_bind tag]. f_equal.
    assert (r.1 ≤ k' < r.2) by (apply (elem_of_ring _ _ t); [done|by eapply list_elem_of_lookup_2]).
    assert (wrap 16 (k' + 1) = k' + 1) as -> by (unfold wrap; apply Z.mod_small; lia).
    rewrite (ring_next _ _ t i k'); [|lia|done|done]. by destruct (ring r.1 r.2 t !! S i).
Qed.

Section Spec.
Context `{!Bincode StartInitiation} `{!Bincode (StartEstablished SessionId)} `{!Bincode StartErrorType} `{!Bincode SessionId}.
#[local] Set Default Proof Using "Type*".
Abbreviation MM := (SM ManagerState TransportSessionError).

(** ** What most steps leave alone

    The registered sessions and what was ever sent into each data queue. *)
Definition sent_map (m : ManagerState) : gmap nat (list bytes) := mq_sent <$> data_queues m.

Record framed (s0 s : ManagerState) : Prop := {
  fr_sessions : sessions s = sessions s0;
  fr_sent : sent_map s = sent_map s0;
  fr_cfg : mgr_cfg s = mgr_cfg s0;
  fr_fresh : (fresh_ref s0 ≤ fresh_ref s)%nat
}.

#[export] Instance framed_refl : Reflexive framed.
Proof using Type. by split. Qed.
#[export] Instance framed_trans : Transitive framed.
Proof using Type. intros a b c [] []. split; [congruence..|lia]. Qed.

Definition frames {A} (m : MM A) : Prop := ∀ s, framed s (m s).1.

Lemma frames_apply {A} (m : MM A) s : frames m → framed s (m s).1.
Proof using Type. done. Qed.
Lemma frames_ret {A} (a : A) : frames (mret a).
Proof using Type. by intros s. Qed.
Lemma frames_throw {A} e : frames (throw (A:=A) e).
Proof using Type. by intros s. Qed.
Lemma frames_lift {A} (o : outcome _ A) : frames (lift o).
Proof using Type. by intros s. Qed.
Lemma frames_get : frames get.
Proof using Type. by intros s. Qed.
Lemma frames_bind {A B} (m : MM A) (k : A → MM B) : frames m → (∀ a, frames (k a)) → frames (m ≫= k).
Proof using Type.
  intros Hm Hk s. unfold mbind, SM_bind. pose proof (Hm s) as Hs. destruct (m s) as [s' [a|e|]]; [|done..].
  etrans; [exact Hs|apply Hk].
Qed.
Lemma frames_modify f : (∀ s, framed s (f s)) → frames (modify f).
Proof using Type. intros Hf s. apply Hf. Qed.
Lemma frames_dropping {A} cleanup (m : MM A) : frames cleanup → frames m → frames (dropping cleanup m).
Proof using Type.
  intros Hc Hm s. unfold dropping. pose proof (Hm s) as Hs. destruct (m s) as [s' [a|e|]]; [done| |done].
  etrans; [exact Hs|apply Hc].
Qed.
Lemma frames_logged {A} (m : MM A) : frames m → frames (logged m).
Proof using Type. intros Hm s. unfold logged. pose proof (Hm s) as Hs. by destruct (m s) as [s' [a|e|]]. Qed.
Lemma frames_with_context {A} what (m : MM A) : frames m → frames (with_context what m).
Proof using Type. intros Hm s. unfold with_context. pose proof (Hm s) as Hs. by destruct (m s) as [s' r]. Qed.

Lemma sent_alter r f (D : gmap nat (Mpsc bytes)) :
  (∀ q, D !! r = Some q → mq_sent (f q) = mq_sent q) → mq_sent <$> alter f r D = mq_sent <$> D.
Proof using Type.
  intros Hf. apply map_eq. intros i. rewrite !lookup_fmap. destruct (decide (i = r)) as [->|Hne].
  - rewrite lookup_alter_eq. destruct (D !! r) as [q|] eqn:Hq; [|done]. cbn. by rewrite Hf.
  - by rewrite lookup_alter_ne.
Qed.

Lemma frames_data_queue r f : (∀ q, mq_sent (f q) = mq_sent q) → frames (on_data_queue r f).
Proof using Type. intros Hf s. split; [done| |done|done]. apply sent_alter. intros q _. apply Hf. Qed.

Lemma frames_answer_queue r f : frames (on_answer_queue r f).
Proof using Type. by intros s. Qed.
Lemma frames_new_answer_queue : frames new_answer_queue.
Proof using Type. intros s. split; try done. apply Nat.le_succ_diag_r. Qed.
Lemma frames_spawn_task : frames spawn_task.
Proof using Type. intros s. split; try done. apply Nat.le_succ_diag_r. Qed.
Lemma frames_abort hs : frames (abort_tasks hs).
Proof using Type. by intros s. Qed.
Lemma frames_send answer d r : frames (send_message answer d r).
Proof using Type. intros s. unfold send_message. by destruct answer. Qed.
Lemma frames_msg_sender : frames msg_sender.
Proof using Type. intros s. unfold msg_sender. cbn. unfold mbind, SM_bind. cbn. by destruct (started s). Qed.
End Spec.

Create HintDb frames.
#[export] Hint Resolve frames_ret frames_throw frames_lift frames_get frames_answer_queue frames_new_answer_queue
  frames_spawn_task frames_abort frames_send frames_msg_sender : frames.

(** Splits a computation into its steps and closes those that are known. *)
Ltac frame :=
  repeat first
    [ solve [eauto with frames]
    | apply frames_data_queue; by intros []
    | apply frames_bind; [|intros ?]
    | apply frames_dropping
    | apply frames_logged
    | apply frames_with_context
    | apply frames_modify; by intros ?
    | case_match ].

Section Table.
Context `{!Bincode StartInitiation} `{!Bincode (StartEstablished SessionId)} `{!Bincode StartErrorType} `{!Bincode SessionId}.
#[local] Set Default Proof Using "Type*".
Abbreviation MM := (SM ManagerState TransportSessionError).

Lemma frames_begin answer draw pn dest target cfg : frames (begin_session answer draw pn dest target cfg).
Proof. unfold begin_session. frame. Qed.

Lemma frames_answer_initiation ch a what : frames (answer_initiation ch a what).
Proof. unfold answer_initiation. frame. Qed.

Lemma frames_evict_initiation ch : frames (evict_initiation ch).
Proof. unfold evict_initiation. frame. Qed.

Lemma frames_start : frames start.
Proof. unfold start. frame. Qed.

Lemma frames_keep_alive task id r answer : frames (send_keep_alive task id r answer).
Proof. unfold send_keep_alive. frame. Qed.

Lemma frames_poll_close s : frames (Session_poll_close s).
Proof. unfold Session_poll_close. frame. Qed.

Lemma frames_drop s : frames (drop_session s).
Proof. unfold drop_session. frame. Qed.

Lemma frames_eviction id cs cause answer : frames (close_session_after_eviction id cs cause answer).
Proof. unfold close_session_after_eviction. frame. Qed.

(** ** Closing removes the entry and nothing else *)
Definition closed (id : SessionId) (s s' : ManagerState) : Prop := framed (set_sessions (delete id (sessions s)) s) s'.

Lemma closed_absent id s : sessions s !! id = None → closed id s s.
Proof using Type. intros Hid. split; [cbn; symmetry; by apply delete_id|done..]. Qed.

Lemma close_session_closed id notify answer s : closed id s (close_session id notify answer s).1.
Proof.
  unfold close_session. rewrite run_get. destruct (sessions s !! id) as [cs|] eqn:Hid; [|by apply closed_absent].
  rewrite run_modify. apply frames_apply. frame.
Qed.

Lemma evict_session_closed id cause answer s : closed id s (evict_session id cause answer s).1.
Proof.
  unfold evict_session. rewrite run_get. destruct (sessions s !! id) as [cs|] eqn:Hid; [|by apply closed_absent].
  rewrite run_modify. apply frames_apply. apply frames_bind; [apply frames_eviction|intros _]. frame.
Qed.

Lemma logged_fst {A} (m : MM A) s : (logged m s).1 = (m s).1.
Proof using Type. unfold logged. by destruct (m s) as [s' [a|e|]]. Qed.

(** ** Accepting takes a free tag, or answers that there is none *)
Definition queue_added (s : ManagerState) : ManagerState :=
  set_data_queues (<[fresh_ref s := unbounded]> (data_queues s)) (set_fresh (S (fresh_ref s)) s).

Lemma run_new_data_queue {A} (k : nat → MM A) s : (new_data_queue ≫= k) s = k (fresh_ref s) (queue_added s).
Proof using Type. done. Qed.

Lemma run_msg_sender {A} (k : unit → MM A) s : started s = true → (msg_sender ≫= k) s = k tt s.
Proof using Type. intros Hs. unfold msg_sender. rewrite run_bind, run_get, Hs. done. Qed.

Lemma not_started {A} (k : unit → MM A) s : started s = false → (msg_sender ≫= k) s = (s, Err (Manager NotStarted)).
Proof using Type. intros Hs. unfold msg_sender. rewrite run_bind, run_get, Hs. done. Qed.

Definition accepted (p : HoprPseudonym) (id : SessionId) (s s' : ManagerState) : Prop :=
  pseudonym id = p ∧ range_contains (session_tag_range (mgr_cfg s)) (tag id) = true ∧ sessions s !! id = None ∧
  framed (set_sessions (<[id := mkCached (fresh_ref s) (RouteReturn (Pseudonym p)) []]> (sessions s)) (queue_added s)) s'.

Definition no_free_tag (p : HoprPseudonym) (s : ManagerState) : Prop :=
  ∀ t, range_contains (session_tag_range (mgr_cfg s)) t = true → is_Some (sessions s !! mkSessionId t p).

Lemma slot_search {E} p draw s (value : CachedSession) : tags_ok (session_tag_range (mgr_cfg s)) →
  (∃ id, insert_into_next_slot (session_gen (E:=E) (session_tag_range (mgr_cfg s)) p draw) (sessions s) value =
      Ok (<[id := value]> (sessions s), Some id) ∧
    pseudonym id = p ∧ range_contains (session_tag_range (mgr_cfg s)) (tag id) = true ∧ sessions s !! id = None) ∨
  (insert_into_next_slot (session_gen (E:=E) (session_tag_range (mgr_cfg s)) p draw) (sessions s) value = Ok (sessions s, None) ∧
    no_free_tag p s).
Proof using Type.
  intros Hr. destruct (session_cycles (E:=E) (session_tag_range (mgr_cfg s)) p draw Hr) as (t0 & Ht0 & Hc).
  pose proof (insert_into_next_slot_exact (E:=E) _ _ (sessions s) value Hc) as Heq.
  destruct (first_free (sessions s) _) as [id|] eqn:Hf.
  - apply first_free_Some in Hf as [(t & -> & Ht)%list_elem_of_fmap Hnone]. left. eexists. split; [exact Heq|].
    split; [done|]. split; [|done]. apply (elem_of_ring _ _ t0) in Ht; [|done]. unfold range_contains. cbn. apply andb_true_iff.
    split; [apply Z.leb_le|apply Z.ltb_lt]; lia.
  - right. split; [exact Heq|]. intros t [Hlo%Z.leb_le Hhi%Z.ltb_lt]%andb_true_iff. rewrite first_free_None in Hf. apply Hf.
    apply list_elem_of_fmap. exists t. split; [done|]. apply elem_of_ring; [done|lia].
Qed.

Lemma accept_session_effect p req draw answer s s' r :
  tags_ok (session_tag_range (mgr_cfg s)) → accept_session p req draw answer s = (s', r) →
  s' = s ∨ (∃ id, accepted p id s s') ∨ no_free_tag p s ∧ framed (queue_added s) s'.
Proof.
  intros Hr. unfold accept_session. destruct (started s) eqn:Hs.
  2: { rewrite not_started by done. intros [= <- _]. by left. }
  rewrite run_msg_sender, run_new_data_queue, run_get by done. intros Hrun. right.
  destruct (slot_search (E:=TransportSessionError) p draw (queue_added s) (mkCached (fresh_ref s) (RouteReturn (Pseudonym p)) []) Hr)
    as [(id & Hslot & Hp & Ht & Hid)|[Hslot Hno]]; rewrite Hslot, run_lift in Hrun; cbv beta iota in Hrun; rewrite run_modify in Hrun.
  - left. exists id. split; [done|]. split; [done|]. split; [done|].
    match type of Hrun with ?m _ = _ => assert (frames m) as Hf by frame end. specialize (Hf (set_sessions (<[id:=mkCached (fresh_ref s) (RouteReturn (Pseudonym p)) []]> (sessions (queue_added s))) (queue_added s))).
    by rewrite Hrun in Hf.
  - right. split; [done|].
    match type of Hrun with ?m _ = _ => assert (frames m) as Hf by frame end. specialize (Hf (set_sessions (sessions (queue_added s)) (queue_added s))).
    rewrite Hrun in Hf. by etrans; [|exact Hf].
Qed.

(** ** Edges *)

(** A closure whose notification fails leaves the tasks of the session
    running: the keep-alive messages go on. *)
Lemma failed_notification_keeps_tasks id cs d e s : started s = true → sessions s !! id = Some cs →
  ApplicationData_try_from (CloseSession id) = Ok d →
  ∃ s', close_session id true (Some e) s = (s', Err e) ∧ sessions s' !! id = None ∧ tasks s' = tasks s.
Proof.
  intros Hs Hid Hd. unfold close_session. rewrite run_get, Hid, run_modify. unfold dropping.
  assert (∀ A (k : unit → MM A), (msg_sender ≫= k) (set_sessions (delete id (sessions s)) s) = k tt (set_sessions (delete id (sessions s)) s)) as Hm
    by (intros A k; by apply run_msg_sender).
  unfold mbind at 1, SM_bind at 1. rewrite Hm, Hd, run_lift. eexists. split; [reflexivity|]. split; [exact (lookup_delete_eq _ _)|done].
Qed.

(** So does a session that turns out to exist already. *)
Lemma loopback_keeps_tasks ready e cs s : ready ≠ SurbsCancelled → sessions s !! es_id e = Some cs →
  (complete_session ready e s).2 = Err (Manager Loopback) ∧ tasks (complete_session ready e s).1 = tasks s.
Proof.
  intros Hr Hid. unfold complete_session. set (abandon := on_data_queue _ _ ;; _).
  set (check := match surb_management _ with Some _ => _ | None => _ end).
  assert (check s = (s, Ok tt)) as Hc by (unfold check; by destruct (surb_management _), ready).
  unfold dropping. match goal with |- context [(check ;; ?k) s] => rewrite (run_Ok check (λ _, k) s s tt Hc) end.
  by rewrite run_get, Hid.
Qed.

(** With three hops both ways the answer is awaited for longer than the
    initiation is kept. *)
Lemma wait_outlives_initiation cfg base : initiation_timeout_base cfg = base → 0 < base → as_secs (base * 8) ≤ u_max 64 →
  ∃ m wait, SessionManager_new (E:=TransportSessionError) cfg = Ok m ∧
    initiation_timeout_max_one_way (E:=TransportSessionError) base (count_hops (Hops 3) + count_hops (Hops 3) + 2) = Ok wait ∧
    initiation_ttl m < wait.
Proof using Type.
  intros Hb Hpos Hle. assert (∀ k, 0 ≤ k ≤ 8 → (as_secs (base * k) <=? u_max 64) = true) as Hk.
  { intros k Hk. apply Z.leb_le. etrans; [|exact Hle]. unfold as_secs. apply Z.div_le_mono; nia. }
  unfold SessionManager_new, initiation_timeout_max_one_way, duration_mul_u32. rewrite Hb. cbn [count_hops Nat.add].
  change (wrap 32 (Z.of_nat MAX_INTERMEDIATE_HOPS)) with 3. change (wrap 32 (Z.of_nat 8)) with 8.
  rewrite !Hk by lia. cbn [mbind outcome_bind]. assert ((as_secs (base * 3 * 2) <=? u_max 64) = true) as ->
    by (replace (base * 3 * 2) with (base * 6) by lia; by apply Hk).
  eexists _, _. split; [reflexivity|]. split; [reflexivity|]. cbn. lia.
Qed.

(** Moving a range up may carry its end over the largest tag. *)
Lemma range_end_wraps : fit_range (0, 65530) = (16, 10).
Proof using Type. done. Qed.

(** Whoever names an id may close the session. *)
Lemma anyone_may_close p data draw answer id s : StartProtocol_try_from data = Ok (CloseSession id) →
  sessions (handle_start_protocol_message p data draw answer s).1 !! id = None.
Proof.
  intros Hd. unfold handle_start_protocol_message. rewrite Hd, run_lift, logged_fst.
  rewrite (fr_sessions _ _ (close_session_closed id false answer s)). exact (lookup_delete_eq _ _).
Qed.
End Table.
