(* ===== verification/SessionTable.v ===== *)
(** * The session manager as a table of streams

    A node with its manager and everything that refers to it: the initiations
    under way, the sessions held by their owners.  Whatever happens, the
    manager is a table from session ids to streams of payloads: a message
    extends the stream of its own tag and pseudonym, or opens or closes one
    entry, and nothing else changes. *)
From stdpp Require Import gmap strings.
From S2P Require Import Prelude Primitives Crypto Channels SharedKeys Packet Peers Protocol NodeProtocol SessionState Mixer.
From S2P Require Import StartProtocol SurbBalancer SessionManager SessionManagerSpec.

Record World := mkWorld {
  mgr : ManagerState;
  pendings : list PendingSession;
  establishing : list EstablishedSession;
  owned : list Session
}.

(** What can happen, with what the transport, the clock and chance decide. *)
Inductive Event :=
| EStart
| EBegin (answer : option TransportSessionError) (draw : Z) (random_pseudonym : HoprPseudonym)
    (dest : Address) (to : SessionTarget) (cfg : SessionClientConfig)
| EPoll (i : nat) (elapsed : bool)
| EComplete (i : nat) (ready : Readiness)
| EDispatch (p : HoprPseudonym) (data : ApplicationData) (draw : Z) (answer : option TransportSessionError)
| EClosure (answer : option TransportSessionError)
| EAccept
| ERead (i : nat)
| EClose (i : nat)
| EDrop (i : nat)
| EEvictSession (id : SessionId) (cause : RemovalCause) (answer : option TransportSessionError)
| EEvictInitiation (ch : StartChallenge)
| EKeepAlive (task : nat) (id : SessionId) (routing : DestinationRouting) (answer : option TransportSessionError).

Section World.
Context `{!Bincode StartInitiation} `{!Bincode (StartEstablished SessionId)} `{!Bincode StartErrorType} `{!Bincode SessionId}.
#[local] Set Default Proof Using "Type*".

Definition set_mgr (m : ManagerState) (w : World) : World := mkWorld m (pendings w) (establishing w) (owned w).

Definition run_event (e : Event) (w : World) : World :=
  match e with
  | EStart => set_mgr (start (mgr w)).1 w
  | EBegin answer draw pn dest to cfg =>
      match begin_session answer draw pn dest to cfg (mgr w) with
      | (m, Ok p) => mkWorld m (pendings w ++ [p]) (establishing w) (owned w)
      | (m, _) => set_mgr m w
      end
  | EPoll i elapsed =>
      match pendings w !! i with
      | Some p =>
          match poll_established elapsed p (mgr w) with
          | (m, Ok (Some e)) => mkWorld m (delete i (pendings w)) (establishing w ++ [e]) (owned w)
          | (m, Ok None) => set_mgr m w
          | (m, _) => mkWorld m (delete i (pendings w)) (establishing w) (owned w)
          end
      | None => w
      end
  | EComplete i ready =>
      match establishing w !! i with
      | Some e =>
          match complete_session ready e (mgr w) with
          | (m, Ok s) => mkWorld m (pendings w) (delete i (establishing w)) (owned w ++ [s])
          | (m, _) => mkWorld m (pendings w) (delete i (establishing w)) (owned w)
          end
      | None => w
      end
  | EDispatch p data draw answer => set_mgr (dispatch_message p data draw answer (mgr w)).1 w
  | EClosure answer => set_mgr (handle_closure answer (mgr w)).1 w
  | EAccept =>
      let '(q, polled) := mpsc_next (incoming (mgr w)) in
      let w := set_mgr (set_incoming q (mgr w)) w in
      match polled with
      | Ready (Some s) => mkWorld (mgr w) (pendings w) (establishing w) (owned w ++ [in_session s])
      | _ => w
      end
  | ERead i =>
      match owned w !! i with
      | Some s => set_mgr (on_data_queue (ses_rx s) (λ q, (mpsc_next q).1) (mgr w)).1 w
      | None => w
      end
  | EClose i =>
      match owned w !! i with
      | Some s =>
          match Session_poll_close s (mgr w) with
          | (m, Ok s) => mkWorld m (pendings w) (establishing w) (<[i := s]> (owned w))
          | (m, _) => set_mgr m w
          end
      | None => w
      end
  | EDrop i =>
      match owned w !! i with
      | Some s => mkWorld (drop_session s (mgr w)).1 (pendings w) (establishing w) (delete i (owned w))
      | None => w
      end
  | EEvictSession id cause answer => set_mgr (evict_session id cause answer (mgr w)).1 w
  | EEvictInitiation ch => set_mgr (evict_initiation ch (mgr w)).1 w
  | EKeepAlive task id routing answer => set_mgr (send_keep_alive task id routing answer (mgr w)).1 w
  end.

Definition run (es : list Event) (w : World) : World := foldl (λ w e, run_event e w) w es.

(** ** The specification *)
Abbreviation Table := (gmap SessionId (list bytes)).

Definition stream (m : ManagerState) (cs : CachedSession) : list bytes := default [] (sent_map m !! session_tx cs).
Definition table (m : ManagerState) : Table := stream m <$> sessions m.

Definition opens (id : SessionId) (t t' : Table) : Prop := t !! id = None ∧ t' = <[id := []]> t.

Definition data_step (p : HoprPseudonym) (data : ApplicationData) (ok : bool) (t t' : Table) : Prop :=
  let id := mkSessionId (application_tag data) p in
  if ok then ∃ l, t !! id = Some l ∧ t' = <[id := l ++ [app_plain_text data]]> t else t' = t.

Definition start_step (range : Z * Z) (p : HoprPseudonym) (data : ApplicationData) (t t' : Table) : Prop :=
  match StartProtocol_try_from data with
  | Ok (StartSession _) => t' = t ∨ ∃ t1, range_contains range t1 = true ∧ opens (mkSessionId t1 p) t t'
  | Ok (CloseSession id) => t' = delete id t
  | _ => t' = t
  end.

Definition table_step (w : World) (e : Event) (t t' : Table) : Prop :=
  let range := session_tag_range (mgr_cfg (mgr w)) in
  match e with
  | EDispatch p data draw answer =>
      if range_contains (0, range.1) (application_tag data) then start_step range p data t t'
      else if range_contains range (application_tag data) then
        data_step p data (match (dispatch_message p data draw answer (mgr w)).2 with Ok _ => true | _ => false end) t t'
      else t' = t
  | EComplete i _ =>
      match establishing w !! i with
      | Some e => t' = t ∨ opens (es_id e) t t'
      | None => t' = t
      end
  | EClosure _ =>
      match (mpsc_next (closures (mgr w))).2 with
      | Ready (Some id) => t' = delete id t
      | _ => t' = t
      end
  | EEvictSession id _ _ => t' = delete id t
  | _ => t' = t
  end.

(** ** The invariant: every stream has one writer *)
Definition owner (m : ManagerState) (q : nat) : Prop := ∃ id cs, sessions m !! id = Some cs ∧ session_tx cs = q.

Record wf (w : World) : Prop := {
  wf_range : tags_ok (session_tag_range (mgr_cfg (mgr w)));
  wf_known : ∀ q, owner (mgr w) q → is_Some (sent_map (mgr w) !! q) ∧ (q < fresh_ref (mgr w))%nat;
  wf_apart : ∀ id id' cs cs', sessions (mgr w) !! id = Some cs → sessions (mgr w) !! id' = Some cs' →
    session_tx cs = session_tx cs' → id = id';
  wf_distinct : NoDup (es_queue <$> establishing w);
  wf_waiting : ∀ e, e ∈ establishing w →
    sent_map (mgr w) !! es_queue e = Some [] ∧ (es_queue e < fresh_ref (mgr w))%nat ∧ ¬ owner (mgr w) (es_queue e)
}.

Lemma stream_framed m m' cs : framed m m' → stream m' cs = stream m cs.
Proof using Type. intros Hf. unfold stream. by rewrite (fr_sent _ _ Hf). Qed.

Lemma table_framed m m' : framed m m' → table m' = table m.
Proof using Type. intros Hf. unfold table. rewrite (fr_sessions _ _ Hf). apply map_fmap_ext. intros id cs _. by apply stream_framed. Qed.

Lemma owner_framed m m' q : framed m m' → owner m' q ↔ owner m q.
Proof using Type. intros Hf. unfold owner. by rewrite (fr_sessions _ _ Hf). Qed.

(** A step that leaves the entries alone keeps the invariant. *)
Lemma wf_framed w w' : wf w → framed (mgr w) (mgr w') → establishing w' = establishing w → wf w'.
Proof using Type.
  intros [] Hf He. destruct Hf as [Hs Hsent Hcfg Hfr] eqn:Heq. clear Heq. split.
  - by rewrite Hcfg.
  - intros q (id & cs & Hid & Hq). rewrite Hs in Hid. rewrite Hsent. destruct (wf_known0 q) as [? ?]; [by exists id, cs|].
    split; [done|lia].
  - rewrite Hs. done.
  - by rewrite He.
  - rewrite He. intros e Hin. destruct (wf_waiting0 e Hin) as (? & ? & Hno). rewrite Hsent. split; [done|]. split; [lia|].
    unfold owner. by rewrite Hs.
Qed.

(** Fewer entries. *)
Lemma wf_removed w id m' : wf w → framed (set_sessions (delete id (sessions (mgr w))) (mgr w)) m' →
  wf (set_mgr m' w) ∧ table m' = delete id (table (mgr w)).
Proof using Type.
  intros Hw Hf. assert (wf (set_mgr (set_sessions (delete id (sessions (mgr w))) (mgr w)) w)) as Hw1.
  { destruct Hw. split; cbn; try done.
    - intros q (id' & cs & Hid & Hq). cbn in Hid. apply lookup_delete_Some in Hid as [_ Hid]. apply wf_known0. by exists id', cs.
    - intros id1 id2 c1 c2 [_ H1]%lookup_delete_Some [_ H2]%lookup_delete_Some. eauto.
    - intros e He. destruct (wf_waiting0 e He) as (? & ? & Hno). split; [done|]. split; [done|].
      intros (id' & cs & Hid & Hq). cbn in Hid. apply lookup_delete_Some in Hid as [_ Hid]. apply Hno. by exists id', cs. }
  split; [by eapply wf_framed|]. rewrite (table_framed _ _ Hf). unfold table. cbn. by rewrite fmap_delete.
Qed.

(** One more entry, with a queue that is empty and has no other user. *)
Lemma wf_added w m1 id cs P L O :
  wf w → sessions (mgr w) !! id = None → sessions m1 = <[id := cs]> (sessions (mgr w)) →
  mgr_cfg m1 = mgr_cfg (mgr w) → (fresh_ref (mgr w) ≤ fresh_ref m1)%nat → (session_tx cs < fresh_ref m1)%nat →
  sent_map m1 !! session_tx cs = Some [] →
  (∀ q, (q < fresh_ref (mgr w))%nat → sent_map m1 !! q = sent_map (mgr w) !! q) →
  ¬ owner (mgr w) (session_tx cs) → session_tx cs ∉ es_queue <$> L →
  NoDup (es_queue <$> L) → L ⊆ establishing w →
  wf (mkWorld m1 P L O) ∧ opens id (table (mgr w)) (table m1).
Proof using Type.
  intros [Hrange Hknown Hapart _ Hwait] Hnone Hs Hcfg Hfr Hlt Hq Hsame Hno HL Hnd Hsub.
  assert (∀ id' c, sessions m1 !! id' = Some c → id' = id ∧ c = cs ∨ id' ≠ id ∧ sessions (mgr w) !! id' = Some c) as Hcases.
  { intros id' c. rewrite Hs. intros [[-> ->]|[? ?]]%lookup_insert_Some; auto. }
  split; [split; cbn|].
  - by rewrite Hcfg.
  - intros q (id' & c & Hid & <-). destruct (Hcases _ _ Hid) as [[-> ->]|[_ Hid']]; [by rewrite Hq|].
    destruct (Hknown (session_tx c)) as [Hk Hl]; [by exists id', c|]. rewrite Hsame by done. split; [done|lia].
  - intros id1 id2 c1 c2 H1 H2 Heq. destruct (Hcases _ _ H1) as [[-> ->]|[_ H1']], (Hcases _ _ H2) as [[-> ->]|[_ H2']];
      [done| | |by eapply Hapart]; exfalso; apply Hno; [exists id2, c2|exists id1, c1]; done.
  - done.
  - intros e He. destruct (Hwait e (Hsub e He)) as (Hse & Hle & Hne). rewrite Hsame by done. split; [done|]. split; [lia|].
    intros (id' & c & Hid & Heq). destruct (Hcases _ _ Hid) as [[-> ->]|[_ Hid']].
    + apply HL. rewrite Heq. apply list_elem_of_fmap. by exists e.
    + apply Hne. by exists id', c.
  - split; [unfold table; by rewrite lookup_fmap, Hnone|]. unfold table. rewrite Hs, fmap_insert. f_equal.
    + unfold stream. by rewrite Hq.
    + apply map_fmap_ext. intros id' c Hid. unfold stream. rewrite Hsame; [done|]. apply Hknown. by exists id', c.
Qed.

Lemma not_owner_fresh w : wf w → ¬ owner (mgr w) (fresh_ref (mgr w)).
Proof using Type. intros Hw Ho. apply (wf_known _ Hw) in Ho as [_ ?]. lia. Qed.

Lemma fresh_not_waiting w : wf w → fresh_ref (mgr w) ∉ es_queue <$> establishing w.
Proof using Type. intros Hw (e & Heq & He)%list_elem_of_fmap. apply (wf_waiting _ Hw) in He as (_ & ? & _). lia. Qed.

Lemma sent_queue_added m q : sent_map (queue_added m) !! q = if decide (q = fresh_ref m) then Some [] else sent_map m !! q.
Proof using Type.
  unfold sent_map. cbn. rewrite fmap_insert. case_decide as Hq; [by rewrite Hq, lookup_insert_eq|by rewrite lookup_insert_ne].
Qed.

(** A new queue that no one refers to yet. *)
Lemma wf_queue_added w : wf w → wf (set_mgr (queue_added (mgr w)) w) ∧ table (queue_added (mgr w)) = table (mgr w).
Proof using Type.
  intros Hw. split; [destruct Hw as [Hr Hk Ha Hd Hwt]; split; cbn [mgr set_mgr establishing]; try done;
    change (fresh_ref (queue_added (mgr w))) with (S (fresh_ref (mgr w)))|].
  - intros q Hq. destruct (Hk q Hq) as [? ?]. rewrite sent_queue_added, decide_False by lia. split; [done|lia].
  - intros e He. destruct (Hwt e He) as (? & ? & ?). rewrite sent_queue_added, decide_False by lia. split; [done|]. split; [lia|done].
  - unfold table. cbn. apply map_fmap_ext. intros id cs Hid. unfold stream. rewrite sent_queue_added, decide_False; [done|].
    destruct (wf_known _ Hw (session_tx cs)) as [_ ?]; [by exists id, cs|lia].
Qed.

Lemma wf_accepted w p id m' : wf w → accepted p id (mgr w) m' →
  wf (set_mgr m' w) ∧ ∃ t, range_contains (session_tag_range (mgr_cfg (mgr w))) t = true ∧ opens (mkSessionId t p) (table (mgr w)) (table m').
Proof using Type.
  intros Hw (Hp & Ht & Hnone & Hf). pose proof (fr_sessions _ _ Hf) as Hs. pose proof (fr_sent _ _ Hf) as Hsent.
  pose proof (fr_cfg _ _ Hf) as Hcfg. pose proof (fr_fresh _ _ Hf) as Hfr. cbn in Hs, Hcfg, Hfr.
  assert (∀ q, sent_map m' !! q = if decide (q = fresh_ref (mgr w)) then Some [] else sent_map (mgr w) !! q) as Hq.
  { intros q. rewrite Hsent. apply sent_queue_added. }
  destruct (wf_added w m' id (mkCached (fresh_ref (mgr w)) (RouteReturn (Pseudonym p)) []) (pendings w) (establishing w) (owned w)) as [Hw' Ho];
    cbn; try done.
  - lia.
  - by rewrite Hq, decide_True.
  - intros q Hlt. rewrite Hq, decide_False by lia. done.
  - by apply not_owner_fresh.
  - by apply fresh_not_waiting.
  - apply Hw.
  - split; [done|]. exists (tag id). split; [done|]. rewrite <-Hp. by destruct id.
Qed.

(** A payload extends the stream of one entry. *)
Lemma wf_data w id cs x m' : wf w → sessions (mgr w) !! id = Some cs →
  sessions m' = sessions (mgr w) → mgr_cfg m' = mgr_cfg (mgr w) → fresh_ref m' = fresh_ref (mgr w) →
  sent_map m' = alter (λ l, l ++ [x]) (session_tx cs) (sent_map (mgr w)) →
  wf (set_mgr m' w) ∧ ∃ l, table (mgr w) !! id = Some l ∧ table m' = <[id := l ++ [x]]> (table (mgr w)).
Proof using Type.
  intros Hw Hid Hs Hcfg Hfr Hsent. destruct (wf_known _ Hw (session_tx cs)) as [[l Hl] Hlt]; [by exists id, cs|].
  split; [destruct Hw as [Hr Hk Ha Hd Hwt]; split; cbn|].
  - by rewrite Hcfg.
  - intros q (id' & c & Hid' & Hq). rewrite Hs in Hid'. destruct (Hk q) as [Hkq ?]; [by exists id', c|].
    rewrite Hsent, Hfr. split; [|done]. destruct (decide (q = session_tx cs)) as [->|Hne];
      [rewrite lookup_alter_eq, Hl; done|by rewrite lookup_alter_ne].
  - by rewrite Hs.
  - done.
  - intros e He. destruct (Hwt e He) as (? & ? & Hno). unfold owner in *. rewrite Hs, Hfr, Hsent. split; [|done].
    rewrite lookup_alter_ne; [done|]. intros Heq. apply Hno. by exists id, cs.
  - exists l. split; [unfold table; rewrite lookup_fmap, Hid; cbn; unfold stream; by rewrite Hl|].
    apply map_eq. intros id'. unfold table. rewrite Hs, lookup_fmap. destruct (decide (id' = id)) as [->|Hne].
    + rewrite lookup_insert_eq, Hid. cbn. unfold stream. by rewrite Hsent, lookup_alter_eq, Hl.
    + rewrite lookup_insert_ne, lookup_fmap by done. destruct (sessions (mgr w) !! id') as [c|] eqn:Hc; [|done]. cbn. f_equal.
      unfold stream. rewrite Hsent, lookup_alter_ne; [done|]. intros Heq. apply Hne. by eapply (wf_apart _ Hw).
Qed.

(** ** What the steps of a new session do *)
Lemma poll_effect elapsed p m m' r : poll_established elapsed p m = (m', r) →
  framed m m' ∧ (∀ e, r ≠ Ok (Some e)) ∨ framed (queue_added m) m' ∧ ∀ e, r = Ok (Some e) → es_queue e = fresh_ref m.
Proof.
  unfold poll_established. rewrite run_get. destruct (mpsc_next _) as [q polled]. unfold dropping at 1.
  destruct polled as [[[est|err]|]|].
  - change ((on_answer_queue (ps_answers p) (λ _, q) ≫= ?k) m) with (k tt (set_answer_queues (alter (λ _, q) (ps_answers p) (answer_queues m)) m)).
    set (m1 := set_answer_queues _ m). cbv beta iota. rewrite run_new_data_queue. intros Hrun. right. change (fresh_ref m) with (fresh_ref m1).
    destruct (dropping _ _ (queue_added m1)) as [s1 o] eqn:Hd.
    assert (framed (queue_added m1) s1 ∧ ∀ e, o = Ok (Some e) → es_queue e = fresh_ref m1) as [Hf Ho].
    { split; [change s1 with (s1, o).1; rewrite <-Hd; apply frames_apply; frame|]. intros e ->. revert Hd. unfold dropping.
      set (m2 := queue_added m1). clearbody m2. destruct (started m2) eqn:Hst; [rewrite run_msg_sender by done|by rewrite not_started].
      destruct (surb_management (ps_cfg p)); intros [= _ <-]; done. }
    assert (framed (queue_added m) s1) as Hf' by (transitivity (queue_added m1); [by split|done]).
    destruct o; injection Hrun as <- <-; (split; [by transitivity s1|done]).
  - intros [= <- <-]. left. by split.
  - intros [= <- <-]. left. by split.
  - destruct elapsed; intros [= <- <-]; left; by split.
Qed.

Lemma complete_effect ready e m m' r : complete_session ready e m = (m', r) →
  framed m m' ∨
  sessions m !! es_id e = None ∧
  framed (set_sessions (<[es_id e := mkCached (es_queue e) (ps_routing (es_pending e)) (es_tasks e)]> (sessions m)) m) m'.
Proof.
  unfold complete_session. set (abandon := on_data_queue _ _ ;; _). assert (frames abandon) as Hg by (unfold abandon; frame).
  set (check := match surb_management _ with Some _ => _ | None => _ end).
  assert (check m = (m, Ok tt) ∨ ∃ er, check m = (m, Err er)) as Hc.
  { unfold check. destruct (surb_management _); [destruct ready|]; eauto. }
  unfold dropping. unfold mbind at 1, SM_bind at 1.
  destruct Hc as [Hc|[er Hc]]; rewrite Hc; [|intros [= <- _]; left; apply Hg].
  rewrite run_get. destruct (sessions m !! es_id e) as [cs|] eqn:Hid; [intros [= <- _]; left; apply Hg|].
  rewrite run_modify. intros [= <- _]. by right.
Qed.

(** ** Messages *)
Lemma wf_start_message w p data draw answer : wf w →
  let m' := (handle_start_protocol_message p data draw answer (mgr w)).1 in
  wf (set_mgr m' w) ∧ start_step (session_tag_range (mgr_cfg (mgr w))) p data (table (mgr w)) (table m').
Proof.
  intros Hw. unfold start_step, handle_start_protocol_message. destruct (StartProtocol_try_from data) as [msg|e|]; cbn zeta.
  2,3: split; [by destruct w|done].
  assert (∀ A (mm : SM ManagerState TransportSessionError A), frames mm →
    wf (set_mgr (mm (mgr w)).1 w) ∧ table (mm (mgr w)).1 = table (mgr w)) as Hframe.
  { intros A mm Hmm. split; [by eapply wf_framed|by apply table_framed]. }
  rewrite run_lift. destruct msg as [req|est|err|id|id].
  - destruct (accept_session p req draw answer (mgr w)) as [m' r] eqn:Hrun. cbn [fst].
    apply accept_session_effect in Hrun as [->|[[id Hacc]|[_ Hf]]]; [|destruct (wf_accepted _ _ _ _ Hw Hacc) as [? ?]; split; [done|by right]| |by apply Hw].
    + split; [by destruct w|by left].
    + destruct (wf_queue_added w Hw) as [Hw' Ht]. split; [by eapply wf_framed; [exact Hw'| |]|left].
      by rewrite (table_framed _ _ Hf).
  - apply (Hframe _ (answer_initiation _ _ _)), frames_answer_initiation.
  - apply (Hframe _ (answer_initiation _ _ _)), frames_answer_initiation.
  - rewrite logged_fst. apply wf_removed; [done|]. apply close_session_closed.
  - apply (Hframe _ (mret tt)). frame.
Qed.

Lemma sent_alter_to m r q q' (x : bytes) : data_queues m !! r = Some q → mq_sent q' = mq_sent q ++ [x] →
  mq_sent <$> alter (λ _, q') r (data_queues m) = alter (λ l, l ++ [x]) r (sent_map m).
Proof using Type.
  intros Hq Heq. unfold sent_map. apply map_eq. intros i. rewrite lookup_fmap. destruct (decide (i = r)) as [->|Hne].
  - rewrite !lookup_alter_eq, lookup_fmap, Hq. cbn. by rewrite Heq.
  - by rewrite !lookup_alter_ne, lookup_fmap.
Qed.

Lemma wf_dispatch w p data draw answer : wf w →
  wf (run_event (EDispatch p data draw answer) w) ∧
  table_step w (EDispatch p data draw answer) (table (mgr w)) (table (mgr (run_event (EDispatch p data draw answer) w))).
Proof.
  intros Hw. unfold run_event, table_step, dispatch_message. rewrite run_get. cbn zeta.
  set (range := session_tag_range (mgr_cfg (mgr w))).
  assert (wf (set_mgr (mgr w) w)) as Hsame by (by destruct w).
  destruct (range_contains (0, range.1) (application_tag data)).
  { pose proof (wf_start_message w p data draw answer Hw) as Hs. cbn zeta in Hs. unfold mbind, SM_bind.
    by destruct (handle_start_protocol_message p data draw answer (mgr w)) as [m' [u|e|]]. }
  destruct (range_contains range (application_tag data)); [|by split].
  unfold data_step. destruct (sessions (mgr w) !! _) as [cs|] eqn:Hid; [|by split].
  destruct (wf_known _ Hw (session_tx cs)) as [Hk _]; [by eexists _, cs|]. unfold sent_map in Hk. rewrite lookup_fmap in Hk.
  destruct (data_queues (mgr w) !! session_tx cs) as [q|] eqn:Hq; [|by destruct Hk].
  change (default unbounded (Some q)) with q. unfold mpsc_send. destruct (mq_sender q && mq_receiver q); [|by split].
  cbv iota. set (q' := mkMpsc _ _ _ _).
  apply (wf_data w _ cs (app_plain_text data) (set_data_queues (alter (λ _, q') (session_tx cs) (data_queues (mgr w))) (mgr w)));
    try done. by eapply sent_alter_to.
Qed.

(** Every event keeps the invariant and is a step of the table. *)
Lemma event_step w e : wf w → wf (run_event e w) ∧ table_step w e (table (mgr w)) (table (mgr (run_event e w))).
Proof.
  intros Hw.
  assert (∀ w', framed (mgr w) (mgr w') → establishing w' = establishing w → wf w' ∧ table (mgr w') = table (mgr w)) as Hframe.
  { intros w' Hf He. split; [by eapply wf_framed|by apply table_framed]. }
  destruct e as [|answer draw pn dest to cfg|i elapsed|i ready|p data draw answer|answer| |i|i|i|id cause answer|ch|task id r answer];
    cbn [run_event table_step]; try (apply Hframe; [|done]).
  - apply frames_apply, frames_start.
  - pose proof (frames_begin answer draw pn dest to cfg (mgr w)) as Hf.
    by destruct (begin_session _ _ _ _ _ _ _) as [m' [p|er|]]; apply Hframe.
  - destruct (pendings w !! i) as [p|]; [|done]. destruct (poll_established elapsed p (mgr w)) as [m' r] eqn:Hrun.
    apply poll_effect in Hrun as [[Hf Hr]|[Hf Hr]].
    + destruct r as [[e|]|er|]; [by destruct (Hr e)| | |]; by apply Hframe.
    + destruct (wf_queue_added w Hw) as [Hw' Ht]. rewrite <-Ht, <-(table_framed _ _ Hf). clear Ht.
      assert (wf (set_mgr m' w)) as Hm by (by eapply wf_framed).
      destruct r as [[e|]|er|]; [| | |]; (split; [|done]); try (by eapply wf_framed; [exact Hm| |]).
      specialize (Hr e eq_refl). destruct Hm as [Hrg Hk Ha Hd Hwt]. split; cbn in *; try done.
      * rewrite fmap_app. apply NoDup_app. split; [done|]. split; [|apply NoDup_singleton].
        intros q Hq Heq%list_elem_of_singleton. rewrite Hr in Heq. subst q. by apply (fresh_not_waiting w).
      * intros e' [He|He]%elem_of_app; [by apply Hwt|]. apply list_elem_of_singleton in He as ->. rewrite Hr. unfold owner.
        rewrite (fr_sent _ _ Hf), (fr_sessions _ _ Hf), sent_queue_added, decide_True by done. split; [done|].
        pose proof (fr_fresh _ _ Hf) as Hfr. cbn in Hfr. split; [lia|]. by apply (not_owner_fresh w).
  - destruct (establishing w !! i) as [e|] eqn:He; [|done]. destruct (complete_session ready e (mgr w)) as [m' r] eqn:Hrun.
    assert (e ∈ establishing w) as Hin by (by eapply list_elem_of_lookup_2).
    assert (NoDup (es_queue <$> delete i (establishing w)) ∧ delete i (establishing w) ⊆ establishing w ∧
      es_queue e ∉ es_queue <$> delete i (establishing w)) as (Hnd & Hsub & Hnot).
    { pose proof (wf_distinct _ Hw) as Hd. pose proof (delete_Permutation _ _ _ He) as Hp. rewrite Hp in Hd.
      apply NoDup_cons in Hd as [Hnot Hd]. split; [done|]. split; [|done]. intros e' Hin'. rewrite Hp. by right. }
    destruct (wf_waiting _ Hw _ Hin) as (Hsent & Hlt & Hno).
    assert (∀ O, wf (mkWorld m' (pendings w) (delete i (establishing w)) O) ∧ (table m' = table (mgr w) ∨ opens (es_id e) (table (mgr w)) (table m'))) as Hgoal;
      [intros O|by destruct r].
    apply complete_effect in Hrun as [Hf|[Hnone Hf]].
    + split; [|left; by apply table_framed]. apply (wf_framed (mkWorld (mgr w) (pendings w) (delete i (establishing w)) O)); [|done|done].
      destruct Hw as [Hr Hk Ha Hd Hwt]. split; cbn; try done. intros e' He'. by apply Hwt, Hsub.
    + destruct (wf_added w m' (es_id e) (mkCached (es_queue e) (ps_routing (es_pending e)) (es_tasks e)) (pendings w) (delete i (establishing w)) O)
        as [Hw' Ho]; try done; [apply (fr_sessions _ _ Hf)|apply (fr_cfg _ _ Hf)|apply (fr_fresh _ _ Hf)| | | |split; [done|by right]].
      * pose proof (fr_fresh _ _ Hf) as Hfr. cbn in Hfr |- *. lia.
      * by rewrite (fr_sent _ _ Hf).
      * intros q _. by rewrite (fr_sent _ _ Hf).
  - by apply wf_dispatch.
  - unfold handle_closure. rewrite run_get. destruct (mpsc_next (closures (mgr w))) as [q polled]. rewrite run_modify. cbn [snd].
    destruct polled as [[id|]|]; [|by apply Hframe..]. rewrite logged_fst.
    apply (wf_removed (set_mgr (set_closures q (mgr w)) w)); [by eapply wf_framed|apply close_session_closed].
  - destruct (mpsc_next (incoming (mgr w))) as [q [[s|]|]]; by apply Hframe.
  - destruct (owned w !! i) as [s|]; [|by apply Hframe]. apply Hframe; [|done]. apply frames_apply, frames_data_queue.
    intros q. unfold mpsc_next. by repeat case_match.
  - destruct (owned w !! i) as [s|]; [|by apply Hframe]. pose proof (frames_poll_close s (mgr w)) as Hf.
    by destruct (Session_poll_close s (mgr w)) as [m' [s'|er|]]; apply Hframe.
  - destruct (owned w !! i) as [s|]; [|by apply Hframe]. apply Hframe; [|done]. apply frames_apply, frames_drop.
  - apply wf_removed; [done|]. apply evict_session_closed.
  - apply frames_apply, frames_evict_initiation.
  - apply frames_apply, frames_keep_alive.
Qed.

Lemma wf_run es w : wf w → wf (run es w).
Proof. revert w. induction es as [|e es IH]; intros w Hw; [done|]. apply IH. by apply event_step. Qed.

Lemma wf_new m cfg : SessionManager_new (E:=TransportSessionError) cfg = Ok m → tags_ok (session_tag_range (mgr_cfg m)) →
  wf (mkWorld m [] [] []) ∧ table m = ∅.
Proof using Type.
  unfold SessionManager_new. intros (o & _ & (ttl & _ & [= <-])%bind_Ok)%bind_Ok Hr. split; [|done].
  split; cbn; try done; [|constructor|]; [intros q (id & cs & Hid & _)|intros e He]; [|by apply not_elem_of_nil in He].
  done.
Qed.

(** C20. The session manager is a table of streams.  After any sequence of
    events - sessions initiated, answered, refused, accepted, evicted, read,
    closed and dropped, messages of any kind from anyone, failures of the
    transport - a further event does exactly this to the streams of payloads
    sent to the sessions: a message with a tag of the range extends, when it
    is delivered, the stream of that tag and the sender's pseudonym; a message
    of the Start protocol opens an empty stream under the sender's pseudonym
    for an initiation, removes the one it names for a closure, and changes
    nothing otherwise; a session completed opens an empty stream under an id
    that had none; closing and eviction remove one.  No payload ever reaches
    the session of another id. *)
Theorem manager_refines_table cfg m0 es e :
  SessionManager_new (E:=TransportSessionError) cfg = Ok m0 → tags_ok (session_tag_range (mgr_cfg m0)) →
  let w := run es (mkWorld m0 [] [] []) in
  table m0 = ∅ ∧ table_step w e (table (mgr w)) (table (mgr (run_event e w))).
Proof.
  intros Hnew Hr. cbn zeta. destruct (wf_new _ _ Hnew Hr) as [Hw Ht]. split; [done|]. apply event_step. by apply wf_run.
Qed.
End World.
