(* ===== verification/SessionHandshake.v ===== *)
(** * The handshake of two session managers

    The Start protocol from one manager to another and back: the initiation,
    the tag the exit chooses, and the session both sides end up with. *)
From stdpp Require Import gmap strings.
From S2P Require Import Prelude Primitives Crypto Channels SharedKeys Packet Peers Protocol NodeProtocol SessionState Mixer.
From S2P Require Import StartProtocol SurbBalancer SessionManager SessionManagerSpec.

Section Handshake.
Context `{!Bincode StartInitiation, !BincodeLaws StartInitiation} `{!Bincode (StartEstablished SessionId), !BincodeLaws (StartEstablished SessionId)}.
Context `{!Bincode StartErrorType, !BincodeLaws StartErrorType} `{!Bincode SessionId, !BincodeLaws SessionId}.
Context (writable : ∀ msg : StartProtocol SessionId, is_Ok (ApplicationData_try_from msg)).
#[local] Set Default Proof Using "Type*".

(** A message written for the other side. *)
Lemma written msg : ∃ d, ApplicationData_try_from msg = Ok d ∧ StartProtocol_try_from d = Ok msg ∧ 1 ≤ application_tag d ≤ 5.
Proof.
  destruct (writable msg) as [d Hd]. exists d. split; [done|]. split; [by apply start_roundtrip|by eapply start_tag_small].
Qed.

Definition started_ok (m : ManagerState) : Prop :=
  started m = true ∧ tags_ok (session_tag_range (mgr_cfg m)) ∧ MIN_SESSION_TAG_RANGE_RESERVATION ≤ (session_tag_range (mgr_cfg m)).1.

(** ** The exit *)
Record accepted_session (p : HoprPseudonym) (s s' : ManagerState) (id : SessionId) : Prop := {
  ac_pseudonym : pseudonym id = p;
  ac_tag : range_contains (session_tag_range (mgr_cfg s)) (tag id) = true;
  ac_free : sessions s !! id = None;
  ac_sessions : sessions s' = <[id := mkCached (fresh_ref s) (RouteReturn (Pseudonym p)) []]> (sessions s);
  ac_queue : ∃ q, data_queues s' !! fresh_ref s = Some q ∧ mq_sent q = [] ∧ mq_sender q = true ∧ (mq_receiver q = mq_sender (incoming s) && mq_receiver (incoming s));
  ac_cfg : mgr_cfg s' = mgr_cfg s
}.

Lemma run_accept p req draw s : started_ok s →
  ∃ reply s', accept_session p req draw None s = (s', Ok tt) ∧
    outbox s' = outbox s ++ [(reply, RouteReturn (Pseudonym p))] ∧ 1 ≤ application_tag reply ≤ 5 ∧
    ((∃ id, accepted_session p s s' id ∧ StartProtocol_try_from reply = Ok (SessionEstablished (mkEstablished (challenge req) id))) ∨
     (no_free_tag p s ∧ sessions s' = sessions s ∧
      StartProtocol_try_from reply = Ok (SessionError (T:=SessionId) (mkStartError (challenge req) NoSlotsAvailable)))).
Proof.
  intros (Hs & Hr & _). unfold accept_session. rewrite run_msg_sender, run_new_data_queue, run_get by done.
  destruct (slot_search (E:=TransportSessionError) p draw (queue_added s) (mkCached (fresh_ref s) (RouteReturn (Pseudonym p)) []) Hr)
    as [(id & Hslot & Hp & Ht & Hid)|[Hslot Hno]]; rewrite Hslot, run_lift; cbv beta iota; rewrite run_modify.
  - destruct (written (SessionEstablished (mkEstablished (challenge req) id))) as (reply & Hw & Hread & Htag). exists reply.
    unfold mpsc_send. cbn [incoming set_sessions queue_added set_data_queues set_fresh].
    destruct (mq_sender (incoming s) && mq_receiver (incoming s)) eqn:Hopen.
    + rewrite run_modify, Hw, run_lift. eexists. split; [done|]. split; [done|]. split; [done|]. left. exists id. split; [|done].
      split; try done. exists unbounded. cbn. by rewrite lookup_insert_eq, Hopen.
    + unfold drop_session, on_data_queue. rewrite run_bind, run_get, run_modify, Hw, run_lift. eexists. split; [done|].
      split; [done|]. split; [done|]. left. exists id. split; [|done]. split; try done.
      exists (drop_receiver unbounded). cbn. by rewrite lookup_alter_eq, lookup_insert_eq, Hopen.
  - destruct (written (SessionError (mkStartError (challenge req) NoSlotsAvailable))) as (reply & Hw & Hread & Htag). exists reply.
    unfold on_data_queue. rewrite run_bind, run_get, run_modify, Hw, run_lift. eexists. split; [done|]. split; [done|].
    split; [done|]. by right.
Qed.

(** C22. An exit gives a new session a free tag, or says that it has none.  The
    search ends, whatever the table holds: when some tag of the range is not
    in use with the sender's pseudonym, one such tag is taken, nothing else in
    the table changes, and the reply names the id; when every tag is in use,
    the table stays as it is and the reply is the error [NoSlotsAvailable].
    Either way the reply carries the challenge of the request and goes back by
    the sender's pseudonym. *)
Theorem accept_takes_free_tag p req draw s : started_ok s →
  ∃ reply s', accept_session p req draw None s = (s', Ok tt) ∧ outbox s' = outbox s ++ [(reply, RouteReturn (Pseudonym p))] ∧
    ((∃ id, pseudonym id = p ∧ range_contains (session_tag_range (mgr_cfg s)) (tag id) = true ∧ sessions s !! id = None ∧
        sessions s' = <[id := mkCached (fresh_ref s) (RouteReturn (Pseudonym p)) []]> (sessions s) ∧
        StartProtocol_try_from reply = Ok (SessionEstablished (mkEstablished (challenge req) id))) ∨
     ((∀ t, range_contains (session_tag_range (mgr_cfg s)) t = true → is_Some (sessions s !! mkSessionId t p)) ∧
        sessions s' = sessions s ∧
        StartProtocol_try_from reply = Ok (SessionError (T:=SessionId) (mkStartError (challenge req) NoSlotsAvailable)))).
Proof.
  intros Hok. destruct (run_accept p req draw s Hok) as (reply & s' & Hrun & Hout & _ & Hcases). exists reply, s'.
  split; [done|]. split; [done|]. destruct Hcases as [(id & [] & Hread)|Hno]; [left; by exists id|by right].
Qed.

(** ** The entry *)
Definition can_begin (cfg : SessionClientConfig) (s : ManagerState) : Prop :=
  (count_hops (forward_path_options cfg) ≤ MAX_INTERMEDIATE_HOPS)%nat ∧
  (count_hops (return_path_options cfg) ≤ MAX_INTERMEDIATE_HOPS)%nat ∧
  0 ≤ initiation_timeout_base (mgr_cfg s) ∧ as_secs (initiation_timeout_base (mgr_cfg s) * 8) ≤ u_max 64 ∧
  Z.of_nat (size (session_initiations s)) < MAX_RANDOM_INTEGER - 1.

Lemma challenge_search {E} draw (cache : gmap StartChallenge nat) value : Z.of_nat (size cache) < MAX_RANDOM_INTEGER - 1 →
  ∃ c, insert_into_next_slot (challenge_gen (E:=E) draw) cache value = Ok (<[c := value]> cache, Some c) ∧ cache !! c = None.
Proof using Type.
  intros Hsize. destruct (challenge_cycles (E:=E) draw) as (c0 & Hc & Hb).
  pose proof (insert_into_next_slot_exact (E:=E) _ _ cache value Hc) as Heq.
  destruct (first_free cache _) as [c|] eqn:Hf.
  - apply first_free_Some in Hf as [_ Hn]. by exists c.
  - exfalso. rewrite first_free_None in Hf. pose proof (length_occupied cache _ (proj1 Hc)) as Hl. rewrite Forall_forall in Hl.
    specialize (Hl Hf). unfold ring in Hl. rewrite length_app, !length_seqZ in Hl. unfold MIN_CHALLENGE in *. lia.
Qed.

Lemma one_way_Ok {E} base n : 0 ≤ base → as_secs (base * 8) ≤ u_max 64 → (n ≤ 8)%nat →
  initiation_timeout_max_one_way (E:=E) base n = Ok (base * Z.of_nat n).
Proof using Type.
  intros Hb Hle Hn. unfold initiation_timeout_max_one_way, duration_mul_u32. assert (wrap 32 (Z.of_nat n) = Z.of_nat n) as ->
    by (unfold wrap; apply Z.mod_small; lia).
  assert (as_secs (base * Z.of_nat n) ≤ u_max 64) as Hle' by (etrans; [|exact Hle]; unfold as_secs; apply Z.div_le_mono; nia).
  by apply Z.leb_le in Hle' as ->.
Qed.

Record begun (pn : HoprPseudonym) (to : SessionTarget) (cfg : SessionClientConfig) (s s' : ManagerState) (p : PendingSession) (d : ApplicationData) : Prop := {
  be_outbox : outbox s' = outbox s ++ [(d, ps_routing p)];
  be_read : StartProtocol_try_from d = Ok (StartSession (T:=SessionId) (mkInitiation (ps_challenge p) to (list_to_set (client_capabilities cfg))));
  be_tag : 1 ≤ application_tag d ≤ 5;
  be_initiations : session_initiations s' !! ps_challenge p = Some (ps_answers p);
  be_queue : answer_queues s' !! ps_answers p = Some unbounded;
  be_sessions : sessions s' = sessions s;
  be_cfg : mgr_cfg s' = mgr_cfg s;
  be_started : started s' = true;
  be_ps_cfg : ps_cfg p = cfg;
  be_routing : ∃ dest f r, ps_routing p = RouteForward dest (Some pn) f r
}.

Lemma run_begin draw pn dest to cfg s : started_ok s → can_begin cfg s → client_pseudonym cfg = None →
  ∃ s' p d, begin_session None draw pn dest to cfg s = (s', Ok p) ∧ begun pn to cfg s s' p d.
Proof.
  intros (Hs & _ & _) (Hf & Hr & Hb & Hle & Hsize) Hpn. unfold begin_session. rewrite run_msg_sender by done.
  change ((new_answer_queue ≫= ?k) s) with (k (fresh_ref s) (set_answer_queues (<[fresh_ref s := unbounded]> (answer_queues s)) (set_fresh (S (fresh_ref s)) s))).
  cbv beta. set (s1 := set_answer_queues _ _). unfold dropping. rewrite run_get.
  destruct (challenge_search (E:=TransportSessionError) draw (session_initiations s1) (fresh_ref s)) as (c & Hslot & _); [done|].
  rewrite Hslot, run_lift. cbv beta iota. rewrite run_modify. cbn [ok_or]. rewrite run_lift.
  destruct (written (StartSession (mkInitiation c to (list_to_set (client_capabilities cfg))))) as (d & Hw & Hread & Htag).
  rewrite Hw, run_lift. unfold send_message. rewrite run_bind, run_get, run_bind, run_modify, run_ret.
  change (mgr_cfg s1) with (mgr_cfg s). unfold MAX_INTERMEDIATE_HOPS in Hf, Hr. rewrite one_way_Ok, run_lift by (done || lia).
  eexists _, _, d. split; [reflexivity|]. split; cbn; try done; try (by rewrite lookup_insert_eq).
  rewrite Hpn. by eexists _, _, _.
Qed.

(** ** Messages between the two *)
Lemma dispatch_start p data draw answer s : started_ok s → 1 ≤ application_tag data ≤ 5 →
  dispatch_message p data draw answer s = (handle_start_protocol_message p data draw answer ≫= λ _, mret Processed) s.
Proof using Type.
  intros (_ & _ & Hlow) Ht. unfold dispatch_message. rewrite run_get. cbn zeta.
  unfold MIN_SESSION_TAG_RANGE_RESERVATION in Hlow. assert (range_contains (0, (session_tag_range (mgr_cfg s)).1) (application_tag data) = true) as ->; [|done].
  apply andb_true_iff. split; [apply Z.leb_le|apply Z.ltb_lt]; cbn; lia.
Qed.

(** What is sent to the session arrives in its queue. *)
Definition delivers (m : ManagerState) (id : SessionId) (rx : nat) : Prop :=
  (∃ cs, sessions m !! id = Some cs ∧ session_tx cs = rx) ∧
  ∀ x draw answer, ∃ m' q q', dispatch_message (pseudonym id) (mkAppData (tag id) x) draw answer m = (m', Ok Processed) ∧
    data_queues m !! rx = Some q ∧ data_queues m' !! rx = Some q' ∧ mq_sent q = [] ∧ mq_sent q' = [x].

Lemma delivers_open m id cs q : range_contains (session_tag_range (mgr_cfg m)) (tag id) = true →
  sessions m !! id = Some cs → data_queues m !! session_tx cs = Some q → mq_sent q = [] → mq_sender q = true → mq_receiver q = true →
  delivers m id (session_tx cs).
Proof using Type.
  intros Hin Hid Hq Hsent Hs Hr. split; [by exists cs|]. intros x draw answer. unfold dispatch_message. rewrite run_get. cbn zeta.
  cbn [application_tag app_plain_text]. assert (range_contains (0, (session_tag_range (mgr_cfg m)).1) (tag id) = false) as ->.
  { apply andb_true_iff in Hin as [Hlo%Z.leb_le _]. apply andb_false_iff. right. apply Z.ltb_ge. exact Hlo. }
  rewrite Hin. assert (mkSessionId (tag id) (pseudonym id) = id) as -> by (by destruct id). rewrite Hid, Hq.
  change (default unbounded (Some q)) with q. unfold mpsc_send. rewrite Hs, Hr. cbv iota. cbn [andb].
  eexists _, q, _. split; [reflexivity|]. split; [done|]. cbn. rewrite lookup_alter_eq, Hq. cbn. split; [done|]. split; [done|]. by rewrite Hsent.
Qed.

Lemma run_answer p d draw answer s c q est : started_ok s → 1 ≤ application_tag d ≤ 5 →
  StartProtocol_try_from d = Ok (SessionEstablished est) → orig_challenge est = c →
  session_initiations s !! c = Some q → answer_queues s !! q = Some unbounded →
  dispatch_message p d draw answer s =
    (set_answer_queues (alter (λ _, mkMpsc [inl est] 0 false true) q (answer_queues s)) (set_initiations (delete c (session_initiations s)) s), Ok Processed).
Proof using Type.
  intros Hok Ht Hread <- Hc Hq. rewrite dispatch_start by done. unfold handle_start_protocol_message, answer_initiation.
  rewrite Hread, run_bind, run_lift, run_bind, run_get, Hc, run_bind, run_modify, Hq. done.
Qed.

Lemma run_poll elapsed p s est : started s = true →
  answer_queues s !! ps_answers p = Some (mkMpsc [inl est] 0 false true) →
  ∃ s' e, poll_established elapsed p s = (s', Ok (Some e)) ∧ es_id e = session_id est ∧ es_pending e = p ∧
    sessions s' = sessions s ∧ mgr_cfg s' = mgr_cfg s ∧ data_queues s' !! es_queue e = Some unbounded.
Proof using Type.
  intros Hs Hq. unfold poll_established. rewrite run_get, Hq. change (default unbounded (Some _)) with (mkMpsc [inl est : Answer] 0 false true).
  cbv beta iota zeta. change (mpsc_next (mkMpsc [inl est : Answer] 0 false true)) with (mkMpsc [inl est : Answer] 1 false true, Ready (Some (inl est : Answer))).
  cbv beta iota. unfold dropping at 1. unfold on_answer_queue at 1. rewrite run_bind, run_get, run_modify, run_new_data_queue.
  set (s1 := queue_added _). unfold dropping. assert (started s1 = true) as Hs1 by done. rewrite run_msg_sender by done.
  destruct (surb_management (ps_cfg p)); eexists _, _; (split; [reflexivity|]); cbn; rewrite ?lookup_insert_eq; done.
Qed.

Lemma run_complete ready e s : ready ≠ SurbsCancelled → sessions s !! es_id e = None →
  ∃ s' session, complete_session ready e s = (s', Ok session) ∧ ses_id session = es_id e ∧ ses_rx session = es_queue e ∧
    sessions s' = <[es_id e := mkCached (es_queue e) (ps_routing (es_pending e)) (es_tasks e)]> (sessions s) ∧
    mgr_cfg s' = mgr_cfg s ∧ data_queues s' = data_queues s.
Proof using Type.
  intros Hr Hid. unfold complete_session, dropping.
  assert (∀ (k : unit → SM ManagerState TransportSessionError Session),
    ((match surb_management (ps_cfg (es_pending e)), ready with
      | Some _, SurbsCancelled => throw (Manager (ManagerOther "surb balancer was cancelled prematurely"))
      | _, _ => mret tt end) ≫= k) s = k tt s) as Hcheck by (intros k; by destruct (surb_management _), ready).
  rewrite Hcheck, run_get, Hid, run_modify. eexists _, _. by split.
Qed.

(** C21. The handshake establishes one session on both sides.  A manager that
    starts a session under a new pseudonym sends one message; the exit, given
    it, takes a free tag and sends one reply; the entry, given the reply,
    completes the session.  Both then hold a session under the same id, of
    that pseudonym and a tag of the range, and the next payload that arrives
    for that id is, on either side, the first in the queue of that session. *)
Theorem handshake_establishes entry exit pn dest to cfg draw draw' draw'' elapsed ready :
  started_ok entry → started_ok exit → session_tag_range (mgr_cfg entry) = session_tag_range (mgr_cfg exit) →
  can_begin cfg entry → client_pseudonym cfg = None → ready ≠ SurbsCancelled →
  (∀ t, sessions entry !! mkSessionId t pn = None) →
  (∃ t, range_contains (session_tag_range (mgr_cfg exit)) t = true ∧ sessions exit !! mkSessionId t pn = None) →
  mq_sender (incoming exit) = true → mq_receiver (incoming exit) = true →
  ∃ entry1 p d exit' r entry2 entry3 e entry' session rx,
    begin_session None draw pn dest to cfg entry = (entry1, Ok p) ∧ outbox entry1 = outbox entry ++ [(d, ps_routing p)] ∧
    dispatch_message pn d draw' None exit = (exit', Ok Processed) ∧ outbox exit' = outbox exit ++ [(r, RouteReturn (Pseudonym pn))] ∧
    dispatch_message pn r draw'' None entry1 = (entry2, Ok Processed) ∧
    poll_established elapsed p entry2 = (entry3, Ok (Some e)) ∧ complete_session ready e entry3 = (entry', Ok session) ∧
    pseudonym (ses_id session) = pn ∧ range_contains (session_tag_range (mgr_cfg exit)) (tag (ses_id session)) = true ∧
    delivers exit' (ses_id session) rx ∧ delivers entry' (ses_id session) (ses_rx session).
Proof.
  intros Hentry Hexit Hrange Hcan Hpn Hready Hnew (t & Htag & Hfree) Hsend Hrecv.
  destruct (run_begin draw pn dest to cfg entry Hentry Hcan Hpn) as (entry1 & p & d & Hbegin & Hb).
  pose proof (run_accept pn (mkInitiation (ps_challenge p) to (list_to_set (client_capabilities cfg))) draw' exit Hexit)
    as (r & exit' & Haccept & Hout & Hrtag & [(id & Hid & Hread)|(Hno & _)]); [|by destruct (Hno t Htag); congruence].
  assert (started_ok entry1) as Hok1 by (destruct Hentry as (? & ? & ?), Hb; unfold started_ok; by rewrite be_cfg0).
  pose proof (run_answer pn r draw'' None entry1 _ _ _ Hok1 Hrtag Hread eq_refl (be_initiations _ _ _ _ _ _ _ Hb) (be_queue _ _ _ _ _ _ _ Hb)) as Hans.
  match type of Hans with _ = (?s, _) => set (entry2 := s) in Hans end.
  destruct (run_poll elapsed p entry2 (mkEstablished (ps_challenge p) id)) as (entry3 & e & Hpoll & Heid & Hep & Hs3 & Hc3 & Hq3);
    [apply Hb|cbn; by rewrite lookup_alter_eq, (be_queue _ _ _ _ _ _ _ Hb)|].
  destruct (run_complete ready e entry3 Hready) as (entry' & session & Hcomp & Hsid & Hsrx & Hs' & Hc' & Hq').
  { rewrite Heid, Hs3. cbn. rewrite (be_sessions _ _ _ _ _ _ _ Hb). destruct Hid. cbn in *. subst pn. destruct id. apply Hnew. }
  destruct Hid as [Hidp Hidt _ Hids (q & Hq & Hqs & Hqo & Hqr) Hidc]. rewrite Hsend, Hrecv in Hqr. cbn in Heid. subst id.
  exists entry1, p, d, exit', r, entry2, entry3, e, entry', session, (fresh_ref exit). rewrite Hsid.
  split; [done|]. split; [apply Hb|]. split. { rewrite dispatch_start by (done || apply Hb). unfold handle_start_protocol_message.
    rewrite (be_read _ _ _ _ _ _ _ Hb), run_bind, run_lift. by rewrite (run_Ok _ _ _ _ _ Haccept). }
  split; [done|]. split; [done|]. split; [done|]. split; [done|]. split; [done|]. split; [done|]. split.
  - apply (delivers_open exit' (es_id e) (mkCached (fresh_ref exit) (RouteReturn (Pseudonym pn)) []) q); try done.
    + by rewrite Hidc.
    + by rewrite Hids, lookup_insert_eq.
  - rewrite Hsrx. apply (delivers_open entry' (es_id e) (mkCached (es_queue e) (ps_routing (es_pending e)) (es_tasks e)) unbounded); try done.
    + rewrite Hc', Hc3. change (mgr_cfg entry2) with (mgr_cfg entry1). by rewrite (be_cfg _ _ _ _ _ _ _ Hb), Hrange.
    + by rewrite Hs', lookup_insert_eq.
    + by rewrite Hq'.
Qed.
End Handshake.
