(* ===== verification/SessionStream.v ===== *)
(** * The byte stream of a session

    Models [InnerSession] of [transport/session/src/types.rs]: writing cuts
    the bytes into payloads that fit a packet and hands each to the message
    transport, reading copies the payloads that arrive out of their queue.
    What the transport answers, in the order of completion, is an argument. *)
From stdpp Require Import list.
From S2P Require Import Prelude Primitives Channels SharedKeys Sphinx Packet Peers Protocol SessionState Mixer.
From S2P Require Import StartProtocol SurbBalancer SessionManager.

Inductive IoError := BrokenPipe.

Definition USABLE_PAYLOAD_CAPACITY_FOR_SESSION : nat := HOPR_PAYLOAD_SIZE - TAG_SIZE.

(** [tx_pending] is the number of messages whose sending is not over;
    [given] are the messages given to the transport. *)
Record InnerSession := mkInner {
  is_id : SessionId;
  is_routing : DestinationRouting;
  is_rx : Mpsc bytes;
  tx_bytes : nat;
  tx_pending : nat;
  given : list ApplicationData;
  rx_buffer : bytes;
  rx_buffer_range : nat * nat;
  is_closed : bool
}.

Definition InnerSession_new (id : SessionId) (routing : DestinationRouting) (rx : Mpsc bytes) : InnerSession :=
  mkInner id routing rx 0 0 [] (replicate HOPR_PAYLOAD_SIZE 0) (0, 0)%nat false.

Definition set_tx (tx : nat) (pending : nat) (msgs : list ApplicationData) (s : InnerSession) : InnerSession :=
  mkInner (is_id s) (is_routing s) (is_rx s) tx pending msgs (rx_buffer s) (rx_buffer_range s) (is_closed s).
Definition set_rx (rx : Mpsc bytes) (buffer : bytes) (range : nat * nat) (s : InnerSession) : InnerSession :=
  mkInner (is_id s) (is_routing s) rx (tx_bytes s) (tx_pending s) (given s) buffer range (is_closed s).

(** Polls the sends that are under way: without a reply block a message is
    discarded, any other failure ends the poll. *)
Inductive Drained := AllSent | SendFailed | StillSending.

Fixpoint drain (pending : nat) (answers : list (option TransportSessionError)) : nat * Drained :=
  match pending, answers with
  | O, _ => (O, AllSent)
  | _, [] => (pending, StillSending)
  | S pending, None :: answers | S pending, Some OutOfSurbs :: answers => drain pending answers
  | S pending, Some _ :: _ => (pending, SendFailed)
  end.

(** The payloads of [buf], from the [i]-th of [n]. *)
Definition chunk_count (len : nat) : nat :=
  len `div` USABLE_PAYLOAD_CAPACITY_FOR_SESSION
  + (if bool_decide (len `mod` USABLE_PAYLOAD_CAPACITY_FOR_SESSION ≠ 0)%nat then 1 else 0).

Definition chunk (buf : bytes) (i : nat) : bytes :=
  let start := (i * USABLE_PAYLOAD_CAPACITY_FOR_SESSION)%nat in
  let end_ := Nat.min ((i + 1) * USABLE_PAYLOAD_CAPACITY_FOR_SESSION) (length buf) in
  take (end_ - start) (drop start buf).

Definition drained (pending : nat * Drained) (s : InnerSession) : InnerSession * Poll (IoError + nat) :=
  match pending.2 with
  | AllSent => (set_tx (tx_bytes s) 0 (given s) s, Ready (inr (tx_bytes s)))
  | SendFailed => (set_tx (tx_bytes s) pending.1 (given s) s, Ready (inl BrokenPipe))
  | StillSending => (set_tx (tx_bytes s) pending.1 (given s) s, Pending)
  end.

(** A write that was pending is finished first, and its result returned. *)
Definition inner_poll_write (answers : list (option TransportSessionError)) (buf : bytes) (s : InnerSession) :
    InnerSession * Poll (IoError + nat) :=
  if is_closed s then (s, Ready (inl BrokenPipe))
  else if negb (tx_pending s =? 0)%nat then drained (drain (tx_pending s) answers) s
  else
    let chunks := chunk buf <$> seq 0 (chunk_count (length buf)) in
    let s := set_tx (length (concat chunks)) (length chunks) (given s ++ (mkAppData (tag (is_id s)) <$> chunks)) s in
    drained (drain (tx_pending s) answers) s.

(** Here a message without a reply block is a failure like any other. *)
Fixpoint flush (pending : nat) (answers : list (option TransportSessionError)) : nat * option IoError :=
  match pending, answers with
  | S pending, None :: answers => flush pending answers
  | S pending, Some _ :: _ => (pending, Some BrokenPipe)
  | _, _ => (pending, None)
  end.

Definition inner_poll_flush (answers : list (option TransportSessionError)) (s : InnerSession) : InnerSession * Poll (IoError + unit) :=
  if is_closed s then (s, Ready (inl BrokenPipe))
  else
    let '(pending, failure) := flush (tx_pending s) answers in
    (set_tx (tx_bytes s) pending (given s) s, Ready (match failure with Some e => inl e | None => inr tt end)).

Definition inner_poll_close (s : InnerSession) : InnerSession :=
  mkInner (is_id s) (is_routing s) (is_rx s) (tx_bytes s) (tx_pending s) (given s) (rx_buffer s) (rx_buffer_range s) true.

(** Reads into a buffer of [len] bytes; no bytes is the end of the stream. *)
Definition inner_poll_read {E} (len : nat) (s : InnerSession) : outcome E (InnerSession * Poll bytes) :=
  let '(start, stop) := rx_buffer_range s in
  if bool_decide (start ≠ stop) then
    let copy_len := Nat.min stop len in
    out ← range start (start + copy_len) (rx_buffer s);
    let start := (start + copy_len)%nat in
    Ok (set_rx (is_rx s) (rx_buffer s) (if bool_decide (start = stop) then (0, 0)%nat else (start, stop)) s, Ready out)
  else
    let '(rx, polled) := mpsc_next (is_rx s) in
    match polled with
    | Ready (Some data) =>
        let data_len := length data in
        let copy_len := Nat.min data_len len in
        s ← (if bool_decide (copy_len < data_len)%nat then
               buffer ← copy_from_slice 0 (data_len - copy_len) (drop copy_len data) (rx_buffer s);
               Ok (set_rx rx buffer (0, data_len - copy_len)%nat s)
             else Ok (set_rx rx (rx_buffer s) (rx_buffer_range s) s));
        Ok (s, Ready (take copy_len data))
    | Ready None => Ok (set_rx rx (rx_buffer s) (rx_buffer_range s) s, Ready [])
    | Pending => Ok (set_rx rx (rx_buffer s) (rx_buffer_range s) s, Pending)
    end.
