(* ===== verification/SessionStreamSpec.v ===== *)
(** * Properties of the stream and of the balancer of a session

    What is written arrives, as long as the reader's buffer holds half a
    payload; and the balancer's estimate is the surplus of the reply blocks
    delivered over those used, measured from its lowest point. *)
From Stdlib Require Import Floats.SpecFloat.
From stdpp Require Import list.
From S2P Require Import Prelude Primitives Channels SharedKeys Sphinx Packet Peers Protocol SessionState Mixer.
From S2P Require Import StartProtocol SurbBalancer SessionManager SessionStream.

(** ** Writing *)
Lemma capacity_positive : (0 < USABLE_PAYLOAD_CAPACITY_FOR_SESSION < HOPR_PAYLOAD_SIZE)%nat.
Proof. unfold USABLE_PAYLOAD_CAPACITY_FOR_SESSION. vm_compute. lia. Qed.

Lemma chunks_unfold {A} c (l : list A) : (0 < c)%nat → l ≠ [] → chunks c l = take c l :: chunks c (drop c l).
Proof.
  intros Hc Hl. destruct l as [|x l]; [done|]. unfold chunks at 1. cbn [length chunks_fuel]. f_equal.
  apply chunks_fuel_ge; rewrite ?length_drop; cbn; lia.
Qed.

Lemma chunk_take buf i : chunk buf i = take USABLE_PAYLOAD_CAPACITY_FOR_SESSION (drop (i * USABLE_PAYLOAD_CAPACITY_FOR_SESSION) buf).
Proof.
  unfold chunk. set (c := USABLE_PAYLOAD_CAPACITY_FOR_SESSION). destruct (decide ((i + 1) * c ≤ length buf)%nat).
  - f_equal. lia.
  - rewrite !take_ge; rewrite ?length_drop; [done|lia..].
Qed.

Lemma chunk_count_step len : (0 < len)%nat → chunk_count len = S (chunk_count (len - USABLE_PAYLOAD_CAPACITY_FOR_SESSION)).
Proof.
  intros Hlen. pose proof capacity_positive as Hc. unfold chunk_count. set (c := USABLE_PAYLOAD_CAPACITY_FOR_SESSION) in *.
  destruct (decide (c ≤ len)%nat) as [Hle|Hlt].
  - assert (∃ m, len = m + 1 * c)%nat as [m ->] by (exists (len - c)%nat; lia). replace (m + 1 * c - c)%nat with m by lia.
    rewrite Nat.div_add, Nat.Div0.mod_add by lia. lia.
  - replace (len - c)%nat with 0%nat by lia. rewrite (Nat.div_small len), (Nat.mod_small len), Nat.Div0.div_0_l, Nat.Div0.mod_0_l by lia.
    rewrite bool_decide_true, bool_decide_false by lia. done.
Qed.

Lemma chunks_of_write buf : chunk buf <$> seq 0 (chunk_count (length buf)) = chunks USABLE_PAYLOAD_CAPACITY_FOR_SESSION buf.
Proof.
  pose proof capacity_positive as Hc. set (c := USABLE_PAYLOAD_CAPACITY_FOR_SESSION) in *.
  remember (length buf) as n eqn:Hn. revert buf Hn. induction n as [n IH] using lt_wf_ind. intros buf Hn.
  destruct (decide (buf = [])) as [->|Hne]; [subst n; done|].
  assert (0 < length buf)%nat as Hpos by (destruct buf; cbn; [done|lia]).
  rewrite chunks_unfold by (done || lia). rewrite Hn, chunk_count_step by done. cbn [seq fmap list_fmap]. f_equal.
  { by rewrite chunk_take. }
  rewrite <-seq_shift, <-list_fmap_compose. fold c. rewrite <-(length_drop buf c). rewrite <-(IH (length (drop c buf))) by (rewrite ?length_drop; lia).
  apply list_fmap_ext. intros _ i _. cbn [compose]. rewrite !chunk_take, drop_drop. fold c. done.
Qed.

Lemma drain_all answers n : Forall (λ a, a = None ∨ a = Some OutOfSurbs) answers → (n ≤ length answers)%nat → drain n answers = (0%nat, AllSent).
Proof.
  intros Hall. revert n. induction Hall as [|a answers Ha Hall IH]; intros [|n] Hn; cbn in *; try done; [lia|].
  destruct Ha as [-> | ->]; apply IH; lia.
Qed.

(** A write that nothing holds up gives the transport the pieces of the buffer,
    in order, and reports its length. *)
Lemma poll_write_gives answers buf s :
  is_closed s = false → tx_pending s = 0%nat →
  Forall (λ a, a = None ∨ a = Some OutOfSurbs) answers → (length (chunks USABLE_PAYLOAD_CAPACITY_FOR_SESSION buf) ≤ length answers)%nat →
  inner_poll_write answers buf s =
    (set_tx (length buf) 0 (given s ++ (mkAppData (tag (is_id s)) <$> chunks USABLE_PAYLOAD_CAPACITY_FOR_SESSION buf)) s, Ready (inr (length buf))).
Proof.
  intros Hopen Hidle Hall Hlen. unfold inner_poll_write. rewrite Hopen, Hidle. cbn [negb Nat.eqb].
  rewrite chunks_of_write, concat_chunks by apply capacity_positive. cbn [tx_pending set_tx]. by rewrite drain_all.
Qed.

(** A message without a reply block is dropped by a write and fails a flush. *)
Lemma no_surb_flush s : is_closed s = false → tx_pending s = 1%nat →
  (inner_poll_write [Some OutOfSurbs] [] s).2 = Ready (inr (tx_bytes s)) ∧
  (inner_poll_flush [Some OutOfSurbs] s).2 = Ready (inl BrokenPipe).
Proof. intros Ho Hp. unfold inner_poll_write, inner_poll_flush. by rewrite Ho, Hp. Qed.

(** ** Reading *)

(** What is still to be read: the rest of the last payload and the payloads in
    the queue. *)
Definition unread (s : InnerSession) : list bytes := drop (mq_read (is_rx s)) (mq_sent (is_rx s)).
Definition buffered (s : InnerSession) : bytes := take (rx_buffer_range s).2 (rx_buffer s).
Definition readable (s : InnerSession) : bytes := buffered s ++ concat (unread s).

(** The rest of a payload fits one read, and starts at the buffer's start. *)
Definition read_ok (len : nat) (s : InnerSession) : Prop :=
  (rx_buffer_range s).1 = 0%nat ∧ ((rx_buffer_range s).2 ≤ len)%nat ∧ ((rx_buffer_range s).2 ≤ length (rx_buffer s))%nat ∧
  length (rx_buffer s) = HOPR_PAYLOAD_SIZE ∧ Forall (λ d, length d ≤ 2 * len ∧ length d ≤ HOPR_PAYLOAD_SIZE)%nat (unread s).

Lemma next_unread (q : Mpsc bytes) :
  mpsc_next q = match drop (mq_read q) (mq_sent q) with
                | d :: _ => (mkMpsc (mq_sent q) (S (mq_read q)) (mq_sender q) (mq_receiver q), Ready (Some d))
                | [] => (q, if mq_sender q then Pending else Ready None)
                end.
Proof.
  unfold mpsc_next. destruct (mq_sent q !! mq_read q) as [d|] eqn:Hd.
  - by rewrite (drop_S _ _ _ Hd).
  - rewrite drop_ge by (by apply lookup_ge_None). by destruct (mq_sender q).
Qed.

(** Of an open queue, the rest comes before the next payload. *)
Lemma poll_read_rest {E} len s : read_ok len s → (rx_buffer_range s).2 ≠ 0%nat →
  ∃ s', inner_poll_read (E:=E) len s = Ok (s', Ready (buffered s)) ∧ read_ok len s' ∧ unread s' = unread s ∧ buffered s' = [].
Proof.
  intros (Hstart & Hle & Hfit & Hlen & Hall) Hne. unfold inner_poll_read. destruct (rx_buffer_range s) as [start stop] eqn:Hr.
  cbn in Hstart, Hle, Hfit, Hne. subst start. rewrite bool_decide_true, Nat.min_l by lia. cbn [Nat.add].
  unfold range. rewrite !bool_decide_true by (done || lia). rewrite Nat.sub_0_r, drop_0. cbn [mbind outcome_bind].
  eexists. split; [unfold buffered; rewrite Hr; reflexivity|]. split; [|done]. split; [done|]. split; [cbn; lia|]. split; [cbn; lia|done].
Qed.

Lemma poll_read_next {E} len s d ds : read_ok len s → (rx_buffer_range s).2 = 0%nat → unread s = d :: ds →
  ∃ s', inner_poll_read (E:=E) len s = Ok (s', Ready (take len d)) ∧ read_ok len s' ∧ unread s' = ds ∧ buffered s' = drop len d.
Proof.
  intros (Hstart & Hle & Hfit & Hlen & Hall) Hz Hun. unfold inner_poll_read.
  assert (rx_buffer_range s = (0, 0)%nat) as Hr by (destruct (rx_buffer_range s); cbn in *; by subst). rewrite Hr, bool_decide_false by (intros Hx; by apply Hx).
  rewrite next_unread. unfold unread in Hun. rewrite Hun. cbv iota zeta.
  rewrite Forall_forall in Hall. destruct (Hall d) as [Hd Hd']; [unfold unread; rewrite Hun; by left|].
  assert (drop (S (mq_read (is_rx s))) (mq_sent (is_rx s)) = ds) as Hds.
  { replace (S (mq_read (is_rx s))) with (mq_read (is_rx s) + 1)%nat by lia. by rewrite <-drop_drop, Hun. }
  assert (Forall (λ d, length d ≤ 2 * len ∧ length d ≤ HOPR_PAYLOAD_SIZE)%nat ds) as Hall'.
  { apply Forall_forall. intros d' Hin. apply Hall. unfold unread. rewrite Hun. by right. }
  case_bool_decide as Hlong.
  - unfold copy_from_slice. rewrite bool_decide_true by (rewrite length_drop; lia). cbn [mbind outcome_bind].
    rewrite Nat.min_r by lia. eexists. split; [done|]. split; [|split].
    + unfold read_ok, unread. cbn [rx_buffer_range set_rx rx_buffer is_rx mq_read mq_sent fst snd]. rewrite take_0, Hds.
      rewrite !length_app, !length_drop. cbn [length Nat.add]. split; [done|]. split; [lia|]. split; [lia|]. split; [lia|done].
    + exact Hds.
    + unfold buffered. cbn [rx_buffer_range set_rx rx_buffer snd]. rewrite take_0. cbn [app].
      rewrite take_app_le by (rewrite length_drop; lia). apply take_ge. rewrite length_drop. lia.
  - cbn [mbind outcome_bind]. rewrite Nat.min_l by lia. eexists. split; [by rewrite !take_ge by lia|]. split; [|split].
    + unfold read_ok, unread. cbn [rx_buffer_range set_rx rx_buffer is_rx mq_read mq_sent fst snd]. rewrite Hds.
      split; [done|]. split; [lia|]. split; [lia|done].
    + exact Hds.
    + unfold buffered. cbn [rx_buffer_range set_rx rx_buffer snd]. by rewrite drop_ge by lia.
Qed.

(** Reading until nothing is there. *)
Fixpoint read_all {E} (fuel : nat) (len : nat) (s : InnerSession) : outcome E bytes :=
  match fuel with
  | O => Ok []
  | S fuel =>
      '(s, polled) ← inner_poll_read len s;
      match polled with
      | Ready [] | Pending => Ok []
      | Ready out => rest ← read_all fuel len s; Ok (out ++ rest)
      end
  end.

Definition reads_left (s : InnerSession) : nat :=
  (2 * length (unread s) + (if bool_decide ((rx_buffer_range s).2 = 0) then 0 else 1))%nat.

Lemma buffered_nil len s : read_ok len s → buffered s = [] ↔ (rx_buffer_range s).2 = 0%nat.
Proof.
  intros (_ & _ & Hfit & _). unfold buffered. split; [|by intros ->]. intros Hb. apply (f_equal length) in Hb.
  rewrite length_take in Hb. cbn in Hb. lia.
Qed.

Lemma read_all_eq {E} fuel len s : (0 < len)%nat → read_ok len s → Forall (λ d, d ≠ []) (unread s) → (reads_left s ≤ fuel)%nat →
  read_all (E:=E) fuel len s = Ok (readable s).
Proof.
  intros Hpos. revert s. induction fuel as [|fuel IH]; intros s Hok Hne Hfuel; unfold reads_left, readable in *.
  { destruct (unread s) eqn:Hu; [|cbn in Hfuel; lia]. case_bool_decide as Hz; [|lia]. by rewrite (proj2 (buffered_nil _ _ Hok)). }
  cbn [read_all]. case_bool_decide as Hz.
  - rewrite (proj2 (buffered_nil _ _ Hok)) by done. destruct (unread s) as [|d ds] eqn:Hu.
    + unfold inner_poll_read. destruct Hok as (Hs & _). destruct (rx_buffer_range s) as [a b]. cbn in Hs, Hz. subst a b.
      rewrite bool_decide_false by (intros Hx; by apply Hx). rewrite next_unread. unfold unread in Hu. rewrite Hu. by destruct (mq_sender (is_rx s)).
    + destruct (poll_read_next (E:=E) len s d ds Hok Hz Hu) as (s' & Hrun & Hok' & Hu' & Hb'). rewrite Hrun. cbn [mbind outcome_bind].
      apply Forall_cons in Hne as [Hd Hne]. destruct (take len d) as [|b out] eqn:Ht.
      { apply (f_equal length) in Ht. rewrite length_take in Ht. destruct d; [done|cbn in Ht; lia]. }
      rewrite <-Ht, IH; [|done|by rewrite Hu'|]. 2: { rewrite Hu'. cbn [length] in Hfuel. case_bool_decide; lia. }
      cbn [mbind outcome_bind]. rewrite Hu', Hb'. cbn [concat app]. unfold id. by rewrite (assoc_L (++)), take_drop.
  - destruct (poll_read_rest (E:=E) len s Hok Hz) as (s' & Hrun & Hok' & Hu' & Hb'). rewrite Hrun. cbn [mbind outcome_bind].
    destruct (buffered s) as [|b out] eqn:Hb; [by apply (buffered_nil _ _ Hok) in Hb|].
    rewrite IH; [|done|by rewrite Hu'|]. 2: { rewrite Hu', bool_decide_true by by apply (buffered_nil _ _ Hok'). lia. }
    cbn [mbind outcome_bind]. by rewrite Hu', Hb'.
Qed.

(** C23. What is written to a session is read from it.  An idle, open session
    given a buffer, whose messages the transport accepts, or discards for want
    of a reply block at the other end, hands over its bytes in payloads that
    each fit a packet, reports the whole length, and the other end, given
    these payloads in order, reads exactly the buffer - provided each read has
    room for half a payload - and then waits. *)
Theorem written_is_read {E} answers buf s len sid routing fuel :
  is_closed s = false → tx_pending s = 0%nat → given s = [] →
  Forall (λ a, a = None ∨ a = Some OutOfSurbs) answers → (length (chunks USABLE_PAYLOAD_CAPACITY_FOR_SESSION buf) ≤ length answers)%nat →
  (USABLE_PAYLOAD_CAPACITY_FOR_SESSION ≤ 2 * len)%nat → (2 * length buf ≤ fuel)%nat →
  ∃ s', inner_poll_write answers buf s = (s', Ready (inr (length buf))) ∧
    Forall (λ m, application_tag m = tag (is_id s) ∧ (0 < length (app_plain_text m) ≤ USABLE_PAYLOAD_CAPACITY_FOR_SESSION)%nat) (given s') ∧
    read_all (E:=E) fuel len (InnerSession_new sid routing (mkMpsc (app_plain_text <$> given s') 0 true true)) = Ok buf.
Proof.
  intros Hopen Hidle Hgiven Hall Hlen Hroom Hfuel. rewrite poll_write_gives, Hgiven by done. eexists. split; [done|]. cbn [given set_tx app].
  pose proof capacity_positive as Hc. set (c := USABLE_PAYLOAD_CAPACITY_FOR_SESSION) in *.
  assert (∀ d, d ∈ chunks c buf → 0 < length d ≤ c)%nat as Hb by (intros d; apply chunks_bound; lia).
  split. { apply Forall_fmap, Forall_forall. intros d Hd. cbn. by split; [|apply Hb]. }
  assert (app_plain_text <$> (mkAppData (tag (is_id s)) <$> chunks c buf) = chunks c buf) as ->
    by (clear; induction (chunks c buf) as [|d ds IH]; [done|exact (f_equal (cons d) IH)]).
  assert (length (chunks c buf) ≤ length buf)%nat as Hcount.
  { rewrite <-(concat_chunks c buf) at 2 by lia. clear -Hb. induction (chunks c buf) as [|d ds IH]; [done|]. cbn. rewrite length_app.
    specialize (IH (λ x Hx, Hb x (list_elem_of_further _ _ _ Hx))). destruct (Hb d); [by left|]. unfold id. lia. }
  rewrite read_all_eq; [|lia| | |].
  - change (readable _) with (concat (chunks c buf)). by rewrite concat_chunks by lia.
  - split; [done|]. split; [apply Nat.le_0_l|]. split; [apply Nat.le_0_l|]. split; [apply length_replicate|].
    change (unread _) with (chunks c buf). apply Forall_forall. intros d Hd. destruct (Hb d Hd). lia.
  - change (unread _) with (chunks c buf). apply Forall_forall. intros d Hd ->. destruct (Hb [] Hd). cbn in *. lia.
  - unfold reads_left. change (unread _) with (chunks c buf). rewrite bool_decide_true by done. lia.
Qed.

(** With less room the reader gets bytes that were never sent: five bytes read
    two at a time. *)
Definition five_bytes : InnerSession := InnerSession_new (mkSessionId 16 []) (RouteReturn (NodeProtocol.Pseudonym [])) (mkMpsc [[1; 2; 3; 4; 5]] 0 true true).

Lemma short_reads_corrupt : read_all (E:=unit) 4 2 five_bytes = Ok [1; 2; 3; 4; 5; 0; 0; 0].
Proof. by vm_compute. Qed.

(** An empty payload ends the stream for its reader. *)
Lemma empty_payload_ends : read_all (E:=unit) 4 100 (InnerSession_new (mkSessionId 16 []) (RouteReturn (NodeProtocol.Pseudonym [])) (mkMpsc [[]; [1]] 0 true true)) = Ok [].
Proof. by vm_compute. Qed.

(** ** The balancer *)

(** A number that is not negative stays so as a float. *)
Lemma shr_1_nonneg r : 0 ≤ shr_m r → 0 ≤ shr_m (shr_1 r).
Proof. destruct r as [[|[p|p|]|p] rr s]; cbn; lia. Qed.

Lemma iter_shr_nonneg p r : 0 ≤ shr_m r → 0 ≤ shr_m (SpecFloat.iter_pos shr_1 p r).
Proof.
  revert r. induction p as [p IH|p IH|]; intros r Hr; cbn [SpecFloat.iter_pos].
  - by apply IH, IH, shr_1_nonneg.
  - by apply IH, IH.
  - by apply shr_1_nonneg.
Qed.

Lemma shr_fexp_nonneg m e l : 0 ≤ m → 0 ≤ shr_m (shr_fexp 53 1024 m e l).1.
Proof.
  intros Hm. unfold shr_fexp, shr. assert (0 ≤ shr_m (shr_record_of_loc m l)) by (by destruct l as [|[]]).
  destruct (fexp _ _ _ - e); [done|by apply iter_shr_nonneg|done].
Qed.

Lemma round_half_nonneg m l : 0 ≤ m → 0 ≤ round_nearest_even m l.
Proof. intros Hm. destruct l as [|[]]; cbn; try lia. destruct (Z.even m); lia. Qed.

Lemma clamp_bounds_ok z : 0 ≤ z → SFleb f64_zero (f64_of_u64 z) = true.
Proof.
  intros Hz. unfold f64_of_u64, binary_normalize. destruct z as [|p|p]; [done| |lia].
  unfold binary_round. destruct (shl_align p 0 _) as [mz ez]. unfold binary_round_aux.
  pose proof (shr_fexp_nonneg (Z.pos mz) ez loc_Exact ltac:(lia)) as H1. destruct (shr_fexp _ _ (Z.pos mz) _ _) as [r1 e1]. cbn [fst] in H1.
  pose proof (shr_fexp_nonneg (round_nearest_even (shr_m r1) (loc_of_shr_record r1)) e1 loc_Exact (round_half_nonneg _ _ H1)) as H2.
  destruct (shr_fexp _ _ (round_nearest_even _ _) _ _) as [r2 e2]. cbn [fst] in H2.
  destruct (shr_m r2) as [|q|q]; [done| |lia]. by destruct (e2 <=? _).
Qed.

Section Balance.
Context `{!PidController}.

Record Reading := mkReading { at_poll : Instant; at_update : Instant; delivered : Z; used : Z }.

Fixpoint updates {E} (rs : list Reading) (b : SurbBalancer) : outcome E SurbBalancer :=
  match rs with
  | [] => Ok b
  | r :: rs => '(b, _, _) ← update (at_poll r) (at_update r) (delivered r) (used r) b; updates rs b
  end.

(** Readings ten milliseconds apart, of counters that never go back. *)
Fixpoint steady (t : Instant) (d u : Z) (rs : list Reading) : Prop :=
  match rs with
  | [] => True
  | r :: rs => t + from_millis 10 ≤ at_poll r ∧ d ≤ delivered r < 2 ^ 63 ∧ u ≤ used r < 2 ^ 63 ∧ steady (at_update r) (delivered r) (used r) rs
  end.

Definition surplus (r : Reading) : Z := delivered r - used r.

Lemma as_i64_small z : - 2 ^ 63 ≤ z < 2 ^ 63 → as_i64 z = z.
Proof. intros Hz. unfold as_i64, wrap. rewrite Z.mod_small; lia. Qed.

Lemma updates_level {E} rs b low : 0 ≤ max_surbs_per_sec (bal_cfg b) →
  steady (last_update b) (last_surbs_delivered b) (last_surbs_used b) rs →
  0 ≤ last_surbs_delivered b < 2 ^ 63 → 0 ≤ last_surbs_used b < 2 ^ 63 → - 2 ^ 63 < low ≤ 0 → low ≤ last_surbs_delivered b - last_surbs_used b →
  current_target_buffer b = last_surbs_delivered b - last_surbs_used b - low →
  ∃ b', updates (E:=E) rs b = Ok b' ∧
    current_target_buffer b' = default (last_surbs_delivered b - last_surbs_used b) (last (surplus <$> rs)) - foldl Z.min low (surplus <$> rs).
Proof.
  intros Hmax. revert b low Hmax. induction rs as [|r rs IH]; intros b low Hmax Hst Hd Hu Hlow0 Hlow Hcur; [by exists b|].
  destruct Hst as (Ht & Hdr & Hur & Hst). cbn [updates]. unfold update.
  assert ((Z.max 0 (at_poll r - last_update b) <? from_millis 10) = false) as ->.
  { apply Z.ltb_ge. unfold from_millis in *. lia. }
  assert (wrap 64 (delivered r - last_surbs_delivered b) = delivered r - last_surbs_delivered b) as -> by (unfold wrap; apply Z.mod_small; lia).
  assert (wrap 64 (used r - last_surbs_used b) = used r - last_surbs_used b) as -> by (unfold wrap; apply Z.mod_small; lia).
  rewrite (as_i64_small (delivered r - _)), (as_i64_small (used r - _)) by lia.
  set (change := delivered r - last_surbs_delivered b - (used r - last_surbs_used b)). rewrite (as_i64_small change) by lia.
  set (level := saturating_add_signed (current_target_buffer b) change).
  assert (level = surplus r - Z.min low (surplus r)) as Hlevel by (unfold level, change, saturating_add_signed, surplus, u_max; lia).
  clearbody level. destruct (next_control_output _ (pid b)) as [pid' output]. unfold f64_clamp. rewrite clamp_bounds_ok by done.
  cbn [mbind outcome_bind]. set (b1 := mkBalancer _ _ _ _ _ _ _).
  destruct (IH b1 (Z.min low (surplus r))) as (b' & Hrun & Hfin);
    [done|done|cbn; unfold surplus in *; lia..|].
  exists b'. split; [done|]. rewrite Hfin. rewrite fmap_cons, last_cons. cbn [foldl]. f_equal. by destruct (last (surplus <$> rs)).
Qed.

(** C24. The balancer's estimate of the reply blocks left at the other end is
    the surplus of those delivered over those used, measured from its lowest
    point: with readings at least ten milliseconds apart, of counters that
    never go back, every update returns, and the estimate is the last surplus
    less the least surplus seen, zero at the start included.  It is thus never
    negative, never below the true surplus, and equal to it as long as no more
    blocks were counted as used than as delivered. *)
Theorem estimate_is_surplus {E} p_gain i_gain d_gain now cfg rs :
  0 ≤ max_surbs_per_sec cfg → steady now 0 0 rs →
  ∃ b, updates (E:=E) rs (SurbBalancer_new p_gain i_gain d_gain now cfg) = Ok b ∧
    current_target_buffer b = default 0 (last (surplus <$> rs)) - foldl Z.min 0 (surplus <$> rs).
Proof. intros Hmax Hst. by apply (updates_level rs (SurbBalancer_new p_gain i_gain d_gain now cfg) 0). Qed.
End Balance.

(** ** The limited stream

    Nothing is lost or changed in order: what a turn takes from the inner
    stream it holds, and what it holds it gives once the delay has passed. *)
Definition limited_ok {A} (s : RateLimitedStream A) : Prop :=
  match rl_state s with
  | RateRead => held s = None
  | RateNoRate => True
  | RateWait => is_Some (held s) ∧ is_Some (rl_delay s)
  end.

Definition turn_takes {A} (t : Turn A) (s : RateLimitedStream A) : list A :=
  match rl_state s, inner_answer t with RateRead, Ready (Some x) => [x] | _, _ => [] end.
Definition turn_gives {A} (o : option (Poll (option A))) : list A :=
  match o with Some (Ready (Some x)) => [x] | _ => [] end.

Lemma limited_turn_keeps {A} (t : Turn A) s : limited_ok s →
  let '(s', o) := limited_turn t s in
  limited_ok s' ∧ option_list (held s) ++ turn_takes t s = turn_gives o ++ option_list (held s') ∧
  (turn_gives o ≠ [] → passed t = true).
Proof.
  intros Hok. unfold limited_turn, limited_ok, turn_takes, turn_gives in *. destruct s as [h d st]. cbn [rl_state held rl_delay] in *.
  destruct st; cbn.
  - subst h. destruct (inner_answer t) as [[x|]|]; [|done..]. by destruct (0 <? rate t).
  - destruct (bool_decide (is_Some d) && negb (passed t)); [by rewrite app_nil_r|].
    destruct (0 <? rate t); cbn; [|by rewrite app_nil_r]. by destruct h as [x|].
  - destruct Hok as [[x ->] [w ->]]. by destruct (passed t).
Qed.

Fixpoint limited_run {A} (ts : list (Turn A)) (s : RateLimitedStream A) : RateLimitedStream A * list A * list A :=
  match ts with
  | [] => (s, [], [])
  | t :: ts =>
      let '(s1, o) := limited_turn t s in
      let '(s2, takes, gives) := limited_run ts s1 in
      (s2, turn_takes t s ++ takes, turn_gives o ++ gives)
  end.

Lemma limited_run_keeps {A} (ts : list (Turn A)) s : limited_ok s →
  let '(s', takes, gives) := limited_run ts s in option_list (held s) ++ takes = gives ++ option_list (held s').
Proof.
  revert s. induction ts as [|t ts IH]; intros s Hok; cbn [limited_run]; [by rewrite app_nil_r|].
  pose proof (limited_turn_keeps t s Hok) as Ht. destruct (limited_turn t s) as [s1 o]. destruct Ht as (Hok1 & Heq & _).
  specialize (IH s1 Hok1). destruct (limited_run ts s1) as [[s2 takes] gives].
  by rewrite (assoc_L (++)), Heq, <-!(assoc_L (++)), IH.
Qed.
