(* ===== verification/SessionRuns.v ===== *)
(** * Runs of the session manager

    A concrete serializer and controller, and the theorems about sessions at
    concrete inputs. *)
From stdpp Require Import gmap strings.
From S2P Require Import Prelude Primitives Crypto Channels SharedKeys Packet Peers Protocol NodeProtocol SessionState Mixer.
From S2P Require Import StartProtocol SurbBalancer SessionManager SessionManagerSpec SessionTable SessionHandshake SessionStream SessionStreamSpec.

(** ** A serializer: the bits of an injective numbering *)
Fixpoint to_bits (p : positive) : bytes :=
  match p with xH => [] | xO p => 0 :: to_bits p | xI p => 1 :: to_bits p end.
Fixpoint of_bits (b : bytes) : positive :=
  match b with [] => xH | x :: b => if x =? 0 then xO (of_bits b) else xI (of_bits b) end.

Lemma of_to_bits p : of_bits (to_bits p) = p.
Proof. induction p as [p IH|p IH|]; cbn; by rewrite ?IH. Qed.

#[export] Instance countable_bincode {A} `{Countable A} : Bincode A := {|
  encode_to_vec a := Some (to_bits (countable.encode a));
  borrow_decode_from_slice b := countable.decode (of_bits b)
|}.
#[export] Instance countable_bincode_laws {A} `{Countable A} : BincodeLaws A.
Proof. intros a b [= <-]. cbn. by rewrite of_to_bits, countable.decode_encode. Qed.

#[export] Instance IpOrHost_eq_dec : EqDecision IpOrHost.
Proof. solve_decision. Defined.
#[export] Instance IpOrHost_countable : Countable IpOrHost.
Proof.
  refine (inj_countable' (λ h, match h with Dns s p => inl (s, p) | Ip b p => inr (b, p) end)
    (λ x, match x with inl (s, p) => Dns s p | inr (b, p) => Ip b p end) _). by intros [].
Defined.
#[export] Instance SealedHost_eq_dec : EqDecision SealedHost.
Proof. solve_decision. Defined.
#[export] Instance SealedHost_countable : Countable SealedHost.
Proof.
  refine (inj_countable' (λ h, match h with Plain x => inl x | Sealed b => inr b end)
    (λ x, match x with inl x => Plain x | inr b => Sealed b end) _). by intros [].
Defined.
#[export] Instance SessionTarget_eq_dec : EqDecision SessionTarget.
Proof. solve_decision. Defined.
#[export] Instance SessionTarget_countable : Countable SessionTarget.
Proof.
  refine (inj_countable' (λ t, match t with UdpStream x => inl (inl x) | TcpStream x => inl (inr x) | ExitNode z => inr z end)
    (λ x, match x with inl (inl x) => UdpStream x | inl (inr x) => TcpStream x | inr z => ExitNode z end) _). by intros [].
Defined.
#[export] Instance StartInitiation_eq_dec : EqDecision StartInitiation.
Proof. solve_decision. Defined.
#[export] Instance StartInitiation_countable : Countable StartInitiation.
Proof.
  refine (inj_countable' (λ i, (challenge i, target i, capabilities i)) (λ x, mkInitiation x.1.1 x.1.2 x.2) _). by intros [].
Defined.
#[export] Instance StartEstablished_eq_dec : EqDecision (StartEstablished SessionId).
Proof. solve_decision. Defined.
#[export] Instance StartEstablished_countable : Countable (StartEstablished SessionId).
Proof. refine (inj_countable' (λ e, (orig_challenge e, session_id e)) (λ x, mkEstablished x.1 x.2) _). by intros []. Defined.
#[export] Instance StartErrorReason_eq_dec : EqDecision StartErrorReason.
Proof. solve_decision. Defined.
#[export] Instance StartErrorType_eq_dec : EqDecision StartErrorType.
Proof. solve_decision. Defined.
#[export] Instance StartErrorType_countable : Countable StartErrorType.
Proof.
  refine (inj_countable' (λ e, (err_challenge e, match reason e with Busy => true | NoSlotsAvailable => false end))
    (λ x, mkStartError x.1 (if x.2 then Busy else NoSlotsAvailable)) _). by intros [c []].
Defined.

Lemma all_writable (msg : StartProtocol SessionId) : is_Ok (ApplicationData_try_from msg).
Proof. destruct msg; by eexists. Qed.

(** ** A manager with the default configuration *)
Definition toy_manager : ManagerState :=
  match SessionManager_new (E:=TransportSessionError) SessionManagerConfig_default with
  | Ok m => m
  | _ => mkManager SessionManagerConfig_default 0 false ∅ ∅ ∅ ∅ unbounded unbounded ∅ [] 0
  end.
Definition toy_started : ManagerState := (start toy_manager).1.

Definition alice : HoprPseudonym := replicate 10 1.
Definition bob : HoprPseudonym := replicate 10 2.

Definition initiation : ApplicationData :=
  match ApplicationData_try_from (StartSession (T:=SessionId) (mkInitiation 7 (ExitNode 5) {[Segmentation]})) with
  | Ok d => d
  | _ => mkAppData 0 []
  end.

(** Two sessions of different pseudonyms on the same tag. *)
Definition history : list Event :=
  [EStart; EDispatch alice initiation 4 None; EDispatch bob initiation 4 None; EDispatch alice (mkAppData 20 [1; 2]) 0 None].

Lemma streams_apart :
  let t := table (mgr (run history (mkWorld toy_manager [] [] []))) in
  (t !! mkSessionId 20 alice, t !! mkSessionId 20 bob, size t) = (Some [[1; 2]], Some [], 2%nat).
Proof. by vm_compute. Qed.

Lemma manager_refines_table_witness :
  let w := run history (mkWorld toy_manager [] [] []) in
  table toy_manager = ∅ ∧
  table_step w (EDispatch bob (mkAppData 20 [3]) 0 None) (table (mgr w)) (table (mgr (run_event (EDispatch bob (mkAppData 20 [3]) 0 None) w))).
Proof.
  apply (manager_refines_table SessionManagerConfig_default); [by vm_compute|]. split; [split|]; by vm_compute.
Defined.

Lemma toy_started_ok : started_ok toy_started.
Proof. split; [by vm_compute|]. split; [split; [split|]; by vm_compute|by vm_compute]. Qed.

Lemma accept_takes_free_tag_witness :
  ∃ reply s', accept_session alice (mkInitiation 7 (ExitNode 5) ∅) 1007 None toy_started = (s', Ok tt) ∧
    outbox s' = outbox toy_started ++ [(reply, RouteReturn (Pseudonym alice))] ∧
    ((∃ id, pseudonym id = alice ∧ range_contains (session_tag_range (mgr_cfg toy_started)) (tag id) = true ∧ sessions toy_started !! id = None ∧
        sessions s' = <[id := mkCached (fresh_ref toy_started) (RouteReturn (Pseudonym alice)) []]> (sessions toy_started) ∧
        StartProtocol_try_from reply = Ok (SessionEstablished (mkEstablished 7 id))) ∨
     ((∀ t, range_contains (session_tag_range (mgr_cfg toy_started)) t = true → is_Some (sessions toy_started !! mkSessionId t alice)) ∧
        sessions s' = sessions toy_started ∧
        StartProtocol_try_from reply = Ok (SessionError (T:=SessionId) (mkStartError 7 NoSlotsAvailable)))).
Proof. apply (accept_takes_free_tag all_writable alice (mkInitiation 7 (ExitNode 5) ∅) 1007 toy_started). apply toy_started_ok. Defined.

Definition no_balancing : SessionClientConfig := mkClientConfig (Hops 1) (Hops 3) [Segmentation] None None.

Lemma handshake_establishes_witness : ∃ exit' session entry' rx,
  tag (ses_id session) < 1024 ∧ delivers exit' (ses_id session) rx ∧ delivers entry' (ses_id session) (ses_rx session).
Proof.
  destruct (handshake_establishes all_writable toy_started toy_started alice (replicate 20 3) (ExitNode 5) no_balancing 99 1007 0 false SurbsReady)
    as (entry1 & p & d & exit' & r & entry2 & entry3 & e & entry' & session & rx & Hall);
    [apply toy_started_ok|apply toy_started_ok|done| |done|done|done| |done|done|].
  - repeat split; try (by vm_compute); by apply Nat.leb_le.
  - exists 16. by vm_compute.
  - exists exit', session, entry', rx. destruct Hall as (_ & _ & _ & _ & _ & _ & _ & _ & Htag & Hx & He). split; [|by split].
    apply andb_true_iff in Htag as [_ Hlt%Z.ltb_lt]. exact Hlt.
Defined.

(** ** Streams and balancing *)
Definition toy_session : InnerSession := InnerSession_new (mkSessionId 20 alice) (RouteReturn (Pseudonym alice)) unbounded.
Definition long_message : bytes := replicate (Z.to_nat 1500) 7.

Lemma written_is_read_witness : ∃ s', inner_poll_write [None; Some OutOfSurbs] long_message toy_session = (s', Ready (inr (length long_message))) ∧
  read_all (E:=unit) (Z.to_nat 3000) (Z.to_nat 500) (InnerSession_new (mkSessionId 20 bob) (RouteReturn (Pseudonym bob))
    (mkMpsc (app_plain_text <$> given s') 0 true true)) = Ok long_message.
Proof.
  destruct (written_is_read (E:=unit) [None; Some OutOfSurbs] long_message toy_session (Z.to_nat 500) (mkSessionId 20 bob) (RouteReturn (Pseudonym bob)) (Z.to_nat 3000))
    as (s' & Hw & _ & Hr); [done|done|done| | | | |exact (ex_intro _ s' (conj Hw Hr))].
  - constructor; [by left|]. constructor; [by right|constructor].
  - apply Nat.leb_le. by vm_compute.
  - apply Nat.leb_le. by vm_compute.
  - apply Nat.leb_le. by vm_compute.
Defined.

(** A controller whose output is the distance to its set point. *)
#[export] Instance distance : PidController := {|
  Pid := f64;
  Pid_new set_point limit := set_point;
  pid_p _ _ p := p;
  pid_i _ _ p := p;
  pid_d _ _ p := p;
  next_control_output x p := (p, f64_sub p x)
|}.

(** A burst of use before anything was counted as delivered. *)
Definition readings : list Reading :=
  [mkReading (from_millis 500) (from_millis 500) 0 3; mkReading (from_millis 1000) (from_millis 1001) 10 4].

Lemma estimate_is_surplus_witness : ∃ b, updates (E:=unit) readings (SurbBalancer_new None None None 0 SurbBalancerConfig_default) = Ok b ∧
  current_target_buffer b = 9.
Proof.
  destruct (estimate_is_surplus (E:=unit) None None None 0 SurbBalancerConfig_default readings) as (b & Hrun & Hlevel);
    [done|by vm_compute|]. exists b. split; [done|]. rewrite Hlevel. by vm_compute.
Defined.
